(* ===== verification/_CoqProject ===== *)
-Q . S2P
Prelude.v
PyLib.v
PyText.v
PyBytes.v
RateWindow.v
GrpcCodec.v
Reader.v
WsCodec.v
ReadBuffer.v
BufferReader.v
MqttWire.v
MqttPackets.v
MqttFramer.v
MqttTopics.v
MqttBroker.v
StructuredFields.v
H2Frames.v
H2Recipient.v
H2Sender.v
HttpHeaders.v
Http1Parse.v
Http1Body.v
Http1Loop.v
Http1Sender.v
H2Request.v
H2Stream.v
H2Ws.v
H2Conn.v
Routing.v
WsRecipient.v
Pipeline.v
Cache.v
Compression.v
Cors.v
StaticFiles.v
Request.v
GrpcServe.v
Deflate.v
WsSend.v
WsHandler.v
WsActor.v
WsClient.v
Events.v
App.v
HttpClient.v
Detect.v
Deadline.v
CapLog.v
