(* ===== verification/Prelude.v ===== *)
(** * BlackBull: a verification development

    BlackBull (the Python package under [src/blackbull]) is a server framework:
    one asyncio process accepts connections, reads bytes into a flat buffer,
    decides the protocol, and hands HTTP/1.1, HTTP/2, WebSocket, gRPC and MQTT 5
    traffic to handlers.  This library models the parts of it that are
    computations on bytes and state, function by function, and proves what each
    part promises to its callers.

    ** How the program fits together, and which file models what

    Bytes arrive through [ConnectionProtocol.get_buffer]/[buffer_updated] into
    a [ReadBuffer]; protocol actors read them through [BufferReader].  Above it
    sit the codecs: HTTP/2 frames ([FrameFactory.load]), WebSocket frames,
    gRPC messages inside HTTP/2 bodies, MQTT packets cut out of the stream by
    [PacketFramer].  MQTT packets become messages to the one [BrokerActor].
    Structured field values carry the HTTP priority field.

    - [Prelude]: byte and integer notions ([zlen], [slice], big-endian integers,
      [bytes_ok]), Python exceptions as [exn] and fallible code as [result]
      with the [let*] notation, tactics and hint databases.
    - [PyLib]: Python dicts as association lists in insertion order
      ([dget], [dset], [dpop], with their laws).
    - [PyText]: [str] as code points, the UTF-8 codec, ASCII literals,
      [bytes.find], decimal numerals.
    - [PyBytes]: the [bytes] methods the parsers use ([split], [find],
      [partition], [strip], [translate], [isdigit], [int]) and their laws.
    - [RateWindow]: [server/rate_window.py].
    - [Reader]: the interfaces [ByteReader] and [StreamReader] — what a reader
      delivers, one read at a time and as a stream with an end — that the
      WebSocket codec and the HTTP/1.1 connection are proved against, and that
      [BufferReader] implements.
    - [ReadBuffer]: [server/read_buffer.py], cursors, growth, compaction, scan.
    - [BufferReader]: the read side of [server/connection_protocol.py]; the
      schedule of deliveries is part of the state, so that "awaits data" is a
      transition that consumes the next delivery.
    - [WsCodec]: [server/ws_codec.py].
    - [GrpcCodec]: [grpc/codec.py].
    - [MqttWire], [MqttPackets], [MqttTopics]: [mqtt/messages.py] (primitive
      types and properties; the fifteen packet types; topic names and filters).
    - [MqttFramer]: [PacketFramer] of [mqtt/connection.py], against the
      interface [PacketDecoder] that [MqttPackets] discharges.
    - [MqttBroker]: [mqtt/broker.py].
    - [StructuredFields]: [protocol/structured_fields.py].
    - [H2Frames]: [protocol/frame_types.py], [protocol/frame.py],
      [protocol/hpack_fastpath.py].
    - [HttpHeaders]: [headers.py], the list of fields with its index.
    - [H2Recipient]: [HTTP2Recipient] of [server/recipient.py], the queue
      between the frame loop and a stream's handler.
    - [H2Sender]: [HTTP2Sender] of [server/sender.py]: coroutines as lists of
      steps that interleave with window updates and resets at every [await].
    - [Http1Parse]: [HTTP1Actor._parse] and the validation functions of
      [server/http1_actor.py]; the line cache is part of the actor's state.
    - [Http1Body]: [HTTP1Recipient] of [server/recipient.py], over
      [StreamReader]; the clock is the list of the waits of its reads.
    - [Http1Loop]: [HTTP1Actor.run], from the stream, the lines cached and the
      application's behaviours to the list of answers; it composes [Http1Parse]
      with [Http1Body] over one reader.
    - [Http1Sender]: [HTTP1Sender] of [server/sender.py] with the native response
      object of [native.py].
    - [Routing]: [router.py]: the trie, the table, the lookup cache, reverse
      routing, the error router.
    - [WsRecipient]: [WebSocketRecipient] of [server/recipient.py] with its
      fragment assembler, both read modes (inline, and read ahead into the
      queue) and the liveness policy; [InboundDecompressor] of
      [server/permessage_deflate.py].
    - [H2Request]: [server/parser.py], the request of a header block, with the
      parts of [urllib.parse] it uses.
    - [H2Stream], [H2Ws]: [protocol/stream.py]; the reader of
      [server/http2_ws.py].
    - [H2Conn]: [HTTP2Actor] of [server/http2_actor.py] with the responders of
      [server/response.py]: a turn of the frame loop is one function, handlers
      run between turns; it composes [H2Frames], [H2Request], [H2Stream],
      [H2Recipient], [H2Sender] and [RateWindow].
    - [Pipeline]: the request ([connection.py]), the adapter of handlers' sends
      ([response.py]), and what a sequence of events answers; the ground of the
      middlewares below.
    - [Cache]: [middleware/cache.py]; requests in flight interleave on one store.
    - [Compression]: [middleware/compression.py].
    - [Cors]: [middleware/cors.py] and [middleware/proxy.py]; the composition of
      CORS with [Cache].
    - [StaticFiles]: [middleware/static.py], over a file system given as a record
      of functions.
    - [Request]: [request.py] and the body cache of [connection.py]; the two arms of
      [read_body] compared over [H2Recipient].
    - [GrpcServe]: [grpc/asgi.py], [grpc/registry.py], [grpc/status.py],
      [grpc/compression.py]; a handler is a tree of effects, and the schedule of its
      waits is a list.
    - [Deflate]: [server/permessage_deflate.py], the negotiation and the outbound
      compressor.
    - [WsSend]: [WebSocketSender] of [server/sender.py] with the native message of
      [native.py].
    - [WsHandler]: [websocket.py], the object handlers use, and
      [middleware/websocket.py]; a handler is a function from the answers it has had
      to its next call.
    - [WsActor]: [server/websocket_actor.py] with the handshake of
      [server/http1_actor.py]; it composes [WsHandler], [WsSend], [WsRecipient],
      [Deflate] and [Http1Sender] over one connection.
    - [WsClient]: [client/websocket.py], the other end of the handshake.
    - [Events]: [event.py], the dispatcher of events, and [event_aggregator.py].
    - [App]: [app.py]: dispatch, error responses, global middlewares, terminal events
      and the life span, over [Routing], [Events] and [Pipeline]; handlers and
      middlewares are trees of the steps user code may take.
    - [HttpClient]: [client/http1.py], over [ByteReader] extended by [readuntil].
    - [Detect]: [server/protocol_registry.py] and [server/connection_actor.py], from
      the accepted connection to the actor that serves it, over the interface
      [Sniffer].
    - [Deadline]: [server/deadline.py]; the steps of a worker's tasks interleave with
      the clock and the ticks of the scanner.
    - [CapLog]: [server/cap_log.py].
    Each component keeps its state in a Record with the source's attribute
    names, each method is one Definition (a Fixpoint where the source loops),
    and a method that mutates returns the new state.  [await]ed sends append to
    an explicit list of sent replies; clock readings and deliveries are inputs.

    ** What the theorems show

    Each theorem's comment states the conditions it is proved under; what is
    said here is the gist.  Where a condition matters, a lemma beside the
    theorem shows what happens without it (it is named in the comment).

    - Totality and error behaviour: parsers of hostile bytes return a value or
      one of the exceptions their callers catch (MQTT packets, structured
      fields, gRPC, WebSocket), and the read loops return on every schedule.
    - Round trips: frames, packets, headers, messages and structured values
      survive encode/decode exactly.
    - Refinement and equivalence: the read buffer refines a byte queue; the
      packet framer does not depend on how the stream is cut; topic matching
      and filter validation equal declarative definitions.
    - Invariants: the broker's sessions, caps and queued packets stay well-formed
      from the empty broker through any inbox, and a connection registered for a
      client is the one the client is reached by ([broker_run_ok]).
    - Protocol behaviour: QoS 2 once, flow control, ordered release of held
      messages, take-over, shared subscription rotation, packet identifiers.
    - Bounds: the framer's resident bytes, the head scan's linear cost, the rate
      meter, the lookup cache.
    - HTTP/1.1 framing, while no read of a body times out and no minimum rate is
      set: what a connection answers is a sequence of requests that the parser's
      reference accepts, each beginning where the complete body of the one before
      ends ([run_pipeline]), and a well-formed pipeline is served whole
      ([requests_served]).  Below them: the parser with its
      cache and shortcuts against a reference without them, acceptance implies
      unambiguous framing, the chunked decoder against a grammar.
    - HTTP/2 flow control: data never exceeds a window under any interleaving
      without cancelled writes and trailers ([stream_window]), END_STREAM is last,
      inbound octets and credit are conserved ([inbound_conserved]).
    - HTTP/1.1 responses: the octets of a response parse back to it under the
      client's reading of the framing, and the native path equals the ASGI path.
    - Routing: a lookup answers as the table of routes says (literal before
      parameter before rest-of-path, then registration order), 404 and 405 are
      exact, the cache cannot be observed, and a URL built from a named route
      routes back to it.
    - WebSocket: the read side ends properly on any octets ([ws_any_peer]); the
      application receives the same whichever mode and schedule drives the wire
      ([ws_schedule]); a client's conversation within the limits, those on control
      frames among them, is understood whole ([ws_session]).
    - HTTP/2 connection: whatever a peer sends and however handlers run, push and
      fail, the counters are the running handlers, those of the peer's requests
      stay under their caps, the record of closed streams is bounded, a GOAWAY is
      written before the close only to answer the peer's, and no request is started
      after it ([h2_any_peer]); the request of a header block is the one HTTP/1.1 reads
      from the same request ([transports_agree]), and is withheld exactly for a
      malformed block ([request_contract]).
    - Middlewares: the response cache answers only with what a handler gave for an
      equivalent request, in every interleaving ([cache_hit_sound]); compression changes the coding of a response and nothing
      else ([compression_transparent]); a permission for one origin is never
      served to another from the cache ([cors_through_cache]); static files are
      answered by their own octets, whole or by the range asked for
      ([static_answers]), nothing outside the root can be learned unless a
      precompressed sibling links out of it ([static_confined]), and the caches of bodies and
      siblings cannot be seen ([static_cache_transparent]).
    - gRPC: a call whose sends the transport takes is answered by one response whose
      messages and status are those of the handler, under every batching and
      deadline ([grpc_answers]); requests
      reach it as they were framed ([requests_received]).
    - WebSocket, the whole path: the two ends agree on the handshake
      ([handshake_agreed]) and on compression ([deflate_negotiated]); what a handler
      sends is what the recipient of a client is handed ([ws_end_to_end]); no
      handler can break the order of accept, messages and close
      ([ws_object_conforms], [ws_middleware_conforms]).
    - The application: failures are answered once, with the right status and nothing
      of the exception ([failures_answered], [error_page_inert]), and the terminal
      events are delivered exactly once ([terminal_once]), both unless an interceptor
      raises; an external host sees what the
      native server sees ([boundary_transparent]); the life span is acknowledged
      ([lifespan_acknowledged]).
    - The client: the requests it writes are the ones [Http1Loop] serves, and it reads
      from the octets of [Http1Sender] the response that was sent
      ([http1_conversation]).
    - The front door: a connection is served by the protocol its first octets (or
      ALPN) say, however they arrive, or is timed out before they have
      ([connection_dispatched]), and is closed and reported whatever happens
      ([connection_lifecycle]).
    - Time: until a watchdog's callback raises, no armed deadline is missed, and none
      ever fires early ([deadlines_kept]); a guarded read is bounded
      ([guard_bounds]), and so is a drain, whoever rides along
      ([write_bounds]); every exceeded limit is told in the log ([hits_accounted]).
    ** Fuel and widths

    Loops that are not structural take fuel, always the length of the input or
    of the remaining schedule; running out is the value [OutOfFuel] of [exn],
    and the totality theorems show that it never happens.  The
    HTTP/1.1 loops take the length of what is left of the stream, since each
    turn consumes at least a line; the trie's walk takes the number of frames it
    can push.  The packet identifier search takes 65535 steps, the size of its space.  Python
    integers are unbounded and are [Z]; where the source packs an integer into
    a field, [to_bytes] raises [OverflowError] out of range, and masks are
    written with [Z.land], [Z.shiftr] as in the source.

    ** Parameters

    HPACK is the third-party package [hpack]: the class [Hpack] of [H2Frames]
    holds its encoder and decoder with the round-trip law the frames rely on,
    and a toy instance shows the law can hold.  The
    inflater of [zlib] ([decompressobj] and its [decompress]) is a pair of
    functions [WsRecipient] is parametric in.  The test of [ipaddress] and
    [unicodedata] that [urlsplit] makes on a network location is the parameter
    [netloc_ok] of [H2Request].  The middlewares are parametric in the digest
    ([sha256]), the compressors, the address parser of [ipaddress], and the type
    guess and the date functions of [mimetypes] and [email.utils].  A [float]
    appears only as a structured-field decimal and is represented by the digits
    it prints as.

    ** Not modelled

    The socket, TLS and process layer; asyncio scheduling below the level of
    whole handler steps; [re], [zlib], [brotli] and the other packages the code
    calls; the sender of a pushed HTTP/2 stream, the timer of the request timeout and
    the stream semaphore; what a transport does with octets written after its close;
    logging, metrics, configuration and the command line; the HTTP/2 client and
    the scenario executors, the fault-injection tools and the application's own
    callables.
    Parts planned but not yet modelled are listed as such in the manifest. *)

From Stdlib Require Import ZArith Lia.
From stdpp Require Import base tactics numbers option strings sets list.

#[global] Open Scope Z_scope.

(** ** Python exceptions and fallible computations *)

(** The exception classes the modelled code raises or catches.  Messages are
    not modelled; the two "too large" exceptions carry the numbers their
    handlers read.  [OutOfFuel] is not a Python exception: it is what a loop
    modelled with fuel returns when the fuel runs out, and the components
    prove that the fuel they pass is enough. *)
Inductive exn : Type :=
| ValueError
| UnicodeDecodeError
| UnicodeEncodeError
| MQTTDecodeError
| GrpcDecodeError
| IncompletePacket
| IncompleteReadError
| IndexError
| KeyError
| TypeError
| AttributeError
| OverflowError
| RuntimeError
| BufferError
| PlainException
| FramePayloadTooLarge (declared maximum : Z)
| PacketTooLarge (declared maximum : Z)
| ReadLimitExceeded
| BadRequestError
| HeaderTooLargeError
| NotImplementedFramingError
| UnsupportedVersionError
| HTTPException (status : Z)
| ClientDisconnected
| ProtocolError (close_code : Z)
| MessageTooLarge (total maximum : Z)
| TimeoutError
| LimitOverrunError
| NotImplementedError
| OSError
| ConfigurationError
| FlowControlStalled
| WebSocketDisconnect (code : Z) (reason : option (list Z))
| CancelledError
| UserException (cls : Z)
| OutOfFuel.

#[export] Instance exn_eq_dec : EqDecision exn.
Proof. solve_decision. Defined.

(** [except ValueError] also catches the subclasses of [ValueError]. *)
Definition isa_ValueError (e : exn) : bool :=
  match e with
  | ValueError | UnicodeDecodeError | UnicodeEncodeError
  | MQTTDecodeError | GrpcDecodeError => true
  | _ => false
  end.

Inductive result (A : Type) : Type :=
| Ok (a : A)
| Raise (e : exn).
Arguments Ok {A} a.
Arguments Raise {A} e.

#[export] Instance result_eq_dec {A} `{!EqDecision A} : EqDecision (result A).
Proof. solve_decision. Defined.

Definition rbind {A B} (m : result A) (k : A -> result B) : result B :=
  match m with
  | Ok a => k a
  | Raise e => Raise e
  end.

Definition rmap {A B} (f : A -> B) (m : result A) : result B :=
  rbind m (fun a => Ok (f a)).

Declare Scope py_scope.
Delimit Scope py_scope with py.
Notation "'let*' x := m 'in' k" := (rbind m (fun x => k))
  (at level 10, x name, m at level 100, k at level 200) : py_scope.
Notation "'let*' ' p := m 'in' k" := (rbind m (fun x => match x with p => k end))
  (at level 10, p strict pattern, m at level 100, k at level 200) : py_scope.
#[global] Open Scope py_scope.

(** Code that changes a state [S] and may raise: what it changed before it
    raised stays changed. *)
Definition smonad (S A : Type) : Type := S -> result A * S.

Definition sret {S A} (a : A) : smonad S A := fun s => (Ok a, s).
Definition sraise {S A} (e : exn) : smonad S A := fun s => (Raise e, s).
Definition supdate {S} (f : S -> S) : smonad S unit := fun s => (Ok tt, f s).
Definition slift {S A} (m : result A) : smonad S A := fun s => (m, s).

Definition sbind {S A B} (m : smonad S A) (k : A -> smonad S B) : smonad S B :=
  fun s => match m s with (Ok a, s') => k a s' | (Raise e, s') => (Raise e, s') end.

(** [try: m except e: h e], where [h] declines with [None]. *)
Definition scatch {S A} (m : smonad S A) (h : exn -> option (smonad S A)) : smonad S A :=
  fun s =>
    match m s with
    | (Raise e, s') => match h e with Some k => k s' | None => (Raise e, s') end
    | r => r
    end.

Notation "'let!' x := m 'in' k" := (sbind m (fun x => k))
  (at level 10, x name, m at level 100, k at level 200) : py_scope.
Notation "'do!' m 'in' k" := (sbind m (fun _ => k))
  (at level 10, m at level 100, k at level 200) : py_scope.

(** What a run ends in: [Q] of a value and the state, or [E] of an exception and
    the state. *)
Definition ends {S A} (Q : A -> S -> Prop) (E : exn -> S -> Prop) (x : result A * S) : Prop :=
  match x with (Ok a, s) => Q a s | (Raise e, s) => E e s end.

Lemma ends_mono {S A} (Q Q' : A -> S -> Prop) (E E' : exn -> S -> Prop) x :
  ends Q E x -> (forall a s, Q a s -> Q' a s) -> (forall e s, E e s -> E' e s) -> ends Q' E' x.
Proof. destruct x as [[a|e] s]; simpl; auto. Qed.

Lemma ends_bind {S A B} (m : smonad S A) (k : A -> smonad S B) Q E s :
  ends (fun a s' => ends Q E (k a s')) E (m s) -> ends Q E (sbind m k s).
Proof. unfold sbind. by destruct (m s) as [[a|e] s']. Qed.

Lemma ends_catch {S A} (m : smonad S A) (h : exn -> option (smonad S A)) Q E s :
  ends Q (fun e s' => match h e with Some k => ends Q E (k s') | None => E e s' end) (m s) -> ends Q E (scatch m h s).
Proof. unfold scatch. destruct (m s) as [[a|e] s']; simpl; [done|]. by destruct (h e). Qed.

Lemma rbind_Ok {A B} (m : result A) (k : A -> result B) b :
  rbind m k = Ok b <-> exists a, m = Ok a /\ k a = Ok b.
Proof. destruct m; simpl; naive_solver. Qed.

Lemma rbind_Raise {A B} (m : result A) (k : A -> result B) e :
  rbind m k = Raise e <-> m = Raise e \/ exists a, m = Ok a /\ k a = Raise e.
Proof. destruct m; simpl; naive_solver. Qed.

Lemma rbind_assoc {A B C} (m : result A) (k : A -> result B) (l : B -> result C) :
  rbind (rbind m k) l = rbind m (fun a => rbind (k a) l).
Proof. by destruct m. Qed.

(** Consume a hypothesis [rbind m k = Ok _], naming the intermediate value. *)
Ltac inv_ok :=
  repeat match goal with
  | H : rbind _ _ = Ok _ |- _ =>
      let a := fresh "a" in let Ha := fresh "Ha" in
      apply rbind_Ok in H as (a & Ha & H)
  | H : Ok _ = Ok _ |- _ => injection H as H; try subst
  | H : Raise _ = Ok _ |- _ => discriminate H
  | H : Ok _ = Raise _ |- _ => discriminate H
  end.

(** ** Bytes, text and positions *)

(** [bytes] and [bytearray] are lists of integers in [0, 256); [str] is a list
    of code points.  Lengths and offsets are Python integers, that is [Z]. *)
Abbreviation bytes := (list Z).
Abbreviation pystr := (list Z).

Definition is_byte (b : Z) : Prop := 0 <= b < 256.
Definition bytes_ok (l : bytes) : Prop := Forall is_byte l.

#[export] Instance is_byte_dec b : Decision (is_byte b).
Proof. unfold is_byte. apply _. Defined.
#[export] Instance bytes_ok_dec l : Decision (bytes_ok l).
Proof. unfold bytes_ok. apply _. Defined.

(** The code points of an ASCII literal of the source. *)
Definition lit (s : string) : list Z :=
  (fun a => Z.of_N (Ascii.N_of_ascii a)) <$> String.list_ascii_of_string s.

Definition zlen {A} (l : list A) : Z := Z.of_nat (length l).

(** [l[a:b]] for non-negative [a] and [b], clamped as Python clamps. *)
Definition slice {A} (l : list A) (a b : Z) : list A :=
  take (Z.to_nat (b - a)) (drop (Z.to_nat a) l).

(** [l[a:]] for non-negative [a]. *)
Definition slice_from {A} (l : list A) (a : Z) : list A := drop (Z.to_nat a) l.

(** [l[i]] for non-negative [i]; out of range raises [IndexError]. *)
Definition zget {A} (l : list A) (i : Z) : result A :=
  match l !! Z.to_nat i with
  | Some x => Ok x
  | None => Raise IndexError
  end.

(** [int.from_bytes(l, 'big', signed=False)]. *)
Definition from_bytes (l : bytes) : Z := foldl (fun acc b => acc * 256 + b) 0 l.

(** The [n] low bytes of [v], big-endian. *)
Fixpoint be_bytes (n : nat) (v : Z) : bytes :=
  match n with
  | O => []
  | S n' => be_bytes n' (v / 256) ++ [v mod 256]
  end.

(** [v.to_bytes(n, 'big')]: [OverflowError] when [v] does not fit. *)
Definition to_bytes (n : nat) (v : Z) : result bytes :=
  if bool_decide (0 <= v < 256 ^ Z.of_nat n) then Ok (be_bytes n v)
  else Raise OverflowError.

(** [bytes([v])]: [ValueError] when [v] is not in [range(256)]. *)
Definition byte1 (v : Z) : result bytes :=
  if bool_decide (is_byte v) then Ok [v] else Raise ValueError.

Arguments from_bytes : simpl never.
Arguments to_bytes : simpl never.
Arguments slice : simpl never.
Arguments slice_from : simpl never.
Arguments zget : simpl never.
Arguments zlen : simpl never.

Create HintDb blackbull.
Create Rewrite HintDb zlen.
#[export] Hint Unfold is_byte bytes_ok zlen : blackbull.

(** [lens] normalises lengths of concatenations, slices and byte encodings and
    leaves the rest to [lia]. *)
Ltac lens :=
  unfold zlen in *;
  repeat (rewrite ?length_app, ?length_take, ?length_drop, ?length_cons,
                  ?length_replicate, ?length_fmap, ?length_reverse in *; simpl length in *);
  try lia.

(** [divmod] solves linear goals with division and modulo by constants. *)
Ltac divmod := Z.to_euclidean_division_equations; lia.

(** [case_cmp] splits on every integer comparison of the goal. *)
Ltac case_cmp :=
  repeat match goal with
  | |- context [?a >? ?b] => rewrite (Z.gtb_ltb a b)
  | |- context [?a >=? ?b] => rewrite (Z.geb_leb a b)
  | |- context [?a <? ?b] => destruct (Z.ltb_spec a b)
  | |- context [?a <=? ?b] => destruct (Z.leb_spec a b)
  | |- context [?a =? ?b] => destruct (Z.eqb_spec a b)
  end.

(** [settle_cmp] replaces the comparisons whose truth value [lia] can settle. *)
Ltac settle_cmp :=
  repeat match goal with
  | |- context [?a >? ?b] => rewrite (Z.gtb_ltb a b)
  | |- context [?a >=? ?b] => rewrite (Z.geb_leb a b)
  | |- context [?a <? ?b] =>
      first [ rewrite (proj2 (Z.ltb_lt a b)) by divmod | rewrite (proj2 (Z.ltb_ge a b)) by divmod ]
  | |- context [?a <=? ?b] =>
      first [ rewrite (proj2 (Z.leb_le a b)) by divmod | rewrite (proj2 (Z.leb_gt a b)) by divmod ]
  | |- context [?a =? ?b] =>
      first [ rewrite (proj2 (Z.eqb_eq a b)) by divmod | rewrite (proj2 (Z.eqb_neq a b)) by divmod ]
  end.

(** [decide_it] evaluates a decidable goal. *)
Ltac decide_it := apply (bool_decide_unpack _); vm_compute; exact I.

Lemma zlen_nonneg {A} (l : list A) : 0 <= zlen l.
Proof. unfold zlen; lia. Qed.

Lemma zlen_app {A} (l1 l2 : list A) : zlen (l1 ++ l2) = zlen l1 + zlen l2.
Proof. lens. Qed.

Lemma zlen_cons {A} (x : A) l : zlen (x :: l) = 1 + zlen l.
Proof. unfold zlen; simpl; lia. Qed.

Lemma zlen_join_elem {A} (x : list A) ls : x ∈ ls -> zlen x <= zlen (mjoin ls).
Proof.
  induction 1 as [x ls|x y ls _ IH]; unfold mjoin in *; cbn [list_join]; rewrite zlen_app.
  - pose proof (zlen_nonneg (mjoin ls)). unfold mjoin in *. lia.
  - pose proof (zlen_nonneg y). unfold mjoin. lia.
Qed.

Lemma zlen_nil {A} : zlen (@nil A) = 0.
Proof. reflexivity. Qed.

Lemma length_be_bytes n v : length (be_bytes n v) = n.
Proof. revert v; induction n; intros; cbn [be_bytes]; [done|]. rewrite length_app, IHn; simpl; lia. Qed.

Lemma zlen_be_bytes n v : zlen (be_bytes n v) = Z.of_nat n.
Proof. unfold zlen. by rewrite length_be_bytes. Qed.

#[export] Hint Rewrite @zlen_app @zlen_cons @zlen_nil zlen_be_bytes : zlen.

Lemma bytes_ok_app l1 l2 : bytes_ok (l1 ++ l2) <-> bytes_ok l1 /\ bytes_ok l2.
Proof. apply Forall_app. Qed.

Lemma bytes_ok_cons b l : bytes_ok (b :: l) <-> is_byte b /\ bytes_ok l.
Proof. apply Forall_cons. Qed.

Lemma be_bytes_ok n v : bytes_ok (be_bytes n v).
Proof.
  revert v; induction n; intros; cbn [be_bytes]; [constructor|].
  apply bytes_ok_app; split; [apply IHn|].
  constructor; [|constructor]. unfold is_byte. apply Z.mod_pos_bound; lia.
Qed.

Lemma bytes_ok_take n l : bytes_ok l -> bytes_ok (take n l).
Proof. apply Forall_take. Qed.

Lemma bytes_ok_drop n l : bytes_ok l -> bytes_ok (drop n l).
Proof. apply Forall_drop. Qed.

Lemma bytes_ok_slice l a b : bytes_ok l -> bytes_ok (slice l a b).
Proof. intros. by apply bytes_ok_take, bytes_ok_drop. Qed.
#[export] Hint Resolve be_bytes_ok bytes_ok_take bytes_ok_drop bytes_ok_slice : blackbull.

(** ** Big-endian integers *)

Lemma from_bytes_snoc l b : from_bytes (l ++ [b]) = from_bytes l * 256 + b.
Proof. unfold from_bytes. by rewrite foldl_app. Qed.

Lemma from_bytes_nonneg l : bytes_ok l -> 0 <= from_bytes l < 256 ^ zlen l.
Proof.
  induction l as [|b l IH] using rev_ind; intros Hok; [by compute|].
  apply bytes_ok_app in Hok as [Hl Hb]. apply bytes_ok_cons in Hb as [Hb _]. unfold is_byte in Hb.
  specialize (IH Hl). rewrite from_bytes_snoc, zlen_app.
  change (zlen [b]) with 1. rewrite Z.pow_add_r by (unfold zlen; lia).
  change (256 ^ 1) with 256. set (P := 256 ^ zlen l) in *. clearbody P. lia.
Qed.

Lemma from_bytes_be_bytes n v : from_bytes (be_bytes n v) = v mod 256 ^ Z.of_nat n.
Proof.
  revert v; induction n as [|n IH]; intros v; [by rewrite Z.mod_1_r|].
  cbn [be_bytes]. rewrite from_bytes_snoc, IH.
  rewrite Nat2Z.inj_succ, Z.pow_succ_r by lia.
  assert (0 < 256 ^ Z.of_nat n) by (apply Z.pow_pos_nonneg; lia).
  rewrite Z.rem_mul_r by (try done; lia). ring.
Qed.

Lemma from_be_small n v :
  0 <= v < 256 ^ Z.of_nat n -> from_bytes (be_bytes n v) = v.
Proof. intros. rewrite from_bytes_be_bytes. by apply Z.mod_small. Qed.

Lemma be_from_bytes l : bytes_ok l -> be_bytes (length l) (from_bytes l) = l.
Proof.
  induction l as [|b l IH] using rev_ind; intros Hok; [done|].
  apply bytes_ok_app in Hok as [Hl Hb]. apply bytes_ok_cons in Hb as [Hb _]. unfold is_byte in Hb.
  rewrite length_app, Nat.add_comm; cbn [length Nat.add be_bytes].
  rewrite from_bytes_snoc, Z.div_add_l, (Z.div_small b) by lia.
  rewrite Z.add_0_r, IH by done.
  by rewrite Z.add_comm, Z.mod_add, Z.mod_small by lia.
Qed.

Lemma to_bytes_Ok n v :
  0 <= v < 256 ^ Z.of_nat n -> to_bytes n v = Ok (be_bytes n v).
Proof. intros. unfold to_bytes. by rewrite bool_decide_true. Qed.

Lemma to_bytes_inv n v l :
  to_bytes n v = Ok l -> l = be_bytes n v /\ 0 <= v < 256 ^ Z.of_nat n.
Proof. unfold to_bytes. case_bool_decide; naive_solver. Qed.

Lemma byte1_Ok v : is_byte v -> byte1 v = Ok [v].
Proof. intros. unfold byte1. by rewrite bool_decide_true. Qed.

(** ** Slices of concatenations *)

Lemma slice_0 {A} (l : list A) n : slice l 0 n = take (Z.to_nat n) l.
Proof. unfold slice. by rewrite Z.sub_0_r. Qed.

Lemma slice_app_l {A} (l r : list A) : slice (l ++ r) 0 (zlen l) = l.
Proof. rewrite slice_0. unfold zlen. by rewrite Nat2Z.id, take_app_length. Qed.

Lemma slice_mid {A} (pre mid post : list A) a b :
  a = zlen pre -> b = zlen pre + zlen mid -> slice (pre ++ mid ++ post) a b = mid.
Proof.
  intros -> ->. unfold slice, zlen.
  rewrite Nat2Z.id, drop_app_length.
  replace (Z.to_nat _) with (length mid) by lia. apply take_app_length.
Qed.

Lemma slice_from_app {A} (pre post : list A) a :
  a = zlen pre -> slice_from (pre ++ post) a = post.
Proof. intros ->. unfold slice_from, zlen. by rewrite Nat2Z.id, drop_app_length. Qed.

Lemma slice_all {A} (l : list A) b : zlen l <= b -> slice l 0 b = l.
Proof. intros. rewrite slice_0. apply take_ge. unfold zlen in *; lia. Qed.

Lemma zget_app_mid {A} (pre : list A) x post i :
  i = zlen pre -> zget (pre ++ x :: post) i = Ok x.
Proof.
  intros ->. unfold zget, zlen. by rewrite Nat2Z.id, list_lookup_middle.
Qed.

Lemma zget_lt {A} (l : list A) i : 0 <= i < zlen l -> exists x, zget l i = Ok x.
Proof.
  unfold zget, zlen. intros Hi. destruct (lookup_lt_is_Some_2 l (Z.to_nat i)) as [x Hx]; [lia|].
  exists x. by rewrite Hx.
Qed.

Lemma zget_elem {A} (l : list A) i x : zget l i = Ok x -> x ∈ l.
Proof. unfold zget. case_match; intros; simplify_eq. by eapply list_elem_of_lookup_2. Qed.

Lemma zlen_slice {A} (l : list A) a b :
  0 <= a -> a <= b -> b <= zlen l -> zlen (slice l a b) = b - a.
Proof. unfold slice. intros. lens. Qed.

Lemma zlen_slice_from {A} (l : list A) a :
  0 <= a <= zlen l -> zlen (slice_from l a) = zlen l - a.
Proof. unfold slice_from. intros. lens. Qed.

Lemma take_app_zlen {A} (l r : list A) n : n = zlen l -> take (Z.to_nat n) (l ++ r) = l.
Proof. intros ->. unfold zlen. by rewrite Nat2Z.id, take_app_length. Qed.

Lemma drop_app_zlen {A} (l r : list A) n : n = zlen l -> drop (Z.to_nat n) (l ++ r) = r.
Proof. intros ->. unfold zlen. by rewrite Nat2Z.id, drop_app_length. Qed.

(** ** Bit fields *)

(** [v & (2^k - 1)] keeps the low [k] bits. *)
Lemma land_low v k : 0 <= k -> Z.land v (Z.ones k) = v mod 2 ^ k.
Proof. apply Z.land_ones. Qed.

Lemma testbit_small v k : 0 <= v < 2 ^ k -> forall i, k <= i -> Z.testbit v i = false.
Proof.
  intros Hv i Hi. destruct (Z.eq_dec v 0) as [->|]; [apply Z.bits_0|].
  apply Z.bits_above_log2; [lia|]. apply Z.lt_le_trans with k; [|done].
  apply Z.log2_lt_pow2; lia.
Qed.

(** Disjoint bit fields are added by [|]. *)
Lemma lor_add_disjoint a b : Z.land a b = 0 -> Z.lor a b = a + b.
Proof. intros H. by rewrite <- Z.lxor_lor, Z.add_nocarry_lxor. Qed.

(** Finite case analysis: a boolean property checked on all of [range(n)]. *)
Lemma range_forall (n : nat) (P : Z -> bool) :
  forallb P (Z.of_nat <$> seq 0 n) = true -> forall v, 0 <= v < Z.of_nat n -> P v = true.
Proof.
  intros H v Hv. rewrite forallb_forall in H. apply H.
  apply list_elem_of_In, list_elem_of_fmap. exists (Z.to_nat v).
  split; [lia|]. apply elem_of_seq. lia.
Qed.

Lemma byte_forall (P : Z -> bool) :
  forallb P (Z.of_nat <$> seq 0 256) = true -> forall b, is_byte b -> P b = true.
Proof. apply (range_forall 256). Qed.

Arguments be_bytes : simpl never.
