(* ===== verification/PyLib.v ===== *)
(** * The parts of Python's standard library that the modelled code calls

    Insertion-ordered dictionaries, [str.split] and [find], the strict UTF-8
    codec, strict base64 and decimal integer literals.  None of this is code
    of the repository; every function follows the documented behaviour of
    CPython (3.11 or later, the version the project declares), and the lemmas
    are the facts the components rest on. *)

From Stdlib Require Import ZArith Lia.
From stdpp Require Import base tactics numbers option strings sets list.
From S2P Require Import Prelude.

(** ** Insertion-ordered dictionaries *)

(** A [dict] iterates in insertion order, and assigning to a present key keeps
    that key's position, so it is an association list, not a [gmap]. *)
Definition dict (K V : Type) : Type := list (K * V).

Section Dict.
Context {K V : Type} `{!EqDecision K}.
Implicit Types (d : dict K V) (k : K) (v : V).

(** [d.get(k)] *)
Fixpoint dget d k : option V :=
  match d with
  | [] => None
  | (k', v) :: d' => if decide (k = k') then Some v else dget d' k
  end.

(** [d[k] = v] *)
Fixpoint dset d k v : dict K V :=
  match d with
  | [] => [(k, v)]
  | (k', v') :: d' => if decide (k = k') then (k', v) :: d' else (k', v') :: dset d' k v
  end.

(** [d.pop(k, None)], as its effect on the dictionary. *)
Fixpoint dpop d k : dict K V :=
  match d with
  | [] => []
  | (k', v') :: d' => if decide (k = k') then d' else (k', v') :: dpop d' k
  end.

(** [k in d] *)
Definition dmem d k : bool := match dget d k with Some _ => true | None => false end.

Definition dkeys d : list K := d.*1.
Definition dvalues d : list V := d.*2.

(** Well-formed dictionaries have one entry per key. *)
Definition dict_ok d : Prop := NoDup (dkeys d).

Lemma dget_dset_eq d k v : dget (dset d k v) k = Some v.
Proof. induction d as [|[k' v'] d IH]; simpl; repeat (case_decide; simpl); congruence. Qed.

Lemma dget_dset_ne d k k' v : k <> k' -> dget (dset d k v) k' = dget d k'.
Proof. intros. induction d as [|[a b] d IH]; simpl; repeat (case_decide; simpl); congruence. Qed.

Lemma dget_dset d k k' v :
  dget (dset d k v) k' = if decide (k = k') then Some v else dget d k'.
Proof. case_decide; subst; auto using dget_dset_eq, dget_dset_ne. Qed.

Lemma dget_dpop_ne d k k' : k <> k' -> dget (dpop d k) k' = dget d k'.
Proof. intros. induction d as [|[a b] d IH]; simpl; repeat (case_decide; simpl); congruence. Qed.

Lemma dget_None d k : dget d k = None <-> k ∉ dkeys d.
Proof.
  induction d as [|[a b] d IH]; simpl; [set_solver|].
  case_decide; subst; unfold dkeys in *; simpl; set_solver.
Qed.

Lemma dget_elem d k v : dget d k = Some v -> (k, v) ∈ d.
Proof. induction d as [|[a b] d IH]; simpl; [done|]. case_decide; set_solver. Qed.

Lemma elem_dget d k v : dict_ok d -> (k, v) ∈ d -> dget d k = Some v.
Proof.
  unfold dict_ok, dkeys. induction d as [|[a b] d IH]; simpl; [set_solver|].
  intros [Ha Hd]%NoDup_cons [Heq | Hin]%elem_of_cons.
  - by simplify_eq; case_decide.
  - case_decide; [|by apply IH].
    subst. exfalso. apply Ha. apply list_elem_of_fmap. exists (a, v). by split.
Qed.

Lemma dget_dpop_eq d k : dict_ok d -> dget (dpop d k) k = None.
Proof.
  unfold dict_ok, dkeys. induction d as [|[a b] d IH]; simpl; [done|].
  intros [Ha Hd]%NoDup_cons. case_decide; subst; simpl.
  - by apply dget_None.
  - case_decide; [congruence|]. auto.
Qed.

Lemma dkeys_dset_mem d k v : is_Some (dget d k) -> dkeys (dset d k v) = dkeys d.
Proof.
  induction d as [|[a b] d IH]; simpl; [by intros []|].
  case_decide; subst; simpl; [done|]. intros. f_equal. auto.
Qed.

Lemma dset_fresh d k v : dget d k = None -> dset d k v = d ++ [(k, v)].
Proof. induction d as [|[a b] d IH]; simpl; [done|]. case_decide; [done|]. intros. f_equal. auto. Qed.

Lemma dset_ok d k v : dict_ok d -> dict_ok (dset d k v).
Proof.
  unfold dict_ok. intros. destruct (dget d k) eqn:E.
  - by rewrite dkeys_dset_mem by eauto.
  - rewrite dset_fresh by done. unfold dkeys. rewrite fmap_app. simpl.
    apply NoDup_app; split; [done|]. split; [|apply NoDup_singleton].
    apply dget_None in E. unfold dkeys in *. set_solver.
Qed.

Lemma elem_of_dkeys_dset d k v x : x ∈ dkeys (dset d k v) <-> x = k \/ x ∈ dkeys d.
Proof.
  unfold dkeys. induction d as [|[a b] d IH]; simpl; [set_solver|]. case_decide; subst; simpl; set_solver.
Qed.

Lemma dset_dset d k v v' : dset (dset d k v) k v' = dset d k v'.
Proof. induction d as [|[a b] d IH]; simpl; repeat (case_decide; simpl); congruence. Qed.

Lemma dpop_sublist d k : dpop d k `sublist_of` d.
Proof.
  induction d as [|[a b] d IH]; simpl; [done|]. case_decide; subst.
  - by apply sublist_cons.
  - by apply sublist_skip.
Qed.

Lemma dpop_ok d k : dict_ok d -> dict_ok (dpop d k).
Proof.
  unfold dict_ok, dkeys. intros H.
  eapply sublist_NoDup; [done|]. apply fmap_sublist, dpop_sublist.
Qed.

Lemma length_dset d k v :
  length (dset d k v) = if dmem d k then length d else S (length d).
Proof.
  unfold dmem. induction d as [|[a b] d IH]; simpl; [done|]. case_decide; simpl; [done|].
  rewrite IH. by destruct (dget d k).
Qed.

Lemma length_dpop_le d k : (length (dpop d k) <= length d)%nat.
Proof. apply sublist_length, dpop_sublist. Qed.

Lemma dset_id d k v : dget d k = Some v -> dset d k v = d.
Proof. induction d as [|[a b] d IH]; simpl; [done|]. case_decide; intros; simplify_eq; [done|]. f_equal. auto. Qed.

Lemma dpop_absent d k : dget d k = None -> dpop d k = d.
Proof. induction d as [|[a b] d IH]; simpl; [done|]. case_decide; intros; [done|]. f_equal. auto. Qed.

Lemma Forall_dset (P : K * V -> Prop) d k v :
  Forall P d -> (forall k', k' = k -> P (k', v)) -> Forall P (dset d k v).
Proof.
  induction 1 as [|[a b] d Hx Hd IH]; intros Hk; simpl.
  - constructor; [by apply Hk|done].
  - case_decide; subst; constructor; auto.
Qed.

Lemma Forall_dpop (P : K * V -> Prop) d k : Forall P d -> Forall P (dpop d k).
Proof. induction 1 as [|[a b] d Hx Hd IH]; simpl; [constructor|]. case_decide; auto. Qed.
(** [OrderedDict.move_to_end(k)], [v] being the value of [k]. *)
Definition move_to_end d k v : dict K V := dpop d k ++ [(k, v)].

Lemma dget_snoc d k v k' :
  dget (d ++ [(k, v)]) k' = match dget d k' with Some x => Some x | None => if decide (k' = k) then Some v else None end.
Proof. induction d as [|[k2 v2] d IH]; cbn [app dget]; [done|]. by destruct (decide (k' = k2)). Qed.

Lemma dget_move_to_end d k v k' :
  dict_ok d -> dget (move_to_end d k v) k' = if decide (k' = k) then Some v else dget d k'.
Proof.
  intros Hok. unfold move_to_end. rewrite dget_snoc. destruct (decide (k' = k)) as [->|Hne].
  - by rewrite dget_dpop_eq.
  - rewrite dget_dpop_ne by done. by destruct (dget d k').
Qed.

Lemma move_to_end_ok d k v : dict_ok d -> dict_ok (move_to_end d k v).
Proof.
  intros Hok. unfold move_to_end, dict_ok, dkeys. rewrite fmap_app. apply NoDup_app. split_and!.
  - apply (dpop_ok d k Hok).
  - intros x Hx Hin. cbn in Hin. apply list_elem_of_singleton in Hin as ->.
    pose proof (dget_dpop_eq d k Hok) as Hn. by apply dget_None in Hn.
  - cbn. apply NoDup_singleton.
Qed.

Lemma zlen_move_to_end d k v : is_Some (dget d k) -> zlen (move_to_end d k v) = zlen d.
Proof.
  intros [w Hk]. unfold move_to_end. rewrite zlen_app, zlen_cons, zlen_nil. induction d as [|[k' v'] d IH]; [done|].
  cbn [dget dpop] in *. rewrite zlen_cons. destruct (decide (k = k')); [lia|]. rewrite zlen_cons. specialize (IH Hk). lia.
Qed.
End Dict.

#[export] Hint Resolve dset_ok dpop_ok move_to_end_ok : blackbull.

(** ** [str.split] *)

(** [s.split(sep)] for a one-character separator. *)
Fixpoint split_on (sep : Z) (s : pystr) : list pystr :=
  match s with
  | [] => [[]]
  | c :: s' =>
      if decide (c = sep) then [] :: split_on sep s'
      else match split_on sep s' with
           | [] => [[c]]
           | w :: ws => (c :: w) :: ws
           end
  end.

(** [s.split(sep, n)]: at most [n] splits. *)
Fixpoint split_max (n : nat) (sep : Z) (s : pystr) : list pystr :=
  match n with
  | O => [s]
  | S n' =>
      (fix go (acc s : pystr) : list pystr :=
         match s with
         | [] => [acc]
         | c :: s' => if decide (c = sep) then acc :: split_max n' sep s'
                      else go (acc ++ [c]) s'
         end) [] s
  end.

(** [s.startswith(p)] *)
Definition startswith (s p : pystr) : bool := bool_decide (p `prefix_of` s).

(** [c in s] for a one-character [c]. *)
Definition has_char (c : Z) (s : pystr) : bool := bool_decide (c ∈ s).

(** [s.count(c)] for a one-character [c]. *)
Definition count_char (c : Z) (s : pystr) : Z := zlen (filter (fun x => x = c) s).

(** [sep.join(ws)] *)
Fixpoint join (sep : pystr) (ws : list pystr) : pystr :=
  match ws with
  | [] => []
  | [w] => w
  | w :: ws' => w ++ sep ++ join sep ws'
  end.

Lemma split_on_nonempty sep s : split_on sep s <> [].
Proof. destruct s as [|c s]; simpl; [done|]. case_decide; [done|]. by destruct (split_on sep s). Qed.

Lemma join_split_on sep s : join [sep] (split_on sep s) = s.
Proof.
  induction s as [|c s IH]; simpl; [done|].
  pose proof (split_on_nonempty sep s) as Hne.
  case_decide; subst; destruct (split_on sep s) as [|w ws] eqn:E; try done; simpl in *.
  - destruct ws; simpl in *; by rewrite IH.
  - destruct ws; simpl in *; by rewrite IH.
Qed.

(** No level of a split contains the separator. *)
Lemma split_on_no_sep sep s : Forall (fun w => sep ∉ w) (split_on sep s).
Proof.
  induction s as [|c s IH]; simpl; [repeat constructor; set_solver|].
  case_decide; subst; [constructor; [set_solver|done]|].
  destruct (split_on sep s) as [|w ws]; [repeat constructor; set_solver|].
  inversion IH; subst. constructor; [set_solver|done].
Qed.

Lemma split_on_absent sep s : (sep ∉ s) -> split_on sep s = [s].
Proof.
  induction s as [|c s IH]; intros H; [done|]. apply not_elem_of_cons in H as [Hc Hs]. cbn [split_on].
  rewrite decide_False by congruence. by rewrite IH.
Qed.

Lemma split_on_app sep w s : (sep ∉ w) -> split_on sep (w ++ sep :: s) = w :: split_on sep s.
Proof.
  induction w as [|c w IH]; intros H; cbn [app split_on]; [by rewrite decide_True|].
  apply not_elem_of_cons in H as [Hc Hw]. rewrite decide_False by congruence. by rewrite IH.
Qed.
Lemma split_on_snoc sep w1 w2 : split_on sep (w1 ++ sep :: w2) = split_on sep w1 ++ split_on sep w2.
Proof.
  induction w1 as [|c w1 IH]; cbn [app split_on].
  - rewrite decide_True by done. done.
  - rewrite IH. destruct (decide (c = sep)); [done|]. destruct (split_on sep w1) as [|w ws] eqn:E; [|done].
    by apply split_on_nonempty in E.
Qed.

Lemma split_on_join sep ws : ws <> [] -> Forall (fun w => sep ∉ w) ws -> split_on sep (join [sep] ws) = ws.
Proof.
  intros Hne Hws. induction Hws as [|w ws Hw Hws IH]; [done|]. destruct ws as [|w' ws]; cbn [join].
  - by apply split_on_absent.
  - cbn [app]. rewrite split_on_app by done. f_equal. by apply IH.
Qed.

