(* ===== verification/PyText.v ===== *)
(** * Python's text codecs: strict UTF-8, strict base64, decimal literals

    [str.encode('utf-8')] and [bytes.decode('utf-8')] with the default strict
    error handler, [base64.b64encode] and [base64.b64decode(validate=True)],
    [str(int)] and [int(str)] on ASCII digits, and two-digit lowercase hex.
    The lemmas are the round trips the MQTT and structured-field codecs use. *)

From Stdlib Require Import ZArith Lia.
From stdpp Require Import base tactics numbers option strings sets list.
From S2P Require Import Prelude.

(** ** UTF-8 *)

(** A Unicode scalar value: what UTF-8 can encode. *)
Definition is_scalar (c : Z) : Prop :=
  0 <= c < 0xD800 \/ 0xE000 <= c <= 0x10FFFF.

#[export] Instance is_scalar_dec c : Decision (is_scalar c).
Proof. unfold is_scalar. apply _. Defined.

Definition text_ok (s : pystr) : Prop := Forall is_scalar s.
#[export] Instance text_ok_dec s : Decision (text_ok s).
Proof. unfold text_ok. apply _. Defined.

Definition utf8_char (c : Z) : bytes :=
  if c <? 0x80 then [c]
  else if c <? 0x800 then [0xC0 + c / 64; 0x80 + c mod 64]
  else if c <? 0x10000 then
    [0xE0 + c / 4096; 0x80 + c / 64 mod 64; 0x80 + c mod 64]
  else [0xF0 + c / 262144; 0x80 + c / 4096 mod 64; 0x80 + c / 64 mod 64; 0x80 + c mod 64].

(** [s.encode('utf-8')]: lone surrogates raise [UnicodeEncodeError]. *)
Definition utf8_encode (s : pystr) : result bytes :=
  if bool_decide (text_ok s) then Ok (s ≫= utf8_char) else Raise UnicodeEncodeError.

Definition is_cont (b : Z) : bool := (0x80 <=? b) && (b <? 0xC0).

(** [l.decode('utf-8')]: the well-formed byte sequences of the Unicode
    standard, table 3-7; anything else raises [UnicodeDecodeError]. *)
Fixpoint utf8_decode (l : bytes) : result pystr :=
  match l with
  | [] => Ok []
  | b0 :: r =>
      if b0 <? 0x80 then rmap (cons b0) (utf8_decode r)
      else if b0 <? 0xC2 then Raise UnicodeDecodeError
      else if b0 <? 0xE0 then
        match r with
        | b1 :: r' =>
            if is_cont b1
            then rmap (cons ((b0 - 0xC0) * 64 + (b1 - 0x80))) (utf8_decode r')
            else Raise UnicodeDecodeError
        | _ => Raise UnicodeDecodeError
        end
      else if b0 <? 0xF0 then
        match r with
        | b1 :: b2 :: r' =>
            let c := (b0 - 0xE0) * 4096 + (b1 - 0x80) * 64 + (b2 - 0x80) in
            if is_cont b1 && is_cont b2 && (0x800 <=? c)
               && negb ((0xD800 <=? c) && (c <=? 0xDFFF))
            then rmap (cons c) (utf8_decode r')
            else Raise UnicodeDecodeError
        | _ => Raise UnicodeDecodeError
        end
      else if b0 <? 0xF5 then
        match r with
        | b1 :: b2 :: b3 :: r' =>
            let c := (b0 - 0xF0) * 262144 + (b1 - 0x80) * 4096 + (b2 - 0x80) * 64 + (b3 - 0x80) in
            if is_cont b1 && is_cont b2 && is_cont b3 && (0x10000 <=? c) && (c <=? 0x10FFFF)
            then rmap (cons c) (utf8_decode r')
            else Raise UnicodeDecodeError
        | _ => Raise UnicodeDecodeError
        end
      else Raise UnicodeDecodeError
  end.

Lemma utf8_decode_char c l :
  is_scalar c -> utf8_decode (utf8_char c ++ l) = rmap (cons c) (utf8_decode l).
Proof.
  intros Hc. unfold is_scalar in Hc. unfold utf8_char.
  destruct (Z.ltb_spec c 0x80); [|destruct (Z.ltb_spec c 0x800);
    [|destruct (Z.ltb_spec c 0x10000)]]; simpl app; cbn -[Z.mul Z.div Z.modulo].
  - by settle_cmp.
  - unfold is_cont. settle_cmp. simpl andb. cbv iota. do 2 f_equal. divmod.
  - assert ((0xE0 + c / 4096 - 0xE0) * 4096 + (0x80 + c / 64 mod 64 - 0x80) * 64
            + (0x80 + c mod 64 - 0x80) = c) as -> by divmod.
    unfold is_cont. settle_cmp. simpl andb.
    destruct (Z.leb_spec 0xD800 c); simpl; [|done].
    by settle_cmp.
  - assert ((0xF0 + c / 262144 - 0xF0) * 262144 + (0x80 + c / 4096 mod 64 - 0x80) * 4096
            + (0x80 + c / 64 mod 64 - 0x80) * 64 + (0x80 + c mod 64 - 0x80) = c) as -> by divmod.
    unfold is_cont. settle_cmp. done.
Qed.

Lemma utf8_decode_text s : text_ok s -> utf8_decode (s ≫= utf8_char) = Ok s.
Proof.
  induction 1 as [|c s Hc Hs IH]; [done|].
  cbn [mbind list_bind]. rewrite utf8_decode_char by done.
  by rewrite IH.
Qed.

Lemma utf8_roundtrip s b : utf8_encode s = Ok b -> utf8_decode b = Ok s.
Proof.
  unfold utf8_encode. case_bool_decide; intros; simplify_eq. by apply utf8_decode_text.
Qed.

Lemma utf8_char_bytes c : is_scalar c -> bytes_ok (utf8_char c).
Proof.
  unfold is_scalar, utf8_char, bytes_ok. intros Hc.
  repeat case_match; repeat constructor; unfold is_byte;
    rewrite ?Z.ltb_lt, ?Z.ltb_ge in *; divmod.
Qed.

Lemma utf8_encode_bytes s b : utf8_encode s = Ok b -> bytes_ok b.
Proof.
  unfold utf8_encode. case_bool_decide as Hs; intros; simplify_eq.
  induction Hs as [|c s Hc Hs IH]; [constructor|].
  cbn [mbind list_bind]. apply bytes_ok_app; split; [by apply utf8_char_bytes|done].
Qed.

Lemma rmap_Ok {A B} (f : A -> B) m b : rmap f m = Ok b <-> exists a, m = Ok a /\ b = f a.
Proof. unfold rmap. rewrite rbind_Ok. naive_solver. Qed.

(** Split the boolean guards of a hypothesis into linear facts. *)
Ltac bool_facts :=
  unfold is_cont in *;
  repeat match goal with
  | H : (_ && _) = true |- _ => apply andb_true_iff in H as [? ?]
  | H : negb _ = true |- _ => apply negb_true_iff in H
  | H : (_ && _) = false |- _ => apply andb_false_iff in H
  | H : (_ <? _) = true |- _ => apply Z.ltb_lt in H
  | H : (_ <? _) = false |- _ => apply Z.ltb_ge in H
  | H : (_ <=? _) = true |- _ => apply Z.leb_le in H
  | H : (_ <=? _) = false |- _ => apply Z.leb_gt in H
  end.

(** Everything the decoder accepts is the encoding of what it returns. *)
Lemma utf8_decode_sound_aux n b s :
  (length b <= n)%nat -> bytes_ok b -> utf8_decode b = Ok s ->
  text_ok s /\ (s ≫= utf8_char) = b.
Proof.
  assert (forall c s r, is_scalar c -> text_ok s /\ (s ≫= utf8_char) = r ->
    text_ok (c :: s) /\ ((c :: s) ≫= utf8_char) = utf8_char c ++ r) as Hcons.
  { intros c s' r Hc [Hs <-]. split; [by constructor|done]. }
  revert b s. induction n as [|n IH]; intros b s Hn Hb Hd.
  { destruct b; [|simpl in Hn; lia]. simpl in Hd. simplify_eq. split; [constructor|done]. }
  destruct b as [|b0 r]; simpl in Hd; [simplify_eq; split; [constructor|done]|].
  apply bytes_ok_cons in Hb as [Hb0 Hr]. unfold is_byte in Hb0. simpl in Hn.
  repeat case_match; simplify_eq; apply rmap_Ok in Hd as (s' & Hd & ->); bool_facts;
    repeat match goal with H : bytes_ok (_ :: _) |- _ => apply bytes_ok_cons in H as [? H] end;
    simpl in Hn;
    match type of Hd with utf8_decode ?r = _ =>
      assert (text_ok s' /\ (s' ≫= utf8_char) = r) as Hrec by (apply IH; [lia|done|done]) end.
  all: match goal with |- text_ok (?c :: ?s) /\ _ =>
         assert (is_scalar c) as Hc by (unfold is_scalar; lia);
         destruct (Hcons c s _ Hc Hrec) as [Ht ->]; split; [done|]; unfold utf8_char end.
  all: settle_cmp; simpl app; repeat f_equal; divmod.
Qed.

Lemma utf8_decode_sound b s :
  bytes_ok b -> utf8_decode b = Ok s -> utf8_encode s = Ok b.
Proof.
  intros Hb Hd. destruct (utf8_decode_sound_aux (length b) b s) as [Ht <-]; [done..|].
  unfold utf8_encode. by rewrite bool_decide_true.
Qed.

Lemma utf8_decode_text_ok b s : bytes_ok b -> utf8_decode b = Ok s -> text_ok s.
Proof. intros. eapply utf8_decode_sound_aux; eauto. Qed.

Lemma utf8_decode_error b e : utf8_decode b = Raise e -> e = UnicodeDecodeError.
Proof.
  revert e. remember (length b) as n eqn:Hn.
  assert (length b <= n)%nat as Hle by lia. clear Hn. revert b Hle.
  induction n as [|n IH]; intros [|b0 b] Hle e; simpl in *; try done; try lia.
  intros Hd. repeat case_match; simplify_eq; try done;
    (unfold rmap in Hd; apply rbind_Raise in Hd as [Hd | (? & ? & ?)]; [|done];
     apply IH in Hd; [done|simpl in *; lia]).
Qed.

(** ** Base64 (RFC 4648), strict *)

Definition b64_char (i : Z) : Z :=
  if i <? 26 then 65 + i
  else if i <? 52 then 97 + (i - 26)
  else if i <? 62 then 48 + (i - 52)
  else if i =? 62 then 43 else 47.

Definition b64_val (c : Z) : option Z :=
  if (65 <=? c) && (c <=? 90) then Some (c - 65)
  else if (97 <=? c) && (c <=? 122) then Some (c - 97 + 26)
  else if (48 <=? c) && (c <=? 57) then Some (c - 48 + 52)
  else if c =? 43 then Some 62
  else if c =? 47 then Some 63 else None.

Definition b64_pad : Z := 61.

(** [base64.b64encode(l)] *)
Fixpoint b64encode (l : bytes) : bytes :=
  match l with
  | [] => []
  | [a] => [b64_char (a / 4); b64_char (a mod 4 * 16); b64_pad; b64_pad]
  | [a; b] => [b64_char (a / 4); b64_char (a mod 4 * 16 + b / 16);
               b64_char (b mod 16 * 4); b64_pad]
  | a :: b :: c :: r =>
      [b64_char (a / 4); b64_char (a mod 4 * 16 + b / 16);
       b64_char (b mod 16 * 4 + c / 64); b64_char (c mod 64)] ++ b64encode r
  end.

(** [base64.b64decode(l, validate=True)], that is [binascii.a2b_base64] in
    strict mode: whole quads of the alphabet, padding only in the last one;
    [binascii.Error] is a [ValueError]. *)
Fixpoint b64decode (l : bytes) : result bytes :=
  match l with
  | [] => Ok []
  | c0 :: c1 :: c2 :: c3 :: r =>
      match b64_val c0, b64_val c1, b64_val c2, b64_val c3 with
      | Some v0, Some v1, Some v2, Some v3 =>
          rmap (app [v0 * 4 + v1 / 16; v1 mod 16 * 16 + v2 / 4; v2 mod 4 * 64 + v3])
               (b64decode r)
      | Some v0, Some v1, Some v2, None =>
          if (c3 =? b64_pad) && bool_decide (r = [])
          then Ok [v0 * 4 + v1 / 16; v1 mod 16 * 16 + v2 / 4] else Raise ValueError
      | Some v0, Some v1, None, None =>
          if (c2 =? b64_pad) && (c3 =? b64_pad) && bool_decide (r = [])
          then Ok [v0 * 4 + v1 / 16] else Raise ValueError
      | _, _, _, _ => Raise ValueError
      end
  | _ => Raise ValueError
  end.

Lemma b64_val_char i : 0 <= i < 64 -> b64_val (b64_char i) = Some i.
Proof.
  intros Hi. unfold b64_char, b64_val.
  destruct (Z.ltb_spec i 26); [settle_cmp; simpl; f_equal; lia|].
  destruct (Z.ltb_spec i 52); [settle_cmp; simpl; f_equal; lia|].
  destruct (Z.ltb_spec i 62); [settle_cmp; simpl; f_equal; lia|].
  destruct (Z.eqb_spec i 62); [by subst|]. by assert (i = 63) as -> by lia.
Qed.

Lemma b64_roundtrip_aux n l : (length l <= n)%nat -> bytes_ok l -> b64decode (b64encode l) = Ok l.
Proof.
  revert l. induction n as [|n IH]; intros l Hn Hl; [destruct l; [done|simpl in Hn; lia]|].
  destruct l as [|a [|b [|c r]]]; [done| | |].
  all: repeat match goal with H : bytes_ok (_ :: _) |- _ => apply bytes_ok_cons in H as [? H] end;
       unfold is_byte in *; simpl in Hn.
  - cbn -[b64_val b64_char Z.div Z.mul Z.modulo].
    rewrite !b64_val_char by divmod. change (b64_val b64_pad) with (@None Z).
    simpl. do 2 f_equal. divmod.
  - cbn -[b64_val b64_char Z.div Z.mul Z.modulo].
    rewrite !b64_val_char by divmod. change (b64_val b64_pad) with (@None Z).
    simpl. f_equal. repeat f_equal; divmod.
  - cbn -[b64_val b64_char Z.div Z.mul Z.modulo].
    rewrite !b64_val_char by divmod. rewrite IH by (done || lia). simpl.
    f_equal. repeat f_equal; divmod.
Qed.

Lemma b64_roundtrip l : bytes_ok l -> b64decode (b64encode l) = Ok l.
Proof. by apply (b64_roundtrip_aux (length l)). Qed.

Lemma b64_char_in i : 0 <= i < 64 -> is_Some (b64_val (b64_char i)).
Proof. intros. rewrite b64_val_char by done. eauto. Qed.

(** Every character of an encoding is in the alphabet or is the padding. *)
Lemma b64encode_chars l :
  bytes_ok l -> Forall (fun c => is_Some (b64_val c) \/ c = b64_pad) (b64encode l).
Proof.
  remember (length l) as n eqn:Hn. assert (length l <= n)%nat as Hle by lia. clear Hn.
  revert l Hle. induction n as [|n IH]; intros l Hle Hl.
  { destruct l; [constructor|simpl in Hle; lia]. }
  destruct l as [|a [|b [|c r]]]; [constructor| | |];
    repeat match goal with H : bytes_ok (_ :: _) |- _ => apply bytes_ok_cons in H as [? H] end;
    unfold is_byte in *; simpl in Hle; cbn -[b64_val b64_char Z.div Z.mul Z.modulo b64_pad].
  all: repeat (apply Forall_cons; split; [first [by right | left; apply b64_char_in; divmod]|]).
  1,2: constructor.
  apply IH; [lia|done].
Qed.

(** ** Decimal and hexadecimal literals *)

Definition is_digit (c : Z) : bool := (48 <=? c) && (c <=? 57).

(** Decimal digits of [n], least [fuel] many at most. *)
Fixpoint dec_aux (fuel : nat) (n : Z) : pystr :=
  match fuel with
  | O => []
  | S fuel' => if n <? 10 then [48 + n] else dec_aux fuel' (n / 10) ++ [48 + n mod 10]
  end.

(** [str(n)] for [n >= 0]: the number of bits bounds the number of digits. *)
Definition dec_nat (n : Z) : pystr := dec_aux (S (Z.to_nat (Z.log2 n))) n.

(** [str(n)] *)
Definition str_int (n : Z) : pystr := if n <? 0 then 45 :: dec_nat (- n) else dec_nat n.

(** [int(s)] on a string of ASCII digits. *)
Definition int_of_digits (s : pystr) : Z := foldl (fun a d => a * 10 + (d - 48)) 0 s.

Lemma int_of_digits_snoc s d : int_of_digits (s ++ [d]) = int_of_digits s * 10 + (d - 48).
Proof. unfold int_of_digits. by rewrite foldl_app. Qed.

Lemma dec_aux_spec fuel n :
  (0 < fuel)%nat -> 0 <= n < 10 ^ Z.of_nat fuel ->
  int_of_digits (dec_aux fuel n) = n /\ Forall (fun c => is_digit c = true) (dec_aux fuel n).
Proof.
  revert n. induction fuel as [|fuel IH]; intros n Hf Hn; [lia|].
  cbn [dec_aux]. destruct (Z.ltb_spec n 10).
  - split; [unfold int_of_digits; simpl; lia|]. repeat constructor. unfold is_digit. by settle_cmp.
  - rewrite Nat2Z.inj_succ, Z.pow_succ_r in Hn by lia.
    destruct fuel as [|fuel]; [simpl in Hn; lia|].
    destruct (IH (n / 10)) as [Hi Hd]; [lia| |].
    { split; [apply Z.div_pos; lia|]. apply Z.div_lt_upper_bound; lia. }
    rewrite int_of_digits_snoc, Hi. split; [divmod|].
    apply Forall_app; split; [done|]. repeat constructor. unfold is_digit. by settle_cmp.
Qed.

Lemma dec_aux_len fuel k n :
  (0 < k)%nat -> 0 <= n < 10 ^ Z.of_nat k -> (length (dec_aux fuel n) <= k)%nat.
Proof.
  revert k n. induction fuel as [|fuel IH]; intros k n Hk Hn; simpl; [lia|].
  destruct (Z.ltb_spec n 10); [simpl; lia|].
  destruct k as [|k]; [lia|]. rewrite Nat2Z.inj_succ, Z.pow_succ_r in Hn by lia.
  destruct k as [|k]; [simpl in Hn; lia|].
  rewrite length_app; simpl. enough (length (dec_aux fuel (n / 10)) <= S k)%nat by lia.
  apply IH; [lia|]. split; [apply Z.div_pos; lia|]. apply Z.div_lt_upper_bound; lia.
Qed.

Lemma dec_nat_bound n : 0 <= n -> n < 10 ^ Z.of_nat (S (Z.to_nat (Z.log2 n))).
Proof.
  intros Hn. pose proof (Z.log2_nonneg n).
  rewrite Nat2Z.inj_succ, Z2Nat.id by done.
  destruct (Z.eq_dec n 0) as [->|]; [by compute|].
  apply Z.lt_le_trans with (2 ^ Z.succ (Z.log2 n)); [apply Z.log2_spec; lia|].
  apply Z.pow_le_mono_l; lia.
Qed.

Lemma int_of_dec_nat n : 0 <= n -> int_of_digits (dec_nat n) = n.
Proof. intros. apply dec_aux_spec; [lia|]. split; [done|]. by apply dec_nat_bound. Qed.

Lemma dec_nat_digits n : 0 <= n -> Forall (fun c => is_digit c = true) (dec_nat n).
Proof. intros. apply dec_aux_spec; [lia|]. split; [done|]. by apply dec_nat_bound. Qed.

Lemma dec_nat_nonempty n : dec_nat n <> [].
Proof.
  unfold dec_nat. cbn [dec_aux]. case_match; [done|]. intros Heq%(f_equal length).
  rewrite length_app in Heq. simpl in Heq. lia.
Qed.

Lemma dec_nat_len k n : (0 < k)%nat -> 0 <= n < 10 ^ Z.of_nat k -> (length (dec_nat n) <= k)%nat.
Proof. apply dec_aux_len. Qed.

Lemma dec_aux_lead fuel n :
  0 < n < 10 ^ Z.of_nat fuel -> exists c r, dec_aux fuel n = c :: r /\ 49 <= c <= 57.
Proof.
  revert n. induction fuel as [|fuel IH]; intros n Hn; [cbn in Hn; lia|]. cbn [dec_aux].
  destruct (Z.ltb_spec n 10); [exists (48 + n), []; split; [done|lia]|].
  rewrite Nat2Z.inj_succ, Z.pow_succ_r in Hn by lia.
  destruct (IH (n / 10)) as (c & r & -> & Hc); [|by exists c, (r ++ [48 + n mod 10])].
  split; [apply Z.div_str_pos; lia|apply Z.div_lt_upper_bound; lia].
Qed.

(** [str] writes no leading zero. *)
Lemma dec_nat_lead n : 0 < n -> exists c r, dec_nat n = c :: r /\ 49 <= c <= 57.
Proof. intros Hn. apply dec_aux_lead. split; [done|]. apply dec_nat_bound. lia. Qed.

(** [f'{b:02x}'] *)
Definition hex_digit (d : Z) : Z := if d <? 10 then 48 + d else 87 + d.
Definition hex2 (b : Z) : pystr := [hex_digit (b / 16); hex_digit (b mod 16)].

(** [f'{n:x}'] for [n >= 0] *)
Fixpoint hex_aux (fuel : nat) (n : Z) : pystr :=
  match fuel with
  | O => []
  | S fuel => if n <? 16 then [hex_digit n] else hex_aux fuel (n / 16) ++ [hex_digit (n mod 16)]
  end.

Definition hex_nat (n : Z) : pystr := hex_aux (S (Z.to_nat (Z.log2 n))) n.

Lemma hex_nat_bound n : 0 <= n -> n < 16 ^ Z.of_nat (S (Z.to_nat (Z.log2 n))).
Proof.
  intros Hn. pose proof (Z.log2_nonneg n). rewrite Nat2Z.inj_succ, Z2Nat.id by done.
  destruct (Z.eq_dec n 0) as [->|]; [by compute|].
  apply Z.lt_le_trans with (2 ^ Z.succ (Z.log2 n)); [apply Z.log2_spec; lia|].
  apply Z.pow_le_mono_l; lia.
Qed.

Lemma hex_aux_nonempty fuel n : (0 < fuel)%nat -> hex_aux fuel n <> [].
Proof. destruct fuel; [lia|]. intros _. cbn [hex_aux]. case_match; [done|]. by intros [_ ?]%app_nil. Qed.

Lemma hex_aux_length fuel n : (length (hex_aux fuel n) <= fuel)%nat.
Proof.
  revert n. induction fuel as [|fuel IH]; intros n; cbn [hex_aux]; [done|]. case_match; [cbn; lia|].
  rewrite length_app. cbn. specialize (IH (n / 16)). lia.
Qed.

(** The digits, for a reading of digits that inverts [hex_digit]. *)
Lemma hex_aux_spec (value : Z -> Z) fuel n :
  (forall d, 0 <= d < 16 -> value (hex_digit d) = d) -> 0 <= n < 16 ^ Z.of_nat fuel ->
  foldl (fun a c => a * 16 + value c) 0 (hex_aux fuel n) = n /\
  Forall (fun c => exists d, 0 <= d < 16 /\ c = hex_digit d) (hex_aux fuel n).
Proof.
  intros Hv. revert n. induction fuel as [|fuel IH]; intros n Hn; [cbn in Hn |- *; split; [lia|constructor]|]. cbn [hex_aux].
  destruct (Z.ltb_spec n 16).
  - cbn [foldl]. rewrite Hv by lia. split; [lia|]. repeat constructor. exists n. split; [lia|done].
  - rewrite Nat2Z.inj_succ, Z.pow_succ_r in Hn by lia. destruct (IH (n / 16)) as [Hi Hd].
    { split; [apply Z.div_pos; lia|apply Z.div_lt_upper_bound; lia]. }
    assert (Hm : 0 <= n mod 16 < 16) by (apply Z.mod_pos_bound; lia).
    rewrite foldl_app, Hi. cbn [foldl]. rewrite Hv by done. split; [divmod|].
    apply Forall_app. split; [done|]. repeat constructor. by exists (n mod 16).
Qed.

Definition is_lc_hex (c : Z) : bool := is_digit c || ((97 <=? c) && (c <=? 102)).
Definition hex_val (c : Z) : Z := if c <? 58 then c - 48 else c - 87.

Lemma hex2_lc b : is_byte b ->
  is_lc_hex (hex_digit (b / 16)) && is_lc_hex (hex_digit (b mod 16)) = true.
Proof.
  apply (byte_forall (fun b => is_lc_hex (hex_digit (b / 16)) && is_lc_hex (hex_digit (b mod 16)))).
  by vm_compute.
Qed.

Lemma hex2_val b : is_byte b ->
  hex_val (hex_digit (b / 16)) * 16 + hex_val (hex_digit (b mod 16)) = b.
Proof.
  intros Hb. apply Z.eqb_eq. revert b Hb.
  apply (byte_forall (fun b => hex_val (hex_digit (b / 16)) * 16 + hex_val (hex_digit (b mod 16)) =? b)).
  by vm_compute.
Qed.

(** ** [bytes.lower] *)

(** ASCII letters only, as [bytes.lower] does. *)
Definition lower_byte (c : Z) : Z := if (65 <=? c) && (c <=? 90) then c + 32 else c.
Definition lower (s : bytes) : bytes := lower_byte <$> s.

Definition is_lower (s : bytes) : Prop := lower s = s.
#[export] Instance is_lower_dec s : Decision (is_lower s).
Proof. unfold is_lower. apply _. Defined.

Lemma lower_byte_idem c : lower_byte (lower_byte c) = lower_byte c.
Proof.
  unfold lower_byte at 2. destruct (Z.leb_spec 65 c), (Z.leb_spec c 90); simpl; unfold lower_byte;
    case_cmp; simpl; lia.
Qed.

Lemma lower_idem s : lower (lower s) = lower s.
Proof. unfold lower. rewrite <- list_fmap_compose. apply list_fmap_ext. intros. apply lower_byte_idem. Qed.
