(* ===== verification/PyBytes.v ===== *)
(** * More of Python's standard library: [bytes] methods and [urllib.parse.unquote]

    Splitting, searching and stripping of byte strings, decimal [int], and
    percent-decoding with the UTF-8 decoder's [replace] handler.  As in
    [PyLib] and [PyText], the definitions follow the documented behaviour of
    CPython 3.11 or later. *)

From Stdlib Require Import ZArith Lia.
From stdpp Require Import base tactics numbers option strings sets list.
From S2P Require Import Prelude PyLib PyText.

(** ** Splitting *)

(** [l.split(b'\r\n')] *)
Fixpoint split_crlf (l : bytes) : list bytes :=
  match l with
  | [] => [[]]
  | c :: l' =>
      match l' with
      | [] => [[c]]
      | d :: l'' =>
          if (c =? 13) && (d =? 10) then [] :: split_crlf l''
          else match split_crlf l' with w :: ws => (c :: w) :: ws | [] => [[c]] end
      end
  end.

(** [l.find(c)] for one octet: [None] is -1. *)
Fixpoint find_char (c : Z) (l : bytes) : option nat :=
  match l with
  | [] => None
  | d :: l' => if d =? c then Some O else S <$> find_char c l'
  end.

(** [l.partition(c)] for one octet: what is before, whether it was found, and
    what is after. *)
Definition partition_char (c : Z) (l : bytes) : bytes * bool * bytes :=
  match find_char c l with
  | Some i => (take i l, true, drop (S i) l)
  | None => (l, false, [])
  end.

(** [l.find(p)] for a pattern. *)
Fixpoint find_sub (p l : bytes) : option nat :=
  if bool_decide (p `prefix_of` l) then Some O
  else match l with [] => None | _ :: l' => S <$> find_sub p l' end.

(** [l.rpartition(c)] for one octet. *)
Definition rpartition_char (c : Z) (l : bytes) : bytes * bool * bytes :=
  match find_char c (reverse l) with
  | Some i => (reverse (drop (S i) (reverse l)), true, reverse (take i (reverse l)))
  | None => ([], false, l)
  end.

(** [l.translate(None, del)] *)
Definition translate (del l : bytes) : bytes := filter (fun c => c ∉ del) l.

(** [l.count(b'\r\n')]: occurrences that do not overlap. *)
Fixpoint count_crlf (l : bytes) : Z :=
  match l with
  | [] => 0
  | c :: l' =>
      match l' with
      | d :: l'' => if (c =? 13) && (d =? 10) then 1 + count_crlf l'' else count_crlf l'
      | [] => 0
      end
  end.

(** ** Stripping *)

Fixpoint lstrip (set : list Z) (l : bytes) : bytes :=
  match l with
  | c :: l' => if bool_decide (c ∈ set) then lstrip set l' else l
  | [] => []
  end.

Definition rstrip (set : list Z) (l : bytes) : bytes := reverse (lstrip set (reverse l)).
Definition strip (set : list Z) (l : bytes) : bytes := rstrip set (lstrip set l).

(** [b' \t'], and the whitespace [bytes.strip] removes by default. *)
Definition OWS : list Z := [32; 9].
Definition WHITESPACE : list Z := [32; 9; 10; 11; 12; 13].

(** ** Decimal integers *)

(** [l.isdigit()] *)
Definition isdigit (l : bytes) : bool := negb (bool_decide (l = [])) && forallb is_digit l.

(** [int(l)] of an all-digit byte string; CPython refuses more than 4300
    digits with [ValueError]. *)
Definition MAX_STR_DIGITS : Z := 4300.
Definition int_digits (l : bytes) : result Z :=
  if zlen l >? MAX_STR_DIGITS then Raise ValueError else Ok (int_of_digits l).

(** [int(l)] of any byte string: surrounding whitespace, a sign and single
    underscores between digits are allowed. *)
Definition int_of_bytes (l : bytes) : result Z :=
  let l := strip WHITESPACE l in
  let neg := bool_decide (head l = Some 45) in
  let groups := split_on 95 (if neg || bool_decide (head l = Some 43) then tail l else l) in
  if forallb isdigit groups
  then rmap (fun n => if neg then - n else n) (int_digits (mjoin groups))
  else Raise ValueError.

(** [l.endswith(p)] *)
Definition endswith (p l : bytes) : bool := bool_decide (p `suffix_of` l).

(** [l.count(c)] for one octet. *)
Definition count_octet (c : Z) (l : bytes) : Z := zlen (filter (fun d => d = c) l).

(** ** [float] *)

(** What [float(l)] reads: its sign and, for a finite number, the integer of its
    digits and the power of ten. *)
Inductive float_text : Type := FInf (neg : bool) | FNan | FDec (neg : bool) (digits exponent : Z).

(** Digits with single underscores between them, possibly none. *)
Definition digit_part (l : bytes) : option bytes :=
  if bool_decide (l = []) then Some []
  else let groups := split_on 95 l in if forallb isdigit groups then Some (mjoin groups) else None.

Definition float_number (neg : bool) (l : bytes) : option float_text :=
  let '(mantissa, has_e, ex) := partition_char 101 l in
  let '(whole, _, frac) := partition_char 46 mantissa in
  let eneg := bool_decide (head ex = Some 45) in
  match digit_part whole, digit_part frac, digit_part (if eneg || bool_decide (head ex = Some 43) then tail ex else ex) with
  | Some w, Some f, Some e =>
      if bool_decide (w ++ f = []) || (has_e && bool_decide (e = [])) then None
      else Some (FDec neg (int_of_digits (w ++ f)) ((if eneg then - int_of_digits e else int_of_digits e) - zlen f))
  | _, _, _ => None
  end.

Definition float_of (l : bytes) : option float_text :=
  let l := lower (strip WHITESPACE l) in
  let neg := bool_decide (head l = Some 45) in
  let l := if neg || bool_decide (head l = Some 43) then tail l else l in
  if bool_decide (l ∈ lit <$> ["inf"; "infinity"]%string) then Some (FInf neg)
  else if bool_decide (l = lit "nan") then Some FNan
  else float_number neg l.

(** [x <= 0] of the double nearest to the number; the smallest positive double is
    [2 ^ -1074], and half of it rounds to zero. *)
Definition float_nonpositive (x : float_text) : bool :=
  match x with
  | FNan => false
  | FInf neg => neg
  | FDec neg m e => neg || (m =? 0) || ((e <? 0) && (m * 2 ^ 1075 <=? 10 ^ (- e)))
  end.

(** ** [unquote] *)

Definition hex_of (c : Z) : option Z :=
  if (48 <=? c) && (c <=? 57) then Some (c - 48)
  else if (65 <=? c) && (c <=? 70) then Some (c - 55)
  else if (97 <=? c) && (c <=? 102) then Some (c - 87)
  else None.

(** [unquote_to_bytes]: malformed escapes pass through. *)
Fixpoint unquote_to_bytes (l : bytes) : bytes :=
  match l with
  | [] => []
  | c :: l' =>
      match l' with
      | h1 :: h2 :: l'' =>
          if c =? 37 then
            match hex_of h1, hex_of h2 with
            | Some a, Some b => a * 16 + b :: unquote_to_bytes l''
            | _, _ => c :: unquote_to_bytes l'
            end
          else c :: unquote_to_bytes l'
      | _ => c :: unquote_to_bytes l'
      end
  end.

(** The second octet a leading octet allows (Unicode, table 3-7). *)
Definition second_ok (b b1 : Z) : bool :=
  let lo := if b =? 0xE0 then 0xA0 else if b =? 0xF0 then 0x90 else 0x80 in
  let hi := if b =? 0xED then 0x9F else if b =? 0xF4 then 0x8F else 0xBF in
  (lo <=? b1) && (b1 <=? hi).

Definition REPLACEMENT : Z := 0xFFFD.

(** [l.decode('utf-8', errors='replace')]: a maximal ill-formed subpart becomes
    one U+FFFD. *)
Fixpoint utf8_replace (l : bytes) : pystr :=
  match l with
  | [] => []
  | b :: l1 =>
      if b <? 0x80 then b :: utf8_replace l1
      else if (b <? 0xC2) || (0xF4 <? b) then REPLACEMENT :: utf8_replace l1
      else
        match l1 with
        | [] => [REPLACEMENT]
        | b1 :: l2 =>
            if negb (second_ok b b1) then REPLACEMENT :: utf8_replace l1
            else if b <? 0xE0 then (b - 0xC0) * 64 + (b1 - 0x80) :: utf8_replace l2
            else
              match l2 with
              | [] => [REPLACEMENT]
              | b2 :: l3 =>
                  if negb (is_cont b2) then REPLACEMENT :: utf8_replace l2
                  else if b <? 0xF0
                  then (b - 0xE0) * 4096 + (b1 - 0x80) * 64 + (b2 - 0x80) :: utf8_replace l3
                  else
                    match l3 with
                    | [] => [REPLACEMENT]
                    | b3 :: l4 =>
                        if negb (is_cont b3) then REPLACEMENT :: utf8_replace l3
                        else (b - 0xF0) * 262144 + (b1 - 0x80) * 4096 + (b2 - 0x80) * 64 + (b3 - 0x80)
                             :: utf8_replace l4
                    end
              end
        end
  end.

(** [unquote(s, encoding='utf-8', errors='replace')] of ASCII text. *)
Definition unquote (s : bytes) : pystr :=
  if bool_decide (37 ∈ s) then utf8_replace (unquote_to_bytes s) else s.

(** The maximal runs of ASCII characters and of others, as
    [re.split('([\x00-\x7f]+)', s)] makes them. *)
Fixpoint ascii_runs (s : pystr) : list (bool * pystr) :=
  match s with
  | [] => []
  | c :: s =>
      let b := (c <? 128) in
      match ascii_runs s with
      | (b', run) :: l => if Bool.eqb b b' then (b, c :: run) :: l else (b, [c]) :: (b', run) :: l
      | [] => [(b, [c])]
      end
  end.

(** [unquote(s, encoding='utf-8', errors='replace')] *)
Definition unquote_text (s : pystr) : pystr :=
  if has_char 37 s then mjoin ((fun x => if x.1 : bool then utf8_replace (unquote_to_bytes x.2) else x.2) <$> ascii_runs s)
  else s.

(** What [str.strip()] strips. *)
Definition SPACE : list Z := seqZ 9 5 ++ seqZ 28 5 ++ [133; 160; 5760] ++ seqZ 8192 11 ++ [8232; 8233; 8239; 8287; 12288].

(** ** Facts *)

Lemma split_crlf_nonempty l : split_crlf l <> [].
Proof.
  destruct l as [|c [|d l]]; [done|done|]. cbn [split_crlf].
  destruct (_ && _); [done|]. by match goal with |- match ?t with _ => _ end <> _ => destruct t end.
Qed.

Lemma split_crlf_cons c l :
  (c =? 13) && bool_decide (head l = Some 10) = false ->
  split_crlf (c :: l) = match split_crlf l with w :: ws => (c :: w) :: ws | [] => [[c]] end.
Proof.
  intros H. destruct l as [|d l]; [done|]. cbn [split_crlf]. cbn [head] in H.
  destruct (Z.eqb_spec d 10) as [-> |Hd]; [|by rewrite andb_false_r].
  rewrite bool_decide_true, andb_true_r in H by done. by rewrite H.
Qed.

(** No CR in a line: the split leaves it whole. *)
Lemma split_crlf_line w l : (13 ∉ w) -> split_crlf (w ++ 13 :: 10 :: l) = w :: split_crlf l.
Proof.
  induction w as [|c w IH]; intros Hw; [done|]. cbn [app]. apply not_elem_of_cons in Hw as [Hc Hw].
  rewrite split_crlf_cons, IH; [done|done|]. destruct (Z.eqb_spec c 13); [congruence|done].
Qed.

Lemma split_crlf_last w : (13 ∉ w) -> split_crlf w = [w].
Proof.
  induction w as [|c w IH]; intros Hw; [done|]. apply not_elem_of_cons in Hw as [Hc Hw].
  rewrite split_crlf_cons, IH; [done|done|]. destruct (Z.eqb_spec c 13); [congruence|done].
Qed.

Lemma find_char_app c w l : (c ∉ w) -> find_char c (w ++ c :: l) = Some (length w).
Proof.
  induction w as [|d w IH]; intros Hw; cbn; [by rewrite Z.eqb_refl|].
  apply not_elem_of_cons in Hw as [Hd Hw]. destruct (Z.eqb_spec d c); [congruence|]. by rewrite IH.
Qed.

Lemma find_char_none c w : (c ∉ w) -> find_char c w = None.
Proof.
  induction w as [|d w IH]; intros Hw; cbn; [done|].
  apply not_elem_of_cons in Hw as [Hd Hw]. destruct (Z.eqb_spec d c); [congruence|]. by rewrite IH.
Qed.

Lemma find_char_Some c l i :
  find_char c l = Some i -> exists w r, l = w ++ c :: r /\ length w = i /\ (c ∉ w).
Proof.
  revert i. induction l as [|d l IH]; intros i; cbn; [done|]. destruct (Z.eqb_spec d c) as [-> |Hd].
  - intros [= <-]. exists [], l. split_and!; try done. set_solver.
  - destruct (find_char c l) as [j|]; [|done]. intros [= <-]. destruct (IH j eq_refl) as (w & r & -> & <- & Hw).
    exists (d :: w), r. split_and!; try done. set_solver.
Qed.

Lemma partition_found c w l : (c ∉ w) -> partition_char c (w ++ c :: l) = (w, true, l).
Proof.
  intros Hw. unfold partition_char. rewrite find_char_app by done.
  rewrite take_app_length. by rewrite (cons_middle c w l), app_assoc, drop_app_length' by (rewrite length_app; cbn; lia).
Qed.

Lemma partition_absent c w : (c ∉ w) -> partition_char c w = (w, false, []).
Proof. intros Hw. unfold partition_char. by rewrite find_char_none. Qed.

Lemma lstrip_id set l : (forall c, head l = Some c -> c ∉ set) -> lstrip set l = l.
Proof.
  destruct l as [|c l]; intros H; cbn; [done|]. rewrite bool_decide_false; [done|]. by apply H.
Qed.

Lemma strip_id set l :
  (forall c, head l = Some c -> c ∉ set) -> (forall c, last l = Some c -> c ∉ set) -> strip set l = l.
Proof.
  intros Hh Hl. unfold strip, rstrip. rewrite (lstrip_id set l Hh), lstrip_id, reverse_involutive; [done|].
  intros c Hc. apply Hl. by rewrite <- head_reverse.
Qed.

Lemma lstrip_suffix set l : lstrip set l `suffix_of` l.
Proof. induction l as [|c l IH]; cbn; [done|]. case_bool_decide; [|done]. by apply suffix_cons_r. Qed.

Lemma strip_elem set l c : c ∈ strip set l -> c ∈ l.
Proof.
  unfold strip, rstrip. rewrite elem_of_reverse. intros H.
  destruct (lstrip_suffix set (reverse (lstrip set l))) as [k Hk].
  assert (H2 : c ∈ reverse (lstrip set l)) by (rewrite Hk; set_solver).
  rewrite elem_of_reverse in H2. destruct (lstrip_suffix set l) as [k' Hk']. rewrite Hk'. set_solver.
Qed.

Lemma translate_nil del l : translate del l = [] <-> Forall (fun c => c ∈ del) l.
Proof.
  unfold translate. rewrite Forall_forall. split.
  - intros H c Hc. destruct (decide (c ∈ del)) as [|Hd]; [done|].
    assert (He : c ∈ filter (fun c => c ∉ del) l) by (by apply list_elem_of_filter).
    rewrite H in He. by apply elem_of_nil in He.
  - intros H. apply elem_of_nil_inv. intros c [Hd Hc]%list_elem_of_filter. by apply Hd, H.
Qed.

Lemma translate_app del l1 l2 : translate del (l1 ++ l2) = translate del l1 ++ translate del l2.
Proof. apply filter_app. Qed.

(** A list cut into CRLF pairs. *)
Fixpoint tiled (l : bytes) : Prop :=
  match l with
  | [] => True
  | c :: l' => match l' with d :: l'' => c = 13 /\ d = 10 /\ tiled l'' | [] => False end
  end.

Lemma pair_ind (P : bytes -> Prop) :
  P [] -> (forall c, P [c]) -> (forall c d l, P l -> P (d :: l) -> P (c :: d :: l)) -> forall l, P l.
Proof.
  intros H0 H1 H2 l. enough (H : P l /\ forall c, P (c :: l)) by apply H.
  induction l as [|d l [IH1 IH2]]; [done|]. split; [done|]. intros c. by apply H2.
Qed.

Lemma count_crlf_le l : 2 * count_crlf l <= zlen l.
Proof.
  induction l as [|c|c d l IH1 IH2] using pair_ind; [done..|].
  change (count_crlf (c :: d :: l)) with
    (if (c =? 13) && (d =? 10) then 1 + count_crlf l else count_crlf (d :: l)).
  rewrite !zlen_cons in *. destruct (_ && _); lia.
Qed.

Lemma count_crlf_tiled l : count_crlf l * 2 = zlen l -> tiled l.
Proof.
  induction l as [|c|c d l IH1 IH2] using pair_ind; [done..|].
  change (count_crlf (c :: d :: l)) with
    (if (c =? 13) && (d =? 10) then 1 + count_crlf l else count_crlf (d :: l)).
  pose proof (count_crlf_le (d :: l)). rewrite !zlen_cons in *.
  destruct (Z.eqb_spec c 13), (Z.eqb_spec d 10); cbn [andb]; intros; try lia.
  cbn [tiled]. split_and!; [done..|]. apply IH1. lia.
Qed.

Lemma tiled_after l1 l2 : tiled (l1 ++ l2) -> l1 = [] \/ last l1 = Some 10 -> tiled l2.
Proof.
  induction l1 as [|c|c d l IH1 IH2] using pair_ind; cbn; [done| |].
  - intros H [?|[= ->]]; [done|]. destruct l2; [done|]. by destruct H as [? _].
  - intros (-> & -> & H) [?|Hl]; [done|]. apply IH1; [done|]. destruct l; [by left|by right].
Qed.

Lemma join_split_crlf l : join [13; 10] (split_crlf l) = l.
Proof.
  induction l as [|c|c d l IH1 IH2] using pair_ind; [done..|].
  destruct (decide (c = 13 /\ d = 10)) as [[-> ->]|Hcd].
  - cbn [split_crlf Z.eqb Pos.eqb andb]. assert (Hs := split_crlf_nonempty l).
    destruct (split_crlf l) as [|w ws] eqn:E; [done|]. cbn [join] in *. by rewrite IH1.
  - rewrite split_crlf_cons.
    2:{ cbn [head]. destruct (Z.eqb_spec c 13), (bool_decide_reflect (Some d = Some 10)); naive_solver. }
    assert (Hs := split_crlf_nonempty (d :: l)). destruct (split_crlf (d :: l)) as [|w [|w' ws]] eqn:E; [done|..];
      cbn [join app] in *; by rewrite IH2.
Qed.

(** A line of the split lies between terminators. *)
Lemma join_elem line ws :
  line ∈ ws -> exists pre post, join [13; 10] ws = pre ++ line ++ post /\ (pre = [] \/ exists p, pre = p ++ [13; 10]).
Proof.
  induction ws as [|w ws IH]; [set_solver|]. intros [-> |H]%elem_of_cons.
  - exists []. destruct ws as [|w' ws]; [exists []; cbn; rewrite app_nil_r; auto|].
    exists ([13; 10] ++ join [13; 10] (w' :: ws)). auto.
  - destruct (IH H) as (pre & post & Hl & Hp). destruct ws as [|w' ws]; [set_solver|].
    exists (w ++ [13; 10] ++ pre), post. split; [cbn [join] in *; rewrite Hl; by rewrite <- !app_assoc|].
    right. destruct Hp as [-> |[p ->]]; [exists w; by rewrite app_nil_r|]. exists (w ++ [13; 10] ++ p).
    by rewrite <- !app_assoc.
Qed.

Lemma split_crlf_elem line l :
  line ∈ split_crlf l -> exists pre post, l = pre ++ line ++ post /\ (pre = [] \/ exists p, pre = p ++ [13; 10]).
Proof. intros H. destruct (join_elem _ _ H) as (pre & post & Hl & Hp). rewrite join_split_crlf in Hl. eauto. Qed.

Lemma lower_nil s : lower s = [] <-> s = [].
Proof. by destruct s. Qed.

(** ** Pieces *)

Definition ascii_char (c : Z) : Prop := 0 <= c < 128.

#[export] Instance ascii_char_dec c : Decision (ascii_char c).
Proof. unfold ascii_char. apply _. Defined.

Lemma utf8_decode_ascii l : Forall ascii_char l -> utf8_decode l = Ok l.
Proof.
  unfold ascii_char. induction 1 as [|c l Hc Hl IH]; [done|]. cbn [utf8_decode].
  rewrite (proj2 (Z.ltb_lt c 0x80)) by lia. by rewrite IH.
Qed.

(** What a parser cuts out of its input. *)
Lemma lstrip_sublist set l : lstrip set l `sublist_of` l.
Proof. destruct (lstrip_suffix set l) as [k Hk]. rewrite Hk at 2. by apply sublist_inserts_l. Qed.

Lemma reverse_sublist (l1 l2 : bytes) : l1 `sublist_of` l2 -> reverse l1 `sublist_of` reverse l2.
Proof.
  induction 1 as [|x l1 l2 H IH|x l1 l2 H IH]; [done| |]; rewrite ?reverse_cons.
  - by apply sublist_app.
  - by apply sublist_inserts_r.
Qed.

Lemma strip_sublist set l : strip set l `sublist_of` l.
Proof.
  unfold strip, rstrip. etrans; [|apply lstrip_sublist].
  rewrite <- (reverse_involutive (lstrip set l)) at 2. apply reverse_sublist, lstrip_sublist.
Qed.

Lemma split_on_sublist sep s w : w ∈ split_on sep s -> w `sublist_of` s.
Proof.
  revert w. induction s as [|c s IH]; intros w; cbn [split_on]; [intros ->%list_elem_of_singleton; done|].
  case_decide.
  - intros [-> |H']%elem_of_cons; [apply sublist_nil_l|]. by apply sublist_cons, IH.
  - pose proof (split_on_nonempty sep s). destruct (split_on sep s) as [|v vs]; [done|].
    intros [-> |H']%elem_of_cons; [apply sublist_skip, IH; by left|apply sublist_cons, IH; by right].
Qed.

Lemma split_crlf_sublist l w : w ∈ split_crlf l -> w `sublist_of` l.
Proof. intros (pre & post & -> & _)%split_crlf_elem. by apply sublist_inserts_l, sublist_inserts_r. Qed.

Lemma find_sub_char c l : find_sub [c] l = find_char c l.
Proof.
  induction l as [|d l IH]; [done|]. cbn [find_sub find_char]. destruct (Z.eqb_spec d c) as [-> |Hd].
  - rewrite bool_decide_true; [done|]. by exists l.
  - rewrite bool_decide_false, IH; [done|]. intros [k [= -> _]]. done.
Qed.

Lemma int_of_digits_nonneg l : Forall (fun c => is_digit c = true) l -> 0 <= int_of_digits l.
Proof.
  induction l as [|c l IH] using rev_ind; intros Hd; [done|]. rewrite int_of_digits_snoc.
  apply Forall_app in Hd as [Hl Hc]. apply Forall_cons in Hc as [Hc _]. specialize (IH Hl). unfold is_digit in Hc. lia.
Qed.

(** Searching. *)
Lemma find_sub_Some sep l i :
  find_sub sep l = Some i ->
  sep `prefix_of` drop i l /\ forall j, (j < i)%nat -> ~ sep `prefix_of` drop j l.
Proof.
  revert i. induction l as [|x l IH]; intros i; cbn [find_sub]; case_bool_decide as Hp.
  - intros [= <-]. split; [done|lia].
  - done.
  - intros [= <-]. split; [done|lia].
  - intros (i' & Hi & ->)%fmap_Some. destruct (IH _ Hi) as [Hq Hmin].
    split; [done|]. intros [|j] Hj; [done|]. simpl. apply Hmin. lia.
Qed.

Lemma find_sub_None sep l :
  find_sub sep l = None -> forall j, ~ sep `prefix_of` drop j l.
Proof.
  induction l as [|x l IH]; cbn [find_sub]; case_bool_decide as Hp; intros Hf j; try done.
  - by rewrite drop_nil.
  - destruct j as [|j]; [done|]. simpl. apply IH. by destruct (find_sub sep l).
Qed.

(** Positions already known to be clear can be skipped. *)
Lemma find_sub_skip sep k l :
  (k <= length l)%nat -> (forall j, (j < k)%nat -> ~ sep `prefix_of` drop j l) ->
  find_sub sep l = Nat.add k <$> find_sub sep (drop k l).
Proof.
  revert l. induction k as [|k IH]; intros l Hk Hcl.
  { rewrite drop_0. by destruct (find_sub sep l). }
  destruct l as [|x l]; [simpl in Hk; lia|]. cbn [find_sub drop].
  rewrite bool_decide_false by (apply (Hcl 0%nat); lia).
  rewrite (IH l); [by destruct (find_sub sep (drop k l))|simpl in Hk; lia|].
  intros j Hj. apply (Hcl (S j)). lia.
Qed.

Lemma find_sub_bound sep l i :
  find_sub sep l = Some i -> (i + length sep <= length l)%nat \/ sep = [].
Proof.
  intros [Hp _]%find_sub_Some. destruct (decide (sep = [])) as [->|Hne]; [by right|left].
  apply prefix_length in Hp. rewrite length_drop in Hp. destruct sep; [done|]. simpl in *. lia.
Qed.

(** A terminator whose four bytes are inside [l] is one of [l ++ data] and
    conversely. *)
Lemma prefix_drop_app (sep l data : bytes) j :
  (j + length sep <= length l)%nat ->
  sep `prefix_of` drop j (l ++ data) <-> sep `prefix_of` drop j l.
Proof.
  intros Hj. rewrite drop_app_le by lia. split.
  - intros Hp. destruct Hp as [k Hk].
    exists (drop (length sep) (drop j l)).
    rewrite <- (take_drop (length sep) (drop j l)) at 1. f_equal.
    apply (f_equal (take (length sep))) in Hk.
    rewrite take_app_le in Hk by (rewrite length_drop; lia). by rewrite take_app_length in Hk.
  - apply prefix_app_r.
Qed.

(** More bytes after a match do not move it, and a match that needs them ends
    past the old bytes. *)
Lemma find_sub_app_Some (sep l m : bytes) i :
  sep <> [] -> find_sub sep l = Some i -> find_sub sep (l ++ m) = Some i.
Proof.
  intros Hne Hf. pose proof (find_sub_bound _ _ _ Hf) as [Hb|]; [|done].
  apply find_sub_Some in Hf as [Hp Hmin].
  rewrite (find_sub_skip sep i (l ++ m)).
  - assert (sep `prefix_of` drop i (l ++ m)) as Hp' by (by apply prefix_drop_app).
    destruct (drop i (l ++ m)); cbn [find_sub]; rewrite bool_decide_true by done; simpl; f_equal; lia.
  - rewrite length_app. lia.
  - intros j Hj. rewrite prefix_drop_app by lia. auto.
Qed.

Lemma find_sub_app_None (sep l m : bytes) i :
  find_sub sep l = None -> find_sub sep (l ++ m) = Some i -> (length l < i + length sep)%nat.
Proof.
  intros Hn [Hp _]%find_sub_Some. destruct (decide (i + length sep <= length l)%nat) as [Hle|]; [|lia].
  exfalso. apply (find_sub_None _ _ Hn i). revert Hp. by apply prefix_drop_app.
Qed.

Lemma find_sub_cons (sep l : bytes) x :
  ~ sep `prefix_of` x :: l -> find_sub sep (x :: l) = S <$> find_sub sep l.
Proof. intros H. cbn [find_sub]. by rewrite bool_decide_false. Qed.

(** A list cut after its first match. *)
Lemma find_sub_cut (sep l : bytes) i : find_sub sep l = Some i -> find_sub sep (take (i + length sep) l) = Some i.
Proof.
  revert i. induction l as [|x l IH]; intros i; cbn [find_sub]; case_bool_decide as Hp.
  - intros [= <-]. destruct sep; [done|by destruct Hp].
  - done.
  - intros [= <-]. cbn [Nat.add]. destruct Hp as [k ->]. rewrite take_app_length.
    destruct sep; cbn [find_sub]; by rewrite bool_decide_true.
  - destruct (find_sub sep l) as [j|]; [|done]. intros [= <-]. cbn [Nat.add take find_sub].
    rewrite bool_decide_false; [by rewrite IH|]. intros [k Hk]. apply Hp.
    exists (k ++ drop (j + length sep) l). rewrite app_assoc, <- Hk. cbn [app]. by rewrite take_drop.
Qed.

Lemma strip_space l : strip WHITESPACE (32 :: l) = strip WHITESPACE l.
Proof. done. Qed.

Lemma utf8_encode_ascii s : Forall ascii_char s -> utf8_encode s = Ok s.
Proof.
  intros Hs. unfold utf8_encode. rewrite bool_decide_true.
  - f_equal. induction Hs as [|c s Hc Hs IH]; [done|]. cbn [mbind list_bind]. rewrite IH. unfold utf8_char.
    unfold ascii_char in Hc. by rewrite (proj2 (Z.ltb_lt c 0x80)) by lia.
  - eapply Forall_impl; [exact Hs|]. unfold ascii_char, is_scalar. intros; lia.
Qed.
