(* ===== verification/RateWindow.v ===== *)
(** * The rolling-window rate meter (blackbull/server/rate_window.py)

    [RateWindow] counts events per fixed window and reports when the budget is
    spent.  The clock is read in integer ticks; the code reads a float number
    of seconds and only subtracts and compares it. *)

From Stdlib Require Import ZArith Lia.
From stdpp Require Import base tactics numbers option strings sets list.
From S2P Require Import Prelude.

Module RateWindow.

Record t : Type := mk {
  limit : Z;
  window : Z;
  _count : Z;
  _started_at : Z
}.

Definition __init__ (limit window : Z) : t := mk limit window 0 0.

(** [hit(now)]: count one event, [True] when the budget is exceeded.  [now]
    is the injected clock or, when absent, [monotonic], the reading of
    [time.monotonic()]. *)
Definition hit (monotonic : Z) (now : option Z) (w : t) : bool * t :=
  if limit w =? 0 then (false, w)
  else
    let now := match now with Some n => n | None => monotonic end in
    let w := if now - _started_at w >? window w
             then mk (limit w) (window w) 0 now else w in
    let w := mk (limit w) (window w) (_count w + 1) (_started_at w) in
    (_count w >? limit w, w).

Definition reset (w : t) : t := mk (limit w) (window w) 0 0.

(** A sequence of events at the given clock readings. *)
Fixpoint hits (ts : list Z) (w : t) : list bool * t :=
  match ts with
  | [] => ([], w)
  | now :: ts' =>
      let '(over, w) := hit 0 (Some now) w in
      let '(overs, w) := hits ts' w in (over :: overs, w)
  end.

(** How many events a run let through. *)
Definition admitted (overs : list bool) : Z := zlen (filter (fun b => b = false) overs).

Lemma admitted_cons b overs : admitted (b :: overs) = (if b then 0 else 1) + admitted overs.
Proof. unfold admitted. rewrite filter_cons. by destruct b; case_decide; rewrite ?zlen_cons. Qed.

(** While no reading leaves the window, the remaining budget bounds what is
    admitted. *)
Lemma admitted_same_window ts w :
  0 < limit w -> 0 <= _count w ->
  Forall (fun now => now - _started_at w <= window w) ts ->
  admitted (hits ts w).1 <= Z.max 0 (limit w - _count w).
Proof.
  revert w. induction ts as [|now ts IH]; intros w Hl Hc Hts.
  { change (admitted (hits [] w).1) with 0. lia. }
  apply Forall_cons in Hts as [Hn Hts]. simpl. unfold hit.
  rewrite (proj2 (Z.eqb_neq _ _)) by lia.
  rewrite Z.gtb_ltb, (proj2 (Z.ltb_ge _ _)) by lia.
  specialize (IH (mk (limit w) (window w) (_count w + 1) (_started_at w))). simpl in *.
  destruct (hits ts _) as [overs w'] eqn:E. simpl in *. rewrite admitted_cons.
  assert (admitted overs <= Z.max 0 (limit w - (_count w + 1))) by (apply IH; (done || lia)).
  case_cmp; lia.
Qed.

Lemma admitted_interval ts w a :
  0 < limit w -> 0 <= _count w ->
  Forall (fun now => a <= now <= a + window w) ts ->
  admitted (hits ts w).1 <= Z.max 0 (limit w - _count w) + limit w.
Proof.
  revert w. induction ts as [|now ts IH]; intros w Hl Hc Hts.
  { change (admitted (hits [] w).1) with 0. lia. }
  apply Forall_cons in Hts as [Hn Hts]. simpl. unfold hit.
  rewrite (proj2 (Z.eqb_neq _ _)) by lia.
  destruct (now - _started_at w >? window w) eqn:E; simpl.
  - pose proof (admitted_same_window ts (mk (limit w) (window w) 1 now)) as Hs. simpl in Hs.
    destruct (hits ts _) as [overs w']. simpl in *. rewrite admitted_cons.
    assert (admitted overs <= Z.max 0 (limit w - 1)).
    { apply Hs; [done|lia|]. eapply Forall_impl; [exact Hts|]. simpl; lia. }
    case_cmp; lia.
  - specialize (IH (mk (limit w) (window w) (_count w + 1) (_started_at w))). simpl in *.
    destruct (hits ts _) as [overs w']. simpl in *. rewrite admitted_cons.
    assert (admitted overs <= Z.max 0 (limit w - (_count w + 1)) + limit w)
      by (apply IH; (done || lia)).
    case_cmp; lia.
Qed.

(** Rate bound.  Whatever the meter has already counted, among the events
    whose clock readings fall inside one interval as long as the window, at
    most twice the limit are let through (the fixed window can be renewed at
    most once inside such an interval). *)
Theorem hits_rate_bound ts w a :
  0 < limit w -> 0 <= _count w ->
  Forall (fun now => a <= now <= a + window w) ts ->
  admitted (hits ts w).1 <= 2 * limit w.
Proof. intros Hl Hc Hts. pose proof (admitted_interval ts w a Hl Hc Hts). lia. Qed.

Lemma hits_rate_bound_witness :
  admitted (hits [10; 10; 11; 12; 12; 12; 15] (mk 2 5 0 7)).1 <= 2 * 2.
Proof.
  apply (hits_rate_bound [10; 10; 11; 12; 12; 12; 15] (mk 2 5 0 7) 10).
  - simpl; lia.
  - simpl; lia.
  - repeat constructor; simpl; lia.
Defined.

(** Inside one window the verdict is exact: the event that brings the
    count to [n] is refused if and only if [n] exceeds the limit, and a meter
    whose limit is 0 never refuses. *)
Theorem hits_exact ts w :
  0 <= limit w ->
  Forall (fun now => now - _started_at w <= window w) ts ->
  (hits ts w).1 =
    (fun i => if limit w =? 0 then false else limit w <? _count w + Z.of_nat i)
      <$> seq 1 (length ts).
Proof.
  revert w. induction ts as [|now ts IH]; intros w Hl Hts; [done|].
  apply Forall_cons in Hts as [Hn Hts]. cbn [hits]. unfold hit.
  destruct (Z.eqb_spec (limit w) 0) as [Hz|Hz].
  - specialize (IH w Hl Hts). destruct (hits ts w) as [overs w'].
    simpl in *. rewrite IH, <- (fmap_S_seq 1), <- list_fmap_compose. f_equal.
    apply list_fmap_ext. intros; simpl. by rewrite Hz.
  - rewrite Z.gtb_ltb, (proj2 (Z.ltb_ge _ _)) by lia.
    specialize (IH (mk (limit w) (window w) (_count w + 1) (_started_at w)) Hl Hts). simpl in IH.
    cbn [limit window _count _started_at]. destruct (hits ts _) as [overs w']. simpl in *.
    rewrite IH, <- (fmap_S_seq 1), <- list_fmap_compose, Z.gtb_ltb. f_equal.
    apply list_fmap_ext. intros i x Hx; simpl. rewrite (proj2 (Z.eqb_neq _ _)) by done.
    f_equal; lia.
Qed.

Lemma hits_exact_witness : (hits [3; 4; 5] (mk 2 10 0 0)).1 = [false; false; true].
Proof.
  rewrite (hits_exact [3; 4; 5] (mk 2 10 0 0)); [reflexivity| |].
  - simpl; lia.
  - repeat constructor; simpl; lia.
Defined.

(** What is left of the budget, whatever the clock reads. *)
Definition room (n : Z) (w : t) : Prop :=
  limit w = 0 \/ (0 <= _count w /\ _count w + n <= limit w).

Lemma room_hit n w now :
  room (n + 1) w -> 0 <= n -> (hit now None w).1 = false /\ room n (hit now None w).2.
Proof.
  intros Hr Hn. unfold hit, room in *. destruct (Z.eqb_spec (limit w) 0) as [Hz|Hz]; [by split; [|left]|].
  destruct Hr as [?|[H0 Hle]]; [done|]. cbv zeta.
  destruct (now - _started_at w >? window w); cbn [_count limit fst snd]; (split; [|right; lia]);
    rewrite Z.gtb_ltb; apply Z.ltb_ge; lia.
Qed.

End RateWindow.
