(* ===== verification/GrpcCodec.v ===== *)
(** * The gRPC Length-Prefixed-Message codec (blackbull/grpc/codec.py)

    Pure framing: a compressed flag, a 32-bit big-endian length and the
    payload.  [encode_message] and [decode_messages] are translated with the
    decoder's loop on an explicit offset. *)

From Stdlib Require Import ZArith Lia.
From stdpp Require Import base tactics numbers option strings sets list.
From S2P Require Import Prelude.

Module GrpcCodec.

Definition _PREFIX_LEN : Z := 5.
Definition MAX_MESSAGE_LENGTH : Z := 16 * 1024 * 1024.

(** [_PREFIX.pack(flag, length)], the struct ['>BI']: [struct.error] (an
    [Exception]) when a field is out of range. *)
Definition prefix_pack (flag length : Z) : result bytes :=
  if bool_decide (is_byte flag /\ 0 <= length < 256 ^ 4)
  then Ok (flag :: be_bytes 4 length) else Raise PlainException.

(** [_PREFIX.unpack_from(data, offset)] where five bytes are available. *)
Definition prefix_unpack (data : bytes) (offset : Z) : result (Z * Z) :=
  let* flag := zget data offset in
  Ok (flag, from_bytes (slice data (offset + 1) (offset + 5))).

Definition encode_message (payload : bytes) (compressed : bool) : result bytes :=
  let* prefix := prefix_pack (if compressed then 1 else 0) (zlen payload) in
  Ok (prefix ++ payload).

(** The [while offset < n] loop of [decode_messages]. *)
Fixpoint decode_loop (fuel : nat) (data : bytes) (offset : Z)
    (messages : list (bool * bytes)) : result (list (bool * bytes)) :=
  let n := zlen data in
  if offset <? n then
    match fuel with
    | O => Raise OutOfFuel
    | S fuel =>
        if n - offset <? _PREFIX_LEN then Raise GrpcDecodeError
        else
          let* '(flag, length) := prefix_unpack data offset in
          let offset := offset + _PREFIX_LEN in
          if length >? MAX_MESSAGE_LENGTH then Raise GrpcDecodeError
          else
            let end_ := offset + length in
            if end_ >? n then Raise GrpcDecodeError
            else decode_loop fuel data end_
                   (messages ++ [(negb (flag =? 0), slice data offset end_)])
    end
  else Ok messages.

(** Each turn consumes at least the five prefix bytes, so the length of the
    buffer is enough fuel. *)
Definition decode_messages (data : bytes) : result (list (bool * bytes)) :=
  decode_loop (length data) data 0 [].

(** ** The wire format as a specification *)

(** A frame with an arbitrary flag byte. *)
Definition wire (m : Z * bytes) : bytes := m.1 :: be_bytes 4 (zlen m.2) ++ m.2.

Arguments wire : simpl never.

Definition message_of (m : Z * bytes) : bool * bytes := (negb (m.1 =? 0), m.2).

Definition frame_ok (m : Z * bytes) : Prop :=
  is_byte m.1 /\ bytes_ok m.2 /\ zlen m.2 <= MAX_MESSAGE_LENGTH.

Lemma zlen_wire m : zlen (wire m) = 5 + zlen m.2.
Proof. unfold wire. autorewrite with zlen. lia. Qed.

Lemma encode_message_wire payload compressed :
  zlen payload <= MAX_MESSAGE_LENGTH ->
  encode_message payload compressed = Ok (wire (if compressed then 1 else 0, payload)).
Proof.
  intros H. pose proof (zlen_nonneg payload). unfold encode_message, prefix_pack.
  rewrite bool_decide_true; [done|].
  unfold is_byte, MAX_MESSAGE_LENGTH in *. destruct compressed; lia.
Qed.

(** One turn of the loop over a well-formed frame. *)
Lemma decode_loop_frame fuel pre m post acc :
  frame_ok m ->
  decode_loop (S fuel) (pre ++ wire m ++ post) (zlen pre) acc =
  decode_loop fuel (pre ++ wire m ++ post) (zlen (pre ++ wire m)) (acc ++ [message_of m]).
Proof.
  intros (Hf & Hp & Hl). destruct m as [flag payload]; cbn [fst snd] in *.
  pose proof (zlen_nonneg pre). pose proof (zlen_nonneg post). pose proof (zlen_nonneg payload).
  assert (zlen (pre ++ wire (flag, payload) ++ post) = zlen pre + 5 + zlen payload + zlen post) as Hn
    by (rewrite !zlen_app, zlen_wire; simpl; lia).
  cbn [decode_loop]. rewrite Hn. unfold _PREFIX_LEN, prefix_unpack. settle_cmp.
  replace (zget _ (zlen pre)) with (Ok flag)
    by (symmetry; unfold wire; simpl; by apply zget_app_mid). cbn [rbind].
  assert (slice (pre ++ wire (flag, payload) ++ post) (zlen pre + 1) (zlen pre + 5)
          = be_bytes 4 (zlen payload)) as ->.
  { unfold wire; simpl. replace (pre ++ flag :: _) with
      ((pre ++ [flag]) ++ be_bytes 4 (zlen payload) ++ payload ++ post)
      by (rewrite <- !app_assoc; done).
    apply slice_mid; autorewrite with zlen; lia. }
  rewrite from_be_small by (unfold MAX_MESSAGE_LENGTH in *; simpl; lia).
  unfold MAX_MESSAGE_LENGTH in *. settle_cmp. f_equal.
  - rewrite zlen_app, zlen_wire; simpl; lia.
  - do 2 f_equal. unfold message_of. cbn [fst snd]. f_equal. unfold wire; simpl.
    replace (pre ++ flag :: _) with
      ((pre ++ [flag] ++ be_bytes 4 (zlen payload)) ++ payload ++ post)
      by (rewrite <- !app_assoc; done).
    apply slice_mid; autorewrite with zlen; lia.
Qed.

Lemma decode_loop_done fuel data offset acc :
  zlen data <= offset -> decode_loop fuel data offset acc = Ok acc.
Proof. intros. destruct fuel; simpl; by settle_cmp. Qed.

Lemma decode_loop_frames ms : forall pre acc fuel,
  Forall frame_ok ms -> (length ms <= fuel)%nat ->
  decode_loop fuel (pre ++ concat (wire <$> ms)) (zlen pre) acc = Ok (acc ++ (message_of <$> ms)).
Proof.
  induction ms as [|m ms IH]; intros pre acc fuel Hms Hfuel.
  - cbn. rewrite !app_nil_r. by apply decode_loop_done.
  - rewrite !fmap_cons; cbn [concat]. apply Forall_cons in Hms as [Hm Hms]. destruct fuel as [|fuel]; [simpl in Hfuel; lia|].
    rewrite decode_loop_frame by done. rewrite (app_assoc pre).
    rewrite IH by (done || (simpl in Hfuel; lia)). by rewrite <- app_assoc.
Qed.

(** What a successful read of a prefix says about the bytes at the offset. *)
Lemma prefix_split rest :
  bytes_ok rest -> 5 <= zlen rest ->
  exists flag body, rest = flag :: be_bytes 4 (from_bytes (slice rest 1 5)) ++ body /\
    is_byte flag /\ 0 <= from_bytes (slice rest 1 5) < 256 ^ 4 /\ bytes_ok body.
Proof.
  intros Hok Hlen. destruct rest as [|flag rest]; [change (zlen []) with 0 in *; lia|].
  apply bytes_ok_cons in Hok as [Hflag Hr]. rewrite zlen_cons in Hlen.
  change (slice (flag :: rest) 1 5) with (take 4 rest).
  assert (length (take 4 rest) = 4)%nat as H4 by lens.
  assert (bytes_ok (take 4 rest)) as Hok4 by (by apply bytes_ok_take).
  exists flag, (drop 4 rest). split_and!; [|done|..|by apply bytes_ok_drop].
  - rewrite <- H4 at 1. by rewrite be_from_bytes, take_drop.
  - by apply from_bytes_nonneg.
  - pose proof (from_bytes_nonneg _ Hok4) as Hb. unfold zlen in Hb. rewrite H4 in Hb. apply Hb.
Qed.

Lemma slice_shift {A} (pre rest : list A) a b :
  0 <= a -> slice (pre ++ rest) (zlen pre + a) (zlen pre + b) = slice rest a b.
Proof.
  intros. unfold slice. replace (zlen pre + b - (zlen pre + a)) with (b - a) by lia.
  f_equal. rewrite drop_app. replace (drop (Z.to_nat (zlen pre + a)) pre) with (@nil A)
    by (symmetry; apply drop_ge; unfold zlen; lia).
  simpl. f_equal. unfold zlen. lia.
Qed.

(** Every accepted turn is over a well-formed frame at the current offset. *)
Lemma decode_turn_sound fuel pre rest acc ms :
  bytes_ok rest -> rest <> [] ->
  decode_loop (S fuel) (pre ++ rest) (zlen pre) acc = Ok ms ->
  exists m post, rest = wire m ++ post /\ frame_ok m /\ bytes_ok post.
Proof.
  intros Hok Hne Hd. cbn [decode_loop] in Hd. rewrite zlen_app in Hd.
  assert (0 < zlen rest) by (destruct rest; [done|rewrite zlen_cons; pose proof (zlen_nonneg rest); lia]).
  rewrite (proj2 (Z.ltb_lt _ _)) in Hd by lia. unfold _PREFIX_LEN in Hd.
  destruct (Z.ltb_spec (zlen pre + zlen rest - zlen pre) 5) as [|H5]; [done|].
  destruct (prefix_split rest) as (flag & body & Hrest & Hflag & Hlen & Hbody); [done|lia|].
  unfold prefix_unpack in Hd. inv_ok. clear Ha0. rewrite slice_shift in Hd by lia.
  set (len := from_bytes (slice rest 1 5)) in *.
  rewrite !Z.gtb_ltb in Hd.
  destruct (Z.ltb_spec MAX_MESSAGE_LENGTH len) as [|Hmax]; [done|].
  destruct (Z.ltb_spec (zlen pre + zlen rest) (zlen pre + 5 + len)) as [|Hfit]; [done|].
  rewrite Hrest in Hfit. autorewrite with zlen in Hfit.
  assert (zlen (take (Z.to_nat len) body) = len) as Hp by lens.
  exists (flag, take (Z.to_nat len) body), (drop (Z.to_nat len) body). split_and!.
  - rewrite Hrest at 1. unfold wire. cbn [fst snd app]. rewrite Hp.
    rewrite <- app_assoc, take_drop. done.
  - split_and!; simpl; [done|by apply bytes_ok_take|lia].
  - by apply bytes_ok_drop.
Qed.

Lemma decode_loop_sound fuel : forall pre rest acc ms,
  bytes_ok rest -> decode_loop fuel (pre ++ rest) (zlen pre) acc = Ok ms ->
  exists fs, rest = concat (wire <$> fs) /\ Forall frame_ok fs /\ ms = acc ++ (message_of <$> fs).
Proof.
  induction fuel as [|fuel IH]; intros pre rest acc ms Hok Hd.
  all: destruct (decide (rest = [])) as [->|Hne];
    [rewrite decode_loop_done in Hd by (rewrite app_nil_r; lia); injection Hd as <-;
     exists []; by rewrite app_nil_r|].
  - simpl in Hd. rewrite (proj2 (Z.ltb_lt _ _)) in Hd; [done|].
    rewrite zlen_app. destruct rest; [done|]. rewrite zlen_cons. pose proof (zlen_nonneg rest). lia.
  - destruct (decode_turn_sound fuel pre rest acc ms) as (m & post & -> & Hm & Hpost); [done..|].
    rewrite decode_loop_frame in Hd by done. rewrite app_assoc in Hd.
    apply IH in Hd as (fs & -> & Hfs & ->); [|done].
    exists (m :: fs). rewrite !fmap_cons; cbn [concat].
    split_and!; [done|by constructor|]. by rewrite <- app_assoc.
Qed.

(** The loop stops within its fuel (a turn that goes on consumes bytes), and
    the only exception it raises is the codec's own. *)
Lemma decode_loop_raises fuel : forall data offset acc e,
  bytes_ok data -> 0 <= offset -> zlen data - offset <= Z.of_nat fuel ->
  decode_loop fuel data offset acc = Raise e -> e = GrpcDecodeError.
Proof.
  induction fuel as [|fuel IH]; intros data offset acc e Hok Ho Hf; cbn [decode_loop].
  { case_cmp; [lia|done]. }
  unfold prefix_unpack, _PREFIX_LEN. case_cmp; try naive_solver.
  destruct (zget_lt data offset) as [flag ->]; [lia|]. cbn [rbind].
  pose proof (from_bytes_nonneg _ (bytes_ok_slice data (offset + 1) (offset + 5) Hok)).
  case_cmp; try naive_solver; intros Hd; apply IH in Hd; (done || lia).
Qed.

Lemma wires_length fs : (length fs <= length (concat (wire <$> fs)))%nat.
Proof.
  induction fs as [|m fs IH]; [done|]. rewrite fmap_cons; cbn [concat length].
  rewrite length_app. pose proof (zlen_wire m). pose proof (zlen_nonneg m.2). unfold zlen in *. lia.
Qed.

Lemma decode_wires fs :
  Forall frame_ok fs -> decode_messages (concat (wire <$> fs)) = Ok (message_of <$> fs).
Proof.
  intros. unfold decode_messages.
  by rewrite (decode_loop_frames fs [] [] _) by (done || apply wires_length).
Qed.

(** ** Properties *)

(** Every encoding succeeds, in the order of the messages. *)
Definition encode_all (ms : list (bool * bytes)) : result (list bytes) :=
  foldr (fun m acc => let* b := encode_message m.2 m.1 in let* bs := acc in Ok (b :: bs))
        (Ok []) ms.

(** Round trip.  A buffer holding any sequence of encoded messages, each
    within the safety limit, decodes to exactly those messages with their
    compressed flags, whatever the number of messages. *)
Theorem decode_encode_messages ms :
  Forall (fun m => zlen m.2 <= MAX_MESSAGE_LENGTH /\ bytes_ok m.2) ms ->
  exists encs, encode_all ms = Ok encs /\ decode_messages (concat encs) = Ok ms.
Proof.
  intros Hms. set (fs := (fun m : bool * bytes => (if m.1 then 1 else 0, m.2)) <$> ms).
  exists (wire <$> fs). split.
  - subst fs. induction Hms as [|m ms [Hl Hb] Hms IH]; [done|].
    cbn [encode_all foldr] in *. rewrite encode_message_wire by done. cbn [rbind].
    unfold encode_all in IH. by rewrite IH.
  - rewrite decode_wires.
    + f_equal. subst fs. rewrite <- list_fmap_compose. etrans; [|apply list_fmap_id].
      apply list_fmap_ext. intros i [[] p] _; done.
    + subst fs. apply Forall_fmap. eapply Forall_impl; [done|].
      intros [c p] [Hl Hb]. unfold frame_ok, is_byte; simpl. destruct c; split_and!; (done || lia).
Qed.

Lemma decode_encode_messages_witness :
  exists encs, encode_all [(true, [1; 2]); (false, [])] = Ok encs /\
    decode_messages (concat encs) = Ok [(true, [1; 2]); (false, [])].
Proof.
  apply (decode_encode_messages [(true, [1; 2]); (false, [])]).
  repeat constructor; vm_compute; congruence.
Defined.

(** The decoder accepts exactly the concatenations of frames whose body is
    complete and within the safety limit, and on every buffer it stops, with
    the messages or with [GrpcDecodeError], never by running past the end. *)
Theorem decode_messages_iff data :
  bytes_ok data ->
  (forall ms, decode_messages data = Ok ms <->
     exists fs, data = concat (wire <$> fs) /\ Forall frame_ok fs /\ ms = message_of <$> fs) /\
  (forall e, decode_messages data = Raise e -> e = GrpcDecodeError).
Proof.
  intros Hok. split.
  - intros ms. split.
    + intros Hd. by apply (decode_loop_sound _ [] data []) in Hd.
    + intros (fs & -> & Hfs & ->). by apply decode_wires.
  - intros e. apply decode_loop_raises; [done|lia|unfold zlen; lia].
Qed.

Lemma decode_messages_iff_witness :
  decode_messages [0; 0; 0; 0; 1; 7] = Ok [(false, [7])].
Proof.
  apply (decode_messages_iff [0; 0; 0; 0; 1; 7]); [repeat constructor; lia|].
  exists [(0, [7])]. split_and!; [reflexivity| |reflexivity].
  repeat constructor; vm_compute; congruence.
Defined.

End GrpcCodec.
