(* ===== verification/Reader.v ===== *)
(** * The byte-reader interface

    What the inbound readers ([asyncio.StreamReader], [BufferReader] of
    blackbull/server/connection_protocol.py, and the readers of
    blackbull/server/recipient.py) promise to the protocol codecs: bytes in
    order, [readexactly] all or nothing.  Codec theorems are proved against
    this class; each reader discharges it. *)

From Stdlib Require Import ZArith Lia.
From stdpp Require Import base tactics numbers option strings sets list.
From S2P Require Import Prelude PyLib PyText PyBytes.

Class ByteReader (R : Type) : Type := {
  (** [delivers r l]: the reader is in a good state, and [l] is what is left
      to be read before the end of the stream *)
  delivers : R -> bytes -> Prop;
  readexactly : Z -> R -> result (bytes * R);
  readexactly_enough n r l :
    delivers r l -> 0 <= n <= zlen l ->
    exists r', readexactly n r = Ok (take (Z.to_nat n) l, r') /\ delivers r' (drop (Z.to_nat n) l);
  readexactly_short n r l :
    delivers r l -> zlen l < n -> readexactly n r = Raise IncompleteReadError
}.

(** A reader whose bytes all arrived: the list itself. *)
Definition list_readexactly (n : Z) (l : bytes) : result (bytes * bytes) :=
  if zlen l <? n then Raise IncompleteReadError
  else Ok (take (Z.to_nat n) l, drop (Z.to_nat n) l).

#[export] Instance list_reader : ByteReader bytes.
Proof.
  refine {| delivers := eq; readexactly := list_readexactly |}.
  - intros n r l <- Hn. unfold list_readexactly. settle_cmp. eauto.
  - intros n r l <- Hn. unfold list_readexactly. by settle_cmp.
Defined.

Section Reader.
Context {R : Type} `{!ByteReader R}.

(** Reading a known prefix. *)
Lemma readexactly_app (r : R) l rest n :
  delivers r (l ++ rest) -> n = zlen l ->
  exists r', readexactly n r = Ok (l, r') /\ delivers r' rest.
Proof.
  intros Hc ->. destruct (readexactly_enough (zlen l) r _ Hc) as (r' & Hr & Hr').
  { rewrite zlen_app. pose proof (zlen_nonneg l). pose proof (zlen_nonneg rest). lia. }
  exists r'. by rewrite take_app_zlen, drop_app_zlen in * by done.
Qed.
End Reader.

(** A reader that can look at what has already arrived: [buffered] is a part of
    what it delivers, and [arrive n] is the state once more has arrived. *)
Class PeekReader (R : Type) `{!ByteReader R} : Type := {
  buffered : R -> bytes;
  arrive : nat -> R -> R;
  buffered_prefix x l : delivers x l -> buffered x `prefix_of` l;
  arrive_delivers n x l : delivers x l -> delivers (arrive n x) l
}.

(** The octets that have arrived, and those still under way. *)
Record wire : Type := mkWire { here : bytes; under_way : bytes }.

#[export] Instance wire_reader : ByteReader wire.
Proof.
  refine {|
    delivers w l := here w ++ under_way w = l;
    readexactly n w :=
      let l := here w ++ under_way w in
      if zlen l <? n then Raise IncompleteReadError
      else Ok (take (Z.to_nat n) l,
               mkWire (drop (Z.to_nat n) (here w)) (drop (Z.to_nat n - length (here w)) (under_way w))) |}.
  - intros n w l <- Hn. cbv zeta. settle_cmp. eexists. split; [done|]. cbn. by rewrite drop_app.
  - intros n w l <- Hn. cbv zeta. by settle_cmp.
Defined.

#[export] Instance wire_peek : PeekReader wire.
Proof.
  refine {| buffered := here; arrive n w := mkWire (here w ++ take n (under_way w)) (drop n (under_way w)) |}.
  - intros w l <-. by eexists.
  - intros n w l <-. cbn. by rewrite <- app_assoc, take_drop.
Defined.

(** ** Stream readers *)

(** How a read of a connection ends: with a value, with
    [IncompleteReadError(partial)], with [ReadLimitExceeded] and its prefix, or
    with the connection's exception; [Stuck] is a read that never returns. *)
Inductive outcome (A : Type) : Type :=
| Done (a : A)
| Incomplete (partial : bytes)
| LimitHit (prefix : bytes)
| Failed (e : exn)
| Stuck.
Arguments Done {A} a.
Arguments Incomplete {A} partial.
Arguments LimitHit {A} prefix.
Arguments Failed {A} e.
Arguments Stuck {A}.

(** The end of an HTTP head. *)
Definition HEAD_END : bytes := [13; 10; 13; 10].

(** What reading a head with a budget gives of a stream [l], and what it leaves. *)
Definition head_read (limit : Z) (l : bytes) (o : outcome bytes) (rest : bytes) : Prop :=
  match find_sub HEAD_END l with
  | Some i =>
      if (0 <? limit) && (limit <? Z.of_nat i + 4) then exists p, o = LimitHit p /\ p `prefix_of` l /\ rest = l
      else o = Done (take (i + 4) l) /\ rest = drop (i + 4) l
  | None =>
      if (0 <? limit) && (limit <? zlen l) then exists p, o = LimitHit p /\ p `prefix_of` l /\ rest = l
      else o = (if bool_decide (l = []) then Done [] else Incomplete l) /\ rest = []
  end.

(** The reads of [AbstractReader] that the HTTP/1.1 connection uses.
    [holds r l]: the reader is in a good state and [l] is what is left to be
    read before the end of the stream; [ssize] is its length. *)
Class StreamReader (R : Type) : Type := {
  holds : R -> bytes -> Prop;
  ssize : R -> nat;
  sread : Z -> R -> outcome bytes * R;
  sreadexactly : Z -> R -> outcome bytes * R;
  sreadline : R -> outcome bytes * R;           (* [readuntil(b'\n')] *)
  sread_head : Z -> R -> outcome bytes * R;
  holds_size r l : holds r l -> ssize r = length l;
  sread_spec n r l :
    holds r l -> 0 < n ->
    exists out rest r', sread n r = (Done out, r') /\ holds r' rest /\ l = out ++ rest /\ zlen out <= n /\
      (out = [] <-> l = []);
  sreadexactly_spec n r l :
    holds r l -> 0 <= n ->
    exists r', if n <=? zlen l
      then sreadexactly n r = (Done (take (Z.to_nat n) l), r') /\ holds r' (drop (Z.to_nat n) l)
      else sreadexactly n r = (Incomplete l, r') /\ holds r' [];
  sreadline_spec r l :
    holds r l ->
    exists r', match find_char 10 l with
      | Some i => sreadline r = (Done (take (S i) l), r') /\ holds r' (drop (S i) l)
      | None => sreadline r = (Incomplete l, r') /\ holds r' []
      end;
  sread_head_spec limit r l :
    holds r l -> exists o r' rest, sread_head limit r = (o, r') /\ holds r' rest /\ head_read limit l o rest
}.

(** The stream that has all arrived. *)
#[export] Instance list_stream : StreamReader bytes.
Proof.
  refine {|
    holds := eq;
    ssize := length;
    sread n l := (Done (take (Z.to_nat n) l), drop (Z.to_nat n) l);
    sreadexactly n l :=
      if n <=? zlen l then (Done (take (Z.to_nat n) l), drop (Z.to_nat n) l) else (Incomplete l, []);
    sreadline l := match find_char 10 l with Some i => (Done (take (S i) l), drop (S i) l) | None => (Incomplete l, []) end;
    sread_head limit l :=
      match find_sub HEAD_END l with
      | Some i =>
          if (0 <? limit) && (limit <? Z.of_nat i + 4) then (LimitHit l, l) else (Done (take (i + 4) l), drop (i + 4) l)
      | None =>
          if (0 <? limit) && (limit <? zlen l) then (LimitHit l, l)
          else (if bool_decide (l = []) then Done [] else Incomplete l, [])
      end |}.
  - by intros r l ->.
  - intros n r l <- Hn. eexists _, _, _. split_and!; [done..|by rewrite take_drop|lens|].
    split; [|by intros ->; rewrite take_nil]. intros H. apply (f_equal length) in H. rewrite length_take in H.
    apply length_zero_iff_nil. cbn in H. lia.
  - intros n r l <- Hn. destruct (n <=? zlen r); by eexists.
  - intros r l <-. destruct (find_char 10 r); by eexists.
  - intros limit r l <-. unfold head_read. destruct (find_sub HEAD_END r); destruct (_ && _); eexists _, _, _;
      (split; [reflexivity|]); (split; [reflexivity|]); eauto.
Defined.
