(* ===== verification/WsCodec.v ===== *)
(** * The WebSocket frame codec (blackbull/server/ws_codec.py)

    Frame header and payload encoding (RFC 6455 section 5), and the reader
    side: two-byte header, extended length, masking key, payload.  The server
    unmasks with one big-integer XOR; [unmask_bigint] proves that equal to the
    byte-by-byte XOR the encoder uses. *)

From Stdlib Require Import ZArith Lia.
From stdpp Require Import base tactics numbers option strings sets list.
From S2P Require Import Prelude Reader.

Module WsCodec.

(** ** Constants ([WSOpcode], [WSFrameBits]) *)

Definition CONTINUATION : Z := 0x0.
Definition TEXT : Z := 0x1.
Definition BINARY : Z := 0x2.
Definition CLOSE : Z := 0x8.
Definition PING : Z := 0x9.
Definition PONG : Z := 0xA.

Definition FIN : Z := 0x80.
Definition RSV1 : Z := 0x40.
Definition RSV2 : Z := 0x20.
Definition RSV3 : Z := 0x10.
Definition OPCODE_MASK : Z := 0x0F.
Definition MASK_BIT : Z := 0x80.
Definition LENGTH_MASK : Z := 0x7F.

Record WSFrameHeader : Type := mkHeader {
  opcode : Z;
  masked : bool;
  length_ : Z;
  fin : bool;
  rsv1 : bool;
  rsv2 : bool;
  rsv3 : bool
}.

(** [bytes((a, b))] *)
Definition bytes2 (a b : Z) : result bytes :=
  let* x := byte1 a in let* y := byte1 b in Ok (x ++ y).

(** ** Encoding *)

Definition encode_frame_header (length opcode : Z) (rsv1 : bool) : result bytes :=
  let first_byte := Z.lor FIN opcode in
  let first_byte := if rsv1 then Z.lor first_byte RSV1 else first_byte in
  if length <? 126 then bytes2 first_byte length
  else if length <? 65536 then
    let* h := bytes2 first_byte 126 in let* l := to_bytes 2 length in Ok (h ++ l)
  else
    let* h := bytes2 first_byte 127 in let* l := to_bytes 8 length in Ok (h ++ l).

(** [bytes(b ^ mask_key[i % 4] for i, b in enumerate(payload))] *)
Definition mask_bytes (mask_key payload : bytes) : bytes :=
  imap (fun i b => Z.lxor b (nth (i mod 4) mask_key 0)) payload.

(** [mask_key] is what [os.urandom(4)] returned. *)
Definition encode_frame (mask_key payload : bytes) (opcode : Z) (mask rsv1 : bool) : result bytes :=
  if negb mask then
    let* h := encode_frame_header (zlen payload) opcode rsv1 in Ok (h ++ payload)
  else
    let length := zlen payload in
    let first_byte := Z.lor FIN opcode in
    let first_byte := if rsv1 then Z.lor first_byte RSV1 else first_byte in
    let* header := byte1 first_byte in
    let mask_bit := MASK_BIT in
    let* header :=
      if length <? 126 then
        let* b := byte1 (Z.lor mask_bit length) in Ok (header ++ b)
      else if length <? 65536 then
        let* b := byte1 (Z.lor mask_bit 126) in
        let* l := to_bytes 2 length in Ok (header ++ b ++ l)
      else
        let* b := byte1 (Z.lor mask_bit 127) in
        let* l := to_bytes 8 length in Ok (header ++ b ++ l) in
    Ok (header ++ mask_key ++ mask_bytes mask_key payload).

(** ** Decoding *)

Definition truthy (v : Z) : bool := negb (v =? 0).

Definition header_of (b0 b1 : Z) : WSFrameHeader := {|
  opcode := Z.land b0 OPCODE_MASK;
  masked := truthy (Z.land b1 MASK_BIT);
  length_ := Z.land b1 LENGTH_MASK;
  fin := truthy (Z.land b0 FIN);
  rsv1 := truthy (Z.land b0 RSV1);
  rsv2 := truthy (Z.land b0 RSV2);
  rsv3 := truthy (Z.land b0 RSV3)
|}.

(** The unmasking of [read_payload]: the key repeated and cut to the payload's
    length, one XOR on the two buffers read as integers. *)
Definition unmask (mask raw : bytes) (length : Z) : result bytes :=
  let extended_mask := concat (replicate (Z.to_nat ((length + 3) / 4)) mask) in
  let extended_mask :=
    if zlen extended_mask >? length then slice extended_mask 0 length else extended_mask in
  to_bytes (Z.to_nat length) (Z.lxor (from_bytes raw) (from_bytes extended_mask)).

Section Reading.
Context {R : Type} `{!ByteReader R}.

Definition read_frame_header (reader : R) : result (WSFrameHeader * R) :=
  let* '(header, reader) := readexactly 2 reader in
  let* b0 := zget header 0 in
  let* b1 := zget header 1 in
  Ok (header_of b0 b1, reader).

Definition read_payload (reader : R) (masked : bool) (length : Z) (max_length : option Z)
    : result (bytes * R) :=
  let* '(length, reader) :=
    if length =? 126 then
      let* '(l, reader) := readexactly 2 reader in Ok (from_bytes l, reader)
    else if length =? 127 then
      let* '(l, reader) := readexactly 8 reader in Ok (from_bytes l, reader)
    else Ok (length, reader) in
  let* 'tt :=
    match max_length with
    | Some maximum =>
        if length >? maximum then Raise (FramePayloadTooLarge length maximum) else Ok tt
    | None => Ok tt
    end in
  if negb masked then readexactly length reader
  else
    let* '(mask, reader) := readexactly 4 reader in
    let* '(raw, reader) := readexactly length reader in
    if length =? 0 then Ok (raw, reader)
    else let* out := unmask mask raw length in Ok (out, reader).

Definition read_frame (reader : R) : result (Z * bytes * R) :=
  let* '(h, reader) := read_frame_header reader in
  let* '(payload, reader) := read_payload reader (masked h) (length_ h) None in
  Ok (opcode h, payload, reader).
End Reading.


(** ** The XOR lemmas *)

Lemma lxor_mod256 u v : Z.lxor u v mod 256 = Z.lxor (u mod 256) (v mod 256).
Proof.
  change 256 with (2 ^ 8). rewrite <- !Z.land_ones by lia.
  apply Z.bits_inj'. intros i Hi. rewrite ?Z.lxor_spec, ?Z.land_spec, ?Z.lxor_spec.
  by destruct (Z.testbit u i), (Z.testbit v i), (Z.testbit (Z.ones 8) i).
Qed.

Lemma lxor_div256 u v : Z.lxor u v / 256 = Z.lxor (u / 256) (v / 256).
Proof. change 256 with (2 ^ 8). by rewrite <- !Z.shiftr_div_pow2, Z.shiftr_lxor by lia. Qed.

Lemma lxor_byte a b : is_byte a -> is_byte b -> is_byte (Z.lxor a b).
Proof.
  unfold is_byte. intros Ha Hb.
  rewrite <- (Z.mod_small a 256), <- (Z.mod_small b 256), <- lxor_mod256 by lia.
  apply Z.mod_pos_bound. lia.
Qed.

Lemma lxor_from_bytes_bound a b :
  bytes_ok a -> bytes_ok b -> zlen a = zlen b ->
  0 <= Z.lxor (from_bytes a) (from_bytes b) < 256 ^ zlen a.
Proof.
  intros Ha Hb Hl. pose proof (from_bytes_nonneg a Ha). pose proof (from_bytes_nonneg b Hb) as Hbb.
  rewrite <- Hl in Hbb. split; [apply Z.lxor_nonneg; lia|].
  change 256 with (2 ^ 8) in *. rewrite <- Z.pow_mul_r in * by (unfold zlen; lia).
  set (k := 8 * zlen a) in *. assert (0 <= k) by (unfold k, zlen; lia). clearbody k.
  rewrite <- (Z.mod_small (from_bytes a) (2 ^ k)), <- (Z.mod_small (from_bytes b) (2 ^ k)) by lia.
  rewrite <- !Z.land_ones by lia.
  assert (forall u v, Z.lxor (Z.land u (Z.ones k)) (Z.land v (Z.ones k))
                      = Z.land (Z.lxor u v) (Z.ones k)) as ->.
  { intros u v. apply Z.bits_inj'. intros i Hi. rewrite ?Z.lxor_spec, ?Z.land_spec, ?Z.lxor_spec.
    by destruct (Z.testbit u i), (Z.testbit v i), (Z.testbit (Z.ones k) i). }
  rewrite Z.land_ones by lia. apply Z.mod_pos_bound. apply Z.pow_pos_nonneg; lia.
Qed.

(** One XOR of the integers is the XOR of the bytes. *)
Lemma be_bytes_lxor a b :
  bytes_ok a -> bytes_ok b -> length a = length b ->
  be_bytes (length a) (Z.lxor (from_bytes a) (from_bytes b)) = zip_with Z.lxor a b.
Proof.
  revert b. induction a as [|x a IH] using rev_ind; intros b Ha Hb Hl.
  { by destruct b. }
  destruct b as [|y b _] using rev_ind; [rewrite length_app in Hl; simpl in Hl; lia|].
  rewrite !length_app in *. simpl in Hl. assert (length a = length b) as Hl' by lia.
  apply bytes_ok_app in Ha as [Ha [Hx _]%bytes_ok_cons].
  apply bytes_ok_app in Hb as [Hb [Hy _]%bytes_ok_cons].
  replace (length a + length [x])%nat with (S (length a)) by (simpl; lia).
  rewrite zip_with_app by done. rewrite <- IH by done.
  unfold be_bytes at 1; fold be_bytes. rewrite !from_bytes_snoc. unfold is_byte in *.
  rewrite lxor_div256, lxor_mod256, !Z.div_add_l, !(Z.div_small x), !(Z.div_small y) by lia.
  rewrite !Z.add_0_r, !(Z.add_comm (_ * 256)), !Z.mod_add, !Z.mod_small by lia. done.
Qed.

(** The key repeated: position [i] holds byte [i mod 4] of the key. *)
Lemma lookup_repeat_key (key : bytes) k i :
  length key = 4%nat -> (i < 4 * k)%nat ->
  concat (replicate k key) !! i = Some (nth (i mod 4) key 0).
Proof.
  intros Hk. revert i. induction k as [|k IH]; intros i Hi; [lia|]. cbn [replicate concat].
  destruct (Nat.lt_ge_cases i 4).
  - rewrite lookup_app_l by lia. rewrite Nat.mod_small by done.
    destruct (lookup_lt_is_Some_2 key i) as [x Hx]; [lia|].
    rewrite Hx. f_equal. symmetry. by apply nth_lookup_Some.
  - rewrite lookup_app_r by lia. rewrite Hk, IH by lia. do 2 f_equal.
    replace i with (i - 4 + 1 * 4)%nat at 2 by lia. by rewrite Nat.Div0.mod_add.
Qed.

Lemma length_concat_replicate (key : bytes) k : length (concat (replicate k key)) = (k * length key)%nat.
Proof. induction k; simpl; [done|]. rewrite length_app. lia. Qed.

Lemma zip_repeat_key (key raw : bytes) m :
  length key = 4%nat -> length m = length raw ->
  (forall i, (i < length raw)%nat -> m !! i = Some (nth (i mod 4) key 0)) ->
  zip_with Z.lxor raw m = mask_bytes key raw.
Proof.
  intros Hk Hl Hm. apply list_eq. intros i. unfold mask_bytes.
  rewrite lookup_zip_with, list_lookup_imap.
  destruct (raw !! i) eqn:E; simpl; [|done]. rewrite Hm; [done|]. by eapply lookup_lt_Some.
Qed.

Lemma bytes_ok_repeat_key key k : bytes_ok key -> bytes_ok (concat (replicate k key)).
Proof. intros. induction k; simpl; [constructor|]. by apply bytes_ok_app. Qed.

(** The server's big-integer XOR is the byte-by-byte XOR with the key. *)
Lemma unmask_bigint mask raw :
  bytes_ok mask -> length mask = 4%nat -> bytes_ok raw ->
  unmask mask raw (zlen raw) = Ok (mask_bytes mask raw).
Proof.
  intros Hm H4 Hr. unfold unmask.
  set (k := Z.to_nat ((zlen raw + 3) / 4)).
  assert (length raw <= 4 * k)%nat as Hk by (unfold k, zlen; divmod).
  set (ext := if zlen (concat (replicate k mask)) >? zlen raw
              then slice (concat (replicate k mask)) 0 (zlen raw) else concat (replicate k mask)).
  assert (ext = take (length raw) (concat (replicate k mask))) as Hext.
  { unfold ext. rewrite slice_0. unfold zlen. rewrite Nat2Z.id. case_cmp; [done|].
    symmetry. apply take_ge. lia. }
  assert (length ext = length raw) as Hlen.
  { rewrite Hext, length_take, length_concat_replicate. lia. }
  assert (bytes_ok ext) by (rewrite Hext; by apply bytes_ok_take, bytes_ok_repeat_key).
  rewrite to_bytes_Ok.
  - replace (Z.to_nat (zlen raw)) with (length raw) by (unfold zlen; lia).
    rewrite be_bytes_lxor by done. f_equal. apply zip_repeat_key; [done|done|].
    intros i Hi. rewrite Hext, lookup_take_lt by done. apply lookup_repeat_key; [done|lia].
  - rewrite Z2Nat.id by apply zlen_nonneg. apply lxor_from_bytes_bound; [done|done|unfold zlen; lia].
Qed.

Lemma mask_bytes_involutive key payload : mask_bytes key (mask_bytes key payload) = payload.
Proof.
  apply list_eq. intros i. unfold mask_bytes. rewrite !list_lookup_imap.
  destruct (payload !! i); simpl; [|done].
  by rewrite Z.lxor_assoc, Z.lxor_nilpotent, Z.lxor_0_r.
Qed.

Lemma length_mask_bytes key payload : length (mask_bytes key payload) = length payload.
Proof. unfold mask_bytes. apply length_imap. Qed.

Lemma mask_bytes_ok key payload :
  bytes_ok key -> length key = 4%nat -> bytes_ok payload -> bytes_ok (mask_bytes key payload).
Proof.
  intros Hk H4 Hp. apply Forall_lookup. intros i x. unfold mask_bytes.
  rewrite list_lookup_imap. intros (y & Hy & ->)%fmap_Some.
  apply lxor_byte; [by eapply Forall_lookup_1|].
  destruct (nth_lookup_or_length key (i mod 4) 0) as [Hn|Hn];
    [exact (Forall_lookup_1 _ _ _ _ Hk Hn)|].
  pose proof (Nat.mod_upper_bound i 4). lia.
Qed.


(** ** The two header bytes *)

Definition first_byte (opcode : Z) (rsv1 : bool) : Z :=
  if rsv1 then Z.lor (Z.lor FIN opcode) RSV1 else Z.lor FIN opcode.
Definition second_byte (mask : bool) (len7 : Z) : Z :=
  if mask then Z.lor MASK_BIT len7 else len7.

Lemma ws_first_byte_fields op r1 :
  0 <= op < 16 ->
  is_byte (first_byte op r1) /\ forall b1,
  header_of (first_byte op r1) b1 =
    mkHeader op (truthy (Z.land b1 MASK_BIT)) (Z.land b1 LENGTH_MASK) true r1 false false.
Proof.
  intros Hop.
  set (P := fun op => bool_decide (is_byte (first_byte op r1)) &&
    (Z.land (first_byte op r1) OPCODE_MASK =? op) && truthy (Z.land (first_byte op r1) FIN) &&
    Bool.eqb (truthy (Z.land (first_byte op r1) RSV1)) r1 &&
    negb (truthy (Z.land (first_byte op r1) RSV2)) && negb (truthy (Z.land (first_byte op r1) RSV3))).
  assert (P op = true) as HP by (apply (range_forall 16); [by destruct r1; vm_compute|done]).
  unfold P in HP. rewrite !andb_true_iff in HP. destruct HP as (((((H0 & H1) & H2) & H3) & H4) & H5).
  split; [by apply bool_decide_eq_true in H0|].
  intros b1. unfold header_of. apply Z.eqb_eq in H1. rewrite H1, H2.
  apply eqb_prop in H3. apply negb_true_iff in H4, H5. by rewrite H3, H4, H5.
Qed.

Lemma second_byte_fields mask len7 :
  0 <= len7 < 128 ->
  is_byte (second_byte mask len7) /\
  truthy (Z.land (second_byte mask len7) MASK_BIT) = mask /\
  Z.land (second_byte mask len7) LENGTH_MASK = len7.
Proof.
  intros Hl.
  set (P := fun l => bool_decide (is_byte (second_byte mask l)) &&
    Bool.eqb (truthy (Z.land (second_byte mask l) MASK_BIT)) mask &&
    (Z.land (second_byte mask l) LENGTH_MASK =? l)).
  assert (P len7 = true) as HP by (apply (range_forall 128); [by destruct mask; vm_compute|done]).
  unfold P in HP. rewrite !andb_true_iff in HP. destruct HP as ((H0 & H1) & H2).
  apply bool_decide_eq_true in H0. apply eqb_prop in H1. by apply Z.eqb_eq in H2.
Qed.

(** The 7-bit length field and the extended length that follows it. *)
Definition len_field (n : Z) : Z * bytes :=
  if n <? 126 then (n, []) else if n <? 65536 then (126, be_bytes 2 n) else (127, be_bytes 8 n).

Lemma len_field_range n : 0 <= n -> 0 <= (len_field n).1 < 128.
Proof. intros. unfold len_field. case_cmp; simpl; lia. Qed.

(** What [encode_frame] produces, on both of its paths. *)
Lemma encode_frame_layout key payload op mask r1 :
  0 <= op < 16 -> zlen payload < 2 ^ 64 ->
  encode_frame key payload op mask r1 =
  Ok (first_byte op r1 :: second_byte mask (len_field (zlen payload)).1 ::
      (len_field (zlen payload)).2 ++
      (if mask then key ++ mask_bytes key payload else payload)).
Proof.
  intros Hop Hlen. destruct (ws_first_byte_fields op r1 Hop) as [Hb0 _].
  pose proof (zlen_nonneg payload) as H0.
  destruct (second_byte_fields mask _ (len_field_range _ H0)) as [Hb1 _].
  unfold len_field in *.
  unfold encode_frame, encode_frame_header, bytes2. fold (first_byte op r1).
  rewrite !(byte1_Ok (first_byte op r1)) by done.
  destruct mask; cbn [negb rbind second_byte] in *; case_cmp; cbn [fst snd] in *;
    rewrite ?byte1_Ok, ?to_bytes_Ok by (simpl; (done || lia)); cbn [rbind app];
    by rewrite <- ?app_assoc.
Qed.

Section ReadingFacts.
Context {R : Type} `{!ByteReader R}.

Lemma read_frame_header_layout (r : R) op r1 mask len7 rest :
  0 <= op < 16 -> 0 <= len7 < 128 ->
  delivers r (first_byte op r1 :: second_byte mask len7 :: rest) ->
  exists r', read_frame_header r = Ok (mkHeader op mask len7 true r1 false false, r') /\
             delivers r' rest.
Proof.
  intros Hop Hl Hc.
  destruct (readexactly_app r [first_byte op r1; second_byte mask len7] rest 2) as (r' & Hr & Hr');
    [done..|].
  exists r'. split; [|done]. unfold read_frame_header. rewrite Hr. cbn [rbind].
  destruct (ws_first_byte_fields op r1 Hop) as [_ Hh].
  destruct (second_byte_fields mask len7 Hl) as (_ & Hm & Hlf).
  cbv [zget]. simpl. by rewrite Hh, Hm, Hlf.
Qed.

(** Resolving the extended length gives back the declared one. *)
Lemma read_extended_length (r : R) n rest :
  0 <= n < 2 ^ 64 -> delivers r ((len_field n).2 ++ rest) ->
  exists r', delivers r' rest /\ forall masked max_length,
    read_payload r masked (len_field n).1 max_length =
    (let* 'tt := match max_length with
                 | Some maximum => if n >? maximum then Raise (FramePayloadTooLarge n maximum) else Ok tt
                 | None => Ok tt
                 end in
     if negb masked then readexactly n r'
     else
       let* '(mask, reader) := readexactly 4 r' in
       let* '(raw, reader) := readexactly n reader in
       if n =? 0 then Ok (raw, reader)
       else let* out := unmask mask raw n in Ok (out, reader)).
Proof.
  intros Hn Hc. unfold len_field in *. 
  destruct (Z.ltb_spec n 126); [|destruct (Z.ltb_spec n 65536)]; cbn [fst snd] in *.
  - exists r. split; [done|]. intros. unfold read_payload.
    by rewrite (proj2 (Z.eqb_neq n 126)), (proj2 (Z.eqb_neq n 127)) by lia.
  - destruct (readexactly_app r _ rest 2 Hc) as (r' & Hr & Hr'); [by rewrite zlen_be_bytes|].
    exists r'. split; [done|]. intros. unfold read_payload. cbn [Z.eqb Pos.eqb]. rewrite Hr. cbn [rbind].
    by rewrite from_be_small by (simpl; lia).
  - destruct (readexactly_app r _ rest 8 Hc) as (r' & Hr & Hr'); [by rewrite zlen_be_bytes|].
    exists r'. split; [done|]. intros. unfold read_payload. cbn [Z.eqb Pos.eqb]. rewrite Hr. cbn [rbind].
    by rewrite from_be_small by (simpl; lia).
Qed.
End ReadingFacts.


(** ** Properties *)

(** Frame round trip.  Over any reader, reading a frame produced by
    [encode_frame] (masked with any key, or unmasked; any payload below 2^64
    bytes; any opcode; with or without RSV1) returns the opcode and the
    original payload, and leaves the reader exactly after the frame. *)
Theorem read_encode_frame {R} `{!ByteReader R} (r : R) key payload op mask r1 frame rest :
  0 <= op < 16 -> zlen payload < 2 ^ 64 -> bytes_ok payload ->
  bytes_ok key -> length key = 4%nat ->
  encode_frame key payload op mask r1 = Ok frame ->
  delivers r (frame ++ rest) ->
  exists r', read_frame r = Ok (op, payload, r') /\ delivers r' rest.
Proof.
  intros Hop Hlen Hp Hk H4 He Hc. pose proof (zlen_nonneg payload) as H0.
  rewrite encode_frame_layout in He by done. injection He as <-. cbn [app] in Hc.
  pose proof (len_field_range _ H0) as Hl7.
  destruct (read_frame_header_layout r _ _ _ _ _ Hop Hl7 Hc) as (ra & Hh & Hra).
  rewrite <- app_assoc in Hra.
  destruct (read_extended_length ra _ _ (conj H0 Hlen) Hra) as (rb & Hrb & Hpl).
  unfold read_frame. rewrite Hh. cbn [rbind masked length_ opcode]. rewrite Hpl. cbn [rbind].
  destruct mask; cbn [negb].
  - rewrite <- app_assoc in Hrb.
    destruct (readexactly_app rb _ _ 4 Hrb) as (rc & -> & Hrc); [by unfold zlen; rewrite H4|].
    cbn [rbind]. destruct (readexactly_app rc _ _ (zlen payload) Hrc) as (rd & -> & Hrd);
      [by unfold zlen; rewrite length_mask_bytes|].
    exists rd. split; [|done]. cbn [rbind]. destruct (Z.eqb_spec (zlen payload) 0) as [Hz|Hz].
    + destruct payload; [done|]. rewrite zlen_cons in Hz. pose proof (zlen_nonneg payload). lia.
    + assert (zlen payload = zlen (mask_bytes key payload)) as Hz'
        by (unfold zlen; by rewrite length_mask_bytes).
      rewrite Hz', unmask_bigint by (auto using mask_bytes_ok). cbn [rbind].
      by rewrite mask_bytes_involutive.
  - destruct (readexactly_app rb _ _ (zlen payload) Hrb) as (rc & -> & Hrc); [done|].
    exists rc. by split.
Qed.

Lemma read_encode_frame_witness :
  exists r', read_frame ([0x81; 0x83; 1; 2; 3; 4; 72 ; 107; 34; 9] : bytes)
             = Ok (TEXT, [73; 105; 33], r') /\ delivers r' [9].
Proof.
  apply (read_encode_frame ([0x81; 0x83; 1; 2; 3; 4; 72; 107; 34; 9] : bytes)
    [1; 2; 3; 4] [73; 105; 33] TEXT true false [0x81; 0x83; 1; 2; 3; 4; 72; 107; 34] [9]).
  - unfold TEXT; lia.
  - vm_compute; congruence.
  - repeat constructor; lia.
  - repeat constructor; lia.
  - reflexivity.
  - reflexivity.
  - reflexivity.
Defined.

(** The payload cap.  When the declared length (7-bit, 16-bit or 64-bit
    form) exceeds [max_length], [read_payload] raises [FramePayloadTooLarge]
    with both numbers after the length field alone: the result does not depend
    on whether any key or payload byte ever arrives. *)
Theorem read_payload_too_large {R} `{!ByteReader R} (r : R) n maximum masked rest :
  0 <= n < 2 ^ 64 -> maximum < n -> delivers r ((len_field n).2 ++ rest) ->
  read_payload r masked (len_field n).1 (Some maximum) = Raise (FramePayloadTooLarge n maximum).
Proof.
  intros Hn Hm Hc. destruct (read_extended_length r n rest Hn Hc) as (r' & _ & ->).
  by rewrite Z.gtb_ltb, (proj2 (Z.ltb_lt _ _)) by done.
Qed.

Lemma read_payload_too_large_witness :
  read_payload ([0; 0; 0; 0; 0; 1; 0; 0] : bytes) true 127 (Some 65535)
  = Raise (FramePayloadTooLarge 65536 65535).
Proof.
  apply (read_payload_too_large ([0; 0; 0; 0; 0; 1; 0; 0] : bytes) 65536 65535 true []).
  - lia.
  - lia.
  - reflexivity.
Defined.

End WsCodec.
