(* ===== verification/ReadBuffer.v ===== *)
(** * The owned inbound buffer (blackbull/server/read_buffer.py)

    One [bytearray] per connection, written by the transport at the cursor
    [_w] and read at [_r].  The model keeps every cursor and flag of the class;
    the outstanding write window [_view] is not state of the model, because it
    only decides whether CPython may resize the array (a [BufferError] from a
    leaked export is not modelled).  The abstraction of a buffer is the list of
    its unread bytes, and every operation is proved to refine the same
    operation on that list. *)

From Stdlib Require Import ZArith Lia.
From stdpp Require Import base tactics numbers option strings sets list.
From S2P Require Import Prelude PyLib PyText PyBytes.

Module ReadBuffer.

Definition _INITIAL : Z := 8192.
Definition _MIN_READ : Z := 4096.
Definition _COMPACT_MIN : Z := 4096.
Definition LIMIT_EXCEEDED : Z := -2.
Definition FLOOR : Z := _INITIAL.

Record t : Type := mk {
  _buf : bytes;
  _r : Z;
  _w : Z;
  _scanned : Z;
  _eof : bool;
  _examined : Z;
  grown : bool;
  drained_boundary : bool;
  peak_avail : Z
}.

(** [bytes(n)] *)
Definition zeros (n : Z) : bytes := replicate (Z.to_nat n) 0.

Definition __init__ : t := mk (zeros _INITIAL) 0 0 0 false 0 false false 0.

Definition available (b : t) : Z := _w b - _r b.
Definition capacity (b : t) : Z := zlen (_buf b).
Definition feed_eof (b : t) : t :=
  mk (_buf b) (_r b) (_w b) (_scanned b) true (_examined b) (grown b) (drained_boundary b) (peak_avail b).

(** Move the unconsumed tail to the front. *)
Definition compact (b : t) : t :=
  let r := _r b in
  if r =? 0 then
    if _w b =? 0
    then mk (_buf b) (_r b) (_w b) (_scanned b) (_eof b) (_examined b) (grown b) true (peak_avail b)
    else b
  else
    let b :=
      if _w b =? r
      then mk (_buf b) 0 0 0 (_eof b) (_examined b) (grown b) (drained_boundary b) (peak_avail b)
      else mk (slice_from (_buf b) r ++ zeros r) 0 (_w b - r) (Z.max 0 (_scanned b - r))
              (_eof b) (_examined b) (grown b) (drained_boundary b) (peak_avail b) in
    if _w b =? 0
    then mk (_buf b) (_r b) (_w b) (_scanned b) (_eof b) (_examined b) (grown b) true (peak_avail b)
    else b.

(** [while size < need: size *= 2].  Starting from at least 1, as many turns
    as [need] has bits are enough. *)
Fixpoint double_until (fuel : nat) (size need : Z) : Z :=
  match fuel with
  | O => size
  | S fuel => if size <? need then double_until fuel (size * 2) need else size
  end.

Definition grow (want : Z) (b : t) : t :=
  let need := _w b + want in
  let size := double_until (Z.to_nat (Z.log2_up need)) (zlen (_buf b)) need in
  let buf := _buf b ++ zeros (size - zlen (_buf b)) in
  mk buf (_r b) (_w b) (_scanned b) (_eof b) (_examined b) (zlen buf >? _INITIAL)
     (drained_boundary b) (peak_avail b).

(** Ensure [want] writable bytes, compacting before growing. *)
Definition _make_room (want : Z) (b : t) : t :=
  if negb (_r b =? 0) && (zlen (_buf b) - (_w b - _r b) >=? want) then
    let b := compact b in
    if zlen (_buf b) - _w b >=? want then b else grow want b
  else grow want b.

(** [get_buffer(sizehint, want=want)]: the window is [_buf[_w:]] of the
    resulting buffer.  The hint is not used, as in the source. *)
Definition get_buffer (sizehint want : Z) (b : t) : t :=
  let target := if want >? _MIN_READ then want else _MIN_READ in
  if zlen (_buf b) - _w b <? target then _make_room target b else b.

(** What the transport does with the window: write [data] at its start. *)
Definition window_write (data : bytes) (b : t) : t :=
  mk (slice (_buf b) 0 (_w b) ++ data ++ slice_from (_buf b) (_w b + zlen data))
     (_r b) (_w b) (_scanned b) (_eof b) (_examined b) (grown b) (drained_boundary b) (peak_avail b).

Definition buffer_updated (nbytes : Z) (b : t) : Z * t :=
  let w := _w b + nbytes in
  let peak := if grown b && (w - _r b >? peak_avail b) then w - _r b else peak_avail b in
  (w - _r b,
   mk (_buf b) (_r b) w (_scanned b) (_eof b) (_examined b) (grown b) (drained_boundary b) peak).

(** [_buf.find(sep, start, end_)]: the lowest position of a whole [sep]. *)
Definition bfind (sep l : bytes) (start end_ : Z) : Z :=
  match find_sub sep (slice l start end_) with
  | Some i => start + Z.of_nat i
  | None => -1
  end.

Definition CRLFCRLF : bytes := [13; 10; 13; 10].

Definition find_head_end (limit : Z) (b : t) : Z * t :=
  let start := Z.max (_r b) (_scanned b - 3) in
  let b := mk (_buf b) (_r b) (_w b) (_scanned b) (_eof b) (_examined b + (_w b - start))
              (grown b) (drained_boundary b) (peak_avail b) in
  let idx := bfind CRLFCRLF (_buf b) start (_w b) in
  if idx =? -1 then
    let b := mk (_buf b) (_r b) (_w b) (_w b) (_eof b) (_examined b)
                (grown b) (drained_boundary b) (peak_avail b) in
    if (limit >? 0) && (_w b - _r b >? limit) then (LIMIT_EXCEEDED, b) else (-1, b)
  else
    let b := mk (_buf b) (_r b) (_w b) idx (_eof b) (_examined b)
                (grown b) (drained_boundary b) (peak_avail b) in
    let end_ := idx + 4 - _r b in
    if (limit >? 0) && (end_ >? limit) then (LIMIT_EXCEEDED, b) else (end_, b).

Definition find (sep : bytes) (b : t) : Z :=
  let idx := bfind sep (_buf b) (_r b) (_w b) in
  if idx <? 0 then -1 else idx - _r b.

(** Restart the head scan for the next message. *)
Definition _reset_scan (b : t) : t :=
  let b := mk (_buf b) (_r b) (_w b) (_r b) (_eof b) (_examined b)
              (grown b) (drained_boundary b) (peak_avail b) in
  if (_r b >=? _COMPACT_MIN) && (_r b * 2 >=? zlen (_buf b)) then compact b else b.

Definition set_r (r : Z) (b : t) : t :=
  mk (_buf b) r (_w b) (_scanned b) (_eof b) (_examined b) (grown b) (drained_boundary b) (peak_avail b).

(** [take(n)]: the slice and the memoryview branch copy the same bytes. *)
Definition take_ (n : Z) (b : t) : bytes * t :=
  let r := _r b in
  let out := slice (_buf b) r (r + n) in
  (out, _reset_scan (set_r (r + n) b)).

Definition view (n : Z) (b : t) : bytes := slice (_buf b) (_r b) (_r b + n).

Definition consume (n : Z) (b : t) : t := _reset_scan (set_r (_r b + n) b).

Definition consume_boundary (b : t) : t :=
  mk (_buf b) (_r b) (_w b) (_scanned b) (_eof b) (_examined b) (grown b) false 0.

Definition release_to_floor (b : t) : bool * t :=
  if negb (grown b) || negb (_w b =? _r b) then (false, b)
  else (true, mk (zeros _INITIAL) 0 0 0 (_eof b) (_examined b) false (drained_boundary b) (peak_avail b)).


(** ** Abstraction and invariant *)

(** The unread bytes, the abstract state of the buffer. *)
Definition unread (b : t) : bytes := slice (_buf b) (_r b) (_w b).

(** No terminator starts in the part of the unread bytes the scan has cleared
    (up to the three-byte back-off). *)
Definition scan_clean (b : t) : Prop :=
  forall j, Z.of_nat j < _scanned b - _r b - 3 -> ~ CRLFCRLF `prefix_of` drop j (unread b).

Record ok (b : t) : Prop := mk_ok {
  ok_r : 0 <= _r b;
  ok_scanned : _r b <= _scanned b <= _w b;
  ok_w : _w b <= zlen (_buf b);
  ok_cap : _INITIAL <= zlen (_buf b);
  ok_grown : grown b = (zlen (_buf b) >? _INITIAL);
  ok_clean : scan_clean b
}.

Lemma zlen_zeros n : 0 <= n -> zlen (zeros n) = n.
Proof. intros. unfold zeros, zlen. rewrite length_replicate. lia. Qed.

Lemma init_ok : ok __init__ /\ unread __init__ = [].
Proof.
  split; [|done]. split; cbn [_r _w _scanned _buf grown __init__]; rewrite ?zlen_zeros; unfold _INITIAL;
    try lia; try done.
  intros j Hj. cbn in Hj. lia.
Qed.

Lemma zlen_unread b : ok b -> zlen (unread b) = available b.
Proof.
  intros [Hr Hs Hw Hc Hg Hcl]. unfold unread, available. rewrite zlen_slice; lia.
Qed.

(** ** Every operation on the abstraction *)

Lemma drop_unread b k :
  ok b -> 0 <= k -> slice (_buf b) (_r b + k) (_w b) = drop (Z.to_nat k) (unread b).
Proof.
  intros [Hr Hs Hw Hc Hg Hcl] Hk. unfold unread, slice.
  rewrite skipn_firstn_comm, drop_drop. f_equal; [lia|]. f_equal. lia.
Qed.

(** The invariant and the abstraction only read the array, the cursors and the
    [grown] flag. *)
Lemma ok_ext b b' :
  ok b -> _buf b' = _buf b -> _r b' = _r b -> _w b' = _w b -> _scanned b' = _scanned b ->
  grown b' = grown b -> ok b' /\ unread b' = unread b.
Proof.
  intros [Hr Hs Hw Hc Hg Hcl] E1 E2 E3 E4 E5.
  assert (unread b' = unread b) as E by (unfold unread; congruence).
  assert (scan_clean b') as Hcl' by (intros j Hj; rewrite E; apply Hcl; lia).
  split; [|done]. split; rewrite ?E1, ?E2, ?E3, ?E4, ?E5; done.
Qed.

Lemma compact_spec b : ok b -> ok (compact b) /\ unread (compact b) = unread b
  /\ _scanned (compact b) - _r (compact b) = _scanned b - _r b
  /\ zlen (_buf (compact b)) = zlen (_buf b) /\ _w (compact b) - _r (compact b) = _w b - _r b
  /\ _r (compact b) = 0 /\ _examined (compact b) = _examined b /\ _eof (compact b) = _eof b.
Proof.
  intros Hok. pose proof Hok as [Hr Hs Hw Hc Hg Hcl].
  unfold compact. destruct (Z.eqb_spec (_r b) 0) as [Hr0|Hr0].
  { destruct (Z.eqb_spec (_w b) 0); cbn [_r _w _scanned _buf _examined _eof];
      (split; [by apply (ok_ext b)|]); (split; [by apply (ok_ext b)|]); split_and!; (done || lia). }
  destruct (Z.eqb_spec (_w b) (_r b)) as [He|He]; cbn [_w _r _scanned _buf Z.eqb _examined _eof].
  - assert (unread b = []) as Hu.
    { apply length_zero_iff_nil. pose proof (zlen_unread b Hok) as H. unfold zlen, available in H. lia. }
    split_and!; try done; try lia.
    split; cbn [_r _w _scanned _buf grown]; try done; try lia.
    intros j Hj. cbn [_r _scanned] in Hj. lia.
  - assert (zlen (slice_from (_buf b) (_r b) ++ zeros (_r b)) = zlen (_buf b)) as Hlen
      by (rewrite zlen_app, zlen_zeros, zlen_slice_from by lia; lia).
    rewrite (proj2 (Z.eqb_neq (_w b - _r b) 0)) by lia.
    set (b' := mk _ _ _ _ _ _ _ _ _).
    assert (unread b' = unread b) as Hu.
    { unfold unread, b'; cbn [_buf _r _w]. rewrite slice_0. unfold slice, slice_from.
      apply take_app_le. lens. }
    split; [|unfold b' in *; cbn [_r _w _scanned _buf _examined _eof] in *; split_and!; done || lia].
    assert (scan_clean b') as Hcl'.
    { intros j. rewrite Hu. unfold b'; cbn [_r _scanned]. intros Hj. apply Hcl. lia. }
    split; unfold b' in *; cbn [_r _w _scanned _buf grown] in *; rewrite ?Hlen; done || lia.
Qed.

(** The doubling loop ends with room for [need]. *)
Lemma double_until_ge fuel size need :
  0 < size -> need <= size * 2 ^ Z.of_nat fuel ->
  size <= double_until fuel size need /\ need <= double_until fuel size need.
Proof.
  revert size. induction fuel as [|fuel IH]; intros size Hs Hn; cbn [double_until].
  - rewrite Z.mul_1_r in Hn. lia.
  - destruct (Z.ltb_spec size need); [|lia].
    destruct (IH (size * 2)) as [H1 H2]; [lia| |lia].
    rewrite Nat2Z.inj_succ, Z.pow_succ_r in Hn by lia. lia.
Qed.

Lemma double_until_enough size need :
  0 < size -> let n := double_until (Z.to_nat (Z.log2_up need)) size need in size <= n /\ need <= n.
Proof.
  intros Hs. apply double_until_ge; [done|]. rewrite Z2Nat.id by apply Z.log2_up_nonneg.
  destruct (Z.le_gt_cases need 1) as [Hn|Hn].
  - rewrite Z.log2_up_eqn0 by lia. lia.
  - pose proof (Z.log2_up_spec need Hn) as [_ H]. nia.
Qed.

(** What making room keeps: the unread bytes, the scan, the end-of-stream
    flag; and what it gives: [want] writable bytes. *)
Definition room_spec (want : Z) (b b' : t) : Prop :=
  ok b' /\ unread b' = unread b /\ _w b' - _scanned b' = _w b - _scanned b
  /\ _examined b' = _examined b /\ _eof b' = _eof b /\ want <= zlen (_buf b') - _w b'.

Lemma grow_spec want b : ok b -> room_spec want b (grow want b).
Proof.
  intros Hok. pose proof Hok as [Hr Hs Hw Hc Hg Hcl]. unfold _INITIAL in *.
  destruct (double_until_enough (zlen (_buf b)) (_w b + want)) as [H1 H2]; [lia|].
  unfold grow, room_spec. set (size := double_until _ _ _) in *.
  assert (zlen (_buf b ++ zeros (size - zlen (_buf b))) = size) as Hl
    by (rewrite zlen_app, zlen_zeros; lia).
  set (b' := mk _ _ _ _ _ _ _ _ _).
  assert (unread b' = unread b) as Hu.
  { unfold b', unread, slice; cbn [_buf _r _w]. rewrite drop_app_le by lens. apply take_app_le. lens. }
  unfold b'; cbn [_w _scanned _examined _eof _buf]. rewrite Hl. split_and!; try done; try lia.
  assert (scan_clean b') as Hcl' by (intros j; rewrite Hu; unfold b'; cbn [_r _scanned]; apply Hcl).
  split; unfold b' in *; cbn [_r _w _scanned _buf grown] in *; rewrite ?Hl; unfold _INITIAL; done || lia.
Qed.

Lemma make_room_spec want b : ok b -> room_spec want b (_make_room want b).
Proof.
  intros Hok. unfold _make_room. case_match; [|by apply grow_spec].
  destruct (compact_spec b Hok) as (Hok' & Hu & Hs & Hl & Hw & Hr & He & Hf).
  rewrite Z.geb_leb. destruct (Z.leb_spec want (zlen (_buf (compact b)) - _w (compact b))).
  - unfold room_spec. split_and!; try done. lia.
  - destruct (grow_spec want (compact b) Hok') as (G1 & G2 & G3 & G4 & G5 & G6).
    unfold room_spec. split_and!; try done; try congruence. lia.
Qed.

(** The transport is never offered a window smaller than asked for, nor
    smaller than [_MIN_READ]. *)
Lemma get_buffer_spec hint want b : ok b -> room_spec (Z.max want _MIN_READ) b (get_buffer hint want b).
Proof.
  intros Hok. unfold get_buffer. rewrite Z.gtb_ltb.
  replace (if _MIN_READ <? want then want else _MIN_READ) with (Z.max want _MIN_READ)
    by (destruct (Z.ltb_spec _MIN_READ want); lia).
  destruct (Z.ltb_spec (zlen (_buf b) - _w b) (Z.max want _MIN_READ)).
  - by apply make_room_spec.
  - unfold room_spec. split_and!; done || lia.
Qed.

(** A write into the window, published by [buffer_updated], appends. *)
Definition receive (data : bytes) (b : t) : Z * t := buffer_updated (zlen data) (window_write data b).

Lemma window_write_nil b : window_write [] b = b.
Proof.
  destruct b as [buf r w sc e ex g d p]. unfold window_write; cbn [_buf _r _w _scanned _eof _examined grown].
  f_equal. cbn [app]. change (zlen (@nil Z)) with 0. rewrite Z.add_0_r, slice_0. apply take_drop.
Qed.

Lemma slice_write (l data post : bytes) r w :
  0 <= r <= w -> w <= zlen l ->
  slice (slice l 0 w ++ data ++ post) r (w + zlen data) = slice l r w ++ data.
Proof.
  intros Hr Hw. rewrite slice_0. unfold slice.
  rewrite drop_app_le by lens. rewrite skipn_firstn_comm, app_assoc.
  replace (Z.to_nat w - Z.to_nat r)%nat with (Z.to_nat (w - r)) by lia.
  apply take_app_zlen. lens.
Qed.

Lemma receive_spec data b :
  ok b -> zlen data <= zlen (_buf b) - _w b ->
  let '(n, b') := receive data b in
  ok b' /\ unread b' = unread b ++ data /\ n = zlen (unread b ++ data)
  /\ _w b' - _scanned b' = _w b - _scanned b + zlen data
  /\ _examined b' = _examined b /\ _eof b' = _eof b.
Proof.
  intros Hok Hfit. pose proof Hok as [Hr Hs Hw Hc Hg Hcl].
  pose proof (zlen_unread b Hok) as Hlu. unfold available in Hlu. pose proof (zlen_nonneg data) as Hd.
  unfold receive, buffer_updated, window_write; cbn [_w _r _buf _scanned _examined _eof grown].
  set (buf' := slice (_buf b) 0 (_w b) ++ _). set (b' := mk _ _ _ _ _ _ _ _ _).
  assert (zlen buf' = zlen (_buf b)) as Hl.
  { unfold buf'. rewrite !zlen_app, zlen_slice, zlen_slice_from by lia. lia. }
  assert (unread b' = unread b ++ data) as Hu
    by (unfold b', unread; cbn [_buf _r _w]; apply slice_write; lia).
  assert (scan_clean b') as Hcl'.
  { intros j. rewrite Hu. unfold b'; cbn [_r _scanned]. intros Hj Hp.
    apply (Hcl j Hj). revert Hp. apply prefix_drop_app. change (length CRLFCRLF) with 4%nat.
    unfold zlen in *. lia. }
  split_and!; try done.
  - split; unfold b' in *; cbn [_r _w _scanned _buf grown] in *; rewrite ?Hl; done || lia.
  - rewrite zlen_app. lia.
  - unfold b'; cbn [_w _scanned]. lia.
Qed.

(** ** The head scan against its definition *)

(** What [find_head_end] answers, said of the unread bytes alone. *)
Definition head_end (limit : Z) (u : bytes) : Z :=
  match find_sub CRLFCRLF u with
  | None => if (limit >? 0) && (zlen u >? limit) then LIMIT_EXCEEDED else -1
  | Some i => if (limit >? 0) && (Z.of_nat i + 4 >? limit) then LIMIT_EXCEEDED else Z.of_nat i + 4
  end.

(** An answer other than "not yet" is final. *)
Lemma head_end_final limit u more :
  head_end limit u <> -1 -> head_end limit (u ++ more) = head_end limit u.
Proof.
  unfold head_end. destruct (find_sub CRLFCRLF u) as [i|] eqn:Hf.
  { by rewrite (find_sub_app_Some CRLFCRLF u more i ltac:(done) Hf). }
  destruct (Z.ltb_spec 0 limit) as [Hl|Hl]; [|by rewrite (Z.gtb_ltb limit), (proj2 (Z.ltb_ge _ _) Hl)].
  rewrite !(Z.gtb_ltb limit), (proj2 (Z.ltb_lt _ _) Hl). cbn [andb].
  destruct (Z.ltb_spec limit (zlen u)) as [Hu|Hu]; rewrite (Z.gtb_ltb (zlen u)).
  2: { by rewrite (proj2 (Z.ltb_ge _ _) Hu). }
  intros _. rewrite (proj2 (Z.ltb_lt _ _) Hu).
  destruct (find_sub CRLFCRLF (u ++ more)) as [i|] eqn:Hg.
  - pose proof (find_sub_app_None _ _ _ _ Hf Hg) as Hi. change (length CRLFCRLF) with 4%nat in Hi.
    rewrite Z.gtb_ltb, (proj2 (Z.ltb_lt _ _)); [done|]. unfold zlen in Hu. lia.
  - rewrite Z.gtb_ltb, (proj2 (Z.ltb_lt _ _)); [done|]. rewrite zlen_app.
    pose proof (zlen_nonneg more). lia.
Qed.

Lemma head_end_range limit u :
  head_end limit u = LIMIT_EXCEEDED \/ head_end limit u = -1 \/ 4 <= head_end limit u <= zlen u.
Proof.
  unfold head_end. destruct (find_sub CRLFCRLF u) as [i|] eqn:Hf; case_match; auto.
  right; right. pose proof (find_sub_bound _ _ _ Hf) as [Hb|]; [|done].
  change (length CRLFCRLF) with 4%nat in Hb. unfold zlen. lia.
Qed.

(** Starting the search three bytes before the scanned mark finds what a
    search from the start finds. *)
Lemma bfind_skip b :
  ok b ->
  bfind CRLFCRLF (_buf b) (Z.max (_r b) (_scanned b - 3)) (_w b)
  = match find_sub CRLFCRLF (unread b) with Some i => _r b + Z.of_nat i | None => -1 end.
Proof.
  intros Hok. pose proof Hok as [Hr Hs Hw Hc Hg Hcl].
  pose proof (zlen_unread b Hok) as Hlu. unfold available, zlen in Hlu.
  set (k := Z.max 0 (_scanned b - _r b - 3)).
  replace (Z.max (_r b) (_scanned b - 3)) with (_r b + k) by lia.
  unfold bfind. rewrite drop_unread by (done || lia).
  rewrite (find_sub_skip CRLFCRLF (Z.to_nat k) (unread b)).
  - destruct (find_sub CRLFCRLF (drop (Z.to_nat k) (unread b))); simpl; lia.
  - lia.
  - intros j Hj. apply Hcl. lia.
Qed.

Lemma find_head_end_spec limit b :
  ok b ->
  let '(v, b') := find_head_end limit b in
  v = head_end limit (unread b) /\ ok b' /\ unread b' = unread b /\ _eof b' = _eof b
  /\ _examined b' <= _examined b + (_w b - _scanned b) + 3
  /\ (v = -1 -> _w b' - _scanned b' = 0).
Proof.
  intros Hok. pose proof Hok as [Hr Hs Hw Hc Hg Hcl].
  pose proof (zlen_unread b Hok) as Hlu. unfold available in Hlu.
  unfold find_head_end; cbn [_buf _r _w]. rewrite bfind_skip by done. unfold head_end.
  destruct (find_sub CRLFCRLF (unread b)) as [i|] eqn:Hf.
  - rewrite (proj2 (Z.eqb_neq _ _)) by lia.
    pose proof (find_sub_bound _ _ _ Hf) as [Hb|]; [|done]. change (length CRLFCRLF) with 4%nat in Hb.
    apply find_sub_Some in Hf as [_ Hmin]. unfold zlen in Hlu.
    replace (_r b + Z.of_nat i + 4 - _r b) with (Z.of_nat i + 4) by lia.
    set (b' := mk _ _ _ _ _ _ _ _ _).
    assert (ok b' /\ unread b' = unread b /\ _eof b' = _eof b /\
      _examined b' <= _examined b + (_w b - _scanned b) + 3) as (H1 & H2 & H3 & H4).
    { split_and!; [|done|done|unfold b'; cbn [_examined]; lia].
      split; unfold b'; cbn [_r _w _scanned _buf grown]; try done; try lia.
      intros j Hj. cbn [_r _scanned] in Hj. apply Hmin. lia. }
    destruct (_ && _); split_and!; done || lia.
  - rewrite Z.eqb_refl. cbn [_w _r]. rewrite Hlu. set (b' := mk _ _ _ _ _ _ _ _ _).
    assert (ok b' /\ unread b' = unread b /\ _eof b' = _eof b /\
      _examined b' <= _examined b + (_w b - _scanned b) + 3 /\ _w b' - _scanned b' = 0)
      as (H1 & H2 & H3 & H4 & H5).
    { split_and!; [|done|done|unfold b'; cbn [_examined]; lia|unfold b'; cbn; lia].
      split; unfold b'; cbn [_r _w _scanned _buf grown]; try done; try lia.
      intros j _. by apply find_sub_None. }
    destruct (_ && _); split_and!; done.
Qed.

(** ** Consuming *)

Lemma reset_scan_spec b k :
  ok b -> 0 <= k <= available b ->
  let b' := _reset_scan (set_r (_r b + k) b) in
  ok b' /\ unread b' = drop (Z.to_nat k) (unread b) /\ _eof b' = _eof b /\ _examined b' = _examined b
  /\ _scanned b' = _r b'.
Proof.
  intros Hok Hk. pose proof Hok as [Hr Hs Hw Hc Hg Hcl]. unfold available in Hk.
  unfold _reset_scan, set_r; cbn [_buf _r _w _eof _examined grown drained_boundary peak_avail].
  set (b0 := mk _ _ _ _ _ _ _ _ _).
  assert (ok b0) as Hok0.
  { split; unfold b0; cbn [_r _w _scanned _buf grown]; try done; try lia.
    intros j Hj. cbn [_r _scanned] in Hj. lia. }
  assert (unread b0 = drop (Z.to_nat k) (unread b)) as Hu0
    by (unfold b0; unfold unread at 1; cbn [_r _w _buf]; apply drop_unread; lia || done).
  case_match.
  - destruct (compact_spec b0 Hok0) as (H1 & H2 & H3 & H4 & H5 & H6 & H7 & H8).
    split_and!; try done; try congruence. unfold b0 in H3 at 3 4; cbn in H3. lia.
  - by split_and!.
Qed.

Lemma take_spec n b :
  ok b -> 0 <= n <= available b ->
  let '(out, b') := take_ n b in
  out = take (Z.to_nat n) (unread b) /\ ok b' /\ unread b' = drop (Z.to_nat n) (unread b)
  /\ _eof b' = _eof b /\ _examined b' = _examined b.
Proof.
  intros Hok Hn. destruct (reset_scan_spec b n Hok Hn) as (H1 & H2 & H3 & H4 & _).
  unfold take_. split_and!; try done. unfold unread, slice, available in *.
  rewrite take_take. f_equal. lia.
Qed.

Lemma release_spec b :
  ok b -> ok (release_to_floor b).2 /\ unread (release_to_floor b).2 = unread b
  /\ _eof (release_to_floor b).2 = _eof b /\ _examined (release_to_floor b).2 = _examined b
  /\ ((release_to_floor b).1 = true -> capacity (release_to_floor b).2 = FLOOR).
Proof.
  intros Hok. unfold release_to_floor. case_match eqn:Hg; cbn [fst snd]; [by split_and!|].
  apply orb_false_iff in Hg as [_ He%negb_false_iff%Z.eqb_eq].
  assert (unread b = []) as Hu.
  { apply length_zero_iff_nil. pose proof (zlen_unread b Hok) as H. unfold zlen, available in H. lia. }
  rewrite Hu. destruct init_ok as [Hi _].
  split_and!; try done. by eapply ok_ext.
Qed.

(** ** Sequences of operations against a byte queue *)

(** The calls a connection makes on its buffer.  [Arrive] is one delivery: the
    transport asks for a window and fills it with [data]. *)
Inductive op : Type :=
| Arrive (hint want : Z) (data : bytes)
| FeedEof
| FindHeadEnd (limit : Z)
| Find (sep : bytes)
| View (n : Z)
| Take (n : Z)
| Consume (n : Z)
| ConsumeBoundary
| ReleaseToFloor.

(** What the caller sees of a call. *)
Inductive obs : Type :=
| ONum (n : Z)
| OBytes (l : bytes)
| ONone.

Definition exec (o : op) (b : t) : obs * t :=
  match o with
  | Arrive hint want data => let '(n, b) := receive data (get_buffer hint want b) in (ONum n, b)
  | FeedEof => (ONone, feed_eof b)
  | FindHeadEnd limit => let '(n, b) := find_head_end limit b in (ONum n, b)
  | Find sep => (ONum (find sep b), b)
  | View n => (OBytes (view n b), b)
  | Take n => let '(l, b) := take_ n b in (OBytes l, b)
  | Consume n => (ONone, consume n b)
  | ConsumeBoundary => (ONone, consume_boundary b)
  | ReleaseToFloor => (ONone, (release_to_floor b).2)
  end.

(** The same calls on the specification: a queue of bytes and the
    end-of-stream flag. *)
Definition queue : Type := bytes * bool.

Definition qexec (o : op) (q : queue) : obs * queue :=
  let '(u, e) := q in
  match o with
  | Arrive _ _ data => (ONum (zlen (u ++ data)), (u ++ data, e))
  | FeedEof => (ONone, (u, true))
  | FindHeadEnd limit => (ONum (head_end limit u), q)
  | Find sep => (ONum (match find_sub sep u with Some i => Z.of_nat i | None => -1 end), q)
  | View n => (OBytes (take (Z.to_nat n) u), q)
  | Take n => (OBytes (take (Z.to_nat n) u), (drop (Z.to_nat n) u, e))
  | Consume n => (ONone, (drop (Z.to_nat n) u, e))
  | ConsumeBoundary => (ONone, q)
  | ReleaseToFloor => (ONone, q)
  end.

(** The callers' side of the contract: a delivery fits the offered window,
    and no more than what is available is viewed or consumed. *)
Definition allowed (o : op) (b : t) : bool :=
  match o with
  | Arrive hint want data =>
      let b := get_buffer hint want b in zlen data <=? zlen (_buf b) - _w b
  | View n | Take n | Consume n => (0 <=? n) && (n <=? available b)
  | _ => true
  end.

Fixpoint run (os : list op) (b : t) : option (list obs * t) :=
  match os with
  | [] => Some ([], b)
  | o :: os => if allowed o b then
                 let '(x, b) := exec o b in
                 match run os b with Some (xs, b) => Some (x :: xs, b) | None => None end
               else None
  end.

Fixpoint qrun (os : list op) (q : queue) : list obs * queue :=
  match os with
  | [] => ([], q)
  | o :: os => let '(x, q) := qexec o q in let '(xs, q) := qrun os q in (x :: xs, q)
  end.

Definition abs (b : t) : queue := (unread b, _eof b).

Lemma feed_eof_spec b : ok b -> ok (feed_eof b) /\ unread (feed_eof b) = unread b.
Proof. intros. by apply (ok_ext b). Qed.

Lemma find_spec sep b :
  find sep b = match find_sub sep (unread b) with Some i => Z.of_nat i | None => -1 end
  \/ ~ ok b.
Proof.
  destruct (decide (0 <= _r b)) as [Hr|Hr]; [left|right; by intros []].
  unfold find, bfind. fold (unread b). destruct (find_sub sep (unread b)) as [i|].
  - destruct (Z.ltb_spec (_r b + Z.of_nat i) 0); lia.
  - done.
Qed.

Lemma exec_refines o b :
  ok b -> allowed o b = true ->
  let '(x, b') := exec o b in ok b' /\ qexec o (abs b) = (x, abs b').
Proof.
  intros Hok Hal. destruct o as [hint want data| |limit|sep|n|n|n| |]; cbn [exec qexec abs allowed] in *.
  - destruct (get_buffer_spec hint want b Hok) as (G1 & G2 & _ & _ & G5 & G6).
    apply Z.leb_le in Hal. pose proof (receive_spec data _ G1 Hal) as Hrc.
    destruct (receive data _) as [n b']. destruct Hrc as (R1 & R2 & R3 & _ & _ & R6).
    unfold abs. by rewrite R2, R3, R6, G2, G5.
  - by destruct (feed_eof_spec b Hok) as [H1 _].
  - pose proof (find_head_end_spec limit b Hok) as Hf. destruct (find_head_end limit b) as [v b'].
    destruct Hf as (-> & H2 & H3 & H4 & _). unfold abs. by rewrite H3, H4.
  - destruct (find_spec sep b) as [->|]; done.
  - apply andb_true_iff in Hal as [?%Z.leb_le ?%Z.leb_le]. unfold abs, view, unread, slice, available in *.
    rewrite take_take. split; [done|]. repeat f_equal. lia.
  - apply andb_true_iff in Hal as [?%Z.leb_le ?%Z.leb_le].
    pose proof (take_spec n b Hok ltac:(lia)) as Ht. destruct (take_ n b) as [out b'].
    destruct Ht as (-> & H2 & H3 & H4 & _). unfold abs. by rewrite H3, H4.
  - apply andb_true_iff in Hal as [?%Z.leb_le ?%Z.leb_le].
    pose proof (reset_scan_spec b n Hok ltac:(lia)) as (H1 & H2 & H3 & _).
    unfold abs, consume. by rewrite H2, H3.
  - assert (ok (consume_boundary b)) by by apply (ok_ext b). done.
  - destruct (release_spec b Hok) as (H1 & H2 & H3 & _). unfold abs. by rewrite H2, H3.
Qed.

(** C30: the buffer is a byte queue.  Any sequence of calls that keeps the
    callers' contract — whatever the deliveries, the offered windows, the
    compactions, growth and releases it causes — answers what the same calls
    on a plain queue of bytes answer, ends with the queue's contents unread,
    and keeps the cursor invariant. *)
Theorem run_refines_queue os b xs b' :
  ok b -> run os b = Some (xs, b') -> ok b' /\ qrun os (abs b) = (xs, abs b').
Proof.
  revert b xs. induction os as [|o os IH]; intros b xs Hok; cbn [run qrun].
  { by intros [= <- <-]. }
  destruct (allowed o b) eqn:Hal; [|done].
  pose proof (exec_refines o b Hok Hal) as He. destruct (exec o b) as [x b1]. destruct He as [Hok1 ->].
  destruct (run os b1) as [[xs1 b2]|] eqn:Hr; [|done]. intros [= <- <-].
  destruct (IH b1 xs1 Hok1 Hr) as [H1 H2]. by rewrite H2.
Qed.

(** One pipelined exchange: a head split over two deliveries, found, taken,
    and the body byte left behind. *)
Definition sample_ops : list op :=
  [Arrive (-1) 0 (lit "GET / HTTP/1.1" ++ [13; 10; 13]); FindHeadEnd 0; Arrive (-1) 0 ([10] ++ lit "x");
   FindHeadEnd 0; Take 18; View 1; FeedEof].

Lemma run_refines_queue_witness :
  exists xs b', run sample_ops __init__ = Some (xs, b') /\
    xs = [ONum 17; ONum (-1); ONum 19; ONum 18; OBytes (lit "GET / HTTP/1.1" ++ CRLFCRLF);
          OBytes (lit "x"); ONone] /\ ok b' /\ qrun sample_ops ([], false) = (xs, (lit "x", true)).
Proof.
  destruct (run sample_ops __init__) as [[xs b']|] eqn:E; [|vm_compute in E; discriminate E].
  exists xs, b'. destruct (run_refines_queue sample_ops __init__ xs b' (proj1 init_ok) E) as [H1 H2].
  split_and!; [done| |done|].
  - vm_compute in E. injection E as <- _. reflexivity.
  - change (abs __init__) with (([], false) : queue) in H2. rewrite H2. f_equal.
    vm_compute in E. injection E as _ <-. reflexivity.
Defined.

(** ** The scan is linear *)

(** While one head is being assembled the connection only receives bytes and
    looks for the terminator without finding it. *)
Definition assembling (o : op) (x : obs) : bool :=
  match o, x with
  | Arrive _ _ _, _ => true
  | FindHeadEnd _, ONum n => n =? -1
  | _, _ => false
  end.

Definition arrived (os : list op) : Z :=
  foldr (fun o n => match o with Arrive _ _ data => zlen data + n | _ => n end) 0 os.
Definition scans (os : list op) : Z :=
  foldr (fun o n => match o with FindHeadEnd _ => 1 + n | _ => n end) 0 os.

Lemma exec_examined o b :
  ok b -> allowed o b = true ->
  let '(x, b') := exec o b in
  assembling o x = true ->
  _examined b' + (_w b' - _scanned b') <= _examined b + (_w b - _scanned b) + arrived [o] + 3 * scans [o].
Proof.
  intros Hok Hal. destruct o as [hint want data| |limit| | | | | |]; cbn [exec allowed] in *; try done.
  - destruct (get_buffer_spec hint want b Hok) as (G1 & _ & G3 & G4 & _).
    apply Z.leb_le in Hal. pose proof (receive_spec data _ G1 Hal) as Hrc.
    destruct (receive data _) as [n b']. destruct Hrc as (_ & _ & _ & R4 & R5 & _).
    intros _. cbn [arrived scans foldr]. lia.
  - pose proof (find_head_end_spec limit b Hok) as Hf. destruct (find_head_end limit b) as [v b'].
    destruct Hf as (_ & _ & _ & _ & H5 & H6). cbn [assembling arrived scans foldr].
    intros Hv%Z.eqb_eq. specialize (H6 Hv). lia.
Qed.

Lemma run_ok os b xs b' : ok b -> run os b = Some (xs, b') -> ok b'.
Proof.
  revert b xs. induction os as [|o os IH]; intros b xs Hok; cbn [run]; [by intros [= _ <-]|].
  destruct (allowed o b) eqn:Hal; [|done].
  pose proof (exec_refines o b Hok Hal) as He. destruct (exec o b) as [x b1]. destruct He as [Hok1 _].
  destruct (run os b1) as [[xs1 b2]|] eqn:Hr; [|done]. intros [= _ <-]. by eapply IH.
Qed.

Lemma run_examined os b xs b' :
  ok b -> run os b = Some (xs, b') -> Forall2 (fun o x => assembling o x = true) os xs ->
  _examined b' + (_w b' - _scanned b') <= _examined b + (_w b - _scanned b) + arrived os + 3 * scans os.
Proof.
  revert b xs. induction os as [|o os IH]; intros b xs Hok; cbn [run].
  { intros [= <- <-] _. cbn [arrived scans foldr]. lia. }
  destruct (allowed o b) eqn:Hal; [|done].
  pose proof (exec_refines o b Hok Hal) as He. pose proof (exec_examined o b Hok Hal) as Hx.
  destruct (exec o b) as [x b1]. destruct He as [Hok1 _].
  destruct (run os b1) as [[xs1 b2]|] eqn:Hr; [|done]. intros [= <- <-] [H1 H2]%Forall2_cons.
  specialize (IH b1 xs1 Hok1 Hr H2). specialize (Hx H1). unfold arrived, scans in *.
  destruct o; cbn [foldr] in *; lia.
Qed.

(** Assembling a head costs linear work.  However the bytes of one head
    are split over deliveries and however often the terminator is looked for,
    the scan examines at most the bytes that arrived, the bytes that were
    resident and unscanned at the start, and three bytes per attempt. *)
Theorem head_scan_linear os b xs b' :
  ok b -> run os b = Some (xs, b') ->
  Forall2 (fun o x => assembling o x = true) os xs ->
  _examined b' - _examined b <= (_w b - _scanned b) + arrived os + 3 * scans os.
Proof.
  intros Hok Hr Ha. pose proof (run_examined os b xs b' Hok Hr Ha).
  pose proof (ok_scanned _ (run_ok os b xs b' Hok Hr)). lia.
Qed.

Definition dribble : list op :=
  concat (replicate 3 [Arrive (-1) 0 (lit "Host: a"); FindHeadEnd 64]).

Lemma head_scan_linear_witness :
  exists xs b', run dribble __init__ = Some (xs, b') /\ _examined b' <= 21 + 3 * 3.
Proof.
  destruct (run dribble __init__) as [[xs b']|] eqn:E; [|vm_compute in E; discriminate E].
  exists xs, b'. split; [done|].
  pose proof (head_scan_linear dribble __init__ xs b' (proj1 init_ok) E) as H.
  assert (Forall2 (fun o x => assembling o x = true) dribble xs) as Hf
    by (vm_compute in E; injection E as <- _; repeat constructor).
  specialize (H Hf). change (arrived dribble) with 21 in H. change (scans dribble) with 3 in H.
  change (_examined __init__) with 0 in H. change (_w __init__ - _scanned __init__) with 0 in H. lia.
Defined.

End ReadBuffer.
