(* ===== verification/BufferReader.v ===== *)
(** * The connection reader (blackbull/server/connection_protocol.py)

    [ConnectionProtocol] receives the transport's callbacks, [BufferReader]
    serves the reads of the one coroutine that drives the connection.  The
    model is the pair of their states over the buffer of [ReadBuffer.v], with
    the network as the environment: the bytes the peer sends until it closes,
    and a schedule that says how many [recv]s of which sizes land while the
    reader is parked.  A paused transport delivers nothing, so a read that
    parked on a paused connection would never return; that every read returns
    is part of what is proved.

    The [_waiter] future is the hand-over between a callback and the parked
    coroutine and has no state of its own here; the write side, [discard] and
    [linger_close] (clock and socket) are not modelled. *)

From Stdlib Require Import ZArith Lia.
From stdpp Require Import base tactics numbers option strings sets list.
From S2P Require Import Prelude PyLib PyText PyBytes Reader ReadBuffer.

Module BufferReader.

Definition _HIGH_WATER : Z := 128 * 1024.
Definition _LOW_WATER : Z := 32 * 1024.
Definition _RELEASE_HYSTERESIS : Z := 4.

(** The fields of both objects, and the environment. *)
Record conn : Type := mkConn {
  _rb : ReadBuffer.t;
  reading_paused : bool;
  peer_closed : bool;
  _exc : option exn;
  _waiting : bool;
  read_offer : Z;
  _release_count : Z;
  wire : bytes;            (* sent by the peer, not yet received *)
  sched : list (list Z)    (* sizes of the receives of each park *)
}.

Definition set_rb x c := mkConn x (reading_paused c) (peer_closed c) (_exc c) (_waiting c)
  (read_offer c) (_release_count c) (wire c) (sched c).
Definition set_paused x c := mkConn (_rb c) x (peer_closed c) (_exc c) (_waiting c)
  (read_offer c) (_release_count c) (wire c) (sched c).
Definition set_closed x c := mkConn (_rb c) (reading_paused c) x (_exc c) (_waiting c)
  (read_offer c) (_release_count c) (wire c) (sched c).
Definition set_exc x c := mkConn (_rb c) (reading_paused c) (peer_closed c) x (_waiting c)
  (read_offer c) (_release_count c) (wire c) (sched c).
Definition set_waiting x c := mkConn (_rb c) (reading_paused c) (peer_closed c) (_exc c) x
  (read_offer c) (_release_count c) (wire c) (sched c).
Definition set_offer x c := mkConn (_rb c) (reading_paused c) (peer_closed c) (_exc c) (_waiting c)
  x (_release_count c) (wire c) (sched c).
Definition set_release x c := mkConn (_rb c) (reading_paused c) (peer_closed c) (_exc c) (_waiting c)
  (read_offer c) x (wire c) (sched c).
Definition set_wire x c := mkConn (_rb c) (reading_paused c) (peer_closed c) (_exc c) (_waiting c)
  (read_offer c) (_release_count c) x (sched c).
Definition set_sched x c := mkConn (_rb c) (reading_paused c) (peer_closed c) (_exc c) (_waiting c)
  (read_offer c) (_release_count c) (wire c) x.

(** A fresh connection to a peer that sends [w] and closes. *)
Definition __init__ (w : bytes) (s : list (list Z)) : conn :=
  mkConn ReadBuffer.__init__ false false None false 0 0 w s.

(** ** ConnectionProtocol *)

Definition pause_reading (c : conn) : conn :=
  if negb (reading_paused c) then set_paused true c else c.

Definition resume_reading (c : conn) : conn :=
  if reading_paused c then set_paused false c else c.

(** [BufferReader.maybe_pause] *)
Definition maybe_pause (c : conn) : conn :=
  if negb (_waiting c) then pause_reading c else c.

Definition get_buffer (sizehint : Z) (c : conn) : conn :=
  set_rb (ReadBuffer.get_buffer sizehint (read_offer c) (_rb c)) c.

Definition eof_received (c : conn) : conn := set_closed true c.

Definition connection_lost (exc : option exn) (c : conn) : conn := set_exc exc (set_closed true c).

Definition buffer_updated (nbytes : Z) (c : conn) : conn :=
  if nbytes =? 0 then eof_received c
  else
    let '(avail, rb) := ReadBuffer.buffer_updated nbytes (_rb c) in
    let c := set_rb rb c in
    if avail >=? _HIGH_WATER then maybe_pause c else c.

(** One readable event of the socket, for the transport: ask for the window,
    receive at most [size] bytes into it, report them.  Nothing is received
    while the transport is paused or after the end of the stream. *)
Definition recv (size : Z) (c : conn) : conn :=
  if reading_paused c || peer_closed c then c
  else
    let c := get_buffer (-1) c in
    let window := ReadBuffer.capacity (_rb c) - ReadBuffer._w (_rb c) in
    let n := Z.min (Z.min (Z.max 1 size) window) (zlen (wire c)) in
    let data := take (Z.to_nat n) (wire c) in
    let c := set_wire (drop (Z.to_nat n) (wire c)) (set_rb (ReadBuffer.window_write data (_rb c)) c) in
    buffer_updated n c.

(** ** Reads *)

(** The receives that land before the parked coroutine runs again: at least
    one, [_HIGH_WATER] bytes long when the schedule says nothing. *)
Definition next_batch (c : conn) : list Z * conn :=
  match sched c with
  | [] => ([_HIGH_WATER], c)
  | [] :: s => ([_HIGH_WATER], set_sched s c)
  | b :: s => (b, set_sched s c)
  end.

Definition wait_for_arrival (c : conn) : option exn * conn :=
  match _exc c with
  | Some e => (Some e, c)
  | None =>
      if peer_closed c then (None, c)
      else
        let '(batch, c) := next_batch c in
        let c := foldl (fun c size => recv size c) c batch in
        (_exc c, c)
  end.

Definition wait_for_data (c : conn) : option exn * conn :=
  let c := if reading_paused c then resume_reading c else c in
  let c := set_waiting true c in
  let '(e, c) := wait_for_arrival c in
  (e, set_waiting false c).

(** The park of the readers that publish a demand. *)
Definition wait_offering (offer : Z) (c : conn) : option exn * conn :=
  let '(e, c) := wait_for_data (set_offer offer c) in (e, set_offer 0 c).

Definition _at_boundary (c : conn) : conn :=
  let buf := _rb c in
  let c :=
    if ReadBuffer.grown buf then
      if ReadBuffer.peak_avail buf >? ReadBuffer.FLOOR then set_release 0 c
      else
        let c := set_release (_release_count c + 1) c in
        if _release_count c >=? _RELEASE_HYSTERESIS then
          let '(released, rb) := ReadBuffer.release_to_floor (_rb c) in
          let c := set_rb rb c in
          if released then set_release 0 c else c
        else c
    else c in
  set_rb (ReadBuffer.consume_boundary (_rb c)) c.

Definition _consumed (c : conn) : conn :=
  let c := if reading_paused c && (ReadBuffer.available (_rb c) <=? _LOW_WATER)
           then resume_reading c else c in
  if ReadBuffer.drained_boundary (_rb c) then _at_boundary c else c.

(** [out = self._buf.take(n)], without and with [self._consumed()]. *)
Definition take_from (n : Z) (c : conn) : bytes * conn :=
  let '(out, rb) := ReadBuffer.take_ n (_rb c) in (out, set_rb rb c).

Definition take_consumed (n : Z) (c : conn) : bytes * conn :=
  let '(out, c) := take_from n c in (out, _consumed c).

(** A park delivers a byte or the end of the stream, so a loop that parks
    turns at most this often. *)
Definition patience (c : conn) : nat := length (wire c) + (if peer_closed c then 0 else 1).

(** The end of [read], with bytes resident. *)
Definition read_now (n : Z) (c : conn) : outcome bytes * conn :=
  let take := if n <? 0 then ReadBuffer.available (_rb c) else Z.min n (ReadBuffer.available (_rb c)) in
  let '(out, c) := take_consumed take c in (Done out, c).

Definition read (n : Z) (c : conn) : outcome bytes * conn :=
  if ReadBuffer.available (_rb c) =? 0 then
    if peer_closed c then (Done [], c)
    else
      let '(e, c) := wait_offering (if n <? 0 then _HIGH_WATER else Z.min n _HIGH_WATER) c in
      match e with
      | Some e => (Failed e, c)
      | None => if ReadBuffer.available (_rb c) =? 0 then (Done [], c) else read_now n c
      end
  else read_now n c.

Fixpoint readexactly_loop (fuel : nat) (n : Z) (c : conn) : outcome bytes * conn :=
  if ReadBuffer.available (_rb c) <? n then
    if peer_closed c then
      let '(partial, c) := take_from (ReadBuffer.available (_rb c)) c in (Incomplete partial, c)
    else
      match fuel with
      | O => (Stuck, c)
      | S fuel =>
          let '(e, c) := wait_offering (Z.min n _HIGH_WATER) c in
          match e with
          | Some e => (Failed e, c)
          | None => readexactly_loop fuel n c
          end
      end
  else let '(out, c) := take_consumed n c in (Done out, c).

Definition readexactly (n : Z) (c : conn) := readexactly_loop (patience c) n c.

Fixpoint readuntil_loop (fuel : nat) (sep : bytes) (c : conn) : outcome bytes * conn :=
  let idx := ReadBuffer.find sep (_rb c) in
  if idx >=? 0 then let '(out, c) := take_consumed (idx + zlen sep) c in (Done out, c)
  else if peer_closed c then
    let '(partial, c) := take_from (ReadBuffer.available (_rb c)) c in (Incomplete partial, c)
  else
    match fuel with
    | O => (Stuck, c)
    | S fuel =>
        let '(e, c) := wait_for_data c in
        match e with
        | Some e => (Failed e, c)
        | None => readuntil_loop fuel sep c
        end
    end.

Definition readuntil (sep : bytes) (c : conn) := readuntil_loop (patience c) sep c.

Fixpoint fill_loop (fuel : nat) (n : Z) (c : conn) : outcome bool * conn :=
  if ReadBuffer.available (_rb c) <? n then
    if peer_closed c then (Done false, c)
    else
      match fuel with
      | O => (Stuck, c)
      | S fuel =>
          let '(e, c) := wait_for_data c in
          match e with
          | Some e => (Failed e, c)
          | None => fill_loop fuel n c
          end
      end
  else (Done true, c).

Definition fill (n : Z) (c : conn) := fill_loop (patience c) n c.

(** One turn of the loop of [read_head]; [park] waits and starts over. *)
Definition read_head_turn (park : conn -> outcome bytes * conn) (limit : Z) (c : conn)
  : outcome bytes * conn :=
  if ReadBuffer.available (_rb c) =? 0 then
    if peer_closed c then (Done [], c) else park c
  else
    let '(end_, rb) := ReadBuffer.find_head_end limit (_rb c) in
    let c := set_rb rb c in
    if end_ =? ReadBuffer.LIMIT_EXCEEDED then
      (LimitHit (ReadBuffer.view (Z.min (ReadBuffer.available (_rb c)) (limit + 2)) (_rb c)), c)
    else if end_ >=? 0 then let '(out, c) := take_consumed end_ c in (Done out, c)
    else if peer_closed c then
      let '(partial, c) := take_from (ReadBuffer.available (_rb c)) c in
      if bool_decide (partial = []) then (Done [], c) else (Incomplete partial, c)
    else park c.

Fixpoint read_head_loop (fuel : nat) (limit : Z) (c : conn) : outcome bytes * conn :=
  read_head_turn
    (fun c =>
       match fuel with
       | O => (Stuck, c)
       | S fuel =>
           let '(e, c) := wait_for_data c in
           match e with
           | Some e => (Failed e, c)
           | None => read_head_loop fuel limit c
           end
       end) limit c.

Definition read_head (limit : Z) (c : conn) := read_head_loop (patience c) limit c.

Definition has_buffered (c : conn) : bool := ReadBuffer.available (_rb c) >? 0.
Definition buffered_len (c : conn) : Z := ReadBuffer.available (_rb c).
Definition peek (n : option Z) (c : conn) : bytes :=
  let avail := ReadBuffer.available (_rb c) in
  let want := match n with None => avail | Some n => Z.min n avail end in
  ReadBuffer.view want (_rb c).
Definition at_eof (c : conn) : bool := peer_closed c && (ReadBuffer.available (_rb c) =? 0).

(** ** Invariant *)

Abbreviation resident c := (ReadBuffer.unread (_rb c)).

(** Everything the peer sent that no read has returned yet. *)
Definition contents (c : conn) : bytes := resident c ++ wire c.

(** Good at every moment, also while parked. *)
Record core_ok (c : conn) : Prop := mk_core {
  core_rb : ReadBuffer.ok (_rb c);
  core_exc : _exc c = None;
  core_closed : peer_closed c = true -> wire c = []
}.

(** Good between reads: nobody is parked and no demand is published. *)
Record conn_ok (c : conn) : Prop := mk_conn_ok {
  conn_core : core_ok c;
  conn_waiting : _waiting c = false;
  conn_offer : read_offer c = 0
}.

Lemma init_conn_ok w s : conn_ok (__init__ w s).
Proof. repeat split; try done. apply ReadBuffer.init_ok. Qed.

Lemma available_resident c : core_ok c -> ReadBuffer.available (_rb c) = zlen (resident c).
Proof. intros []. by rewrite ReadBuffer.zlen_unread. Qed.

Lemma contents_closed c : core_ok c -> peer_closed c = true -> contents c = resident c.
Proof. intros Hc H. unfold contents. by rewrite (core_closed c Hc H), app_nil_r. Qed.

(** What a step does to the environment's side: nothing is lost, reordered or
    duplicated, resident bytes stay resident, and patience does not grow. *)
Record carries (c c' : conn) : Prop := mk_carries {
  car_core : core_ok c';
  car_contents : contents c' = contents c;
  car_resident : resident c `prefix_of` resident c';
  car_patience : (patience c' <= patience c)%nat;
  car_closed : peer_closed c = true -> peer_closed c' = true;
  car_waiting : _waiting c' = _waiting c;
  car_offer : read_offer c' = read_offer c
}.

Lemma carries_refl c : core_ok c -> carries c c.
Proof. by split. Qed.

Lemma carries_trans c1 c2 c3 : carries c1 c2 -> carries c2 c3 -> carries c1 c3.
Proof.
  intros [A1 A2 A3 A4 A5 A6 A7] [B1 B2 B3 B4 B5 B6 B7]. split; try done; try congruence; [|lia|auto].
  by etrans.
Qed.

(** Flow control, the published demand and the release counter are invisible
    to it. *)
Lemma carries_paused x c c' : carries c c' -> carries c (set_paused x c').
Proof. intros [A1 A2 A3 A4 A5 A6 A7]. split; try done. by destruct A1. Qed.

Lemma maybe_pause_carries c c' : carries c c' -> carries c (maybe_pause c').
Proof.
  intros. unfold maybe_pause, pause_reading. repeat case_match; try done. by apply carries_paused.
Qed.

Lemma maybe_pause_waiting c : _waiting c = true -> maybe_pause c = c.
Proof. intros H. unfold maybe_pause. by rewrite H. Qed.

(** A receive on an open, unpaused connection carries and makes progress. *)
Lemma recv_open size c :
  core_ok c -> reading_paused c = false -> peer_closed c = false ->
  carries c (recv size c) /\ (patience (recv size c) < patience c)%nat
  /\ (resident (recv size c) = [] -> peer_closed (recv size c) = true)
  /\ (_waiting c = true -> reading_paused (recv size c) = false).
Proof.
  intros [Hrb He Hcl] Hp Hc. unfold recv. rewrite Hp, Hc. cbn [orb].
  destruct (ReadBuffer.get_buffer_spec (-1) (read_offer c) _ Hrb) as (G1 & G2 & _ & _ & _ & G6).
  set (rb := ReadBuffer.get_buffer (-1) (read_offer c) (_rb c)) in *.
  unfold get_buffer. fold rb. unfold ReadBuffer.capacity; cbn [set_rb _rb wire set_wire].
  unfold ReadBuffer._MIN_READ in G6. set (win := zlen (ReadBuffer._buf rb) - ReadBuffer._w rb) in *.
  set (n := Z.min (Z.min (Z.max 1 size) win) (zlen (wire c))).
  pose proof (zlen_nonneg (wire c)) as Hw0. set (data := take (Z.to_nat n) (wire c)).
  assert (zlen data = n) as Hn by (unfold data, zlen in *; rewrite length_take; lia).
  pose proof (ReadBuffer.receive_spec data rb G1 ltac:(lia)) as Hr.
  unfold ReadBuffer.receive in Hr. rewrite Hn in Hr. unfold buffer_updated.
  change (_rb (set_wire _ (set_rb ?x _))) with x.
  destruct (Z.eqb_spec n 0) as [H0|H0].
  - assert (wire c = []) as Hw by (apply length_zero_iff_nil; unfold zlen in *; lia).
    assert (data = []) as -> by (unfold data; by rewrite Hw, take_nil).
    rewrite ReadBuffer.window_write_nil. unfold eof_received, patience. rewrite Hc, Hw.
    cbn [set_closed set_wire set_rb wire peer_closed reading_paused _waiting]. rewrite drop_nil.
    split_and!; [|simpl; lia|done|done].
    split; unfold contents, patience; cbn [set_closed set_wire set_rb wire peer_closed _waiting read_offer _rb];
      rewrite ?G2, ?Hw, ?Hc; try done; simpl; lia.
  - destruct (ReadBuffer.buffer_updated n (ReadBuffer.window_write data rb)) as [avail rb'] eqn:E.
    destruct Hr as (R1 & R2 & R3 & _). rewrite G2 in R2.
    lazymatch goal with |- context [maybe_pause ?x] => set (c1 := x) end.
    assert (carries c c1) as H1.
    { split; unfold contents, patience, c1;
        cbn [set_wire set_rb wire peer_closed _waiting read_offer _rb]; rewrite ?Hc; try done.
      - split; try done. cbn. by rewrite Hc.
      - rewrite R2, <- app_assoc. unfold data. by rewrite take_drop.
      - rewrite R2. by apply prefix_app_r.
      - rewrite length_drop. lia. }
    assert (patience c1 < patience c)%nat as H2.
    { unfold patience, c1. cbn [set_wire set_rb wire peer_closed]. rewrite Hc, length_drop.
      unfold zlen in *. lia. }
    assert (resident c1 <> []) as H5.
    { unfold c1. cbn [_rb set_rb]. rewrite R2. intros [_ Hd]%app_eq_nil. rewrite Hd in Hn. done. }
    assert (_waiting c1 = _waiting c /\ reading_paused c1 = false) as [H3 H4] by done.
    destruct (avail >=? _HIGH_WATER); [|by rewrite H4].
    split_and!; [by apply maybe_pause_carries| | |].
    + unfold maybe_pause, pause_reading. repeat case_match; done.
    + unfold maybe_pause, pause_reading. repeat case_match; done.
    + intros Hwt. rewrite maybe_pause_waiting; congruence.
Qed.

Lemma recv_carries size c :
  core_ok c -> carries c (recv size c)
  /\ (_waiting c = true -> reading_paused c = false -> reading_paused (recv size c) = false).
Proof.
  intros Hc. destruct (reading_paused c) eqn:Hp; [|destruct (peer_closed c) eqn:He].
  - unfold recv. rewrite Hp. split; [by apply carries_refl|done].
  - unfold recv. rewrite Hp, He. split; [by apply carries_refl|done].
  - destruct (recv_open size c) as (H1 & _ & _ & H3); auto.
Qed.

Lemma recvs_carry sizes c :
  core_ok c -> carries c (foldl (fun c size => recv size c) c sizes).
Proof.
  revert c. induction sizes as [|x sizes IH]; intros c Hc; simpl; [by apply carries_refl|].
  destruct (recv_carries x c Hc) as [H1 _].
  eapply carries_trans; [done|]. apply IH, H1.
Qed.

(** ** Parking *)

Lemma next_batch_spec c :
  exists size sizes s, next_batch c = (size :: sizes, set_sched s c).
Proof.
  unfold next_batch. destruct (sched c) as [|[|x xs] s] eqn:E; eauto.
  exists _HIGH_WATER, [], []. by destruct c; simpl in *; subst.
Qed.

(** The reader parks on an open connection only after releasing the pause, so
    it always gets a byte or the end of the stream. *)
Lemma wait_for_data_spec c :
  core_ok c -> peer_closed c = false -> _waiting c = false ->
  exists c', wait_for_data c = (None, c') /\ carries c c' /\ (patience c' < patience c)%nat
    /\ (resident c' = [] -> peer_closed c' = true).
Proof.
  intros Hc Hcl Hw. unfold wait_for_data.
  set (c0 := set_waiting true (if reading_paused c then resume_reading c else c)).
  assert (core_ok c0 /\ contents c0 = contents c /\ resident c0 = resident c /\
    patience c0 = patience c /\ read_offer c0 = read_offer c /\ _waiting c0 = true /\
    reading_paused c0 = false /\ peer_closed c0 = false) as (K1 & K2 & K3 & K4 & K5 & K6 & K7 & K8).
  { unfold c0, resume_reading. destruct Hc. destruct (reading_paused c) eqn:E; split_and!; done. }
  unfold wait_for_arrival. rewrite (core_exc _ K1), K8.
  destruct (next_batch_spec c0) as (x & xs & s & ->). cbn [foldl].
  set (c1 := set_sched s c0).
  assert (core_ok c1) as L1 by by destruct K1.
  destruct (recv_open x c1) as (M1 & M2 & M3 & _); [done..|].
  pose proof (recvs_carry xs _ (car_core _ _ M1)) as N. set (c2 := foldl _ _ _) in *.
  pose proof (carries_trans _ _ _ M1 N) as [O1 O2 O3 O4 O5 O6 O7].
  exists (set_waiting false c2). rewrite (core_exc _ O1). split; [done|].
  assert (patience c1 = patience c0) as P1 by done.
  pose proof (car_patience _ _ N) as P2.
  assert (patience (set_waiting false c2) = patience c2) as P3 by done.
  split; [|split; [lia|]].
  2: { change (resident c2 = [] -> peer_closed c2 = true). intros E. apply (car_closed _ _ N), M3.
       apply prefix_nil_inv. rewrite <- E. apply (car_resident _ _ N). }
  split; try done; try congruence.
  - by destruct O1.
  - change (contents c2 = contents c). rewrite O2. done.
  - change (resident c `prefix_of` resident c2). rewrite <- K3. done.
  - change (read_offer c2 = read_offer c). rewrite O7. done.
Qed.

Lemma wait_offering_spec offer c :
  conn_ok c -> peer_closed c = false ->
  exists c', wait_offering offer c = (None, c') /\ carries c c' /\ (patience c' < patience c)%nat
    /\ (resident c' = [] -> peer_closed c' = true).
Proof.
  intros [Hc Hw Ho] Hcl. unfold wait_offering.
  destruct (wait_for_data_spec (set_offer offer c)) as (c' & -> & [C1 C2 C3 C4 C5 C6 C7] & Hp); [|done..|].
  { by destruct Hc. }
  exists (set_offer 0 c'). split; [done|]. split; [|done]. split; try done. by destruct C1.
Qed.

(** ** Consuming *)

(** A step that moves only bookkeeping. *)
Record same_bytes (c c' : conn) : Prop := mk_same {
  same_ok : conn_ok c';
  same_resident : resident c' = resident c;
  same_wire : wire c' = wire c
}.

Lemma at_boundary_spec c : conn_ok c -> same_bytes c (_at_boundary c).
Proof.
  intros [[Hrb He Hcl] Hw Ho]. unfold _at_boundary.
  assert (forall c', ReadBuffer.ok (_rb c') -> resident c' = resident c -> wire c' = wire c ->
    _exc c' = None -> peer_closed c' = peer_closed c -> _waiting c' = false -> read_offer c' = 0 ->
    same_bytes c (set_rb (ReadBuffer.consume_boundary (_rb c')) c')) as Hend.
  { intros c' H1 H2 H3 H4 H5 H6 H7.
    destruct (ReadBuffer.ok_ext _ (ReadBuffer.consume_boundary (_rb c')) H1) as [H8 H9]; [done..|].
    split; [|cbn [_rb set_rb]; congruence|done].
    split; [|done..]. split; try done. cbn [peer_closed set_rb wire]. by rewrite H5, H3. }
  destruct (ReadBuffer.release_spec _ Hrb) as (R1 & R2 & _).
  destruct (ReadBuffer.grown (_rb c)); [|by apply Hend].
  destruct (_ >? _); [by apply Hend|].
  destruct (_ >=? _); [|by apply Hend]. cbn [_rb set_release].
  destruct (ReadBuffer.release_to_floor (_rb c)) as [released rb]. cbn [fst snd] in *.
  destruct released; by apply Hend.
Qed.

Lemma consumed_spec c : conn_ok c -> same_bytes c (_consumed c).
Proof.
  intros Hc. unfold _consumed. set (c0 := if _ && _ then _ else c).
  assert (conn_ok c0 /\ resident c0 = resident c /\ wire c0 = wire c) as (H0 & H1 & H2).
  { unfold c0, resume_reading. destruct Hc as [[] ? ?].
    repeat case_match; (split; [split; [by split|done..]|done]). }
  case_match; [|by split]. destruct (at_boundary_spec c0 H0) as [A1 A2 A3]. split; congruence.
Qed.

Lemma take_from_spec n c :
  conn_ok c -> 0 <= n <= zlen (resident c) ->
  let '(out, c') := take_from n c in
  out = take (Z.to_nat n) (resident c) /\ conn_ok c' /\ contents c' = drop (Z.to_nat n) (contents c).
Proof.
  intros [[Hrb He Hcl] Hw Ho] Hn. unfold take_from.
  pose proof (ReadBuffer.take_spec n _ Hrb) as Ht. rewrite <- ReadBuffer.zlen_unread in Ht by done.
  specialize (Ht Hn). destruct (ReadBuffer.take_ n (_rb c)) as [out rb].
  destruct Ht as (-> & H2 & H3 & _). split_and!; [done|by split|].
  unfold contents; cbn [_rb set_rb wire]. rewrite H3, drop_app_le; [done|]. unfold zlen in Hn. lia.
Qed.

Lemma take_consumed_spec n c :
  conn_ok c -> 0 <= n <= zlen (resident c) ->
  let '(out, c') := take_consumed n c in
  out = take (Z.to_nat n) (contents c) /\ conn_ok c' /\ contents c' = drop (Z.to_nat n) (contents c).
Proof.
  intros Hc Hn. unfold take_consumed. pose proof (take_from_spec n c Hc Hn) as Ht.
  destruct (take_from n c) as [out c']. destruct Ht as (-> & H2 & H3).
  destruct (consumed_spec c' H2) as [S1 S2 S3]. split_and!; [|done|].
  - unfold contents. rewrite take_app_le; [done|]. unfold zlen in Hn. lia.
  - rewrite <- H3. unfold contents. congruence.
Qed.

(** At the end of the stream the resident bytes are all that is left. *)
Lemma take_all_closed c :
  conn_ok c -> peer_closed c = true ->
  let '(out, c') := take_from (ReadBuffer.available (_rb c)) c in
  out = contents c /\ conn_ok c' /\ contents c' = [].
Proof.
  intros Hc Hcl. pose proof (available_resident c (conn_core c Hc)) as Ha.
  pose proof (take_from_spec (ReadBuffer.available (_rb c)) c Hc) as Ht.
  rewrite Ha in *. pose proof (zlen_nonneg (resident c)). specialize (Ht ltac:(lia)).
  destruct (take_from _ c) as [out c']. destruct Ht as (-> & H2 & ->).
  rewrite (contents_closed c (conn_core c Hc) Hcl). unfold zlen. rewrite Nat2Z.id.
  split_and!; [by apply take_ge|done|by apply drop_ge].
Qed.

(** After a park the loop starts again from a good connection with the same
    bytes to come and more of them resident. *)
Lemma carries_ok c c' : conn_ok c -> carries c c' -> conn_ok c'.
Proof. intros [? ? ?] []. split; congruence. Qed.

Lemma resident_le c : zlen (resident c) <= zlen (contents c).
Proof. unfold contents. rewrite zlen_app. pose proof (zlen_nonneg (wire c)). lia. Qed.

(** ** The reads, as functions of what the peer sends *)

Lemma readexactly_loop_spec fuel n c :
  conn_ok c -> 0 <= n -> (patience c <= fuel)%nat ->
  let '(o, c') := readexactly_loop fuel n c in
  conn_ok c' /\
  (if n <=? zlen (contents c)
   then o = Done (take (Z.to_nat n) (contents c)) /\ contents c' = drop (Z.to_nat n) (contents c)
   else o = Incomplete (contents c) /\ contents c' = []).
Proof.
  revert c. induction fuel as [|fuel IH]; intros c Hc Hn Hf; cbn [readexactly_loop];
    rewrite available_resident by apply Hc; pose proof (resident_le c) as Hle;
    destruct (Z.ltb_spec (zlen (resident c)) n) as [Hlt|Hge].
  2,4: rewrite (proj2 (Z.leb_le n (zlen (contents c)))) by lia;
       pose proof (take_consumed_spec n c Hc ltac:(lia)) as Ht;
       destruct (take_consumed n c) as [out c']; destruct Ht as (-> & H2 & H3); done.
  all: destruct (peer_closed c) eqn:Hcl.
  1,3: pose proof (take_all_closed c Hc Hcl) as Ht; rewrite available_resident in Ht by apply Hc;
       destruct (take_from _ c) as [out c']; destruct Ht as (-> & H2 & H3);
       rewrite (contents_closed c (conn_core c Hc) Hcl);
       rewrite (proj2 (Z.leb_gt n _)) by lia; done.
  - unfold patience in Hf. rewrite Hcl in Hf. lia.
  - destruct (wait_offering_spec (Z.min n _HIGH_WATER) c Hc Hcl) as (c' & -> & Hcar & Hp & _).
    specialize (IH c' (carries_ok _ _ Hc Hcar) Hn ltac:(lia)).
    by rewrite (car_contents _ _ Hcar) in IH.
Qed.

Lemma readuntil_loop_spec fuel sep c :
  conn_ok c -> sep <> [] -> (patience c <= fuel)%nat ->
  let '(o, c') := readuntil_loop fuel sep c in
  conn_ok c' /\
  match find_sub sep (contents c) with
  | Some i => o = Done (take (i + length sep) (contents c)) /\
              contents c' = drop (i + length sep) (contents c)
  | None => o = Incomplete (contents c) /\ contents c' = []
  end.
Proof.
  revert c. induction fuel as [|fuel IH]; intros c Hc Hne Hf; cbn [readuntil_loop];
    (destruct (ReadBuffer.find_spec sep (_rb c)) as [->|Hbad]; [|by destruct Hbad, Hc as [[]]]);
    destruct (find_sub sep (resident c)) as [i|] eqn:Hi.
  1,3: rewrite Z.geb_leb, (proj2 (Z.leb_le _ _)) by lia;
       pose proof (find_sub_bound _ _ _ Hi) as [Hb|]; [|done];
       pose proof (take_consumed_spec (Z.of_nat i + zlen sep) c Hc ltac:(unfold zlen; lia)) as Ht;
       destruct (take_consumed _ c) as [out c']; destruct Ht as (-> & H2 & H3);
       unfold contents in *; rewrite (find_sub_app_Some _ _ (wire c) _ Hne Hi);
       replace (Z.to_nat (Z.of_nat i + zlen sep)) with (i + length sep)%nat in * by (unfold zlen; lia); done.
  all: rewrite Z.geb_leb; cbn [Z.leb]; destruct (peer_closed c) eqn:Hcl.
  1,3: rewrite (proj2 (Z.leb_gt _ _)) by lia;
       pose proof (take_all_closed c Hc Hcl) as Ht;
       destruct (take_from _ c) as [out c']; destruct Ht as (-> & H2 & H3);
       by rewrite (contents_closed c (conn_core c Hc) Hcl), Hi.
  - unfold patience in Hf. rewrite Hcl in Hf. lia.
  - destruct (wait_for_data_spec c (conn_core c Hc) Hcl (conn_waiting c Hc)) as (c' & -> & Hcar & Hp & _).
    specialize (IH c' (carries_ok _ _ Hc Hcar) Hne ltac:(lia)).
    by rewrite (car_contents _ _ Hcar) in IH.
Qed.

(** What [read_head] gives for a peer that sends [l] and closes. *)
Definition head_outcome (limit : Z) (l : bytes) (o : outcome bytes) (rest : bytes) : Prop :=
  let e := ReadBuffer.head_end limit l in
  if e =? ReadBuffer.LIMIT_EXCEEDED then exists p, o = LimitHit p /\ p `prefix_of` l /\ rest = l
  else if e =? -1 then o = (if bool_decide (l = []) then Done [] else Incomplete l) /\ rest = []
  else o = Done (take (Z.to_nat e) l) /\ rest = drop (Z.to_nat e) l.

(** One look at the resident bytes. *)
Lemma find_head_end_conn limit c :
  conn_ok c ->
  exists rb, ReadBuffer.find_head_end limit (_rb c) = (ReadBuffer.head_end limit (resident c), rb)
    /\ conn_ok (set_rb rb c) /\ resident (set_rb rb c) = resident c.
Proof.
  intros [[Hrb He Hcl] Hw Ho]. pose proof (ReadBuffer.find_head_end_spec limit _ Hrb) as Hf.
  destruct (ReadBuffer.find_head_end limit (_rb c)) as [v rb]. destruct Hf as (-> & H2 & H3 & _).
  exists rb. split_and!; [done| |done]. split; [by split|done..].
Qed.

Lemma view_prefix n c :
  core_ok c -> n <= ReadBuffer.available (_rb c) -> ReadBuffer.view n (_rb c) `prefix_of` contents c.
Proof.
  intros Hc Hn. unfold ReadBuffer.view, contents. etrans; [|by apply prefix_app_r].
  unfold ReadBuffer.unread, slice, ReadBuffer.available in *.
  set (l := drop _ _). exists (drop (Z.to_nat n) (take (Z.to_nat (ReadBuffer._w (_rb c) - ReadBuffer._r (_rb c))) l)).
  rewrite <- (take_drop (Z.to_nat n) (take _ l)) at 1. f_equal. rewrite take_take. f_equal. lia.
Qed.

Lemma read_head_turn_spec park limit c :
  conn_ok c ->
  (forall c1, conn_ok c1 -> peer_closed c1 = false -> contents c1 = contents c -> patience c1 = patience c ->
     let '(o, c') := park c1 in conn_ok c' /\ head_outcome limit (contents c) o (contents c')) ->
  let '(o, c') := read_head_turn park limit c in
  conn_ok c' /\ head_outcome limit (contents c) o (contents c').
Proof.
  intros Hc Hpark. unfold read_head_turn. pose proof (conn_core c Hc) as Hco.
  destruct (Z.eqb_spec (ReadBuffer.available (_rb c)) 0) as [Ha|Ha]; rewrite available_resident in Ha by done.
  { assert (resident c = []) as Hr by (apply length_zero_iff_nil; unfold zlen in Ha; lia).
    destruct (peer_closed c) eqn:Hcl; [|by apply Hpark].
    rewrite (contents_closed c Hco Hcl), Hr. split; [done|].
    unfold head_outcome, ReadBuffer.head_end. cbn [find_sub].
    rewrite bool_decide_false by (by intros ?%prefix_nil_inv). change (zlen (@nil Z)) with 0.
    destruct (Z.ltb_spec 0 limit) as [Hl|Hl]; rewrite (Z.gtb_ltb limit).
    - by rewrite (proj2 (Z.ltb_lt _ _) Hl), Z.gtb_ltb, (proj2 (Z.ltb_ge limit 0)) by lia.
    - by rewrite (proj2 (Z.ltb_ge _ _) Hl). }
  destruct (find_head_end_conn limit c Hc) as (rb & -> & Hc1 & Hr1).
  set (c1 := set_rb rb c) in *. assert (contents c1 = contents c) as Hcc by (unfold contents; by rewrite Hr1).
  pose proof (ReadBuffer.head_end_final limit (resident c) (wire c)) as Hfin. fold (contents c) in Hfin.
  unfold head_outcome.
  destruct (ReadBuffer.head_end_range limit (resident c)) as [He|[He|He]].
  - rewrite Hfin, He by (rewrite He; done). cbn [Z.eqb ReadBuffer.LIMIT_EXCEEDED Pos.eqb].
    split; [done|]. eexists; split_and!; [done| |done]. rewrite <- Hcc. apply view_prefix; [apply Hc1|lia].
  - rewrite He. cbn [Z.eqb ReadBuffer.LIMIT_EXCEEDED Pos.eqb Z.geb Z.compare].
    destruct (peer_closed c1) eqn:Hcl; [|apply Hpark; done].
    pose proof (take_all_closed c1 Hc1 Hcl) as Ht. rewrite Hcc in Ht.
    destruct (take_from _ c1) as [out c']. destruct Ht as (-> & H2 & H3).
    rewrite (contents_closed c Hco Hcl), He, <- (contents_closed c Hco Hcl).
    cbn [Z.eqb ReadBuffer.LIMIT_EXCEEDED Pos.eqb]. case_bool_decide; done.
  - rewrite Hfin by lia. unfold ReadBuffer.LIMIT_EXCEEDED.
    rewrite (proj2 (Z.eqb_neq _ (-2))), (proj2 (Z.eqb_neq _ (-1))), Z.geb_leb, (proj2 (Z.leb_le 0 _)) by lia.
    pose proof (take_consumed_spec (ReadBuffer.head_end limit (resident c)) c1 Hc1) as Ht.
    rewrite Hr1, Hcc in Ht. specialize (Ht ltac:(lia)).
    destruct (take_consumed _ c1) as [out c']. destruct Ht as (-> & H2 & H3). done.
Qed.

Lemma read_head_loop_spec fuel limit c :
  conn_ok c -> (patience c <= fuel)%nat ->
  let '(o, c') := read_head_loop fuel limit c in
  conn_ok c' /\ head_outcome limit (contents c) o (contents c').
Proof.
  revert c. induction fuel as [|fuel IH]; intros c Hc Hf; cbn [read_head_loop];
    apply read_head_turn_spec; [done| |done|]; intros c1 Hc1 Hcl Hcc Hp.
  - unfold patience in *. rewrite Hcl in Hp. lia.
  - destruct (wait_for_data_spec c1 (conn_core _ Hc1) Hcl (conn_waiting _ Hc1)) as (c' & -> & Hcar & Hpp & _).
    specialize (IH c' (carries_ok _ _ Hc1 Hcar) ltac:(lia)).
    by rewrite (car_contents _ _ Hcar), Hcc in IH.
Qed.

(** ** Properties *)

(** An exact read is a function of what the peer sends.  Whatever the
    segmentation, the receive schedule, the backpressure state and the buffer
    history, [readexactly n] returns (it never parks for good) the next [n]
    bytes and leaves the rest, or raises with all the remaining bytes when the
    peer closes before [n]. *)
Theorem readexactly_total n c :
  conn_ok c -> 0 <= n ->
  let '(o, c') := readexactly n c in
  conn_ok c' /\
  (if n <=? zlen (contents c)
   then o = Done (take (Z.to_nat n) (contents c)) /\ contents c' = drop (Z.to_nat n) (contents c)
   else o = Incomplete (contents c) /\ contents c' = []).
Proof. intros. by apply readexactly_loop_spec. Qed.

Definition sample_conn : conn := __init__ (lit "0123456789") [[3; 4]; [1]].

Lemma readexactly_total_witness :
  conn_ok sample_conn /\
  (let '(o, c') := readexactly 8 sample_conn in
   conn_ok c' /\ o = Done (lit "01234567") /\ contents c' = lit "89").
Proof. split; [apply init_conn_ok|]. apply (readexactly_total 8 sample_conn (init_conn_ok _ _)). lia. Defined.

(** C39: the one-scan head read is a function of what the peer sends and of
    the budget.  [read_head] returns on every schedule; the head comes out up
    to and including the first blank line iff that fits the budget, the budget
    is reported iff the first blank line (or, without one, the stream) passes
    it, an idle close gives [b''], and a truncated head raises with the
    partial bytes. *)
Theorem read_head_total limit c :
  conn_ok c ->
  let '(o, c') := read_head limit c in
  conn_ok c' /\ head_outcome limit (contents c) o (contents c').
Proof. intros. by apply read_head_loop_spec. Qed.

Definition split_head : conn := __init__ (lit "GET /" ++ ReadBuffer.CRLFCRLF ++ lit "body") [[7]; [1; 1]].

Lemma read_head_total_witness :
  let '(o, c') := read_head 64 split_head in
  conn_ok c' /\ o = Done (lit "GET /" ++ ReadBuffer.CRLFCRLF) /\ contents c' = lit "body".
Proof. apply (read_head_total 64 split_head (init_conn_ok _ _)). Defined.

(** What [read n] promises of a stream [l]. *)
Definition read_outcome (n : Z) (l : bytes) (o : outcome bytes) (rest : bytes) : Prop :=
  exists out, o = Done out /\ l = out ++ rest /\ (0 < n -> zlen out <= n) /\ (out = [] <-> l = []).

Lemma read_now_spec n c :
  conn_ok c -> n <> 0 -> resident c <> [] ->
  let '(o, c') := read_now n c in conn_ok c' /\ read_outcome n (contents c) o (contents c').
Proof.
  intros Hc Hn Hr. unfold read_now. rewrite available_resident by apply Hc.
  set (k := if n <? 0 then _ else _).
  assert (0 < zlen (resident c)) by (destruct (resident c); [done|]; rewrite zlen_cons;
    pose proof (zlen_nonneg l); lia).
  assert (0 < k <= zlen (resident c) /\ (0 < n -> k <= n)) as [Hk Hkn]
    by (unfold k; destruct (Z.ltb_spec n 0); lia).
  pose proof (take_consumed_spec k c Hc ltac:(lia)) as Ht.
  destruct (take_consumed k c) as [out c']. destruct Ht as (-> & H2 & ->).
  pose proof (resident_le c). assert (zlen (take (Z.to_nat k) (contents c)) = k) as Hl by lens.
  split; [done|]. eexists; split_and!; [done|by rewrite take_drop|lia|].
  split; intros E; rewrite E in *; unfold zlen in *; rewrite ?take_nil in Hl; simpl in *; lia.
Qed.

Lemma nothing_resident c : conn_ok c -> ReadBuffer.available (_rb c) = 0 <-> resident c = [].
Proof.
  intros Hc. rewrite available_resident by apply Hc. unfold zlen. split.
  - intros. apply length_zero_iff_nil. lia.
  - by intros ->.
Qed.

Lemma read_outcome_nil n : read_outcome n [] (Done []) [].
Proof. exists []. split_and!; try done. change (zlen (@nil Z)) with 0. lia. Qed.

(** [read] hands over a prefix of the stream: at most [n] bytes of it
    when [n] is positive, everything resident when [n] is negative, and the
    empty string only at the end of the stream. *)
Lemma read_prefix n c :
  conn_ok c -> n <> 0 ->
  let '(o, c') := read n c in conn_ok c' /\ read_outcome n (contents c) o (contents c').
Proof.
  intros Hc Hn. unfold read.
  destruct (Z.eqb_spec (ReadBuffer.available (_rb c)) 0) as [Ha|Ha].
  2: { apply read_now_spec; [done..|]. by rewrite <- nothing_resident. }
  rewrite nothing_resident in Ha by done.
  destruct (peer_closed c) eqn:Hcl.
  { rewrite (contents_closed c (conn_core c Hc) Hcl), Ha. split; [done|apply read_outcome_nil]. }
  destruct (wait_offering_spec (if n <? 0 then _HIGH_WATER else Z.min n _HIGH_WATER) c Hc Hcl)
    as (c1 & -> & Hcar & _ & Hend).
  pose proof (carries_ok _ _ Hc Hcar) as Hc1. rewrite <- (car_contents _ _ Hcar).
  destruct (Z.eqb_spec (ReadBuffer.available (_rb c1)) 0) as [Ha1|Ha1].
  - rewrite nothing_resident in Ha1 by done.
    rewrite (contents_closed c1 (conn_core c1 Hc1) (Hend Ha1)), Ha1. split; [done|apply read_outcome_nil].
  - apply read_now_spec; [done..|]. by rewrite <- nothing_resident.
Qed.

(** The reader is a [ByteReader]: the protocol codecs run on it unchanged. *)
Definition readexactly_result (n : Z) (c : conn) : result (bytes * conn) :=
  match readexactly n c with
  | (Done l, c) => Ok (l, c)
  | (Incomplete _, _) => Raise IncompleteReadError
  | (LimitHit _, _) => Raise ReadLimitExceeded
  | (Failed e, _) => Raise e
  | (Stuck, _) => Raise OutOfFuel
  end.

#[export] Instance buffer_reader : ByteReader conn.
Proof.
  refine {| delivers c l := conn_ok c /\ contents c = l; Reader.readexactly := readexactly_result |};
    unfold readexactly_result, readexactly.
  - intros n c l [Hc <-] Hn. pose proof (readexactly_loop_spec (patience c) n c Hc ltac:(lia) ltac:(lia)) as H.
    destruct (readexactly_loop _ n c) as [o c']. destruct H as [H1 H2].
    rewrite (proj2 (Z.leb_le _ _)) in H2 by lia. destruct H2 as [-> H2]. eauto.
  - intros n c l [Hc <-] Hn. pose proof (zlen_nonneg (contents c)).
    pose proof (readexactly_loop_spec (patience c) n c Hc ltac:(lia) ltac:(lia)) as Hs.
    destruct (readexactly_loop _ n c) as [o c']. destruct Hs as [H1 H2].
    rewrite (proj2 (Z.leb_gt _ _)) in H2 by lia. by destruct H2 as [-> _].
Defined.

Lemma head_outcome_read limit l o rest : head_outcome limit l o rest -> head_read limit l o rest.
Proof.
  unfold head_outcome, head_read, ReadBuffer.head_end. change ReadBuffer.CRLFCRLF with HEAD_END.
  rewrite !(Z.gtb_ltb limit), !(Z.gtb_ltb _ limit). destruct (find_sub HEAD_END l) as [i|]; cbn [Z.eqb].
  - rewrite (Z.gtb_ltb _ limit). destruct (_ && _); [done|].
    rewrite !(proj2 (Z.eqb_neq _ _)) by (unfold ReadBuffer.LIMIT_EXCEEDED; lia).
    replace (Z.to_nat (Z.of_nat i + 4)) with (i + 4)%nat by lia. done.
  - by destruct (_ && _).
Qed.

(** And a [StreamReader]. *)
#[export] Instance stream_reader : StreamReader conn.
Proof.
  refine {|
    holds c l := conn_ok c /\ contents c = l;
    ssize c := length (contents c);
    sread := read;
    Reader.sreadexactly := readexactly;
    sreadline := readuntil [10];
    sread_head := read_head |}.
  - by intros c l [_ ->].
  - intros n c l [Hc <-] Hn. pose proof (read_prefix n c Hc ltac:(lia)) as H. destruct (read n c) as [o c'].
    destruct H as (Hc' & out & -> & Hl & Hlen & He). exists out, (contents c'), c'. split_and!; try done. by apply Hlen.
  - intros n c l [Hc <-] Hn. pose proof (readexactly_loop_spec (patience c) n c Hc Hn ltac:(lia)) as H.
    unfold readexactly. destruct (readexactly_loop _ n c) as [o c']. destruct H as [Hc' H]. exists c'.
    destruct (n <=? zlen (contents c)); destruct H as [-> H]; by split_and!.
  - intros c l [Hc <-]. pose proof (readuntil_loop_spec (patience c) [10] c Hc ltac:(done) ltac:(lia)) as H.
    unfold readuntil. destruct (readuntil_loop _ [10] c) as [o c']. destruct H as [Hc' H]. exists c'.
    rewrite find_sub_char in H. destruct (find_char 10 (contents c)) as [i|]; destruct H as [-> H]; [|by split_and!].
    rewrite Nat.add_comm in H. rewrite Nat.add_comm. by split_and!.
  - intros limit c l [Hc <-]. pose proof (read_head_loop_spec (patience c) limit c Hc ltac:(lia)) as H.
    unfold read_head. destruct (read_head_loop _ limit c) as [o c']. destruct H as [Hc' H].
    exists o, c', (contents c'). split_and!; [done..|by apply head_outcome_read].
Defined.

End BufferReader.

