(* ===== verification/MqttWire.v ===== *)
(** * MQTT 5.0 field codecs (blackbull/mqtt/messages.py, first half)

    The Variable Byte Integer, length-prefixed strings and blobs, and the
    property block, on encode and decode.  Decoders take the whole buffer and
    a position and return the new position, as in the source; [At data pos l]
    says that [l] is what is left of [data] at [pos], and every decoder lemma
    moves it forward. *)

From Stdlib Require Import ZArith Lia.
From stdpp Require Import base tactics numbers option strings sets list.
From S2P Require Import Prelude PyLib PyText.

Module MqttWire.

(** ** Variable Byte Integer *)

(** The loop of [encode_variable_byte_integer]: at most four groups for a
    value the guard lets through. *)
Fixpoint encode_vbi_loop (fuel : nat) (value : Z) : bytes :=
  match fuel with
  | O => []
  | S fuel =>
      let byte := Z.land value 0x7F in
      let value := Z.shiftr value 7 in
      let byte := if value >? 0 then Z.lor byte 0x80 else byte in
      byte :: (if value =? 0 then [] else encode_vbi_loop fuel value)
  end.

Definition encode_variable_byte_integer (value : Z) : result bytes :=
  if (value <? 0) || (value >? 268435455) then Raise MQTTDecodeError
  else Ok (encode_vbi_loop 4 value).

Fixpoint decode_vbi_loop (data : bytes) (multiplier value consumed : Z) : result (Z * Z) :=
  match data with
  | [] => Raise IncompletePacket
  | byte :: data =>
      let value := value + Z.land byte 0x7F * multiplier in
      let consumed := consumed + 1 in
      if multiplier >? 128 * 128 * 128 then Raise MQTTDecodeError
      else if Z.land byte 0x80 =? 0 then Ok (value, consumed)
      else decode_vbi_loop data (multiplier * 128) value consumed
  end.

Definition decode_variable_byte_integer (data : bytes) : result (Z * Z) := decode_vbi_loop data 1 0 0.

(** ** Primitive fields *)

Definition _encode_binary (blob : bytes) : result bytes :=
  let* n := to_bytes 2 (zlen blob) in Ok (n ++ blob).

Definition _encode_utf8 (text : pystr) : result bytes :=
  let* raw := utf8_encode text in
  let* n := to_bytes 2 (zlen raw) in
  Ok (n ++ raw).

Definition _decode_binary (data : bytes) (offset : Z) : result (bytes * Z) :=
  if offset + 2 >? zlen data then Raise IncompletePacket
  else
    let length := from_bytes (slice data offset (offset + 2)) in
    let start := offset + 2 in
    let end_ := start + length in
    if end_ >? zlen data then Raise IncompletePacket
    else Ok (slice data start end_, end_).

Definition _decode_utf8 (data : bytes) (offset : Z) : result (pystr * Z) :=
  if offset + 2 >? zlen data then Raise IncompletePacket
  else
    let length := from_bytes (slice data offset (offset + 2)) in
    let start := offset + 2 in
    let end_ := start + length in
    if end_ >? zlen data then Raise IncompletePacket
    else let* text := utf8_decode (slice data start end_) in Ok (text, end_).

(** ** Properties *)

Inductive wire_type : Type := _BYTE | _UINT16 | _UINT32 | _VBI | _UTF8 | _BINARY | _PAIR.
#[export] Instance wire_type_eq_dec : EqDecision wire_type.
Proof. solve_decision. Defined.

Definition _PROPERTY_SPECS : list (Z * string * string * wire_type) := [
  (0x01, "payload_format_indicator", "payload_format_indicator", _BYTE);
  (0x02, "message_expiry_interval", "message_expiry_interval", _UINT32);
  (0x03, "content_type", "content_type", _UTF8);
  (0x08, "response_topic", "response_topic", _UTF8);
  (0x09, "correlation_data", "correlation_data", _BINARY);
  (0x0B, "subscription_identifier", "subscription_identifier", _VBI);
  (0x11, "session_expiry_interval", "session_expiry_interval", _UINT32);
  (0x12, "assigned_client_identifier", "assigned_client_identifier", _UTF8);
  (0x13, "server_keep_alive", "server_keep_alive", _UINT16);
  (0x15, "authentication_method", "authentication_method", _UTF8);
  (0x16, "authentication_data", "authentication_data", _BINARY);
  (0x17, "request_problem_information", "request_problem_information", _BYTE);
  (0x18, "will_delay_interval", "will_delay_interval", _UINT32);
  (0x19, "request_response_information", "request_response_information", _BYTE);
  (0x1A, "response_information", "response_information", _UTF8);
  (0x1C, "server_reference", "server_reference", _UTF8);
  (0x1F, "reason_string", "reason_string", _UTF8);
  (0x21, "receive_maximum", "receive_maximum", _UINT16);
  (0x22, "topic_alias_maximum", "topic_alias_maximum", _UINT16);
  (0x23, "topic_alias", "topic_alias", _UINT16);
  (0x24, "maximum_qos", "maximum_qos", _BYTE);
  (0x25, "retain_available", "retain_available", _BYTE);
  (0x26, "user_property", "user_properties", _PAIR);
  (0x27, "maximum_packet_size", "maximum_packet_size", _UINT32);
  (0x28, "wildcard_subscription_available", "wildcard_subscription_available", _BYTE);
  (0x29, "subscription_identifier_available", "subscription_identifier_available", _BYTE);
  (0x2A, "shared_subscription_available", "shared_subscription_available", _BYTE)
]%string.

(** [_PROP_BY_KEY] and the pair [_PROP_BY_ID], [_PROP_ID_TO_KEY]. *)
Definition _PROP_BY_KEY : dict string (Z * wire_type) :=
  (fun '(pid, _, key, wt) => (key, (pid, wt))) <$> _PROPERTY_SPECS.
Definition _PROP_BY_ID : dict Z (string * wire_type) :=
  (fun '(pid, _, key, wt) => (pid, (key, wt))) <$> _PROPERTY_SPECS.

(** A property value: an integer, a text, a blob, or the list of user
    property pairs.  A value of a Python type its codec does not take is
    represented by the [TypeError] the codec raises on it; numeric strings,
    which [int] would accept, are outside the model. *)
Inductive propval : Type :=
| PInt (n : Z)
| PText (s : pystr)
| PBlob (b : bytes)
| PPairs (l : list (pystr * pystr)).
#[export] Instance propval_eq_dec : EqDecision propval.
Proof. solve_decision. Defined.

Definition props : Type := dict string propval.

Definition wire_encode (wt : wire_type) (v : propval) : result bytes :=
  match wt, v with
  | _BYTE, PInt n => Ok [Z.land n 0xFF]
  | _UINT16, PInt n => to_bytes 2 n
  | _UINT32, PInt n => to_bytes 4 n
  | _VBI, PInt n => encode_variable_byte_integer n
  | _UTF8, PText s => _encode_utf8 s
  | _BINARY, PBlob b => _encode_binary b
  | _, _ => Raise TypeError
  end.

Definition _decode_vbi_at (data : bytes) (pos end_ : Z) : result (Z * Z) :=
  let* '(val, consumed) := decode_variable_byte_integer (slice data pos end_) in Ok (val, pos + consumed).

Definition wire_decode (wt : wire_type) (d : bytes) (p e : Z) : result (propval * Z) :=
  match wt with
  | _BYTE => let* b := zget d p in Ok (PInt b, p + 1)
  | _UINT16 => Ok (PInt (from_bytes (slice d p (p + 2))), p + 2)
  | _UINT32 => Ok (PInt (from_bytes (slice d p (p + 4))), p + 4)
  | _VBI => let* '(v, p) := _decode_vbi_at d p e in Ok (PInt v, p)
  | _UTF8 => let* '(s, p) := _decode_utf8 d p in Ok (PText s, p)
  | _BINARY => let* '(b, p) := _decode_binary d p in Ok (PBlob b, p)
  | _PAIR => Raise MQTTDecodeError
  end.

Definition _encode_prop_value (pid : Z) (wt : wire_type) (value : propval) : result bytes :=
  let* b := wire_encode wt value in Ok (pid :: b).

(** The inner loop over the user property pairs. *)
Fixpoint encode_pairs (pid : Z) (l : list (pystr * pystr)) : result bytes :=
  match l with
  | [] => Ok []
  | (k, v) :: l =>
      let* ek := _encode_utf8 k in
      let* ev := _encode_utf8 v in
      let* rest := encode_pairs pid l in
      Ok (pid :: ek ++ ev ++ rest)
  end.

Definition encode_prop (key : string) (value : propval) : result bytes :=
  match dget _PROP_BY_KEY key with
  | None => Raise MQTTDecodeError
  | Some (pid, _PAIR) =>
      match value with
      | PPairs l => encode_pairs pid l
      | _ => Raise TypeError
      end
  | Some (pid, wt) => _encode_prop_value pid wt value
  end.

Fixpoint encode_props_body (properties : props) : result bytes :=
  match properties with
  | [] => Ok []
  | (key, value) :: properties =>
      let* b := encode_prop key value in
      let* rest := encode_props_body properties in
      Ok (b ++ rest)
  end.

Definition encode_properties (properties : props) : result bytes :=
  let* body := encode_props_body properties in
  let* n := encode_variable_byte_integer (zlen body) in
  Ok (n ++ body).

(** [props.setdefault(key, []).append(pair)] *)
Definition add_pair (key : string) (pair : pystr * pystr) (ps : props) : result props :=
  match dget ps key with
  | None => Ok (dset ps key (PPairs [pair]))
  | Some (PPairs l) => Ok (dset ps key (PPairs (l ++ [pair])))
  | Some _ => Raise AttributeError
  end.

(** The [while pos < end] loop.  Every turn moves [pos] past the identifier,
    so [end - start] turns are enough. *)
Fixpoint decode_props_loop (fuel : nat) (data : bytes) (pos end_ : Z) (ps : props) : result props :=
  if pos <? end_ then
    match fuel with
    | O => Raise OutOfFuel
    | S fuel =>
        let* pid := zget data pos in
        let pos := pos + 1 in
        match dget _PROP_BY_ID pid with
        | None => Raise MQTTDecodeError
        | Some (key, _PAIR) =>
            let* '(k, pos) := _decode_utf8 data pos in
            let* '(v, pos) := _decode_utf8 data pos in
            let* ps := add_pair key (k, v) ps in
            decode_props_loop fuel data pos end_ ps
        | Some (key, wt) =>
            let* '(v, pos) := wire_decode wt data pos end_ in
            decode_props_loop fuel data pos end_ (dset ps key v)
        end
    end
  else Ok ps.

Definition decode_properties (data : bytes) (offset : Z) : result (props * Z) :=
  let* '(length, len_consumed) := decode_variable_byte_integer (slice_from data offset) in
  let start := offset + len_consumed in
  let end_ := start + length in
  if end_ >? zlen data then Raise IncompletePacket
  else
    let* ps := decode_props_loop (Z.to_nat (end_ - start)) data start end_ [] in
    Ok (ps, end_ - offset).

(** ** The cursor *)

(** [l] is what is left of [data] at position [pos]. *)
Definition At (data : bytes) (pos : Z) (l : bytes) : Prop :=
  exists pre, data = pre ++ l /\ pos = zlen pre.

Lemma At_0 data : At data 0 data.
Proof. by exists []. Qed.

Lemma At_app data pos l1 l2 : At data pos (l1 ++ l2) -> At data (pos + zlen l1) l2.
Proof. intros (pre & -> & ->). exists (pre ++ l1). by rewrite <- app_assoc, zlen_app. Qed.

Lemma At_cons data pos x l : At data pos (x :: l) -> At data (pos + 1) l.
Proof. apply (At_app data pos [x] l). Qed.

Lemma At_len data pos l : At data pos l -> zlen data = pos + zlen l /\ 0 <= pos.
Proof. intros (pre & -> & ->). rewrite zlen_app. pose proof (zlen_nonneg pre). lia. Qed.

Lemma At_zget data pos x l : At data pos (x :: l) -> zget data pos = Ok x.
Proof. intros (pre & -> & ->). by apply zget_app_mid. Qed.

Lemma At_slice data pos l1 l2 n : At data pos (l1 ++ l2) -> n = pos + zlen l1 -> slice data pos n = l1.
Proof. intros (pre & -> & ->) ->. by apply slice_mid. Qed.

Lemma At_slice_from data pos l : At data pos l -> slice_from data pos = l.
Proof. intros (pre & -> & ->). by apply slice_from_app. Qed.

(** ** Variable Byte Integer: facts *)

(** A group byte carries seven bits, with or without the continuation bit. *)
Lemma group_byte x :
  0 <= x < 128 ->
  Z.land x 0x7F = x /\ Z.land x 0x80 = 0 /\ Z.land (Z.lor x 0x80) 0x7F = x /\
  Z.land (Z.lor x 0x80) 0x80 <> 0 /\ is_byte (Z.lor x 0x80).
Proof.
  intros Hx.
  set (P := fun x => (Z.land x 0x7F =? x) && (Z.land x 0x80 =? 0) && (Z.land (Z.lor x 0x80) 0x7F =? x)
    && negb (Z.land (Z.lor x 0x80) 0x80 =? 0) && bool_decide (is_byte (Z.lor x 0x80))).
  assert (P x = true) as HP by (apply (range_forall 128); [by vm_compute|done]).
  unfold P in HP. rewrite !andb_true_iff, negb_true_iff in HP.
  destruct HP as ((((H1%Z.eqb_eq & H2%Z.eqb_eq) & H3%Z.eqb_eq) & H4%Z.eqb_neq) & H5%bool_decide_eq_true).
  done.
Qed.

Lemma vbi_step v : Z.land v 0x7F = v mod 128 /\ Z.shiftr v 7 = v / 128.
Proof. split; [apply (Z.land_ones v 7); lia|]. by rewrite Z.shiftr_div_pow2. Qed.

Lemma vbi_loop_roundtrip fuel v rest multiplier value consumed :
  0 <= v < 128 ^ Z.of_nat fuel -> (0 < fuel)%nat ->
  0 < multiplier -> multiplier * 128 ^ Z.of_nat (fuel - 1) <= 128 * 128 * 128 ->
  decode_vbi_loop (encode_vbi_loop fuel v ++ rest) multiplier value consumed
  = Ok (value + v * multiplier, consumed + zlen (encode_vbi_loop fuel v)).
Proof.
  revert v multiplier value consumed.
  induction fuel as [|fuel IH]; intros v m acc n Hv Hf Hm Hmax; [lia|].
  cbn [encode_vbi_loop]. destruct (vbi_step v) as [-> ->].
  pose proof (Z.mod_pos_bound v 128 ltac:(lia)) as Hmod.
  destruct (group_byte (v mod 128) Hmod) as (G1 & G2 & G3 & G4 & _).
  assert (m <= 128 * 128 * 128) as Hm3.
  { assert (1 <= 128 ^ Z.of_nat (S fuel - 1)) by (pose proof (Z.pow_pos_nonneg 128 (Z.of_nat (S fuel - 1))); lia).
    nia. }
  assert (0 <= v / 128) as Hd by (apply Z.div_pos; lia).
  rewrite Z.gtb_ltb. destruct (Z.eqb_spec (v / 128) 0) as [Hz|Hz].
  - rewrite (proj2 (Z.ltb_ge 0 (v / 128))) by lia. cbn [app decode_vbi_loop].
    rewrite G1, G2, Z.gtb_ltb, (proj2 (Z.ltb_ge _ m)) by lia. cbn [Z.eqb].
    change (zlen [v mod 128]) with 1. do 2 f_equal. assert (v mod 128 = v) as -> by divmod. done.
  - rewrite (proj2 (Z.ltb_lt 0 (v / 128))) by lia. cbn [app decode_vbi_loop].
    rewrite G3, Z.gtb_ltb, (proj2 (Z.ltb_ge _ m)), (proj2 (Z.eqb_neq _ 0) G4) by lia.
    destruct fuel as [|fuel]; [exfalso; simpl in Hv; divmod|].
    rewrite IH.
    + rewrite zlen_cons. f_equal. f_equal; [|lia]. pose proof (Z.div_mod v 128). nia.
    + rewrite (Nat2Z.inj_succ (S fuel)), Z.pow_succ_r in Hv by lia.
      split; [done|]. apply Z.div_lt_upper_bound; lia.
    + lia.
    + lia.
    + replace (S (S fuel) - 1)%nat with (S fuel) in Hmax by lia.
      replace (S fuel - 1)%nat with fuel by lia.
      rewrite Nat2Z.inj_succ, Z.pow_succ_r in Hmax by lia. nia.
Qed.

Lemma vbi_loop_bytes fuel v : 0 <= v -> bytes_ok (encode_vbi_loop fuel v).
Proof.
  revert v. induction fuel as [|fuel IH]; intros v Hv; cbn [encode_vbi_loop]; [constructor|].
  destruct (vbi_step v) as [-> ->]. pose proof (Z.mod_pos_bound v 128 ltac:(lia)) as Hmod.
  destruct (group_byte (v mod 128) Hmod) as (_ & _ & _ & _ & G).
  constructor; [case_match; [done|unfold is_byte; lia]|].
  case_match; [constructor|]. apply IH, Z.div_pos; lia.
Qed.

Lemma vbi_loop_len fuel v :
  (length (encode_vbi_loop fuel v) <= fuel)%nat /\ ((0 < fuel)%nat -> (0 < length (encode_vbi_loop fuel v))%nat).
Proof.
  revert v. induction fuel as [|fuel IH]; intros v; cbn [encode_vbi_loop length]; [lia|].
  case_match; cbn [length]; [lia|]. specialize (IH (Z.shiftr v 7)). lia.
Qed.

Arguments encode_vbi_loop : simpl never.

Lemma encode_vbi_Ok v w :
  encode_variable_byte_integer v = Ok w -> 0 <= v < 128 ^ 4 /\ w = encode_vbi_loop 4 v.
Proof.
  unfold encode_variable_byte_integer. rewrite Z.gtb_ltb.
  destruct (Z.ltb_spec v 0), (Z.ltb_spec 268435455 v); cbn [orb]; try discriminate.
  intros Hw. injection Hw as <-. split; [lia|reflexivity].
Qed.

Lemma decode_encode_vbi v w rest :
  encode_variable_byte_integer v = Ok w ->
  decode_variable_byte_integer (w ++ rest) = Ok (v, zlen w).
Proof.
  intros [Hv ->]%encode_vbi_Ok. unfold decode_variable_byte_integer.
  pose proof (vbi_loop_roundtrip 4 v rest 1 0 0) as H.
  change (128 ^ Z.of_nat 4) with (128 ^ 4) in H. change (1 * 128 ^ Z.of_nat (4 - 1)) with 2097152 in H.
  rewrite H by lia. by rewrite Z.add_0_l, Z.mul_1_r.
Qed.

Lemma encode_vbi_len v w : encode_variable_byte_integer v = Ok w -> 1 <= zlen w <= 4.
Proof.
  intros [_ ->]%encode_vbi_Ok. pose proof (vbi_loop_len 4 v). unfold zlen. lia.
Qed.

(** What a decoded integer looks like, and that bytes after it do not
    matter. *)
Lemma decode_vbi_loop_stable l more m v n :
  decode_vbi_loop l m v n <> Raise IncompletePacket ->
  decode_vbi_loop (l ++ more) m v n = decode_vbi_loop l m v n.
Proof.
  revert m v n. induction l as [|b l IH]; intros m v n; cbn [app decode_vbi_loop]; [done|].
  repeat case_match; try done. apply IH.
Qed.

Lemma decode_vbi_loop_bounds l m v n value consumed :
  bytes_ok l -> 0 < m -> decode_vbi_loop l m v n = Ok (value, consumed) ->
  n < consumed <= n + zlen l /\ v <= value.
Proof.
  revert m v n. induction l as [|b l IH]; intros m v n Hl Hm; cbn [decode_vbi_loop]; [done|].
  apply bytes_ok_cons in Hl as [Hb Hl]. unfold is_byte in Hb.
  rewrite zlen_cons. pose proof (zlen_nonneg l).
  assert (0 <= Z.land b 0x7F * m) by (apply Z.mul_nonneg_nonneg; [apply Z.land_nonneg; lia|lia]).
  repeat case_match; try done; intros; simplify_eq; [lia|].
  edestruct IH as [H1' H2']; [done| |done|]; lia.
Qed.

Lemma decode_vbi_loop_err l m v n e :
  decode_vbi_loop l m v n = Raise e -> e = IncompletePacket \/ e = MQTTDecodeError.
Proof.
  revert m v n. induction l as [|b l IH]; intros m v n; cbn [decode_vbi_loop]; [naive_solver|].
  repeat case_match; naive_solver.
Qed.

(** At most four bytes are read, and the value fits 28 bits. *)
Lemma decode_vbi_loop_max l m v n value consumed k :
  bytes_ok l -> m = 128 ^ k -> 0 <= k -> 0 <= v < m -> decode_vbi_loop l m v n = Ok (value, consumed) ->
  consumed - n <= 4 - k /\ value < 128 ^ 4.
Proof.
  revert m v n k. induction l as [|b l IH]; intros m v n k Hl Hmk Hk Hv; cbn [decode_vbi_loop]; [done|].
  apply bytes_ok_cons in Hl as [Hb Hl]. unfold is_byte in Hb.
  rewrite Z.gtb_ltb. destruct (Z.ltb_spec (128 * 128 * 128) m) as [?|Hle]; [done|].
  assert (k <= 3) as Hk3.
  { destruct (Z.le_gt_cases k 3) as [?|Hk4]; [done|].
    assert (128 ^ 4 <= 128 ^ k) by (apply Z.pow_le_mono_r; lia). lia. }
  pose proof (land_low b 7 ltac:(lia)) as Hlow. change (Z.ones 7) with 0x7F in Hlow.
  change (2 ^ 7) with 128 in Hlow. pose proof (Z.mod_pos_bound b 128 ltac:(lia)) as Hmod.
  rewrite Hlow. set (x := b mod 128) in *. clearbody x.
  assert (0 <= v + x * m < m * 128) as Hv' by nia.
  destruct (Z.eqb_spec (Z.land b 128) 0).
  - intros [= <- <-]. split; [lia|].
    assert (m * 128 <= 128 ^ 4) by (replace (m * 128) with (128 ^ (k + 1))
      by (rewrite Hmk, Z.pow_add_r; lia); apply Z.pow_le_mono_r; lia). lia.
  - intros Hd. destruct (IH (m * 128) (v + x * m) (n + 1) (k + 1)) as [H1 H2]; try done; try lia.
    rewrite Hmk, Z.pow_add_r by lia. lia.
Qed.

Lemma decode_vbi_bounds l value consumed :
  bytes_ok l -> decode_variable_byte_integer l = Ok (value, consumed) ->
  1 <= consumed <= zlen l /\ consumed <= 4 /\ 0 <= value < 128 ^ 4.
Proof.
  intros Hl Hd. pose proof (decode_vbi_loop_bounds l 1 0 0 _ _ Hl ltac:(lia) Hd).
  pose proof (decode_vbi_loop_max l 1 0 0 _ _ 0 Hl eq_refl ltac:(lia) ltac:(lia) Hd). lia.
Qed.

(** An unfinished integer is at most four bytes long. *)
Lemma decode_vbi_loop_incomplete l k v n :
  0 <= k <= 4 -> decode_vbi_loop l (128 ^ k) v n = Raise IncompletePacket -> zlen l <= 4 - k.
Proof.
  revert k v n. induction l as [|b l IH]; intros k v n Hk; cbn [decode_vbi_loop].
  { change (zlen (@nil Z)) with 0. lia. }
  rewrite Z.gtb_ltb. destruct (Z.ltb_spec (128 * 128 * 128) (128 ^ k)) as [|Hle]; [done|].
  destruct (_ =? 0); [done|]. rewrite zlen_cons.
  assert (k <> 4) as Hk4 by (intros ->; lia).
  replace (128 ^ k * 128) with (128 ^ (k + 1)) by (rewrite Z.pow_add_r by lia; lia).
  intros Hi%IH; lia.
Qed.

Lemma decode_vbi_incomplete l : decode_variable_byte_integer l = Raise IncompletePacket -> zlen l <= 4.
Proof. intros H. pose proof (decode_vbi_loop_incomplete l 0 0 0 ltac:(lia) H). lia. Qed.

Lemma decode_vbi_stable l more :
  decode_variable_byte_integer l <> Raise IncompletePacket ->
  decode_variable_byte_integer (l ++ more) = decode_variable_byte_integer l.
Proof. apply decode_vbi_loop_stable. Qed.

(** The first four bytes decide. *)
Lemma decode_vbi_loop_take l m v n x c :
  bytes_ok l -> 0 < m -> decode_vbi_loop l m v n = Ok (x, c) ->
  decode_vbi_loop (take (Z.to_nat (c - n)) l) m v n = Ok (x, c).
Proof.
  revert m v n. induction l as [|b l IH]; intros m v n Hok Hm Hd; [done|].
  pose proof (decode_vbi_loop_bounds _ _ _ _ _ _ Hok Hm Hd) as [Hc _].
  apply bytes_ok_cons in Hok as [Hb Hok]. cbn [decode_vbi_loop] in Hd.
  replace (Z.to_nat (c - n)) with (S (Z.to_nat (c - (n + 1)))) by lia. cbn [take decode_vbi_loop].
  repeat case_match; try done. apply IH; [done|lia|done].
Qed.

Lemma decode_vbi_take l n c :
  bytes_ok l -> decode_variable_byte_integer l = Ok (n, c) ->
  decode_variable_byte_integer (take 4 l) = Ok (n, c).
Proof.
  intros Hok H. pose proof (decode_vbi_bounds _ _ _ Hok H) as Hc.
  pose proof (decode_vbi_loop_take l 1 0 0 _ _ Hok ltac:(lia) H) as Ht.
  rewrite Z.sub_0_r in Ht. rewrite <- (take_drop (Z.to_nat c) (take 4 l)), take_take, Nat.min_l by lia.
  rewrite decode_vbi_stable; [done|]. unfold decode_variable_byte_integer. by rewrite Ht.
Qed.

(** ** Primitive fields: facts *)

Lemma be2_len (n : Z) l : to_bytes 2 n = Ok l -> zlen l = 2 /\ from_bytes l = n.
Proof.
  intros [-> H]%to_bytes_inv. split; [apply zlen_be_bytes|by apply from_be_small].
Qed.

Lemma decode_binary_at data pos b w rest :
  _encode_binary b = Ok w -> At data pos (w ++ rest) -> _decode_binary data pos = Ok (b, pos + zlen w).
Proof.
  unfold _encode_binary. intros He Hat. inv_ok. destruct (be2_len _ _ Ha) as [H2 Hn].
  rewrite <- app_assoc in Hat. pose proof (At_len _ _ _ Hat) as [Hl Hp].
  rewrite !zlen_app in Hl. pose proof (zlen_nonneg b). pose proof (zlen_nonneg rest).
  unfold _decode_binary. rewrite Z.gtb_ltb, (proj2 (Z.ltb_ge _ _)) by lia.
  rewrite (At_slice _ _ _ _ (pos + 2) Hat) by lia. rewrite Hn.
  rewrite Z.gtb_ltb, (proj2 (Z.ltb_ge _ _)) by lia.
  apply At_app in Hat. rewrite H2 in Hat. rewrite (At_slice _ _ _ _ _ Hat) by done.
  rewrite zlen_app, H2. do 2 f_equal. lia.
Qed.

Lemma decode_utf8_at data pos s w rest :
  _encode_utf8 s = Ok w -> At data pos (w ++ rest) -> _decode_utf8 data pos = Ok (s, pos + zlen w).
Proof.
  unfold _encode_utf8. intros He Hat. inv_ok. rename a into raw, a0 into n.
  assert (_encode_binary raw = Ok (n ++ raw)) as Hb by (unfold _encode_binary; by rewrite Ha0).
  pose proof (decode_binary_at data pos raw _ rest Hb Hat) as Hd.
  unfold _decode_binary in Hd. unfold _decode_utf8. repeat (case_match; [done|]).
  injection Hd as -> ->. by rewrite (utf8_roundtrip s raw Ha).
Qed.

Lemma encode_utf8_len s w : _encode_utf8 s = Ok w -> 2 <= zlen w.
Proof.
  unfold _encode_utf8. intros He. inv_ok. destruct (be2_len _ _ Ha0) as [H2 _].
  rewrite zlen_app. pose proof (zlen_nonneg a). lia.
Qed.

(** ** Properties: facts *)

(** The values the wire can carry: a byte property below 256, a non-empty
    list of user property pairs. *)
Definition prop_ok (key : string) (v : propval) : bool :=
  match dget _PROP_BY_KEY key, v with
  | Some (_, _BYTE), PInt n => bool_decide (is_byte n)
  | Some (_, _PAIR), PPairs [] => false
  | _, _ => true
  end.

Definition props_ok (ps : props) : Prop :=
  dict_ok ps /\ Forall (fun '(k, v) => prop_ok k v = true) ps.

#[export] Instance props_ok_dec ps : Decision (props_ok ps).
Proof.
  unfold props_ok, dict_ok. assert (forall x : string * propval,
    Decision (let '(k, v) := x in prop_ok k v = true)) by (intros [k v]; apply _). apply _.
Defined.

Lemma prop_by_id key pid wt :
  dget _PROP_BY_KEY key = Some (pid, wt) -> dget _PROP_BY_ID pid = Some (key, wt).
Proof.
  intros H%dget_elem. apply elem_dget; [by apply (bool_decide_unpack (NoDup (dkeys _PROP_BY_ID)))|].
  apply list_elem_of_fmap in H. apply list_elem_of_fmap.
  destruct H as ([[[pid' n] key'] wt'] & E & Hin). simplify_eq. by eexists (_, _, _, _).
Qed.

Lemma zlen_encode_vbi_nonneg v w : encode_variable_byte_integer v = Ok w -> 0 < zlen w.
Proof. intros H%encode_vbi_len. lia. Qed.

Lemma wire_decode_at wt v w data pos end_ rest :
  wire_encode wt v = Ok w -> (wt = _BYTE -> forall n, v = PInt n -> is_byte n) ->
  At data pos (w ++ rest) -> pos + zlen w <= end_ ->
  wire_decode wt data pos end_ = Ok (v, pos + zlen w).
Proof.
  intros He Hb Hat Hend.
  destruct wt, v as [n|t|b|l]; cbn [wire_encode] in He; try discriminate He; cbn [wire_decode].
  - injection He as <-. specialize (Hb eq_refl n eq_refl).
    assert (Z.land n 0xFF = n) as E by (change 0xFF with (Z.ones 8); rewrite land_low by lia; by apply Z.mod_small).
    rewrite E in *. rewrite (At_zget _ _ _ _ Hat). cbn [rbind]. reflexivity.
  - destruct (be2_len _ _ He) as [H2 Hn]. rewrite (At_slice _ _ _ _ (pos + 2) Hat) by lia.
    by rewrite Hn, H2.
  - apply to_bytes_inv in He as [-> Hr]. rewrite zlen_be_bytes in *.
    rewrite (At_slice _ _ _ _ (pos + 4) Hat) by (rewrite zlen_be_bytes; lia).
    by rewrite from_be_small.
  - unfold _decode_vbi_at.
    assert (slice data pos end_ = w ++ take (Z.to_nat (end_ - pos - zlen w)) rest) as ->.
    { destruct Hat as (pre & -> & ->). unfold slice, zlen in *. rewrite Nat2Z.id, drop_app_length.
      rewrite take_app. rewrite take_ge by lia. do 2 f_equal. lia. }
    by rewrite (decode_encode_vbi _ _ _ He).
  - by rewrite (decode_utf8_at _ _ _ _ _ He Hat).
  - by rewrite (decode_binary_at _ _ _ _ _ He Hat).
Qed.

(** The user property list under construction. *)
Definition with_pairs (ps : props) (key : string) (d : list (pystr * pystr)) : props :=
  match d with [] => ps | _ => ps ++ [(key, PPairs d)] end.

Lemma add_pair_with ps key d pair :
  key ∉ dkeys ps -> add_pair key pair (with_pairs ps key d) = Ok (with_pairs ps key (d ++ [pair])).
Proof.
  intros Hk. unfold add_pair.
  assert (forall p, dget (ps ++ [(key, p)]) key = Some p /\
    forall q, dset (ps ++ [(key, p)]) key q = ps ++ [(key, q)]) as Hend.
  { intros p. induction ps as [|[k v] ps IH]; cbn [app dget dset].
    - split; [|intros q]; by rewrite decide_True.
    - assert (key <> k /\ key ∉ dkeys ps) as [Hne Hk'] by (unfold dkeys in *; simpl in *; set_solver).
      destruct (IH Hk') as [IH1 IH2]. rewrite decide_False by done. split; [done|].
      intros q. rewrite decide_False by done. by rewrite IH2. }
  destruct d as [|x d]; cbn [with_pairs app].
  - rewrite (proj2 (dget_None ps key) Hk). by rewrite dset_fresh by by apply dget_None.
  - destruct (Hend (PPairs (x :: d))) as [-> Hset]. by rewrite Hset.
Qed.

Lemma decode_pairs_at l pid key data end_ rest left ps R :
  dget _PROP_BY_ID pid = Some (key, _PAIR) -> key ∉ dkeys ps -> 0 <= left ->
  forall w pos d fuel, encode_pairs pid l = Ok w -> At data pos (w ++ rest) ->
  pos + zlen w <= end_ -> zlen w + left <= Z.of_nat fuel ->
  (forall fuel', left <= Z.of_nat fuel' ->
     decode_props_loop fuel' data (pos + zlen w) end_ (with_pairs ps key (d ++ l)) = R) ->
  decode_props_loop fuel data pos end_ (with_pairs ps key d) = R.
Proof.
  intros Hpid Hk Hleft. induction l as [|[k v] l IH]; intros w pos d fuel He Hat Hend Hfuel Hcont;
    cbn [encode_pairs] in He; inv_ok.
  { rewrite app_nil_r in Hcont. change (zlen (@nil Z)) with 0 in *. rewrite Z.add_0_r in Hcont.
    apply Hcont. lia. }
  rename a into ek, a0 into ev, a1 into wl.
  pose proof (encode_utf8_len _ _ Ha). pose proof (encode_utf8_len _ _ Ha0).
  pose proof (zlen_nonneg wl). pose proof (zlen_nonneg rest).
  rewrite zlen_cons, !zlen_app in Hend, Hfuel. rewrite zlen_cons, !zlen_app in Hcont.
  destruct fuel as [|fuel]; [lia|]. cbn [decode_props_loop].
  rewrite (proj2 (Z.ltb_lt _ _)) by lia. cbn [app] in Hat. rewrite (At_zget _ _ _ _ Hat). cbn [rbind].
  rewrite Hpid. apply At_cons in Hat. rewrite <- app_assoc in Hat.
  rewrite (decode_utf8_at _ _ _ _ _ Ha Hat). cbn [rbind]. apply At_app in Hat. rewrite <- app_assoc in Hat.
  rewrite (decode_utf8_at _ _ _ _ _ Ha0 Hat). cbn [rbind]. apply At_app in Hat.
  rewrite add_pair_with by done. cbn [rbind].
  eapply IH; [done|exact Hat|lia|lia|]. intros fuel' Hf. rewrite <- app_assoc. cbn [app].
  replace (pos + 1 + zlen ek + zlen ev + zlen wl) with (pos + (1 + (zlen ek + (zlen ev + zlen wl)))) by lia.
  by apply Hcont.
Qed.

Lemma encode_pairs_pos pid l w : encode_pairs pid l = Ok w -> 0 <= zlen w /\ (l <> [] -> 0 < zlen w).
Proof.
  pose proof (zlen_nonneg w). destruct l as [|[k v] l]; cbn [encode_pairs]; intros He; inv_ok; [done|].
  rewrite zlen_cons, !zlen_app in *.
  pose proof (zlen_nonneg a). pose proof (zlen_nonneg a0). pose proof (zlen_nonneg a1). lia.
Qed.

(** One non-pair property. *)
Lemma decode_prop_at pid key wt v w data pos end_ rest fuel ps :
  dget _PROP_BY_ID pid = Some (key, wt) -> wt <> _PAIR ->
  wire_encode wt v = Ok w -> (wt = _BYTE -> forall n, v = PInt n -> is_byte n) ->
  At data pos (pid :: w ++ rest) -> pos + 1 + zlen w <= end_ ->
  decode_props_loop (S fuel) data pos end_ ps
  = decode_props_loop fuel data (pos + 1 + zlen w) end_ (dset ps key v).
Proof.
  intros Hpid Hwt He Hb Hat Hend. pose proof (zlen_nonneg w). cbn [decode_props_loop].
  rewrite (proj2 (Z.ltb_lt _ _)) by lia. rewrite (At_zget _ _ _ _ Hat). cbn [rbind]. rewrite Hpid.
  apply At_cons in Hat. pose proof (wire_decode_at wt v w data (pos + 1) end_ rest He Hb Hat Hend) as Hd.
  destruct wt; try done; rewrite Hd; reflexivity.
Qed.

Lemma decode_props_at data end_ rest qs :
  forall ps w pos fuel, encode_props_body qs = Ok w ->
  NoDup (dkeys (ps ++ qs)) -> Forall (fun '(k, v) => prop_ok k v = true) qs ->
  At data pos (w ++ rest) -> end_ = pos + zlen w -> zlen w <= Z.of_nat fuel ->
  decode_props_loop fuel data pos end_ ps = Ok (ps ++ qs).
Proof.
  induction qs as [|[key v] qs IH]; intros ps w pos fuel He Hnd Hok Hat Hend Hf;
    cbn [encode_props_body] in He; inv_ok.
  { rewrite app_nil_r. destruct fuel; cbn [decode_props_loop]; by rewrite Z.add_0_r, Z.ltb_irrefl. }
  rename a into w1, a0 into w2. apply Forall_cons in Hok as [Hp Hok].
  assert (key ∉ dkeys ps) as Hk.
  { unfold dkeys in *. rewrite fmap_app in Hnd. simpl in Hnd. apply NoDup_app in Hnd as (_ & H & _).
    intros Hin. apply (H _ Hin). set_solver. }
  rewrite <- app_assoc in Hat. rewrite zlen_app in *. pose proof (zlen_nonneg w2).
  assert (forall fuel', zlen w2 <= Z.of_nat fuel' ->
    decode_props_loop fuel' data (pos + zlen w1) (pos + (zlen w1 + zlen w2)) (ps ++ [(key, v)])
    = Ok (ps ++ (key, v) :: qs)) as Hcont.
  { intros fuel' Hf'. replace (ps ++ (key, v) :: qs) with ((ps ++ [(key, v)]) ++ qs) by (by rewrite <- app_assoc).
    eapply IH; [exact Ha0| |done|by apply At_app in Hat|lia|done]. by rewrite <- app_assoc. }
  unfold encode_prop in Ha. unfold prop_ok in Hp.
  destruct (dget _PROP_BY_KEY key) as [[pid wt]|] eqn:Hkey; [|done]. apply prop_by_id in Hkey.
  destruct (decide (wt = _PAIR)) as [->|Hwt].
  - destruct v as [| | |l]; try done. destruct l as [|x l]; [done|].
    eapply (decode_pairs_at (x :: l) pid key data _ (w2 ++ rest) (zlen w2) ps _ Hkey Hk ltac:(lia) w1 pos []);
      [done|done|lia|lia|]. done.
  - assert (_encode_prop_value pid wt v = Ok w1) as He by (destruct wt; done).
    unfold _encode_prop_value in He. inv_ok. rename a into w1. cbn [app] in Hat.
    rewrite zlen_cons in *. pose proof (zlen_nonneg w1). destruct fuel as [|fuel]; [lia|].
    rewrite (decode_prop_at pid key wt v w1 data pos _ (w2 ++ rest)); [|done|done|done| |done|lia].
    + rewrite dset_fresh by by apply dget_None. rewrite <- Z.add_assoc. apply Hcont. lia.
    + intros -> n ->. by apply bool_decide_eq_true in Hp.
Qed.

Lemma decode_properties_at data pos ps w rest :
  encode_properties ps = Ok w -> props_ok ps -> At data pos (w ++ rest) ->
  decode_properties data pos = Ok (ps, zlen w).
Proof.
  unfold encode_properties. intros He [Hd Hok] Hat. inv_ok. rename a into body, a0 into n.
  rewrite <- app_assoc in Hat. unfold decode_properties. rewrite (At_slice_from _ _ _ Hat).
  rewrite (decode_encode_vbi _ _ _ Ha0). cbn [rbind]. apply At_app in Hat.
  pose proof (At_len _ _ _ Hat) as [Hl _]. rewrite zlen_app in Hl. pose proof (zlen_nonneg rest).
  rewrite Z.gtb_ltb, (proj2 (Z.ltb_ge _ _)) by lia.
  pose proof (zlen_nonneg body).
  rewrite (decode_props_at data _ rest ps [] body (pos + zlen n)); try done; try lia.
  cbn [rbind app]. rewrite zlen_app. do 2 f_equal. lia.
Qed.

Lemma encode_properties_len ps w : encode_properties ps = Ok w -> 1 <= zlen w.
Proof.
  unfold encode_properties. intros He. inv_ok. rewrite zlen_app.
  pose proof (encode_vbi_len _ _ Ha0). pose proof (zlen_nonneg a). lia.
Qed.

(** ** Property *)

(** The Variable Byte Integer round-trips exactly on its range.  Every
    value of 0..268435455 encodes to one to four bytes which decode, whatever
    follows them, to the value and to their number; every other value is
    refused. *)
Theorem vbi_roundtrip v rest :
  if bool_decide (0 <= v <= 268435455)
  then exists w, encode_variable_byte_integer v = Ok w /\ 1 <= zlen w <= 4 /\ bytes_ok w /\
       decode_variable_byte_integer (w ++ rest) = Ok (v, zlen w)
  else encode_variable_byte_integer v = Raise MQTTDecodeError.
Proof.
  case_bool_decide as Hv; unfold encode_variable_byte_integer at 1; rewrite Z.gtb_ltb.
  - rewrite (proj2 (Z.ltb_ge _ _)), (proj2 (Z.ltb_ge _ v)) by lia. cbn [orb].
    exists (encode_vbi_loop 4 v).
    assert (encode_variable_byte_integer v = Ok (encode_vbi_loop 4 v)) as He.
    { unfold encode_variable_byte_integer. by rewrite Z.gtb_ltb, (proj2 (Z.ltb_ge _ _)), (proj2 (Z.ltb_ge _ v)) by lia. }
    split_and!; [done|apply (encode_vbi_len _ _ He)..|apply vbi_loop_bytes; lia|by apply decode_encode_vbi].
  - destruct (Z.ltb_spec v 0), (Z.ltb_spec 268435455 v); done || lia.
Qed.

End MqttWire.
