(* ===== verification/MqttPackets.v ===== *)
(** * MQTT 5.0 control packets (blackbull/mqtt/messages.py, second half)

    The fifteen control packets, their construction checks, encoder and
    decoder. *)

From Stdlib Require Import ZArith Lia.
From stdpp Require Import base tactics numbers option strings sets list.
From S2P Require Import Prelude PyLib PyText MqttWire.
Import MqttWire.

Module MqttPackets.

(** ** Fixed header *)

Inductive MQTTPacketType : Type :=
| CONNECT | CONNACK | PUBLISH | PUBACK | PUBREC | PUBREL | PUBCOMP | SUBSCRIBE
| SUBACK | UNSUBSCRIBE | UNSUBACK | PINGREQ | PINGRESP | DISCONNECT | AUTH.
#[export] Instance packet_type_eq_dec : EqDecision MQTTPacketType.
Proof. solve_decision. Defined.

(** [int(packet_type)] *)
Definition type_code (p : MQTTPacketType) : Z :=
  match p with
  | CONNECT => 1 | CONNACK => 2 | PUBLISH => 3 | PUBACK => 4 | PUBREC => 5 | PUBREL => 6
  | PUBCOMP => 7 | SUBSCRIBE => 8 | SUBACK => 9 | UNSUBSCRIBE => 10 | UNSUBACK => 11
  | PINGREQ => 12 | PINGRESP => 13 | DISCONNECT => 14 | AUTH => 15
  end.

(** [MQTTPacketType(n)] *)
Definition packet_type_of (n : Z) : result MQTTPacketType :=
  match n with
  | 1 => Ok CONNECT | 2 => Ok CONNACK | 3 => Ok PUBLISH | 4 => Ok PUBACK | 5 => Ok PUBREC
  | 6 => Ok PUBREL | 7 => Ok PUBCOMP | 8 => Ok SUBSCRIBE | 9 => Ok SUBACK | 10 => Ok UNSUBSCRIBE
  | 11 => Ok UNSUBACK | 12 => Ok PINGREQ | 13 => Ok PINGRESP | 14 => Ok DISCONNECT | 15 => Ok AUTH
  | _ => Raise ValueError
  end.

Definition extract_packet_type (first_byte : Z) : result Z :=
  let ptype := Z.land (Z.shiftr first_byte 4) 0x0F in
  if ptype =? 0 then Raise ValueError else Ok ptype.

Definition extract_flags (first_byte : Z) : Z := Z.land first_byte 0x0F.

Definition truthy (n : Z) : bool := negb (n =? 0).

Definition CLEAN_START : Z := 0x02.
Definition WILL_FLAG : Z := 0x04.
Definition WILL_RETAIN : Z := 0x20.
Definition PASSWORD : Z := 0x40.
Definition USERNAME : Z := 0x80.
Definition WILL_QOS_SHIFT : Z := 3.
Definition WILL_QOS_MASK : Z := 0x03.
Definition RETAIN : Z := 0x01.
Definition DUP : Z := 0x08.
Definition PUBLISH_QOS_SHIFT : Z := 1.
Definition PUBLISH_QOS_MASK : Z := 0x03.
Definition NO_LOCAL : Z := 0x04.
Definition RETAIN_AS_PUBLISHED : Z := 0x08.
Definition SUBSCRIPTION_QOS_MASK : Z := 0x03.
Definition RETAIN_HANDLING_SHIFT : Z := 4.
Definition RETAIN_HANDLING_MASK : Z := 0x03.
Definition RESERVED_FLAGS_0010 : Z := 0x02.

(** [(qos, dup, retain)] *)
Definition decode_publish_flags (flags_byte : Z) : Z * bool * bool :=
  (Z.land (Z.shiftr flags_byte PUBLISH_QOS_SHIFT) PUBLISH_QOS_MASK,
   truthy (Z.land flags_byte DUP), truthy (Z.land flags_byte RETAIN)).

(** ** Messages *)

Inductive secret : Type :=
| SBytes (b : bytes)
| SText (s : pystr).
#[export] Instance secret_eq_dec : EqDecision secret.
Proof. solve_decision. Defined.

Record MQTTConnect : Type := mkConnect {
  client_id : pystr;
  clean_start : bool;
  keep_alive : Z;
  proto_level : Z;
  username : option pystr;
  password : option secret;
  will_topic : option pystr;
  will_payload : option bytes;
  will_qos : Z;
  will_retain : bool;
  will_properties : props;
  c_properties : props
}.

Record MQTTConnack : Type := mkConnack {
  session_present : bool;
  ca_reason_code : Z;
  ca_properties : props
}.

Record MQTTPublish : Type := mkPublish {
  topic : pystr;
  payload : bytes;
  qos : Z;
  packet_id : option Z;
  retain : bool;
  dup : bool;
  p_properties : props
}.

(** PUBACK, PUBREC, PUBREL and PUBCOMP share their shape. *)
Record _PacketIdAck : Type := mkAck {
  a_packet_id : Z;
  a_reason_code : Z;
  a_properties : props
}.

(** The options dictionary of one subscription, with the keys the decoder
    writes. *)
Record sub_options : Type := mkSubOptions {
  so_qos : Z;
  so_no_local : bool;
  so_retain_as_published : bool;
  so_retain_handling : Z
}.

Record MQTTSubscribe : Type := mkSubscribe {
  s_packet_id : option Z;
  subscriptions : list (pystr * Z);
  s_properties : props;
  subscription_options : option (list sub_options)
}.

(** SUBACK and UNSUBACK. *)
Record codes_ack : Type := mkCodes {
  k_packet_id : Z;
  reason_codes : list Z;
  k_properties : props
}.

Record MQTTUnsubscribe : Type := mkUnsubscribe {
  u_packet_id : option Z;
  topics : list pystr;
  u_properties : props
}.

(** DISCONNECT and AUTH. *)
Record reason_props : Type := mkReason {
  r_reason_code : option Z;
  r_properties : props
}.

Inductive MQTTMessage : Type :=
| Connect (m : MQTTConnect)
| Connack (m : MQTTConnack)
| Publish (m : MQTTPublish)
| Puback (m : _PacketIdAck)
| Pubrec (m : _PacketIdAck)
| Pubrel (m : _PacketIdAck)
| Pubcomp (m : _PacketIdAck)
| Subscribe (m : MQTTSubscribe)
| Suback (m : codes_ack)
| Unsubscribe (m : MQTTUnsubscribe)
| Unsuback (m : codes_ack)
| Pingreq
| Pingresp
| Disconnect (m : reason_props)
| Auth (m : reason_props).

(** ** Construction checks ([__post_init__]) *)

Definition connect_post_init (m : MQTTConnect) : result unit :=
  if has_char 0 (client_id m) then Raise ValueError
  else match password m, username m with
       | Some _, None => Raise ValueError
       | _, _ => Ok tt
       end.

Definition publish_post_init (m : MQTTPublish) : result unit :=
  if (qos m >? 0) && bool_decide (packet_id m = None) then Raise ValueError
  else if bool_decide (dget (p_properties m) "topic_alias"%string = Some (PInt 0)) then Raise ValueError
  else if bool_decide (dget (p_properties m) "payload_format_indicator"%string = Some (PInt 1)) then
    match utf8_decode (payload m) with
    | Ok _ => Ok tt
    | Raise _ => Raise ValueError
    end
  else Ok tt.

Definition subscribe_post_init (m : MQTTSubscribe) : result unit :=
  match s_packet_id m with None => Raise ValueError | Some _ => Ok tt end.

Definition unsubscribe_post_init (m : MQTTUnsubscribe) : result unit :=
  match u_packet_id m with None => Raise ValueError | Some _ => Ok tt end.

Definition post_init (m : MQTTMessage) : result unit :=
  match m with
  | Connect m => connect_post_init m
  | Publish m => publish_post_init m
  | Subscribe m => subscribe_post_init m
  | Unsubscribe m => unsubscribe_post_init m
  | _ => Ok tt
  end.

(** ** Encoder *)

Definition _frame (packet_type : MQTTPacketType) (flags : Z) (body : bytes) : result bytes :=
  let first := Z.lor (Z.shiftl (type_code packet_type) 4) (Z.land flags 0x0F) in
  let* b := byte1 first in
  let* n := encode_variable_byte_integer (zlen body) in
  Ok (b ++ n ++ body).

Definition flag_if (b : bool) (flag flags : Z) : Z := if b then Z.lor flags flag else flags.

Definition connect_flags (m : MQTTConnect) : Z :=
  let flags := 0 in
  let flags := flag_if (clean_start m) CLEAN_START flags in
  let flags :=
    match will_topic m with
    | Some _ =>
        let flags := Z.lor flags WILL_FLAG in
        let flags := Z.lor flags (Z.shiftl (Z.land (will_qos m) WILL_QOS_MASK) WILL_QOS_SHIFT) in
        flag_if (will_retain m) WILL_RETAIN flags
    | None => flags
    end in
  let flags := flag_if (bool_decide (is_Some (password m))) PASSWORD flags in
  flag_if (bool_decide (is_Some (username m))) USERNAME flags.

(** [x if x is not None else nothing], encoded. *)
Definition encode_opt {A} (f : A -> result bytes) (x : option A) : result bytes :=
  match x with Some a => f a | None => Ok [] end.

Definition encode_secret (pw : secret) : result bytes :=
  let* raw := match pw with SText s => utf8_encode s | SBytes b => Ok b end in _encode_binary raw.

Definition encode_will (m : MQTTConnect) (wt : pystr) : result bytes :=
  let* wp := encode_properties (will_properties m) in
  let* t := _encode_utf8 wt in
  let* p := _encode_binary (default [] (will_payload m)) in
  Ok (wp ++ t ++ p).

Definition _MQTT_PROTOCOL_NAME : pystr := lit "MQTT".

Definition _encode_connect (m : MQTTConnect) : result bytes :=
  let* name := _encode_utf8 _MQTT_PROTOCOL_NAME in
  let* level := byte1 (proto_level m) in
  let* flags := byte1 (connect_flags m) in
  let* ka := to_bytes 2 (keep_alive m) in
  let* ps := encode_properties (c_properties m) in
  let* cid := _encode_utf8 (client_id m) in
  let* will := encode_opt (encode_will m) (will_topic m) in
  let* user := encode_opt _encode_utf8 (username m) in
  let* pw := encode_opt encode_secret (password m) in
  _frame CONNECT 0 (name ++ level ++ flags ++ ka ++ ps ++ cid ++ will ++ user ++ pw).

Definition _encode_connack (m : MQTTConnack) : result bytes :=
  let* ps := encode_properties (ca_properties m) in
  _frame CONNACK 0 ([if session_present m then 1 else 0] ++ [Z.land (ca_reason_code m) 0xFF] ++ ps).

Definition publish_flags (m : MQTTPublish) : Z :=
  let flags := Z.shiftl (Z.land (qos m) PUBLISH_QOS_MASK) PUBLISH_QOS_SHIFT in
  let flags := flag_if (dup m) DUP flags in
  flag_if (retain m) RETAIN flags.

Definition _encode_publish (m : MQTTPublish) : result bytes :=
  let* t := _encode_utf8 (topic m) in
  let* pid := if qos m >? 0 then to_bytes 2 (default 0 (packet_id m)) else Ok [] in
  let* ps := encode_properties (p_properties m) in
  _frame PUBLISH (publish_flags m) (t ++ pid ++ ps ++ payload m).

Definition _encode_packet_id_ack (packet_type : MQTTPacketType) (m : _PacketIdAck) : result bytes :=
  let flags := if bool_decide (packet_type = PUBREL) then RESERVED_FLAGS_0010 else 0x00 in
  let* pid := to_bytes 2 (a_packet_id m) in
  let* ps := encode_properties (a_properties m) in
  _frame packet_type flags (pid ++ [Z.land (a_reason_code m) 0xFF] ++ ps).

(** [int(m.packet_id)]: [TypeError] on [None]. *)
Definition int_opt (x : option Z) : result Z :=
  match x with Some n => Ok n | None => Raise TypeError end.

Definition options_byte (qos : Z) (o : option sub_options) : Z :=
  let options := Z.land qos SUBSCRIPTION_QOS_MASK in
  match o with
  | Some o =>
      let options := flag_if (so_no_local o) NO_LOCAL options in
      let options := flag_if (so_retain_as_published o) RETAIN_AS_PUBLISHED options in
      Z.lor options (Z.shiftl (Z.land (so_retain_handling o) RETAIN_HANDLING_MASK) RETAIN_HANDLING_SHIFT)
  | None => options
  end.

Arguments options_byte : simpl never.

(** [for i, (topic_filter, qos) in enumerate(...)]; [opts] are the options
    from index [i] on, empty when the list is absent or too short. *)
Fixpoint encode_subscriptions (subs : list (pystr * Z)) (opts : list sub_options) : result bytes :=
  match subs with
  | [] => Ok []
  | (topic_filter, qos) :: subs =>
      let* t := _encode_utf8 topic_filter in
      let* rest := encode_subscriptions subs (tail opts) in
      Ok (t ++ [options_byte qos (head opts)] ++ rest)
  end.

Definition _encode_subscribe (m : MQTTSubscribe) : result bytes :=
  let* n := int_opt (s_packet_id m) in
  let* pid := to_bytes 2 n in
  let* ps := encode_properties (s_properties m) in
  let* subs := encode_subscriptions (subscriptions m) (default [] (subscription_options m)) in
  _frame SUBSCRIBE RESERVED_FLAGS_0010 (pid ++ ps ++ subs).

(** [_encode_suback] and [_encode_unsuback]. *)
Definition encode_codes (packet_type : MQTTPacketType) (m : codes_ack) : result bytes :=
  let* pid := to_bytes 2 (k_packet_id m) in
  let* ps := encode_properties (k_properties m) in
  _frame packet_type 0 (pid ++ ps ++ ((fun rc => Z.land rc 0xFF) <$> reason_codes m)).

Fixpoint encode_topics (ts : list pystr) : result bytes :=
  match ts with
  | [] => Ok []
  | t :: ts => let* t := _encode_utf8 t in let* rest := encode_topics ts in Ok (t ++ rest)
  end.

Definition _encode_unsubscribe (m : MQTTUnsubscribe) : result bytes :=
  let* n := int_opt (u_packet_id m) in
  let* pid := to_bytes 2 n in
  let* ps := encode_properties (u_properties m) in
  let* ts := encode_topics (topics m) in
  _frame UNSUBSCRIBE RESERVED_FLAGS_0010 (pid ++ ps ++ ts).

Definition _encode_reason_and_props (packet_type : MQTTPacketType) (m : reason_props) : result bytes :=
  if bool_decide (r_reason_code m = None) && bool_decide (r_properties m = []) then _frame packet_type 0 []
  else
    let* ps := encode_properties (r_properties m) in
    _frame packet_type 0 ([Z.land (default 0 (r_reason_code m)) 0xFF] ++ ps).

Definition encode_packet (message : MQTTMessage) : result bytes :=
  match message with
  | Connect m => _encode_connect m
  | Connack m => _encode_connack m
  | Publish m => _encode_publish m
  | Puback m => _encode_packet_id_ack PUBACK m
  | Pubrec m => _encode_packet_id_ack PUBREC m
  | Pubrel m => _encode_packet_id_ack PUBREL m
  | Pubcomp m => _encode_packet_id_ack PUBCOMP m
  | Subscribe m => _encode_subscribe m
  | Suback m => encode_codes SUBACK m
  | Unsubscribe m => _encode_unsubscribe m
  | Unsuback m => encode_codes UNSUBACK m
  | Pingreq => _frame PINGREQ 0 []
  | Pingresp => _frame PINGRESP 0 []
  | Disconnect m => _encode_reason_and_props DISCONNECT m
  | Auth m => _encode_reason_and_props AUTH m
  end.

(** ** Decoder *)

(** The constructor call: the fields, then [__post_init__]. *)
Definition construct (m : MQTTMessage) : result MQTTMessage :=
  let* _ := post_init m in Ok m.

(** [properties, c = decode_properties(body, pos); pos += c], when [present]. *)
Definition decode_props_if (present : bool) (body : bytes) (pos : Z) : result (props * Z) :=
  if present then let* '(ps, c) := decode_properties body pos in Ok (ps, pos + c) else Ok ([], pos).

(** The optional fields at the end of CONNECT. *)
Definition decode_if {A} (present : bool) (dec : bytes -> Z -> result (A * Z)) (body : bytes) (pos : Z)
  : result (option A * Z) :=
  if present then let* '(x, pos) := dec body pos in Ok (Some x, pos) else Ok (None, pos).

Definition decode_will (will_flag : bool) (proto_level : Z) (body : bytes) (pos : Z)
  : result (props * option pystr * option bytes * Z) :=
  if will_flag then
    let* '(wps, pos) := decode_props_if (proto_level >=? 5) body pos in
    let* '(t, pos) := _decode_utf8 body pos in
    let* '(p, pos) := _decode_binary body pos in
    Ok (wps, Some t, Some p, pos)
  else Ok ([], None, None, pos).

Definition _decode_connect (body : bytes) (flags : Z) : result MQTTMessage :=
  let* '(_, pos) := _decode_utf8 body 0 in
  if pos + 4 >? zlen body then Raise MQTTDecodeError
  else
    let* proto_level := zget body pos in
    let pos := pos + 1 in
    let* cflags := zget body pos in
    let pos := pos + 1 in
    let clean_start := truthy (Z.land cflags CLEAN_START) in
    let will_flag := truthy (Z.land cflags WILL_FLAG) in
    let will_qos := Z.land (Z.shiftr cflags WILL_QOS_SHIFT) WILL_QOS_MASK in
    let will_retain := truthy (Z.land cflags WILL_RETAIN) in
    let password_flag := truthy (Z.land cflags PASSWORD) in
    let username_flag := truthy (Z.land cflags USERNAME) in
    let keep_alive := from_bytes (slice body pos (pos + 2)) in
    let pos := pos + 2 in
    let* '(properties, pos) := decode_props_if (proto_level >=? 5) body pos in
    let* '(client_id, pos) := _decode_utf8 body pos in
    let* '(will_properties, will_topic, will_payload, pos) := decode_will will_flag proto_level body pos in
    let* '(username, pos) := decode_if username_flag _decode_utf8 body pos in
    let* '(password, pos) := decode_if password_flag _decode_binary body pos in
    construct (Connect (mkConnect client_id clean_start keep_alive proto_level username
      (SBytes <$> password) will_topic will_payload will_qos will_retain will_properties properties)).

Definition _decode_connack (body : bytes) : result MQTTMessage :=
  let* b0 := zget body 0 in
  let* reason_code := zget body 1 in
  let* '(properties, _) := decode_properties body 2 in
  construct (Connack (mkConnack (truthy (Z.land b0 0x01)) reason_code properties)).

Definition _decode_publish (body : bytes) (flags : Z) : result MQTTMessage :=
  let '(qos, dup, retain) := decode_publish_flags flags in
  let* '(topic, pos) := _decode_utf8 body 0 in
  let '(packet_id, pos) :=
    if qos >? 0 then (Some (from_bytes (slice body pos (pos + 2))), pos + 2) else (None, pos) in
  let* '(properties, c) := decode_properties body pos in
  let pos := pos + c in
  construct (Publish (mkPublish topic (slice_from body pos) qos packet_id retain dup properties)).

Definition _decode_packet_id_ack (cls : _PacketIdAck -> MQTTMessage) (body : bytes) : result MQTTMessage :=
  let packet_id := from_bytes (slice body 0 2) in
  if zlen body >? 2 then
    let* reason_code := zget body 2 in
    if zlen body >? 3 then
      let* '(properties, _) := decode_properties body 3 in
      construct (cls (mkAck packet_id reason_code properties))
    else construct (cls (mkAck packet_id reason_code []))
  else construct (cls (mkAck packet_id 0 [])).

(** The [while pos < len(body)] loops; every turn moves [pos] forward by the
    two length bytes at least. *)
Fixpoint decode_subscriptions (fuel : nat) (body : bytes) (pos : Z)
  : result (list (pystr * Z) * list sub_options) :=
  if pos <? zlen body then
    match fuel with
    | O => Raise OutOfFuel
    | S fuel =>
        let* '(topic_filter, pos) := _decode_utf8 body pos in
        let* options := zget body pos in
        let pos := pos + 1 in
        let qos := Z.land options SUBSCRIPTION_QOS_MASK in
        let o := mkSubOptions qos (truthy (Z.land options NO_LOCAL))
                   (truthy (Z.land options RETAIN_AS_PUBLISHED))
                   (Z.land (Z.shiftr options RETAIN_HANDLING_SHIFT) RETAIN_HANDLING_MASK) in
        let* '(subs, opts) := decode_subscriptions fuel body pos in
        Ok ((topic_filter, qos) :: subs, o :: opts)
    end
  else Ok ([], []).

Definition _decode_subscribe (body : bytes) : result MQTTMessage :=
  let packet_id := from_bytes (slice body 0 2) in
  let* '(properties, c) := decode_properties body 2 in
  let* '(subs, opts) := decode_subscriptions (length body) body (2 + c) in
  construct (Subscribe (mkSubscribe (Some packet_id) subs properties (Some opts))).

(** [_decode_suback] and [_decode_unsuback]. *)
Definition decode_codes (cls : codes_ack -> MQTTMessage) (body : bytes) : result MQTTMessage :=
  let packet_id := from_bytes (slice body 0 2) in
  let* '(properties, c) := decode_properties body 2 in
  construct (cls (mkCodes packet_id (slice_from body (2 + c)) properties)).

Fixpoint decode_topics (fuel : nat) (body : bytes) (pos : Z) : result (list pystr) :=
  if pos <? zlen body then
    match fuel with
    | O => Raise OutOfFuel
    | S fuel =>
        let* '(t, pos) := _decode_utf8 body pos in
        let* ts := decode_topics fuel body pos in
        Ok (t :: ts)
    end
  else Ok [].

Definition _decode_unsubscribe (body : bytes) : result MQTTMessage :=
  let packet_id := from_bytes (slice body 0 2) in
  let* '(properties, c) := decode_properties body 2 in
  let* ts := decode_topics (length body) body (2 + c) in
  construct (Unsubscribe (mkUnsubscribe (Some packet_id) ts properties)).

Definition _decode_reason_and_props (body : bytes) : result reason_props :=
  if zlen body =? 0 then Ok (mkReason None [])
  else
    let* reason_code := zget body 0 in
    if zlen body >? 1 then
      let* '(properties, _) := decode_properties body 1 in Ok (mkReason (Some reason_code) properties)
    else Ok (mkReason (Some reason_code) []).

Definition _decode_reason_props_msg (cls : reason_props -> MQTTMessage) (body : bytes) : result MQTTMessage :=
  let* r := _decode_reason_and_props body in construct (cls r).

(** The [_DECODERS] table. *)
Definition decoder (packet_type : MQTTPacketType) (body : bytes) (flags : Z) : result MQTTMessage :=
  match packet_type with
  | CONNECT => _decode_connect body flags
  | CONNACK => _decode_connack body
  | PUBLISH => _decode_publish body flags
  | PUBACK => _decode_packet_id_ack Puback body
  | PUBREC => _decode_packet_id_ack Pubrec body
  | PUBREL => _decode_packet_id_ack Pubrel body
  | PUBCOMP => _decode_packet_id_ack Pubcomp body
  | SUBSCRIBE => _decode_subscribe body
  | SUBACK => decode_codes Suback body
  | UNSUBSCRIBE => _decode_unsubscribe body
  | UNSUBACK => decode_codes Unsuback body
  | PINGREQ => construct Pingreq
  | PINGRESP => construct Pingresp
  | DISCONNECT => _decode_reason_props_msg Disconnect body
  | AUTH => _decode_reason_props_msg Auth body
  end.

(** The fixed-header flags a packet type must carry; PUBLISH has its own. *)
Definition expected_flags (packet_type : MQTTPacketType) : Z :=
  match packet_type with
  | PUBREL | SUBSCRIBE | UNSUBSCRIBE => RESERVED_FLAGS_0010
  | _ => 0x00
  end.

(** [MQTTPacketType(extract_packet_type(first_byte))], under its [except]. *)
Definition decode_type (first_byte : Z) : result MQTTPacketType :=
  match (let* n := extract_packet_type first_byte in packet_type_of n) with
  | Ok p => Ok p
  | Raise e => if isa_ValueError e then Raise MQTTDecodeError else Raise e
  end.

Definition decode_packet (data : bytes) : result (MQTTMessage * Z) :=
  if zlen data <? 2 then Raise IncompletePacket
  else
    let* first_byte := zget data 0 in
    let* packet_type := decode_type first_byte in
    let flags := extract_flags first_byte in
    if negb (bool_decide (packet_type = PUBLISH)) && negb (flags =? expected_flags packet_type)
    then Raise MQTTDecodeError
    else
      let* '(remaining_length, rl_consumed) := decode_variable_byte_integer (slice_from data 1) in
      let header_len := 1 + rl_consumed in
      let total := header_len + remaining_length in
      if total >? zlen data then Raise IncompletePacket
      else
        let body := slice data header_len total in
        match decoder packet_type body flags with
        | Ok msg => Ok (msg, total)
        | Raise IncompletePacket => Raise MQTTDecodeError
        | Raise IndexError => Raise MQTTDecodeError
        | Raise e => Raise e
        end.

(** ** Framing: facts *)

Definition first_byte (pt : MQTTPacketType) (flags : Z) : Z :=
  Z.lor (Z.shiftl (type_code pt) 4) (Z.land flags 0x0F).

Lemma first_byte_fields pt flags :
  0 <= flags < 16 ->
  is_byte (first_byte pt flags) /\ decode_type (first_byte pt flags) = Ok pt /\
  extract_flags (first_byte pt flags) = flags.
Proof.
  intros Hf.
  set (P := fun f => bool_decide (is_byte (first_byte pt f)) &&
    match decode_type (first_byte pt f) with Ok q => bool_decide (q = pt) | _ => false end &&
    (extract_flags (first_byte pt f) =? f)).
  assert (P flags = true) as HP by (apply (range_forall 16); [by destruct pt; vm_compute|done]).
  unfold P in HP. rewrite !andb_true_iff in HP. destruct HP as ((H1%bool_decide_eq_true & H2) & H3%Z.eqb_eq).
  split_and!; [done| |done]. destruct (decode_type _); [|done]. by apply bool_decide_eq_true in H2 as ->.
Qed.

(** Decoding what [_frame] built hands the body to the type's decoder. *)
Lemma decode_frame pt flags body w rest msg :
  _frame pt flags body = Ok w -> 0 <= flags < 16 -> (pt = PUBLISH \/ flags = expected_flags pt) ->
  decoder pt body flags = Ok msg -> decode_packet (w ++ rest) = Ok (msg, zlen w).
Proof.
  intros He Hf Hfl Hd. destruct (first_byte_fields pt flags Hf) as (B1 & B2 & B3).
  unfold _frame in He. fold (first_byte pt flags) in He. rewrite byte1_Ok in He by done. cbn [rbind] in He.
  inv_ok. rename a into n. pose proof (encode_vbi_len _ _ Ha) as Hn.
  pose proof (zlen_nonneg body). pose proof (zlen_nonneg rest). cbn [app].
  set (data := first_byte pt flags :: (n ++ body) ++ rest).
  assert (zlen data = 1 + (zlen n + zlen body + zlen rest)) as Hl
    by (unfold data; rewrite zlen_cons, !zlen_app; lia).
  assert (At data 1 (n ++ body ++ rest)) as Hat.
  { exists [first_byte pt flags]. split; [|done]. unfold data. by rewrite <- app_assoc. }
  unfold decode_packet. rewrite (proj2 (Z.ltb_ge _ _)) by lia.
  change (zget data 0) with (Ok (first_byte pt flags)). cbn [rbind]. rewrite B2. cbn [rbind]. rewrite B3.
  assert (negb (bool_decide (pt = PUBLISH)) && negb (flags =? expected_flags pt) = false) as ->.
  { destruct Hfl as [-> | ->]; [done|]. by rewrite Z.eqb_refl, andb_false_r. }
  rewrite (At_slice_from _ _ _ Hat), (decode_encode_vbi _ _ _ Ha). cbn [rbind].
  rewrite Z.gtb_ltb, (proj2 (Z.ltb_ge _ _)) by lia.
  apply At_app in Hat. rewrite (At_slice _ _ _ _ _ Hat) by lia. rewrite Hd.
  rewrite zlen_cons, zlen_app. do 2 f_equal. lia.
Qed.

(** ** Round trips *)

(** A construction the wire can represent exactly: field values in the range
    of their field, and nothing set that the encoder does not write. *)
Definition connect_wf (m : MQTTConnect) : Prop :=
  5 <= proto_level m /\ props_ok (c_properties m) /\
  match password m with Some (SText _) => False | _ => True end /\
  match will_topic m with
  | Some _ => is_Some (will_payload m) /\ 0 <= will_qos m < 4 /\ props_ok (will_properties m)
  | None => will_payload m = None /\ will_qos m = 0 /\ will_retain m = false /\ will_properties m = []
  end.

Definition publish_wf (m : MQTTPublish) : Prop :=
  0 <= qos m < 4 /\ (qos m = 0 -> packet_id m = None) /\ props_ok (p_properties m).

Definition options_wf (sub : pystr * Z) (o : sub_options) : Prop :=
  0 <= sub.2 < 4 /\ so_qos o = sub.2 /\ 0 <= so_retain_handling o < 4.

Definition message_wf (m : MQTTMessage) : Prop :=
  match m with
  | Connect m => connect_wf m
  | Connack m => is_byte (ca_reason_code m) /\ props_ok (ca_properties m)
  | Publish m => publish_wf m
  | Puback m | Pubrec m | Pubrel m | Pubcomp m => is_byte (a_reason_code m) /\ props_ok (a_properties m)
  | Subscribe m => props_ok (s_properties m) /\
      exists opts, subscription_options m = Some opts /\ Forall2 options_wf (subscriptions m) opts
  | Suback m | Unsuback m => bytes_ok (reason_codes m) /\ props_ok (k_properties m)
  | Unsubscribe m => props_ok (u_properties m)
  | Pingreq | Pingresp => True
  | Disconnect m | Auth m => props_ok (r_properties m) /\
      match r_reason_code m with Some rc => is_byte rc | None => r_properties m = [] end
  end.

Lemma land_byte n : is_byte n -> Z.land n 0xFF = n.
Proof. intros. change 0xFF with (Z.ones 8). rewrite land_low by lia. by apply Z.mod_small. Qed.

Lemma to_bytes2 n l : to_bytes 2 n = Ok l -> zlen l = 2 /\ from_bytes l = n.
Proof. apply be2_len. Qed.

Lemma ack_roundtrip pt cls m w rest :
  decoder pt = (fun body _ => _decode_packet_id_ack cls body) -> post_init (cls m) = Ok tt ->
  expected_flags pt = (if bool_decide (pt = PUBREL) then RESERVED_FLAGS_0010 else 0) ->
  is_byte (a_reason_code m) -> props_ok (a_properties m) ->
  _encode_packet_id_ack pt m = Ok w -> decode_packet (w ++ rest) = Ok (cls m, zlen w).
Proof.
  intros Hdec Hpi Hfl Hrc Hps He. unfold _encode_packet_id_ack in He. inv_ok. rename a into pid, a0 into ps.
  eapply decode_frame; [done|by case_bool_decide|by right|].
  rewrite Hdec. rewrite land_byte by done. destruct (to_bytes2 _ _ Ha) as [H2 Hn].
  pose proof (encode_properties_len _ _ Ha0).
  unfold _decode_packet_id_ack. rewrite !zlen_app, zlen_cons, H2. change (zlen (@nil Z)) with 0.
  rewrite !Z.gtb_ltb, (proj2 (Z.ltb_lt _ _)), (proj2 (Z.ltb_lt 3 _)) by lia.
  set (body := pid ++ [a_reason_code m] ++ ps). pose proof (At_0 body) as Hat.
  rewrite (At_slice body 0 pid _ 2 Hat) by lia. apply At_app in Hat. rewrite H2 in Hat. change (0 + 2) with 2 in Hat. cbn [app] in Hat.
  rewrite (At_zget _ _ _ _ Hat). cbn [rbind]. apply At_cons in Hat. change (2 + 1) with 3 in Hat. rewrite <- (app_nil_r ps) in Hat.
  rewrite (decode_properties_at _ _ _ _ _ Ha0 Hps Hat). cbn [rbind].
  unfold construct. rewrite Hn. destruct m; cbn in *. by rewrite Hpi.
Qed.

Lemma codes_roundtrip pt cls m w rest :
  decoder pt = (fun body _ => decode_codes cls body) -> post_init (cls m) = Ok tt -> expected_flags pt = 0 ->
  bytes_ok (reason_codes m) -> props_ok (k_properties m) ->
  encode_codes pt m = Ok w -> decode_packet (w ++ rest) = Ok (cls m, zlen w).
Proof.
  intros Hdec Hpi Hfl Hrc Hps He. unfold encode_codes in He. inv_ok. rename a into pid, a0 into ps.
  eapply decode_frame; [done|lia|by right|]. rewrite Hdec. destruct (to_bytes2 _ _ Ha) as [H2 Hn].
  assert (((fun rc => Z.land rc 0xFF) <$> reason_codes m) = reason_codes m) as ->.
  { clear -Hrc. induction Hrc as [|x l Hx Hl IH]; [done|]. rewrite fmap_cons, IH. f_equal. by apply land_byte. }
  unfold decode_codes. set (body := pid ++ ps ++ reason_codes m). pose proof (At_0 body) as Hat.
  rewrite (At_slice body 0 pid _ 2 Hat) by lia. apply At_app in Hat. rewrite H2 in Hat. change (0 + 2) with 2 in Hat.
  rewrite (decode_properties_at _ _ _ _ _ Ha0 Hps Hat). cbn [rbind]. apply At_app in Hat.
  rewrite (At_slice_from _ _ _ Hat). unfold construct. rewrite Hn. destruct m; cbn in *. by rewrite Hpi.
Qed.

Lemma reason_roundtrip pt cls m w rest :
  decoder pt = (fun body _ => _decode_reason_props_msg cls body) -> post_init (cls m) = Ok tt ->
  expected_flags pt = 0 -> props_ok (r_properties m) ->
  match r_reason_code m with Some rc => is_byte rc | None => r_properties m = [] end ->
  _encode_reason_and_props pt m = Ok w -> decode_packet (w ++ rest) = Ok (cls m, zlen w).
Proof.
  intros Hdec Hpi Hfl Hps Hrc He. unfold _encode_reason_and_props in He. destruct m as [rc ps]; cbn in *.
  destruct rc as [rc|]; cbn [andb] in He.
  - rewrite bool_decide_false in He by done. cbn [andb default from_option id] in He. inv_ok. rename a into eps.
    eapply decode_frame; [done|lia|by right|]. rewrite Hdec, land_byte by done.
    unfold _decode_reason_props_msg, _decode_reason_and_props. cbn [app].
    pose proof (encode_properties_len _ _ Ha). rewrite zlen_cons.
    rewrite (proj2 (Z.eqb_neq _ _)), Z.gtb_ltb, (proj2 (Z.ltb_lt _ _)) by lia.
    pose proof (At_0 (rc :: eps)) as Hat. rewrite (At_zget _ _ _ _ Hat). cbn [rbind].
    apply At_cons in Hat. change (0 + 1) with 1 in Hat. rewrite <- (app_nil_r eps) in Hat at 2.
    rewrite (decode_properties_at _ _ _ _ _ Ha Hps Hat). cbn [rbind]. unfold construct. by rewrite Hpi.
  - subst ps. rewrite !bool_decide_true in He by done. cbn [andb] in He.
    eapply decode_frame; [done|lia|by right|]. rewrite Hdec.
    change (construct (cls (mkReason None [])) = Ok (cls (mkReason None []))). unfold construct. by rewrite Hpi.
Qed.

Lemma connack_roundtrip m w rest :
  is_byte (ca_reason_code m) -> props_ok (ca_properties m) ->
  _encode_connack m = Ok w -> decode_packet (w ++ rest) = Ok (Connack m, zlen w).
Proof.
  intros Hrc Hps He. unfold _encode_connack in He. inv_ok. rename a into ps.
  eapply decode_frame; [done|lia|by right|]. rewrite land_byte by done. cbn [decoder app].
  unfold _decode_connack. set (b0 := if session_present m then 1 else 0).
  pose proof (At_0 (b0 :: ca_reason_code m :: ps)) as Hat. rewrite (At_zget _ _ _ _ Hat). cbn [rbind].
  apply At_cons in Hat. change (0 + 1) with 1 in Hat. rewrite (At_zget _ _ _ _ Hat). cbn [rbind].
  apply At_cons in Hat. change (1 + 1) with 2 in Hat. rewrite <- (app_nil_r ps) in Hat at 2.
  rewrite (decode_properties_at _ _ _ _ _ Ha Hps Hat). cbn [rbind]. unfold construct, b0.
  by destruct m as [[] ? ?].
Qed.

(** The QoS, DUP and RETAIN bits come back. *)
Lemma publish_flags_fields m :
  0 <= qos m < 4 ->
  0 <= publish_flags m < 16 /\ decode_publish_flags (publish_flags m) = (qos m, dup m, retain m).
Proof.
  destruct m as [t p q i r d ps]; cbn [qos]. intros Hq. unfold publish_flags; cbn [qos dup retain].
  set (f := fun q => flag_if r RETAIN (flag_if d DUP (Z.shiftl (Z.land q PUBLISH_QOS_MASK) PUBLISH_QOS_SHIFT))).
  change (0 <= f q < 16 /\ decode_publish_flags (f q) = (q, d, r)).
  set (P := fun q => bool_decide (0 <= f q < 16) && bool_decide (decode_publish_flags (f q) = (q, d, r))).
  assert (P q = true) as HP by (apply (range_forall 4); [by destruct d, r; vm_compute|done]).
  unfold P in HP. rewrite andb_true_iff in HP. by destruct HP as [?%bool_decide_eq_true ?%bool_decide_eq_true].
Qed.

Lemma publish_roundtrip m w rest :
  publish_wf m -> publish_post_init m = Ok tt ->
  _encode_publish m = Ok w -> decode_packet (w ++ rest) = Ok (Publish m, zlen w).
Proof.
  intros (Hq & Hpid & Hps) Hpi He. unfold _encode_publish in He. inv_ok. rename a into t, a0 into pid, a1 into ps.
  destruct (publish_flags_fields m Hq) as [Hfl Hdf].
  eapply decode_frame; [done|done|by left|]. cbn [decoder]. unfold _decode_publish. rewrite Hdf.
  set (body := t ++ pid ++ ps ++ payload m). pose proof (At_0 body) as Hat.
  rewrite (decode_utf8_at _ _ _ _ _ Ha Hat). cbn [rbind]. apply At_app in Hat.
  assert ((if qos m >? 0 then (Some (from_bytes (slice body (0 + zlen t) (0 + zlen t + 2))), 0 + zlen t + 2)
           else (None, 0 + zlen t)) = (packet_id m, 0 + zlen t + zlen pid)) as ->.
  { rewrite Z.gtb_ltb in *. destruct (Z.ltb_spec 0 (qos m)).
    - destruct (to_bytes2 _ _ Ha0) as [H2 Hn]. rewrite (At_slice _ _ _ _ _ Hat) by lia. rewrite Hn, H2.
      unfold publish_post_init in Hpi. rewrite Z.gtb_ltb, (proj2 (Z.ltb_lt _ _)) in Hpi by done.
      destruct (packet_id m) eqn:E; [done|]. by rewrite bool_decide_true in Hpi.
    - injection Ha0 as <-. rewrite Hpid by lia. by rewrite Z.add_0_r. }
  apply At_app in Hat. rewrite (decode_properties_at _ _ _ _ _ Ha1 Hps Hat). cbn [rbind]. apply At_app in Hat.
  rewrite (At_slice_from _ _ _ Hat). unfold construct. destruct m; cbn in *. by rewrite Hpi.
Qed.

(** The options byte comes back. *)
Lemma options_byte_fields sub o :
  options_wf sub o ->
  let b := options_byte sub.2 (Some o) in
  Z.land b SUBSCRIPTION_QOS_MASK = sub.2 /\
  mkSubOptions (Z.land b SUBSCRIPTION_QOS_MASK) (truthy (Z.land b NO_LOCAL))
    (truthy (Z.land b RETAIN_AS_PUBLISHED))
    (Z.land (Z.shiftr b RETAIN_HANDLING_SHIFT) RETAIN_HANDLING_MASK) = o.
Proof.
  destruct sub as [tf q], o as [oq nl rap rh]. unfold options_wf. cbn [fst snd so_qos so_retain_handling].
  intros (Hq & -> & Hrh).
  set (P := fun q rh => let b := options_byte q (Some (mkSubOptions q nl rap rh)) in
    (Z.land b SUBSCRIPTION_QOS_MASK =? q) && Bool.eqb (truthy (Z.land b NO_LOCAL)) nl &&
    Bool.eqb (truthy (Z.land b RETAIN_AS_PUBLISHED)) rap &&
    (Z.land (Z.shiftr b RETAIN_HANDLING_SHIFT) RETAIN_HANDLING_MASK =? rh)).
  assert (P q rh = true) as HP.
  { apply (range_forall 4 (fun q => P q rh)); [|done].
    assert (forall q, 0 <= q < 4 -> P q rh = true) as H.
    { intros q' Hq'. apply (range_forall 4 (P q')); [|done].
      apply (range_forall 4 (fun q => forallb (P q) (Z.of_nat <$> seq 0 4))); [|done].
      by destruct nl, rap; vm_compute. }
    apply forallb_forall. intros x Hx%list_elem_of_In. apply list_elem_of_fmap in Hx as (k & -> & Hk%elem_of_seq).
    apply H. lia. }
  unfold P in HP. cbv zeta in *. rewrite !andb_true_iff in HP.
  destruct HP as (((H1%Z.eqb_eq & H2%eqb_prop) & H3%eqb_prop) & H4%Z.eqb_eq). by rewrite H1, H2, H3, H4.
Qed.

Lemma decode_subscriptions_at body subs opts :
  Forall2 options_wf subs opts -> forall w pos fuel,
  encode_subscriptions subs opts = Ok w -> At body pos w -> zlen w <= Z.of_nat fuel ->
  decode_subscriptions fuel body pos = Ok (subs, opts).
Proof.
  induction 1 as [|[tf q] o subs opts Ho Hos IH]; intros w pos fuel He Hat Hf; cbn [encode_subscriptions] in He.
  - injection He as <-. destruct (At_len _ _ _ Hat) as [Hl _]. change (zlen (@nil Z)) with 0 in Hl.
    destruct fuel; cbn [decode_subscriptions]; by rewrite (proj2 (Z.ltb_ge _ _)) by lia.
  - change (head (o :: opts)) with (Some o) in He. cbn [tail] in He. inv_ok. rename a into t, a0 into r. pose proof (encode_utf8_len _ _ Ha).
    destruct (At_len _ _ _ Hat) as [Hl _]. rewrite !zlen_app, zlen_cons in *.
    change (zlen (@nil Z)) with 0 in *. pose proof (zlen_nonneg r).
    destruct fuel as [|fuel]; [lia|]. cbn [decode_subscriptions]. rewrite (proj2 (Z.ltb_lt _ _)) by lia.
    rewrite (decode_utf8_at _ _ _ _ _ Ha Hat). cbn [rbind]. apply At_app in Hat. cbn [app] in Hat.
    rewrite (At_zget _ _ _ _ Hat). cbn [rbind]. apply At_cons in Hat.
    rewrite (IH r _ fuel Ha0 Hat) by lia. cbn [rbind].
    destruct (options_byte_fields (tf, q) o Ho) as [H1 H2]. cbn [snd] in *. rewrite H2, H1. done.
Qed.

Lemma subscribe_roundtrip m w rest opts :
  props_ok (s_properties m) -> subscription_options m = Some opts -> Forall2 options_wf (subscriptions m) opts ->
  _encode_subscribe m = Ok w -> decode_packet (w ++ rest) = Ok (Subscribe m, zlen w).
Proof.
  intros Hps Ho Hopts He. unfold _encode_subscribe in He. rewrite Ho in He. cbn [default] in He. inv_ok.
  rename a into n, a0 into pid, a1 into ps, a2 into subs.
  eapply decode_frame; [done|by unfold RESERVED_FLAGS_0010|by right|]. cbn [decoder].
  destruct (to_bytes2 _ _ Ha0) as [H2 Hn].
  unfold _decode_subscribe. set (body := pid ++ ps ++ subs). pose proof (At_0 body) as Hat.
  rewrite (At_slice body 0 pid _ 2 Hat) by lia. apply At_app in Hat. rewrite H2 in Hat. change (0 + 2) with 2 in Hat.
  rewrite (decode_properties_at _ _ _ _ _ Ha1 Hps Hat). cbn [rbind]. apply At_app in Hat.
  rewrite (decode_subscriptions_at body _ _ Hopts subs _ _ Ha2 Hat)
    by (fold (zlen body); unfold body; rewrite !zlen_app; pose proof (zlen_nonneg pid); pose proof (zlen_nonneg ps); lia).
  cbn [rbind]. unfold construct. rewrite Hn. destruct m as [i s p o]; cbn in *. destruct i; [|done].
  injection Ha as ->. by subst.
Qed.

Lemma decode_topics_at body ts : forall w pos fuel,
  encode_topics ts = Ok w -> At body pos w -> zlen w <= Z.of_nat fuel -> decode_topics fuel body pos = Ok ts.
Proof.
  induction ts as [|t ts IH]; intros w pos fuel He Hat Hf; cbn [encode_topics] in He; inv_ok.
  - destruct (At_len _ _ _ Hat) as [Hl _]. change (zlen (@nil Z)) with 0 in Hl.
    destruct fuel; cbn [decode_topics]; by rewrite (proj2 (Z.ltb_ge _ _)) by lia.
  - rename a into et, a0 into r. pose proof (encode_utf8_len _ _ Ha).
    destruct (At_len _ _ _ Hat) as [Hl _]. rewrite !zlen_app in *. pose proof (zlen_nonneg r).
    destruct fuel as [|fuel]; [lia|]. cbn [decode_topics]. rewrite (proj2 (Z.ltb_lt _ _)) by lia.
    rewrite (decode_utf8_at _ _ _ _ _ Ha Hat). cbn [rbind]. apply At_app in Hat.
    rewrite (IH r _ fuel Ha0 Hat) by lia. done.
Qed.

Lemma unsubscribe_roundtrip m w rest :
  props_ok (u_properties m) -> _encode_unsubscribe m = Ok w ->
  decode_packet (w ++ rest) = Ok (Unsubscribe m, zlen w).
Proof.
  intros Hps He. unfold _encode_unsubscribe in He. inv_ok.
  rename a into n, a0 into pid, a1 into ps, a2 into ts.
  eapply decode_frame; [done|by unfold RESERVED_FLAGS_0010|by right|]. cbn [decoder].
  destruct (to_bytes2 _ _ Ha0) as [H2 Hn].
  unfold _decode_unsubscribe. set (body := pid ++ ps ++ ts). pose proof (At_0 body) as Hat.
  rewrite (At_slice body 0 pid _ 2 Hat) by lia. apply At_app in Hat. rewrite H2 in Hat. change (0 + 2) with 2 in Hat.
  rewrite (decode_properties_at _ _ _ _ _ Ha1 Hps Hat). cbn [rbind]. apply At_app in Hat.
  rewrite (decode_topics_at body _ ts _ _ Ha2 Hat)
    by (fold (zlen body); unfold body; rewrite !zlen_app; pose proof (zlen_nonneg pid); pose proof (zlen_nonneg ps); lia).
  cbn [rbind]. unfold construct. rewrite Hn. destruct m as [i t p]; cbn in *. destruct i; [|done].
  by injection Ha as ->.
Qed.

(** The connect flags come back. *)
Definition connect_flag_bits (cs wf wr pw un : bool) (q : Z) : Z :=
  let flags := flag_if cs CLEAN_START 0 in
  let flags := if wf then flag_if wr WILL_RETAIN
      (Z.lor (Z.lor flags WILL_FLAG) (Z.shiftl (Z.land q WILL_QOS_MASK) WILL_QOS_SHIFT)) else flags in
  flag_if un USERNAME (flag_if pw PASSWORD flags).

Lemma connect_flag_fields cs wf wr pw un q :
  0 <= q < 4 -> (wf = false -> wr = false /\ q = 0) ->
  let f := connect_flag_bits cs wf wr pw un q in
  is_byte f /\ truthy (Z.land f CLEAN_START) = cs /\ truthy (Z.land f WILL_FLAG) = wf /\
  Z.land (Z.shiftr f WILL_QOS_SHIFT) WILL_QOS_MASK = q /\ truthy (Z.land f WILL_RETAIN) = wr /\
  truthy (Z.land f PASSWORD) = pw /\ truthy (Z.land f USERNAME) = un.
Proof.
  intros Hq Hwf.
  set (P := fun q => let f := connect_flag_bits cs wf wr pw un q in
    negb (wf || (negb wr && (q =? 0))) || (bool_decide (is_byte f) && Bool.eqb (truthy (Z.land f CLEAN_START)) cs &&
    Bool.eqb (truthy (Z.land f WILL_FLAG)) wf && (Z.land (Z.shiftr f WILL_QOS_SHIFT) WILL_QOS_MASK =? q) &&
    Bool.eqb (truthy (Z.land f WILL_RETAIN)) wr && Bool.eqb (truthy (Z.land f PASSWORD)) pw &&
    Bool.eqb (truthy (Z.land f USERNAME)) un)).
  assert (P q = true) as HP
    by (apply (range_forall 4); [by destruct cs, wf, wr, pw, un; vm_compute|done]).
  unfold P in HP. cbv zeta in *. rewrite orb_true_iff, !andb_true_iff, negb_true_iff in HP.
  destruct HP as [Hbad|((((((H1%bool_decide_eq_true & H2%eqb_prop) & H3%eqb_prop) & H4%Z.eqb_eq) & H5%eqb_prop)
    & H6%eqb_prop) & H7%eqb_prop)]; [|done].
  destruct wf; [done|]. destruct Hwf as [-> ->]; done.
Qed.

Lemma connect_flags_bits m :
  connect_flags m = connect_flag_bits (clean_start m) (bool_decide (is_Some (will_topic m))) (will_retain m)
    (bool_decide (is_Some (password m))) (bool_decide (is_Some (username m))) (will_qos m).
Proof. unfold connect_flags, connect_flag_bits. by destruct (will_topic m). Qed.

Lemma decode_props_if_at data pos ps w rest level :
  5 <= level -> encode_properties ps = Ok w -> props_ok ps -> At data pos (w ++ rest) ->
  decode_props_if (level >=? 5) data pos = Ok (ps, pos + zlen w).
Proof.
  intros Hl He Hps Hat. unfold decode_props_if. rewrite Z.geb_leb, (proj2 (Z.leb_le _ _)) by lia.
  by rewrite (decode_properties_at _ _ _ _ _ He Hps Hat).
Qed.

Lemma decode_will_at m data pos w rest :
  connect_wf m -> encode_opt (encode_will m) (will_topic m) = Ok w -> At data pos (w ++ rest) ->
  decode_will (bool_decide (is_Some (will_topic m))) (proto_level m) data pos
  = Ok (will_properties m, will_topic m, will_payload m, pos + zlen w).
Proof.
  intros (Hl & _ & _ & Hw) He Hat. destruct (will_topic m) as [t|]; cbn [encode_opt] in He.
  - destruct Hw as ([p Hp] & _ & Hwp). unfold encode_will in He. rewrite Hp in He. cbn [default] in He. inv_ok.
    rename a into ewp, a0 into et, a1 into ep. rewrite bool_decide_true by eauto. cbn [decode_will].
    rewrite <- !app_assoc in Hat. rewrite (decode_props_if_at _ _ _ _ _ _ Hl Ha Hwp Hat). cbn [rbind].
    apply At_app in Hat. rewrite (decode_utf8_at _ _ _ _ _ Ha0 Hat). cbn [rbind].
    apply At_app in Hat. rewrite (decode_binary_at _ _ _ _ _ Ha1 Hat). cbn [rbind].
    rewrite Hp, !zlen_app. do 2 f_equal. lia.
  - injection He as <-. destruct Hw as (-> & _ & _ & ->). rewrite bool_decide_false by (by intros []).
    cbn [decode_will]. change (zlen (@nil Z)) with 0. by rewrite Z.add_0_r.
Qed.

Lemma decode_if_at {A} (enc : A -> result bytes) dec data pos x w rest :
  (forall a w rest pos, enc a = Ok w -> At data pos (w ++ rest) -> dec data pos = Ok (a, pos + zlen w)) ->
  encode_opt enc x = Ok w -> At data pos (w ++ rest) ->
  decode_if (bool_decide (is_Some x)) dec data pos = Ok (x, pos + zlen w).
Proof.
  intros Hdec He Hat. destruct x as [a|]; cbn [encode_opt] in He.
  - rewrite bool_decide_true by eauto. cbn [decode_if]. by rewrite (Hdec _ _ _ _ He Hat).
  - injection He as <-. rewrite bool_decide_false by (by intros []). cbn [decode_if].
    change (zlen (@nil Z)) with 0. by rewrite Z.add_0_r.
Qed.

Lemma connect_roundtrip m w rest :
  connect_wf m -> connect_post_init m = Ok tt ->
  _encode_connect m = Ok w -> decode_packet (w ++ rest) = Ok (Connect m, zlen w).
Proof.
  intros Hwf Hpi He. pose proof Hwf as (Hl & Hps & Hpw & Hwill). unfold _encode_connect in He. inv_ok.
  rename a into name, a0 into lv, a1 into fl, a2 into ka, a3 into ps, a4 into cid, a5 into will, a6 into user,
    a7 into pw.
  eapply decode_frame; [done|lia|by right|]. cbn [decoder]. unfold _decode_connect.
  unfold byte1 in Ha0, Ha1. repeat case_bool_decide; try done. injection Ha0 as <-. injection Ha1 as <-.
  destruct (to_bytes2 _ _ Ha2) as [H2 Hn].
  set (body := name ++ _). pose proof (At_0 body) as Hat.
  rewrite (decode_utf8_at _ _ _ _ _ Ha Hat). cbn [rbind]. apply At_app in Hat. cbn [app] in Hat.
  destruct (At_len _ _ _ Hat) as [Hlen _]. rewrite !zlen_cons, !zlen_app in Hlen.
  pose proof (encode_properties_len _ _ Ha3). pose proof (zlen_nonneg (cid ++ will ++ user ++ pw)) as Hz.
  rewrite !zlen_app in Hz. rewrite Z.gtb_ltb, (proj2 (Z.ltb_ge _ _)) by lia.
  rewrite (At_zget _ _ _ _ Hat). cbn [rbind]. apply At_cons in Hat.
  rewrite (At_zget _ _ _ _ Hat). cbn [rbind]. apply At_cons in Hat.
  assert (0 <= will_qos m < 4 /\ (bool_decide (is_Some (will_topic m)) = false -> will_retain m = false /\ will_qos m = 0))
    as [Hq Hnw].
  { destruct (will_topic m); [|naive_solver lia]. by destruct Hwill as (_ & ? & _). }
  rewrite connect_flags_bits.
  destruct (connect_flag_fields (clean_start m) _ _ (bool_decide (is_Some (password m)))
    (bool_decide (is_Some (username m))) _ Hq Hnw) as (_ & -> & -> & -> & -> & -> & ->).
  rewrite (At_slice _ _ _ _ _ Hat) by lia. rewrite Hn. apply At_app in Hat. rewrite H2 in Hat.
  rewrite (decode_props_if_at _ _ _ _ _ _ Hl Ha3 Hps Hat). cbn [rbind]. apply At_app in Hat.
  rewrite (decode_utf8_at _ _ _ _ _ Ha4 Hat). cbn [rbind]. apply At_app in Hat.
  rewrite (decode_will_at _ _ _ _ _ Hwf Ha5 Hat). cbn [rbind]. apply At_app in Hat.
  rewrite (decode_if_at _encode_utf8 _ _ _ _ _ _ (fun a w r p => decode_utf8_at body p a w r) Ha6 Hat).
  cbn [rbind]. apply At_app in Hat. rewrite <- (app_nil_r pw) in Hat.
  assert (exists b, password m = SBytes <$> b /\ encode_opt _encode_binary b = Ok pw) as (b & Hb & Hpw').
  { destruct (password m) as [[b|]|]; [by exists (Some b)|done|by exists None]. }
  assert (bool_decide (is_Some (password m)) = bool_decide (is_Some b)) as -> by (rewrite Hb; by destruct b).
  rewrite (decode_if_at _encode_binary _ _ _ _ _ _ (fun a w r p => decode_binary_at body p a w r) Hpw' Hat).
  cbn [rbind]. rewrite <- Hb. unfold construct. destruct m; cbn in *. by rewrite Hpi.
Qed.

(** ** What a decoder may raise *)

(** The exceptions a body decoder raises on malformed contents. *)
Definition malformed (e : exn) : Prop := e = IncompletePacket \/ e = IndexError \/ isa_ValueError e = true.

(** [spec Q m]: [m] gives a value in [Q] or fails as malformed. *)
Definition spec {A} (Q : A -> Prop) (m : result A) : Prop :=
  match m with Ok a => Q a | Raise e => malformed e end.

Lemma spec_bind {A B} (Q : A -> Prop) (R : B -> Prop) m k :
  spec Q m -> (forall a, Q a -> spec R (k a)) -> spec R (rbind m k).
Proof. destruct m; simpl; auto. Qed.

Lemma spec_weaken {A} (Q R : A -> Prop) m : spec Q m -> (forall a, Q a -> R a) -> spec R m.
Proof. destruct m; simpl; auto. Qed.

Ltac bad := first [by left | by right; left | by right; right].

Lemma spec_zget (l : bytes) i : spec (fun _ => True) (zget l i).
Proof. unfold zget. case_match; simpl; [done|bad]. Qed.

Lemma spec_vbi l :
  bytes_ok l -> spec (fun '(v, c) => 0 <= v /\ 1 <= c) (decode_variable_byte_integer l).
Proof.
  intros Hl. destruct (decode_variable_byte_integer l) as [[v c]|e] eqn:E; simpl.
  - pose proof (decode_vbi_bounds _ _ _ Hl E). lia.
  - destruct (decode_vbi_loop_err _ _ _ _ _ E) as [-> | ->]; bad.
Qed.

Lemma spec_binary data pos : bytes_ok data -> spec (fun '(_, p) => pos + 2 <= p) (_decode_binary data pos).
Proof.
  intros Hd. unfold _decode_binary. case_match; [bad|]. case_match; [bad|]. simpl.
  pose proof (from_bytes_nonneg _ (bytes_ok_slice data pos (pos + 2) Hd)). lia.
Qed.

Lemma spec_utf8 data pos : bytes_ok data -> spec (fun '(_, p) => pos + 2 <= p) (_decode_utf8 data pos).
Proof.
  intros Hd. pose proof (spec_binary data pos Hd) as Hb. unfold _decode_utf8, _decode_binary in *.
  repeat (case_match; [done|]). simpl in *. destruct (utf8_decode _) as [t|e] eqn:E; simpl; [done|].
  apply utf8_decode_error in E as ->. bad.
Qed.

Lemma spec_wire wt d p e :
  bytes_ok d -> spec (fun '(_, q) => p <= q) (wire_decode wt d p e).
Proof.
  intros Hd. destruct wt; cbn [wire_decode].
  - eapply spec_bind; [apply spec_zget|]. intros b _. simpl. lia.
  - simpl. lia.
  - simpl. lia.
  - unfold _decode_vbi_at. rewrite rbind_assoc.
    eapply spec_bind; [by apply spec_vbi, bytes_ok_slice|]. intros [v c] Hc. simpl. lia.
  - eapply spec_bind; [by apply spec_utf8|]. intros [v c] Hc. simpl. lia.
  - eapply spec_bind; [by apply spec_binary|]. intros [v c] Hc. simpl. lia.
  - bad.
Qed.

Definition user_key : string := "user_properties"%string.

(** Only user properties are pairs. *)
Lemma pair_key pid key wt : dget _PROP_BY_ID pid = Some (key, wt) -> wt = _PAIR <-> key = user_key.
Proof.
  intros H%dget_elem. apply (bool_decide_eq_true_1 (wt = _PAIR <-> key = user_key)).
  assert (Forall (fun '(pid, (key, wt)) => bool_decide (wt = _PAIR <-> key = user_key) = true) _PROP_BY_ID) as Hf
    by (repeat constructor).
  rewrite Forall_forall in Hf. apply (Hf _ H).
Qed.

(** The value under the user property key is a list of pairs. *)
Definition pairs_typed (ps : props) : Prop :=
  forall v, dget ps user_key = Some v -> exists l, v = PPairs l.

Lemma spec_props_loop fuel data pos end_ ps :
  bytes_ok data -> pairs_typed ps -> end_ - pos <= Z.of_nat fuel ->
  spec (fun _ => True) (decode_props_loop fuel data pos end_ ps).
Proof.
  intros Hd. revert pos ps. induction fuel as [|fuel IH]; intros pos ps Hps Hf; cbn [decode_props_loop];
    destruct (Z.ltb_spec pos end_) as [Hlt|Hge]; try done; [lia|].
  eapply spec_bind; [apply spec_zget|]. intros pid _.
  destruct (dget _PROP_BY_ID pid) as [[key wt]|] eqn:E; [|bad]. apply pair_key in E.
  destruct (decide (wt = _PAIR)) as [->|Hwt].
  - eapply spec_bind; [by apply spec_utf8|]. intros [k p1] H1. cbv beta iota in H1.
    eapply spec_bind; [by apply spec_utf8|]. intros [v p2] H2. cbv beta iota in H2.
    destruct E as [E _]. rewrite (E eq_refl). unfold add_pair.
    destruct (dget ps user_key) as [old|] eqn:Eu.
    + destruct (Hps old Eu) as [l ->]. cbn [rbind]. apply IH; [|lia].
      intros x. rewrite dget_dset_eq. intros [= <-]. eauto.
    + cbn [rbind]. apply IH; [|lia]. intros x. rewrite dget_dset_eq. intros [= <-]. eauto.
  - assert (spec (fun _ => True) (let* '(v, pos0) := wire_decode wt data (pos + 1) end_ in
      decode_props_loop fuel data pos0 end_ (dset ps key v))) as Hs.
    { eapply spec_bind; [by apply spec_wire|]. intros [v p1] H1. cbv beta iota in *. apply IH; [|lia].
      intros x. rewrite dget_dset_ne; [apply Hps|]. intros ->. apply Hwt. by apply E. }
    by destruct wt.
Qed.

Lemma spec_properties data offset :
  bytes_ok data -> spec (fun '(_, c) => 1 <= c) (decode_properties data offset).
Proof.
  intros Hd. unfold decode_properties. eapply spec_bind; [by apply spec_vbi, bytes_ok_drop|].
  intros [n c] [Hn Hc]. case_match; [bad|]. eapply spec_bind; [apply spec_props_loop; [done|done|lia]|].
  intros ps _. simpl. lia.
Qed.

Lemma spec_construct m : spec (fun _ => True) (construct m).
Proof.
  unfold construct. destruct m; simpl; try done;
    unfold connect_post_init, publish_post_init, subscribe_post_init, unsubscribe_post_init;
    repeat case_match; simpl; done || bad.
Qed.

Lemma spec_subscriptions fuel body pos :
  bytes_ok body -> zlen body - pos <= Z.of_nat fuel -> spec (fun _ => True) (decode_subscriptions fuel body pos).
Proof.
  intros Hd. revert pos. induction fuel as [|fuel IH]; intros pos Hf; cbn [decode_subscriptions];
    destruct (Z.ltb_spec pos (zlen body)); try done; [lia|].
  eapply spec_bind; [by apply spec_utf8|]. intros [t p1] H1. cbv beta iota in *.
  eapply spec_bind; [apply spec_zget|]. intros o _.
  eapply spec_bind; [apply IH; lia|]. by intros [subs opts] _.
Qed.

Lemma spec_topics fuel body pos :
  bytes_ok body -> zlen body - pos <= Z.of_nat fuel -> spec (fun _ => True) (decode_topics fuel body pos).
Proof.
  intros Hd. revert pos. induction fuel as [|fuel IH]; intros pos Hf; cbn [decode_topics];
    destruct (Z.ltb_spec pos (zlen body)); try done; [lia|].
  eapply spec_bind; [by apply spec_utf8|]. intros [t p1] H1. cbv beta iota in *.
  eapply spec_bind; [apply IH; lia|]. done.
Qed.

#[local] Hint Resolve spec_zget spec_utf8 spec_binary spec_properties spec_construct : core.

(** Walk through the binds of a decoder. *)
Ltac spec_walk :=
  repeat match goal with
  | |- spec _ (rbind _ _) => eapply spec_bind; [solve [eauto]|]; intros ? ?
  | |- spec _ (construct _) => apply spec_construct
  | |- spec _ (match ?x with (_, _) => _ end) => destruct x
  | |- spec _ (if ?b then _ else _) => destruct b
  | |- spec _ (Raise _) => bad
  end.

Lemma spec_props_if b body pos :
  bytes_ok body -> spec (fun _ => True) (decode_props_if b body pos).
Proof. intros Hb. unfold decode_props_if. spec_walk; done. Qed.

Lemma spec_will b lv body pos : bytes_ok body -> spec (fun _ => True) (decode_will b lv body pos).
Proof.
  intros Hb. unfold decode_will. pose proof spec_props_if. spec_walk; done.
Qed.

Lemma spec_if {A} b (dec : bytes -> Z -> result (A * Z)) (Q : A * Z -> Prop) body pos :
  spec Q (dec body pos) -> spec (fun _ => True) (decode_if b dec body pos).
Proof. intros Hd. unfold decode_if. spec_walk; done. Qed.

Lemma spec_connect body flags : bytes_ok body -> spec (fun _ => True) (_decode_connect body flags).
Proof.
  intros Hb. pose proof spec_props_if. pose proof spec_will.
  assert (forall b pos, spec (fun _ => True) (decode_if b _decode_utf8 body pos)) by (intros; eapply spec_if; eauto).
  assert (forall b pos, spec (fun _ => True) (decode_if b _decode_binary body pos)) by (intros; eapply spec_if; eauto).
  unfold _decode_connect. spec_walk.
Qed.

Lemma spec_subscribe body : bytes_ok body -> spec (fun _ => True) (_decode_subscribe body).
Proof.
  intros Hb. unfold _decode_subscribe. eapply spec_bind; [eauto|]. intros [ps c] Hc. cbv beta iota in Hc.
  eapply spec_bind; [apply spec_subscriptions; [done|unfold zlen; lia]|]. intros [? ?] _. apply spec_construct.
Qed.

Lemma spec_unsubscribe body : bytes_ok body -> spec (fun _ => True) (_decode_unsubscribe body).
Proof.
  intros Hb. unfold _decode_unsubscribe. eapply spec_bind; [eauto|]. intros [ps c] Hc. cbv beta iota in Hc.
  eapply spec_bind; [apply spec_topics; [done|unfold zlen; lia]|]. intros ? _. apply spec_construct.
Qed.

Lemma spec_reason cls body : bytes_ok body -> spec (fun _ => True) (_decode_reason_props_msg cls body).
Proof.
  intros Hb. unfold _decode_reason_props_msg, _decode_reason_and_props.
  eapply (spec_bind (fun _ => True)); [spec_walk; done|]. eauto.
Qed.

Lemma spec_decoder pt body flags : bytes_ok body -> spec (fun _ => True) (decoder pt body flags).
Proof.
  intros Hb. destruct pt; cbn [decoder];
    eauto using spec_construct, spec_connect, spec_subscribe, spec_unsubscribe, spec_reason;
    unfold _decode_connack, _decode_publish, _decode_packet_id_ack, decode_codes; spec_walk; done.
Qed.

Lemma packet_type_err n e : packet_type_of n = Raise e -> e = ValueError.
Proof. unfold packet_type_of. repeat case_match; naive_solver. Qed.

Lemma decode_type_err b e : decode_type b = Raise e -> e = MQTTDecodeError.
Proof.
  unfold decode_type, extract_packet_type. destruct (_ =? 0); cbn [rbind isa_ValueError]; [by intros [= <-]|].
  destruct (packet_type_of _) as [p|e'] eqn:E; [done|]. apply packet_type_err in E as ->. by intros [= <-].
Qed.

(** ** Stability and size *)

(** Reading inside [l] does not see what follows it. *)
Lemma slice_prefix {A} (l more : list A) a b :
  0 <= a -> b <= zlen l -> slice (l ++ more) a b = slice l a b.
Proof.
  intros Ha Hb. unfold slice. destruct (Z.le_gt_cases a (zlen l)) as [Hle|Hgt].
  - rewrite drop_app_le by (unfold zlen in *; lia). apply take_app_le. unfold zlen in *. rewrite length_drop. lia.
  - replace (Z.to_nat (b - a)) with 0%nat by lia. done.
Qed.

Lemma zget_app_l {A} (l more : list A) i : 0 <= i < zlen l -> zget (l ++ more) i = zget l i.
Proof. intros H. unfold zget. rewrite lookup_app_l; [done|]. unfold zlen in H. lia. Qed.

Lemma slice_from_prefix {A} (l more : list A) a :
  a <= zlen l -> slice_from (l ++ more) a = slice_from l a ++ more.
Proof. intros Ha. unfold slice_from. apply drop_app_le. unfold zlen in Ha. lia. Qed.

Lemma decode_packet_stable_lemma data more :
  bytes_ok data -> decode_packet data <> Raise IncompletePacket ->
  decode_packet (data ++ more) = decode_packet data.
Proof.
  intros Hok. unfold decode_packet. rewrite zlen_app. pose proof (zlen_nonneg more).
  destruct (Z.ltb_spec (zlen data) 2) as [|H2]; [done|]. rewrite (proj2 (Z.ltb_ge _ 2)) by lia.
  rewrite zget_app_l by lia. destruct (zget data 0) as [fb|e]; [|done]. cbn [rbind].
  destruct (decode_type fb) as [pt|e]; [|done]. cbn [rbind].
  case_match; [done|]. rewrite slice_from_prefix by lia.
  destruct (decode_variable_byte_integer (slice_from data 1)) as [[rl c]|e] eqn:E.
  - rewrite decode_vbi_stable, E by (by rewrite E). cbn [rbind].
    pose proof (decode_vbi_bounds _ _ _ (bytes_ok_drop _ _ Hok : bytes_ok (slice_from data 1)) E).
    rewrite !Z.gtb_ltb. destruct (Z.ltb_spec (zlen data) (1 + c + rl)); [done|].
    rewrite (proj2 (Z.ltb_ge _ _)) by lia. by rewrite slice_prefix by lia.
  - cbn [rbind]. intros Hne. rewrite decode_vbi_stable, E; [done|]. rewrite E. intros [= ->]. done.
Qed.

Lemma decode_packet_bounds data m n :
  bytes_ok data -> decode_packet data = Ok (m, n) -> 2 <= n <= zlen data.
Proof.
  intros Hok. unfold decode_packet. destruct (Z.ltb_spec (zlen data) 2) as [|H2]; [done|].
  destruct (zget data 0) as [fb|e]; [|done]. cbn [rbind]. destruct (decode_type fb) as [pt|e]; [|done]. cbn [rbind].
  case_match; [done|].
  destruct (decode_variable_byte_integer (slice_from data 1)) as [[rl c]|e] eqn:E; [|done]. cbn [rbind].
  pose proof (decode_vbi_bounds _ _ _ (bytes_ok_drop _ _ Hok : bytes_ok (slice_from data 1)) E).
  rewrite Z.gtb_ltb. destruct (Z.ltb_spec (zlen data) (1 + c + rl)); [done|].
  repeat case_match; intros; simplify_eq; lia.
Qed.

Lemma decode_packet_err data e :
  bytes_ok data -> decode_packet data = Raise e -> e = IncompletePacket \/ isa_ValueError e = true.
Proof.
  intros Hok. unfold decode_packet. destruct (Z.ltb_spec (zlen data) 2) as [|H2]; [naive_solver|].
  destruct (zget_lt data 0 ltac:(lia)) as [fb ->]. cbn [rbind].
  destruct (decode_type fb) as [pt|e'] eqn:Et; cbn [rbind].
  2: { apply decode_type_err in Et as ->. naive_solver. }
  case_match; [naive_solver|].
  destruct (decode_variable_byte_integer (slice_from data 1)) as [[rl c]|e'] eqn:E; cbn [rbind].
  2: { destruct (decode_vbi_loop_err _ _ _ _ _ E) as [-> | ->]; naive_solver. }
  case_match; [naive_solver|].
  pose proof (spec_decoder pt (slice data (1 + c) (1 + c + rl)) (extract_flags fb)
    (bytes_ok_slice _ _ _ Hok)) as Hs.
  destruct (decoder _ _ _) as [m|e'']; [done|]. simpl in Hs.
  destruct Hs as [-> | [-> | Hs]]; [naive_solver..|]. destruct e''; naive_solver.
Qed.

(** ** Properties *)

Lemma encode_decode_lemma m w rest :
  message_wf m -> post_init m = Ok tt -> encode_packet m = Ok w -> decode_packet (w ++ rest) = Ok (m, zlen w).
Proof.
  destruct m; cbn [message_wf post_init encode_packet]; intros Hwf Hpi He.
  - by apply connect_roundtrip.
  - by apply connack_roundtrip; destruct Hwf.
  - by apply publish_roundtrip.
  - by destruct Hwf; apply (ack_roundtrip PUBACK Puback).
  - by destruct Hwf; apply (ack_roundtrip PUBREC Pubrec).
  - by destruct Hwf; apply (ack_roundtrip PUBREL Pubrel).
  - by destruct Hwf; apply (ack_roundtrip PUBCOMP Pubcomp).
  - by destruct Hwf as (Hps & opts & Ho & Hopts); eapply subscribe_roundtrip.
  - by destruct Hwf; apply (codes_roundtrip SUBACK Suback).
  - by apply unsubscribe_roundtrip.
  - by destruct Hwf; apply (codes_roundtrip UNSUBACK Unsuback).
  - eapply (decode_frame PINGREQ 0 []); [done|lia|by right|done].
  - eapply (decode_frame PINGRESP 0 []); [done|lia|by right|done].
  - by destruct Hwf; apply (reason_roundtrip DISCONNECT Disconnect).
  - by destruct Hwf; apply (reason_roundtrip AUTH Auth).
Qed.

(** C31: control packet round trip.  For each of the fifteen packet types,
    decoding what [encode_packet] produced for a constructible message whose
    fields the wire can represent gives back that very message and the exact
    number of bytes, whatever follows in the buffer. *)
Theorem decode_encode_packet m w rest :
  message_wf m -> post_init m = Ok tt -> encode_packet m = Ok w ->
  decode_packet (w ++ rest) = Ok (m, zlen w).
Proof. apply encode_decode_lemma. Qed.

Definition sample_publish : MQTTMessage :=
  Publish (mkPublish (lit "a/b") [1; 2] 1 (Some 7) true false
    [("message_expiry_interval", PInt 60); ("user_properties", PPairs [(lit "k", lit "v")])]%string).

Lemma decode_encode_packet_witness :
  exists w, encode_packet sample_publish = Ok w /\ decode_packet (w ++ [0]) = Ok (sample_publish, 24).
Proof.
  eexists. split; [vm_compute; reflexivity|].
  match goal with |- decode_packet (?w ++ _) = _ => apply (decode_encode_packet sample_publish w [0]) end;
    [|reflexivity|reflexivity].
  split; [simpl; lia|]. split; [simpl; lia|]. by apply (bool_decide_unpack (props_ok _)).
Defined.

(** A verdict on a prefix is final.  Once [decode_packet] says anything
    but "incomplete" — a packet or an error — more bytes never change it. *)
Theorem decode_packet_stable data more :
  bytes_ok data -> decode_packet data <> Raise IncompletePacket ->
  decode_packet (data ++ more) = decode_packet data.
Proof. apply decode_packet_stable_lemma. Qed.

Lemma decode_packet_stable_witness :
  decode_packet ([0xC0; 0] ++ [0xFF; 3]) = Ok (Pingreq, 2).
Proof.
  rewrite (decode_packet_stable [0xC0; 0] [0xFF; 3]); [reflexivity| |].
  - repeat constructor; lia.
  - vm_compute. discriminate.
Defined.

(** C32: decoding is total and safe on arbitrary bytes.  It returns a packet
    of at least two bytes that lies inside the buffer, or raises
    [IncompletePacket] or an exception that [except (MQTTDecodeError,
    ValueError)] of the framer catches; no decoder loop runs away, and no
    [IndexError], [TypeError] or [AttributeError] escapes. *)
Theorem decode_packet_safe data :
  bytes_ok data ->
  match decode_packet data with
  | Ok (_, n) => 2 <= n <= zlen data
  | Raise e => e = IncompletePacket \/ isa_ValueError e = true
  end.
Proof.
  intros Hok. destruct (decode_packet data) as [[m n]|e] eqn:E.
  - by eapply decode_packet_bounds.
  - by eapply decode_packet_err.
Qed.

Lemma decode_packet_safe_witness :
  match decode_packet [0x10; 3; 0; 9; 65] with
  | Ok (_, n) => 2 <= n <= 5
  | Raise e => e = IncompletePacket \/ isa_ValueError e = true
  end.
Proof. apply (decode_packet_safe [0x10; 3; 0; 9; 65]). repeat constructor; lia. Defined.

(** The decoder accepts the reserved QoS value 3 in a PUBLISH. *)
Lemma qos3_accepted :
  exists m, decode_packet [0x36; 6; 0; 1; 97; 0; 1; 0] = Ok (Publish m, 8) /\ qos m = 3.
Proof. eexists. split; [vm_compute; reflexivity|reflexivity]. Qed.

(** A property value may be read past the declared Property Length: here the
    length is 1 (the identifier alone) and the two bytes of the value are the
    first bytes of the payload, which is delivered again. *)
Lemma property_overruns_length :
  exists m, decode_packet [0x30; 7; 0; 1; 97; 1; 0x23; 0; 5] = Ok (Publish m, 9)
    /\ dget (p_properties m) "topic_alias"%string = Some (PInt 5) /\ payload m = [0; 5].
Proof. eexists. split; [vm_compute; reflexivity|]. by split. Qed.

(** Ill-formed text in a body leaves [decode_packet] as [UnicodeDecodeError]. *)
Lemma unicode_error_escapes :
  decode_packet [0x30; 4; 0; 1; 0xFF; 0] = Raise UnicodeDecodeError.
Proof. reflexivity. Qed.

End MqttPackets.
