(* ===== verification/MqttFramer.v ===== *)
(** * The incremental MQTT de-framer ([PacketFramer] of blackbull/mqtt/connection.py)

    The framer is proved against what it needs of a packet decoder, the class
    [PacketDecoder]; the codec of [MqttPackets.v] is an instance. *)

From Stdlib Require Import ZArith Lia.
From stdpp Require Import base tactics numbers option strings sets list.
From S2P Require Import Prelude PyLib PyText MqttWire MqttPackets.
Import MqttWire.

(** What the framer relies on. *)
Class PacketDecoder (M : Type) : Type := {
  decode : bytes -> result (M * Z);
  (** a decoded packet lies inside the buffer and is not empty *)
  decode_inside data m n : bytes_ok data -> decode data = Ok (m, n) -> 0 < n <= zlen data;
  (** a verdict on a prefix is final *)
  decode_final data more :
    bytes_ok data -> decode data <> Raise IncompletePacket -> decode (data ++ more) = decode data;
  (** failures are "incomplete" or what the framer catches *)
  decode_failure data e :
    bytes_ok data -> decode data = Raise e -> e = IncompletePacket \/ isa_ValueError e = true;
  (** a reserved type cannot begin a packet *)
  decode_reserved b data :
    Z.shiftr b 4 = 0 -> data <> [] -> exists e, decode (b :: data) = Raise e /\ isa_ValueError e = true;
  (** an incomplete packet is short of its header or of its declared size *)
  decode_incomplete data :
    decode data = Raise IncompletePacket ->
    zlen data < 2 \/
    match decode_variable_byte_integer (slice_from data 1) with
    | Ok (n, c) => zlen data < 1 + c + n
    | Raise e => e = IncompletePacket
    end;
  (** the size of a packet is the one its header declares *)
  decode_declared data m n :
    decode data = Ok (m, n) ->
    exists rl c, decode_variable_byte_integer (slice_from data 1) = Ok (rl, c) /\ n = 1 + c + rl
}.

Module MqttFramer.

Record framer : Type := mk {
  _buffer : bytes;
  _max_packet_size : Z;
  _synced : bool
}.

Definition __init__ (max_packet_size : Z) : framer := mk [] max_packet_size true.
Definition set_buffer (b : bytes) (f : framer) : framer := mk b (_max_packet_size f) (_synced f).
Definition set_synced (s : bool) (f : framer) : framer := mk (_buffer f) (_max_packet_size f) s.

Definition feed (data : bytes) (f : framer) : framer := set_buffer (_buffer f ++ data) f.

Definition _check_declared_size (f : framer) : result unit :=
  if (_max_packet_size f =? 0) || negb (_synced f) then Ok tt
  else
    let* b0 := zget (_buffer f) 0 in
    if Z.shiftr b0 4 =? 0 then Ok tt
    else
      match decode_variable_byte_integer (slice (_buffer f) 1 5) with
      | Ok (remaining_length, rl_consumed) =>
          let declared := 1 + rl_consumed + remaining_length in
          if declared >? _max_packet_size f then Raise (PacketTooLarge declared (_max_packet_size f))
          else Ok tt
      | Raise e => if bool_decide (e = IncompletePacket) || isa_ValueError e then Ok tt else Raise e
      end.

(** Drop bytes that cannot begin a packet. *)
Fixpoint skip_reserved (l : bytes) : bytes :=
  match l with
  | [] => []
  | b :: l' => if Z.shiftr b 4 =? 0 then skip_reserved l' else l
  end.

Definition _resync (buffer : bytes) : bytes := skip_reserved (tail buffer).

Section Framer.
Context {M : Type} `{!PacketDecoder M}.

(** [for message in framer]: the messages, the exception that ends the
    iteration if any, and the framer.  Every turn takes at least a byte from
    the buffer. *)
Fixpoint iter_loop (fuel : nat) (f : framer) : list M * option exn * framer :=
  match _buffer f with
  | [] => ([], None, f)
  | _ =>
      match fuel with
      | O => ([], Some OutOfFuel, f)
      | S fuel =>
          match _check_declared_size f with
          | Raise e => ([], Some e, f)
          | Ok _ =>
              match decode (_buffer f) with
              | Raise e =>
                  if bool_decide (e = IncompletePacket) then ([], None, f)
                  else if isa_ValueError e
                  then iter_loop fuel (set_buffer (_resync (_buffer f)) (set_synced false f))
                  else ([], Some e, f)
              | Ok (message, n) =>
                  let '(ms, e, f') :=
                    iter_loop fuel (set_synced true (set_buffer (slice_from (_buffer f) n) f)) in
                  (message :: ms, e, f')
              end
          end
      end
  end.

Definition __iter__ (f : framer) : list M * option exn * framer := iter_loop (length (_buffer f)) f.

(** The read loop of a connection: iterate after every chunk, stop at the
    first exception. *)
Fixpoint feed_all (chunks : list bytes) (f : framer) : list M * option exn * framer :=
  match chunks with
  | [] => ([], None, f)
  | c :: chunks =>
      let '(ms, e, f) := __iter__ (feed c f) in
      match e with
      | Some _ => (ms, e, f)
      | None => let '(ms', e', f) := feed_all chunks f in (ms ++ ms', e', f)
      end
  end.

Lemma skip_reserved_len l : (length (skip_reserved l) <= length l)%nat.
Proof. induction l as [|b l IH]; simpl; [lia|]. case_match; simpl; lia. Qed.

Lemma skip_reserved_ok l : bytes_ok l -> bytes_ok (skip_reserved l).
Proof. induction 1 as [|b l Hb Hl IH]; simpl; [constructor|]. case_match; [done|]. by constructor. Qed.

Lemma resync_len b l : (length (_resync (b :: l)) <= length l)%nat.
Proof. apply skip_reserved_len. Qed.

(** ** Termination *)

Lemma check_error f e :
  _buffer f <> [] -> _check_declared_size f = Raise e -> exists d, e = PacketTooLarge d (_max_packet_size f).
Proof.
  intros Hne. unfold _check_declared_size. case_match; [done|].
  destruct (_buffer f) as [|b l]; [done|]. change (zget (b :: l) 0) with (Ok b). cbn [rbind].
  case_match; [done|]. destruct (decode_variable_byte_integer _) as [[n c]|e'] eqn:E.
  - case_match; [|done]. intros [= <-]. eauto.
  - destruct (decode_vbi_loop_err _ _ _ _ _ E) as [-> | ->]; done.
Qed.

(** A failure other than "incomplete" is caught. *)
Lemma failure_caught data e :
  bytes_ok data -> decode data = Raise e -> e <> IncompletePacket ->
  bool_decide (e = IncompletePacket) = false /\ isa_ValueError e = true.
Proof. intros Hok Hd Hne. rewrite bool_decide_false by done. by destruct (decode_failure _ _ Hok Hd). Qed.

(** Both recursive calls shorten the buffer. *)
Lemma after_packet_len B m n :
  bytes_ok B -> decode B = Ok (m, n) ->
  bytes_ok (slice_from B n) /\ (length (slice_from B n) < length B)%nat.
Proof.
  intros Hok Hd. pose proof (decode_inside _ _ _ Hok Hd). split; [by apply bytes_ok_drop|].
  unfold slice_from, zlen in *. rewrite length_drop. lia.
Qed.

Lemma after_resync_len B :
  bytes_ok B -> B <> [] -> bytes_ok (_resync B) /\ (length (_resync B) < length B)%nat.
Proof.
  intros Hok Hne. destruct B as [|b l]; [done|]. unfold _resync; cbn [tail].
  split; [apply skip_reserved_ok; by inversion Hok|]. pose proof (skip_reserved_len l). simpl. lia.
Qed.

Lemma decode_nonempty B m n : bytes_ok B -> decode B = Ok (m, n) -> B <> [].
Proof.
  intros Hok Hd ->. pose proof (decode_inside _ _ _ Hok Hd) as H. change (zlen (@nil Z)) with 0 in H. lia.
Qed.

(** More fuel than bytes does not matter. *)
Lemma iter_loop_fuel fuel1 fuel2 f :
  bytes_ok (_buffer f) -> (length (_buffer f) <= fuel1)%nat -> (length (_buffer f) <= fuel2)%nat ->
  iter_loop fuel1 f = iter_loop fuel2 f.
Proof.
  revert fuel2 f. induction fuel1 as [|fuel1 IH]; intros [|fuel2] f Hok H1 H2;
    cbn [iter_loop]; destruct (_buffer f) as [|b l] eqn:Eb; try done; try (simpl in *; lia).
  destruct (_check_declared_size f); [|done]. simpl in H1, H2.
  destruct (decode (b :: l)) as [[m n]|e] eqn:Ed.
  - destruct (after_packet_len _ m n Hok Ed). simpl in *. rewrite (IH fuel2); [done|done|cbn [_buffer set_buffer set_synced]; lia..].
  - case_bool_decide; [done|]. case_match; [|done].
    destruct (after_resync_len _ Hok ltac:(done)). apply IH; [done|cbn [_buffer set_buffer set_synced length] in *; lia..].
Qed.

(** The three turns of the loop. *)
Lemma iter_packet f m n :
  bytes_ok (_buffer f) -> _check_declared_size f = Ok tt -> decode (_buffer f) = Ok (m, n) ->
  __iter__ f = let '(ms, e, f') := __iter__ (set_synced true (set_buffer (slice_from (_buffer f) n) f)) in
               (m :: ms, e, f').
Proof.
  intros Hok Hc Hd. unfold __iter__ at 1. destruct (_buffer f) as [|b l] eqn:Eb.
  { pose proof (decode_inside _ _ _ Hok Hd) as H. change (zlen (@nil Z)) with 0 in H. lia. }
  cbn [length iter_loop]. rewrite Eb, Hc, Hd. destruct (after_packet_len _ m n Hok Hd). cbn [length] in *.
  unfold __iter__. rewrite (iter_loop_fuel (length l) (length (slice_from (b :: l) n))); [done|done|cbn [_buffer set_buffer set_synced]; lia..].
Qed.

Lemma iter_error f e :
  bytes_ok (_buffer f) -> _buffer f <> [] -> _check_declared_size f = Ok tt ->
  decode (_buffer f) = Raise e -> e <> IncompletePacket ->
  __iter__ f = __iter__ (set_buffer (_resync (_buffer f)) (set_synced false f)).
Proof.
  intros Hok Hne Hc Hd He. destruct (failure_caught _ _ Hok Hd He) as [Hi Hv].
  unfold __iter__ at 1. destruct (_buffer f) as [|b l] eqn:Eb; [done|].
  cbn [length iter_loop]. rewrite Eb, Hc, Hd, Hi, Hv. destruct (after_resync_len _ Hok ltac:(done)). cbn [length] in *.
  unfold __iter__. apply iter_loop_fuel; [done|cbn [_buffer set_buffer set_synced]; lia..].
Qed.

Lemma iter_stop f :
  _buffer f = [] \/ (_check_declared_size f = Ok tt /\ decode (_buffer f) = Raise IncompletePacket) ->
  __iter__ f = ([], None, f).
Proof.
  intros Hs. unfold __iter__. destruct (_buffer f) as [|b l] eqn:Eb; cbn [length iter_loop]; rewrite Eb; [done|].
  destruct Hs as [|[Hc Hd]]; [done|]. by rewrite Hc, Hd.
Qed.

(** Induction on the turns, for conclusions about a framer without a size
    limit, where the gate is silent. *)
Lemma check_unlimited f : _max_packet_size f = 0 -> _check_declared_size f = Ok tt.
Proof. intros H. unfold _check_declared_size. by rewrite H. Qed.

(** ** Iteration without a size limit, as a relation *)

Inductive drains : bytes -> list M -> bytes -> Prop :=
| drains_stop B : B = [] \/ decode B = Raise IncompletePacket -> drains B [] B
| drains_packet B m n ms R :
    decode B = Ok (m, n) -> drains (slice_from B n) ms R -> drains B (m :: ms) R
| drains_error B e ms R :
    B <> [] -> decode B = Raise e -> e <> IncompletePacket -> drains (_resync B) ms R -> drains B ms R.

(** The iteration computes it, whatever the synchronisation flag. *)
Lemma iter_drains_aux k f :
  bytes_ok (_buffer f) -> _max_packet_size f = 0 -> (length (_buffer f) <= k)%nat ->
  exists ms f', __iter__ f = (ms, None, f') /\ drains (_buffer f) ms (_buffer f') /\
    bytes_ok (_buffer f') /\ _max_packet_size f' = 0.
Proof.
  revert f. induction k as [|k IH]; intros f Hok Hm Hk; pose proof (check_unlimited f Hm) as Hc.
  { assert (_buffer f = []) as E by (apply length_zero_iff_nil; lia).
    exists [], f. rewrite iter_stop by auto. split_and!; auto. constructor. auto. }
  destruct (decide (_buffer f = [])) as [E|Hne].
  { exists [], f. rewrite iter_stop by auto. split_and!; auto. constructor. auto. }
  destruct (decode (_buffer f)) as [[m n]|e] eqn:Ed.
  - rewrite (iter_packet f m n) by done. set (f1 := set_synced true _).
    destruct (after_packet_len _ m n Hok Ed) as [H1 H2].
    destruct (IH f1 H1 Hm) as (ms & f' & -> & Hd & ?); [unfold f1; cbn [_buffer set_synced set_buffer]; lia|].
    exists (m :: ms), f'. split_and!; try done; [|naive_solver..]. by eapply drains_packet.
  - destruct (decide (e = IncompletePacket)) as [->|He].
    { exists [], f. rewrite iter_stop by auto. split_and!; auto. constructor. auto. }
    rewrite (iter_error f e) by done. set (f1 := set_buffer _ _).
    destruct (after_resync_len _ Hok Hne) as [H1 H2].
    destruct (IH f1 H1 Hm) as (ms & f' & -> & Hd & ?); [unfold f1; cbn [_buffer set_synced set_buffer]; lia|].
    exists ms, f'. split_and!; try done; [|naive_solver..]. by eapply drains_error.
Qed.

Lemma iter_drains f :
  bytes_ok (_buffer f) -> _max_packet_size f = 0 ->
  exists ms f', __iter__ f = (ms, None, f') /\ drains (_buffer f) ms (_buffer f') /\
    bytes_ok (_buffer f') /\ _max_packet_size f' = 0.
Proof. intros. by apply (iter_drains_aux (length (_buffer f))). Qed.

Lemma drains_fun B ms1 R1 ms2 R2 :
  bytes_ok B -> drains B ms1 R1 -> drains B ms2 R2 -> ms1 = ms2 /\ R1 = R2.
Proof.
  intros Hok H1. revert Hok ms2 R2.
  induction H1 as [B Hs|B m n ms R Hd Hr IH|B e ms R Hb Hd He Hr IH]; intros Hok ms2 R2 H2;
    inversion H2 as [B' Hs'|B' m' n' ms' R' Hd' Hr'|B' e' ms' R' Hb' Hd' He' Hr']; subst;
    try pose proof (decode_nonempty _ _ _ Hok Hd) as Hne; try pose proof (decode_nonempty _ _ _ Hok Hd') as Hne';
    try (destruct Hs; congruence); try (destruct Hs'; congruence); try congruence; auto.
  - rewrite Hd in Hd'. injection Hd' as <- <-.
    destruct (IH (bytes_ok_drop _ _ Hok) ms' R2 Hr') as [-> ->]. done.
  - apply IH; [by apply after_resync_len|done].
Qed.

Lemma drains_total B : bytes_ok B -> exists ms R, drains B ms R.
Proof.
  intros Hok. destruct (iter_drains (mk B 0 true) Hok eq_refl) as (ms & f' & _ & Hd & _). eauto.
Qed.

(** What is left after a drain waits for more bytes. *)
Lemma drains_left B ms R : drains B ms R -> R = [] \/ decode R = Raise IncompletePacket.
Proof. by induction 1. Qed.

(** ** Chunk independence without a size limit *)

(** Reserved bytes at the front of a buffer change nothing, except that the
    last of them may be held back. *)
Lemma drains_skip B ms R :
  bytes_ok B -> drains B ms R ->
  exists R', drains (skip_reserved B) ms R' /\ skip_reserved R' = skip_reserved R.
Proof.
  intros Hok Hd. destruct B as [|b l]; [eauto|]. simpl.
  destruct (Z.eqb_spec (Z.shiftr b 4) 0) as [Hb|Hb]; [|eauto].
  destruct l as [|x l].
  - simpl. exists []. 
    assert (drains [] [] []) as H0 by (constructor; auto).
    inversion Hd as [B' Hs|B' m n ms' R' Hp|B' e ms' R' Hne He Hi Hr]; subst.
    + split; [done|]. simpl. by rewrite (proj2 (Z.eqb_eq _ _) Hb).
    + exfalso. destruct (decode_reserved b [0] Hb ltac:(done)) as (e & He & _).
      assert (decode ([b] ++ [0]) = decode [b]) as E by (apply decode_final; [done|by rewrite Hp]).
      cbn [app] in E. congruence.
    + unfold _resync in Hr; simpl in Hr.
      destruct (drains_fun [] _ _ _ _ (Forall_nil_2 _ : bytes_ok []) Hr H0) as [-> ->]. done.
  - destruct (decode_reserved b (x :: l) Hb ltac:(done)) as (e0 & He0 & Hv).
    inversion Hd as [B' Hs|B' m n ms' R' Hp|B' e ms' R' Hne He Hi Hr]; subst.
    + destruct Hs as [|Hs]; [done|]. rewrite He0 in Hs. injection Hs as ->. done.
    + congruence.
    + exists R. split; [exact Hr|done].
Qed.

Lemma skip_reserved_app l more :
  skip_reserved (l ++ more) = if bool_decide (skip_reserved l = []) then skip_reserved more
                              else skip_reserved l ++ more.
Proof.
  induction l as [|b l IH]; cbn [app skip_reserved]; [by rewrite bool_decide_true|].
  destruct (_ =? 0); [done|]. by rewrite bool_decide_false.
Qed.

Lemma drains_app X ms R more ms' R' :
  bytes_ok X -> bytes_ok more -> drains X ms R -> drains (R ++ more) ms' R' ->
  exists R'', drains (X ++ more) (ms ++ ms') R'' /\ skip_reserved R'' = skip_reserved R'.
Proof.
  intros HX Hm Hd Hd'. revert HX Hd'.
  induction Hd as [B Hs|B m n ms R Hp Hr IH|B e ms R Hne He Hi Hr IH]; intros HX Hd'; [eauto|..].
  - pose proof (decode_inside _ _ _ HX Hp) as Hn.
    destruct (IH (bytes_ok_drop _ _ HX) Hd') as (R'' & H1 & H2). exists R''. split; [|done].
    cbn [app]. apply (drains_packet _ m n); [by rewrite decode_final by (done || by rewrite Hp)|].
    by rewrite MqttPackets.slice_from_prefix by lia.
  - assert (forall ms R, drains (_resync (B ++ more)) ms R -> drains (B ++ more) ms R) as Hstep.
    { intros ms1 R1 H1. apply (drains_error _ e); [by destruct B| |done|done].
      by rewrite decode_final by (done || rewrite He; congruence). }
    assert (_resync (B ++ more) = skip_reserved (tail B ++ more)) as E by (by destruct B).
    unfold _resync in E. rewrite skip_reserved_app in E. fold (_resync B) in E. case_bool_decide as Hb.
    + rewrite Hb in Hr. assert (drains [] [] []) as H0 by (constructor; auto).
      destruct (drains_fun [] _ _ _ _ (Forall_nil_2 _ : bytes_ok []) Hr H0) as [-> ->]. cbn [app] in *.
      destruct (drains_skip _ _ _ Hm Hd') as (R'' & H1 & H2). exists R''. split; [|done].
      apply Hstep. unfold _resync. by rewrite E.
    + destruct (IH (proj1 (after_resync_len B HX Hne)) Hd') as (R'' & H1 & H2).
      exists R''. split; [|done]. apply Hstep. unfold _resync at 1. by rewrite E.
Qed.

Lemma feed_all_drains chunks f :
  bytes_ok (_buffer f) -> Forall bytes_ok chunks -> _max_packet_size f = 0 ->
  drains (_buffer f) [] (_buffer f) ->
  exists ms f' R, feed_all chunks f = (ms, None, f') /\
    drains (_buffer f ++ concat chunks) ms R /\ skip_reserved R = skip_reserved (_buffer f').
Proof.
  revert f. induction chunks as [|c chunks IH]; intros f Hok Hch Hm Hd; cbn [feed_all concat].
  { exists [], f, (_buffer f). rewrite app_nil_r. done. }
  apply Forall_cons in Hch as [Hc Hch].
  assert (bytes_ok (_buffer f ++ c)) as Hok1 by (by apply bytes_ok_app).
  destruct (iter_drains (feed c f) Hok1 Hm) as (ms1 & f1 & -> & Hd1 & Hok2 & Hm1).
  cbn [feed _buffer set_buffer] in Hd1.
  destruct (IH f1 Hok2 Hch Hm1) as (ms2 & f2 & R & -> & Hd2 & HR).
  { constructor. by eapply drains_left. }
  assert (bytes_ok (concat chunks)) as Hcc by (by apply Forall_concat).
  destruct (drains_app _ _ _ (concat chunks) _ _ Hok1 Hcc Hd1 Hd2) as (R'' & H1 & H2).
  exists (ms1 ++ ms2), f2, R''. rewrite app_assoc. split_and!; try done. congruence.
Qed.

(** ** Well-formed streams under a size limit *)

(** [w] is the wire form of [m]: decoding it, with anything after it, gives
    [m] back. *)
Definition wire_of (w : bytes) (m : M) : Prop :=
  bytes_ok w /\ forall rest, decode (w ++ rest) = Ok (m, zlen w).

(** The gate lets every part of an acceptable packet pass. *)
Lemma check_acceptable f more m n :
  bytes_ok (_buffer f) -> _buffer f <> [] -> decode (_buffer f ++ more) = Ok (m, n) ->
  _max_packet_size f = 0 \/ n <= _max_packet_size f -> _check_declared_size f = Ok tt.
Proof.
  intros Hok Hne Hd Hsz. unfold _check_declared_size.
  destruct (Z.eqb_spec (_max_packet_size f) 0) as [|Hm0]; [done|]. cbn [orb].
  destruct (negb (_synced f)); [done|].
  destruct (decode_declared _ _ _ Hd) as (rl & c & Hv & ->).
  destruct (_buffer f) as [|b l]; [done|]. change (zget (b :: l) 0) with (Ok b). cbn [rbind].
  case_match; [done|].
  destruct (decode_variable_byte_integer (slice (b :: l) 1 5)) as [[rl' c']|e] eqn:E.
  - assert (slice_from ((b :: l) ++ more) 1 = slice (b :: l) 1 5 ++ drop 4 l ++ more) as Hs.
    { unfold slice_from, slice. cbn [app drop]. change (Z.to_nat (5 - 1)) with 4%nat.
      change (Z.to_nat 1) with 1%nat. cbn [drop]. by rewrite app_assoc, take_drop. }
    rewrite Hs, decode_vbi_stable, E in Hv by (by rewrite E). injection Hv as -> ->.
    rewrite Z.gtb_ltb. by rewrite (proj2 (Z.ltb_ge _ _)) by lia.
  - destruct (decode_vbi_loop_err _ _ _ _ _ E) as [-> | ->]; done.
Qed.

Definition acceptable (limit : Z) (w : bytes) : Prop := limit = 0 \/ zlen w <= limit.

Lemma stream_bytes ms ws : Forall2 (flip wire_of) ms ws -> bytes_ok (concat ws).
Proof. induction 1 as [|m w ms ws [Hw _] _ IH]; [constructor|]. by apply bytes_ok_app. Qed.

(** A proper prefix of a packet's wire form is incomplete. *)
Lemma wire_prefix_incomplete w m B q :
  wire_of w m -> w = B ++ q -> q <> [] -> decode B = Raise IncompletePacket.
Proof.
  intros [Hok Hw] -> Hq. apply bytes_ok_app in Hok as [HB _].
  assert (decode B = Raise IncompletePacket \/ decode B <> Raise IncompletePacket) as [|Hne]
    by (destruct (decode B) as [|e]; [by right|]; destruct (decide (e = IncompletePacket)); naive_solver);
    [done|exfalso].
  specialize (Hw []). rewrite app_nil_r, decode_final in Hw by done.
  pose proof (decode_inside _ _ _ HB Hw) as H. rewrite zlen_app in H.
  destruct q; [done|]. rewrite zlen_cons in H. pose proof (zlen_nonneg q). lia.
Qed.

(** One pass over what has arrived of a well-formed stream. *)
Lemma iter_stream ms ws : Forall2 (flip wire_of) ms ws -> forall f future,
  Forall (acceptable (_max_packet_size f)) ws -> _synced f = true ->
  _buffer f ++ future = concat ws ->
  exists ms1 ms2 ws2 f', __iter__ f = (ms1, None, f') /\ ms = ms1 ++ ms2 /\
    Forall2 (flip wire_of) ms2 ws2 /\ Forall (acceptable (_max_packet_size f')) ws2 /\
    _synced f' = true /\ _buffer f' ++ future = concat ws2 /\ (future = [] -> ms2 = [] /\ _buffer f' = []).
Proof.
  induction 1 as [|m w ms ws Hw Hms IH]; intros f future Hacc Hsy Hcat; cbn [concat] in Hcat.
  { apply app_eq_nil in Hcat as [Hb ->]. exists [], [], [], f. rewrite iter_stop by auto.
    by rewrite Hb; split_and!. }
  pose proof Hw as [Hwok Hwd]. pose proof Hacc as [Hw1 Hacc']%Forall_cons.
  assert (bytes_ok (_buffer f)) as Hok.
  { assert (bytes_ok (_buffer f ++ future)) as H by (rewrite Hcat; apply bytes_ok_app; eauto using stream_bytes).
    by apply bytes_ok_app in H as [H _]. }
  destruct (decide (length w <= length (_buffer f))%nat) as [Hle|Hlt].
  - assert (exists B, _buffer f = w ++ B /\ B ++ future = concat ws) as (B & HB & Hcat').
    { apply app_eq_inv in Hcat as [(k & E1 & E2)|(k & E1 & E2)]; [eauto|].
      assert (k = []) as -> by (apply length_zero_iff_nil; rewrite E1, length_app in Hle; lia).
      rewrite app_nil_r in E1. exists []. rewrite app_nil_r. by split. }
    assert (decode (_buffer f) = Ok (m, zlen w)) as Hd by (by rewrite HB).
    assert (_check_declared_size f = Ok tt) as Hc.
    { apply (check_acceptable f [] m (zlen w)); [done|by eapply decode_nonempty|by rewrite app_nil_r|done]. }
    rewrite (iter_packet f m (zlen w)) by done. set (f1 := set_synced true _).
    assert (_buffer f1 = B) as HB1 by (unfold f1; cbn [_buffer set_synced set_buffer]; rewrite HB; by apply slice_from_app).
    destruct (IH f1 future Hacc' eq_refl) as (ms1 & ms2 & ws2 & f' & -> & -> & H); [by rewrite HB1|].
    by exists (m :: ms1), ms2, ws2, f'.
  - assert (exists q, w = _buffer f ++ q /\ q <> []) as (q & Hq & Hqn).
    { apply app_eq_inv in Hcat as [(k & E1 & E2)|(k & E1 & E2)].
      - rewrite E1, length_app in Hlt. lia.
      - exists k. split; [done|]. intros ->. rewrite E1, app_nil_r in Hlt. lia. }
    pose proof (wire_prefix_incomplete _ _ _ _ Hw Hq Hqn) as Hi.
    assert (__iter__ f = ([], None, f)) as ->.
    { apply iter_stop. destruct (decide (_buffer f = [])) as [|Hne]; [by left|right]. split; [|done].
      apply (check_acceptable f q m (zlen w)); [done|done| |done].
      rewrite <- Hq. pose proof (Hwd []) as H0. by rewrite app_nil_r in H0. }
    exists [], (m :: ms), (w :: ws), f. split_and!; try done.
    + by constructor.
    + intros ->. exfalso. rewrite app_nil_r in Hcat. apply Hlt. rewrite Hcat, length_app. lia.
Qed.

(** ** Properties *)

(** A well-formed stream is delivered exactly.  Feed the concatenated
    wire forms of any packets — each within the size limit, when there is one
    — in any segmentation: the framer yields exactly those packets in order,
    raises nothing, and ends synchronised with an empty buffer. *)
Theorem feed_all_stream limit chunks ms ws :
  Forall2 (flip wire_of) ms ws -> Forall (acceptable limit) ws -> concat chunks = concat ws ->
  exists f, feed_all chunks (__init__ limit) = (ms, None, f) /\ _buffer f = [] /\ _synced f = true.
Proof.
  intros Hms Hacc Hcat.
  assert (forall chunks ms ws f, Forall2 (flip wire_of) ms ws ->
    Forall (acceptable (_max_packet_size f)) ws -> _synced f = true -> _buffer f ++ concat chunks = concat ws ->
    (chunks = [] -> ms = []) ->
    exists f', feed_all chunks f = (ms, None, f') /\ (chunks <> [] \/ _buffer f = [] -> _buffer f' = []) /\
      _synced f' = true) as Hgen.
  { clear. induction chunks as [|c chunks IH]; intros ms ws f Hms Hacc Hsy Hcat Hnil; cbn [feed_all].
    { rewrite Hnil by done. exists f. split_and!; [done|naive_solver|done]. }
    cbn [concat] in Hcat. rewrite app_assoc in Hcat.
    destruct (iter_stream ms ws Hms (feed c f) (concat chunks) Hacc Hsy Hcat)
      as (ms1 & ms2 & ws2 & f1 & -> & -> & H2 & H3 & H4 & H5 & H6).
    destruct (IH ms2 ws2 f1 H2 H3 H4 H5) as (f' & -> & Hb & Hs).
    { intros ->. by apply H6. }
    exists f'. split_and!; [done| |done]. intros _. apply Hb.
    destruct chunks; [right; by apply H6|by left]. }
  destruct (Hgen chunks ms ws (__init__ limit) Hms Hacc eq_refl Hcat) as (f & H1 & H2 & H3).
  - intros ->. cbn [concat] in Hcat. destruct Hms as [|m w ms ws [Hok Hw] _]; [done|exfalso].
    symmetry in Hcat. apply app_eq_nil in Hcat as [-> _].
    by apply (decode_nonempty [] m 0 (Forall_nil_2 _ : bytes_ok []) (Hw [])).
  - exists f. split_and!; auto.
Qed.

(** C33: without a size limit the framer does not see packet boundaries of
    the transport.  For arbitrary bytes — junk, truncated and malformed
    packets included — feeding them in any segmentation yields the same
    messages as feeding them at once, with no exception; what stays buffered
    is the same up to leading bytes that cannot begin a packet. *)
Theorem feed_all_chunking chunks :
  Forall bytes_ok chunks ->
  exists ms f1 f2, feed_all chunks (__init__ 0) = (ms, None, f1) /\
    feed_all [concat chunks] (__init__ 0) = (ms, None, f2) /\
    skip_reserved (_buffer f1) = skip_reserved (_buffer f2).
Proof.
  intros Hch. assert (bytes_ok (concat chunks)) as Hcc by (by apply Forall_concat).
  assert (drains [] [] []) as H0 by (constructor; auto).
  assert (bytes_ok (_buffer (__init__ 0))) as Hi by constructor.
  destruct (feed_all_drains chunks (__init__ 0) Hi Hch eq_refl H0) as (ms1 & f1 & R1 & E1 & D1 & S1).
  destruct (feed_all_drains [concat chunks] (__init__ 0) Hi (Forall_cons_2 _ _ _ Hcc (Forall_nil_2 _)) eq_refl H0)
    as (ms2 & f2 & R2 & E2 & D2 & S2).
  cbn [concat] in D2. rewrite app_nil_r in D2. cbn [_buffer __init__ app] in *.
  destruct (drains_fun _ _ _ _ _ Hcc D1 D2) as [-> ->].
  exists ms2, f1, f2. split_and!; try done. congruence.
Qed.

(** Where an iteration that raises nothing stops. *)
Lemma iter_loop_end fuel f ms f' :
  iter_loop fuel f = (ms, None, f') ->
  _max_packet_size f' = _max_packet_size f /\ (bytes_ok (_buffer f) -> bytes_ok (_buffer f')) /\
  (_buffer f' = [] \/ (_check_declared_size f' = Ok tt /\ decode (_buffer f') = Raise IncompletePacket)).
Proof.
  revert f ms. induction fuel as [|fuel IH]; intros f ms; cbn [iter_loop];
    destruct (_buffer f) as [|b l] eqn:Eb; try done;
    try (intros H; injection H as _ <-; rewrite Eb; split_and!; auto; fail).
  destruct (_check_declared_size f) as [[]|] eqn:Ec; [|done].
  destruct (decode (b :: l)) as [[m n]|e] eqn:Ed.
  - destruct (iter_loop fuel _) as [[ms1 e1] f1] eqn:E. intros H. injection H as _ -> ->.
    destruct (IH _ _ E) as (H1 & H2 & H3). split_and!; auto. intros Hok. apply H2. by apply bytes_ok_drop.
  - case_bool_decide as He.
    + intros H. injection H as _ <-. rewrite Eb. split_and!; auto. right. by subst.
    + case_match; [|done]. intros E. destruct (IH _ _ E) as (H1 & H2 & H3). split_and!; auto.
      intros Hok. apply H2. by apply after_resync_len.
Qed.

(** The size gate.  A synchronised framer whose buffer starts with a
    non-reserved type byte and a readable Remaining Length refuses a packet
    that declares more than the limit, reporting both sizes, whether or not
    anything of its body is there, yielding nothing and keeping the buffer. *)
Theorem size_gate f b rl vbi rest :
  _synced f = true -> 0 < _max_packet_size f ->
  encode_variable_byte_integer rl = Ok vbi -> Z.shiftr b 4 <> 0 -> _buffer f = b :: vbi ++ rest ->
  _max_packet_size f < 1 + zlen vbi + rl ->
  __iter__ f = ([], Some (PacketTooLarge (1 + zlen vbi + rl) (_max_packet_size f)), f).
Proof.
  intros Hs Hm He Hb Hbuf Hbig. unfold __iter__. rewrite Hbuf. cbn [length iter_loop]. rewrite Hbuf.
  assert (_check_declared_size f = Raise (PacketTooLarge (1 + zlen vbi + rl) (_max_packet_size f))) as ->; [|done].
  unfold _check_declared_size. rewrite Hs, Hbuf, (proj2 (Z.eqb_neq _ _)) by lia. cbn [orb negb].
  change (zget (b :: vbi ++ rest) 0) with (Ok b). cbn [rbind]. rewrite (proj2 (Z.eqb_neq _ _) Hb).
  pose proof (encode_vbi_len _ _ He) as Hl.
  assert (slice (b :: vbi ++ rest) 1 5 = vbi ++ take (Z.to_nat (4 - zlen vbi)) rest) as ->.
  { unfold slice. change (drop (Z.to_nat 1) (b :: vbi ++ rest)) with (vbi ++ rest).
    rewrite take_app, take_ge by (unfold zlen in Hl; lia). do 2 f_equal. unfold zlen. lia. }
  rewrite (decode_encode_vbi _ _ _ He). by rewrite Z.gtb_ltb, (proj2 (Z.ltb_lt _ _)) by lia.
Qed.

(** The resident bound.  After an iteration that raised nothing and left
    the framer synchronised, it holds fewer bytes than the limit, or no more
    than the five bytes of a fixed header: a peer that declares a huge packet
    and dribbles it cannot make the framer buffer it. *)
Theorem resident_bound f ms f' :
  bytes_ok (_buffer f) -> 0 < _max_packet_size f ->
  __iter__ f = (ms, None, f') -> _synced f' = true ->
  zlen (_buffer f') <= 5 \/ zlen (_buffer f') < _max_packet_size f.
Proof.
  intros Hok Hm Hi Hs. destruct (iter_loop_end _ _ _ _ Hi) as (Hmax & Hok' & Hend).
  specialize (Hok' Hok). rewrite <- Hmax in *.
  destruct Hend as [->|[Hc Hd]]; [left; change (zlen (@nil Z)) with 0; lia|].
  destruct (decode_incomplete _ Hd) as [|Hv]; [left; lia|].
  destruct (_buffer f') as [|b l] eqn:Eb; [left; change (zlen (@nil Z)) with 0; lia|].
  change (slice_from (b :: l) 1) with l in Hv. rewrite zlen_cons in *.
  assert (bytes_ok l) as Hl by (by inversion Hok').
  destruct (decode_variable_byte_integer l) as [[n c]|e] eqn:E.
  2: { subst e. apply decode_vbi_incomplete in E. left. lia. }
  unfold _check_declared_size in Hc. rewrite Hs, Eb, (proj2 (Z.eqb_neq _ _)) in Hc by lia. cbn [orb negb] in Hc.
  change (zget (b :: l) 0) with (Ok b) in Hc. cbn [rbind] in Hc.
  destruct (Z.eqb_spec (Z.shiftr b 4) 0) as [Hb|Hb].
  { destruct l as [|x l]; [left; change (zlen (@nil Z)) with 0; lia|exfalso].
    destruct (decode_reserved b (x :: l) Hb ltac:(done)) as (e & He & Hv'). rewrite He in Hd.
    injection Hd as ->. done. }
  change (slice (b :: l) 1 5) with (take 4 l) in Hc. rewrite (decode_vbi_take _ _ _ Hl E) in Hc.
  rewrite Z.gtb_ltb in Hc. destruct (Z.ltb_spec (_max_packet_size f') (1 + c + n)); [done|]. right. lia.
Qed.

End Framer.

(** ** The MQTT codec is such a decoder *)

Import MqttPackets.

Lemma decode_packet_reserved b data :
  Z.shiftr b 4 = 0 -> data <> [] ->
  exists e, decode_packet (b :: data) = Raise e /\ isa_ValueError e = true.
Proof.
  intros Hb Hne. exists MQTTDecodeError. split; [|done]. unfold decode_packet.
  destruct data as [|x l]; [done|]. rewrite (proj2 (Z.ltb_ge _ _)) by (rewrite !zlen_cons; pose proof (zlen_nonneg l); lia).
  change (zget (b :: x :: l) 0) with (Ok b). cbn [rbind].
  unfold decode_type, extract_packet_type. rewrite Hb. done.
Qed.

Lemma decode_packet_incomplete data :
  decode_packet data = Raise IncompletePacket ->
  zlen data < 2 \/
  match decode_variable_byte_integer (slice_from data 1) with
  | Ok (n, c) => zlen data < 1 + c + n
  | Raise e => e = IncompletePacket
  end.
Proof.
  unfold decode_packet. destruct (Z.ltb_spec (zlen data) 2) as [|H2]; [by left|]. intros Hd. right.
  destruct (zget_lt data 0 ltac:(lia)) as [fb Hfb]. rewrite Hfb in Hd. cbn [rbind] in Hd.
  destruct (decode_type fb) as [pt|e'] eqn:Et; cbn [rbind] in Hd.
  2: { apply decode_type_err in Et as ->. done. }
  case_match; [done|].
  destruct (decode_variable_byte_integer (slice_from data 1)) as [[rl c]|e'] eqn:E; cbn [rbind] in Hd.
  2: { by injection Hd. }
  rewrite Z.gtb_ltb in Hd. destruct (Z.ltb_spec (zlen data) (1 + c + rl)); [done|].
  repeat case_match; simplify_eq.
Qed.

Lemma decode_packet_declared data m n :
  decode_packet data = Ok (m, n) ->
  exists rl c, decode_variable_byte_integer (slice_from data 1) = Ok (rl, c) /\ n = 1 + c + rl.
Proof.
  unfold decode_packet. case_match; [done|]. destruct (zget data 0) as [fb|]; [|done]. cbn [rbind].
  destruct (decode_type fb) as [pt|]; [|done]. cbn [rbind]. case_match; [done|].
  destruct (decode_variable_byte_integer (slice_from data 1)) as [[rl c]|e'] eqn:E; [|done]. cbn [rbind].
  case_match; [done|]. repeat case_match; intros; simplify_eq. eauto.
Qed.

#[export] Instance mqtt_decoder : PacketDecoder MQTTMessage.
Proof.
  refine {| decode := decode_packet |}.
  - intros data m n Hok Hd. pose proof (decode_packet_bounds _ _ _ Hok Hd). lia.
  - apply decode_packet_stable_lemma.
  - apply decode_packet_err.
  - apply decode_packet_reserved.
  - apply decode_packet_incomplete.
  - apply decode_packet_declared.
Defined.

(** What [encode_packet] writes is a wire form in the sense of the framer. *)
Lemma encode_packet_wire m w :
  message_wf m -> post_init m = Ok tt -> encode_packet m = Ok w -> bytes_ok w -> wire_of w m.
Proof. intros Hwf Hpi He Hok. split; [done|]. intros rest. by apply encode_decode_lemma. Qed.

Lemma feed_all_stream_witness :
  exists f, feed_all [[0xC0]; [0; 0xE0]; [0]] (__init__ 2)
            = ([Pingreq; Disconnect (mkReason None [])], None, f) /\ _buffer f = [] /\ _synced f = true.
Proof.
  apply (feed_all_stream 2 [[0xC0]; [0; 0xE0]; [0]] [Pingreq; Disconnect (mkReason None [])] [[0xC0; 0]; [0xE0; 0]]).
  - constructor; [|constructor; [|constructor]]; apply encode_packet_wire; try reflexivity;
      repeat constructor; lia.
  - apply Forall_cons_2; [by right|]. apply Forall_cons_2; [by right|]. constructor.
  - reflexivity.
Defined.

Lemma feed_all_chunking_witness :
  exists ms f1 f2, feed_all (M := MQTTMessage) [[0; 0xC0]; [0; 0xF1]] (__init__ 0) = (ms, None, f1) /\
    feed_all [[0; 0xC0; 0; 0xF1]] (__init__ 0) = (ms, None, f2) /\
    skip_reserved (_buffer f1) = skip_reserved (_buffer f2).
Proof. apply (feed_all_chunking [[0; 0xC0]; [0; 0xF1]]). repeat constructor; lia. Defined.

Lemma size_gate_witness :
  __iter__ (M := MQTTMessage) (mk [0x30; 0xFF; 0x7F] 100 true)
  = ([], Some (PacketTooLarge 16386 100), mk [0x30; 0xFF; 0x7F] 100 true).
Proof.
  apply (size_gate (mk [0x30; 0xFF; 0x7F] 100 true) 0x30 16383 [0xFF; 0x7F] []); try reflexivity.
  discriminate.
Defined.

Lemma resident_bound_witness :
  exists f', __iter__ (M := MQTTMessage) (mk [0x30; 9; 0; 1; 97] 100 true) = ([], None, f') /\
    (zlen (_buffer f') <= 5 \/ zlen (_buffer f') < 100).
Proof.
  eexists. split; [vm_compute; reflexivity|].
  apply (resident_bound (M := MQTTMessage) (mk [0x30; 9; 0; 1; 97] 100 true) []).
  - repeat constructor; lia.
  - reflexivity.
  - vm_compute. reflexivity.
  - reflexivity.
Defined.

End MqttFramer.
