(* ===== verification/MqttTopics.v ===== *)
(** * MQTT topic names and filters (end of blackbull/mqtt/messages.py)

    The matching loop and the validators, against a declarative reading of
    the matching and well-formedness rules. *)

From Stdlib Require Import ZArith Lia.
From stdpp Require Import base tactics numbers option strings sets list.
From S2P Require Import Prelude PyLib.

Module MqttTopics.

Definition slash : Z := 47.
Definition dollar : Z := 36.
Definition HASH : pystr := [35].
Definition PLUS : pystr := [43].
Definition SHARE : pystr := lit "$share/".

(** The loop over the filter levels, from index [i]; [n] is the number of
    filter levels. *)
Fixpoint match_levels (n i : nat) (filter_levels topic_levels : list pystr) : bool :=
  match filter_levels with
  | [] => Nat.eqb (length topic_levels) n
  | flevel :: fls =>
      if bool_decide (flevel = HASH) then Nat.eqb i (n - 1)
      else match topic_levels !! i with
           | None => false
           | Some tlevel =>
               if bool_decide (flevel = PLUS) then match_levels n (S i) fls topic_levels
               else if bool_decide (flevel <> tlevel) then false
               else match_levels n (S i) fls topic_levels
           end
  end.

Definition topic_matches_filter (topic filter_str : pystr) : bool :=
  if bool_decide (topic = []) then false
  else
    let real :=
      if startswith filter_str SHARE then split_max 2 slash filter_str !! 2%nat else Some filter_str in
    match real with
    | None => false
    | Some filter_str =>
        let topic_levels := split_on slash topic in
        let filter_levels := split_on slash filter_str in
        let first_topic := default [] (head topic_levels) in
        let first_filter := default [] (head filter_levels) in
        if startswith first_topic [dollar] && (bool_decide (first_filter = HASH) || bool_decide (first_filter = PLUS))
        then false
        else match_levels (length filter_levels) 0 filter_levels topic_levels
    end.

Definition validate_topic_name (topic : pystr) : bool :=
  if bool_decide (topic = []) then false
  else if has_char 0 topic then false
  else if has_char 43 topic || has_char 35 topic then false
  else true.

(** The loop of [validate_topic_filter], from index [i] of [n] levels. *)
Fixpoint check_levels (n i : nat) (levels : list pystr) : result bool :=
  match levels with
  | [] => Ok true
  | level :: levels =>
      if has_char 35 level && bool_decide (level <> HASH) then Raise ValueError
      else if has_char 35 level && negb (Nat.eqb i (n - 1)) then Raise ValueError
      else if has_char 43 level && bool_decide (level <> PLUS) then Raise ValueError
      else check_levels n (S i) levels
  end.

(** The first step of [validate_topic_filter]: the part after the share name. *)
Definition filter_work (filter_str : pystr) : result pystr :=
  if startswith filter_str SHARE then
    let parts := split_max 2 slash filter_str in
    match parts !! 1%nat, parts !! 2%nat with
    | Some share_name, Some rest =>
        if bool_decide (share_name = []) then Raise ValueError
        else if has_char 43 share_name || has_char 35 share_name then Raise ValueError
        else if bool_decide (rest = []) then Raise ValueError
        else Ok rest
    | _, _ => Raise ValueError
    end
  else Ok filter_str.

Definition validate_topic_filter (filter_str : pystr) : result bool :=
  if bool_decide (filter_str = []) then Raise ValueError
  else if has_char 0 filter_str then Ok false
  else
    let* work := filter_work filter_str in
    if count_char 35 work >? 1 then Raise ValueError
    else
      let levels := split_on slash work in
      check_levels (length levels) 0 levels.

(** ** What matching means *)

(** A filter matches a topic level by level: [#] takes whatever is left (also
    nothing), [+] takes any one level, and another level takes itself. *)
Inductive levels_match : list pystr -> list pystr -> Prop :=
| match_nil : levels_match [] []
| match_hash ts : levels_match [HASH] ts
| match_plus t fs ts : levels_match fs ts -> levels_match (PLUS :: fs) (t :: ts)
| match_level l fs ts : l <> HASH -> levels_match fs ts -> levels_match (l :: fs) (l :: ts).

Lemma match_levels_spec n fls tls i :
  n = (i + length fls)%nat -> (i <= length tls)%nat ->
  match_levels n i fls tls = true <-> levels_match fls (drop i tls).
Proof.
  revert i. induction fls as [|f fls IH]; intros i Hn Hi; cbn [match_levels].
  - rewrite Nat.eqb_eq. split.
    + intros Hl. rewrite drop_ge by (simpl in Hn; lia). constructor.
    + intros Hm. destruct (drop i tls) eqn:E; [|by inversion Hm]. apply (f_equal length) in E. rewrite length_drop in E. simpl in *. lia.
  - case_bool_decide as Hf.
    + subst f. rewrite Nat.eqb_eq. simpl in Hn. split.
      * intros Hl. destruct fls; [constructor|simpl in Hn; lia].
      * intros Hm. inversion Hm as [|ts| |]; subst; simpl; try lia; done.
    + destruct (tls !! i) as [t|] eqn:Et.
      2: { split; [done|]. intros Hm. rewrite drop_ge in Hm by (by apply lookup_ge_None). inversion Hm; subst; done. }
      rewrite (drop_S tls t i Et). pose proof (lookup_lt_Some _ _ _ Et).
      assert (levels_match fls (drop (S i) tls) <-> match_levels n (S i) fls tls = true) as IH'
        by (rewrite IH by (simpl in *; lia); done).
      case_bool_decide as Hp; [|case_bool_decide as Hl].
      * subst f. rewrite <- IH'. split; [by constructor|]. intros Hm. by inversion Hm.
      * split; [done|]. intros Hm. inversion Hm; subst; done.
      * subst t. rewrite <- IH'. split; [by constructor|]. intros Hm. by inversion Hm.
Qed.

(** The filter a subscription really matches with: the part after
    [$share/{group}/] of a shared subscription, else the filter itself. *)
Inductive real_filter : pystr -> pystr -> Prop :=
| real_plain f : ~ SHARE `prefix_of` f -> real_filter f f
| real_shared group f : slash ∉ group -> real_filter (SHARE ++ group ++ [slash] ++ f) f.

Definition split_go (k : pystr -> list pystr) : pystr -> pystr -> list pystr :=
  fix go (acc s : pystr) : list pystr :=
    match s with
    | [] => [acc]
    | c :: s' => if decide (c = slash) then acc :: k s' else go (acc ++ [c]) s'
    end.

Lemma split_go_app k acc w s :
  slash ∉ w -> split_go k acc (w ++ slash :: s) = (acc ++ w) :: k s.
Proof.
  revert acc. induction w as [|c w IH]; intros acc Hw; simpl.
  - by rewrite app_nil_r.
  - rewrite decide_False by set_solver. rewrite IH by set_solver. by rewrite <- app_assoc.
Qed.

Lemma split_go_none k acc w : slash ∉ w -> split_go k acc w = [acc ++ w].
Proof.
  revert acc. induction w as [|c w IH]; intros acc Hw; simpl.
  - by rewrite app_nil_r.
  - rewrite decide_False by set_solver. rewrite IH by set_solver. by rewrite <- app_assoc.
Qed.

(** [s.split('/', 2)] of a string that starts with [$share/]. *)
Lemma split_share s :
  (slash ∉ s -> split_max 2 slash (SHARE ++ s) = [lit "$share"; s]) /\
  (forall group f, slash ∉ group -> s = (group ++ slash :: f) ->
     split_max 2 slash (SHARE ++ s) = [lit "$share"; group; f]).
Proof.
  assert (split_max 2 slash (SHARE ++ s) = lit "$share" :: split_go (split_max 0 slash) [] s) as ->.
  { change (SHARE ++ s) with (lit "$share" ++ slash :: s).
    change (split_max 2 slash ?x) with (split_go (split_max 1 slash) [] x).
    rewrite split_go_app; [done|]. by apply (bool_decide_unpack _). }
  split.
  - intros Hs. by rewrite split_go_none.
  - intros group f Hg ->. by rewrite split_go_app.
Qed.

Lemma slash_split s : (slash ∉ s) \/ (exists group f, (slash ∉ group) /\ s = (group ++ slash :: f)).
Proof.
  destruct (decide (slash ∈ s)) as [Hin|]; [right|by left].
  induction s as [|c s IH]; [set_solver|].
  destruct (decide (c = slash)) as [->|Hc]; [exists [], s; set_solver|].
  destruct IH as (g & f & Hg & ->); [set_solver|]. exists (c :: g), f. set_solver.
Qed.

Lemma startswith_share f : startswith f SHARE = true <-> exists s, f = SHARE ++ s.
Proof. unfold startswith. rewrite bool_decide_eq_true. split; intros [s ->]; by exists s. Qed.

Lemma real_filter_spec f r :
  (if startswith f SHARE then split_max 2 slash f !! 2%nat else Some f) = Some r <-> real_filter f r.
Proof.
  destruct (startswith f SHARE) eqn:E.
  - pose proof E as [s ->]%startswith_share. destruct (split_share s) as [H1 H2]. split.
    + intros Hr. destruct (slash_split s) as [Hs|(g & f & Hg & ->)].
      * by rewrite H1 in Hr.
      * rewrite (H2 g f) in Hr by done. injection Hr as <-. by constructor.
    + intros Hr. remember (SHARE ++ s) as f0 eqn:E0. destruct Hr as [f Hn|g f Hg].
      * destruct Hn. rewrite E0. by apply prefix_app_r.
      * apply app_inv_head in E0. cbn [app] in *. by rewrite (H2 g f Hg (eq_sym E0)).
  - split.
    + intros [= <-]. constructor. intros Hp. unfold startswith in E. by apply bool_decide_eq_false in E.
    + intros Hr. destruct Hr as [f Hn|g f Hg]; [done|].
      assert (startswith (SHARE ++ g ++ [slash] ++ f) SHARE = true) by (apply startswith_share; eauto). congruence.
Qed.

(** The rule that wildcards do not match [$]-topics. *)
Definition dollar_rule (filter topic : pystr) : Prop :=
  [dollar] `prefix_of` topic -> head (split_on slash filter) <> Some HASH /\ head (split_on slash filter) <> Some PLUS.

Lemma head_split_dollar topic :
  startswith (default [] (head (split_on slash topic))) [dollar] = true <-> [dollar] `prefix_of` topic.
Proof.
  unfold startswith. rewrite bool_decide_eq_true. destruct topic as [|c t]; simpl; [done|].
  case_decide as Hc; simpl.
  - subst c. split; intros [k E]; discriminate E.
  - destruct (split_on slash t) as [|w ws]; simpl; split; intros [k E]; injection E as -> E';
      by apply prefix_cons, prefix_nil.
Qed.

Lemma head_split_some s : exists w, head (split_on slash s) = Some w.
Proof. pose proof (split_on_nonempty slash s). destruct (split_on slash s); [done|eauto]. Qed.

(** Topic matching is the declarative relation.  [topic_matches_filter]
    answers true exactly when the topic is not empty, the filter (without its
    [$share/{group}/] prefix, when it has one) does not start with a wildcard
    level while the topic starts with [$], and the levels match one by one
    with [+] as any level and a final [#] as any remainder. *)
Theorem topic_matches_filter_spec topic filter_str :
  topic_matches_filter topic filter_str = true <->
  topic <> [] /\ exists f, real_filter filter_str f /\ dollar_rule f topic /\
    levels_match (split_on slash f) (split_on slash topic).
Proof.
  unfold topic_matches_filter. case_bool_decide as Ht; [naive_solver|].
  assert (forall r, (if startswith filter_str SHARE then split_max 2 slash filter_str !! 2%nat else Some filter_str)
    = Some r <-> real_filter filter_str r) as Hreal by (intros; apply real_filter_spec).
  destruct (if startswith filter_str SHARE then _ else _) as [f|].
  2: { split; [done|]. intros (_ & f & Hf & _). by apply Hreal in Hf. }
  assert (forall g, real_filter filter_str g <-> g = f) as Hreal' by (intros; rewrite <- Hreal; naive_solver).
  destruct (head_split_some f) as [w Hw]. rewrite Hw. cbn [default from_option id].
  assert ((startswith (default [] (head (split_on slash topic))) [dollar] &&
    (bool_decide (w = HASH) || bool_decide (w = PLUS))) = false <-> dollar_rule f topic) as Hdol.
  { unfold dollar_rule. rewrite Hw, andb_false_iff, orb_false_iff, !bool_decide_eq_false, <- not_true_iff_false,
      head_split_dollar. split; [naive_solver|]. intros H.
    destruct (decide ([dollar] `prefix_of` topic)); [right|by left]. naive_solver. }
  destruct (_ && _).
  - split; [done|]. intros (_ & g & ->%Hreal' & Hg & _). by apply Hdol in Hg.
  - rewrite match_levels_spec by (done || lia). rewrite drop_0.
    split; [|naive_solver]. intros Hm. split; [done|]. exists f. split_and!; [by apply Hreal'|by apply Hdol|done].
Qed.

(** ** What a valid filter is *)

(** Wildcards stand alone in their level, and [#] only in the last one. *)
Inductive levels_ok : list pystr -> Prop :=
| levels_ok_nil : levels_ok []
| levels_ok_hash : levels_ok [HASH]
| levels_ok_plus ls : levels_ok ls -> levels_ok (PLUS :: ls)
| levels_ok_level l ls : 35 ∉ l -> 43 ∉ l -> levels_ok ls -> levels_ok (l :: ls).

Lemma has_char_true c s : has_char c s = true <-> c ∈ s.
Proof. unfold has_char. by rewrite bool_decide_eq_true. Qed.

Lemma has_char_false c s : has_char c s = false <-> c ∉ s.
Proof. unfold has_char. by rewrite bool_decide_eq_false. Qed.

Lemma check_levels_spec n ls i :
  n = (i + length ls)%nat ->
  (check_levels n i ls = Ok true <-> levels_ok ls) /\
  (check_levels n i ls = Ok true \/ check_levels n i ls = Raise ValueError).
Proof.
  revert i. induction ls as [|l ls IH]; intros i Hn; cbn [check_levels].
  { split; [split; [by constructor|done]|by left]. }
  simpl in Hn. destruct (IH (S i) ltac:(lia)) as [IH1 IH2].
  destruct (has_char 35 l) eqn:H35; [apply has_char_true in H35|apply has_char_false in H35]; cbn [andb].
  - case_bool_decide as Hl.
    { split; [|by right]. split; [done|]. intros Hok. inversion Hok; subst; try done; set_solver. }
    subst l. destruct (Nat.eqb_spec i (n - 1)) as [Hi|Hi]; cbn [negb andb].
    + assert (ls = []) as -> by (destruct ls; [done|simpl in *; lia]). split; [|by left].
      split; [intros _; constructor|done].
    + split; [|by right]. split; [done|]. intros Hok. exfalso. inversion Hok; subst; [simpl in *; lia|]. set_solver.
  - destruct (has_char 43 l) eqn:H43; [apply has_char_true in H43|apply has_char_false in H43]; cbn [andb].
    + case_bool_decide as Hl.
      { split; [|by right]. split; [done|]. intros Hok. inversion Hok; subst; try done; set_solver. }
      subst l. split; [|done]. rewrite IH1. split; [by constructor|].
      intros Hok. inversion Hok; subst; [done|set_solver].
    + split; [|done]. rewrite IH1. split; [by constructor|].
      intros Hok. inversion Hok; subst; try done; set_solver.
Qed.

(** Counting a character level by level. *)
Lemma count_char_cons c x s : count_char c (x :: s) = (if decide (x = c) then 1 else 0) + count_char c s.
Proof. unfold count_char. rewrite filter_cons. case_decide; [by rewrite zlen_cons|lia]. Qed.

Lemma count_split c s :
  c <> slash -> count_char c s = foldr (fun l n => count_char c l + n) 0 (split_on slash s).
Proof.
  intros Hc. induction s as [|x s IH]; [done|]. rewrite count_char_cons, IH. simpl.
  destruct (decide (x = slash)) as [->|Hx]; [by rewrite decide_False by done|].
  destruct (split_on slash s) as [|w ws] eqn:E; [by apply split_on_nonempty in E|]. simpl.
  rewrite count_char_cons. lia.
Qed.

Lemma count_absent c s : c ∉ s -> count_char c s = 0.
Proof.
  induction s as [|x s IH]; [done|]. intros Hn. rewrite count_char_cons, decide_False by set_solver.
  rewrite IH by set_solver. done.
Qed.

Lemma levels_ok_count ls : levels_ok ls -> foldr (fun l n => count_char 35 l + n) 0 ls <= 1.
Proof.
  induction 1 as [| |ls _ IH|l ls H35 _ _ IH]; simpl; [lia| | |].
  - change (count_char 35 HASH) with 1. lia.
  - change (count_char 35 PLUS) with 0. lia.
  - rewrite (count_absent 35 l H35). lia.
Qed.

(** The part of a subscription filter the level rules are checked on, and the
    rules for the share name. *)
Inductive filter_body : pystr -> pystr -> Prop :=
| body_plain f : ~ SHARE `prefix_of` f -> filter_body f f
| body_shared group f :
    slash ∉ group -> group <> [] -> 43 ∉ group -> 35 ∉ group -> f <> [] ->
    filter_body (SHARE ++ group ++ [slash] ++ f) f.

Definition filter_wf (f : pystr) : Prop := exists b, filter_body f b /\ levels_ok (split_on slash b).

Lemma slash_split_unique g b g' b' :
  slash ∉ g -> slash ∉ g' -> (g ++ slash :: b) = (g' ++ slash :: b') -> g = g' /\ b = b'.
Proof.
  intros Hg Hg' E. apply (f_equal (split_go (fun s => [s]) [])) in E.
  rewrite !split_go_app in E by done. by injection E as -> ->.
Qed.

Lemma filter_body_shared s b :
  filter_body (SHARE ++ s) b <->
  exists g, (slash ∉ g) /\ s = (g ++ slash :: b) /\ g <> [] /\ (43 ∉ g) /\ (35 ∉ g) /\ b <> [].
Proof.
  split.
  - intros Hb. remember (SHARE ++ s) as f0 eqn:E0. destruct Hb as [f Hn|g f Hg Hne H43 H35 Hf].
    + destruct Hn. rewrite E0. by apply prefix_app_r.
    + apply app_inv_head in E0. exists g. by split_and!.
  - intros (g & Hg & -> & H1 & H2 & H3 & H4). by apply (body_shared g b).
Qed.

Lemma filter_work_spec f :
  match filter_work f with
  | Ok b => forall b', filter_body f b' <-> b' = b
  | Raise e => e = ValueError /\ forall b', ~ filter_body f b'
  end.
Proof.
  unfold filter_work. destruct (startswith f SHARE) eqn:E.
  2: { intros b'. split.
       - intros Hb. destruct Hb as [f Hn|g f Hg]; [done|].
         assert (startswith (SHARE ++ g ++ [slash] ++ f) SHARE = true) by (apply startswith_share; eauto). congruence.
       - intros ->. constructor. unfold startswith in E. by apply bool_decide_eq_false in E. }
  apply startswith_share in E as [s ->]. destruct (split_share s) as [H1 H2].
  destruct (slash_split s) as [Hs|(g & b & Hg & ->)].
  { rewrite H1 by done. split; [done|]. intros b' (g & _ & -> & _)%filter_body_shared. set_solver. }
  rewrite (H2 g b Hg eq_refl).
  change ([lit "$share"; g; b] !! 1%nat) with (Some g). change ([lit "$share"; g; b] !! 2%nat) with (Some b).
  assert (forall b', filter_body (SHARE ++ g ++ slash :: b) b' <->
    b' = b /\ g <> [] /\ (43 ∉ g) /\ (35 ∉ g) /\ b <> []) as Hinv.
  { intros b'. rewrite filter_body_shared. split; [|naive_solver].
    intros (g' & Hg' & E & Hr). destruct (slash_split_unique _ _ _ _ Hg Hg' E) as [-> ->]. naive_solver. }
  cbv beta iota zeta. case_bool_decide; [split; [done|]; intros b'; rewrite Hinv; naive_solver|].
  destruct (has_char 43 g || has_char 35 g) eqn:Ec.
  { apply orb_true_iff in Ec. rewrite !has_char_true in Ec. split; [done|]. intros b'. rewrite Hinv. naive_solver. }
  apply orb_false_iff in Ec. rewrite !has_char_false in Ec.
  case_bool_decide; [split; [done|]; intros b'; rewrite Hinv; naive_solver|].
  intros b'. rewrite Hinv. naive_solver.
Qed.

(** Filter validation decides well-formedness.  An empty filter raises,
    one with a null character is rejected with [False], and of the others
    exactly the well-formed ones — wildcards alone in their level, [#] last,
    share name present, wildcard-free and followed by a filter — are accepted
    while the rest raise [ValueError]. *)
Theorem validate_topic_filter_spec f :
  match validate_topic_filter f with
  | Ok true => f <> [] /\ (0 ∉ f) /\ filter_wf f
  | Ok false => f <> [] /\ 0 ∈ f
  | Raise e => e = ValueError /\ (f = [] \/ ((0 ∉ f) /\ ~ filter_wf f))
  end.
Proof.
  unfold validate_topic_filter. case_bool_decide; [naive_solver|].
  destruct (has_char 0 f) eqn:H0; [apply has_char_true in H0|apply has_char_false in H0]; [done|].
  pose proof (filter_work_spec f) as Hw. destruct (filter_work f) as [b|e]; cbn [rbind].
  2: { destruct Hw as [-> Hn]. split; [done|]. right. split; [done|]. intros (b & Hb & _). by apply (Hn b). }
  assert (filter_wf f <-> levels_ok (split_on slash b)) as Hwf.
  { unfold filter_wf. split; [by intros (b' & ->%Hw & ?)|]. intros. exists b. by rewrite Hw. }
  destruct (check_levels_spec (length (split_on slash b)) (split_on slash b) 0 eq_refl) as [Hok Hres].
  rewrite Z.gtb_ltb. destruct (Z.ltb_spec 1 (count_char 35 b)) as [Hc|Hc].
  - split; [done|]. right. split; [done|]. rewrite Hwf. intros Hl%levels_ok_count. rewrite count_split in Hc by done. lia.
  - destruct Hres as [Hr|Hr]; rewrite Hr.
    + split_and!; [done..|]. by apply Hwf, Hok.
    + split; [done|]. right. split; [done|]. rewrite Hwf. intros Hl%Hok. congruence.
Qed.

(** A concrete pass through the matcher, the rules of [$] and of [#]. *)
Lemma topic_match_samples :
  topic_matches_filter (lit "a/b/c") (lit "a/+/#") = true /\
  topic_matches_filter (lit "a") (lit "a/#") = true /\
  topic_matches_filter (lit "$SYS/x") (lit "#") = false /\
  topic_matches_filter (lit "a/b") (lit "$share/g/a/+") = true /\
  validate_topic_filter (lit "a/#/b") = Raise ValueError /\
  validate_topic_filter (lit "$share/g/a/#") = Ok true.
Proof. by vm_compute. Qed.

End MqttTopics.
