(* ===== verification/MqttBroker.v ===== *)
(** * The MQTT broker (blackbull/mqtt/broker.py)

    [BrokerActor] owns every piece of routing state and handles one message of
    its inbox at a time, so a handler is a function of the broker's state.  A
    connection actor is represented by its identity, a session by the entry of
    [_sessions] that every reference to it denotes, and what a handler sends to
    connection actors by the field [sent], in order.  [loop.time()] is an
    argument of the handlers that read it, the expiry timer the instant it is
    armed at.  Log calls are left out.  An exception that leaves a handler is a
    [Raise]: it ends the broker's task, since [Actor.run] has no handler. *)

From Stdlib Require Import ZArith Lia.
From stdpp Require Import base tactics numbers option strings sets list.
From S2P Require Import Prelude PyLib PyText MqttWire MqttPackets MqttTopics.
Import MqttWire MqttPackets MqttTopics.

Module MqttBroker.

(** ** Reason codes and constants *)

Definition SUCCESS : Z := 0x00.
Definition PROTOCOL_ERROR : Z := 0x82.
Definition UNSUPPORTED_PROTOCOL_VERSION : Z := 0x84.
Definition SESSION_TAKEN_OVER : Z := 0x8E.
Definition TOPIC_FILTER_INVALID : Z := 0x8F.
Definition TOPIC_NAME_INVALID : Z := 0x90.
Definition QUOTA_EXCEEDED : Z := 0x97.
Definition V5_0 : Z := 5.
Definition _EXPIRY_NEVER : Z := 0xFFFFFFFF.

(** ** Messages *)

Definition conn_id : Type := Z.

(** Connection actor to broker. *)
Inductive actor_message : Type :=
| Attach (connect : MQTTConnect)
| ClientSubscribe (subscribe : MQTTSubscribe)
| ClientUnsubscribe (unsubscribe : MQTTUnsubscribe)
| ClientPublish (publish : MQTTPublish)
| ClientPuback (packet_id : Z)
| ClientPubrec (packet_id : Z)
| ClientPubrel (packet_id : Z)
| ClientPubcomp (packet_id : Z)
| Detach (graceful : bool) (session_expiry_interval : option Z)
| _SweepExpired.

(** Broker to connection actor. *)
Inductive reply : Type :=
| Send (packet : MQTTMessage)
| Close (reason_code : Z).

(** ** State *)

Inductive qos2_in_state : Type := PUBREC_SENT.
Inductive qos2_out_state : Type := PUBLISH_SENT | PUBREL_SENT.
#[export] Instance qos2_out_state_eq_dec : EqDecision qos2_out_state.
Proof. solve_decision. Defined.

Record qos2_entry : Type := mkQos2 {
  q2_state : qos2_out_state;
  q2_packet : option MQTTPublish
}.

Record _Held : Type := mkHeld {
  h_publish : MQTTPublish;
  h_qos : Z;
  h_retain : bool
}.

Abbreviation subscription := (pystr * Z * sub_options)%type.

Record session : Type := mkSession {
  subs : list subscription;
  pending_qos1_out : dict Z MQTTPublish;
  pending_qos2_in : dict Z qos2_in_state;
  pending_qos2_out : dict Z qos2_entry;
  outbound_queue : list _Held;
  receive_maximum : Z;
  _expiry : Z;
  _expires_at : option Z;
  _next_pid : Z
}.

Definition _new_broker_session : session := mkSession [] [] [] [] [] 65535 0 None 0.

Definition set_subs x s := mkSession x (pending_qos1_out s) (pending_qos2_in s) (pending_qos2_out s)
  (outbound_queue s) (receive_maximum s) (_expiry s) (_expires_at s) (_next_pid s).
Definition set_q1out x s := mkSession (subs s) x (pending_qos2_in s) (pending_qos2_out s)
  (outbound_queue s) (receive_maximum s) (_expiry s) (_expires_at s) (_next_pid s).
Definition set_q2in x s := mkSession (subs s) (pending_qos1_out s) x (pending_qos2_out s)
  (outbound_queue s) (receive_maximum s) (_expiry s) (_expires_at s) (_next_pid s).
Definition set_q2out x s := mkSession (subs s) (pending_qos1_out s) (pending_qos2_in s) x
  (outbound_queue s) (receive_maximum s) (_expiry s) (_expires_at s) (_next_pid s).
Definition set_queue x s := mkSession (subs s) (pending_qos1_out s) (pending_qos2_in s) (pending_qos2_out s)
  x (receive_maximum s) (_expiry s) (_expires_at s) (_next_pid s).
Definition set_rmax x s := mkSession (subs s) (pending_qos1_out s) (pending_qos2_in s) (pending_qos2_out s)
  (outbound_queue s) x (_expiry s) (_expires_at s) (_next_pid s).
Definition set_expiry x s := mkSession (subs s) (pending_qos1_out s) (pending_qos2_in s) (pending_qos2_out s)
  (outbound_queue s) (receive_maximum s) x (_expires_at s) (_next_pid s).
Definition set_expires_at x s := mkSession (subs s) (pending_qos1_out s) (pending_qos2_in s) (pending_qos2_out s)
  (outbound_queue s) (receive_maximum s) (_expiry s) x (_next_pid s).
Definition set_next_pid x s := mkSession (subs s) (pending_qos1_out s) (pending_qos2_in s) (pending_qos2_out s)
  (outbound_queue s) (receive_maximum s) (_expiry s) (_expires_at s) x.

(** The caps of the constructor; 0 disables one. *)
Record config : Type := mkConfig {
  _max_retained : Z;
  _max_queued : Z;
  _receive_maximum : Z;
  _max_packet_size : Z;
  _max_subscriptions : Z;
  _max_sessions : Z
}.

Definition share_key : Type := pystr * pystr.

Record broker : Type := mkBroker {
  cfg : config;
  _clients : dict pystr conn_id;
  _client_by_conn : dict conn_id pystr;
  _sessions : dict pystr session;
  _retained : dict pystr MQTTPublish;
  _wills : dict pystr MQTTPublish;
  _auto_seq : Z;
  _share_rotation : dict share_key Z;
  _expiry_timer : option Z;
  sent : list (conn_id * reply)
}.

Definition __init__ (c : config) : broker := mkBroker c [] [] [] [] [] 0 [] None [].

Definition set_clients x b := mkBroker (cfg b) x (_client_by_conn b) (_sessions b) (_retained b) (_wills b)
  (_auto_seq b) (_share_rotation b) (_expiry_timer b) (sent b).
Definition set_by_conn x b := mkBroker (cfg b) (_clients b) x (_sessions b) (_retained b) (_wills b)
  (_auto_seq b) (_share_rotation b) (_expiry_timer b) (sent b).
Definition set_sessions x b := mkBroker (cfg b) (_clients b) (_client_by_conn b) x (_retained b) (_wills b)
  (_auto_seq b) (_share_rotation b) (_expiry_timer b) (sent b).
Definition set_retained x b := mkBroker (cfg b) (_clients b) (_client_by_conn b) (_sessions b) x (_wills b)
  (_auto_seq b) (_share_rotation b) (_expiry_timer b) (sent b).
Definition set_wills x b := mkBroker (cfg b) (_clients b) (_client_by_conn b) (_sessions b) (_retained b) x
  (_auto_seq b) (_share_rotation b) (_expiry_timer b) (sent b).
Definition set_auto_seq x b := mkBroker (cfg b) (_clients b) (_client_by_conn b) (_sessions b) (_retained b)
  (_wills b) x (_share_rotation b) (_expiry_timer b) (sent b).
Definition set_rotation x b := mkBroker (cfg b) (_clients b) (_client_by_conn b) (_sessions b) (_retained b)
  (_wills b) (_auto_seq b) x (_expiry_timer b) (sent b).
Definition set_timer x b := mkBroker (cfg b) (_clients b) (_client_by_conn b) (_sessions b) (_retained b)
  (_wills b) (_auto_seq b) (_share_rotation b) x (sent b).
Definition set_sent x b := mkBroker (cfg b) (_clients b) (_client_by_conn b) (_sessions b) (_retained b)
  (_wills b) (_auto_seq b) (_share_rotation b) (_expiry_timer b) x.

(** [await conn.send(msg)] *)
Definition send (conn : conn_id) (msg : reply) (b : broker) : broker := set_sent (sent b ++ [(conn, msg)]) b.

(** Mutate the session object under [client_id], if it is there. *)
Definition update_session (client_id : pystr) (f : session -> session) (b : broker) : broker :=
  match dget (_sessions b) client_id with
  | Some s => set_sessions (dset (_sessions b) client_id (f s)) b
  | None => b
  end.

(** ** Helpers *)

Definition _valid_filter (topic_filter : pystr) : bool :=
  match validate_topic_filter topic_filter with
  | Ok v => v
  | Raise _ => false
  end.

Definition _parse_share (topic_filter : pystr) : option share_key :=
  if negb (startswith topic_filter SHARE) then None
  else
    let parts := split_max 2 slash topic_filter in
    match parts !! 1%nat, parts !! 2%nat with
    | Some group, Some filter => Some (group, filter)
    | _, _ => None
    end.

(** [self._client_by_conn.get(id(conn))] with its session. *)
Definition _session_for (conn : conn_id) (b : broker) : option (pystr * session) :=
  match dget (_client_by_conn b) conn with
  | Some client_id => match dget (_sessions b) client_id with Some s => Some (client_id, s) | None => None end
  | None => None
  end.

(** The search of [_alloc_pid]: [range(65535)] candidates. *)
Fixpoint alloc_loop (fuel : nat) (pid : Z) (in_use : list Z) : option Z :=
  match fuel with
  | O => None
  | S fuel =>
      let pid := pid mod 65535 + 1 in
      if bool_decide (pid ∉ in_use) then Some pid else alloc_loop fuel pid in_use
  end.

Definition in_use (s : session) : list Z := dkeys (pending_qos1_out s) ++ dkeys (pending_qos2_out s).

Definition _alloc_pid (s : session) : result (Z * session) :=
  match alloc_loop (Z.to_nat 65535) (_next_pid s) (in_use s) with
  | Some pid => Ok (pid, set_next_pid pid s)
  | None => Raise RuntimeError
  end.

Definition _store_retained (publish : MQTTPublish) (b : broker) : bool * broker :=
  if bool_decide (payload publish = []) then (true, set_retained (dpop (_retained b) (topic publish)) b)
  else if negb (_max_retained (cfg b) =? 0) && negb (dmem (_retained b) (topic publish))
          && (zlen (_retained b) >=? _max_retained (cfg b))
  then (false, b)
  else (true, set_retained (dset (_retained b) (topic publish) publish) b).

(** The [MQTTPublish(...)] constructor. *)
Definition new_publish (topic : pystr) (payload : bytes) (qos : Z) (packet_id : option Z)
    (retain : bool) (properties : props) : result MQTTPublish :=
  let m := mkPublish topic payload qos packet_id retain false properties in
  let* _ := publish_post_init m in Ok m.

Definition _in_flight (s : session) : Z := zlen (pending_qos1_out s) + zlen (pending_qos2_out s).

(** ** Delivery *)

Definition _enqueue_outbound (client_id : pystr) (publish : MQTTPublish) (qos : Z) (retain : bool)
    (b : broker) : broker :=
  update_session client_id (fun s =>
    if negb (_max_queued (cfg b) =? 0) && (zlen (outbound_queue s) >=? _max_queued (cfg b)) then s
    else set_queue (outbound_queue s ++ [mkHeld publish qos retain]) s) b.

Definition _send_qos (conn : conn_id) (client_id : pystr) (s : session) (publish : MQTTPublish) (qos : Z)
    (retain : bool) (b : broker) : result broker :=
  let* '(packet_id, s) := _alloc_pid s in
  let* out := new_publish (topic publish) (payload publish) qos (Some packet_id) retain (p_properties publish) in
  let s :=
    if qos =? 1 then set_q1out (dset (pending_qos1_out s) packet_id out) s
    else set_q2out (dset (pending_qos2_out s) packet_id (mkQos2 PUBLISH_SENT (Some out))) s in
  Ok (send conn (Send (Publish out)) (set_sessions (dset (_sessions b) client_id s) b)).

Definition _deliver (conn : conn_id) (client_id : pystr) (publish : MQTTPublish) (granted_qos : Z)
    (retain : bool) (b : broker) : result broker :=
  let qos := Z.min (qos publish) granted_qos in
  if qos =? 0 then
    let* out := new_publish (topic publish) (payload publish) 0 None retain (p_properties publish) in
    Ok (send conn (Send (Publish out)) b)
  else
    match dget (_sessions b) client_id with
    | None => Ok b
    | Some s =>
        if _in_flight s >=? receive_maximum s then Ok (_enqueue_outbound client_id publish qos retain b)
        else _send_qos conn client_id s publish qos retain b
    end.

(** The [while queue and self._in_flight(session) < limit] loop; every turn
    takes a message from the queue. *)
Fixpoint drain_loop (fuel : nat) (conn : conn_id) (client_id : pystr) (b : broker) : result broker :=
  match dget (_sessions b) client_id with
  | None => Ok b
  | Some s =>
      match outbound_queue s with
      | [] => Ok b
      | held :: queue =>
          if _in_flight s <? receive_maximum s then
            match fuel with
            | O => Raise OutOfFuel
            | S fuel =>
                let* b := _send_qos conn client_id (set_queue queue s) (h_publish held) (h_qos held)
                            (h_retain held) b in
                drain_loop fuel conn client_id b
            end
          else Ok b
      end
  end.

Definition _drain_outbound (conn : conn_id) (b : broker) : result broker :=
  match _session_for conn b with
  | None => Ok b
  | Some (client_id, s) => drain_loop (length (outbound_queue s)) conn client_id b
  end.

(** One connected member of a share group. *)
Record member : Type := mkMember {
  m_conn : conn_id;
  m_client : pystr;
  m_qos : Z;
  m_opts : sub_options
}.

Definition groups : Type := dict share_key (list member).

(** [share_groups.setdefault(share, []).append(...)] *)
Definition add_member (k : share_key) (m : member) (g : groups) : groups :=
  match dget g k with
  | Some ms => dset g k (ms ++ [m])
  | None => dset g k [m]
  end.

(** The loop over one client's subscriptions: the granted QoS, Retain As
    Published, and the share groups. *)
Fixpoint scan_subs (publish : MQTTPublish) (source : option conn_id) (conn : conn_id) (client_id : pystr)
    (l : list subscription) (granted : option Z) (rap : bool) (g : groups) : option Z * bool * groups :=
  match l with
  | [] => (granted, rap, g)
  | (topic_filter, q, opts) :: l =>
      if negb (topic_matches_filter (topic publish) topic_filter)
      then scan_subs publish source conn client_id l granted rap g
      else match _parse_share topic_filter with
           | Some share =>
               scan_subs publish source conn client_id l granted rap
                 (add_member share (mkMember conn client_id q opts) g)
           | None =>
               if so_no_local opts && bool_decide (Some conn = source)
               then scan_subs publish source conn client_id l granted rap g
               else scan_subs publish source conn client_id l
                      (Some (match granted with None => q | Some g0 => Z.max g0 q end))
                      (rap || so_retain_as_published opts) g
           end
  end.

Fixpoint route_clients (publish : MQTTPublish) (source : option conn_id) (cs : list (pystr * conn_id))
    (g : groups) (b : broker) : result (groups * broker) :=
  match cs with
  | [] => Ok (g, b)
  | (client_id, conn) :: cs =>
      match dget (_sessions b) client_id with
      | None => route_clients publish source cs g b
      | Some s =>
          let '(granted, rap, g) := scan_subs publish source conn client_id (subs s) None false g in
          match granted with
          | None => route_clients publish source cs g b
          | Some q =>
              let* b := _deliver conn client_id publish q (rap && retain publish) b in
              route_clients publish source cs g b
          end
      end
  end.

Fixpoint route_groups (publish : MQTTPublish) (g : groups) (b : broker) : result broker :=
  match g with
  | [] => Ok b
  | (share, members) :: g =>
      let cursor := default 0 (dget (_share_rotation b) share) mod zlen members in
      let b := set_rotation (dset (_share_rotation b) share (cursor + 1)) b in
      let* m := zget members cursor in
      let* b := _deliver (m_conn m) (m_client m) publish (m_qos m)
                  (so_retain_as_published (m_opts m) && retain publish) b in
      route_groups publish g b
  end.

Definition _route (publish : MQTTPublish) (source : option conn_id) (b : broker) : result broker :=
  let* '(g, b) := route_clients publish source (_clients b) [] b in
  route_groups publish g b.

(** ** Session expiry *)

Definition deadlines (b : broker) : list Z := omap _expires_at (dvalues (_sessions b)).

Definition _arm_expiry_timer (now : Z) (b : broker) : broker :=
  match deadlines b with
  | [] => set_timer None b
  | d :: ds => set_timer (Some (Z.max now (foldr Z.min d ds))) b
  end.

(** The share groups of a list of filters. *)
Definition shares (filters : list pystr) : list share_key := omap _parse_share filters.

Definition _prune_share_rotation (removed_filters : list pystr) (b : broker) : broker :=
  let live := dvalues (_sessions b) ≫= (fun s => shares ((fun x => x.1.1) <$> subs s)) in
  let stale := filter (fun k => k ∉ live) (shares removed_filters) in
  set_rotation (foldr (fun k r => dpop r k) (_share_rotation b) stale) b.

(** The filters of a session. *)
Definition filters (s : session) : list pystr := (fun x => x.1.1) <$> subs s.

Definition is_expired (now : Z) (s : session) : bool :=
  match _expires_at s with Some at_ => at_ <=? now | None => false end.

(** [session = self._sessions.pop(client_id)] and the pruning after it. *)
Definition drop_session (client_id : pystr) (b : broker) : broker :=
  match dget (_sessions b) client_id with
  | None => b
  | Some s => _prune_share_rotation (filters s) (set_sessions (dpop (_sessions b) client_id) b)
  end.

Definition _sweep_expired (now : Z) (b : broker) : broker :=
  let expired := (filter (fun x => is_expired now x.2 = true) (_sessions b)).*1 in
  _arm_expiry_timer now (foldl (fun b cid => drop_session cid b) b expired).

(** ** Handlers *)

Definition connack (session_present : bool) (reason_code : Z) (properties : props) : reply :=
  Send (Connack (mkConnack session_present reason_code properties)).

Definition disconnect (reason_code : Z) : reply := Send (Disconnect (mkReason (Some reason_code) [])).

Definition _connack_properties (b : broker) : props :=
  let ps := [] in
  let ps := if _max_packet_size (cfg b) =? 0 then ps
            else dset ps "maximum_packet_size"%string (PInt (_max_packet_size (cfg b))) in
  if _receive_maximum (cfg b) =? 0 then ps
  else dset ps "receive_maximum"%string (PInt (_receive_maximum (cfg b))).

(** [properties.get(key)] of an integer property. *)
Definition int_prop (ps : props) (key : string) : option Z :=
  match dget ps key with Some (PInt n) => Some n | _ => None end.

(** [replace(pending, dup=True)], constructor checks included. *)
Definition with_dup (p : MQTTPublish) : result MQTTPublish :=
  let m := mkPublish (topic p) (payload p) (qos p) (packet_id p) (retain p) true (p_properties p) in
  let* _ := publish_post_init m in Ok m.

Definition pubrel (packet_id : Z) : reply := Send (Pubrel (mkAck packet_id SUCCESS [])).

Fixpoint replay_qos1 (conn : conn_id) (l : list MQTTPublish) (b : broker) : result broker :=
  match l with
  | [] => Ok b
  | p :: l => let* p := with_dup p in replay_qos1 conn l (send conn (Send (Publish p)) b)
  end.

Fixpoint replay_qos2 (conn : conn_id) (l : list (Z * qos2_entry)) (b : broker) : result broker :=
  match l with
  | [] => Ok b
  | (packet_id, entry) :: l =>
      match q2_state entry, q2_packet entry with
      | PUBLISH_SENT, Some publish =>
          let* p := with_dup publish in replay_qos2 conn l (send conn (Send (Publish p)) b)
      | _, _ => replay_qos2 conn l (send conn (pubrel packet_id) b)
      end
  end.

Definition _replay_pending (conn : conn_id) (s : session) (b : broker) : result broker :=
  let* b := replay_qos1 conn (dvalues (pending_qos1_out s)) b in
  replay_qos2 conn (pending_qos2_out s) b.

(** The Will template of a CONNECT. *)
Definition will_of (connect : MQTTConnect) (will_topic : pystr) : result MQTTPublish :=
  new_publish will_topic (default [] (will_payload connect)) (will_qos connect)
    (if will_qos connect >? 0 then Some 1 else None) (will_retain connect) (will_properties connect).

(** Registration of the connection, after a taken-over one is sent away. *)
Definition register (conn : conn_id) (client_id : pystr) (b : broker) : broker :=
  let b :=
    match dget (_clients b) client_id with
    | Some existing =>
        if bool_decide (existing = conn) then b
        else
          let b := set_by_conn (dpop (_client_by_conn b) existing) b in
          let b := send existing (disconnect SESSION_TAKEN_OVER) b in
          send existing (Close SESSION_TAKEN_OVER) b
    | None => b
    end in
  let b := set_clients (dset (_clients b) client_id conn) b in
  set_by_conn (dset (_client_by_conn b) conn client_id) b.

Definition store_will (client_id : pystr) (connect : MQTTConnect) (b : broker) : result broker :=
  match will_topic connect with
  | Some t => let* w := will_of connect t in Ok (set_wills (dset (_wills b) client_id w) b)
  | None => Ok (set_wills (dpop (_wills b) client_id) b)
  end.

(** The session the CONNECT resumes or starts. *)
Definition open_session (client_id : pystr) (connect : MQTTConnect) (b : broker) : bool * session :=
  let expiry := default 0 (int_prop (c_properties connect) "session_expiry_interval"%string) in
  if clean_start connect then (false, set_expiry expiry _new_broker_session)
  else match dget (_sessions b) client_id with
       | Some existing => (true, set_expiry expiry existing)
       | None => (false, set_expiry expiry _new_broker_session)
       end.

(** [if declared: session['receive_maximum'] = declared] *)
Definition adopt_receive_maximum (connect : MQTTConnect) (s : session) : session :=
  match int_prop (c_properties connect) "receive_maximum"%string with
  | Some n => if n =? 0 then s else set_rmax n s
  | None => s
  end.

Definition refuse_connect (conn : conn_id) (reason : Z) (b : broker) : broker :=
  send conn (Close reason) (send conn (connack false reason []) b).

Definition _on_attach (now : Z) (conn : conn_id) (connect : MQTTConnect) (b : broker) : result broker :=
  if negb (proto_level connect =? V5_0) then Ok (refuse_connect conn UNSUPPORTED_PROTOCOL_VERSION b)
  else
    let '(client_id, b) :=
      if bool_decide (client_id connect = [])
      then (lit "auto-" ++ str_int (_auto_seq b + 1), set_auto_seq (_auto_seq b + 1) b)
      else (client_id connect, b) in
    let b := _sweep_expired now b in
    if negb (_max_sessions (cfg b) =? 0) && negb (dmem (_sessions b) client_id)
       && (zlen (_sessions b) >=? _max_sessions (cfg b))
    then Ok (refuse_connect conn QUOTA_EXCEEDED b)
    else
      let b := register conn client_id b in
      let* b := store_will client_id connect b in
      let '(session_present, s) := open_session client_id connect b in
      let s := set_expires_at None s in
      let b := set_sessions (dset (_sessions b) client_id s) b in
      let b := _arm_expiry_timer now b in
      let s := adopt_receive_maximum connect s in
      let b := set_sessions (dset (_sessions b) client_id s) b in
      let b := send conn (connack session_present SUCCESS (_connack_properties b)) b in
      if session_present then _replay_pending conn s b else Ok b.

Fixpoint deliver_retained_loop (conn : conn_id) (client_id topic_filter : pystr) (q : Z)
    (l : list (pystr * MQTTPublish)) (b : broker) : result broker :=
  match l with
  | [] => Ok b
  | (topic, retained) :: l =>
      if topic_matches_filter topic topic_filter then
        let* b := _deliver conn client_id retained q true b in
        deliver_retained_loop conn client_id topic_filter q l b
      else deliver_retained_loop conn client_id topic_filter q l b
  end.

Definition _deliver_retained (conn : conn_id) (client_id topic_filter : pystr) (q : Z) (b : broker) : result broker :=
  deliver_retained_loop conn client_id topic_filter q (_retained b) b.

(** The [{}] of a subscription without options. *)
Definition no_options : sub_options := mkSubOptions 0 false false 0.

(** The loop over the requested subscriptions.  [None] is the early return of
    a protocol error, after which there is no SUBACK. *)
Fixpoint subscribe_loop (conn : conn_id) (client_id : pystr) (l : list (pystr * Z)) (options : list sub_options)
    (reason_codes : list Z) (b : broker) : result (option (list Z) * broker) :=
  match l with
  | [] => Ok (Some reason_codes, b)
  | (topic_filter, q) :: l =>
      let k := subscribe_loop conn client_id l (tail options) in
      if negb (_valid_filter topic_filter) then k (reason_codes ++ [TOPIC_FILTER_INVALID]) b
      else
        let opts := default no_options (head options) in
        let share := _parse_share topic_filter in
        if bool_decide (is_Some share) && so_no_local opts then
          Ok (None, send conn (Close PROTOCOL_ERROR) (send conn (disconnect PROTOCOL_ERROR) b))
        else
          let opts := mkSubOptions q (so_no_local opts) (so_retain_as_published opts) (so_retain_handling opts) in
          match dget (_sessions b) client_id with
          | None => k reason_codes b
          | Some s =>
              let existed := bool_decide (topic_filter ∈ filters s) in
              if negb (_max_subscriptions (cfg b) =? 0) && negb existed
                 && (zlen (subs s) >=? _max_subscriptions (cfg b))
              then k (reason_codes ++ [QUOTA_EXCEEDED]) b
              else
                let subs' := filter (fun x => x.1.1 <> topic_filter) (subs s) ++ [(topic_filter, q, opts)] in
                let b := set_sessions (dset (_sessions b) client_id (set_subs subs' s)) b in
                let rh := so_retain_handling opts in
                let* b :=
                  if bool_decide (share = None) && negb (rh =? 2) && negb ((rh =? 1) && existed)
                  then _deliver_retained conn client_id topic_filter q b else Ok b in
                k (reason_codes ++ [q]) b
          end
  end.

Definition _on_subscribe (conn : conn_id) (m : MQTTSubscribe) (b : broker) : result broker :=
  match _session_for conn b with
  | None => Ok b
  | Some (client_id, _) =>
      let* '(codes, b) := subscribe_loop conn client_id (subscriptions m)
                            (default [] (subscription_options m)) [] b in
      match codes with
      | None => Ok b
      | Some codes => Ok (send conn (Send (Suback (mkCodes (default 0 (s_packet_id m)) codes []))) b)
      end
  end.

Definition _on_unsubscribe (conn : conn_id) (m : MQTTUnsubscribe) (b : broker) : broker :=
  match _session_for conn b with
  | None => b
  | Some (client_id, s) =>
      let b := set_sessions (dset (_sessions b) client_id
                 (set_subs (filter (fun x => x.1.1 ∉ topics m) (subs s)) s)) b in
      let b := _prune_share_rotation (topics m) b in
      send conn (Send (Unsuback (mkCodes (default 0 (u_packet_id m)) (replicate (length (topics m)) SUCCESS) []))) b
  end.

(** The packet identifier of a QoS 1 or 2 PUBLISH, which construction
    guarantees. *)
Definition pid_of (p : MQTTPublish) : Z := default 0 (packet_id p).

Definition _reject_publish (conn : conn_id) (p : MQTTPublish) (reason : Z) (b : broker) : broker :=
  if qos p =? 1 then send conn (Send (Puback (mkAck (pid_of p) reason []))) b
  else if qos p =? 2 then send conn (Send (Pubrec (mkAck (pid_of p) reason []))) b
  else send conn (Close reason) (send conn (disconnect reason) b).

Definition _qos2_accept_inbound (conn : conn_id) (packet_id : Z) (b : broker) : bool * broker :=
  match _session_for conn b with
  | None => (true, b)
  | Some (client_id, s) =>
      if dmem (pending_qos2_in s) packet_id then (false, b)
      else (true, set_sessions (dset (_sessions b) client_id
                    (set_q2in (dset (pending_qos2_in s) packet_id PUBREC_SENT) s)) b)
  end.

Definition _on_publish (conn : conn_id) (p : MQTTPublish) (b : broker) : result broker :=
  if negb (validate_topic_name (topic p)) then Ok (_reject_publish conn p TOPIC_NAME_INVALID b)
  else
    let '(stored, b) := if retain p then _store_retained p b else (true, b) in
    let ack := if negb stored then QUOTA_EXCEEDED else SUCCESS in
    if qos p =? 1 then
      _route p (Some conn) (send conn (Send (Puback (mkAck (pid_of p) ack []))) b)
    else if qos p =? 2 then
      let b := send conn (Send (Pubrec (mkAck (pid_of p) ack []))) b in
      let '(accepted, b) := _qos2_accept_inbound conn (pid_of p) b in
      if negb accepted then Ok b else _route p (Some conn) b
    else _route p (Some conn) b.

Definition _on_pubrel (conn : conn_id) (packet_id : Z) (b : broker) : broker :=
  let b := send conn (Send (Pubcomp (mkAck packet_id SUCCESS []))) b in
  match _session_for conn b with
  | None => b
  | Some (client_id, s) =>
      set_sessions (dset (_sessions b) client_id (set_q2in (dpop (pending_qos2_in s) packet_id) s)) b
  end.

Definition _on_pubrec (conn : conn_id) (packet_id : Z) (b : broker) : broker :=
  let b := send conn (pubrel packet_id) b in
  match _session_for conn b with
  | None => b
  | Some (client_id, s) =>
      set_sessions (dset (_sessions b) client_id
        (set_q2out (dset (pending_qos2_out s) packet_id (mkQos2 PUBREL_SENT None)) s)) b
  end.

(** [_clear_pending] on the two outbound buckets. *)
Definition clear_qos1 (conn : conn_id) (packet_id : Z) (b : broker) : broker :=
  match _session_for conn b with
  | None => b
  | Some (client_id, s) =>
      set_sessions (dset (_sessions b) client_id (set_q1out (dpop (pending_qos1_out s) packet_id) s)) b
  end.

Definition clear_qos2 (conn : conn_id) (packet_id : Z) (b : broker) : broker :=
  match _session_for conn b with
  | None => b
  | Some (client_id, s) =>
      set_sessions (dset (_sessions b) client_id (set_q2out (dpop (pending_qos2_out s) packet_id) s)) b
  end.

(** What becomes of the session of a client that has gone. *)
Definition close_session (now : Z) (client_id : pystr) (session_expiry_interval : option Z) (b : broker) : broker :=
  match dget (_sessions b) client_id with
  | None => b
  | Some s =>
      let '(declared, s) :=
        match session_expiry_interval with
        | Some n => if _expiry s >? 0 then (n, set_expiry n s) else (_expiry s, s)
        | None => (_expiry s, s)
        end in
      if declared <=? 0 then _arm_expiry_timer now (drop_session client_id b)
      else if negb (declared =? _EXPIRY_NEVER) then
        _arm_expiry_timer now
          (set_sessions (dset (_sessions b) client_id (set_expires_at (Some (now + declared)) s)) b)
      else set_sessions (dset (_sessions b) client_id s) b
  end.

Definition _on_detach (now : Z) (conn : conn_id) (graceful : bool) (session_expiry_interval : option Z)
    (b : broker) : result broker :=
  match dget (_client_by_conn b) conn with
  | None => Ok b
  | Some client_id =>
      let b := set_by_conn (dpop (_client_by_conn b) conn) b in
      let b := if bool_decide (dget (_clients b) client_id = Some conn)
               then set_clients (dpop (_clients b) client_id) b else b in
      let will := dget (_wills b) client_id in
      let b := set_wills (dpop (_wills b) client_id) b in
      let* b :=
        match will with
        | Some will =>
            if negb graceful then
              let b := if retain will then (_store_retained will b).2 else b in
              _route will None b
            else Ok b
        | None => Ok b
        end in
      Ok (close_session now client_id session_expiry_interval b)
  end.

(** [_handle]: one message of the inbox. *)
Definition _handle (now : Z) (sender : conn_id) (msg : actor_message) (b : broker) : result broker :=
  match msg with
  | Attach connect => _on_attach now sender connect b
  | ClientPublish publish => _on_publish sender publish b
  | ClientSubscribe subscribe => _on_subscribe sender subscribe b
  | ClientUnsubscribe unsubscribe => Ok (_on_unsubscribe sender unsubscribe b)
  | ClientPubrel packet_id => Ok (_on_pubrel sender packet_id b)
  | ClientPubrec packet_id => Ok (_on_pubrec sender packet_id b)
  | ClientPubcomp packet_id => _drain_outbound sender (clear_qos2 sender packet_id b)
  | ClientPuback packet_id => _drain_outbound sender (clear_qos1 sender packet_id b)
  | Detach graceful interval => _on_detach now sender graceful interval b
  | _SweepExpired => Ok (_sweep_expired now b)
  end.

(** [Actor.run] over a finite inbox: the first exception ends it. *)
Fixpoint run (inbox : list (Z * conn_id * actor_message)) (b : broker) : result broker :=
  match inbox with
  | [] => Ok b
  | (now, sender, msg) :: inbox => let* b := _handle now sender msg b in run inbox b
  end.

(** ** Packet identifiers *)

(** The candidates of [_alloc_pid], in order. *)
Definition candidate (pid0 k : Z) : Z := (pid0 + k) mod 65535 + 1.

Lemma candidate_step pid0 k : candidate pid0 k mod 65535 + 1 = candidate pid0 (k + 1).
Proof.
  unfold candidate. rewrite Zplus_mod_idemp_l. f_equal. f_equal. lia.
Qed.

Lemma candidate_range pid0 k : 1 <= candidate pid0 k <= 65535.
Proof. unfold candidate. pose proof (Z.mod_pos_bound (pid0 + k) 65535 ltac:(lia)). lia. Qed.

Lemma candidate_inj pid0 i j : 0 <= i < 65535 -> 0 <= j < 65535 -> candidate pid0 i = candidate pid0 j -> i = j.
Proof.
  unfold candidate. intros Hi Hj E.
  assert ((pid0 + i) mod 65535 = (pid0 + j) mod 65535) as E' by lia.
  pose proof (Z.div_mod (pid0 + i) 65535). pose proof (Z.div_mod (pid0 + j) 65535). nia.
Qed.

Lemma alloc_loop_Some fuel pid used q :
  alloc_loop fuel pid used = Some q -> 1 <= q <= 65535 /\ q ∉ used.
Proof.
  revert pid. induction fuel as [|fuel IH]; intros pid; cbn [alloc_loop]; [done|].
  case_bool_decide as Hin; [|apply IH]. intros [= <-]. split; [|done].
  pose proof (candidate_range pid 0). unfold candidate in *. by rewrite Z.add_0_r in *.
Qed.

(** A failed search has met every candidate it tried. *)
Lemma alloc_loop_None fuel pid0 k used :
  alloc_loop fuel (candidate pid0 k) used = None ->
  forall j, k < j <= k + Z.of_nat fuel -> candidate pid0 j ∈ used.
Proof.
  revert k. induction fuel as [|fuel IH]; intros k; cbn [alloc_loop]; [lia|].
  rewrite candidate_step. case_bool_decide as Hin; [done|]. intros Hn j Hj.
  destruct (Z.eq_dec j (k + 1)) as [->|]; [done|]. apply (IH (k + 1) Hn). lia.
Qed.

Lemma alloc_loop_first fuel pid used :
  alloc_loop (S fuel) pid used = None -> alloc_loop fuel (candidate pid 0) used = None /\ candidate pid 0 ∈ used.
Proof.
  cbn [alloc_loop]. unfold candidate. rewrite Z.add_0_r. case_bool_decide as Hin; [done|].
  intros. by split.
Qed.

(** With fewer identifiers in use than there are, the search succeeds. *)
Lemma alloc_loop_total used pid :
  zlen used < 65535 -> is_Some (alloc_loop (Z.to_nat 65535) pid used).
Proof.
  intros Hlen. destruct (alloc_loop (Z.to_nat 65535) pid used) eqn:E; [eauto|exfalso].
  replace (Z.to_nat 65535) with (S (Z.to_nat 65534)) in E by lia.
  apply alloc_loop_first in E as [E H0].
  assert (forall j, 0 <= j < 65535 -> candidate pid j ∈ used) as Hall.
  { intros j Hj. destruct (Z.eq_dec j 0) as [->|]; [done|]. apply (alloc_loop_None _ _ _ _ E). lia. }
  assert (NoDup (candidate pid <$> seqZ 0 65535)) as Hnd.
  { apply NoDup_fmap_2_strong; [|apply NoDup_seqZ].
    intros x y Hx%elem_of_seqZ Hy%elem_of_seqZ. apply candidate_inj; lia. }
  assert (candidate pid <$> seqZ 0 65535 ⊆+ used) as Hsub.
  { apply NoDup_submseteq; [done|]. intros x Hx. apply list_elem_of_fmap in Hx as (j & -> & Hj%elem_of_seqZ).
    apply Hall. lia. }
  apply submseteq_length in Hsub. rewrite length_fmap, length_seqZ in Hsub. unfold zlen in Hlen. lia.
Qed.

Lemma zlen_in_use s : zlen (in_use s) = _in_flight s.
Proof. unfold in_use, _in_flight, dkeys. rewrite zlen_app. unfold zlen. by rewrite !length_fmap. Qed.

Lemma alloc_pid_total s :
  _in_flight s < 65535 ->
  exists pid, _alloc_pid s = Ok (pid, set_next_pid pid s) /\ 1 <= pid <= 65535 /\ pid ∉ in_use s.
Proof.
  intros Hf. rewrite <- zlen_in_use in Hf. destruct (alloc_loop_total _ (_next_pid s) Hf) as [pid Hp].
  exists pid. unfold _alloc_pid. rewrite Hp. split; [done|]. by eapply alloc_loop_Some.
Qed.

(** ** Construction of the packets a handler sends *)

Definition fine (p : MQTTPublish) : Prop := publish_post_init p = Ok tt.

Lemma fine_new p q pid r d :
  fine p -> (0 < q -> pid <> None) ->
  publish_post_init (mkPublish (topic p) (payload p) q pid r d (p_properties p)) = Ok tt.
Proof.
  unfold fine, publish_post_init. cbn [qos packet_id p_properties payload]. intros Hf Hq.
  destruct (Z.ltb_spec 0 q) as [H|H]; rewrite (Z.gtb_ltb q).
  - rewrite (proj2 (Z.ltb_lt _ _) H), (bool_decide_false (pid = None)) by auto. cbn [andb].
    by destruct (_ && _) in Hf.
  - rewrite (proj2 (Z.ltb_ge _ _) H). cbn [andb]. by destruct (_ && _) in Hf.
Qed.

Lemma new_publish_Ok p q pid r :
  fine p -> (0 < q -> pid <> None) ->
  new_publish (topic p) (payload p) q pid r (p_properties p)
  = Ok (mkPublish (topic p) (payload p) q pid r false (p_properties p)).
Proof. intros Hf Hq. unfold new_publish. by rewrite fine_new. Qed.

Lemma with_dup_Ok p : fine p -> exists p', with_dup p = Ok p'.
Proof.
  intros Hf. unfold with_dup. eexists. rewrite fine_new; [done|done|].
  unfold fine, publish_post_init in Hf. rewrite Z.gtb_ltb in Hf. intros Hq E.
  rewrite E, (proj2 (Z.ltb_lt _ _) Hq), bool_decide_true in Hf; done.
Qed.

(** ** Invariant *)

(** [cap] is disabled at 0 and bounds [n] otherwise. *)
Definition within (cap n : Z) : Prop := cap = 0 \/ n <= cap.

Definition entry_fine (e : qos2_entry) : Prop := match q2_packet e with Some p => fine p | None => True end.

Record session_ok (c : config) (s : session) : Prop := mk_session_ok {
  so_q1 : dict_ok (pending_qos1_out s);
  so_q2in : dict_ok (pending_qos2_in s);
  so_q2out : dict_ok (pending_qos2_out s);
  so_nodup : NoDup (filters s);
  so_valid : Forall (fun f => _valid_filter f = true) (filters s);
  so_cap : within (_max_subscriptions c) (zlen (subs s));
  so_queue : within (_max_queued c) (zlen (outbound_queue s));
  so_rmax : receive_maximum s <= 65535;
  so_held : Forall (fun h => fine (h_publish h)) (outbound_queue s);
  so_q1fine : Forall (fun x => fine x.2) (pending_qos1_out s);
  so_q2fine : Forall (fun x => entry_fine x.2) (pending_qos2_out s)
}.

Record config_ok (c : config) : Prop := mk_config_ok {
  co_retained : 0 <= _max_retained c;
  co_queued : 0 <= _max_queued c;
  co_subscriptions : 0 <= _max_subscriptions c;
  co_sessions : 0 <= _max_sessions c
}.

Record broker_ok (b : broker) : Prop := mk_broker_ok {
  bo_cfg : config_ok (cfg b);
  bo_clients : dict_ok (_clients b);
  bo_conns : dict_ok (_client_by_conn b);
  bo_sessions : dict_ok (_sessions b);
  bo_retained : dict_ok (_retained b);
  bo_wills : dict_ok (_wills b);
  (* a connection is the one its client is registered on *)
  bo_registered conn cid : dget (_client_by_conn b) conn = Some cid -> dget (_clients b) cid = Some conn;
  (* a connected client has a session, and no clock runs on it *)
  bo_live cid conn : dget (_clients b) cid = Some conn ->
    exists s, dget (_sessions b) cid = Some s /\ _expires_at s = None;
  bo_sess cid s : dget (_sessions b) cid = Some s -> session_ok (cfg b) s;
  bo_ret_fine t p : dget (_retained b) t = Some p -> fine p;
  bo_will_fine cid p : dget (_wills b) cid = Some p -> fine p;
  bo_ret_cap : within (_max_retained (cfg b)) (zlen (_retained b));
  bo_sess_cap : within (_max_sessions (cfg b)) (zlen (_sessions b))
}.

Lemma broker_init_ok c : config_ok c -> broker_ok (__init__ c).
Proof.
  intros Hc. pose proof Hc as []. split; try done; try constructor; cbn; unfold within;
    change (zlen (@nil (pystr * MQTTPublish))) with 0; change (zlen (@nil (pystr * session))) with 0; lia.
Qed.

Lemma new_session_ok c : config_ok c -> session_ok c _new_broker_session.
Proof.
  intros []. split; try constructor; cbn; unfold within; try lia;
    change (zlen (@nil subscription)) with 0; change (zlen (@nil _Held)) with 0; lia.
Qed.

(** [b'] differs from [b] in what was sent, in the timer, the rotation or the
    automatic identifier only. *)
Record same_core (b b' : broker) : Prop := mk_same_core {
  sc_cfg : cfg b' = cfg b;
  sc_clients : _clients b' = _clients b;
  sc_conns : _client_by_conn b' = _client_by_conn b;
  sc_sessions : _sessions b' = _sessions b;
  sc_retained : _retained b' = _retained b;
  sc_wills : _wills b' = _wills b
}.

Lemma ok_same b b' : same_core b b' -> broker_ok b -> broker_ok b'.
Proof. intros [E1 E2 E3 E4 E5 E6] []. split; rewrite ?E1, ?E2, ?E3, ?E4, ?E5, ?E6; done. Qed.

Lemma ok_send conn r b : broker_ok b -> broker_ok (send conn r b).
Proof. by apply ok_same. Qed.
Lemma ok_timer t b : broker_ok b -> broker_ok (set_timer t b).
Proof. by apply ok_same. Qed.
Lemma ok_rotation r b : broker_ok b -> broker_ok (set_rotation r b).
Proof. by apply ok_same. Qed.
Lemma ok_auto_seq n b : broker_ok b -> broker_ok (set_auto_seq n b).
Proof. by apply ok_same. Qed.
Lemma ok_arm now b : broker_ok b -> broker_ok (_arm_expiry_timer now b).
Proof. intros H. unfold _arm_expiry_timer. case_match; by apply ok_timer. Qed.
Lemma ok_prune l b : broker_ok b -> broker_ok (_prune_share_rotation l b).
Proof. apply ok_rotation. Qed.
#[local] Hint Resolve ok_send ok_timer ok_rotation ok_auto_seq ok_arm ok_prune : core.

(** The session of a client is replaced by a well-formed one whose clock is
    the same (or stopped). *)
Lemma ok_put b cid s s' :
  broker_ok b -> dget (_sessions b) cid = Some s -> session_ok (cfg b) s' ->
  (_expires_at s' = _expires_at s \/ _expires_at s' = None) ->
  broker_ok (set_sessions (dset (_sessions b) cid s') b).
Proof.
  intros [] Hs Hs' He. split; cbn; auto with blackbull.
  - intros cid' conn Hc. destruct (bo_live0 cid' conn Hc) as (s0 & H0 & H1).
    rewrite dget_dset. case_decide; subst; [|eauto].
    exists s'. split; [done|]. simplify_eq. destruct He; congruence.
  - intros cid' s0. rewrite dget_dset. case_decide; [|eauto]. by intros [= <-].
  - unfold zlen in *. rewrite length_dset. unfold dmem. by rewrite Hs.
Qed.

Lemma put_get b cid s : dget (_sessions (set_sessions (dset (_sessions b) cid s) b)) cid = Some s.
Proof. apply dget_dset_eq. Qed.

(** ** Deliveries keep the invariant and do not fail *)

(** What a delivery to [cid] leaves alone: everything but the session of
    [cid], of which it keeps the subscriptions and the clock. *)
Record delivered (cid : pystr) (b b' : broker) : Prop := mk_delivered {
  dl_ok : broker_ok b';
  dl_cfg : cfg b' = cfg b;
  dl_clients : _clients b' = _clients b;
  dl_conns : _client_by_conn b' = _client_by_conn b;
  dl_retained : _retained b' = _retained b;
  dl_wills : _wills b' = _wills b;
  dl_rotation : _share_rotation b' = _share_rotation b;
  dl_keys cid' : is_Some (dget (_sessions b') cid') <-> is_Some (dget (_sessions b) cid');
  dl_subs cid' s' : dget (_sessions b') cid' = Some s' ->
    exists s, dget (_sessions b) cid' = Some s /\ subs s = subs s' /\ pending_qos2_in s = pending_qos2_in s';
  dl_others cid' : cid' <> cid -> dget (_sessions b') cid' = dget (_sessions b) cid'
}.

Lemma delivered_refl cid b : broker_ok b -> delivered cid b b.
Proof. split; naive_solver. Qed.

Lemma delivered_send cid conn r b b' : delivered cid b b' -> delivered cid b (send conn r b').
Proof. intros []. split; try done. by apply ok_send. Qed.

Lemma delivered_put b cid s s' :
  broker_ok b -> dget (_sessions b) cid = Some s -> session_ok (cfg b) s' -> _expires_at s' = _expires_at s ->
  subs s' = subs s -> pending_qos2_in s' = pending_qos2_in s ->
  delivered cid b (set_sessions (dset (_sessions b) cid s') b).
Proof.
  intros Hb Hs Hs' He E1 E2. split; try done; cbn.
  - eapply ok_put; eauto.
  - intros cid'. rewrite dget_dset. case_decide; [|done]. subst. by rewrite Hs.
  - intros cid' s0. rewrite dget_dset. case_decide; [|eauto]. subst. intros [= <-]. eauto.
  - intros cid' Hne. by rewrite dget_dset_ne by done.
Qed.

Lemma send_qos_ok conn cid s0 s p q r b :
  broker_ok b -> dget (_sessions b) cid = Some s0 -> session_ok (cfg b) s ->
  _expires_at s = _expires_at s0 -> subs s = subs s0 -> pending_qos2_in s = pending_qos2_in s0 ->
  fine p -> _in_flight s < receive_maximum s ->
  exists b', _send_qos conn cid s p q r b = Ok b' /\ delivered cid b b' /\
    exists s', dget (_sessions b') cid = Some s' /\ outbound_queue s' = outbound_queue s
      /\ receive_maximum s' = receive_maximum s.
Proof.
  intros Hb Hs0 Hs He E1 E2 Hf Hfl. pose proof Hs as [].
  unfold _send_qos. destruct (alloc_pid_total s ltac:(lia)) as (pid & -> & Hpid & _). cbn [rbind].
  rewrite new_publish_Ok by done. cbn [rbind].
  set (out := mkPublish _ _ _ _ _ _ _).
  assert (fine out) as Hout by (by apply fine_new).
  set (s' := if q =? 1 then _ else _).
  eexists. split; [reflexivity|]. split.
  - apply delivered_send. apply (delivered_put b cid s0 s'); try done; unfold s'; destruct (q =? 1); try done;
      split; cbn; auto with blackbull; by apply Forall_dset.
  - exists s'. split; [apply dget_dset_eq|]. unfold s'. by destruct (q =? 1).
Qed.

Lemma deliver_ok conn cid p g r b :
  broker_ok b -> fine p -> exists b', _deliver conn cid p g r b = Ok b' /\ delivered cid b b'.
Proof.
  intros Hb Hf. unfold _deliver. destruct (_ =? 0) eqn:Hq.
  { rewrite new_publish_Ok by (done || lia). cbn [rbind]. eexists; split; [done|].
    by apply delivered_send, delivered_refl. }
  destruct (dget (_sessions b) cid) as [s|] eqn:Hs; [|eexists; split; [done|]; by apply delivered_refl].
  pose proof (bo_sess b Hb _ _ Hs) as Hso. rewrite Z.geb_leb.
  destruct (Z.leb_spec (receive_maximum s) (_in_flight s)) as [Hle|Hlt].
  - eexists. split; [done|]. unfold _enqueue_outbound, update_session. rewrite Hs. rewrite Z.geb_leb.
    destruct (negb (_max_queued (cfg b) =? 0) && (_max_queued (cfg b) <=? zlen (outbound_queue s))) eqn:Hc.
    + rewrite dset_id by done. by destruct b; apply delivered_refl.
    + apply (delivered_put b cid s); try done. destruct Hso. split; cbn; auto.
      * unfold within. rewrite zlen_app. change (zlen [mkHeld p (Z.min (qos p) g) r]) with 1.
        apply andb_false_iff in Hc as [Hc%negb_false_iff%Z.eqb_eq|Hc%Z.leb_gt]; [by left|right; lia].
      * apply Forall_app. split; [done|]. by repeat constructor.
  - destruct (send_qos_ok conn cid s s p (Z.min (qos p) g) r b) as (b' & -> & Hd & _); eauto.
Qed.

Lemma delivered_trans cid b1 b2 b3 : delivered cid b1 b2 -> delivered cid b2 b3 -> delivered cid b1 b3.
Proof.
  intros [A1 A2 A3 A4 A5 A6 A7 A8 A9 A10] [B1 B2 B3 B4 B5 B6 B7 B8 B9 B10].
  split; try done; try congruence.
  - intros cid'. by rewrite B8, A8.
  - intros cid' s' Hs'. destruct (B9 _ _ Hs') as (s2 & H2 & ? & ?).
    destruct (A9 _ _ H2) as (s1 & H1 & ? & ?). exists s1. split_and!; congruence.
  - intros cid' Hne. by rewrite B10, A10.
Qed.

(** The same over several clients. *)
Record routed (b b' : broker) : Prop := mk_routed {
  rt_ok : broker_ok b';
  rt_cfg : cfg b' = cfg b;
  rt_clients : _clients b' = _clients b;
  rt_conns : _client_by_conn b' = _client_by_conn b;
  rt_retained : _retained b' = _retained b;
  rt_wills : _wills b' = _wills b;
  rt_subs cid s' : dget (_sessions b') cid = Some s' ->
    exists s, dget (_sessions b) cid = Some s /\ subs s = subs s' /\ pending_qos2_in s = pending_qos2_in s'
}.

Lemma routed_refl b : broker_ok b -> routed b b.
Proof. split; naive_solver. Qed.

Lemma delivered_routed cid b b' : delivered cid b b' -> routed b b'.
Proof. by intros []. Qed.

Lemma routed_trans b1 b2 b3 : routed b1 b2 -> routed b2 b3 -> routed b1 b3.
Proof.
  intros [A1 A2 A3 A4 A5 A6 A7] [B1 B2 B3 B4 B5 B6 B7]. split; try done; try congruence.
  intros cid s' Hs'. destruct (B7 _ _ Hs') as (s2 & H2 & ? & ?).
  destruct (A7 _ _ H2) as (s1 & H1 & ? & ?). exists s1. split_and!; congruence.
Qed.

Lemma routed_rotation r b : broker_ok b -> routed b (set_rotation r b).
Proof. intros Hb. split; try done; [by apply ok_rotation|]. cbn. eauto. Qed.

Lemma routed_send conn r b b' : routed b b' -> routed b (send conn r b').
Proof. intros []. split; try done. by apply ok_send. Qed.

Lemma drain_ok fuel conn cid b :
  broker_ok b -> (forall s, dget (_sessions b) cid = Some s -> (length (outbound_queue s) <= fuel)%nat) ->
  exists b', drain_loop fuel conn cid b = Ok b' /\ delivered cid b b'.
Proof.
  revert b. induction fuel as [|fuel IH]; intros b Hb Hf; cbn [drain_loop];
    destruct (dget (_sessions b) cid) as [s|] eqn:Hs;
    try (eexists; split; [done|]; by apply delivered_refl);
    destruct (outbound_queue s) as [|h queue] eqn:Hq;
    try (eexists; split; [done|]; by apply delivered_refl);
    destruct (Z.ltb_spec (_in_flight s) (receive_maximum s));
    try (eexists; split; [done|]; by apply delivered_refl).
  { specialize (Hf s eq_refl). rewrite Hq in Hf. simpl in Hf. lia. }
  pose proof (bo_sess b Hb _ _ Hs) as Hso.
  assert (fine (h_publish h)) as Hfine.
  { pose proof (so_held _ _ Hso) as Hh. rewrite Hq in Hh. by apply Forall_cons in Hh as [Hh _]. }
  assert (session_ok (cfg b) (set_queue queue s)) as Hso'.
  { destruct Hso. split; cbn; try done.
    - rewrite Hq in so_queue0. unfold within in *. rewrite zlen_cons in so_queue0. lia.
    - rewrite Hq in so_held0. by apply Forall_cons in so_held0 as [_ ?]. }
  destruct (send_qos_ok conn cid s (set_queue queue s) (h_publish h) (h_qos h) (h_retain h) b)
    as (b1 & -> & Hd & s1 & Hs1 & Hq1 & _); try done.
  cbn [rbind]. destruct (IH b1 (dl_ok _ _ _ Hd)) as (b2 & -> & Hd2).
  { intros s2 Hs2. specialize (Hf s eq_refl). rewrite Hq in Hf. simplify_eq. rewrite Hq1. simpl in *. lia. }
  eexists. split; [done|]. by eapply delivered_trans.
Qed.

Lemma drain_outbound_ok conn b :
  broker_ok b -> exists b', _drain_outbound conn b = Ok b' /\ routed b b'.
Proof.
  intros Hb. unfold _drain_outbound, _session_for.
  destruct (dget (_client_by_conn b) conn) as [cid|]; [|eauto using routed_refl].
  destruct (dget (_sessions b) cid) as [s|] eqn:Hs; [|eauto using routed_refl].
  destruct (drain_ok (length (outbound_queue s)) conn cid b Hb) as (b' & -> & Hd).
  { intros s' Hs'. rewrite Hs in Hs'. by injection Hs' as ->. }
  eauto using delivered_routed.
Qed.

(** Every member of every collected group exists, and no group is empty. *)
Definition groups_ok (g : groups) : Prop := Forall (fun x => x.2 <> []) g.

Lemma add_member_ok k m g : groups_ok g -> groups_ok (add_member k m g).
Proof.
  intros Hg. unfold add_member. destruct (dget g k) as [ms|]; apply Forall_dset; try done.
  intros k' _. simpl. by destruct ms.
Qed.

Lemma scan_subs_ok p src conn cid l granted rap g :
  groups_ok g -> groups_ok (scan_subs p src conn cid l granted rap g).2.
Proof.
  revert granted rap g. induction l as [|[[f q] o] l IH]; intros granted rap g Hg; cbn [scan_subs]; [done|].
  repeat case_match; apply IH; auto using add_member_ok.
Qed.

Lemma route_clients_ok p src cs g b :
  broker_ok b -> fine p -> groups_ok g ->
  exists g' b', route_clients p src cs g b = Ok (g', b') /\ groups_ok g' /\ routed b b'.
Proof.
  intros Hb Hf. revert g b Hb. induction cs as [|[cid conn] cs IH]; intros g b Hb Hg; cbn [route_clients].
  { exists g, b. split_and!; [done|done|by apply routed_refl]. }
  destruct (dget (_sessions b) cid) as [s|]; [|by apply IH].
  pose proof (scan_subs_ok p src conn cid (subs s) None false g Hg) as Hg'.
  destruct (scan_subs _ _ _ _ _ _ _ _) as [[granted rap] g1]. cbn [snd] in Hg'.
  destruct granted as [q|]; [|by apply IH].
  destruct (deliver_ok conn cid p q (rap && retain p) b Hb Hf) as (b1 & -> & Hd). cbn [rbind].
  destruct (IH g1 b1 (dl_ok _ _ _ Hd) Hg') as (g2 & b2 & -> & Hg2 & Hr).
  exists g2, b2. split_and!; try done. eauto using routed_trans, delivered_routed.
Qed.

Lemma cursor_range {A} (ms : list A) n : ms <> [] -> exists m, zget ms (n mod zlen ms) = Ok m.
Proof.
  intros Hms. apply zget_lt. apply Z.mod_pos_bound. destruct ms; [done|]. rewrite zlen_cons.
  pose proof (zlen_nonneg ms). lia.
Qed.

Lemma route_groups_ok p g b :
  broker_ok b -> fine p -> groups_ok g -> exists b', route_groups p g b = Ok b' /\ routed b b'.
Proof.
  intros Hb Hf Hg. revert b Hb. induction Hg as [|[k ms] g Hms Hg IH]; intros b Hb; cbn [route_groups].
  { eauto using routed_refl. }
  cbn [snd] in Hms. destruct (cursor_range ms (default 0 (dget (_share_rotation b) k)) Hms) as [m ->]. cbn [rbind].
  set (b0 := set_rotation _ b).
  destruct (deliver_ok (m_conn m) (m_client m) p (m_qos m) (so_retain_as_published (m_opts m) && retain p) b0)
    as (b1 & -> & Hd); [by apply ok_rotation|done|]. cbn [rbind].
  destruct (IH b1 (dl_ok _ _ _ Hd)) as (b2 & -> & Hr). exists b2. split; [done|].
  eapply routed_trans; [by apply routed_rotation|]. eauto using routed_trans, delivered_routed.
Qed.

Lemma route_ok p src b : broker_ok b -> fine p -> exists b', _route p src b = Ok b' /\ routed b b'.
Proof.
  intros Hb Hf. unfold _route.
  destruct (route_clients_ok p src (_clients b) [] b Hb Hf) as (g & b1 & -> & Hg & Hr); [constructor|].
  cbn [rbind]. destruct (route_groups_ok p g b1 (rt_ok _ _ Hr) Hf Hg) as (b2 & -> & Hr2).
  eauto using routed_trans.
Qed.

(** ** The handlers keep the invariant *)

Lemma dget_dpop_Some {K V} `{!EqDecision K} (d : dict K V) k k' v :
  dict_ok d -> dget (dpop d k) k' = Some v -> k' <> k /\ dget d k' = Some v.
Proof.
  intros Hd H. destruct (decide (k = k')) as [<-|Hne].
  - by rewrite dget_dpop_eq in H.
  - by rewrite dget_dpop_ne in H.
Qed.

Lemma within_le cap n m : within cap n -> m <= n -> within cap m.
Proof. unfold within. lia. Qed.

Lemma zlen_dpop {K V} `{!EqDecision K} (d : dict K V) k : zlen (dpop d k) <= zlen d.
Proof. unfold zlen. pose proof (length_dpop_le d k). lia. Qed.

Lemma zlen_dset {K V} `{!EqDecision K} (d : dict K V) k v :
  zlen (dset d k v) = if dmem d k then zlen d else zlen d + 1.
Proof. unfold zlen. rewrite length_dset. destruct (dmem d k); lia. Qed.

Lemma drop_session_ok cid b :
  broker_ok b -> dget (_clients b) cid = None ->
  broker_ok (drop_session cid b) /\ _clients (drop_session cid b) = _clients b.
Proof.
  intros Hb Hc. unfold drop_session. destruct (dget (_sessions b) cid) as [s|] eqn:Hs; [|done].
  split; [|done]. apply ok_prune. destruct Hb. split; cbn; auto with blackbull.
  - intros cid' conn Hcl. destruct (bo_live0 _ _ Hcl) as (s' & H1 & H2). exists s'.
    rewrite dget_dpop_ne by congruence. done.
  - intros cid' s' H. apply dget_dpop_Some in H as [_ H]; eauto.
  - eapply within_le; [done|apply zlen_dpop].
Qed.

Lemma sweep_ok now b :
  broker_ok b -> broker_ok (_sweep_expired now b) /\ _clients (_sweep_expired now b) = _clients b.
Proof.
  intros Hb. unfold _sweep_expired. set (l := (filter _ (_sessions b)).*1).
  assert (Forall (fun cid => dget (_clients b) cid = None) l) as Hl.
  { apply Forall_forall. intros cid Hin. apply list_elem_of_fmap in Hin as ([cid' s] & -> & Hin).
    apply list_elem_of_filter in Hin as [He Hin]. cbn in *.
    destruct (dget (_clients b) cid') as [conn|] eqn:Hc; [|done].
    destruct (bo_live _ Hb _ _ Hc) as (s' & H1 & H2).
    rewrite (elem_dget _ _ _ (bo_sessions _ Hb) Hin) in H1. injection H1 as <-.
    unfold is_expired in He. by rewrite H2 in He. }
  clearbody l. assert (forall b', broker_ok b' -> _clients b' = _clients b ->
    broker_ok (foldl (fun b cid => drop_session cid b) b' l) /\
    _clients (foldl (fun b cid => drop_session cid b) b' l) = _clients b) as H.
  { induction Hl as [|cid l Hc Hl IH]; intros b' Hb' Hcl; simpl; [done|].
    destruct (drop_session_ok cid b' Hb') as [H1 H2]; [congruence|]. apply IH; congruence. }
  destruct (H b Hb eq_refl) as [H1 H2]. split; [by apply ok_arm|].
  unfold _arm_expiry_timer. by case_match.
Qed.

Lemma store_retained_ok p b :
  broker_ok b -> fine p -> broker_ok (_store_retained p b).2 /\
    _clients (_store_retained p b).2 = _clients b /\ _client_by_conn (_store_retained p b).2 = _client_by_conn b
    /\ _sessions (_store_retained p b).2 = _sessions b.
Proof.
  intros Hb Hf. unfold _store_retained. repeat case_match; cbn [snd]; (split; [|done]); [|done|].
  - destruct Hb. split; cbn; auto with blackbull.
    + intros t q H'. apply dget_dpop_Some in H' as [_ H']; eauto.
    + eapply within_le; [done|apply zlen_dpop].
  - destruct Hb. split; cbn; auto with blackbull.
    + intros t q. rewrite dget_dset. case_decide; [by intros [= <-]|eauto].
    + unfold within in *. rewrite zlen_dset. destruct (dmem _ _) eqn:Hm; [done|].
      match goal with Hx : _ && _ = false |- _ => rename Hx into Hc end.
      rewrite Z.geb_leb in Hc. cbn [negb] in Hc. rewrite andb_true_r in Hc.
      apply andb_false_iff in Hc as [Hc%negb_false_iff%Z.eqb_eq|Hc%Z.leb_gt]; [by left|right; lia].
Qed.

(** *** CONNECT *)

(** A CONNECT the broker can serve: a declared Receive Maximum of two bytes,
    as the decoder delivers it, and a Will that can be constructed. *)
Definition connect_admissible (m : MQTTConnect) : Prop :=
  match int_prop (c_properties m) "receive_maximum"%string with Some n => n <= 65535 | None => True end /\
  match will_topic m with Some t => exists w, will_of m t = Ok w | None => True end.

Lemma will_of_fine m t w : will_of m t = Ok w -> fine w.
Proof. unfold will_of, new_publish, fine. intros H. inv_ok. by destruct a. Qed.

(** What [register] does to the two registries. *)
Lemma register_spec conn cid b :
  broker_ok b -> let b' := register conn cid b in
  cfg b' = cfg b /\ _sessions b' = _sessions b /\ _retained b' = _retained b /\ _wills b' = _wills b /\
  _clients b' = dset (_clients b) cid conn /\ dict_ok (_client_by_conn b') /\
  (forall c cid', dget (_client_by_conn b') c = Some cid' -> dget (dset (_clients b) cid conn) cid' = Some c).
Proof.
  intros Hb b'. subst b'. unfold register.
  set (b0 := match dget (_clients b) cid with Some _ => _ | None => b end).
  assert (cfg b0 = cfg b /\ _sessions b0 = _sessions b /\ _retained b0 = _retained b /\ _wills b0 = _wills b /\
    _clients b0 = _clients b /\ dict_ok (_client_by_conn b0) /\
    (forall c cid', dget (_client_by_conn b0) c = Some cid' -> dget (_clients b) cid' = Some c) /\
    (forall c, dget (_client_by_conn b0) c = Some cid -> c = conn)) as (E1 & E2 & E3 & E4 & E5 & E6 & E7 & E8).
  { pose proof (bo_registered b Hb) as Hreg. pose proof (bo_conns b Hb) as Hd. unfold b0.
    destruct (dget (_clients b) cid) as [ex|] eqn:Hex.
    2: { split_and!; try done. intros c Hc. apply Hreg in Hc. congruence. }
    case_bool_decide as Hne.
    { split_and!; try done. intros c Hc. apply Hreg in Hc. congruence. }
    split_and!; try done; cbn.
    - by apply dpop_ok.
    - intros c cid' Hc. apply dget_dpop_Some in Hc as [_ Hc]; eauto.
    - intros c Hc. apply dget_dpop_Some in Hc as [Hc1 Hc]; [|done]. apply Hreg in Hc. congruence. }
  cbn. rewrite E1, E2, E3, E4, E5. split_and!; try done; [by apply dset_ok|].
  intros c cid'. rewrite !dget_dset. case_decide as Hc.
  - subst. intros [= <-]. by rewrite decide_True.
  - intros H. case_decide; [|by apply E7]. subst. by apply E8 in H.
Qed.

Lemma open_session_ok cid m b :
  broker_ok b -> connect_admissible m ->
  session_ok (cfg b) (adopt_receive_maximum m (set_expires_at None (open_session cid m b).2)).
Proof.
  intros Hb [Hr _]. assert (session_ok (cfg b) (open_session cid m b).2) as Hs.
  { unfold open_session. pose proof (new_session_ok _ (bo_cfg b Hb)) as Hn.
    destruct (clean_start m); [by destruct Hn|].
    destruct (dget (_sessions b) cid) as [s|] eqn:Es; [|by destruct Hn].
    by destruct (bo_sess b Hb _ _ Es). }
  destruct Hs. unfold adopt_receive_maximum.
  destruct (int_prop _ _) as [n|]; [destruct (n =? 0)|]; by split.
Qed.

Lemma replay_qos1_ok conn l b :
  Forall fine l -> broker_ok b -> exists b', replay_qos1 conn l b = Ok b' /\ broker_ok b'.
Proof.
  intros Hl. revert b. induction Hl as [|p l Hp Hl IH]; intros b Hb; cbn [replay_qos1]; [eauto|].
  destruct (with_dup_Ok p Hp) as [p' ->]. cbn [rbind]. apply IH. by apply ok_send.
Qed.

Lemma replay_qos2_ok conn l b :
  Forall (fun x => entry_fine x.2) l -> broker_ok b -> exists b', replay_qos2 conn l b = Ok b' /\ broker_ok b'.
Proof.
  intros Hl. revert b. induction Hl as [|[pid e] l Hp Hl IH]; intros b Hb; cbn [replay_qos2]; [eauto|].
  unfold entry_fine in Hp. cbn in Hp.
  destruct (q2_state e), (q2_packet e) as [p|]; try (apply IH; by apply ok_send).
  destruct (with_dup_Ok p Hp) as [p' ->]. cbn [rbind]. apply IH. by apply ok_send.
Qed.

Lemma replay_ok conn s b :
  session_ok (cfg b) s -> broker_ok b -> exists b', _replay_pending conn s b = Ok b' /\ broker_ok b'.
Proof.
  intros Hs Hb. unfold _replay_pending.
  destruct (replay_qos1_ok conn (dvalues (pending_qos1_out s)) b) as (b1 & -> & H1); [|done|].
  - unfold dvalues. rewrite Forall_fmap. apply (so_q1fine _ _ Hs).
  - cbn [rbind]. apply replay_qos2_ok; [apply (so_q2fine _ _ Hs)|done].
Qed.

(** A connection of [cid] on [conn], with a well-formed session whose clock is
    stopped, in a table with room for it. *)
Lemma attached_ok conn cid s ws b b' :
  broker_ok b -> session_ok (cfg b) s -> _expires_at s = None ->
  (dmem (_sessions b) cid = true \/ within (_max_sessions (cfg b)) (zlen (_sessions b) + 1)) ->
  dict_ok ws -> (forall c p, dget ws c = Some p -> fine p) ->
  cfg b' = cfg b -> _clients b' = dset (_clients b) cid conn ->
  _client_by_conn b' = _client_by_conn (register conn cid b) ->
  _sessions b' = dset (_sessions b) cid s -> _retained b' = _retained b -> _wills b' = ws -> broker_ok b'.
Proof.
  intros Hb Hs He Hcap Hws Hwf E1 E2 E3 E4 E5 E6.
  destruct (register_spec conn cid b Hb) as (_ & _ & _ & _ & _ & R6 & R7). destruct Hb.
  split; rewrite ?E1, ?E2, ?E3, ?E4, ?E5, ?E6; auto with blackbull.
  - intros cid' c. rewrite !dget_dset. case_decide; [eauto|]. by apply bo_live0.
  - intros cid' s'. rewrite dget_dset. case_decide; [by intros [= <-]|eauto].
  - rewrite zlen_dset. destruct Hcap as [-> |Hcap]; [done|].
    destruct (dmem _ _); [|done]. eapply within_le; [done|lia].
Qed.

Lemma attach_ok now conn m b :
  broker_ok b -> connect_admissible m -> exists b', _on_attach now conn m b = Ok b' /\ broker_ok b'.
Proof.
  intros Hb Hm. pose proof Hm as [_ Hw]. unfold _on_attach, refuse_connect.
  destruct (proto_level m =? V5_0); cbn [negb].
  2: { eexists. split; [done|]. by do 2 apply ok_send. }
  set (pr := if bool_decide (client_id m = []) then _ else _).
  assert (broker_ok pr.2) as Hb0 by (unfold pr; case_bool_decide; cbn [snd]; [by apply ok_auto_seq|done]).
  destruct pr as [cid b0]. cbn [snd] in Hb0.
  destruct (sweep_ok now b0 Hb0) as [Hb1 _]. set (b1 := _sweep_expired now b0) in *. clearbody b1.
  destruct (_ && _) eqn:Hcap.
  { eexists. split; [done|]. by do 2 apply ok_send. }
  assert (dmem (_sessions b1) cid = true \/ within (_max_sessions (cfg b1)) (zlen (_sessions b1) + 1)) as Hroom.
  { rewrite Z.geb_leb in Hcap. destruct (dmem (_sessions b1) cid); [by left|right]. cbn [negb] in Hcap.
    rewrite andb_true_r in Hcap.
    apply andb_false_iff in Hcap as [Hc%negb_false_iff%Z.eqb_eq|Hc%Z.leb_gt]; unfold within; lia. }
  destruct (register_spec conn cid b1 Hb1) as (R1 & R2 & R3 & R4 & R5 & _).
  set (b2 := register conn cid b1) in *.
  assert (exists ws, store_will cid m b2 = Ok (set_wills ws b2) /\ dict_ok ws /\
    forall c p, dget ws c = Some p -> fine p) as (ws & -> & Hws & Hwf).
  { unfold store_will. rewrite R4. destruct (will_topic m) as [t|].
    - destruct Hw as [w Hw]. rewrite Hw. eexists. split; [done|]. split; [apply dset_ok, Hb1|].
      intros c p. rewrite dget_dset. case_decide; [|apply (bo_will_fine _ Hb1)].
      intros [= <-]. by eapply will_of_fine.
    - eexists. split; [done|]. split; [apply dpop_ok, Hb1|].
      intros c p Hp. apply dget_dpop_Some in Hp as [_ Hp]; [|apply Hb1]. by apply (bo_will_fine _ Hb1 c). }
  cbn [rbind].
  assert (open_session cid m (set_wills ws b2) = open_session cid m b1) as ->
    by (unfold open_session; cbn [_sessions set_wills]; by rewrite R2).
  pose proof (open_session_ok cid m b1 Hb1 Hm) as Hs.
  destruct (open_session cid m b1) as [present s0]. cbn [snd] in Hs.
  set (s := adopt_receive_maximum m (set_expires_at None s0)) in *.
  assert (_expires_at s = None) as He by (unfold s, adopt_receive_maximum; repeat case_match; done).
  set (b3 := set_sessions _ (_arm_expiry_timer _ _)).
  assert (broker_ok b3 /\ cfg b3 = cfg b1) as [Hb3 Hcfg].
  { assert (forall t, let x := set_timer t (set_sessions (dset (_sessions b2) cid (set_expires_at None s0))
        (set_wills ws b2)) in set_sessions (dset (_sessions x) cid s) x
      = set_timer t (set_sessions (dset (_sessions b2) cid s) (set_wills ws b2))) as Hx
      by (intros t; cbn; by rewrite dset_dset).
    assert (exists t, b3 = set_timer t (set_sessions (dset (_sessions b2) cid s) (set_wills ws b2))) as [t ->].
    { unfold b3, _arm_expiry_timer. cbn [_sessions set_wills].
      destruct (deadlines _) as [|d ds]; [exists None|exists (Some (Z.max now (foldr Z.min d ds)))]; apply (Hx _). }
    split; [|exact R1]. apply (attached_ok conn cid s ws b1); try done;
      cbn [set_timer set_sessions set_wills _sessions]; by rewrite R2. }
  assert (session_ok (cfg b3) s) as Hs3 by congruence.
  destruct present; [|eexists; split; [done|]; by apply ok_send].
  apply replay_ok; [done|]. by apply ok_send.
Qed.

(** *** SUBSCRIBE and UNSUBSCRIBE *)

Lemma deliver_retained_loop_ok conn cid tf q l b :
  broker_ok b -> Forall (fun x => fine x.2) l ->
  exists b', deliver_retained_loop conn cid tf q l b = Ok b' /\ delivered cid b b'.
Proof.
  intros Hb Hl. revert b Hb. induction Hl as [|[t p] l Hp Hl IH]; intros b Hb; cbn [deliver_retained_loop].
  { eauto using delivered_refl. }
  cbn [snd] in Hp. case_match; [|by apply IH].
  destruct (deliver_ok conn cid p q true b Hb Hp) as (b1 & -> & Hd). cbn [rbind].
  destruct (IH b1 (dl_ok _ _ _ Hd)) as (b2 & -> & Hd2). eauto using delivered_trans.
Qed.

Lemma retained_fine b : broker_ok b -> Forall (fun x => fine x.2) (_retained b).
Proof.
  intros Hb. apply Forall_forall. intros [t p] Hin. apply (bo_ret_fine b Hb t).
  by apply elem_dget; [apply Hb|].
Qed.

Lemma filters_filter (P : pystr -> Prop) `{!forall x : subscription, Decision (P x.1.1)}
    `{!forall x, Decision (P x)} (l : list subscription) :
  (fun x => x.1.1) <$> filter (fun x => P x.1.1) l = filter P ((fun x => x.1.1) <$> l).
Proof.
  induction l as [|x l IH]; [done|]. rewrite fmap_cons, !filter_cons.
  do 2 case_decide; [by rewrite fmap_cons, IH|done..].
Qed.

Lemma Forall_filter {A} (P Q : A -> Prop) `{!forall x, Decision (Q x)} (l : list A) :
  Forall P l -> Forall P (filter Q l).
Proof. induction 1 as [|x l Hx Hl IH]; [constructor|]. rewrite filter_cons. case_decide; auto. Qed.

(** Replacing or adding one subscription. *)
Lemma subscribe_session_ok c s tf q opts :
  session_ok c s -> _valid_filter tf = true ->
  (tf ∈ filters s \/ within (_max_subscriptions c) (zlen (subs s) + 1)) ->
  session_ok c (set_subs (filter (fun x => x.1.1 <> tf) (subs s) ++ [(tf, q, opts)]) s).
Proof.
  intros Hs Hv Hroom. set (l := filter (fun x => x.1.1 <> tf) (subs s)).
  assert (filters (set_subs (l ++ [(tf, q, opts)]) s) = filter (fun f => f <> tf) (filters s) ++ [tf]) as Hf.
  { unfold filters, l; cbn [subs set_subs]. rewrite fmap_app. f_equal. apply (filters_filter (fun f => f <> tf)). }
  destruct Hs. split; try done.
  - rewrite Hf. apply NoDup_app. split; [by apply NoDup_filter|]. split; [|apply NoDup_singleton].
    intros f Hin. apply list_elem_of_filter in Hin as [? _]. set_solver.
  - rewrite Hf. apply Forall_app. split; [by apply Forall_filter|by repeat constructor].
  - cbn [subs set_subs]. rewrite zlen_app. change (zlen [(tf, q, opts)]) with 1. destruct Hroom as [Hin|Hroom].
    + eapply within_le; [done|]. apply list_elem_of_fmap in Hin as (x & -> & Hin).
      enough (length l < length (subs s))%nat by (unfold zlen; lia).
      unfold l. apply (length_filter_lt _ _ x); [done|]. by intros [].
    + eapply within_le; [done|]. pose proof (length_filter (fun x : subscription => x.1.1 <> tf) (subs s)).
      unfold l, zlen. lia.
Qed.

Lemma subscribe_loop_ok conn cid l options codes b :
  broker_ok b -> exists r b', subscribe_loop conn cid l options codes b = Ok (r, b') /\ broker_ok b'.
Proof.
  revert options codes b. induction l as [|[tf q] l IH]; intros options codes b Hb; cbn [subscribe_loop]; [eauto|].
  destruct (_valid_filter tf) eqn:Hv; cbn [negb]; [|by apply IH].
  destruct (_ && _); [eexists _, _; split; [done|]; by do 2 apply ok_send|].
  destruct (dget (_sessions b) cid) as [s|] eqn:Hs; [|by apply IH].
  destruct (_ && _) eqn:Hcap; [by apply IH|].
  set (opts := mkSubOptions q _ _ _). set (b1 := set_sessions _ b).
  assert (broker_ok b1) as Hb1.
  { apply (ok_put b cid s); auto. pose proof (bo_sess b Hb _ _ Hs) as Hso.
    apply subscribe_session_ok; [done..|]. case_bool_decide as Hex; [by left|right].
    rewrite Z.geb_leb in Hcap. cbn [negb] in Hcap. rewrite andb_true_r in Hcap.
    apply andb_false_iff in Hcap as [Hc%negb_false_iff%Z.eqb_eq|Hc%Z.leb_gt]; unfold within; lia. }
  case_match; [|cbn [rbind]; by apply IH]. unfold _deliver_retained.
  destruct (deliver_retained_loop_ok conn cid tf q (_retained b1) b1 Hb1 (retained_fine _ Hb1)) as (b2 & -> & Hd).
  cbn [rbind]. apply IH, (dl_ok _ _ _ Hd).
Qed.

Lemma subscribe_ok conn m b : broker_ok b -> exists b', _on_subscribe conn m b = Ok b' /\ broker_ok b'.
Proof.
  intros Hb. unfold _on_subscribe. destruct (_session_for conn b) as [[cid s]|]; [|eauto].
  destruct (subscribe_loop_ok conn cid (subscriptions m) (default [] (subscription_options m)) [] b Hb)
    as (r & b1 & -> & Hb1). cbn [rbind]. destruct r; eauto.
Qed.

Lemma session_for_get conn b cid s : _session_for conn b = Some (cid, s) -> dget (_sessions b) cid = Some s.
Proof. unfold _session_for. repeat case_match; naive_solver. Qed.

Lemma unsubscribe_ok conn m b : broker_ok b -> broker_ok (_on_unsubscribe conn m b).
Proof.
  intros Hb. unfold _on_unsubscribe. destruct (_session_for conn b) as [[cid s]|] eqn:Hs; [|done].
  apply session_for_get in Hs. apply ok_send, ok_prune. apply (ok_put b cid s); auto.
  destruct (bo_sess b Hb _ _ Hs). split; try done.
  - unfold filters. cbn [subs set_subs]. rewrite (filters_filter (fun f => f ∉ topics m)). by apply NoDup_filter.
  - unfold filters. cbn [subs set_subs]. rewrite (filters_filter (fun f => f ∉ topics m)). by apply Forall_filter.
  - cbn [subs set_subs]. eapply within_le; [done|]. unfold zlen.
    pose proof (length_filter (fun x : subscription => x.1.1 ∉ topics m) (subs s)). lia.
Qed.

(** *** Acknowledgements and PUBLISH *)

Lemma session_for_send conn r c b : _session_for c (send conn r b) = _session_for c b.
Proof. done. Qed.

Lemma pubrel_ok conn pid b : broker_ok b -> broker_ok (_on_pubrel conn pid b).
Proof.
  intros Hb. unfold _on_pubrel. rewrite session_for_send.
  destruct (_session_for conn b) as [[cid s]|] eqn:Hs; [|auto]. apply session_for_get in Hs.
  apply (ok_put (send conn _ b) cid s); auto. destruct (bo_sess b Hb _ _ Hs). split; cbn; auto with blackbull.
Qed.

Lemma pubrec_ok conn pid b : broker_ok b -> broker_ok (_on_pubrec conn pid b).
Proof.
  intros Hb. unfold _on_pubrec. rewrite session_for_send.
  destruct (_session_for conn b) as [[cid s]|] eqn:Hs; [|auto]. apply session_for_get in Hs.
  apply (ok_put (send conn _ b) cid s); auto.
  destruct (bo_sess b Hb _ _ Hs). split; cbn; auto with blackbull. by apply Forall_dset.
Qed.

Lemma clear_qos1_ok conn pid b : broker_ok b -> broker_ok (clear_qos1 conn pid b).
Proof.
  intros Hb. unfold clear_qos1. destruct (_session_for conn b) as [[cid s]|] eqn:Hs; [|auto].
  apply session_for_get in Hs. apply (ok_put b cid s); auto.
  destruct (bo_sess b Hb _ _ Hs). split; cbn; auto with blackbull. by apply Forall_dpop.
Qed.

Lemma clear_qos2_ok conn pid b : broker_ok b -> broker_ok (clear_qos2 conn pid b).
Proof.
  intros Hb. unfold clear_qos2. destruct (_session_for conn b) as [[cid s]|] eqn:Hs; [|auto].
  apply session_for_get in Hs. apply (ok_put b cid s); auto.
  destruct (bo_sess b Hb _ _ Hs). split; cbn; auto with blackbull. by apply Forall_dpop.
Qed.

Lemma accept_ok conn pid b : broker_ok b -> broker_ok (_qos2_accept_inbound conn pid b).2.
Proof.
  intros Hb. unfold _qos2_accept_inbound. destruct (_session_for conn b) as [[cid s]|] eqn:Hs; [|auto].
  apply session_for_get in Hs. case_match; [done|]. apply (ok_put b cid s); auto.
  destruct (bo_sess b Hb _ _ Hs). split; cbn; auto with blackbull.
Qed.

Lemma publish_ok conn p b : broker_ok b -> fine p -> exists b', _on_publish conn p b = Ok b' /\ broker_ok b'.
Proof.
  intros Hb Hf. unfold _on_publish. case_match.
  { eexists. split; [done|]. unfold _reject_publish. repeat case_match; auto. }
  assert (forall b, broker_ok b -> exists b', _route p (Some conn) b = Ok b' /\ broker_ok b') as Hroute.
  { intros b0 Hb0. destruct (route_ok p (Some conn) b0 Hb0 Hf) as (b' & -> & Hr). eexists; split; [done|]. apply Hr. }
  set (st := if retain p then _ else _).
  assert (broker_ok st.2) as Hst by (unfold st; destruct (retain p); [by apply store_retained_ok|done]).
  destruct st as [stored b1]. cbn [snd] in Hst.
  destruct (qos p =? 1); [auto|]. destruct (qos p =? 2); [|auto].
  set (b2 := send conn _ b1). pose proof (accept_ok conn (pid_of p) b2 (ok_send _ _ _ Hst)) as Ha.
  destruct (_qos2_accept_inbound conn (pid_of p) b2) as [[] b3]; cbn [negb snd] in *; eauto.
Qed.

(** *** Detach *)

Lemma close_session_ok now cid iv b :
  broker_ok b -> dget (_clients b) cid = None -> broker_ok (close_session now cid iv b).
Proof.
  intros Hb Hc. unfold close_session. destruct (dget (_sessions b) cid) as [s|] eqn:Hs; [|done].
  set (r := match iv with Some _ => _ | None => _ end).
  assert (session_ok (cfg b) r.2) as Hr.
  { pose proof (bo_sess b Hb _ _ Hs) as Hso. unfold r. destruct iv; [case_match|]; try done. by destruct Hso. }
  destruct r as [declared s']. cbn [snd] in Hr.
  assert (forall x, broker_ok (set_sessions (dset (_sessions b) cid (set_expires_at x s')) b)) as Hput.
  { intros x. destruct Hb. split; cbn; auto with blackbull.
    - intros cid' conn Hcl. destruct (bo_live0 _ _ Hcl) as (s0 & H1 & H2). exists s0.
      rewrite dget_dset_ne by congruence. done.
    - intros cid' s0. rewrite dget_dset. case_decide; [|eauto]. intros [= <-]. by destruct Hr.
    - unfold zlen in *. rewrite length_dset. unfold dmem. by rewrite Hs. }
  destruct (declared <=? 0); [by apply ok_arm, drop_session_ok|].
  destruct (negb _); [by apply ok_arm|].
  specialize (Hput (_expires_at s')). by destruct s'.
Qed.

Lemma detach_ok now conn g iv b : broker_ok b -> exists b', _on_detach now conn g iv b = Ok b' /\ broker_ok b'.
Proof.
  intros Hb. unfold _on_detach. destruct (dget (_client_by_conn b) conn) as [cid|] eqn:Hc; [|eauto].
  pose proof (bo_registered b Hb _ _ Hc) as Hcl. cbn [_clients set_by_conn]. rewrite bool_decide_true by done.
  set (b1 := set_clients _ _). set (b2 := set_wills _ b1).
  assert (broker_ok b2 /\ dget (_clients b2) cid = None) as [Hb2 Hn2].
  { pose proof Hb as []. split; [|cbn; by apply dget_dpop_eq]. split; cbn; auto with blackbull.
    - intros c cid' H. apply dget_dpop_Some in H as [H1 H2]; [|done]. rewrite dget_dpop_ne; [by apply bo_registered0|].
      intros <-. apply bo_registered0 in H2. congruence.
    - intros cid' c H. apply dget_dpop_Some in H as [_ H]; [|done]. by apply bo_live0 in H.
    - intros c p H. apply dget_dpop_Some in H as [_ H]; [|done]. by apply bo_will_fine0 in H. }
  assert (exists b3, (match dget (_wills b1) cid with
     | Some will => if negb g then _route will None (if retain will then (_store_retained will b2).2 else b2) else Ok b2
     | None => Ok b2 end) = Ok b3 /\ broker_ok b3 /\ dget (_clients b3) cid = None) as (b3 & -> & Hb3 & Hn3).
  { destruct (dget (_wills b1) cid) as [w|] eqn:Hw; [|eauto]. destruct (negb g); [|eauto].
    assert (fine w) as Hf by (by apply (bo_will_fine b Hb cid)).
    set (b3 := if retain w then _ else _).
    assert (broker_ok b3 /\ _clients b3 = _clients b2) as [Hb3 E3].
    { unfold b3. destruct (retain w); [|done]. destruct (store_retained_ok w b2 Hb2 Hf) as (H1 & H2 & _). done. }
    destruct (route_ok w None b3 Hb3 Hf) as (b4 & -> & Hr). exists b4. split; [done|]. split; [apply Hr|].
    rewrite (rt_clients _ _ Hr). congruence. }
  cbn [rbind]. eexists. split; [done|]. by apply close_session_ok.
Qed.

(** *** Any inbox *)

(** What the connection actors send: constructible publishes, and CONNECTs
    whose Will can be built. *)
Definition admissible (msg : actor_message) : Prop :=
  match msg with
  | Attach m => connect_admissible m
  | ClientPublish p => fine p
  | _ => True
  end.

Lemma handle_ok now sender msg b :
  broker_ok b -> admissible msg -> exists b', _handle now sender msg b = Ok b' /\ broker_ok b'.
Proof.
  intros Hb Ha. destruct msg as [m|m|m|p|pid|pid|pid|pid|g iv|]; cbn [_handle admissible] in *.
  - by apply attach_ok.
  - by apply subscribe_ok.
  - eauto using unsubscribe_ok.
  - by apply publish_ok.
  - destruct (drain_outbound_ok sender _ (clear_qos1_ok sender pid b Hb)) as (b' & -> & Hr).
    eexists. split; [done|]. apply Hr.
  - eauto using pubrec_ok.
  - eauto using pubrel_ok.
  - destruct (drain_outbound_ok sender _ (clear_qos2_ok sender pid b Hb)) as (b' & -> & Hr).
    eexists. split; [done|]. apply Hr.
  - by apply detach_ok.
  - eexists. split; [done|]. by apply sweep_ok.
Qed.

(** ** Properties *)

Lemma run_from_ok inbox b :
  broker_ok b -> Forall (fun x => admissible x.2) inbox -> exists b', run inbox b = Ok b' /\ broker_ok b'.
Proof.
  intros Hb Hin. revert b Hb.
  induction Hin as [|[[now sender] msg] inbox Ha Hin IH]; intros b Hb; cbn [run]; [eauto|].
  destruct (handle_ok now sender msg b Hb Ha) as (b' & -> & Hb'). cbn [rbind]. by apply IH.
Qed.

(** C29: the broker's state stays well-formed and no handler fails.  From a
    fresh broker with any caps that are not negative, any inbox — any
    interleaving of the connections' messages at any times — whose CONNECTs
    carry a Will that can be constructed and a Receive Maximum of at most 65535
    (as the decoder delivers it), and whose publishes can be constructed, is
    handled to the end without an exception, and the resulting state satisfies
    the invariant: a connection that is registered for a client is the one that
    client is reached by, and every client that is reached has a session on
    which no clock runs; every cap is respected; the filters of a session are
    valid and distinct, its Receive Maximum is at most 65535; and only packets
    that can be constructed are queued, pending, retained or kept as a Will.
    (The converse of the first does not hold: a second CONNECT on a connection
    leaves its first client reachable through a connection that is registered
    for another, or gone.) *)
Theorem broker_run_ok c inbox :
  config_ok c -> Forall (fun x => admissible x.2) inbox ->
  exists b, run inbox (__init__ c) = Ok b /\ broker_ok b.
Proof. intros Hc. apply run_from_ok, broker_init_ok, Hc. Qed.

Definition sample_config : config := mkConfig 10 10 20 1000 5 3.
Definition connect_as (cid : string) (ps : props) : MQTTConnect :=
  mkConnect (lit cid) false 60 5 None None None None 0 false [] ps.
Definition sample_inbox : list (Z * conn_id * actor_message) :=
  [(0, 1, Attach (connect_as "a" []));
   (1, 1, ClientSubscribe (mkSubscribe (Some 1) [(lit "t/#", 1)] [] None));
   (2, 2, Attach (connect_as "b" []));
   (3, 2, ClientPublish (mkPublish (lit "t/x") [7] 1 (Some 9) true false []));
   (4, 1, ClientPuback 1); (5, 1, Detach false None)].

Lemma broker_run_ok_witness :
  exists b, run sample_inbox (__init__ sample_config) = Ok b /\ broker_ok b.
Proof.
  apply broker_run_ok.
  - split; cbn; lia.
  - repeat constructor; cbn; lia.
Defined.

(** Packet identifiers.  While fewer than 65535 exchanges are in flight
    the allocator succeeds, with an identifier of 1..65535 that no pending
    exchange uses, and it remembers it. *)
Theorem alloc_pid_fresh s :
  _in_flight s < 65535 ->
  exists pid, _alloc_pid s = Ok (pid, set_next_pid pid s) /\ 1 <= pid <= 65535 /\
    dget (pending_qos1_out s) pid = None /\ dget (pending_qos2_out s) pid = None.
Proof.
  intros Hf. destruct (alloc_pid_total s Hf) as (pid & H1 & H2 & H3). exists pid.
  split; [done|]. split; [done|]. unfold in_use in H3. split; apply dget_None; set_solver.
Qed.

(** The wrap-around: 65535 was the last identifier and 1 is still in use. *)
Definition wrapping_session : session :=
  set_q2out [(1, mkQos2 PUBREL_SENT None)] (set_next_pid 65535 _new_broker_session).

Lemma alloc_pid_fresh_witness :
  exists pid, _alloc_pid wrapping_session = Ok (pid, set_next_pid pid wrapping_session) /\ 1 <= pid <= 65535 /\
    dget (pending_qos1_out wrapping_session) pid = None /\ dget (pending_qos2_out wrapping_session) pid = None.
Proof. apply (alloc_pid_fresh wrapping_session). reflexivity. Defined.

(** Steps that only send. *)
Definition only_sends (b b' : broker) : Prop := exists l, b' = set_sent (sent b ++ l) b.

Lemma only_sends_refl b : only_sends b b.
Proof. exists []. rewrite app_nil_r. by destruct b. Qed.

Lemma only_sends_send conn r b b' : only_sends (send conn r b) b' -> only_sends b b'.
Proof. intros [l ->]. exists ((conn, r) :: l). unfold send; cbn. by rewrite <- app_assoc. Qed.

Lemma replay_only_sends conn s b b' : _replay_pending conn s b = Ok b' -> only_sends b b'.
Proof.
  unfold _replay_pending. intros H. inv_ok. rename a into b1.
  assert (forall l b b', replay_qos1 conn l b = Ok b' -> only_sends b b') as H1.
  { clear. induction l as [|p l IH]; intros b b'; cbn [replay_qos1].
    - intros [= <-]. apply only_sends_refl.
    - intros H. inv_ok. by eapply only_sends_send, IH. }
  assert (forall l b b', replay_qos2 conn l b = Ok b' -> only_sends b b') as H2.
  { clear. induction l as [|[pid e] l IH]; intros b b'; cbn [replay_qos2].
    - intros [= <-]. apply only_sends_refl.
    - destruct (q2_state e), (q2_packet e); intros H; inv_ok; by eapply only_sends_send, IH. }
  destruct (H1 _ _ _ Ha) as [l1 E1]. destruct (H2 _ _ _ H) as [l2 E2]. exists (l1 ++ l2).
  rewrite E2, E1. cbn. by rewrite app_assoc.
Qed.

Lemma sweep_conns now b :
  _client_by_conn (_sweep_expired now b) = _client_by_conn b /\ sent (_sweep_expired now b) = sent b.
Proof.
  unfold _sweep_expired. set (l := (filter _ (_sessions b)).*1). clearbody l.
  assert (forall b', _client_by_conn (foldl (fun b cid => drop_session cid b) b' l) = _client_by_conn b' /\
    sent (foldl (fun b cid => drop_session cid b) b' l) = sent b') as H.
  { induction l as [|cid l IH]; intros b'; simpl; [done|]. destruct (IH (drop_session cid b')) as [-> ->].
    unfold drop_session. by case_match. }
  unfold _arm_expiry_timer. case_match; apply H.
Qed.

(** A second CONNECT on a live Client Identifier: what is sent first, and who
    is registered afterwards. *)
Lemma attach_takeover now old new m b b' :
  broker_ok b -> proto_level m = 5 -> client_id m <> [] -> old <> new ->
  dget (_client_by_conn b) old = Some (client_id m) -> _on_attach now new m b = Ok b' ->
  (exists after, sent b' = sent b ++ [(old, disconnect SESSION_TAKEN_OVER); (old, Close SESSION_TAKEN_OVER)] ++ after)
  /\ dget (_client_by_conn b') old = None.
Proof.
  intros Hb Hp Hcid Hne Hold Ha. unfold _on_attach in Ha.
  rewrite Hp, bool_decide_false in Ha by done. cbn [Z.eqb V5_0 Pos.eqb negb] in Ha.
  destruct (sweep_ok now b Hb) as [Hb1 Hc1]. destruct (sweep_conns now b) as [E1 E2].
  set (b1 := _sweep_expired now b) in *. clearbody b1. rewrite <- E2.
  rewrite <- E1 in Hold. pose proof (bo_registered _ Hb1 _ _ Hold) as Hcl.
  destruct (bo_live _ Hb1 _ _ Hcl) as (s & Hs & _).
  assert (dmem (_sessions b1) (client_id m) = true) as Hm by (unfold dmem; by rewrite Hs).
  rewrite Hm in Ha. cbn [negb] in Ha. rewrite andb_false_r in Ha. cbn [andb] in Ha.
  set (b2 := register new (client_id m) b1) in *.
  assert (sent b2 = sent b1 ++ [(old, disconnect SESSION_TAKEN_OVER); (old, Close SESSION_TAKEN_OVER)] /\
    dget (_client_by_conn b2) old = None) as [S2 N2].
  { unfold b2, register. rewrite Hcl, bool_decide_false by done. cbn. split; [by rewrite <- app_assoc|].
    rewrite dget_dset_ne by done. apply dget_dpop_eq, Hb1. }
  clearbody b2. inv_ok. rename a into b3.
  assert (sent b3 = sent b2 /\ _client_by_conn b3 = _client_by_conn b2) as [S3 N3].
  { unfold store_will in Ha0. destruct (will_topic m); inv_ok; done. }
  destruct (open_session (client_id m) m b3) as [present s0].
  set (b4 := set_sessions _ (_arm_expiry_timer _ _)) in Ha.
  assert (sent b4 = sent b2 /\ _client_by_conn b4 = _client_by_conn b2) as [S4 N4].
  { unfold b4, _arm_expiry_timer. destruct (deadlines _); by split. }
  clearbody b4.   assert (only_sends b4 b') as [l ->].
  { destruct present.
    - by eapply only_sends_send, replay_only_sends.
    - injection Ha as <-. eapply only_sends_send, only_sends_refl. }
  cbn. rewrite S4, S2, N4. split; [|done]. exists l. by rewrite <- app_assoc.
Qed.

(** A take-over is final.  After a second CONNECT for a connected Client
    Identifier is accepted, the first connection has been sent DISCONNECT
    0x8E and Close, and its teardown — graceful or not — changes nothing: in
    particular its Will is not published. *)
Theorem takeover_silences_old now now' old new m b b' g iv :
  broker_ok b -> proto_level m = 5 -> client_id m <> [] -> old <> new ->
  dget (_client_by_conn b) old = Some (client_id m) ->
  _on_attach now new m b = Ok b' ->
  (exists before after, sent b' =
     before ++ [(old, disconnect SESSION_TAKEN_OVER); (old, Close SESSION_TAKEN_OVER)] ++ after) /\
  _on_detach now' old g iv b' = Ok b'.
Proof.
  intros Hb Hp Hc Hne Hold Ha.
  destruct (attach_takeover now old new m b b' Hb Hp Hc Hne Hold Ha) as [[after Hs] Hn]. split.
  - by exists (sent b), after.
  - unfold _on_detach. by rewrite Hn.
Qed.

Definition two_connects : list (Z * conn_id * actor_message) :=
  [(0, 1, Attach (connect_as "a" [])); (1, 2, Attach (connect_as "b" []))].
Definition broker_after (inbox : list (Z * conn_id * actor_message)) : broker :=
  match run inbox (__init__ sample_config) with Ok b => b | Raise _ => __init__ sample_config end.

Lemma broker_after_ok inbox : Forall (fun x => admissible x.2) inbox -> broker_ok (broker_after inbox).
Proof.
  assert (config_ok sample_config) as Hc by (split; cbn; lia).
  intros Hin. destruct (run_from_ok inbox _ (broker_init_ok _ Hc) Hin) as (b & Hb & Hok).
  unfold broker_after. by rewrite Hb.
Qed.

Ltac solve_admissible :=
  repeat apply Forall_cons_2; try apply Forall_nil_2; cbn; try done; split; cbn; first [done | lia].

Definition busy_broker : broker := broker_after two_connects.

Lemma busy_broker_ok : broker_ok busy_broker.
Proof. apply broker_after_ok. unfold two_connects. solve_admissible. Qed.

Lemma takeover_silences_old_witness :
  exists b', _on_attach 5 3 (connect_as "a" []) busy_broker = Ok b' /\
    ((exists before after, sent b' =
       before ++ [(1, disconnect SESSION_TAKEN_OVER); (1, Close SESSION_TAKEN_OVER)] ++ after) /\
     _on_detach 6 1 false None b' = Ok b').
Proof.
  eexists. split; [vm_compute; reflexivity|].
  apply (takeover_silences_old 5 6 1 3 (connect_as "a" []) busy_broker);
    [exact busy_broker_ok|reflexivity|discriminate|discriminate|reflexivity|vm_compute; reflexivity].
Defined.

(** *** QoS 2 *)

Lemma routed_session conn b b' cid s :
  broker_ok b -> routed b b' -> _session_for conn b = Some (cid, s) ->
  exists s', _session_for conn b' = Some (cid, s') /\ pending_qos2_in s' = pending_qos2_in s.
Proof.
  intros Hb [R1 R2 R3 R4 R5 R6 R7] Hs. unfold _session_for in *. rewrite R4.
  destruct (dget (_client_by_conn b) conn) as [c|] eqn:Hc; [|done].
  destruct (dget (_sessions b) c) as [s0|] eqn:Hs0; [|done]. injection Hs as -> ->.
  apply (bo_registered b Hb) in Hc. rewrite <- R3 in Hc.
  destruct (bo_live b' R1 _ _ Hc) as (s' & Hs' & _). rewrite Hs'. exists s'. split; [done|].
  destruct (R7 _ _ Hs') as (s1 & H1 & _ & H2). congruence.
Qed.

(** A PUBLISH whose identifier is already accepted is acknowledged and goes
    nowhere. *)
Lemma publish_duplicate conn p b cid s :
  validate_topic_name (topic p) = true -> qos p = 2 -> _session_for conn b = Some (cid, s) ->
  dmem (pending_qos2_in s) (pid_of p) = true ->
  exists b' code, _on_publish conn p b = Ok b' /\
    sent b' = sent b ++ [(conn, Send (Pubrec (mkAck (pid_of p) code [])))] /\ _sessions b' = _sessions b.
Proof.
  intros Hv Hq Hs Hm. unfold _on_publish. rewrite Hv, Hq. cbn [negb Z.eqb Pos.eqb].
  set (st := if retain p then _ else _).
  assert (sent st.2 = sent b /\ _sessions st.2 = _sessions b /\ _client_by_conn st.2 = _client_by_conn b)
    as (E1 & E2 & E3) by (unfold st, _store_retained; repeat case_match; done).
  destruct st as [stored b1]. cbn [snd] in *. unfold _qos2_accept_inbound. rewrite session_for_send.
  assert (_session_for conn b1 = Some (cid, s)) as -> by (unfold _session_for in *; by rewrite E2, E3).
  rewrite Hm. cbn [negb]. eexists _, _. split; [done|]. cbn. by rewrite E1, E2.
Qed.

(** Accepting an identifier for the first time records it, and routing leaves
    it recorded. *)
Lemma publish_accepts conn p b cid s :
  broker_ok b -> fine p -> validate_topic_name (topic p) = true -> qos p = 2 ->
  _session_for conn b = Some (cid, s) ->
  exists b' s', _on_publish conn p b = Ok b' /\ broker_ok b' /\ _session_for conn b' = Some (cid, s') /\
    dmem (pending_qos2_in s') (pid_of p) = true.
Proof.
  intros Hb Hf Hv Hq Hs. destruct (publish_ok conn p b Hb Hf) as (b' & Hp & Hb').
  exists b'. enough (exists s', _session_for conn b' = Some (cid, s') /\ dmem (pending_qos2_in s') (pid_of p) = true)
    as (s' & ? & ?) by eauto.
  clear Hb'. unfold _on_publish in Hp. rewrite Hv, Hq in Hp. cbn [negb Z.eqb Pos.eqb] in Hp.
  set (st := if retain p then _ else _) in Hp.
  assert (_sessions st.2 = _sessions b /\ _client_by_conn st.2 = _client_by_conn b)
    as (E2 & E3) by (unfold st, _store_retained; repeat case_match; done).
  assert (broker_ok st.2) as Hst by (unfold st; destruct (retain p); [by apply store_retained_ok|done]).
  destruct st as [stored b1]. cbn [snd] in *.
  set (b2 := send conn _ b1) in Hp.
  assert (_session_for conn b2 = Some (cid, s)) as Hs2 by (unfold _session_for in *; cbn; by rewrite E2, E3).
  pose proof (accept_ok conn (pid_of p) b2 (ok_send _ _ _ Hst)) as Ha.
  unfold _qos2_accept_inbound in *. rewrite Hs2 in *.
  destruct (dmem (pending_qos2_in s) (pid_of p)) eqn:Hm; cbn [negb snd] in *.
  { injection Hp as <-. eauto. }
  set (s1 := set_q2in _ s) in *. set (b3 := set_sessions _ b2) in *.
  destruct (route_ok p (Some conn) b3 Ha Hf) as (b4 & H4 & Hr). rewrite Hp in H4. injection H4 as <-.
  assert (_session_for conn b3 = Some (cid, s1)) as Hs3.
  { unfold _session_for in *. cbn in Hs2 |- *. destruct (dget (_client_by_conn b1) conn) as [c|]; [|done].
    destruct (dget (_sessions b1) c); [|done]. injection Hs2 as -> ->. by rewrite dget_dset_eq. }
  destruct (routed_session conn b3 b' cid s1 Ha Hr Hs3) as (s' & Hs' & Hq2). exists s'. split; [done|].
  rewrite Hq2. unfold s1, dmem; cbn. by rewrite dget_dset_eq.
Qed.

(** QoS 2 messages are delivered once.  After a QoS 2 PUBLISH of a
    connected client is handled, another one with the same identifier (a
    retransmission, until PUBREL) is answered with PUBREC and reaches nobody:
    one packet is sent and no session changes. *)
Theorem qos2_exactly_once conn p p' b cid s :
  broker_ok b -> fine p -> _session_for conn b = Some (cid, s) ->
  qos p = 2 -> qos p' = 2 -> pid_of p' = pid_of p ->
  validate_topic_name (topic p) = true -> validate_topic_name (topic p') = true ->
  exists b1 b2 code, _on_publish conn p b = Ok b1 /\ _on_publish conn p' b1 = Ok b2 /\
    sent b2 = sent b1 ++ [(conn, Send (Pubrec (mkAck (pid_of p) code [])))] /\ _sessions b2 = _sessions b1.
Proof.
  intros Hb Hf Hs Hq Hq' Hpid Hv Hv'.
  destruct (publish_accepts conn p b cid s Hb Hf Hv Hq Hs) as (b1 & s1 & H1 & Hb1 & Hs1 & Hm).
  rewrite <- Hpid in Hm.
  destruct (publish_duplicate conn p' b1 cid s1 Hv' Hq' Hs1 Hm) as (b2 & code & H2 & H3 & H4).
  exists b1, b2, code. rewrite <- Hpid. done.
Qed.

Definition qos2_publish (dup : bool) : MQTTPublish := mkPublish (lit "t") [1] 2 (Some 5) false dup [].

(** A broker with one connected client. *)
Lemma connected_broker :
  exists b s, _on_attach 0 1 (connect_as "a" []) (__init__ sample_config) = Ok b /\ broker_ok b /\
    _session_for 1 b = Some (lit "a", s).
Proof.
  assert (config_ok sample_config) as Hc by (split; cbn; lia).
  assert (connect_admissible (connect_as "a" [])) as Hm by by split.
  destruct (attach_ok 0 1 (connect_as "a" []) _ (broker_init_ok _ Hc) Hm) as (b & Hb & Hok).
  exists b. eexists. split; [done|]. split; [done|]. vm_compute in Hb. injection Hb as <-. vm_compute. reflexivity.
Qed.

Lemma qos2_exactly_once_witness :
  exists b b1 b2 code, _on_publish 1 (qos2_publish false) b = Ok b1 /\ _on_publish 1 (qos2_publish true) b1 = Ok b2 /\
    sent b2 = sent b1 ++ [(1, Send (Pubrec (mkAck 5 code [])))] /\ _sessions b2 = _sessions b1.
Proof.
  destruct connected_broker as (b & s & _ & Hok & Hs). exists b.
  by apply (qos2_exactly_once 1 (qos2_publish false) (qos2_publish true) b (lit "a") s).
Defined.

(** *** Flow control *)

(** The packet [_send_qos] sends and the session it leaves. *)
Definition copy_of (p : MQTTPublish) (q : Z) (r : bool) (pid : Z) : MQTTPublish :=
  mkPublish (topic p) (payload p) q (Some pid) r false (p_properties p).

Definition with_pending (p : MQTTPublish) (q : Z) (r : bool) (pid : Z) (s : session) : session :=
  let s := set_next_pid pid s in
  if q =? 1 then set_q1out (dset (pending_qos1_out s) pid (copy_of p q r pid)) s
  else set_q2out (dset (pending_qos2_out s) pid (mkQos2 PUBLISH_SENT (Some (copy_of p q r pid)))) s.

Lemma send_qos_eq conn cid s p q r b :
  fine p -> _in_flight s < 65535 ->
  exists pid, 1 <= pid <= 65535 /\ (pid ∉ in_use s) /\
    _send_qos conn cid s p q r b =
      Ok (send conn (Send (Publish (copy_of p q r pid)))
            (set_sessions (dset (_sessions b) cid (with_pending p q r pid s)) b)).
Proof.
  intros Hf Hs. destruct (alloc_pid_total s Hs) as (pid & Hp & Hr & Hn). exists pid.
  split; [done|]. split; [done|]. unfold _send_qos. rewrite Hp. cbn [rbind].
  by rewrite new_publish_Ok.
Qed.

Lemma dmem_false_notin {K V} `{!EqDecision K} (d : dict K V) k : k ∉ dkeys d -> dmem d k = false.
Proof. intros H%dget_None. unfold dmem. by rewrite H. Qed.

Lemma with_pending_in_flight p q r pid s :
  pid ∉ in_use s -> _in_flight (with_pending p q r pid s) = _in_flight s + 1.
Proof.
  unfold in_use. intros [H1 H2]%not_elem_of_app. unfold with_pending, _in_flight.
  destruct (q =? 1); cbn; rewrite zlen_dset, dmem_false_notin by done; lia.
Qed.

Lemma with_pending_rest p q r pid s :
  outbound_queue (with_pending p q r pid s) = outbound_queue s /\
  receive_maximum (with_pending p q r pid s) = receive_maximum s.
Proof. unfold with_pending. by destruct (q =? 1). Qed.

(** The session of [cid] holds a message more in its queue, unless the cap is
    reached. *)
Definition queued (cap : Z) (h : _Held) (s : session) : session :=
  if negb (cap =? 0) && (zlen (outbound_queue s) >=? cap) then s
  else set_queue (outbound_queue s ++ [h]) s.

(** Outbound flow control.  A QoS 1 or 2 delivery to a session whose
    Receive Maximum is used up sends nothing and holds the message at the end
    of the queue (or refuses it, at the cap); any other sends one PUBLISH at
    the lower of the two QoS, under an identifier no pending exchange uses,
    and occupies one unit of the window, which is never overdrawn. *)
Theorem deliver_flow_control conn cid p g r b s :
  broker_ok b -> fine p -> dget (_sessions b) cid = Some s -> 0 < Z.min (qos p) g ->
  let q := Z.min (qos p) g in
  (receive_maximum s <= _in_flight s ->
     _deliver conn cid p g r b = Ok (set_sessions
       (dset (_sessions b) cid (queued (_max_queued (cfg b)) (mkHeld p q r) s)) b)) /\
  (_in_flight s < receive_maximum s -> exists pid,
     1 <= pid <= 65535 /\ (pid ∉ in_use s) /\
     _deliver conn cid p g r b = Ok (send conn (Send (Publish (copy_of p q r pid)))
       (set_sessions (dset (_sessions b) cid (with_pending p q r pid s)) b)) /\
     _in_flight (with_pending p q r pid s) = _in_flight s + 1 /\
     _in_flight s + 1 <= receive_maximum (with_pending p q r pid s)).
Proof.
  intros Hb Hf Hs Hq q. unfold _deliver. fold q.
  rewrite (proj2 (Z.eqb_neq q 0)), Hs, Z.geb_leb by lia. split; intros Hw.
  - rewrite (proj2 (Z.leb_le _ _)) by done. unfold _enqueue_outbound, update_session. by rewrite Hs.
  - rewrite (proj2 (Z.leb_gt _ _)) by done. pose proof (so_rmax _ _ (bo_sess b Hb _ _ Hs)).
    destruct (send_qos_eq conn cid s p q r b Hf ltac:(lia)) as (pid & H1 & H2 & H3). exists pid.
    pose proof (with_pending_in_flight p q r pid s H2). destruct (with_pending_rest p q r pid s) as [_ E].
    split_and!; try done; lia.
Qed.

Lemma deliver_flow_control_witness :
  let p := mkPublish (lit "t") [1] 1 (Some 5) false false [] in
  let q := Z.min (qos p) 2 in
  (65535 <= _in_flight _new_broker_session -> _deliver 1 (lit "a") p 2 false busy_broker = Ok (set_sessions
     (dset (_sessions busy_broker) (lit "a") (queued 10 (mkHeld p q false) _new_broker_session)) busy_broker)) /\
  (_in_flight _new_broker_session < 65535 -> exists pid, 1 <= pid <= 65535 /\
     (pid ∉ in_use _new_broker_session) /\
     _deliver 1 (lit "a") p 2 false busy_broker = Ok (send 1 (Send (Publish (copy_of p q false pid)))
       (set_sessions (dset (_sessions busy_broker) (lit "a") (with_pending p q false pid _new_broker_session)) busy_broker)) /\
     _in_flight (with_pending p q false pid _new_broker_session) = _in_flight _new_broker_session + 1 /\
     _in_flight _new_broker_session + 1 <= receive_maximum (with_pending p q false pid _new_broker_session)).
Proof.
  apply (deliver_flow_control 1 (lit "a") (mkPublish (lit "t") [1] 1 (Some 5) false false []) 2 false
           busy_broker _new_broker_session busy_broker_ok); vm_compute; reflexivity.
Defined.

Lemma elem_of_in_use_pending p q r pid s x :
  x ∈ in_use (with_pending p q r pid s) <-> x = pid \/ x ∈ in_use s.
Proof.
  unfold in_use, with_pending. destruct (q =? 1);
    cbn [set_q1out set_q2out set_next_pid pending_qos1_out pending_qos2_out];
    rewrite !elem_of_app, elem_of_dkeys_dset; naive_solver.
Qed.

(** What a released message is sent as. *)
Definition release (conn : conn_id) (h : _Held) (pid : Z) : conn_id * reply :=
  (conn, Send (Publish (copy_of (h_publish h) (h_qos h) (h_retain h) pid))).

(** The result of releasing the first [n] messages held for [cid]. *)
Record drained (conn : conn_id) (cid : pystr) (b : broker) (s : session) (n : nat) (b' : broker) : Prop := mk_drained {
  dr_sent : exists pids, length pids = n /\ NoDup pids /\
    Forall (fun pid => 1 <= pid <= 65535 /\ (pid ∉ in_use s)) pids /\
    sent b' = sent b ++ zip_with (release conn) (take n (outbound_queue s)) pids;
  dr_session : exists s', dget (_sessions b') cid = Some s' /\ outbound_queue s' = drop n (outbound_queue s) /\
    _in_flight s' = _in_flight s + Z.of_nat n /\ receive_maximum s' = receive_maximum s;
  dr_conns : _client_by_conn b' = _client_by_conn b
}.

Lemma drained_0 conn cid b s : dget (_sessions b) cid = Some s -> drained conn cid b s 0 b.
Proof.
  intros Hs. split; [|exists s|done].
  - exists []. split_and!; try done; [constructor|]. by rewrite app_nil_r.
  - split_and!; try done. lia.
Qed.

Lemma drained_S conn cid b s h queue n b' pid :
  outbound_queue s = h :: queue -> 1 <= pid <= 65535 -> (pid ∉ in_use s) ->
  let s1 := with_pending (h_publish h) (h_qos h) (h_retain h) pid (set_queue queue s) in
  drained conn cid (send conn (Send (Publish (copy_of (h_publish h) (h_qos h) (h_retain h) pid)))
                     (set_sessions (dset (_sessions b) cid s1) b)) s1 n b' ->
  drained conn cid b s (S n) b'.
Proof.
  intros Hq Hr Hn s1 [(pids & L & Hnd & Hf & Hsent) (s' & G1 & G2 & G3 & G4) Hc].
  destruct (with_pending_rest (h_publish h) (h_qos h) (h_retain h) pid (set_queue queue s)) as [R1 R2].
  fold s1 in R1, R2. cbn [outbound_queue set_queue receive_maximum] in R1, R2.
  assert (Forall (fun x => 1 <= x <= 65535 /\ (x ∉ in_use s) /\ x <> pid) pids) as Hf'.
  { eapply Forall_impl; [exact Hf|]. intros x [? Hx]. unfold s1 in Hx.
    rewrite elem_of_in_use_pending in Hx. change (in_use (set_queue queue s)) with (in_use s) in Hx. naive_solver. }
  split; [exists (pid :: pids)|exists s'|done].
  - split_and!; [simpl; lia| |constructor; [done|]|].
    + constructor; [|done]. intros Hin. rewrite Forall_forall in Hf'. by destruct (Hf' _ Hin) as (_ & _ & ?).
    + eapply Forall_impl; [exact Hf'|]. naive_solver.
    + rewrite Hsent, R1, Hq. cbn. by rewrite <- app_assoc.
  - rewrite Hq, G2, R1, G3, G4, R2. unfold s1. rewrite with_pending_in_flight by done.
    change (_in_flight (set_queue queue s)) with (_in_flight s). split_and!; try done. lia.
Qed.

Lemma drain_loop_spec fuel conn cid b s :
  broker_ok b -> dget (_sessions b) cid = Some s -> (length (outbound_queue s) <= fuel)%nat ->
  exists b', drain_loop fuel conn cid b = Ok b' /\
    drained conn cid b s (min (length (outbound_queue s)) (Z.to_nat (receive_maximum s - _in_flight s))) b'.
Proof.
  revert b s. induction fuel as [|fuel IH]; intros b s Hb Hs Hf; cbn [drain_loop]; rewrite Hs;
    destruct (outbound_queue s) as [|h queue] eqn:Hq;
    try (eexists; split; [done|by apply drained_0]); [simpl in Hf; lia|].
  destruct (Z.ltb_spec (_in_flight s) (receive_maximum s)) as [Hw|Hw].
  2: { eexists; split; [done|]. replace (Z.to_nat (_ - _)) with 0%nat by lia. rewrite Nat.min_0_r. by apply drained_0. }
  pose proof (bo_sess b Hb _ _ Hs) as Hso. pose proof (so_rmax _ _ Hso).
  pose proof (so_held _ _ Hso) as Hh. rewrite Hq in Hh. apply Forall_cons in Hh as [Hfine Hh].
  assert (session_ok (cfg b) (set_queue queue s)) as Hso'.
  { destruct Hso. split; cbn; try done. rewrite Hq in so_queue0. unfold within in *.
    rewrite zlen_cons in so_queue0. lia. }
  destruct (send_qos_eq conn cid (set_queue queue s) (h_publish h) (h_qos h) (h_retain h) b Hfine)
    as (pid & Hr & Hn & Heq); [change (_in_flight (set_queue queue s)) with (_in_flight s); lia|].
  destruct (send_qos_ok conn cid s (set_queue queue s) (h_publish h) (h_qos h) (h_retain h) b)
    as (b1 & Hb1 & Hd & _); try done.
  rewrite Heq in Hb1 |- *. injection Hb1 as Hb1. rewrite Hb1 in *. cbn [rbind].
  set (s1 := with_pending _ _ _ pid _) in *.
  destruct (with_pending_rest (h_publish h) (h_qos h) (h_retain h) pid (set_queue queue s)) as [R1 R2].
  fold s1 in R1, R2. cbn [outbound_queue set_queue receive_maximum] in R1, R2.
  destruct (IH b1 s1) as (b' & -> & Hdr); [apply Hd|subst b1; apply dget_dset_eq|rewrite R1; simpl in Hf; lia|].
  exists b'. split; [done|]. assert (_in_flight s1 = _in_flight s + 1) as Ef by exact (with_pending_in_flight _ _ _ pid (set_queue queue s) Hn).
  rewrite R1, R2, Ef in Hdr. cbn [length].
  replace (min (S (length queue)) (Z.to_nat (receive_maximum s - _in_flight s))) with
    (S (min (length queue) (Z.to_nat (receive_maximum s - (_in_flight s + 1))))) by lia.
  rewrite <- Hb1 in Hdr. by eapply drained_S.
Qed.

(** Releasing held messages.  When an acknowledgement frees the window,
    the messages held for the client go out in the order they were queued, each
    under its own fresh identifier, exactly as many as fit: afterwards the
    queue is empty or the window is full. *)
Theorem drain_releases conn cid s b :
  broker_ok b -> _session_for conn b = Some (cid, s) ->
  exists b', _drain_outbound conn b = Ok b' /\
    drained conn cid b s (min (length (outbound_queue s)) (Z.to_nat (receive_maximum s - _in_flight s))) b'.
Proof.
  intros Hb Hs. unfold _drain_outbound. rewrite Hs. apply drain_loop_spec; [done| |done].
  unfold _session_for in Hs. destruct (dget (_client_by_conn b) conn) as [c|]; [|done].
  destruct (dget (_sessions b) c) eqn:E; [|done]. by injection Hs as -> ->.
Qed.

(** A client with a Receive Maximum of 1 that two messages are held for. *)
Definition holding_inbox : list (Z * conn_id * actor_message) :=
  let pub n := ClientPublish (mkPublish (lit "t") [n] 1 (Some n) false false []) in
  [(0, 1, Attach (connect_as "a" [("receive_maximum"%string, PInt 1)]));
   (1, 1, ClientSubscribe (mkSubscribe (Some 1) [(lit "t", 1)] [] None));
   (2, 2, Attach (connect_as "b" [])); (3, 2, pub 7); (4, 2, pub 8); (5, 2, pub 9)].

Lemma drain_releases_witness :
  let b := broker_after holding_inbox in
  exists s b', _session_for 1 b = Some (lit "a", s) /\ length (outbound_queue s) = 2%nat /\
    (_drain_outbound 1 b = Ok b' /\
     drained 1 (lit "a") b s (min (length (outbound_queue s)) (Z.to_nat (receive_maximum s - _in_flight s))) b').
Proof.
  intros b. assert (broker_ok b) as Hb.
  { apply broker_after_ok. unfold holding_inbox. solve_admissible. }
  destruct (_session_for 1 b) as [[cid s]|] eqn:Hs; [|vm_compute in Hs; discriminate Hs].
  destruct (drain_releases 1 cid s b Hb Hs) as (b' & H1 & H2). exists s, b'.
  assert (cid = lit "a" /\ length (outbound_queue s) = 2%nat) as [-> Hl].
  { vm_compute in Hs. injection Hs as <- <-. split; vm_compute; reflexivity. }
  exact (conj eq_refl (conj Hl (conj H1 H2))).
Defined.

(** *** Shared subscriptions *)

(** Publishing several messages, and who is picked for each in a group of one
    topic with cursor [c]. *)
Fixpoint route_all (ps : list MQTTPublish) (source : option conn_id) (b : broker) : result broker :=
  match ps with
  | [] => Ok b
  | p :: ps => let* b := _route p source b in route_all ps source b
  end.

Definition picks {A} (c : Z) (n : nat) (ms : list A) : list A :=
  omap (fun i => ms !! Z.to_nat i) ((fun i => (c + i) mod zlen ms) <$> seqZ 0 (Z.of_nat n)).

Lemma mod_rotation c k : 0 < k -> (fun i => (c + i) mod k) <$> seqZ 0 k ≡ₚ seqZ 0 k.
Proof.
  intros Hk. apply submseteq_length_Permutation; [|by rewrite length_fmap].
  apply NoDup_submseteq.
  - apply NoDup_fmap_2_strong; [|apply NoDup_seqZ]. intros i j Hi%elem_of_seqZ Hj%elem_of_seqZ E.
    pose proof (Z.div_mod (c + i) k ltac:(lia)) as H1. pose proof (Z.div_mod (c + j) k ltac:(lia)) as H2.
    cbv beta in E. rewrite E in H1. assert ((c + i) / k = (c + j) / k) by nia. nia.
  - intros x Hx. apply list_elem_of_fmap in Hx as (i & -> & _). apply elem_of_seqZ.
    pose proof (Z.mod_pos_bound (c + i) k Hk). lia.
Qed.

Lemma lookup_all {A} (ms : list A) : omap (fun i => ms !! Z.to_nat i) (seqZ 0 (zlen ms)) = ms.
Proof.
  induction ms as [|m ms IH] using rev_ind; [done|]. rewrite zlen_app. change (zlen [m]) with 1.
  pose proof (zlen_nonneg ms). rewrite (seqZ_app 0 (zlen ms) 1), omap_app by lia. f_equal.
  - rewrite <- IH at 2. apply list_omap_ext, Forall_Forall2_diag, Forall_forall. intros i Hi%elem_of_seqZ.
    apply lookup_app_l. unfold zlen in Hi. lia.
  - change (seqZ (0 + zlen ms) 1) with [0 + (0 + zlen ms)]. cbn [omap list_omap]. unfold zlen.
    rewrite !Z.add_0_l, Nat2Z.id, lookup_app_r, Nat.sub_diag by done. done.
Qed.

(** Over as many messages as there are members everyone is picked once. *)
Lemma picks_permutation {A} c (ms : list A) : picks c (length ms) ms ≡ₚ ms.
Proof.
  destruct ms as [|m ms]; [done|]. set (l := m :: ms).
  assert (0 < zlen l) as Hl by (unfold l; rewrite zlen_cons; pose proof (zlen_nonneg ms); lia).
  etrans; [exact (omap_Permutation _ _ _ (mod_rotation c (zlen l) Hl))|by rewrite lookup_all].
Qed.

(** The share members of a topic: what the loop over the clients collects. *)
Fixpoint collect (p : MQTTPublish) (src : option conn_id) (cs : list (pystr * conn_id))
    (ss : dict pystr session) (g : groups) : groups :=
  match cs with
  | [] => g
  | (cid, conn) :: cs =>
      match dget ss cid with
      | None => collect p src cs ss g
      | Some s => collect p src cs ss (scan_subs p src conn cid (subs s) None false g).2
      end
  end.

(** Every subscription of the topic is a shared one. *)
Definition only_shared (t : pystr) (b : broker) : Prop :=
  Forall (fun x => Forall (fun f => topic_matches_filter t f = true -> is_Some (_parse_share f)) (filters x.2))
    (_sessions b).

Lemma scan_shared p src conn cid l g :
  Forall (fun f => topic_matches_filter (topic p) f = true -> is_Some (_parse_share f)) ((fun x => x.1.1) <$> l) ->
  (scan_subs p src conn cid l None false g).1.1 = None.
Proof.
  revert g. induction l as [|[[f q] o] l IH]; intros g; cbn [scan_subs]; [done|].
  rewrite fmap_cons, Forall_cons. cbn [fst]. intros [Hf Hl].
  destruct (topic_matches_filter (topic p) f); cbn [negb]; [|by apply IH].
  destruct (Hf eq_refl) as [k ->]. by apply IH.
Qed.

Lemma route_clients_shared p src cs g b :
  broker_ok b -> only_shared (topic p) b -> route_clients p src cs g b = Ok (collect p src cs (_sessions b) g, b).
Proof.
  intros Hb Hs. revert g. induction cs as [|[cid conn] cs IH]; intros g; cbn [route_clients collect]; [done|].
  destruct (dget (_sessions b) cid) as [s|] eqn:E; [|done].
  pose proof (scan_shared p src conn cid (subs s) g) as Hn.
  destruct (scan_subs _ _ _ _ _ _ _ _) as [[granted rap] g']. cbn in Hn |- *. rewrite Hn; [done|].
  apply dget_elem in E. unfold only_shared in Hs. rewrite Forall_forall in Hs. exact (Hs _ E).
Qed.

(** What a member of a group is sent of a QoS 0 message. *)
Definition shared_copy (p : MQTTPublish) (m : member) : conn_id * reply :=
  (m_conn m, Send (Publish (mkPublish (topic p) (payload p) 0 None
                              (so_retain_as_published (m_opts m) && retain p) false (p_properties p)))).

Definition cursor (share : share_key) (b : broker) : Z := default 0 (dget (_share_rotation b) share).

Lemma route_one_group p share ms b :
  fine p -> qos p = 0 -> ms <> [] -> Forall (fun m => 0 <= m_qos m) ms ->
  exists m, ms !! Z.to_nat (cursor share b mod zlen ms) = Some m /\
    route_groups p [(share, ms)] b =
      Ok (send (shared_copy p m).1 (shared_copy p m).2
            (set_rotation (dset (_share_rotation b) share (cursor share b mod zlen ms + 1)) b)).
Proof.
  intros Hf Hq Hms Hpos. destruct (cursor_range ms (cursor share b) Hms) as [m Hm]. exists m.
  assert (ms !! Z.to_nat (cursor share b mod zlen ms) = Some m) as Hl.
  { unfold zget in Hm. by destruct (ms !! _); simplify_eq. }
  split; [done|]. cbn [route_groups]. unfold cursor in *. rewrite Hm. cbn [rbind]. unfold _deliver.
  rewrite Forall_forall in Hpos. pose proof (Hpos m (list_elem_of_lookup_2 _ _ _ Hl)).
  rewrite Hq, Z.min_l by done. cbn [Z.eqb]. by rewrite new_publish_Ok.
Qed.

Lemma scan_subs_topic p p' src conn cid l granted rap g :
  topic p = topic p' -> scan_subs p src conn cid l granted rap g = scan_subs p' src conn cid l granted rap g.
Proof.
  intros E. revert granted rap g. induction l as [|[[f q] o] l IH]; intros; cbn [scan_subs]; [done|].
  rewrite E. by repeat case_match.
Qed.

Lemma collect_topic p p' src cs ss g : topic p = topic p' -> collect p src cs ss g = collect p' src cs ss g.
Proof.
  intros E. revert g. induction cs as [|[cid conn] cs IH]; intros; cbn [collect]; [done|].
  case_match; [|done]. by rewrite (scan_subs_topic p p').
Qed.

Lemma picks_S {A} c n (ms : list A) m :
  ms !! Z.to_nat (c mod zlen ms) = Some m -> picks c (S n) ms = m :: picks (c mod zlen ms + 1) n ms.
Proof.
  intros Hm. unfold picks. rewrite (seqZ_cons 0) by lia. cbn [fmap list_fmap omap list_omap].
  rewrite Z.add_0_r, Hm. f_equal. replace (Z.pred (Z.of_nat (S n))) with (Z.of_nat n) by lia.
  assert (seqZ (Z.succ 0) (Z.of_nat n) = Z.add 1 <$> seqZ 0 (Z.of_nat n)) as -> by by rewrite fmap_add_seqZ.
  rewrite <- list_fmap_compose. apply (f_equal (omap _)), list_fmap_ext. intros i x _. cbn.
  rewrite <- (Z.add_assoc (c mod _)). by rewrite Zplus_mod_idemp_l.
Qed.

Lemma only_shared_same t b b' : _sessions b' = _sessions b -> only_shared t b -> only_shared t b'.
Proof. unfold only_shared. by intros ->. Qed.

(** The members of the topic of [p], seen from the connection [src]. *)
Definition share_members (p : MQTTPublish) (src : option conn_id) (b : broker) : groups :=
  collect p src (_clients b) (_sessions b) [].

Lemma route_all_shared ps src b share ms t p0 :
  broker_ok b -> topic p0 = t -> only_shared t b -> share_members p0 src b = [(share, ms)] ->
  ms <> [] -> Forall (fun m => 0 <= m_qos m) ms ->
  Forall (fun p => fine p /\ qos p = 0 /\ topic p = t) ps ->
  exists b', route_all ps src b = Ok b' /\
    sent b' = sent b ++ zip_with shared_copy ps (picks (cursor share b) (length ps) ms).
Proof.
  intros Hb Ht Hsh Hm Hne Hpos Hps. revert b Hb Hsh Hm.
  induction Hps as [|p ps (Hf & Hq & Hp) Hps IH]; intros b Hb Hsh Hm; cbn [route_all].
  { exists b. split; [done|]. cbn. by rewrite app_nil_r. }
  unfold _route. subst t. rewrite route_clients_shared by (done || by rewrite Hp). cbn [rbind].
  rewrite (collect_topic p p0) by done. unfold share_members in Hm. rewrite Hm.
  destruct (route_one_group p share ms b Hf Hq Hne Hpos) as (m & Hl & ->). cbn [rbind].
  set (b1 := send _ _ _). destruct (IH b1) as (b' & -> & Hs'); [by apply ok_send, ok_rotation|done|done|].
  exists b'. split; [done|]. rewrite Hs'. cbn [length]. rewrite (picks_S _ _ _ m) by done.
  assert (cursor share b1 = cursor share b mod zlen ms + 1) as -> by (unfold cursor, b1; cbn; by rewrite dget_dset_eq).
  cbn. by rewrite <- app_assoc.
Qed.

(** Shared subscriptions take turns.  On a topic whose only subscribers
    are the [k] members of one share group, any [k] consecutive QoS 0 messages
    are sent one each, and every member gets exactly one of them, wherever the
    group's cursor stood. *)
Theorem share_round_robin ps src b share ms t p0 :
  broker_ok b -> topic p0 = t -> only_shared t b -> share_members p0 src b = [(share, ms)] ->
  Forall (fun m => 0 <= m_qos m) ms -> Forall (fun p => fine p /\ qos p = 0 /\ topic p = t) ps ->
  length ps = length ms ->
  exists b' chosen, route_all ps src b = Ok b' /\ chosen ≡ₚ ms /\
    sent b' = sent b ++ zip_with shared_copy ps chosen.
Proof.
  intros Hb Ht Hsh Hm Hpos Hps Hlen. destruct (decide (ms = [])) as [-> | Hne].
  { destruct ps; [|done]. exists b, []. split_and!; [done|done|]. by rewrite app_nil_r. }
  destruct (route_all_shared ps src b share ms t p0 Hb Ht Hsh Hm Hne Hpos Hps) as (b' & H1 & H2).
  exists b', (picks (cursor share b) (length ps) ms). split_and!; [done| |done].
  rewrite Hlen. apply picks_permutation.
Qed.

Definition sharing_inbox : list (Z * conn_id * actor_message) :=
  let sub := ClientSubscribe (mkSubscribe (Some 1) [(lit "$share/g/t", 1)] [] None) in
  [(0, 1, Attach (connect_as "a" [])); (1, 1, sub); (2, 2, Attach (connect_as "b" [])); (3, 2, sub)].

Lemma share_round_robin_witness :
  let b := broker_after sharing_inbox in
  let ps := [mkPublish (lit "t") [1] 0 None false false []; mkPublish (lit "t") [2] 0 None false false []] in
  let ms := [mkMember 1 (lit "a") 1 (mkSubOptions 1 false false 0); mkMember 2 (lit "b") 1 (mkSubOptions 1 false false 0)] in
  exists b' chosen, route_all ps None b = Ok b' /\ chosen ≡ₚ ms /\ sent b' = sent b ++ zip_with shared_copy ps chosen.
Proof.
  intros b ps ms.
  apply (share_round_robin ps None b (lit "g", lit "t") ms (lit "t") (mkPublish (lit "t") [1] 0 None false false [])).
  - apply broker_after_ok. unfold sharing_inbox. solve_admissible.
  - reflexivity.
  - vm_compute. repeat constructor; intros _; eexists; reflexivity.
  - vm_compute. reflexivity.
  - repeat constructor; cbn; lia.
  - repeat constructor.
  - reflexivity.
Defined.

(** ** Behaviours the theorems above leave room for *)

(** A CONNECT that declares its Will payload to be text, with a payload that is
    not: it decodes, and serving it raises, which [broker_run_ok] excludes by
    hypothesis ([connect_admissible]). *)
Definition bad_will : MQTTConnect :=
  mkConnect (lit "a") true 60 5 None None (Some (lit "w")) (Some [0xFF]) 0 false
    [("payload_format_indicator"%string, PInt 1)] [].

Lemma bad_will_kills_broker :
  decode_packet [0x10; 23; 0; 4; 77; 81; 84; 84; 5; 6; 0; 60; 0; 0; 1; 97; 2; 1; 1; 0; 1; 119; 0; 1; 0xFF]
    = Ok (Connect bad_will, 25) /\
  run [(0, 1, Attach bad_will)] (__init__ sample_config) = Raise ValueError.
Proof. split; vm_compute; reflexivity. Qed.

(** DISCONNECT may lengthen a Session Expiry Interval that was positive. *)
Definition expiring (n : Z) : props := [("session_expiry_interval"%string, PInt n)].

Lemma detach_lengthens_expiry :
  omap _expires_at (dvalues (_sessions (broker_after
    [(0, 1, Attach (connect_as "a" (expiring 5))); (1, 1, Detach true (Some 1000))]))) = [1001].
Proof. vm_compute. reflexivity. Qed.

(** A retransmitted QoS 2 PUBLISH with the retain flag replaces the retained
    message, though it is not routed. *)
Lemma qos2_duplicate_restored :
  let pub n dup := ClientPublish (mkPublish (lit "t") [n] 2 (Some 5) true dup []) in
  payload <$> dvalues (_retained (broker_after
    [(0, 1, Attach (connect_as "a" [])); (1, 1, pub 1 false);
     (2, 1, ClientPublish (mkPublish (lit "t") [] 0 None true false [])); (3, 1, pub 1 true)])) = [[1]].
Proof. vm_compute. reflexivity. Qed.

(** One acknowledgement releases two messages, once the client has come back
    with a larger Receive Maximum. *)
Lemma one_ack_releases_two :
  let rmax n := [("receive_maximum"%string, PInt n)] ++ expiring 100 in
  let resume := mkConnect (lit "a") false 60 5 None None None None 0 false [] (rmax 10) in
  let pub n := ClientPublish (mkPublish (lit "t") [n] 1 (Some n) false false []) in
  let b := broker_after
    [(0, 1, Attach (connect_as "a" (rmax 1)));
     (1, 1, ClientSubscribe (mkSubscribe (Some 1) [(lit "t", 1)] [] None));
     (2, 2, Attach (connect_as "b" [])); (3, 2, pub 7); (4, 2, pub 8); (5, 2, pub 9);
     (6, 1, Detach true None); (7, 3, Attach resume)] in
  exists b', run [(8, 3, ClientPuback 1)] b = Ok b' /\ length (sent b') = (length (sent b) + 2)%nat.
Proof. eexists. split; vm_compute; reflexivity. Qed.

(** A PUBREC for an identifier that is not in flight occupies the window for
    good. *)
Lemma unsolicited_pubrec_fills_window :
  let b := broker_after [(0, 1, Attach (connect_as "a" [])); (1, 1, ClientPubrec 77); (2, 1, ClientPubrec 78)] in
  exists s, _session_for 1 b = Some (lit "a", s) /\ _in_flight s = 2 /\ dvalues (pending_qos2_out s) =
    [mkQos2 PUBREL_SENT None; mkQos2 PUBREL_SENT None].
Proof. eexists. split; [vm_compute; reflexivity|]. split; reflexivity. Qed.

(** A second CONNECT on the same connection under another name leaves the
    first name registered after the connection is gone. *)
Lemma second_connect_orphans :
  let b := broker_after
    [(0, 1, Attach (connect_as "a" [])); (1, 1, Attach (connect_as "b" [])); (2, 1, Detach true None)] in
  dget (_clients b) (lit "a") = Some 1 /\ dget (_client_by_conn b) 1 = None.
Proof. vm_compute. by split. Qed.

End MqttBroker.
