(* ===== verification/StructuredFields.v ===== *)
(** * Structured field values (blackbull/protocol/structured_fields.py)

    The strict RFC 9651 parser and serialiser.  A [_Parser] is represented by
    the text from its position on, [s[pos:]]: the code reads the text before
    the position only for error messages.  A [float] is represented by what the
    code reads of it, the literal [repr] prints.  The loops that call other
    parsers take fuel; every turn consumes a character, so the length of the
    text is enough, and [parse_total] shows that it never runs out. *)

From Stdlib Require Import ZArith Lia.
From stdpp Require Import base tactics numbers option strings sets list.
From S2P Require Import Prelude PyLib PyText.

Module StructuredFields.

(** ** Data *)

(** A [float]: [Finite neg c e] prints as [c * 10^e] ([e <= 0] below 1e16,
    without a trailing [.0]), with the sign kept for zero. *)
Inductive float : Type :=
| Finite (neg : bool) (coef exp : Z)
| Infinite (neg : bool)
| NaN.

Inductive BareItem : Type :=
| SFBool (b : bool)
| SFInt (n : Z)
| SFDecimal (f : float)
| SFString (s : pystr)
| SFToken (s : pystr)
| SFDisplayString (s : pystr)
| SFBytes (l : bytes)
| SFDate (seconds : Z).

Definition Parameters : Type := dict pystr BareItem.
Definition Item : Type := BareItem * Parameters.

Inductive Member : Type :=
| MItem (i : Item)
| MInnerList (items : list Item) (params : Parameters).

Definition SFList : Type := list Member.
Definition SFDictionary : Type := dict pystr Member.

(** ** Character classes *)

Definition SP : Z := 32.
Definition HTAB : Z := 9.
Definition DQUOTE : Z := 34.
Definition PERCENT : Z := 37.
Definition LPAREN : Z := 40.
Definition RPAREN : Z := 41.
Definition COMMA : Z := 44.
Definition MINUS : Z := 45.
Definition DOT : Z := 46.
Definition COLON : Z := 58.
Definition SEMI : Z := 59.
Definition EQUALS : Z := 61.
Definition QUESTION : Z := 63.
Definition AT : Z := 64.
Definition BACKSLASH : Z := 92.

Definition _LCALPHA (c : Z) : bool := (97 <=? c) && (c <=? 122).
Definition _ALPHA (c : Z) : bool := _LCALPHA c || (65 <=? c) && (c <=? 90).
Definition _KEY_START (c : Z) : bool := _LCALPHA c || (c =? 42).
Definition _KEY_CHARS (c : Z) : bool := _LCALPHA c || is_digit c || bool_decide (c ∈ lit "_-.*").
Definition _TOKEN_START (c : Z) : bool := _ALPHA c || (c =? 42).
Definition _TOKEN_CHARS (c : Z) : bool :=
  _ALPHA c || is_digit c || bool_decide (c ∈ lit "!#$%&'*+-.^_`|~:/").
Definition _BASE64_CHARS (c : Z) : bool := _ALPHA c || is_digit c || bool_decide (c ∈ lit "+/=").
Definition _LC_HEXDIG (c : Z) : bool := is_lc_hex c.
Definition printable (c : Z) : bool := (0x20 <=? c) && (c <=? 0x7E).

(** ** The cursor *)

Abbreviation cursor := (list Z).

Definition peek (p : cursor) : option Z := head p.
Definition peek_is (c : Z) (p : cursor) : bool := bool_decide (peek p = Some c).
Definition peek_in (f : Z -> bool) (p : cursor) : bool := match p with c :: _ => f c | [] => false end.

Definition advance (p : cursor) : result (Z * cursor) :=
  match p with c :: p => Ok (c, p) | [] => Raise IndexError end.

Definition expect (c : Z) (p : cursor) : result cursor :=
  match p with
  | c' :: p => if c' =? c then Ok p else Raise ValueError
  | [] => Raise ValueError
  end.

Fixpoint discard_sp (p : cursor) : cursor :=
  match p with c :: p' => if c =? SP then discard_sp p' else p | [] => [] end.

Fixpoint discard_ows (p : cursor) : cursor :=
  match p with c :: p' => if (c =? SP) || (c =? HTAB) then discard_ows p' else p | [] => [] end.

(** The longest prefix of a class, and the rest. *)
Fixpoint span (f : Z -> bool) (p : cursor) : pystr * cursor :=
  match p with
  | c :: p' => if f c then let '(w, r) := span f p' in (c :: w, r) else ([], p)
  | [] => ([], [])
  end.

(** ** Parsing *)

Definition _to_text (value : list Z) : result cursor :=
  if forallb (fun c => (0 <=? c) && (c <? 128)) value then Ok value else Raise ValueError.

Definition _parse_top {A} (value : list Z) (parse_fn : cursor -> result (A * cursor)) : result A :=
  let* p := _to_text value in
  let p := discard_sp p in
  let* '(a, p) := parse_fn p in
  match discard_sp p with
  | [] => Ok a
  | _ => Raise ValueError
  end.

Definition _parse_key (p : cursor) : result (pystr * cursor) :=
  if negb (peek_in _KEY_START p) then Raise ValueError else Ok (span _KEY_CHARS p).

(** The loop of [_parse_number]: the characters read, and whether one of them
    is the point. *)
Fixpoint number_loop (p : cursor) (digits : pystr) (is_decimal : bool) : result (pystr * bool * cursor) :=
  match p with
  | [] => Ok (digits, is_decimal, [])
  | c :: p' =>
      if is_digit c then
        let digits := digits ++ [c] in
        if negb is_decimal && (zlen digits >? 15) then Raise ValueError
        else if is_decimal && (zlen digits >? 16) then Raise ValueError
        else number_loop p' digits is_decimal
      else if negb is_decimal && (c =? DOT) then
        if zlen digits >? 12 then Raise ValueError
        else let digits := digits ++ [c] in
             if zlen digits >? 16 then Raise ValueError else number_loop p' digits true
      else Ok (digits, is_decimal, p)
  end.

(** [text.partition('.')], without the separator. *)
Fixpoint partition_dot (s : pystr) : pystr * pystr :=
  match s with
  | [] => ([], [])
  | c :: s => if c =? DOT then ([], s) else let '(a, b) := partition_dot s in (c :: a, b)
  end.

(** [s.rstrip('0')] *)
Fixpoint rstrip0 (s : pystr) : pystr :=
  match s with
  | [] => []
  | c :: s => match rstrip0 s with [] => if c =? 48 then [] else [c] | r => c :: r end
  end.

(** [sign * float(int_part + '.' + frac_part)] for at most fifteen digits: a
    binary64 number then prints as the literal it was read from. *)
Definition float_of_text (neg : bool) (int_part frac_part : pystr) : float :=
  let frac := rstrip0 frac_part in
  Finite neg (int_of_digits (int_part ++ frac)) (- zlen frac).

(** The optional sign of a number. *)
Definition read_sign (p : cursor) : result (bool * cursor) :=
  if peek_is MINUS p then let* '(_, p) := advance p in Ok (true, p) else Ok (false, p).

Definition _parse_number (p : cursor) : result (BareItem * cursor) :=
  let* '(neg, p) := read_sign p in
  if negb (peek_in is_digit p) then Raise ValueError
  else
    let* '(text, is_decimal, p) := number_loop p [] false in
    if negb is_decimal then Ok (SFInt (if neg then - int_of_digits text else int_of_digits text), p)
    else
      let '(int_part, frac_part) := partition_dot text in
      if bool_decide (frac_part = []) then Raise ValueError
      else if zlen frac_part >? 3 then Raise ValueError
      else Ok (SFDecimal (float_of_text neg int_part frac_part), p).

Fixpoint string_loop (p : cursor) (out : pystr) : result (pystr * cursor) :=
  match p with
  | [] => Raise ValueError
  | c :: p =>
      if c =? BACKSLASH then
        match p with
        | [] => Raise ValueError
        | nxt :: p => if negb ((nxt =? DQUOTE) || (nxt =? BACKSLASH)) then Raise ValueError
                      else string_loop p (out ++ [nxt])
        end
      else if c =? DQUOTE then Ok (out, p)
      else if negb (printable c) then Raise ValueError
      else string_loop p (out ++ [c])
  end.

Definition _parse_string (p : cursor) : result (pystr * cursor) :=
  let* p := expect DQUOTE p in string_loop p [].

Definition _parse_token (p : cursor) : result (pystr * cursor) :=
  if negb (peek_in _TOKEN_START p) then Raise ValueError else Ok (span _TOKEN_CHARS p).

(** [p.s.find(':', p.pos)]: the text before the colon and after it. *)
Fixpoint until_colon (p : cursor) : option (pystr * cursor) :=
  match p with
  | [] => None
  | c :: p => if c =? COLON then Some ([], p)
              else match until_colon p with Some (a, b) => Some (c :: a, b) | None => None end
  end.

Definition _parse_byte_sequence (p : cursor) : result (bytes * cursor) :=
  let* p := expect COLON p in
  match until_colon p with
  | None => Raise ValueError
  | Some (b64, p) =>
      if negb (forallb _BASE64_CHARS b64) then Raise ValueError
      else match b64decode b64 with Ok l => Ok (l, p) | Raise _ => Raise ValueError end
  end.

Definition _parse_boolean (p : cursor) : result (bool * cursor) :=
  let* p := expect QUESTION p in
  match p with
  | c :: p => if c =? 49 then Ok (true, p) else if c =? 48 then Ok (false, p) else Raise ValueError
  | [] => Raise ValueError
  end.

Definition _parse_date (p : cursor) : result (BareItem * cursor) :=
  let* p := expect AT p in
  let* '(value, p) := _parse_number p in
  match value with
  | SFInt n => Ok (SFDate n, p)
  | _ => Raise ValueError
  end.

Fixpoint display_loop (p : cursor) (raw : bytes) : result (pystr * cursor) :=
  match p with
  | [] => Raise ValueError
  | c :: p =>
      if (c <=? 0x1F) || (c >=? 0x7F) then Raise ValueError
      else if c =? PERCENT then
        match p with
        | hi :: lo :: p =>
            if negb (_LC_HEXDIG hi) || negb (_LC_HEXDIG lo) then Raise ValueError
            else display_loop p (raw ++ [hex_val hi * 16 + hex_val lo])
        | _ => Raise ValueError
        end
      else if c =? DQUOTE then
        match utf8_decode raw with Ok s => Ok (s, p) | Raise _ => Raise ValueError end
      else display_loop p (raw ++ [c])
  end.

Definition _parse_display_string (p : cursor) : result (pystr * cursor) :=
  let* p := expect PERCENT p in
  let* p := expect DQUOTE p in
  display_loop p [].

(** A parser's result under a constructor. *)
Definition wrap {A B} (f : A -> B) (m : result (A * cursor)) : result (B * cursor) :=
  let* '(a, p) := m in Ok (f a, p).

Definition _parse_bare_item (p : cursor) : result (BareItem * cursor) :=
  match peek p with
  | None => Raise ValueError
  | Some c =>
      if (c =? MINUS) || is_digit c then _parse_number p
      else if c =? DQUOTE then wrap SFString (_parse_string p)
      else if _TOKEN_START c then wrap SFToken (_parse_token p)
      else if c =? COLON then wrap SFBytes (_parse_byte_sequence p)
      else if c =? QUESTION then wrap SFBool (_parse_boolean p)
      else if c =? AT then _parse_date p
      else if c =? PERCENT then wrap SFDisplayString (_parse_display_string p)
      else Raise ValueError
  end.

Fixpoint parameters_loop (fuel : nat) (p : cursor) (params : Parameters) : result (Parameters * cursor) :=
  if negb (peek_is SEMI p) then Ok (params, p)
  else match fuel with
       | O => Raise OutOfFuel
       | S fuel =>
           let* '(_, p) := advance p in
           let* '(key, p) := _parse_key (discard_sp p) in
           let* '(value, p) :=
             if peek_is EQUALS p then let* '(_, p) := advance p in _parse_bare_item p
             else Ok (SFBool true, p) in
           parameters_loop fuel p (dset params key value)
       end.

Definition _parse_parameters (p : cursor) : result (Parameters * cursor) := parameters_loop (length p) p [].

Definition _parse_item (p : cursor) : result (Item * cursor) :=
  let* '(bare, p) := _parse_bare_item p in
  let* '(params, p) := _parse_parameters p in
  Ok ((bare, params), p).

Fixpoint inner_loop (fuel : nat) (p : cursor) (inner : list Item) : result (Member * cursor) :=
  match p with
  | [] => Raise ValueError
  | _ =>
      match fuel with
      | O => Raise OutOfFuel
      | S fuel =>
          let p := discard_sp p in
          if peek_is RPAREN p then
            let* '(_, p) := advance p in
            let* '(params, p) := _parse_parameters p in
            Ok (MInnerList inner params, p)
          else
            let* '(item, p) := _parse_item p in
            if negb (peek_is SP p || peek_is RPAREN p) then Raise ValueError
            else inner_loop fuel p (inner ++ [item])
      end
  end.

Definition _parse_inner_list (p : cursor) : result (Member * cursor) :=
  let* p := expect LPAREN p in inner_loop (length p) p [].

Definition _parse_item_or_inner_list (p : cursor) : result (Member * cursor) :=
  if peek_is LPAREN p then _parse_inner_list p else wrap MItem (_parse_item p).

(** What follows a member: the end, or a comma and another member. *)
Definition next_member (p : cursor) : result (bool * cursor) :=
  match discard_ows p with
  | [] => Ok (false, [])
  | p => let* p := expect COMMA p in
         match discard_ows p with [] => Raise ValueError | p => Ok (true, p) end
  end.

Fixpoint list_loop (fuel : nat) (p : cursor) (members : SFList) : result (SFList * cursor) :=
  match p with
  | [] => Ok (members, [])
  | _ =>
      match fuel with
      | O => Raise OutOfFuel
      | S fuel =>
          let* '(m, p) := _parse_item_or_inner_list p in
          let* '(more, p) := next_member p in
          if more then list_loop fuel p (members ++ [m]) else Ok (members ++ [m], p)
      end
  end.

Definition _parse_list (p : cursor) : result (SFList * cursor) := list_loop (length p) p [].

Fixpoint dictionary_loop (fuel : nat) (p : cursor) (d : SFDictionary) : result (SFDictionary * cursor) :=
  match p with
  | [] => Ok (d, [])
  | _ =>
      match fuel with
      | O => Raise OutOfFuel
      | S fuel =>
          let* '(key, p) := _parse_key p in
          let* '(member, p) :=
            if peek_is EQUALS p then let* '(_, p) := advance p in _parse_item_or_inner_list p
            else let* '(params, p) := _parse_parameters p in Ok (MItem (SFBool true, params), p) in
          let d := dset d key member in
          let* '(more, p) := next_member p in
          if more then dictionary_loop fuel p d else Ok (d, p)
      end
  end.

Definition _parse_dictionary (p : cursor) : result (SFDictionary * cursor) := dictionary_loop (length p) p [].

Definition parse_item (value : list Z) : result Item := _parse_top value _parse_item.
Definition parse_list (value : list Z) : result SFList := _parse_top value _parse_list.
Definition parse_dictionary (value : list Z) : result SFDictionary := _parse_top value _parse_dictionary.

(** ** Serialisation *)

Definition _ser_key (key : pystr) : result pystr :=
  if negb (peek_in _KEY_START key) || negb (forallb _KEY_CHARS key) then Raise ValueError else Ok key.

Definition _ser_integer (value : Z) : result pystr :=
  if negb ((-999999999999999 <=? value) && (value <=? 999999999999999)) then Raise ValueError
  else Ok (str_int value).

(** [n / d] rounded half to even. *)
Definition round_half_even (n d : Z) : Z :=
  let q := n / d in
  let r := n mod d in
  if 2 * r <? d then q else if d <? 2 * r then q + 1 else if Z.even q then q else q + 1.

(** [Decimal(repr(value)).quantize(Decimal('0.001'))], in thousandths: [None]
    is the [ArithmeticError] of a coefficient over the 28 digits of the default
    context, or of an infinity. *)
Definition quantize (f : float) : option (bool * Z) :=
  match f with
  | Finite neg c e =>
      let q := if -3 <=? e then c * 10 ^ (e + 3) else round_half_even c (10 ^ (- 3 - e)) in
      if q <? 10 ^ 28 then Some (neg, q) else None
  | _ => None
  end.

(** [str(quantized)] of thousandths. *)
Definition pad3 (n : Z) : pystr := [48 + n / 100; 48 + n / 10 mod 10; 48 + n mod 10].
Definition str_milli (neg : bool) (q : Z) : pystr :=
  (if neg then [MINUS] else []) ++ dec_nat (q / 1000) ++ [DOT] ++ pad3 (q mod 1000).

Definition endswith_dot (s : pystr) : bool := bool_decide (last s = Some DOT).

Definition _ser_decimal (value : float) : result pystr :=
  match value with
  | NaN => Raise TypeError      (* a quiet NaN passes [quantize]; its exponent is the string 'n' *)
  | _ =>
      match quantize value with
      | None => Raise ValueError
      | Some (neg, q) =>
          if zlen (dec_nat q) - 3 >? 12 then Raise ValueError
          else
            let text := rstrip0 (str_milli neg q) in
            Ok (if endswith_dot text then text ++ [48] else text)
      end
  end.

Fixpoint ser_chars (value : pystr) : result pystr :=
  match value with
  | [] => Ok []
  | c :: value =>
      if negb (printable c) then Raise ValueError
      else let* r := ser_chars value in
           Ok ((if (c =? DQUOTE) || (c =? BACKSLASH) then [BACKSLASH; c] else [c]) ++ r)
  end.

Definition _ser_string (value : pystr) : result pystr :=
  let* out := ser_chars value in Ok ([DQUOTE] ++ out ++ [DQUOTE]).

Definition _ser_token (value : pystr) : result pystr :=
  if negb (peek_in _TOKEN_START value) || negb (forallb _TOKEN_CHARS value) then Raise ValueError else Ok value.

Definition _ser_byte_sequence (value : bytes) : pystr := [COLON] ++ b64encode value ++ [COLON].

Definition display_byte (byte : Z) : pystr :=
  if (byte =? 0x25) || (byte =? 0x22) || negb (printable byte) then PERCENT :: hex2 byte else [byte].

Definition _ser_display_string (value : pystr) : result pystr :=
  match utf8_encode value with
  | Raise _ => Raise ValueError
  | Ok encoded => Ok ([PERCENT; DQUOTE] ++ (encoded ≫= display_byte) ++ [DQUOTE])
  end.

Definition _ser_bare_item (value : BareItem) : result pystr :=
  match value with
  | SFBool b => Ok (lit (if b then "?1" else "?0"))
  | SFInt n => _ser_integer n
  | SFDecimal f => _ser_decimal f
  | SFToken s => _ser_token s
  | SFDisplayString s => _ser_display_string s
  | SFString s => _ser_string s
  | SFBytes l => Ok (_ser_byte_sequence l)
  | SFDate n => rmap (cons AT) (_ser_integer n)
  end.

(** [value is True] *)
Definition is_true (value : BareItem) : bool := match value with SFBool b => b | _ => false end.

Fixpoint _ser_parameters (params : Parameters) : result pystr :=
  match params with
  | [] => Ok []
  | (key, value) :: params =>
      let* k := _ser_key key in
      let* v := if is_true value then Ok [] else rmap (cons EQUALS) (_ser_bare_item value) in
      let* r := _ser_parameters params in
      Ok ([SEMI] ++ k ++ v ++ r)
  end.

Definition ser_item (i : Item) : result pystr :=
  let* b := _ser_bare_item i.1 in
  let* p := _ser_parameters i.2 in
  Ok (b ++ p).

(** The items of an inner list, in order. *)
Fixpoint ser_items (l : list Item) : result (list pystr) :=
  match l with
  | [] => Ok []
  | i :: l => let* x := ser_item i in let* xs := ser_items l in Ok (x :: xs)
  end.

Definition _ser_item_or_inner_list (m : Member) : result pystr :=
  match m with
  | MInnerList l params =>
      let* inner := ser_items l in
      let* p := _ser_parameters params in
      Ok ([LPAREN] ++ join [SP] inner ++ [RPAREN] ++ p)
  | MItem i => ser_item i
  end.

(** [s.encode('ascii')] *)
Definition encode_ascii (s : pystr) : result bytes :=
  if forallb (fun c => (0 <=? c) && (c <? 128)) s then Ok s else Raise UnicodeEncodeError.

Definition serialize_item (bare_item : BareItem) (params : Parameters) : result bytes :=
  let* s := ser_item (bare_item, params) in encode_ascii s.

Fixpoint ser_members (l : SFList) : result (list pystr) :=
  match l with
  | [] => Ok []
  | m :: l => let* x := _ser_item_or_inner_list m in let* xs := ser_members l in Ok (x :: xs)
  end.

Definition serialize_list (members : SFList) : result bytes :=
  let* l := ser_members members in encode_ascii (join [COMMA; SP] l).

(** One member of a dictionary; a Boolean true is left out. *)
Definition ser_entry (key : pystr) (member : Member) : result pystr :=
  let* prefix := _ser_key key in
  match member with
  | MItem (SFBool true, params) => let* p := _ser_parameters params in Ok (prefix ++ p)
  | _ => let* m := _ser_item_or_inner_list member in Ok (prefix ++ [EQUALS] ++ m)
  end.

Fixpoint ser_entries (d : SFDictionary) : result (list pystr) :=
  match d with
  | [] => Ok []
  | (key, m) :: d => let* x := ser_entry key m in let* xs := ser_entries d in Ok (x :: xs)
  end.

Definition serialize_dictionary (members : SFDictionary) : result bytes :=
  let* l := ser_entries members in encode_ascii (join [COMMA; SP] l).

(** ** Totality: every failure is [ValueError] *)

(** [m] fails with [ValueError] or leaves at most [n] characters. *)
Definition good {A} (n : nat) (m : result (A * cursor)) : Prop :=
  match m with
  | Ok (_, p) => (length p <= n)%nat
  | Raise e => e = ValueError
  end.

Lemma good_le {A} n n' (m : result (A * cursor)) : (n <= n')%nat -> good n m -> good n' m.
Proof. destruct m as [[a p]|e]; simpl; [lia|done]. Qed.

Lemma good_bind {A B} n n' (m : result (A * cursor)) (k : A * cursor -> result (B * cursor)) :
  good n m -> (forall a p, (length p <= n)%nat -> good n' (k (a, p))) -> good n' (rbind m k).
Proof. destruct m as [[a p]|e]; simpl; [by eauto|by intros ->]. Qed.

Lemma good_wrap {A B} n (f : A -> B) (m : result (A * cursor)) : good n m -> good n (wrap f m).
Proof. by destruct m as [[a p]|e]. Qed.

Lemma expect_good {A} c n p (k : cursor -> result (A * cursor)) :
  (forall p', length p = S (length p') -> good n (k p')) -> good n (rbind (expect c p) k).
Proof. intros H. destruct p as [|c' p]; simpl; [done|]. destruct (c' =? c); simpl; [by apply H|done]. Qed.

Lemma discard_sp_length p : (length (discard_sp p) <= length p)%nat.
Proof. induction p as [|c p IH]; simpl; [done|]. destruct (c =? SP); simpl; lia. Qed.

Lemma discard_ows_length p : (length (discard_ows p) <= length p)%nat.
Proof. induction p as [|c p IH]; simpl; [done|]. destruct (_ || _); simpl; lia. Qed.

Lemma span_length f p : (length (span f p).2 <= length p)%nat.
Proof. induction p as [|c p IH]; simpl; [done|]. destruct (f c); [destruct (span f p)|]; simpl in *; lia. Qed.

(** A class is entered through one of its characters. *)
Lemma span_good f g p :
  (forall c, f c = true -> g c = true) ->
  good (pred (length p)) (if negb (peek_in f p) then Raise ValueError else Ok (span g p)).
Proof.
  intros Hfg. destruct p as [|c p]; [done|]. cbn [peek_in]. destruct (f c) eqn:Hc; [|done].
  cbn [negb span]. rewrite (Hfg c Hc). pose proof (span_length g p). destruct (span g p). simpl in *. lia.
Qed.

Lemma key_start_char c : _KEY_START c = true -> _KEY_CHARS c = true.
Proof.
  unfold _KEY_START, _KEY_CHARS. destruct (_LCALPHA c); [done|]. cbn [orb]. intros ->%Z.eqb_eq. reflexivity.
Qed.

Lemma token_start_char c : _TOKEN_START c = true -> _TOKEN_CHARS c = true.
Proof.
  unfold _TOKEN_START, _TOKEN_CHARS. destruct (_ALPHA c); [done|]. cbn [orb]. intros ->%Z.eqb_eq. reflexivity.
Qed.

Lemma key_good p : good (pred (length p)) (_parse_key p).
Proof. apply span_good, key_start_char. Qed.

Lemma token_good p : good (pred (length p)) (_parse_token p).
Proof. apply span_good, token_start_char. Qed.

Lemma number_loop_good p digits dec : good (length p) (number_loop p digits dec).
Proof.
  revert digits dec. induction p as [|c p IH]; intros digits dec; cbn [number_loop]; [simpl; lia|].
  repeat (case_match; try done); try (simpl; lia); (eapply good_le; [|apply IH]; simpl; lia).
Qed.

(** The first character of a number is consumed. *)
Lemma number_first_good p : peek_in is_digit p = true -> good (pred (length p)) (number_loop p [] false).
Proof.
  destruct p as [|c p]; [done|]. cbn [peek_in number_loop]. intros ->. apply (number_loop_good p [c] false).
Qed.

Lemma number_good p : good (pred (length p)) (_parse_number p).
Proof.
  unfold _parse_number.
  assert (exists neg p1, read_sign p = Ok (neg, p1) /\ (length p1 <= length p)%nat) as (neg & p1 & -> & Hl).
  { unfold read_sign, peek_is. case_bool_decide as H; [|by exists false, p].
    destruct p as [|c p]; [done|]. exists true, p. split; [done|simpl; lia]. }
  cbn [rbind]. destruct (peek_in is_digit p1) eqn:Hd; [|done]. cbn [negb].
  apply (good_bind (pred (length p1))); [by apply number_first_good|].
  intros [text dec] p2 H2. destruct (negb dec); [simpl; lia|]. destruct (partition_dot text) as [a b].
  repeat case_match; try done. simpl. lia.
Qed.

Lemma string_loop_good n : forall p out, (length p <= n)%nat -> good (length p) (string_loop p out).
Proof.
  induction n as [|n IH]; intros p out Hn; (destruct p as [|c p]; [done|]); simpl in Hn; [lia|].
  cbn [string_loop]. repeat (case_match; try done); simpl in *; try lia;
    (eapply good_le; [|apply IH]; simpl in *; lia).
Qed.

Lemma display_loop_good n : forall p raw, (length p <= n)%nat -> good (length p) (display_loop p raw).
Proof.
  induction n as [|n IH]; intros p raw Hn; (destruct p as [|c p]; [done|]); simpl in Hn; [lia|].
  cbn [display_loop]. repeat (case_match; try done); simpl in *; try lia;
    (eapply good_le; [|apply IH]; simpl in *; lia).
Qed.

Lemma until_colon_length p a b : until_colon p = Some (a, b) -> (length b <= length p)%nat.
Proof.
  revert a. induction p as [|c p IH]; intros a; simpl; [done|]. destruct (c =? COLON).
  - intros [= <- <-]. lia.
  - destruct (until_colon p) as [[a' b']|]; [|done]. intros [= <- <-]. specialize (IH _ eq_refl). lia.
Qed.

Lemma bare_item_good p : good (pred (length p)) (_parse_bare_item p).
Proof.
  unfold _parse_bare_item. destruct p as [|c p]; [done|]. cbn [peek head].
  repeat case_match; try apply good_wrap; try apply number_good; try apply token_good; try done.
  - apply expect_good. intros p' E. eapply good_le; [|by apply (string_loop_good (length p'))]. simpl in *. lia.
  - apply expect_good. intros p' E. destruct (until_colon p') as [[b64 r]|] eqn:Hu; [|done].
    apply until_colon_length in Hu. repeat case_match; try done. simpl in *. lia.
  - apply expect_good. intros p' E. destruct p'; [done|]. repeat case_match; try done; simpl in *; lia.
  - apply expect_good. intros p' E. apply (good_bind (pred (length p'))); [apply number_good|].
    intros v r Hr. case_match; try done. simpl in *. lia.
  - apply expect_good. intros p1 E1. apply expect_good. intros p2 E2.
    eapply good_le; [|by apply (display_loop_good (length p2))]. simpl in *. lia.
Qed.

Lemma peek_is_cons c p : peek_is c p = true -> exists p', p = c :: p'.
Proof. unfold peek_is. case_bool_decide as H; [|done]. destruct p; simplify_eq/=. eauto. Qed.

Lemma parameters_good fuel p params : (length p <= fuel)%nat -> good (length p) (parameters_loop fuel p params).
Proof.
  revert p params. induction fuel as [|fuel IH]; intros p params Hf.
  { destruct p; [simpl; lia|simpl in Hf; lia]. }
  cbn [parameters_loop]. unfold peek_is at 1. case_bool_decide as Hp; [|simpl; lia].
  destruct p as [|c p]; [done|]. cbn [negb advance rbind]. simpl in Hf.
  pose proof (discard_sp_length p). apply (good_bind (length p)).
  { eapply good_le; [|apply key_good]. lia. }
  intros key p1 H1. apply (good_bind (length p)).
  { destruct (peek_is EQUALS p1) eqn:He; [|simpl; lia]. apply peek_is_cons in He as [p2 ->].
    cbn [advance rbind]. eapply good_le; [|apply bare_item_good]. simpl in *. lia. }
  intros v p2 H2. eapply good_le; [|apply IH]; simpl in *; lia.
Qed.

Lemma params_good p : good (length p) (_parse_parameters p).
Proof. by apply parameters_good. Qed.

Lemma item_good p : good (pred (length p)) (_parse_item p).
Proof.
  apply (good_bind (pred (length p))); [apply bare_item_good|]. intros b p1 H1.
  apply (good_bind (pred (length p))); [eapply good_le; [|apply params_good]; lia|]. by intros.
Qed.

Lemma inner_good fuel p inner : (length p <= fuel)%nat -> good (pred (length p)) (inner_loop fuel p inner).
Proof.
  revert p inner. induction fuel as [|fuel IH]; intros p inner Hf; cbn [inner_loop];
    (destruct p as [|c p]; [done|]); simpl in Hf; [lia|].
  pose proof (discard_sp_length (c :: p)) as Hd. set (p1 := discard_sp (c :: p)) in *.
  destruct (peek_is RPAREN p1) eqn:Hr.
  { apply peek_is_cons in Hr as [p2 E]. rewrite E in *. cbn [advance rbind].
    apply (good_bind (length p2)); [apply params_good|]. intros ps p3 H3. simpl in *. lia. }
  apply (good_bind (pred (length p1))); [apply item_good|]. intros i p2 H2.
  destruct (negb _) eqn:Hp; [done|]. eapply good_le; [|apply IH]; simpl in *; lia.
Qed.

Lemma member_good p : good (pred (length p)) (_parse_item_or_inner_list p).
Proof.
  unfold _parse_item_or_inner_list. destruct (peek_is LPAREN p); [|apply good_wrap, item_good].
  apply expect_good. intros p' E. eapply good_le; [|by apply inner_good]. lia.
Qed.

Lemma next_member_good p : good (length p) (next_member p).
Proof.
  unfold next_member. pose proof (discard_ows_length p). destruct (discard_ows p) as [|c p1]; [simpl; lia|].
  apply expect_good. intros p2 E. pose proof (discard_ows_length p2).
  destruct (discard_ows p2); [done|]. simpl in *. lia.
Qed.

Lemma list_good fuel p members : (length p <= fuel)%nat -> good (length p) (list_loop fuel p members).
Proof.
  revert p members. induction fuel as [|fuel IH]; intros p members Hf; cbn [list_loop];
    (destruct p as [|c p]; [simpl; lia|]); simpl in Hf; [lia|].
  apply (good_bind (length p)); [apply (member_good (c :: p))|]. intros m p1 H1.
  apply (good_bind (length p)); [eapply good_le; [|apply next_member_good]; lia|]. intros more p2 H2.
  destruct more; [|simpl; lia]. eapply good_le; [|apply IH]; simpl in *; lia.
Qed.

Lemma dictionary_good fuel p d : (length p <= fuel)%nat -> good (length p) (dictionary_loop fuel p d).
Proof.
  revert p d. induction fuel as [|fuel IH]; intros p d Hf; cbn [dictionary_loop];
    (destruct p as [|c p]; [simpl; lia|]); simpl in Hf; [lia|].
  apply (good_bind (length p)); [apply (key_good (c :: p))|]. intros key p1 H1.
  apply (good_bind (length p)).
  { destruct (peek_is EQUALS p1) eqn:He.
    - apply peek_is_cons in He as [p2 ->]. cbn [advance rbind]. eapply good_le; [|apply member_good]. simpl in *; lia.
    - apply (good_bind (length p)); [eapply good_le; [|apply params_good]; lia|]. by intros. }
  intros m p2 H2. apply (good_bind (length p)); [eapply good_le; [|apply next_member_good]; lia|]. intros more p3 H3.
  destruct more; [|simpl; lia]. eapply good_le; [|apply IH]; simpl in *; lia.
Qed.

Lemma parse_top_total {A} value (f : cursor -> result (A * cursor)) :
  (forall p, exists n, good n (f p)) -> (exists a, _parse_top value f = Ok a) \/ _parse_top value f = Raise ValueError.
Proof.
  intros Hf. unfold _parse_top, _to_text. destruct (forallb _ value); [|by right]. cbn [rbind].
  destruct (Hf (discard_sp value)) as [n Hn]. destruct (f _) as [[a p]|e]; cbn in *.
  - destruct (discard_sp p); eauto.
  - subst. eauto.
Qed.

Lemma parse_item_total value : (exists i, parse_item value = Ok i) \/ parse_item value = Raise ValueError.
Proof. apply parse_top_total; intros p; eexists. apply item_good. Qed.

Lemma parse_list_total value : (exists l, parse_list value = Ok l) \/ parse_list value = Raise ValueError.
Proof. apply parse_top_total; intros p; eexists. by apply list_good. Qed.

Lemma parse_dictionary_total value :
  (exists d, parse_dictionary value = Ok d) \/ parse_dictionary value = Raise ValueError.
Proof. apply parse_top_total; intros p; eexists. by apply dictionary_good. Qed.

(** The parsers are total.  Whatever the field value — any bytes, any
    text — each of the three entry points returns a structure or raises
    [ValueError], the one exception its callers catch: no other exception
    escapes, and no input makes a parser loop. *)
Theorem parse_total value :
  ((exists i, parse_item value = Ok i) \/ parse_item value = Raise ValueError) /\
  ((exists l, parse_list value = Ok l) \/ parse_list value = Raise ValueError) /\
  ((exists d, parse_dictionary value = Ok d) \/ parse_dictionary value = Raise ValueError).
Proof.
  split_and!; [apply parse_item_total|apply parse_list_total|apply parse_dictionary_total].
Qed.

(** ** Round trip of bare items *)

(** The characters that end a key, a number or a token. *)
Definition delim (c : Z) : bool := (c =? SEMI) || (c =? COMMA) || (c =? SP) || (c =? RPAREN) || (c =? EQUALS).
Definition stops (r : cursor) : Prop := match r with [] => True | c :: _ => delim c = true end.

Lemma delim_cases c (P : Prop) :
  delim c = true -> (c = SEMI -> P) -> (c = COMMA -> P) -> (c = SP -> P) -> (c = RPAREN -> P) -> (c = EQUALS -> P) -> P.
Proof. unfold delim. rewrite !orb_true_iff, !Z.eqb_eq. naive_solver. Qed.

Ltac by_delim H := apply (delim_cases _ _ H); intros ->; reflexivity.

Lemma delim_key c : delim c = true -> _KEY_CHARS c = false.
Proof. intros H. by_delim H. Qed.
Lemma delim_token c : delim c = true -> _TOKEN_CHARS c = false.
Proof. intros H. by_delim H. Qed.
Lemma delim_digit c : delim c = true -> is_digit c = false.
Proof. intros H. by_delim H. Qed.
Lemma delim_dot c : delim c = true -> (c =? DOT) = false.
Proof. intros H. by_delim H. Qed.

Lemma span_app f w r :
  (forall c, delim c = true -> f c = false) -> forallb f w = true -> stops r -> span f (w ++ r) = (w, r).
Proof.
  intros Hf Hw Hr. induction w as [|c w IH]; simpl in *.
  - destruct r as [|c r]; simpl; [done|]. by rewrite Hf.
  - apply andb_true_iff in Hw as [-> Hw]. by rewrite IH.
Qed.

Lemma number_loop_digits ds p acc (dec : bool) :
  Forall (fun c => is_digit c = true) ds -> zlen acc + zlen ds <= (if dec then 16 else 15) ->
  number_loop (ds ++ p) acc dec = number_loop p (acc ++ ds) dec.
Proof.
  intros Hd. revert acc. induction Hd as [|c ds Hc Hd IH]; intros acc Hl; [by rewrite app_nil_r|].
  rewrite zlen_cons in Hl. pose proof (zlen_nonneg ds). cbn [app number_loop]. rewrite Hc.
  assert (zlen (acc ++ [c]) = zlen acc + 1) as E by (by rewrite zlen_app).
  rewrite E, !Z.gtb_ltb. rewrite IH by lia. rewrite <- app_assoc.
  destruct dec; cbn [negb andb]; by rewrite (proj2 (Z.ltb_ge _ _)) by lia.
Qed.

Lemma number_loop_stop r acc dec : stops r -> number_loop r acc dec = Ok (acc, dec, r).
Proof.
  destruct r as [|c r]; simpl; [done|]. intros H. rewrite delim_digit, delim_dot by done. by rewrite andb_false_r.
Qed.

(** The sign of a number, and the digit after it. *)
Definition sign (neg : bool) : pystr := if neg then [MINUS] else [].

Lemma parse_sign neg ds r :
  Forall (fun c => is_digit c = true) ds -> ds <> [] -> read_sign (sign neg ++ ds ++ r) = Ok (neg, ds ++ r).
Proof.
  intros Hd Hne. destruct neg; [done|]. destruct ds as [|c ds]; [done|].
  apply Forall_cons in Hd as [Hc _]. unfold read_sign, peek_is. cbn. rewrite bool_decide_false; [done|].
  by intros [= ->].
Qed.

Lemma parse_int_text neg n r :
  0 <= n < 10 ^ 15 -> stops r ->
  _parse_number (sign neg ++ dec_nat n ++ r) = Ok (SFInt (if neg then - n else n), r).
Proof.
  intros Hn Hr. unfold _parse_number. pose proof (dec_nat_digits n ltac:(lia)) as Hd.
  pose proof (dec_nat_nonempty n) as Hne.
  rewrite parse_sign by done. cbn [rbind].
  assert (zlen (dec_nat n) <= 15) as Hl by (unfold zlen; pose proof (dec_nat_len 15 n ltac:(lia) ltac:(lia)); lia).
  assert (peek_in is_digit (dec_nat n ++ r) = true) as ->.
  { destruct (dec_nat n); [done|]. by apply Forall_cons in Hd as [? _]. }
  cbn [negb]. rewrite number_loop_digits by (done || by cbn). rewrite number_loop_stop by done.
  cbn [rbind negb app]. by rewrite int_of_dec_nat by lia.
Qed.

Lemma partition_dot_app a b :
  Forall (fun c => is_digit c = true) a -> partition_dot (a ++ DOT :: b) = (a, b).
Proof.
  induction 1 as [|c a Hc Ha IH]; [done|]. cbn [app partition_dot]. rewrite IH.
  destruct (Z.eqb_spec c DOT) as [->|]; [done|done].
Qed.

Lemma parse_decimal_text neg n frac r :
  0 <= n < 10 ^ 12 -> Forall (fun c => is_digit c = true) frac -> 0 < zlen frac <= 3 -> stops r ->
  _parse_number (sign neg ++ (dec_nat n ++ DOT :: frac) ++ r)
  = Ok (SFDecimal (float_of_text neg (dec_nat n) frac), r).
Proof.
  intros Hn Hf Hl Hr. unfold _parse_number. pose proof (dec_nat_digits n ltac:(lia)) as Hd.
  pose proof (dec_nat_nonempty n) as Hne. rewrite <- app_assoc.
  rewrite parse_sign by done. cbn [app rbind].
  assert (zlen (dec_nat n) <= 12) as Hl' by (unfold zlen; pose proof (dec_nat_len 12 n ltac:(lia) ltac:(lia)); lia).
  assert (peek_in is_digit (dec_nat n ++ DOT :: frac ++ r) = true) as ->.
  { destruct (dec_nat n); [done|]. by apply Forall_cons in Hd as [? _]. }
  cbn [negb]. rewrite number_loop_digits by (done || (rewrite zlen_nil; lia)).
  cbn [app number_loop]. change (is_digit DOT) with false. cbn [negb andb Z.eqb DOT Pos.eqb].
  assert (zlen (dec_nat n ++ [DOT]) <= 13) as Hl2 by (rewrite zlen_app; change (zlen [DOT]) with 1; lia).
  assert ((zlen (dec_nat n) >? 12) = false) as -> by (rewrite Z.gtb_ltb; apply Z.ltb_ge; lia).
  assert ((zlen (dec_nat n ++ [DOT]) >? 16) = false) as -> by (rewrite Z.gtb_ltb; apply Z.ltb_ge; lia).
  rewrite number_loop_digits by (done || (cbv iota; lia)). rewrite number_loop_stop by done. cbn [rbind negb].
  rewrite <- app_assoc. cbn [app]. rewrite partition_dot_app by done.
  rewrite (bool_decide_false (frac = [])) by (intros E; rewrite E in Hl; unfold zlen in Hl; simpl in Hl; lia).
  assert ((zlen frac >? 3) = false) as -> by (rewrite Z.gtb_ltb; apply Z.ltb_ge; lia). done.
Qed.

Lemma string_loop_chars s out acc r :
  ser_chars s = Ok out -> string_loop (out ++ DQUOTE :: r) acc = Ok (acc ++ s, r).
Proof.
  revert out acc. induction s as [|c s IH]; intros out acc; cbn [ser_chars].
  { intros [= <-]. by rewrite app_nil_r. }
  destruct (printable c) eqn:Hc; cbn [negb]; [|done]. intros H. inv_ok.
  destruct ((c =? DQUOTE) || (c =? BACKSLASH)) eqn:Hq.
  - cbn [app string_loop]. change (BACKSLASH =? BACKSLASH) with true. cbv iota. rewrite Hq. cbn [negb].
    rewrite (IH a) by done. by rewrite <- app_assoc.
  - apply orb_false_iff in Hq as [Hq Hb]. cbn [app string_loop]. rewrite Hq, Hb, Hc. cbn [negb].
    rewrite (IH a) by done. by rewrite <- app_assoc.
Qed.

Lemma hex_not_special c : is_lc_hex c = true -> (c <=? 0x1F) || (c >=? 0x7F) = false.
Proof.
  unfold is_lc_hex, is_digit. rewrite Z.geb_leb, orb_true_iff, !andb_true_iff, !Z.leb_le, orb_false_iff, !Z.leb_gt. lia.
Qed.

Lemma display_loop_bytes l acc r :
  bytes_ok l -> display_loop ((l ≫= display_byte) ++ DQUOTE :: r) acc = display_loop (DQUOTE :: r) (acc ++ l).
Proof.
  intros Hl. revert acc. induction Hl as [|b l Hb Hl IH]; intros acc; [by rewrite app_nil_r|].
  cbn [mbind list_bind]. unfold display_byte at 1.
  destruct ((b =? 0x25) || (b =? 0x22) || negb (printable b)) eqn:Hs.
  - cbn [app hex2 display_loop]. change ((PERCENT <=? 0x1F) || (PERCENT >=? 0x7F)) with false.
    change (PERCENT =? PERCENT) with true. cbv iota.
    pose proof (hex2_lc b Hb) as [H1 H2]%andb_true_iff. unfold _LC_HEXDIG. rewrite H1, H2. cbn [negb orb].
    rewrite hex2_val by done. rewrite IH. by rewrite <- app_assoc.
  - apply orb_false_iff in Hs as [[H1 H2]%orb_false_iff H3%negb_false_iff]. cbn [app display_loop].
    unfold printable in H3. apply andb_true_iff in H3 as [H3%Z.leb_le H4%Z.leb_le].
    assert ((b <=? 0x1F) || (b >=? 0x7F) = false) as ->.
    { rewrite Z.geb_leb. apply orb_false_iff. rewrite !Z.leb_gt. lia. }
    change (b =? PERCENT) with (b =? 0x25). change (b =? DQUOTE) with (b =? 0x22). rewrite H1, H2. rewrite IH. by rewrite <- app_assoc.
Qed.

Lemma base64_char c : is_Some (b64_val c) \/ c = b64_pad -> _BASE64_CHARS c = true /\ (c =? COLON) = false.
Proof.
  intros [[v Hv] | ->]; [|done]. unfold b64_val in Hv.
  repeat case_match; bool_facts; simplify_eq; (split; [|apply Z.eqb_neq; bool_facts; rewrite ?Z.eqb_eq in *; unfold COLON; lia]);
    try (match goal with H : (c =? _) = true |- _ => apply Z.eqb_eq in H; subst c; reflexivity end);
    unfold _BASE64_CHARS, _ALPHA, _LCALPHA, is_digit; settle_cmp; done.
Qed.

Lemma rstrip0_app a b : rstrip0 (a ++ b) = match rstrip0 b with [] => rstrip0 a | r => a ++ r end.
Proof.
  induction a as [|c a IH]; simpl; [by destruct (rstrip0 b)|]. rewrite IH. destruct (rstrip0 b); [done|].
  by destruct a.
Qed.

Lemma rstrip0_idem a : rstrip0 (rstrip0 a) = rstrip0 a.
Proof.
  induction a as [|c a IH]; simpl; [done|]. destruct (rstrip0 a) as [|x r] eqn:E.
  - destruct (c =? 48) eqn:Ec; [done|]. simpl. by rewrite Ec.
  - change (rstrip0 (c :: x :: r)) with (match rstrip0 (x :: r) with [] => if c =? 48 then [] else [c] | r => c :: r end).
    by rewrite IH.
Qed.

Lemma rstrip0_digits a :
  Forall (fun c => is_digit c = true) a -> Forall (fun c => is_digit c = true) (rstrip0 a) /\ zlen (rstrip0 a) <= zlen a.
Proof.
  induction 1 as [|c a Hc Ha [IH1 IH2]]; [done|]. cbn [rstrip0].
  assert (forall l, zlen (c :: l) = 1 + zlen l) as Hz by (intros; apply zlen_cons). pose proof (zlen_nonneg a).
  destruct (rstrip0 a) as [|x r]; [destruct (c =? 48)|]; (split; [auto using Forall_cons_2|]); rewrite ?Hz; lia.
Qed.

(** The digits after the point of the text [_ser_decimal] returns. *)
Definition frac_text (pad : pystr) : pystr := match rstrip0 pad with [] => [48] | r => r end.

Lemma last_digit a r : Forall (fun c => is_digit c = true) r -> r <> [] -> endswith_dot (a ++ r) = false.
Proof.
  intros Hr Hne. unfold endswith_dot. apply bool_decide_eq_false. intros Hl.
  destruct r as [|x r _] using rev_ind; [done|]. rewrite app_assoc, last_snoc in Hl. injection Hl as ->.
  apply Forall_app in Hr as [_ Hr]. by apply Forall_cons in Hr as [? _].
Qed.

Lemma finish_text a pad :
  Forall (fun c => is_digit c = true) pad ->
  (let text := rstrip0 (a ++ [DOT] ++ pad) in if endswith_dot text then text ++ [48] else text)
  = a ++ DOT :: frac_text pad.
Proof.
  intros Hp. unfold frac_text. rewrite app_assoc, rstrip0_app. pose proof (rstrip0_digits pad Hp) as [Hr _].
  destruct (rstrip0 pad) as [|x r].
  - rewrite rstrip0_app. cbn [rstrip0 DOT Z.eqb Pos.eqb]. unfold endswith_dot. rewrite last_snoc.
    cbn. by rewrite <- app_assoc.
  - cbv zeta. rewrite last_digit by done. by rewrite <- app_assoc.
Qed.

Definition exact_float (f : float) : Prop :=
  match f with
  | Finite _ c e => -3 <= e <= 0 /\ 0 <= c /\ (e < 0 -> c mod 10 <> 0) /\ c * 10 ^ (e + 3) < 10 ^ 15
  | _ => False
  end.

Lemma pad3_digits m : 0 <= m < 1000 -> Forall (fun c => is_digit c = true) (pad3 m).
Proof. intros Hm. unfold pad3, is_digit. repeat constructor; settle_cmp; done. Qed.

Lemma pad3_stripped m :
  0 <= m < 1000 ->
  rstrip0 (pad3 m) =
    if m mod 10 =? 0 then if m mod 100 =? 0 then if m =? 0 then [] else [48 + m / 100]
                          else [48 + m / 100; 48 + m / 10 mod 10]
    else pad3 m.
Proof.
  intros Hm. unfold pad3. cbn [rstrip0].
  destruct (Z.eqb_spec (m mod 10) 0) as [E|E]; [rewrite (proj2 (Z.eqb_eq (48 + m mod 10) 48)) by lia
    |by rewrite (proj2 (Z.eqb_neq (48 + m mod 10) 48)) by lia].
  destruct (Z.eqb_spec (m mod 100) 0) as [E2|E2];
    [rewrite (proj2 (Z.eqb_eq (48 + m / 10 mod 10) 48)) by divmod
    |by rewrite (proj2 (Z.eqb_neq (48 + m / 10 mod 10) 48)) by divmod].
  destruct (Z.eqb_spec m 0) as [->|E3]; [done|].
  by rewrite (proj2 (Z.eqb_neq (48 + m / 100) 48)) by divmod.
Qed.

(** Reading back the thousandths of an exact float. *)
Lemma float_of_milli neg c e :
  exact_float (Finite neg c e) ->
  let q := c * 10 ^ (e + 3) in
  float_of_text neg (dec_nat (q / 1000)) (frac_text (pad3 (q mod 1000))) = Finite neg c e.
Proof.
  intros (He & Hc & Hm & Hq) q. assert (0 <= q) as Hq0 by (unfold q; apply Z.mul_nonneg_nonneg; [done|apply Z.pow_nonneg; lia]).
  assert (rstrip0 (frac_text (pad3 (q mod 1000))) = rstrip0 (pad3 (q mod 1000))) as E.
  { unfold frac_text. destruct (rstrip0 (pad3 _)) eqn:E; [done|]. rewrite <- E. apply rstrip0_idem. }
  unfold float_of_text. rewrite E, pad3_stripped by (apply Z.mod_pos_bound; lia).
  pose proof (int_of_dec_nat (q / 1000) ltac:(apply Z.div_pos; lia)) as Hi.
  assert (e = 0 \/ e = -1 \/ e = -2 \/ e = -3) as [-> | [-> | [-> | ->]]] by lia; cbn in q; subst q.
  - rewrite (proj2 (Z.eqb_eq _ _)), (proj2 (Z.eqb_eq _ _)), (proj2 (Z.eqb_eq _ _)) by divmod.
    rewrite app_nil_r, Hi. f_equal. divmod.
  - specialize (Hm ltac:(lia)).
    rewrite (proj2 (Z.eqb_eq _ _)), (proj2 (Z.eqb_eq _ _)), (proj2 (Z.eqb_neq _ _)) by divmod.
    unfold int_of_digits in *. rewrite foldl_app, Hi. cbn [foldl]. f_equal. divmod.
  - specialize (Hm ltac:(lia)).
    rewrite (proj2 (Z.eqb_eq _ _)), (proj2 (Z.eqb_neq _ _)) by divmod.
    unfold int_of_digits in *. rewrite foldl_app, Hi. cbn [foldl]. f_equal. divmod.
  - specialize (Hm ltac:(lia)). rewrite (proj2 (Z.eqb_neq _ _)) by divmod. unfold pad3.
    unfold int_of_digits in *. rewrite foldl_app, Hi. cbn [foldl]. f_equal. divmod.
Qed.

(** The bare items that survive serialisation: a decimal is rounded to three
    digits, so only those with at most three come back. *)
Definition exact (b : BareItem) : Prop :=
  match b with
  | SFDecimal f => exact_float f
  | SFBytes l => bytes_ok l
  | _ => True
  end.

Lemma frac_text_digits pad :
  Forall (fun c => is_digit c = true) pad ->
  Forall (fun c => is_digit c = true) (frac_text pad) /\ 0 < zlen (frac_text pad) <= Z.max 1 (zlen pad).
Proof.
  intros Hd. destruct (rstrip0_digits _ Hd) as [H1 H2]. unfold frac_text.
  destruct (rstrip0 pad) as [|x l].
  - split; [by apply Forall_singleton|]. change (zlen [48]) with 1. lia.
  - split; [done|]. rewrite zlen_cons in *. pose proof (zlen_nonneg l). lia.
Qed.

Lemma decimal_roundtrip f t r :
  exact_float f -> _ser_decimal f = Ok t -> stops r ->
  _parse_number (t ++ r) = Ok (SFDecimal f, r) /\ exists c t', t = c :: t' /\ ((c =? MINUS) || is_digit c) = true.
Proof.
  destruct f as [neg c e| |]; try done. intros Hx Hs Hr. pose proof (float_of_milli neg c e Hx) as Hf.
  destruct Hx as (He & Hc & Hm & Hq). unfold _ser_decimal, quantize in Hs.
  rewrite (proj2 (Z.leb_le (-3) e)) in Hs by lia. cbv zeta in Hf. set (q := c * 10 ^ (e + 3)) in *.
  assert (0 <= q) as Hq0 by (unfold q; apply Z.mul_nonneg_nonneg; [done|apply Z.pow_nonneg; lia]).
  clearbody q. rewrite (proj2 (Z.ltb_lt q _)) in Hs by lia. cbv zeta in Hs.
  destruct (_ >? 12); [done|]. injection Hs as <-. unfold str_milli. rewrite app_assoc.
  pose proof (Z.mod_pos_bound q 1000 ltac:(lia)) as Hq1. pose proof (pad3_digits _ Hq1) as Hd.
  rewrite (finish_text _ _ Hd), <- !app_assoc. fold (sign neg). split.
  - pose proof (parse_decimal_text neg (q / 1000) (frac_text (pad3 (q mod 1000))) r) as E.
    rewrite Hf, <- !app_assoc in E. destruct (frac_text_digits _ Hd) as [H1 H2].
    apply E; [divmod|done|exact H2|done].
  - pose proof (dec_nat_digits (q / 1000) ltac:(apply Z.div_pos; lia)) as Hn.
    pose proof (dec_nat_nonempty (q / 1000)). destruct neg; [by eexists _, _|].
    destruct (dec_nat (q / 1000)) as [|d l]; [done|]. apply Forall_cons in Hn as [Hn _].
    eexists _, _. split; [done|]. by rewrite Hn, orb_true_r.
Qed.

Lemma integer_roundtrip n t r :
  _ser_integer n = Ok t -> stops r ->
  _parse_number (t ++ r) = Ok (SFInt n, r) /\ exists c t', t = c :: t' /\ ((c =? MINUS) || is_digit c) = true.
Proof.
  unfold _ser_integer. destruct (_ && _) eqn:Hb; [|done]. apply andb_true_iff in Hb as [H1%Z.leb_le H2%Z.leb_le].
  intros [= <-] Hr. unfold str_int. pose proof (dec_nat_nonempty (-n)). pose proof (dec_nat_nonempty n).
  destruct (Z.ltb_spec n 0).
  - split; [|by eexists _, _]. change (MINUS :: dec_nat (- n)) with (sign true ++ dec_nat (- n)).
    change (45 :: dec_nat (- n)) with (sign true ++ dec_nat (- n)). rewrite <- app_assoc.
    rewrite parse_int_text by (done || lia). do 3 f_equal. lia.
  - split; [by apply (parse_int_text false n r); [lia|]|].
    pose proof (dec_nat_digits n ltac:(lia)) as Hn. destruct (dec_nat n) as [|d l]; [done|].
    apply Forall_cons in Hn as [Hn _]. eexists _, _. split; [done|]. by rewrite Hn, orb_true_r.
Qed.

(** The first character of a bare item. *)
Definition bare_start (c : Z) : bool :=
  (c =? MINUS) || is_digit c || (c =? DQUOTE) || _TOKEN_START c || (c =? COLON) || (c =? QUESTION) || (c =? AT)
  || (c =? PERCENT).

Definition starts (f : Z -> bool) (t : pystr) : Prop := exists c t', t = c :: t' /\ f c = true.

Lemma number_dispatch p : starts (fun c => (c =? MINUS) || is_digit c) p -> _parse_bare_item p = _parse_number p.
Proof. intros (c & p' & -> & Hc). unfold _parse_bare_item. cbn [peek head]. by rewrite Hc. Qed.

Lemma token_dispatch p : starts _TOKEN_START p -> _parse_bare_item p = wrap SFToken (_parse_token p).
Proof.
  intros (c & p' & -> & Hc). unfold _parse_bare_item. cbn [peek head].
  assert ((c =? MINUS) || is_digit c = false /\ (c =? DQUOTE) = false) as [-> ->]; [|by rewrite Hc].
  unfold _TOKEN_START, _ALPHA, _LCALPHA in Hc. unfold MINUS, DQUOTE, is_digit.
  rewrite !orb_true_iff, !andb_true_iff, !Z.leb_le, Z.eqb_eq in Hc.
  rewrite orb_false_iff, andb_false_iff, !Z.leb_gt, !Z.eqb_neq. lia.
Qed.

Lemma starts_app f t r : starts f t -> starts f (t ++ r).
Proof. intros (c & t' & -> & H). by exists c, (t' ++ r). Qed.

Lemma starts_impl (f g : Z -> bool) t : (forall c, f c = true -> g c = true) -> starts f t -> starts g t.
Proof. intros H (c & t' & -> & Hc). exists c, t'. auto. Qed.

Lemma number_start c : (c =? MINUS) || is_digit c = true -> bare_start c = true.
Proof. unfold bare_start. by intros ->. Qed.

Lemma token_start_bare c : _TOKEN_START c = true -> bare_start c = true.
Proof. unfold bare_start. intros ->. by rewrite orb_true_r. Qed.

Lemma bytes_roundtrip l r : bytes_ok l -> _parse_byte_sequence (_ser_byte_sequence l ++ r) = Ok (l, r).
Proof.
  intros Hl. unfold _ser_byte_sequence, _parse_byte_sequence. cbn [app expect]. cbn [COLON Z.eqb Pos.eqb rbind].
  rewrite <- app_assoc. cbn [app]. pose proof (b64encode_chars l Hl) as Hc.
  assert (until_colon (b64encode l ++ COLON :: r) = Some (b64encode l, r)) as ->.
  { induction Hc as [|c b Hc _ IH]; [done|]. apply base64_char in Hc as [_ Hc]. cbn [app until_colon]. by rewrite Hc, IH. }
  assert (forallb _BASE64_CHARS (b64encode l) = true) as ->.
  { induction Hc as [|c b Hc _ IH]; [done|]. apply base64_char in Hc as [Hc _]. cbn [forallb]. by rewrite Hc, IH. }
  cbn [negb]. by rewrite b64_roundtrip.
Qed.

Lemma display_roundtrip s t r : _ser_display_string s = Ok t -> _parse_display_string (t ++ r) = Ok (s, r).
Proof.
  unfold _ser_display_string. destruct (utf8_encode s) as [enc|] eqn:He; [|done]. intros [= <-].
  unfold _parse_display_string. cbn [app expect]. cbn [PERCENT DQUOTE Z.eqb Pos.eqb rbind app].
  rewrite <- app_assoc. cbn [app]. change 34 with DQUOTE. cbn [expect rbind].
  change (DQUOTE =? DQUOTE) with true. cbv iota. cbn [rbind]. rewrite display_loop_bytes by (by eapply utf8_encode_bytes).
  cbn [app display_loop]. cbn. by rewrite (utf8_roundtrip s enc He).
Qed.

Lemma token_roundtrip s t r : _ser_token s = Ok t -> stops r -> _parse_token (t ++ r) = Ok (s, r) /\ starts _TOKEN_START t.
Proof.
  unfold _ser_token, _parse_token. destruct s as [|c s]; [done|]. cbn [peek_in].
  destruct (_TOKEN_START c) eqn:Hc; [|done]. destruct (forallb _TOKEN_CHARS (c :: s)) eqn:Hs; [|done].
  intros [= <-] Hr. cbn [app peek_in]. rewrite Hc. cbn [negb]. split; [|by exists c, s].
  pose proof (span_app _ (c :: s) r delim_token Hs Hr) as E. cbn [app] in E. by rewrite E.
Qed.

Lemma bare_roundtrip b t r :
  exact b -> _ser_bare_item b = Ok t -> stops r ->
  _parse_bare_item (t ++ r) = Ok (b, r) /\ starts bare_start t.
Proof.
  intros Hx Hs Hr. destruct b as [b|n|f|s|s|s|l|n]; cbn [_ser_bare_item exact] in *.
  - injection Hs as <-. split; [by destruct b|]. destruct b; by eexists _, _.
  - destruct (integer_roundtrip n t r Hs Hr) as [H1 H2].
    split; [|by apply (starts_impl _ _ _ number_start)]. by rewrite number_dispatch by by apply starts_app.
  - destruct (decimal_roundtrip f t r Hx Hs Hr) as [H1 H2].
    split; [|by apply (starts_impl _ _ _ number_start)]. by rewrite number_dispatch by by apply starts_app.
  - unfold _ser_string in Hs. inv_ok. split; [|by eexists _, _].
    change (_parse_bare_item _) with (wrap SFString (_parse_string (DQUOTE :: (a ++ [DQUOTE]) ++ r))).
    unfold _parse_string. cbn [expect DQUOTE Z.eqb Pos.eqb rbind]. rewrite <- app_assoc. cbn [app].
    change 34 with DQUOTE. by rewrite (string_loop_chars s a [] r Ha).
  - destruct (token_roundtrip s t r Hs Hr) as [H1 H2].
    split; [|by apply (starts_impl _ _ _ token_start_bare)].
    rewrite token_dispatch by by apply starts_app. by rewrite H1.
  - pose proof (display_roundtrip s t r Hs) as H. unfold _ser_display_string in Hs.
    destruct (utf8_encode s); [|done]. injection Hs as <-. split; [|by eexists _, _].
    change (_parse_bare_item ?p) with (wrap SFDisplayString (_parse_display_string p)). by rewrite H.
  - injection Hs as <-. split; [|by eexists _, _].
    change (_parse_bare_item ?p) with (wrap SFBytes (_parse_byte_sequence p)). by rewrite bytes_roundtrip.
  - apply rmap_Ok in Hs as (t' & Hs & ->). destruct (integer_roundtrip n t' r Hs Hr) as [H1 _].
    split; [|by eexists _, _]. change (_parse_bare_item _) with (_parse_date (AT :: t' ++ r)).
    unfold _parse_date. cbn [expect]. cbn [AT Z.eqb Pos.eqb rbind]. by rewrite H1.
Qed.


(** ** Round trip of the structures *)

#[export] Instance exact_float_dec f : Decision (exact_float f).
Proof. destruct f; cbn; apply _. Defined.
#[export] Instance exact_dec b : Decision (exact b).
Proof. destruct b; cbn; apply _. Defined.

Definition params_ok (ps : Parameters) : Prop := dict_ok ps /\ Forall (fun x => exact x.2) ps.
Definition item_ok (i : Item) : Prop := exact i.1 /\ params_ok i.2.
Definition member_ok (m : Member) : Prop :=
  match m with
  | MItem i => item_ok i
  | MInnerList l ps => Forall item_ok l /\ params_ok ps
  end.

#[export] Instance params_ok_dec ps : Decision (params_ok ps).
Proof. unfold params_ok, dict_ok. apply _. Defined.
#[export] Instance item_ok_dec i : Decision (item_ok i).
Proof. unfold item_ok. apply _. Defined.
#[export] Instance member_ok_dec m : Decision (member_ok m).
Proof. destruct m; cbn; apply _. Defined.

(** What may follow a member: the end, white space, a comma or the end of an
    inner list. *)
Definition ender (c : Z) : bool := (c =? COMMA) || (c =? SP) || (c =? RPAREN).
Definition ends (r : cursor) : Prop := match r with [] => True | c :: _ => ender c = true end.

Lemma ends_stops r : ends r -> stops r.
Proof.
  destruct r as [|c r]; [done|]. cbn. unfold ender, delim. rewrite !orb_true_iff. tauto.
Qed.

Lemma ends_peek c r : ends r -> ender c = false -> peek_is c r = false.
Proof.
  intros He Hc. unfold peek_is. apply bool_decide_eq_false. destruct r as [|d r]; cbn; [done|].
  intros [= ->]. cbn in He. congruence.
Qed.

Lemma key_roundtrip k t r : _ser_key k = Ok t -> stops r -> t = k /\ _parse_key (t ++ r) = Ok (k, r) /\ starts _KEY_START k.
Proof.
  unfold _ser_key, _parse_key. destruct k as [|c k]; [done|]. cbn [peek_in].
  destruct (_KEY_START c) eqn:Hc; [|done]. destruct (forallb _KEY_CHARS (c :: k)) eqn:Hk; [|done].
  intros [= <-] Hr. split; [done|]. cbn [app peek_in]. rewrite Hc. split; [|by exists c, k].
  pose proof (span_app _ (c :: k) r delim_key Hk Hr) as E. cbn [app] in E. by rewrite E.
Qed.

Lemma key_not_ws k r : starts _KEY_START k -> discard_sp (k ++ r) = k ++ r.
Proof.
  intros (c & k' & -> & Hc). cbn [app discard_sp]. destruct (Z.eqb_spec c SP) as [->|]; [done|done].
Qed.

Lemma parameters_roundtrip ps : forall fuel acc t r,
  params_ok ps -> NoDup (dkeys acc ++ dkeys ps) -> _ser_parameters ps = Ok t -> ends r -> (length ps <= fuel)%nat ->
  parameters_loop fuel (t ++ r) acc = Ok (acc ++ ps, r).
Proof.
  induction ps as [|[k v] ps IH]; intros fuel acc t r [Hd Hx] Hnd Hs Hr Hf; cbn [_ser_parameters] in Hs.
  { injection Hs as <-. rewrite app_nil_r. destruct fuel; cbn [app parameters_loop]; by rewrite ends_peek. }
  inv_ok. rename a into tk, a0 into tv, a1 into ts. destruct fuel as [|fuel]; [simpl in Hf; lia|].
  apply Forall_cons in Hx as [Hv Hx]. apply NoDup_cons in Hd as [_ Hd]. cbn [snd] in Hv.
  assert (ends (ts ++ r) \/ exists q, ts ++ r = SEMI :: q) as Hnext.
  { destruct ps as [|[k' v'] ps]; cbn [_ser_parameters] in Ha1; inv_ok; [by left|right; by eexists]. }
  assert (stops (ts ++ r) /\ peek_is EQUALS (ts ++ r) = false) as [Hstop Heq].
  { destruct Hnext as [H | [q ->]]; [|done]. split; [by apply ends_stops|by apply ends_peek]. }
  assert (stops (tv ++ ts ++ r)) as Hstop'.
  { destruct (is_true v); inv_ok; [done|]. apply rmap_Ok in Ha0 as (x & _ & ->). done. }
  destruct (key_roundtrip k tk (tv ++ ts ++ r) Ha Hstop') as (-> & Hk & Hks).
  cbn [app]. rewrite <- !app_assoc. cbn [parameters_loop].
  change (peek_is SEMI (SEMI :: k ++ tv ++ ts ++ r)) with true. cbn [negb advance rbind].
  rewrite (key_not_ws k _ Hks), Hk. cbn [rbind].
  assert ((if peek_is EQUALS (tv ++ ts ++ r) then let* '(_, p) := advance (tv ++ ts ++ r) in _parse_bare_item p
           else Ok (SFBool true, tv ++ ts ++ r)) = Ok (v, ts ++ r)) as ->.
  { destruct (is_true v) eqn:Ht.
    - injection Ha0 as <-. cbn [app]. rewrite Heq. destruct v; simplify_eq/=. done.
    - apply rmap_Ok in Ha0 as (x & Hxs & ->). cbn [app]. change (peek_is EQUALS (EQUALS :: _)) with true.
      cbn [advance rbind]. by destruct (bare_roundtrip v x (ts ++ r) Hv Hxs Hstop) as [-> _]. }
  cbn [rbind]. rewrite dset_fresh by (apply dget_None; apply NoDup_app in Hnd as (_ & H & _); intros Hin;
    apply (H k Hin); by left).
  rewrite (IH fuel (acc ++ [(k, v)]) ts r); [by rewrite <- app_assoc|done| |done|done|simpl in Hf; lia].
  unfold dkeys in *. rewrite fmap_app. cbn in *. by rewrite <- app_assoc.
Qed.

(** A parameter takes at least one character. *)
Lemma ser_parameters_length ps t : _ser_parameters ps = Ok t -> (length ps <= length t)%nat.
Proof.
  revert t. induction ps as [|[k v] ps IH]; intros t; cbn [_ser_parameters]; intros H; inv_ok; [simpl; lia|].
  apply IH in Ha1. simpl. rewrite !length_app. lia.
Qed.

Lemma params_roundtrip ps t r :
  params_ok ps -> _ser_parameters ps = Ok t -> ends r -> _parse_parameters (t ++ r) = Ok (ps, r).
Proof.
  intros Hp Hs Hr. apply (parameters_roundtrip ps _ [] t r Hp); [apply Hp|done|done|].
  apply ser_parameters_length in Hs. rewrite length_app. lia.
Qed.

Lemma params_stops ps t r : _ser_parameters ps = Ok t -> ends r -> stops (t ++ r).
Proof.
  destruct ps as [|[k v] ps]; cbn [_ser_parameters]; intros H Hr; inv_ok; [by apply ends_stops|done].
Qed.

Lemma item_roundtrip i t r :
  item_ok i -> ser_item i = Ok t -> ends r -> _parse_item (t ++ r) = Ok (i, r) /\ starts bare_start t.
Proof.
  destruct i as [b ps]. intros [Hb Hp] Hs Hr. unfold ser_item in Hs. cbn [fst snd] in *. inv_ok.
  rename a into tb, a0 into tp. rewrite <- app_assoc.
  destruct (bare_roundtrip b tb (tp ++ r) Hb Ha (params_stops ps tp r Ha0 Hr)) as [H1 H2].
  split; [|by apply starts_app]. unfold _parse_item. rewrite H1. cbn [rbind].
  by rewrite (params_roundtrip ps tp r Hp Ha0 Hr).
Qed.

Lemma join_cons sep x xs : join sep (x :: xs) = x ++ match xs with [] => [] | _ => sep ++ join sep xs end.
Proof. destruct xs; simpl; [by rewrite app_nil_r|done]. Qed.

Lemma bare_start_char c : bare_start c = true ->
  (c =? SP) = false /\ (c =? HTAB) = false /\ c <> RPAREN /\ c <> LPAREN.
Proof.
  intros Hc. assert (c <> SP /\ c <> HTAB /\ c <> RPAREN /\ c <> LPAREN) as (H1 & H2 & H3 & H4).
  { by split_and!; intros ->. }
  rewrite !Z.eqb_neq. done.
Qed.

Lemma discard_sp_starts t r : starts bare_start t -> discard_sp (t ++ r) = t ++ r.
Proof. intros (c & t' & -> & Hc). apply bare_start_char in Hc as [Hc _]. cbn [app discard_sp]. by rewrite Hc. Qed.

Lemma peek_starts d t r : starts bare_start t -> bare_start d = false -> peek_is d (t ++ r) = false.
Proof.
  intros (c & t' & -> & Hc) Hd. unfold peek_is. apply bool_decide_eq_false. cbn. intros [= ->]. congruence.
Qed.

Lemma inner_roundtrip l : forall xs fuel acc sp q,
  Forall item_ok l -> ser_items l = Ok xs -> (length l < fuel)%nat -> sp = [] \/ sp = [SP] ->
  inner_loop fuel (sp ++ join [SP] xs ++ RPAREN :: q) acc
  = let* '(ps, p) := _parse_parameters q in Ok (MInnerList (acc ++ l) ps, p).
Proof.
  induction l as [|i l IH]; intros xs fuel acc sp q Hl Hs Hf Hsp; cbn [ser_items] in Hs;
    (destruct fuel as [|fuel]; [lia|]).
  { injection Hs as <-. rewrite app_nil_r. by destruct Hsp as [-> | ->]. }
  inv_ok. apply Forall_cons in Hl as [Hi Hl]. rename a into x, a0 into xs.
  rewrite join_cons, <- !app_assoc. set (more := match xs with [] => [] | _ => [SP] end).
  assert ((match xs with [] => [] | _ => [SP] ++ join [SP] xs end) ++ RPAREN :: q
          = more ++ join [SP] xs ++ RPAREN :: q) as -> by (unfold more; by destruct xs).
  set (rest := more ++ join [SP] xs ++ RPAREN :: q).
  assert (ends rest /\ peek_is SP rest || peek_is RPAREN rest = true) as [Hends Hpeek]
    by (unfold rest, more; by destruct xs).
  destruct (item_roundtrip i x rest Hi Ha Hends) as [Hx Hst].
  assert (exists c p, sp ++ x ++ rest = c :: p) as (c & p & E).
  { destruct Hst as (c & x' & -> & _). destruct Hsp as [-> | ->]; by eexists _, _. }
  assert (discard_sp (sp ++ x ++ rest) = x ++ rest) as Hdisc.
  { destruct Hsp as [-> | ->]; cbn [app]; [|change (discard_sp (SP :: x ++ rest)) with (discard_sp (x ++ rest))];
      by apply discard_sp_starts. }
  cbn [inner_loop]. rewrite E. rewrite <- E, Hdisc, peek_starts, Hx by done. cbn [rbind]. rewrite Hpeek. cbn [negb].
  unfold rest. rewrite (IH xs fuel (acc ++ [i]) more q); [by rewrite <- app_assoc|done|done|simpl in Hf; lia|].
  unfold more. destruct xs; auto.
Qed.

Lemma join_length sep xs : Forall (fun x => x <> []) xs -> (length xs <= length (join sep xs))%nat.
Proof.
  induction 1 as [|x xs Hx Hxs IH]; [done|]. rewrite join_cons, length_app. destruct x; [done|].
  destruct xs; simpl in *; [lia|]. rewrite length_app. lia.
Qed.

Lemma ser_items_spec l xs : Forall item_ok l -> ser_items l = Ok xs -> length l = length xs /\ Forall (fun x => x <> []) xs.
Proof.
  intros Hl. revert xs. induction Hl as [|i l Hi Hl IH]; intros xs; cbn [ser_items]; intros H; inv_ok; [done|].
  destruct (IH _ Ha0) as [H1 H2].
  destruct (item_roundtrip i a [] Hi Ha I) as [_ (c & x & -> & _)]. simpl. auto.
Qed.

(** The first character of a member is no white space. *)
Definition member_start (c : Z) : bool := bare_start c || (c =? LPAREN).

Lemma member_roundtrip m t r :
  member_ok m -> _ser_item_or_inner_list m = Ok t -> ends r ->
  _parse_item_or_inner_list (t ++ r) = Ok (m, r) /\ starts member_start t.
Proof.
  destruct m as [i|l ps]; cbn [_ser_item_or_inner_list member_ok].
  - intros Hi Hs Hr. destruct (item_roundtrip i t r Hi Hs Hr) as [H1 H2]. split.
    + unfold _parse_item_or_inner_list. rewrite peek_starts by done. by rewrite H1.
    + eapply starts_impl; [|done]. unfold member_start. by intros c ->.
  - intros [Hl Hp] Hs Hr. inv_ok. rename a into xs, a0 into tp. split; [|by eexists _, _].
    cbn [app]. unfold _parse_item_or_inner_list, _parse_inner_list.
    change (peek_is LPAREN (LPAREN :: _)) with true. cbv iota. cbn [expect].
    change (LPAREN =? LPAREN) with true. cbv iota. cbn [rbind]. rewrite <- app_assoc. cbn [app].
    destruct (ser_items_spec l xs Hl Ha) as [H1 H2]. pose proof (join_length [SP] xs H2).
    pose proof (inner_roundtrip l xs (length (join [SP] xs ++ RPAREN :: tp ++ r)) [] [] (tp ++ r) Hl Ha) as E.
    cbn [app] in E. rewrite E; [by rewrite (params_roundtrip ps tp r Hp Ha0 Hr)| |by left].
    rewrite length_app. simpl. lia.
Qed.

Lemma discard_ows_start f t r :
  (forall c, f c = true -> (c =? SP) = false /\ (c =? HTAB) = false) -> starts f t -> discard_ows (t ++ r) = t ++ r.
Proof. intros Hf (c & t' & -> & Hc). apply Hf in Hc as [H1 H2]. cbn [app discard_ows]. by rewrite H1, H2. Qed.

Lemma next_member_more f t r :
  (forall c, f c = true -> (c =? SP) = false /\ (c =? HTAB) = false) -> starts f t ->
  next_member ([COMMA; SP] ++ t ++ r) = Ok (true, t ++ r).
Proof.
  intros Hf Ht. unfold next_member. change (discard_ows ([COMMA; SP] ++ t ++ r)) with (COMMA :: SP :: t ++ r).
  cbn [expect]. change (COMMA =? COMMA) with true. cbv iota. cbn [rbind].
  change (discard_ows (SP :: t ++ r)) with (discard_ows (t ++ r)). rewrite (discard_ows_start f) by done.
  by destruct Ht as (c & t' & -> & _).
Qed.

Lemma member_start_ws c : member_start c = true -> (c =? SP) = false /\ (c =? HTAB) = false.
Proof. unfold member_start. intros [Hc%bare_start_char | ->%Z.eqb_eq]%orb_true_iff; [tauto|done]. Qed.

Lemma member_starts m x : member_ok m -> _ser_item_or_inner_list m = Ok x -> starts member_start x.
Proof. intros Hm Hx. by destruct (member_roundtrip m x [] Hm Hx I). Qed.

(** The text after a member: nothing, or a comma and the next text. *)
Definition tail_text (xs : list pystr) : pystr :=
  match xs with [] => [] | _ => [COMMA; SP] ++ join [COMMA; SP] xs end.

Lemma tail_next f xs :
  (forall c, f c = true -> (c =? SP) = false /\ (c =? HTAB) = false) -> Forall (starts f) xs ->
  ends (tail_text xs) /\ next_member (tail_text xs) = Ok (bool_decide (xs <> []), join [COMMA; SP] xs).
Proof.
  intros Hf Hx. destruct Hx as [|x xs Hx Hxs]; [done|]. split; [done|]. unfold tail_text.
  rewrite join_cons. by rewrite (next_member_more f).
Qed.

Lemma members_start l xs : Forall member_ok l -> ser_members l = Ok xs -> Forall (starts member_start) xs /\ length l = length xs.
Proof.
  intros Hl. revert xs. induction Hl as [|m l Hm Hl IH]; intros xs; cbn [ser_members]; intros H; inv_ok; [done|].
  destruct (IH _ Ha0) as [H1 H2]. split; [constructor; [by eapply member_starts|done]|simpl; by f_equal].
Qed.

Lemma list_roundtrip l : forall xs fuel acc,
  Forall member_ok l -> ser_members l = Ok xs -> (length l <= fuel)%nat ->
  list_loop fuel (join [COMMA; SP] xs) acc = Ok (acc ++ l, []).
Proof.
  induction l as [|m l IH]; intros xs fuel acc Hl Hs Hf; cbn [ser_members] in Hs.
  { injection Hs as <-. rewrite app_nil_r. by destruct fuel. }
  inv_ok. apply Forall_cons in Hl as [Hm Hl]. rename a into x, a0 into xs. destruct fuel as [|fuel]; [simpl in Hf; lia|].
  destruct (members_start l xs Hl Ha0) as [Hst Hlen].
  destruct (tail_next member_start xs member_start_ws Hst) as [Hends Hnext].
  destruct (member_roundtrip m x (tail_text xs) Hm Ha Hends) as [Hx Hxs].
  rewrite join_cons. fold (tail_text xs).
  assert (exists c p, x ++ tail_text xs = c :: p) as (c & p & E) by (destruct Hxs as (c & x' & -> & _); by eexists _, _).
  cbn [list_loop]. rewrite E, <- E, Hx. cbn [rbind]. rewrite Hnext. cbn [rbind].
  case_bool_decide as Hne.
  - rewrite (IH xs fuel (acc ++ [m])); [by rewrite <- app_assoc|done|done|simpl in Hf; lia].
  - subst xs. destruct l; [done|]. by simpl in Hlen.
Qed.

Lemma parse_top_ascii {A} s v (f : cursor -> result (A * cursor)) a :
  encode_ascii s = Ok v -> discard_sp s = s -> f s = Ok (a, []) -> _parse_top v f = Ok a.
Proof.
  unfold encode_ascii, _parse_top, _to_text. destruct (forallb _ s) eqn:E; [|done]. intros [= <-] Hs Hf.
  rewrite E. cbn [rbind]. by rewrite Hs, Hf.
Qed.

Lemma join_discard f xs :
  (forall c, f c = true -> (c =? SP) = false /\ (c =? HTAB) = false) -> Forall (starts f) xs ->
  discard_sp (join [COMMA; SP] xs) = join [COMMA; SP] xs.
Proof.
  intros Hf Hx. destruct Hx as [|x xs (c & x' & -> & Hc) _]; [done|]. rewrite join_cons. cbn [app discard_sp].
  apply Hf in Hc as [Hc _]. by rewrite Hc.
Qed.

Lemma starts_nonempty f x : starts f x -> x <> [].
Proof. by intros (c & x' & -> & _). Qed.

(** Lists round-trip.  What [serialize_list] returns for a list of items
    and inner lists, with parameters, [parse_list] reads back as that list —
    every bare type, decimals of up to three places included. *)
Theorem parse_serialize_list l v :
  Forall member_ok l -> serialize_list l = Ok v -> parse_list v = Ok l.
Proof.
  intros Hl Hs. unfold serialize_list in Hs. inv_ok. rename a into xs.
  destruct (members_start l xs Hl Ha) as [Hst Hlen].
  apply (parse_top_ascii _ _ _ _ Hs (join_discard _ _ member_start_ws Hst)).
  apply (list_roundtrip l xs _ [] Hl Ha). rewrite Hlen. apply join_length.
  eapply Forall_impl; [exact Hst|]. apply starts_nonempty.
Qed.

Definition sample_list : SFList :=
  [MItem (SFToken (lit "gzip"), [(lit "q", SFDecimal (Finite false 5 (-1)))]);
   MInnerList [(SFString (lit "a\b"), []); (SFInt (-42), [(lit "x", SFBool false)])] [(lit "lvl", SFBool true)];
   MItem (SFDecimal (Finite true 0 0), []); MItem (SFBytes [0; 255; 7], []);
   MItem (SFDisplayString [0xFC; 34; 37], []); MItem (SFDate 1659578233, [])].

Lemma parse_serialize_list_witness :
  exists v, serialize_list sample_list = Ok v /\ parse_list v = Ok sample_list.
Proof.
  eexists. split; [vm_compute; reflexivity|]. apply (parse_serialize_list sample_list); [|vm_compute; reflexivity].
  unfold sample_list. repeat apply Forall_cons_2; try apply Forall_nil_2; apply (bool_decide_unpack _); vm_compute; exact I.
Defined.

Lemma key_start_ws c : _KEY_START c = true -> (c =? SP) = false /\ (c =? HTAB) = false.
Proof. intros Hc. split; apply Z.eqb_neq; intros ->; done. Qed.

Lemma entry_roundtrip k m x r :
  member_ok m -> ser_entry k m = Ok x -> ends r ->
  exists y, _parse_key (x ++ r) = Ok (k, y) /\ starts _KEY_START x /\
    (if peek_is EQUALS y then let* '(_, p) := advance y in _parse_item_or_inner_list p
     else let* '(params, p) := _parse_parameters y in Ok (MItem (SFBool true, params), p)) = Ok (m, r).
Proof.
  intros Hm Hs Hr. unfold ser_entry in Hs. inv_ok. rename a into tk.
  assert ((exists ps tp, m = MItem (SFBool true, ps) /\ _ser_parameters ps = Ok tp /\ x = tk ++ tp) \/
          exists tm, _ser_item_or_inner_list m = Ok tm /\ x = tk ++ [EQUALS] ++ tm) as [(ps & tp & -> & Hp & ->)|(tm & Hm' & ->)].
  { destruct m as [[[[]|?|?|?|?|?|?|?] ps]|]; inv_ok; eauto 6. }
  - destruct (key_roundtrip k tk (tp ++ r) Ha (params_stops ps tp r Hp Hr)) as (-> & Hk & Hst).
    exists (tp ++ r). rewrite <- app_assoc. split; [done|]. split; [by apply starts_app|].
    destruct Hm as [_ Hps]. cbn [snd] in Hps. rewrite (params_roundtrip ps tp r Hps Hp Hr). cbn [rbind].
    assert (peek_is EQUALS (tp ++ r) = false) as ->; [|done].
    destruct ps as [|[k' v'] ps]; cbn [_ser_parameters] in Hp; inv_ok; [by apply ends_peek|done].
  - destruct (key_roundtrip k tk ([EQUALS] ++ tm ++ r) Ha eq_refl) as (-> & Hk & Hst).
    exists ([EQUALS] ++ tm ++ r). rewrite <- !app_assoc. split; [done|]. split; [by apply starts_app|].
    change (peek_is EQUALS ([EQUALS] ++ tm ++ r)) with true. cbn [app advance rbind].
    by destruct (member_roundtrip m tm r Hm Hm' Hr) as [-> _].
Qed.

Definition dictionary_ok (d : SFDictionary) : Prop := dict_ok d /\ Forall (fun x => member_ok x.2) d.

Lemma entries_start d xs :
  Forall (fun x => member_ok x.2) d -> ser_entries d = Ok xs -> Forall (starts _KEY_START) xs /\ length d = length xs.
Proof.
  intros Hd. revert xs. induction Hd as [|[k m] d Hm Hd IH]; intros xs; cbn [ser_entries]; intros H; inv_ok; [done|].
  destruct (IH _ Ha0) as [H1 H2]. destruct (entry_roundtrip k m a [] Hm Ha I) as (_ & _ & Hst & _).
  split; [by constructor|simpl; by f_equal].
Qed.

Lemma dictionary_roundtrip d : forall xs fuel acc,
  Forall (fun x => member_ok x.2) d -> NoDup (dkeys acc ++ dkeys d) -> ser_entries d = Ok xs -> (length d <= fuel)%nat ->
  dictionary_loop fuel (join [COMMA; SP] xs) acc = Ok (acc ++ d, []).
Proof.
  induction d as [|[k m] d IH]; intros xs fuel acc Hd Hnd Hs Hf; cbn [ser_entries] in Hs.
  { injection Hs as <-. rewrite app_nil_r. by destruct fuel. }
  inv_ok. apply Forall_cons in Hd as [Hm Hd]. rename a into x, a0 into xs. destruct fuel as [|fuel]; [simpl in Hf; lia|].
  destruct (entries_start d xs Hd Ha0) as [Hst Hlen].
  destruct (tail_next _KEY_START xs key_start_ws Hst) as [Hends Hnext].
  destruct (entry_roundtrip k m x (tail_text xs) Hm Ha Hends) as (y & Hk & Hxs & Hy).
  rewrite join_cons. fold (tail_text xs).
  assert (exists c p, x ++ tail_text xs = c :: p) as (c & p & E) by (destruct Hxs as (c & x' & -> & _); by eexists _, _).
  cbn [dictionary_loop]. rewrite E, <- E, Hk. cbn [rbind]. rewrite Hy. cbn [rbind]. rewrite Hnext. cbn [rbind].
  rewrite dset_fresh by (apply dget_None; apply NoDup_app in Hnd as (_ & H & _); intros Hin; apply (H k Hin); by left).
  case_bool_decide as Hne.
  - rewrite (IH xs fuel (acc ++ [(k, m)])); [by rewrite <- app_assoc|done| |done|simpl in Hf; lia].
    unfold dkeys in *. rewrite fmap_app. cbn in *. by rewrite <- app_assoc.
  - subst xs. destruct d; [done|]. by simpl in Hlen.
Qed.

(** Dictionaries round-trip, member order, valueless true members and
    their parameters included. *)
Theorem parse_serialize_dictionary d v :
  dictionary_ok d -> serialize_dictionary d = Ok v -> parse_dictionary v = Ok d.
Proof.
  intros [Hnd Hd] Hs. unfold serialize_dictionary in Hs. inv_ok. rename a into xs.
  destruct (entries_start d xs Hd Ha) as [Hst Hlen].
  apply (parse_top_ascii _ _ _ _ Hs (join_discard _ _ key_start_ws Hst)).
  apply (dictionary_roundtrip d xs _ [] Hd); [exact Hnd|done|]. rewrite Hlen. apply join_length.
  eapply Forall_impl; [exact Hst|]. apply starts_nonempty.
Qed.

Definition sample_dictionary : SFDictionary :=
  [(lit "u", MItem (SFInt 3, [])); (lit "i", MItem (SFBool true, [(lit "a", SFToken (lit "x"))]));
   (lit "cookie-a.b*", MInnerList [] [(lit "ver", SFDecimal (Finite false 1234567 (-3)))])].

Lemma parse_serialize_dictionary_witness :
  exists v, serialize_dictionary sample_dictionary = Ok v /\ parse_dictionary v = Ok sample_dictionary.
Proof.
  eexists. split; [vm_compute; reflexivity|].
  apply (parse_serialize_dictionary sample_dictionary); [|vm_compute; reflexivity].
  split; [apply (bool_decide_unpack _); vm_compute; exact I|].
  unfold sample_dictionary. repeat apply Forall_cons_2; try apply Forall_nil_2; apply (bool_decide_unpack _); vm_compute; exact I.
Defined.

(** A quiet NaN leaves the serialiser as [TypeError]. *)
Lemma nan_type_error : serialize_item (SFDecimal NaN) [] = Raise TypeError.
Proof. reflexivity. Qed.

End StructuredFields.
