(* ===== verification/H2Frames.v ===== *)
(** * HTTP/2 frames (blackbull/protocol/frame_types.py, frame.py, hpack_fastpath.py)

    The frame classes, their [save] methods and [FrameFactory.load]/[create].
    A frame is a value of [frame], one constructor per class of the registry;
    attributes the constructors compute from the flags are functions of the
    flags.  HPACK is the library [hpack]: its encoder and decoder are
    parameters, with the laws of RFC 7541 the code relies on as the class
    [Hpack].  Log calls and the malformed reasons are left out. *)

From Stdlib Require Import ZArith Lia.
From stdpp Require Import base tactics numbers option strings sets list.
From S2P Require Import Prelude PyLib PyText StructuredFields.
Import StructuredFields.

(** ** The HPACK library *)

(** A header field on the wire. *)
Abbreviation field := (bytes * bytes)%type.

(** The entries of the static table with a value that the code may send by
    index (RFC 7541, appendix A). *)
Definition rfc7541_static : list (Z * field) :=
  (fun '(i, n, v) => (i, (lit n, lit v))) <$>
  [(2, ":method", "GET"); (3, ":method", "POST"); (4, ":path", "/"); (5, ":path", "/index.html");
   (6, ":scheme", "http"); (7, ":scheme", "https"); (8, ":status", "200"); (9, ":status", "204");
   (10, ":status", "206"); (11, ":status", "304"); (12, ":status", "400"); (13, ":status", "404");
   (14, ":status", "500"); (16, "accept-encoding", "gzip, deflate")]%string.

(** An HPACK codec: encoder and decoder with their dynamic tables.  [synced e
    d] says that [d] has seen what [e] has sent.  A block the encoder produced,
    behind any indexed fields of the static table (RFC 7541, 6.1), decodes to
    those fields and the ones it was given, and leaves the two in sync; the
    empty block holds no field. *)
Class Hpack (E D : Type) : Type := {
  hpack_encode : E -> list field -> bytes * E;
  hpack_decode : D -> bytes -> result (list field * D);
  synced : E -> D -> Prop;
  hpack_law e d static fs : synced e d -> Forall (fun x => x ∈ rfc7541_static) static ->
    exists d', hpack_decode d (((fun x => Z.lor 0x80 x.1) <$> static) ++ (hpack_encode e fs).1)
                 = Ok (static.*2 ++ fs, d') /\ synced (hpack_encode e fs).2 d';
  hpack_empty d : hpack_decode d [] = Ok ([], d)
}.

Module H2Frames.

(** ** Constants *)

Definition DEFAULT_INITIAL_WINDOW_SIZE : Z := 65535.
Definition DEFAULT_MAX_FRAME_SIZE : Z := 16384.

Inductive FrameTypes : Type :=
| DATA | HEADERS | PRIORITY | RST_STREAM | SETTINGS | PUSH_PROMISE | PING | GOAWAY | WINDOW_UPDATE
| CONTINUATION | PRIORITY_UPDATE.
#[export] Instance frame_types_eq_dec : EqDecision FrameTypes.
Proof. solve_decision. Defined.

Definition type_value (t : FrameTypes) : Z :=
  match t with
  | DATA => 0 | HEADERS => 1 | PRIORITY => 2 | RST_STREAM => 3 | SETTINGS => 4 | PUSH_PROMISE => 5
  | PING => 6 | GOAWAY => 7 | WINDOW_UPDATE => 8 | CONTINUATION => 9 | PRIORITY_UPDATE => 0x10
  end.

Definition frame_types : list FrameTypes :=
  [DATA; HEADERS; PRIORITY; RST_STREAM; SETTINGS; PUSH_PROMISE; PING; GOAWAY; WINDOW_UPDATE; CONTINUATION;
   PRIORITY_UPDATE].

(** [_FRAME_TYPE_BY_VALUE.get(type_)] *)
Definition _FRAME_TYPE_BY_VALUE (v : Z) : option FrameTypes :=
  head (filter (fun t => type_value t = v) frame_types).

Definition END_STREAM : Z := 0x1.
Definition ACK : Z := 0x1.
Definition END_HEADERS : Z := 0x4.
Definition PADDED : Z := 0x8.
Definition PRIORITY_FLAG : Z := 0x20.

Definition flag (f flags : Z) : bool := negb (Z.land f flags =? 0).

Inductive PseudoHeaders : Type := METHOD | PATH | SCHEME | STATUS | AUTHORITY | PROTOCOL.
#[export] Instance pseudo_eq_dec : EqDecision PseudoHeaders.
Proof. solve_decision. Defined.

Definition pseudo_name (p : PseudoHeaders) : bytes :=
  lit match p with
      | METHOD => ":method" | PATH => ":path" | SCHEME => ":scheme" | STATUS => ":status"
      | AUTHORITY => ":authority" | PROTOCOL => ":protocol"
      end.

Definition _PSEUDO_BY_BYTES (name : bytes) : option PseudoHeaders :=
  head (filter (fun p => pseudo_name p = name) [METHOD; PATH; SCHEME; STATUS; AUTHORITY; PROTOCOL]).

Definition _HOP_BY_HOP_HEADERS : list bytes :=
  lit <$> ["connection"; "keep-alive"; "proxy-connection"; "transfer-encoding"; "upgrade"]%string.

(** ** Frames *)

(** The attributes of [FrameBase]. *)
Record base : Type := mkBase {
  length_ : Z;
  flags : Z;
  stream_id : Z
}.

Record headers_frame : Type := mkHeaders {
  h_base : base;
  raw_block : bytes;
  pseudo_headers : dict PseudoHeaders pystr;
  headers : list field;
  malformed : bool;
  stream_dependency : Z;
  priority_weight : Z
}.

Inductive frame : Type :=
| Data (b : base) (payload : bytes)
| Headers (h : headers_frame)
| Priority (b : base) (exclusion dependent_stream weight : Z)
| RstStream (b : base) (error_code : Z)
| SettingFrame (b : base) (payload : bytes) (settings : dict Z Z)
| PushPromise (b : base) (promised_stream_id : Z) (pseudo : dict PseudoHeaders pystr) (hs : list field)
| Ping (b : base) (payload : bytes)
| GoAway (b : base) (last_stream_id error_code : Z) (append_data : bytes)
| WindowUpdate (b : base) (payload : bytes) (window_size : Z)
| Continuation (b : base) (payload : bytes)
| PriorityUpdate (b : base) (prioritized_stream_id : Z) (priority_field : pystr)
| _UnknownFrame (b : base) (type_byte : Z) (payload : bytes).

Definition frame_type (f : frame) : option FrameTypes :=
  match f with
  | Data _ _ => Some DATA | Headers _ => Some HEADERS | Priority _ _ _ _ => Some PRIORITY
  | RstStream _ _ => Some RST_STREAM | SettingFrame _ _ _ => Some SETTINGS
  | PushPromise _ _ _ _ => Some PUSH_PROMISE | Ping _ _ => Some PING | GoAway _ _ _ _ => Some GOAWAY
  | WindowUpdate _ _ _ => Some WINDOW_UPDATE | Continuation _ _ => Some CONTINUATION
  | PriorityUpdate _ _ _ => Some PRIORITY_UPDATE | _UnknownFrame _ _ _ => None
  end.

(** ** [BytesIO.read(n)]: everything when [n] is negative *)

Definition bytesio_read (n : Z) (l : bytes) : bytes * bytes :=
  if n <? 0 then (l, []) else (slice l 0 n, slice_from l n).

(** ** Field validation (RFC 9113, 8.2.1) *)

Definition name_octet_ok (b : Z) : bool :=
  negb ((b <=? 0x20) || (b =? 0x3A) || ((0x41 <=? b) && (b <=? 0x5A)) || (b >=? 0x7F)).

Definition field_name_is_valid (name : bytes) : bool :=
  match name with
  | [] => false
  | c :: rest => forallb name_octet_ok (if c =? 0x3A then rest else name)
  end.

Definition field_value_is_valid (value : bytes) : bool :=
  negb (has_char 0x00 value || has_char 0x0A value || has_char 0x0D value).

(** ** SETTINGS *)

(** The identifiers of [_SETTING_ATTRS]; a setting is named by its identifier. *)
Definition _SETTING_ATTRS : list Z := [1; 2; 3; 4; 5; 6; 8].

Fixpoint settings_loop (payload : bytes) (attrs : dict Z Z) : dict Z Z :=
  match payload with
  | i1 :: i2 :: v1 :: v2 :: v3 :: v4 :: payload =>
      let identifier := from_bytes [i1; i2] in
      let parsed := from_bytes [v1; v2; v3; v4] in
      settings_loop payload
        (if bool_decide (identifier ∈ _SETTING_ATTRS) then dset attrs identifier parsed else attrs)
  | _ => attrs
  end.

(** ** HEADERS *)

Definition mark_malformed (h : headers_frame) : headers_frame :=
  mkHeaders (h_base h) (raw_block h) (pseudo_headers h) (headers h) true (stream_dependency h) (priority_weight h).

Definition set_priority (dep weight : Z) (h : headers_frame) : headers_frame :=
  mkHeaders (h_base h) (raw_block h) (pseudo_headers h) (headers h) (malformed h) dep weight.

Definition add_pseudo (k : PseudoHeaders) (v : pystr) (h : headers_frame) : headers_frame :=
  mkHeaders (h_base h) (raw_block h) (dset (pseudo_headers h) k v) (headers h) (malformed h)
    (stream_dependency h) (priority_weight h).

Definition add_header (f : field) (h : headers_frame) : headers_frame :=
  mkHeaders (h_base h) (raw_block h) (pseudo_headers h) (headers h ++ [f]) (malformed h)
    (stream_dependency h) (priority_weight h).

(** The loop of [parse_payload] over the decoded fields. *)
Fixpoint fields_loop (fields : list field) (seen_regular : bool) (h : headers_frame) : result headers_frame :=
  match fields with
  | [] => Ok h
  | (k, v) :: fields =>
      if negb (field_name_is_valid k) then Ok (mark_malformed h)
      else if negb (field_value_is_valid v) then Ok (mark_malformed h)
      else if bool_decide (head k = Some 0x3A) then
        if seen_regular then Ok (mark_malformed h)
        else match _PSEUDO_BY_BYTES k with
             | None => Ok (mark_malformed h)
             | Some p =>
                 if dmem (pseudo_headers h) p then Ok (mark_malformed h)
                 else let* s := utf8_decode v in fields_loop fields seen_regular (add_pseudo p s h)
             end
      else if bool_decide (k ∈ _HOP_BY_HOP_HEADERS) then Ok (mark_malformed h)
      else if bool_decide (k = lit "te") && negb (bool_decide (v = lit "trailers")) then Ok (mark_malformed h)
      else fields_loop fields true (add_header (k, v) h)
  end.

Section Codec.
Context {E D : Type} `{!Hpack E D}.

(** The first half of [parse_payload]: the frame marked malformed by its
    padding or its priority field, or the octets for the decoder. *)
Definition block_of (h : headers_frame) : headers_frame + (bytes * headers_frame) :=
  let b := h_base h in
  let payload := raw_block h in
  let remaining := zlen payload in
  let '(bad_pad, payload, remaining) :=
    if flag PADDED (flags b) then
      let '(x, payload) := bytesio_read 1 payload in
      let pad_length := from_bytes x in
      (pad_length >=? length_ b, payload, remaining - (1 + pad_length))
    else (false, payload, remaining) in
  if bad_pad then inl (mark_malformed h)
  else
    let '(self_dep, payload, remaining, h) :=
      if flag PRIORITY_FLAG (flags b) then
        let '(x, payload) := bytesio_read 4 payload in
        let '(w, payload) := bytesio_read 1 payload in
        let dep := Z.land (from_bytes x) 0x7fffffff in
        (dep =? stream_id b, payload, remaining - 5, set_priority dep (from_bytes w) h)
      else (false, payload, remaining, h) in
    if self_dep then inl (mark_malformed h) else inr ((bytesio_read remaining payload).1, h).

Definition parse_payload (decoder : D) (h : headers_frame) : result (headers_frame * D) :=
  match block_of h with
  | inl h => Ok (h, decoder)
  | inr (block, h) =>
      let* '(fields, decoder) := hpack_decode decoder block in
      let* h := fields_loop fields false h in
      Ok (h, decoder)
  end.

(** [Headers.__init__] *)
Definition new_headers (b : base) (data : bytes) (decoder : D) : result (headers_frame * D) :=
  let h := mkHeaders b [] [] [] false 0 1 in
  if length_ b <=? 0 then Ok (h, decoder)
  else
    let h := mkHeaders b data [] [] false 0 1 in
    if flag END_HEADERS (flags b) then parse_payload decoder h else Ok (h, decoder).

(** ** [FrameFactory.create] and the constructors *)

Definition new_data (b : base) (data : bytes) : result frame :=
  if flag PADDED (flags b) then
    let '(x, rest) := bytesio_read 1 data in
    let pad_length := from_bytes x in
    if pad_length >=? length_ b then Raise ValueError
    else Ok (Data b (bytesio_read (length_ b - pad_length - 1) rest).1)
  else Ok (Data b (if zlen data =? length_ b then data else slice data 0 (length_ b))).

Definition new_priority (b : base) (data : bytes) : frame :=
  let '(x, rest) := bytesio_read 4 data in
  let t := from_bytes x in
  Priority b (Z.land 0x80000000 t) (Z.land t 0x7fffffff) (from_bytes (bytesio_read 1 rest).1 + 1).

Definition new_goaway (b : base) (data : bytes) : frame :=
  let '(x, rest) := bytesio_read 4 data in
  let '(y, rest) := bytesio_read 4 rest in
  GoAway b (from_bytes x) (from_bytes y) rest.

(** [data or b'\x00\x00\x00\x00'] *)
Definition new_window_update (b : base) (data : bytes) : frame :=
  let payload := match data with [] => [0; 0; 0; 0] | _ => data end in
  WindowUpdate b payload (from_bytes payload).

(** [l.decode('ascii', errors='replace')] *)
Definition ascii_replace (l : bytes) : pystr := (fun c => if c <? 128 then c else 0xFFFD) <$> l.

Definition new_priority_update (b : base) (data : bytes) : frame :=
  let '(x, rest) := bytesio_read 4 data in
  PriorityUpdate b (Z.land (from_bytes x) 0x7FFFFFFF) (ascii_replace rest).

Definition create (decoder : D) (t : FrameTypes) (flags stream_id : Z) (data : bytes) : result (frame * D) :=
  let b := mkBase (zlen data) flags stream_id in
  let keep (f : frame) := Ok (f, decoder) in
  match t with
  | DATA => let* f := new_data b data in keep f
  | HEADERS => let* '(h, decoder) := new_headers b data decoder in Ok (Headers h, decoder)
  | PRIORITY => keep (new_priority b data)
  | RST_STREAM => if negb (zlen data =? 4) then Raise PlainException else keep (RstStream b (from_bytes data))
  | SETTINGS => keep (SettingFrame b data (settings_loop data []))
  | PUSH_PROMISE => keep (PushPromise b (Z.land (from_bytes (bytesio_read 4 data).1) 0x7FFFFFFF) [] [])
  | PING => if negb (zlen data =? 8) then Raise PlainException else keep (Ping b data)
  | GOAWAY => keep (new_goaway b data)
  | WINDOW_UPDATE => keep (new_window_update b data)
  | CONTINUATION => keep (Continuation b data)
  | PRIORITY_UPDATE => keep (new_priority_update b data)
  end.

Definition load (decoder : D) (data : bytes) : result (frame * D) :=
  if zlen data <? 9 then Raise PlainException
  else
    let length := from_bytes (slice data 0 3) in
    let* type_ := zget data 3 in
    let* flags := zget data 4 in
    let stream_id := Z.land (from_bytes (slice data 5 9)) 0x7fffffff in
    let payload := slice data 9 (9 + length) in
    match _FRAME_TYPE_BY_VALUE type_ with
    | None => Ok (_UnknownFrame (mkBase length flags stream_id) type_ payload, decoder)
    | Some t => create decoder t flags stream_id payload
    end.

(** The builders of [FrameFactory]. *)
Definition window_update (decoder : D) (stream_id increment : Z) : result (frame * D) :=
  let* data := to_bytes 4 increment in create decoder WINDOW_UPDATE 0 stream_id data.

Definition rst_stream (decoder : D) (stream_id error_code : Z) : result (frame * D) :=
  let* data := to_bytes 4 error_code in create decoder RST_STREAM 0 stream_id data.

Definition goaway (decoder : D) (last_stream_id error_code : Z) : result (frame * D) :=
  let* x := to_bytes 4 last_stream_id in
  let* y := to_bytes 4 error_code in
  create decoder GOAWAY 0 0 (x ++ y).

Definition settings (decoder : D) (ack enable_connect_protocol : bool) (initial_window_size max_concurrent_streams : option Z)
    : result (frame * D) :=
  if ack then create decoder SETTINGS ACK 0 []
  else
    let* m := match max_concurrent_streams with
              | Some n => rmap (app [0; 3]) (to_bytes 4 n) | None => Ok [] end in
    let c := if enable_connect_protocol then [0; 8; 0; 0; 0; 1] else [] in
    let* w := match initial_window_size with
              | Some n => rmap (app [0; 4]) (to_bytes 4 n) | None => Ok [] end in
    create decoder SETTINGS 0 0 (m ++ c ++ w).

Definition push_promise (decoder : D) (parent_stream_id promised_stream_id : Z) (pseudo : dict PseudoHeaders pystr)
    (hs : list field) : result (frame * D) :=
  Ok (PushPromise (mkBase 0 END_HEADERS parent_stream_id) promised_stream_id pseudo hs, decoder).

(** ** [save] *)

Definition save_base (t length flags stream_id : Z) : result bytes :=
  let* l := to_bytes 3 length in
  let* f := to_bytes 1 flags in
  let* s := to_bytes 4 stream_id in
  Ok (l ++ [t] ++ f ++ s).

(** [super().save()]: the nine octets with the length the frame has. *)
Definition super_save (t : FrameTypes) (b : base) : result bytes :=
  save_base (type_value t) (length_ b) (flags b) (stream_id b).

(** [self.length = len(payload)] before it. *)
Definition super_save_len (t : FrameTypes) (b : base) (payload : bytes) : result bytes :=
  save_base (type_value t) (zlen payload) (flags b) (stream_id b).

Definition save_data (b : base) (payload : bytes) : result bytes :=
  let* hd := super_save_len DATA b payload in Ok (hd ++ payload).

Definition save_settings (b : base) (payload : bytes) : result bytes :=
  let* hd := super_save_len SETTINGS b payload in Ok (hd ++ payload).

Definition save_window_update (b : base) (payload : bytes) : result bytes :=
  let* hd := super_save WINDOW_UPDATE b in Ok (hd ++ payload).

Definition save_goaway (b : base) (last code : Z) (extra : bytes) : result bytes :=
  let* hd := super_save GOAWAY b in
  let* x := to_bytes 4 last in
  let* y := to_bytes 4 code in
  Ok (hd ++ x ++ y ++ extra).

Definition save_rst_stream (b : base) (code : Z) : result bytes :=
  let* hd := super_save RST_STREAM b in
  let* c := to_bytes 4 code in
  Ok (hd ++ c).

Definition save_priority (b : base) (exclusion dep weight : Z) : result bytes :=
  let* hd := super_save PRIORITY b in
  let* x := to_bytes 4 (Z.lor exclusion dep) in
  let* w := to_bytes 1 weight in
  Ok (hd ++ x ++ w).

Definition save_ping (b : base) (payload : bytes) : result bytes :=
  let* hd := super_save PING b in Ok (hd ++ payload).

Definition save_continuation (b : base) (payload : bytes) : result bytes :=
  let* hd := super_save CONTINUATION b in Ok (hd ++ payload).

Definition save_priority_update (b : base) (sid : Z) (value : pystr) : result bytes :=
  let* i := to_bytes 4 sid in
  let* v := utf8_encode value in
  let* hd := super_save_len PRIORITY_UPDATE b (i ++ v) in
  Ok (hd ++ i ++ v).

(** The static table entries of [hpack_fastpath], as the index they encode. *)
Definition _STATIC_INDEXED : list (field * Z) :=
  (fun '(n, v, i) => ((lit n, lit v), i)) <$>
  [(":method", "GET", 2); (":method", "POST", 3); (":path", "/", 4); (":path", "/index.html", 5);
   (":scheme", "http", 6); (":scheme", "https", 7); (":status", "200", 8); (":status", "204", 9);
   (":status", "206", 10); (":status", "304", 11); (":status", "400", 12); (":status", "404", 13);
   (":status", "500", 14); ("accept-encoding", "gzip, deflate", 16)]%string.

(** [_coerce_bytes] of a [str]. *)
Definition coerce (v : pystr) : result bytes :=
  if forallb (fun c => (0 <=? c) && (c <? 128)) v then Ok v else Raise UnicodeEncodeError.

Definition pseudo_fast_bytes (name : bytes) (value : pystr) : result (option bytes) :=
  let* v := coerce value in
  Ok match dget _STATIC_INDEXED (name, v) with Some i => Some [Z.lor 0x80 i] | None => None end.

Definition status_fast_bytes (value : pystr) : result (option bytes) := pseudo_fast_bytes (lit ":status") value.

(** What the encoder is given for pseudo-headers: names and UTF-8 values. *)
Fixpoint pseudo_fields (ps : list (PseudoHeaders * pystr)) : result (list field) :=
  match ps with
  | [] => Ok []
  | (k, v) :: ps => let* b := utf8_encode v in let* r := pseudo_fields ps in Ok ((pseudo_name k, b) :: r)
  end.

(** [Headers.save]: the header block and the encoder after it. *)
Definition encode_headers (encoder : E) (h : headers_frame) : result (bytes * E) :=
  let* '(fast, items) :=
    match dget (pseudo_headers h) STATUS with
    | None => Ok ([], pseudo_headers h)
    | Some status =>
        let* wire := status_fast_bytes status in
        Ok match wire with
           | None => ([], pseudo_headers h)
           | Some w => (w, filter (fun x => x.1 <> STATUS) (pseudo_headers h))
           end
    end in
  let* ps := pseudo_fields items in
  let '(block, encoder) := hpack_encode encoder (ps ++ headers h) in
  Ok (fast ++ block, encoder).

(** [PushPromise.save]: the fast bytes in order, and the remaining fields. *)
Fixpoint push_fast (ps : list (PseudoHeaders * pystr)) : result (bytes * list (PseudoHeaders * pystr)) :=
  match ps with
  | [] => Ok ([], [])
  | (k, v) :: ps =>
      let* wire := pseudo_fast_bytes (pseudo_name k) v in
      let* '(fast, remaining) := push_fast ps in
      Ok match wire with
         | Some w => (w ++ fast, remaining)
         | None => (fast, (k, v) :: remaining)
         end
  end.

Definition save_headers (encoder : E) (h : headers_frame) : result (bytes * E) :=
  let* '(payload, encoder) := encode_headers encoder h in
  let* hd := save_base (type_value HEADERS) (zlen payload) (flags (h_base h)) (stream_id (h_base h)) in
  Ok (hd ++ payload, encoder).

Definition save_push_promise (encoder : E) (b : base) (promised : Z) (pseudo : dict PseudoHeaders pystr)
    (hs : list field) : result (bytes * E) :=
  let* '(fast, remaining) := push_fast pseudo in
  let* ps := pseudo_fields remaining in
  let '(block, encoder) := hpack_encode encoder (ps ++ hs) in
  let* i := to_bytes 4 (Z.land promised 0x7FFFFFFF) in
  let payload := i ++ fast ++ block in
  let* hd := save_base (type_value PUSH_PROMISE) (zlen payload) END_HEADERS (stream_id b) in
  Ok (hd ++ payload, encoder).

Definition save (encoder : E) (f : frame) : result (bytes * E) :=
  let plain (m : result bytes) := let* w := m in Ok (w, encoder) in
  match f with
  | Data b payload => plain (save_data b payload)
  | Headers h => save_headers encoder h
  | Priority b exclusion dep weight => plain (save_priority b exclusion dep weight)
  | RstStream b code => plain (save_rst_stream b code)
  | SettingFrame b payload _ => plain (save_settings b payload)
  | PushPromise b promised pseudo hs => save_push_promise encoder b promised pseudo hs
  | Ping b payload => plain (save_ping b payload)
  | GoAway b last code extra => plain (save_goaway b last code extra)
  | WindowUpdate b payload _ => plain (save_window_update b payload)
  | Continuation b payload => plain (save_continuation b payload)
  | PriorityUpdate b sid value => plain (save_priority_update b sid value)
  | _UnknownFrame _ _ _ => Raise AttributeError
  end.

End Codec.

(** ** RFC 9218 priorities *)

Record priority : Type := mkPriority {
  urgency : Z;
  incremental : bool
}.

(** The bare item of an Item member; an inner list is of neither type. *)
Definition item_of (m : option Member) : option BareItem :=
  match m with Some (MItem (b, _)) => Some b | _ => None end.

Definition parse_priority_field (s : pystr) : result priority :=
  match parse_dictionary s with
  | Raise e => if isa_ValueError e then Ok (mkPriority 3 false) else Raise e
  | Ok members =>
      let urgency :=
        match item_of (dget members (lit "u")) with
        | Some (SFInt n) => if (0 <=? n) && (n <=? 7) then n else 3
        | _ => 3
        end in
      let incremental :=
        match item_of (dget members (lit "i")) with Some (SFBool b) => b | _ => false end in
      Ok (mkPriority urgency incremental)
  end.

(** ** Round trips *)

Lemma type_value_inv t : _FRAME_TYPE_BY_VALUE (type_value t) = Some t.
Proof. by destruct t. Qed.

Definition base_ok (b : base) : Prop := 0 <= flags b < 256 /\ 0 <= stream_id b < 2 ^ 31.

Section Roundtrip.
Context {E D : Type} `{!Hpack E D}.

Lemma land_mask n : 0 <= n < 2 ^ 31 -> Z.land n 0x7fffffff = n.
Proof. intros Hn. change 0x7fffffff with (Z.ones 31). rewrite Z.land_ones by lia. by apply Z.mod_small. Qed.

Lemma load_fields (d : D) l tb fl s payload more :
  zlen l = 3 -> zlen s = 4 -> from_bytes l = zlen payload ->
  load d (l ++ [tb] ++ [fl] ++ s ++ payload ++ more) =
    match _FRAME_TYPE_BY_VALUE tb with
    | None => Ok (_UnknownFrame (mkBase (zlen payload) fl (Z.land (from_bytes s) 0x7fffffff)) tb payload, d)
    | Some t => create d t fl (Z.land (from_bytes s) 0x7fffffff) payload
    end.
Proof.
  intros Hl Hs Hp. set (w := l ++ _). unfold load.
  assert (zlen w = 9 + zlen payload + zlen more) as Hw.
  { unfold w. rewrite !zlen_app. change (zlen [tb]) with 1. change (zlen [fl]) with 1. lia. }
  pose proof (zlen_nonneg payload). pose proof (zlen_nonneg more).
  rewrite (proj2 (Z.ltb_ge (zlen w) 9)) by lia.
  assert (slice w 0 3 = l) as -> by (apply (slice_mid [] l); change (zlen (@nil Z)) with 0; lia).
  assert (zget w 3 = Ok tb) as -> by (by apply zget_app_mid).
  assert (zget w 4 = Ok fl) as ->.
  { replace w with ((l ++ [tb]) ++ fl :: s ++ payload ++ more) by (unfold w; by rewrite <- app_assoc).
    apply zget_app_mid. rewrite zlen_app. change (zlen [tb]) with 1. lia. }
  assert (slice w 5 9 = s) as ->.
  { replace w with ((l ++ [tb] ++ [fl]) ++ s ++ payload ++ more) by (unfold w; by rewrite <- !app_assoc).
    apply slice_mid; rewrite !zlen_app; change (zlen [tb]) with 1; change (zlen [fl]) with 1; lia. }
  cbn [rbind]. rewrite Hp. assert (slice w 9 (9 + zlen payload) = payload) as ->; [|done].
  replace w with ((l ++ [tb] ++ [fl] ++ s) ++ payload ++ more) by (unfold w; by rewrite <- !app_assoc).
  apply slice_mid; rewrite !zlen_app; change (zlen [tb]) with 1; change (zlen [fl]) with 1; lia.
Qed.

(** Reading a saved frame header and its payload back is [create]. *)
Lemma load_saved (d : D) t len fl sid hd payload more :
  save_base (type_value t) len fl sid = Ok hd -> 0 <= sid < 2 ^ 31 -> len = zlen payload ->
  load d ((hd ++ payload) ++ more) = create d t fl sid payload.
Proof.
  intros Hs Hsid Hlen. unfold save_base in Hs. rewrite Hlen in Hs. clear Hlen len. inv_ok.
  apply to_bytes_inv in Ha as [-> H1]. apply to_bytes_inv in Ha0 as [-> H2]. apply to_bytes_inv in Ha1 as [-> H3].
  assert (be_bytes 1 fl = [fl]) as -> by (change (be_bytes 1 fl) with [fl mod 256]; by rewrite Z.mod_small).
  rewrite <- !app_assoc.
  etrans; [apply (load_fields d (be_bytes 3 (zlen payload)) (type_value t) fl (be_bytes 4 sid) payload more)|].
  - apply zlen_be_bytes.
  - apply zlen_be_bytes.
  - by rewrite from_bytes_be_bytes, Z.mod_small.
  - rewrite type_value_inv, from_bytes_be_bytes, Z.mod_small by done. by rewrite land_mask.
Qed.

Lemma bytesio_read_app n (l rest : bytes) : n = zlen l -> bytesio_read n (l ++ rest) = (l, rest).
Proof.
  intros ->. unfold bytesio_read. rewrite (proj2 (Z.ltb_ge _ _)) by apply zlen_nonneg.
  by rewrite slice_app_l, slice_from_app.
Qed.

Lemma bytesio_read_be n v rest : bytesio_read (Z.of_nat n) (be_bytes n v ++ rest) = (be_bytes n v, rest).
Proof. apply bytesio_read_app. by rewrite zlen_be_bytes. Qed.

(** The frames that carry no header block and are in the state their
    constructor would put them in. *)
Definition ascii (s : pystr) : Prop := Forall (fun c => 0 <= c < 128) s.

Definition canonical (f : frame) : Prop :=
  match f with
  | Data b payload => base_ok b /\ flag PADDED (flags b) = false /\ length_ b = zlen payload
  | RstStream b _ => base_ok b /\ length_ b = 4
  | SettingFrame b payload attrs => base_ok b /\ length_ b = zlen payload /\ attrs = settings_loop payload []
  | Ping b payload => base_ok b /\ length_ b = 8 /\ zlen payload = 8
  | GoAway b _ _ extra => base_ok b /\ length_ b = 8 + zlen extra
  | WindowUpdate b payload n => base_ok b /\ payload <> [] /\ length_ b = zlen payload /\ n = from_bytes payload
  | Continuation b payload => base_ok b /\ length_ b = zlen payload
  | PriorityUpdate b sid value =>
      base_ok b /\ length_ b = 4 + zlen value /\ 0 <= sid < 2 ^ 31 /\ ascii value
  | _ => False
  end.

Lemma ascii_utf8 s : ascii s -> utf8_encode s = Ok s /\ ascii_replace s = s.
Proof.
  intros Hs. split.
  - unfold utf8_encode. rewrite bool_decide_true by (eapply Forall_impl; [exact Hs|]; intros c Hc; left; cbn in *; lia).
    f_equal. induction Hs as [|c s Hc Hs IH]; [done|]. cbn [mbind list_bind]. unfold utf8_char at 1.
    rewrite (proj2 (Z.ltb_lt c 0x80)) by lia. cbn [app]. by f_equal.
  - unfold ascii_replace. induction Hs as [|c s Hc Hs IH]; [done|]. cbn. rewrite (proj2 (Z.ltb_lt c 128)) by lia. by f_equal.
Qed.

Ltac base_of b := let H := fresh "Hb" in destruct b as [?l ?fl ?sid]; cbn [length_ flags stream_id] in *.

Lemma load_save_data (d : D) b payload hd more :
  canonical (Data b payload) -> save_base (type_value DATA) (zlen payload) (flags b) (stream_id b) = Ok hd ->
  load d ((hd ++ payload) ++ more) = Ok (Data b payload, d).
Proof.
  intros ((Hf & Hs) & Hp & Hl) Hsave. rewrite (load_saved d DATA _ _ _ _ _ more Hsave Hs eq_refl).
  unfold create, new_data. base_of b. rewrite Hp, Z.eqb_refl. by rewrite Hl.
Qed.

(** Saved frames load back.  For every frame without a header block that
    is in the state its constructor leaves — DATA unpadded, RST_STREAM,
    SETTINGS, PING, GOAWAY, WINDOW_UPDATE, CONTINUATION, PRIORITY_UPDATE — what
    [save] writes, [load] reads back as that frame, whatever bytes follow, and
    the HPACK state is untouched. *)
Theorem load_save (e e' : E) (d : D) f w more :
  canonical f -> save e f = Ok (w, e') -> load d (w ++ more) = Ok (f, d) /\ e' = e.
Proof.
  intros Hc Hs. destruct f as [b p| |b|b c|b p a| |b p|b l c x|b p n|b p|b i v|]; try done;
    cbn [canonical save] in *; apply rbind_Ok in Hs as (w' & Hs & [= <- <-]); unfold save_data, save_rst_stream, save_settings, save_ping, save_goaway,
      save_window_update, save_continuation, save_priority_update, super_save, super_save_len in *; inv_ok.
  - split; [|done]. by apply load_save_data.
  - destruct Hc as ((Hf & Hsid) & Hl). apply to_bytes_inv in Ha0 as [-> Hr]. split; [|done].
    rewrite (load_saved d RST_STREAM _ _ _ _ _ more Ha Hsid) by (by rewrite zlen_be_bytes).
    unfold create. rewrite zlen_be_bytes, from_bytes_be_bytes, Z.mod_small by done. base_of b. by subst.
  - destruct Hc as ((Hf & Hsid) & Hl & ->). split; [|done].
    rewrite (load_saved d SETTINGS _ _ _ _ _ more Ha Hsid eq_refl). unfold create. base_of b. by subst.
  - destruct Hc as ((Hf & Hsid) & Hl & Hp). split; [|done].
    rewrite (load_saved d PING _ _ _ _ _ more Ha Hsid) by congruence. unfold create. rewrite Hp. base_of b. by subst.
  - destruct Hc as ((Hf & Hsid) & Hl). apply to_bytes_inv in Ha0 as [-> H1]. apply to_bytes_inv in Ha1 as [-> H2].
    split; [|done].
    rewrite (load_saved d GOAWAY _ _ _ _ _ more Ha Hsid) by (rewrite !zlen_app, !zlen_be_bytes; lia).
    unfold create, new_goaway. rewrite !zlen_app, !zlen_be_bytes.
    rewrite (bytesio_read_be 4), (bytesio_read_be 4), !from_bytes_be_bytes, !Z.mod_small by done.
    base_of b. do 3 f_equal. f_equal. lia.
  - destruct Hc as ((Hf & Hsid) & Hne & Hl & ->). split; [|done].
    rewrite (load_saved d WINDOW_UPDATE _ _ _ _ _ more Ha Hsid Hl). unfold create, new_window_update.
    destruct p as [|x p]; [done|]. base_of b. by rewrite Hl.
  - destruct Hc as ((Hf & Hsid) & Hl). split; [|done].
    rewrite (load_saved d CONTINUATION _ _ _ _ _ more Ha Hsid Hl). unfold create. base_of b. by rewrite Hl.
  - destruct Hc as ((Hf & Hsid) & Hl & Hi & Hv). destruct (ascii_utf8 v Hv) as [Hu Hr]. rewrite Hu in Ha0.
    injection Ha0 as <-. apply to_bytes_inv in Ha as [-> H1]. split; [|done].
    rewrite (load_saved d PRIORITY_UPDATE _ _ _ _ _ more Ha1 Hsid) by done.
    unfold create, new_priority_update. rewrite zlen_app, zlen_be_bytes, (bytesio_read_be 4), Hr.
    rewrite from_bytes_be_bytes, Z.mod_small, land_mask by done. base_of b. do 3 f_equal. f_equal. lia.
Qed.

End Roundtrip.

(** ** What the field loop accepts *)

(** A well-formed pseudo-header field and what it is stored as. *)
Definition pseudo_ok (f : field) (x : PseudoHeaders * pystr) : Prop :=
  f.1 = pseudo_name x.1 /\ field_value_is_valid f.2 = true /\ utf8_decode f.2 = Ok x.2.

(** A well-formed regular field. *)
Definition regular_ok (f : field) : Prop :=
  field_name_is_valid f.1 = true /\ field_value_is_valid f.2 = true /\ head f.1 <> Some 0x3A /\
  (f.1 ∉ _HOP_BY_HOP_HEADERS) /\ (f.1 = lit "te" -> f.2 = lit "trailers").

Definition extend (ps : list (PseudoHeaders * pystr)) (hs : list field) (h : headers_frame) : headers_frame :=
  mkHeaders (h_base h) (raw_block h) (pseudo_headers h ++ ps) (headers h ++ hs) (malformed h)
    (stream_dependency h) (priority_weight h).

Lemma extend_nil h : extend [] [] h = h.
Proof. unfold extend. rewrite !app_nil_r. by destruct h. Qed.

(** Not marked malformed, and no exception. *)
Definition accepted (m : result headers_frame) (h' : headers_frame) : Prop := m = Ok h' /\ malformed h' = false.

Lemma accepted_malformed h h' : accepted (Ok (mark_malformed h)) h' <-> False.
Proof. split; [|done]. intros [[= <-] H]. done. Qed.

Lemma pseudo_by_bytes k p : _PSEUDO_BY_BYTES k = Some p <-> k = pseudo_name p.
Proof.
  split; [|intros ->; by destruct p]. unfold _PSEUDO_BY_BYTES. intros H%head_Some_elem_of.
  apply list_elem_of_filter in H as [H _]. done.
Qed.

Lemma pseudo_name_facts p :
  field_name_is_valid (pseudo_name p) = true /\ head (pseudo_name p) = Some 0x3A.
Proof. by destruct p. Qed.

Lemma bool_decide_neg_true (P : Prop) `{!Decision P} : negb (bool_decide P) = true <-> ~ P.
Proof. by rewrite negb_true_iff, bool_decide_eq_false. Qed.

(** One regular field. *)
Lemma fields_loop_regular k v fields seen h h' :
  head k <> Some 0x3A ->
  accepted (fields_loop ((k, v) :: fields) seen h) h' <->
  regular_ok (k, v) /\ accepted (fields_loop fields true (add_header (k, v) h)) h'.
Proof.
  intros Hk. cbn [fields_loop]. unfold regular_ok. cbn [fst snd].
  destruct (field_name_is_valid k); cbn [negb]; [|rewrite accepted_malformed; naive_solver].
  destruct (field_value_is_valid v); cbn [negb]; [|rewrite accepted_malformed; naive_solver].
  rewrite (bool_decide_false (head k = _)) by done.
  destruct (bool_decide_reflect (k ∈ _HOP_BY_HOP_HEADERS)); [rewrite accepted_malformed; naive_solver|].
  destruct (bool_decide_reflect (k = lit "te")) as [E|E]; cbn [andb].
  - destruct (bool_decide_reflect (v = lit "trailers")) as [E'|E']; cbn [negb]; [|rewrite accepted_malformed];
      naive_solver.
  - naive_solver.
Qed.

Lemma fields_loop_rest rs h h' :
  malformed h = false ->
  accepted (fields_loop rs true h) h' <-> Forall regular_ok rs /\ h' = extend [] rs h.
Proof.
  revert h. induction rs as [|[k v] rs IH]; intros h Hm.
  { cbn [fields_loop]. rewrite extend_nil. unfold accepted. naive_solver. }
  destruct (decide (head k = Some 0x3A)) as [Hk|Hk].
  - cbn [fields_loop]. rewrite (bool_decide_true (head k = _)) by done. rewrite Forall_cons. split.
    + repeat case_match; by rewrite ?accepted_malformed.
    + intros [[(_ & _ & H & _) _] _]. done.
  - rewrite fields_loop_regular, IH, Forall_cons by done.
    assert (extend [] rs (add_header (k, v) h) = extend [] ((k, v) :: rs) h) as ->; [|tauto].
    unfold extend, add_header; cbn. by rewrite <- app_assoc.
Qed.

(** One pseudo-header field. *)
Lemma fields_loop_pseudo k v fields h h' :
  head k = Some 0x3A ->
  accepted (fields_loop ((k, v) :: fields) false h) h' <->
  exists p s, pseudo_ok (k, v) (p, s) /\ (p ∉ dkeys (pseudo_headers h)) /\
    accepted (fields_loop fields false (add_pseudo p s h)) h'.
Proof.
  intros Hk. cbn [fields_loop]. unfold pseudo_ok. cbn [fst snd]. split.
  - rewrite (bool_decide_true (head k = _)) by done.
    destruct (field_name_is_valid k); cbn [negb]; [|by rewrite accepted_malformed].
    destruct (field_value_is_valid v); cbn [negb]; [|by rewrite accepted_malformed].
    destruct (_PSEUDO_BY_BYTES k) as [p|] eqn:Hp; [|by rewrite accepted_malformed].
    apply pseudo_by_bytes in Hp. destruct (dmem (pseudo_headers h) p) eqn:Hm; [by rewrite accepted_malformed|].
    destruct (utf8_decode v) as [s|]; cbn [rbind]; [|by intros [??]]. intros H. exists p, s.
    split_and!; try done. apply dget_None. unfold dmem in Hm. by destruct (dget _ p).
  - intros (p & s & (-> & Hv & Hs) & Hn & H). destruct (pseudo_name_facts p) as [-> ->].
    rewrite Hv, bool_decide_true by done. cbn [negb]. rewrite (proj2 (pseudo_by_bytes _ p)) by done.
    apply dget_None in Hn. unfold dmem. rewrite Hn, Hs. done.
Qed.

Lemma extend_pseudo p s ps rs h :
  (p ∉ dkeys (pseudo_headers h)) -> extend ps rs (add_pseudo p s h) = extend ((p, s) :: ps) rs h.
Proof.
  intros Hp. unfold extend, add_pseudo; cbn. rewrite dset_fresh by by apply dget_None. by rewrite <- app_assoc.
Qed.

(** What is accepted: pseudo-header fields, each defined and at most once,
    then regular fields. *)
Definition split_fields (fields : list field) (ps : list (PseudoHeaders * pystr)) (rs : list field) : Prop :=
  exists fs, fields = fs ++ rs /\ Forall2 pseudo_ok fs ps /\ Forall regular_ok rs.

Lemma fields_loop_spec fields h h' :
  malformed h = false ->
  accepted (fields_loop fields false h) h' <->
  exists ps rs, split_fields fields ps rs /\ Forall (fun x => x ∉ dkeys (pseudo_headers h)) ps.*1 /\ NoDup ps.*1 /\
    h' = extend ps rs h.
Proof.
  revert h. induction fields as [|[k v] fields IH]; intros h Hm.
  { cbn [fields_loop]. split.
    - intros [[= <-] _]. exists [], []. split; [by exists []|]. split; [constructor|]. split; [constructor|].
      by rewrite extend_nil.
    - intros (ps & rs & (fs & E & Hf & _) & _ & _ & ->). symmetry in E. apply app_nil in E as [-> ->].
      inversion Hf; subst. by rewrite extend_nil. }
  destruct (decide (head k = Some 0x3A)) as [Hk|Hk].
  - rewrite fields_loop_pseudo by done. split.
    + intros (p & s & Hp & Hn & H). rewrite IH in H by done.
      destruct H as (ps & rs & (fs & -> & Hf & Hrs) & Hfr & Hnd & ->). exists ((p, s) :: ps), rs.
      split; [exists ((k, v) :: fs); split; [done|]; split; [by constructor|done]|].
      unfold add_pseudo in Hfr; cbn [pseudo_headers] in Hfr. rewrite fmap_cons, Forall_cons, NoDup_cons. cbn [fst].
      rewrite Forall_forall in Hfr. setoid_rewrite elem_of_dkeys_dset in Hfr.
      rewrite extend_pseudo by done. rewrite Forall_forall. naive_solver.
    + intros (ps & rs & (fs & E & Hf & Hrs) & Hfr & Hnd & ->). destruct Hf as [|f [p s] fs ps Hp Hf].
      { cbn [app] in E. subst rs. apply Forall_cons in Hrs as [(_ & _ & H & _) _]. done. }
      injection E as <- ->. rewrite fmap_cons, Forall_cons in Hfr. cbn [fst] in Hfr. destruct Hfr as [Hn Hfr].
      apply NoDup_cons in Hnd as [Hps Hnd]. exists p, s. split; [done|]. split; [done|]. rewrite IH by done.
      exists ps, rs. split; [by exists fs|]. split; [|split; [done|by rewrite extend_pseudo]].
      rewrite Forall_forall in *. intros x Hx. unfold add_pseudo; cbn [pseudo_headers]. rewrite elem_of_dkeys_dset. set_solver.
  - rewrite fields_loop_regular by done. rewrite fields_loop_rest by done. split.
    + intros (Hr & Hrs & ->). exists [], ((k, v) :: fields). split; [exists []; split; [done|]; split; [constructor|by constructor]|].
      split; [constructor|]. split; [constructor|]. unfold extend, add_header; cbn. by rewrite app_nil_r, <- app_assoc.
    + intros (ps & rs & (fs & E & Hf & Hrs) & _ & _ & ->). destruct fs as [|f fs].
      * inversion Hf; subst ps. cbn [app] in E. subst rs. apply Forall_cons in Hrs as [H1 H2].
        split; [done|]. split; [done|]. unfold extend, add_header; cbn. by rewrite app_nil_r, <- app_assoc.
      * exfalso. injection E as <- _. inversion Hf as [|? x ? ? [Hp _]]; subst. cbn in Hp. apply Hk. subst k.
        apply pseudo_name_facts.
Qed.

(** Which header blocks are accepted, and as what.  The validation loop
    leaves a fresh frame unmarked exactly on a list of fields that is
    pseudo-header fields — each of the six, at most once, with a UTF-8 value —
    followed by regular fields with a lower-case name of legal octets, a value
    without NUL, CR or LF, no connection-specific name, and TE only with
    "trailers"; the frame then holds those fields, in order. *)
Theorem header_fields_exact fields b raw dep weight h' :
  let h := mkHeaders b raw [] [] false dep weight in
  (fields_loop fields false h = Ok h' /\ malformed h' = false) <->
  exists ps rs, split_fields fields ps rs /\ NoDup ps.*1 /\ h' = mkHeaders b raw ps rs false dep weight.
Proof.
  cbv zeta. change (?x = Ok h' /\ malformed h' = false) with (accepted x h'). rewrite fields_loop_spec by done.
  split; intros (ps & rs & H); exists ps, rs; unfold extend in *; cbn in *; [naive_solver|].
  destruct H as (H1 & H2 & ->). split; [done|]. split; [|done]. apply Forall_forall. set_solver.
Qed.

(** ** HEADERS through the codec *)

Lemma static_agrees f i : dget _STATIC_INDEXED f = Some i -> (i, f) ∈ rfc7541_static.
Proof.
  intros H%dget_elem. assert (Forall (fun x => (x.2, x.1) ∈ rfc7541_static) _STATIC_INDEXED) as Ha
    by (apply (bool_decide_unpack _); vm_compute; exact I).
  rewrite Forall_forall in Ha. exact (Ha _ H).
Qed.

Lemma coerce_utf8 v w : coerce v = Ok w -> w = v /\ utf8_encode v = Ok v.
Proof.
  unfold coerce. destruct (forallb _ v) eqn:Hf; [|done]. intros [= <-]. split; [done|].
  apply ascii_utf8, Forall_forall. intros c Hc. rewrite forallb_forall in Hf.
  apply list_elem_of_In in Hc. specialize (Hf c Hc). lia.
Qed.

(** A pseudo-header whose value survives the field check on the other side. *)
Definition value_ok (x : PseudoHeaders * pystr) : Prop :=
  match utf8_encode x.2 with Ok b => field_value_is_valid b = true | Raise _ => True end.

Lemma pseudo_fields_ok ps l :
  Forall value_ok ps -> pseudo_fields ps = Ok l -> Forall2 pseudo_ok l ps.
Proof.
  revert l. induction ps as [|[k v] ps IH]; intros l Hv; cbn [pseudo_fields]; intros H; inv_ok; [constructor|].
  apply Forall_cons in Hv as [Hv Hvs]. constructor; [|by apply IH]. unfold pseudo_ok; cbn.
  unfold value_ok in Hv; cbn in Hv. rewrite Ha in Hv. split; [done|]. split; [done|]. by apply utf8_roundtrip.
Qed.

(** The pseudo-headers in the order they go on the wire. *)
Definition wire_pseudo (ps : dict PseudoHeaders pystr) : list (PseudoHeaders * pystr) :=
  match dget ps STATUS with
  | Some v => if dmem _STATIC_INDEXED (lit ":status", v)
              then (STATUS, v) :: filter (fun x => x.1 <> STATUS) ps else ps
  | None => ps
  end.

Lemma filter_out_permutation (ps : list (PseudoHeaders * pystr)) v :
  dict_ok ps -> dget ps STATUS = Some v -> (STATUS, v) :: filter (fun x => x.1 <> STATUS) ps ≡ₚ ps.
Proof.
  induction ps as [|[k w] ps IH]; [done|]. intros [Hk Hd]%NoDup_cons. cbn [dget]. rewrite filter_cons. cbn [fst].
  destruct (decide (STATUS = k)) as [<-|Hne].
  - intros [= ->]. rewrite decide_False by naive_solver. f_equiv.
    assert (Forall (fun x => x.1 <> STATUS) ps) as Hall.
    { apply Forall_forall. intros [k' w'] Hin E. cbn in E. subst. apply Hk. cbn. apply list_elem_of_fmap. by exists (STATUS, w'). }
    clear -Hall. induction Hall as [|x ps Hx Hps IH]; [done|]. rewrite filter_cons, decide_True by done. by f_equiv.
  - intros Hg. rewrite decide_True by congruence. rewrite Permutation_swap. f_equiv. by apply IH.
Qed.

Lemma wire_pseudo_permutation ps : dict_ok ps -> wire_pseudo ps ≡ₚ ps.
Proof.
  intros Hd. unfold wire_pseudo. destruct (dget ps STATUS) as [v|] eqn:E; [|done].
  destruct (dmem _ _); [|done]. by apply filter_out_permutation.
Qed.

Section HeadersRoundtrip.
Context {E D : Type} `{!Hpack E D}.

(** The header block decodes, in sync, to fields the loop accepts. *)
Lemma encode_headers_spec (e e' : E) (d : D) h block :
  dict_ok (pseudo_headers h) -> Forall value_ok (pseudo_headers h) -> synced e d ->
  encode_headers e h = Ok (block, e') ->
  exists fs d', hpack_decode d block = Ok (fs ++ headers h, d') /\ synced e' d' /\
    Forall2 pseudo_ok fs (wire_pseudo (pseudo_headers h)).
Proof.
  intros Hd Hv Hsync Hs. unfold encode_headers in Hs. inv_ok. destruct a as [fast items].
  inv_ok. rename a into l. destruct (hpack_encode e (l ++ headers h)) as [blk e1] eqn:He. inv_ok.
  assert (exists static, fast = (fun x => Z.lor 0x80 x.1) <$> static /\ Forall (fun x => x ∈ rfc7541_static) static /\
    Forall2 pseudo_ok (static.*2 ++ l) (wire_pseudo (pseudo_headers h))) as (static & -> & Hst & Hps).
  { unfold wire_pseudo. destruct (dget (pseudo_headers h) STATUS) as [v|] eqn:Hg.
    2: { injection Ha as <- <-. exists []. split; [done|]. split; [constructor|]. by apply pseudo_fields_ok. }
    unfold status_fast_bytes, pseudo_fast_bytes in Ha. destruct (coerce v) as [w|] eqn:Hc; [|done].
    apply coerce_utf8 in Hc as [-> Hu]. cbn [rbind] in Ha.
    unfold dmem. destruct (dget _STATIC_INDEXED _) as [i|] eqn:Hi; injection Ha as <- <-.
    - exists [(i, (lit ":status", v))]. split; [done|]. split; [constructor; [by apply static_agrees|constructor]|].
      constructor.
      + split; [done|]. cbn. apply dget_elem in Hg. rewrite Forall_forall in Hv. specialize (Hv _ Hg).
        unfold value_ok in Hv; cbn in Hv. rewrite Hu in Hv. split; [done|]. by apply utf8_roundtrip.
      + apply pseudo_fields_ok; [|done]. apply Forall_forall. intros x [_ Hx]%list_elem_of_filter.
        rewrite Forall_forall in Hv. by apply Hv.
    - exists []. split; [done|]. split; [constructor|]. by apply pseudo_fields_ok. }
  destruct (hpack_law e d static (l ++ headers h) Hsync Hst) as (d' & Hdec & Hsync'). rewrite He in Hdec, Hsync'.
  exists (static.*2 ++ l), d'. rewrite <- app_assoc. done.
Qed.

(** Header blocks survive the wire.  A HEADERS frame with END_HEADERS,
    without padding or priority, saved by one side and loaded by a side whose
    HPACK state is in sync, comes back unmarked with the same regular fields
    in order and the same pseudo-headers (a [:status] sent by static index
    first), and the two HPACK states are in sync again. *)
Theorem headers_roundtrip (e e' : E) (d : D) h w more :
  base_ok (h_base h) -> flag END_HEADERS (flags (h_base h)) = true ->
  flag PADDED (flags (h_base h)) = false -> flag PRIORITY_FLAG (flags (h_base h)) = false ->
  dict_ok (pseudo_headers h) -> Forall value_ok (pseudo_headers h) -> Forall regular_ok (headers h) ->
  synced e d -> save e (Headers h) = Ok (w, e') ->
  exists h' d', load d (w ++ more) = Ok (Headers h', d') /\ synced e' d' /\ malformed h' = false /\
    headers h' = headers h /\ pseudo_headers h' ≡ₚ pseudo_headers h.
Proof.
  intros (Hfl & Hsid) He Hp Hpr Hd Hv Hr Hsync Hs. cbn [save] in Hs. unfold save_headers in Hs. inv_ok. destruct a as [block e1]. inv_ok.
  destruct (encode_headers_spec e e' d h block Hd Hv Hsync Ha) as (fs & d' & Hdec & Hsync' & Hps).
  rewrite (load_saved d HEADERS _ _ _ _ _ more Ha0 Hsid eq_refl). unfold create, new_headers. cbn [length_ flags].
  pose proof (wire_pseudo_permutation _ Hd) as Hperm.
  destruct block as [|c block].
  { rewrite hpack_empty in Hdec. injection Hdec as Hnil <-. symmetry in Hnil. apply app_nil in Hnil as [-> Hh].
    apply Forall2_nil_inv_l in Hps. rewrite Hps in Hperm. eexists _, d. split; [reflexivity|]. cbn. by rewrite Hh. }
  set (blk := c :: block) in *.
  assert ((zlen blk <=? 0) = false) as -> by (apply Z.leb_gt; unfold blk; rewrite zlen_cons; pose proof (zlen_nonneg block); lia).
  rewrite He. unfold parse_payload, block_of. cbn [h_base flags raw_block]. rewrite Hp, Hpr.
  unfold bytesio_read. rewrite (proj2 (Z.ltb_ge _ _)) by apply zlen_nonneg. cbn [fst].
  rewrite slice_all by done. rewrite Hdec. cbn [rbind].
  set (h0 := mkHeaders _ _ _ _ _ _ _).
  assert (accepted (fields_loop (fs ++ headers h) false h0) (extend (wire_pseudo (pseudo_headers h)) (headers h) h0)) as [-> Hm].
  { apply fields_loop_spec; [done|]. exists (wire_pseudo (pseudo_headers h)), (headers h). split; [by exists fs|].
    split; [apply Forall_forall; set_solver|]. split; [|done]. by rewrite Hperm. }
  eexists _, d'. split; [reflexivity|]. split; [done|]. split; [done|]. by split.
Qed.

End HeadersRoundtrip.

(** ** A concrete codec, to show the laws can hold: literals only *)

Definition toy_field (f : field) : bytes := 0 :: zlen f.1 :: f.1 ++ zlen f.2 :: f.2.

Fixpoint toy_decode (fuel : nat) (l : bytes) : result (list field) :=
  match fuel, l with
  | _, [] => Ok []
  | O, _ => Raise OutOfFuel
  | S fuel, c :: l =>
      if c =? 0 then
        match l with
        | n :: l =>
            match slice_from l n with
            | m :: r => rmap (cons (slice l 0 n, slice r 0 m)) (toy_decode fuel (slice_from r m))
            | [] => Raise IndexError
            end
        | [] => Raise IndexError
        end
      else match dget rfc7541_static (c - 0x80) with
           | Some f => rmap (cons f) (toy_decode fuel l)
           | None => Raise IndexError
           end
  end.

Lemma toy_static_ok x : x ∈ rfc7541_static ->
  (Z.lor 0x80 x.1 =? 0) = false /\ dget rfc7541_static (Z.lor 0x80 x.1 - 0x80) = Some x.2.
Proof.
  assert (Forall (fun x => (Z.lor 0x80 x.1 =? 0) = false /\ dget rfc7541_static (Z.lor 0x80 x.1 - 0x80) = Some x.2)
            rfc7541_static) as H by (apply (bool_decide_unpack _); vm_compute; exact I).
  rewrite Forall_forall in H. apply H.
Qed.

Lemma toy_literals fs fuel : (length fs <= fuel)%nat -> toy_decode fuel (fs ≫= toy_field) = Ok fs.
Proof.
  revert fuel. induction fs as [|[k v] fs IH]; intros fuel Hf; [by destruct fuel|].
  destruct fuel as [|fuel]; simpl in Hf; [lia|]. cbn [mbind list_bind]. unfold toy_field at 1.
  cbn [fst snd app toy_decode Z.eqb]. rewrite <- app_assoc. cbn [app]. rewrite slice_from_app, slice_app_l by done.
  by rewrite slice_from_app, slice_app_l, IH by (done || lia).
Qed.

Lemma toy_law static fs fuel :
  Forall (fun x => x ∈ rfc7541_static) static -> (length static + length fs <= fuel)%nat ->
  toy_decode fuel (((fun x => Z.lor 0x80 x.1) <$> static) ++ (fs ≫= toy_field)) = Ok (static.*2 ++ fs).
Proof.
  intros Hs. revert fuel. induction Hs as [|x static Hx Hs IH]; intros fuel Hf; [by apply toy_literals|].
  destruct fuel as [|fuel]; simpl in Hf; [lia|]. destruct (toy_static_ok x Hx) as [E1 E2].
  rewrite fmap_cons. cbn [app toy_decode]. rewrite E1, E2. by rewrite IH by lia.
Qed.

#[local] Instance toy_hpack : Hpack unit unit.
Proof.
  refine {| hpack_encode := fun e fs => (fs ≫= toy_field, e);
            hpack_decode := fun d l => rmap (fun fs => (fs, d)) (toy_decode (length l) l);
            synced := fun _ _ => True |}.
  - intros e d static fs _ Hs. exists d. split; [|done]. cbn. rewrite toy_law; [done..|].
    rewrite length_app, length_fmap. enough (length fs <= length (fs ≫= toy_field))%nat by lia.
    clear. induction fs as [|f fs IH]; [done|]. cbn [mbind list_bind]. rewrite length_app. cbn. lia.
  - done.
Defined.

Lemma load_save_witness :
  exists w e', save tt (GoAway (mkBase 10 0 0) 7 2 [1; 2]) = Ok (w, e') /\
    (load tt (w ++ [9; 9; 9]) = Ok (GoAway (mkBase 10 0 0) 7 2 [1; 2], tt) /\ e' = tt).
Proof.
  eexists _, _. split; [vm_compute; reflexivity|].
  apply (load_save tt tt tt (GoAway (mkBase 10 0 0) 7 2 [1; 2])); [|vm_compute; reflexivity].
  repeat split; cbn; lia.
Defined.

Definition sample_headers : headers_frame :=
  mkHeaders (mkBase 0 (END_HEADERS + END_STREAM) 1) [] [(STATUS, lit "404"); (PATH, lit "/x")]
    [(lit "te", lit "trailers"); (lit "x-a", lit "b")] false 0 1.

Lemma headers_roundtrip_witness :
  exists w e', save tt (Headers sample_headers) = Ok (w, e') /\
    exists h' d', load tt (w ++ [0]) = Ok (Headers h', d') /\ synced e' d' /\ malformed h' = false /\
      headers h' = headers sample_headers /\ pseudo_headers h' ≡ₚ pseudo_headers sample_headers.
Proof.
  eexists _, _. split; [vm_compute; reflexivity|].
  apply (headers_roundtrip tt tt tt sample_headers); try reflexivity.
  - unfold base_ok, sample_headers, END_HEADERS, END_STREAM. cbn [h_base flags stream_id]. lia.
  - apply (bool_decide_unpack _). vm_compute. exact I.
  - repeat constructor.
  - repeat apply Forall_cons_2; try apply Forall_nil_2; apply (bool_decide_unpack _); vm_compute; exact I.
Defined.

(** ** RFC 9218 *)

(** A priority field always parses to a usable priority.  Whatever the
    text, [parse_priority_field] returns an urgency of 0..7, never an
    exception; a field it cannot parse gives the defaults. *)
Theorem priority_field_total s :
  exists p, parse_priority_field s = Ok p /\ 0 <= urgency p <= 7 /\
    ((exists d, parse_dictionary s = Ok d) \/ p = mkPriority 3 false).
Proof.
  unfold parse_priority_field. destruct (parse_top_total s _parse_dictionary) as [[d Hd] | Hd].
  - intros q. eexists. by apply dictionary_good.
  - unfold parse_dictionary. rewrite Hd. eexists. split; [reflexivity|]. split; [|eauto]. cbn.
    repeat case_match; try lia.
  - unfold parse_dictionary. rewrite Hd. eexists. split; [reflexivity|]. split; [cbn; lia|by right].
Qed.

(** ** Behaviours outside the round trips *)

(** The weight a PRIORITY frame is saved with is read back one larger, and the
    largest weight cannot be saved. *)
Lemma priority_weight_shifts :
  exists w, save tt (Priority (mkBase 5 0 3) 0 1 16) = Ok (w, tt) /\
    load tt w = Ok (Priority (mkBase 5 0 3) 0 1 17, tt).
Proof. eexists. split; [vm_compute; reflexivity|]. reflexivity. Qed.

Lemma priority_weight_overflows : save tt (Priority (mkBase 5 0 3) 0 1 256) = Raise OverflowError.
Proof. reflexivity. Qed.

(** A block that continues after a padded HEADERS frame: the padding is taken
    off the end of the continuation, and handed to the decoder where it was. *)
Lemma continuation_keeps_padding :
  let h := mkHeaders (mkBase 4 PADDED 1) ([2; 0x82; 0; 0] ++ [0x84; 0x86]) [] [] false 0 1 in
  block_of h = inr ([0x82; 0; 0], h).
Proof. reflexivity. Qed.

(** Padding that overlaps the priority field makes the length of the block
    negative, and everything is read, padding included. *)
Lemma padding_over_priority :
  exists h, block_of (mkHeaders (mkBase 7 (PADDED + PRIORITY_FLAG) 1) [5; 0; 0; 0; 0; 9; 0x82] [] [] false 0 1)
    = inr ([0x82], h) /\ malformed h = false.
Proof. eexists. split; reflexivity. Qed.

(** A pseudo-header value that is not UTF-8 raises instead of marking the
    frame. *)
Lemma bad_utf8_pseudo_raises :
  fields_loop [(lit ":path", [0x2F; 0xFF])] false (mkHeaders (mkBase 9 4 1) [] [] [] false 0 1)
    = Raise UnicodeDecodeError.
Proof. reflexivity. Qed.

(** The reserved bit of a window increment is kept. *)
Lemma window_update_reserved_bit :
  load tt [0; 0; 4; 8; 0; 0; 0; 0; 0; 0x80; 0; 0; 1]
    = Ok (WindowUpdate (mkBase 4 0 0) [0x80; 0; 0; 1] 2147483649, tt).
Proof. reflexivity. Qed.

End H2Frames.
