(* ===== verification/H2Recipient.v ===== *)
(** * The inbound side of an HTTP/2 stream (blackbull/server/recipient.py, HTTP2Recipient)

    The queue between the frame loop, which calls [put_DATAFrame], and the
    application, which takes body chunks.  [_take] replays the flow-control
    credit of the chunk it pops; the replay is the list of increments handed to
    the credit callback.  A reading coroutine that has to wait is [None]; the
    clock reading of [_body_limits_refuse] is an argument.  Log calls are left
    out. *)

From Stdlib Require Import ZArith Lia.
From stdpp Require Import base tactics numbers option strings sets list.
From S2P Require Import Prelude PyLib H2Frames.
Import H2Frames.

Module H2Recipient.

Definition _EVENT_CAP_MULTIPLIER : Z := 16.

(** A queue item: [(chunk, end_of_stream)] or the marker [_H2_DISCONNECT]. *)
Inductive item : Type :=
| Part (chunk : bytes) (end_stream : bool)
| _H2_DISCONNECT.

#[global] Instance item_eq_dec : EqDecision item.
Proof. solve_decision. Defined.

(** [_queue] is [None] until [_ensure_queue] makes it; an entry carries the
    credit it owes.  [_credit_cb] says whether there is a credit callback. *)
Record t : Type := mk {
  _queue : option (list (item * Z));
  _queue_depth : Z;
  _credit_cb : bool;
  _credit_budget : Z;
  _uncredited : Z;
  _end_of_stream_on_headers : bool;
  _initial_consumed : bool;
  _done : bool;
  _max_body : Z;
  _min_rate : Z;
  _min_rate_grace : Z;
  _body_seen : Z;
  _rate_window_start : option Z;
  _rate_window_seen : Z;
  _was_window_stalled : bool
}.

Definition __init__ (queue_depth : Z) (credit_callback : bool) (credit_budget max_body min_rate
    min_rate_grace : Z) : t :=
  mk None queue_depth credit_callback credit_budget 0 false false false max_body min_rate min_rate_grace
     0 None 0 false.

Definition set_queue (q : option (list (item * Z))) (u : Z) (r : t) : t :=
  mk q (_queue_depth r) (_credit_cb r) (_credit_budget r) u (_end_of_stream_on_headers r)
     (_initial_consumed r) (_done r) (_max_body r) (_min_rate r) (_min_rate_grace r) (_body_seen r)
     (_rate_window_start r) (_rate_window_seen r) (_was_window_stalled r).

Definition set_marks (eos consumed done : bool) (r : t) : t :=
  mk (_queue r) (_queue_depth r) (_credit_cb r) (_credit_budget r) (_uncredited r) eos consumed done
     (_max_body r) (_min_rate r) (_min_rate_grace r) (_body_seen r) (_rate_window_start r)
     (_rate_window_seen r) (_was_window_stalled r).

Definition set_rate (seen : Z) (start : option Z) (window_seen : Z) (stalled : bool) (r : t) : t :=
  mk (_queue r) (_queue_depth r) (_credit_cb r) (_credit_budget r) (_uncredited r)
     (_end_of_stream_on_headers r) (_initial_consumed r) (_done r) (_max_body r) (_min_rate r)
     (_min_rate_grace r) seen start window_seen stalled.

Definition set_done (r : t) : t := set_marks (_end_of_stream_on_headers r) (_initial_consumed r) true r.

(** [_ensure_queue()]: the items of the queue, empty when it is new. *)
Definition queue_of (r : t) : list (item * Z) := match _queue r with Some q => q | None => [] end.

(** [Queue.maxsize] as [_ensure_queue] sets it; 0 is unbounded. *)
Definition maxsize (r : t) : Z := if _credit_cb r then 0 else _queue_depth r.

(** [_ensure_queue().put_nowait((i, credit))]; [None] is [QueueFull]. *)
Definition put_nowait (i : item) (credit : Z) (r : t) : option t :=
  if (0 <? maxsize r) && (zlen (queue_of r) >=? maxsize r) then None
  else Some (set_queue (Some (queue_of r ++ [(i, credit)])) (_uncredited r) r).

(** The queue exists after a refused [put_nowait] too. *)
Definition ensured (r : t) : t := set_queue (Some (queue_of r)) (_uncredited r) r.

Definition mark_end_of_stream_on_headers (r : t) : t :=
  set_marks true (_initial_consumed r) (_done r) r.

Definition _body_limits_refuse (now nbytes : Z) (r : t) : bool * t :=
  let seen := _body_seen r + nbytes in
  let r := set_rate seen (_rate_window_start r) (_rate_window_seen r) (_was_window_stalled r) r in
  if negb (_max_body r =? 0) && (seen >? _max_body r) then (true, r)
  else if _min_rate r =? 0 then (false, r)
  else
    match _rate_window_start r with
    | None => (false, set_rate seen (Some now) nbytes (_was_window_stalled r) r)
    | Some start =>
        let window_seen := _rate_window_seen r + nbytes in
        let stalled := _was_window_stalled r
                       || (_credit_cb r && (_uncredited r + nbytes >=? _credit_budget r)) in
        let r := set_rate seen (Some start) window_seen stalled r in
        let elapsed := now - start in
        if elapsed >? _min_rate_grace r then
          if negb stalled && (window_seen <? _min_rate r * elapsed) then (true, r)
          else (false, set_rate seen (Some now) 0 stalled r)
        else (false, r)
    end.

Definition put_DATAFrame (now : Z) (b : base) (payload : bytes) (r : t) : bool * t :=
  let '(refuse, r) := _body_limits_refuse now (zlen payload) r in
  if refuse then (false, r)
  else
    let i := Part payload (flag END_STREAM (flags b)) in
    if _credit_cb r then
      let fc_len := length_ b in
      if _uncredited r + fc_len >? _credit_budget r then (false, r)
      else
        let r := ensured r in
        if zlen (queue_of r) >=? _queue_depth r * _EVENT_CAP_MULTIPLIER then (false, r)
        else (true, set_queue (Some (queue_of r ++ [(i, fc_len)])) (_uncredited r + fc_len) r)
    else
      match put_nowait i 0 r with
      | Some r => (true, r)
      | None => (false, ensured r)
      end.

Definition _put_item (i : item) (r : t) : bool * t :=
  match put_nowait i 0 r with
  | Some r => (true, r)
  | None => (false, ensured r)
  end.

Definition put_end_of_stream (r : t) : bool * t := _put_item (Part [] true) r.

Definition put_disconnect (r : t) : t :=
  if bool_decide (_queue r = None) && _end_of_stream_on_headers r && _initial_consumed r then r
  else (_put_item _H2_DISCONNECT r).2.

Definition take_uncredited (r : t) : Z * t := (_uncredited r, set_queue (_queue r) 0 r).

(** [_take]: the item and the increments given to the credit callback, or
    [None] when the reader has to wait, with the queue made by then. *)
Definition _take (r : t) : option (item * list Z) * t :=
  match queue_of r with
  | [] => (None, ensured r)
  | (i, credit) :: q =>
      let r := set_queue (Some q) (_uncredited r) r in
      if negb (credit =? 0) && _credit_cb r then
        let r := set_queue (Some q) (_uncredited r - credit) r in
        let r := if _was_window_stalled r && (_uncredited r <? _credit_budget r)
                 then set_rate (_body_seen r) None 0 false r else r in
        (Some (i, [credit]), r)
      else (Some (i, []), r)
  end.

(** What a call of the ASGI channel returns. *)
Inductive event : Type :=
| http_request (body : bytes) (more_body : bool)
| http_disconnect.

Definition __call__ (r : t) : option (event * list Z) * t :=
  if _end_of_stream_on_headers r && negb (_initial_consumed r) then
    (Some (http_request [] false, []), set_marks (_end_of_stream_on_headers r) true true r)
  else
    match _take r with
    | (None, r) => (None, r)
    | (Some (_H2_DISCONNECT, c), r) => (Some (http_disconnect, c), set_done r)
    | (Some (Part payload end_stream, c), r) =>
        (Some (http_request payload (negb end_stream), c), if end_stream then set_done r else r)
    end.

(** What the native channel returns: a chunk, [None], or [ClientDisconnected]. *)
Inductive chunk : Type :=
| Chunk (payload : bytes)
| EndOfBody
| ClientDisconnected.

Definition next_chunk (r : t) : option (chunk * list Z) * t :=
  if _end_of_stream_on_headers r && negb (_initial_consumed r) then
    (Some (EndOfBody, []), set_marks (_end_of_stream_on_headers r) true true r)
  else if _done r then (Some (EndOfBody, []), r)
  else
    match _take r with
    | (None, r) => (None, r)
    | (Some (_H2_DISCONNECT, c), r) => (Some (ClientDisconnected, c), set_done r)
    | (Some (Part payload end_stream, c), r) =>
        (Some (Chunk payload, c), if end_stream then set_done r else r)
    end.

(** ** A life of a recipient *)

(** The calls the frame loop and the application make, in any order; the
    release of the stream ([take_uncredited]) comes after all of them. *)
Inductive op : Type :=
| Put (now : Z) (b : base) (payload : bytes)
| PutEos
| PutDisconnect
| MarkEos
| Call
| NextChunk.

(** What a life shows outside: what was accepted into the queue, each with the
    flow-control octets the peer spent on it (a DATA frame's length; the end of
    the body and the disconnect cost nothing), the chunks handed to the
    application, and the increments replayed to the peer. *)
Record ledger : Type := mkLedger {
  entered : list (item * Z);
  delivered : list bytes;
  replays : list Z
}.

Definition entry (l1 l2 : ledger) : ledger :=
  mkLedger (entered l1 ++ entered l2) (delivered l1 ++ delivered l2) (replays l1 ++ replays l2).

Definition quiet : ledger := mkLedger [] [] [].

Definition total (l : list Z) : Z := foldr Z.add 0 l.

Definition event_body (e : event) : list bytes :=
  match e with http_request ((_ :: _) as body) _ => [body] | _ => [] end.

Definition chunk_body (c : chunk) : list bytes :=
  match c with Chunk ((_ :: _) as body) => [body] | _ => [] end.

Definition step (o : op) (r : t) : ledger * t :=
  match o with
  | Put now b payload =>
      let '(ok, r) := put_DATAFrame now b payload r in
      (mkLedger (if ok then [(Part payload (flag END_STREAM (flags b)), length_ b)] else []) [] [], r)
  | PutEos =>
      let '(ok, r) := put_end_of_stream r in
      (mkLedger (if ok then [(Part [] true, 0)] else []) [] [], r)
  | PutDisconnect =>
      let r' := put_disconnect r in
      (mkLedger (if decide (queue_of r' = queue_of r) then [] else [(_H2_DISCONNECT, 0)]) [] [], r')
  | MarkEos => (quiet, mark_end_of_stream_on_headers r)
  | Call =>
      match __call__ r with
      | (None, r) => (quiet, r)
      | (Some (e, c), r) => (mkLedger [] (event_body e) c, r)
      end
  | NextChunk =>
      match next_chunk r with
      | (None, r) => (quiet, r)
      | (Some (x, c), r) => (mkLedger [] (chunk_body x) c, r)
      end
  end.

Fixpoint life (os : list op) (r : t) : ledger * t :=
  match os with
  | [] => (quiet, r)
  | o :: os =>
      let '(l1, r) := step o r in
      let '(l2, r) := life os r in
      (entry l1 l2, r)
  end.

(** The chunks of some queue entries, and what the peer is owed for them. *)
Definition parts (q : list (item * Z)) : list bytes :=
  q ≫= (fun x => match x.1 with Part ((_ :: _) as p) _ => [p] | _ => [] end).

Definition owed (q : list (item * Z)) : list Z := filter (fun c => c <> 0) q.*2.

(** The state invariant, with a credit callback: the un-credited balance is the
    credit in the queue, within the budget; every entry owes what it carries. *)
Record ok (r : t) : Prop := mkOk {
  ok_cb : _credit_cb r = true;
  ok_credits : Forall (fun x => 0 <= x.2) (queue_of r);
  ok_uncredited : _uncredited r = total (queue_of r).*2;
  ok_budget : _uncredited r <= _credit_budget r;
  ok_seen : 0 <= _body_seen r
}.

(** A frame as [FrameFactory.load] makes it: the payload is part of what the
    peer spent. *)
Definition frame_ok (o : op) : Prop :=
  match o with Put _ b payload => zlen payload <= length_ b | _ => True end.

Arguments total : simpl never.
Arguments parts : simpl never.
Arguments owed : simpl never.

Lemma total_app l1 l2 : total (l1 ++ l2) = total l1 + total l2.
Proof. unfold total. induction l1 as [|x l1 IH]; simpl; lia. Qed.

Lemma total_nonneg l : Forall (fun x => 0 <= x) l -> 0 <= total l.
Proof. unfold total. induction 1; simpl; lia. Qed.

Lemma parts_app q1 q2 : parts (q1 ++ q2) = parts q1 ++ parts q2.
Proof. apply bind_app. Qed.

Lemma owed_app q1 q2 : owed (q1 ++ q2) = owed q1 ++ owed q2.
Proof. unfold owed. by rewrite fmap_app, filter_app. Qed.

(** Leaving out what is owed nothing changes no total. *)
Lemma total_owed q : total (owed q) = total q.*2.
Proof.
  unfold owed, total. induction q as [|[i c] q IH]; [done|]. rewrite fmap_cons, filter_cons. cbn [snd].
  destruct (decide (c <> 0)) as [?|H]; cbn [foldr]; rewrite IH; lia.
Qed.

Lemma total_queue_snoc (q : list (item * Z)) i c : total (q ++ [(i, c)]).*2 = total q.*2 + c.
Proof. rewrite fmap_app, total_app. unfold total at 2. simpl. lia. Qed.

(** What one call may do: the balance sheet of a step.  [taken] is what left the
    queue. *)
Record sheet (r : t) (l : ledger) (taken : list (item * Z)) (r' : t) : Prop := mkSheet {
  sh_ok : ok r';
  sh_budget : _credit_budget r' = _credit_budget r;
  sh_max : _max_body r' = _max_body r;
  sh_moved : queue_of r ++ entered l = taken ++ queue_of r';
  sh_delivered : delivered l = parts taken;
  sh_replayed : replays l = owed taken;
  sh_seen : _body_seen r + zlen (concat (parts (entered l))) <= _body_seen r';
  sh_cap : 0 < _max_body r -> forall n, n <= _body_seen r -> n <= _max_body r -> n + zlen (concat (parts (entered l))) <= _max_body r
}.

(** The fields a rate judgement leaves alone. *)
Lemma limits_refuse_spec now n r :
  let '(refuse, r') := _body_limits_refuse now n r in
  r' = set_rate (_body_seen r + n) (_rate_window_start r') (_rate_window_seen r') (_was_window_stalled r') r /\
  (refuse = false -> 0 < _max_body r -> _body_seen r + n <= _max_body r).
Proof.
  assert (Hcap : forall m, negb (_max_body r =? 0) && (m >? _max_body r) = false -> 0 < _max_body r -> m <= _max_body r).
  { intros m Hm Hpos. rewrite Z.gtb_ltb in Hm. destruct (Z.eqb_spec (_max_body r) 0); [lia|].
    destruct (Z.ltb_spec (_max_body r) m); simpl in *; [done|lia]. }
  unfold _body_limits_refuse; cbn [_max_body _min_rate _rate_window_start _min_rate_grace set_rate _credit_cb
    _uncredited _credit_budget _rate_window_seen _was_window_stalled].
  destruct (negb (_max_body r =? 0) && (_body_seen r + n >? _max_body r)) eqn:E; [by split|].
  specialize (Hcap _ E).
  repeat case_match; simplify_eq; split; auto.
Qed.

Lemma no_parts : zlen (concat (parts [])) = 0.
Proof. reflexivity. Qed.

(** An entry that costs nothing and carries nothing. *)
Lemma free_sheet i r r' :
  ok r -> queue_of r' = queue_of r ++ [(i, 0)] -> parts [(i, 0)] = [] -> _uncredited r' = _uncredited r -> _credit_cb r' = _credit_cb r ->
  _credit_budget r' = _credit_budget r -> _max_body r' = _max_body r -> _body_seen r' = _body_seen r ->
  sheet r (mkLedger [(i, 0)] [] []) [] r'.
Proof.
  intros [H1 H2 H3 H4 H5] Eq Ep Eu Ec Eb Em Es. constructor; rewrite ?Ep; cbn [entered concat]; try done.
  - constructor; rewrite ?Eq, ?Eu, ?Ec, ?Eb, ?Es; try done; [by apply Forall_app; split; [|apply Forall_singleton]|]. rewrite total_queue_snoc. lia.
  - rewrite Ep. change (zlen (concat [])) with 0. lia.
  - rewrite Ep. change (zlen (concat [])) with 0. intros; lia.
Qed.

Lemma quiet_sheet r r' :
  ok r -> queue_of r' = queue_of r -> _uncredited r' = _uncredited r -> _credit_cb r' = _credit_cb r ->
  _credit_budget r' = _credit_budget r -> _max_body r' = _max_body r -> _body_seen r <= _body_seen r' ->
  sheet r quiet [] r'.
Proof.
  intros [H1 H2 H3 H4 H5] Eq Eu Ec Eb Em Es. constructor; cbn; try done.
  - constructor; rewrite ?Eq, ?Eu, ?Ec, ?Eb; try done. lia.
  - by rewrite Eq, app_nil_r.
  - rewrite no_parts. lia.
  - rewrite no_parts. intros; lia.
Qed.

(** With a credit callback the queue is unbounded. *)
Lemma put_item_spec i r :
  ok r -> _put_item i r = (true, set_queue (Some (queue_of r ++ [(i, 0)])) (_uncredited r) r).
Proof. intros [H1 _ _ _ _]. unfold _put_item, put_nowait, maxsize. by rewrite H1. Qed.

Lemma put_data_sheet now b payload r :
  ok r -> zlen payload <= length_ b -> sheet r (step (Put now b payload) r).1 [] (step (Put now b payload) r).2.
Proof.
  intros Hok Hlen. pose proof (zlen_nonneg payload) as Hp. cbn [step]. unfold put_DATAFrame.
  pose proof (limits_refuse_spec now (zlen payload) r) as Hspec.
  destruct (_body_limits_refuse now (zlen payload) r) as [refuse r1]. destruct Hspec as [Hr1 Hmax].
  assert (Hquiet : forall r', queue_of r' = queue_of r -> _uncredited r' = _uncredited r ->
    _credit_cb r' = _credit_cb r -> _credit_budget r' = _credit_budget r -> _max_body r' = _max_body r ->
    _body_seen r' = _body_seen r1 -> sheet r quiet [] r').
  { intros. apply quiet_sheet; try done. rewrite Hr1 in *. cbn in *. lia. }
  assert (Hsame : queue_of r1 = queue_of r /\ _uncredited r1 = _uncredited r /\ _credit_cb r1 = _credit_cb r
    /\ _credit_budget r1 = _credit_budget r /\ _max_body r1 = _max_body r
    /\ _body_seen r1 = _body_seen r + zlen payload) by (by rewrite Hr1).
  destruct Hsame as (Eq & Eu & Ec & Eb & Em & Es). clear Hr1. destruct Hok as [H1 H2 H3 H4 H5]. rewrite H1 in Ec.
  destruct refuse; [by apply (Hquiet r1); congruence|]. specialize (Hmax eq_refl). rewrite Ec, Z.gtb_ltb.
  destruct (Z.ltb_spec (_credit_budget r1) (_uncredited r1 + length_ b)); [by apply (Hquiet r1); congruence|].
  destruct (zlen (queue_of (ensured r1)) >=? _); [by apply (Hquiet (ensured r1)); cbn; congruence|].
  set (i := Part payload _). change (queue_of (ensured r1)) with (queue_of r1). rewrite Eq.
  assert (Hparts : zlen (concat (parts [(i, length_ b)])) = zlen payload).
  { destruct payload as [|x p]; [done|]. change (zlen ((x :: p) ++ []) = zlen (x :: p)). by rewrite app_nil_r. }
  constructor; cbn [fst snd entered delivered replays]; rewrite ?Hparts; cbn; rewrite ?Eb, ?Em, ?Es; try done; try lia.
  - constructor; cbn; rewrite ?Eu, ?Eb, ?Es; try done; try lia.
    + apply Forall_app; split; [done|]. apply Forall_singleton. cbn. lia.
    + rewrite total_queue_snoc. lia.
Qed.

(** Popping an entry settles exactly its credit. *)
Lemma take_sheet r :
  ok r ->
  match _take r with
  | (None, r') => sheet r quiet [] r'
  | (Some (i, c), r') => exists cost, sheet r (mkLedger [] (parts [(i, cost)]) c) [(i, cost)] r'
  end.
Proof.
  intros Hok. unfold _take. destruct (queue_of r) as [|[i credit] q] eqn:Eq; [by apply quiet_sheet|].
  destruct Hok as [H1 H2 H3 H4 H5]. rewrite Eq in *. apply Forall_cons in H2 as [Hc Hq]. cbn in Hc.
  assert (Ht : total (((i, credit) :: q).*2) = credit + total q.*2) by done.
  assert (0 <= total q.*2) by (apply total_nonneg, Forall_fmap, Hq).
  assert (Hgoal : forall r', queue_of r' = q -> _uncredited r' = _uncredited r - credit ->
    _credit_cb r' = true -> _credit_budget r' = _credit_budget r -> _max_body r' = _max_body r ->
    _body_seen r' = _body_seen r -> sheet r (mkLedger [] (parts [(i, credit)]) (owed [(i, credit)])) [(i, credit)] r').
  { intros r' E1 E2 E3 E4 E5 E6. constructor; cbn [entered delivered replays app]; rewrite ?no_parts, ?E1, ?Eq, ?E4, ?E5, ?E6, ?app_nil_r; try done; try (intros; lia).
    constructor; rewrite ?E1, ?E2, ?E4, ?E6; try done; lia. }
  cbn [_credit_cb _uncredited set_queue]. cbn [set_queue _credit_cb]. rewrite H1, andb_true_r.
  destruct (Z.eqb_spec credit 0) as [->|Hnz]; cbn [negb]; [exists 0|exists credit].
  - apply Hgoal; try done. cbn. lia.
  - replace [credit] with (owed [(i, credit)]) by (unfold owed; rewrite fmap_cons, filter_cons_True by done; done).
    by apply Hgoal; case_match.
Qed.

(** Marking the end of the body changes nothing on the balance sheet. *)
Lemma sheet_marks r l q r' a b c : sheet r l q r' -> sheet r l q (set_marks a b c r').
Proof. intros [[] ]. constructor; [by constructor|done..]. Qed.

Lemma step_sheet o r :
  ok r -> frame_ok o -> exists taken, sheet r (step o r).1 taken (step o r).2.
Proof.
  intros Hok Hf. destruct o as [now b payload| | | | |]; cbn [step fst snd].
  - exists []. by apply put_data_sheet.
  - exists []. unfold put_end_of_stream. rewrite put_item_spec by done. by apply free_sheet.
  - exists []. unfold put_disconnect. destruct (bool_decide (_queue r = None) && _ && _); [rewrite decide_True by done; by apply quiet_sheet|].
    rewrite put_item_spec by done. cbn [snd fst queue_of set_queue _queue].
    rewrite decide_False by (intros E%(f_equal length); rewrite length_app in E; cbn in E; lia). by apply free_sheet.
  - exists []. by apply quiet_sheet.
  - unfold __call__. destruct (_end_of_stream_on_headers r && _); [exists []; by apply quiet_sheet|].
    pose proof (take_sheet r Hok) as Ht. destruct (_take r) as [[[i c]|] r']; [|by exists []].
    destruct Ht as [cost Ht]. exists [(i, cost)]. destruct i as [p e|]; [|by apply sheet_marks].
    replace (event_body (http_request p (negb e))) with (parts [(Part p e, cost)]) by by destruct p.
    by destruct e; [apply sheet_marks|].
  - unfold next_chunk. destruct (_end_of_stream_on_headers r && _); [exists []; by apply quiet_sheet|].
    destruct (_done r); [exists []; by apply quiet_sheet|].
    pose proof (take_sheet r Hok) as Ht. destruct (_take r) as [[[i c]|] r']; [|by exists []].
    destruct Ht as [cost Ht]. exists [(i, cost)]. destruct i as [p e|]; [|by apply sheet_marks].
    replace (chunk_body (Chunk p)) with (parts [(Part p e, cost)]) by by destruct p.
    by destruct e; [apply sheet_marks|].
Qed.

Lemma life_sheet os r :
  ok r -> Forall frame_ok os -> exists taken, sheet r (life os r).1 taken (life os r).2.
Proof.
  revert r. induction os as [|o os IH]; intros r Hok Hf; [exists []; by apply quiet_sheet|].
  apply Forall_cons in Hf as [Ho Hf]. destruct (step_sheet o r Hok Ho) as [t1 Hs]. cbn [life].
  destruct (step o r) as [l1 r1]. destruct Hs as [Hok1 A2 A3 A4 A5 A6 A7 A8]. cbn [fst snd] in *.
  destruct (IH r1 Hok1 Hf) as [t2 Hs2]. destruct (life os r1) as [l2 r2].
  destruct Hs2 as [Hok2 B2 B3 B4 B5 B6 B7 B8]. cbn [fst snd] in *. exists (t1 ++ t2).
  constructor; cbn [entry entered delivered replays]; rewrite ?parts_app, ?owed_app, ?concat_app, ?zlen_app; try congruence.
  - by rewrite app_assoc, A4, <- app_assoc, B4, app_assoc.
  - lia.
  - intros Hm n Hn1 Hn2. rewrite A3 in B8. specialize (A8 Hm n Hn1 Hn2).
    specialize (B8 Hm (n + zlen (concat (parts (entered l1))))). lia.
Qed.

(** C40: inbound flow control balances.  Through any life of a stream's
    recipient with a credit callback — frames, trailers, disconnects and reads in
    any order: of the entries accepted into the queue some have been taken, in
    order, and the rest is still queued; the chunks handed to the application are
    those of the taken entries; for each taken entry on which the peer spent
    window it has been replayed just that much, one increment per entry and
    nothing else; what it has outstanding, spent and not yet replayed, stays
    within the advertised budget and is what [take_uncredited] gives back on
    release; and, with a [max_body], no more octets than that are ever accepted. *)
Theorem inbound_conserved depth budget max_body min_rate grace os :
  0 <= budget -> Forall frame_ok os ->
  let '(l, r) := life os (__init__ depth true budget max_body min_rate grace) in
  let outstanding := total (entered l).*2 - total (replays l) in
  (exists taken, entered l = taken ++ queue_of r /\ delivered l = parts taken /\ replays l = owed taken) /\
  0 <= outstanding <= budget /\ (take_uncredited r).1 = outstanding /\
  (0 < max_body -> zlen (concat (parts (entered l))) <= max_body).
Proof.
  intros Hb Hf. destruct (life_sheet os (__init__ depth true budget max_body min_rate grace)) as [taken H]; [|done|].
  { by constructor. }
  destruct (life os _) as [l r]. destruct H as [[H1 H2 H3 H4 H5] A2 A3 A4 A5 A6 A7 A8]. cbn [fst snd] in *. cbn in A4.
  assert (0 <= total (queue_of r).*2) by (apply total_nonneg, Forall_fmap, H2).
  cbv zeta. rewrite A6, total_owed, A4, fmap_app, total_app. split; [by exists taken|]. split; [cbn in A2; lia|]. split; [cbn; lia|].
  rewrite <- A4. intros Hm. specialize (A8 Hm 0). cbn in A8. lia.
Qed.

Definition sample_life : list op :=
  [Put 0 (mkBase 3 0 1) [1; 2; 3]; NextChunk; Put 1 (mkBase 9 END_STREAM 1) [4; 5]; PutDisconnect].

Lemma sample_life_ledger :
  (life sample_life (__init__ 64 true 10 0 0 0)).1 =
    mkLedger [(Part [1; 2; 3] false, 3); (Part [4; 5] true, 9); (_H2_DISCONNECT, 0)] [[1; 2; 3]] [3].
Proof. vm_compute. reflexivity. Qed.

Lemma sample_life_ok : Forall frame_ok sample_life.
Proof. unfold sample_life. repeat apply Forall_cons_2; try apply Forall_nil_2; cbn; unfold zlen; cbn; lia. Qed.

Lemma inbound_conserved_witness :
  let '(l, r) := life sample_life (__init__ 64 true 10 0 0 0) in
  let outstanding := total (entered l).*2 - total (replays l) in
  (exists taken, entered l = taken ++ queue_of r /\ delivered l = parts taken /\ replays l = owed taken) /\
  0 <= outstanding <= 10 /\ (take_uncredited r).1 = outstanding /\
  (0 < 0 -> zlen (concat (parts (entered l))) <= 0).
Proof. apply (inbound_conserved 64 10 0 0 0 sample_life); [lia|exact sample_life_ok]. Defined.

End H2Recipient.
