(* ===== verification/H2Sender.v ===== *)
(** * The outbound side of HTTP/2 streams (blackbull/server/sender.py, HTTP2Sender)

    All stream senders of a connection share one connection window, one HPACK
    encoder and one transport.  A coroutine of a sender — the application's
    call of [__call__], or the auto-flush task — is a stack of instructions,
    one for each stretch of code that runs without an [await]; a step runs the
    top one.  Steps of different coroutines interleave freely, with window
    updates, SETTINGS, cancellations and a peer that goes away between them, so
    every [await] of a write may suspend, as [drain] does when the transport
    is paused.  A header block carries its place in the order in which the
    shared encoder produced the blocks.  Access-log bookkeeping, log calls and
    the push callback are left out. *)

From Stdlib Require Import ZArith Lia Sorted.
From stdpp Require Import base tactics numbers option strings sets list.
From S2P Require Import Prelude PyLib PyText H2Frames.
Import H2Frames.

Module H2Sender.

(** ** Frames on the wire *)

Inductive wframe : Type :=
| WHeaders (seq : Z) (status : option Z) (fields : list field) (end_stream : bool)
| WData (payload : bytes) (end_stream : bool)
| WRaw (f : frame).

(** ** Senders *)

(** What the application sends.  [SendNative] is a [NativeResponse]: status,
    header and [expects_trailers] when it has a header. *)
Inductive send_event : Type :=
| SendFrame (f : frame)
| SendBytes (body : bytes) (status : Z) (hs : list field)
| SendNative (header : option (Z * list field * bool)) (body : option bytes) (more_body : bool)
    (trailers : option (list field))
| ResponseStart (status : Z) (hs : list field) (trailers : bool)
| ResponseBody (body : bytes) (more_body : bool)
| ResponseTrailers (hs : list field)
| OtherEvent.

(** The stretches of code between two [await]s. *)
Inductive instr : Type :=
| Call (e : send_event)
| HandleBody (payload : bytes) (end_stream : bool)
| HandleTrailers (hs : list field)
| TrailersIfOpen (hs : list field)
| AutoFlush (token : Z) (body : bytes) (status : Z) (hs : list field) (expect : bool)
| DataStart (payload : bytes) (end_stream : bool)
| DataLoop (body : bytes) (offset : Z) (end_stream : bool)
| Debit (n : Z)
| Write (fs : list wframe)
| ClearStart
| ClearBody
| EndIf (end_stream : bool)
| SetEnd.

(** The slots of [HTTP2Sender]; a buffered body carries the identity of the
    chunk object.  [_tasks] holds the coroutines, the application's first. *)
Record sender : Type := mkSender {
  stream_window_size : Z;
  max_frame_size : Z;
  _closed : bool;
  _end_stream_sent : bool;
  _buffered_status : option Z;
  _buffered_headers : list field;
  _expect_trailers : bool;
  _buffered_body : option (Z * bytes);
  _next_token : Z;
  _tasks : list (list instr)
}.

Definition __init__ (initial_window : Z) : sender :=
  mkSender initial_window DEFAULT_MAX_FRAME_SIZE false false None [] false None 0 [[]].

Definition set_window (w : Z) (s : sender) : sender :=
  mkSender w (max_frame_size s) (_closed s) (_end_stream_sent s) (_buffered_status s) (_buffered_headers s)
    (_expect_trailers s) (_buffered_body s) (_next_token s) (_tasks s).

Definition set_ended (s : sender) : sender :=
  mkSender (stream_window_size s) (max_frame_size s) (_closed s) true (_buffered_status s) (_buffered_headers s)
    (_expect_trailers s) (_buffered_body s) (_next_token s) (_tasks s).

Definition set_start (status : option Z) (hs : list field) (s : sender) : sender :=
  mkSender (stream_window_size s) (max_frame_size s) (_closed s) (_end_stream_sent s) status hs
    (_expect_trailers s) (_buffered_body s) (_next_token s) (_tasks s).

Definition set_expect (expect : bool) (s : sender) : sender :=
  mkSender (stream_window_size s) (max_frame_size s) (_closed s) (_end_stream_sent s) (_buffered_status s)
    (_buffered_headers s) expect (_buffered_body s) (_next_token s) (_tasks s).

Definition set_body (b : option (Z * bytes)) (token : Z) (s : sender) : sender :=
  mkSender (stream_window_size s) (max_frame_size s) (_closed s) (_end_stream_sent s) (_buffered_status s)
    (_buffered_headers s) (_expect_trailers s) b token (_tasks s).

Definition set_tasks (l : list (list instr)) (s : sender) : sender :=
  mkSender (stream_window_size s) (max_frame_size s) (_closed s) (_end_stream_sent s) (_buffered_status s)
    (_buffered_headers s) (_expect_trailers s) (_buffered_body s) (_next_token s) l.

Definition set_closed (s : sender) : sender :=
  mkSender (stream_window_size s) (max_frame_size s) true (_end_stream_sent s) (_buffered_status s)
    (_buffered_headers s) (_expect_trailers s) (_buffered_body s) (_next_token s) (_tasks s).

Definition set_max_frame (n : Z) (s : sender) : sender :=
  mkSender (stream_window_size s) n (_closed s) (_end_stream_sent s) (_buffered_status s)
    (_buffered_headers s) (_expect_trailers s) (_buffered_body s) (_next_token s) (_tasks s).

(** ** What one stretch of code does *)

(** The shared state it sees, the frames it writes, the rest of its coroutine
    and the tasks it spawns. *)
Record act : Type := mkAct {
  a_conn : Z;
  a_enc : Z;
  a_sender : sender;
  a_out : list wframe;
  a_next : list instr;
  a_spawn : list (list instr)
}.

Section Sender.
(** The value of [_http_date()]. *)
Context (http_date : bytes).

Definition _has_header (hs : list field) (name : bytes) : bool :=
  existsb (fun x => bool_decide (lower x.1 = lower name)) hs.

(** The frame of [build_response_headers] and of [build_trailers]; [enc] is
    the number of blocks the encoder has produced. *)
Definition build_response_headers (enc status : Z) (hs : list field) (end_stream : bool) : wframe :=
  WHeaders enc (Some status)
    (if _has_header hs (lit "date") then hs else hs ++ [(lit "date", http_date)]) end_stream.

Definition build_trailers (enc : Z) (hs : list field) : wframe := WHeaders enc None hs true.

Definition fits (conn : Z) (s : sender) (n : Z) : bool :=
  (n <=? conn) && (n <=? stream_window_size s) && (n <=? max_frame_size s).

Definition done (conn enc : Z) (s : sender) : act := mkAct conn enc s [] [] [].
Definition continue (conn enc : Z) (s : sender) (next : list instr) : act := mkAct conn enc s [] next [].

(** [_write_response_start_and_body], and what follows it. *)
Definition _write_response_start_and_body (conn enc : Z) (s : sender) (body : bytes) (end_stream : bool)
    (status : Z) (hs : list field) (expect_trailers : bool) (k : list instr) : act :=
  let h := build_response_headers enc status hs false in
  let set_end_stream := end_stream && negb expect_trailers in
  let k := (if set_end_stream then [SetEnd] else []) ++ k in
  if fits conn s (zlen body)
  then mkAct conn (enc + 1) s [h; WData body set_end_stream] (Debit (zlen body) :: k) []
  else mkAct conn (enc + 1) s [h] (DataLoop body 0 set_end_stream :: k) [].

(** [_handle_body_content] up to its first [await]. *)
Definition _handle_body_content (conn enc : Z) (s : sender) (payload : bytes) (end_stream : bool) : act :=
  match _buffered_status s with
  | Some status =>
      if _expect_trailers s && negb end_stream && bool_decide (_buffered_body s = None)
         && (0 <? zlen payload) && fits conn s (zlen payload) then
        let token := _next_token s in
        mkAct conn enc (set_body (Some (token, payload)) (token + 1) s) [] [EndIf end_stream]
          [[AutoFlush token payload status (_buffered_headers s) (_expect_trailers s)]]
      else
        match _buffered_body s with
        | Some (_, body) =>
            _write_response_start_and_body conn enc s body false status (_buffered_headers s)
              (_expect_trailers s) [ClearStart; ClearBody; DataStart payload end_stream; EndIf end_stream]
        | None =>
            _write_response_start_and_body conn enc s payload end_stream status (_buffered_headers s)
              (_expect_trailers s) [ClearStart; EndIf end_stream]
        end
  | None => continue conn enc s [DataStart payload end_stream; EndIf end_stream]
  end.

(** [_handle_trailers]: both header blocks are encoded before the first write. *)
Definition _handle_trailers (conn enc : Z) (s : sender) (hs : list field) : act :=
  match _buffered_status s with
  | Some status =>
      let h := build_response_headers enc status (_buffered_headers s) false in
      let t := build_trailers (enc + 1) hs in
      match _buffered_body s with
      | Some (_, body) =>
          if (zlen body <=? conn) && (zlen body <=? stream_window_size s)
          then mkAct conn (enc + 2) s [h; WData body false; t] [Debit (zlen body); ClearBody; ClearStart; SetEnd] []
          else mkAct conn (enc + 2) s [h] [DataLoop body 0 false; Write [t]; ClearBody; ClearStart; SetEnd] []
      | None => mkAct conn (enc + 2) s [h; t] [ClearStart; SetEnd] []
      end
  | None => mkAct conn (enc + 1) s [build_trailers enc hs] [SetEnd] []
  end.

(** [__call__] up to its first [await]. *)
Definition __call__ (conn enc : Z) (s : sender) (e : send_event) : act :=
  match e with
  | SendFrame f => mkAct conn enc s [WRaw f] [] []
  | SendBytes body status hs =>
      if _end_stream_sent s then done conn enc s
      else
        let h := build_response_headers enc status hs false in
        if fits conn s (zlen body)
        then mkAct conn (enc + 1) s [h; WData body true] [Debit (zlen body); SetEnd] []
        else mkAct conn (enc + 1) s [h] [DataLoop body 0 true; SetEnd] []
  | SendNative header body more_body trailers =>
      if _end_stream_sent s then done conn enc s
      else
        let s := match header with
                 | Some (status, hs, expects) => set_expect expects (set_start (Some status) hs s)
                 | None => s
                 end in
        continue conn enc s
          (match body with Some b => [HandleBody b (negb more_body)] | None => [] end ++
           match trailers with Some hs => [TrailersIfOpen hs] | None => [] end)
  | ResponseStart status hs trailers =>
      if _end_stream_sent s then done conn enc s
      else done conn enc (set_expect trailers (set_start (Some status) hs s))
  | ResponseBody body more_body =>
      if _end_stream_sent s then done conn enc s else continue conn enc s [HandleBody body (negb more_body)]
  | ResponseTrailers hs =>
      if _end_stream_sent s then done conn enc s else continue conn enc s [HandleTrailers hs]
  | OtherEvent => done conn enc s
  end.

(** One turn of the loop of [_write_data]: [None] waits for the window. *)
Definition _write_data (conn enc : Z) (s : sender) (body : bytes) (offset : Z) (end_stream : bool) : option act :=
  let total := zlen body in
  if total =? 0 then Some (mkAct conn enc s [WData [] end_stream] [] [])
  else if offset >=? total then Some (done conn enc s)
  else if (conn <=? 0) || (stream_window_size s <=? 0) then None
  else
    let chunk_size := Z.min (Z.min conn (stream_window_size s)) (Z.min (max_frame_size s) (total - offset)) in
    let is_last := offset + chunk_size >=? total in
    Some (mkAct conn enc s [WData (slice body offset (offset + chunk_size)) (is_last && end_stream)]
            [Debit chunk_size; DataLoop body (offset + chunk_size) end_stream] []).

Definition exec (conn enc : Z) (s : sender) (i : instr) : option act :=
  match i with
  | Call e => Some (__call__ conn enc s e)
  | HandleBody payload end_stream => Some (_handle_body_content conn enc s payload end_stream)
  | HandleTrailers hs => Some (_handle_trailers conn enc s hs)
  | TrailersIfOpen hs =>
      Some (if _end_stream_sent s then done conn enc s else continue conn enc s [HandleTrailers hs])
  | AutoFlush token body status hs expect =>
      match _buffered_body s with
      | Some (token', _) =>
          if token' =? token
          then Some (_write_response_start_and_body conn enc
                       (set_start None [] (set_body None (_next_token s) s)) body false status hs expect [])
          else Some (done conn enc s)
      | None => Some (done conn enc s)
      end
  | DataStart payload end_stream =>
      Some (continue conn enc s [DataLoop payload 0 (end_stream && negb (_expect_trailers s))])
  | DataLoop body offset end_stream => _write_data conn enc s body offset end_stream
  | Debit n => Some (done (conn - n) enc (set_window (stream_window_size s - n) s))
  | Write fs => Some (mkAct conn enc s fs [] [])
  | ClearStart => Some (done conn enc (set_start None [] s))
  | ClearBody => Some (done conn enc (set_body None (_next_token s) s))
  | EndIf end_stream =>
      Some (done conn enc (if end_stream && negb (_expect_trailers s) then set_ended s else s))
  | SetEnd => Some (done conn enc (set_ended s))
  end.

(** ** The connection *)

Record net : Type := mkNet {
  conn_window : Z;
  encoded : Z;
  senders : dict Z sender;
  wire : list (Z * wframe)
}.

(** What can happen: a call by the application, a coroutine's step, the
    timeout of its wait for the window ([FlowControlStalled]), its
    cancellation at any [await], and what the frame loop does to the windows. *)
Inductive happening : Type :=
| Open (sid window : Z)
| Send (sid : Z) (e : send_event)
| Step (sid : Z) (k : nat)
| Stall (sid : Z) (k : nat)
| Cancel (sid : Z) (k : nat)
| WindowUpdateConn (n : Z)
| WindowUpdateStream (sid n : Z)
| AdjustInitial (delta : Z)
| ApplyMaxFrame (n : Z)
| PeerGone (sid : Z).

Definition with_sender (sid : Z) (f : sender -> sender) (n : net) : net :=
  match dget (senders n) sid with
  | Some s => mkNet (conn_window n) (encoded n) (dset (senders n) sid (f s)) (wire n)
  | None => n
  end.

Definition each_sender (f : sender -> sender) (n : net) : net :=
  mkNet (conn_window n) (encoded n) ((fun x => (x.1, f x.2)) <$> senders n) (wire n).

(** A step of coroutine [k]; [_guarded_write] drops the frames of a closed
    sender. *)
Definition resume (sid : Z) (k : nat) (n : net) : net :=
  match dget (senders n) sid with
  | None => n
  | Some s =>
      match _tasks s !! k with
      | Some (i :: rest) =>
          match exec (conn_window n) (encoded n) s i with
          | None => n
          | Some a =>
              let tasks := <[k := a_next a ++ rest]> (_tasks s) ++ a_spawn a in
              mkNet (a_conn a) (a_enc a) (dset (senders n) sid (set_tasks tasks (a_sender a)))
                (wire n ++ (if _closed s then [] else (fun f => (sid, f)) <$> a_out a))
          end
      | _ => n
      end
  end.

Definition happen (n : net) (h : happening) : net :=
  match h with
  | Open sid window =>
      if dmem (senders n) sid then n
      else mkNet (conn_window n) (encoded n) (dset (senders n) sid (__init__ window)) (wire n)
  | Send sid e =>
      with_sender sid (fun s =>
        match _tasks s with [] :: ts => set_tasks ([Call e] :: ts) s | _ => s end) n
  | Step sid k => resume sid k n
  | Stall sid k =>
      with_sender sid (fun s =>
        match _tasks s !! k with
        | Some (DataLoop body offset end_stream :: _) =>
            match _write_data (conn_window n) (encoded n) s body offset end_stream with
            | None => set_tasks (<[k := []]> (_tasks s)) s
            | Some _ => s
            end
        | _ => s
        end) n
  | Cancel sid k => with_sender sid (fun s => set_tasks (<[k := []]> (_tasks s)) s) n
  | WindowUpdateConn k => mkNet (conn_window n + k) (encoded n) (senders n) (wire n)
  | WindowUpdateStream sid k => with_sender sid (fun s => set_window (stream_window_size s + k) s) n
  | AdjustInitial delta => each_sender (fun s => set_window (stream_window_size s + delta) s) n
  | ApplyMaxFrame k => each_sender (set_max_frame k) n
  | PeerGone sid => with_sender sid set_closed n
  end.

Definition run (hs : list happening) (n : net) : net := foldl happen n hs.

Definition start (window : Z) : net := mkNet window 0 [] [].

End Sender.

(** ** Accounting *)

(** Octets of DATA in a list of frames. *)
Definition data (fs : list wframe) : Z :=
  foldr (fun f acc => match f with WData p _ => zlen p + acc | _ => acc end) 0 fs.

(** Octets handed to the transport by a write that has not returned: the
    windows are debited after it. *)
Definition pending (l : list instr) : Z :=
  foldr (fun i acc => match i with Debit n => n + acc | _ => acc end) 0 l.

Definition pending_tasks (ts : list (list instr)) : Z := foldr (fun l acc => pending l + acc) 0 ts.

Definition pending_all (ss : dict Z sender) : Z := foldr (fun x acc => pending_tasks (_tasks x.2) + acc) 0 ss.

(** The frames of one stream, and all octets of DATA sent. *)
Definition wire_of (sid : Z) (w : list (Z * wframe)) : list wframe := (filter (fun x => x.1 = sid) w).*2.
Definition sent (w : list (Z * wframe)) : Z := data w.*2.
Arguments sent : simpl never.
Arguments pending_all : simpl never.

(** The credit the peer has given: to the connection, and to a stream. *)
Fixpoint conn_credit (hs : list happening) : Z :=
  match hs with
  | [] => 0
  | WindowUpdateConn k :: hs => k + conn_credit hs
  | _ :: hs => conn_credit hs
  end.

Definition ends (f : wframe) : bool :=
  match f with WHeaders _ _ _ e => e | WData _ e => e | WRaw _ => false end.

Definition seq_of (f : wframe) : list Z := match f with WHeaders q _ _ _ => [q] | _ => [] end.

(** ** What suspended writes break *)

Definition body (n : nat) (b : Z) : bytes := replicate n b.
Definition quiet_start (w : Z) : net := start w.

(** Two streams write while the transport is paused: both see the window of
    100 and 160 octets leave. *)
Lemma connection_window_overdrawn :
  let n := run [] [Open 1 65535; Open 3 65535; Send 1 (SendBytes (body 80 0) 200 []); Step 1 0;
                   Send 3 (SendBytes (body 80 0) 200 []); Step 3 0] (start 100) in
  sent (wire n) = 160.
Proof. vm_compute. reflexivity. Qed.

(** The auto-flush task runs while the coalesced write of the trailers is
    suspended: the response goes out a second time, after END_STREAM. *)
Lemma flush_repeats_response :
  let n := run [] [Open 1 65535; Send 1 (ResponseStart 200 [] true); Step 1 0;
                   Send 1 (ResponseBody [7] true); Step 1 0; Step 1 0; Step 1 0;
                   Send 1 (ResponseTrailers []); Step 1 0; Step 1 0; Step 1 1] (start 65535) in
  ends <$> wire_of 1 (wire n) = [false; false; true; false; false].
Proof. vm_compute. reflexivity. Qed.

(** A trailer block is encoded before the wait for the window and written
    after it: another stream's block overtakes it on the wire. *)
Lemma trailers_overtaken :
  let n := run [] [Open 1 65535; Open 3 65535; Send 1 (ResponseStart 200 [] true); Step 1 0;
                   Send 1 (ResponseBody [1; 2; 3] true); Step 1 0; Step 1 0; Step 1 0;
                   AdjustInitial (-65535); Send 1 (ResponseTrailers []); Step 1 0; Step 1 0;
                   Send 3 (SendBytes [] 200 []); Step 3 0; WindowUpdateStream 1 10;
                   Step 1 0; Step 1 0; Step 1 0; Step 1 0] (start 65535) in
  (wire n).*2 ≫= seq_of = [0; 2; 1].
Proof. vm_compute. reflexivity. Qed.

(** A write cancelled before it returns is never debited. *)
Lemma cancelled_write_not_debited :
  let n := run [] [Open 1 65535; Send 1 (SendBytes (body 80 0) 200 []); Step 1 0; Cancel 1 0] (start 100) in
  sent (wire n) = 80 /\ conn_window n = 100.
Proof. vm_compute. done. Qed.

(** ** Accounting lemmas *)

Lemma data_app fs1 fs2 : data (fs1 ++ fs2) = data fs1 + data fs2.
Proof. induction fs1 as [|f fs1 IH]; simpl; [done|]. destruct f; lia. Qed.

Lemma sent_app w1 w2 : sent (w1 ++ w2) = sent w1 + sent w2.
Proof. unfold sent. by rewrite fmap_app, data_app. Qed.

Lemma sent_tag sid fs : sent ((fun f => (sid, f)) <$> fs) = data fs.
Proof. unfold sent. rewrite <- list_fmap_compose. f_equal. apply list_fmap_id. Qed.

Lemma data_nonneg fs : 0 <= data fs.
Proof. induction fs as [|f fs IH]; simpl; [done|]. destruct f; try done. pose proof (zlen_nonneg payload). lia. Qed.

Lemma pending_app l1 l2 : pending (l1 ++ l2) = pending l1 + pending l2.
Proof. induction l1 as [|i l1 IH]; simpl; [done|]. destruct i; lia. Qed.

Lemma pending_tasks_app t1 t2 : pending_tasks (t1 ++ t2) = pending_tasks t1 + pending_tasks t2.
Proof. induction t1 as [|l t1 IH]; simpl; lia. Qed.

Lemma pending_tasks_insert ts k l l' :
  ts !! k = Some l -> pending_tasks (<[k := l']> ts) = pending_tasks ts - pending l + pending l'.
Proof. revert k. induction ts as [|x ts IH]; intros [|k] H; simplify_eq/=; [lia|]. rewrite IH by done. lia. Qed.

Lemma pending_all_dset (ss : dict Z sender) sid s s' :
  dget ss sid = Some s -> pending_all (dset ss sid s') = pending_all ss - pending_tasks (_tasks s) + pending_tasks (_tasks s').
Proof.
  unfold pending_all. induction ss as [|[k x] ss IH]; simpl; [done|]. case_decide; intros H1; simplify_eq/=; [lia|].
  rewrite IH by done. lia.
Qed.

Lemma pending_all_fresh (ss : dict Z sender) sid s' :
  dget ss sid = None -> pending_all (dset ss sid s') = pending_all ss + pending_tasks (_tasks s').
Proof. unfold pending_all. induction ss as [|[k x] ss IH]; simpl; [lia|]. case_decide; intros; [done|]. simpl. rewrite IH by done. lia. Qed.

(** Instructions below the top of a stack owe no debit, and no instruction
    writes DATA without one. *)
Definition resting (i : instr) : Prop :=
  match i with Debit _ => False | Write fs => data fs = 0 | DataLoop _ offset _ => 0 <= offset | _ => True end.

Definition stack_ok (l : list instr) : Prop :=
  match l with
  | Debit n :: rest => 0 <= n /\ Forall resting rest
  | _ => Forall resting l
  end.

Lemma resting_pending l : Forall resting l -> pending l = 0.
Proof. induction 1 as [|i l Hi Hl IH]; simpl; [done|]. by destruct i. Qed.

Lemma resting_stack l : Forall resting l -> stack_ok l.
Proof. intros H. destruct l as [|i l]; [done|]. apply Forall_cons in H as [Hi Hl]. destruct i; try done; by constructor. Qed.

Lemma stack_ok_tail i l : stack_ok (i :: l) -> Forall resting l.
Proof. destruct i; simpl; intros H; try (by apply Forall_cons in H as [_ ?]). apply H. Qed.

Lemma stack_ok_app l1 l2 : stack_ok l1 -> Forall resting l2 -> stack_ok (l1 ++ l2).
Proof.
  intros H1 H2. destruct l1 as [|i l1]; simpl app; [by apply resting_stack|].
  pose proof (stack_ok_tail _ _ H1) as Ht. destruct i; simpl in *;
    try (apply Forall_cons in H1 as [Hi _]; by apply Forall_cons, conj, Forall_app).
  split; [apply H1|]. by apply Forall_app.
Qed.

Lemma stack_ok_pending l : stack_ok l -> 0 <= pending l.
Proof.
  destruct l as [|i l]; simpl; [done|]. intros H. pose proof (stack_ok_tail _ _ H) as Ht.
  apply resting_pending in Ht. destruct i; simpl in *; lia.
Qed.

(** What a stretch of code may do to the accounts. *)
Record accounted (conn : Z) (s : sender) (i : instr) (a : act) : Prop := {
  acc_conn : a_conn a - pending (a_next a) + data (a_out a) = conn - pending [i];
  acc_stream : stream_window_size (a_sender a) - pending (a_next a) + data (a_out a)
                 = stream_window_size s - pending [i];
  acc_bound : data (a_out a) = 0 \/ data (a_out a) <= conn /\ data (a_out a) <= stream_window_size s;
  acc_next : stack_ok (a_next a);
  acc_spawn : Forall (Forall resting) (a_spawn a);
  acc_tasks : _tasks (a_sender a) = _tasks s;
  acc_closed : _closed (a_sender a) = _closed s
}.

Ltac stack := repeat first [apply Forall_nil_2 | apply Forall_cons_2]; cbn [resting]; try first [exact I | lia].

Lemma start_and_body_accounted date conn enc s b e status hs x k s' :
  stream_window_size s' = stream_window_size s -> _tasks s' = _tasks s -> _closed s' = _closed s ->
  Forall resting k -> max_frame_size s' = max_frame_size s ->
  forall i, pending [i] = 0 ->
  accounted conn s i (_write_response_start_and_body date conn enc s' b e status hs x k).
Proof.
  intros Hw Ht Hc Hk Hm i Hi. unfold _write_response_start_and_body, fits. pose proof (zlen_nonneg b).
  assert (Hk' : Forall resting ((if e && negb x then [SetEnd] else []) ++ k)).
  { apply Forall_app; split; [|done]. case_match; stack. }
  pose proof (resting_pending _ Hk') as Hp.
  destruct (Z.leb_spec (zlen b) conn), (Z.leb_spec (zlen b) (stream_window_size s')),
    (Z.leb_spec (zlen b) (max_frame_size s')); cbn [andb]; constructor; cbn [a_conn a_next a_out a_sender a_spawn];
    try done; cbn [data foldr pending]; fold (pending ((if e && negb x then [SetEnd] else []) ++ k)).
  all: try (by split); try (by apply (Forall_cons_2 resting)); unfold pending in *; cbn in *; lia.
Qed.

(** Code that writes no DATA and owes nothing afterwards. *)
Lemma plain_accounted conn enc' s s' i out next spawn :
  pending [i] = 0 -> data out = 0 -> Forall resting next -> Forall (Forall resting) spawn ->
  stream_window_size s' = stream_window_size s -> _tasks s' = _tasks s -> _closed s' = _closed s ->
  accounted conn s i (mkAct conn enc' s' out next spawn).
Proof.
  intros Hi Ho Hn Hs Hw Ht Hc. pose proof (resting_pending _ Hn) as Hp.
  constructor; cbn [a_conn a_next a_out a_sender a_spawn]; rewrite ?Hw, ?Hp, ?Ho, ?Hi; auto using resting_stack; lia.
Qed.

Lemma trailers_accounted date conn enc s hs :
  accounted conn s (HandleTrailers hs) (_handle_trailers date conn enc s hs).
Proof.
  unfold _handle_trailers. destruct (_buffered_status s); [|apply (plain_accounted conn); by try stack].
  destruct (_buffered_body s) as [[t b]|]; [|apply (plain_accounted conn); by try stack].
  pose proof (zlen_nonneg b).
  destruct (Z.leb_spec (zlen b) conn), (Z.leb_spec (zlen b) (stream_window_size s)); cbn [andb];
    try (apply (plain_accounted conn); by try stack).
  constructor; cbn; try lia; try done. split; [done|]. stack.
Qed.

Lemma body_accounted date conn enc s p e :
  accounted conn s (HandleBody p e) (_handle_body_content date conn enc s p e).
Proof.
  unfold _handle_body_content. destruct (_buffered_status s) as [status|];
    [|apply (plain_accounted conn); by try stack].
  destruct (_ && fits conn s (zlen p)); [apply (plain_accounted conn); by repeat stack|].
  destruct (_buffered_body s) as [[t b]|]; apply start_and_body_accounted; by try stack.
Qed.

Lemma call_accounted date conn enc s e :
  accounted conn s (Call e) (__call__ date conn enc s e).
Proof.
  destruct e as [f|b status hs|header b more tr| | | |]; cbn [__call__].
  - apply (plain_accounted conn); by try stack.
  - destruct (_end_stream_sent s); [apply (plain_accounted conn); by try stack|].
    pose proof (start_and_body_accounted date conn enc s b true status hs false [] s eq_refl eq_refl eq_refl
      (Forall_nil_2 _) eq_refl (Call (SendBytes b status hs)) eq_refl) as H.
    unfold _write_response_start_and_body in H. cbn in H. exact H.
  - destruct (_end_stream_sent s); [apply (plain_accounted conn); by try stack|].
    assert (Hn : Forall resting (match b with Some b => [HandleBody b (negb more)] | None => [] end ++
           match tr with Some hs => [TrailersIfOpen hs] | None => [] end)) by (destruct b, tr; stack).
    apply (plain_accounted conn); try done; by destruct header as [[[? ?] ?]|].
  - destruct (_end_stream_sent s); apply (plain_accounted conn); by try stack.
  - destruct (_end_stream_sent s); apply (plain_accounted conn); by try stack.
  - destruct (_end_stream_sent s); apply (plain_accounted conn); by try stack.
  - apply (plain_accounted conn); by try stack.
Qed.

Lemma slice_data (b : bytes) o n : 0 <= o -> 0 <= n -> o + n <= zlen b -> data [WData (slice b o (o + n)) false] = n.
Proof. intros. cbn. rewrite zlen_slice by lia. lia. Qed.

Lemma write_data_accounted conn enc s b o e a :
  0 <= o -> 0 < max_frame_size s ->
  _write_data conn enc s b o e = Some a -> accounted conn s (DataLoop b o e) a.
Proof.
  intros Ho Hm. unfold _write_data. destruct (Z.eqb_spec (zlen b) 0).
  { intros [= <-]. apply (plain_accounted conn); by try stack. }
  rewrite Z.geb_leb. destruct (Z.leb_spec (zlen b) o).
  { intros [= <-]. apply (plain_accounted conn); by try stack. }
  destruct (Z.leb_spec conn 0), (Z.leb_spec (stream_window_size s) 0); cbn [orb]; try done.
  set (c := Z.min (Z.min conn _) _). assert (Hn : 0 < c) by (unfold c; lia).
  assert (Hn' : o + c <= zlen b) by (unfold c; lia).
  assert (Hc : c <= conn /\ c <= stream_window_size s) by (unfold c; lia). clearbody c.
  intros [= <-]. pose proof (slice_data b o c Ho) as Hd. cbn in Hd.
  constructor; cbn; try lia; try done. split; [lia|]. stack.
Qed.

Lemma exec_accounted date conn enc s i a :
  stack_ok [i] -> 0 < max_frame_size s -> exec date conn enc s i = Some a -> accounted conn s i a.
Proof.
  intros Hi Hm. destruct i as [e|p e|hs|hs|tok b st hs x|p e|b o e|n|fs| | |e|]; cbn [exec].
  - intros [= <-]. apply call_accounted.
  - intros [= <-]. apply body_accounted.
  - intros [= <-]. apply trailers_accounted.
  - intros [= <-]. destruct (_end_stream_sent s); apply (plain_accounted conn); by try stack.
  - destruct (_buffered_body s) as [[tok' b']|]; [|intros [= <-]; apply (plain_accounted conn); by try stack].
    destruct (tok' =? tok); intros [= <-]; [|apply (plain_accounted conn); by try stack].
    apply start_and_body_accounted; by try stack.
  - intros [= <-]. apply (plain_accounted conn); by try stack.
  - apply write_data_accounted; [|done]. by apply Forall_cons in Hi as [? _].
  - intros [= <-]. destruct Hi as [Hn _]. by constructor; cbn; try lia.
  - intros [= <-]. apply (plain_accounted conn); try stack; try done. by apply Forall_cons in Hi as [? _].
  - intros [= <-]. apply (plain_accounted conn); by try stack.
  - intros [= <-]. apply (plain_accounted conn); by try stack.
  - intros [= <-]. apply (plain_accounted conn); try stack; by try case_match.
  - intros [= <-]. apply (plain_accounted conn); by try stack.
Qed.

Lemma exec_max_frame date conn enc s i a :
  exec date conn enc s i = Some a -> max_frame_size (a_sender a) = max_frame_size s.
Proof.
  destruct i as [e|p e|hs|hs|tok b st hs x|p e|b o e|n|fs| | |e|]; cbn [exec]; try (intros [= <-]).
  all: try (unfold __call__; repeat case_match; simplify_eq; done).
  all: try (unfold _handle_body_content, _handle_trailers, _write_response_start_and_body, _write_data;
            repeat case_match; intros; simplify_eq; done).
Qed.

(** ** The connection window *)

Definition sender_ok (s : sender) : Prop := 0 < max_frame_size s /\ Forall stack_ok (_tasks s).

Definition net_ok (w : Z) (hs : list happening) (n : net) : Prop :=
  Forall (fun x => sender_ok x.2) (senders n) /\
  conn_window n <= w + conn_credit hs - sent (wire n) + pending_all (senders n).

(** No coroutine is cancelled between a write and its debit; SETTINGS that
    passed validation. *)
Definition uncancelled (h : happening) : Prop :=
  match h with Cancel _ _ => False | ApplyMaxFrame k => 0 < k | _ => True end.

Lemma conn_credit_app h1 h2 : conn_credit (h1 ++ h2) = conn_credit h1 + conn_credit h2.
Proof. induction h1 as [|h h1 IH]; simpl; [done|]. destruct h; lia. Qed.

Lemma Forall_dget {A} (P : Z * A -> Prop) (d : dict Z A) k v : Forall P d -> dget d k = Some v -> P (k, v).
Proof. intros H Hd. rewrite Forall_forall in H. by apply H, dget_elem. Qed.

Lemma pending_all_nonneg ss : Forall (fun x => sender_ok x.2) ss -> 0 <= pending_all ss.
Proof.
  unfold pending_all. induction 1 as [|[k s] ss [_ Hs] Hss IH]; simpl; [done|]. cbn in Hs.
  assert (0 <= pending_tasks (_tasks s)); [|lia]. clear -Hs.
  induction Hs as [|l ts Hl Hts IH]; simpl; [done|]. apply stack_ok_pending in Hl. lia.
Qed.

(** A step keeps the accounts and every stack in order. *)
Lemma resume_ok date w hs sid k n :
  net_ok w hs n ->
  net_ok w hs (resume date sid k n) /\
  (sent (wire (resume date sid k n)) = sent (wire n) \/
   sent (wire (resume date sid k n)) <= w + conn_credit hs + pending_all (senders n)).
Proof.
  intros [Hss Hw]. pose proof (pending_all_nonneg _ Hss) as Hp0. unfold resume.
  destruct (dget (senders n) sid) as [s|] eqn:Es; [|by split; [|left]].
  destruct (_tasks s !! k) as [[|i rest]|] eqn:Ek; [by split; [|left]| |by split; [|left]].
  destruct (exec date (conn_window n) (encoded n) s i) as [a|] eqn:Ea; [|by split; [|left]].
  destruct (Forall_dget _ _ _ _ Hss Es) as [Hm Hts]. cbn in Hm, Hts.
  assert (Hst : stack_ok (i :: rest)) by (eapply Forall_lookup_1; eassumption).
  pose proof (stack_ok_tail _ _ Hst) as Hrest.
  assert (Hi : stack_ok [i]).
  { destruct i; cbn in Hst |- *; try (apply Forall_cons in Hst as [? _]; by repeat constructor). by split; [apply Hst|]. }
  pose proof (exec_accounted _ _ _ _ _ _ Hi Hm Ea) as [A1 A2 A3 A4 A5 A6 A7].
  set (out := if _closed s then [] else _). cbn [wire senders conn_window].
  assert (Hout : sent out = 0 \/ sent out = data (a_out a)).
  { unfold out. destruct (_closed s); [by left|]. right. apply sent_tag. }
  pose proof (data_nonneg (a_out a)) as Hd. rewrite sent_app.
  split; [split|]; cbn [wire senders conn_window].
  - apply Forall_dset; [done|]. intros k' ->. split; cbn [set_tasks max_frame_size _tasks snd].
    + by rewrite (exec_max_frame _ _ _ _ _ _ Ea).
    + apply Forall_app; split.
      * apply Forall_insert; [done|]. by apply stack_ok_app.
      * eapply Forall_impl; [exact A5|]. apply resting_stack.
  - rewrite sent_app, (pending_all_dset _ _ _ _ Es). cbn [set_tasks _tasks].
    rewrite pending_tasks_app, (pending_tasks_insert _ _ _ _ Ek), pending_app.
    change (i :: rest) with ([i] ++ rest). rewrite pending_app.
    assert (Hsp : pending_tasks (a_spawn a) = 0).
    { clear -A5. induction A5 as [|l ts Hl Hts IH]; simpl; [done|]. rewrite resting_pending by done. lia. }
    rewrite Hsp. destruct Hout as [-> | ->]; lia.
  - destruct Hout as [-> | ->]; [left; lia|]. destruct A3 as [-> |[A3 _]]; [left; lia|]. right. lia.
Qed.

(** Replacing a sender by one with the same debts. *)
Lemma with_sender_ok w hs sid f n :
  net_ok w hs n -> (forall s, sender_ok s -> sender_ok (f s) /\ pending_tasks (_tasks (f s)) = pending_tasks (_tasks s)) ->
  net_ok w hs (with_sender sid f n).
Proof.
  intros [Hss Hw] Hf. unfold with_sender. destruct (dget (senders n) sid) as [s|] eqn:Es; [|by split].
  destruct (Hf s (Forall_dget _ _ _ _ Hss Es)) as [H1 H2].
  split; cbn; [by apply Forall_dset|]. rewrite (pending_all_dset _ _ _ _ Es), H2. lia.
Qed.

Lemma each_sender_ok w hs f n :
  net_ok w hs n -> (forall s, sender_ok s -> sender_ok (f s)) -> (forall s, _tasks (f s) = _tasks s) ->
  net_ok w hs (each_sender f n).
Proof.
  intros [Hss Hw] Hf Ht. split; cbn.
  - apply Forall_fmap. eapply Forall_impl; [exact Hss|]. intros [k s]. apply Hf.
  - replace (pending_all _) with (pending_all (senders n)); [done|].
    clear -Ht. unfold pending_all. induction (senders n) as [|[k s] ss IH]; simpl; [done|]. by rewrite Ht, IH.
Qed.

Lemma happen_ok date w hs h n :
  net_ok w hs n -> uncancelled h -> net_ok w (hs ++ [h]) (happen date n h).
Proof.
  intros Hn Hu.
  assert (Hq : conn_credit [h] = 0 -> forall n', net_ok w hs n' -> net_ok w (hs ++ [h]) n').
  { intros Hc n' [H1 H2]. split; [done|]. rewrite conn_credit_app, Hc. lia. }
  destruct h as [sid v|sid e|sid k|sid k|sid k|k|sid k|d|k|sid]; cbn [happen]; try (apply Hq; [done|]).
  - unfold dmem. destruct (dget (senders n) sid) eqn:E; [done|]. destruct Hn as [Hss Hw].
    split; cbn [senders conn_window wire];
      [|rewrite pending_all_fresh by done; change (pending_tasks (_tasks (__init__ v))) with 0; lia].
    apply Forall_dset; [done|]. intros k' ->. split; cbn; [done|]. by repeat constructor.
  - apply with_sender_ok; [done|]. intros s Hs. pose proof Hs as [Hm Ht].
    destruct (_tasks s) as [|[|i l] ts] eqn:E; try (by split; [|rewrite E]).
    apply Forall_cons in Ht as [_ Ht]. split; [|done]. split; [done|]. cbn.
    constructor; [by repeat constructor|done].
  - by apply resume_ok.
  - apply with_sender_ok; [done|]. intros s Hs. pose proof Hs as [Hm Ht].
    destruct (_tasks s !! k) as [[|[] rest]|] eqn:Ek; try by split.
    case_match; [by split|]. assert (Hst : stack_ok (DataLoop body0 offset end_stream :: rest)) by (eapply Forall_lookup_1; eassumption).
    assert (Hnil : stack_ok []) by apply Forall_nil_2.
    split; [split; [done|]; cbn [set_tasks _tasks]; by apply Forall_insert|]. cbn [set_tasks _tasks].
    rewrite (pending_tasks_insert _ _ _ _ Ek). change (pending (_ :: rest)) with (pending rest).
    change (pending []) with 0. rewrite (resting_pending rest); [lia|].
    by eapply stack_ok_tail.
  - by destruct Hu.
  - destruct Hn as [Hss Hw]. split; cbn; [done|]. rewrite conn_credit_app. cbn. lia.
  - by apply with_sender_ok.
  - by apply each_sender_ok.
  - apply each_sender_ok; [done| |done]. intros s [Hm Ht]. by split.
  - by apply with_sender_ok.
Qed.

Lemma world_run_ok date w hs :
  Forall uncancelled hs -> net_ok w hs (run date hs (start w)).
Proof.
  intros Hu. induction hs as [|h hs IH] using rev_ind; [split; [done|]; unfold sent, pending_all; cbn; lia|].
  apply Forall_app in Hu as [Hu Hh]. apply Forall_cons in Hh as [Hh _].
  unfold run. rewrite foldl_app. apply happen_ok; [by apply IH|done].
Qed.

(** The connection window.  Through any interleaving of any streams'
    coroutines, window updates and SETTINGS — writes suspending anywhere, no
    coroutine cancelled inside one — the octets of DATA sent exceed what the
    peer has granted the connection by at most the octets whose writes have
    not returned yet; with none outstanding, a step never exceeds the grant. *)
Theorem connection_window date w hs sid k :
  Forall uncancelled hs ->
  let n := run date hs (start w) in
  let n' := happen date n (Step sid k) in
  conn_window n <= w + conn_credit hs - sent (wire n) + pending_all (senders n) /\
  (sent (wire n') = sent (wire n) \/ sent (wire n') <= w + conn_credit hs + pending_all (senders n)) /\
  (pending_all (senders n) = 0 -> sent (wire n) <= w + conn_credit hs -> sent (wire n') <= w + conn_credit hs).
Proof.
  intros Hu n n'. pose proof (world_run_ok date w hs Hu) as Hn. fold n in Hn.
  destruct (resume_ok date w hs sid k n Hn) as [_ Hs]. change (resume date sid k n) with n' in Hs.
  split; [apply Hn|]. split; [done|]. intros Hp Hle. destruct Hs as [-> |Hs]; lia.
Qed.

Definition sample_run : list happening :=
  [Open 1 65535; WindowUpdateConn 5; Send 1 (SendBytes (body 80 0) 200 []); Step 1 0; ApplyMaxFrame 16384].

Lemma connection_window_witness :
  let n := run [] sample_run (start 100) in
  let n' := happen [] n (Step 1 0) in
  conn_window n <= 100 + conn_credit sample_run - sent (wire n) + pending_all (senders n) /\
  (sent (wire n') = sent (wire n) \/ sent (wire n') <= 100 + conn_credit sample_run + pending_all (senders n)) /\
  (pending_all (senders n) = 0 -> sent (wire n) <= 100 + conn_credit sample_run ->
   sent (wire n') <= 100 + conn_credit sample_run).
Proof. apply (connection_window [] 100 sample_run 1 0). repeat constructor. Defined.

(** ** Responses without trailers to come *)

(** The application never announces trailers, and streams carry no raw
    frames: nothing is held back for coalescing and no task is spawned. *)
Definition plain_event (e : send_event) : Prop :=
  match e with
  | SendFrame _ | SendNative (Some (_, _, true)) _ _ _ | ResponseStart _ _ true => False
  | _ => True
  end.

Definition plain (h : happening) : Prop :=
  match h with
  | Send _ e => plain_event e
  | Cancel _ _ => False
  | ApplyMaxFrame k => 0 < k
  | _ => True
  end.

(** What is left to do once END_STREAM has been recorded. *)
Definition quiet_instr (i : instr) : Prop :=
  match i with
  | Debit _ | ClearStart | ClearBody | EndIf _ | SetEnd | TrailersIfOpen _ => True
  | Call e => plain_event e
  | DataLoop b offset _ => 0 < zlen b <= offset
  | _ => False
  end.

(** ... once it has been written. *)
Fixpoint closing (l : list instr) : Prop :=
  match l with
  | Debit _ :: l | ClearStart :: l | ClearBody :: l | EndIf false :: l => closing l
  | DataLoop b offset _ :: l => 0 < zlen b <= offset /\ closing l
  | EndIf true :: l | SetEnd :: l => Forall quiet_instr l
  | _ => False
  end.

(** ... and before. *)
Fixpoint unended (l : list instr) : Prop :=
  match l with
  | [] => True
  | Call e :: l => plain_event e /\ l = []
  | HandleBody _ true :: l | HandleTrailers _ :: l | TrailersIfOpen _ :: l => Forall quiet_instr l
  | DataStart _ true :: l => closing l
  | DataLoop b offset true :: l => 0 <= offset /\ (offset < zlen b \/ b = []) /\ closing l
  | DataLoop b offset false :: l => 0 <= offset /\ unended l
  | HandleBody _ false :: l | DataStart _ false :: l => unended l
  | Debit _ :: l | ClearStart :: l | ClearBody :: l | EndIf false :: l => unended l
  | _ => False
  end.

(** Where a stream is: before END_STREAM, between writing and recording it,
    or after. *)
Definition phase (ended : bool) (w : list wframe) (l : list instr) : Prop :=
  (ended = false /\ Forall (fun f => ends f = false) w /\ unended l) \/
  (exists w0 f, w = w0 ++ [f] /\ Forall (fun f => ends f = false) w0 /\
    if ended then Forall quiet_instr l else closing l).

(** A closed sender goes on as if it were writing: [v] is what it would have
    written. *)
Record plain_sender (g : Z) (w : list wframe) (s : sender) : Prop := {
  ps_expect : _expect_trailers s = false;
  ps_body : _buffered_body s = None;
  ps_frame : 0 < max_frame_size s;
  ps_tasks : exists l v, _tasks s = [l] /\ stack_ok l /\ phase (_end_stream_sent s) v l /\ (_closed s = false -> v = w);
  ps_last : forall pre f post, w = pre ++ f :: post -> ends f = true -> post = [];
  ps_window : stream_window_size s - pending_tasks (_tasks s) + data w <= g
}.

(** The credit a stream has had: its initial window, adjusted and updated. *)
Definition credit_step (sid : Z) (g : option Z) (h : happening) : option Z :=
  match h with
  | Open sid' v => if sid' =? sid then Some (default v g) else g
  | WindowUpdateStream sid' k => if sid' =? sid then (fun x => x + k) <$> g else g
  | AdjustInitial d => (fun x => x + d) <$> g
  | _ => g
  end.

Definition stream_credit (sid : Z) (hs : list happening) : option Z := foldl (credit_step sid) None hs.

Lemma phase_last ended w l : phase ended w l -> forall pre f post, w = pre ++ f :: post -> ends f = true -> post = [].
Proof.
  intros H pre f post -> Hf. destruct H as [(_ & Hw & _)|(w0 & f' & Hw & H0 & _)].
  - apply Forall_app in Hw as [_ Hw]. apply Forall_cons in Hw as [Hw _]. congruence.
  - destruct post as [|p post _] using rev_ind; [done|].
    rewrite app_comm_cons, app_assoc in Hw. apply app_inj_tail in Hw as [<- ->].
    apply Forall_app in H0 as [_ H0]. apply Forall_cons in H0 as [H0 _]. congruence.
Qed.

(** A stretch that writes nothing, holds nothing back and spawns nothing. *)
Definition silent (s : sender) (a : act) : Prop :=
  a_spawn a = [] /\ a_out a = [] /\ a_next a = [] /\ _expect_trailers (a_sender a) = _expect_trailers s /\
  _buffered_body (a_sender a) = None.

Lemma write_data_exhausted conn enc s b o e :
  0 < zlen b <= o -> _write_data conn enc s b o e = Some (done conn enc s).
Proof. intros. unfold _write_data. settle_cmp. done. Qed.

Lemma exec_quiet date conn enc s i a :
  quiet_instr i -> _end_stream_sent s = true -> _buffered_body s = None ->
  exec date conn enc s i = Some a -> silent s a /\ _end_stream_sent (a_sender a) = true.
Proof.
  intros Hi He Hb Ha. destruct i as [e|p x|hs|hs|tok b st hs x|p x|b o x|n|fs| | |x|]; cbn in Hi, Ha; try done.
  - destruct e; cbn in Hi, Ha; rewrite ?He in Ha; by simplify_eq/=.
  - rewrite He in Ha. by simplify_eq/=.
  - rewrite write_data_exhausted in Ha by done. by simplify_eq/=.
  - by simplify_eq/=.
  - by simplify_eq/=.
  - by simplify_eq/=.
  - simplify_eq/=. by destruct (x && negb (_expect_trailers s)).
  - by simplify_eq/=.
Qed.

Lemma exec_closing date conn enc s i l a :
  closing (i :: l) -> _end_stream_sent s = false -> _expect_trailers s = false -> _buffered_body s = None ->
  exec date conn enc s i = Some a ->
  silent s a /\ (if _end_stream_sent (a_sender a) then Forall quiet_instr l else closing l).
Proof.
  intros Hi He Hx Hb Ha. destruct i as [e|p x|hs|hs|tok b st hs x|p x|b o x|n|fs| | |x|]; cbn in Hi, Ha; try done.
  - rewrite write_data_exhausted in Ha by apply Hi. simplify_eq/=. rewrite He. by split; [|apply Hi].
  - simplify_eq/=. by rewrite He.
  - simplify_eq/=. by rewrite He.
  - simplify_eq/=. by rewrite He.
  - simplify_eq/=. rewrite Hx. destruct x; cbn; [done|]. by rewrite He.
  - by simplify_eq/=.
Qed.

Lemma phase_app ended w out l :
  Forall (fun f => ends f = false) w -> phase ended out l -> phase ended (w ++ out) l.
Proof.
  intros Hw [(H1 & H2 & H3)|(w0 & f & -> & H2 & H3)].
  - left. split_and!; try done. by apply Forall_app.
  - right. exists (w ++ w0), f. rewrite app_assoc. split_and!; try done. by apply Forall_app.
Qed.

Lemma start_and_body_phase date conn enc s b (e : bool) status hs k l :
  _end_stream_sent s = false -> (if e then Forall quiet_instr (k ++ l) else unended (k ++ l)) ->
  let a := _write_response_start_and_body date conn enc s b e status hs false k in
  phase (_end_stream_sent (a_sender a)) (a_out a) (a_next a ++ l) /\ a_spawn a = [] /\ a_sender a = s.
Proof.
  intros He Hk. unfold _write_response_start_and_body. destruct (fits conn s (zlen b)) eqn:Ef; cbn; rewrite He.
  - split; [|done]. destruct e; cbn.
    + right. exists [build_response_headers date enc status hs false], (WData b true). split; [done|]. split; [by repeat constructor|]. done.
    + left. split; [done|]. split; [by repeat constructor|done].
  - split; [|done]. left. split; [done|]. split; [by repeat constructor|]. destruct e; cbn -[closing].
    + split; [done|]. split; [|done]. pose proof (zlen_nonneg b). destruct b; [by right|left]. unfold zlen. cbn. lia.
    + by split.
Qed.

Lemma write_data_phase conn enc s b o e l a :
  0 < max_frame_size s -> _end_stream_sent s = false -> unended (DataLoop b o e :: l) ->
  _write_data conn enc s b o e = Some a ->
  phase (_end_stream_sent (a_sender a)) (a_out a) (a_next a ++ l) /\ a_spawn a = [] /\ a_sender a = s.
Proof.
  intros Hm He Hl. assert (Ho : 0 <= o) by (destruct e; apply Hl). unfold _write_data.
  destruct (Z.eqb_spec (zlen b) 0) as [Hz|Hz].
  { intros [= <-]; cbn. rewrite He. split; [|done]. destruct e; cbn in Hl.
    - right. exists [], (WData [] true). split_and!; try done. by destruct Hl as (_ & _ & ?).
    - left. split_and!; try done; [by repeat constructor|]. by destruct Hl. }
  pose proof (zlen_nonneg b) as Hb. rewrite Z.geb_leb. destruct (Z.leb_spec (zlen b) o) as [Ht|Ht].
  { intros [= <-]; cbn. rewrite He. split; [|done]. destruct e; cbn in Hl.
    - destruct Hl as (_ & [?|Hnil] & ?); [lia|]. by rewrite Hnil in Hz.
    - left. split_and!; try done. by destruct Hl. }
  destruct ((conn <=? 0) || (stream_window_size s <=? 0)) eqn:Ew; [done|].
  apply orb_false_iff in Ew as [Ew1 Ew2]. apply Z.leb_gt in Ew1, Ew2.
  set (c := Z.min (Z.min conn _) _). assert (Hc : 0 < c) by (unfold c; lia). clearbody c.
  intros [= <-]; cbn [a_sender a_out a_next a_spawn app]. rewrite He. split; [|done].
  rewrite Z.geb_leb. destruct e; cbn in Hl; rewrite ?andb_true_r, ?andb_false_r.
  - destruct Hl as (_ & _ & Hl). destruct (Z.leb_spec (zlen b) (o + c)).
    + right. exists [], (WData (slice b o (o + c)) true). split_and!; try done. cbn. split; [lia|done].
    + left. split_and!; try done; [by repeat constructor|]. cbn. split_and!; [lia|left; lia|done].
  - left. split_and!; try done; [by repeat constructor|]. cbn. split; [lia|]. by destruct Hl.
Qed.

Lemma handle_body_phase date conn enc s p e l :
  _end_stream_sent s = false -> _expect_trailers s = false -> _buffered_body s = None ->
  unended (HandleBody p e :: l) ->
  let a := _handle_body_content date conn enc s p e in
  phase (_end_stream_sent (a_sender a)) (a_out a) (a_next a ++ l) /\ a_spawn a = [] /\ a_sender a = s.
Proof.
  intros He Hx Hb Hl. unfold _handle_body_content. rewrite Hx, Hb. cbn [andb].
  destruct (_buffered_status s) as [status|].
  - apply start_and_body_phase; [done|]. cbn [app]. destruct e; cbn in Hl |- *; [|done].
    by repeat apply Forall_cons_2.
  - cbn. rewrite He. split; [|done]. left. split_and!; [done|apply Forall_nil_2|]. by destruct e.
Qed.

Lemma handle_trailers_phase date conn enc s hs l :
  _end_stream_sent s = false -> _buffered_body s = None -> Forall quiet_instr l ->
  let a := _handle_trailers date conn enc s hs in
  phase (_end_stream_sent (a_sender a)) (a_out a) (a_next a ++ l) /\ a_spawn a = [] /\ a_sender a = s.
Proof.
  intros He Hb Hl. unfold _handle_trailers. rewrite Hb.
  destruct (_buffered_status s) as [status|]; cbn; rewrite He; (split; [|done]); right.
  - exists [build_response_headers date enc status (_buffered_headers s) false], (build_trailers (enc + 1) hs).
    split_and!; try done. by repeat constructor.
  - exists [], (build_trailers enc hs). by split_and!.
Qed.

Lemma unended_silent ended l :
  ended = false -> unended l -> phase ended [] l.
Proof. intros -> Hl. left. by split_and!; [|apply Forall_nil_2|]. Qed.

Lemma call_phase date conn enc s e :
  _end_stream_sent s = false -> _expect_trailers s = false -> _buffered_body s = None -> plain_event e ->
  let a := __call__ date conn enc s e in
  phase (_end_stream_sent (a_sender a)) (a_out a) (a_next a ++ []) /\ a_spawn a = [] /\
  _expect_trailers (a_sender a) = false /\ _buffered_body (a_sender a) = None.
Proof.
  intros He Hx Hb Hp. destruct e as [f|b status hs|header b more tr|st hs tr|b more|hs|]; cbn [__call__ plain_event] in Hp |- *;
    rewrite ?He; try done.
  - pose proof (start_and_body_phase date conn enc s b true status hs [] [] He (Forall_nil_2 _)) as (H1 & H2 & H3).
    unfold _write_response_start_and_body in *. cbn [andb negb app] in *.
    destruct (fits conn s (zlen b)); cbn in *; by rewrite He in *.
  - assert (Hs : unended ((match b with Some b => [HandleBody b (negb more)] | None => [] end ++
           match tr with Some hs => [TrailersIfOpen hs] | None => [] end) ++ [])).
    { destruct b, tr, more; cbn; try done; try apply Forall_nil_2. by apply Forall_cons_2. }
    destruct header as [[[status hs] []]|]; cbn; split_and!; try done; by apply unended_silent.
  - destruct tr; [done|]. cbn. split_and!; try done. by apply unended_silent.
  - cbn. split_and!; try done. apply unended_silent; [done..|]. destruct more; [done|apply Forall_nil_2].
  - cbn. split_and!; try done. apply unended_silent; [done..|]. cbn. apply Forall_nil_2.
  - cbn. split_and!; try done. by apply unended_silent.
Qed.

Lemma exec_unended date conn enc s i l a :
  unended (i :: l) -> _end_stream_sent s = false -> _expect_trailers s = false -> _buffered_body s = None ->
  0 < max_frame_size s -> exec date conn enc s i = Some a ->
  phase (_end_stream_sent (a_sender a)) (a_out a) (a_next a ++ l) /\ a_spawn a = [] /\
  _expect_trailers (a_sender a) = false /\ _buffered_body (a_sender a) = None.
Proof.
  intros Hl He Hx Hb Hm Ha.
  destruct i as [e|p x|hs|hs|tok b st hs x|p x|b o x|n|fs| | |x|]; try done; cbn [exec] in Ha; rewrite ?He in Ha;
    try (injection Ha as <-); cbn [a_sender a_out a_next a_spawn done continue app].
  - destruct Hl as [Hp ->]. by apply call_phase.
  - destruct (handle_body_phase date conn enc s p x l He Hx Hb Hl) as (H1 & H2 & H3). by rewrite H3 in *.
  - destruct (handle_trailers_phase date conn enc s hs l He Hb Hl) as (H1 & H2 & H3). by rewrite H3 in *.
  - split_and!; try done. by apply unended_silent.
  - split_and!; try done. apply unended_silent; [done..|]. rewrite Hx, andb_true_r. destruct x; cbn in *; [|done].
    split; [done|]. split; [|done]. destruct p; [by right|left]. unfold zlen. cbn. lia.
  - destruct (write_data_phase conn enc s b o x l a Hm He Hl Ha) as (H1 & H2 & H3). by rewrite H3 in *.
  - split_and!; try done. by apply unended_silent.
  - split_and!; try done. by apply unended_silent.
  - split_and!; try done. by apply unended_silent.
  - destruct x; [done|]. split_and!; try done. by apply unended_silent.
Qed.

Lemma exec_phase date conn enc s i l w a :
  phase (_end_stream_sent s) w (i :: l) -> _expect_trailers s = false -> _buffered_body s = None ->
  0 < max_frame_size s -> exec date conn enc s i = Some a ->
  phase (_end_stream_sent (a_sender a)) (w ++ a_out a) (a_next a ++ l) /\ a_spawn a = [] /\
  _expect_trailers (a_sender a) = false /\ _buffered_body (a_sender a) = None.
Proof.
  intros Hph Hx Hb Hm Ha. destruct Hph as [(He & Hw & Hl)|(w0 & f & -> & Hw & Hl)].
  - destruct (exec_unended date conn enc s i l a Hl He Hx Hb Hm Ha) as (H1 & H2). split; [|done].
    by apply phase_app.
  - destruct (_end_stream_sent s) eqn:He.
    + apply Forall_cons in Hl as [Hi Hl].
      destruct (exec_quiet date conn enc s i a Hi He Hb Ha) as ((-> & -> & -> & -> & ->) & ->).
      split_and!; try done. right. exists w0, f. by rewrite app_nil_r.
    + destruct (exec_closing date conn enc s i l a Hl He Hx Hb Ha) as ((-> & -> & -> & -> & ->) & Hl').
      split_and!; try done. right. exists w0, f. by rewrite app_nil_r.
Qed.

Lemma wire_of_app sid w1 w2 : wire_of sid (w1 ++ w2) = wire_of sid w1 ++ wire_of sid w2.
Proof. unfold wire_of. by rewrite filter_app, fmap_app. Qed.

Lemma wire_of_tag sid sid' fs :
  wire_of sid ((fun f => (sid', f)) <$> fs) = if decide (sid' = sid) then fs else [].
Proof.
  unfold wire_of. induction fs as [|f fs IH]; [by case_decide|]. cbn [fmap list_fmap].
  case_decide as Hs; subst.
  - rewrite filter_cons_True by done. cbn. f_equal. exact IH.
  - rewrite filter_cons_False by done. exact IH.
Qed.

(** A step of a plain sender. *)
Lemma plain_step date conn enc g w s i rest a :
  plain_sender g w s -> _tasks s = [i :: rest] -> exec date conn enc s i = Some a ->
  let out := if _closed s then [] else a_out a in
  plain_sender g (w ++ out) (set_tasks ([a_next a ++ rest] ++ a_spawn a) (a_sender a)) /\
  (data (w ++ out) = data w \/ data (w ++ out) <= g).
Proof.
  intros [Hx Hb Hm (l & v & Ht & Hst & Hph & Hv) Hlast Hw] Hts Ha out. rewrite Hts in Ht. simplify_eq.
  assert (Hi : stack_ok [i]).
  { destruct i; cbn in Hst |- *; try (apply Forall_cons in Hst as [? _]; by repeat constructor). by split; [apply Hst|]. }
  pose proof (exec_accounted _ _ _ _ _ _ Hi Hm Ha) as [_ A2 A3 A4 _ A6 A7].
  destruct (exec_phase _ _ _ _ _ _ _ _ Hph Hx Hb Hm Ha) as (Hph' & Hsp & Hx' & Hb').
  pose proof (stack_ok_tail _ _ Hst) as Hrest. pose proof (data_nonneg (a_out a)) as Hd.
  rewrite Hts in Hw. cbn [pending_tasks foldr] in Hw. change (i :: rest) with ([i] ++ rest) in Hw.
  rewrite pending_app, (resting_pending rest Hrest) in Hw.
  assert (Hout : data out <= data (a_out a)) by (unfold out; destruct (_closed s); cbn; lia).
  assert (Hout0 : data out = 0 \/ data out = data (a_out a)) by (unfold out; destruct (_closed s); [by left|by right]).
  assert (Hvw : _closed s = false -> v ++ a_out a = w ++ out).
  { intros Hc. unfold out. rewrite Hc. by rewrite (Hv Hc). }
  rewrite Hsp, data_app. split.
  - constructor; cbn; rewrite ?Hx', ?Hb', ?(exec_max_frame _ _ _ _ _ _ Ha); try done.
    + exists (a_next a ++ rest), (v ++ a_out a). rewrite A7. split_and!; try done. by apply stack_ok_app.
    + destruct (_closed s) eqn:Ec; [by rewrite app_nil_r|]. rewrite <- Hvw by done. by eapply phase_last.
    + change (foldr _ 0 (a_next a ++ rest)) with (pending (a_next a ++ rest)).
      rewrite pending_app, (resting_pending rest Hrest), data_app. lia.
  - destruct Hout0 as [-> | E]; [left; lia|]. destruct A3 as [A3|[_ A3]]; [left; lia|].
    assert (Hpi : pending [i] = 0 \/ data (a_out a) = 0); [|destruct Hpi; [right|left]; lia].
    destruct i; try (by left). right. cbn in Ha. by injection Ha as <-.
Qed.

(** ** Plain runs *)

Definition stream_ok (hs : list happening) (n : net) (sid : Z) : Prop :=
  match dget (senders n) sid with
  | Some s => exists g, stream_credit sid hs = Some g /\ plain_sender g (wire_of sid (wire n)) s
  | None => stream_credit sid hs = None /\ wire_of sid (wire n) = []
  end.

Definition seqs (w : list (Z * wframe)) : list Z := w.*2 ≫= seq_of.

Definition plain_net (hs : list happening) (n : net) : Prop :=
  (forall sid, stream_ok hs n sid) /\
  StronglySorted Z.lt (seqs (wire n)) /\ Forall (fun q => q < encoded n) (seqs (wire n)).

Lemma stream_credit_snoc sid hs h : stream_credit sid (hs ++ [h]) = credit_step sid (stream_credit sid hs) h.
Proof. unfold stream_credit. by rewrite foldl_app. Qed.

(** The encoder numbers the blocks a stretch writes, in order. *)
Lemma exec_seqs date conn enc s i a :
  match i with Write _ => False | _ => True end -> _buffered_body s = None -> exec date conn enc s i = Some a ->
  enc <= a_enc a /\ StronglySorted Z.lt (a_out a ≫= seq_of) /\
  Forall (fun q => enc <= q < a_enc a) (a_out a ≫= seq_of).
Proof.
  intros Hi Hb Ha.
  assert (H : a_enc a = enc /\ a_out a ≫= seq_of = [] \/ a_enc a = enc + 1 /\ a_out a ≫= seq_of = [enc] \/
              a_enc a = enc + 2 /\ a_out a ≫= seq_of = [enc; enc + 1]).
  { destruct i; try done; cbn [exec] in Ha;
      unfold __call__, _handle_body_content, _handle_trailers, _write_response_start_and_body, _write_data in Ha;
      rewrite ?Hb in Ha; repeat case_match; simplify_eq/=; auto. }
  destruct H as [[-> ->]|[[-> ->]|[-> ->]]]; split_and!; try lia; repeat constructor; lia.
Qed.

Lemma stack_no_write ended w i l : phase ended w (i :: l) -> match i with Write _ => False | _ => True end.
Proof.
  intros [(_ & _ & H)|(w0 & f & _ & _ & H)]; [by destruct i|].
  destruct ended; [|by destruct i]. apply Forall_cons in H as [H _]. by destruct i.
Qed.

Lemma sorted_app (l1 l2 : list Z) n m :
  StronglySorted Z.lt l1 -> Forall (fun q => q < n) l1 -> StronglySorted Z.lt l2 ->
  Forall (fun q => n <= q < m) l2 -> StronglySorted Z.lt (l1 ++ l2).
Proof.
  intros H1 Hf1 H2 Hf2. induction H1 as [|x l1 H1 IH Hx]; [done|].
  apply Forall_cons in Hf1 as [Hxn Hf1]. cbn. constructor; [by apply IH|].
  apply Forall_app; split; [done|]. eapply Forall_impl; [exact Hf2|]. cbn. lia.
Qed.

Lemma dget_fmap {A B} (f : A -> B) (d : dict Z A) k :
  dget ((fun x => (x.1, f x.2)) <$> d) k = f <$> dget d k.
Proof. induction d as [|[a b] d IH]; simpl; [done|]. by case_decide. Qed.

(** What a happening that writes nothing must keep. *)
Lemma keep_net hs h n n' :
  plain_net hs n -> wire n' = wire n -> encoded n' = encoded n ->
  (forall sid, stream_ok hs n sid -> stream_ok (hs ++ [h]) n' sid) -> plain_net (hs ++ [h]) n'.
Proof. intros (H1 & H2 & H3) Hw He Hs. unfold plain_net. rewrite Hw, He. auto. Qed.

Lemma keep_sender hs h n sid f :
  plain_net hs n ->
  (forall sid', sid' <> sid -> credit_step sid' (stream_credit sid' hs) h = stream_credit sid' hs) ->
  (dget (senders n) sid = None -> credit_step sid (stream_credit sid hs) h = stream_credit sid hs) ->
  (forall g w s, stream_credit sid hs = Some g -> plain_sender g w s ->
    exists g', credit_step sid (Some g) h = Some g' /\ plain_sender g' w (f s)) ->
  plain_net (hs ++ [h]) (with_sender sid f n).
Proof.
  intros Hn Hother Hnone Hf. unfold with_sender. destruct (dget (senders n) sid) as [s|] eqn:Es.
  - apply (keep_net _ _ n); [done..|]. intros sid'. unfold stream_ok. cbn. rewrite dget_dset, stream_credit_snoc.
    case_decide as Hd; [subst sid'; rewrite Es|by rewrite Hother].
    intros (g & Hg & Hps). destruct (Hf g _ s Hg Hps) as (g' & Hg' & Hps'). exists g'. by rewrite Hg.
  - apply (keep_net _ _ n); [done..|]. intros sid'. unfold stream_ok. rewrite stream_credit_snoc.
    destruct (decide (sid' = sid)) as [-> |]; [rewrite Es, Hnone by done; done|by rewrite Hother].
Qed.

Lemma keep_all hs h n f :
  plain_net hs n ->
  (forall sid g w s, plain_sender g w s ->
    exists g', credit_step sid (Some g) h = Some g' /\ plain_sender g' w (f s)) ->
  (forall sid, credit_step sid None h = None) ->
  plain_net (hs ++ [h]) (each_sender f n).
Proof.
  intros Hn Hf Hnone. apply (keep_net _ _ n); [done..|]. intros sid. unfold stream_ok, each_sender. cbn.
  rewrite dget_fmap, stream_credit_snoc. destruct (dget (senders n) sid) as [s|]; cbn.
  - intros (g & -> & Hps). by apply Hf.
  - intros [-> ?]. by rewrite Hnone.
Qed.

Lemma plain_open v : plain_sender v [] (__init__ v).
Proof.
  constructor; cbn; try done; try lia.
  - exists [], []. split; [done|]. split; [apply Forall_nil_2|]. split; [|done]. left. split; [done|]. split; [apply Forall_nil_2|done].
  - intros [|] ? ? [=].
Qed.

(** Changes of the slots a plain sender's invariant does not read. *)
Lemma plain_same g g' w s s' :
  plain_sender g w s -> _expect_trailers s' = _expect_trailers s -> _buffered_body s' = _buffered_body s ->
  0 < max_frame_size s' -> _tasks s' = _tasks s -> _end_stream_sent s' = _end_stream_sent s ->
  (_closed s' = false -> _closed s = false) -> stream_window_size s' - stream_window_size s = g' - g ->
  plain_sender g' w s'.
Proof.
  intros [Hx Hb Hm (l & v & Ht & Hst & Hph & Hv) Hlast Hw] E1 E2 E3 E4 E5 E6 E7.
  constructor; rewrite ?E1, ?E2, ?E4; try done; [|lia].
  exists l, v. rewrite E5. split_and!; auto.
Qed.

Lemma plain_send g w s e :
  plain_sender g w s -> plain_event e ->
  plain_sender g w (match _tasks s with [] :: ts => set_tasks ([Call e] :: ts) s | _ => s end).
Proof.
  intros Hs He. pose proof Hs as [Hx Hb Hm (l & v & Ht & Hst & Hph & Hv) Hlast Hw]. rewrite Ht.
  destruct l as [|i l]; [|done]. rewrite Ht in Hw. constructor; cbn; try done.
  exists [Call e], v. split_and!; try done; [by repeat constructor|].
  destruct Hph as [(H1 & H2 & H3)|(w0 & f & H1 & H2 & H3)]; [by left|].
  right. exists w0, f. split_and!; try done. destruct (_end_stream_sent s); [by repeat constructor|done].
Qed.

Lemma plain_stall g w s k conn enc body0 o e rest :
  plain_sender g w s -> _tasks s !! k = Some (DataLoop body0 o e :: rest) ->
  _write_data conn enc s body0 o e = None -> plain_sender g w (set_tasks (<[k := []]> (_tasks s)) s).
Proof.
  intros [Hx Hb Hm (l & v & Ht & Hst & Hph & Hv) Hlast Hw] Hk Hd. rewrite Ht in *.
  destruct k; simplify_eq/=. apply Forall_cons in Hst as [_ Hrest].
  rewrite resting_pending in Hw by done.
  constructor; cbn; try done.
  exists [], v. split_and!; try done; [apply Forall_nil_2|].
  assert (Hex : ~ 0 < zlen body0 <= o) by (intros Hex; by rewrite write_data_exhausted in Hd).
  destruct Hph as [(H1 & H2 & H3)|(w0 & f & H1 & H2 & H3)]; [by left|].
  destruct (_end_stream_sent s); [by apply Forall_cons in H3 as [H3 _]|by destruct H3].
Qed.

Lemma plain_resume date hs h sid k n :
  plain_net hs n -> (forall sid', credit_step sid' (stream_credit sid' hs) h = stream_credit sid' hs) ->
  plain_net (hs ++ [h]) (resume date sid k n) /\
  (forall g, stream_credit sid hs = Some g ->
    data (wire_of sid (wire (resume date sid k n))) = data (wire_of sid (wire n)) \/
    data (wire_of sid (wire (resume date sid k n))) <= g).
Proof.
  intros Hn Hc.
  assert (Hid : plain_net (hs ++ [h]) n).
  { apply (keep_net _ _ n); [done..|]. intros sid'. unfold stream_ok. by rewrite stream_credit_snoc, Hc. }
  unfold resume. destruct (dget (senders n) sid) as [s|] eqn:Es; [|by split; [|left]].
  destruct (_tasks s !! k) as [[|i rest]|] eqn:Ek; [by split; [|left]| |by split; [|left]].
  destruct (exec date (conn_window n) (encoded n) s i) as [a|] eqn:Ea; [|by split; [|left]].
  destruct Hn as (Hs & Hq & Hlt). pose proof (Hs sid) as Hsid. unfold stream_ok in Hsid. rewrite Es in Hsid.
  destruct Hsid as (g & Hg & Hps). pose proof Hps as [_ Hb _ (l & v & Ht & _ & Hph & _) _ _].
  rewrite Ht in Ek. destruct k; simplify_eq/=.
  destruct (plain_step date (conn_window n) (encoded n) g _ s i rest a Hps Ht Ea) as [Hps' Hd].
  destruct (exec_seqs _ _ _ _ _ _ (stack_no_write _ _ _ _ Hph) Hb Ea) as (Hle & Hso & Hfo).
  set (out := if _closed s then [] else a_out a) in *.
  assert (Eo : (if _closed s then [] else (fun f => (sid, f)) <$> a_out a) = (fun f => (sid, f)) <$> out)
    by (unfold out; by destruct (_closed s)).
  rewrite Eo.
  assert (Ho : StronglySorted Z.lt (out ≫= seq_of) /\ Forall (fun q => encoded n <= q < a_enc a) (out ≫= seq_of)).
  { unfold out. destruct (_closed s); [by repeat constructor|done]. }
  assert (Etag : seqs ((fun f => (sid, f)) <$> out) = out ≫= seq_of).
  { unfold seqs. rewrite <- list_fmap_compose. f_equal. apply list_fmap_id. }
  split.
  - split; [|split]; cbn [senders wire encoded].
    + intros sid'. unfold stream_ok. cbn [senders wire]. rewrite dget_dset, stream_credit_snoc, Hc, wire_of_app, wire_of_tag.
      case_decide as Hd'; [subst sid'|by rewrite app_nil_r; apply Hs]. exists g. split; [done|]. by rewrite Ht.
    + unfold seqs. rewrite fmap_app, bind_app. change (((fun f => (sid, f)) <$> out).*2 ≫= seq_of) with
        (seqs ((fun f => (sid, f)) <$> out)). rewrite Etag. by eapply sorted_app; [| |apply Ho..].
    + unfold seqs. rewrite fmap_app, bind_app. change (((fun f => (sid, f)) <$> out).*2 ≫= seq_of) with
        (seqs ((fun f => (sid, f)) <$> out)). rewrite Etag. apply Forall_app; split.
      * eapply Forall_impl; [exact Hlt|]. cbn. lia.
      * eapply Forall_impl; [apply Ho|]. cbn. lia.
  - intros g' Hg'. cbn [wire]. rewrite wire_of_app, wire_of_tag, decide_True by done. rewrite Hg in Hg'. by simplify_eq.
Qed.

Lemma happen_plain date hs h n : plain_net hs n -> plain h -> plain_net (hs ++ [h]) (happen date n h).
Proof.
  intros Hn Hp.
  destruct h as [sid v|sid e|sid k|sid k|sid k|k|sid k|d|k|sid]; cbn [happen plain] in *; try done.
  - apply (keep_net hs _ n); [done|by case_match..|]. intros sid' Hs. unfold stream_ok in *. unfold dmem.
    rewrite stream_credit_snoc. cbn [credit_step].
    destruct (dget (senders n) sid) as [s|] eqn:Es.
    + destruct (Z.eqb_spec sid sid') as [<- |]; [|done]. rewrite Es in *. destruct Hs as (g & -> & ?). by exists g.
    + cbn [senders wire]. rewrite dget_dset. destruct (Z.eqb_spec sid sid') as [<- |].
      * rewrite decide_True by done. rewrite Es in Hs. destruct Hs as [-> ->]. exists v. split; [done|].
        apply plain_open.
      * by rewrite decide_False.
  - apply keep_sender; [done..|]. intros g w s Hg Hs. exists g. split; [done|]. by apply plain_send.
  - by apply plain_resume.
  - apply keep_sender; [done..|]. intros g w s Hg Hs. exists g. split; [done|].
    destruct (_tasks s !! k) as [[|[] rest]|] eqn:Ek; try done.
    destruct (_write_data _ _ s _ _ _) eqn:Ed; [done|]. by eapply plain_stall.
  - apply (keep_net hs _ n); [done..|]. intros sid Hs. unfold stream_ok in *. by rewrite stream_credit_snoc.
  - apply keep_sender; [done| | |].
    + intros sid' Hne. cbn. destruct (Z.eqb_spec sid sid'); congruence.
    + intros Hnone. destruct Hn as (Hs & _). specialize (Hs sid). unfold stream_ok in Hs. rewrite Hnone in Hs.
      destruct Hs as [-> _]. cbn. by case_match.
    + intros g w s Hg Hs. exists (g + k). cbn. rewrite Z.eqb_refl. split; [done|].
      by apply (plain_same g _ _ s); try done; cbn; [apply Hs|lia].
  - apply keep_all; [done| |done]. intros sid g w s Hs. exists (g + d). split; [done|].
    by apply (plain_same g _ _ s); try done; cbn; [apply Hs|lia].
  - apply keep_all; [done| |done]. intros sid g w s Hs. exists g. split; [done|].
    by apply (plain_same g _ _ s); try done; cbn; lia.
  - apply keep_sender; [done..|]. intros g w s Hg Hs. exists g. split; [done|].
    by apply (plain_same g _ _ s); try done; cbn; [apply Hs|lia].
Qed.

Lemma run_plain date w hs : Forall plain hs -> plain_net hs (run date hs (start w)).
Proof.
  intros Hu. induction hs as [|h hs IH] using rev_ind.
  { split; [by intros sid; split|]. by split; [constructor|apply Forall_nil_2]. }
  apply Forall_app in Hu as [Hu Hh]. apply Forall_cons in Hh as [Hh _].
  unfold run. rewrite foldl_app. apply happen_plain; [by apply IH|done].
Qed.

(** Nothing follows END_STREAM.  Through any interleaving of any streams'
    coroutines, window updates, SETTINGS, stall timeouts and peers that go
    away — writes suspending anywhere, the application calling in any order
    without announcing trailers — no HEADERS or DATA frame of a stream follows
    one with END_STREAM, and header blocks reach the wire in the order in which
    the shared HPACK encoder produced them. *)
Theorem end_stream_last date w hs :
  Forall plain hs ->
  let n := run date hs (start w) in
  (forall sid pre f post, wire_of sid (wire n) = pre ++ f :: post -> ends f = true -> post = []) /\
  StronglySorted Z.lt (seqs (wire n)).
Proof.
  intros Hp n. destruct (run_plain date w hs Hp) as (Hs & Hq & _). split; [|exact Hq].
  intros sid pre f post Hw. specialize (Hs sid). unfold stream_ok in Hs. fold n in Hs.
  destruct (dget (senders n) sid) as [s|].
  - destruct Hs as (g & _ & Hps). by apply (ps_last _ _ _ Hps pre).
  - destruct Hs as [_ Hnil]. rewrite Hnil in Hw. by destruct pre.
Qed.

(** C38: the stream window.  Take the stream senders of a connection from their
    start, through any interleaving of their coroutines, window updates,
    SETTINGS with a positive frame size, stall timeouts and peers that go away,
    in which the applications send responses in any order but announce no
    trailers and no frames of their own, and no write is cancelled while it is
    suspended (one that is cancelled is never debited).  In such a run the DATA
    a step sends on a stream never takes the stream beyond the credit its peer
    has given it by initial window, SETTINGS changes and WINDOW_UPDATE. *)
Theorem stream_window date w hs sid k g :
  Forall plain hs -> stream_credit sid hs = Some g ->
  let n := run date hs (start w) in
  let n' := happen date n (Step sid k) in
  data (wire_of sid (wire n')) = data (wire_of sid (wire n)) \/ data (wire_of sid (wire n')) <= g.
Proof.
  intros Hp Hg n n'. destruct (plain_resume date hs (Step sid k) sid k n (run_plain date w hs Hp)) as [_ H]; [done|].
  by apply H.
Qed.

Definition sample_plain : list happening :=
  [Open 1 50; Send 1 (SendBytes (body 80 0) 200 []); Step 1 0; Step 1 0; Step 1 0; WindowUpdateStream 1 40].

Lemma sample_plain_ok : Forall plain sample_plain.
Proof. repeat constructor. Qed.

Lemma end_stream_last_witness :
  let n := run [] sample_plain (start 65535) in
  (forall sid pre f post, wire_of sid (wire n) = pre ++ f :: post -> ends f = true -> post = []) /\
  StronglySorted Z.lt (seqs (wire n)).
Proof. apply (end_stream_last [] 65535 sample_plain). exact sample_plain_ok. Defined.

Lemma stream_window_witness :
  let n := run [] sample_plain (start 65535) in
  let n' := happen [] n (Step 1 0) in
  data (wire_of 1 (wire n')) = data (wire_of 1 (wire n)) \/ data (wire_of 1 (wire n')) <= 90.
Proof. apply (stream_window [] 65535 sample_plain 1 0 90); [exact sample_plain_ok|reflexivity]. Defined.

End H2Sender.
