(* ===== verification/HttpHeaders.v ===== *)
(** * The header container (blackbull/headers.py)

    [Headers]: the ordered list of fields and the index from lower-cased names
    to the fields of that name.  The list objects of the index are not shared
    with a caller that mutates them. *)

From Stdlib Require Import ZArith Lia.
From stdpp Require Import base tactics numbers option strings sets list.
From S2P Require Import Prelude PyLib PyText StructuredFields H2Frames.
Import StructuredFields.

Module HttpHeaders.

Record t : Type := mk {
  _list : list field;
  _index : dict bytes (list field)
}.

(** [index.setdefault(name, []).append(pair)] *)
Definition index_add (name : bytes) (pair : field) (index : dict bytes (list field)) : dict bytes (list field) :=
  dset index name (match dget index name with Some l => l | None => [] end ++ [pair]).

Definition __init__ (pairs : list field) : t :=
  mk pairs (foldl (fun index pair => index_add (lower pair.1) pair index) [] pairs).

Definition from_lowered (pairs : list field) : t :=
  mk pairs (foldl (fun index pair => index_add pair.1 pair index) [] pairs).

Definition __len__ (h : t) : Z := zlen (_list h).
Definition __eq__ (h1 h2 : t) : bool := bool_decide (_list h1 = _list h2).

Definition __contains__ (name : bytes) (h : t) : bool := dmem (_index h) name || dmem (_index h) (lower name).

Definition __getitem__ (name : bytes) (h : t) : result (list field) :=
  match dget (_index h) name with
  | None => match dget (_index h) (lower name) with Some pairs => Ok pairs | None => Raise KeyError end
  | Some pairs => Ok pairs
  end.

(** The probe the accessors share. *)
Definition probe (name : bytes) (h : t) : option (list field) :=
  match dget (_index h) name with None => dget (_index h) (lower name) | p => p end.

Definition getlist (name : bytes) (h : t) : list field :=
  match probe name h with Some pairs => pairs | None => [] end.

Definition get (name default : bytes) (h : t) : bytes :=
  match probe name h with Some (p :: _) => p.2 | _ => default end.

(** [append(name, value)] and [append(pairs)]. *)
Definition append_pair (name value : bytes) (h : t) : t :=
  mk (_list h ++ [(name, value)]) (index_add (lower name) (name, value) (_index h)).

Definition append_pairs (pairs : list field) (h : t) : t :=
  foldl (fun h pair => append_pair pair.1 pair.2 h) h pairs.

Definition __add__ (h1 h2 : t) : t := __init__ (_list h1 ++ _list h2).

Definition _sf_value (name : bytes) (h : t) : option bytes :=
  match probe name h with
  | None | Some [] => None
  | Some [p] => Some p.2
  | Some pairs => Some (join (lit ", ") pairs.*2)
  end.

(** The accessors differ in the parser they call on the combined value. *)
Definition get_sf {A} (parse : pystr -> result A) (name : bytes) (h : t) : result (option A) :=
  match _sf_value name h with
  | None => Ok None
  | Some value =>
      match parse value with
      | Ok x => Ok (Some x)
      | Raise e => if isa_ValueError e then Ok None else Raise e
      end
  end.

Definition get_sf_item := get_sf parse_item.
Definition get_sf_list := get_sf parse_list.
Definition get_sf_dict := get_sf parse_dictionary.

(** ** The index invariant *)

(** The fields of a name, in order of insertion. *)
Definition named (name : bytes) (l : list field) : list field := filter (fun x => lower x.1 = lower name) l.

(** The index maps each lower-case name to its fields, and nothing else. *)
Definition ok (h : t) : Prop :=
  forall name, dget (_index h) name =
    if decide (is_lower name) then match named name (_list h) with [] => None | l => Some l end else None.

Lemma named_app name l1 l2 : named name (l1 ++ l2) = named name l1 ++ named name l2.
Proof. apply filter_app. Qed.

Lemma named_lower name l : named (lower name) l = named name l.
Proof. unfold named. apply list_filter_iff. intros x. by rewrite lower_idem. Qed.

Lemma named_one key name value :
  named key [(name, value)] = if decide (lower name = lower key) then [(name, value)] else [].
Proof. unfold named. case_decide; [by rewrite filter_cons_True|by rewrite filter_cons_False]. Qed.

Lemma index_add_ok l index name value :
  ok (mk l index) -> ok (mk (l ++ [(name, value)]) (index_add (lower name) (name, value) index)).
Proof.
  intros Hok key. pose proof (Hok (lower name)) as H1. pose proof (Hok key) as H2. unfold index_add.
  cbn [_index _list] in *. rewrite dget_dset, H1, H2.
  rewrite named_app. destruct (decide (lower name = key)) as [Hk|Hk].
  - subst key. rewrite !decide_True by apply lower_idem. rewrite !named_lower, named_one, decide_True by done.
    by destruct (named name l).
  - destruct (decide (is_lower key)) as [Hl|]; [|done].
    rewrite named_one, decide_False, app_nil_r; [done|]. by rewrite Hl.
Qed.

Lemma fold_index_ok pairs l index :
  ok (mk l index) -> ok (mk (l ++ pairs) (foldl (fun index pair => index_add (lower pair.1) pair index) index pairs)).
Proof.
  revert l index. induction pairs as [|[n v] pairs IH]; intros l index Hok; cbn; [by rewrite app_nil_r|].
  change (l ++ (n, v) :: pairs) with (l ++ [(n, v)] ++ pairs). rewrite app_assoc. by apply IH, index_add_ok.
Qed.

Lemma nil_ok : ok (mk [] []).
Proof. intros name. cbn. by case_decide. Qed.

Lemma init_index_ok pairs : ok (__init__ pairs).
Proof. apply (fold_index_ok pairs [] []), nil_ok. Qed.

Lemma append_pair_ok name value h : ok h -> ok (append_pair name value h).
Proof. destruct h. apply index_add_ok. Qed.

Lemma append_pairs_ok pairs h : ok h -> ok (append_pairs pairs h).
Proof. revert h. induction pairs as [|[n v] pairs IH]; intros h Hok; cbn; [done|]. by apply IH, append_pair_ok. Qed.

(** On lower-case names the two constructors agree. *)
Lemma from_lowered_init pairs : Forall (fun x => is_lower x.1) pairs -> from_lowered pairs = __init__ pairs.
Proof.
  intros Hl. unfold from_lowered, __init__. f_equal. generalize (@nil (bytes * list field)).
  induction Hl as [|[n v] pairs Hn Hl IH]; intros index; cbn [foldl]; [done|].
  cbn [fst] in *. by rewrite Hn, IH.
Qed.

(** What can be built. *)
Inductive made : t -> Prop :=
| made_init pairs : made (__init__ pairs)
| made_lowered pairs : Forall (fun x => is_lower x.1) pairs -> made (from_lowered pairs)
| made_append name value h : made h -> made (append_pair name value h)
| made_extend pairs h : made h -> made (append_pairs pairs h)
| made_add h1 h2 : made h1 -> made h2 -> made (__add__ h1 h2).

Lemma made_ok h : made h -> ok h.
Proof.
  induction 1 as [pairs|pairs Hl|name value h _ IH|pairs h _ IH|h1 h2 _ IH1 _ IH2].
  - apply init_index_ok.
  - rewrite from_lowered_init by done. apply init_index_ok.
  - by apply append_pair_ok.
  - by apply append_pairs_ok.
  - apply init_index_ok.
Qed.

Lemma probe_ok h name :
  ok h -> probe name h = match named name (_list h) with [] => None | l => Some l end.
Proof.
  intros Hok. unfold probe. rewrite !Hok, named_lower, (decide_True (P := is_lower (lower name))) by apply lower_idem.
  case_decide; [|done]. by destruct (named name (_list h)).
Qed.

Lemma contains_named h name : ok h -> __contains__ name h = negb (bool_decide (named name (_list h) = [])).
Proof.
  intros Hok. assert (Hc : __contains__ name h = match probe name h with Some _ => true | None => false end).
  { unfold __contains__, probe, dmem. by destruct (dget (_index h) name). }
  rewrite Hc, probe_ok by done. by destruct (named name (_list h)).
Qed.

Lemma getlist_named h name : ok h -> getlist name h = named name (_list h).
Proof. intros Hok. unfold getlist. rewrite probe_ok by done. by destruct (named name (_list h)). Qed.

(** The structured-field accessors never raise. *)
Lemma get_sf_total {A} (parse : pystr -> result A) name h :
  (forall v, (exists x, parse v = Ok x) \/ parse v = Raise ValueError) -> exists r, get_sf parse name h = Ok r.
Proof.
  intros Hp. unfold get_sf. destruct (_sf_value name h) as [v|]; [|eauto].
  destruct (Hp v) as [[x ->] | ->]; cbn; eauto.
Qed.

(** Header lookup is case-insensitive filtering.  Whatever sequence of
    constructions, appends and concatenations made the container, every
    accessor — fast probe included — answers from the fields whose name equals
    the asked one up to ASCII case, in insertion order; [in], [[...]] and the
    default follow; and the structured-field accessors never raise. *)
Theorem lookup_spec h name default :
  made h ->
  let fields := named name (_list h) in
  getlist name h = fields /\
  __contains__ name h = negb (bool_decide (fields = [])) /\
  __getitem__ name h = (if bool_decide (fields = []) then Raise KeyError else Ok fields) /\
  get name default h = match fields with [] => default | f :: _ => f.2 end /\
  _sf_value name h = (if bool_decide (fields = []) then None else Some (join (lit ", ") fields.*2)) /\
  (exists r, get_sf_item name h = Ok r) /\ (exists r, get_sf_list name h = Ok r) /\
  (exists r, get_sf_dict name h = Ok r).
Proof.
  intros Hm fields. pose proof (made_ok h Hm) as Hok. pose proof (probe_ok h name Hok) as Hp.
  fold fields in Hp.
  assert (Hg : __getitem__ name h = match probe name h with Some l => Ok l | None => Raise KeyError end).
  { unfold __getitem__, probe. by repeat case_match. }
  pose proof (contains_named h name Hok) as Hc. fold fields in Hc.
  unfold getlist, get, _sf_value. rewrite Hg, Hc, Hp. destruct fields as [|f [|f' fs]]; cbn; split_and!;
    eauto using get_sf_total, parse_item_total, parse_list_total, parse_dictionary_total.
Qed.

(** A host header and two spellings of one name. *)
Definition sample : t :=
  append_pair (lit "Accept") (lit "b") (from_lowered [(lit "accept", lit "a"); (lit "host", lit "h")]).

Lemma sample_made : made sample.
Proof.
  apply made_append, made_lowered. repeat apply Forall_cons_2; try apply Forall_nil_2; by vm_compute.
Qed.

Lemma sample_getlist : getlist (lit "ACCEPT") sample = [(lit "accept", lit "a"); (lit "Accept", lit "b")].
Proof. vm_compute. reflexivity. Qed.

Lemma lookup_spec_witness :
  let fields := named (lit "ACCEPT") (_list sample) in
  getlist (lit "ACCEPT") sample = fields /\
  __contains__ (lit "ACCEPT") sample = negb (bool_decide (fields = [])) /\
  __getitem__ (lit "ACCEPT") sample = (if bool_decide (fields = []) then Raise KeyError else Ok fields) /\
  get (lit "ACCEPT") [] sample = match fields with [] => [] | f :: _ => f.2 end /\
  _sf_value (lit "ACCEPT") sample = (if bool_decide (fields = []) then None else Some (join (lit ", ") fields.*2)) /\
  (exists r, get_sf_item (lit "ACCEPT") sample = Ok r) /\ (exists r, get_sf_list (lit "ACCEPT") sample = Ok r) /\
  (exists r, get_sf_dict (lit "ACCEPT") sample = Ok r).
Proof. exact (lookup_spec sample (lit "ACCEPT") [] sample_made). Defined.

End HttpHeaders.
