(* ===== verification/Http1Parse.v ===== *)
(** * The HTTP/1.1 head parser (blackbull/server/http1_actor.py, [HTTP1Actor._parse])

    The parser of request heads with its two shortcuts — the per-connection
    cache of validated header lines and the shared table of default lines — and
    its one-pass test that lets it skip the check of field values; message
    framing and Host validation; the verdict on a head that overran the budget;
    the keep-alive predicate.  The actor is the part of [HTTP1Actor] that the
    parser reads and writes.  Log calls and exception messages are left out. *)

From Stdlib Require Import ZArith Lia.
From stdpp Require Import base tactics numbers option strings sets list.
From S2P Require Import Prelude PyLib PyText PyBytes HttpHeaders.
Import HttpHeaders.

Module Http1Parse.

Abbreviation field := (bytes * bytes)%type.
Abbreviation Headers := HttpHeaders.t.

(** ** Octet tables *)

Definition _TCHAR_OCTETS : bytes :=
  lit "!#$%&'*+-.^_`|~" ++ lit "0123456789" ++ lit "ABCDEFGHIJKLMNOPQRSTUVWXYZ"
  ++ lit "abcdefghijklmnopqrstuvwxyz".

(** What [_FIELD_VALUE_INVALID_RE] finds. *)
Definition value_octet_invalid (c : Z) : bool :=
  ((0 <=? c) && (c <=? 8)) || ((10 <=? c) && (c <=? 31)) || (c =? 127).

Definition _FIELD_VALUE_INVALID_RE (value : bytes) : bool := existsb value_octet_invalid value.

Definition _BLOCK_ALLOWED_OCTETS : bytes :=
  filter (fun c => negb ((c <? 0x09) || ((0x0B <=? c) && (c <=? 0x0C)) || ((0x0E <=? c) && (c <=? 0x1F))
                         || (c =? 0x7F)) && negb (bool_decide (c ∈ [0x0A; 0x0D])) = true)
    (seqZ 0 256).

Definition _block_values_are_clean (data : bytes) : bool :=
  let residue := translate _BLOCK_ALLOWED_OCTETS data in
  count_crlf residue * 2 =? zlen residue.

Definition _TARGET_ALLOWED_OCTETS : bytes := seqZ 0x21 (0x7F - 0x21).

Definition _HOST_FORBIDDEN_BYTES : bytes := lit "/?# @" ++ [9].
Definition _HOST_FORBIDDEN_RE (value : bytes) : bool :=
  existsb (fun c => bool_decide (c ∈ _HOST_FORBIDDEN_BYTES)) value.

(** [^HTTP/\d\.\d$]: [$] also matches before a final newline. *)
Definition _HTTP_VERSION_RE (version : bytes) : bool :=
  bool_decide (take 5 version = lit "HTTP/") &&
  match drop 5 version with
  | d :: dot :: e :: rest => is_digit d && (dot =? 46) && is_digit e && bool_decide (rest = [] \/ rest = [10])
  | _ => false
  end.

(** One optional space, then 0 or a numeral without leading zeros. *)
Definition canonical_decimal (v : bytes) : bool :=
  bool_decide (v = [48]) ||
  match v with c :: r => (49 <=? c) && (c <=? 57) && forallb is_digit r | [] => false end.

Definition _CL_STRICT_RE (value : bytes) : bool :=
  canonical_decimal (if bool_decide (head value = Some 32) then tail value else value).

Definition _UNDERSCORE_FRAMING_NAMES : list bytes := [lit "content_length"; lit "transfer_encoding"].

Definition _FRAMING_NAMES : list bytes :=
  [lit "content-length"; lit "transfer-encoding"; lit "host"; lit "expect"; lit "upgrade"; lit "trailer";
   lit "te-framing"].

Definition _LINE_CACHE_MAX : Z := 64.
Definition _LINE_CACHE_MAX_LINE : Z := 1024.
Definition _LINE_CACHE_MAX_BYTES : Z := 8192.

(** ** The shared default line table *)

Definition quoted (s : bytes) : bytes := [34] ++ s ++ [34].

Definition _SPEC_ENUMERATED_LINES : list bytes :=
  ((fun v => lit "Sec-Fetch-Site: " ++ v) <$>
     [lit "cross-site"; lit "same-origin"; lit "same-site"; lit "none"]) ++
  ((fun v => lit "Sec-Fetch-Mode: " ++ v) <$>
     [lit "cors"; lit "navigate"; lit "no-cors"; lit "same-origin"; lit "websocket"]) ++
  ((fun v => lit "Sec-Fetch-Dest: " ++ v) <$>
     [lit "audio"; lit "audioworklet"; lit "document"; lit "embed"; lit "empty"; lit "font"; lit "frame";
      lit "iframe"; lit "image"; lit "manifest"; lit "object"; lit "paintworklet"; lit "report"; lit "script";
      lit "serviceworker"; lit "sharedworker"; lit "style"; lit "track"; lit "video"; lit "worker"; lit "xslt"]) ++
  [lit "Sec-Fetch-User: ?1"; lit "sec-ch-ua-mobile: ?0"; lit "sec-ch-ua-mobile: ?1"] ++
  ((fun v => lit "sec-ch-ua-platform: " ++ quoted v) <$>
     [lit "Android"; lit "Chrome OS"; lit "Chromium OS"; lit "iOS"; lit "Linux"; lit "macOS"; lit "Windows";
      lit "Unknown"]) ++
  [lit "Upgrade-Insecure-Requests: 1"; lit "DNT: 0"; lit "DNT: 1"; lit "TE: trailers"; lit "Pragma: no-cache";
   lit "Connection: keep-alive"; lit "Connection: Keep-Alive"; lit "Connection: close"] ++
  ((fun v => lit "Cache-Control: " ++ v) <$> [lit "no-cache"; lit "no-store"; lit "max-age=0"]) ++
  [lit "Accept: */*"; lit "Accept-Encoding: gzip"; lit "Accept-Encoding: gzip, deflate";
   lit "Accept-Encoding: gzip, deflate, br"; lit "Accept-Encoding: gzip, deflate, br, zstd";
   lit "Accept-Encoding: identity"].

Definition build_line (line : bytes) : result field :=
  match find_char 58 line with
  | None | Some O => Raise ValueError
  | Some colon =>
      if bool_decide (head line = Some 0x20 \/ head line = Some 0x09) then Raise ValueError
      else
        let key := take colon line in
        if negb (bool_decide (translate _TCHAR_OCTETS key = [])) then Raise ValueError
        else
          let lkey := lower key in
          if bool_decide (lkey ∈ _UNDERSCORE_FRAMING_NAMES) || bool_decide (lkey ∈ _FRAMING_NAMES)
          then Raise ValueError
          else
            let value := strip OWS (drop (S colon) line) in
            if _FIELD_VALUE_INVALID_RE value then Raise ValueError
            else if zlen line >? _LINE_CACHE_MAX_LINE then Raise ValueError
            else Ok (lkey, value)
  end.

Fixpoint _build_default_lines (lines : list bytes) (table : dict bytes field) : result (dict bytes field) :=
  match lines with
  | [] => Ok table
  | line :: lines => let* pair := build_line line in _build_default_lines lines (dset table line pair)
  end.

(** Built at import; [default_lines_built] shows that the import does not fail. *)
Definition imported (r : result (dict bytes field)) : dict bytes field :=
  match r with Ok table => table | Raise _ => [] end.

Definition _DEFAULT_LINES : dict bytes field := imported (_build_default_lines _SPEC_ENUMERATED_LINES []).

(** ** Framing and Host *)

Definition _reject_oversized_head (head : bytes) (max_total : Z) : exn :=
  match find_sub [13; 10] head with
  | None => BadRequestError
  | Some first_eol => if Z.of_nat first_eol >=? max_total then BadRequestError else HeaderTooLargeError
  end.

Definition lstrip_zeros (v : bytes) : bytes := lstrip [48] v.

Definition _declares_content (headers : Headers) : bool :=
  if negb (bool_decide (getlist (lit "transfer-encoding") headers = [])) then true
  else
    let cl := strip WHITESPACE (get (lit "content-length") [] headers) in
    negb (bool_decide (cl = [])) && negb (bool_decide (lstrip_zeros cl = [])).

(** The values of [Content-Length], comma-separated and repeated, without their
    leading zeros. *)
Fixpoint length_values (vs : list bytes) : result (list bytes) :=
  match vs with
  | [] => Ok []
  | v :: vs =>
      let v := strip WHITESPACE v in
      if bool_decide (v = []) || negb (isdigit v) then Raise BadRequestError
      else
        let* rest := length_values vs in
        Ok ((if bool_decide (lstrip_zeros v = []) then [48] else lstrip_zeros v) :: rest)
  end.

Definition codings_of (tes : list field) : list bytes :=
  (fun c => lower (strip WHITESPACE c)) <$> (tes ≫= fun x => split_on 44 x.2).

Definition _validate_message_framing (headers : Headers) : result Z :=
  let cls := getlist (lit "content-length") headers in
  let tes := getlist (lit "transfer-encoding") headers in
  if negb (bool_decide (cls = [])) && negb (bool_decide (tes = [])) then Raise BadRequestError
  else
    let* declared :=
      if bool_decide (cls = []) then Ok 0
      else
        let* values := length_values (cls ≫= fun x => split_on 44 x.2) in
        match values with
        | [] => Raise RuntimeError
        | v :: vs => if forallb (fun w => bool_decide (w = v)) vs then int_digits v else Raise BadRequestError
        end in
    if bool_decide (tes = []) then Ok declared
    else
      let codings := codings_of tes in
      let chunked := lit "chunked" in
      if bool_decide (codings = [chunked]) then Ok declared
      else if negb (bool_decide (chunked ∈ codings)) then Raise NotImplementedFramingError
      else if negb (bool_decide (last codings = Some chunked))
              || (1 <? zlen (filter (fun c => c = chunked) codings)) then Raise BadRequestError
      else Raise NotImplementedFramingError.

Definition _parse_host_header (value : bytes) (default_port : Z) : result (pystr * Z) :=
  let whole := rmap (fun host => (host, default_port)) (utf8_decode value) in
  if bool_decide (head value = Some 91) then
    match find_char 93 value with
    | Some end_ =>
        let* host := utf8_decode (drop 1 (take end_ value)) in
        let rest := drop (S end_) value in
        if bool_decide (head rest = Some 58) && isdigit (tail rest)
        then let* port := int_digits (tail rest) in Ok (host, port)
        else Ok (host, default_port)
    | None => whole
    end
  else
    let '(host, sep, port_s) := rpartition_char 58 value in
    if sep && isdigit port_s then
      let* host := utf8_decode host in let* port := int_digits port_s in Ok (host, port)
    else whole.

Definition _validate_host (headers : Headers) : result unit :=
  match getlist (lit "host") headers with
  | [] => Ok tt
  | [h] =>
      let value := strip OWS h.2 in
      if bool_decide (value = []) then Raise BadRequestError
      else if _HOST_FORBIDDEN_RE value then Raise BadRequestError
      else Ok tt
  | _ => Raise BadRequestError
  end.

(** ** The parser *)

(** The fields of [Connection] the parser fills. *)
Record Connection : Type := mkConnection {
  type_ : pystr;
  http_version : bytes;
  method : bytes;
  scheme : pystr;
  path : pystr;
  raw_path : bytes;
  query_string : bytes;
  headers : Headers;
  server : option (pystr * Z);
  _asterisk_form : bool
}.

(** What [_parse] reads and writes of the actor. *)
Record actor : Type := mkActor {
  _ssl : bool;
  _max_line : Z;
  _line_cache : dict bytes field;
  _line_cache_bytes : Z;
  _declared_body_len : Z
}.

Definition set_cache (c : dict bytes field) (n : Z) (a : actor) : actor :=
  mkActor (_ssl a) (_max_line a) c n (_declared_body_len a).

Definition set_declared (n : Z) (a : actor) : actor :=
  mkActor (_ssl a) (_max_line a) (_line_cache a) (_line_cache_bytes a) n.

(** The request line, with the target's form decided. *)
Record request_line : Type := mkRequestLine {
  rl_method : bytes;
  rl_version : bytes;
  rl_authority : option bytes;
  rl_asterisk : bool;
  rl_raw_path : bytes;
  rl_query : bytes
}.

(** The path of the target, the authority that overrides Host, and whether it
    is the asterisk form. *)
Definition target_form (method path : bytes) : result (bytes * option bytes * bool) :=
  if bool_decide (method = lit "CONNECT") then Raise NotImplementedFramingError
  else if bool_decide (path = [42]) then
    if negb (bool_decide (method = lit "OPTIONS")) then Raise BadRequestError else Ok (path, None, true)
  else
    match find_sub (lit "://") path with
    | Some ss =>
        if bool_decide (47 ∈ take ss path) then Ok (path, None, false)
        else
          let rest := drop (ss + 3) path in
          let '(authority, path) :=
            match find_char 47 rest with
            | None => (rest, [47])
            | Some slash => (take slash rest, drop slash rest)
            end in
          if bool_decide (authority = []) then Raise BadRequestError else Ok (path, Some authority, false)
    | None => Ok (path, None, false)
    end.

Definition parse_request_line (line : bytes) : result request_line :=
  match split_on 32 line with
  | [method; path; version] =>
      if bool_decide (method = []) || negb (bool_decide (translate _TCHAR_OCTETS method = []))
      then Raise BadRequestError
      else if negb (_HTTP_VERSION_RE version) then Raise BadRequestError
      else if negb (bool_decide (version !! 5%nat = Some 49)) then Raise UnsupportedVersionError
      else
        let* '(path, authority, asterisk) := target_form method path in
        if negb asterisk
           && (bool_decide (path = []) || negb (bool_decide (translate _TARGET_ALLOWED_OCTETS path = [])))
        then Raise BadRequestError
        else if (asterisk : bool) then Ok (mkRequestLine method version authority true [42] [])
        else
          let '(no_frag, _, _) := partition_char 35 path in
          let '(raw_path, _, query) := partition_char 63 no_frag in
          Ok (mkRequestLine method version authority false raw_path query)
  | _ => Raise BadRequestError
  end.

(** The head up to the header lines. *)
Definition prologue (max_line : Z) (data : bytes) : result (request_line * list bytes) :=
  let lines := split_crlf data in
  if (0 <? max_line) && (max_line <? zlen data) && existsb (fun ln => max_line <? zlen ln) lines
  then Raise HeaderTooLargeError
  else
    match (match lines with [] :: rest => rest | _ => lines end) with
    | [] => Raise BadRequestError
    | line :: rest => let* rl := parse_request_line line in Ok (rl, rest)
    end.

(** The checks of one header line. *)
Definition check_line (values_need_checking : bool) (line : bytes) : result field :=
  if bool_decide (head line = Some 0x20 \/ head line = Some 0x09) then Raise BadRequestError
  else
    match find_char 58 line with
    | None | Some O => Raise BadRequestError
    | Some colon =>
        let key := take colon line in
        let value := drop (S colon) line in
        if negb (bool_decide (translate _TCHAR_OCTETS key = [])) then Raise BadRequestError
        else
          let lkey := lower key in
          if bool_decide (lkey ∈ _UNDERSCORE_FRAMING_NAMES) then Raise BadRequestError
          else if bool_decide (lkey = lit "content-length") && negb (_CL_STRICT_RE value)
          then Raise BadRequestError
          else
            let value := strip OWS value in
            if values_need_checking && _FIELD_VALUE_INVALID_RE value then Raise BadRequestError
            else Ok (lkey, value)
    end.

(** The lookups and the admission of a line. *)
Definition cacheable (line : bytes) : bool := zlen line <=? _LINE_CACHE_MAX_LINE.

Definition lookup_line (do_lookup : bool) (a : actor) (line : bytes) : option field :=
  if cacheable line then
    match (if do_lookup then dget (_line_cache a) line else None) with
    | None => dget _DEFAULT_LINES line
    | hit => hit
    end
  else None.

Definition admit_line (line : bytes) (pair : field) (a : actor) : actor :=
  if cacheable line && (zlen (_line_cache a) <? _LINE_CACHE_MAX)
     && (_line_cache_bytes a + zlen line <=? _LINE_CACHE_MAX_BYTES)
  then set_cache (dset (_line_cache a) line pair) (_line_cache_bytes a + zlen line) a
  else a.

Fixpoint header_loop (do_lookup values_need_checking : bool) (lines : list bytes) (raw : list field)
    (a : actor) : actor * result (list field) :=
  match lines with
  | [] => (a, Ok raw)
  | [] :: lines => header_loop do_lookup values_need_checking lines raw a
  | line :: lines =>
      match lookup_line do_lookup a line with
      | Some hit => header_loop do_lookup values_need_checking lines (raw ++ [hit]) a
      | None =>
          match check_line values_need_checking line with
          | Raise e => (a, Raise e)
          | Ok kv => header_loop do_lookup values_need_checking lines (raw ++ [kv]) (admit_line line kv a)
          end
      end
  end.

(** The Host override and the framing of the message. *)
Definition framing (rl : request_line) (raw : list field) : result (Headers * Z) :=
  let raw :=
    match rl_authority rl with
    | Some authority => filter (fun x => x.1 <> lit "host") raw ++ [(lit "host", authority)]
    | None => raw
    end in
  let headers := from_lowered raw in
  if 1 <? zlen (getlist (lit "content-type") headers) then Raise BadRequestError
  else let* declared := _validate_message_framing headers in Ok (headers, declared).

Definition finish (ssl : bool) (rl : request_line) (headers : Headers) : result Connection :=
  let* _ := _validate_host headers in
  if negb (bool_decide (rl_version rl = lit "HTTP/1.0")) && bool_decide (getlist (lit "host") headers = [])
  then Raise BadRequestError
  else
    let* server :=
      if bool_decide (getlist (lit "host") headers = []) then Ok None
      else rmap Some (_parse_host_header (get (lit "host") [] headers) (if ssl then 443 else 80)) in
    let websocket :=
      negb (bool_decide (getlist (lit "upgrade") headers = []))
      && bool_decide (lower (strip WHITESPACE (get (lit "upgrade") [] headers)) = lit "websocket") in
    Ok (mkConnection (if websocket then lit "websocket" else lit "http") (drop 5 (rl_version rl)) (rl_method rl)
          (if websocket then lit "ws" else lit "http") (unquote (rl_raw_path rl)) (rl_raw_path rl) (rl_query rl)
          headers server (rl_asterisk rl)).

Definition _parse (data : bytes) (a : actor) : actor * result Connection :=
  match prologue (_max_line a) data with
  | Raise e => (a, Raise e)
  | Ok (rl, lines) =>
      let values_need_checking := negb (_block_values_are_clean data) in
      let do_lookup := 0 <? zlen (_line_cache a) in
      match header_loop do_lookup values_need_checking lines [] a with
      | (a, Raise e) => (a, Raise e)
      | (a, Ok raw) =>
          match framing rl raw with
          | Raise e => (a, Raise e)
          | Ok (headers, declared) => (set_declared declared a, finish (_ssl a) rl headers)
          end
      end
  end.

(** What [run] adds to the request it has parsed: the address of the socket
    where the request names no host, and the scheme of a connection under TLS
    ([client], the address of the peer, is a field the model leaves out). *)
Definition _fill_connection_info (ssl : bool) (sockname : option (pystr * Z)) (conn : Connection) : Connection :=
  mkConnection (type_ conn) (http_version conn) (method conn)
    (if ssl then if bool_decide (type_ conn = lit "websocket") then lit "wss" else lit "https" else scheme conn)
    (path conn) (raw_path conn) (query_string conn) (headers conn)
    (match server conn with None => sockname | found => found end) (_asterisk_form conn).

Definition _should_keep_alive (conn : Connection) : bool :=
  let connection := lower (get (lit "connection") [] (headers conn)) in
  if bool_decide (http_version conn = lit "1.1") then negb (bool_decide (connection = lit "close"))
  else bool_decide (connection = lit "keep-alive").

(** ** The parser without its shortcuts *)

(** Every line checked, every value scanned, nothing remembered. *)
Fixpoint check_lines (lines : list bytes) : result (list field) :=
  match lines with
  | [] => Ok []
  | [] :: lines => check_lines lines
  | line :: lines =>
      let* kv := check_line true line in
      let* rest := check_lines lines in Ok (kv :: rest)
  end.

Definition reference (ssl : bool) (max_line : Z) (data : bytes) : result Connection :=
  let* '(rl, lines) := prologue max_line data in
  let* raw := check_lines lines in
  let* '(headers, _) := framing rl raw in
  finish ssl rl headers.

(** The heads of one connection, in order. *)
Fixpoint parse_all (heads : list bytes) (a : actor) : list (result Connection) * actor :=
  match heads with
  | [] => ([], a)
  | data :: heads =>
      let '(a, r) := _parse data a in
      let '(rs, a) := parse_all heads a in (r :: rs, a)
  end.

Definition fresh (ssl : bool) (max_line : Z) : actor := mkActor ssl max_line [] 0 0.

Definition key_bytes (c : dict bytes field) : Z := foldr (fun x n => zlen x.1 + n) 0 c.

(** ** Lines *)

Definition no_cr (data : bytes) : Prop := Forall (fun line => 13 ∉ line) (split_crlf data).

(** An entry that replays what checking its line gives. *)
Definition entry_ok (x : bytes * field) : Prop :=
  x.1 <> [] /\ zlen x.1 <= _LINE_CACHE_MAX_LINE /\ check_line false x.1 = Ok x.2 /\
  ((13 ∉ x.1) -> check_line true x.1 = Ok x.2).

Record cache_ok (a : actor) : Prop := mkCacheOk {
  co_entries : Forall entry_ok (_line_cache a);
  co_count : zlen (_line_cache a) <= _LINE_CACHE_MAX;
  co_size : key_bytes (_line_cache a) <= _line_cache_bytes a;
  co_bytes : _line_cache_bytes a <= _LINE_CACHE_MAX_BYTES
}.

Lemma default_lines_built : exists table, _build_default_lines _SPEC_ENUMERATED_LINES [] = Ok table /\ zlen table = 58.
Proof. eexists. split; vm_compute; reflexivity. Qed.

Definition replays (x : bytes * field) : bool :=
  negb (bool_decide (x.1 = [])) && (zlen x.1 <=? _LINE_CACHE_MAX_LINE) &&
  match check_line true x.1 with Ok kv => bool_decide (kv = x.2) | Raise _ => false end.

Lemma default_lines_replay : forallb replays _DEFAULT_LINES = true.
Proof. vm_compute. reflexivity. Qed.

Lemma check_line_false line kv : check_line true line = Ok kv -> check_line false line = Ok kv.
Proof.
  unfold check_line. case_bool_decide; [done|]. destruct (find_char 58 line) as [[|colon]|]; [done| |done].
  destruct (negb _); [done|]. case_bool_decide; [done|]. destruct (_ && _); [done|]. cbn [andb].
  by destruct (_FIELD_VALUE_INVALID_RE _).
Qed.

(** The scan of a value finds nothing in a line without forbidden octets. *)
Lemma check_line_clean line : existsb value_octet_invalid line = false -> check_line false line = check_line true line.
Proof.
  intros H. unfold check_line. case_bool_decide; [done|]. destruct (find_char 58 line) as [[|colon]|]; [done| |done].
  destruct (negb _); [done|]. case_bool_decide; [done|]. destruct (_ && _); [done|]. cbn [andb].
  destruct (_FIELD_VALUE_INVALID_RE _) eqn:E; [|done].
  apply existsb_exists in E as (c & Hc & Ec). apply list_elem_of_In, strip_elem in Hc.
  assert (Hin : c ∈ line) by (rewrite <- (take_drop (S (S colon)) line); set_solver).
  apply not_true_iff_false in H. destruct H. apply existsb_exists. exists c. by rewrite <- list_elem_of_In.
Qed.

Lemma default_entry line kv : dget _DEFAULT_LINES line = Some kv -> entry_ok (line, kv).
Proof.
  intros H%dget_elem. pose proof default_lines_replay as Hr. rewrite <- Is_true_true, forallb_True, Forall_forall in Hr.
  specialize (Hr _ H). unfold replays in Hr. cbn [fst snd] in Hr. rewrite !andb_True in Hr.
  destruct Hr as [[Hne Hlen] Hc]. destruct (check_line true line) as [kv'|] eqn:E; [|done].
  apply bool_decide_unpack in Hc as ->. apply negb_True in Hne. apply Is_true_true, Z.leb_le in Hlen.
  split_and!; cbn [fst snd]; [by intros ->|done|by apply check_line_false|done].
Qed.

Lemma cached_entry a line kv : cache_ok a -> dget (_line_cache a) line = Some kv -> entry_ok (line, kv).
Proof. intros [He _ _ _] H%dget_elem. rewrite Forall_forall in He. by apply He. Qed.

Lemma lookup_entry do_lookup a line kv : cache_ok a -> lookup_line do_lookup a line = Some kv -> entry_ok (line, kv).
Proof.
  intros Ha. unfold lookup_line. destruct (cacheable line); [|done].
  destruct do_lookup; [|apply default_entry].
  destruct (dget (_line_cache a) line) as [kv'|] eqn:E; [|apply default_entry].
  intros [= <-]. by eapply cached_entry.
Qed.

Lemma key_bytes_dset c line kv : key_bytes (dset c line kv) <= key_bytes c + zlen line.
Proof.
  unfold key_bytes. pose proof (zlen_nonneg line).
  induction c as [|[k v] c IH]; cbn in *; [lia|]. case_decide; cbn in *; lia.
Qed.

Lemma admit_ok line kv a :
  cache_ok a -> (zlen line <= _LINE_CACHE_MAX_LINE -> entry_ok (line, kv)) -> cache_ok (admit_line line kv a).
Proof.
  intros [He Hc Hs Hb] Hk. unfold admit_line. destruct (_ && _) eqn:E; [|by constructor].
  apply andb_prop in E as [E E2]. apply andb_prop in E as [E0 E1].
  apply Z.ltb_lt in E1. apply Z.leb_le in E2. apply Z.leb_le in E0. specialize (Hk E0). pose proof (key_bytes_dset (_line_cache a) line kv).
  constructor; cbn [set_cache _line_cache _line_cache_bytes];
    [by apply Forall_dset; [|intros ? ->]|unfold zlen in *; rewrite length_dset|lia|done].
  destruct (dmem _ _); lia.
Qed.

Lemma admit_same line kv a :
  _ssl (admit_line line kv a) = _ssl a /\ _max_line (admit_line line kv a) = _max_line a.
Proof. unfold admit_line. by destruct (_ && _). Qed.

(** Where the lines hold no CR, and hold no forbidden octet when the values are
    not scanned, the loop is [check_lines]. *)
Lemma header_loop_ref dl vnc lines raw a :
  cache_ok a -> Forall (fun line => (13 ∉ line) /\ (vnc = false -> existsb value_octet_invalid line = false)) lines ->
  exists a', header_loop dl vnc lines raw a = (a', rmap (app raw) (check_lines lines)) /\
    cache_ok a' /\ _ssl a' = _ssl a /\ _max_line a' = _max_line a.
Proof.
  intros Ha Hl. revert raw a Ha. induction Hl as [|line lines [Hcr Hv] Hl IH]; intros raw a Ha.
  { exists a. cbn. by rewrite app_nil_r. }
  destruct line as [|c line]; [apply (IH raw a Ha)|]. set (l := c :: line) in *.
  assert (Hcheck : check_line vnc l = check_line true l).
  { destruct vnc; [done|]. by apply check_line_clean, Hv. }
  cbn [header_loop check_lines]. fold l. destruct (lookup_line dl a l) as [kv|] eqn:E.
  - apply (lookup_entry _ _ _ _ Ha) in E as (_ & _ & _ & Ec). cbn [fst snd] in Ec. rewrite (Ec Hcr). cbn [rbind].
    destruct (IH (raw ++ [kv]) a Ha) as (a' & -> & H). exists a'. split; [|done]. f_equal.
    destruct (check_lines lines); cbn; [|done]. by rewrite <- app_assoc.
  - rewrite Hcheck. destruct (check_line true l) as [kv|e] eqn:Ec; cbn [rbind]; [|by exists a].
    assert (Hk : cache_ok (admit_line l kv a)).
    { apply admit_ok; [done|]. intros Hlen. split_and!; [done|done|by apply check_line_false|done]. }
    destruct (IH (raw ++ [kv]) (admit_line l kv a) Hk) as (a' & -> & H & Hs & Hm). exists a'.
    destruct (admit_same l kv a) as [Es Em]. split; [|by rewrite Hs, Hm]. f_equal.
    destruct (check_lines lines); cbn; [|done]. by rewrite <- app_assoc.
Qed.

(** What the one-pass test of the block decides about its lines. *)
Lemma residue_elem line c : c ∈ line -> value_octet_invalid c = true -> c ∈ translate _BLOCK_ALLOWED_OCTETS line.
Proof.
  intros Hc Hi. apply list_elem_of_filter. split; [|done]. intros [H _]%list_elem_of_filter.
  unfold value_octet_invalid in Hi. apply andb_prop in H as [H H2]. apply negb_true_iff, bool_decide_eq_false in H2.
  rewrite not_elem_of_cons, not_elem_of_cons in H2. lia.
Qed.

Lemma clean_block_line data line :
  _block_values_are_clean data = true -> line ∈ split_crlf data -> (13 ∉ line) ->
  existsb value_octet_invalid line = false.
Proof.
  intros Hd (pre & post & -> & Hp)%split_crlf_elem Hcr. apply not_true_iff_false. intros (c & Hc & Hi)%existsb_exists.
  apply list_elem_of_In in Hc. apply Z.eqb_eq, count_crlf_tiled in Hd. rewrite !translate_app in Hd.
  apply tiled_after in Hd.
  2:{ destruct Hp as [-> |[p ->]]; [by left|right]. rewrite translate_app. by rewrite last_app. }
  pose proof (residue_elem line c Hc Hi) as Hr. remember (translate _ line) as r eqn:Er. destruct r as [|x r]; [set_solver|].
  assert (Hx : x ∈ line).
  { assert (Hx : x ∈ translate _BLOCK_ALLOWED_OCTETS line) by (rewrite <- Er; set_solver).
    by apply list_elem_of_filter in Hx as [_ Hx]. }
  destruct r, (translate _ post); cbn in Hd; naive_solver.
Qed.

Lemma prologue_lines max_line data rl lines line :
  prologue max_line data = Ok (rl, lines) -> line ∈ lines -> line ∈ split_crlf data.
Proof.
  unfold prologue. destruct (_ && _ && _); [done|]. intros Hp Hl.
  destruct (split_crlf data) as [|[|? ?] [|? ?]]; try done;
    destruct (parse_request_line _); cbn [rbind] in Hp; simplify_eq; set_solver.
Qed.

Lemma no_cr_lines data max_line rl lines :
  prologue max_line data = Ok (rl, lines) -> no_cr data ->
  Forall (fun line => (13 ∉ line) /\
    (negb (_block_values_are_clean data) = false -> existsb value_octet_invalid line = false)) lines.
Proof.
  intros Hp Hn. unfold no_cr in Hn. rewrite Forall_forall in *. intros line Hl.
  pose proof (prologue_lines _ _ _ _ _ Hp Hl) as Hin.
  split; [by apply Hn|]. intros Hc%negb_false_iff. apply (clean_block_line data); auto.
Qed.

(** What an accepted line became. *)
Definition came_from (lines : list bytes) (kv : field) : Prop :=
  exists line, line ∈ lines /\ check_line false line = Ok kv /\ ((13 ∉ line) -> check_line true line = Ok kv).

Lemma check_line_raise vnc line e : check_line vnc line = Raise e -> e = BadRequestError.
Proof.
  unfold check_line. case_bool_decide; [congruence|]. destruct (find_char 58 line) as [[|colon]|]; [congruence| |congruence].
  destruct (negb _); [congruence|]. case_bool_decide; [congruence|]. destruct (_ && _); [congruence|].
  destruct (_ && _); congruence.
Qed.

Lemma check_line_relax vnc line kv : check_line vnc line = Ok kv -> check_line false line = Ok kv.
Proof. destruct vnc; [apply check_line_false|done]. Qed.

Lemma header_loop_sound dl vnc lines raw a a' r :
  cache_ok a ->
  Forall (fun line => (13 ∉ line) -> vnc = false -> existsb value_octet_invalid line = false) lines ->
  header_loop dl vnc lines raw a = (a', r) ->
  cache_ok a' /\ _ssl a' = _ssl a /\ _max_line a' = _max_line a /\
  match r with
  | Ok raw' => exists new, raw' = raw ++ new /\ Forall (came_from lines) new
  | Raise e => e = BadRequestError
  end.
Proof.
  intros Ha Hl. revert raw a Ha. induction Hl as [|line lines Hv Hl IH]; intros raw a Ha.
  { intros [= <- <-]. split_and!; try done. exists []. by rewrite app_nil_r. }
  assert (Hweak : forall kv, came_from lines kv -> came_from (line :: lines) kv).
  { intros kv (l & ? & ?). exists l. split; [set_solver|done]. }
  assert (Hstep : forall a1 kv, came_from (line :: lines) kv -> cache_ok a1 -> _ssl a1 = _ssl a -> _max_line a1 = _max_line a ->
    header_loop dl vnc lines (raw ++ [kv]) a1 = (a', r) -> cache_ok a' /\ _ssl a' = _ssl a /\ _max_line a' = _max_line a /\
    match r with
    | Ok raw' => exists new, raw' = raw ++ new /\ Forall (came_from (line :: lines)) new
    | Raise e => e = BadRequestError
    end).
  { intros a1 kv Hkv H1 Hs Hm Hloop. destruct (IH _ _ H1 Hloop) as (H2 & -> & -> & Hr). split_and!; try done.
    destruct r as [raw'|]; [|done]. destruct Hr as (new & -> & Hnew). exists (kv :: new).
    rewrite <- app_assoc. split; [done|]. constructor; [done|]. by eapply Forall_impl. }
  destruct line as [|c line].
  { intros Hloop. destruct (IH _ _ Ha Hloop) as (H2 & -> & -> & Hr). split_and!; try done.
    destruct r as [raw'|]; [|done]. destruct Hr as (new & -> & Hnew). exists new. split; [done|]. by eapply Forall_impl. }
  cbn [header_loop]. set (l := c :: line) in *. destruct (lookup_line dl a l) as [kv|] eqn:E.
  - apply (lookup_entry _ _ _ _ Ha) in E as (_ & _ & E1 & E2). apply Hstep; try done. by exists l; split; [left|].
  - destruct (check_line vnc l) as [kv|e] eqn:Ec.
    + assert (Ht : (13 ∉ l) -> check_line true l = Ok kv).
      { intros Hcr. destruct vnc; [done|]. rewrite <- check_line_clean; [done|]. by apply Hv. }
      pose proof (check_line_relax _ _ _ Ec). destruct (admit_same l kv a) as [Es Em].
      apply Hstep; [by exists l; split; [left|]| |done..]. by apply admit_ok.
    + intros [= <- <-]. split_and!; try done. by eapply check_line_raise.
Qed.

Lemma lines_scanned data max_line rl lines :
  prologue max_line data = Ok (rl, lines) ->
  Forall (fun line => (13 ∉ line) -> negb (_block_values_are_clean data) = false ->
    existsb value_octet_invalid line = false) lines.
Proof.
  intros Hp. apply Forall_forall. intros line Hl Hcr Hc%negb_false_iff.
  apply (clean_block_line data); [done|by eapply prologue_lines|done].
Qed.

(** ** Accepted fields *)

Lemma list_from_lowered pairs : _list (from_lowered pairs) = pairs.
Proof. reflexivity. Qed.

Lemma getlist_lowered pairs name :
  Forall (fun x => is_lower x.1) pairs -> getlist name (from_lowered pairs) = named name pairs.
Proof.
  intros Hl. unfold getlist. rewrite probe_ok by (rewrite from_lowered_init by done; apply init_index_ok).
  rewrite list_from_lowered. by destruct (named name pairs).
Qed.

(** What every accepted field satisfies. *)
Record line_field (kv : field) : Prop := mkLineField {
  lf_nonempty : kv.1 <> [];
  lf_token : Forall (fun c => c ∈ _TCHAR_OCTETS) kv.1;
  lf_lower : is_lower kv.1;
  lf_plain : kv.1 ∉ _UNDERSCORE_FRAMING_NAMES;
  lf_length : kv.1 = lit "content-length" -> canonical_decimal kv.2 = true
}.

Lemma lower_tchar c : c ∈ _TCHAR_OCTETS -> lower_byte c ∈ _TCHAR_OCTETS.
Proof.
  assert (H : forallb (fun c => bool_decide (lower_byte c ∈ _TCHAR_OCTETS)) _TCHAR_OCTETS = true)
    by (vm_compute; reflexivity).
  rewrite <- Is_true_true, forallb_True, Forall_forall in H. intros Hc. by apply (bool_decide_unpack _), H.
Qed.

Lemma canonical_octets v : canonical_decimal v = true -> v <> [] /\ Forall (fun c => is_digit c = true) v.
Proof.
  unfold canonical_decimal. intros [->%bool_decide_eq_true | H]%orb_prop; [by split; [|repeat constructor]|].
  destruct v as [|c r]; [done|]. split; [done|]. apply andb_prop in H as [H Hr]. constructor.
  - unfold is_digit. lia.
  - rewrite <- Is_true_true, forallb_True in Hr. eapply Forall_impl; [exact Hr|]. by intros ? ?%Is_true_true.
Qed.

Lemma strip_digits set v :
  Forall (fun c => is_digit c = true) v -> Forall (fun c => is_digit c = false) set -> strip set v = v.
Proof.
  rewrite !Forall_forall. intros Hv Hs. apply strip_id; intros c Hc Hin.
  - destruct v; simplify_eq/=. specialize (Hv c ltac:(set_solver)). by rewrite Hs in Hv.
  - apply last_Some in Hc as [l ->]. specialize (Hv c ltac:(set_solver)). by rewrite Hs in Hv.
Qed.

Lemma OWS_no_digit : Forall (fun c => is_digit c = false) OWS.
Proof. by repeat constructor. Qed.

Lemma WHITESPACE_no_digit : Forall (fun c => is_digit c = false) WHITESPACE.
Proof. by repeat constructor. Qed.

Lemma strict_strip v : _CL_STRICT_RE v = true -> canonical_decimal (strip OWS v) = true.
Proof.
  unfold _CL_STRICT_RE. case_bool_decide as H; intros Hc; pose proof (canonical_octets _ Hc) as [_ Hd].
  - destruct v as [|c v]; simplify_eq/=. unfold strip. cbn [lstrip]. rewrite bool_decide_true by (by left).
    change (rstrip OWS (lstrip OWS v)) with (strip OWS v). by rewrite (strip_digits OWS v Hd OWS_no_digit).
  - by rewrite (strip_digits OWS v Hd OWS_no_digit).
Qed.

Lemma check_line_field line kv : check_line false line = Ok kv -> line_field kv.
Proof.
  unfold check_line. case_bool_decide; [done|]. destruct (find_char 58 line) as [[|colon]|] eqn:Ef; [done| |done].
  case_bool_decide as Ht; [|done]. cbn [negb]. apply translate_nil in Ht.
  case_bool_decide as Hu; [done|]. destruct (bool_decide (lower _ = _) && _) eqn:Ec; [done|].
  cbn [andb]. intros [= <-]. constructor; cbn [fst snd].
  - rewrite lower_nil. destruct line; [done|]. by cbn.
  - apply Forall_fmap. eapply Forall_impl; [exact Ht|]. intros c Hc. by apply lower_tchar.
  - apply lower_idem.
  - done.
  - intros Hl. rewrite bool_decide_true in Ec by done. by apply negb_false_iff, strict_strip in Ec.
Qed.

Lemma check_line_value line kv : check_line true line = Ok kv -> existsb value_octet_invalid kv.2 = false.
Proof.
  unfold check_line. case_bool_decide; [done|]. destruct (find_char 58 line) as [[|colon]|]; [done| |done].
  destruct (negb _); [done|]. case_bool_decide; [done|]. destruct (_ && _); [done|]. cbn [andb].
  unfold _FIELD_VALUE_INVALID_RE. destruct (existsb _ _) eqn:E; [done|]. by intros [= <-].
Qed.

Lemma host_field kv : kv.1 = lit "host" -> line_field kv.
Proof.
  destruct kv as [k v]; cbn [fst]. intros ->. constructor; cbn [fst snd]; [done| |done| |done];
    decide_it.
Qed.

(** The fields after the Host override. *)
Lemma framing_inv rl raw headers n :
  framing rl raw = Ok (headers, n) ->
  exists fields, headers = from_lowered fields /\
    (forall kv, kv ∈ fields -> kv ∈ raw \/ (kv.1 = lit "host" /\ rl_authority rl = Some kv.2)) /\
    zlen (getlist (lit "content-type") headers) <= 1 /\ _validate_message_framing headers = Ok n.
Proof.
  unfold framing. set (fields := match rl_authority rl with Some _ => _ | None => raw end).
  destruct (Z.ltb_spec 1 (zlen (getlist (lit "content-type") (from_lowered fields)))); [done|].
  intros Hf. inv_ok. exists fields. split_and!; try done. intros kv Hkv. unfold fields in Hkv.
  destruct (rl_authority rl) as [auth|]; [|by left]. apply elem_of_app in Hkv as [[_ ?]%list_elem_of_filter|Hkv]; [by left|].
  apply list_elem_of_singleton in Hkv as ->. by right.
Qed.

Lemma length_values_canonical vs :
  Forall (fun v => canonical_decimal v = true) vs -> length_values vs = Ok vs.
Proof.
  induction 1 as [|v vs Hv _ IH]; [done|]. cbn [length_values]. pose proof (canonical_octets v Hv) as [Hne Hd].
  rewrite (strip_digits WHITESPACE v Hd WHITESPACE_no_digit), IH. rewrite bool_decide_false by done.
  assert (Hi : isdigit v = true).
  { unfold isdigit. rewrite bool_decide_false by done. cbn [negb andb]. apply forallb_forall. intros c Hc.
    rewrite Forall_forall in Hd. apply Hd. by apply list_elem_of_In. }
  rewrite Hi. cbn [negb orb rbind]. do 2 f_equal. unfold canonical_decimal in Hv. unfold lstrip_zeros.
  apply orb_prop in Hv as [->%bool_decide_eq_true|Hv]; [done|]. destruct v as [|c v]; [done|].
  apply andb_prop in Hv as [Hc _]. rewrite lstrip_id; [by rewrite bool_decide_false|].
  intros d [= <-]. rewrite list_elem_of_singleton. lia.
Qed.

Lemma canonical_split v : canonical_decimal v = true -> split_on 44 v = [v].
Proof.
  intros [_ Hd]%canonical_octets. apply split_on_absent. intros Hc. rewrite Forall_forall in Hd. by specialize (Hd _ Hc).
Qed.

(** A single field whose value is one coding. *)
Lemma single_coding tes c : codings_of tes = [c] -> exists te, tes = [te] /\ lower (strip WHITESPACE te.2) = c.
Proof.
  unfold codings_of. destruct tes as [|te tes]; [done|]. rewrite bind_cons, fmap_app.
  pose proof (join_split_on 44 te.2) as Hj. pose proof (split_on_nonempty 44 te.2).
  destruct (split_on 44 te.2) as [|y [|y' ys]]; [done| |done]. cbn. intros [= <- Hrest].
  cbn in Hj. subst y. destruct tes as [|te' tes]; [by exists te|].
  rewrite bind_cons, fmap_app in Hrest. pose proof (split_on_nonempty 44 te'.2). by destruct (split_on 44 te'.2).
Qed.

(** The three ways a message may be framed. *)
Definition framed (headers : Headers) (n : Z) : Prop :=
  let cls := getlist (lit "content-length") headers in
  let tes := getlist (lit "transfer-encoding") headers in
  (cls = [] /\ tes = [] /\ n = 0) \/
  (tes = [] /\ cls <> [] /\ Forall (fun x => canonical_decimal x.2 = true /\ int_digits x.2 = Ok n) cls) \/
  (cls = [] /\ n = 0 /\ exists te, tes = [te] /\ lower (strip WHITESPACE te.2) = lit "chunked").

Lemma framing_framed headers n :
  Forall (fun x => canonical_decimal x.2 = true) (getlist (lit "content-length") headers) ->
  _validate_message_framing headers = Ok n -> framed headers n.
Proof.
  unfold _validate_message_framing, framed. set (cls := getlist (lit "content-length") headers).
  set (tes := getlist (lit "transfer-encoding") headers). intros Hc Hf.
  destruct (negb _ && _) eqn:Eb; [done|]. inv_ok. rename a into declared.
  destruct (bool_decide_reflect (cls = [])) as [Hn|Hn].
  - injection Ha as <-. destruct (bool_decide_reflect (tes = [])) as [Ht|Ht]; [left; by simplify_eq|].
    destruct (bool_decide_reflect (codings_of tes = [lit "chunked"])) as [Hco|Hco]; [|by repeat case_match]. right. right. injection Hf as <-.
    split_and!; [done..|]. by apply single_coding.
  - assert (Ht : tes = []).
    { destruct (bool_decide_reflect (tes = [])); [done|]. by cbn in Eb. }
    rewrite (bool_decide_true (tes = [])) in Hf by done. injection Hf as <-. right; left.
    assert (Hv : (cls ≫= fun x => split_on 44 x.2) = cls.*2).
    { clear -Hc. clearbody cls. induction Hc as [|x cls Hx _ IH]; [done|]. rewrite bind_cons, IH.
      by rewrite canonical_split. }
    rewrite Hv, length_values_canonical in Ha by (by apply Forall_fmap). cbn [rbind] in Ha.
    split_and!; [done..|]. destruct cls as [|x cls']; [done|]. cbn [fmap list_fmap] in Ha.
    destruct (forallb _ _) eqn:Ef; [|done].
    rewrite <- Is_true_true, forallb_True, Forall_fmap in Ef. apply Forall_cons in Hc as [Hx Hc].
    constructor; [done|]. rewrite Forall_forall in *. intros y Hy. split; [by apply Hc|].
    specialize (Ef y Hy). apply bool_decide_unpack in Ef. cbn in Ef. by rewrite Ef, Ha.
Qed.

(** [_parse] taken apart. *)
Lemma parse_sound data a a' r :
  cache_ok a -> _parse data a = (a', r) ->
  cache_ok a' /\ _ssl a' = _ssl a /\ _max_line a' = _max_line a /\
  match r with
  | Ok conn =>
      exists rl lines raw headers, prologue (_max_line a) data = Ok (rl, lines) /\ Forall (came_from lines) raw /\
        framing rl raw = Ok (headers, _declared_body_len a') /\ finish (_ssl a) rl headers = Ok conn
  | Raise e =>
      prologue (_max_line a) data = Raise e \/ e = BadRequestError \/
      exists rl lines raw, prologue (_max_line a) data = Ok (rl, lines) /\ Forall (came_from lines) raw /\
        (framing rl raw = Raise e \/ exists headers n, framing rl raw = Ok (headers, n) /\ finish (_ssl a) rl headers = Raise e)
  end.
Proof.
  intros Ha. unfold _parse. destruct (prologue (_max_line a) data) as [[rl lines]|e] eqn:Ep.
  2:{ intros [= <- <-]. split_and!; [done..|by left]. }
  destruct (header_loop _ _ lines [] a) as [a1 r1] eqn:El.
  destruct (header_loop_sound _ _ _ _ _ _ _ Ha (lines_scanned _ _ _ _ Ep) El) as (Ha1 & Hs & Hm & Hr).
  destruct r1 as [raw|e].
  2:{ intros [= <- <-]. split_and!; [done..|by right; left]. }
  destruct Hr as (new & -> & Hnew). cbn [app]. destruct (framing rl new) as [[h n]|e] eqn:Ef.
  2:{ intros [= <- <-]. split_and!; [done..|]. right; right. exists rl, lines, new. auto. }
  intros [= <- <-]. cbn [set_declared _ssl _max_line _declared_body_len]. rewrite Hs, Hm.
  split_and!; [by destruct Ha1; constructor|done|done|]. destruct (finish (_ssl a) rl h) as [conn|e] eqn:Ei.
  - by exists rl, lines, new, h.
  - right; right. exists rl, lines, new. split_and!; [done..|]. right. by exists h, n.
Qed.

Lemma finish_inv ssl rl headers conn :
  finish ssl rl headers = Ok conn ->
  Http1Parse.headers conn = headers /\ http_version conn = drop 5 (rl_version rl) /\ _validate_host headers = Ok tt /\
  (getlist (lit "host") headers = [] -> rl_version rl = lit "HTTP/1.0").
Proof.
  unfold finish. intros H. inv_ok. destruct a. destruct (negb _ && _) eqn:E; [done|]. inv_ok. cbn.
  split_and!; try done. intros Hh. rewrite (bool_decide_true (getlist _ _ = [])), andb_true_r in E by done.
  by apply negb_false_iff, bool_decide_eq_true in E.
Qed.

(** ** Errors *)

Definition expected (e : exn) : Prop :=
  e = BadRequestError \/ e = HeaderTooLargeError \/ e = NotImplementedFramingError \/ e = UnsupportedVersionError.

Ltac raises := intros; repeat (case_match || simplify_eq/=); unfold expected; auto.

Lemma target_form_raise m p e : target_form m p = Raise e -> expected e.
Proof. unfold target_form. raises. Qed.

Lemma request_line_raise line e : parse_request_line line = Raise e -> expected e.
Proof.
  unfold parse_request_line. destruct (split_on 32 line) as [|m [|p [|v [|]]]]; [raises..| |raises].
  destruct (_ || _); [raises|]. destruct (negb _); [raises|]. destruct (negb _); [raises|].
  intros [?%target_form_raise|([[p' a] s] & _ & H)]%rbind_Raise; [done|]. revert H. raises.
Qed.

Lemma prologue_raise max_line data e : prologue max_line data = Raise e -> expected e.
Proof.
  unfold prologue. destruct (_ && _ && _); [raises|]. destruct (match split_crlf data with [] :: rest => rest | _ => _ end);
    [raises|]. by intros [?%request_line_raise|(? & _ & ?)]%rbind_Raise.
Qed.

(** Short ASCII text, and what is cut out of it. *)
Definition small (v : bytes) : Prop := Forall ascii_char v /\ zlen v <= MAX_STR_DIGITS.

Lemma small_piece v w : v `sublist_of` w -> small w -> small v.
Proof.
  intros Hs [Ha Hl]. split; [|apply sublist_length in Hs; unfold zlen in *; lia].
  rewrite Forall_forall in *. intros c Hc. apply Ha. by eapply elem_of_sublist.
Qed.

Lemma small_int v : small v -> exists n, int_digits v = Ok n.
Proof.
  intros [_ Hl]. unfold int_digits. rewrite Z.gtb_ltb, (proj2 (Z.ltb_ge _ _)) by done. eauto.
Qed.

Lemma small_text v : small v -> utf8_decode v = Ok v.
Proof. intros [H _]. by apply utf8_decode_ascii. Qed.

Lemma framing_raise headers e :
  Forall (fun x => canonical_decimal x.2 = true /\ small x.2) (getlist (lit "content-length") headers) ->
  _validate_message_framing headers = Raise e -> expected e.
Proof.
  unfold _validate_message_framing. set (cls := getlist (lit "content-length") headers).
  set (tes := getlist (lit "transfer-encoding") headers). intros Hc.
  destruct (negb _ && _); [raises|]. intros [Ha|(n & _ & H)]%rbind_Raise; [|revert H; raises].
  destruct (bool_decide (cls = [])) eqn:En; [done|]. apply bool_decide_eq_false in En.
  assert (Hv : (cls ≫= fun x => split_on 44 x.2) = cls.*2).
  { clear -Hc. clearbody cls. induction Hc as [|x cls [Hx _] _ IH]; [done|]. rewrite bind_cons, IH.
    by rewrite canonical_split. }
  rewrite Hv, length_values_canonical in Ha by (apply Forall_fmap; eapply Forall_impl; [exact Hc|]; by intros ? []).
  cbn [rbind] in Ha. destruct cls as [|x cls']; [done|]. cbn [fmap list_fmap] in Ha.
  apply Forall_cons in Hc as [[_ Hx] _]. destruct (small_int x.2 Hx) as [n En2]. rewrite En2 in Ha. revert Ha. raises.
Qed.

Lemma rpartition_sublist c l host sep port :
  rpartition_char c l = (host, sep, port) -> host `sublist_of` l /\ port `sublist_of` l.
Proof.
  unfold rpartition_char. destruct (find_char c (reverse l)) as [i|]; intros [= <- <- <-].
  - rewrite <- (reverse_involutive l) at 2 4. split; apply reverse_sublist; [apply sublist_drop|apply sublist_take].
  - split; [apply sublist_nil_l|done].
Qed.

Lemma host_header_total v port : small v -> exists r, _parse_host_header v port = Ok r.
Proof.
  intros Hv. unfold _parse_host_header. rewrite (small_text v Hv). case_bool_decide.
  - destruct (find_char 93 v) as [i|]; [|by eexists].
    rewrite small_text by (eapply small_piece; [|exact Hv]; etrans; [apply sublist_drop|apply sublist_take]).
    cbn [rbind]. destruct (_ && _); [|by eexists].
    destruct (small_int (tail (drop (S i) v))) as [n ->]; [|by eexists].
    eapply small_piece; [|exact Hv]. etrans; [|apply (sublist_drop v (S i))].
    destruct (drop (S i) v); [done|by apply sublist_cons].
  - destruct (rpartition_char 58 v) as [[h s] p] eqn:E. apply rpartition_sublist in E as [Hh Hp].
    destruct (_ && _); [|by eexists]. rewrite small_text by (by eapply small_piece).
    destruct (small_int p) as [n ->]; [by eapply small_piece|]. by eexists.
Qed.

Lemma finish_raise ssl rl headers e :
  Forall (fun x => small x.2) (getlist (lit "host") headers) -> finish ssl rl headers = Raise e -> expected e.
Proof.
  intros Hh. unfold finish. intros [H|([] & _ & H)]%rbind_Raise; [revert H; unfold _validate_host; raises|].
  destruct (negb _ && _); [revert H; raises|]. apply rbind_Raise in H as [H|(s & _ & H)]; [|by revert H; raises].
  case_bool_decide as En; [done|]. unfold getlist in Hh, En. unfold get in H.
  destruct (probe (lit "host") headers) as [[|host l]|]; [done| |done].
  apply Forall_cons in Hh as [Hh _]. destruct (host_header_total host.2 (if ssl then 443 else 80) Hh) as [r Hr].
  by rewrite Hr in H.
Qed.

Lemma check_line_piece line kv : check_line false line = Ok kv -> kv.2 `sublist_of` line.
Proof.
  unfold check_line. case_bool_decide; [done|]. destruct (find_char 58 line) as [[|colon]|]; [done| |done].
  destruct (negb _); [done|]. case_bool_decide; [done|]. destruct (_ && _); [done|]. cbn [andb].
  intros [= <-]. cbn [snd]. etrans; [apply strip_sublist|apply sublist_drop].
Qed.

Lemma authority_piece max_line data rl lines auth :
  prologue max_line data = Ok (rl, lines) -> rl_authority rl = Some auth -> auth `sublist_of` data.
Proof.
  unfold prologue. destruct (_ && _ && _); [done|].
  destruct (match split_crlf data with [] :: rest => rest | _ => _ end) as [|line rest] eqn:El; [done|].
  assert (Hl : line ∈ split_crlf data) by (destruct (split_crlf data) as [|[|]]; simplify_eq; set_solver).
  intros Hp. inv_ok. rename Ha into Hr. intros Ha. etrans; [|by apply split_crlf_sublist].
  unfold parse_request_line in Hr. destruct (split_on 32 line) as [|m [|p [|v [|]]]] eqn:Es; try done.
  destruct (_ || _); [done|]. destruct (negb _); [done|]. destruct (negb _); [done|]. inv_ok.
  assert (Hpl : p `sublist_of` line) by (apply (split_on_sublist 32); rewrite Es; set_solver).
  destruct a as [[p' auth'] s]. destruct (negb s && _); [done|].
  assert (auth' = Some auth) as ->.
  { destruct s; [by injection Hr as <-|]. destruct (partition_char 35 p') as [[nf ?] ?], (partition_char 63 nf) as [[? ?] ?].
    by injection Hr as <-. }
  clear Hr Ha. unfold target_form in Ha0. case_bool_decide; [done|]. case_bool_decide.
  { destruct (negb _); simplify_eq. }
  destruct (find_sub _ p) as [ss|]; [|done]. case_bool_decide; [done|].
  destruct (find_char 47 (drop (ss + 3) p)) as [i|]; case_bool_decide; simplify_eq.
  - etrans; [|exact Hpl]. etrans; [apply sublist_take|apply sublist_drop].
  - etrans; [|exact Hpl]. apply sublist_drop.
Qed.

(** Every field value is cut out of the head. *)
Lemma field_small max_line data rl lines raw headers n :
  small data -> prologue max_line data = Ok (rl, lines) -> Forall (came_from lines) raw ->
  framing rl raw = Ok (headers, n) \/
    headers = from_lowered (match rl_authority rl with
      Some authority => filter (fun x => x.1 <> lit "host") raw ++ [(lit "host", authority)] | None => raw end) ->
  Forall (fun kv => line_field kv /\ small kv.2) (_list headers).
Proof.
  intros Hs Hp Hraw Hh. assert (Hall : forall kv, kv ∈ _list headers ->
    kv ∈ raw \/ (kv.1 = lit "host" /\ rl_authority rl = Some kv.2)).
  { destruct Hh as [Hf| ->].
    - destruct (framing_inv _ _ _ _ Hf) as (fields & -> & Hin & _). intros kv. rewrite list_from_lowered. apply Hin.
    - intros kv. rewrite list_from_lowered. destruct (rl_authority rl) as [auth|]; [|by left].
      intros [[_ ?]%list_elem_of_filter|Hkv]%elem_of_app; [by left|].
      apply list_elem_of_singleton in Hkv as ->. by right. }
  apply Forall_forall. intros kv [Hkv|[Hk Ha]]%Hall.
  - rewrite Forall_forall in Hraw. destruct (Hraw _ Hkv) as (line & Hl & H1 & _). split; [by eapply check_line_field|].
    eapply small_piece; [|exact Hs]. etrans; [by eapply check_line_piece|].
    by eapply split_crlf_sublist, prologue_lines.
  - split; [by apply host_field|]. eapply small_piece; [|exact Hs]. by eapply authority_piece.
Qed.

Lemma getlist_small headers name :
  Forall (fun kv => line_field kv /\ small kv.2) (_list headers) -> headers = from_lowered (_list headers) ->
  Forall (fun kv => (is_lower name -> kv.1 = name) /\ line_field kv /\ small kv.2) (getlist name headers).
Proof.
  intros Hf He. rewrite He, getlist_lowered by (eapply Forall_impl; [exact Hf|]; by intros ? [[] _]).
  apply Forall_forall. intros kv [Hn Hin]%list_elem_of_filter. rewrite Forall_forall in Hf. destruct (Hf _ Hin) as [Hl Hs].
  split; [|done]. intros Hlow. rewrite <- Hlow, <- Hn. by destruct Hl.
Qed.

(** ** What the shortcuts and regexes let through *)

Definition crlf : bytes := [13; 10].

(** The parser's verdict on lines, on a fresh connection. *)
Definition verdict (lines : list bytes) : result Connection :=
  (_parse (mjoin ((fun l => l ++ crlf) <$> lines) ++ crlf) (fresh false 8192)).2.

Definition fields_of (r : result Connection) : list field :=
  match r with Ok conn => _list (headers conn) | Raise _ => [] end.

(** A CR and a bare LF inside a value tile into a pair, so the value is not
    scanned. *)
Lemma bare_crlf_accepted :
  let value := lit "a" ++ [13] ++ lit "b" ++ [10] ++ lit "c" in
  let lines := [lit "GET / HTTP/1.1"; lit "Host: h"; lit "X: " ++ value] in
  fields_of (verdict lines) = [(lit "host", lit "h"); (lit "x", value)] /\
  reference false 8192 (mjoin ((fun l => l ++ crlf) <$> lines) ++ crlf) = Raise BadRequestError.
Proof. vm_compute. by split. Qed.

(** [$] lets a newline follow the version. *)
Lemma version_newline_accepted :
  match verdict [lit "GET / HTTP/1.1" ++ [10]; lit "Host: h"] with
  | Ok conn => http_version conn = lit "1.1" ++ [10] /\ _should_keep_alive conn = false
  | Raise _ => False
  end.
Proof. vm_compute. by split. Qed.

(** The octets of an absolute-form authority are never checked. *)
Lemma authority_unchecked :
  fields_of (verdict [lit "GET http://a" ++ [0; 13] ++ lit "b/ HTTP/1.1"; lit "Host: h"]) =
    [(lit "host", lit "a" ++ [0; 13] ++ lit "b")].
Proof. vm_compute. reflexivity. Qed.

(** Two heads whose exceptions the connection loop does not catch. *)
Lemma host_not_utf8 : verdict [lit "GET / HTTP/1.1"; lit "Host: h" ++ [255]] = Raise UnicodeDecodeError.
Proof. vm_compute. reflexivity. Qed.

Lemma length_of_many_digits :
  verdict [lit "GET / HTTP/1.1"; lit "Host: h"; lit "Content-Length: " ++ repeat 49 4301] = Raise ValueError.
Proof. vm_compute. reflexivity. Qed.

Lemma int_of_canonical v n : canonical_decimal v = true -> int_digits v = Ok n -> int_of_bytes v = Ok n /\ 0 <= n.
Proof.
  intros Hc Hn. pose proof (canonical_octets v Hc) as [Hne Hd]. split.
  - unfold int_of_bytes. rewrite (strip_digits WHITESPACE v Hd WHITESPACE_no_digit).
    assert (Hh : forall c, is_digit c = false -> head v <> Some c).
    { intros c Hc' Hh. destruct v; [done|]. injection Hh as ->. apply Forall_cons in Hd as [Hd _]. congruence. }
    rewrite (bool_decide_false (head v = Some 45)), (bool_decide_false (head v = Some 43)) by by apply Hh.
    cbn [orb]. rewrite split_on_absent.
    2:{ intros Hin. rewrite Forall_forall in Hd. by specialize (Hd _ Hin). }
    assert (Hi : isdigit v = true).
    { unfold isdigit. rewrite bool_decide_false by done. cbn [negb andb]. apply forallb_forall. intros c Hin.
      rewrite Forall_forall in Hd. apply Hd. by apply list_elem_of_In. }
    cbn [forallb]. rewrite Hi. cbn [andb mjoin list_join]. rewrite app_nil_r, Hn. done.
  - unfold int_digits in Hn. destruct (_ >? _); [done|]. injection Hn as <-. by apply int_of_digits_nonneg.
Qed.

(** ** Rendering *)

Definition target_of (path : bytes) (query : option bytes) : bytes :=
  match query with Some q => path ++ 63 :: q | None => path end.

Definition line_of (kv : field) : bytes := kv.1 ++ 58 :: 32 :: kv.2.

Definition render (method path : bytes) (query : option bytes) (fields : list field) : bytes :=
  mjoin ((fun l => l ++ crlf) <$> (method ++ 32 :: target_of path query ++ 32 :: lit "HTTP/1.1") :: (line_of <$> fields))
  ++ crlf.

Definition lowered (fields : list field) : list field := (fun kv => (lower kv.1, kv.2)) <$> fields.

Record field_ok (kv : field) : Prop := mkFieldOk {
  fo_nonempty : kv.1 <> [];
  fo_token : Forall (fun c => c ∈ _TCHAR_OCTETS) kv.1;
  fo_plain : lower kv.1 ∉ _UNDERSCORE_FRAMING_NAMES;
  fo_value : existsb value_octet_invalid kv.2 = false;
  fo_trim : strip OWS kv.2 = kv.2;
  fo_length : lower kv.1 = lit "content-length" -> canonical_decimal kv.2 = true
}.

(** A request a client may send: [n] is the length its framing declares. *)
Record request_ok (method path : bytes) (query : option bytes) (fields : list field) (n : Z) : Prop := mkRequestOk {
  ro_method : method <> [] /\ Forall (fun c => c ∈ _TCHAR_OCTETS) method /\ method <> lit "CONNECT";
  ro_path : head path = Some 47 /\ Forall (fun c => c ∈ _TARGET_ALLOWED_OCTETS) path /\ (35 ∉ path) /\ (63 ∉ path);
  ro_query : match query with Some q => Forall (fun c => c ∈ _TARGET_ALLOWED_OCTETS) q /\ (35 ∉ q) | None => True end;
  ro_fields : Forall field_ok fields;
  ro_type : zlen (getlist (lit "content-type") (from_lowered (lowered fields))) <= 1;
  ro_host : exists host, getlist (lit "host") (from_lowered (lowered fields)) = [host] /\ host.2 <> [] /\
    _HOST_FORBIDDEN_RE host.2 = false /\ small host.2;
  ro_framed : _validate_message_framing (from_lowered (lowered fields)) = Ok n
}.

Lemma split_lines ls :
  Forall (fun l => 13 ∉ l) ls -> split_crlf (mjoin ((fun l => l ++ crlf) <$> ls) ++ crlf) = ls ++ [[]; []].
Proof.
  induction 1 as [|l ls Hl _ IH]; [reflexivity|]. cbn [fmap list_fmap mjoin list_join]. rewrite <- !app_assoc.
  change (split_crlf (l ++ 13 :: 10 :: (mjoin ((fun l => l ++ crlf) <$> ls) ++ crlf)) = (l :: ls) ++ [[]; []]).
  rewrite split_crlf_line by done. by rewrite IH.
Qed.

Lemma tchar_not c : c ∉ _TCHAR_OCTETS -> forall l, Forall (fun c => c ∈ _TCHAR_OCTETS) l -> c ∉ l.
Proof. intros Hc l Hl Hin. rewrite Forall_forall in Hl. by apply Hc, Hl. Qed.

Lemma target_not c : c ∉ _TARGET_ALLOWED_OCTETS -> forall l, Forall (fun c => c ∈ _TARGET_ALLOWED_OCTETS) l -> c ∉ l.
Proof. intros Hc l Hl Hin. rewrite Forall_forall in Hl. by apply Hc, Hl. Qed.

Lemma target_octets path query :
  Forall (fun c => c ∈ _TARGET_ALLOWED_OCTETS) path ->
  match query with Some q => Forall (fun c => c ∈ _TARGET_ALLOWED_OCTETS) q /\ (35 ∉ q) | None => True end ->
  Forall (fun c => c ∈ _TARGET_ALLOWED_OCTETS) (target_of path query).
Proof.
  intros Hp Hq. destruct query as [q|]; [|done]. apply Forall_app. split; [done|]. constructor; [decide_it|apply Hq].
Qed.

Lemma check_line_of kv : field_ok kv -> check_line true (line_of kv) = Ok (lower kv.1, kv.2).
Proof.
  destruct kv as [k v]. intros [Hne Htok Hpl Hv Htr Hlen]; cbn [fst snd] in *. unfold check_line, line_of. cbn [fst snd].
  assert (Hcolon : 58 ∉ k) by (apply (tchar_not 58); [decide_it|done]). rewrite find_char_app by done.
  rewrite take_app_length. assert (Hd : drop (S (length k)) (k ++ 58 :: 32 :: v) = 32 :: v).
  { by rewrite (cons_middle 58 k (32 :: v)), app_assoc, drop_app_length' by (rewrite length_app; cbn; lia). }
  rewrite Hd. destruct k as [|c k]; [done|]. cbn [head app length]. rewrite bool_decide_false.
  2:{ apply Forall_cons in Htok as [Hc _]. intros [[= ->]|[= ->]]; revert Hc; decide_it. }
  rewrite (bool_decide_true (translate _ _ = [])) by by apply translate_nil. cbn [negb].
  rewrite (bool_decide_false (_ ∈ _)) by done.
  assert (Hst : strip OWS (32 :: v) = v).
  { unfold strip in *. cbn [lstrip]. by rewrite bool_decide_true by (by left). }
  rewrite Hst. unfold _FIELD_VALUE_INVALID_RE. rewrite Hv.
  destruct (bool_decide (lower (c :: k) = _)) eqn:E; [|done]. apply bool_decide_eq_true in E.
  unfold _CL_STRICT_RE. rewrite bool_decide_true by done. cbn [tail]. by rewrite (Hlen E).
Qed.

Lemma check_lines_of fields : Forall field_ok fields -> check_lines ((line_of <$> fields) ++ [[]; []]) = Ok (lowered fields).
Proof.
  induction 1 as [|kv fields Hkv _ IH]; [done|]. cbn [fmap list_fmap app check_lines].
  assert (Hne : line_of kv <> []) by (unfold line_of; by destruct kv.1). pose proof (check_line_of kv Hkv) as Hc.
  destruct (line_of kv); [done|]. rewrite Hc. cbn [rbind]. by rewrite IH.
Qed.

Lemma line_of_no_cr kv : field_ok kv -> 13 ∉ line_of kv.
Proof.
  intros [_ Ht _ Hv _ _]. unfold line_of. rewrite elem_of_app, !elem_of_cons. intros [H|[?|[?|H]]]; [|done..|].
  - revert H. by apply (tchar_not 13); [decide_it|].
  - apply not_true_iff_false in Hv. apply Hv, existsb_exists. exists 13. by rewrite <- list_elem_of_In.
Qed.

Lemma parse_request_line_of method path query :
  method <> [] -> Forall (fun c => c ∈ _TCHAR_OCTETS) method -> method <> lit "CONNECT" ->
  head path = Some 47 -> Forall (fun c => c ∈ _TARGET_ALLOWED_OCTETS) path -> (35 ∉ path) -> (63 ∉ path) ->
  match query with Some q => Forall (fun c => c ∈ _TARGET_ALLOWED_OCTETS) q /\ (35 ∉ q) | None => True end ->
  parse_request_line (method ++ 32 :: target_of path query ++ 32 :: lit "HTTP/1.1") =
    Ok (mkRequestLine method (lit "HTTP/1.1") None false path (default [] query)).
Proof.
  intros Hne Hm Hc Hh Hp Hh1 Hh2 Hq. set (target := target_of path query).
  assert (Ht : Forall (fun c => c ∈ _TARGET_ALLOWED_OCTETS) target) by by apply target_octets.
  destruct path as [|c path]; [done|]. injection Hh as ->.
  unfold parse_request_line. rewrite split_on_app by (apply (tchar_not 32); [decide_it|done]).
  rewrite split_on_app by (apply (target_not 32); [decide_it|done]). rewrite (split_on_absent 32 (lit "HTTP/1.1")) by decide_it.
  rewrite (bool_decide_false (method = [])), (bool_decide_true (translate _ method = [])) by (done || by apply translate_nil).
  change (_HTTP_VERSION_RE (lit "HTTP/1.1")) with true. cbn [negb orb].
  change (bool_decide (lit "HTTP/1.1" !! 5%nat = Some 49)) with true. cbn [negb].
  assert (Hslash : exists rest, target = 47 :: rest) by (unfold target, target_of; destruct query; by eexists).
  destruct Hslash as [rest Hslash].
  assert (Hform : target_form method target = Ok (target, None, false)).
  { unfold target_form. rewrite bool_decide_false by done. rewrite bool_decide_false by (by rewrite Hslash).
    destruct (find_sub (lit "://") target) as [ss|] eqn:Ef; [|done]. rewrite bool_decide_true; [done|].
    rewrite Hslash in Ef |- *. cbn [find_sub] in Ef. case_bool_decide as Hpre; [by destruct Hpre|].
    destruct (find_sub (lit "://") rest); [|done]. injection Ef as <-. cbn [take]. by left. }
  rewrite Hform. cbn [rbind negb andb]. rewrite (bool_decide_false (target = [])) by (by rewrite Hslash).
  rewrite (bool_decide_true (translate _ target = [])) by by apply translate_nil. cbn [negb orb].
  rewrite (partition_absent 35 target).
  2:{ unfold target, target_of. destruct query as [q|]; [|done].
      apply not_elem_of_app. split; [done|]. apply not_elem_of_cons. split; [done|apply Hq]. }
  unfold target, target_of. destruct query as [q|]; [by rewrite partition_found|by rewrite partition_absent].
Qed.

Lemma request_no_cr method path query fields n :
  request_ok method path query fields n ->
  Forall (fun l => 13 ∉ l) ((method ++ 32 :: target_of path query ++ 32 :: lit "HTTP/1.1") :: (line_of <$> fields)).
Proof.
  intros [(_ & Hm & _) (_ & Hp & _) Hq Hf _ _ _]. constructor.
  - rewrite elem_of_app, elem_of_cons, elem_of_app. intros [H|[?|[H|H]]]; [|done| |].
    + revert H. by apply (tchar_not 13); [decide_it|].
    + revert H. by apply (target_not 13); [decide_it|apply target_octets].
    + revert H. decide_it.
  - apply Forall_fmap. eapply Forall_impl; [exact Hf|]. intros kv. apply line_of_no_cr.
Qed.

Lemma lowered_lower fields : Forall (fun x => is_lower x.1) (lowered fields).
Proof. apply Forall_fmap, Forall_true. intros kv. apply lower_idem. Qed.

(** The reference parser on a rendered request. *)
Lemma reference_render ssl max_line method path query fields n :
  request_ok method path query fields n ->
  let data := render method path query fields in
  max_line = 0 \/ zlen data <= max_line ->
  exists conn, reference ssl max_line data = Ok conn /\ Http1Parse.method conn = method /\ http_version conn = lit "1.1" /\
    raw_path conn = path /\ query_string conn = default [] query /\ headers conn = from_lowered (lowered fields) /\
    _asterisk_form conn = false /\ Http1Parse.path conn = unquote path /\
    (getlist (lit "upgrade") (from_lowered (lowered fields)) = [] -> type_ conn = lit "http" /\ scheme conn = lit "http").
Proof.
  intros Hr data Hmax. pose proof (request_no_cr _ _ _ _ _ Hr) as Hcr. pose proof (split_lines _ Hcr) as Hsplit.
  destruct Hr as [(Hne & Hm & Hc) (Hh & Hp & Hh1 & Hh2) Hq Hf Ht (host & Ehost & Hv & Hforb & Hsm) Hfr].
  fold (render method path query fields) in Hsplit. fold data in Hsplit. unfold reference, prologue. rewrite Hsplit.
  assert (Hsize : (0 <? max_line) && (max_line <? zlen data) = false) by (pose proof (zlen_nonneg data); lia).
  rewrite Hsize. cbn [andb app].
  destruct (method ++ _) as [|c l] eqn:El; [by destruct method|]. rewrite <- El.
  rewrite parse_request_line_of by done. cbn [rbind]. rewrite (check_lines_of fields Hf). cbn [rbind].
  unfold framing. cbn [rl_authority]. rewrite (proj2 (Z.ltb_ge _ _)) by exact Ht. rewrite Hfr. cbn [rbind].
  assert (Hs : strip OWS host.2 = host.2).
  { assert (Hin : host ∈ named (lit "host") (lowered fields)).
    { rewrite <- getlist_lowered by apply lowered_lower. rewrite Ehost. set_solver. }
    apply list_elem_of_filter in Hin as [_ Hin]. apply list_elem_of_fmap in Hin as (kv & -> & Hin).
    rewrite Forall_forall in Hf. by destruct (Hf _ Hin). }
  assert (Hget : get (lit "host") [] (from_lowered (lowered fields)) = host.2).
  { revert Ehost. unfold getlist, get. destruct (probe _ _); [by intros ->|done]. }
  unfold finish, _validate_host. rewrite Ehost, Hs, Hget. rewrite (bool_decide_false (host.2 = [])) by done. rewrite Hforb.
  cbn [rbind rl_version]. rewrite (bool_decide_false ([host] = [])) by done. rewrite andb_false_r.
  destruct (host_header_total host.2 (if ssl then 443 else 80) Hsm) as [r ->]. cbn [rmap rbind].
  eexists. split; [done|]. split_and!; try reflexivity. intros Hu. cbn [type_ scheme]. by rewrite Hu.
Qed.

(** ** Claims *)

Lemma parse_ref data a :
  cache_ok a -> no_cr data ->
  exists a', _parse data a = (a', reference (_ssl a) (_max_line a) data) /\ cache_ok a' /\
    _ssl a' = _ssl a /\ _max_line a' = _max_line a.
Proof.
  intros Ha Hn. unfold _parse, reference. destruct (prologue (_max_line a) data) as [[rl lines]|e] eqn:Ep;
    cbn [rbind]; [|by exists a].
  destruct (header_loop_ref (0 <? zlen (_line_cache a)) _ lines [] a Ha (no_cr_lines _ _ _ _ Ep Hn))
    as (a' & -> & Ha' & Hs & Hm).
  destruct (check_lines lines) as [raw|e]; cbn [rmap rbind app]; [|by exists a'].
  destruct (framing rl raw) as [[h n]|e]; cbn [rbind]; [|by exists a'].
  exists (set_declared n a'). rewrite Hs. split_and!; try done. by destruct Ha'; constructor.
Qed.


Lemma parse_all_ok heads a rs a' :
  cache_ok a -> parse_all heads a = (rs, a') ->
  cache_ok a' /\ (Forall no_cr heads -> rs = reference (_ssl a) (_max_line a) <$> heads).
Proof.
  revert a rs. induction heads as [|data heads IH]; intros a rs Ha; cbn [parse_all]; [by intros [= <- <-]|].
  destruct (_parse data a) as [a1 r] eqn:Ep. destruct (parse_all heads a1) as [rs1 a2] eqn:Er. intros [= <- <-].
  destruct (parse_sound _ _ _ _ Ha Ep) as (Ha1 & Hs & Hm & _). destruct (IH _ _ Ha1 Er) as [Ha2 Hrs].
  split; [done|]. intros [Hd Hh]%Forall_cons. destruct (parse_ref data a Ha Hd) as (a3 & Ep' & _).
  rewrite Ep in Ep'. injection Ep' as -> ->. rewrite (Hrs Hh), Hs, Hm. done.
Qed.

Lemma fresh_ok ssl max_line : cache_ok (fresh ssl max_line).
Proof. by constructor. Qed.

(** C6: the parser's shortcuts are invisible.  However many heads a
    connection brings, its line cache stays within 64 entries, 1024 octets a
    line and 8192 octets of keys; and where no line holds a bare CR, each head
    gives exactly what the parser that checks every line and remembers nothing
    gives — cached lines, the shared default table and the skipped value scans
    included. *)
Theorem parse_transparent ssl max_line heads rs a :
  parse_all heads (fresh ssl max_line) = (rs, a) ->
  (zlen (_line_cache a) <= 64 /\ key_bytes (_line_cache a) <= 8192 /\
   Forall (fun x => zlen x.1 <= 1024) (_line_cache a)) /\
  (Forall no_cr heads -> rs = reference ssl max_line <$> heads).
Proof.
  intros Hp. destruct (parse_all_ok _ _ _ _ (fresh_ok ssl max_line) Hp) as [[He Hc Hs Hb] Hr].
  unfold _LINE_CACHE_MAX, _LINE_CACHE_MAX_BYTES in *. split; [|done]. split_and!; [done|lia|].
  eapply Forall_impl; [exact He|]. by intros x (_ & ? & _).
Qed.

(** The Host an absolute-form target imposes. *)
Definition imposed (max_line : Z) (data : bytes) (host : bytes) : Prop :=
  exists rl lines, prologue max_line data = Ok (rl, lines) /\ rl_authority rl = Some host.

Lemma accepted data a a' conn :
  cache_ok a -> _parse data a = (a', Ok conn) ->
  Forall (fun kv => kv.1 <> [] /\ Forall (fun c => c ∈ _TCHAR_OCTETS) kv.1 /\ lower kv.1 = kv.1 /\
            (kv.1 ∉ _UNDERSCORE_FRAMING_NAMES) /\
            (no_cr data -> existsb value_octet_invalid kv.2 = false \/ kv.1 = lit "host" /\ imposed (_max_line a) data kv.2)) (_list (headers conn)) /\
  zlen (getlist (lit "content-type") (headers conn)) <= 1 /\
  framed (headers conn) (_declared_body_len a') /\
  ((getlist (lit "host") (headers conn) = [] /\ http_version conn = lit "1.0") \/
   exists host, getlist (lit "host") (headers conn) = [host] /\ strip OWS host.2 <> [] /\
     _HOST_FORBIDDEN_RE (strip OWS host.2) = false).
Proof.
  intros Ha Hp. destruct (parse_sound _ _ _ _ Ha Hp) as (_ & _ & _ & rl & lines & raw & h & Epr & Hraw & Hf & Hfin).
  destruct (finish_inv _ _ _ _ Hfin) as (-> & Hver & Hhost & Hvers).
  destruct (framing_inv _ _ _ _ Hf) as (fields & -> & Hfields & Hct & Hfr). rewrite list_from_lowered.
  assert (Hkv : Forall (fun kv => line_field kv /\
    (no_cr data -> existsb value_octet_invalid kv.2 = false \/ kv.1 = lit "host" /\ imposed (_max_line a) data kv.2)) fields).
  { apply Forall_forall. intros kv [Hkv|[Hkv Hauth]]%Hfields; [|split; [by apply host_field|intros _; right; split; [done|by exists rl, lines]]].
    rewrite Forall_forall in Hraw. destruct (Hraw _ Hkv) as (line & Hl & H1 & H2).
    split; [by eapply check_line_field|]. intros Hn. left. apply (check_line_value line), H2.
    unfold no_cr in Hn. rewrite Forall_forall in Hn. by eapply Hn, prologue_lines. }
  assert (Hlow : Forall (fun x => is_lower x.1) fields) by (eapply Forall_impl; [exact Hkv|]; intros ? [[] _]; done).
  split_and!.
  - eapply Forall_impl; [exact Hkv|]. intros kv [[] ?]. split_and!; done.
  - done.
  - apply framing_framed; [|done]. rewrite getlist_lowered by done. apply Forall_forall.
    intros kv [Hname Hin]%list_elem_of_filter. rewrite Forall_forall in Hkv. destruct (Hkv _ Hin) as [[_ _ Hl _ Hlen] _].
    apply Hlen. rewrite <- Hl. exact Hname.
  - unfold _validate_host in Hhost. destruct (getlist (lit "host") _) as [|host [|]] eqn:Eh; [|right|done].
    + left. rewrite Hver, (Hvers eq_refl). done.
    + exists host. case_bool_decide; [done|]. by destruct (_HOST_FORBIDDEN_RE _).
Qed.

(** C5: an accepted request is framed one way.  Its field names are
    lower-case tokens, none of them a look-alike of a framing header; when no
    line held a bare CR, no value holds a control octet, except that of a Host
    that is the authority of an absolute-form target; Content-Type comes once at most; the
    body is framed by nothing, by Content-Length fields that are all the
    canonical numeral of the declared length, or by one Transfer-Encoding that
    is [chunked] alone; and there is exactly one Host, without delimiters,
    unless the version is 1.0. *)
Theorem accepted_framing data a a' conn :
  cache_ok a -> _parse data a = (a', Ok conn) ->
  Forall (fun kv => kv.1 <> [] /\ Forall (fun c => c ∈ _TCHAR_OCTETS) kv.1 /\ lower kv.1 = kv.1 /\
            (kv.1 ∉ _UNDERSCORE_FRAMING_NAMES) /\
            (no_cr data -> existsb value_octet_invalid kv.2 = false \/ kv.1 = lit "host" /\ imposed (_max_line a) data kv.2)) (_list (headers conn)) /\
  zlen (getlist (lit "content-type") (headers conn)) <= 1 /\
  framed (headers conn) (_declared_body_len a') /\
  ((getlist (lit "host") (headers conn) = [] /\ http_version conn = lit "1.0") \/
   exists host, getlist (lit "host") (headers conn) = [host] /\ strip OWS host.2 <> [] /\
     _HOST_FORBIDDEN_RE (strip OWS host.2) = false).
Proof. apply accepted. Qed.

(** Only two other exceptions can come up. *)
Lemma framing_raise_any headers e : _validate_message_framing headers = Raise e -> expected e \/ e = ValueError.
Proof.
  unfold _validate_message_framing. destruct (negb _ && _); [left; revert H; raises|].
  intros [Ha|(n & _ & H)]%rbind_Raise; [|left; revert H; raises].
  destruct (bool_decide _) eqn:En; [done|]. apply bool_decide_eq_false in En.
  set (vs := getlist (lit "content-length") headers ≫= fun x => split_on 44 x.2) in *.
  assert (Hvs : vs <> []).
  { unfold vs. destruct (getlist (lit "content-length") headers) as [|x l]; [done|]. rewrite bind_cons.
    pose proof (split_on_nonempty 44 x.2). by destruct (split_on 44 x.2). }
  apply rbind_Raise in Ha as [Ha|(values & Hv & Ha)].
  - left. clearbody vs. clear Hvs. revert Ha. induction vs as [|v vs IH]; [done|]. cbn [length_values].
    destruct (_ || _); [raises|]. by intros [?%IH|(? & _ & ?)]%rbind_Raise.
  - destruct values as [|v values].
    + destruct vs as [|w vs]; [done|]. cbn [length_values] in Hv. destruct (_ || _); [done|]. by inv_ok.
    + destruct (forallb _ _); [|left; revert Ha; raises]. unfold int_digits in Ha. destruct (_ >? _); [|done].
      right. by injection Ha.
Qed.

Lemma int_digits_raise v e : int_digits v = Raise e -> e = ValueError.
Proof. unfold int_digits. destruct (_ >? _); [by intros [= <-]|done]. Qed.

Lemma finish_raise_any ssl rl headers e :
  finish ssl rl headers = Raise e -> expected e \/ e = UnicodeDecodeError \/ e = ValueError.
Proof.
  unfold finish. intros [H|([] & _ & H)]%rbind_Raise; [left; revert H; unfold _validate_host; raises|].
  destruct (negb _ && _); [left; revert H; raises|]. apply rbind_Raise in H as [H|(s & _ & H)]; [|by left; revert H; raises].
  case_bool_decide; [done|]. right. apply rbind_Raise in H as [H|(? & _ & ?)]; [|done].
  assert (Hwhole : forall v port, rmap (fun host : pystr => (host, port : Z)) (utf8_decode v) = Raise e -> e = UnicodeDecodeError).
  { intros v port. destruct (utf8_decode v) eqn:E; [done|]. intros [= <-]. by eapply utf8_decode_error. }
  unfold _parse_host_header in H. case_bool_decide.
  - destruct (find_char _ _); [|left; by eapply Hwhole]. apply rbind_Raise in H as [H|(h & _ & H)];
      [left; by eapply utf8_decode_error|]. destruct (_ && _); [|done].
    apply rbind_Raise in H as [H%int_digits_raise|(? & _ & ?)]; [by right|done].
  - destruct (rpartition_char _ _) as [[? ?] ?]. destruct (_ && _); [|left; by eapply Hwhole].
    apply rbind_Raise in H as [H|(h & _ & H)]; [left; by eapply utf8_decode_error|].
    apply rbind_Raise in H as [H%int_digits_raise|(? & _ & ?)]; [by right|done].
Qed.

Lemma parse_raise data a a' e :
  cache_ok a -> _parse data a = (a', Raise e) -> expected e \/ e = UnicodeDecodeError \/ e = ValueError.
Proof.
  intros Ha Hp. destruct (parse_sound _ _ _ _ Ha Hp) as (_ & _ & _ & [H|[-> |H]]);
    [left; by eapply prologue_raise|by left; left|].
  destruct H as (rl & lines & raw & _ & _ & [Hf|(h & n & _ & Hfin)]); [|by eapply finish_raise_any].
  unfold framing in Hf. destruct (1 <? _); [injection Hf as <-; by left; left|].
  apply rbind_Raise in Hf as [[?|?]%framing_raise_any|(? & _ & ?)]; auto; done.
Qed.

Lemma parse_raise_small data a a' e :
  cache_ok a -> small data -> _parse data a = (a', Raise e) -> expected e.
Proof.
  intros Ha Hs Hp.
  destruct (parse_sound _ _ _ _ Ha Hp) as (_ & _ & _ & [H|[-> |H]]); [by eapply prologue_raise|by left|].
  destruct H as (rl & lines & raw & Epr & Hraw & [Hf|(h & n & Hf & Hfin)]).
  - unfold framing in Hf. pose proof (field_small _ _ _ _ _ _ 0 Hs Epr Hraw (or_intror eq_refl)) as Hfields.
    set (headers := from_lowered _) in *. destruct (Z.ltb_spec 1 (zlen (getlist (lit "content-type") headers))).
    { injection Hf as <-. by left. }
    apply rbind_Raise in Hf as [Hf|(? & _ & ?)]; [|done]. eapply framing_raise; [|exact Hf].
    eapply Forall_impl; [by apply getlist_small|]. intros kv (Hn & Hl & Hsm). split; [|done]. by apply Hl, Hn.
  - pose proof (field_small _ _ _ _ _ _ n Hs Epr Hraw (or_introl Hf)) as Hfields.
    destruct (framing_inv _ _ _ _ Hf) as (fields & -> & _). eapply finish_raise; [|exact Hfin].
    eapply Forall_impl; [by apply getlist_small|]. by intros kv (_ & _ & Hsm).
Qed.

(** What a bad head raises: what the connection loop answers — 400, 431,
    501 or 505 — or, only when the head is not ASCII or longer than the 4300
    digits [int] accepts, a [UnicodeDecodeError] or a [ValueError]. *)
Theorem parse_errors data a a' e :
  cache_ok a -> _parse data a = (a', Raise e) ->
  expected e \/
  ((e = UnicodeDecodeError \/ e = ValueError) /\ (~ Forall ascii_char data \/ MAX_STR_DIGITS < zlen data)).
Proof.
  intros Ha Hp. destruct (parse_raise _ _ _ _ Ha Hp) as [?|He]; [by left|].
  destruct (decide (Forall ascii_char data)) as [Hasc|]; [|auto].
  destruct (Z.le_gt_cases (zlen data) MAX_STR_DIGITS); [|auto]. left. by eapply parse_raise_small.
Qed.

(** The parser on a rendered request, whatever the connection has cached. *)
Lemma parse_render a method path query fields n :
  cache_ok a -> request_ok method path query fields n ->
  let data := render method path query fields in
  _max_line a = 0 \/ zlen data <= _max_line a ->
  exists a' conn, _parse data a = (a', Ok conn) /\ reference (_ssl a) (_max_line a) data = Ok conn /\
    _declared_body_len a' = n /\ cache_ok a' /\ _ssl a' = _ssl a /\ _max_line a' = _max_line a /\
    headers conn = from_lowered (lowered fields).
Proof.
  intros Ha Hr data Hmax.
  destruct (reference_render (_ssl a) (_max_line a) _ _ _ _ _ Hr Hmax) as (conn & Href & _ & _ & _ & _ & Hh & _).
  assert (Hcr : no_cr data).
  { unfold no_cr, data, render. rewrite split_lines by (by eapply request_no_cr).
    apply Forall_app. split; [by eapply request_no_cr|]. repeat constructor; apply not_elem_of_nil. }
  destruct (parse_ref data a Ha Hcr) as (a' & Hparse & Ha' & Hs & Hm). fold data in Href. rewrite Href in Hparse.
  exists a', conn. split_and!; try done.
  destruct (parse_sound _ _ _ _ Ha Hparse) as (_ & _ & _ & rl & lines & raw & h & _ & _ & Hf & Hfin).
  destruct (finish_inv _ _ _ _ Hfin) as (Hhh & _). destruct (framing_inv _ _ _ _ Hf) as (fs & -> & _ & _ & Hval).
  rewrite Hhh in Hh. rewrite Hh in Hval. destruct Hr. congruence.
Qed.

(** A request survives rendering and parsing.  Whatever lines the
    connection has cached, the parser gives a well-formed request back as it was
    sent — method, path, query, every field with its name in lower case — and
    declares the body length the framing fields announce. *)
Theorem render_parse a method path query fields n :
  cache_ok a -> request_ok method path query fields n ->
  let data := render method path query fields in
  _max_line a = 0 \/ zlen data <= _max_line a ->
  exists a' conn, _parse data a = (a', Ok conn) /\ _declared_body_len a' = n /\ cache_ok a' /\
    Http1Parse.method conn = method /\ http_version conn = lit "1.1" /\ raw_path conn = path /\
    query_string conn = default [] query /\ _list (headers conn) = lowered fields.
Proof.
  intros Ha Hr data Hmax. destruct (parse_render a _ _ _ _ _ Ha Hr Hmax) as (a' & conn & Hp & Href & Hn & Ha' & _ & _ & Hh).
  destruct (reference_render (_ssl a) (_max_line a) _ _ _ _ _ Hr Hmax) as (conn' & Href' & Hm & Hv & Hpa & Hq & _).
  rewrite Href in Href'. injection Href' as <-. exists a', conn. split_and!; try done. by rewrite Hh.
Qed.

(** ** Samples *)

Definition sample_fields : list field :=
  [(lit "Host", lit "example.org:8000"); (lit "Accept", lit "*/*"); (lit "Content-Length", lit "12")].

Definition sample_head : bytes := render (lit "POST") (lit "/a%20b") (Some (lit "x=1")) sample_fields.

Lemma sample_request_ok : request_ok (lit "POST") (lit "/a%20b") (Some (lit "x=1")) sample_fields 12.
Proof.
  constructor; try (split_and!; decide_it).
  - repeat constructor; cbn [fst snd]; try decide_it; intros; vm_compute; reflexivity.
  - vm_compute. discriminate.
  - exists (lit "host", lit "example.org:8000"). split_and!; [vm_compute; reflexivity|decide_it|reflexivity|].
    split; [unfold ascii_char; decide_it|vm_compute; discriminate].
  - vm_compute. reflexivity.
Qed.

Lemma render_parse_witness :
  exists a' conn, _parse sample_head (fresh false 8192) = (a', Ok conn) /\ _declared_body_len a' = 12 /\ cache_ok a' /\
    method conn = lit "POST" /\ http_version conn = lit "1.1" /\ raw_path conn = lit "/a%20b" /\
    query_string conn = lit "x=1" /\ _list (headers conn) = lowered sample_fields.
Proof.
  apply (render_parse (fresh false 8192) (lit "POST") (lit "/a%20b") (Some (lit "x=1")) sample_fields 12).
  - apply fresh_ok.
  - exact sample_request_ok.
  - right. vm_compute. discriminate.
Defined.

Definition sample_run : list (result Connection) * actor := parse_all [sample_head; sample_head] (fresh false 8192).

Lemma parse_transparent_witness :
  (zlen (_line_cache sample_run.2) <= 64 /\ key_bytes (_line_cache sample_run.2) <= 8192 /\
   Forall (fun x => zlen x.1 <= 1024) (_line_cache sample_run.2)) /\
  sample_run.1 = reference false 8192 <$> [sample_head; sample_head].
Proof.
  destruct (parse_transparent false 8192 [sample_head; sample_head] sample_run.1 sample_run.2) as [Hb Hr].
  { unfold sample_run. by destruct (parse_all _ _). }
  split; [exact Hb|]. apply Hr. unfold no_cr. decide_it.
Defined.

Definition sample_actor : actor := (_parse sample_head (fresh false 8192)).1.

Definition sample_conn : Connection :=
  match (_parse sample_head (fresh false 8192)).2 with
  | Ok conn => conn
  | Raise _ => mkConnection [] [] [] [] [] [] [] (from_lowered []) None false
  end.

Lemma sample_parse : _parse sample_head (fresh false 8192) = (sample_actor, Ok sample_conn).
Proof. vm_compute. reflexivity. Qed.

Lemma accepted_framing_witness :
  zlen (getlist (lit "content-type") (headers sample_conn)) <= 1 /\
  framed (headers sample_conn) (_declared_body_len sample_actor).
Proof.
  destruct (accepted_framing sample_head (fresh false 8192) sample_actor sample_conn) as (_ & Hct & Hf & _).
  - apply fresh_ok.
  - exact sample_parse.
  - split; [exact Hct|exact Hf].
Defined.

Definition sample_bad : bytes := lit "GET  / HTTP/1.1" ++ crlf ++ crlf.

Lemma parse_errors_witness :
  expected BadRequestError \/
  ((BadRequestError = UnicodeDecodeError \/ BadRequestError = ValueError) /\
   (~ Forall ascii_char sample_bad \/ MAX_STR_DIGITS < zlen sample_bad)).
Proof.
  apply (parse_errors sample_bad (fresh false 8192) (_parse sample_bad (fresh false 8192)).1).
  - apply fresh_ok.
  - vm_compute. reflexivity.
Defined.

End Http1Parse.
