(* ===== verification/Http1Body.v ===== *)
(** * The body of an HTTP/1.1 request (blackbull/server/recipient.py, HTTP1Recipient)

    Chunked and Content-Length bodies read in slices from the connection, the
    size cap and the minimum rate, the ASGI view of the channel, and what the
    connection may do next: [after_dispatch] and [drain].  The recipient holds
    the reader of the connection, here any [StreamReader].  The clock and the
    body timeout are the environment: each read takes the next entry of
    [_waits], the time it waited and whether the deadline expired first; a read
    cut short by its deadline has consumed nothing.  Rates and times are in
    units of the clock.  Log calls are left out. *)

From Stdlib Require Import ZArith Lia.
From stdpp Require Import base tactics numbers option strings sets list.
From S2P Require Import Prelude PyLib PyText PyBytes HttpHeaders Reader Http1Parse.
Import HttpHeaders.

Module Http1Body.

(** ** Chunked framing lines *)

Definition _bad_request : exn := HTTPException 400.
Definition _content_too_large : exn := HTTPException 413.

Definition _TCHAR_SET : list Z :=
  lit "!#$%&'*+-.^_`|~" ++ lit "0123456789" ++ lit "abcdefghijklmnopqrstuvwxyz"
  ++ lit "ABCDEFGHIJKLMNOPQRSTUVWXYZ".
Definition _HEXDIG_SET : list Z := lit "0123456789abcdefABCDEF".

Definition all_in (set l : list Z) : bool := forallb (fun c => bool_decide (c ∈ set)) l.

Definition chunk_ext_ok (element : bytes) : bool :=
  let '(name, eq, val) := partition_char 61 (strip OWS element) in
  let name := rstrip OWS name in
  if bool_decide (name = []) || negb (all_in _TCHAR_SET name) then false
  else if (eq : bool) then
    let val := strip OWS val in
    if bool_decide (head val = Some 34) then
      negb ((zlen val <? 2) || negb (endswith [34] val) || existsb (fun c => (c <? 0x20) && negb (c =? 0x09)) val)
    else negb (bool_decide (val = []) || negb (all_in _TCHAR_SET val))
  else true.

Definition _validate_chunk_ext (ext : bytes) : result unit :=
  if forallb chunk_ext_ok (tail (split_on 59 ext)) then Ok tt else Raise _bad_request.

Definition _CHUNK_LINE_MAX : Z := 8192.

Definition _PROHIBITED_TRAILER_FIELDS : list bytes :=
  [lit "transfer-encoding"; lit "content-length"; lit "host"; lit "content-type"; lit "content-encoding";
   lit "content-range"; lit "trailer"; lit "te"; lit "authorization"; lit "proxy-authorization"; lit "cookie";
   lit "set-cookie"; lit "cache-control"; lit "expect"; lit "max-forwards"; lit "pragma"; lit "range"].

Definition hex_digit_value (c : Z) : Z := match hex_of c with Some d => d | None => 0 end.
Definition int_hex (l : bytes) : Z := foldl (fun n c => n * 16 + hex_digit_value c) 0 l.

Definition _parse_chunk_size (line : bytes) : result Z :=
  if negb (endswith [13; 10] line) || negb (count_octet 10 line =? 1) then Raise _bad_request
  else
    let line := take (length line - 2) line in
    let* size_part :=
      if has_char 59 line then
        let '(size_part, _, _) := partition_char 59 line in
        let size_part := rstrip OWS size_part in
        let* _ := _validate_chunk_ext (drop (length size_part) line) in Ok size_part
      else Ok line in
    if bool_decide (size_part = []) || negb (all_in _HEXDIG_SET size_part) then Raise _bad_request
    else Ok (int_hex size_part).

(** ** The grammar of a chunked message *)

Definition CRLF : bytes := [13; 10].

(** A line up to its first LF. *)
Definition lf_line (line : bytes) : Prop := exists s, line = s ++ [10] /\ (10 ∉ s).

Definition chunk_line (n : Z) (line : bytes) : Prop :=
  lf_line line /\ zlen line <= _CHUNK_LINE_MAX /\ _parse_chunk_size line = Ok n.

Definition trailer_name (line : bytes) : bytes :=
  let '(name, _, _) := partition_char 58 line in lower (strip OWS name).

Definition trailer_line (line : bytes) : Prop :=
  lf_line line /\ zlen line <= _CHUNK_LINE_MAX /\ line <> CRLF /\ endswith CRLF line = true /\
  trailer_name line ∉ _PROHIBITED_TRAILER_FIELDS.

(** [chunked_body w b]: the octets [w] are a chunked body with content [b]. *)
Inductive chunked_body : bytes -> bytes -> Prop :=
| last_chunk line trailers :
    chunk_line 0 line -> Forall trailer_line trailers -> chunked_body (line ++ mjoin trailers ++ CRLF) []
| more_chunk n line d w b :
    0 < n -> chunk_line n line -> zlen d = n -> chunked_body w b -> chunked_body (line ++ d ++ CRLF ++ w) (d ++ b).

Lemma lf_line_inj line line' rest rest' :
  lf_line line -> lf_line line' -> line ++ rest = line' ++ rest' -> line = line' /\ rest = rest'.
Proof.
  intros (s & -> & Hs) (s' & -> & Hs'). rewrite <- !app_assoc. cbn [app]. revert s' Hs'.
  induction s as [|c s IH]; intros [|c' s'] Hs'; cbn [app].
  - by intros [= ->].
  - intros [= <- _]. by destruct Hs'; left.
  - intros [= -> _]. by destruct Hs; left.
  - intros [= -> H]. apply not_elem_of_cons in Hs as [_ Hs]. apply not_elem_of_cons in Hs' as [_ Hs'].
    destruct (IH Hs s' Hs' H) as [He ->]. by rewrite <- He.
Qed.

Lemma crlf_line : lf_line CRLF.
Proof. exists [13]. split; [done|]. by intros ?%list_elem_of_singleton. Qed.

Lemma int_hex_nonneg l : 0 <= int_hex l.
Proof.
  unfold int_hex. enough (H : forall n, 0 <= n -> 0 <= foldl (fun n c => n * 16 + hex_digit_value c) n l) by by apply H.
  induction l as [|c l IH]; intros n Hn; cbn [foldl]; [done|]. apply IH.
  assert (0 <= hex_digit_value c) by (unfold hex_digit_value, hex_of; repeat case_match; simplify_eq/=; lia). lia.
Qed.

Lemma chunk_size_nonneg line n : _parse_chunk_size line = Ok n -> 0 <= n.
Proof.
  unfold _parse_chunk_size. destruct (_ || _); [done|]. intros H. inv_ok. destruct (_ || _); [done|].
  injection H as <-. apply int_hex_nonneg.
Qed.

Lemma chunk_size_raise line e : _parse_chunk_size line = Raise e -> e = _bad_request.
Proof.
  unfold _parse_chunk_size. destruct (_ || _); [by intros [= <-]|]. intros [H|(s & _ & H)]%rbind_Raise.
  - destruct (has_char 59 _); [|done]. destruct (partition_char 59 _) as [[? ?] ?]. unfold _validate_chunk_ext in H.
    destruct (forallb _ _); [done|]. by injection H.
  - destruct (_ || _); [by injection H|done].
Qed.

(** The message after a size line, inside a chunk of which [k] octets are owed. *)
Definition in_chunk (k : Z) (l rest b : bytes) : Prop :=
  exists d w b', zlen d = k /\ chunked_body w b' /\ b = d ++ b' /\ l = d ++ CRLF ++ w ++ rest.

Definition at_chunk (l rest b : bytes) : Prop := exists w, chunked_body w b /\ l = w ++ rest.

Lemma at_chunk_line n line l rest b :
  chunk_line n line ->
  at_chunk (line ++ l) rest b <->
  (if n =? 0 then b = [] /\ exists ts, Forall trailer_line ts /\ l = mjoin ts ++ CRLF ++ rest else in_chunk n l rest b).
Proof.
  intros Hl. pose proof Hl as (Hlf & _ & Hp). assert (Hn : 0 <= n) by by eapply chunk_size_nonneg. split.
  - intros (w & Hw & E). destruct Hw as [line' ts Hl' Hts|n' line' d w b Hn' Hl' Hd Hw];
      pose proof Hl' as (Hlf' & _ & Hp'); rewrite <- !app_assoc in E;
      apply (lf_line_inj _ _ _ _ Hlf Hlf') in E as [-> ->]; rewrite Hp in Hp'; injection Hp' as ->.
    + cbn [Z.eqb]. split; [done|]. by exists ts.
    + rewrite (proj2 (Z.eqb_neq _ _)) by lia. exists d, w, b. by split_and!.
  - destruct (Z.eqb_spec n 0) as [-> |Hn0].
    + intros (-> & ts & Hts & ->). exists (line ++ mjoin ts ++ CRLF). split; [by constructor|]. by rewrite <- !app_assoc.
    + intros (d & w & b' & Hd & Hw & -> & ->). exists (line ++ d ++ CRLF ++ w).
      split; [apply (more_chunk n); (done || lia)|]. by rewrite <- !app_assoc.
Qed.

(** Taking [data] off a chunk of [k] octets. *)
Lemma in_chunk_more k data l rest b :
  zlen data < k -> in_chunk k (data ++ l) rest b <-> exists b', b = data ++ b' /\ in_chunk (k - zlen data) l rest b'.
Proof.
  intros Hk. split.
  - intros (d & w & b' & Hd & Hw & -> & E).
    assert (Hpre : exists d', d = data ++ d').
    { exists (drop (length data) d). rewrite <- (take_drop (length data) d) at 1. f_equal.
      apply (f_equal (take (length data))) in E. rewrite take_app_length, take_app_le in E; [done|].
      unfold zlen in *. lia. }
    destruct Hpre as [d' ->]. rewrite <- app_assoc in E. apply app_inv_head in E as ->.
    exists (d' ++ b'). split; [by rewrite app_assoc|]. exists d', w, b'. rewrite zlen_app in Hd. split_and!; (done || lia).
  - intros (b' & -> & d & w & b2 & Hd & Hw & -> & ->). exists (data ++ d), w, b2. rewrite zlen_app.
    split_and!; [lia|done|by rewrite app_assoc|by rewrite <- app_assoc].
Qed.

Lemma in_chunk_end k data l rest b :
  zlen data = k -> in_chunk k (data ++ CRLF ++ l) rest b <-> exists b', b = data ++ b' /\ at_chunk l rest b'.
Proof.
  intros Hk. split.
  - intros (d & w & b' & Hd & Hw & -> & E). apply app_inj_1 in E as [-> E]; [|unfold zlen in *; lia].
    apply app_inv_head in E as ->. exists b'. split; [done|]. by exists w.
  - intros (b' & -> & w & Hw & ->). by exists data, w, b'.
Qed.

Lemma trailers_inj ts ts' rest rest' :
  Forall trailer_line ts -> Forall trailer_line ts' -> mjoin ts ++ CRLF ++ rest = mjoin ts' ++ CRLF ++ rest' -> rest = rest'.
Proof.
  intros Hts. revert ts'. induction Hts as [|x ts (Hx & _ & Hne & _) _ IH]; intros ts' Hts'.
  - destruct Hts' as [|y ts' (Hy & _ & Hney & _) _]; cbn [mjoin list_join]; rewrite <- ?app_assoc; intros E.
    + by apply (app_inv_head CRLF) in E.
    + apply (lf_line_inj _ _ _ _ crlf_line Hy) in E as [<- _]. done.
  - destruct Hts' as [|y ts' (Hy & _ & Hney & _) Hts']; cbn [mjoin list_join]; rewrite <- !app_assoc; intros E.
    + apply (lf_line_inj _ _ _ _ Hx crlf_line) in E as [-> _]. done.
    + apply (lf_line_inj _ _ _ _ Hx Hy) in E as [_ E]. by apply (IH ts').
Qed.

(** ** The recipient *)

Record config : Type := mkConfig {
  _chunk_size : Z;
  _chunk_max : Z;
  _max_body : Z;
  _min_rate : Z;
  _min_rate_grace : Z;
  _body_timeout : Z
}.

(** [chunk_max] of zero or less falls back to one octet. *)
Definition make_config (chunk_size chunk_max max_body min_rate grace timeout : Z) : config :=
  mkConfig chunk_size (Z.max chunk_max 1) max_body min_rate grace timeout.

Section Recipient.
Context {R : Type} `{!StreamReader R}.

Record t : Type := mk {
  _cfg : config;
  _reader : R;
  _waits : list (Z * bool);
  _chunked : bool;
  _content_length : option Z;
  _chunk_remaining : Z;
  _done : bool;
  _body_seen : Z;
  _body_wait : Z;
  _rate_window_wait : Z;
  _rate_window_seen : Z;
  _body_refused : bool;
  framing_broken : bool
}.

Definition set_reader (rd : R) (waits : list (Z * bool)) (wait : Z) (r : t) : t :=
  mk (_cfg r) rd waits (_chunked r) (_content_length r) (_chunk_remaining r) (_done r) (_body_seen r) wait
    (_rate_window_wait r) (_rate_window_seen r) (_body_refused r) (framing_broken r).
Definition set_length (n : option Z) (r : t) : t :=
  mk (_cfg r) (_reader r) (_waits r) (_chunked r) n (_chunk_remaining r) (_done r) (_body_seen r) (_body_wait r)
    (_rate_window_wait r) (_rate_window_seen r) (_body_refused r) (framing_broken r).
Definition set_remaining (n : Z) (r : t) : t :=
  mk (_cfg r) (_reader r) (_waits r) (_chunked r) (_content_length r) n (_done r) (_body_seen r) (_body_wait r)
    (_rate_window_wait r) (_rate_window_seen r) (_body_refused r) (framing_broken r).
Definition set_done (r : t) : t :=
  mk (_cfg r) (_reader r) (_waits r) (_chunked r) (_content_length r) (_chunk_remaining r) true (_body_seen r)
    (_body_wait r) (_rate_window_wait r) (_rate_window_seen r) (_body_refused r) (framing_broken r).
Definition set_seen (seen rate_wait rate_seen : Z) (r : t) : t :=
  mk (_cfg r) (_reader r) (_waits r) (_chunked r) (_content_length r) (_chunk_remaining r) (_done r) seen
    (_body_wait r) rate_wait rate_seen (_body_refused r) (framing_broken r).
Definition set_refused (r : t) : t :=
  mk (_cfg r) (_reader r) (_waits r) (_chunked r) (_content_length r) (_chunk_remaining r) (_done r) (_body_seen r)
    (_body_wait r) (_rate_window_wait r) (_rate_window_seen r) true (framing_broken r).
Definition set_broken (r : t) : t :=
  mk (_cfg r) (_reader r) (_waits r) (_chunked r) (_content_length r) (_chunk_remaining r) (_done r) (_body_seen r)
    (_body_wait r) (_rate_window_wait r) (_rate_window_seen r) (_body_refused r) true.

(** [__init__] is [bind] on a new object. *)
Definition bind (cfg : config) (reader : R) (waits : list (Z * bool)) (h : HttpHeaders.t) : result t :=
  let te := lower (strip WHITESPACE (get (lit "transfer-encoding") [] h)) in
  let cl := get (lit "content-length") [] h in
  if negb (bool_decide (te = [])) && negb (bool_decide (te = lit "chunked")) then Raise NotImplementedError
  else
    let* length := if bool_decide (cl = []) then Ok None else rmap Some (int_of_bytes cl) in
    Ok (mk cfg reader waits (bool_decide (te = lit "chunked")) length 0 false 0 0 0 0 false false).

Definition must_close (r : t) : bool := framing_broken r || _body_refused r.

Definition unread (r : t) : bool :=
  negb (_done r) && (_chunked r || match _content_length r with Some n => negb (n =? 0) | None => false end).

Definition needs_drain (r : t) : bool := if framing_broken r || _body_refused r then false else unread r.

Inductive verdict : Type := CONNECTION_REUSABLE | CONNECTION_NEEDS_DRAIN | CONNECTION_MUST_CLOSE.

Definition after_dispatch (r : t) : verdict :=
  if framing_broken r || _body_refused r then CONNECTION_MUST_CLOSE
  else if unread r then CONNECTION_NEEDS_DRAIN
  else CONNECTION_REUSABLE.

(** ** Reads *)

Definition _read_with_timeout (read : R -> outcome bytes * R) : smonad t bytes := fun r =>
  let '(elapsed, expired) := match _waits r with w :: _ => w | [] => (0, false) end in
  let wait := if negb (_min_rate (_cfg r) =? 0) then _body_wait r + elapsed else _body_wait r in
  if expired && (0 <? _body_timeout (_cfg r)) then (Raise TimeoutError, set_reader (_reader r) (tail (_waits r)) wait r)
  else
    let '(o, rd) := read (_reader r) in
    let r := set_reader rd (tail (_waits r)) wait r in
    match o with
    | Done data => (Ok data, r)
    | Incomplete _ => (Raise IncompleteReadError, r)
    | LimitHit _ => (Raise ReadLimitExceeded, r)
    | Failed e => (Raise e, r)
    | Stuck => (Raise OutOfFuel, r)
    end.

Definition broken {A} : smonad t A := do! supdate set_broken in sraise _bad_request.

Definition _read_chunk_slice : smonad t bytes := fun r =>
  let n := Z.min (_chunk_remaining r) (_chunk_size (_cfg r)) in
  (let! data := _read_with_timeout (sreadexactly n) in
   do! supdate (fun r => set_remaining (_chunk_remaining r - n) r) in
   fun r =>
     if _chunk_remaining r =? 0 then
       (let! term := _read_with_timeout (sreadexactly 2) in
        if bool_decide (term = [13; 10]) then sret data else broken) r
     else (Ok data, r)) r.

Definition _read_chunk_line : smonad t bytes :=
  let! line := scatch (_read_with_timeout sreadline)
                 (fun e => match e with LimitOverrunError => Some broken | _ => None end) in
  if zlen line >? _CHUNK_LINE_MAX then broken else sret line.

Definition _parse_chunk_size_or_400 (line : bytes) : smonad t Z :=
  match _parse_chunk_size line with
  | Ok n => sret n
  | Raise e => do! supdate set_broken in sraise e
  end.

Definition _account (chunk : bytes) : smonad t bytes := fun r =>
  let r := set_seen (_body_seen r + zlen chunk) (_rate_window_wait r) (_rate_window_seen r + zlen chunk) r in
  if negb (_max_body (_cfg r) =? 0) && (_body_seen r >? _max_body (_cfg r))
  then (Raise _content_too_large, set_done (set_refused r))
  else if negb (_min_rate (_cfg r) =? 0) then
    let window_wait := _body_wait r - _rate_window_wait r in
    if window_wait >? _min_rate_grace (_cfg r) then
      if _rate_window_seen r <? _min_rate (_cfg r) * window_wait
      then (Raise ClientDisconnected, set_done (set_refused r))
      else (Ok chunk, set_seen (_body_seen r) (_body_wait r) 0 r)
    else (Ok chunk, r)
  else (Ok chunk, r).

(** The lines after the last chunk. *)
Fixpoint trailer_loop (fuel : nat) : smonad t unit :=
  match fuel with
  | O => sraise OutOfFuel
  | S fuel =>
      let! line := _read_chunk_line in
      if bool_decide (line = [13; 10]) then sret tt
      else if negb (endswith [13; 10] line) then broken
      else
        let '(name, _, _) := partition_char 58 line in
        if bool_decide (lower (strip OWS name) ∈ _PROHIBITED_TRAILER_FIELDS) then broken
        else trailer_loop fuel
  end.

Definition next_chunked : smonad t (option bytes) := fun r =>
  if negb (_chunk_remaining r =? 0) then
    (let! data := _read_chunk_slice in let! data := _account data in sret (Some data)) r
  else
    (let! size_line := _read_chunk_line in
     let! chunk_size := _parse_chunk_size_or_400 size_line in
     if chunk_size =? 0 then
       do! (fun r => trailer_loop (S (ssize (_reader r))) r) in
       do! supdate set_done in sret None
     else
       do! supdate (set_remaining chunk_size) in
       let! data := _read_chunk_slice in let! data := _account data in sret (Some data)) r.

Definition next_counted : smonad t (option bytes) := fun r =>
  match _content_length r with
  | Some length =>
      if negb (length =? 0) then
        (let! body := _read_with_timeout (sread (Z.min length (_chunk_max (_cfg r)))) in
         if bool_decide (body = []) then sraise IncompleteReadError
         else
           do! supdate (fun r =>
             let r := set_length (Some (length - zlen body)) r in
             if length - zlen body =? 0 then set_done r else r) in
           let! body := _account body in sret (Some body)) r
      else (Ok None, set_done r)
  | None => (Ok None, set_done r)
  end.

(** The two [except] clauses. *)
Definition on_failure (e : exn) : option (smonad t (option bytes)) :=
  match e with
  | TimeoutError | IncompleteReadError => Some (do! supdate set_done in sraise ClientDisconnected)
  | _ => None
  end.

Definition next_chunk : smonad t (option bytes) := fun r =>
  if _done r then (Ok None, r)
  else scatch (fun r => if _chunked r then next_chunked r else next_counted r) on_failure r.

(** The ASGI view. *)
Inductive event : Type :=
| http_request (body : bytes) (more_body : bool)
| http_disconnect.

Definition __call__ : smonad t event := fun r =>
  if _done r then (Ok http_disconnect, r)
  else
    match next_chunk r with
    | (Raise ClientDisconnected, r) => (Ok http_disconnect, r)
    | (Raise e, r) => (Raise e, r)
    | (Ok None, r) => (Ok (http_request [] false), r)
    | (Ok (Some chunk), r) => (Ok (http_request chunk (negb (_done r))), r)
    end.

Fixpoint drain_loop (fuel : nat) (max_bytes drained : Z) : smonad t bool := fun r =>
  if _done r then (Ok true, r)
  else
    match fuel with
    | O => (Raise OutOfFuel, r)
    | S fuel =>
        match next_chunk r with
        | (Raise ClientDisconnected, r) => (Ok true, r)
        | (Raise (HTTPException _), r) => (Ok false, set_refused r)
        | (Raise e, r) => (Raise e, r)
        | (Ok None, r) => (Ok true, r)
        | (Ok (Some chunk), r) =>
            let drained := drained + zlen chunk in
            if drained >? max_bytes then (Ok false, r) else drain_loop fuel max_bytes drained r
        end
    end.

Definition drain (max_bytes : Z) : smonad t bool := fun r => drain_loop (S (ssize (_reader r))) max_bytes 0 r.

(** ** Calm connections *)

(** Nothing times out and no rate is asked for. *)
Definition calm (r : t) : Prop :=
  _min_rate (_cfg r) = 0 /\ (_body_timeout (_cfg r) <= 0 \/ Forall (fun w => w.2 = false) (_waits r)).

(** [l] is what is left to be read. *)
Definition sees (r : t) (l : bytes) : Prop := calm r /\ holds (_reader r) l.

(** The same recipient after its reader has moved on to [l]. *)
Definition moved (r r1 : t) (l : bytes) : Prop :=
  sees r1 l /\ r1 = set_reader (_reader r1) (_waits r1) (_body_wait r) r.

Lemma moved_trans r r1 r2 l1 l2 : moved r r1 l1 -> moved r1 r2 l2 -> moved r r2 l2.
Proof. intros [_ E1] [H2 E2]. split; [done|]. rewrite E2, E1 at 1. cbn. by rewrite E1. Qed.

Lemma read_calm read r l o rd l1 :
  sees r l -> read (_reader r) = (o, rd) -> holds rd l1 ->
  exists r1, moved r r1 l1 /\
    _read_with_timeout read r =
      (match o with
       | Done data => Ok data
       | Incomplete _ => Raise IncompleteReadError
       | LimitHit _ => Raise ReadLimitExceeded
       | Failed e => Raise e
       | Stuck => Raise OutOfFuel
       end, r1).
Proof.
  intros [[Hrate Htime] Hh] Hread Hrd. unfold _read_with_timeout. rewrite Hread, Hrate. cbn [Z.eqb negb].
  set (w := match _waits r with w :: _ => w | [] => (0, false) end).
  assert (Hw : snd w && (0 <? _body_timeout (_cfg r)) = false).
  { destruct Htime as [Ht|Hf]; [rewrite (proj2 (Z.ltb_ge _ _) Ht); apply andb_false_r|].
    unfold w. destruct Hf as [|x ws Hx _]; [done|]. by rewrite Hx. }
  destruct w as [elapsed expired]. cbn [snd] in Hw. rewrite Hw.
  exists (set_reader rd (tail (_waits r)) (_body_wait r) r). split; [|by destruct o].
  split; [|done]. split; [|done]. split; [done|]. destruct Htime as [?|Hf]; [by left|right].
  cbn. destruct Hf; [apply Forall_nil_2|done].
Qed.

Lemma exactly_calm n r l :
  sees r l -> 0 <= n ->
  exists r1, if n <=? zlen l
    then _read_with_timeout (sreadexactly n) r = (Ok (take (Z.to_nat n) l), r1) /\ moved r r1 (drop (Z.to_nat n) l)
    else _read_with_timeout (sreadexactly n) r = (Raise IncompleteReadError, r1) /\ moved r r1 [].
Proof.
  intros Hs Hn. destruct (sreadexactly_spec n (_reader r) l) as [rd H]; [apply Hs|done|].
  destruct (n <=? zlen l); destruct H as [Hr Hh]; destruct (read_calm _ _ _ _ _ _ Hs Hr Hh) as (r1 & Hm & E);
    by exists r1.
Qed.

(** The line cap of [_read_chunk_line]. *)
Lemma line_calm r l :
  sees r l ->
  exists r1, match find_char 10 l with
    | Some i =>
        moved r r1 (drop (S i) l) /\
        _read_chunk_line r =
          (if zlen (take (S i) l) >? _CHUNK_LINE_MAX then (Raise _bad_request, set_broken r1) else (Ok (take (S i) l), r1))
    | None => moved r r1 [] /\ _read_chunk_line r = (Raise IncompleteReadError, r1)
    end.
Proof.
  intros Hs. unfold _read_chunk_line, sbind, scatch. destruct (sreadline_spec (_reader r) l) as [rd H]; [apply Hs|].
  destruct (find_char 10 l) as [i|]; destruct H as [Hr Hh]; destruct (read_calm _ _ _ _ _ _ Hs Hr Hh) as (r1 & Hm & ->);
    exists r1; (split; [done|]); [|done]. by destruct (_ >? _).
Qed.

(** What reads do not touch. *)
Definition steady (r : t) := (_cfg r, _chunked r, _content_length r, _done r, _body_seen r, _body_refused r).

Lemma moved_steady r r1 l :
  moved r r1 l -> sees r1 l /\ steady r1 = steady r /\ _chunk_remaining r1 = _chunk_remaining r /\
    framing_broken r1 = framing_broken r.
Proof. intros [Hs E]. split; [done|]. by rewrite E. Qed.

(** How reading the framing fails: the stream ends, or the framing is broken. *)
Definition fails (r : t) (e : exn) (r1 : t) (l1 : bytes) : Prop :=
  (e = IncompleteReadError /\ l1 = [] /\ framing_broken r1 = framing_broken r /\
   (0 <= _chunk_remaining r -> 0 <= _chunk_remaining r1)) \/
  (e = _bad_request /\ framing_broken r1 = true).

Lemma fails_from r r' e r1 l1 :
  framing_broken r' = framing_broken r -> (0 <= _chunk_remaining r -> 0 <= _chunk_remaining r') ->
  fails r' e r1 l1 -> fails r e r1 l1.
Proof. intros Hb Hr [(-> & -> & H1 & H2)|H]; [left; split_and!; [done|done|by rewrite <- Hb|auto]|by right]. Qed.

(** One slice of a chunk of which [_chunk_remaining] octets are owed. *)
Lemma slice_calm r l :
  sees r l -> 0 < _chunk_remaining r -> 0 < _chunk_size (_cfg r) ->
  exists res r1 l1, _read_chunk_slice r = (res, r1) /\ sees r1 l1 /\ steady r1 = steady r /\
    match res with
    | Ok data =>
        framing_broken r1 = framing_broken r /\ 0 < zlen data <= _chunk_remaining r /\
        _chunk_remaining r1 = _chunk_remaining r - zlen data /\
        l = data ++ (if _chunk_remaining r1 =? 0 then [13; 10] else []) ++ l1
    | Raise e => fails r e r1 l1 /\ forall d w, zlen d = _chunk_remaining r -> l <> d ++ [13; 10] ++ w
    end.
Proof.
  intros Hs Hk Hc. unfold _read_chunk_slice. set (k := _chunk_remaining r) in *. set (n := Z.min k _).
  assert (Hn : 0 < n <= k) by lia.
  destruct (exactly_calm n r l Hs ltac:(lia)) as [r1 H]. unfold sbind at 1 2.
  destruct (Z.leb_spec n (zlen l)) as [Hl|Hl]; destruct H as [-> [Hs1 Hst]%moved_steady].
  2:{ exists (Raise IncompleteReadError), r1, []. destruct Hst as (? & ? & ?). split_and!; try done; [left; split_and!; (done || lia || congruence)|]. 
      intros d w Hd ->. rewrite !zlen_app in Hl. change (zlen [13; 10]) with 2 in Hl. pose proof (zlen_nonneg w). lia. }
  cbn [supdate]. destruct Hst as (Hst & Hrem & Hbr). set (data := take (Z.to_nat n) l). set (l1 := drop (Z.to_nat n) l) in *.
  assert (Hdata : zlen data = n) by (unfold data; lens).
  assert (El : l = data ++ l1) by (symmetry; apply take_drop).
  set (r2 := set_remaining (_chunk_remaining r1 - n) r1). assert (Hr2 : _chunk_remaining r2 = k - n) by (cbn; rewrite Hrem; done).
  assert (Hs2 : sees r2 l1) by done.
  destruct (Z.eqb_spec (_chunk_remaining r2) 0) as [H0|H0].
  2:{ exists (Ok data), r2, l1. split; [done|]. split; [done|]. split; [done|]. rewrite Hdata, Hr2.
      split_and!; [done|lia|lia|done|]. by rewrite (proj2 (Z.eqb_neq _ _)) by lia. }
  destruct (exactly_calm 2 r2 l1 Hs2 ltac:(lia)) as [r3 H]. unfold sbind.
  destruct (Z.leb_spec 2 (zlen l1)) as [Hl1|Hl1]; destruct H as [-> [Hs3 (Hst3 & Hrem3 & Hbr3)]%moved_steady].
  2:{ exists (Raise IncompleteReadError), r3, []. split_and!; try done; [by rewrite Hst3|left; split_and!; [done|done|by rewrite Hbr3|lia]|].
      intros d w Hd He. rewrite El in He. apply (f_equal zlen) in He. rewrite !zlen_app in He.
      change (zlen [13; 10]) with 2 in He. pose proof (zlen_nonneg w). lia. }
  change (Z.to_nat 2) with 2%nat in *. case_bool_decide as Ht.
  - exists (Ok data), r3, (drop 2 l1). split; [done|]. split; [done|]. split; [by rewrite Hst3|].
    rewrite Hdata, Hrem3, Hr2. split_and!; [by rewrite Hbr3|lia|lia|done|]. rewrite (proj2 (Z.eqb_eq _ _)) by lia.
    rewrite El at 1. f_equal. rewrite <- (take_drop 2 l1) at 1. by rewrite Ht.
  - exists (Raise _bad_request), (set_broken r3), (drop 2 l1). split; [done|]. split; [done|].
    split; [change (steady r3 = steady r); by rewrite Hst3|].
    split; [by right|]. intros d w Hd He. apply Ht. rewrite El in He.
    apply app_inj_1 in He as [_ He]; [by rewrite He|]. unfold zlen in *. lia.
Qed.

(** A line of framing, within the cap. *)
Lemma chunk_line_calm r l :
  sees r l ->
  exists res r1 l1, _read_chunk_line r = (res, r1) /\ sees r1 l1 /\ steady r1 = steady r /\
    _chunk_remaining r1 = _chunk_remaining r /\
    match res with
    | Ok line => framing_broken r1 = framing_broken r /\ lf_line line /\ zlen line <= _CHUNK_LINE_MAX /\ l = line ++ l1
    | Raise e =>
        fails r e r1 l1 /\ forall line rest, lf_line line -> zlen line <= _CHUNK_LINE_MAX -> l <> line ++ rest
    end.
Proof.
  intros Hs. destruct (line_calm r l Hs) as [r1 H]. destruct (find_char 10 l) as [i|] eqn:E.
  - destruct H as [[Hs1 (Hst & Hrem & Hbr)]%moved_steady ->]. apply find_char_Some in E as (s & rest & -> & Hi & Hs').
    assert (Hline : take (S i) (s ++ 10 :: rest) = s ++ [10]).
    { rewrite cons_middle, app_assoc, <- Hi. apply take_app_length'. rewrite length_app. cbn. lia. }
    assert (Hrest : drop (S i) (s ++ 10 :: rest) = rest).
    { rewrite cons_middle, app_assoc, <- Hi. apply drop_app_length'. rewrite length_app. cbn. lia. }
    rewrite Hline, Hrest in *. assert (Hlf : lf_line (s ++ [10])) by by exists s.
    rewrite Z.gtb_ltb. destruct (Z.ltb_spec _CHUNK_LINE_MAX (zlen (s ++ [10]))) as [Hc|Hc].
    + exists (Raise _bad_request), (set_broken r1), rest. split_and!; try done; [by right|].
      intros line rest' Hl Hlen Heq. rewrite (cons_middle 10), app_assoc in Heq.
      apply (lf_line_inj _ _ _ _ Hlf Hl) in Heq as [<- _]. lia.
    + exists (Ok (s ++ [10])), r1, rest. split_and!; try done. by rewrite <- app_assoc.
  - destruct H as [[Hs1 (Hst & Hrem & Hbr)]%moved_steady ->]. exists (Raise IncompleteReadError), r1, [].
    split_and!; try done; [left; split_and!; (done || lia || congruence)|]. intros line rest (s & -> & Hs') _ ->. rewrite <- app_assoc in E. cbn [app] in E.
    by rewrite find_char_app in E.
Qed.

Lemma trailers_calm fuel r l :
  sees r l -> (length l < fuel)%nat ->
  exists res r1 l1, trailer_loop fuel r = (res, r1) /\ sees r1 l1 /\ steady r1 = steady r /\
    _chunk_remaining r1 = _chunk_remaining r /\
    match res with
    | Ok _ => framing_broken r1 = framing_broken r /\ exists ts, Forall trailer_line ts /\ l = mjoin ts ++ CRLF ++ l1
    | Raise e => fails r e r1 l1 /\ forall ts rest, Forall trailer_line ts -> l <> mjoin ts ++ CRLF ++ rest
    end.
Proof.
  revert r l. induction fuel as [|fuel IH]; intros r l Hs Hf; [lia|]. cbn [trailer_loop]. unfold sbind at 1.
  destruct (chunk_line_calm r l Hs) as (res & r1 & l1 & -> & Hs1 & Hst & Hrem & Hres).
  assert (Hmax : zlen CRLF <= _CHUNK_LINE_MAX) by (vm_compute; discriminate).
  destruct res as [line|e].
  2:{ exists (Raise e), r1, l1. destruct Hres as [Hfail Hno]. split_and!; try done.
      intros [|x ts] rest Hts; cbn [mjoin list_join]; [apply (Hno CRLF); [apply crlf_line|done]|].
      apply Forall_cons in Hts as [(Hx & Hlen & _) _]. rewrite <- app_assoc. by apply Hno. }
  destruct Hres as (Hbr & Hlf & Hlen & ->).
  (* the line read is the first line of any parse *)
  assert (Hfirst : forall ts rest, Forall trailer_line ts -> line ++ l1 = mjoin ts ++ CRLF ++ rest ->
    (ts = [] /\ line = CRLF /\ l1 = rest) \/
    (exists ts', ts = line :: ts' /\ Forall trailer_line ts' /\ trailer_line line /\ l1 = mjoin ts' ++ CRLF ++ rest)).
  { intros [|x ts] rest Hts He; cbn [mjoin list_join] in He.
    - apply (lf_line_inj _ _ _ _ Hlf crlf_line) in He as [-> ->]. by left.
    - apply Forall_cons in Hts as [Hx Hts]. rewrite <- app_assoc in He. pose proof Hx as (Hx' & _).
      apply (lf_line_inj _ _ _ _ Hlf Hx') in He as [-> ->]. right. by exists ts. }
  case_bool_decide as Hc.
  { exists (Ok tt), r1, l1. subst line. split_and!; try done. by exists []. }
  assert (Hbroken : ~ trailer_line line ->
    exists (res : result unit) r2 l2, broken r1 = (res, r2) /\ sees r2 l2 /\ steady r2 = steady r /\ _chunk_remaining r2 = _chunk_remaining r /\
      match res with
      | Ok _ => framing_broken r2 = framing_broken r /\ exists ts, Forall trailer_line ts /\ line ++ l1 = mjoin ts ++ CRLF ++ l2
      | Raise e => fails r e r2 l2 /\ forall ts rest, Forall trailer_line ts -> line ++ l1 <> mjoin ts ++ CRLF ++ rest
      end).
  { intros Hn. exists (Raise _bad_request), (set_broken r1), l1. split_and!; try done; [by right|].
    intros ts rest Hts He. apply (Hfirst ts rest Hts) in He as [(_ & ? & _)|(ts' & _ & _ & ? & _)]; done. }
  destruct (endswith [13; 10] line) eqn:Eend; cbn [negb].
  2:{ apply Hbroken. intros (_ & _ & _ & He & _). change CRLF with [13; 10] in He. by rewrite He in Eend. }
  destruct (partition_char 58 line) as [[name q] v] eqn:Ep.
  assert (Hname : trailer_name line = lower (strip OWS name)) by (unfold trailer_name; by rewrite Ep).
  case_bool_decide as Hp.
  { apply Hbroken. intros (_ & _ & _ & _ & Hn). by rewrite Hname in Hn. }
  assert (Htr : trailer_line line) by (split_and!; try done; by rewrite Hname).
  destruct (IH r1 l1 Hs1) as (res & r2 & l2 & -> & Hs2 & Hst2 & Hrem2 & Hres).
  { rewrite length_app in Hf. destruct Hlf as (s & -> & _). rewrite length_app in Hf. cbn in Hf. lia. }
  exists res, r2, l2. split; [done|]. split; [done|]. split; [by rewrite Hst2|]. split; [by rewrite Hrem2|].
  destruct res as [u|e].
  - destruct Hres as (Hbr2 & ts & Hts & ->). split; [by rewrite Hbr2|]. exists (line :: ts). split; [by constructor|].
    cbn [mjoin list_join]. by rewrite <- app_assoc.
  - destruct Hres as [Hfail Hno]. split; [apply (fails_from r r1); (done || by rewrite Hrem)|]. intros ts rest Hts He.
    apply (Hfirst ts rest Hts) in He as [(_ & ? & _)|(ts' & _ & Hts' & _ & He)]; [done|]. by apply (Hno ts' rest).
Qed.

(** ** What is owed *)

(** In state [r], with [l] left to be read, the message goes on to the point
    where [rest] follows, and [b] is the content still to come. *)
Definition owes (r : t) (l rest b : bytes) : Prop :=
  if _done r then l = rest /\ b = []
  else if _chunked r then
    if _chunk_remaining r =? 0 then at_chunk l rest b else in_chunk (_chunk_remaining r) l rest b
  else l = b ++ rest /\ zlen b = default 0 (_content_length r).

Record healthy (r : t) : Prop := mkHealthy {
  he_broken : framing_broken r = false;
  he_refused : _body_refused r = false;
  he_remaining : 0 <= _chunk_remaining r;
  he_length : 0 <= default 0 (_content_length r);
  he_size : 0 < _chunk_size (_cfg r) /\ 0 < _chunk_max (_cfg r)
}.

(** The size cap is respected by [n] more octets. *)
Definition within_cap (r : t) (n : Z) : Prop := _max_body (_cfg r) = 0 \/ _body_seen r + n <= _max_body (_cfg r).

(** How one call of [next_chunk] ends. *)
Definition next_outcome (r : t) (l : bytes) (res : result (option bytes)) (r1 : t) (l1 : bytes) : Prop :=
  sees r1 l1 /\ _cfg r1 = _cfg r /\
  match res with
  | Ok (Some c) =>
      healthy r1 /\ c <> [] /\ (length l1 < length l)%nat /\ _body_seen r1 = _body_seen r + zlen c /\
      within_cap r (zlen c) /\
      forall rest b, owes r l rest b <-> exists b', b = c ++ b' /\ owes r1 l1 rest b'
  | Ok None =>
      healthy r1 /\ _done r1 = true /\ _body_seen r1 = _body_seen r /\
      forall rest b, owes r l rest b <-> b = [] /\ rest = l1
  | Raise e =>
      (e = ClientDisconnected /\ healthy r1 /\ _done r1 = true /\ l1 = [] /\ forall rest b, ~ owes r l rest b) \/
      (exists s, e = HTTPException s /\ must_close r1 = true /\
        forall rest b, owes r l rest b -> ~ within_cap r (zlen b))
  end.

Lemma account_calm r c :
  calm r ->
  _account c r =
    let r := set_seen (_body_seen r + zlen c) (_rate_window_wait r) (_rate_window_seen r + zlen c) r in
    if negb (_max_body (_cfg r) =? 0) && (_body_seen r >? _max_body (_cfg r))
    then (Raise _content_too_large, set_done (set_refused r)) else (Ok c, r).
Proof. intros [Hr _]. unfold _account. cbn [set_seen _cfg]. rewrite Hr. cbn. by destruct (_ && _). Qed.

(** Delivering [c], as far as the cap goes. *)
Lemma account_outcome r r2 l l1 c :
  sees r2 l1 -> _cfg r2 = _cfg r -> healthy r2 -> c <> [] -> (length l1 < length l)%nat -> _body_seen r2 = _body_seen r ->
  (forall rest b, owes r l rest b <-> exists b', b = c ++ b' /\ owes r2 l1 rest b') ->
  exists res r3, (let! data := _account c in sret (Some data)) r2 = (res, r3) /\ next_outcome r l res r3 l1.
Proof.
  intros Hs Hcfg Hh Hc Hlen Hseen Ho. unfold sbind. rewrite account_calm by apply Hs. cbn zeta.
  set (r3 := set_seen _ _ _ r2). assert (Hn := zlen_nonneg c).
  destruct (negb _ && _) eqn:E; eexists _, _; (split; [reflexivity|]); (split; [exact Hs|]); (split; [exact Hcfg|]).
  - right. exists 413. split_and!; [done|unfold must_close; cbn; apply orb_true_r|].
    intros rest b Hb. apply Ho in Hb as (b' & -> & _). intros [H0|Hle].
    + cbn in E. rewrite Hcfg, H0 in E. done.
    + cbn in E. rewrite Hcfg, Hseen in E. rewrite zlen_app in Hle. pose proof (zlen_nonneg b').
      apply andb_prop in E as [_ E]. lia.
  - split; [by destruct Hh; constructor|]. split_and!; try done; [cbn; by rewrite Hseen|].
    unfold within_cap. cbn in E. rewrite Hcfg, Hseen in E.
    destruct (Z.eqb_spec (_max_body (_cfg r)) 0); [by left|right]. cbn in E. lia.
Qed.

Lemma steady_fields r1 r :
  steady r1 = steady r ->
  _cfg r1 = _cfg r /\ _chunked r1 = _chunked r /\ _content_length r1 = _content_length r /\ _done r1 = _done r /\
    _body_seen r1 = _body_seen r /\ _body_refused r1 = _body_refused r.
Proof. unfold steady. intros H. by injection H. Qed.

(** The failures of the framing reads, as [next_chunk] reports them. *)
Lemma fails_outcome (m : smonad t (option bytes)) r0 r l e r1 l1 :
  m r0 = (Raise e, r1) -> sees r1 l1 -> steady r1 = steady r -> healthy r -> fails r e r1 l1 ->
  (forall rest b, ~ owes r l rest b) ->
  exists res r2, scatch m on_failure r0 = (res, r2) /\ next_outcome r l res r2 l1.
Proof.
  intros Hm Hs Hst Hh Hf Hno. apply steady_fields in Hst as (Hcfg & Hch & Hcl & Hd & Hse & Hre).
  unfold scatch. rewrite Hm. destruct Hf as [(-> & -> & Hbr & Hrem)|[-> Hb]];
    eexists _, _; (split; [reflexivity|]); (split; [exact Hs|]); (split; [exact Hcfg|]).
  - left. split_and!; try done. destruct Hh. constructor; cbn; rewrite ?Hcfg, ?Hcl, ?Hre, ?Hbr; try done. by apply Hrem.
  - right. exists 400. split_and!; [done|unfold must_close; by rewrite Hb|]. intros rest b Hb'. by apply Hno in Hb'.
Qed.

(** What is not caught passes. *)
Lemma passes_outcome (m : smonad t (option bytes)) r0 r l res r1 l1 :
  m r0 = (res, r1) -> next_outcome r l res r1 l1 ->
  exists res r2, scatch m on_failure r0 = (res, r2) /\ next_outcome r l res r2 l1.
Proof.
  intros Hm Ho. exists res, r1. split; [|done]. unfold scatch. rewrite Hm. destruct res as [c|e]; [done|].
  destruct Ho as (_ & _ & [(-> & _)|(s & -> & _)]); done.
Qed.

(** A call that delivers a slice of the chunk in progress, where the call began
    in [r] with [l0] to read. *)
Lemma slice_outcome (m : smonad t (option bytes)) r0 r l0 r2 l :
  m r0 = (let! data := _read_chunk_slice in let! data := _account data in sret (Some data)) r2 ->
  sees r2 l -> healthy r2 -> _done r2 = false -> _chunked r2 = true -> 0 < _chunk_remaining r2 ->
  healthy r -> _cfg r2 = _cfg r -> _body_seen r2 = _body_seen r -> _body_refused r2 = _body_refused r ->
  _content_length r2 = _content_length r -> _chunked r = true -> _done r = false -> (length l <= length l0)%nat ->
  (forall rest b, owes r l0 rest b <-> in_chunk (_chunk_remaining r2) l rest b) ->
  exists res r3 l3, scatch m on_failure r0 = (res, r3) /\ next_outcome r l0 res r3 l3.
Proof.
  intros Hm Hs Hh2 Hd2 Hch2 Hk Hh Hcfg Hse Hre Hcl Hch Hd Hlen Ho.
  destruct (slice_calm r2 l Hs Hk ltac:(apply Hh2)) as (res & r3 & l3 & Hsl & Hs3 & Hst3 & Hres).
  unfold sbind at 1 in Hm. rewrite Hsl in Hm. pose proof (steady_fields _ _ Hst3) as (Hcfg3 & Hch3 & Hcl3 & Hd3 & Hse3 & Hre3).
  destruct res as [data|e].
  - destruct Hres as (Hbr & Hn & Hrem & El).
    assert (Hsplit : forall rest b, owes r l0 rest b <-> exists b', b = data ++ b' /\ owes r3 l3 rest b').
    { intros rest b. rewrite Ho. unfold owes. rewrite Hd3, Hd2, Hch3, Hch2. rewrite El.
      destruct (Z.eqb_spec (_chunk_remaining r3) 0) as [H0|H0].
      - apply in_chunk_end. lia.
      - cbn [app]. rewrite in_chunk_more by lia. by rewrite Hrem. }
    destruct (account_outcome r r3 l0 l3 data) as (res & r4 & Hacc & Hout).
    + done.
    + by rewrite Hcfg3.
    + destruct Hh2. constructor; rewrite ?Hcfg3, ?Hcl3, ?Hre3, ?Hbr; try done. lia.
    + intros ->. unfold zlen in Hn. cbn in Hn. lia.
    + rewrite El, !length_app in Hlen. unfold zlen in Hn. lia.
    + by rewrite Hse3.
    + done.
    + rewrite Hacc in Hm. destruct (passes_outcome m r0 r l0 res r4 l3 Hm Hout) as (res' & r5 & ? & ?). by exists res', r5, l3.
  - destruct Hres as [Hf Hno]. destruct Hh2, Hh.
    destruct (fails_outcome m r0 r l0 e r3 l3 Hm Hs3) as (res & r4 & ? & ?); [|done| | |by exists res, r4, l3].
    + rewrite Hst3. unfold steady. by rewrite Hcfg, Hch2, Hch, Hcl, Hd2, Hd, Hse, Hre.
    + apply (fails_from r r2); [congruence|lia|done].
    + intros rest b Hb. apply Ho in Hb as (d & w & b' & Hdl & _ & _ & E). by apply (Hno d (w ++ rest)).
Qed.

Lemma next_chunked_spec r l :
  sees r l -> healthy r -> _done r = false -> _chunked r = true ->
  exists res r1 l1, scatch next_chunked on_failure r = (res, r1) /\ next_outcome r l res r1 l1.
Proof.
  intros Hs Hh Hd Hch. pose proof Hh as [Hb Href Hrem Hcl Hsz].
  assert (Howes : forall rest b, owes r l rest b <->
    (if _chunk_remaining r =? 0 then at_chunk l rest b else in_chunk (_chunk_remaining r) l rest b)).
  { intros rest b. unfold owes. by rewrite Hd, Hch. }
  destruct (Z.eqb_spec (_chunk_remaining r) 0) as [H0|H0].
  2:{ apply (slice_outcome _ r r l r l); try done; [|lia]. unfold next_chunked. by rewrite (proj2 (Z.eqb_neq _ _) H0). }
  assert (Hunf : next_chunked r =
    (let! size_line := _read_chunk_line in
     let! chunk_size := _parse_chunk_size_or_400 size_line in
     if chunk_size =? 0 then
       do! (fun r => trailer_loop (S (ssize (_reader r))) r) in do! supdate set_done in sret None
     else
       do! supdate (set_remaining chunk_size) in
       let! data := _read_chunk_slice in let! data := _account data in sret (Some data)) r).
  { unfold next_chunked. by rewrite (proj2 (Z.eqb_eq _ _) H0). }
  destruct (chunk_line_calm r l Hs) as (res & r1 & l1 & Hline & Hs1 & Hst & Hrem1 & Hres).
  unfold sbind at 1 in Hunf. rewrite Hline in Hunf. destruct res as [line|e].
  2:{ destruct Hres as [Hf Hno]. destruct (fails_outcome _ r r l e r1 l1 Hunf Hs1 Hst Hh Hf) as (res & r2 & ? & ?);
        [|by exists res, r2, l1].
      intros rest b Hw. apply Howes in Hw as (w & Hw & E).
      destruct Hw as [x ts (Hlf & Hlen & _) _|n x d w b _ (Hlf & Hlen & _) _ _]; rewrite <- app_assoc in E;
        by apply (Hno x _ Hlf Hlen) in E. }
  destruct Hres as (Hbr & Hlf & Hlen & ->). unfold _parse_chunk_size_or_400 in Hunf. unfold sbind at 1 in Hunf.
  destruct (_parse_chunk_size line) as [n|e] eqn:Ep.
  2:{ apply chunk_size_raise in Ep as He. subst e.
      destruct (fails_outcome _ r r (line ++ l1) _bad_request (set_broken r1) l1 Hunf Hs1 Hst Hh) as (res & r2 & ? & ?);
        [by right| |by exists res, r2, l1].
      intros rest b Hw. apply Howes in Hw as (w & Hw & E).
      destruct Hw as [x ts (Hx & _ & Hp) _|n x d w b _ (Hx & _ & Hp) _ _]; rewrite <- app_assoc in E;
        apply (lf_line_inj _ _ _ _ Hlf Hx) in E as [<- _]; congruence. }
  cbn [sret] in Hunf. assert (Hcline : chunk_line n line) by done.
  pose proof (steady_fields _ _ Hst) as (Hcfg & Hch1 & Hcl1 & Hd1 & Hse & Hre).
  assert (Hho : forall rest b, owes r (line ++ l1) rest b <->
    (if n =? 0 then b = [] /\ exists ts, Forall trailer_line ts /\ l1 = mjoin ts ++ CRLF ++ rest else in_chunk n l1 rest b)).
  { intros rest b. rewrite Howes. by apply at_chunk_line. }
  assert (Hn : 0 <= n) by by eapply chunk_size_nonneg. destruct (Z.eqb_spec n 0) as [Hn0|Hn0].
  - unfold sbind at 1 in Hunf.
    destruct (trailers_calm (S (ssize (_reader r1))) r1 l1 Hs1) as (res & r2 & l2 & Htr & Hs2 & Hst2 & Hrem2 & Hres).
    { destruct Hs1 as [_ Hh1]. rewrite (holds_size _ _ Hh1). lia. }
    rewrite Htr in Hunf. pose proof (steady_fields _ _ Hst2) as (Hcfg2 & Hch2 & Hcl2 & Hd2 & Hse2 & Hre2).
    destruct res as [u|e].
    + destruct Hres as (Hbr2 & ts & Hts & ->). apply (passes_outcome _ _ r (line ++ mjoin ts ++ CRLF ++ l2) (Ok None) (set_done r2) l2) in Hunf.
      * destruct Hunf as (res & r3 & ? & ?). by exists res, r3, l2.
      * split; [exact Hs2|]. split; [cbn; congruence|]. split_and!; try done; [|cbn; congruence|].
        -- constructor; cbn; rewrite ?Hcfg2, ?Hcl2, ?Hre2, ?Hbr2, ?Hrem2, ?Hcfg, ?Hcl1, ?Hre, ?Hbr, ?Hrem1; done.
        -- intros rest b. rewrite Hho. split; [|intros [-> ->]; split; [done|by exists ts]].
           intros (-> & ts' & Hts' & E). split; [done|]. by apply (trailers_inj ts' ts).
    + destruct Hres as [Hf Hno]. assert (Hst3 : steady r2 = steady r) by by rewrite Hst2.
      destruct (fails_outcome _ r r (line ++ l1) e r2 l2 Hunf Hs2 Hst3 Hh) as (res & r3 & ? & ?); [| |by exists res, r3, l2].
      * apply (fails_from r r1); [done|lia|done].
      * intros rest b (_ & ts & Hts & E)%Hho. by apply (Hno ts rest).
  - apply (slice_outcome _ r r (line ++ l1) (set_remaining n r1) l1); try done; cbn; try congruence.
    + constructor; cbn; rewrite ?Hcfg, ?Hcl1, ?Hre, ?Hbr; done.
    + lia.
    + rewrite length_app. lia.
Qed.

Lemma next_counted_spec r l :
  sees r l -> healthy r -> _done r = false -> _chunked r = false ->
  exists res r1 l1, scatch next_counted on_failure r = (res, r1) /\ next_outcome r l res r1 l1.
Proof.
  intros Hs Hh Hd Hch. pose proof Hh as [Hb Href Hrem Hcl Hsz].
  assert (Howes : forall rest b, owes r l rest b <-> l = b ++ rest /\ zlen b = default 0 (_content_length r)).
  { intros rest b. unfold owes. by rewrite Hd, Hch. }
  assert (Hzero : default 0 (_content_length r) = 0 -> next_outcome r l (Ok None) (set_done r) l).
  { intros H0. split; [done|]. split; [done|]. split_and!; try done.
    intros rest b. rewrite Howes, H0. split; [|by intros [-> ->]].
    intros [-> Hz]. unfold zlen in Hz. by destruct b. }
  destruct (_content_length r) as [n|] eqn:En.
  2:{ destruct (passes_outcome next_counted r r l (Ok None) (set_done r) l) as (res & r1 & ? & ?);
        [|by apply Hzero|by exists res, r1, l]. unfold next_counted. by rewrite En. }
  destruct (Z.eqb_spec n 0) as [Hn|Hn].
  { destruct (passes_outcome next_counted r r l (Ok None) (set_done r) l) as (res & r1 & ? & ?);
      [|by apply Hzero|by exists res, r1, l]. unfold next_counted. by rewrite En, Hn. }
  cbn in Hcl, Howes. destruct (sread_spec (Z.min n (_chunk_max (_cfg r))) (_reader r) l) as (out & rest0 & rd & Hr & Hrd & El & Hlen & He);
    [apply Hs|lia|].
  destruct (read_calm _ _ _ _ _ _ Hs Hr Hrd) as (r1 & Hm & Hread).
  assert (Hunf : next_counted r =
    (if bool_decide (out = []) then sraise IncompleteReadError
     else
       do! supdate (fun r =>
         let r := set_length (Some (n - zlen out)) r in if n - zlen out =? 0 then set_done r else r) in
       let! body := _account out in sret (Some body)) r1).
  { unfold next_counted, sbind at 1. rewrite En, (proj2 (Z.eqb_neq _ _) Hn). cbn [negb]. by rewrite Hread. }
  apply moved_steady in Hm as (Hs1 & Hst & Hrem1 & Hbr1).
  pose proof (steady_fields _ _ Hst) as (Hcfg & Hch1 & Hcl1 & Hd1 & Hse & Hre). case_bool_decide as Hout.
  - destruct (fails_outcome _ r r l IncompleteReadError r1 rest0 Hunf Hs1 Hst Hh) as (res & r2 & ? & ?);
      [|  |by exists res, r2, rest0].
    + left. split_and!; try done; [|by rewrite Hrem1]. rewrite (proj1 He Hout), Hout in El. by destruct rest0.
    + intros rest b [E Hz]%Howes. rewrite (proj1 He Hout) in E. destruct b; [|done]. by rewrite zlen_nil in Hz.
  - set (r2 := let r := set_length (Some (n - zlen out)) r1 in if n - zlen out =? 0 then set_done r else r) in *.
    assert (Hpos : 0 < zlen out) by (destruct out; [done|rewrite zlen_cons; pose proof (zlen_nonneg out); lia]).
    assert (Hr2 : sees r2 rest0 /\ _cfg r2 = _cfg r /\ healthy r2 /\ _body_seen r2 = _body_seen r /\
      forall rest b, owes r2 rest0 rest b <-> rest0 = b ++ rest /\ zlen b = n - zlen out).
    { unfold r2. cbn zeta. destruct (Z.eqb_spec (n - zlen out) 0) as [E0|E0].
      - split_and!; try done. 1: constructor; cbn; rewrite ?Hrem1, ?Hbr1, ?Hre, ?Hcfg; done || lia.
        intros rest b. unfold owes. cbn. rewrite E0. split; [by intros [-> ->]|].
        intros [-> Hz]. unfold zlen in Hz. by destruct b.
      - split_and!; try done. 1: constructor; cbn; rewrite ?Hrem1, ?Hbr1, ?Hre, ?Hcfg; done || lia.
        intros rest b. unfold owes. cbn. by rewrite Hd1, Hd, Hch1, Hch. }
    destruct Hr2 as (Hs2 & Hcfg2 & Hh2 & Hse2 & Ho2).
    destruct (account_outcome r r2 l rest0 out Hs2 Hcfg2 Hh2 Hout) as (res & r3 & Hacc & Hno); [|done| |].
    + rewrite El, length_app. unfold zlen in Hpos. lia.
    + intros rest b. rewrite Howes. setoid_rewrite Ho2. split.
      * intros [E Hz]. assert (Hpre : exists b', b = out ++ b').
        { exists (drop (length out) b). rewrite <- (take_drop (length out) b) at 1. f_equal.
          rewrite El in E. apply (f_equal (take (length out))) in E. rewrite take_app_length, take_app_le in E; [done|].
          unfold zlen in *. lia. }
        destruct Hpre as [b' ->]. exists b'. rewrite El, <- app_assoc in E. apply app_inv_head in E. rewrite zlen_app in Hz.
        split_and!; (done || lia).
      * intros (b' & -> & -> & Hz). rewrite zlen_app, El, app_assoc. split; [done|lia].
    + destruct (passes_outcome next_counted r r l res r3 rest0) as (res' & r4 & ? & ?); [|done|by exists res', r4, rest0].
      rewrite Hunf. exact Hacc.
Qed.

(** Every call of [next_chunk] of a healthy recipient: a slice of the content, the
    end of the message, or a verdict that no message is there. *)
Lemma next_chunk_spec r l :
  sees r l -> healthy r -> exists res r1 l1, next_chunk r = (res, r1) /\ next_outcome r l res r1 l1.
Proof.
  intros Hs Hh. unfold next_chunk. destruct (_done r) eqn:Hd.
  { exists (Ok None), r, l. split; [done|]. split; [done|]. split; [done|]. split_and!; try done.
    intros rest b. unfold owes. rewrite Hd. naive_solver. }
  destruct (_chunked r) eqn:Hch; unfold scatch at 1.
  - destruct (next_chunked_spec r l Hs Hh Hd Hch) as (res & r1 & l1 & H & Ho). unfold scatch in H. rewrite Hch. eauto.
  - destruct (next_counted_spec r l Hs Hh Hd Hch) as (res & r1 & l1 & H & Ho). unfold scatch in H. rewrite Hch. eauto.
Qed.

(** ** A request and what follows *)

(** A handler that reads at most [k] chunks and then answers, whatever its
    reads raised. *)
Fixpoint handler_reads (k : nat) (r : t) : list bytes * t :=
  match k with
  | O => ([], r)
  | S k =>
      match next_chunk r with
      | (Ok (Some c), r) => let '(cs, r) := handler_reads k r in (c :: cs, r)
      | (_, r) => ([], r)
      end
  end.

(** The tail of the keep-alive loop: whether the connection goes on. *)
Definition settle (max_drain : Z) (r : t) : bool * t :=
  match after_dispatch r with
  | CONNECTION_MUST_CLOSE => (false, r)
  | CONNECTION_NEEDS_DRAIN =>
      match drain max_drain r with
      | (Ok b, r) => (b, r)
      | (Raise _, r) => (false, r)
      end
  | CONNECTION_REUSABLE => (true, r)
  end.

Lemma handler_sound k r l cs r1 :
  sees r l -> healthy r -> handler_reads k r = (cs, r1) ->
  exists l1, sees r1 l1 /\ _cfg r1 = _cfg r /\
    (must_close r1 = true \/
     (healthy r1 /\ _done r1 = true /\ l1 = []) \/
     (healthy r1 /\ forall rest b, owes r1 l1 rest b -> owes r l rest (mjoin cs ++ b))).
Proof.
  revert r l cs. induction k as [|k IH]; intros r l cs Hs Hh; cbn [handler_reads].
  { intros [= <- <-]. exists l. split_and!; [done..|]. right; right. by split. }
  destruct (next_chunk_spec r l Hs Hh) as (res & r2 & l2 & -> & Hs2 & Hcfg & Hres). destruct res as [[c|]|e].
  - destruct Hres as (Hh2 & _ & _ & _ & _ & Ho). destruct (handler_reads k r2) as [cs2 r3] eqn:E.
    intros [= <- <-]. destruct (IH r2 l2 cs2 Hs2 Hh2 E) as (l3 & Hs3 & Hcfg3 & H3). exists l3.
    split_and!; [done|congruence|]. destruct H3 as [?|[?|(Hh3 & H3)]]; [by left|by right; left|].
    right; right. split; [done|]. intros rest b Hb. apply Ho. exists (mjoin cs2 ++ b). cbn [mjoin list_join].
    rewrite <- app_assoc. split; [done|]. by apply H3.
  - intros [= <- <-]. exists l2. split_and!; [done..|]. destruct Hres as (Hh2 & Hd2 & _ & Ho). right; right.
    split; [done|]. intros rest b. unfold owes at 1. rewrite Hd2. intros [-> ->]. by apply Ho.
  - intros [= <- <-]. exists l2. split_and!; [done..|].
    destruct Hres as [(_ & Hh2 & Hd2 & -> & _)|(s & _ & Hm & _)]; [right; left|left]; done.
Qed.

Lemma drain_sound fuel max_bytes drained r l r1 :
  sees r l -> healthy r -> drain_loop fuel max_bytes drained r = (Ok true, r1) ->
  exists l1, sees r1 l1 /\ _cfg r1 = _cfg r /\ (l1 = [] \/ exists b, owes r l l1 b).
Proof.
  revert drained r l. induction fuel as [|fuel IH]; intros drained r l Hs Hh; cbn [drain_loop]; destruct (_done r) eqn:Hd;
    [intros [= <-]; exists l; split_and!; [done..|]; right; exists []; unfold owes; by rewrite Hd|done|
     intros [= <-]; exists l; split_and!; [done..|]; right; exists []; unfold owes; by rewrite Hd|].
  destruct (next_chunk_spec r l Hs Hh) as (res & r2 & l2 & -> & Hs2 & Hcfg & Hres). destruct res as [[c|]|e].
  - destruct Hres as (Hh2 & _ & _ & _ & _ & Ho). destruct (_ >? _); [done|]. intros Hl.
    destruct (IH _ _ _ Hs2 Hh2 Hl) as (l3 & Hs3 & Hcfg3 & Hl3). exists l3. split_and!; [done|congruence|].
    destruct Hl3 as [->|[b Hb]]; [by left|]. right. exists (c ++ b). apply Ho. eauto.
  - intros [= <-]. exists l2. split_and!; [done..|]. right. exists []. by apply Hres.
  - destruct Hres as [(-> & _ & _ & -> & _)|(s & -> & _)]; [|done]. intros [= <-]. exists []. split_and!; [done..|]. by left.
Qed.

Lemma handler_complete k r l rest b cs r1 :
  sees r l -> healthy r -> owes r l rest b -> within_cap r (zlen b) -> handler_reads k r = (cs, r1) ->
  exists l1 b1, sees r1 l1 /\ healthy r1 /\ _cfg r1 = _cfg r /\ b = mjoin cs ++ b1 /\ owes r1 l1 rest b1 /\
    within_cap r1 (zlen b1) /\ ((length b < k)%nat -> b1 = [] /\ _done r1 = true).
Proof.
  revert r l b cs. induction k as [|k IH]; intros r l b cs Hs Hh Ho Hcap; cbn [handler_reads].
  { intros [= <- <-]. exists l, b. split_and!; try done. lia. }
  destruct (next_chunk_spec r l Hs Hh) as (res & r2 & l2 & -> & Hs2 & Hcfg & Hres). destruct res as [[c|]|e].
  - destruct Hres as (Hh2 & Hc & _ & Hseen & _ & Hiff). apply Hiff in Ho as (b2 & -> & Ho2).
    destruct (handler_reads k r2) as [cs2 r3] eqn:E. intros [= <- <-].
    assert (Hcap2 : within_cap r2 (zlen b2)).
    { unfold within_cap in *. rewrite Hcfg, Hseen. rewrite zlen_app in Hcap. destruct Hcap; [by left|right; lia]. }
    destruct (IH r2 l2 b2 cs2 Hs2 Hh2 Ho2 Hcap2 E) as (l3 & b3 & Hs3 & Hh3 & Hcfg3 & -> & Ho3 & Hcap3 & Hk).
    exists l3, b3. split_and!; try done; [congruence|by cbn [mjoin list_join]; rewrite <- app_assoc|].
    intros Hlen. apply Hk. rewrite length_app in Hlen. destruct c; [done|]. cbn in Hlen. lia.
  - destruct Hres as (Hh2 & Hd2 & Hseen & Hiff). apply Hiff in Ho as [-> ->]. intros [= <- <-].
    exists l2, []. split_and!; try done; [unfold owes; by rewrite Hd2|]. unfold within_cap in *. by rewrite Hcfg, Hseen.
  - destruct Hres as [(_ & _ & _ & _ & Hno)|(s & _ & _ & Hno)]; [by apply Hno in Ho|by apply Hno in Ho].
Qed.

Lemma drain_complete fuel max_bytes drained r l rest b :
  sees r l -> healthy r -> owes r l rest b -> within_cap r (zlen b) -> drained + zlen b <= max_bytes ->
  (length l < fuel)%nat ->
  exists r1, drain_loop fuel max_bytes drained r = (Ok true, r1) /\ sees r1 rest /\ _cfg r1 = _cfg r.
Proof.
  revert drained r l b. induction fuel as [|fuel IH]; intros drained r l b Hs Hh Ho Hcap Hmax Hf; [lia|].
  cbn [drain_loop]. destruct (_done r) eqn:Hd.
  { unfold owes in Ho. rewrite Hd in Ho. destruct Ho as [-> ->]. by exists r. }
  destruct (next_chunk_spec r l Hs Hh) as (res & r2 & l2 & -> & Hs2 & Hcfg & Hres). destruct res as [[c|]|e].
  - destruct Hres as (Hh2 & Hc & Hlen & Hseen & _ & Hiff). apply Hiff in Ho as (b2 & -> & Ho2).
    rewrite zlen_app in *. pose proof (zlen_nonneg b2). rewrite Z.gtb_ltb, (proj2 (Z.ltb_ge _ _)) by lia.
    destruct (IH (drained + zlen c) r2 l2 b2) as (r3 & H3 & Hs3 & Hcfg3); try done; [|lia..|].
    { unfold within_cap in *. rewrite Hcfg, Hseen. destruct Hcap; [by left|right; lia]. }
    exists r3. split_and!; [done..|congruence].
  - destruct Hres as (_ & _ & _ & Hiff). apply Hiff in Ho as [-> ->]. by exists r2.
  - destruct Hres as [(_ & _ & _ & _ & Hno)|(s & _ & _ & Hno)]; [by apply Hno in Ho|by apply Hno in Ho].
Qed.

Lemma settle_sound max_drain r l r1 :
  sees r l -> healthy r -> settle max_drain r = (true, r1) ->
  exists l1, sees r1 l1 /\ _cfg r1 = _cfg r /\ (l1 = [] \/ exists b, owes r l l1 b).
Proof.
  intros Hs Hh. unfold settle, after_dispatch. rewrite (he_broken r Hh), (he_refused r Hh). cbn [orb].
  destruct (unread r) eqn:Eu.
  - destruct (drain max_drain r) as [[[]|] r2] eqn:E; try done. intros [= <-]. by eapply drain_sound.
  - intros [= <-]. exists l. split_and!; [done..|]. right. exists []. unfold unread in Eu. unfold owes.
    destruct (_done r); [done|]. destruct (_chunked r); [done|]. cbn in Eu. destruct (_content_length r) as [n|]; [|done].
    apply negb_false_iff, Z.eqb_eq in Eu as ->. done.
Qed.

Lemma settle_complete max_drain r l rest b :
  sees r l -> healthy r -> owes r l rest b -> within_cap r (zlen b) -> zlen b <= max_drain ->
  exists r1, settle max_drain r = (true, r1) /\ sees r1 rest /\ _cfg r1 = _cfg r.
Proof.
  intros Hs Hh Ho Hcap Hmax. unfold settle, after_dispatch. rewrite (he_broken r Hh), (he_refused r Hh). cbn [orb].
  destruct (unread r) eqn:Eu.
  - destruct (drain_complete (S (ssize (_reader r))) max_drain 0 r l rest b) as (r1 & H & Hs1 & Hcfg); try done.
    { destruct Hs as [_ Hl]. rewrite (holds_size _ _ Hl). lia. }
    unfold drain. rewrite H. by exists r1.
  - exists r. split; [done|]. split; [|done]. unfold unread in Eu. unfold owes in Ho. destruct (_done r); [by destruct Ho as [-> ->]|].
    destruct (_chunked r); [done|]. cbn in Eu. destruct Ho as [-> Hz]. destruct (_content_length r) as [n|]; cbn in Hz.
    + apply negb_false_iff, Z.eqb_eq in Eu. rewrite Eu in Hz. unfold zlen in Hz. by destruct b.
    + unfold zlen in Hz. by destruct b.
Qed.

(** Reading, then settling: the two together. *)
Lemma served_sound k max_drain r l cs r1 r2 :
  sees r l -> healthy r -> handler_reads k r = (cs, r1) -> settle max_drain r1 = (true, r2) ->
  exists rest, sees r2 rest /\ _cfg r2 = _cfg r /\ (rest = [] \/ exists b, owes r l rest (mjoin cs ++ b)).
Proof.
  intros Hs Hh Hr Hset. destruct (handler_sound _ _ _ _ _ Hs Hh Hr) as (l1 & Hs1 & Hc1 & [Hm|[(Hh1 & Hd & ->)|[Hh1 Ho]]]).
  - unfold settle, after_dispatch in Hset. unfold must_close in Hm. by rewrite Hm in Hset.
  - destruct (settle_sound _ _ _ _ Hs1 Hh1 Hset) as (rest & Hs2 & Hc2 & Hrest). exists rest.
    split_and!; [done|congruence|]. left. destruct Hrest as [->|[b Hb]]; [done|].
    unfold owes in Hb. rewrite Hd in Hb. by destruct Hb.
  - destruct (settle_sound _ _ _ _ Hs1 Hh1 Hset) as (rest & Hs2 & Hc2 & Hrest). exists rest.
    split_and!; [done|congruence|]. destruct Hrest as [->|[b Hb]]; [by left|right]. exists b. by apply Ho.
Qed.

Lemma served_complete k max_drain r l rest b cs r1 :
  sees r l -> healthy r -> owes r l rest b -> within_cap r (zlen b) -> handler_reads k r = (cs, r1) ->
  exists b1, b = mjoin cs ++ b1 /\ ((length b < k)%nat -> b1 = []) /\
    (zlen b1 <= max_drain -> exists r2, settle max_drain r1 = (true, r2) /\ sees r2 rest /\ _cfg r2 = _cfg r).
Proof.
  intros Hs Hh Ho Hcap Hr.
  destruct (handler_complete _ _ _ _ _ _ _ Hs Hh Ho Hcap Hr) as (l1 & b1 & Hs1 & Hh1 & Hc1 & -> & Ho1 & Hcap1 & Hk).
  exists b1. split_and!; [done|by intros [? _]%Hk|]. intros Hmax.
  destruct (settle_complete max_drain r1 l1 rest b1) as (r2 & H2 & Hs2 & Hc2); try done. exists r2. split_and!; [done..|congruence].
Qed.

(** C2: a connection is kept only at a message boundary, as long as no read of the
    body times out and no minimum rate is asked for (with either, [drain] takes the
    recipient's giving up for the end of the body: [timeout_keeps_connection],
    [slow_drain_keeps_connection]).  Whatever follows the head on the stream,
    however much of the body the handler reads and whatever its reads raised: if
    the connection goes on after [after_dispatch] and [drain], then what is left to
    be read is exactly what follows a complete body whose content begins with what
    the handler got — a well-formed chunked body, or as many octets as
    Content-Length declares — or the peer is gone. *)
Theorem keep_alive_boundary k max_drain r l cs r1 r2 :
  sees r l -> healthy r -> handler_reads k r = (cs, r1) -> settle max_drain r1 = (true, r2) ->
  exists rest, sees r2 rest /\ (rest = [] \/ exists b, owes r l rest (mjoin cs ++ b)).
Proof. intros Hs Hh Hr Hset. destruct (served_sound _ _ _ _ _ _ _ Hs Hh Hr Hset) as (rest & ? & _ & ?). eauto. Qed.

(** A whole body is delivered and the connection goes on.  When a complete
    body with content [b] precedes [rest] and fits the size cap, a handler gets
    a prefix of [b], all of it if it reads long enough; if what it left fits the
    drain bound, the connection is kept with exactly [rest] to be read. *)
Theorem body_served k max_drain r l rest b cs r1 :
  sees r l -> healthy r -> owes r l rest b -> within_cap r (zlen b) -> handler_reads k r = (cs, r1) ->
  exists b1, b = mjoin cs ++ b1 /\ ((length b < k)%nat -> b1 = []) /\
    (zlen b1 <= max_drain -> exists r2, settle max_drain r1 = (true, r2) /\ sees r2 rest).
Proof.
  intros Hs Hh Ho Hcap Hr. destruct (served_complete k max_drain _ _ _ _ _ _ Hs Hh Ho Hcap Hr) as (b1 & -> & Hk & Hset).
  exists b1. split_and!; [done..|]. intros Hmax. destruct (Hset Hmax) as (r2 & ? & ? & _). eauto.
Qed.

End Recipient.
Arguments t : clear implicits.

(** ** Samples *)

Definition sample_config : config := make_config 4 4 0 0 0 30.

Definition sample_chunks : bytes := lit "5" ++ CRLF ++ lit "hello" ++ CRLF ++ lit "0" ++ CRLF ++ CRLF.

(** A size of one digit. *)
Lemma digit_lines :
  forallb (fun c => negb (c =? 10) &&
    match _parse_chunk_size ([c] ++ CRLF) with Ok n => n =? hex_digit_value c | Raise _ => false end) _HEXDIG_SET = true.
Proof. vm_compute. reflexivity. Qed.

Lemma digit_line c : c ∈ _HEXDIG_SET -> chunk_line (hex_digit_value c) ([c] ++ CRLF).
Proof.
  intros Hc. pose proof digit_lines as H. rewrite <- Is_true_true, forallb_True, Forall_forall in H.
  specialize (H c Hc). apply andb_True in H as [H10 Hp]. split; [|split; [done|]].
  - exists [c; 13]. split; [done|]. rewrite !elem_of_cons, elem_of_nil. intros [<-|[?|?]]; done.
  - destruct (_parse_chunk_size _) as [n|]; [|done]. apply Is_true_true, Z.eqb_eq in Hp. by subst.
Qed.

Lemma sample_chunked : chunked_body sample_chunks (lit "hello").
Proof.
  change (chunked_body ((lit "5" ++ CRLF) ++ lit "hello" ++ CRLF ++ (lit "0" ++ CRLF) ++ mjoin [] ++ CRLF)
    (lit "hello" ++ [])).
  apply (more_chunk 5); [done|apply (digit_line 53); decide_it|done|].
  apply last_chunk; [apply (digit_line 48); decide_it|apply Forall_nil_2].
Qed.

(** A recipient over a stream that has arrived. *)
Definition recipient (cfg : config) (l : bytes) (waits : list (Z * bool)) (chunked : bool) (n : option Z) : t bytes :=
  mk cfg l waits chunked n 0 false 0 0 0 0 false false.

Definition sample_stream : bytes := sample_chunks ++ lit "GET".
Definition sample : t bytes := recipient sample_config sample_stream [] true None.

Lemma sample_sees : sees sample sample_stream.
Proof. split; [|reflexivity]. split; [done|]. right. apply Forall_nil_2. Qed.

Lemma sample_healthy : healthy sample.
Proof. by constructor. Qed.

Lemma sample_owes : owes sample sample_stream (lit "GET") (lit "hello").
Proof. exists sample_chunks. split; [exact sample_chunked|reflexivity]. Qed.

Lemma body_served_witness :
  exists b1, lit "hello" = mjoin (handler_reads 1 sample).1 ++ b1 /\ ((5 < 1)%nat -> b1 = []) /\
    (zlen b1 <= 64 -> exists r2, settle 64 (handler_reads 1 sample).2 = (true, r2) /\ sees r2 (lit "GET")).
Proof.
  apply (body_served 1 64 sample sample_stream (lit "GET") (lit "hello")).
  - exact sample_sees.
  - exact sample_healthy.
  - exact sample_owes.
  - by left.
  - by destruct (handler_reads 1 sample).
Defined.

Lemma keep_alive_boundary_witness :
  exists rest, sees (settle 64 (handler_reads 1 sample).2).2 rest /\
    (rest = [] \/ exists b, owes sample sample_stream rest (mjoin (handler_reads 1 sample).1 ++ b)).
Proof.
  apply (keep_alive_boundary 1 64 sample sample_stream _ (handler_reads 1 sample).2).
  - exact sample_sees.
  - exact sample_healthy.
  - by destruct (handler_reads 1 sample).
  - vm_compute. reflexivity.
Defined.

(** ** What time does to the boundary *)

(** The body deadline expires while the body is drained: [drain] reports
    success and the body is left to be parsed as the next request. *)
Lemma timeout_keeps_connection :
  let r := recipient sample_config (lit "GET /admin HTTP/1.1") [(30, true)] false (Some 19) in
  match settle 65536 r with
  | (kept, r1) => kept = true /\ _reader r1 = lit "GET /admin HTTP/1.1"
  end.
Proof. vm_compute. by split. Qed.

(** A body given up on for its rate: the verdict is to close, but [drain] takes
    its [ClientDisconnected] for the end of the body. *)
Lemma slow_drain_keeps_connection :
  let r := recipient (make_config 4 4 0 10 1 30) (lit "GET /admin HTTP/1.1") [(5, false)] false (Some 19) in
  match settle 65536 r with
  | (kept, r1) => kept = true /\ must_close r1 = true /\ _reader r1 = lit "/admin HTTP/1.1"
  end.
Proof. vm_compute. by split_and!. Qed.

(** A semicolon inside a quoted extension value. *)
Lemma quoted_semicolon_rejected :
  _parse_chunk_size (lit "5;a=" ++ [34] ++ lit "x;y" ++ [34] ++ CRLF) = Raise _bad_request.
Proof. vm_compute. reflexivity. Qed.

End Http1Body.
