(* ===== verification/Http1Loop.v ===== *)
(** * The keep-alive loop of HTTP/1.1 (blackbull/server/http1_actor.py, [HTTP1Actor.run])

    One connection: head after head is read from the [StreamReader], parsed,
    answered or dispatched, and its body settled before the next head.  The
    application is a list of behaviours, one for each call of it: how many body
    chunks it reads and how it ends.  The result is what the connection
    answers, in order.  The clock is the list of waits the body recipient uses
    too.  Responses that the application sends are not described, only that it
    was called; access log, events and the WebSocket handshake are left out. *)

From Stdlib Require Import ZArith Lia.
From stdpp Require Import base tactics numbers option strings sets list.
From S2P Require Import Prelude PyLib PyText PyBytes HttpHeaders Reader Http1Parse Http1Body.
Import HttpHeaders Http1Parse.

Module Http1Loop.

Record settings : Type := mkSettings {
  header_timeout : Z;
  keep_alive_timeout : Z;
  header_max_total : Z;
  body_config : Http1Body.config
}.

Definition _MAX_KEEPALIVE_DRAIN : Z := 64 * 1024.

(** How the application ends: it answers, raises, or is cut off by the request
    timeout with its response started or not. *)
Inductive app_result : Type :=
| Answers
| Raises
| TimesOut (started : bool).

Record behaviour : Type := mkBehaviour {
  reads : nat;
  ends : app_result
}.

Inductive answer : Type :=
| Interim                                          (* 100 Continue *)
| Served (conn : Connection) (got : list bytes)    (* the application was called, and what it read *)
| ServerWide (conn : Connection)                   (* 204 to OPTIONS * *)
| ErrorResponse (status : Z)                       (* and close *)
| Upgraded (conn : Connection)
| Escaped (e : exn).

(** The parser's exceptions that the loop answers. *)
Definition status_of (e : exn) : option Z :=
  match e with
  | HeaderTooLargeError => Some 431
  | BadRequestError => Some 400
  | NotImplementedFramingError => Some 501
  | UnsupportedVersionError => Some 505
  | _ => None
  end.

Definition answer_error (e : exn) : list answer :=
  match status_of e with Some status => [ErrorResponse status] | None => [Escaped e] end.

(** What the application is called with: a HEAD becomes a GET. *)
Definition dispatched (conn : Connection) : Connection :=
  if bool_decide (method conn = lit "HEAD") then
    mkConnection (type_ conn) (http_version conn) (lit "GET") (scheme conn) (path conn) (raw_path conn)
      (query_string conn) (headers conn) (server conn) (_asterisk_form conn)
  else conn.

Definition interim (conn : Connection) : list answer :=
  if negb (bool_decide (http_version conn = lit "1.0"))
     && bool_decide (lower (get (lit "expect") [] (headers conn)) = lit "100-continue")
  then [Interim] else [].

Section Loop.
Context {R : Type} `{!StreamReader R}.

(** What stays of the connection between requests. *)
Record connection : Type := mkLoop {
  c_actor : actor;
  c_reader : R;
  c_waits : list (Z * bool);
  c_app : list behaviour
}.

Definition oversized (s : settings) (a : actor) : bool :=
  negb (Http1Body._max_body (body_config s) =? 0) && (_declared_body_len a >? Http1Body._max_body (body_config s)).

(** Settling the body, and the decision to go on. *)
Definition finish_request (conn : Connection) (a : actor) (app : list behaviour) (r : Http1Body.t R)
    (next : connection -> list answer) : list answer :=
  let '(kept, r) := Http1Body.settle _MAX_KEEPALIVE_DRAIN r in
  if kept && _should_keep_alive conn
  then next (mkLoop a (Http1Body._reader r) (Http1Body._waits r) app)
  else [].

Definition _dispatch_request (s : settings) (conn : Connection) (a : actor) (rd : R) (waits : list (Z * bool))
    (app : list behaviour) (next : connection -> list answer) : list answer :=
  interim conn ++
  match Http1Body.bind (body_config s) rd waits (headers conn) with
  | Raise e => [Escaped e]
  | Ok r =>
      let conn := dispatched conn in
      if _asterisk_form conn then ServerWide conn :: finish_request conn a app r next
      else
        let '(b, app) := match app with b :: app => (b, app) | [] => (mkBehaviour 0 Answers, []) end in
        let '(got, r) := Http1Body.handler_reads (reads b) r in
        Served conn got ::
          match ends b with
          | Answers => finish_request conn a app r next
          | Raises => []
          | TimesOut started => if started then [] else [ErrorResponse 408]
          end
  end.

(** One turn of the loop. *)
Definition serve (s : settings) (keep_alive : bool) (c : connection) (next : connection -> list answer) : list answer :=
  let '(expired, waits) := match c_waits c with w :: ws => (w.2, ws) | [] => (false, []) end in
  if expired && (0 <? (if keep_alive then keep_alive_timeout s else header_timeout s))
  then (if keep_alive then [] else [ErrorResponse 408])
  else
    match sread_head (header_max_total s) (c_reader c) with
    | (Incomplete partial, _) => if bool_decide (partial = []) then [] else [ErrorResponse 400]
    | (LimitHit seen, _) => answer_error (_reject_oversized_head seen (header_max_total s))
    | (Failed e, _) => [Escaped e]
    | (Stuck, _) => [Escaped OutOfFuel]
    | (Done head, rd) =>
        if bool_decide (head = []) then []
        else if keep_alive && bool_decide (head = HEAD_END) then []
        else
          match _parse head (c_actor c) with
          | (_, Raise e) => answer_error e
          | (a, Ok conn) =>
              if bool_decide (type_ conn = lit "websocket") then [Upgraded conn]
              else if oversized s a then [ErrorResponse 413]
              else _dispatch_request s conn a rd waits (c_app c) next
          end
    end.

Fixpoint loop (fuel : nat) (s : settings) (keep_alive : bool) (c : connection) : list answer :=
  match fuel with
  | O => [Escaped OutOfFuel]
  | S fuel => serve s keep_alive c (loop fuel s true)
  end.

(** Every turn consumes a head, so as many turns as there are octets are
    enough. *)
Definition run (s : settings) (c : connection) : list answer := loop (S (ssize (c_reader c))) s false c.

(** ** Messages *)

(** The body that the headers [h], of declared length [n], frame on [l]. *)
Definition message (h : Headers) (n : Z) (l rest b : bytes) : Prop :=
  if bool_decide (getlist (lit "transfer-encoding") h = [])
  then l = b ++ rest /\ zlen b = n else Http1Body.at_chunk l rest b.

Lemma get_of_getlist name h :
  get name [] h = match getlist name h with x :: _ => x.2 | [] => [] end.
Proof. unfold get, getlist. by destruct (probe name h). Qed.

(** A recipient bound to framed headers owes the message they frame. *)
Lemma bind_framed cfg (rd : R) (waits : list (Z * bool)) h n :
  framed h n -> 0 < Http1Body._chunk_size cfg -> 0 < Http1Body._chunk_max cfg ->
  exists r, Http1Body.bind cfg rd waits h = Ok r /\ Http1Body.healthy r /\ Http1Body._reader r = rd /\
    Http1Body._waits r = waits /\ Http1Body._cfg r = cfg /\ Http1Body._body_seen r = 0 /\
    forall l rest b, Http1Body.owes r l rest b <-> message h n l rest b.
Proof.
  intros Hf Hs Hm. unfold Http1Body.bind, message. rewrite !get_of_getlist.
  destruct Hf as [(Hcl & Hte & ->)|[(Hte & Hcl & Hall)|(Hcl & -> & te & Hte & Hv)]]; rewrite ?Hcl, ?Hte.
  - eexists. split; [reflexivity|]. by split_and!.
  - destruct (getlist (lit "content-length") h) as [|x cls]; [done|]. apply Forall_cons in Hall as [[Hx Hn] _].
    pose proof (canonical_octets x.2 Hx) as [Hne _]. destruct (int_of_canonical x.2 n Hx Hn) as [-> Hpos].
    rewrite (bool_decide_false (x.2 = [])) by done. eexists. split; [reflexivity|]. split_and!; try done.
  - rewrite Hv. eexists. split; [reflexivity|]. by split_and!.
Qed.

(** ** What a connection may answer *)

(** [head] is a head, up to its first empty line, that the parser accepts. *)
Definition a_request (ssl : bool) (max_line : Z) (head : bytes) (conn : Connection) (n : Z) : Prop :=
  (exists i, find_sub HEAD_END head = Some i /\ length head = (i + 4)%nat) /\
  framed (headers conn) n /\ (no_cr head -> reference ssl max_line head = Ok conn).

(** The answer to a request whose application got [got]. *)
Definition answered (conn : Connection) (got : list bytes) : list answer :=
  if _asterisk_form conn then [ServerWide (dispatched conn)] else [Served (dispatched conn) got].

(** [pipeline l ans]: the answers [ans] are those of requests that follow each
    other on the stream [l] without a gap, each body delimited by its own
    framing; the last may be cut short. *)
Inductive pipeline (ssl : bool) (max_line : Z) : bytes -> list answer -> Prop :=
| pl_silent l : pipeline ssl max_line l []
| pl_error l status : pipeline ssl max_line l [ErrorResponse status]
| pl_escape l e : e = UnicodeDecodeError \/ e = ValueError -> pipeline ssl max_line l [Escaped e]
| pl_upgrade head l conn n :
    a_request ssl max_line head conn n -> pipeline ssl max_line (head ++ l) [Upgraded conn]
| pl_last head l conn n got tl :
    a_request ssl max_line head conn n -> tl = [] \/ tl = [ErrorResponse 408] ->
    pipeline ssl max_line (head ++ l) (interim conn ++ answered conn got ++ tl)
| pl_gone head l conn n got more :
    a_request ssl max_line head conn n -> pipeline ssl max_line [] more ->
    pipeline ssl max_line (head ++ l) (interim conn ++ answered conn got ++ more)
| pl_next head l rest conn n got b more :
    a_request ssl max_line head conn n -> message (headers conn) n l rest (mjoin got ++ b) ->
    _should_keep_alive conn = true -> pipeline ssl max_line rest more ->
    pipeline ssl max_line (head ++ l) (interim conn ++ answered conn got ++ more).

(** Nothing times out inside a body, and the slices are not empty. *)
Record usable (s : settings) (waits : list (Z * bool)) : Prop := mkUsable {
  us_rate : Http1Body._min_rate (body_config s) = 0;
  us_time : Http1Body._body_timeout (body_config s) <= 0 \/ Forall (fun w => w.2 = false) waits;
  us_slice : 0 < Http1Body._chunk_size (body_config s);
  us_max : 0 < Http1Body._chunk_max (body_config s)
}.

Lemma usable_sees s (r : Http1Body.t R) l :
  usable s (Http1Body._waits r) -> Http1Body._cfg r = body_config s -> holds (Http1Body._reader r) l -> Http1Body.sees r l.
Proof. intros [H1 H2 _ _] Hc Hl. split; [|done]. split; by rewrite Hc. Qed.

Lemma sees_usable s (r : Http1Body.t R) l :
  Http1Body.sees r l -> Http1Body._cfg r = body_config s -> usable s [] ->
  usable s (Http1Body._waits r) /\ holds (Http1Body._reader r) l.
Proof. intros [[H1 H2] Hl] Hc [_ _ H3 H4]. rewrite Hc in *. by split. Qed.

Lemma usable_none s waits : usable s waits -> usable s [].
Proof. intros []. split; try done. right. apply Forall_nil_2. Qed.

Lemma usable_tail s w waits : usable s (w :: waits) -> usable s waits.
Proof. intros [? [?|H] ? ?]; split; try done; [by left|right]. by apply Forall_cons in H as [_ H]. Qed.

Lemma message_length h n l rest b : message h n l rest b -> (length rest <= length l)%nat.
Proof.
  unfold message. case_bool_decide; [intros [-> _]|intros (w & _ & ->)]; rewrite length_app; lia.
Qed.

(** What the head of a stream is, when the reader delivers one. *)
Lemma head_done limit l head rest :
  head_read limit l (Done head) rest -> head <> [] ->
  l = head ++ rest /\ exists i, find_sub HEAD_END head = Some i /\ length head = (i + 4)%nat.
Proof.
  unfold head_read. destruct (find_sub HEAD_END l) as [i|] eqn:E.
  - destruct (_ && _); [by intros (? & ? & _)|]. intros [[= ->] ->] _. split; [by rewrite take_drop|].
    exists i. split; [by apply find_sub_cut in E|]. destruct (find_sub_bound _ _ _ E) as [Hb|]; [|done].
    change (length HEAD_END) with 4%nat in Hb. rewrite length_take. lia.
  - destruct (_ && _); [by intros (? & ? & _)|]. case_bool_decide; [by intros [[= ->] _]|by intros [? _]].
Qed.

Lemma dispatched_same conn :
  _should_keep_alive (dispatched conn) = _should_keep_alive conn /\ _asterisk_form (dispatched conn) = _asterisk_form conn.
Proof. unfold dispatched. by case_bool_decide. Qed.

(** The loop goes on from a state that is fit for the next request, or not at
    all. *)
Lemma finish_cases s k conn a app r0 l got r next :
  Http1Body.sees r0 l -> Http1Body.healthy r0 -> Http1Body._cfg r0 = body_config s -> usable s [] ->
  Http1Body.handler_reads k r0 = (got, r) ->
  finish_request conn a app r next = [] \/
  exists c' l', finish_request conn a app r next = next c' /\ usable s (c_waits c') /\ holds (c_reader c') l' /\
    c_actor c' = a /\ _should_keep_alive conn = true /\
    (l' = [] \/ exists b, Http1Body.owes r0 l l' (mjoin got ++ b)).
Proof.
  intros Hs Hh Hcfg Hu Hr. unfold finish_request.
  destruct (Http1Body.settle _MAX_KEEPALIVE_DRAIN r) as [[] r2] eqn:E; [|by left]. cbn [andb].
  destruct (_should_keep_alive conn) eqn:Ek; [|by left]. right.
  destruct (Http1Body.served_sound _ _ _ _ _ _ _ Hs Hh Hr E) as (rest & Hs2 & Hc2 & Hrest).
  destruct (sees_usable s r2 rest Hs2 ltac:(congruence) Hu) as [Hu2 Hl2].
  eexists (mkLoop _ _ _ _), rest. split; [reflexivity|]. by split_and!.
Qed.

(** What the rest of the loop has to satisfy. *)
Definition goes_on (s : settings) (ssl : bool) (max_line : Z) (l : bytes) (next : connection -> list answer) : Prop :=
  forall c' l', usable s (c_waits c') -> holds (c_reader c') l' -> cache_ok (c_actor c') ->
    _ssl (c_actor c') = ssl -> _max_line (c_actor c') = max_line -> (length l' < length l)%nat ->
    pipeline ssl max_line l' (next c').

Lemma dispatch_pipeline s conn a rd waits app next head l n :
  usable s waits -> holds rd l -> cache_ok a -> a_request (_ssl a) (_max_line a) head conn n ->
  goes_on s (_ssl a) (_max_line a) (head ++ l) next -> head <> [] ->
  pipeline (_ssl a) (_max_line a) (head ++ l) (_dispatch_request s conn a rd waits app next).
Proof.
  intros Hu Hl Ha Hreq Hnext Hne. pose proof Hreq as (_ & Hframed & _). unfold _dispatch_request.
  destruct (bind_framed (body_config s) rd waits (headers conn) n Hframed) as (r & -> & Hh & Hrd & Hw & Hcfg & _ & Howes);
    [apply Hu..|].
  assert (Hs : Http1Body.sees r l).
  { apply (usable_sees s); [by rewrite Hw|done|by rewrite Hrd]. }
  destruct (dispatched_same conn) as [Hk Hast].
  assert (Hgo : forall k got r' app', Http1Body.handler_reads k r = (got, r') ->
    pipeline (_ssl a) (_max_line a) (head ++ l)
      (interim conn ++ answered conn got ++ finish_request (dispatched conn) a app' r' next)).
  { intros k got r' app' Hr.
    destruct (finish_cases s k (dispatched conn) a app' r l got r' next Hs Hh Hcfg (usable_none _ _ Hu) Hr)
      as [->|(c' & l' & -> & Hu' & Hl' & Ha' & Hka & Hrest)].
    - eapply pl_last; [done|by left].
    - rewrite Hk in Hka. assert (Hlen : (length head <> 0)%nat) by by destruct head. destruct Hrest as [->|[b Hb]].
      + eapply pl_gone; [done|]. apply Hnext; try done; [by rewrite Ha'..|]. rewrite length_app. cbn. lia.
      + apply Howes in Hb. eapply pl_next; [done..|]. apply Hnext; try done; [by rewrite Ha'..|].
        apply message_length in Hb. rewrite length_app. lia. }
  rewrite Hast. destruct (_asterisk_form conn) eqn:Eas.
  - assert (Hans : answered conn [] = [ServerWide (dispatched conn)]) by (unfold answered; by rewrite Eas).
    specialize (Hgo 0%nat [] r app eq_refl). rewrite Hans in Hgo. exact Hgo.
  - destruct (match app with b :: app => (b, app) | [] => _ end) as [b app'].
    destruct (Http1Body.handler_reads (reads b) r) as [got r'] eqn:Hr.
    assert (Hans : answered conn got = [Served (dispatched conn) got]) by (unfold answered; by rewrite Eas).
    specialize (Hgo (reads b) got r' app' Hr). rewrite Hans in Hgo. destruct (ends b) as [| |[]]; [exact Hgo|..];
      (change (?x :: ?y) with ([x] ++ y)); rewrite <- Hans; eapply pl_last; try done; auto.
Qed.

Lemma serve_pipeline s keep_alive c l next :
  usable s (c_waits c) -> holds (c_reader c) l -> cache_ok (c_actor c) ->
  goes_on s (_ssl (c_actor c)) (_max_line (c_actor c)) l next ->
  pipeline (_ssl (c_actor c)) (_max_line (c_actor c)) l (serve s keep_alive c next).
Proof.
  intros Hu Hl Ha Hnext. unfold serve.
  destruct (match c_waits c with w :: ws => (w.2, ws) | [] => (false, []) end) as [expired waits] eqn:Ew.
  assert (Hu' : usable s waits).
  { destruct (c_waits c) as [|w ws]; injection Ew as <- <-; [done|by eapply usable_tail]. }
  destruct (_ && _); [destruct keep_alive; constructor|].
  destruct (sread_head_spec (header_max_total s) (c_reader c) l Hl) as (o & rd & rest & Hr & Hrd & Ho). rewrite Hr.
  destruct o as [head|partial|seen|e|].
  - destruct (bool_decide_reflect (head = [])) as [|Hne]; [constructor|].
    destruct (keep_alive && _); [constructor|]. destruct (head_done _ _ _ _ Ho Hne) as [-> Hend].
    destruct (_parse head (c_actor c)) as [a res] eqn:Ep. destruct res as [conn|e].
    + destruct (parse_sound _ _ _ _ Ha Ep) as (Ha' & Hss & Hml & _).
      destruct (accepted _ _ _ _ Ha Ep) as (_ & _ & Hfr & _).
      assert (Hreq : a_request (_ssl a) (_max_line a) head conn (_declared_body_len a)).
      { split_and!; [done..|]. intros Hcr. destruct (parse_ref _ _ Ha Hcr) as (a2 & Ep2 & _).
        rewrite Ep in Ep2. rewrite Hss, Hml. congruence. }
      rewrite <- Hss, <- Hml in *. case_bool_decide; [by eapply pl_upgrade|].
      destruct (oversized s a); [constructor|]. by eapply dispatch_pipeline.
    + unfold answer_error. destruct (parse_raise _ _ _ _ Ha Ep) as [[->|[->|[->| ->]]]|He]; [constructor..|].
      destruct He as [->| ->]; constructor; auto.
  - case_bool_decide; constructor.
  - unfold _reject_oversized_head. destruct (find_sub _ seen); [destruct (_ >=? _)|]; constructor.
  - unfold head_read in Ho. exfalso. repeat case_match; naive_solver.
  - unfold head_read in Ho. exfalso. repeat case_match; naive_solver.
Qed.

Lemma loop_pipeline fuel s keep_alive c l :
  usable s (c_waits c) -> holds (c_reader c) l -> cache_ok (c_actor c) -> (length l < fuel)%nat ->
  pipeline (_ssl (c_actor c)) (_max_line (c_actor c)) l (loop fuel s keep_alive c).
Proof.
  revert keep_alive c l. induction fuel as [|fuel IH]; intros keep_alive c l Hu Hl Ha Hf; [lia|].
  cbn [loop]. apply serve_pipeline; [done..|]. intros c' l' Hu' Hl' Ha' Hs Hm Hlen.
  rewrite <- Hs, <- Hm. apply IH; try done. lia.
Qed.

(** ** Well-formed exchanges *)

(** A request, its body on the wire, and the content of that body. *)
Record exchange : Type := mkExchange {
  x_method : bytes;
  x_path : bytes;
  x_query : option bytes;
  x_fields : list field;
  x_length : Z;
  x_wire : bytes;
  x_content : bytes
}.

Definition x_headers (x : exchange) : Headers := from_lowered (lowered (x_fields x)).
Definition x_head (x : exchange) : bytes := render (x_method x) (x_path x) (x_query x) (x_fields x).
Definition stream (xs : list exchange) : bytes := mjoin ((fun x => x_head x ++ x_wire x) <$> xs).

Record exchange_ok (s : settings) (max_line : Z) (x : exchange) : Prop := mkExchangeOk {
  xo_request : request_ok (x_method x) (x_path x) (x_query x) (x_fields x) (x_length x);
  xo_message : forall rest, message (x_headers x) (x_length x) (x_wire x ++ rest) rest (x_content x);
  xo_line : max_line = 0 \/ zlen (x_head x) <= max_line;
  xo_total : header_max_total s <= 0 \/ zlen (x_head x) <= header_max_total s;
  xo_upgrade : getlist (lit "upgrade") (x_headers x) = [];
  xo_close : lower (get (lit "connection") [] (x_headers x)) <> lit "close";
  xo_cap : Http1Body._max_body (body_config s) = 0 \/
    (x_length x <= Http1Body._max_body (body_config s) /\ zlen (x_content x) <= Http1Body._max_body (body_config s));
  xo_drain : zlen (x_content x) <= _MAX_KEEPALIVE_DRAIN
}.

(** The answers to exchanges whose application reads [reads b] chunks. *)
Inductive served : list exchange -> list behaviour -> list answer -> Prop :=
| served_none app : served [] app []
| served_one x xs b app conn got more :
    method conn = x_method x -> http_version conn = lit "1.1" -> raw_path conn = x_path x ->
    query_string conn = default [] (x_query x) -> headers conn = x_headers x ->
    (exists b1, x_content x = mjoin got ++ b1 /\ ((length (x_content x) < reads b)%nat -> b1 = [])) ->
    served xs app more ->
    served (x :: xs) (b :: app) (interim conn ++ Served (dispatched conn) got :: more).

(** A rendered head ends at its first empty line. *)
Lemma find_end_skip w m : (13 ∉ w) -> find_sub HEAD_END (w ++ m) = Nat.add (length w) <$> find_sub HEAD_END m.
Proof.
  induction w as [|c w IH]; intros Hw; [cbn [app]; by destruct (find_sub HEAD_END m)|].
  apply not_elem_of_cons in Hw as [Hc Hw]. cbn [app find_sub]. rewrite bool_decide_false.
  - rewrite IH by done. by destruct (find_sub HEAD_END m).
  - intros [k Hk]. cbn in Hk. congruence.
Qed.

Lemma find_end_lines ls rest :
  Forall (fun l => (13 ∉ l) /\ l <> []) ls -> ls <> [] ->
  exists i, find_sub HEAD_END (mjoin ((fun l => l ++ crlf) <$> ls) ++ crlf ++ rest) = Some i /\
    length (mjoin ((fun l => l ++ crlf) <$> ls)) = (i + 2)%nat.
Proof.
  induction 1 as [|l ls [Hl Hne] Hls IH]; intros Hnil; [done|]. cbn [fmap list_fmap mjoin list_join].
  rewrite <- !app_assoc, find_end_skip by done. destruct Hls as [|l' ls [Hl' Hne'] Hls].
  - exists (length l). cbn [fmap list_fmap mjoin list_join app]. rewrite !length_app, Nat.add_0_r.
    split; [|done]. assert (Hz : find_sub HEAD_END (crlf ++ crlf ++ rest) = Some 0%nat).
    { unfold crlf. cbn [app find_sub]. by rewrite bool_decide_true by by exists rest. }
    rewrite Hz. cbn. f_equal. lia.
  - destruct (IH ltac:(done)) as (i & Hi & Hlen). exists (length l + (2 + i))%nat.
    destruct l' as [|c l']; [done|]. apply not_elem_of_cons in Hl' as [Hc _].
    set (m := mjoin _ ++ crlf ++ rest) in *.
    assert (Hm : exists m', m = c :: m') by by eexists.
    destruct Hm as [m' Hm].
    assert (Hskip : find_sub HEAD_END (crlf ++ m) = Nat.add 2 <$> find_sub HEAD_END m).
    { change (crlf ++ m) with (13 :: 10 :: m). rewrite !find_sub_cons.
      - by destruct (find_sub HEAD_END m).
      - intros [k Hk]. cbn in Hk. congruence.
      - rewrite Hm. intros [k Hk]. cbn in Hk. congruence. }
    fold m. rewrite Hskip, Hi. split; [done|]. rewrite !length_app. change (length crlf) with 2%nat.
    unfold mjoin in Hlen |- *. lia.
Qed.

Lemma render_head_end s max_line x rest :
  exchange_ok s max_line x ->
  exists i, find_sub HEAD_END (x_head x ++ rest) = Some i /\ length (x_head x) = (i + 4)%nat.
Proof.
  intros Hx. pose proof (xo_request _ _ _ Hx) as Hr. pose proof (request_no_cr _ _ _ _ _ Hr) as Hcr.
  unfold x_head, render. rewrite <- app_assoc.
  destruct (find_end_lines ((x_method x ++ 32 :: target_of (x_path x) (x_query x) ++ 32 :: lit "HTTP/1.1") ::
    (line_of <$> x_fields x)) rest) as (i & Hi & Hlen).
  - apply Forall_forall. intros l Hl. rewrite Forall_forall in Hcr. split; [by apply Hcr|].
    destruct Hr as [(Hm & _) _ _ Hf _ _ _]. apply elem_of_cons in Hl as [-> |Hl]; [by destruct (x_method x)|].
    apply list_elem_of_fmap in Hl as (kv & -> & _). unfold line_of. by destruct kv.1.
  - done.
  - exists i. split; [exact Hi|]. rewrite length_app, Hlen. change (length crlf) with 2%nat. lia.
Qed.

(** The head is read whole, and within its budget. *)
Lemma render_read s max_line x rest o l' :
  exchange_ok s max_line x -> head_read (header_max_total s) (x_head x ++ rest) o l' -> o = Done (x_head x) /\ l' = rest.
Proof.
  intros Hx. destruct (render_head_end s max_line x rest Hx) as (i & Hi & Hlen). unfold head_read. rewrite Hi.
  assert (Hb : (0 <? header_max_total s) && (header_max_total s <? Z.of_nat i + 4) = false).
  { destruct (xo_total _ _ _ Hx) as [?|Hz]; [lia|]. unfold zlen in Hz. lia. }
  rewrite Hb, <- Hlen, take_app_length, drop_app_length. done.
Qed.

Lemma render_not_end s max_line x : exchange_ok s max_line x -> x_head x <> [] /\ x_head x <> HEAD_END.
Proof.
  intros Hx. destruct (xo_request _ _ _ Hx) as [(Hm & Ht & _) _ _ _ _ _ _]. unfold x_head, render.
  cbn [fmap list_fmap mjoin list_join]. destruct (x_method x) as [|c m]; [done|]. apply Forall_cons in Ht as [Hc _].
  split; [done|]. intros [= -> _]. revert Hc. decide_it.
Qed.

(** Reading, settling and going on, for a body that is there. *)
Lemma finish_whole s k conn a app r0 l rest content got r next :
  Http1Body.sees r0 l -> Http1Body.healthy r0 -> Http1Body._cfg r0 = body_config s -> usable s [] ->
  Http1Body.owes r0 l rest content -> Http1Body.within_cap r0 (zlen content) -> zlen content <= _MAX_KEEPALIVE_DRAIN ->
  Http1Body.handler_reads k r0 = (got, r) -> _should_keep_alive conn = true ->
  (exists b1, content = mjoin got ++ b1 /\ ((length content < k)%nat -> b1 = [])) /\
  exists c', finish_request conn a app r next = next c' /\ usable s (c_waits c') /\ holds (c_reader c') rest /\
    c_actor c' = a /\ c_app c' = app.
Proof.
  intros Hs Hh Hcfg Hu Ho Hcap Hd Hr Hk.
  destruct (Http1Body.served_complete k _MAX_KEEPALIVE_DRAIN _ _ _ _ _ _ Hs Hh Ho Hcap Hr) as (b1 & -> & Hlen & Hset).
  split; [by exists b1|]. destruct Hset as (r2 & E & Hs2 & Hc2).
  { rewrite zlen_app in Hd. pose proof (zlen_nonneg (mjoin got)). lia. }
  destruct (sees_usable s r2 rest Hs2 ltac:(congruence) Hu) as [Hu2 Hl2].
  eexists (mkLoop _ _ _ _). unfold finish_request. rewrite E, Hk. cbn [andb]. split; [reflexivity|]. by split_and!.
Qed.

(** One exchange. *)
Lemma serve_exchange s keep_alive c x rest b app next :
  0 < Http1Body._body_timeout (body_config s) -> usable s (c_waits c) ->
  holds (c_reader c) (x_head x ++ x_wire x ++ rest) -> cache_ok (c_actor c) ->
  exchange_ok s (_max_line (c_actor c)) x -> c_app c = b :: app -> ends b = Answers ->
  exists conn got c',
    serve s keep_alive c next = interim conn ++ Served (dispatched conn) got :: next c' /\
    method conn = x_method x /\ http_version conn = lit "1.1" /\ raw_path conn = x_path x /\
    query_string conn = default [] (x_query x) /\ headers conn = x_headers x /\
    (exists b1, x_content x = mjoin got ++ b1 /\ ((length (x_content x) < reads b)%nat -> b1 = [])) /\
    usable s (c_waits c') /\ holds (c_reader c') rest /\ cache_ok (c_actor c') /\
    _max_line (c_actor c') = _max_line (c_actor c) /\ c_app c' = app.
Proof.
  intros Htime Hu Hl Ha Hx Happ Hends.
  destruct (parse_render (c_actor c) _ _ _ _ _ Ha (xo_request _ _ _ Hx) (xo_line _ _ _ Hx))
    as (a & conn & Hparse & Href & Hn & Ha' & Hss & Hml & Hheaders). fold (x_head x) in Hparse, Href.
  destruct (reference_render (_ssl (c_actor c)) (_max_line (c_actor c)) _ _ _ _ _ (xo_request _ _ _ Hx) (xo_line _ _ _ Hx))
    as (conn' & Href' & Hm & Hv & Hp & Hq & _ & Hast & _ & Htype). fold (x_head x) in Href'. rewrite Href in Href'.
  injection Href' as <-. destruct (Htype (xo_upgrade _ _ _ Hx)) as [Htype' _]. clear Htype. rename Htype' into Htype.
  destruct (accepted _ _ _ _ Ha Hparse) as (_ & _ & Hframed & _). rewrite Hn in Hframed.
  unfold serve. destruct (match c_waits c with w :: ws => (w.2, ws) | [] => (false, []) end) as [expired waits] eqn:Ew.
  assert (Hw : expired = false /\ usable s waits).
  { destruct (c_waits c) as [|w ws]; injection Ew as <- <-; [done|]. split; [|by eapply usable_tail].
    destruct (us_time _ _ Hu) as [?|Hf]; [lia|]. by apply Forall_cons in Hf as [Hf _]. }
  destruct Hw as [-> Hu']. cbn [andb].
  destruct (sread_head_spec (header_max_total s) (c_reader c) _ Hl) as (o & rd & l' & Hr & Hrd & Ho). rewrite Hr.
  destruct (render_read s _ x _ _ _ Hx Ho) as [-> ->]. destruct (render_not_end _ _ _ Hx) as [Hne Hne'].
  rewrite (bool_decide_false (x_head x = [])), (bool_decide_false (x_head x = HEAD_END)), andb_false_r by done.
  rewrite Hparse, Htype. change (bool_decide (lit "http" = lit "websocket")) with false. cbn iota.
  assert (Hov : oversized s a = false).
  { unfold oversized. rewrite Hn. destruct (xo_cap _ _ _ Hx) as [->|[Hcap _]]; [done|].
    rewrite Z.gtb_ltb, (proj2 (Z.ltb_ge _ _)) by done. apply andb_false_r. }
  rewrite Hov. unfold _dispatch_request.
  destruct (bind_framed (body_config s) rd waits (headers conn) _ Hframed) as (r & -> & Hh & Hrr & Hww & Hcfg & Hseen & Howes);
    [apply Hu..|].
  destruct (dispatched_same conn) as [Hk Has]. rewrite Has, Hast, Happ.
  destruct (Http1Body.handler_reads (reads b) r) as [got r'] eqn:Eg. rewrite Hends.
  assert (Hkeep : _should_keep_alive (dispatched conn) = true).
  { rewrite Hk. unfold _should_keep_alive. rewrite Hv, Hheaders. rewrite bool_decide_true by done.
    rewrite bool_decide_false; [done|]. apply (xo_close _ _ _ Hx). }
  destruct (finish_whole s (reads b) (dispatched conn) a app r (x_wire x ++ rest) rest (x_content x) got r' next)
    as (Hgot & c' & -> & Hu2 & Hl2 & Ha2 & Happ2); try done.
  - apply (usable_sees s); [by rewrite Hww|done|by rewrite Hrr].
  - by eapply usable_none.
  - apply Howes. rewrite Hheaders. apply (xo_message _ _ _ Hx).
  - unfold Http1Body.within_cap. rewrite Hcfg, Hseen. destruct (xo_cap _ _ _ Hx) as [?|[_ ?]]; [by left|right; lia].
  - apply (xo_drain _ _ _ Hx).
  - exists conn, got, c'. split_and!; try done; [by rewrite Ha2|by rewrite Ha2].
Qed.

Lemma loop_served fuel s keep_alive c xs app :
  0 < Http1Body._body_timeout (body_config s) -> usable s (c_waits c) -> holds (c_reader c) (stream xs) ->
  cache_ok (c_actor c) -> Forall (exchange_ok s (_max_line (c_actor c))) xs -> c_app c = app ->
  (length xs <= length app)%nat -> Forall (fun b => ends b = Answers) app -> (length xs < fuel)%nat ->
  served xs app (loop fuel s keep_alive c).
Proof.
  revert fuel keep_alive c app. induction xs as [|x xs IH]; intros fuel keep_alive c app Htime Hu Hl Ha Hxs Happ Hlen Hends Hf;
    (destruct fuel as [|fuel]; [cbn in Hf; lia|]); cbn [loop].
  - assert (Hs : serve s keep_alive c (loop fuel s true) = []); [|rewrite Hs; constructor].
    unfold serve. destruct (sread_head_spec (header_max_total s) (c_reader c) _ Hl) as (o & rd & l' & Hr & Hrd & Ho).
    assert (Hdone : o = Done []).
    { unfold head_read in Ho. cbn in Ho.
      assert (Hb : (0 <? header_max_total s) && (header_max_total s <? 0) = false) by lia.
      change (zlen []) with 0 in Ho. rewrite Hb in Ho. by destruct Ho as [-> _]. }
    rewrite Hr, Hdone. rewrite (bool_decide_true ([] = [])) by done.
    destruct (c_waits c) as [|w ws] eqn:Ew; [done|]. destruct (us_time _ _ Hu) as [?|Hfa]; [lia|].
    apply Forall_cons in Hfa as [-> _]. done.
  - destruct app as [|b app]; [cbn in Hlen; lia|]. apply Forall_cons in Hxs as [Hx Hxs]. apply Forall_cons in Hends as [Hb Hends].
    cbn [stream fmap list_fmap mjoin list_join] in Hl. rewrite <- app_assoc in Hl.
    destruct (serve_exchange s keep_alive c x (stream xs) b app (loop fuel s true) Htime Hu Hl Ha Hx Happ Hb)
      as (conn & got & c' & -> & Hm & Hv & Hp & Hq & Hh & Hgot & Hu' & Hl' & Ha' & Hml & Happ').
    apply served_one; try done. apply IH; try done; [by rewrite Hml|cbn in *; lia..].
Qed.

(** C1: a connection answers the requests of its stream, and nothing else, as long
    as no read of a body times out and no minimum body rate is set ([usable]: the
    body timeout is off, or every wait ends in time; a body deadline that expires
    loses the boundary: [late_body_served]).  Whatever the octets [l] of the stream,
    the lines cached before, and the application (how much of each body it reads,
    whether it answers, raises or is cut off): the answers of [run] follow the
    specification [pipeline] — every request answered is a head the parser's
    reference accepts, if no line of it holds a bare CR; where another request
    follows, it begins exactly where the complete body ends that the fields of the
    one before delimit, and the application got a prefix of that body; where a body
    is cut short by the end of the stream, nothing follows but what an empty stream
    is answered; and the first error is the last answer.  In particular the loop
    ends within its fuel. *)
Theorem run_pipeline s c l :
  usable s (c_waits c) -> holds (c_reader c) l -> cache_ok (c_actor c) ->
  pipeline (_ssl (c_actor c)) (_max_line (c_actor c)) l (run s c).
Proof. intros Hu Hl Ha. unfold run. apply loop_pipeline; try done. rewrite (holds_size _ _ Hl). lia. Qed.

Lemma stream_length s max_line xs : Forall (exchange_ok s max_line) xs -> (length xs <= length (stream xs))%nat.
Proof.
  induction 1 as [|x xs Hx _ IH]; [done|]. destruct (render_not_end _ _ _ Hx) as [Hne _].
  change (stream (x :: xs)) with ((x_head x ++ x_wire x) ++ stream xs). rewrite !length_app. cbn [length].
  assert (length (x_head x) <> 0)%nat by by destruct (x_head x). lia.
Qed.


End Loop.
Arguments connection : clear implicits.

(** ** Samples *)

Definition sample_settings : settings := mkSettings 10 5 65536 (Http1Body.make_config 4 4 0 0 0 30).

Definition sample_exchange : exchange :=
  mkExchange (lit "POST") (lit "/a%20b") (Some (lit "x=1")) sample_fields 12 (lit "hello, world") (lit "hello, world").

(** Two requests; the first body is left half read. *)
Definition sample_connection : connection bytes :=
  mkLoop (fresh false 8192) (stream [sample_exchange; sample_exchange]) []
    [mkBehaviour 1 Answers; mkBehaviour 9 Answers].

Lemma sample_usable : usable sample_settings (c_waits sample_connection).
Proof. split; try done. right. apply Forall_nil_2. Qed.

Lemma sample_exchange_ok : exchange_ok sample_settings 8192 sample_exchange.
Proof.
  constructor.
  - exact sample_request_ok.
  - intros rest. unfold message. rewrite bool_decide_true by (vm_compute; reflexivity). done.
  - right. vm_compute. discriminate.
  - right. vm_compute. discriminate.
  - vm_compute. reflexivity.
  - vm_compute. discriminate.
  - by left.
  - vm_compute. discriminate.
Qed.

Lemma run_pipeline_witness :
  pipeline false 8192 (stream [sample_exchange; sample_exchange]) (run sample_settings sample_connection).
Proof.
  apply (run_pipeline sample_settings sample_connection).
  - exact sample_usable.
  - reflexivity.
  - apply fresh_ok.
Defined.


(** What the application of the sample gets. *)
Example sample_answers :
  (fun a => match a with Served conn got => (method conn, mjoin got) | _ => ([], []) end)
    <$> run sample_settings sample_connection = [(lit "POST", lit "hell"); (lit "POST", lit "hello, world")].
Proof. vm_compute. reflexivity. Qed.

(** A head cut off by the end of the stream is answered on a connection that
    has served a request, too. *)
Lemma partial_head_answered :
  let c := mkLoop (fresh false 8192) (x_head sample_exchange ++ lit "hello, worldGET /") []
    [mkBehaviour 9 Answers] in
  match run sample_settings c with [Served _ _; ErrorResponse status] => status = 400 | _ => False end.
Proof. vm_compute. reflexivity. Qed.

(** The deadline of a body that is only drained expires: what the peer sends
    next for that body is parsed as a request. *)
Lemma late_body_served :
  let c := mkLoop (fresh false 8192)
    (x_head sample_exchange ++ lit "GET /admin HTTP/1.1" ++ crlf ++ lit "Host: a" ++ crlf ++ crlf)
    [(0, false); (30, true)] [mkBehaviour 0 Answers; mkBehaviour 0 Answers] in
  match run sample_settings c with
  | [Served c1 got1; Served c2 got2] => raw_path c1 = lit "/a%20b" /\ got1 = [] /\ raw_path c2 = lit "/admin"
  | _ => False
  end.
Proof. vm_compute. by split_and!. Qed.

End Http1Loop.
