(* ===== verification/Http1Sender.v ===== *)
(** * Responses on HTTP/1.1 (blackbull/server/sender.py, [HTTP1Sender])

    One sender serves a connection.  A write appends to [wire] or, when the
    transport fails, marks the sender closed; [_faults] says which of the
    writes to come fail.  An octet of a failed write is not described.
    [HTTPStatus] is the enumeration of Python 3.11, the value of [_http_date()]
    is a parameter, and a file of the pathsend form is its size and its
    contents.  Access-log bookkeeping is left out, and so is what a caller sees
    of its own [Headers] object, to which the framing fields are appended. *)

From Stdlib Require Import ZArith Lia.
From stdpp Require Import base tactics numbers option strings sets list.
From S2P Require Import Prelude PyLib PyText PyBytes HttpHeaders Reader Http1Parse Http1Body Http1Loop.
Import HttpHeaders Http1Parse.

Module Http1Sender.

Definition _CRLF : bytes := [13; 10].
Definition _PATHSEND_FALLBACK_CHUNK : Z := 64 * 1024.
Definition _SENDFILE_CHUNK : Z := 1024 * 1024.

(** [HTTPStatus]: the registered codes and their phrases. *)
Definition HTTPStatus : list (Z * bytes) :=
  [(100, lit "Continue"); (101, lit "Switching Protocols"); (102, lit "Processing"); (103, lit "Early Hints");
   (200, lit "OK"); (201, lit "Created"); (202, lit "Accepted"); (203, lit "Non-Authoritative Information");
   (204, lit "No Content"); (205, lit "Reset Content"); (206, lit "Partial Content"); (207, lit "Multi-Status");
   (208, lit "Already Reported"); (226, lit "IM Used"); (300, lit "Multiple Choices"); (301, lit "Moved Permanently");
   (302, lit "Found"); (303, lit "See Other"); (304, lit "Not Modified"); (305, lit "Use Proxy");
   (307, lit "Temporary Redirect"); (308, lit "Permanent Redirect"); (400, lit "Bad Request"); (401, lit "Unauthorized");
   (402, lit "Payment Required"); (403, lit "Forbidden"); (404, lit "Not Found"); (405, lit "Method Not Allowed");
   (406, lit "Not Acceptable"); (407, lit "Proxy Authentication Required"); (408, lit "Request Timeout"); (409, lit "Conflict");
   (410, lit "Gone"); (411, lit "Length Required"); (412, lit "Precondition Failed"); (413, lit "Request Entity Too Large");
   (414, lit "Request-URI Too Long"); (415, lit "Unsupported Media Type"); (416, lit "Requested Range Not Satisfiable"); (417, lit "Expectation Failed");
   (418, lit "I'm a Teapot"); (421, lit "Misdirected Request"); (422, lit "Unprocessable Entity"); (423, lit "Locked");
   (424, lit "Failed Dependency"); (425, lit "Too Early"); (426, lit "Upgrade Required"); (428, lit "Precondition Required");
   (429, lit "Too Many Requests"); (431, lit "Request Header Fields Too Large"); (451, lit "Unavailable For Legal Reasons"); (500, lit "Internal Server Error");
   (501, lit "Not Implemented"); (502, lit "Bad Gateway"); (503, lit "Service Unavailable"); (504, lit "Gateway Timeout");
   (505, lit "HTTP Version Not Supported"); (506, lit "Variant Also Negotiates"); (507, lit "Insufficient Storage"); (508, lit "Loop Detected");
   (510, lit "Not Extended"); (511, lit "Network Authentication Required")].

Definition phrase (status : Z) : option bytes := dget HTTPStatus status.

(** [_STATUS_LINES] holds this line for every member. *)
Definition _status_line (status : Z) : bytes :=
  lit "HTTP/1.1 " ++ str_int status ++ [32] ++ default [] (phrase status) ++ _CRLF.

(** The table and the fallback give the same digits. *)
Definition _content_length_bytes (n : Z) : bytes := str_int n.

Definition _is_informational (status : Z) : bool := status <? 200.

(** ** Events *)

Record file : Type := mkFile {
  getsize : Z;
  contents : bytes;
  sendfile_supported : bool
}.

(** The slots of [NativeResponse]. *)
Record NativeResponse : Type := mkNative {
  status : Z;
  _header : option (list field);
  _body : option bytes;
  more_body : bool;
  trailers : option (list field);
  expects_trailers : bool;
  file_path : option file
}.

(** What an application sends.  [OtherEvent] is a dict of another type,
    [NotAnEvent] any other object — a [NativeWSMessage], on an HTTP channel —;
    what adapts a channel hands both on as they are. *)
Inductive send_event : Type :=
| SendBytes (body : bytes) (status : Z) (hs : list field)
| SendNative (r : NativeResponse)
| ResponseStart (status : Z) (hs : list field) (trailers : bool)
| ResponseBody (body : bytes) (more_body : bool)
| ResponseTrailers (hs : list field)
| ResponsePathsend (f : file)
| OtherEvent
| NotAnEvent.

(** [NativeResponse.to_asgi] *)
Definition to_asgi (r : NativeResponse) : list send_event :=
  match _header r with Some hs => [ResponseStart (status r) hs (expects_trailers r)] | None => [] end ++
  match file_path r with Some f => [ResponsePathsend f] | None => [] end ++
  match _body r with Some b => [ResponseBody b (more_body r)] | None => [] end ++
  match trailers r with Some hs => [ResponseTrailers hs] | None => [] end.

(** [NativeResponse.complete] and [NativeResponse.with_trailers] *)
Definition complete (st : Z) (hs : list field) (body : option bytes) : NativeResponse :=
  mkNative st (Some hs) body false None false None.

Definition with_trailers (st : Z) (hs : list field) (body : option bytes) (ts : list field) : NativeResponse :=
  mkNative st (Some hs) body true (Some ts) true None.

(** ** The sender *)

Record t : Type := mk {
  _closed : bool;
  _buffered : option (Z * Headers);        (* _buffered_status and _buffered_headers *)
  _chunked : bool;
  _expect_trailers : bool;
  _started : bool;
  _completed : bool;
  _head_mode : bool;
  wire : bytes;
  _faults : list bool
}.

Definition __init__ (faults : list bool) : t := mk false None false false false false false [] faults.

Definition reset_per_request_state (s : t) : t :=
  mk (_closed s) None false false false false false (wire s) (_faults s).

Definition mark_client_gone (s : t) : t :=
  mk true (_buffered s) (_chunked s) (_expect_trailers s) (_started s) (_completed s) (_head_mode s) (wire s) (_faults s).

Definition set_buffered (b : option (Z * Headers)) (s : t) : t :=
  mk (_closed s) b (_chunked s) (_expect_trailers s) (_started s) (_completed s) (_head_mode s) (wire s) (_faults s).
Definition set_chunked (s : t) : t :=
  mk (_closed s) (_buffered s) true (_expect_trailers s) (_started s) (_completed s) (_head_mode s) (wire s) (_faults s).
Definition set_expect (b : bool) (s : t) : t :=
  mk (_closed s) (_buffered s) (_chunked s) b (_started s) (_completed s) (_head_mode s) (wire s) (_faults s).
Definition set_started (s : t) : t :=
  mk (_closed s) (_buffered s) (_chunked s) (_expect_trailers s) true (_completed s) (_head_mode s) (wire s) (_faults s).
Definition set_completed (s : t) : t :=
  mk (_closed s) (_buffered s) (_chunked s) (_expect_trailers s) (_started s) true (_head_mode s) (wire s) (_faults s).
Definition set_head_mode (b : bool) (s : t) : t :=
  mk (_closed s) (_buffered s) (_chunked s) (_expect_trailers s) (_started s) (_completed s) b (wire s) (_faults s).
Definition set_wire (w : bytes) (faults : list bool) (s : t) : t :=
  mk (_closed s) (_buffered s) (_chunked s) (_expect_trailers s) (_started s) (_completed s) (_head_mode s) w faults.

(** [_write] and [_write_many]: the same octets, joined or vectored. *)
Definition _guarded_write (data : bytes) (s : t) : t :=
  if _closed s then s
  else
    match _faults s with
    | true :: faults => mark_client_gone (set_wire (wire s) faults s)
    | _ => set_wire (wire s ++ data) (tail (_faults s)) s
    end.

Definition _write (data : bytes) : smonad t unit := supdate (_guarded_write data).

(** The writer's [sendfile], which is not guarded: its chunks, and what it
    raises when the transport fails or has no [sendfile]. *)
Fixpoint sendfile_loop (fuel : nat) (f : file) (count sent : Z) : smonad t unit := fun s =>
  match fuel with
  | O => (Raise OutOfFuel, s)
  | S fuel =>
      if sent <? count then
        let want := Z.min _SENDFILE_CHUNK (count - sent) in
        let octets := slice (contents f) sent (sent + want) in
        match _faults s with
        | true :: faults => (Raise OSError, set_wire (wire s) faults s)
        | _ =>
            let s := set_wire (wire s ++ octets) (tail (_faults s)) s in
            if zlen octets =? 0 then (Ok tt, s) else sendfile_loop fuel f count (sent + zlen octets) s
        end
      else (Ok tt, s)
  end.

Definition sendfile (f : file) (count : Z) : smonad t unit :=
  if sendfile_supported f then sendfile_loop (S (Z.to_nat count)) f count 0 else sraise NotImplementedError.

(** ** Size lines *)

Lemma hex_digit_facts d : 0 <= d < 16 ->
  Http1Body.hex_digit_value (hex_digit d) = d /\ (hex_digit d ∈ Http1Body._HEXDIG_SET) /\
  48 <= hex_digit d <= 102 /\ hex_digit d <> 59.
Proof.
  intros Hd. assert (H : forallb (fun d => (Http1Body.hex_digit_value (hex_digit d) =? d)
    && bool_decide (hex_digit d ∈ Http1Body._HEXDIG_SET) && (48 <=? hex_digit d) && (hex_digit d <=? 102)
    && negb (hex_digit d =? 59)) (seqZ 0 16) = true) by (vm_compute; reflexivity).
  rewrite forallb_forall in H. specialize (H d). rewrite <- list_elem_of_In, elem_of_seqZ in H. specialize (H ltac:(lia)).
  apply andb_prop in H as [H H5]. apply andb_prop in H as [H H4]. apply andb_prop in H as [H H3].
  apply andb_prop in H as [H1 H2]. apply bool_decide_eq_true in H2. split_and!; try done; lia.
Qed.

(** What follows the digits does not disturb them. *)
Lemma parse_size_line h :
  Forall (fun c => (c ∈ Http1Body._HEXDIG_SET) /\ 48 <= c <= 102 /\ c <> 59) h -> h <> [] ->
  Http1Body._parse_chunk_size (h ++ _CRLF) = Ok (Http1Body.int_hex h).
Proof.
  intros Hh Hne. rewrite Forall_forall in Hh. unfold Http1Body._parse_chunk_size.
  assert (He : endswith [13; 10] (h ++ _CRLF) = true) by (apply bool_decide_eq_true; by exists h).
  assert (Hc : count_octet 10 (h ++ _CRLF) = 1).
  { unfold count_octet. rewrite filter_app. enough (E : filter (fun d => d = 10) h = []) by by rewrite E.
    clear Hne He. induction h as [|c h IH]; [done|]. rewrite filter_cons_False.
    - apply IH. set_solver.
    - specialize (Hh c ltac:(set_solver)). lia. }
  rewrite He, Hc. cbn [negb orb Z.eqb]. rewrite length_app. change (length _CRLF) with 2%nat.
  replace (length h + 2 - 2)%nat with (length h) by lia. rewrite take_app_length.
  assert (Hs : has_char 59 h = false).
  { apply bool_decide_eq_false. intros Hc'. specialize (Hh 59 Hc'). lia. }
  rewrite Hs. cbn [rbind]. rewrite bool_decide_false by done.
  replace (Http1Body.all_in _ h) with true; [done|]. symmetry. apply forallb_forall. intros c Hc'.
  apply bool_decide_eq_true. by apply Hh, list_elem_of_In.
Qed.

Lemma size_line n : 0 <= n < 2 ^ 64 -> Http1Body.chunk_line n (hex_nat n ++ _CRLF).
Proof.
  intros Hn. destruct (hex_aux_spec Http1Body.hex_digit_value (S (Z.to_nat (Z.log2 n))) n) as [Hv Hd].
  { intros d Hd. by apply hex_digit_facts. }
  { split; [lia|]. apply hex_nat_bound. lia. }
  fold (hex_nat n) in Hv, Hd.
  assert (Hh : Forall (fun c => (c ∈ Http1Body._HEXDIG_SET) /\ 48 <= c <= 102 /\ c <> 59) (hex_nat n)).
  { eapply Forall_impl; [exact Hd|]. intros c (d & Hd' & ->). by apply hex_digit_facts. }
  split; [|split].
  - exists (hex_nat n ++ [13]). split; [by rewrite <- app_assoc|]. rewrite elem_of_app, list_elem_of_singleton.
    intros [Hc|?]; [|done]. rewrite Forall_forall in Hh. specialize (Hh _ Hc). lia.
  - rewrite zlen_app. change (zlen _CRLF) with 2. unfold zlen, Http1Body._CHUNK_LINE_MAX, hex_nat.
    pose proof (hex_aux_length (S (Z.to_nat (Z.log2 n))) n).
    assert (Z.log2 n < 64 \/ n = 0) by (destruct (Z.eq_dec n 0); [by right|left; apply Z.log2_lt_pow2; lia]).
    destruct H0 as [? | ->]; [lia|vm_compute; done].
  - rewrite parse_size_line; [by rewrite <- Hv at 2|done|]. apply hex_aux_nonempty. lia.
Qed.

(** ** Lengths *)

Lemma length_canonical n : 0 <= n < 2 ^ 64 ->
  canonical_decimal (_content_length_bytes n) = true /\ int_digits (_content_length_bytes n) = Ok n.
Proof.
  intros Hn. unfold _content_length_bytes, str_int. rewrite (proj2 (Z.ltb_ge _ _)) by lia. split.
  - unfold canonical_decimal. destruct (Z.eq_dec n 0) as [->|Hz]; [done|].
    destruct (dec_nat_lead n ltac:(lia)) as (c & r & E & Hc). pose proof (dec_nat_digits n ltac:(lia)) as Hd.
    rewrite E in *. apply Forall_cons in Hd as [_ Hd]. apply orb_true_intro. right.
    rewrite (proj2 (Z.leb_le 49 c)), (proj2 (Z.leb_le c 57)) by lia. cbn [andb]. apply forallb_forall. intros d Hin.
    rewrite Forall_forall in Hd. by apply Hd, list_elem_of_In.
  - unfold int_digits. pose proof (dec_nat_len 20 n ltac:(lia) ltac:(lia)) as Hl.
    assert (E : (zlen (dec_nat n) >? MAX_STR_DIGITS) = false) by (unfold zlen, MAX_STR_DIGITS; lia).
    by rewrite E, int_of_dec_nat by lia.
Qed.

Section Sender.
(** The value of [_http_date()]. *)
Context (http_date : bytes).

Definition _render_start (status : Z) (headers : Headers) : bytes :=
  _status_line status ++ mjoin ((fun x => x.1 ++ [58; 32] ++ x.2 ++ _CRLF) <$> _list headers) ++ _CRLF.

(** The headers are updated in place. *)
Definition _ensure_framing_headers (status : Z) (headers : Headers) (body_len : Z) (more_body : bool) (s : t) : Headers * t :=
  if _is_informational status then (headers, s)
  else if more_body then
    (if __contains__ (lit "transfer-encoding") headers then headers
     else append_pair (lit "transfer-encoding") (lit "chunked") headers, set_chunked s)
  else if __contains__ (lit "content-length") headers then (headers, s)
  else (append_pair (lit "content-length") (_content_length_bytes body_len) headers, s).

Definition _ensure_date_header (headers : Headers) : Headers :=
  if __contains__ (lit "Date") headers then headers else append_pair (lit "Date") http_date headers.

(** A chunk with its size line. *)
Definition chunk (content : bytes) : bytes := hex_nat (zlen content) ++ _CRLF ++ content ++ _CRLF.

Definition last_chunk : bytes := [48] ++ _CRLF ++ _CRLF.

Definition _flush (status : Z) (headers : Headers) (body : bytes) (more_body : bool) : smonad t unit := fun s =>
  let s := if _is_informational status then s else set_started s in
  let '(headers, s) := _ensure_framing_headers status headers (zlen body) more_body s in
  let headers := _ensure_date_header headers in
  let head := _render_start status headers in
  if _head_mode s then _write head s
  else if _chunked s then
    _write (head ++ (if bool_decide (body = []) then [] else chunk body) ++
            (if negb more_body && negb (_expect_trailers s) then last_chunk else [])) s
  else if bool_decide (body = []) then _write head s
  else _write (head ++ body) s.

Definition _handle_body_content (content : bytes) (more_body : bool) : smonad t unit := fun s =>
  let finish : smonad t unit := supdate (fun s => if negb more_body then set_completed s else s) in
  match _buffered s with
  | Some (status, headers) =>
      (do! _flush status headers content more_body in do! supdate (set_buffered None) in finish) s
  | None =>
      if _head_mode s then finish s
      else
        let final := negb more_body && negb (_expect_trailers s) in
        (do! (if _chunked s then
                if negb (bool_decide (content = [])) then _write (chunk content ++ (if final then last_chunk else []))
                else if final then _write last_chunk else sret tt
              else if negb (bool_decide (content = [])) then _write content else sret tt) in finish) s
  end.

(** The loop over the trailers. *)
Fixpoint write_trailers (headers : list field) : smonad t unit :=
  match headers with
  | [] => sret tt
  | (name, value) :: headers => do! _write (name ++ [58; 32] ++ value ++ _CRLF) in write_trailers headers
  end.

Definition _handle_trailers (headers : list field) : smonad t unit :=
  do! _write ([48] ++ _CRLF) in do! write_trailers headers in do! _write _CRLF in supdate set_completed.

(** The loop that reads and writes when [sendfile] is not available. *)
Fixpoint fallback_loop (fuel : nat) (f : file) (offset remaining : Z) : smonad t unit :=
  match fuel with
  | O => sraise OutOfFuel
  | S fuel =>
      if 0 <? remaining then
        let octets := slice (contents f) offset (offset + Z.min _PATHSEND_FALLBACK_CHUNK remaining) in
        if bool_decide (octets = []) then sret tt
        else do! _write octets in fallback_loop fuel f (offset + zlen octets) (remaining - zlen octets)
      else sret tt
  end.

Definition _pathsend (f : file) : smonad t unit := fun s =>
  match _buffered s with
  | None => (Ok tt, s)
  | Some (status, headers) =>
      let s := set_started s in
      let '(headers, s) := _ensure_framing_headers status headers (getsize f) false s in
      let head := _render_start status (_ensure_date_header headers) in
      let s := set_buffered None s in
      if _head_mode s then _write head s
      else
        (do! _write head in
         scatch (sendfile f (getsize f)) (fun e => match e with
           | NotImplementedError => Some (fallback_loop (S (Z.to_nat (getsize f))) f 0 (getsize f))
           | _ => None
           end)) s
  end.

(** The start arms: [HTTPStatus(status)] refuses a code that is not registered. *)
Definition buffer_start (status : Z) (hs : list field) (trailers : bool) : smonad t unit :=
  match phrase status with
  | None => sraise ValueError
  | Some _ => supdate (fun s => set_expect trailers (set_buffered (Some (status, HttpHeaders.__init__ hs)) s))
  end.

Definition handle_native (r : NativeResponse) : smonad t unit :=
  do! match _header r with
      | Some hs => buffer_start (status r) hs (expects_trailers r)
      | None => sret tt
      end in
  match file_path r with
  | Some f => do! _pathsend f in supdate set_completed
  | None =>
      do! match _body r with Some b => _handle_body_content b (more_body r) | None => sret tt end in
      match trailers r with
      | Some hs => fun s => if _completed s then (Ok tt, s) else _handle_trailers hs s
      | None => sret tt
      end
  end.

Definition __call__ (e : send_event) : smonad t unit := fun s =>
  if _completed s then (Ok tt, s)
  else
    match e with
    | SendBytes body status hs =>
        (do! _flush status (HttpHeaders.__init__ hs) body false in
         supdate (fun s => if _is_informational status then s else set_completed s)) s
    | SendNative r => handle_native r s
    | ResponseStart status hs trailers => buffer_start status hs trailers s
    | ResponseBody body more_body => _handle_body_content body more_body s
    | ResponseTrailers hs => _handle_trailers hs s
    | ResponsePathsend f => (do! _pathsend f in supdate set_completed) s
    | OtherEvent => (Ok tt, s)
    | NotAnEvent => (Raise TypeError, s)
    end.

(** Events in order, up to the first that raises. *)
Fixpoint send_all (es : list send_event) : smonad t unit :=
  match es with
  | [] => sret tt
  | e :: es => do! __call__ e in send_all es
  end.

(** ** The two send lanes *)

Lemma send_all_completed es s : _completed s = true -> send_all es s = (Ok tt, s).
Proof.
  intros Hc. induction es as [|e es IH]; [done|]. cbn [send_all]. unfold sbind, __call__. by rewrite Hc.
Qed.

Lemma send_all_app es1 es2 s :
  send_all (es1 ++ es2) s = match send_all es1 s with (Ok _, s) => send_all es2 s | (Raise e, s) => (Raise e, s) end.
Proof.
  revert s. induction es1 as [|e es1 IH]; intros s; cbn [app send_all]; [done|]. unfold sbind.
  destruct (__call__ e s) as [[[]|x] s1]; [apply IH|done].
Qed.

Lemma buffer_start_completed st hs ts s r s' : buffer_start st hs ts s = (r, s') -> _completed s' = _completed s.
Proof. unfold buffer_start. destruct (phrase st); by intros [= <- <-]. Qed.

(** The native lane and the ASGI lane are one sender.  For every
    [NativeResponse] and every state of the sender — completed, closed, with a
    start buffered or mid-stream, over a transport that fails at any write —
    sending the object leaves the sender, the octets on the wire and the
    outcome exactly as sending the ASGI events of its [to_asgi] in order. *)
Theorem native_matches_asgi r s : send_all (to_asgi r) s = __call__ (SendNative r) s.
Proof.
  unfold __call__. destruct (_completed s) eqn:Hc; [by apply send_all_completed|].
  destruct r as [st header body more ts expects fp]. unfold to_asgi, handle_native.
  cbn [_header _body more_body trailers expects_trailers file_path status].
  assert (Hrest : forall s, _completed s = false ->
    send_all (match fp with Some f => [ResponsePathsend f] | None => [] end ++
              match body with Some b => [ResponseBody b more] | None => [] end ++
              match ts with Some hs => [ResponseTrailers hs] | None => [] end) s =
    match fp with
    | Some f => do! _pathsend f in supdate set_completed
    | None => do! match body with Some b => _handle_body_content b more | None => sret tt end in
        match ts with Some hs => fun s => if _completed s then (Ok tt, s) else _handle_trailers hs s | None => sret tt end
    end s).
  { clear s Hc. intros s Hc. destruct fp as [f|].
    - cbn [app send_all]. unfold sbind, __call__. rewrite Hc. unfold sbind, supdate.
      destruct (_pathsend f s) as [[[]|e] s1]; [by apply send_all_completed|done].
    - assert (Ht : forall s, send_all (match ts with Some hs => [ResponseTrailers hs] | None => [] end) s =
        match ts with Some hs => fun s => if _completed s then (Ok tt, s) else _handle_trailers hs s | None => sret tt end s).
      { clear. intros s. destruct ts as [hs|]; [|done]. cbn [send_all]. unfold sbind, __call__, sret.
        destruct (_completed s); [done|]. by destruct (_handle_trailers hs s) as [[[]|e] s1]. }
      destruct body as [b|]; cbn [app send_all]; [|apply Ht]. unfold sbind, __call__. rewrite Hc.
      destruct (_handle_body_content b more s) as [[[]|e] s1]; [apply Ht|done]. }
  destruct header as [hs|]; cbn [app send_all]; [|exact (Hrest s Hc)]. unfold sbind at 1 2, __call__ at 1. rewrite Hc.
  destruct (buffer_start st hs expects s) as [[[]|e] s1] eqn:Eb; [|done]. apply Hrest.
  by rewrite (buffer_start_completed _ _ _ _ _ _ Eb).
Qed.

(** ** A response on the wire *)

(** The fields of an application that leaves the framing to the sender. *)
Definition unframed (hs : list field) : Prop :=
  named (lit "content-length") hs = [] /\ named (lit "transfer-encoding") hs = [].

Definition framing_field (streamed : bool) (n : Z) : field :=
  if streamed then (lit "transfer-encoding", lit "chunked") else (lit "content-length", _content_length_bytes n).

(** The headers that go out. *)
Definition sent (hs : list field) (streamed : bool) (n : Z) : Headers :=
  _ensure_date_header (append_pair (framing_field streamed n).1 (framing_field streamed n).2 (HttpHeaders.__init__ hs)).

Lemma framing_sent status hs n streamed s :
  unframed hs -> 200 <= status ->
  _ensure_framing_headers status (HttpHeaders.__init__ hs) n streamed s =
    (append_pair (framing_field streamed n).1 (framing_field streamed n).2 (HttpHeaders.__init__ hs),
     if streamed then set_chunked s else s).
Proof.
  intros [Hcl Hte] Hs. unfold _ensure_framing_headers, _is_informational. rewrite (proj2 (Z.ltb_ge _ _)) by lia.
  rewrite !contains_named by apply init_index_ok. cbn [_list HttpHeaders.__init__]. rewrite Hcl, Hte.
  by destruct streamed.
Qed.

Lemma sent_list hs streamed n :
  exists date, _list (sent hs streamed n) = hs ++ framing_field streamed n :: date /\
    Forall (fun x => x = (lit "Date", http_date)) date /\ HttpHeaders.ok (sent hs streamed n).
Proof.
  assert (Hok : HttpHeaders.ok (append_pair (framing_field streamed n).1 (framing_field streamed n).2 (HttpHeaders.__init__ hs)))
    by apply append_pair_ok, init_index_ok.
  unfold sent, _ensure_date_header. destruct (__contains__ _ _).
  - exists []. split_and!; [|constructor|done]. cbn. by destruct (framing_field streamed n).
  - exists [(lit "Date", http_date)]. split_and!; [|by repeat constructor|by apply append_pair_ok].
    cbn. rewrite <- app_assoc. by destruct (framing_field streamed n).
Qed.

(** The framing fields are the ones the sender chose. *)
Lemma sent_framing hs streamed n :
  unframed hs ->
  getlist (lit "content-length") (sent hs streamed n) = (if streamed then [] else [framing_field false n]) /\
  getlist (lit "transfer-encoding") (sent hs streamed n) = (if streamed then [framing_field true n] else []).
Proof.
  intros [Hcl Hte]. destruct (sent_list hs streamed n) as (date & Hl & Hd & Hok).
  rewrite !getlist_named, Hl by done. change (framing_field streamed n :: date) with ([framing_field streamed n] ++ date).
  rewrite !named_app, Hcl, Hte.
  assert (Hdate : forall key, lower key <> lit "date" -> named key date = []).
  { clear -Hd. intros key Hk. unfold named. induction Hd as [|x date -> Hd IH]; [done|].
    rewrite filter_cons_False; [apply IH|]. intros E. apply Hk. by rewrite <- E. }
  rewrite !Hdate by done. destruct streamed; by split.
Qed.

(** What a body event adds to a chunked message. *)
Definition frame (content : bytes) : bytes := if bool_decide (content = []) then [] else chunk content.

Lemma frames_body cs :
  Forall (fun c => zlen c < 2 ^ 64) cs -> Http1Body.chunked_body (mjoin (frame <$> cs) ++ last_chunk) (mjoin cs).
Proof.
  induction 1 as [|c cs Hc _ IH].
  - apply (Http1Body.last_chunk ([48] ++ _CRLF) []); [|constructor]. apply (Http1Body.digit_line 48). decide_it.
  - cbn [fmap list_fmap mjoin list_join]. rewrite <- app_assoc. unfold frame at 1.
    destruct (bool_decide_reflect (c = [])) as [->|Hne]; [exact IH|]. unfold chunk. rewrite <- !app_assoc, app_assoc.
    assert (0 < zlen c) by (destruct c; [done|unfold zlen; cbn; lia]).
    apply (Http1Body.more_chunk (zlen c)); [done|apply size_line; lia|done|exact IH].
Qed.

(** A sender in the middle of a chunked response, over an open transport. *)
Record streaming (s : t) : Prop := mkStreaming {
  st_open : _closed s = false;
  st_faults : _faults s = [];
  st_buffered : _buffered s = None;
  st_chunked : _chunked s = true;
  st_expect : _expect_trailers s = false;
  st_completed : _completed s = false
}.

Lemma write_open data s : _closed s = false -> _faults s = [] -> _guarded_write data s = set_wire (wire s ++ data) [] s.
Proof. intros H1 H2. unfold _guarded_write. by rewrite H1, H2. Qed.

Lemma set_wire_self s : _faults s = [] -> set_wire (wire s ++ []) [] s = s.
Proof. intros H. rewrite app_nil_r. destruct s. cbn in *. by subst. Qed.

(** One body event of it. *)
Lemma body_streaming c more s :
  streaming s ->
  exists s', _handle_body_content c more s = (Ok tt, s') /\
    wire s' = wire s ++ (if _head_mode s then [] else frame c ++ (if more then [] else last_chunk)) /\
    _head_mode s' = _head_mode s /\ (if more then streaming s' else _completed s' = true).
Proof.
  intros Hs. pose proof Hs as [Ho Hf Hb Hc He Hd]. unfold _handle_body_content. rewrite Hb, Hc, He. unfold frame, sbind, supdate, sret, _write.
  assert (Hpre : forall data, streaming (set_wire (wire s ++ data) [] s)) by by constructor.
  destruct (_head_mode s) eqn:Eh.
  - destruct more; cbn [negb]; eexists; (split; [reflexivity|]); cbn; by rewrite app_nil_r.
  - destruct (bool_decide (c = [])), more; cbn [negb andb]; unfold supdate; rewrite ?write_open by done;
      eexists; (split; [reflexivity|]); cbn [wire set_wire set_completed _head_mode _completed]; rewrite ?app_nil_r; auto.
Qed.

Lemma rest_streaming cs last junk s :
  streaming s ->
  exists s', send_all (((fun c => ResponseBody c true) <$> cs) ++ ResponseBody last false :: junk) s = (Ok tt, s') /\
    wire s' = wire s ++ (if _head_mode s then [] else mjoin (frame <$> (cs ++ [last])) ++ last_chunk).
Proof.
  revert s. induction cs as [|c cs IH]; intros s Hs; cbn [fmap list_fmap app send_all]; unfold sbind at 1, __call__ at 1;
    rewrite (st_completed _ Hs).
  - destruct (body_streaming last false s Hs) as (s' & -> & Hw & _ & Hc). exists s'.
    split; [by apply send_all_completed|]. rewrite Hw. destruct (_head_mode s); [done|].
    cbn [mjoin list_join]. by rewrite app_nil_r.
  - destruct (body_streaming c true s Hs) as (s' & -> & Hw & Hh & Hs'). destruct (IH s' Hs') as (s2 & -> & Hw2).
    exists s2. split; [done|]. rewrite Hw2, Hw, Hh. destruct (_head_mode s); [by rewrite !app_nil_r|].
    cbn [mjoin list_join]. by rewrite app_nil_r, !app_assoc.
Qed.

(** A sender reset for a request, over an open transport. *)
Record ready (s : t) : Prop := mkReady {
  rd_open : _closed s = false;
  rd_faults : _faults s = [];
  rd_buffered : _buffered s = None;
  rd_chunked : _chunked s = false;
  rd_expect : _expect_trailers s = false;
  rd_completed : _completed s = false
}.

(** The events of one response: whole, or a start and its body, chunk by
    chunk; and whatever else the application sends after it. *)
Inductive response : list send_event -> Z -> list field -> bytes -> bool -> Prop :=
| whole st hs body junk : response (SendBytes body st hs :: junk) st hs body false
| in_parts st hs cs last junk :
    phrase st <> None ->
    response (ResponseStart st hs false :: ((fun c => ResponseBody c true) <$> cs) ++ ResponseBody last false :: junk)
      st hs (mjoin cs ++ last) (negb (bool_decide (cs = []))).

Definition interims (ints : list (Z * list field)) : list send_event := (fun x => SendBytes [] x.1 x.2) <$> ints.

Definition interim_heads (ints : list (Z * list field)) : bytes :=
  mjoin ((fun x => _render_start x.1 (_ensure_date_header (HttpHeaders.__init__ x.2))) <$> ints).

Lemma send_interims ints es s :
  Forall (fun x => x.1 < 200) ints -> ready s ->
  exists s1, send_all (interims ints ++ es) s = send_all es s1 /\ ready s1 /\ _head_mode s1 = _head_mode s /\
    _started s1 = _started s /\ wire s1 = wire s ++ interim_heads ints.
Proof.
  intros Hi. revert s. induction Hi as [|[st hs] ints Hst _ IH]; intros s Hs.
  - exists s. cbn. by rewrite app_nil_r.
  - pose proof Hs as [Ho Hf Hb Hc He Hd]. cbn [interims fmap list_fmap app send_all fst snd] in *. unfold sbind at 1, __call__ at 1.
    rewrite Hd. unfold sbind at 1, _flush, _ensure_framing_headers.
    assert (Hinf : _is_informational st = true) by (unfold _is_informational; lia). rewrite Hinf, Hc.
    set (head := _render_start _ _).
    assert (Hw : (if _head_mode s then _write head s else if bool_decide (@nil Z = []) then _write head s else _write (head ++ []) s)
      = (Ok tt, set_wire (wire s ++ head) [] s)).
    { unfold _write, supdate. rewrite write_open by done. by destruct (_head_mode s). }
    cbn [zlen length] in *. rewrite Hw. unfold supdate.
    destruct (IH (set_wire (wire s ++ head) [] s)) as (s1 & H1 & H2 & H3 & H4 & H5); [by constructor|].
    exists s1. split_and!; try done. rewrite H5. cbn [wire set_wire]. by rewrite <- app_assoc.
Qed.

(** The flush of the start with the first body event. *)
Lemma flush_ready status hs c more s :
  _closed s = false -> _faults s = [] -> _chunked s = false -> _expect_trailers s = false -> unframed hs -> 200 <= status ->
  _flush status (HttpHeaders.__init__ hs) c more s =
    (Ok tt, set_wire (wire s ++ _render_start status (sent hs more (zlen c)) ++
       (if _head_mode s then [] else if more then frame c else c)) [] ((if more then set_chunked else id) (set_started s))).
Proof.
  intros Ho Hf Hc He Hu Hst. unfold _flush, _is_informational. rewrite (proj2 (Z.ltb_ge status 200)) by lia.
  rewrite framing_sent by done. fold (sent hs more (zlen c)). set (head := _render_start _ _). unfold frame, _write, supdate.
  destruct more; cbn [_head_mode set_chunked set_started _chunked _expect_trailers id]; rewrite ?Hc; cbn [negb andb];
    destruct (_head_mode s), (bool_decide_reflect (c = [])) as [->|]; rewrite write_open by done;
    cbn [wire set_chunked set_started]; by rewrite ?app_nil_r.
Qed.

(** The octets of a response: its body as it is, or in chunks. *)
Lemma send_response_frames es st hs content (streamed : bool) s :
  response es st hs content streamed -> ready s -> unframed hs -> 200 <= st -> zlen content < 2 ^ 64 ->
  exists s' w, send_all es s = (Ok tt, s') /\
    wire s' = wire s ++ _render_start st (sent hs streamed (zlen content)) ++ (if _head_mode s then [] else w) /\
    if streamed then exists cs, w = mjoin (frame <$> cs) ++ last_chunk /\ mjoin cs = content /\ Forall (fun c => zlen c < 2 ^ 64) cs
    else w = content.
Proof.
  intros Hr Hs Hu Hst Hlen. pose proof Hs as [Ho Hf Hb Hc He Hd]. destruct Hr as [st hs body junk|st hs cs last junk Hph].
  - cbn [send_all]. unfold sbind at 1, __call__ at 1. rewrite Hd. unfold sbind at 1. rewrite flush_ready by done.
    unfold supdate, _is_informational. rewrite (proj2 (Z.ltb_ge st 200)) by lia.
    eexists _, body. split; [by apply send_all_completed|]. done.
  - cbn [send_all]. unfold sbind at 1, __call__ at 1. rewrite Hd. unfold buffer_start.
    destruct (phrase st) eqn:Eph; [|done]. unfold supdate.
    set (s1 := set_expect false (set_buffered (Some (st, HttpHeaders.__init__ hs)) s)).
    destruct cs as [|c cs]; cbn [fmap list_fmap app send_all]; unfold sbind at 1, __call__ at 1; cbn [_completed s1 set_expect set_buffered];
      rewrite Hd; unfold _handle_body_content; cbn [_buffered s1 set_expect set_buffered];
      unfold sbind at 1; fold s1; rewrite (flush_ready st hs _ _ s1) by done; unfold sbind, supdate; cbn [negb].
    + eexists _, last. split; [by apply send_all_completed|]. rewrite (bool_decide_true ([] = [])) by done. done.
    + set (s2 := set_buffered None _).
      destruct (rest_streaming cs last junk s2) as (s' & -> & Hw); [by constructor|].
      exists s', (mjoin (frame <$> (c :: cs ++ [last])) ++ last_chunk). split; [done|].
      rewrite (bool_decide_false (c :: cs = [])) by done. cbn [negb]. split.
      * rewrite Hw. cbn [wire s2 set_buffered set_wire s1 set_expect _head_mode set_started set_chunked]. rewrite <- !app_assoc. f_equal. f_equal.
        destruct (_head_mode s); [done|]. cbn [fmap list_fmap mjoin list_join]. by rewrite <- app_assoc.
      * assert (Hm : mjoin (c :: cs) ++ last = mjoin (c :: cs ++ [last])).
        { cbn [mjoin list_join]. rewrite <- app_assoc. f_equal. rewrite join_app. cbn. by rewrite app_nil_r. }
        rewrite Hm. exists (c :: cs ++ [last]). split_and!; [done..|]. apply Forall_forall. intros x Hx.
        rewrite Hm in Hlen. eapply Z.le_lt_trans; [by apply zlen_join_elem|exact Hlen].
Qed.

Lemma send_response es st hs content (streamed : bool) s :
  response es st hs content streamed -> ready s -> unframed hs -> 200 <= st -> zlen content < 2 ^ 64 ->
  exists s' w, send_all es s = (Ok tt, s') /\
    wire s' = wire s ++ _render_start st (sent hs streamed (zlen content)) ++ (if _head_mode s then [] else w) /\
    if streamed then Http1Body.chunked_body w content else w = content.
Proof.
  intros Hr Hs Hu Hst Hlen. destruct (send_response_frames es st hs content streamed s Hr Hs Hu Hst Hlen) as (s' & w & H1 & H2 & Hw).
  exists s', w. split; [done|]. split; [done|]. destruct streamed; [|done]. destruct Hw as (cs & -> & <- & Hcs). by apply frames_body.
Qed.

(** What goes out frames its content without ambiguity, in the terms of the
    server's own parser. *)
Lemma sent_message hs (streamed : bool) content w :
  unframed hs -> zlen content < 2 ^ 64 -> (if streamed then Http1Body.chunked_body w content else w = content) ->
  exists n, framed (sent hs streamed (zlen content)) n /\
    forall rest, Http1Loop.message (sent hs streamed (zlen content)) n (w ++ rest) rest content.
Proof.
  intros Hu Hlen Hw. destruct (sent_framing hs streamed (zlen content) Hu) as [Hcl Hte]. pose proof (zlen_nonneg content).
  unfold framed, Http1Loop.message. rewrite Hcl, Hte. destruct streamed.
  - exists 0. split.
    + right. right. split_and!; [done..|]. eexists. split; [reflexivity|]. vm_compute. reflexivity.
    + intros rest. rewrite bool_decide_false by done. by exists w.
  - exists (zlen content). subst w. split; [|intros rest; by rewrite bool_decide_true]. right. left. split_and!; [done..|].
    repeat constructor; by apply length_canonical.
Qed.

(** What the application answers is what goes out, framed.  After a reset,
    over an open transport, any interim responses followed by the events of one
    response — whole, or a start and body chunks of any sizes, empty ones
    included — followed by anything at all put on the wire exactly the interim
    heads, the final head and, unless the request was a HEAD, a body that the
    headers that were sent frame without ambiguity: the framing the server's
    own parser accepts, and a message whose content is the application's. *)
Theorem response_framed ints es st hs content streamed s :
  ready s -> Forall (fun x => x.1 < 200) ints -> response es st hs content streamed -> unframed hs -> 200 <= st ->
  zlen content < 2 ^ 64 ->
  exists s' w, send_all (interims ints ++ es) s = (Ok tt, s') /\
    wire s' = wire s ++ interim_heads ints ++ _render_start st (sent hs streamed (zlen content)) ++
      (if _head_mode s then [] else w) /\
    exists n, framed (sent hs streamed (zlen content)) n /\
      forall rest, Http1Loop.message (sent hs streamed (zlen content)) n (w ++ rest) rest content.
Proof.
  intros Hs Hi Hr Hu Hst Hlen. destruct (send_interims ints es s Hi Hs) as (s1 & -> & Hs1 & Hh & _ & Hw1).
  destruct (send_response es st hs content streamed s1 Hr Hs1 Hu Hst Hlen) as (s' & w & -> & Hw & Hm).
  exists s', w. split; [done|]. rewrite Hw, Hw1, Hh, <- !app_assoc. split; [done|]. by apply sent_message.
Qed.

(** What the sender frames, the body reader reads.  The response of
    [response_framed] to a request other than HEAD, followed by any octets
    [rest]: the recipient bound to the headers that were sent delivers, to a
    reader that reads long enough, exactly the application's content, and
    leaves exactly [rest] for the next message. *)
Theorem response_roundtrip es st hs content streamed s cfg k max_drain rest :
  ready s -> response es st hs content streamed -> unframed hs -> 200 <= st -> zlen content < 2 ^ 64 -> _head_mode s = false ->
  Http1Body._min_rate cfg = 0 -> Http1Body._max_body cfg = 0 -> 0 < Http1Body._chunk_size cfg -> 0 < Http1Body._chunk_max cfg ->
  (length content < k)%nat -> 0 <= max_drain ->
  exists s' w r cs r1 r2, send_all es s = (Ok tt, s') /\
    wire s' = wire s ++ _render_start st (sent hs streamed (zlen content)) ++ w /\
    Http1Body.bind cfg (w ++ rest) [] (sent hs streamed (zlen content)) = Ok r /\
    Http1Body.handler_reads k r = (cs, r1) /\ mjoin cs = content /\
    Http1Body.settle max_drain r1 = (true, r2) /\ Http1Body._reader r2 = rest.
Proof.
  intros Hs Hr Hu Hst Hlen Hh Hrate Hmax Hsize Hcmax Hk Hd.
  destruct (send_response es st hs content streamed s Hr Hs Hu Hst Hlen) as (s' & w & Hsend & Hw & Hm). rewrite Hh in Hw.
  destruct (sent_message hs streamed content w Hu Hlen Hm) as (n & Hf & Hmsg).
  destruct (Http1Loop.bind_framed cfg (w ++ rest) [] _ _ Hf Hsize Hcmax)
    as (r & Hb & Hhr & Hrr & Hrw & Hcfg & Hseen & Howes).
  assert (Hsees : Http1Body.sees r (w ++ rest)).
  { split; [|by rewrite Hrr]. split; rewrite ?Hcfg, ?Hrw; [done|]. right. apply Forall_nil_2. }
  destruct (Http1Body.handler_reads k r) as [cs r1] eqn:Eh.
  destruct (Http1Body.served_complete k max_drain r (w ++ rest) rest content cs r1 Hsees Hhr) as (b1 & Hc & Hb1 & Hset);
    [by apply Howes|left; by rewrite Hcfg|done|]. specialize (Hb1 Hk). subst b1. rewrite app_nil_r in Hc.
  destruct Hset as (r2 & H2 & [_ Hrest] & _); [done|]. exists s', w, r, cs, r1, r2. by split_and!.
Qed.

End Sender.

(** ** Samples *)

Definition sample_date : bytes := lit "Thu, 01 Jan 1970 00:00:00 GMT".
Definition sample_fields : list field := [(lit "Content-Type", lit "text/plain")].

Definition sample_events : list send_event :=
  [ResponseStart 200 sample_fields false; ResponseBody (lit "hello, ") true; ResponseBody [] true;
   ResponseBody (lit "world") false; ResponseBody (lit "more") false].

Lemma sample_ready : ready (__init__ []).
Proof. by constructor. Qed.

Lemma sample_response : response sample_events 200 sample_fields (lit "hello, world") true.
Proof. by apply (in_parts 200 sample_fields [lit "hello, "; []] (lit "world") [ResponseBody (lit "more") false]). Qed.

Lemma sample_unframed : unframed sample_fields.
Proof. by split. Qed.

Lemma response_framed_witness :
  exists s' w, send_all sample_date (interims [(100, [])] ++ sample_events) (__init__ []) = (Ok tt, s') /\
    wire s' = interim_heads sample_date [(100, [])] ++ _render_start 200 (sent sample_date sample_fields true 12) ++ w /\
    exists n, framed (sent sample_date sample_fields true 12) n /\
      forall rest, Http1Loop.message (sent sample_date sample_fields true 12) n (w ++ rest) rest (lit "hello, world").
Proof.
  apply (response_framed sample_date [(100, [])] sample_events 200 sample_fields (lit "hello, world") true (__init__ [])).
  - exact sample_ready.
  - by repeat constructor.
  - exact sample_response.
  - exact sample_unframed.
  - lia.
  - done.
Defined.

Lemma response_roundtrip_witness :
  exists s' w r cs r1 r2, send_all sample_date sample_events (__init__ []) = (Ok tt, s') /\
    wire s' = _render_start 200 (sent sample_date sample_fields true 12) ++ w /\
    Http1Body.bind Http1Body.sample_config (w ++ lit "HTTP") [] (sent sample_date sample_fields true 12) = Ok r /\
    Http1Body.handler_reads 13 r = (cs, r1) /\ mjoin cs = lit "hello, world" /\
    Http1Body.settle 0 r1 = (true, r2) /\ Http1Body._reader r2 = lit "HTTP".
Proof.
  apply (response_roundtrip sample_date sample_events 200 sample_fields (lit "hello, world") true (__init__ [])
    Http1Body.sample_config 13 0 (lit "HTTP")); try done.
  - exact sample_response.
  - cbn. lia.
Defined.

(** ** What misuse and the corners of the protocol do *)

(** The octets after the head, for events sent to a new sender. *)
Definition after (s : t) (es : list send_event) (head : bytes) : option bytes :=
  let w := wire (send_all sample_date es s).2 in
  if bool_decide (head `prefix_of` w) then Some (drop (length head) w) else None.

(** A streamed response that announces trailers and ends its body before it
    sends them: the last chunk is withheld for the trailers, the trailers are
    dropped because the body ended, and the message never ends. *)
Lemma announced_trailers_lost :
  after (__init__ [])
    [ResponseStart 200 [] true; ResponseBody (lit "a") true; ResponseBody (lit "b") false; ResponseTrailers [(lit "x", lit "y")]]
    (_render_start 200 (sent sample_date [] true 0)) = Some (chunk (lit "a") ++ chunk (lit "b")).
Proof. vm_compute. reflexivity. Qed.

(** Trailers after a HEAD request are written although the body is not. *)
Lemma trailers_after_head :
  after (set_head_mode true (__init__ []))
    [ResponseStart 200 [] true; ResponseBody (lit "a") true; ResponseTrailers []]
    (_render_start 200 (sent sample_date [] true 0)) = Some last_chunk.
Proof. vm_compute. reflexivity. Qed.

(** A length declared by the application goes out next to the chunked framing. *)
Lemma length_with_chunked :
  _ensure_framing_headers 200 (HttpHeaders.__init__ [(lit "content-length", lit "2")]) 1 true (__init__ []) =
  (append_pair (lit "transfer-encoding") (lit "chunked") (HttpHeaders.__init__ [(lit "content-length", lit "2")]),
   set_chunked (__init__ [])).
Proof. vm_compute. reflexivity. Qed.

(** A 204 is sent with a Content-Length. *)
Lemma no_content_has_length :
  after (__init__ []) [SendBytes [] 204 []]
    (_status_line 204 ++ lit "content-length: 0" ++ _CRLF ++ lit "Date: " ++ sample_date ++ _CRLF ++ _CRLF) = Some [].
Proof. vm_compute. reflexivity. Qed.

(** An error response after the start of a streamed one: a second head inside
    the chunked body of the first. *)
Lemma second_head_inside_body :
  let oops := [(lit "content-length", lit "4")] in
  after (__init__ [])
    [ResponseStart 200 [] false; ResponseBody (lit "a") true; SendNative (complete 500 oops (Some (lit "oops")))]
    (_render_start 200 (sent sample_date [] true 0)) =
  Some (chunk (lit "a") ++ _render_start 500 (_ensure_date_header sample_date (HttpHeaders.__init__ oops)) ++
        chunk (lit "oops") ++ last_chunk).
Proof. vm_compute. reflexivity. Qed.

End Http1Sender.
