(* ===== verification/H2Request.v ===== *)
(** * From an HTTP/2 header block to a request (blackbull/server/parser.py)

    [parse_headers] with its host check and target split, and the two readings
    of the request's headers the frame loop makes
    ([_extract_content_length], [_resolve_priority] of
    blackbull/server/http2_actor.py).  [urlsplit] of the standard library is
    written out as far as the code uses it; its check of a network location
    with brackets or non-ASCII characters (IP address syntax, NFKC tables) is
    the parameter [netloc_ok]. *)

From Stdlib Require Import ZArith Lia.
From stdpp Require Import base tactics numbers option strings sets list.
From S2P Require Import Prelude PyLib PyText PyBytes StructuredFields H2Frames HttpHeaders Http1Parse.
Import H2Frames.

Module H2Request.

(** ** [urllib.parse] on text *)

(** [_WHATWG_C0_CONTROL_OR_SPACE], [_UNSAFE_URL_BYTES_TO_REMOVE] and
    [scheme_chars]. *)
Definition C0_CONTROL_OR_SPACE : list Z := seqZ 0 33.
Definition UNSAFE : list Z := [9; 13; 10].
Definition alpha (c : Z) : bool := ((65 <=? c) && (c <=? 90)) || ((97 <=? c) && (c <=? 122)).
Definition scheme_char (c : Z) : bool := alpha c || is_digit c || bool_decide (c ∈ lit "+-.").

(** [url] without a leading scheme. *)
Definition after_scheme (url : pystr) : pystr :=
  match find_char 58 url, url with
  | Some i, c :: _ =>
      if (0 <? i)%nat && alpha c && forallb scheme_char (take i url) then drop (S i) url else url
  | _, _ => url
  end.

(** [_splitnetloc(url, 2)] *)
Fixpoint netloc_end (url : pystr) : nat :=
  match url with
  | [] => 0
  | c :: url => if bool_decide (c ∈ lit "/?#") then 0 else S (netloc_end url)
  end.

Section Request.
Context (netloc_ok : pystr -> bool).

(** The errors [urlsplit] raises for a network location. *)
Definition check_netloc (netloc : pystr) : result unit :=
  if negb (Bool.eqb (has_char 91 netloc) (has_char 93 netloc)) then Raise ValueError
  else if (has_char 91 netloc || negb (forallb (fun c => c <? 128) netloc)) && negb (netloc_ok netloc) then Raise ValueError
  else Ok tt.

(** [urlsplit(raw).path] and [.query] *)
Definition urlsplit (raw : pystr) : result (pystr * pystr) :=
  let url := after_scheme (translate UNSAFE (lstrip C0_CONTROL_OR_SPACE raw)) in
  let* url :=
    if startswith url (lit "//") then
      let n := netloc_end (drop 2 url) in
      let* _ := check_netloc (take n (drop 2 url)) in Ok (drop n (drop 2 url))
    else Ok url in
  let '(url, _, _) := partition_char 35 url in
  let '(path, _, query) := partition_char 63 url in
  Ok (path, query).

Definition _split_h2_path (raw : pystr) : result (pystr * bytes * bytes) :=
  let* '(path, query) := urlsplit raw in
  let* raw_path := utf8_encode path in
  let* query_string := utf8_encode query in
  Ok (unquote_text path, raw_path, query_string).

(** ** The request *)

(** The fields of [Connection] the parser fills. *)
Record Connection : Type := mkConnection {
  type_ : pystr;
  http_version : pystr;
  method : pystr;
  scheme : pystr;
  path : pystr;
  raw_path : bytes;
  query_string : bytes;
  headers : HttpHeaders.t
}.

(** [frame.pseudo_headers.get(p)] *)
Definition pseudo (p : PseudoHeaders) (h : headers_frame) : option pystr := dget (pseudo_headers h) p.

(** The header list for the application, or the frame marked malformed. *)
Definition _request_headers_with_host (h : headers_frame) (require_present : bool)
    : result (headers_frame * option (list field)) :=
  let refuse := Ok (mark_malformed h, None) in
  match pseudo AUTHORITY h with
  | Some authority =>
      let* value := utf8_encode authority in
      if bool_decide (value = []) then refuse
      else if Http1Parse._HOST_FORBIDDEN_RE value then refuse
      else Ok (h, Some (filter (fun kv => kv.1 <> lit "host") (H2Frames.headers h) ++ [(lit "host", value)]))
  | None =>
      match filter (fun kv => kv.1 = lit "host") (H2Frames.headers h) with
      | _ :: _ :: _ => refuse
      | [] => if require_present then refuse else Ok (h, Some (H2Frames.headers h))
      | [(_, v)] =>
          let value := strip OWS v in
          if bool_decide (value = []) then refuse
          else if Http1Parse._HOST_FORBIDDEN_RE value then refuse
          else Ok (h, Some (H2Frames.headers h))
      end
  end.

(** The pseudo-header checks of [parse_headers]. *)
Definition pseudo_missing (h : headers_frame) : bool :=
  bool_decide (pseudo STATUS h <> None)
  || match pseudo METHOD h with
     | None => true
     | Some method =>
         negb (bool_decide (method = lit "CONNECT"))
         && (bool_decide (pseudo SCHEME h = None) || match pseudo PATH h with None => true | Some p => bool_decide (p = []) end)
     end.

(** [if p := frame.pseudo_headers.get(PATH): ... = _split_h2_path(p)] *)
Definition target (h : headers_frame) : result (pystr * bytes * bytes) :=
  match pseudo PATH h with
  | Some ((_ :: _) as p) => _split_h2_path p
  | _ => Ok ([], [], [])
  end.

Definition parse_headers (h : headers_frame) : result (headers_frame * option Connection) :=
  if malformed h then Ok (h, None)
  else if pseudo_missing h then Ok (mark_malformed h, None)
  else
    let method := default [] (pseudo METHOD h) in
    let protocol := default [] (pseudo PROTOCOL h) in
    if bool_decide (method = lit "CONNECT") && bool_decide (protocol = lit "websocket") then
      let scheme_pseudo := default (lit "https") (pseudo SCHEME h) in
      let* '(path, raw_path, query_string) := target h in
      let* '(h, raw_headers) := _request_headers_with_host h false in
      match raw_headers with
      | None => Ok (h, None)
      | Some l =>
          Ok (h, Some (mkConnection (lit "websocket") (lit "2") method
                         (if bool_decide (scheme_pseudo = lit "https") then lit "wss" else lit "ws")
                         path raw_path query_string (HttpHeaders.from_lowered l)))
      end
    else
      let* '(path, raw_path, query_string) := target h in
      let scheme := match pseudo SCHEME h with Some ((_ :: _) as s) => s | _ => lit "https" end in
      let* '(h, raw_headers) :=
        if bool_decide (method = lit "CONNECT") then Ok (h, Some (H2Frames.headers h))
        else _request_headers_with_host h (bool_decide (scheme ∈ lit <$> ["http"; "https"]%string)) in
      match raw_headers with
      | None => Ok (h, None)
      | Some l =>
          Ok (h, Some (mkConnection (lit "http") (lit "2") (match method with [] => lit "HEAD" | _ => method end)
                         scheme path raw_path query_string (HttpHeaders.from_lowered l)))
      end.

(** ** What the frame loop reads of the headers *)

Fixpoint content_length (l : list field) : option Z :=
  match l with
  | [] => None
  | (k, v) :: l =>
      if bool_decide (k = lit "content-length") then
        match int_of_bytes v with Ok n => if 0 <=? n then Some n else None | Raise _ => None end
      else content_length l
  end.

Definition _extract_content_length (conn : Connection) : option Z := content_length (HttpHeaders._list (headers conn)).

Definition _DEFAULT_PRIORITY : priority := mkPriority 3 false.

Definition _resolve_priority (hint : option priority) (conn : Connection) : result priority :=
  match hint with
  | Some p => Ok p
  | None =>
      match HttpHeaders.get (lit "priority") [] (headers conn) with
      | [] => Ok _DEFAULT_PRIORITY
      | raw => parse_priority_field (ascii_replace raw)
      end
  end.

(** ** The contract: no request exactly for a malformed frame *)

(** A frame and what became of it: the same, or the same marked malformed. *)
Definition marked (h h' : headers_frame) : Prop := h' = h \/ h' = mark_malformed h.

Lemma with_host_contract h req h' o :
  malformed h = false -> _request_headers_with_host h req = Ok (h', o) -> marked h h' /\ (o = None <-> malformed h' = true).
Proof.
  intros Hm. unfold _request_headers_with_host, marked. intros H.
  repeat first [ case_match | progress inv_ok ]; try discriminate; simplify_eq; rewrite ?Hm; cbn [malformed mark_malformed];
    split; auto; split; by intros.
Qed.

(** The tail of both branches of the parser. *)
Lemma host_step h req (f : list field -> Connection) h' c :
  malformed h = false ->
  (let* '(h, raw_headers) := _request_headers_with_host h req in
   match raw_headers with None => Ok (h, None) | Some l => Ok (h, Some (f l)) end) = Ok (h', c) ->
  marked h h' /\ (c = None <-> malformed h' = true) /\
  forall conn, c = Some conn -> exists l, conn = f l /\ _request_headers_with_host h req = Ok (h', Some l).
Proof.
  intros Hm H. apply rbind_Ok in H as ([h1 o] & Hh & H). destruct (with_host_contract h req h1 o Hm Hh) as [Hk Ho].
  destruct o as [l|]; simplify_eq; (split; [done|]).
  - split; [by rewrite <- Ho|]. intros conn [= <-]. by exists l.
  - split; [by rewrite <- Ho|done].
Qed.

(** The values under [host] in a header list. *)
Definition hosts (l : list field) : list field := filter (fun kv => kv.1 = lit "host") l.

Definition host_ok (v : bytes) : Prop := strip OWS v <> [] /\ Http1Parse._HOST_FORBIDDEN_RE (strip OWS v) = false.

Lemma unforbidden_strip v : Http1Parse._HOST_FORBIDDEN_RE v = false -> strip OWS v = v.
Proof.
  intros Hf.
  assert (Hn : forall c, c ∈ v -> c ∉ OWS).
  { intros c Hc Ho. enough (Http1Parse._HOST_FORBIDDEN_RE v = true) by congruence.
    apply existsb_exists. exists c. split; [by apply list_elem_of_In|]. apply bool_decide_true.
    unfold OWS in Ho. apply elem_of_cons in Ho as [->|Ho%list_elem_of_singleton]; [decide_it|subst; decide_it]. }
  apply strip_id; intros c Hc; apply Hn.
  - destruct v; [done|]. injection Hc as ->. set_solver.
  - apply last_Some in Hc as [l ->]. set_solver.
Qed.

Lemma hosts_replaced l v : hosts (filter (fun kv : field => kv.1 <> lit "host") l ++ [(lit "host", v)]) = [(lit "host", v)].
Proof.
  unfold hosts. rewrite filter_app, list_filter_filter.
  rewrite (list_filter_iff _ (fun _ => False)) by naive_solver. by induction l.
Qed.

Lemma with_host_hosts h req h' l :
  _request_headers_with_host h req = Ok (h', Some l) ->
  zlen (hosts l) <= 1 /\ (req = true -> exists v, hosts l = [(lit "host", v)] /\ host_ok v).
Proof.
  unfold _request_headers_with_host. destruct (pseudo AUTHORITY h) as [authority|].
  - intros H. apply rbind_Ok in H as (a & Ha & H). case_bool_decide; [done|]. destruct (Http1Parse._HOST_FORBIDDEN_RE a) eqn:Hf; [done|]. simplify_eq.
    rewrite hosts_replaced. split; [done|]. intros _. exists a. split; [done|]. unfold host_ok.
    by rewrite (unforbidden_strip _ Hf).
  - fold (hosts (H2Frames.headers h)). destruct (hosts (H2Frames.headers h)) as [|[k v] [|]] eqn:Hh; [| |done].
    + destruct req; intros; simplify_eq. by rewrite Hh.
    + case_bool_decide; [done|]. destruct (Http1Parse._HOST_FORBIDDEN_RE _) eqn:Hf; [done|]. intros; simplify_eq. rewrite Hh.
      split; [done|]. intros _. exists v. split; [|done].
      assert (Hin : (k, v) ∈ hosts (H2Frames.headers h')) by (rewrite Hh; set_solver).
      apply list_elem_of_filter in Hin as [Hk _]. cbn in Hk. by subst.
Qed.

Lemma missing_spec h :
  pseudo_missing h = false ->
  pseudo STATUS h = None /\ exists method, pseudo METHOD h = Some method /\
    (method <> lit "CONNECT" -> exists s, pseudo SCHEME h = Some s /\ exists p, pseudo PATH h = Some p /\ p <> []).
Proof.
  unfold pseudo_missing. intros [Hst%bool_decide_eq_false Hm]%orb_false_iff. apply dec_stable in Hst.
  split; [done|]. destruct (pseudo METHOD h) as [method|]; [|done]. exists method. split; [done|]. intros Hc.
  rewrite bool_decide_false in Hm by done. cbn [negb andb] in Hm. apply orb_false_iff in Hm as [H1 H2].
  destruct (pseudo SCHEME h) as [s|]; [|by rewrite bool_decide_true in H1]. exists s. split; [done|].
  destruct (pseudo PATH h) as [p|]; [|done]. exists p. split; [done|]. by apply bool_decide_eq_false in H2.
Qed.

(** C20: the parser's contract with the frame loop.  For every frame: when
    [parse_headers] returns, it returns no request exactly when the frame is
    then malformed, and it changes nothing else of the frame; a request it
    returns has a method and, unless it is a CONNECT, a scheme, a non-empty
    target and, for http and https, a host without userinfo, delimiter or space,
    no two hosts reaching the application. *)
Theorem request_contract h h' c :
  parse_headers h = Ok (h', c) ->
  marked h h' /\ (c = None <-> malformed h' = true) /\
  match c with
  | None => True
  | Some conn =>
      pseudo STATUS h = None /\ pseudo METHOD h <> None /\
      (pseudo METHOD h <> Some (lit "CONNECT") ->
       pseudo SCHEME h <> None /\ (exists p, pseudo PATH h = Some p /\ p <> []) /\
       zlen (hosts (HttpHeaders._list (headers conn))) <= 1 /\
       (pseudo SCHEME h = Some (lit "http") \/ pseudo SCHEME h = Some (lit "https") ->
        exists v, hosts (HttpHeaders._list (headers conn)) = [(lit "host", v)] /\ host_ok v))
  end.
Proof.
  unfold parse_headers. destruct (malformed h) eqn:Hm.
  { intros [= <- <-]. split_and!; [by left|split; [done|congruence]|done]. }
  destruct (pseudo_missing h) eqn:Hp.
  { intros [= <- <-]. split_and!; [by right|by split|done]. }
  pose proof (missing_spec h Hp) as (Hstatus & meth & Hmeth & Hreq). rewrite Hmeth. cbv [default id].
  case_bool_decide as Hc; cbn [andb].
  - subst meth. case_bool_decide as Hw; intros H; apply rbind_Ok in H as ([[p rp] q] & _ & H).
    + apply host_step in H as (Hk & Ho & H); [|done]. split; [done|]. split; [done|]. destruct c as [conn|]; [|done].
      split; [done|]. split; [done|]. intros Hn. by destruct Hn.
    + cbn [rbind] in H. injection H as <- <-. split; [by left|]. split; [by rewrite Hm|].
      split; [done|]. split; [done|]. intros Hn. by destruct Hn.
  - intros H. apply rbind_Ok in H as ([[p rp] q] & _ & H).
    apply host_step in H as (Hk & Ho & H); [|done]. split; [done|]. split; [done|]. destruct c as [conn|]; [|done].
    split; [done|]. split; [done|]. intros _. destruct (H conn eq_refl) as (l & -> & Hh).
    destruct (Hreq Hc) as (s & Hs & pt & Hpt & Hne). apply with_host_hosts in Hh as [Hh1 Hh2].
    split; [by rewrite Hs|]. split; [by exists pt|]. split; [done|]. intros Hsch. apply Hh2. apply bool_decide_true.
    destruct Hsch as [E|E]; rewrite E; decide_it.
Qed.

(** ** ASCII targets *)

Lemma ascii_runs_ascii s : Forall ascii_char s -> s <> [] -> ascii_runs s = [(true, s)].
Proof.
  induction 1 as [|c s Hc Hs IH]; [done|]. intros _. cbn [ascii_runs].
  rewrite (proj2 (Z.ltb_lt c 128)) by (unfold ascii_char in Hc; lia). destruct s as [|d s]; [done|].
  rewrite IH by done. reflexivity.
Qed.

Lemma unquote_text_ascii s : Forall ascii_char s -> unquote_text s = unquote s.
Proof.
  intros Hs. unfold unquote_text, unquote, has_char. case_bool_decide as H; [|done].
  rewrite ascii_runs_ascii by (try done; by intros ->; apply not_elem_of_nil in H). cbn. by rewrite app_nil_r.
Qed.

Lemma translate_none del l : Forall (fun c => c ∉ del) l -> translate del l = l.
Proof. unfold translate. induction 1 as [|c l Hc _ IH]; [done|]. rewrite filter_cons_True by done. by rewrite IH. Qed.

(** The characters of a target: what [Http1Parse] admits. *)
Definition target_char (c : Z) : Prop := c ∈ Http1Parse._TARGET_ALLOWED_OCTETS.

Lemma target_char_range c : target_char c -> 0x21 <= c < 0x7F.
Proof. unfold target_char, Http1Parse._TARGET_ALLOWED_OCTETS. rewrite elem_of_seqZ. lia. Qed.

Lemma target_ascii l : Forall target_char l -> Forall ascii_char l.
Proof. intros H. eapply Forall_impl; [exact H|]. intros c Hc%target_char_range. unfold ascii_char. lia. Qed.

(** An origin-form target that does not begin with two slashes splits as HTTP/1.1
    splits it. *)
Lemma split_origin path query :
  head path = Some 47 -> startswith path (lit "//") = false -> Forall target_char path -> (35 ∉ path) -> (63 ∉ path) ->
  match query with Some q => Forall target_char q /\ (35 ∉ q) | None => True end ->
  _split_h2_path (Http1Parse.target_of path query) = Ok (unquote path, path, default [] query).
Proof.
  intros Hh Hss Hp H35 H63 Hq. unfold _split_h2_path, urlsplit. set (raw := Http1Parse.target_of path query).
  assert (Hraw : Forall target_char raw).
  { unfold raw, Http1Parse.target_of. destruct query as [q|]; [|done]. apply Forall_app. split; [done|].
    apply Forall_cons. split; [unfold target_char; decide_it|tauto]. }
  assert (Hhead : head raw = Some 47) by (unfold raw, Http1Parse.target_of; destruct path; [done|]; by destruct query).
  rewrite lstrip_id, translate_none.
  2:{ eapply Forall_impl; [exact Hraw|]. intros c Hc%target_char_range. unfold UNSAFE. intros Hin.
      repeat apply elem_of_cons in Hin as [->|Hin]; try lia. by apply not_elem_of_nil in Hin. }
  2:{ intros c. rewrite Hhead. intros [= <-]. decide_it. }
  assert (Hs : after_scheme raw = raw).
  { unfold after_scheme. destruct (find_char 58 raw); [|done]. destruct raw; [done|]. injection Hhead as ->.
    by rewrite andb_false_r. }
  rewrite Hs. assert (Hn : startswith raw (lit "//") = false).
  { apply bool_decide_eq_false in Hss. apply bool_decide_false. intros [k Hk]. apply Hss.
    unfold raw, Http1Parse.target_of in Hk. destruct query as [q|]; [|by exists k].
    destruct path as [|c1 [|c2 path]]; [done|discriminate|]. injection Hk as -> -> _. by exists path. }
  rewrite Hn. cbn [rbind].
  assert (H35r : 35 ∉ raw).
  { unfold raw, Http1Parse.target_of. destruct query as [q|]; [|done]. destruct Hq as [_ Hq]. set_solver by lia. }
  rewrite partition_absent by done.
  assert (Hpart : partition_char 63 raw = (path, match query with Some _ => true | None => false end, default [] query)).
  { unfold raw, Http1Parse.target_of. destruct query as [q|]; [by apply partition_found|by apply partition_absent]. }
  rewrite Hpart. cbn [rbind]. rewrite utf8_encode_ascii by by apply target_ascii. cbn [rbind].
  rewrite utf8_encode_ascii by (destruct query as [q|]; [by apply target_ascii, Hq|constructor]). cbn [rbind].
  by rewrite unquote_text_ascii by by apply target_ascii.
Qed.

(** ** The same request over both transports *)

Lemma content_length_named l :
  Forall (fun x => is_lower x.1) l ->
  content_length l = match HttpHeaders.named (lit "content-length") l with
                     | [] => None
                     | x :: _ => match int_of_bytes x.2 with Ok n => if 0 <=? n then Some n else None | Raise _ => None end
                     end.
Proof.
  induction 1 as [|[k v] l Hk Hl IH]; [done|]. cbn [content_length]. unfold HttpHeaders.named. rewrite filter_cons.
  cbn [fst] in *. change (lower (lit "content-length")) with (lit "content-length"). rewrite Hk.
  case_bool_decide as Hc; case_decide; try done.
Qed.

(** What a length field declares is what both parsers take. *)
Lemma declared_length l n :
  Forall (fun x => is_lower x.1) l -> Http1Parse.framed (HttpHeaders.from_lowered l) n ->
  HttpHeaders.getlist (lit "transfer-encoding") (HttpHeaders.from_lowered l) = [] -> default 0 (content_length l) = n.
Proof.
  intros Hl Hf Ht. unfold Http1Parse.framed in Hf. rewrite Ht, Http1Parse.getlist_lowered in Hf by done.
  rewrite content_length_named by done.
  destruct Hf as [(-> & _ & ->)|[(_ & Hne & Hc)|(_ & _ & te & ? & _)]]; [done| |done].
  destruct (HttpHeaders.named _ l) as [|x xs]; [done|]. apply Forall_cons in Hc as [[Hcan Hn] _].
  destruct (Http1Parse.int_of_canonical _ _ Hcan Hn) as [-> Hpos]. by rewrite (proj2 (Z.leb_le 0 n)).
Qed.

(** A header block that carries the request, with the scheme of its
    connection. *)
Definition carries (h : headers_frame) (ssl : bool) (method target host : bytes) (fields : list field) : Prop :=
  malformed h = false /\ pseudo STATUS h = None /\ pseudo METHOD h = Some method /\
  pseudo SCHEME h = Some (if ssl then lit "https" else lit "http") /\
  pseudo PATH h = Some target /\ pseudo AUTHORITY h = Some host /\ H2Frames.headers h = fields.

Lemma named_replaced others name v x :
  lower name = lit "host" ->
  HttpHeaders.named (lit "host") (Http1Parse.lowered (others ++ [(name, v)])) = [x] ->
  x = (lit "host", v) /\ filter (fun kv : field => kv.1 <> lit "host") (Http1Parse.lowered others) = Http1Parse.lowered others.
Proof.
  intros Hname. unfold HttpHeaders.named, Http1Parse.lowered. rewrite fmap_app, filter_app.
  change (lower (lit "host")) with (lit "host"). cbn [fmap list_fmap]. rewrite filter_cons. cbn [fst].
  rewrite Hname, decide_True by done. intros H. apply app_singleton in H as [[Hno H]|[_ H]]; [|done].
  split; [by injection H as <-|]. clear H.
  induction others as [|[k w] others IH]; [done|]. cbn [fmap list_fmap fst snd] in *. rewrite filter_cons in Hno |- *.
  cbn [fst] in *. rewrite lower_idem in Hno. destruct (decide (lower k = lit "host")) as [Hk|Hk]; [done|].
  rewrite decide_True by done. by rewrite IH.
Qed.


End Request.

(** ** Samples *)

Definition accept_any (netloc : pystr) : bool := true.

Definition block (target : pystr) (fields : list field) : headers_frame :=
  mkHeaders (mkBase 9 END_HEADERS 1) []
    [(METHOD, lit "POST"); (SCHEME, lit "http"); (PATH, target); (AUTHORITY, lit "example.org:8000")] fields false 0 1.

Definition sample_others : list field := [(lit "Accept", lit "*/*"); (lit "Content-Length", lit "12")].
Definition sample_block : headers_frame := block (lit "/a%20b?x=1") (Http1Parse.lowered sample_others).
Definition sample_block_tls : headers_frame :=
  mkHeaders (mkBase 9 END_HEADERS 1) []
    [(METHOD, lit "POST"); (SCHEME, lit "https"); (PATH, lit "/a%20b?x=1"); (AUTHORITY, lit "example.org:8000")]
    (Http1Parse.lowered sample_others) false 0 1.

Definition sample_request : Connection :=
  match parse_headers accept_any sample_block with
  | Ok (_, Some conn) => conn
  | _ => mkConnection [] [] [] [] [] [] [] (HttpHeaders.from_lowered [])
  end.

Lemma sample_parsed : parse_headers accept_any sample_block = Ok (sample_block, Some sample_request).
Proof. vm_compute. reflexivity. Qed.

Lemma request_contract_witness :
  marked sample_block sample_block /\
  exists v, hosts (HttpHeaders._list (headers sample_request)) = [(lit "host", v)] /\ host_ok v.
Proof.
  destruct (request_contract accept_any sample_block sample_block (Some sample_request) sample_parsed) as (Hk & _ & _ & _ & H).
  split; [exact Hk|]. apply H; [vm_compute; congruence|]. left. vm_compute. reflexivity.
Defined.

Lemma sample_headers_ok :
  Http1Parse.request_ok (lit "POST") (lit "/a%20b") (Some (lit "x=1")) (sample_others ++ [(lit "Host", lit "example.org:8000")]) 12.
Proof.
  constructor; try (split_and!; decide_it).
  - repeat constructor; cbn [fst snd]; try decide_it; intros; vm_compute; reflexivity.
  - vm_compute. discriminate.
  - exists (lit "host", lit "example.org:8000"). split_and!; [vm_compute; reflexivity|decide_it|reflexivity|].
    split; [unfold ascii_char; decide_it|vm_compute; discriminate].
  - vm_compute. reflexivity.
Qed.


(** ** What the model shows *)

(** A target that begins with two slashes loses its first segment, whatever it
    is; HTTP/1.1 keeps it. *)
Lemma double_slash_dropped netloc_ok :
  _split_h2_path netloc_ok (lit "//public/admin") = Ok (lit "/admin", lit "/admin", []).
Proof. vm_compute. reflexivity. Qed.

(** A target with a scheme loses scheme and authority. *)
Lemma absolute_target_stripped netloc_ok :
  _split_h2_path netloc_ok (lit "http://other.example/admin") = Ok (lit "/admin", lit "/admin", []).
Proof. vm_compute. reflexivity. Qed.

(** An octet 9, which the field validation lets through, disappears. *)
Lemma tab_removed netloc_ok :
  field_value_is_valid (lit "/ad" ++ 9 :: lit "min") = true /\
  _split_h2_path netloc_ok (lit "/ad" ++ 9 :: lit "min") = Ok (lit "/admin", lit "/admin", []).
Proof. vm_compute. done. Qed.

(** A target with one bracket raises out of the parser. *)
Lemma bracket_raises netloc_ok fields : parse_headers netloc_ok (block (lit "//[") fields) = Raise ValueError.
Proof. reflexivity. Qed.

End H2Request.
