(* ===== verification/H2Stream.v ===== *)
(** * HTTP/2 stream nodes and the tree (blackbull/protocol/stream.py)

    A node holds its identifier, its state and its children, a dict in the order
    of insertion.  [conn] is the request object of the stream, by identity: the
    object itself lives in the connection ([H2Conn]).  The parent pointer and
    the weight are written and never read, and are left out. *)

From Stdlib Require Import ZArith Lia.
From stdpp Require Import base tactics numbers option strings sets list.
From S2P Require Import Prelude PyLib H2Frames.

Module H2Stream.

Inductive StreamState : Type := IDLE | OPEN | HALF_CLOSED_LOCAL | HALF_CLOSED_REMOTE | CLOSED.

#[export] Instance stream_state_eq_dec : EqDecision StreamState.
Proof. solve_decision. Defined.

Inductive Stream : Type := mkStream {
  stream_id : Z;
  conn : option nat;
  state : StreamState;
  priority_hint : option H2Frames.priority;
  expected_content_length : option Z;
  received_data_bytes : Z;
  children : list (Z * Stream)
}.

(** [Stream(stream_id, parent)] *)
Definition new_stream (sid : Z) : Stream := mkStream sid None IDLE None None 0 [].

Definition set_conn (c : nat) (s : Stream) : Stream :=
  mkStream (stream_id s) (Some c) (state s) (priority_hint s) (expected_content_length s) (received_data_bytes s) (children s).
Definition set_state (st : StreamState) (s : Stream) : Stream :=
  mkStream (stream_id s) (conn s) st (priority_hint s) (expected_content_length s) (received_data_bytes s) (children s).
Definition set_hint (p : H2Frames.priority) (s : Stream) : Stream :=
  mkStream (stream_id s) (conn s) (state s) (Some p) (expected_content_length s) (received_data_bytes s) (children s).
Definition set_expected (n : option Z) (s : Stream) : Stream :=
  mkStream (stream_id s) (conn s) (state s) (priority_hint s) n (received_data_bytes s) (children s).
Definition set_received (n : Z) (s : Stream) : Stream :=
  mkStream (stream_id s) (conn s) (state s) (priority_hint s) (expected_content_length s) n (children s).
Definition set_children (l : list (Z * Stream)) (s : Stream) : Stream :=
  mkStream (stream_id s) (conn s) (state s) (priority_hint s) (expected_content_length s) (received_data_bytes s) l.

Definition on_headers_received (end_stream : bool) (s : Stream) : Stream :=
  set_state (if end_stream then HALF_CLOSED_REMOTE else OPEN) s.

Definition on_data_received (end_stream : bool) (s : Stream) : Stream :=
  if end_stream then set_state HALF_CLOSED_REMOTE s else s.

(** [find_child]: the node itself, a child, or a search of the children that
    have children. *)
Fixpoint find_child (sid : Z) (s : Stream) : option Stream :=
  if stream_id s =? sid then Some s
  else
    match dget (children s) sid with
    | Some c => Some c
    | None =>
        (fix search (l : list (Z * Stream)) : option Stream :=
           match l with
           | [] => None
           | (_, v) :: l =>
               if bool_decide (length (children v) = 0%nat) then search l
               else match find_child sid v with Some r => Some r | None => search l end
           end) (children s)
    end.

(** [get_children]: the nodes below, each before its own. *)
Fixpoint get_children (s : Stream) : list Stream :=
  (fix walk (l : list (Z * Stream)) : list Stream :=
     match l with
     | [] => []
     | (_, c) :: l => c :: get_children c ++ walk l
     end) (children s).

(** [add_child]: the node returned and the tree after it. *)
Definition add_child (sid : Z) (s : Stream) : Stream * Stream :=
  match find_child sid s with
  | Some existing => (existing, s)
  | None => let child := new_stream sid in (child, set_children (dset (children s) sid child) s)
  end.

(** [drop_child]: [KeyError] when there is none. *)
Definition drop_child (sid : Z) (s : Stream) : result Stream :=
  if dmem (children s) sid then Ok (set_children (dpop (children s) sid) s) else Raise KeyError.

(** ** The search finds the node with the identifier *)

(** Induction over a tree. *)
Lemma stream_ind' (P : Stream -> Prop) :
  (forall s, Forall (fun x => P x.2) (children s) -> P s) -> forall s, P s.
Proof.
  intros H. fix IH 1. intros [sid c st p e r l]. apply H. cbn [children].
  induction l as [|[k v] l IHl]; constructor; [apply IH|exact IHl].
Qed.

(** Every child is stored under its own identifier, everywhere in the tree. *)
Inductive keyed : Stream -> Prop :=
| keyed_node s : Forall (fun x => x.1 = stream_id x.2 /\ keyed x.2) (children s) -> keyed s.

Definition nodes (s : Stream) : list Stream := s :: get_children s.

Lemma get_children_eq s : get_children s = children s ≫= (fun x => nodes x.2).
Proof.
  destruct s as [sid c st p e r l]. cbn. induction l as [|[k v] l IH]; [done|].
  cbn [mbind list_bind]. unfold nodes at 1. cbn [app snd]. do 2 f_equal. exact IH.
Qed.

Definition search (sid : Z) : list (Z * Stream) -> option Stream :=
  fix search l :=
    match l with
    | [] => None
    | (_, v) :: l =>
        if bool_decide (length (children v) = 0%nat) then search l
        else match find_child sid v with Some r => Some r | None => search l end
    end.

Lemma find_child_eq sid s :
  find_child sid s =
  if stream_id s =? sid then Some s
  else match dget (children s) sid with Some c => Some c | None => search sid (children s) end.
Proof. by destruct s. Qed.

Lemma find_child_sound sid s n : keyed s -> find_child sid s = Some n -> n ∈ nodes s /\ stream_id n = sid.
Proof.
  revert n. induction s as [s IH] using stream_ind'. intros n Hk. inversion Hk as [s' Hc]; subst. rewrite find_child_eq.
  destruct (Z.eqb_spec (stream_id s) sid) as [Heq|Hne].
  { intros [= <-]. split; [apply elem_of_cons; by left|done]. }
  unfold nodes. rewrite get_children_eq, elem_of_cons.
  destruct (dget (children s) sid) as [c|] eqn:Hd.
  { intros [= ->]. apply dget_elem in Hd. rewrite Forall_forall in Hc. destruct (Hc _ Hd) as [Hk' _]. cbn in Hk'.
    split; [|done]. right. apply list_elem_of_bind. exists (sid, n). split; [apply elem_of_cons; by left|done]. }
  clear Hd Hk. induction (children s) as [|[k v] l IHl]; [done|].
  apply Forall_cons in IH as [IHv IH]. apply Forall_cons in Hc as [[_ Hv] Hc]. cbn [search fst snd] in *.
  cbn [mbind list_bind]. rewrite elem_of_app. intros H. case_bool_decide as Hb.
  { destruct (IHl IH Hc H) as [[?|?] ?]; auto. }
  destruct (find_child sid v) as [r|] eqn:Hr.
  - injection H as ->. destruct (IHv _ Hv eq_refl) as [? ?]. auto.
  - destruct (IHl IH Hc H) as [[?|?] ?]; auto.
Qed.

Lemma find_child_complete sid s n : keyed s -> n ∈ nodes s -> stream_id n = sid -> find_child sid s <> None.
Proof.
  revert n. induction s as [s IH] using stream_ind'. intros n Hk. inversion Hk as [s' Hc]; subst. rewrite find_child_eq.
  unfold nodes. rewrite get_children_eq, elem_of_cons. intros [->|Hn] Hid.
  { by rewrite (proj2 (Z.eqb_eq _ _)). }
  destruct (_ =? sid); [done|]. destruct (dget (children s) sid) as [c|] eqn:Hd; [done|].
  apply list_elem_of_bind in Hn as ([k v] & Hn & Hin). cbn [snd] in Hn.
  assert (Hfind : find_child sid v <> None /\ length (children v) <> 0%nat).
  { rewrite Forall_forall in IH, Hc. destruct (Hc _ Hin) as [Hk' Hv]. split; [by apply (IH _ Hin n)|].
    intros Hlen. apply nil_length_inv in Hlen. unfold nodes in Hn. rewrite get_children_eq, Hlen in Hn. cbn in Hn.
    apply list_elem_of_singleton in Hn. subst n. cbn in Hk'. rewrite Hid in Hk'. subst k.
    apply dget_None in Hd. apply Hd. apply list_elem_of_fmap. by exists (sid, v). }
  clear Hd IH Hc Hk. induction (children s) as [|[k' v'] l IHl]; [by apply not_elem_of_nil in Hin|].
  cbn [search]. apply elem_of_cons in Hin as [[= -> ->]|Hin].
  - rewrite bool_decide_false by apply Hfind. destruct (find_child sid v') eqn:E; [done|]. by destruct Hfind.
  - case_bool_decide; [by apply IHl|]. destruct (find_child sid v'); [done|]. by apply IHl.
Qed.

(** The lookup of the priority tree, with its fast path and its pruned
    descent, finds a node exactly when a node of the tree has the identifier; and
    where identifiers are unique it is that node. *)
Theorem find_child_spec sid s :
  keyed s ->
  (find_child sid s <> None <-> sid ∈ stream_id <$> nodes s) /\
  (forall n, NoDup (stream_id <$> nodes s) -> n ∈ nodes s -> find_child (stream_id n) s = Some n).
Proof.
  intros Hk. split; [split|].
  - destruct (find_child sid s) as [n|] eqn:E; [|done]. intros _.
    destruct (find_child_sound sid s n Hk E) as [Hn <-]. by apply list_elem_of_fmap_2.
  - intros (n & -> & Hn)%list_elem_of_fmap. by apply (find_child_complete _ s n).
  - intros n Hnd Hn. destruct (find_child (stream_id n) s) as [m|] eqn:E; [|by destruct (find_child_complete (stream_id n) s n Hk Hn eq_refl)].
    destruct (find_child_sound _ s m Hk E) as [Hm Hid]. f_equal.
    apply list_elem_of_lookup in Hn as [i Hi]. apply list_elem_of_lookup in Hm as [j Hj].
    assert (i = j) as ->.
    { apply (NoDup_lookup _ i j (stream_id n) Hnd); rewrite list_lookup_fmap; [by rewrite Hi|rewrite Hj; by cbn; rewrite Hid]. }
    congruence.
Qed.

Lemma keyed_add sid s : keyed s -> keyed (add_child sid s).2.
Proof.
  intros Hk. unfold add_child. destruct (find_child sid s); [done|]. inversion Hk as [s' Hc]; subst. constructor. cbn [snd children set_children].
  apply Forall_dset; [done|]. intros k ->. split; [done|]. constructor. constructor.
Qed.

Definition sample : Stream := (add_child 3 (add_child 1 (new_stream 0)).2).2.

Lemma find_child_spec_witness : find_child 3 sample = Some (new_stream 3).
Proof.
  assert (Hk : keyed sample) by (apply keyed_add, keyed_add; constructor; constructor).
  destruct (find_child_spec 3 sample Hk) as [_ H]. apply (H (new_stream 3)).
  - vm_compute. repeat constructor; set_solver.
  - vm_compute. set_solver.
Defined.

End H2Stream.
