(* ===== verification/H2Ws.v ===== *)
(** * The reader of a WebSocket inside HTTP/2 (blackbull/server/http2_ws.py)

    [HTTP2WSReader]: the octets of a stream's DATA frames as a byte stream, with
    the credit held back while more than its cap is buffered. *)

From Stdlib Require Import ZArith Lia.
From stdpp Require Import base tactics numbers option strings sets list.
From S2P Require Import Prelude PyLib H2Frames.
Import H2Frames.

Module H2Ws.

Record t : Type := mk {
  _buffer : bytes;
  _eof : bool;
  _max_buffer : Z;
  _pending_credit : Z
}.

Definition _DEFAULT_MAX_BUFFER : Z := 1024 * 1024.
Definition __init__ (max_buffer : Z) : t := mk [] false max_buffer 0.

Definition put_DATAFrame (b : base) (payload : bytes) (r : t) : bool * t :=
  let buffer := _buffer r ++ payload in
  let eof := _eof r || flag END_STREAM (flags b) in
  if zlen buffer >? _max_buffer r then (false, mk buffer eof (_max_buffer r) (_pending_credit r + zlen payload))
  else (true, mk buffer eof (_max_buffer r) (_pending_credit r)).

Definition put_disconnect (r : t) : t := mk (_buffer r) true (_max_buffer r) (_pending_credit r).

(** [readexactly(n)]: [None] waits; the credit given to the callback. *)
Definition readexactly (n : Z) (r : t) : option (result (bytes * list Z)) * t :=
  if zlen (_buffer r) <? n then (if _eof r then Some (Raise IncompleteReadError) else None, r)
  else
    let out := slice (_buffer r) 0 n in
    let buffer := slice_from (_buffer r) n in
    if (_pending_credit r >? 0) && (zlen buffer <=? _max_buffer r)
    then (Some (Ok (out, [_pending_credit r])), mk buffer (_eof r) (_max_buffer r) 0)
    else (Some (Ok (out, [])), mk buffer (_eof r) (_max_buffer r) (_pending_credit r)).

End H2Ws.
