(* ===== verification/H2Conn.v ===== *)
(** * The HTTP/2 connection (blackbull/server/http2_actor.py, server/response.py)

    [HTTP2Actor]: the frame loop with its stream-state checks, the responders,
    the bookkeeping of streams and handlers, the liveness watchdog.  One turn of
    the loop, from the octets of a frame to what is written and started, is one
    function; handlers run between turns.  What a handler does on the send side
    is [H2Sender]; what it reads is its recipient.  Objects that are shared —
    requests, recipients — live in stores and are referred to by position.

    A turn is taken as one step: the awaits inside it are writes.  A handler is
    the reads it makes, what it sends, the streams it pushes, and the moment it
    ends, by itself or with a reset.  The wire is what is handed to the writer;
    what a transport that is closed does with it is the transport's.  A pushed
    stream has a sender of its own, outside [_senders]: what goes through it is
    left out, as are the log records, the active-stream semaphore and the
    compatibility lane. *)

From Stdlib Require Import ZArith Lia.
From stdpp Require Import base tactics numbers option strings sets list relations.
From S2P Require Import Prelude PyLib PyText PyBytes RateWindow Reader H2Frames HttpHeaders H2Recipient H2Sender H2Request H2Stream H2Ws.
Import H2Frames.

Module H2Conn.
Import H2Stream.

(** ** Constants *)

Definition NO_ERROR : Z := 0x0.
Definition PROTOCOL_ERROR : Z := 0x1.
Definition FLOW_CONTROL_ERROR : Z := 0x3.
Definition STREAM_CLOSED : Z := 0x5.
Definition FRAME_SIZE_ERROR : Z := 0x6.
Definition REFUSED_STREAM : Z := 0x7.
Definition INTERNAL_ERROR : Z := 0x2.
Definition CANCEL : Z := 0x8.
Definition ENHANCE_YOUR_CALM : Z := 0xb.

Definition _CLOSED_STREAMS_CAP : Z := 1024.
Definition _MAX_FLOW_WINDOW : Z := 2 ^ 31 - 1.

Definition _FRAME_SIZE_CONNECTION_ERROR_TYPES : list FrameTypes := [HEADERS; CONTINUATION; PUSH_PROMISE; SETTINGS].
Definition _STREAM_ONLY_FRAME_TYPES : list FrameTypes := [DATA; HEADERS; PRIORITY; RST_STREAM; PUSH_PROMISE; CONTINUATION].

Inductive level : Type := Connection_level | Stream_level.

(** ** State *)

Record settings : Type := mkSettings {
  max_concurrent_streams : Z;
  _header_max_total : Z;
  _max_body_size : Z;
  _min_body_rate : Z;
  _min_body_rate_grace : Z;
  _inbound_stream_window : Z;
  _stream_queue_depth : Z;
  _ws_over_h2_enabled : bool;
  h2_ws_max_streams_per_connection : Z;
  h2_connection_window_size : Z;
  frame_rate_limit : Z;
  frame_rate_window : Z;
  _h2_idle_timeout : Z;
  _h2_ping_timeout : Z;
  _header_timeout : Z
}.

(** [conn.extensions], as [_build_h2_extensions] makes it. *)
Record extensions : Type := mkExtensions {
  response_priority : priority;
  x_stream_id : Z;
  send_window_remaining : Z;
  connection_send_window_remaining : Z
}.

Record request : Type := mkRequest {
  rq_conn : H2Request.Connection;
  rq_extensions : option extensions
}.

Inductive recipient : Type := Http (r : H2Recipient.t) | Ws (r : H2Ws.t).

(** What a handler has read. *)
Inductive input : Type := Got (c : H2Recipient.chunk) | Octets (b : bytes) | Incomplete.

(** A task: the stream, the request and the recipient it was started with;
    whether a push started it, and its sender has no push callback. *)
Record task : Type := mkTask {
  t_sid : Z;
  t_request : nat;
  t_recipient : nat;
  is_ws : bool;
  t_pushed : bool;
  t_running : bool;
  t_cancelled : bool;
  t_read : list input
}.

(** Where the frame loop stands. *)
Inductive loop_state : Type := Running | Returned | Escaped (e : exn).

(** The time axis of the watchdog: the time it sleeps to, [None] once it has
    ended. *)
Record timers : Type := mkTimers {
  _last_frame_at : Z;
  _probe_sent_at : option Z;
  _header_block_since : option Z;
  wake_at : option Z
}.

Section Conn.
Context {E D : Type} `{!Hpack E D} {R : Type} `{!ByteReader R}.
Context (netloc_ok : pystr -> bool) (http_date : bytes) (cfg : settings).

Record t : Type := mk {
  reader : R;
  decoder : D;
  clock : Z;
  root : Stream;
  net : H2Sender.net;             (* the senders, the connection window and the wire *)
  requests : list request;
  recipients : list recipient;
  tasks : list task;
  _recipients : dict Z nat;
  _stream_tasks : dict Z nat;
  _active_stream_count : Z;
  _ws_stream_count : Z;
  _last_peer_stream_id : Z;
  _next_push_stream_id : Z;
  _peer_initial_window_size : Z;
  _closed_streams : dict Z bool;
  _closed_high_water : Z;
  _oversize_frame_len : Z;
  _goaway_sent : bool;
  writer_closed : bool;
  meters : RateWindow.t * RateWindow.t * RateWindow.t * RateWindow.t; (* RST_STREAM, PING, SETTINGS, empty frames *)
  waiting_continuation : bool;
  header_frame : option headers_frame;
  time : timers;
  loop : loop_state
}.

Definition set_input (x : R) (d : D) (n : Z) (s : t) : t :=
  mk x d (clock s) (root s) (net s) (requests s) (recipients s) (tasks s) (_recipients s) (_stream_tasks s)
    (_active_stream_count s) (_ws_stream_count s) (_last_peer_stream_id s) (_next_push_stream_id s) (_peer_initial_window_size s)
    (_closed_streams s) (_closed_high_water s) n (_goaway_sent s) (writer_closed s) (meters s) (waiting_continuation s)
    (header_frame s) (time s) (loop s).
Definition set_clock (now : Z) (s : t) : t :=
  mk (reader s) (decoder s) now (root s) (net s) (requests s) (recipients s) (tasks s) (_recipients s) (_stream_tasks s)
    (_active_stream_count s) (_ws_stream_count s) (_last_peer_stream_id s) (_next_push_stream_id s) (_peer_initial_window_size s)
    (_closed_streams s) (_closed_high_water s) (_oversize_frame_len s) (_goaway_sent s) (writer_closed s) (meters s)
    (waiting_continuation s) (header_frame s) (time s) (loop s).
Definition set_root (x : Stream) (s : t) : t :=
  mk (reader s) (decoder s) (clock s) x (net s) (requests s) (recipients s) (tasks s) (_recipients s) (_stream_tasks s)
    (_active_stream_count s) (_ws_stream_count s) (_last_peer_stream_id s) (_next_push_stream_id s) (_peer_initial_window_size s)
    (_closed_streams s) (_closed_high_water s) (_oversize_frame_len s) (_goaway_sent s) (writer_closed s) (meters s)
    (waiting_continuation s) (header_frame s) (time s) (loop s).
Definition set_net (x : H2Sender.net) (s : t) : t :=
  mk (reader s) (decoder s) (clock s) (root s) x (requests s) (recipients s) (tasks s) (_recipients s) (_stream_tasks s)
    (_active_stream_count s) (_ws_stream_count s) (_last_peer_stream_id s) (_next_push_stream_id s) (_peer_initial_window_size s)
    (_closed_streams s) (_closed_high_water s) (_oversize_frame_len s) (_goaway_sent s) (writer_closed s) (meters s)
    (waiting_continuation s) (header_frame s) (time s) (loop s).
Definition set_stores (rq : list request) (rc : list recipient) (ts : list task) (s : t) : t :=
  mk (reader s) (decoder s) (clock s) (root s) (net s) rq rc ts (_recipients s) (_stream_tasks s)
    (_active_stream_count s) (_ws_stream_count s) (_last_peer_stream_id s) (_next_push_stream_id s) (_peer_initial_window_size s)
    (_closed_streams s) (_closed_high_water s) (_oversize_frame_len s) (_goaway_sent s) (writer_closed s) (meters s)
    (waiting_continuation s) (header_frame s) (time s) (loop s).
Definition set_maps (rc : dict Z nat) (st : dict Z nat) (active ws : Z) (s : t) : t :=
  mk (reader s) (decoder s) (clock s) (root s) (net s) (requests s) (recipients s) (tasks s) rc st active ws
    (_last_peer_stream_id s) (_next_push_stream_id s) (_peer_initial_window_size s)
    (_closed_streams s) (_closed_high_water s) (_oversize_frame_len s) (_goaway_sent s) (writer_closed s) (meters s)
    (waiting_continuation s) (header_frame s) (time s) (loop s).
Definition set_ids (last push iws : Z) (s : t) : t :=
  mk (reader s) (decoder s) (clock s) (root s) (net s) (requests s) (recipients s) (tasks s) (_recipients s) (_stream_tasks s)
    (_active_stream_count s) (_ws_stream_count s) last push iws
    (_closed_streams s) (_closed_high_water s) (_oversize_frame_len s) (_goaway_sent s) (writer_closed s) (meters s)
    (waiting_continuation s) (header_frame s) (time s) (loop s).
Definition set_closed (c : dict Z bool) (high : Z) (s : t) : t :=
  mk (reader s) (decoder s) (clock s) (root s) (net s) (requests s) (recipients s) (tasks s) (_recipients s) (_stream_tasks s)
    (_active_stream_count s) (_ws_stream_count s) (_last_peer_stream_id s) (_next_push_stream_id s) (_peer_initial_window_size s)
    c high (_oversize_frame_len s) (_goaway_sent s) (writer_closed s) (meters s) (waiting_continuation s) (header_frame s) (time s) (loop s).
Definition set_goaway (s : t) : t :=
  mk (reader s) (decoder s) (clock s) (root s) (net s) (requests s) (recipients s) (tasks s) (_recipients s) (_stream_tasks s)
    (_active_stream_count s) (_ws_stream_count s) (_last_peer_stream_id s) (_next_push_stream_id s) (_peer_initial_window_size s)
    (_closed_streams s) (_closed_high_water s) (_oversize_frame_len s) true true (meters s) (waiting_continuation s)
    (header_frame s) (time s) (loop s).
Definition set_meters (m : RateWindow.t * RateWindow.t * RateWindow.t * RateWindow.t) (s : t) : t :=
  mk (reader s) (decoder s) (clock s) (root s) (net s) (requests s) (recipients s) (tasks s) (_recipients s) (_stream_tasks s)
    (_active_stream_count s) (_ws_stream_count s) (_last_peer_stream_id s) (_next_push_stream_id s) (_peer_initial_window_size s)
    (_closed_streams s) (_closed_high_water s) (_oversize_frame_len s) (_goaway_sent s) (writer_closed s) m (waiting_continuation s)
    (header_frame s) (time s) (loop s).
Definition set_block (waiting : bool) (h : option headers_frame) (s : t) : t :=
  mk (reader s) (decoder s) (clock s) (root s) (net s) (requests s) (recipients s) (tasks s) (_recipients s) (_stream_tasks s)
    (_active_stream_count s) (_ws_stream_count s) (_last_peer_stream_id s) (_next_push_stream_id s) (_peer_initial_window_size s)
    (_closed_streams s) (_closed_high_water s) (_oversize_frame_len s) (_goaway_sent s) (writer_closed s) (meters s) waiting h
    (time s) (loop s).
Definition set_time (x : timers) (s : t) : t :=
  mk (reader s) (decoder s) (clock s) (root s) (net s) (requests s) (recipients s) (tasks s) (_recipients s) (_stream_tasks s)
    (_active_stream_count s) (_ws_stream_count s) (_last_peer_stream_id s) (_next_push_stream_id s) (_peer_initial_window_size s)
    (_closed_streams s) (_closed_high_water s) (_oversize_frame_len s) (_goaway_sent s) (writer_closed s) (meters s)
    (waiting_continuation s) (header_frame s) x (loop s).
Definition set_loop (l : loop_state) (s : t) : t :=
  mk (reader s) (decoder s) (clock s) (root s) (net s) (requests s) (recipients s) (tasks s) (_recipients s) (_stream_tasks s)
    (_active_stream_count s) (_ws_stream_count s) (_last_peer_stream_id s) (_next_push_stream_id s) (_peer_initial_window_size s)
    (_closed_streams s) (_closed_high_water s) (_oversize_frame_len s) (_goaway_sent s) (writer_closed s) (meters s)
    (waiting_continuation s) (header_frame s) (time s) l.

(** ** Streams *)

Definition get_child (sid : Z) (s : t) : option Stream := dget (children (root s)) sid.

(** The node of a live stream, in the tree. *)
Definition with_child (sid : Z) (f : Stream -> Stream) (s : t) : t :=
  match get_child sid s with
  | Some c => set_root (set_children (dset (children (root s)) sid (f c)) (root s)) s
  | None => s
  end.

Definition find_stream (sid : Z) (s : t) : option Stream :=
  if sid =? 0 then Some (root s) else find_child sid (root s).

Definition _validate_stream_state (st : StreamState) (ft : FrameTypes) : option (Z * level) :=
  match st with
  | IDLE =>
      if bool_decide (ft ∈ [HEADERS; PRIORITY; CONTINUATION; PUSH_PROMISE]) then None
      else Some (PROTOCOL_ERROR, Connection_level)
  | HALF_CLOSED_REMOTE =>
      if bool_decide (ft ∈ [PRIORITY; WINDOW_UPDATE; RST_STREAM]) then None
      else Some (STREAM_CLOSED, Stream_level)
  | CLOSED =>
      if bool_decide (ft = PRIORITY) then None
      else if bool_decide (ft ∈ [HEADERS; CONTINUATION]) then Some (STREAM_CLOSED, Connection_level)
      else Some (STREAM_CLOSED, Stream_level)
  | _ => None
  end.

Definition _mark_closed (sid : Z) (via_rst : bool) (s : t) : t :=
  let c := dset (_closed_streams s) sid via_rst in
  let high := if sid >? _closed_high_water s then sid else _closed_high_water s in
  set_closed (if zlen c >? _CLOSED_STREAMS_CAP then tail c else c) high s.

(** ** Writing *)

Definition set_wire (w : list (Z * H2Sender.wframe)) (n : H2Sender.net) : H2Sender.net :=
  H2Sender.mkNet (H2Sender.conn_window n) (H2Sender.encoded n) (H2Sender.senders n) w.
Definition set_senders (ss : dict Z H2Sender.sender) (n : H2Sender.net) : H2Sender.net :=
  H2Sender.mkNet (H2Sender.conn_window n) (H2Sender.encoded n) ss (H2Sender.wire n).

(** A write through the control sender. *)
Definition control_write (f : frame) : smonad t unit :=
  supdate (fun s => set_net (set_wire (H2Sender.wire (net s) ++ [(0, H2Sender.WRaw f)]) (net s)) s).

(** A frame of the factory. *)
Definition made (m : D -> result (frame * D)) : smonad t frame := fun s => (rmap fst (m (decoder s)), s).

(** [self.factory.goaway(self._last_peer_stream_id, code)] *)
Definition send_goaway (code : Z) : smonad t unit := fun s =>
  (let! f := made (fun d => goaway d (_last_peer_stream_id s) code) in control_write f) s.

Definition _close_connection (code : Z) : smonad t unit :=
  do! scatch (send_goaway code) (fun _ => Some (sret tt)) in supdate set_goaway.

Definition _connection_error (code : Z) : smonad t unit := fun s =>
  if _goaway_sent s then (Ok tt, s) else (do! send_goaway code in supdate set_goaway) s.

Definition _count_emitted_rst : smonad t unit := fun s =>
  let '(rst, ping, sets, empty) := meters s in
  let '(over, rst) := RateWindow.hit (clock s) None rst in
  (if over then _close_connection ENHANCE_YOUR_CALM else sret tt) (set_meters (rst, ping, sets, empty) s).

Definition send_frame (f : frame) : smonad t unit :=
  do! control_write f in fun s =>
    (if bool_decide (frame_type f = Some RST_STREAM) && negb (_goaway_sent s) then _count_emitted_rst else sret tt) s.

Definition send_rst (sid code : Z) : smonad t unit :=
  let! f := made (fun d => rst_stream d sid code) in send_frame f.
Definition send_window_update (sid n : Z) : smonad t unit :=
  let! f := made (fun d => window_update d sid n) in send_frame f.

(** [_meter]: whether the frame is over its budget, which ends the connection. *)
Definition _meter (ft : FrameTypes) (length : Z) : smonad t bool := fun s =>
  let '(rst, ping, sets, empty) := meters s in
  let hit w := RateWindow.hit (clock s) None w in
  let spend (over : bool) s := (if over then do! _connection_error ENHANCE_YOUR_CALM in sret true else sret false) s in
  match ft with
  | RST_STREAM => let '(over, rst) := hit rst in spend over (set_meters (rst, ping, sets, empty) s)
  | PING => let '(over, ping) := hit ping in spend over (set_meters (rst, ping, sets, empty) s)
  | SETTINGS => let '(over, sets) := hit sets in spend over (set_meters (rst, ping, sets, empty) s)
  | CONTINUATION | DATA =>
      if length =? 0 then let '(over, empty) := hit empty in spend over (set_meters (rst, ping, sets, empty) s)
      else (Ok false, s)
  | _ => (Ok false, s)
  end.

(** ** Recipients *)

Definition recipient_put_disconnect (r : recipient) : recipient :=
  match r with
  | Http r => Http (H2Recipient.put_disconnect r)
  | Ws r => Ws (H2Ws.put_disconnect r)
  end.

Definition with_recipient (k : nat) (f : recipient -> recipient) (s : t) : t :=
  set_stores (requests s) (alter f k (recipients s)) (tasks s) s.

Definition _signal_recipients (s : t) : t :=
  foldl (fun s x => with_recipient x.2 recipient_put_disconnect s) s (_recipients s).

(** The replay of what a released stream was not credited for. *)
Definition _release_recipient_credit (k : nat) : smonad t unit := fun s =>
  match recipients s !! k with
  | Some (Http r) =>
      let '(balance, r) := H2Recipient.take_uncredited r in
      let s := with_recipient k (fun _ => Http r) s in
      if (balance <=? 0) || _goaway_sent s then (Ok tt, s) else send_window_update 0 balance s
  | _ => (Ok tt, s)
  end.

(** ** Handlers *)

Definition make_sender (sid : Z) (s : t) : t :=
  if dmem (H2Sender.senders (net s)) sid then s
  else set_net (set_senders (dset (H2Sender.senders (net s)) sid (H2Sender.__init__ (_peer_initial_window_size s))) (net s)) s.

Definition drop_sender (sid : Z) (s : t) : t := set_net (set_senders (dpop (H2Sender.senders (net s)) sid) (net s)) s.

Definition _make_stream_recipient : recipient :=
  Http (H2Recipient.__init__ (_stream_queue_depth cfg) true (_inbound_stream_window cfg) (_max_body_size cfg)
          (_min_body_rate cfg) (_min_body_rate_grace cfg)).

(** The request object of a stream: a new one, which the stream refers to. *)
Definition new_request (c : H2Request.Connection) (s : t) : nat * t :=
  (length (requests s), set_stores (requests s ++ [mkRequest c None]) (recipients s) (tasks s) s).

Definition set_extensions (k : nat) (x : extensions) (s : t) : t :=
  set_stores (alter (fun r => mkRequest (rq_conn r) (Some x)) k (requests s)) (recipients s) (tasks s) s.

(** [self._recipients[sid] = recipient] *)
Definition add_recipient (sid : Z) (r : recipient) (s : t) : t :=
  let k := length (recipients s) in
  let s := set_stores (requests s) (recipients s ++ [r]) (tasks s) s in
  set_maps (dset (_recipients s) sid k) (_stream_tasks s) (_active_stream_count s) (_ws_stream_count s) s.

(** The task of the handler; [ws] for the WebSocket lane, which has no entry in
    [_stream_tasks]. *)
Definition start_task (sid : Z) (rq rc : nat) (ws pushed : bool) (s : t) : t :=
  let k := length (tasks s) in
  let s := set_stores (requests s) (recipients s) (tasks s ++ [mkTask sid rq rc ws pushed true false []]) s in
  set_maps (_recipients s) (if ws then _stream_tasks s else dset (_stream_tasks s) sid k)
    (_active_stream_count s + 1) (if ws then _ws_stream_count s + 1 else _ws_stream_count s) s.

Definition _spawn_stream_task (sid : Z) (rq rc : nat) (pushed : bool) : t -> t := start_task sid rq rc false pushed.

(** The done-callback of a handler's task. *)
Definition _make_done_cb (k : nat) : smonad t unit := fun s =>
  match tasks s !! k with
  | None => (Ok tt, s)
  | Some tk =>
      let sid := t_sid tk in
      let released := dget (_recipients s) sid in
      let s := set_stores (requests s) (recipients s)
                 (<[k := mkTask sid (t_request tk) (t_recipient tk) (is_ws tk) (t_pushed tk) false (t_cancelled tk) (t_read tk)]> (tasks s)) s in
      let s := set_maps (dpop (_recipients s) sid) (dpop (_stream_tasks s) sid) (Z.max 0 (_active_stream_count s - 1))
                 (if is_ws tk then Z.max 0 (_ws_stream_count s - 1) else _ws_stream_count s) s in
      let s := drop_sender sid s in
      (do! match released with Some rc => _release_recipient_credit rc | None => sret tt end in
       supdate (fun s =>
         if dmem (children (root s)) sid
         then _mark_closed sid false (set_root (set_children (dpop (children (root s)) sid) (root s)) s) else s)) s
  end.

(** ** Requests *)

Definition _build_h2_extensions (sid : Z) (p : priority) (s : t) : extensions :=
  mkExtensions p sid (_peer_initial_window_size s) (H2Sender.conn_window (net s)).

Definition _apply_priority_and_extensions (sid : Z) (rq : nat) : smonad t unit := fun s =>
  match requests s !! rq with
  | None => (Ok tt, s)
  | Some r =>
      let hint := match get_child sid s with Some c => priority_hint c | None => None end in
      match H2Request._resolve_priority hint (rq_conn r) with
      | Raise e => (Raise e, s)
      | Ok p => (Ok tt, set_extensions rq (_build_h2_extensions sid p s) s)
      end
  end.

(** A coroutine of a sender run to its end: [None] when it waits for the window. *)
Fixpoint run_sender (fuel : nat) (conn enc : Z) (x : H2Sender.sender) (l : list H2Sender.instr) (out : list H2Sender.wframe)
    : option (Z * Z * H2Sender.sender * list H2Sender.wframe) :=
  match l, fuel with
  | [], _ => Some (conn, enc, x, out)
  | _, O => None
  | i :: l, S fuel =>
      match H2Sender.exec http_date conn enc x i with
      | None => None
      | Some a => run_sender fuel (H2Sender.a_conn a) (H2Sender.a_enc a) (H2Sender.a_sender a) (H2Sender.a_next a ++ l) (out ++ H2Sender.a_out a)
      end
  end.

(** [await send(body, status, headers)] in the frame loop itself, which would
    have to read the credit the send waits for. *)
Definition send_response (sid : Z) (body : bytes) (status : Z) (hs : list field) : smonad t unit := fun s =>
  match dget (H2Sender.senders (net s)) sid with
  | None => (Raise KeyError, s)
  | Some x =>
      match run_sender (length body + 4) (H2Sender.conn_window (net s)) (H2Sender.encoded (net s)) x
              [H2Sender.Call (H2Sender.SendBytes body status hs)] [] with
      | None => (Raise FlowControlStalled, s)
      | Some (conn, enc, x, out) =>
          (Ok tt, set_net (H2Sender.mkNet conn enc (dset (H2Sender.senders (net s)) sid x)
                             (H2Sender.wire (net s) ++ ((fun f => (sid, f)) <$> out))) s)
      end
  end.

(** Whether the declared body was refused. *)
Definition _refuse_oversized_declared_body (sid : Z) : smonad t bool := fun s =>
  match get_child sid s with
  | Some c =>
      let cap := _max_body_size cfg in
      match expected_content_length c with
      | Some declared =>
          if (cap =? 0) || (declared <=? cap) then (Ok false, s)
          else
            (do! send_response sid (lit "413 Content Too Large") 413 [(lit "content-type", lit "text/plain")] in
             do! send_rst sid NO_ERROR in sret true) s
      | None => (Ok false, s)
      end
  | None => (Ok false, s)
  end.

(** The bootstrap of a WebSocket (RFC 8441). *)
Definition _handle_h2_websocket (sid : Z) (rq : nat) : smonad t unit := fun s =>
  let ws_cap := h2_ws_max_streams_per_connection cfg in
  if (ws_cap >? 0) && (_ws_stream_count s >=? ws_cap) then send_rst sid REFUSED_STREAM s
  else
    let s := make_sender sid s in
    let s := add_recipient sid (Ws (H2Ws.__init__ H2Ws._DEFAULT_MAX_BUFFER)) s in
    (Ok tt, start_task sid rq (length (recipients s) - 1) true false s).

(** The request is dispatched: priority, recipient, task.  [on_headers] is what
    the HEADERS path does between, and the CONTINUATION path does not. *)
Definition dispatched (sid : Z) (rq : nat) (on_headers : option bool) : smonad t bool :=
  let! refused := _refuse_oversized_declared_body sid in
  if refused : bool then sret true
  else
    do! _apply_priority_and_extensions sid rq in
    do! supdate (fun s =>
      let r := _make_stream_recipient in
      let s := match on_headers with Some end_stream => with_child sid (on_headers_received end_stream) s | None => s end in
      let r := match on_headers, r with Some true, Http r => Http (H2Recipient.mark_end_of_stream_on_headers r) | _, r => r end in
      let s := add_recipient sid r s in
      _spawn_stream_task sid rq (length (recipients s) - 1) false s) in
    sret true.

(** The request on its stream: the declared length and the request object. *)
Definition attach (sid : Z) (conn : H2Request.Connection) : smonad t nat := fun s =>
  let '(rq, s) := new_request conn s in
  (Ok rq, with_child sid (fun c => set_conn rq (set_expected (H2Request._extract_content_length conn) c)) s).

(** True when the stream has been dealt with, False when CONTINUATION is awaited. *)
Definition _on_headers_frame (h : headers_frame) (sid : Z) : smonad t bool := fun s =>
  if _active_stream_count s >=? max_concurrent_streams cfg then
    if negb (flag END_HEADERS (flags (h_base h))) then (Ok false, s)
    else (do! send_rst sid REFUSED_STREAM in sret true) s
  else if negb (flag END_HEADERS (flags (h_base h))) then (Ok false, s)
  else
    (let! x := slift (H2Request.parse_headers netloc_ok h) in
     if malformed x.1 then do! send_rst sid PROTOCOL_ERROR in sret true
     else
       match x.2 with
       | None => sraise PlainException                       (* the assertion *)
       | Some conn =>
           let! rq := attach sid conn in
           if bool_decide (H2Request.type_ conn = lit "websocket") then
             if negb (_ws_over_h2_enabled cfg) then do! send_rst sid PROTOCOL_ERROR in sret true
             else do! supdate (with_child sid (on_headers_received false)) in do! _handle_h2_websocket sid rq in sret true
           else dispatched sid rq (Some (flag END_STREAM (flags (h_base h))))
       end) s.

(** [header_frame.raw_block += frame.payload] *)
Definition extend_block (payload : bytes) (h : headers_frame) : headers_frame :=
  mkHeaders (h_base h) (raw_block h ++ payload) (pseudo_headers h) (H2Frames.headers h) (malformed h)
    (stream_dependency h) (priority_weight h).

Definition _on_continuation_frame (b : base) (payload : bytes) (sid : Z) : smonad t bool := fun s =>
  match header_frame s with
  | None => (do! _connection_error PROTOCOL_ERROR in sret true) s
  | Some h =>
      if negb (waiting_continuation s) then (do! _connection_error PROTOCOL_ERROR in sret true) s
      else
        let h := extend_block payload h in
        let s := set_block true (Some h) s in
        if zlen (raw_block h) >? _header_max_total cfg then (do! send_rst sid ENHANCE_YOUR_CALM in sret true) s
        else if negb (flag END_HEADERS (flags b)) then (Ok false, s)
        else
          match parse_payload (decoder s) h with
          | Raise e => (Raise e, s)
          | Ok (h, d) =>
              (let! x := slift (H2Request.parse_headers netloc_ok h) in
               do! supdate (set_block true (Some x.1)) in
               if malformed x.1 then do! send_rst sid PROTOCOL_ERROR in sret true
               else
                 match x.2 with
                 | None => sraise PlainException
                 | Some conn => fun s =>
                     if _active_stream_count s >=? max_concurrent_streams cfg then
                       (do! supdate (with_child sid (set_expected (H2Request._extract_content_length conn))) in
                        do! send_rst sid REFUSED_STREAM in sret true) s
                     else (let! rq := attach sid conn in dispatched sid rq None) s
                 end) (set_input (reader s) d (_oversize_frame_len s) s)
          end
  end.

(** ** Frames of an open stream *)

Definition deliver (sid : Z) (b : base) (payload : bytes) : smonad t unit := fun s =>
  match dget (_recipients s) sid with
  | None => (Ok tt, s)
  | Some k =>
      match recipients s !! k with
      | None => (Ok tt, s)
      | Some (Http r) =>
          let '(delivered, r) := H2Recipient.put_DATAFrame (clock s) b payload r in
          let s := with_recipient k (fun _ => Http r) s in
          if delivered then (Ok tt, s)
          else (do! send_rst sid ENHANCE_YOUR_CALM in supdate (with_recipient k recipient_put_disconnect)) s
      | Some (Ws r) =>
          let '(delivered, r) := H2Ws.put_DATAFrame b payload r in
          let s := with_recipient k (fun _ => Ws r) s in
          if delivered && negb (length_ b =? 0)
          then (do! send_window_update sid (length_ b) in send_window_update 0 (length_ b)) s else (Ok tt, s)
      end
  end.

Definition _on_data_frame (b : base) (payload : bytes) (sid : Z) (c : Stream) : smonad t unit :=
  if bool_decide (state c ∈ [HALF_CLOSED_REMOTE; CLOSED]) then send_rst sid STREAM_CLOSED
  else
    let received := received_data_bytes c + zlen payload in
    let end_stream := flag END_STREAM (flags b) in
    do! supdate (with_child sid (set_received received)) in
    if match expected_content_length c with
       | Some expected => (received >? expected) || (end_stream && negb (received =? expected))
       | None => false
       end then send_rst sid PROTOCOL_ERROR
    else
      do! supdate (with_child sid (on_data_received end_stream)) in
      deliver sid b payload.

(** A second HEADERS frame on an open request: trailers. *)
Definition on_trailers (end_stream : bool) (sid : Z) : smonad t unit := fun s =>
  if negb end_stream then send_rst sid PROTOCOL_ERROR s
  else
    let s := with_child sid (on_data_received true) s in
    match dget (_recipients s) sid with
    | None => (Ok tt, s)
    | Some k =>
        match recipients s !! k with
        | Some (Http r) => (Ok tt, with_recipient k (fun _ => Http (H2Recipient.put_end_of_stream r).2) s)
        | Some (Ws _) => (Raise AttributeError, s)            (* it has no [put_end_of_stream] *)
        | None => (Ok tt, s)
        end
    end.

Definition _on_goaway_frame : smonad t unit := do! send_goaway NO_ERROR in supdate _signal_recipients.

(** ** The responders *)

Definition PingResponder (b : base) (payload : bytes) : smonad t unit :=
  if negb (H2Frames.stream_id b =? 0) then _connection_error PROTOCOL_ERROR
  else if flag ACK (flags b) then sret tt
  else let! f := made (fun d => create d PING ACK (H2Frames.stream_id b) payload) in send_frame f.

Definition WindowUpdateResponder (b : base) (increment : Z) : smonad t unit := fun s =>
  let sid := H2Frames.stream_id b in
  if negb (length_ b =? 4) then _connection_error FRAME_SIZE_ERROR s
  else if increment =? 0 then (if sid =? 0 then _connection_error PROTOCOL_ERROR else send_rst sid PROTOCOL_ERROR) s
  else if sid =? 0 then
    if H2Sender.conn_window (net s) + increment >? _MAX_FLOW_WINDOW then _connection_error FLOW_CONTROL_ERROR s
    else (Ok tt, set_net (H2Sender.happen http_date (net s) (H2Sender.WindowUpdateConn increment)) s)
  else
    let s := make_sender sid s in
    match dget (H2Sender.senders (net s)) sid with
    | None => (Ok tt, s)
    | Some x =>
        if H2Sender.stream_window_size x + increment >? _MAX_FLOW_WINDOW then send_rst sid FLOW_CONTROL_ERROR s
        else (Ok tt, set_net (H2Sender.happen http_date (net s) (H2Sender.WindowUpdateStream sid increment)) s)
    end.

(** SETTINGS_ENABLE_PUSH, SETTINGS_INITIAL_WINDOW_SIZE, SETTINGS_MAX_FRAME_SIZE. *)
Definition SettingsResponder (b : base) (attrs : dict Z Z) : smonad t unit := fun s =>
  let iws := dget attrs 4 in
  let mfs := dget attrs 5 in
  if negb (H2Frames.stream_id b =? 0) then _connection_error PROTOCOL_ERROR s
  else if flag ACK (flags b) then
    (if negb (length_ b =? 0) then _connection_error FRAME_SIZE_ERROR else sret tt) s
  else if negb (length_ b mod 6 =? 0) then _connection_error FRAME_SIZE_ERROR s
  else if match dget attrs 2 with Some ep => negb ((ep =? 0) || (ep =? 1)) | None => false end then _connection_error PROTOCOL_ERROR s
  else if match iws with Some n => n >? _MAX_FLOW_WINDOW | None => false end then _connection_error FLOW_CONTROL_ERROR s
  else if match mfs with Some n => (n <? 16384) || (n >? 16777215) | None => false end then _connection_error PROTOCOL_ERROR s
  else
    let s := match iws with
             | Some n =>
                 let delta := n - _peer_initial_window_size s in
                 let s := set_ids (_last_peer_stream_id s) (_next_push_stream_id s) n s in
                 if negb (delta =? 0) then set_net (H2Sender.happen http_date (net s) (H2Sender.AdjustInitial delta)) s else s
             | None => s
             end in
    let s := match mfs with Some n => set_net (H2Sender.happen http_date (net s) (H2Sender.ApplyMaxFrame n)) s | None => s end in
    (let! f := made (fun d => H2Frames.settings d true false None None) in send_frame f) s.

Definition PriorityResponder (b : base) (dependent_stream : Z) : smonad t unit :=
  if dependent_stream =? H2Frames.stream_id b then send_rst (H2Frames.stream_id b) PROTOCOL_ERROR else sret tt.

Definition PriorityUpdateResponder (prioritized : Z) (field_value : pystr) : smonad t unit := fun s =>
  match parse_priority_field field_value with
  | Raise e => (Raise e, s)
  | Ok hint =>
      let s := match find_stream prioritized s with
               | Some _ => s
               | None =>
                   if zlen (children (root s)) >=? max_concurrent_streams cfg then s
                   else set_root (add_child prioritized (root s)).2 s
               end in
      let s := if prioritized =? 0 then set_root (set_hint hint (root s)) s else with_child prioritized (set_hint hint) s in
      match find_stream prioritized s with
      | Some c =>
          match conn c with
          | Some rq =>
              match requests s !! rq with
              | Some r =>
                  match rq_extensions r with
                  | Some x => (Ok tt, set_extensions rq (mkExtensions hint (x_stream_id x) (send_window_remaining x)
                                                          (connection_send_window_remaining x)) s)
                  | None => (Ok tt, s)
                  end
              | None => (Ok tt, s)
              end
          | None => (Ok tt, s)
          end
      | None => (Ok tt, s)
      end
  end.

(** The handler is cancelled, the stream and its resources are dropped. *)
Definition cancel_task (sid : Z) (s : t) : t :=
  match dget (_stream_tasks s) sid with
  | Some k =>
      set_stores (requests s) (recipients s)
        (alter (fun tk => mkTask (t_sid tk) (t_request tk) (t_recipient tk) (is_ws tk) (t_pushed tk) (t_running tk) (t_running tk || t_cancelled tk)
                            (t_read tk)) k (tasks s)) s
  | None => s
  end.

Definition RstStreamResponder (b : base) : smonad t unit := fun s =>
  let sid := H2Frames.stream_id b in
  if sid =? 0 then _connection_error PROTOCOL_ERROR s
  else if match find_stream sid s with Some c => bool_decide (state c = IDLE) | None => true end
  then _connection_error PROTOCOL_ERROR s
  else
    let s := cancel_task sid s in
    let s := _mark_closed sid true (set_root (set_children (dpop (children (root s)) sid) (root s)) s) in
    let s := drop_sender sid s in
    let released := dget (_recipients s) sid in
    let s := set_maps (dpop (_recipients s) sid) (_stream_tasks s) (_active_stream_count s) (_ws_stream_count s) s in
    match released with Some rc => _release_recipient_credit rc s | None => (Ok tt, s) end.

(** [ResponderFactory.create(frame).respond(self)] *)
Definition respond (f : frame) : smonad t unit :=
  match f with
  | Ping b payload => PingResponder b payload
  | WindowUpdate b _ n => WindowUpdateResponder b n
  | SettingFrame b _ attrs => SettingsResponder b attrs
  | Priority b _ dep _ => PriorityResponder b dep
  | PriorityUpdate _ sid v => PriorityUpdateResponder sid v
  | RstStream b _ => RstStreamResponder b
  | _ => sraise ValueError
  end.

(** ** The frame loop *)

(** [receive()]: one frame, or nothing at the end of the stream. *)
Definition receive : smonad t bytes := fun s =>
  match readexactly 9 (reader s) with
  | Raise IncompleteReadError => (Ok [], s)
  | Raise e => (Raise e, s)
  | Ok (data, x) =>
      let size := from_bytes (slice data 0 3) in
      if size >? DEFAULT_MAX_FRAME_SIZE then (Ok data, set_input x (decoder s) size s)
      else if size =? 0 then (Ok data, set_input x (decoder s) (_oversize_frame_len s) s)
      else
        match readexactly size x with
        | Raise IncompleteReadError => (Ok [], set_input x (decoder s) (_oversize_frame_len s) s)
        | Raise e => (Raise e, s)
        | Ok (payload, x) => (Ok (data ++ payload), set_input x (decoder s) (_oversize_frame_len s) s)
        end
  end.

Definition load_frame (data : bytes) : smonad t frame := fun s =>
  match load (decoder s) data with
  | Ok (f, d) => (Ok f, set_input (reader s) d (_oversize_frame_len s) s)
  | Raise e => (Raise e, s)
  end.

Definition base_of (f : frame) : base :=
  match f with
  | Data b _ | Priority b _ _ _ | RstStream b _ | SettingFrame b _ _ | PushPromise b _ _ _ | Ping b _ | GoAway b _ _ _
  | WindowUpdate b _ _ | Continuation b _ | PriorityUpdate b _ _ | _UnknownFrame b _ _ => b
  | Headers h => h_base h
  end.

(** The fate of a frame for a stream that is not in the tree: dropped, or handled
    with the node there now is. *)
Inductive fate : Type := Dropped | Handled.

(** A frame on a stream that is not live: closed, or not opened yet. *)
Definition absent_stream (ft : FrameTypes) (sid : Z) : smonad t fate := fun s =>
  let closed_via_rst := match dget (_closed_streams s) sid with
                        | Some b => Some b
                        | None => if (0 <? sid) && (sid <=? _closed_high_water s) then Some false else None
                        end in
  match closed_via_rst with
  | Some via_rst =>
      if bool_decide (ft = PRIORITY) then (Ok Handled, s)
      else if bool_decide (ft ∈ [HEADERS; CONTINUATION]) then (do! _connection_error STREAM_CLOSED in sret Dropped) s
      else if negb via_rst && bool_decide (ft ∈ [WINDOW_UPDATE; RST_STREAM]) then (Ok Dropped, s)
      else (do! send_rst sid STREAM_CLOSED in sret Dropped) s
  | None =>
      if bool_decide (ft = HEADERS) then
        if sid mod 2 =? 0 then (do! _connection_error PROTOCOL_ERROR in sret Dropped) s
        else if sid <=? _last_peer_stream_id s then (do! _connection_error PROTOCOL_ERROR in sret Dropped) s
        else
          let s := set_ids sid (_next_push_stream_id s) (_peer_initial_window_size s) s in
          (Ok Handled, set_root (add_child sid (root s)).2 s)
      else if bool_decide (ft = PRIORITY) then (Ok Handled, s)
      else (do! _connection_error PROTOCOL_ERROR in sret Dropped) s
  end.

(** The checks before a frame is handled. *)
Definition check_frame (f : frame) (ft : FrameTypes) : smonad t fate := fun s =>
  let b := base_of f in
  let sid := H2Frames.stream_id b in
  (let! over := _meter ft (length_ b) in
   if over : bool then sret Dropped
   else if length_ b >? DEFAULT_MAX_FRAME_SIZE then
     do! (if bool_decide (ft ∈ _FRAME_SIZE_CONNECTION_ERROR_TYPES) || (sid =? 0) then _connection_error FRAME_SIZE_ERROR
          else send_rst sid FRAME_SIZE_ERROR) in sret Dropped
   else if (sid =? 0) && bool_decide (ft ∈ _STREAM_ONLY_FRAME_TYPES) then do! _connection_error PROTOCOL_ERROR in sret Dropped
   else if bool_decide (ft = CONTINUATION) && negb (waiting_continuation s) then do! _connection_error PROTOCOL_ERROR in sret Dropped
   else if bool_decide (ft = PRIORITY) && negb (length_ b =? 5) then do! send_rst sid FRAME_SIZE_ERROR in sret Dropped
   else
     let! fate := fun s => (if negb (sid =? 0) && bool_decide (get_child sid s = None) then absent_stream ft sid else sret Handled) s in
     match fate with
     | Dropped => sret Dropped
     | Handled => fun s =>
         match (if sid =? 0 then None else get_child sid s) with
         | None => (Ok Handled, s)
         | Some c =>
             match _validate_stream_state (state c) ft with
             | None => (Ok Handled, s)
             | Some (code, Connection_level) => (do! _connection_error code in sret Dropped) s
             | Some (code, Stream_level) => (do! send_rst sid code in sret Dropped) s
             end
         end
     end) s.

(** [match frame.FrameType()]: whether the loop goes on. *)
Definition handle_frame (f : frame) : smonad t bool := fun s =>
  let b := base_of f in
  let sid := H2Frames.stream_id b in
  match f, get_child sid s with
  | Headers h, Some c =>
      if negb (bool_decide (conn c = None)) && flag END_HEADERS (flags b)
      then (do! on_trailers (flag END_STREAM (flags b)) sid in sret true) s
      else
        (let! spawned := _on_headers_frame h sid in
         if spawned : bool then sret true
         else do! supdate (fun s =>
                let tm := time s in
                set_time (mkTimers (_last_frame_at tm) (_probe_sent_at tm) (Some (clock s)) (wake_at tm)) (set_block true (Some h) s)) in
              sret true) (make_sender sid s)
  | Continuation _ payload, Some c =>
      (let! spawned := _on_continuation_frame b payload sid in
       if spawned : bool then
         do! supdate (fun s =>
           let tm := time s in
           set_time (mkTimers (_last_frame_at tm) (_probe_sent_at tm) None (wake_at tm)) (set_block false (header_frame s) s)) in
         sret true
       else sret true) (make_sender sid s)
  | Data _ payload, Some c => (do! _on_data_frame b payload sid c in sret true) s
  | GoAway _ _ _ _, _ => (do! _on_goaway_frame in sret false) s
  | (Headers _ | Continuation _ _ | Data _ _), None => (Raise AttributeError, s)
  | _, _ => (do! respond f in sret true) s
  end.

(** One turn of [while data := await self.receive()]. *)
Definition turn : smonad t bool :=
  let! data := receive in
  match data with
  | [] => do! supdate _signal_recipients in sret false
  | _ =>
      do! supdate (fun s =>
        let tm := time s in set_time (mkTimers (clock s) None (_header_block_since tm) (wake_at tm)) s) in
      fun s =>
        if _goaway_sent s then (Ok false, _signal_recipients s)
        else if negb (_oversize_frame_len s =? 0) then
          (do! _connection_error FRAME_SIZE_ERROR in do! supdate _signal_recipients in sret false)
            (set_input (reader s) (decoder s) 0 s)
        else
          (let! f := load_frame data in
           fun s =>
             match frame_type f with
             | Some CONTINUATION => (let! fate := check_frame f CONTINUATION in
                                     match fate with Dropped => sret true | Handled => handle_frame f end) s
             | Some ft =>
                 if waiting_continuation s then (do! _connection_error PROTOCOL_ERROR in sret true) s
                 else (let! fate := check_frame f ft in
                       match fate with Dropped => sret true | Handled => handle_frame f end) s
             | None => (if waiting_continuation s then do! _connection_error PROTOCOL_ERROR in sret true else sret true) s
             end) s
  end.

(** The start of [run()]: the preface the server sends. *)
Definition init (x : R) (d : D) (now : Z) : t :=
  let w := RateWindow.__init__ (frame_rate_limit cfg) (frame_rate_window cfg) in
  mk x d now (new_stream 0) (H2Sender.start DEFAULT_INITIAL_WINDOW_SIZE) [] [] [] [] [] 0 0 0 2 DEFAULT_INITIAL_WINDOW_SIZE
    [] 0 0 false false (w, w, w, w) false None (mkTimers now None None None) Running.

Definition start_run : smonad t unit :=
  let! f := made (fun d => H2Frames.settings d false (_ws_over_h2_enabled cfg) (Some (_inbound_stream_window cfg))
                            (Some (max_concurrent_streams cfg))) in
  do! send_frame f in
  let conn_increment := h2_connection_window_size cfg - DEFAULT_INITIAL_WINDOW_SIZE in
  if conn_increment >? 0 then send_window_update 0 conn_increment else sret tt.

(** ** The watchdog *)

Definition _probe_peer : smonad t unit :=
  do! supdate (fun s => let tm := time s in
        set_time (mkTimers (_last_frame_at tm) (Some (clock s)) (_header_block_since tm) (wake_at tm)) s) in
  scatch (let! f := made (fun d => create d PING 0 0 (repeat 0 8)) in send_frame f) (fun _ => Some (sret tt)).

Definition set_wake (w : option Z) (s : t) : t :=
  let tm := time s in set_time (mkTimers (_last_frame_at tm) (_probe_sent_at tm) (_header_block_since tm) w) s.

(** The loop of [_liveness_watchdog] from a waking to the next sleep; a probe is
    followed by one more look. *)
Fixpoint watch (fuel : nat) : smonad t unit := fun s =>
  let now := clock s in
  let tm := time s in
  let sleep_or (at_ : Z) (k : smonad t unit) := (if at_ >? now then supdate (set_wake (Some at_)) else k) s in
  match _probe_sent_at tm, _header_block_since tm with
  | Some p, _ => sleep_or (p + _h2_ping_timeout cfg) (do! _close_connection NO_ERROR in supdate (set_wake None))
  | None, Some h =>
      if _header_timeout cfg >? 0
      then sleep_or (h + _header_timeout cfg) (do! _close_connection ENHANCE_YOUR_CALM in supdate (set_wake None))
      else if _h2_idle_timeout cfg >? 0 then
        sleep_or (_last_frame_at tm + _h2_idle_timeout cfg)
          (do! _probe_peer in match fuel with O => sraise OutOfFuel | S fuel => watch fuel end)
      else supdate (set_wake (Some (now + _header_timeout cfg))) s
  | None, None =>
      if _h2_idle_timeout cfg >? 0 then
        sleep_or (_last_frame_at tm + _h2_idle_timeout cfg)
          (do! _probe_peer in match fuel with O => sraise OutOfFuel | S fuel => watch fuel end)
      else supdate (set_wake (Some (now + _header_timeout cfg))) s
  end.

Definition _liveness_watchdog : smonad t unit :=
  if (_h2_idle_timeout cfg <=? 0) && (_header_timeout cfg <=? 0) then sret tt else watch 1.

(** ** The connection *)

(** The credit callback of a stream's recipient. *)
Definition _credit (sid n : Z) : smonad t unit := fun s =>
  (do! if dmem (_recipients s) sid then send_window_update sid n else sret tt in send_window_update 0 n) s.

Fixpoint credit_all (sid : Z) (l : list Z) : smonad t unit :=
  match l with [] => sret tt | n :: l => do! _credit sid n in credit_all sid l end.

Definition log_read (k : nat) (x : input) (s : t) : t :=
  set_stores (requests s) (recipients s)
    (alter (fun tk => mkTask (t_sid tk) (t_request tk) (t_recipient tk) (is_ws tk) (t_pushed tk) (t_running tk) (t_cancelled tk) (t_read tk ++ [x])) k
       (tasks s)) s.

(** A handler asks its recipient for the next chunk; it waits when there is none. *)
Definition take_chunk (k : nat) : smonad t unit := fun s =>
  match tasks s !! k with
  | Some tk =>
      if negb (t_running tk) then (Ok tt, s)
      else
        match recipients s !! t_recipient tk with
        | Some (Http r) =>
            match H2Recipient.next_chunk r with
            | (None, r) => (Ok tt, with_recipient (t_recipient tk) (fun _ => Http r) s)
            | (Some (c, credits), r) =>
                credit_all (t_sid tk) credits (log_read k (Got c) (with_recipient (t_recipient tk) (fun _ => Http r) s))
            end
        | _ => (Ok tt, s)
        end
  | None => (Ok tt, s)
  end.

(** The WebSocket of a stream reads [n] octets. *)
Definition read_ws (k : nat) (n : Z) : smonad t unit := fun s =>
  match tasks s !! k with
  | Some tk =>
      if negb (t_running tk) then (Ok tt, s)
      else
        match recipients s !! t_recipient tk with
        | Some (Ws r) =>
            match H2Ws.readexactly n r with
            | (None, r) => (Ok tt, with_recipient (t_recipient tk) (fun _ => Ws r) s)
            | (Some (Raise _), r) => (Ok tt, log_read k Incomplete (with_recipient (t_recipient tk) (fun _ => Ws r) s))
            | (Some (Ok (out, credits)), r) =>
                foldr (fun c m => do! send_window_update (t_sid tk) c in do! send_window_update 0 c in m) (sret tt) credits
                  (log_read k (Octets out) (with_recipient (t_recipient tk) (fun _ => Ws r) s))
            end
        | _ => (Ok tt, s)
        end
  | None => (Ok tt, s)
  end.

(** ** Server push *)

(** The event's fields as text, without the pseudo-header names. *)
Fixpoint push_fields (hs : list field) : result (list (pystr * pystr)) :=
  match hs with
  | [] => Ok []
  | (k, v) :: hs =>
      let* k := utf8_decode k in
      if startswith k (lit ":") then push_fields hs
      else let* v := utf8_decode v in let* rest := push_fields hs in Ok ((k, v) :: rest)
  end.

(** The same fields as octets again. *)
Fixpoint encode_fields (hs : list (pystr * pystr)) : result (list field) :=
  match hs with
  | [] => Ok []
  | (k, v) :: hs =>
      let* k := utf8_encode k in let* v := utf8_encode v in
      let* rest := encode_fields hs in Ok ((k, v) :: rest)
  end.

Definition _allocate_push_stream_id : smonad t Z := fun s =>
  let sid := _next_push_stream_id s in
  (Ok sid, set_ids (_last_peer_stream_id s) (sid + 2) (_peer_initial_window_size s) s).

(** The recipient of a pushed request: no body, and no credit to replay. *)
Definition push_recipient : recipient :=
  Http (H2Recipient.mark_end_of_stream_on_headers
          (H2Recipient.__init__ (_stream_queue_depth cfg) false DEFAULT_INITIAL_WINDOW_SIZE (_max_body_size cfg)
             (_min_body_rate cfg) (_min_body_rate_grace cfg))).

Definition push_parent (sid : Z) (s : t) : option H2Request.Connection :=
  match find_child sid (root s) with
  | Some c => match conn c with Some rq => rq_conn <$> requests s !! rq | None => None end
  | None => None
  end.

(** The pushed request is dispatched. *)
Definition dispatch_push (sid : Z) (c : H2Request.Connection) (s : t) : t :=
  let '(rq, s) := new_request c s in
  let s := set_extensions rq (_build_h2_extensions sid H2Request._DEFAULT_PRIORITY s) s in
  let s := add_recipient sid push_recipient s in
  _spawn_stream_task sid rq (length (recipients s) - 1) true s.

(** A push event of a handler on stream [parent_stream_id]. *)
Definition _handle_push (path : pystr) (hs : list field) (parent_stream_id : Z) : smonad t unit :=
  let! sid := _allocate_push_stream_id in
  fun s =>
    let parent := push_parent parent_stream_id s in
    let parent_headers := match parent with Some c => H2Request.headers c | None => HttpHeaders.__init__ [] end in
    let parent_scheme := match parent with Some c => H2Request.scheme c | None => lit "https" end in
    let raw_authority := match HttpHeaders.get (lit "host") [] parent_headers with [] => lit "localhost" | v => v end in
    (let! authority := slift (utf8_decode raw_authority) in
     let! regular := slift (push_fields hs) in
     let! pp := made (fun d => push_promise d parent_stream_id sid
                        [(METHOD, lit "GET"); (PATH, path); (SCHEME, parent_scheme); (AUTHORITY, authority)] regular) in
     do! send_frame pp in
     let! target := slift (H2Request._split_h2_path netloc_ok path) in
     let! fields := slift (encode_fields regular) in
     let '(decoded, raw_path, query) := target in
     supdate (dispatch_push sid (H2Request.mkConnection (lit "http") (lit "2") (lit "GET") parent_scheme decoded raw_path
                                   query (HttpHeaders.__init__ fields)))) s.

(** The handler of a request failed: the peer gave up its response, or it took
    too long ([gave_up]), or it raised. *)
Definition fail_stream (sid : Z) (gave_up : bool) : smonad t unit :=
  send_rst sid (if gave_up then CANCEL else INTERNAL_ERROR).

(** What happens on a connection, at a reading of the clock: a turn of the frame
    loop, a read of a handler, a push of a handler, its failure, its end, what it
    sends, the watchdog waking. *)
Inductive happening : Type :=
| Turn
| Take (k : nat)
| ReadWs (k : nat) (n : Z)
| Push (k : nat) (path : pystr) (hs : list field)
| Fails (k : nat) (gave_up : bool)
| Done (k : nat)
| Sends (h : H2Sender.happening)
| Wake.

Definition happen (h : happening) (s : t) : t :=
  match h with
  | Turn =>
      match loop s with
      | Running =>
          match turn s with
          | (Ok true, s) => s
          | (Ok false, s) => set_loop Returned s
          | (Raise e, s) => set_loop (Escaped e) s
          end
      | _ => s
      end
  | Take k => (take_chunk k s).2
  | ReadWs k n => (read_ws k n s).2
  | Push k path hs =>
      match tasks s !! k with
      | Some tk => if t_running tk && negb (is_ws tk || t_pushed tk) then (_handle_push path hs (t_sid tk) s).2 else s
      | None => s
      end
  | Fails k gave_up =>
      match tasks s !! k with
      | Some tk => if t_running tk && negb (is_ws tk) then (fail_stream (t_sid tk) gave_up s).2 else s
      | None => s
      end
  | Done k => match tasks s !! k with Some tk => if t_running tk then (_make_done_cb k s).2 else s | None => s end
  | Sends h =>
      match h with
      | H2Sender.Send sid _ | H2Sender.Step sid _ | H2Sender.Stall sid _ | H2Sender.Cancel sid _ =>
          if sid =? 0 then s else set_net (H2Sender.happen http_date (net s) h) s
      | _ => s
      end
  | Wake => match wake_at (time s) with Some w => if (w <=? clock s) && (match loop s with Running => true | _ => false end) then (watch 1 s).2 else s | None => s end
  end.

Fixpoint run (l : list (Z * happening)) (s : t) : t :=
  match l with [] => s | (now, h) :: l => run l (happen h (set_clock now s)) end.

(** The connection from its start. *)
Definition connection (x : R) (d : D) (now : Z) (l : list (Z * happening)) : t :=
  run l (_liveness_watchdog (start_run (init x d now)).2).2.

(** ** Any operation is made of a few transitions *)

Definition is_goaway (x : Z * H2Sender.wframe) : bool :=
  match x with (sid, H2Sender.WRaw (GoAway _ _ _ _)) => sid =? 0 | _ => false end.

Definition flags_of (tk : task) : bool * bool * bool := (t_running tk, is_ws tk, t_pushed tk).

(** What changes neither the set of running handlers nor their counts; frames
    that are not a GOAWAY may be written. *)
Record grown (s s' : t) : Prop := mkGrown {
  g_tasks : flags_of <$> tasks s' = flags_of <$> tasks s;
  g_active : _active_stream_count s' = _active_stream_count s;
  g_ws : _ws_stream_count s' = _ws_stream_count s;
  g_closed : _closed_streams s' = _closed_streams s;
  g_goaway : _goaway_sent s' = _goaway_sent s;
  g_writer : writer_closed s' = writer_closed s;
  g_loop : loop s' = loop s;
  g_wire : exists w, H2Sender.wire (net s') = H2Sender.wire (net s) ++ w /\ Forall (fun x => is_goaway x = false) w
}.

(** The first lines of the done-callback. *)
Definition stop_task (k : nat) (tk : task) (s : t) : t :=
  set_maps (_recipients s) (_stream_tasks s) (Z.max 0 (_active_stream_count s - 1))
    (if is_ws tk then Z.max 0 (_ws_stream_count s - 1) else _ws_stream_count s)
    (set_stores (requests s) (recipients s)
       (<[k := mkTask (t_sid tk) (t_request tk) (t_recipient tk) (is_ws tk) (t_pushed tk) false (t_cancelled tk) (t_read tk)]> (tasks s)) s).

(** [opening]: the transition may start the handler of a request of the peer. *)
Inductive step (opening : bool) (s : t) : t -> Prop :=
| step_grown s' : grown s s' -> step opening s s'
| step_close f : step opening s (set_goaway (control_write f s).2)
| step_shut : step opening s (set_goaway s)
| step_mark sid via_rst : step opening s (_mark_closed sid via_rst s)
| step_start sid rq rc ws :
    opening = true -> _active_stream_count s < max_concurrent_streams cfg ->
    (ws = true -> 0 < h2_ws_max_streams_per_connection cfg -> _ws_stream_count s < h2_ws_max_streams_per_connection cfg) ->
    step opening s (start_task sid rq rc ws false s)
| step_push sid rq rc : step opening s (start_task sid rq rc false true s)
| step_stop k tk : tasks s !! k = Some tk -> t_running tk = true -> step opening s (stop_task k tk s).

Abbreviation steps := (rtc (step true)).
Definition keeps_in (o : bool) {A} (m : smonad t A) : Prop := forall s, rtc (step o) s (m s).2.
Abbreviation keeps := (keeps_in true).

Lemma grown_refl s : grown s s.
Proof. split; try done. exists []. by rewrite app_nil_r. Qed.

Lemma grown_steps {o} s s' : grown s s' -> rtc (step o) s s'.
Proof. intros H. by apply rtc_once, step_grown. Qed.

Lemma keeps_ret o {A} (a : A) : keeps_in o (sret a).
Proof. intros s. apply rtc_refl. Qed.
Lemma keeps_raise o {A} e : keeps_in o (sraise (A := A) e).
Proof. intros s. apply rtc_refl. Qed.
Lemma keeps_lift o {A} (x : result A) : keeps_in o (slift x).
Proof. intros s. apply rtc_refl. Qed.

Lemma keeps_bind o {A B} (m : smonad t A) (k : A -> smonad t B) : keeps_in o m -> (forall a, keeps_in o (k a)) -> keeps_in o (sbind m k).
Proof.
  intros Hm Hk s. specialize (Hm s). unfold sbind. destruct (m s) as [[a|e] s']; [|done].
  cbn [snd] in Hm. etrans; [exact Hm|]. apply Hk.
Qed.

Lemma keeps_catch o {A} (m : smonad t A) (h : exn -> option (smonad t A)) :
  keeps_in o m -> (forall e k, h e = Some k -> keeps_in o k) -> keeps_in o (scatch m h).
Proof.
  intros Hm Hh s. specialize (Hm s). unfold scatch. destruct (m s) as [[a|e] s']; [done|].
  destruct (h e) as [k|] eqn:Eh; [|done]. cbn [snd] in Hm. etrans; [exact Hm|]. by apply (Hh e).
Qed.

Lemma keeps_update o (f : t -> t) : (forall s, grown s (f s)) -> keeps_in o (supdate f).
Proof. intros H s. apply grown_steps, H. Qed.

(** A first transition, then an operation. *)
Lemma after_grown {o} {A} s s' (m : smonad t A) : grown s s' -> keeps_in o m -> rtc (step o) s (m s').2.
Proof. intros Hg Hm. etrans; [by apply grown_steps|apply Hm]. Qed.

Lemma keeps_at {o} {A} (m : smonad t A) s : keeps_in o m -> rtc (step o) s (m s).2.
Proof. intros Hm. apply Hm. Qed.

Ltac same := split; try done; exists []; by rewrite app_nil_r.

Lemma made_state m s : (made m s).2 = s.
Proof. done. Qed.

Lemma keeps_made o m : keeps_in o (made m).
Proof. intros s. apply rtc_refl. Qed.

Lemma grown_write s f : frame_type f <> Some GOAWAY -> grown s (control_write f s).2.
Proof. intros Hf. split; try done. exists [(0, H2Sender.WRaw f)]. split; [done|]. constructor; [by destruct f|constructor]. Qed.

(** Writing the GOAWAY and closing. *)
Lemma keeps_close o code : keeps_in o (_close_connection code).
Proof.
  intros s. unfold _close_connection, send_goaway, made, scatch, sbind, supdate.
  destruct (rmap fst _) as [f|e]; cbn; apply rtc_once; [apply (step_close _ s f)|apply step_shut].
Qed.

Lemma keeps_error o code : keeps_in o (_connection_error code).
Proof.
  intros s. unfold _connection_error. destruct (_goaway_sent s); [apply rtc_refl|].
  unfold send_goaway, made, sbind, supdate. destruct (rmap fst _) as [f|e]; cbn; [|apply rtc_refl].
  apply rtc_once, (step_close _ s f).
Qed.

Lemma keeps_count o : keeps_in o _count_emitted_rst.
Proof.
  intros s. unfold _count_emitted_rst. destruct (meters s) as [[[rst ping] sets] empty].
  destruct (RateWindow.hit _ _ rst) as [over rst']. apply after_grown; [same|].
  destruct over; [apply keeps_close|apply keeps_ret].
Qed.

Lemma keeps_send o f : frame_type f <> Some GOAWAY -> keeps_in o (send_frame f).
Proof.
  intros Hf. apply keeps_bind; [intros s; by apply grown_steps, grown_write|]. intros _ s.
  destruct (_ && _); [apply keeps_count|apply keeps_ret].
Qed.

(** A frame of the factory that is then sent. *)
Lemma keeps_made_send o m :
  (forall d f d', m d = Ok (f, d') -> frame_type f <> Some GOAWAY) -> keeps_in o (let! f := made m in send_frame f).
Proof.
  intros Hm s. unfold sbind at 1, made. destruct (m (decoder s)) as [[f d']|e] eqn:Em; cbn; [|apply rtc_refl].
  by apply keeps_send, (Hm _ _ _ Em).
Qed.

Lemma create_type d ft fl sid data f d' : ft <> GOAWAY -> create d ft fl sid data = Ok (f, d') -> frame_type f <> Some GOAWAY.
Proof.
  intros Hft. unfold create. destruct ft; try done; cbn; intros H; repeat first [case_match | progress inv_ok]; simplify_eq; try done.
  unfold new_data in *. repeat case_match; by simplify_eq.
Qed.

Lemma keeps_rst o sid code : keeps_in o (send_rst sid code).
Proof.
  apply keeps_made_send. intros d f d'. unfold rst_stream. intros H. apply rbind_Ok in H as (l & _ & H). by apply create_type in H.
Qed.

(** A WINDOW_UPDATE. *)
Lemma grown_window sid n s : grown s (send_window_update sid n s).2.
Proof.
  unfold send_window_update, made, sbind at 1, window_update, create.
  destruct (to_bytes 4 n) as [data|e]; cbn [rbind rmap]; [|apply grown_refl].
  unfold send_frame, sbind, control_write, supdate, sret. cbn [frame_type]. refine (grown_write s _ _). done.
Qed.

Lemma keeps_window o sid n : keeps_in o (send_window_update sid n).
Proof. intros s. apply grown_steps, grown_window. Qed.

Create HintDb keeps.
#[local] Hint Resolve keeps_ret keeps_raise keeps_lift keeps_close keeps_error keeps_count keeps_send keeps_rst keeps_window keeps_made : keeps.

(** [walk] follows the structure of an operation. *)
Ltac walk :=
  repeat first
    [ done
    | match goal with |- keeps (if ?b then _ else _) => destruct b end
    | solve [eauto with keeps]
    | apply keeps_bind; [|intros ?]
    | apply keeps_update; intros ?
    | case_match ].

Lemma grown_child sid f s : grown s (with_child sid f s).
Proof. unfold with_child. destruct (get_child sid s); same. Qed.

Lemma grown_sender sid s : grown s (make_sender sid s).
Proof. unfold make_sender. destruct (dmem _ _); same. Qed.

Lemma grown_net n s : H2Sender.wire n = H2Sender.wire (net s) -> grown s (set_net n s).
Proof. intros Hw. split; try done. exists []. rewrite app_nil_r. by split. Qed.

Lemma grown_signal s : grown s (_signal_recipients s).
Proof.
  assert (H : forall l s0, grown s s0 -> grown s (foldl (fun s (x : Z * nat) => with_recipient x.2 recipient_put_disconnect s) s0 l)).
  { induction l as [|x l IH]; [done|]. intros s0 H0. apply IH. destruct H0. by split. }
  apply H, grown_refl.
Qed.

Lemma grown_flags f k s :
  (forall tk, flags_of (f tk) = flags_of tk) ->
  grown s (set_stores (requests s) (recipients s) (alter f k (tasks s)) s).
Proof.
  intros Hf. split; try done; [|exists []; by rewrite app_nil_r]. cbn [tasks set_stores].
  apply list_eq. intros i. rewrite !list_lookup_fmap. destruct (decide (i = k)) as [->|Hne].
  - rewrite list_lookup_alter_eq. destruct (tasks s !! k) as [tk|]; [|done]. cbn. by rewrite Hf.
  - by rewrite list_lookup_alter_ne.
Qed.

Lemma grown_cancel sid s : grown s (cancel_task sid s).
Proof. unfold cancel_task. destruct (dget _ _); [|same]. by apply grown_flags. Qed.

Lemma grown_log k x s : grown s (log_read k x s).
Proof. by apply grown_flags. Qed.

#[local] Hint Resolve grown_refl grown_child grown_sender grown_signal grown_cancel grown_log grown_net : keeps.

Lemma grown_trans s1 s2 s3 : grown s1 s2 -> grown s2 s3 -> grown s1 s3.
Proof.
  intros [A1 A2 A3 A4 A5 A6 A0 (w & A7 & A8)] [B1 B2 B3 B4 B5 B6 B0 (w' & B7 & B8)]. split; try congruence.
  exists (w ++ w'). rewrite B7, A7, app_assoc. split; [done|by apply Forall_app].
Qed.

Lemma grown_release k s : grown s (_release_recipient_credit k s).2.
Proof.
  unfold _release_recipient_credit. destruct (recipients s !! k) as [[r|r]|]; [|apply grown_refl..].
  unfold H2Recipient.take_uncredited. cbv beta iota zeta. destruct (_ || _); [same|].
  eapply grown_trans; [|apply grown_window]. same.
Qed.

Lemma keeps_release k : keeps (_release_recipient_credit k).
Proof. intros s. apply grown_steps, grown_release. Qed.

Lemma keeps_meter ft n : keeps (_meter ft n).
Proof.
  intros s. unfold _meter. destruct (meters s) as [[[rst ping] sets] empty].
  assert (H : forall m (over : bool), steps s ((if over then do! _connection_error ENHANCE_YOUR_CALM in sret true else sret false) (set_meters m s)).2).
  { intros m over. apply after_grown; [same|]. destruct over; walk. }
  destruct ft; try apply rtc_refl; try (destruct (n =? 0); [|apply rtc_refl]);
    destruct (RateWindow.hit _ _ _) as [over w]; apply H.
Qed.

#[local] Hint Resolve keeps_release keeps_meter : keeps.

Lemma done_steps k tk s : tasks s !! k = Some tk -> t_running tk = true -> rtc (step false) s (_make_done_cb k s).2.
Proof.
  intros Hk Hr. unfold _make_done_cb. rewrite Hk. etrans; [by apply rtc_once, (step_stop _ s k tk)|].
  set (s1 := drop_sender (t_sid tk) _). etrans; [apply rtc_once, (step_grown _ _ s1); same|].
  unfold sbind at 1. set (s2 := match dget _ _ with Some rc => _release_recipient_credit rc | None => sret tt end s1).
  assert (H2 : grown s1 s2.2) by (unfold s2; destruct (dget _ _); [apply grown_release|apply grown_refl]).
  etrans; [apply rtc_once, step_grown, H2|]. destruct s2 as [[[]|e] s2]; [|apply rtc_refl]. unfold supdate. cbn [snd].
  destruct (dmem _ _); [|apply rtc_refl].
  etrans; [|apply rtc_once, step_mark]. apply rtc_once, step_grown. same.
Qed.

(** The coroutine of a response writes no frame of the control plane. *)
Definition no_raw (f : H2Sender.wframe) : Prop := match f with H2Sender.WRaw _ => False | _ => True end.
Definition plain (i : H2Sender.instr) : Prop :=
  match i with H2Sender.Call (H2Sender.SendFrame _) => False | H2Sender.Write fs => Forall no_raw fs | _ => True end.

Lemma exec_plain c e x i a :
  plain i -> H2Sender.exec http_date c e x i = Some a -> Forall plain (H2Sender.a_next a) /\ Forall no_raw (H2Sender.a_out a).
Proof.
  intros Hp. unfold H2Sender.exec, H2Sender.__call__, H2Sender._handle_body_content, H2Sender._handle_trailers, H2Sender._write_data,
    H2Sender._write_response_start_and_body, H2Sender.done, H2Sender.continue.
  repeat case_match; intros; simplify_eq; cbn [H2Sender.a_next H2Sender.a_out];
    split; repeat (constructor; try done).
  exact Hp.
Qed.

Lemma run_sender_plain fuel c e x l out c' e' x' out' :
  Forall plain l -> Forall no_raw out -> run_sender fuel c e x l out = Some (c', e', x', out') -> Forall no_raw out'.
Proof.
  revert c e x l out. induction fuel as [|fuel IH]; intros c e x [|i l] out Hl Ho; cbn [run_sender]; try by intros; simplify_eq.
  apply Forall_cons in Hl as [Hi Hl]. destruct (H2Sender.exec _ _ _ _ _) as [a|] eqn:Ea; [|done].
  apply exec_plain in Ea as [H1 H2]; [|done]. apply IH; by apply Forall_app.
Qed.

Lemma keeps_response sid body status hs : keeps (send_response sid body status hs).
Proof.
  intros s. unfold send_response. destruct (dget _ sid) as [x|]; [|apply rtc_refl].
  destruct (run_sender _ _ _ _ _ _) as [[[[c e] x'] out]|] eqn:Er; [|apply rtc_refl].
  apply run_sender_plain in Er; [|by repeat constructor|constructor]. apply grown_steps. split; try done.
  exists ((fun f => (sid, f)) <$> out). split; [done|]. apply Forall_fmap. eapply Forall_impl; [exact Er|].
  by intros [].
Qed.

#[local] Hint Resolve keeps_response : keeps.

Lemma keeps_refuse sid : keeps (_refuse_oversized_declared_body sid).
Proof. intros s. unfold _refuse_oversized_declared_body.
  repeat case_match; try apply rtc_refl.
  apply (keeps_at (sbind _ _)). walk.
Qed.

Lemma grown_extensions k x s : grown s (set_extensions k x s).
Proof. same. Qed.

Lemma keeps_apply sid rq : keeps (_apply_priority_and_extensions sid rq).
Proof. intros s. unfold _apply_priority_and_extensions. repeat case_match; try apply rtc_refl;
  apply grown_steps; same. Qed.

(** A refused declaration leaves the count of handlers as it was. *)
Lemma refuse_false sid s s' : _refuse_oversized_declared_body sid s = (Ok false, s') -> s' = s.
Proof.
  unfold _refuse_oversized_declared_body. destruct (get_child sid s) as [c|]; [|by intros [= <-]].
  destruct (expected_content_length c) as [n|]; [|by intros [= <-]]. destruct (_ || _); [by intros [= <-]|].
  unfold sbind. destruct (send_response _ _ _ _ s) as [[[]|e] s1]; [|done]. by destruct (send_rst _ _ s1) as [[[]|e] s2].
Qed.

Lemma apply_ok sid rq s u s' : _apply_priority_and_extensions sid rq s = (Ok u, s') -> grown s s'.
Proof. unfold _apply_priority_and_extensions. repeat case_match; intros; simplify_eq; same. Qed.

Lemma spawn_steps sid rq r n s :
  _active_stream_count s < max_concurrent_streams cfg -> steps s (_spawn_stream_task sid rq n false (add_recipient sid r s)).
Proof.
  intros Ha. etrans; [apply (grown_steps _ (add_recipient sid r s)); same|]. by apply rtc_once, step_start.
Qed.

Lemma keeps_dispatched sid rq on s :
  _active_stream_count s < max_concurrent_streams cfg -> steps s (dispatched sid rq on s).2.
Proof.
  intros Ha. unfold dispatched. unfold sbind at 1. pose proof (keeps_refuse sid s) as Hr.
  destruct (_refuse_oversized_declared_body sid s) as [[[]|e] s1] eqn:Er; try exact Hr. apply refuse_false in Er as ->.
  unfold sbind at 1. pose proof (keeps_apply sid rq s) as Hp.
  destruct (_apply_priority_and_extensions sid rq s) as [[u|e] s2] eqn:Ep; [|exact Hp]. apply apply_ok in Ep.
  unfold supdate, sbind, sret. cbn [snd]. set (s3 := match on with Some b => with_child sid (on_headers_received b) s2 | None => s2 end).
  assert (Hg : grown s s3) by (eapply grown_trans; [exact Ep|]; unfold s3; destruct on; [apply grown_child|apply grown_refl]).
  etrans; [apply grown_steps; exact Hg|]. apply spawn_steps. by rewrite (g_active _ _ Hg).
Qed.

Lemma attach_grown sid conn s : exists rq s', attach sid conn s = (Ok rq, s') /\ grown s s'.
Proof.
  unfold attach, new_request. eexists _, _. split; [done|]. eapply grown_trans; [|apply grown_child]. same.
Qed.

Lemma keeps_websocket sid rq s :
  _active_stream_count s < max_concurrent_streams cfg -> steps s (_handle_h2_websocket sid rq s).2.
Proof.
  intros Ha. unfold _handle_h2_websocket. destruct (_ && _) eqn:Ew; [apply keeps_rst|]. cbn [snd].
  etrans; [apply grown_steps, (grown_sender sid s)|]. etrans; [apply (grown_steps _ (add_recipient sid (Ws (H2Ws.__init__ H2Ws._DEFAULT_MAX_BUFFER)) (make_sender sid s))); same|].
  pose proof (grown_sender sid s) as Hg. apply rtc_once, step_start; [done|..]; cbn.
  - by rewrite (g_active _ _ Hg).
  - intros _ Hc. rewrite (g_ws _ _ Hg). apply andb_false_iff in Ew as [Ew|Ew]; rewrite ?Z.gtb_ltb, ?Z.geb_leb in Ew; lia.
Qed.

Lemma bind_at {A B} (m : smonad t A) (k : A -> smonad t B) s :
  steps s (m s).2 -> (forall a s', m s = (Ok a, s') -> steps s' (k a s').2) -> steps s (sbind m k s).2.
Proof.
  intros Hm Hk. unfold sbind. destruct (m s) as [[a|e] s'] eqn:Em; [|done]. etrans; [exact Hm|]. by apply Hk.
Qed.

(** What both header paths do with a parsed block. *)
Lemma keeps_parsed sid h (k : H2Request.Connection -> smonad t bool) s :
  (forall conn s', _active_stream_count s' = _active_stream_count s -> steps s' (k conn s').2) ->
  steps s ((let! x := slift (H2Request.parse_headers netloc_ok h) in
            if malformed x.1 then do! send_rst sid PROTOCOL_ERROR in sret true
            else match x.2 with None => sraise PlainException | Some conn => k conn end) s).2.
Proof.
  intros Hk. apply bind_at; [apply rtc_refl|]. intros [h' c] s' [= _ ->]. cbn [fst snd].
  destruct (malformed h'); [apply (keeps_at (sbind _ _)); walk|]. destruct c; [by apply Hk|apply rtc_refl].
Qed.

Lemma keeps_headers h sid : keeps (_on_headers_frame h sid).
Proof.
  intros s. unfold _on_headers_frame. destruct (Z.geb_spec (_active_stream_count s) (max_concurrent_streams cfg)) as [Ha|Ha].
  { destruct (negb _); [apply rtc_refl|apply (keeps_at (sbind _ _)); walk]. }
  destruct (negb _); [apply rtc_refl|]. apply keeps_parsed. intros conn s1 H1.
  destruct (attach_grown sid conn s1) as (rq & s2 & Hat & Hg).
  apply bind_at; rewrite Hat; [by apply grown_steps|]. intros rq' s' [= <- <-].
  assert (Ha2 : _active_stream_count s2 < max_concurrent_streams cfg) by (rewrite (g_active _ _ Hg); lia).
  destruct (bool_decide _); [|by apply keeps_dispatched]. destruct (negb _); [apply (keeps_at (sbind _ _)); walk|].
  apply bind_at; [apply grown_steps, grown_child|]. intros u s3 [= <- <-].
  apply bind_at; [|intros; apply rtc_refl]. apply keeps_websocket. by rewrite (g_active _ _ (grown_child _ _ _)).
Qed.

Lemma keeps_continuation b payload sid : keeps (_on_continuation_frame b payload sid).
Proof.
  intros s. unfold _on_continuation_frame. destruct (header_frame s) as [h|]; [|apply (keeps_at (sbind _ _)); walk].
  destruct (negb _); [apply (keeps_at (sbind _ _)); walk|]. cbv zeta. set (h1 := extend_block payload h).
  etrans; [apply (grown_steps _ (set_block true (Some h1) s)); same|].
  destruct (_ >? _); [apply (keeps_at (sbind _ _)); walk|]. destruct (negb _); [apply rtc_refl|].
  destruct (parse_payload _ _) as [[h2 d]|e]; [|apply rtc_refl].
  match goal with |- steps ?a (_ ?b).2 => etrans; [apply (grown_steps a b); same|] end.
  match goal with |- steps ?a _ => generalize a end. intros s0.
  apply bind_at; [apply rtc_refl|]. intros [h3 c] s' [= _ ->]. cbn [fst snd].
  apply bind_at; [apply grown_steps; same|]. intros u s1 [= <- <-].
  destruct (malformed h3); [apply (keeps_at (sbind _ _)); walk|]. destruct c as [conn|]; [|apply rtc_refl].
  match goal with |- steps ?a _ => generalize a end. intros s1.
  destruct (Z.geb_spec (_active_stream_count s1) (max_concurrent_streams cfg)) as [Ha|Ha].
  { apply (keeps_at (sbind _ _)). apply keeps_bind; [apply keeps_update; intros; apply grown_child|]. intros _. walk. }
  destruct (attach_grown sid conn s1) as (rq & s2 & Hat & Hg).
  apply bind_at; rewrite Hat; [by apply grown_steps|]. intros rq' s4 [= <- <-]. apply keeps_dispatched.
  rewrite (g_active _ _ Hg). lia.
Qed.

Lemma keeps_deliver sid b payload : keeps (deliver sid b payload).
Proof.
  intros s. unfold deliver. destruct (dget _ sid) as [k|]; [|apply rtc_refl].
  destruct (recipients s !! k) as [[r|r]|]; [| |apply rtc_refl].
  - destruct (H2Recipient.put_DATAFrame _ _ _ _) as [[] r']; [apply grown_steps; same|].
    refine (after_grown _ _ (sbind _ _) _ _); [same|]. apply keeps_bind; [walk|]. intros _. apply keeps_update. intros; same.
  - destruct (H2Ws.put_DATAFrame _ _ _) as [ok r']. destruct (_ && _); [|apply grown_steps; same].
    refine (after_grown _ _ (sbind _ _) _ _); [same|]. walk.
Qed.

Lemma keeps_data b payload sid c : keeps (_on_data_frame b payload sid c).
Proof.
  unfold _on_data_frame. case_bool_decide; [walk|]. apply keeps_bind; [apply keeps_update; intros; apply grown_child|]. intros _.
  destruct (match expected_content_length c with Some _ => _ | None => _ end); [walk|].
  apply keeps_bind; [apply keeps_update; intros; apply grown_child|]. intros _. apply keeps_deliver.
Qed.

Lemma keeps_trailers e sid : keeps (on_trailers e sid).
Proof.
  intros s. unfold on_trailers. destruct (negb e); [apply keeps_rst|]. cbv zeta.
  etrans; [apply grown_steps, (grown_child sid (on_data_received true) s)|].
  set (s1 := with_child _ _ _). destruct (dget _ sid) as [k|]; [|apply rtc_refl].
  destruct (recipients s1 !! k) as [[r|r]|]; try apply rtc_refl. apply grown_steps. same.
Qed.

Lemma happen_wire h n : (match h with H2Sender.Step _ _ => False | _ => True end) -> H2Sender.wire (H2Sender.happen http_date n h) = H2Sender.wire n.
Proof.
  destruct h; intros Hh; try done; cbn [H2Sender.happen]; try (destruct (dmem _ _); done); unfold H2Sender.with_sender; by destruct (dget _ _).
Qed.

#[local] Hint Resolve keeps_dispatched keeps_headers keeps_continuation keeps_data keeps_trailers : keeps.

Lemma keeps_window_update b n : keeps (WindowUpdateResponder b n).
Proof.
  intros s. unfold WindowUpdateResponder. destruct (negb _); [apply keeps_error|]. destruct (n =? 0); [destruct (_ =? 0); [apply keeps_error|apply keeps_rst]|].
  destruct (_ =? 0).
  - destruct (_ >? _); [apply keeps_error|]. apply grown_steps. same.
  - etrans; [apply grown_steps, (grown_sender (H2Frames.stream_id b) s)|]. set (s1 := make_sender _ s).
    destruct (dget _ _) as [x|]; [|apply rtc_refl]. destruct (_ >? _); [apply keeps_rst|]. apply grown_steps, grown_net. by rewrite happen_wire.
Qed.

Lemma keeps_settings b attrs : keeps (SettingsResponder b attrs).
Proof.
  intros s. unfold SettingsResponder. destruct (negb _); [apply keeps_error|].
  destruct (flag _ _); [destruct (negb _); [apply keeps_error|apply rtc_refl]|]. destruct (negb _); [apply keeps_error|].
  destruct (match dget attrs 2 with Some _ => _ | None => _ end); [apply keeps_error|].
  destruct (match dget attrs 4 with Some _ => _ | None => _ end); [apply keeps_error|].
  destruct (match dget attrs 5 with Some _ => _ | None => _ end); [apply keeps_error|]. cbv zeta.
  match goal with |- steps _ (_ ?b).2 => etrans; [apply (grown_steps _ b)|] end.
  - destruct (dget attrs 5); destruct (dget attrs 4); try destruct (negb _); same.
  - apply keeps_made_send. intros d f d' H. unfold H2Frames.settings in H. by apply create_type in H.
Qed.

Lemma keeps_priority_update sid v : keeps (PriorityUpdateResponder sid v).
Proof.
  intros s. unfold PriorityUpdateResponder. destruct (parse_priority_field v) as [hint|e]; [|apply rtc_refl]. cbv zeta.
  set (s1 := match find_stream sid s with Some _ => s | None => _ end).
  assert (H1 : grown s s1) by (unfold s1; destruct (find_stream sid s); [same|destruct (_ >=? _); same]). clearbody s1.
  set (s2 := if sid =? 0 then _ else _).
  assert (H2 : grown s s2) by (eapply grown_trans; [exact H1|]; unfold s2; destruct (sid =? 0); [same|apply grown_child]). clearbody s2.
  destruct (find_stream sid s2) as [c|]; [destruct (conn c) as [rq|]; [destruct (requests s2 !! rq) as [r|];
    [destruct (rq_extensions r)|]|]|]; apply grown_steps; try exact H2.
  eapply grown_trans; [exact H2|]. apply grown_extensions.
Qed.

Lemma keeps_rst_responder b : keeps (RstStreamResponder b).
Proof.
  intros s. unfold RstStreamResponder. destruct (_ =? 0); [apply keeps_error|].
  destruct (match find_stream _ _ with Some _ => _ | None => _ end); [apply keeps_error|]. cbv zeta.
  set (sid := H2Frames.stream_id b). etrans; [apply grown_steps, (grown_cancel sid s)|]. set (s1 := cancel_task sid s).
  etrans; [apply (grown_steps _ (set_root (set_children (dpop (children (root s1)) sid) (root s1)) s1)); same|].
  set (s2 := set_root _ s1). etrans; [apply rtc_once, (step_mark _ s2 sid true)|]. set (s3 := _mark_closed sid true s2).
  set (s4 := set_maps _ _ _ _ _). etrans; [apply (grown_steps _ s4); same|]. destruct (dget _ sid); [apply keeps_release|apply rtc_refl].
Qed.

#[local] Hint Resolve keeps_window_update keeps_settings keeps_priority_update keeps_rst_responder : keeps.

Lemma keeps_ping b payload : keeps (PingResponder b payload).
Proof.
  unfold PingResponder. destruct (negb _); [walk|]. destruct (flag _ _); [walk|]. apply keeps_made_send.
  intros d f d' H. by apply create_type in H.
Qed.

Lemma keeps_respond f : keeps (respond f).
Proof. destruct f; cbn [respond]; unfold PriorityResponder; try solve [walk]. apply keeps_ping. Qed.

Lemma keeps_absent ft sid : keeps (absent_stream ft sid).
Proof.
  intros s. unfold absent_stream. cbv zeta.
  destruct (match dget _ sid with Some _ => _ | None => _ end) as [b|]; repeat case_match; try apply rtc_refl;
    try (apply (keeps_at (sbind _ _)); walk). apply grown_steps. same.
Qed.

#[local] Hint Resolve keeps_respond keeps_absent : keeps.

Lemma keeps_check f ft : keeps (check_frame f ft).
Proof.
  intros s. unfold check_frame. apply (keeps_at (sbind _ _)). apply keeps_bind; [walk|]. intros over.
  destruct over; [walk|]. destruct (_ >? _); [walk|]. destruct (_ && _); [walk|]. destruct (_ && _); [walk|].
  destruct (_ && _); [walk|]. apply keeps_bind.
  - intros s1. destruct (_ && _); [apply keeps_absent|apply rtc_refl].
  - intros [|]; [walk|]. intros s1. destruct (if _ : bool then _ else _) as [c|]; [|apply rtc_refl].
    destruct (_validate_stream_state _ _) as [[code []]|]; [..|apply rtc_refl]; apply (keeps_at (sbind _ _)); walk.
Qed.

(** Every frame but a GOAWAY. *)
Lemma keeps_handle f s : frame_type f <> Some GOAWAY -> steps s (handle_frame f s).2.
Proof.
  intros Hf. unfold handle_frame. cbv zeta. set (sid := H2Frames.stream_id (base_of f)).
  destruct f, (get_child sid s) as [c|]; try done; try (apply (keeps_at (sbind _ _)); walk); try apply rtc_refl.
  - destruct (_ && _); [apply (keeps_at (sbind _ _)); walk|].
    etrans; [apply grown_steps, (grown_sender sid s)|]. apply (keeps_at (sbind _ _)).
    apply keeps_bind; [walk|]. intros []; [walk|]. apply keeps_bind; [apply keeps_update; intros; same|walk].
  - etrans; [apply grown_steps, (grown_sender sid s)|]. apply (keeps_at (sbind _ _)).
    apply keeps_bind; [walk|]. intros []; [|walk]. apply keeps_bind; [apply keeps_update; intros; same|walk].
Qed.

Lemma grown_receive s : grown s (receive s).2.
Proof.
  unfold receive. destruct (readexactly 9 (reader s)) as [[data x]|[]]; try apply grown_refl.
  destruct (_ >? _); [same|]. destruct (_ =? 0); [same|].
  destruct (readexactly _ x) as [[payload x']|[]]; try apply grown_refl; same.
Qed.

Lemma keeps_receive : keeps receive.
Proof. intros s. apply grown_steps, grown_receive. Qed.

Lemma keeps_load data : keeps (load_frame data).
Proof. intros s. unfold load_frame. destruct (load _ _) as [[f d]|e]; [apply grown_steps; same|apply rtc_refl]. Qed.

#[local] Hint Resolve keeps_receive keeps_load keeps_check : keeps.

(** A turn: a few transitions, or such up to the GOAWAY that answers the peer's
    and ends the loop. *)
Definition answered (s : t) (x : result bool * t) : Prop :=
  exists s1 f, steps s s1 /\ x.1 <> Ok true /\ grown (control_write f s1).2 x.2.

Lemma goaway_answer s : let x := (do! _on_goaway_frame in sret false) s in steps s x.2 \/ answered s x.
Proof.
  unfold _on_goaway_frame, send_goaway, made, sbind, supdate, sret.
  destruct (rmap fst _) as [f|e]; cbn [fst snd]; [|left; apply rtc_refl].
  right. exists s, f. split; [apply rtc_refl|]. split; [done|]. apply grown_signal.
Qed.

Lemma handle_answer f s : let x := handle_frame f s in steps s x.2 \/ answered s x.
Proof.
  destruct (decide (frame_type f = Some GOAWAY)) as [Hf|Hf]; [|left; by apply keeps_handle].
  destruct f; try done. unfold handle_frame.
  destruct (get_child (H2Frames.stream_id (base_of (GoAway b last_stream_id error_code append_data))) s); apply goaway_answer.
Qed.

Lemma bind_answer {A} (m : smonad t A) (k : A -> smonad t bool) s :
  steps s (m s).2 -> (forall a s', m s = (Ok a, s') -> steps s' (k a s').2 \/ answered s' (k a s')) ->
  steps s (sbind m k s).2 \/ answered s (sbind m k s).
Proof.
  intros Hm Hk. unfold sbind. destruct (m s) as [[a|e] s'] eqn:Em; [|by left].
  destruct (Hk a s' eq_refl) as [H|(s1 & f & H & Hb & Hg)]; [left; by etrans|right].
  exists s1, f. split; [by etrans|done].
Qed.

Lemma turn_answer s : steps s (turn s).2 \/ answered s (turn s).
Proof.
  unfold turn. apply bind_answer; [apply keeps_receive|]. intros data s1 _.
  destruct data as [|b data]; [left; apply (keeps_at (sbind _ _)); walk|].
  apply bind_answer; [apply grown_steps; same|]. intros _ s2 _.
  destruct (_goaway_sent s2); [left; apply grown_steps, grown_signal|].
  destruct (negb _).
  { left. refine (after_grown _ _ (sbind _ _) _ _); [same|]. walk. }
  apply bind_answer; [apply keeps_load|]. intros f s3 _.
  destruct (frame_type f) as [ft|] eqn:Ef; [|destruct (waiting_continuation s3); left; [apply (keeps_at (sbind _ _)); walk|apply rtc_refl]].
  assert (H : steps s3 ((let! fate := check_frame f ft in match fate with Dropped => sret true | Handled => handle_frame f end) s3).2 \/
              answered s3 ((let! fate := check_frame f ft in match fate with Dropped => sret true | Handled => handle_frame f end) s3)).
  { apply bind_answer; [apply keeps_check|]. intros [] s4 _; [left; apply rtc_refl|apply handle_answer]. }
  destruct ft; try exact H; destruct (waiting_continuation s3); try exact H; left; apply (keeps_at (sbind _ _)); walk.
Qed.

(** ** What holds at all times *)

Definition active (ts : list task) : Z := zlen (filter (fun tk => t_running tk = true) ts).
Definition active_ws (ts : list task) : Z := zlen (filter (fun tk => t_running tk = true /\ is_ws tk = true) ts).
(** The running handlers of the peer's requests, and all that were ever
    started. *)
Definition active_requests (ts : list task) : Z := zlen (filter (fun tk => t_running tk = true /\ t_pushed tk = false) ts).
Definition requests_started (ts : list task) : Z := zlen (filter (fun tk => t_pushed tk = false) ts).
Definition goaways (s : t) : Z := zlen (filter (fun x => is_goaway x = true) (H2Sender.wire (net s))).

Record sane (s : t) : Prop := mkSane {
  n_active : _active_stream_count s = active (tasks s);
  n_ws : _ws_stream_count s = active_ws (tasks s);
  n_cap : active_requests (tasks s) <= Z.max 0 (max_concurrent_streams cfg);
  n_ws_cap : 0 < h2_ws_max_streams_per_connection cfg -> _ws_stream_count s <= h2_ws_max_streams_per_connection cfg;
  n_closed : zlen (_closed_streams s) <= _CLOSED_STREAMS_CAP;
  n_writer : _goaway_sent s = writer_closed s
}.

(** Until the connection is closed, no more than [n] GOAWAYs. *)
Definition quiet (n : Z) (s : t) : Prop := _goaway_sent s = false -> goaways s <= n.

Lemma flags_count (P : bool * bool * bool -> Prop) `{!forall x, Decision (P x)} ts ts' :
  flags_of <$> ts' = flags_of <$> ts -> zlen (filter (fun tk => P (flags_of tk)) ts') = zlen (filter (fun tk => P (flags_of tk)) ts).
Proof.
  revert ts'. induction ts as [|tk ts IH]; intros [|tk' ts'] Hts; try done. rewrite !fmap_cons in Hts.
  pose proof (f_equal (hd (flags_of tk)) Hts) as Hf. apply (f_equal tail) in Hts. cbn [hd tail] in Hf, Hts.
  rewrite !filter_cons, Hf. case_decide; rewrite ?zlen_cons, (IH _ Hts); done.
Qed.

Lemma active_flags ts ts' :
  flags_of <$> ts' = flags_of <$> ts ->
  active ts' = active ts /\ active_ws ts' = active_ws ts /\ active_requests ts' = active_requests ts /\
  requests_started ts' = requests_started ts.
Proof.
  intros H. split_and!.
  - exact (flags_count (fun x => x.1.1 = true) _ _ H).
  - exact (flags_count (fun x => x.1.1 = true /\ x.1.2 = true) _ _ H).
  - exact (flags_count (fun x => x.1.1 = true /\ x.2 = false) _ _ H).
  - exact (flags_count (fun x => x.2 = false) _ _ H).
Qed.

Lemma goaways_grown s s' : grown s s' -> goaways s' = goaways s.
Proof.
  intros [_ _ _ _ _ _ _ (w & Hw & Hf)]. unfold goaways. rewrite Hw, filter_app, zlen_app.
  assert (filter (fun x => is_goaway x = true) w = []) as ->; [|rewrite zlen_nil; lia].
  clear -Hf. induction Hf as [|x w Hx _ IH]; [done|]. rewrite filter_cons, decide_False by congruence. done.
Qed.

Lemma goaways_write f s : goaways (control_write f s).2 <= goaways s + 1.
Proof.
  unfold control_write, supdate, goaways. cbn [snd net set_net set_wire H2Sender.wire].
  rewrite filter_app, zlen_app, filter_cons. case_decide; cbn; rewrite ?zlen_cons, zlen_nil; lia.
Qed.

Lemma count_insert {A} (P : A -> Prop) `{!forall x, Decision (P x)} (l : list A) k x y :
  l !! k = Some x -> P x -> ~ P y -> zlen (filter P (<[k := y]> l)) = zlen (filter P l) - 1.
Proof.
  revert k. induction l as [|z l IH]; intros [|k] Hk Hx Hy; try done; cbn [insert list_insert]; rewrite !filter_cons.
  - injection Hk as ->. rewrite decide_False, decide_True by done. rewrite zlen_cons. lia.
  - cbn in Hk. destruct (decide (P z)); rewrite ?zlen_cons, IH by done; lia.
Qed.

Lemma count_insert_alike {A} (P : A -> Prop) `{!forall x, Decision (P x)} (l : list A) k x y :
  l !! k = Some x -> (P x <-> P y) -> zlen (filter P (<[k := y]> l)) = zlen (filter P l).
Proof.
  revert k. induction l as [|z l IH]; intros [|k] Hk Hxy; try done; cbn [insert list_insert]; rewrite !filter_cons.
  - injection Hk as ->. repeat case_decide; rewrite ?zlen_cons; naive_solver.
  - cbn in Hk. destruct (decide (P z)); rewrite ?zlen_cons, ?IH by done; lia.
Qed.

Lemma count_insert_same {A} (P : A -> Prop) `{!forall x, Decision (P x)} (l : list A) k x y :
  l !! k = Some x -> ~ P x -> ~ P y -> zlen (filter P (<[k := y]> l)) = zlen (filter P l).
Proof. intros Hk Hx Hy. by apply (count_insert_alike P l k x y). Qed.

Lemma count_pos {A} (P : A -> Prop) `{!forall x, Decision (P x)} (l : list A) k x : l !! k = Some x -> P x -> 0 < zlen (filter P l).
Proof.
  intros Hk Hx. assert (Hin : x ∈ filter P l) by (apply list_elem_of_filter; split; [done|by eapply list_elem_of_lookup_2]).
  destruct (filter P l); [by apply not_elem_of_nil in Hin|]. rewrite zlen_cons. pose proof (zlen_nonneg l0). lia.
Qed.

Lemma filter_both {A} (P Q : A -> Prop) `{!forall x, Decision (P x), !forall x, Decision (Q x)} (l : list A) :
  zlen (filter (fun x => P x /\ Q x) l) <= zlen (filter P l).
Proof.
  induction l as [|x l IH]; [done|]. rewrite !filter_cons. repeat case_decide; rewrite ?zlen_cons; naive_solver lia.
Qed.

Lemma sane_grown s s' : sane s -> grown s s' -> sane s'.
Proof.
  intros [] Hg. destruct (active_flags _ _ (g_tasks _ _ Hg)) as (H1 & H2 & H3 & _). destruct Hg. split; try congruence; lia.
Qed.

Lemma sane_mark sid b s : sane s -> sane (_mark_closed sid b s).
Proof.
  intros []. unfold _mark_closed. split; try done. cbn [_closed_streams set_closed].
  destruct (Z.gtb_spec (zlen (dset (_closed_streams s) sid b)) _CLOSED_STREAMS_CAP) as [Hc|Hc]; [|lia].
  assert (Hl : zlen (dset (_closed_streams s) sid b) <= zlen (_closed_streams s) + 1).
  { unfold zlen. rewrite length_dset. destruct (dmem _ _); lia. }
  destruct (dset _ _ _) as [|x l]; cbn [tail]; [done|]. rewrite zlen_cons in Hl. lia.
Qed.

Lemma sane_start sid rq rc ws s :
  sane s -> _active_stream_count s < max_concurrent_streams cfg ->
  (ws = true -> 0 < h2_ws_max_streams_per_connection cfg -> _ws_stream_count s < h2_ws_max_streams_per_connection cfg) ->
  sane (start_task sid rq rc ws false s).
Proof.
  intros [] Ha Hw. split; try done; cbn.
  - unfold active in *. rewrite filter_app, zlen_app, filter_cons, decide_True by done. cbn. lens.
  - unfold active_ws in *. rewrite filter_app, zlen_app, filter_cons. destruct ws; [rewrite decide_True by done|rewrite decide_False by naive_solver]; cbn; lens.
  - pose proof (filter_both (fun tk => t_running tk = true) (fun tk => t_pushed tk = false) (tasks s)) as Hle.
    unfold active, active_requests in *. rewrite filter_app, zlen_app, filter_cons, decide_True by done. cbn. lens.
  - intros Hc. destruct ws; [specialize (Hw eq_refl Hc); lia|by apply n_ws_cap0].
Qed.

Lemma sane_push sid rq rc s : sane s -> sane (start_task sid rq rc false true s).
Proof.
  intros []. split; try done; cbn; unfold active, active_ws, active_requests in *; rewrite filter_app, zlen_app, filter_cons.
  - rewrite decide_True by done. cbn. lens.
  - rewrite decide_False by naive_solver. cbn. lens.
  - rewrite decide_False by naive_solver. cbn. lens.
Qed.

Lemma sane_stop k tk s : sane s -> tasks s !! k = Some tk -> t_running tk = true -> sane (stop_task k tk s).
Proof.
  intros [] Hk Hr.
  set (tk' := mkTask (t_sid tk) (t_request tk) (t_recipient tk) (is_ws tk) (t_pushed tk) false (t_cancelled tk) (t_read tk)).
  assert (H1 : active (<[k := tk']> (tasks s)) = active (tasks s) - 1) by by apply (count_insert _ _ _ tk).
  assert (H2 : active_ws (<[k := tk']> (tasks s)) = if is_ws tk then active_ws (tasks s) - 1 else active_ws (tasks s)).
  { destruct (is_ws tk) eqn:Ew; [by apply (count_insert _ _ _ tk); [done..|intros []]|].
    apply (count_insert_same _ _ _ tk); [done|intros []; congruence|by intros []]. }
  assert (H3 : 0 < active (tasks s)) by by apply (count_pos _ _ k tk).
  assert (H4 : is_ws tk = true -> 0 < active_ws (tasks s)) by (intros; by apply (count_pos _ _ k tk)).
  assert (H5 : active_requests (<[k := tk']> (tasks s)) <= active_requests (tasks s)).
  { unfold active_requests. destruct (t_pushed tk) eqn:Ep.
    - rewrite (count_insert_same _ _ _ tk); [lia|done|intros []; congruence|by intros []].
    - rewrite (count_insert _ _ _ tk); [lia|done..|by intros []]. }
  split; try done; cbn [tasks set_maps set_stores stop_task _active_stream_count _ws_stream_count].
  - fold tk'. lia.
  - fold tk'. rewrite H2. destruct (is_ws tk); [specialize (H4 eq_refl)|]; lia.
  - fold tk'. lia.
  - intros Hc. specialize (n_ws_cap0 Hc). destruct (is_ws tk); lia.
Qed.

Lemma step_sane o s s' : step o s s' -> sane s -> sane s'.
Proof.
  intros [s1 Hg|f| |sid b|sid rq rc ws Ho Ha Hw|sid rq rc|k tk Hk Hr] Hs;
    [by eapply sane_grown|by destruct Hs|by destruct Hs|by apply sane_mark|by apply sane_start|by apply sane_push|by apply sane_stop].
Qed.

Lemma steps_sane o s s' : rtc (step o) s s' -> sane s -> sane s'.
Proof. induction 1 as [|s s1 s' Hst _ IH]; [done|]. intros Hs. apply IH. by eapply step_sane. Qed.

(** A GOAWAY comes with the close. *)
Lemma steps_quiet o n s s' : rtc (step o) s s' -> quiet n s -> quiet n s'.
Proof.
  induction 1 as [|s s1 s' Hst _ IH]; [done|]. intros Hq. apply IH. clear IH. revert Hq. unfold quiet.
  destruct Hst as [s2 Hg|f| |sid b|sid rq rc ws _ _ _|sid rq rc|k tk _ _]; try done.
  by rewrite (goaways_grown _ _ Hg), (g_goaway _ _ Hg).
Qed.

(** A connection that is closed stays closed, and no request is started. *)
Definition ended (n : Z) (s : t) : Prop := _goaway_sent s = true /\ requests_started (tasks s) = n.

Lemma steps_ended n s s' : rtc (step false) s s' -> ended n s -> ended n s'.
Proof.
  induction 1 as [|s s1 s' Hst _ IH]; [done|]. intros [Hg Hn]. apply IH. clear IH.
  destruct Hst as [s2 H|f| |sid b|sid rq rc ws Ho _ _|sid rq rc|k tk Hk Hr]; try by split.
  - destruct (active_flags _ _ (g_tasks _ _ H)) as (_ & _ & _ & H4). split; [by rewrite (g_goaway _ _ H)|congruence].
  - split; [done|]. unfold requests_started in *. cbn. rewrite filter_app, zlen_app, filter_cons, decide_False by done. cbn. lens.
  - split; [done|]. rewrite <- Hn. unfold requests_started, stop_task. cbn [tasks set_maps set_stores].
    by apply (count_insert_alike _ _ _ tk).
Qed.

(** *** Happenings *)

Lemma grown_bind {A B} (m : smonad t A) (k : A -> smonad t B) s :
  (forall s, grown s (m s).2) -> (forall a s, grown s (k a s).2) -> grown s (sbind m k s).2.
Proof.
  intros Hm Hk. specialize (Hm s). unfold sbind. destruct (m s) as [[a|e] s'] eqn:Em; [|done].
  eapply grown_trans; [exact Hm|]. apply Hk.
Qed.

Lemma grown_credit sid l s : grown s (credit_all sid l s).2.
Proof.
  revert s. induction l as [|n l IH]; intros s; [apply grown_refl|]. cbn [credit_all]. apply grown_bind; [|intros; apply IH].
  clear. intros s. unfold _credit. apply grown_bind; [|intros; apply grown_window].
  intros s1. destruct (dmem _ _); [apply grown_window|apply grown_refl].
Qed.

Lemma grown_take k s : grown s (take_chunk k s).2.
Proof.
  unfold take_chunk. destruct (tasks s !! k) as [tk|]; [|apply grown_refl]. destruct (negb _); [apply grown_refl|].
  destruct (recipients s !! t_recipient tk) as [[r|r]|]; try apply grown_refl.
  destruct (H2Recipient.next_chunk r) as [[[c credits]|] r']; [|same].
  set (s1 := with_recipient _ _ s). eapply grown_trans; [|apply grown_credit].
  apply (grown_trans _ s1); [same|apply grown_log].
Qed.

Lemma grown_read k n s : grown s (read_ws k n s).2.
Proof.
  unfold read_ws. destruct (tasks s !! k) as [tk|]; [|apply grown_refl]. destruct (negb _); [apply grown_refl|].
  destruct (recipients s !! t_recipient tk) as [[r|r]|]; try apply grown_refl.
  destruct (H2Ws.readexactly n r) as [[[[out credits]|e]|] r']; [| |same].
  - set (s1 := with_recipient _ _ s). apply (grown_trans _ (log_read k (Octets out) s1)).
    { apply (grown_trans _ s1); [same|apply grown_log]. }
    generalize (log_read k (Octets out) s1). clear. induction credits as [|c l IH]; intros s; [apply grown_refl|]. cbn [foldr].
    apply grown_bind; [intros; apply grown_window|]. intros _ s2. apply grown_bind; [intros; apply grown_window|]. by intros _ s3.
  - set (s1 := with_recipient _ _ s). apply (grown_trans _ s1); [same|apply grown_log].
Qed.

Lemma happen_appends h sid n :
  (match h with H2Sender.Send x _ | H2Sender.Step x _ | H2Sender.Stall x _ | H2Sender.Cancel x _ => x = sid | _ => False end) ->
  exists fs, H2Sender.wire (H2Sender.happen http_date n h) = H2Sender.wire n ++ ((fun f => (sid, f)) <$> fs).
Proof.
  destruct h; try done; intros ->; cbn [H2Sender.happen];
    try (exists []; rewrite app_nil_r; unfold H2Sender.with_sender; by destruct (dget _ _)).
  unfold H2Sender.resume. destruct (dget _ sid) as [x|]; [|exists []; by rewrite app_nil_r].
  destruct (H2Sender._tasks x !! k) as [[|i rest]|]; try (exists []; by rewrite app_nil_r).
  destruct (H2Sender.exec _ _ _ _ _) as [a|]; [|exists []; by rewrite app_nil_r].
  cbn [H2Sender.wire]. destruct (H2Sender._closed x); [by exists []|by exists (H2Sender.a_out a)].
Qed.

Lemma grown_sends h s : grown s (happen (Sends h) s).
Proof.
  assert (H : forall sid, (match h with H2Sender.Send x _ | H2Sender.Step x _ | H2Sender.Stall x _ | H2Sender.Cancel x _ => x = sid | _ => False end) ->
    grown s (if sid =? 0 then s else set_net (H2Sender.happen http_date (net s) h) s)).
  { intros sid Hh. destruct (Z.eqb_spec sid 0) as [_|Hne]; [apply grown_refl|].
    destruct (happen_appends h sid (net s) Hh) as [fs Hw].
    split; try done. exists ((fun f => (sid, f)) <$> fs). split; [exact Hw|].
    apply Forall_fmap, Forall_true. intros f. cbn. destruct f as [| |[]]; try done. by apply Z.eqb_neq. }
  destruct h; cbn [happen]; try apply grown_refl; by apply H.
Qed.

Lemma push_steps sid c s : rtc (step false) s (dispatch_push sid c s).
Proof.
  unfold dispatch_push, new_request. cbv beta iota zeta.
  match goal with |- rtc _ _ (_spawn_stream_task _ _ _ _ ?b) => etrans; [apply (grown_steps _ b); same|] end.
  apply rtc_once, step_push.
Qed.

Lemma keeps_push path hs parent : keeps_in false (_handle_push path hs parent).
Proof.
  unfold _handle_push. apply keeps_bind; [intros s; apply grown_steps; same|]. intros sid s. cbv zeta.
  apply (keeps_at (sbind _ _)). apply keeps_bind; [apply keeps_lift|]. intros authority.
  apply keeps_bind; [apply keeps_lift|]. intros regular s1. unfold sbind at 1, made. cbn [push_promise rmap rbind fst].
  apply (keeps_at (sbind _ _)). apply keeps_bind; [by apply keeps_send|]. intros _.
  apply keeps_bind; [apply keeps_lift|]. intros [[decoded raw_path] query].
  apply keeps_bind; [apply keeps_lift|]. intros fields s2. apply push_steps.
Qed.

Lemma keeps_watch o fuel : keeps_in o (watch fuel).
Proof.
  assert (Hw : forall w, keeps_in o (supdate (set_wake w))) by (intros; apply keeps_update; intros; same).
  induction fuel as [|fuel IH]; intros s; cbn [watch]; cbv zeta;
    assert (Hp : keeps_in o _probe_peer) by
      (apply keeps_bind; [apply keeps_update; intros; same|]; intros _; apply keeps_catch; [|by intros e k [= <-]; apply keeps_ret];
       apply keeps_made_send; intros d f d' H; by apply create_type in H);
    repeat case_match; try apply Hw; refine (keeps_at (sbind _ _) _ _); apply keeps_bind; eauto using keeps_close, keeps_raise.
Qed.

Lemma steps_loop o s s' : rtc (step o) s s' -> loop s' = loop s.
Proof.
  induction 1 as [|s s1 s' Hst _ IH]; [done|]. rewrite IH.
  destruct Hst as [s2 Hg|f| |sid b|sid rq rc ws _ _ _|sid rq rc|k tk _ _]; try done. apply Hg.
Qed.

Definition inv (s : t) : Prop := sane s /\ quiet 1 s /\ (loop s = Running -> quiet 0 s).

Lemma inv_steps o s s' : rtc (step o) s s' -> inv s -> inv s'.
Proof.
  intros Hst (Hs & H1 & H0). split_and!; [by eapply steps_sane|by eapply steps_quiet|].
  rewrite (steps_loop _ _ _ Hst). intros Hl. eapply steps_quiet; [exact Hst|by apply H0].
Qed.

Lemma inv_loop l s : inv s -> l <> Running -> inv (set_loop l s).
Proof. intros ([] & H1 & _) Hl. by split_and!. Qed.

Lemma inv_turn s : inv s -> inv (happen Turn s).
Proof.
  intros Hi. cbn [happen]. destruct (loop s) eqn:El; try done. destruct (turn_answer s) as [H|(s1 & f & H & Hb & Hg)].
  - pose proof (inv_steps _ _ _ H Hi). by destruct (turn s) as [[[]|e] s']; [|apply inv_loop..].
  - destruct (inv_steps _ _ _ H Hi) as (Hs & _ & H0). rewrite (steps_loop _ _ _ H) in H0. specialize (H0 El).
    assert (Hs2 : sane (turn s).2) by (apply (sane_grown (control_write f s1).2), Hg; by destruct Hs).
    assert (Hq : quiet 1 (turn s).2).
    { unfold quiet in *. rewrite (goaways_grown _ _ Hg), (g_goaway _ _ Hg). intros Hc. specialize (H0 Hc).
      pose proof (goaways_write f s1). lia. }
    destruct (turn s) as [[[]|e] s']; cbn [fst snd] in *; [done|..]; (split_and!; [by destruct Hs2|done|done]).
Qed.

(** Everything but a turn of the loop. *)
Lemma happen_steps h s : h <> Turn -> h <> Wake -> rtc (step false) s (happen h s).
Proof.
  intros H1 H2. destruct h as [|k|k n|k path hs|k gave_up|k|h|]; try done; cbn [happen].
  - apply grown_steps, grown_take.
  - apply grown_steps, grown_read.
  - destruct (tasks s !! k) as [tk|]; [|apply rtc_refl]. destruct (_ && _); [apply keeps_push|apply rtc_refl].
  - destruct (tasks s !! k) as [tk|]; [|apply rtc_refl]. destruct (_ && _); [apply keeps_rst|apply rtc_refl].
  - destruct (tasks s !! k) as [tk|] eqn:Hk; [|apply rtc_refl]. destruct (t_running tk) eqn:Hr; [|apply rtc_refl].
    by eapply done_steps.
  - apply grown_steps, grown_sends.
Qed.

Lemma wake_steps s : rtc (step false) s (happen Wake s).
Proof.
  cbn [happen]. destruct (wake_at (time s)); [|apply rtc_refl]. destruct (_ && _); [apply keeps_watch|apply rtc_refl].
Qed.

Lemma happening_cases h : h = Turn \/ h = Wake \/ h <> Turn /\ h <> Wake.
Proof. destruct h; auto. Qed.

Lemma inv_happen h s : inv s -> inv (happen h s).
Proof.
  intros Hi. destruct (happening_cases h) as [->|[->|[H1 H2]]]; [by apply inv_turn|..]; eapply inv_steps, Hi;
    [apply wake_steps|by apply happen_steps].
Qed.

Lemma inv_run l s : inv s -> inv (run l s).
Proof.
  revert s. induction l as [|[now h] l IH]; intros s Hi; [done|]. cbn [run]. apply IH, inv_happen.
  destruct Hi as ([] & H1 & H0). by split_and!.
Qed.

(** A turn after the close reads and gives up. *)
Lemma turn_ended s : _goaway_sent s = true -> grown s (turn s).2.
Proof.
  intros Hg. unfold turn. unfold sbind at 1. pose proof (grown_receive s) as Hr. destruct (receive s) as [[data|e] s1]; [|done].
  cbn [snd] in Hr. destruct data as [|b data]; [eapply grown_trans; [exact Hr|apply grown_signal]|].
  unfold sbind at 1, supdate. cbn [_goaway_sent set_time]. rewrite (g_goaway _ _ Hr), Hg.
  eapply grown_trans; [exact Hr|]. eapply grown_trans; [|apply grown_signal]. same.
Qed.

Lemma ended_happen h n s : ended n s -> ended n (happen h s).
Proof.
  intros He. destruct (happening_cases h) as [->|[->|[H1 H2]]];
    [|by eapply steps_ended, He; apply wake_steps|by eapply steps_ended, He; apply happen_steps].
  cbn [happen]. destruct (loop s); try done.
  pose proof (steps_ended n _ _ (grown_steps _ _ (turn_ended s (proj1 He))) He). by destruct (turn s) as [[[]|e] s'].
Qed.

Lemma ended_run l n s : ended n s -> ended n (run l s).
Proof. revert s. induction l as [|[now h] l IH]; intros s Hs; [done|]. cbn [run]. apply IH, ended_happen. by destruct Hs. Qed.

Lemma settings_frame d ack ws w m f d' : H2Frames.settings d ack ws w m = Ok (f, d') -> frame_type f <> Some GOAWAY.
Proof.
  unfold H2Frames.settings. destruct ack; [by intros H%create_type|]. intros H.
  apply rbind_Ok in H as (? & _ & H). apply rbind_Ok in H as (? & _ & H). by apply create_type in H.
Qed.

Lemma keeps_start : keeps start_run.
Proof.
  intros s. unfold start_run. unfold sbind at 1, made. destruct (H2Frames.settings _ _ _ _ _) as [[f d']|e] eqn:Ef; [|apply rtc_refl].
  cbn [rmap rbind fst]. apply (keeps_at (sbind _ _)).
  apply keeps_bind; [apply keeps_send; exact (settings_frame _ _ _ _ _ _ _ Ef)|]. intros _. walk.
Qed.

Lemma inv_start x d now : inv (_liveness_watchdog (start_run (init x d now)).2).2.
Proof.
  assert (Hi : inv (init x d now)).
  { split_and!; [split; try done; unfold active_requests; cbn; rewrite ?zlen_nil; lia|intros _; vm_compute; discriminate..]. }
  assert (Hk : steps (init x d now) (_liveness_watchdog (start_run (init x d now)).2).2).
  { etrans; [apply keeps_start|]. unfold _liveness_watchdog. destruct (_ && _); [apply rtc_refl|apply keeps_watch]. }
  by eapply inv_steps.
Qed.


End Conn.

(** ** Samples *)

Module Sample.

#[local] Existing Instance toy_hpack.

Definition cfg : settings := mkSettings 2 200 1000 0 0 65535 4 true 2 65535 20 1 300 30 10.

(** A frame on the wire, and a header block in the sample coding. *)
Definition raw (ft : FrameTypes) (flags sid : Z) (payload : bytes) : bytes :=
  be_bytes 3 (zlen payload) ++ [type_value ft; flags] ++ be_bytes 4 sid ++ payload.

Definition block_of (pseudo fields : list (string * string)) : bytes :=
  ((fun kv => (lit kv.1, lit kv.2)) <$> (pseudo ++ fields)) ≫= toy_field.
Definition post (fields : list (string * string)) : bytes :=
  block_of [(":method", "POST"); (":scheme", "http"); (":path", "/"); (":authority", "h")]%string fields.
Definition websocket : bytes :=
  block_of [(":method", "CONNECT"); (":protocol", "websocket"); (":scheme", "http"); (":path", "/"); (":authority", "h")]%string [].

Definition conn_of (frames : list bytes) (l : list happening) : @t unit bytes :=
  connection H2Request.accept_any [] cfg (mjoin frames) tt 0 ((fun h => (0, h)) <$> l).
Definition turns (n : nat) : list happening := repeat Turn n.

(** What the server wrote on the control stream after its SETTINGS. *)
Definition control (s : @t unit bytes) : list frame :=
  tail (H2Sender.wire (net s) ≫= (fun x => match x.2 with H2Sender.WRaw f => [f] | _ => [] end)).
Definition states (s : @t unit bytes) : list (Z * StreamState) := (fun x => (x.1, state x.2)) <$> children (root s).
Definition reads (s : @t unit bytes) : list (list input) := t_read <$> tasks s.

Definition gone (code last : Z) : frame := GoAway (mkBase 8 0 0) last code [].
Definition reset (sid code : Z) : frame := RstStream (mkBase 4 0 sid) code.

(** A request with a body is served: the sample of the ordinary case. *)
Lemma ordinary :
  let s := conn_of [raw HEADERS 4 1 (post []); raw DATA 1 1 (lit "hi")] (turns 2 ++ [Take 0; Take 0]) in
  control s = [WindowUpdate (mkBase 4 0 1) [0; 0; 0; 2] 2; WindowUpdate (mkBase 4 0 0) [0; 0; 0; 2] 2] /\
  reads s = [[Got (H2Recipient.Chunk (lit "hi")); Got H2Recipient.EndOfBody]] /\ states s = [(1, HALF_CLOSED_REMOTE)].
Proof. vm_compute. done. Qed.

(** ** What the model shows *)

(** A pushed stream is in no table the frame loop looks at: the peer's
    WINDOW_UPDATE for it — or the RST_STREAM that refuses it — closes the
    connection. *)
Lemma pushed_stream_unknown :
  let pushed := conn_of [raw HEADERS 4 1 (post []); raw WINDOW_UPDATE 0 2 (be_bytes 4 100)] [Turn; Push 0 (lit "/style.css") []] in
  let refused := conn_of [raw HEADERS 4 1 (post []); raw RST_STREAM 0 2 (be_bytes 4 8)] [Turn; Push 0 (lit "/style.css") []] in
  (fun tk => (t_sid tk, t_pushed tk)) <$> tasks pushed = [(1, false); (2, true)] /\
  control (happen H2Request.accept_any [] cfg Turn pushed) = control pushed ++ [gone PROTOCOL_ERROR 1] /\
  control (happen H2Request.accept_any [] cfg Turn refused) = control refused ++ [gone PROTOCOL_ERROR 1].
Proof. vm_compute. done. Qed.

(** A peer that has disabled push is sent PUSH_PROMISE all the same; and the
    streams pushed go over the configured number of streams and keep the
    peer's next request out. *)
Lemma push_unbidden :
  let s := conn_of [raw HEADERS 4 1 (post []); raw SETTINGS 0 0 [0; 2; 0; 0; 0; 0]; raw HEADERS 4 3 (post [])]
             [Turn; Turn; Push 0 (lit "/a") []; Push 0 (lit "/b") []; Turn] in
  active (tasks s) = 3 /\ max_concurrent_streams cfg = 2 /\
  (fun f => frame_type f) <$> control s = [Some SETTINGS; Some PUSH_PROMISE; Some PUSH_PROMISE; Some RST_STREAM].
Proof. vm_compute. done. Qed.

(** The watchdog does not ask whether the connection is closed already: due
    between the close and the turn that ends the loop, it writes a GOAWAY of its
    own. *)
Lemma second_goaway :
  let s := connection H2Request.accept_any [] cfg (raw HEADERS 0 1 [] ++ raw DATA 0 1 [7]) tt 0 [(1, Turn); (300, Turn); (300, Wake)] in
  control s = [gone PROTOCOL_ERROR 1; gone ENHANCE_YOUR_CALM 1].
Proof. vm_compute. done. Qed.

(** A request whose header block ends in a CONTINUATION is started, but its
    stream stays idle: its body closes the connection, and a request without a
    body never ends for a handler that reads it. *)
Lemma continued_request_never_opens :
  (let s := conn_of [raw HEADERS 0 1 (post []); raw CONTINUATION 4 1 []; raw DATA 1 1 (lit "hi")] (turns 3) in
   length (tasks s) = 1%nat /\ states s = [(1, IDLE)] /\ control s = [gone PROTOCOL_ERROR 1]) /\
  (let s := conn_of [raw HEADERS 1 1 (post []); raw CONTINUATION 4 1 []] (turns 2 ++ [Take 0]) in
   length (tasks s) = 1%nat /\ reads s = [[]]).
Proof. vm_compute. done. Qed.

(** A CONTINUATION on another stream than its HEADERS is accepted: the request
    of stream 3 is started on stream 1, a second handler on that stream. *)
Lemma continuation_on_other_stream :
  let s := conn_of [raw HEADERS 4 1 (post []); raw HEADERS 0 3 (post []); raw CONTINUATION 4 1 []] (turns 3) in
  t_sid <$> tasks s = [1; 1] /\ control s = [] /\ loop s = Running.
Proof. vm_compute. done. Qed.

(** The body of a refused stream, already under way, closes the connection; and
    the node of a refused stream is never dropped. *)
Lemma refused_body_closes :
  let s := conn_of [raw HEADERS 4 1 (post []); raw HEADERS 4 3 (post []); raw HEADERS 4 5 (post []); raw DATA 1 5 (lit "hi")] (turns 4) in
  control s = [reset 5 REFUSED_STREAM; gone PROTOCOL_ERROR 5] /\ states s = [(1, OPEN); (3, OPEN); (5, IDLE)].
Proof. vm_compute. done. Qed.

(** A stream announced by PRIORITY_UPDATE is opened without the checks of its
    identifier: an even one, and the last identifier does not move. *)
Lemma announced_stream_unchecked :
  let s := conn_of [raw PRIORITY_UPDATE 0 0 (be_bytes 4 2 ++ lit "u=1"); raw HEADERS 5 2 (post [])] (turns 2) in
  t_sid <$> tasks s = [2] /\ control s = [] /\ _last_peer_stream_id s = 0.
Proof. vm_compute. done. Qed.

(** RST_STREAM does not end a WebSocket: its handler is neither cancelled nor
    told, not even when the connection ends. *)
Lemma reset_websocket_stays :
  let s := conn_of [raw HEADERS 4 1 websocket; raw RST_STREAM 0 1 (be_bytes 4 8)] (turns 3) in
  loop s = Returned /\ (fun tk => (t_running tk, t_cancelled tk)) <$> tasks s = [(true, false)] /\
  _active_stream_count s = 1 /\ recipients s = [Ws (H2Ws.__init__ H2Ws._DEFAULT_MAX_BUFFER)].
Proof. vm_compute. done. Qed.

(** Trailers on the stream of a WebSocket raise out of the frame loop. *)
Lemma websocket_trailers_raise :
  let s := conn_of [raw HEADERS 4 1 websocket; raw HEADERS 5 1 (block_of [] [("x", "y")]%string)] (turns 2) in
  loop s = Escaped AttributeError /\ control s = [].
Proof. vm_compute. done. Qed.

(** PUSH_PROMISE on an open stream, a RST_STREAM of the wrong size and an
    undecodable header block raise out of the frame loop: no GOAWAY is sent. *)
Lemma bad_frames_raise :
  (let s := conn_of [raw HEADERS 4 1 (post []); raw PUSH_PROMISE 4 1 (be_bytes 4 2)] (turns 2) in
   loop s = Escaped ValueError /\ control s = []) /\
  (let s := conn_of [raw HEADERS 4 1 (post []); raw RST_STREAM 0 1 [0; 0; 8]] (turns 2) in
   loop s = Escaped PlainException /\ control s = []) /\
  (let s := conn_of [raw HEADERS 4 1 [7]] (turns 1) in loop s = Escaped IndexError /\ control s = []).
Proof. vm_compute. done. Qed.

(** A body that breaks its declared length resets the stream, but the handler
    waiting for it is not told. *)
Lemma length_mismatch_untold :
  let s := conn_of [raw HEADERS 4 1 (post [("content-length", "5")]%string); raw DATA 1 1 (lit "hi")] (turns 2 ++ [Take 0]) in
  control s = [reset 1 PROTOCOL_ERROR] /\ reads s = [[]] /\ t_running <$> tasks s = [true].
Proof. vm_compute. done. Qed.

(** A request that ends with trailers is not checked against its declared length. *)
Lemma trailers_skip_length :
  let s := conn_of [raw HEADERS 4 1 (post [("content-length", "5")]%string); raw DATA 0 1 (lit "hi");
                    raw HEADERS 5 1 (block_of [] [("x", "y")]%string)] (turns 3) in
  control s = [] /\ states s = [(1, HALF_CLOSED_REMOTE)].
Proof. vm_compute. done. Qed.

(** Trailers in two frames are reset. *)
Lemma split_trailers_reset :
  let s := conn_of [raw HEADERS 4 1 (post []); raw HEADERS 1 1 (block_of [] [("x", "y")]%string); raw CONTINUATION 4 1 []] (turns 3) in
  control s = [reset 1 PROTOCOL_ERROR].
Proof. vm_compute. done. Qed.

(** The 413 of an oversized declaration is sent from the frame loop: with a
    closed window it waits for the credit only that loop can read. *)
Lemma refusal_waits_for_window :
  let s := conn_of [raw SETTINGS 0 0 [0; 4; 0; 0; 0; 0]; raw HEADERS 4 1 (post [("content-length", "1001")]%string)] (turns 2) in
  loop s = Escaped FlowControlStalled.
Proof. vm_compute. done. Qed.

(** A header block over its limit resets the stream and leaves the connection
    open, though the block never reached the decoder. *)
Lemma flooded_block_undecoded :
  let s := conn_of [raw HEADERS 0 1 (repeat 0 150); raw CONTINUATION 0 1 (repeat 0 100)] (turns 2) in
  control s = [reset 1 ENHANCE_YOUR_CALM] /\ loop s = Running /\ _goaway_sent s = false.
Proof. vm_compute. done. Qed.

(** SETTINGS_INITIAL_WINDOW_SIZE may take a stream's window over its maximum. *)
Lemma settings_overflow :
  let s := conn_of [raw HEADERS 4 1 (post []); raw WINDOW_UPDATE 0 1 (be_bytes 4 (2 ^ 31 - 1 - 65535));
                    raw SETTINGS 0 0 [0; 4; 127; 255; 255; 255]] (turns 3) in
  H2Sender.stream_window_size <$> dget (H2Sender.senders (net s)) 1 = Some (2 * (2 ^ 31 - 1) - 65535) /\
  _goaway_sent s = false.
Proof. vm_compute. done. Qed.

(** The watchdog sleeps to the idle deadline it computed, so a header block
    opened meanwhile outlives its timeout of 10 by far. *)
Lemma header_timeout_late :
  let s := connection H2Request.accept_any [] cfg (raw HEADERS 0 1 []) tt 0 [(1, Turn); (12, Wake); (290, Wake)] in
  _header_block_since (time s) = Some 1 /\ wake_at (time s) = Some 300 /\ _goaway_sent s = false.
Proof. vm_compute. done. Qed.


End Sample.
End H2Conn.
