(* ===== verification/Routing.v ===== *)
(** * Routing (blackbull/router.py)

    The routing trie with its two fast paths, the route table with its regex
    fallback, the lookup cache and the error router.  A handler, a converted
    path parameter and a compiled pattern are abstract; what a converter makes
    of a captured text and what a pattern matches are parameters.  The terminal
    nodes that [_static_full] refers to are represented by their place in the
    trie, so that an entry added to a node later is seen through them.  The error
    router takes a class's method resolution order as a parameter.  The
    adaptation of handlers to signatures and [validate]'s checks of annotations
    are introspection and are left out. *)

From Stdlib Require Import ZArith Lia.
From stdpp Require Import base tactics numbers option strings sets list sorting gmap.
From S2P Require Import Prelude PyLib PyText PyBytes.

Module Routing.

#[local] Set Warnings "-register-all".

(** ** Converters and placeholders *)

Inductive converter : Type := str | int | UUID.

(** The converters of [_CONVERTERS]; its regular expressions are not used. *)
Definition _CONVERTERS : dict pystr converter :=
  [(lit "str", str); (lit "int", int); (lit "uuid", UUID); (lit "path", str)].

Definition _REGEX_METACHARS : list Z := lit "^$*+?()[]|\".

Definition is_alpha_ (c : Z) : bool :=
  ((65 <=? c) && (c <=? 90)) || ((97 <=? c) && (c <=? 122)) || (c =? 95).
Definition is_word (c : Z) : bool := is_alpha_ c || is_digit c.

(** The longest run of word characters. *)
Fixpoint word (l : pystr) : pystr * pystr :=
  match l with
  | c :: l' => if is_word c then let '(w, r) := word l' in (c :: w, r) else ([], l)
  | [] => ([], [])
  end.

(** An identifier: a run of word characters that does not begin with a digit. *)
Definition ident (l : pystr) : option (pystr * pystr) :=
  match word l with
  | (c :: w, r) => if is_alpha_ c then Some (c :: w, r) else None
  | _ => None
  end.

(** [_param_pattern] at the beginning of [l]: name, specification, rest. *)
Definition placeholder_at (l : pystr) : option (pystr * option pystr * pystr) :=
  match l with
  | [] => None
  | c :: l =>
      if c =? 123 then
        match ident l with
        | Some (name, d :: r) =>
            if d =? 125 then Some (name, None, r)
            else if d =? 58 then
              match ident r with
              | Some (spec, e :: r) => if e =? 125 then Some (name, Some spec, r) else None
              | _ => None
              end
            else None
        | _ => None
        end
      else None
  end.

(** A template cut into literal text and placeholders, as [finditer] and [sub]
    see it. *)
Inductive piece : Type := Text (c : Z) | Hole (name : pystr) (spec : option pystr).

Fixpoint pieces (fuel : nat) (l : pystr) : list piece :=
  match fuel with
  | O => []
  | S fuel =>
      match l with
      | [] => []
      | c :: l' =>
          match placeholder_at l with
          | Some (name, spec, r) => Hole name spec :: pieces fuel r
          | None => Text c :: pieces fuel l'
          end
      end
  end.

Definition finditer (path : pystr) : list piece := pieces (length path) path.

(** [_HTTP_TOKEN_RE]; [$] also matches before a final newline. *)
Definition token_char (c : Z) : bool :=
  bool_decide (c ∈ lit "!#$%&'*+-.^_`|~") || is_digit c || ((65 <=? c) && (c <=? 90)) || ((97 <=? c) && (c <=? 122)).

Definition _HTTP_TOKEN_RE (method : pystr) : bool :=
  let body := if bool_decide (last method = Some 10) then take (length method - 1) method else method in
  negb (bool_decide (body = [])) && forallb token_char body.

Definition _validate_method_token (method : pystr) : result unit :=
  if _HTTP_TOKEN_RE method then Ok tt else Raise ValueError.

Section Router.
Context {H V P : Type}.
(** What a converter makes of a captured text; [None] stands for the
    [ValueError] or [TypeError] it raises. *)
Context (convert : converter -> pystr -> option V).
(** [pattern.match(path)]: its named groups. *)
Context (re_match : P -> pystr -> option (dict pystr V)).
(** [pattern.pattern]: its source. *)
Context (re_source : P -> pystr).

(** ** The trie *)

Inductive scheme_key : Type := _ANY_SCHEME | Schemes (l : list pystr).

Definition _route_scheme_matches (key_scheme : pystr) (registered : scheme_key) : bool :=
  match registered with _ANY_SCHEME => true | Schemes l => bool_decide (key_scheme ∈ l) end.

Definition _route_method_matches (key_method : pystr) (registered : list pystr) : bool :=
  bool_decide (key_method ∈ registered).

(** [(param_name, converter, is_wildcard)] *)
Definition param_spec : Type := pystr * converter * bool.

Record entry : Type := mkEntry {
  e_methods : list pystr;
  e_scheme : scheme_key;
  e_handler : H;
  e_specs : list param_spec
}.

Inductive _TrieNode : Type :=
| Node (children : dict pystr _TrieNode) (param_child wildcard_child : option _TrieNode) (entries : list entry).

Definition children (n : _TrieNode) := let 'Node c _ _ _ := n in c.
Definition param_child (n : _TrieNode) := let 'Node _ p _ _ := n in p.
Definition wildcard_child (n : _TrieNode) := let 'Node _ _ w _ := n in w.
Definition entries (n : _TrieNode) := let 'Node _ _ _ e := n in e.
Definition empty_node : _TrieNode := Node [] None None [].

Definition set_child (seg : pystr) (c n : _TrieNode) : _TrieNode :=
  Node (dset (children n) seg c) (param_child n) (wildcard_child n) (entries n).
Definition set_param (c n : _TrieNode) : _TrieNode := Node (children n) (Some c) (wildcard_child n) (entries n).
Definition set_wildcard (c n : _TrieNode) : _TrieNode := Node (children n) (param_child n) (Some c) (entries n).
Definition append_entry (e : entry) (n : _TrieNode) : _TrieNode :=
  Node (children n) (param_child n) (wildcard_child n) (entries n ++ [e]).

(** The trie and the map of fully static paths to the place of their node. *)
Record _RouteTrie : Type := mkTrie {
  root : _TrieNode;
  _static_full : dict pystr (list pystr)
}.

Definition new_trie : _RouteTrie := mkTrie empty_node [].

(** [[s for s in path.split('/') if s]] *)
Definition nonempty_segments (path : pystr) : list pystr := filter (fun s => s <> []) (split_on 47 path).

(** A segment in braces: its parameter's name, converter and whether it is the
    path converter. *)
Definition is_param (seg : pystr) : bool := startswith seg [123] && endswith [125] seg.

Definition param_of (seg : pystr) : pystr * converter * bool :=
  let '(name, _, spec) := partition_char 58 (take (length seg - 2) (drop 1 seg)) in
  let spec := if bool_decide (spec = []) then lit "str" else spec in
  (name, default str (dget _CONVERTERS spec), bool_decide (spec = lit "path")).

(** The walk of [insert]: the nodes it passes are created even if it raises. *)
Fixpoint insert_at (segments : list pystr) (specs : list param_spec) (e : list param_spec -> entry) (n : _TrieNode)
    : _TrieNode * result unit :=
  match segments with
  | [] => (append_entry (e specs) n, Ok tt)
  | seg :: rest =>
      if is_param seg then
        let '(name, conv, is_path) := param_of seg in
        if is_path then
          if negb (bool_decide (rest = [])) then (n, Raise ConfigurationError)
          else (set_wildcard (append_entry (e (specs ++ [(name, conv, true)])) (default empty_node (wildcard_child n))) n, Ok tt)
        else
          let '(c, r) := insert_at rest (specs ++ [(name, conv, false)]) e (default empty_node (param_child n)) in
          (set_param c n, r)
      else
        let '(c, r) := insert_at rest specs e (default empty_node (dget (children n) seg)) in
        (set_child seg c n, r)
  end.

Definition insert (path : pystr) (methods : list pystr) (scheme : scheme_key) (handler : H) (t : _RouteTrie)
    : _RouteTrie * result unit :=
  let segments := nonempty_segments path in
  let '(n, r) := insert_at segments [] (mkEntry methods scheme handler) (root t) in
  match r with
  | Raise e => (mkTrie n (_static_full t), Raise e)
  | Ok _ =>
      let static := if existsb is_param segments then _static_full t
                    else dset (dset (_static_full t) path segments) (47 :: join [47] segments) segments in
      (mkTrie n static, Ok tt)
  end.

Definition params : Type := dict pystr V.

(** [{name: conv(caps[j]) ...}] *)
Fixpoint convert_all (specs : list param_spec) (caps : list pystr) (d : params) : option params :=
  match specs, caps with
  | [], _ => Some d
  | (name, conv, _) :: specs, cap :: caps =>
      match convert conv cap with Some v => convert_all specs caps (dset d name v) | None => None end
  | _ :: _, [] => None
  end.

Fixpoint _match_entries (es : list entry) (caps : list pystr) (method scheme : pystr) : option (H * params) :=
  match es with
  | [] => None
  | e :: es =>
      if negb (bool_decide (method ∈ e_methods e)) then _match_entries es caps method scheme
      else if negb (_route_scheme_matches scheme (e_scheme e)) then _match_entries es caps method scheme
      else
        match convert_all (e_specs e) caps [] with
        | Some p => Some (e_handler e, p)
        | None => _match_entries es caps method scheme
        end
  end.

(** The segments a lookup walks: the leading empty one of a canonical path is
    stepped over. *)
Definition has_double_slash (path : pystr) : bool :=
  match find_sub (lit "//") path with Some _ => true | None => false end.

Definition path_segments (path : pystr) : list pystr :=
  if bool_decide (path = []) || endswith [47] path || has_double_slash path then nonempty_segments path
  else if bool_decide (head path = Some 47) then tail (split_on 47 path) else split_on 47 path.

(** The recursive walk, which also collects the allowed methods. *)
Fixpoint scan_entries (es : list entry) (caps : list pystr) (method scheme : pystr) (allowed : gset pystr)
    : option (H * params) * gset pystr :=
  match es with
  | [] => (None, allowed)
  | e :: es =>
      if negb (_route_scheme_matches scheme (e_scheme e)) then scan_entries es caps method scheme allowed
      else
        match convert_all (e_specs e) caps [] with
        | None => scan_entries es caps method scheme allowed
        | Some p =>
            if _route_method_matches method (e_methods e) then (Some (e_handler e, p), ∅)
            else scan_entries es caps method scheme (allowed ∪ list_to_set (e_methods e))
        end
  end.

(** One alternative, then the next. *)
Definition or_else (a : option (H * params) * gset pystr) (b : option (H * params) * gset pystr)
    : option (H * params) * gset pystr :=
  match a with
  | (Some h, _) => (Some h, ∅)
  | (None, allowed) => match b with (Some h, _) => (Some h, ∅) | (None, allowed') => (None, allowed ∪ allowed') end
  end.

Fixpoint _lookup (n : _TrieNode) (segments : list pystr) (caps : list pystr) (method scheme : pystr)
    : option (H * params) * gset pystr :=
  match segments with
  | [] => scan_entries (entries n) caps method scheme ∅
  | seg :: rest =>
      or_else (match dget (children n) seg with Some c => _lookup c rest caps method scheme | None => (None, ∅) end)
      (or_else (match param_child n with Some c => _lookup c rest (caps ++ [seg]) method scheme | None => (None, ∅) end)
        (match wildcard_child n with
         | Some c => scan_entries (entries c) (caps ++ [join [47] (seg :: rest)]) method scheme ∅
         | None => (None, ∅)
         end))
  end.

(** The iterative walk: a node, the segments left and the captures, and the
    stack of the alternatives still to be tried. *)
Definition frame : Type := _TrieNode * list pystr * list pystr.

Definition wildcard_frame (n : _TrieNode) (segments caps : list pystr) : list frame :=
  match wildcard_child n with Some wc => [(wc, [], caps ++ [join [47] segments])] | None => [] end.

Definition param_frame (n : _TrieNode) (seg : pystr) (rest caps : list pystr) : list frame :=
  match param_child n with Some pc => [(pc, rest, caps ++ [seg])] | None => [] end.

Fixpoint walk (fuel : nat) (node : _TrieNode) (segments caps : list pystr) (stack : list frame) (method scheme : pystr)
    : result (option (H * params)) :=
  match fuel with
  | O => Raise OutOfFuel
  | S fuel =>
      let backtrack :=
        match stack with
        | [] => Ok None
        | (n, segs, cs) :: stack => walk fuel n segs cs stack method scheme
        end in
      match segments with
      | [] => match _match_entries (entries node) caps method scheme with Some hit => Ok (Some hit) | None => backtrack end
      | seg :: rest =>
          match dget (children node) seg with
          | Some child =>
              walk fuel child rest caps (param_frame node seg rest caps ++ wildcard_frame node segments caps ++ stack)
                method scheme
          | None =>
              match param_child node with
              | Some pc => walk fuel pc rest (caps ++ [seg]) (wildcard_frame node segments caps ++ stack) method scheme
              | None =>
                  match wildcard_child node with
                  | Some wc => walk fuel wc [] (caps ++ [join [47] segments]) stack method scheme
                  | None => backtrack
                  end
              end
          end
      end
  end.

(** The nodes a walk that fails everywhere visits. *)
Fixpoint visits (n : _TrieNode) (segments : list pystr) : nat :=
  match segments with
  | [] => 1
  | seg :: rest =>
      S (match dget (children n) seg with Some c => visits c rest | None => 0 end +
         match param_child n with Some c => visits c rest | None => 0 end +
         match wildcard_child n with Some c => 1 | None => 0 end)
  end.

(** The node at a place of static segments. *)
Fixpoint node_at (n : _TrieNode) (place : list pystr) : _TrieNode :=
  match place with
  | [] => n
  | seg :: place => node_at (default empty_node (dget (children n) seg)) place
  end.

Definition lookup (path method scheme : pystr) (t : _RouteTrie) : result (option (H * params) * gset pystr) :=
  let fast := match dget (_static_full t) path with
              | Some place => _match_entries (entries (node_at (root t) place)) [] method scheme
              | None => None
              end in
  match fast with
  | Some hit => Ok (Some hit, ∅)
  | None =>
      let segments := path_segments path in
      let* hit := walk (visits (root t) segments) (root t) segments [] [] method scheme in
      match hit with
      | Some hit => Ok (Some hit, ∅)
      | None => Ok (_lookup (root t) segments [] method scheme)
      end
  end.

(** ** The router *)

#[export] Instance scheme_key_eq_dec : EqDecision scheme_key.
Proof. solve_decision. Defined.

(** A resolved route: the handler, and the parameters that are injected unless
    there are none. *)
Definition resolved : Type := H * params.

(** What [_resolve] returns or raises. *)
Inductive resolution : Type :=
| Found (r : resolved)
| MethodNotApplicable (allowed_methods : gset pystr)
| PathNotRegistered.

(** [_LookupCache] *)
Definition cache_key : Type := pystr * pystr * pystr.

Record _LookupCache : Type := mkCache {
  cache_max : Z;
  _store : dict cache_key resolved
}.

Definition cache_get (k : cache_key) (c : _LookupCache) : option resolved * _LookupCache :=
  match dget (_store c) k with
  | Some v =>
      (Some v, if zlen (_store c) >=? cache_max c then mkCache (cache_max c) (move_to_end (_store c) k v) else c)
  | None => (None, c)
  end.

Definition cache_set (k : cache_key) (v : resolved) (c : _LookupCache) : _LookupCache :=
  if cache_max c <=? 0 then c
  else
    let store := if zlen (_store c) >=? cache_max c then tail (_store c) else _store c in
    mkCache (cache_max c) (dset store k v).

Definition cache_clear (c : _LookupCache) : _LookupCache := mkCache (cache_max c) [].

Context `{!EqDecision P}.

Definition regex_key : Type := P * list pystr * scheme_key.

Record _RouteInfo : Type := mkInfo {
  i_template : pystr;
  i_handler : H;
  i_param_specs : dict pystr pystr;
  i_methods : list pystr;
  i_name : option pystr
}.

Record router : Type := mkRouter {
  _route_info : list _RouteInfo;
  _named_routes : dict pystr (pystr * dict pystr pystr);
  _frozen : bool;
  _trie : _RouteTrie;
  _string_paths : gset pystr;
  _raw_regex : dict regex_key H;
  _cache : _LookupCache
}.

Definition new_router (cache_max : Z) : router := mkRouter [] [] false new_trie ∅ [] (mkCache cache_max []).

Definition set_cache (c : _LookupCache) (r : router) : router :=
  mkRouter (_route_info r) (_named_routes r) (_frozen r) (_trie r) (_string_paths r) (_raw_regex r) c.

Definition set_trie (t : _RouteTrie) (paths : gset pystr) (r : router) : router :=
  mkRouter (_route_info r) (_named_routes r) (_frozen r) t paths (_raw_regex r) (_cache r).

Definition set_regex (d : dict regex_key H) (r : router) : router :=
  mkRouter (_route_info r) (_named_routes r) (_frozen r) (_trie r) (_string_paths r) d (_cache r).

Definition set_recorded (infos : list _RouteInfo) (names : dict pystr (pystr * dict pystr pystr)) (r : router) : router :=
  mkRouter infos names (_frozen r) (_trie r) (_string_paths r) (_raw_regex r) (_cache r).

(** What [validate] does when it finds nothing to complain about. *)
Definition freeze (r : router) : router :=
  mkRouter (_route_info r) (_named_routes r) true (_trie r) (_string_paths r) (_raw_regex r) (_cache r).

(** The [cache_max] property. *)
Definition set_cache_max (n : Z) (r : router) : router := set_cache (mkCache n (_store (_cache r))) r.

Inductive route_path : Type := PathStr (path : pystr) | PathRe (pattern : P).

Fixpoint validate_methods (methods : list pystr) : result unit :=
  match methods with
  | [] => Ok tt
  | m :: methods => let* _ := _validate_method_token m in validate_methods methods
  end.

(** The specifications of the placeholders are known, and the rest of the
    template has no character of a regular expression. *)
Definition specs_known (l : list piece) : bool :=
  forallb (fun x => match x with Hole _ spec => dmem _CONVERTERS (default (lit "str") spec) | Text _ => true end) l.

Definition regex_like (l : list piece) : bool :=
  existsb (fun x => match x with Text c => bool_decide (c ∈ _REGEX_METACHARS) | Hole _ _ => false end) l.

Definition __setitem__ (path : route_path) (methods : list pystr) (scheme : scheme_key) (value : H) (r : router)
    : router * result unit :=
  if _frozen r then (r, Raise RuntimeError)
  else
    let r := set_cache (cache_clear (_cache r)) r in
    match validate_methods methods with
    | Raise e => (r, Raise e)
    | Ok _ =>
        match path with
        | PathStr path =>
            let l := finditer path in
            if negb (specs_known l) then (r, Raise ValueError)
            else if regex_like l then (r, Raise ValueError)
            else
              let '(t, res) := insert path methods scheme value (_trie r) in
              (set_trie t (match res with Ok _ => {[path]} ∪ _string_paths r | Raise _ => _string_paths r end) r, res)
        | PathRe pattern => (set_regex (dset (_raw_regex r) (pattern, methods, scheme) value) r, Ok tt)
        end
    end.

(** The scan of the compiled patterns. *)
Fixpoint scan_regex (l : dict regex_key H) (path method scheme : pystr) (allowed : gset pystr) : resolution :=
  match l with
  | [] => if decide (allowed = ∅) then PathNotRegistered else MethodNotApplicable allowed
  | ((pattern, ms, ss), fn) :: l =>
      match re_match pattern path with
      | None => scan_regex l path method scheme allowed
      | Some groups =>
          if negb (_route_scheme_matches scheme ss) then scan_regex l path method scheme allowed
          else if _route_method_matches method ms then Found (fn, groups)
          else scan_regex l path method scheme (allowed ∪ list_to_set ms)
      end
  end.

Definition _resolve (k : cache_key) (r : router) : result resolution :=
  let '(path, method, scheme) := k in
  let* '(hit, allowed) := lookup path method scheme (_trie r) in
  match hit with
  | Some h => Ok (Found h)
  | None => Ok (scan_regex (_raw_regex r) path method scheme allowed)
  end.

Definition __getitem__ (k : cache_key) (r : router) : router * result resolution :=
  match cache_get k (_cache r) with
  | (Some v, c) => (set_cache c r, Ok (Found v))
  | (None, c) =>
      let r := set_cache c r in
      match _resolve k r with
      | Ok (Found v) => (set_cache (cache_set k v (_cache r)) r, Ok (Found v))
      | res => (r, res)
      end
  end.

Definition __contains__ (path : pystr) (r : router) : bool :=
  bool_decide (path ∈ _string_paths r)
  || existsb (fun x => match re_match x.1.1.1 path with Some _ => true | None => false end) (_raw_regex r).

(** The placeholders of a template, by name. *)
Definition template_specs (template : pystr) : dict pystr pystr :=
  foldl (fun d x => match x with Hole name spec => dset d name (default (lit "str") spec) | Text _ => d end) []
    (finditer template).

Definition _record_route (path : route_path) (handler : H) (name : option pystr) (methods : list pystr) (r : router)
    : router * result unit :=
  let '(template, specs) := match path with PathStr p => (p, template_specs p) | PathRe p => (re_source p, []) end in
  let info := mkInfo template handler specs methods name in
  match name with
  | Some n =>
      if dmem (_named_routes r) n then (r, Raise ValueError)
      else (set_recorded (_route_info r ++ [info]) (dset (_named_routes r) n (template, specs)) r, Ok tt)
  | None => (set_recorded (_route_info r ++ [info]) (_named_routes r) r, Ok tt)
  end.

(** [route_fn]'s [register] *)
Definition register (path : route_path) (methods : list pystr) (scheme : scheme_key) (handler : H) (name : option pystr)
    (r : router) : router * result unit :=
  match validate_methods methods with
  | Raise e => (r, Raise e)
  | Ok _ =>
      match __setitem__ path methods scheme handler r with
      | (r, Ok _) => _record_route path handler name methods r
      | (r, Raise e) => (r, Raise e)
      end
  end.

(** The substitution of [url_path_for]; the values are already strings. *)
Fixpoint substitute (l : list piece) (values : dict pystr pystr) : result pystr :=
  match l with
  | [] => Ok []
  | Text c :: l => let* rest := substitute l values in Ok (c :: rest)
  | Hole name _ :: l =>
      match dget values name with
      | None => Raise KeyError
      | Some v => let* rest := substitute l values in Ok (v ++ rest)
      end
  end.

Definition url_path_for (name : pystr) (values : dict pystr pystr) (r : router) : result pystr :=
  match dget (_named_routes r) name with
  | None => Raise KeyError
  | Some (template, specs) =>
      if negb (forallb (fun x => dmem values x.1) specs) then Raise ValueError
      else substitute (finditer template) values
  end.

(** [get_routes]: method, template and name of every route and method. *)
Definition get_routes (r : router) : list (pystr * pystr * pystr) :=
  _route_info r ≫= fun info => (fun m => (m, i_template info, default [] (i_name info))) <$> i_methods info.

(** ** What a trie holds *)

(** A place in the trie, for any node. *)
Inductive step : Type := SStatic (seg : pystr) | SParam | SWild.

#[local] Instance step_eq_dec : EqDecision step.
Proof. solve_decision. Defined.

Definition step_of (seg : pystr) : step :=
  if is_param seg then if (param_of seg).2 then SWild else SParam else SStatic seg.

Definition key_of (segments : list pystr) : list step := step_of <$> segments.

Fixpoint entries_at (n : _TrieNode) (k : list step) : list entry :=
  match k with
  | [] => entries n
  | SStatic seg :: k => match dget (children n) seg with Some c => entries_at c k | None => [] end
  | SParam :: k => match param_child n with Some c => entries_at c k | None => [] end
  | SWild :: k => match k, wildcard_child n with [], Some c => entries c | _, _ => [] end
  end.

Lemma entries_at_empty k : entries_at empty_node k = [].
Proof. by destruct k as [|[] [|]]. Qed.

Lemma entries_at_default o k : entries_at (default empty_node o) k = match o with Some c => entries_at c k | None => [] end.
Proof. destruct o; [done|apply entries_at_empty]. Qed.

(** The parameters of a template. *)
Definition specs_of (segments : list pystr) : list param_spec := param_of <$> filter (fun s => is_param s = true) segments.

Lemma specs_of_cons p pat : specs_of (p :: pat) = if is_param p then param_of p :: specs_of pat else specs_of pat.
Proof.
  unfold specs_of. destruct (is_param p) eqn:E; [by rewrite filter_cons_True|]. by rewrite filter_cons_False by by rewrite E.
Qed.

Lemma insert_at_spec segments specs e n n' r :
  insert_at segments specs e n = (n', r) ->
  (r = Ok tt \/ r = Raise ConfigurationError) /\
  forall k, entries_at n' k = entries_at n k ++
    (if decide (r = Ok tt /\ k = key_of segments) then [e (specs ++ specs_of segments)] else []).
Proof.
  revert specs n n' r. induction segments as [|seg rest IH]; intros specs n n' r; cbn [insert_at].
  - intros [= <- <-]. split; [by left|]. intros k. rewrite app_nil_r.
    destruct k as [|st k]; [by rewrite decide_True|]. rewrite decide_False, app_nil_r by by intros [_ [=]].
    destruct n. by destruct st.
  - destruct (is_param seg) eqn:Ep.
    + destruct (param_of seg) as [[name conv] is_path] eqn:Epo.
      assert (Hspecs : specs_of (seg :: rest) = (name, conv, is_path) :: specs_of rest).
      { by rewrite specs_of_cons, Ep, Epo. }
      destruct is_path.
      * case_bool_decide as Hr; cbn [negb].
        -- intros [= <- <-]. split; [by left|]. subst rest. rewrite Hspecs. intros k. unfold key_of. cbn [fmap list_fmap].
           assert (Hst : step_of seg = SWild) by (unfold step_of; by rewrite Ep, Epo). rewrite Hst. destruct k as [|st k].
           { rewrite decide_False, app_nil_r by by intros [_ [=]]. by destruct n. }
           destruct st; try (rewrite decide_False, app_nil_r by (by intros [_ [=]]); by destruct n).
           destruct k; [|by rewrite decide_False, app_nil_r by by intros [_ [=]]]. rewrite decide_True by done.
           cbn. by destruct (wildcard_child n).
        -- intros [= <- <-]. split; [by right|]. intros k. by rewrite decide_False, app_nil_r by by intros [? _].
      * destruct (insert_at rest _ e _) as [c r'] eqn:Ei. intros [= <- <-]. apply IH in Ei as [Hr Hk]. split; [done|].
        intros k. rewrite Hspecs. unfold key_of. cbn [fmap list_fmap].
        assert (Hst : step_of seg = SParam) by (unfold step_of; by rewrite Ep, Epo). rewrite Hst.
        rewrite <- app_assoc in Hk. destruct k as [|[seg'| |] k];
          try (rewrite decide_False, app_nil_r by (by intros [_ [=]]); by destruct n).
        cbn [entries_at param_child set_param]. rewrite Hk, entries_at_default. f_equal.
        destruct (decide (r' = Ok tt /\ k = key_of rest)) as [[-> ->]|Hn]; [by rewrite decide_True|].
        rewrite decide_False; [done|]. intros [? [= ?]]. by apply Hn.
    + destruct (insert_at rest _ e _) as [c r'] eqn:Ei. intros [= <- <-]. apply IH in Ei as [Hr Hk]. split; [done|].
      assert (Hspecs : specs_of (seg :: rest) = specs_of rest) by (by rewrite specs_of_cons, Ep).
      intros k. rewrite Hspecs. unfold key_of. cbn [fmap list_fmap].
      assert (Hst : step_of seg = SStatic seg) by (unfold step_of; by rewrite Ep). rewrite Hst.
      destruct k as [|[seg'| |] k]; try (rewrite decide_False, app_nil_r by (by intros [_ [=]]); by destruct n).
      cbn [entries_at children set_child]. rewrite dget_dset. destruct (decide (seg = seg')) as [<-|Hne].
      * rewrite Hk, entries_at_default. f_equal.
        destruct (decide (r' = Ok tt /\ k = key_of rest)) as [[-> ->]|Hn]; [by rewrite decide_True|].
        rewrite decide_False; [done|]. intros [? [= ?]]. by apply Hn.
      * rewrite decide_False, app_nil_r; [done|]. intros [_ [= ? _]]. by apply Hne.
Qed.

(** ** The order of a lookup *)

(** The places that match [segments], the most specific first. *)
Fixpoint keys (segments : list pystr) : list (list step) :=
  match segments with
  | [] => [[]]
  | seg :: rest => (cons (SStatic seg) <$> keys rest) ++ (cons SParam <$> keys rest) ++ [[SWild]]
  end.

(** What a place captures. *)
Fixpoint caps_of (k : list step) (segments : list pystr) : list pystr :=
  match k, segments with
  | SStatic _ :: k, _ :: rest => caps_of k rest
  | SParam :: k, seg :: rest => seg :: caps_of k rest
  | SWild :: _, _ => [join [47] segments]
  | _, _ => []
  end.

Definition outcome_of : Type := option (H * params) * gset pystr.

Definition first_of (l : list outcome_of) : outcome_of := foldr or_else (None, ∅) l.

(** An outcome that is a hit has no allowed methods. *)
Definition settled (o : outcome_of) : Prop := match o with (Some _, a) => a = ∅ | _ => True end.

Lemma or_else_nil o : settled o -> or_else o (None, ∅) = o.
Proof. destruct o as [[h|] a]; cbn; [by intros ->|]. by rewrite (right_id_L ∅ (∪)). Qed.

Lemma or_else_left o : settled o -> or_else (None, ∅) o = o.
Proof. destruct o as [[h|] a]; cbn; [by intros ->|]. by rewrite (left_id_L ∅ (∪)). Qed.

Lemma or_else_settled a b : settled (or_else a b).
Proof. by destruct a as [[]], b as [[]]. Qed.

Lemma first_settled l : settled (first_of l).
Proof. destruct l as [|o l]; [done|]. apply or_else_settled. Qed.

Lemma or_else_assoc a b c : settled b -> or_else (or_else a b) c = or_else a (or_else b c).
Proof. destruct a as [[]], b as [[]], c as [[]]; cbn; try done. by rewrite (assoc_L (∪)). Qed.

Lemma first_app l1 l2 : Forall settled l1 -> first_of (l1 ++ l2) = or_else (first_of l1) (first_of l2).
Proof.
  induction 1 as [|o l1 Ho _ IH]; cbn [app first_of foldr]; [by rewrite or_else_left by apply first_settled|].
  unfold first_of in *. rewrite IH, or_else_assoc; [done|]. apply (first_settled l1).
Qed.

Lemma scan_settled es caps m s allowed : settled (scan_entries es caps m s allowed).
Proof.
  revert allowed. induction es as [|e es IH]; intros allowed; cbn; [done|]. destruct (negb _); [done|].
  destruct (convert_all _ _ _); [|done]. destruct (_route_method_matches _ _); [done|apply IH].
Qed.

Lemma scan_match es caps m s allowed : (scan_entries es caps m s allowed).1 = _match_entries es caps m s.
Proof.
  revert allowed. induction es as [|e es IH]; intros allowed; cbn; [done|]. unfold _route_method_matches.
  destruct (_route_scheme_matches s (e_scheme e)); cbn [negb].
  - destruct (convert_all _ _ _); [|rewrite IH; by destruct (bool_decide _)]. case_bool_decide; [done|apply IH].
  - rewrite IH. by destruct (bool_decide _).
Qed.

Lemma first_none l : Forall (fun o => o = (None, ∅)) l -> first_of l = (None, ∅).
Proof. induction 1 as [|o l -> _ IH]; [done|]. unfold first_of in *. cbn. rewrite IH. by rewrite (left_id_L ∅ (∪)). Qed.

Definition scan_key (n : _TrieNode) (segments caps : list pystr) (m s : pystr) (k : list step) : outcome_of :=
  scan_entries (entries_at n k) (caps ++ caps_of k segments) m s ∅.

(** The recursive walk scans the matching places in order. *)
Lemma lookup_keys n segments caps m s :
  _lookup n segments caps m s = first_of (scan_key n segments caps m s <$> keys segments).
Proof.
  revert n caps. induction segments as [|seg rest IH]; intros n caps; cbn [_lookup keys].
  - unfold scan_key. cbn [fmap list_fmap first_of foldr entries_at caps_of].
    rewrite app_nil_r, or_else_nil by apply scan_settled. done.
  - assert (Hset : forall ks, Forall settled (scan_key n (seg :: rest) caps m s <$> ks)).
    { intros ks. apply Forall_fmap, Forall_forall. intros k _. apply scan_settled. }
    rewrite fmap_app, fmap_app, !first_app by apply Hset. f_equal; [|f_equal].
    + rewrite <- list_fmap_compose. destruct (dget (children n) seg) as [c|] eqn:Ec.
      * rewrite IH. f_equal. apply list_fmap_ext. intros _ k _. unfold compose, scan_key. cbn [entries_at caps_of]. by rewrite Ec.
      * symmetry. apply first_none, Forall_fmap, Forall_forall. intros k _. unfold compose, scan_key. cbn [entries_at]. by rewrite Ec.
    + rewrite <- list_fmap_compose. destruct (param_child n) as [c|] eqn:Ec.
      * rewrite IH. f_equal. apply list_fmap_ext. intros _ k _. unfold compose, scan_key. cbn [entries_at caps_of].
        by rewrite Ec, <- app_assoc.
      * symmetry. apply first_none, Forall_fmap, Forall_forall. intros k _. unfold compose, scan_key. cbn [entries_at]. by rewrite Ec.
    + unfold scan_key. cbn [fmap list_fmap first_of foldr entries_at caps_of]. rewrite or_else_nil by apply scan_settled.
      by destruct (wildcard_child n).
Qed.

(** The iterative walk finds what the recursive one finds. *)
Definition hit (f : frame) (m s : pystr) : option (H * params) := (_lookup f.1.1 f.1.2 f.2 m s).1.

Definition first_hit (l : list frame) (m s : pystr) : option (H * params) :=
  foldr (fun f r => match hit f m s with Some h => Some h | None => r end) None l.

Lemma first_hit_cons f l m s : first_hit (f :: l) m s = match hit f m s with Some h => Some h | None => first_hit l m s end.
Proof. done. Qed.

Lemma first_hit_app l1 l2 m s :
  first_hit (l1 ++ l2) m s = match first_hit l1 m s with Some h => Some h | None => first_hit l2 m s end.
Proof. induction l1 as [|f l1 IH]; [done|]. cbn [app]. rewrite !first_hit_cons, IH. by destruct (hit f m s). Qed.

Lemma or_else_hit a b : (or_else a b).1 = match a.1 with Some h => Some h | None => b.1 end.
Proof. by destruct a as [[]], b as [[]]. Qed.

Lemma hit_cons n seg rest caps m s :
  hit (n, seg :: rest, caps) m s =
  match match dget (children n) seg with Some c => hit (c, rest, caps) m s | None => None end with
  | Some h => Some h
  | None => first_hit (param_frame n seg rest caps ++ wildcard_frame n (seg :: rest) caps) m s
  end.
Proof.
  unfold hit. cbn [_lookup fst snd]. rewrite !or_else_hit, first_hit_app. unfold param_frame, wildcard_frame, first_hit, hit.
  destruct (dget (children n) seg) as [c|]; cbn [fst];
    [destruct (_lookup c rest caps m s).1; [done|]|]; destruct (param_child n) as [pc|], (wildcard_child n) as [wc|];
    cbn [foldr fst snd _lookup]; repeat case_match; done.
Qed.

Definition total_visits (l : list frame) : nat := sum_list ((fun f => visits f.1.1 f.1.2) <$> l).

Lemma total_visits_app l1 l2 : total_visits (l1 ++ l2) = (total_visits l1 + total_visits l2)%nat.
Proof. unfold total_visits. induction l1 as [|f l1 IH]; [done|]. cbn in *. lia. Qed.

Lemma frames_visits n seg rest caps :
  visits n (seg :: rest) =
    S (match dget (children n) seg with Some c => visits c rest | None => 0%nat end +
       total_visits (param_frame n seg rest caps ++ wildcard_frame n (seg :: rest) caps)).
Proof.
  rewrite total_visits_app. unfold param_frame, wildcard_frame, total_visits. cbn [visits].
  destruct (param_child n), (wildcard_child n); cbn; lia.
Qed.

Lemma walk_hits fuel node segments caps stack m s :
  (visits node segments + total_visits stack <= fuel)%nat ->
  walk fuel node segments caps stack m s = Ok (first_hit ((node, segments, caps) :: stack) m s).
Proof.
  revert node segments caps stack. induction fuel as [|fuel IH]; intros node segments caps stack Hf.
  { destruct segments; cbn [visits] in Hf; lia. }
  assert (Hback : (total_visits stack <= fuel)%nat ->
    match stack with [] => Ok None | (n, segs, cs) :: stack => walk fuel n segs cs stack m s end = Ok (first_hit stack m s)).
  { destruct stack as [|[[n segs] cs] stack]; [done|]. intros Hv. by apply IH. }
  rewrite first_hit_cons. cbn [walk]. destruct segments as [|seg rest].
  - unfold hit. cbn [fst snd _lookup]. rewrite scan_match. cbn [visits] in Hf.
    destruct (_match_entries (entries node) caps m s); [done|]. apply Hback. lia.
  - rewrite (frames_visits node seg rest caps), total_visits_app in Hf. rewrite hit_cons, first_hit_app.
    destruct (dget (children node) seg) as [c|].
    + rewrite IH by (rewrite !total_visits_app; lia). rewrite first_hit_cons, !first_hit_app.
      destruct (hit (c, rest, caps) m s); [done|]. by destruct (first_hit (param_frame _ _ _ _) m s).
    + unfold param_frame, wildcard_frame in *. destruct (param_child node) as [pc|]; cbn [app] in *.
      * rewrite IH by (rewrite total_visits_app; unfold total_visits in *; cbn in *; lia). rewrite !first_hit_cons, first_hit_app.
        by destruct (hit (pc, rest, caps ++ [seg]) m s).
      * destruct (wildcard_child node) as [wc|]; cbn [app] in *.
        -- rewrite IH by (unfold total_visits in *; cbn in *; lia). rewrite !first_hit_cons. cbn [first_hit foldr]. by destruct (hit _ m s).
        -- cbn [first_hit foldr]. apply Hback. lia.
Qed.

(** ** The fast paths *)

Lemma clean_split path :
  path <> [] -> find_sub (lit "//") path = None -> last path <> Some 47 ->
  exists w ws, split_on 47 path = w :: ws /\ Forall (fun s => s <> []) ws /\ (w = [] <-> head path = Some 47).
Proof.
  induction path as [|c path IH]; [done|]. intros _ Hf Hl. cbn [find_sub] in Hf.
  case_bool_decide as Hp; [done|]. destruct (find_sub (lit "//") path) eqn:Ef; [done|]. cbn [split_on].
  destruct path as [|d path].
  - cbn [split_on]. rewrite decide_False by (intros ->; done). exists [c], []. split_and!; [done|constructor|].
    cbn. split; [done|]. by intros [= ->].
  - destruct IH as (w & ws & E & Hws & Hh); [done|done|done|]. destruct (decide (c = 47)) as [->|Hc].
    + exists [], (split_on 47 (d :: path)). split_and!; [done| |done]. rewrite E. constructor; [|done].
      intros Hw%Hh. cbn in Hw. injection Hw as ->. apply Hp. by exists path.
    + rewrite E. exists (c :: w), ws. split_and!; [done|done|]. cbn. split; [done|]. by intros [= ->].
Qed.

Lemma filter_nonempty (ws : list pystr) : Forall (fun s => s <> []) ws -> filter (fun s => s <> []) ws = ws.
Proof. induction 1 as [|w ws Hw _ IH]; [done|]. by rewrite filter_cons_True, IH. Qed.

(** The segments of the canonical case are those of the filtered one. *)
Lemma path_segments_filter path : path_segments path = nonempty_segments path.
Proof.
  unfold path_segments. destruct (bool_decide_reflect (path = [])) as [|Hne]; [done|]. cbn [orb].
  destruct (endswith [47] path) eqn:Ee; [done|]. unfold has_double_slash. cbn [orb].
  destruct (find_sub (lit "//") path) eqn:Ef; [done|].
  destruct (clean_split path) as (w & ws & E & Hws & Hh); [done..| |].
  { intros (l & ->)%last_Some. unfold endswith in Ee. rewrite bool_decide_true in Ee; [done|]. by exists l. }
  unfold nonempty_segments. rewrite E. case_bool_decide as Hs.
  - apply Hh in Hs as ->. cbn [tail]. rewrite filter_cons_False by by intros []. by rewrite filter_nonempty.
  - rewrite filter_cons_True by (intros ->; by apply Hs, Hh). by rewrite filter_nonempty.
Qed.

(** The places of the static map. *)
Definition static_ok (t : _RouteTrie) : Prop :=
  forall path place, dget (_static_full t) path = Some place -> place = nonempty_segments path.

Lemma node_at_entries n place : entries (node_at n place) = entries_at n (SStatic <$> place).
Proof.
  revert n. induction place as [|seg place IH]; intros n; [done|]. cbn [node_at fmap list_fmap entries_at].
  rewrite IH, entries_at_default. done.
Qed.

Lemma keys_static segments : exists ks, keys segments = (SStatic <$> segments) :: ks.
Proof.
  induction segments as [|seg rest IH]; [by exists []|]. destruct IH as [ks E]. cbn [keys]. rewrite E. by eexists.
Qed.

Lemma caps_static segments : caps_of (SStatic <$> segments) segments = [].
Proof. by induction segments. Qed.

(** The lookup with its fast paths is the recursive one. *)
Lemma lookup_recursive path m s t :
  static_ok t -> lookup path m s t = Ok (_lookup (root t) (nonempty_segments path) [] m s).
Proof.
  intros Hok. unfold lookup. rewrite path_segments_filter. set (segs := nonempty_segments path).
  assert (Hhit : forall h, (_lookup (root t) segs [] m s).1 = Some h -> _lookup (root t) segs [] m s = (Some h, ∅)).
  { intros h Hh. pose proof (lookup_keys (root t) segs [] m s) as E. rewrite E in *.
    pose proof (first_settled (scan_key (root t) segs [] m s <$> keys segs)) as Hs.
    destruct (first_of _) as [[] a]; cbn in *; [by simplify_eq|done]. }
  destruct (match dget (_static_full t) path with Some place => _ | None => None end) as [h|] eqn:E.
  - f_equal. symmetry. apply Hhit. destruct (dget (_static_full t) path) as [place|] eqn:Ep; [|done].
    apply Hok in Ep as ->. fold segs in E. rewrite lookup_keys. destruct (keys_static segs) as [ks ->].
    cbn [fmap list_fmap first_of foldr]. rewrite or_else_hit. unfold scan_key at 1.
    rewrite scan_match, caps_static, <- node_at_entries. cbn [app]. by rewrite E.
  - rewrite walk_hits by (unfold total_visits; cbn; lia). cbn [rbind first_hit foldr]. unfold hit. cbn [fst snd].
    destruct (_lookup (root t) segs [] m s).1 as [h|] eqn:Eh; [|done]. by rewrite (Hhit h).
Qed.

(** ** Routes *)

Record route : Type := mkRoute {
  r_path : pystr;
  r_methods : list pystr;
  r_scheme : scheme_key;
  r_handler : H
}.

(** The tries that registrations build, and the routes they accepted. *)
Inductive built : list route -> _RouteTrie -> Prop :=
| built_new : built [] new_trie
| built_insert rs t r t' :
    built rs t -> insert (r_path r) (r_methods r) (r_scheme r) (r_handler r) t = (t', Ok tt) -> built (rs ++ [r]) t'
| built_refused rs t r t' e :
    built rs t -> insert (r_path r) (r_methods r) (r_scheme r) (r_handler r) t = (t', Raise e) -> built rs t'.

Definition pattern (r : route) : list pystr := nonempty_segments (r_path r).
Definition entry_of (r : route) : entry := mkEntry (r_methods r) (r_scheme r) (r_handler r) (specs_of (pattern r)).

Lemma segments_facts path : Forall (fun s => (47 ∉ s) /\ s <> []) (nonempty_segments path).
Proof.
  apply Forall_forall. intros w [Hne Hw]%list_elem_of_filter. pose proof (split_on_no_sep 47 path) as Hf.
  rewrite Forall_forall in Hf. split; [by apply Hf|done].
Qed.

Lemma segments_join ws : Forall (fun s => (47 ∉ s) /\ s <> []) ws -> nonempty_segments (47 :: join [47] ws) = ws.
Proof.
  intros Hws. assert (Hns : Forall (fun w => 47 ∉ w) ws) by (eapply Forall_impl; [exact Hws|]; naive_solver).
  assert (Hne : Forall (fun s => s <> []) ws) by (eapply Forall_impl; [exact Hws|]; naive_solver).
  unfold nonempty_segments. cbn [split_on]. rewrite decide_True by done. rewrite filter_cons_False by by intros [].
  destruct ws as [|w ws]; [done|]. rewrite split_on_join by done. by apply filter_nonempty.
Qed.

Lemma built_static rs t : built rs t -> static_ok t.
Proof.
  induction 1 as [|rs t r t' _ IH Hi|rs t r t' e _ IH Hi]; [done|..]; unfold insert in Hi;
    destruct (insert_at _ _ _ _) as [n [|e']]; try done; injection Hi as <-; try done.
  intros path place. cbn [_static_full]. destruct (existsb is_param _); [apply IH|].
  rewrite !dget_dset. case_decide as Hp.
  - intros [= <-]. rewrite <- Hp, segments_join; [done|apply segments_facts].
  - case_decide; [by intros [= <-]; subst|apply IH].
Qed.

Lemma built_entries rs t k :
  built rs t -> entries_at (root t) k = entry_of <$> filter (fun r => key_of (pattern r) = k) rs.
Proof.
  induction 1 as [|rs t r t' _ IH Hi|rs t r t' e _ IH Hi]; [apply entries_at_empty|..]; unfold insert in Hi;
    destruct (insert_at _ _ _ _) as [n r'] eqn:Ei; apply insert_at_spec in Ei as [Hr Hk]; destruct r' as [[]|e']; try done;
    injection Hi as <-; cbn [root]; rewrite Hk, IH.
  - rewrite filter_app, fmap_app. f_equal. destruct (decide (key_of (pattern r) = k)) as [<-|Hne].
    + rewrite filter_cons_True by done. by rewrite decide_True.
    + rewrite filter_cons_False, decide_False by (done || by intros [_ ->]). done.
  - rewrite decide_False, app_nil_r; [done|]. by intros [? _].
Qed.

(** ** Matching *)

(** What a template binds on [segments], each parameter with its text. *)
Fixpoint bind_pattern (pat segments : list pystr) : option (list (param_spec * pystr)) :=
  match pat, segments with
  | [], [] => Some []
  | p :: pat, seg :: rest =>
      if is_param p then
        if (param_of p).2
        then if bool_decide (pat = []) then Some [(param_of p, join [47] segments)] else None
        else cons (param_of p, seg) <$> bind_pattern pat rest
      else if bool_decide (p = seg) then bind_pattern pat rest else None
  | _, _ => None
  end.

(** The parameters a route takes from [segments] under [scheme], if it accepts
    them. *)
Definition accepts (r : route) (segments : list pystr) (scheme : pystr) : option params :=
  match bind_pattern (pattern r) segments with
  | Some b => if _route_scheme_matches scheme (r_scheme r) then convert_all b.*1 b.*2 [] else None
  | None => None
  end.

Lemma bind_pattern_key pat segments :
  bind_pattern pat segments =
    if decide (key_of pat ∈ keys segments) then Some (zip (specs_of pat) (caps_of (key_of pat) segments)) else None.
Proof.
  revert segments. induction pat as [|p pat IH]; intros [|seg rest]; cbn [bind_pattern keys].
  - done.
  - rewrite decide_False; [done|]. unfold key_of. cbn. rewrite !elem_of_app, !list_elem_of_fmap, list_elem_of_singleton. naive_solver.
  - rewrite decide_False; [done|]. by rewrite list_elem_of_singleton.
  - unfold key_of. cbn [fmap list_fmap]. fold (key_of pat). rewrite specs_of_cons.
    assert (Hin : forall st, (st :: key_of pat ∈ (cons (SStatic seg) <$> keys rest) ++ (cons SParam <$> keys rest) ++ [[SWild]]) <->
      (st = SStatic seg \/ st = SParam) /\ (key_of pat ∈ keys rest) \/ st = SWild /\ pat = []).
    { intros st. rewrite !elem_of_app, !list_elem_of_fmap, list_elem_of_singleton.
      assert (key_of pat = [] <-> pat = []) by by destruct pat. naive_solver. }
    destruct (is_param p) eqn:Ep.
    + destruct (param_of p) as [[name conv] is_path] eqn:Epo. cbn [snd].
      destruct is_path.
      * assert (Hst : step_of p = SWild) by (unfold step_of; by rewrite Ep, Epo). rewrite Hst.
        destruct (bool_decide_reflect (pat = [])) as [->|Hne]; [|rewrite decide_False; [done|rewrite Hin; naive_solver]].
        rewrite decide_True by (apply Hin; naive_solver). done.
      * assert (Hst : step_of p = SParam) by (unfold step_of; by rewrite Ep, Epo). rewrite Hst, IH.
        destruct (decide (key_of pat ∈ keys rest)); [rewrite decide_True|rewrite decide_False]; try done; rewrite Hin; naive_solver.
    + assert (Hst : step_of p = SStatic p) by (unfold step_of; by rewrite Ep).
      rewrite Hst, IH. case_bool_decide as Hps.
      * subst p. destruct (decide (key_of pat ∈ keys rest)); [rewrite decide_True|rewrite decide_False]; try done; rewrite Hin; naive_solver.
      * rewrite decide_False; [done|]. rewrite Hin. naive_solver.
Qed.

(** ** Precedence *)

(** A literal segment before a parameter, a parameter before the rest of the
    path; the leftmost segment that differs decides. *)
Definition rank (st : step) : Z := match st with SStatic _ => 0 | SParam => 1 | SWild => 2 end.

Definition specificity (r : route) : list Z := rank <$> key_of (pattern r).

Fixpoint lex_lt (a b : list Z) : Prop :=
  match a, b with
  | x :: a, y :: b => x < y \/ (x = y /\ lex_lt a b)
  | _, _ => False
  end.

Lemma keys_sorted segments : StronglySorted (fun k k' => lex_lt (rank <$> k) (rank <$> k')) (keys segments).
Proof.
  induction segments as [|seg rest IH]; cbn [keys]; [repeat constructor|].
  assert (Hc : forall st, StronglySorted (fun k k' => lex_lt (rank <$> k) (rank <$> k')) (cons st <$> keys rest)).
  { intros st. eapply StronglySorted_fmap; [|exact IH]. intros k k' Hk. cbn. by right. }
  repeat apply StronglySorted_app_2; [|apply Hc| |apply Hc|repeat constructor];
    intros x1 x2; rewrite ?elem_of_app, !list_elem_of_fmap, ?list_elem_of_singleton.
  - intros (k & -> & _) [(k' & -> & _)| ->]; cbn; lia.
  - intros (k & -> & _) ->. cbn. lia.
Qed.

(** ** Scanning *)

Lemma first_hit_split (l : list outcome_of) h :
  (first_of l).1 = Some h -> exists l1 o l2, l = l1 ++ o :: l2 /\ Forall (fun o => o.1 = None) l1 /\ o.1 = Some h.
Proof.
  induction l as [|o l IH]; [done|]. cbn [first_of foldr]. rewrite or_else_hit. destruct o.1 as [h'|] eqn:Eo.
  - intros [= ->]. by exists [], o, l.
  - intros (l1 & o' & l2 & -> & Hl1 & Ho')%IH. exists (o :: l1), o', l2. split_and!; [done|by constructor|done].
Qed.

Lemma first_miss (l : list outcome_of) :
  (first_of l).1 = None ->
  Forall (fun o => o.1 = None) l /\ forall m, m ∈ (first_of l).2 <-> exists o, o ∈ l /\ m ∈ o.2.
Proof.
  induction l as [|o l IH]; cbn [first_of foldr]; [set_solver|]. destruct o as [[|] a]; cbn [or_else]; [done|].
  fold (first_of l). destruct (first_of l) as [[|] a'] eqn:E; [done|]. intros _. destruct (IH eq_refl) as [Hf Hm]. split.
  - by constructor.
  - intros m. cbn [snd]. rewrite elem_of_union. setoid_rewrite elem_of_cons. cbn [snd] in Hm. rewrite Hm. split.
    + intros [?|(o & ? & ?)]; eauto.
    + intros (o & [-> |?] & ?); eauto.
Qed.

(** Whether an entry answers, and what it converts. *)
Definition entry_accepts (e : entry) (caps : list pystr) (s : pystr) : option params :=
  if _route_scheme_matches s (e_scheme e) then convert_all (e_specs e) caps [] else None.

Lemma match_split es caps m s h p :
  _match_entries es caps m s = Some (h, p) ->
  exists es1 e es2, es = es1 ++ e :: es2 /\ e_handler e = h /\ entry_accepts e caps s = Some p /\ m ∈ e_methods e /\
    Forall (fun e => entry_accepts e caps s <> None -> m ∉ e_methods e) es1.
Proof.
  induction es as [|e es IH]; [done|]. cbn [_match_entries]. intros Hm.
  assert (Hskip : (entry_accepts e caps s <> None -> m ∉ e_methods e) -> _match_entries es caps m s = Some (h, p) ->
    exists es1 e' es2, e :: es = es1 ++ e' :: es2 /\ e_handler e' = h /\ entry_accepts e' caps s = Some p /\ m ∈ e_methods e' /\
      Forall (fun e => entry_accepts e caps s <> None -> m ∉ e_methods e) es1).
  { intros He (es1 & e' & es2 & -> & Hh & Hp & Hin & Hf)%IH. exists (e :: es1), e', es2. split_and!; try done. by constructor. }
  unfold entry_accepts in *. case_bool_decide as Hin; cbn [negb] in Hm; [|by apply Hskip].
  destruct (_route_scheme_matches s (e_scheme e)) eqn:Es; cbn [negb] in Hm; [|by apply Hskip].
  destruct (convert_all (e_specs e) caps []) as [p'|] eqn:Ec; [|by apply Hskip].
  injection Hm as <- <-. exists [], e, es. rewrite Es. by split_and!.
Qed.

Lemma scan_miss es caps m s allowed :
  _match_entries es caps m s = None ->
  Forall (fun e => entry_accepts e caps s <> None -> m ∉ e_methods e) es /\
  forall m', m' ∈ (scan_entries es caps m s allowed).2 <->
    m' ∈ allowed \/ exists e, e ∈ es /\ entry_accepts e caps s <> None /\ m' ∈ e_methods e.
Proof.
  revert allowed. induction es as [|e es IH]; intros allowed; [cbn; set_solver|]. cbn [_match_entries scan_entries].
  unfold entry_accepts at 1, _route_method_matches. intros Hm.
  assert (Hstep : forall allowed', _match_entries es caps m s = None ->
    (entry_accepts e caps s <> None -> m ∉ e_methods e) ->
    (forall m', m' ∈ allowed' <-> m' ∈ allowed \/ (entry_accepts e caps s <> None /\ m' ∈ e_methods e)) ->
    Forall (fun e => entry_accepts e caps s <> None -> m ∉ e_methods e) (e :: es) /\
    forall m', m' ∈ (scan_entries es caps m s allowed').2 <->
      m' ∈ allowed \/ exists e', e' ∈ e :: es /\ entry_accepts e' caps s <> None /\ m' ∈ e_methods e').
  { intros allowed' Hm' He Ha. destruct (IH allowed' Hm') as [Hf Hs]. split; [by constructor|]. intros m'.
    rewrite Hs, Ha. setoid_rewrite elem_of_cons. naive_solver. }
  assert (Hnone : entry_accepts e caps s = None -> forall m', m' ∈ allowed <-> m' ∈ allowed \/ (entry_accepts e caps s <> None /\ m' ∈ e_methods e)).
  { intros -> m'. naive_solver. }
  destruct (_route_scheme_matches s (e_scheme e)) eqn:Es; cbn [negb] in *.
  - destruct (convert_all (e_specs e) caps []) as [p|] eqn:Ec.
    + case_bool_decide as Hin; [done|]. cbn [negb] in Hm. apply Hstep; [done|done|].
      intros m'. rewrite elem_of_union, elem_of_list_to_set. unfold entry_accepts. rewrite Es, Ec. naive_solver.
    + assert (Ha : entry_accepts e caps s = None) by (unfold entry_accepts; by rewrite Es).
      apply Hstep; [by destruct (bool_decide _)|by rewrite Ha|by apply Hnone].
  - assert (Ha : entry_accepts e caps s = None) by (unfold entry_accepts; by rewrite Es).
    apply Hstep; [by destruct (bool_decide _)|by rewrite Ha|by apply Hnone].
Qed.

Lemma filter_split {A} (Q : A -> Prop) `{!forall x, Decision (Q x)} l f1 x f2 :
  filter Q l = f1 ++ x :: f2 -> exists l1 l2, l = l1 ++ x :: l2 /\ filter Q l1 = f1 /\ Q x.
Proof.
  revert f1. induction l as [|y l IH]; intros f1; [by destruct f1|]. rewrite filter_cons. destruct (decide (Q y)) as [Hy|Hy].
  - destruct f1 as [|z f1]; cbn [app].
    + intros [= -> _]. by exists [], l.
    + intros [= <- E]. apply IH in E as (l1 & l2 & -> & <- & Hx). exists (y :: l1), l2.
      split_and!; [done| |done]. by rewrite filter_cons_True.
  - intros (l1 & l2 & -> & <- & Hx)%IH. exists (y :: l1), l2. split_and!; [done| |done]. by rewrite filter_cons_False.
Qed.

(** What a route accepts, at the place of its template. *)
Lemma accepts_entry r segs s :
  key_of (pattern r) ∈ keys segs ->
  accepts r segs s = entry_accepts (entry_of r) (caps_of (key_of (pattern r)) segs) s.
Proof.
  intros Hk. unfold accepts, entry_accepts. rewrite bind_pattern_key, decide_True by done. cbn [entry_of e_scheme e_specs].
  destruct (_route_scheme_matches _ _); [|done].
  assert (Hlen : length (specs_of (pattern r)) = length (caps_of (key_of (pattern r)) segs)).
  { clear s. revert segs Hk. induction (pattern r) as [|p pat IH]; intros [|seg rest]; cbn [keys].
    - done.
    - rewrite !elem_of_app, !list_elem_of_fmap, list_elem_of_singleton. unfold key_of. naive_solver.
    - by rewrite list_elem_of_singleton.
    - rewrite specs_of_cons. unfold key_of. cbn [fmap list_fmap]. fold (key_of pat).
      rewrite !elem_of_app, !list_elem_of_fmap, list_elem_of_singleton. unfold step_of.
      destruct (is_param p); [destruct (param_of p).2|].
      + intros [(? & ? & ?)|[(? & ? & ?)|[= Hp]]]; try done. destruct pat; [done|]. by unfold key_of in Hp.
      + intros [(? & ? & ?)|[(? & [= <-] & Hin)|[= ]]]; try done. cbn. f_equal. by apply IH.
      + intros [(? & [= _ <-] & Hin)|[(? & ? & ?)|[= ]]]; try done. cbn. by apply IH. }
  rewrite fst_zip, snd_zip by lia. done.
Qed.

Lemma accepts_key r segs s : accepts r segs s <> None -> key_of (pattern r) ∈ keys segs.
Proof. unfold accepts. rewrite bind_pattern_key. by destruct (decide _). Qed.

(** Route [i] goes before route [j]. *)
Definition precedes (i : nat) (r : route) (j : nat) (r' : route) : Prop :=
  lex_lt (specificity r) (specificity r') \/ (specificity r = specificity r' /\ (i <= j)%nat).

Lemma scan_key_routes rs t segs s m k :
  built rs t -> scan_key (root t) segs [] m s k =
    scan_entries (entry_of <$> filter (fun r => key_of (pattern r) = k) rs) (caps_of k segs) m s ∅.
Proof. intros Hb. unfold scan_key. by rewrite (built_entries rs t k Hb). Qed.

Lemma lookup_hit rs t segs m s h p :
  built rs t -> (_lookup (root t) segs [] m s).1 = Some (h, p) ->
  exists i r, rs !! i = Some r /\ r_handler r = h /\ accepts r segs s = Some p /\ m ∈ r_methods r /\
    forall j r', rs !! j = Some r' -> accepts r' segs s <> None -> m ∈ r_methods r' -> precedes i r j r'.
Proof.
  intros Hb. rewrite lookup_keys. intros (l1 & o & l2 & E & Hl1 & Ho)%first_hit_split.
  apply fmap_app_inv in E as (K1 & K2 & -> & E & Hks). destruct K2 as [|k K2]; [done|]. cbn [fmap list_fmap] in E. injection E as -> ->.
  rewrite (scan_key_routes rs t segs s m k Hb), scan_match in Ho.
  destruct (match_split _ _ _ _ _ _ Ho) as (es1 & e & es2 & E & Hh & Hp & Hm & Hes1).
  apply fmap_app_inv in E as (f1 & f2 & -> & E & Hf). destruct f2 as [|r f2]; [done|]. cbn [fmap list_fmap] in E. injection E as -> _.
  destruct (filter_split _ _ _ _ _ Hf) as (p1 & p2 & -> & <- & Hk).
  assert (Hkin : k ∈ keys segs) by (rewrite Hks; set_solver).
  exists (length p1), r. rewrite accepts_entry by by rewrite Hk. rewrite Hk. split_and!; try done.
  { by rewrite list_lookup_middle. }
  intros j r' Hj Hacc Hm'. pose proof (accepts_key _ _ _ Hacc) as Hk'. pose proof (keys_sorted segs) as Hsort. rewrite Hks in Hk', Hsort.
  unfold precedes, specificity. rewrite Hk.
  assert (Hsame : key_of (pattern r') = k -> (length p1 <= j)%nat).
  { intros Hkk. destruct (Nat.le_gt_cases (length p1) j) as [|Hlt]; [done|]. exfalso.
    rewrite lookup_app_l in Hj by done. apply list_elem_of_lookup_2 in Hj. rewrite Forall_fmap, Forall_forall in Hes1.
    apply (Hes1 r'); [by apply list_elem_of_filter| |done]. rewrite accepts_entry in Hacc by by rewrite Hkk. by rewrite Hkk in Hacc. }
  apply elem_of_app in Hk' as [Hk1|[Hk2|Hk2]%elem_of_cons].
  - exfalso. rewrite Forall_fmap, Forall_forall in Hl1. specialize (Hl1 _ Hk1). unfold compose in Hl1.
    rewrite (scan_key_routes _ t segs s m _ Hb), scan_match in Hl1.
    apply scan_miss with (allowed := ∅) in Hl1 as [Hl1 _]. rewrite Forall_fmap, Forall_forall in Hl1.
    apply (Hl1 r'); [|by rewrite <- accepts_entry by (rewrite Hks; set_solver)|done].
    apply list_elem_of_filter. split; [done|]. by eapply list_elem_of_lookup_2.
  - right. rewrite Hk2. split; [done|]. by apply Hsame.
  - left. apply StronglySorted_app_1_r in Hsort. apply StronglySorted_inv in Hsort as [_ Hsort].
    rewrite Forall_forall in Hsort. by apply Hsort.
Qed.

Lemma lookup_miss rs t segs m s :
  built rs t -> (_lookup (root t) segs [] m s).1 = None ->
  (forall r, r ∈ rs -> accepts r segs s <> None -> m ∉ r_methods r) /\
  forall m', m' ∈ (_lookup (root t) segs [] m s).2 <-> exists r, r ∈ rs /\ accepts r segs s <> None /\ m' ∈ r_methods r.
Proof.
  intros Hb. rewrite lookup_keys. intros [Hnone Hall]%first_miss.
  assert (Hkey : forall k, k ∈ keys segs ->
    _match_entries (entry_of <$> filter (fun r => key_of (pattern r) = k) rs) (caps_of k segs) m s = None).
  { intros k Hk. rewrite Forall_fmap, Forall_forall in Hnone. specialize (Hnone k Hk). unfold compose in Hnone.
    by rewrite (scan_key_routes rs t segs s m k Hb), scan_match in Hnone. }
  assert (Hr : forall r, r ∈ rs -> accepts r segs s <> None ->
    entry_of r ∈ entry_of <$> filter (fun r' => key_of (pattern r') = key_of (pattern r)) rs /\
    entry_accepts (entry_of r) (caps_of (key_of (pattern r)) segs) s <> None).
  { intros r Hin Hacc. pose proof (accepts_key _ _ _ Hacc) as Hk. rewrite accepts_entry in Hacc by done. split; [|done].
    apply list_elem_of_fmap. exists r. split; [done|]. by apply list_elem_of_filter. }
  split.
  - intros r Hin Hacc. destruct (Hr r Hin Hacc) as [Hin' Hacc']. pose proof (accepts_key _ _ _ Hacc) as Hk.
    apply Hkey, scan_miss with (allowed := ∅) in Hk as [Hf _]. rewrite Forall_forall in Hf. exact (Hf _ Hin' Hacc').
  - intros m'. rewrite Hall. split.
    + intros (o & (k & -> & Hk)%list_elem_of_fmap & Hm'). rewrite (scan_key_routes rs t segs s m k Hb) in Hm'.
      pose proof (Hkey k Hk) as Hm. apply scan_miss with (allowed := ∅) in Hm as [_ Hm]. apply Hm in Hm' as [Hm'|(e & He & Hacc & Hin)]; [by apply elem_of_empty in Hm'|].
      apply list_elem_of_fmap in He as (r & -> & [Hrk Hr']%list_elem_of_filter). exists r. split_and!; [done| |done].
      rewrite accepts_entry by by rewrite Hrk. by rewrite Hrk.
    + intros (r & Hin & Hacc & Hm'). pose proof (accepts_key _ _ _ Hacc) as Hk. destruct (Hr r Hin Hacc) as [Hin' Hacc'].
      exists (scan_key (root t) segs [] m s (key_of (pattern r))). split; [by apply list_elem_of_fmap; eexists|].
      rewrite (scan_key_routes rs t segs s m _ Hb). pose proof (Hkey _ Hk) as Hn.
      apply scan_miss with (allowed := ∅) in Hn as [_ Hn]. apply Hn. right. by exists (entry_of r).
Qed.

(** C8: a lookup selects the most specific route.  For every sequence of
    registrations, refused ones included, and every request path — canonical or
    with empty segments — the trie with its fast paths answers as the table of
    registered routes says: a hit is a registered route that accepts the
    segments, the scheme and the method, with the parameters its template
    binds, and no other such route has precedence over it (literal before
    parameter before rest-of-path at the first segment that differs, then
    registration order); a miss means no route takes the method, and the
    allowed methods are those of the routes that accept the path. *)
Theorem lookup_selects rs t path m s :
  built rs t ->
  exists o allowed, lookup path m s t = Ok (o, allowed) /\
  let segs := nonempty_segments path in
  match o with
  | Some (h, p) =>
      exists i r, rs !! i = Some r /\ r_handler r = h /\ accepts r segs s = Some p /\ m ∈ r_methods r /\
      forall j r', rs !! j = Some r' -> accepts r' segs s <> None -> m ∈ r_methods r' -> precedes i r j r'
  | None =>
      (forall r, r ∈ rs -> accepts r segs s <> None -> m ∉ r_methods r) /\
      forall m', m' ∈ allowed <-> exists r, r ∈ rs /\ accepts r segs s <> None /\ m' ∈ r_methods r
  end.
Proof.
  intros Hb. rewrite lookup_recursive by by eapply built_static. set (segs := nonempty_segments path).
  destruct (_lookup (root t) segs [] m s) as [o allowed] eqn:E. exists o, allowed. split; [done|]. cbn zeta.
  destruct o as [[h p]|].
  - apply (lookup_hit rs t segs m s h p Hb). by rewrite E.
  - pose proof (lookup_miss rs t segs m s Hb) as Hm. rewrite E in Hm. by apply Hm.
Qed.

(** The fast paths change nothing.  Over any trie that registrations
    build, the static map and the iterative walk with its stack return exactly
    what the recursive walk returns, and the iterative walk ends within the
    visits of the nodes it can reach. *)
Theorem lookup_fast_paths rs t path m s :
  built rs t -> lookup path m s t = Ok (_lookup (root t) (nonempty_segments path) [] m s).
Proof. intros Hb. apply lookup_recursive. by eapply built_static. Qed.

(** ** The router's table *)

(** The router as its registrations built it: [rs] are the string routes that
    were accepted. *)
Definition table (rs : list route) (r : router) : Prop := built rs (_trie r).

Lemma setitem_table rs path methods scheme h r r' res :
  table rs r -> __setitem__ path methods scheme h r = (r', res) ->
  exists rs', table rs' r' /\
    (rs' = rs \/ exists p, path = PathStr p /\ res = Ok tt /\ rs' = rs ++ [mkRoute p methods scheme h]).
Proof.
  intros Ht. unfold __setitem__. destruct (_frozen r); [intros [= <- <-]; eauto|].
  destruct (validate_methods methods); [|intros [= <- <-]; eauto]. destruct path as [p|pat]; [|intros [= <- <-]; eauto].
  destruct (negb _); [intros [= <- <-]; eauto|]. destruct (regex_like _); [intros [= <- <-]; eauto|].
  destruct (insert p methods scheme h (_trie _)) as [t e] eqn:Ei. intros [= <- <-]. destruct e as [[]|e].
  - exists (rs ++ [mkRoute p methods scheme h]). split; [|right; by eexists]. by eapply built_insert with (r := mkRoute p methods scheme h).
  - exists rs. split; [|by left]. by eapply built_refused with (r := mkRoute p methods scheme h).
Qed.

Lemma setitem_added rs p methods scheme h r r' :
  table rs r -> __setitem__ (PathStr p) methods scheme h r = (r', Ok tt) -> table (rs ++ [mkRoute p methods scheme h]) r'.
Proof.
  intros Ht. unfold __setitem__. destruct (_frozen r); [done|]. destruct (validate_methods methods); [|done].
  destruct (negb _); [done|]. destruct (regex_like _); [done|].
  destruct (insert p methods scheme h (_trie _)) as [t [[]|e]] eqn:Ei; [|done]. intros [= <-].
  by eapply built_insert with (r := mkRoute p methods scheme h).
Qed.

(** Whether a compiled pattern takes the method on the path. *)
Definition re_takes (path scheme method : pystr) (x : regex_key * H) : Prop :=
  re_match x.1.1.1 path <> None /\ _route_scheme_matches scheme x.1.2 = true /\ (method ∈ x.1.1.2).

(** The first pattern that takes the method, or the methods that are taken. *)
Definition scanned (path s m : pystr) (l : dict regex_key H) (allowed : gset pystr) (res : resolution) : Prop :=
  match res with
  | Found (h, p) => exists l1 x l2, l = l1 ++ x :: l2 /\ x.2 = h /\ re_match x.1.1.1 path = Some p /\
      re_takes path s m x /\ Forall (fun y => ~ re_takes path s m y) l1
  | MethodNotApplicable a =>
      a <> ∅ /\ (forall m', m' ∈ a <-> m' ∈ allowed \/ Exists (re_takes path s m') l) /\
      Forall (fun y => ~ re_takes path s m y) l
  | PathNotRegistered => allowed = ∅ /\ forall m', Forall (fun y => ~ re_takes path s m' y) l
  end.

Lemma scanned_skip path s m x l allowed allowed' res :
  ~ re_takes path s m x -> (forall m', m' ∈ allowed' <-> m' ∈ allowed \/ re_takes path s m' x) ->
  scanned path s m l allowed' res -> scanned path s m (x :: l) allowed res.
Proof.
  intros Hx Ha. destruct res as [[h p]|a|]; cbn [scanned].
  - intros (l1 & y & l2 & -> & ? & ? & ? & ?). exists (x :: l1), y, l2. split_and!; try done. by constructor.
  - intros (Hne & Hiff & Hf). split_and!; [done| |by constructor]. intros m'. rewrite Hiff, Ha, Exists_cons. tauto.
  - intros [He Hf]. assert (Hem : forall m', ~ (m' ∈ allowed \/ re_takes path s m' x)).
    { intros m' H'%Ha. rewrite He in H'. by apply elem_of_empty in H'. }
    split.
    + apply set_eq. intros m'. split; [intros H'; exfalso; eapply Hem; eauto|by intros ?%elem_of_empty].
    + intros m'. constructor; [|done]. intros H'. eapply Hem. eauto.
Qed.

Lemma scan_regex_spec l path m s allowed : scanned path s m l allowed (scan_regex l path m s allowed).
Proof.
  revert allowed. induction l as [|[[[pat ms] ss] fn] l IH]; intros allowed; cbn [scan_regex].
  - destruct (decide (allowed = ∅)) as [->|Hne]; [by split|]. split_and!; [done| |constructor]. intros m'.
    rewrite Exists_nil. tauto.
  - unfold _route_method_matches. destruct (re_match pat path) as [groups|] eqn:Er.
    + destruct (_route_scheme_matches s ss) eqn:Es; cbn [negb].
      * case_bool_decide as Hm.
        -- exists [], (pat, ms, ss, fn), l. unfold re_takes. cbn. rewrite Er, Es. by split_and!.
        -- eapply scanned_skip; [|intros m'|apply IH]; unfold re_takes; cbn; [tauto|].
           rewrite Er, Es, elem_of_union, elem_of_list_to_set. split; [intros [|]; auto|intros [|(_ & _ & ?)]; auto].
      * eapply scanned_skip; [|intros m'|apply IH]; unfold re_takes; cbn; rewrite Es; [by intros (_ & ? & _)|].
        split; [auto|]. by intros [|(_ & ? & _)].
    + eapply scanned_skip; [|intros m'|apply IH]; unfold re_takes; cbn; rewrite Er; [by intros (? & _)|].
      split; [auto|]. by intros [|(? & _)].
Qed.

(** Whether some route takes [method] on [path]: a string route or a compiled
    pattern. *)
Definition takes (rs : list route) (r : router) (path scheme method : pystr) : Prop :=
  Exists (fun x => accepts x (nonempty_segments path) scheme <> None /\ (method ∈ r_methods x)) rs \/
  Exists (re_takes path scheme method) (_raw_regex r).

Lemma resolve_cases rs r path m s :
  table rs r ->
  exists res, _resolve (path, m, s) r = Ok res /\
  match res with
  | Found _ => takes rs r path s m
  | MethodNotApplicable a => ~ takes rs r path s m /\ a <> ∅ /\ forall m', m' ∈ a <-> takes rs r path s m'
  | PathNotRegistered => forall m', ~ takes rs r path s m'
  end.
Proof.
  intros Ht. unfold _resolve. rewrite lookup_recursive by by eapply built_static. cbn [rbind].
  set (segs := nonempty_segments path).
  pose proof (lookup_hit rs (_trie r) segs m s) as Hhit. pose proof (lookup_miss rs (_trie r) segs m s Ht) as Hmiss.
  destruct (_lookup (root (_trie r)) segs [] m s) as [[[h p]|] allowed]; cbn [fst snd] in *.
  - exists (Found (h, p)). split; [done|]. destruct (Hhit h p Ht eq_refl) as (i & x & Hi & _ & Hacc & Hm & _).
    left. apply Exists_exists. exists x. split; [by eapply list_elem_of_lookup_2|]. fold segs. by rewrite Hacc.
  - destruct (Hmiss eq_refl) as [Hno Hall]. eexists. split; [reflexivity|].
    assert (Hs : forall m', Exists (fun x => accepts x segs s <> None /\ (m' ∈ r_methods x)) rs <-> m' ∈ allowed).
    { intros m'. rewrite Hall, Exists_exists. naive_solver. }
    assert (Hm : m ∉ allowed) by (rewrite Hall; intros (x & ? & ? & ?); by eapply Hno).
    pose proof (scan_regex_spec (_raw_regex r) path m s allowed) as Hscan. unfold takes. fold segs.
    destruct (scan_regex _ _ _ _ _) as [[h p]|a|]; cbn [scanned] in Hscan.
    + destruct Hscan as (l1 & x & l2 & -> & _ & _ & Hx & _). right. apply Exists_app. right. by apply Exists_cons_hd.
    + destruct Hscan as (Hne & Hiff & Hf). split_and!; [|done|intros m'; by rewrite Hs, Hiff].
      rewrite Hs. intros [?|Hx]; [done|]. apply Exists_exists in Hx as (x & Hin & Hx). rewrite Forall_forall in Hf. by eapply Hf.
    + destruct Hscan as [-> Hf]. intros m'. rewrite Hs. intros [?%elem_of_empty|Hx]; [done|].
      apply Exists_exists in Hx as (x & Hin & Hx). specialize (Hf m'). rewrite Forall_forall in Hf. by eapply Hf.
Qed.

(** A request is resolved, answered 404, or answered 405 with the right
    Allow.  For every table of registrations and every key: [_resolve] finds a
    handler exactly when some string route or pattern takes the method on the
    path under the scheme; [PathNotRegistered] exactly when none takes any
    method; otherwise [MethodNotApplicable] with exactly the methods that are
    taken, of which there is at least one. *)
Theorem resolve_outcome rs r path m s :
  table rs r ->
  exists res, _resolve (path, m, s) r = Ok res /\
  match res with
  | Found _ => takes rs r path s m
  | MethodNotApplicable a => ~ takes rs r path s m /\ a <> ∅ /\ forall m', m' ∈ a <-> takes rs r path s m'
  | PathNotRegistered => forall m', ~ takes rs r path s m'
  end.
Proof. apply resolve_cases. Qed.

(** ** The cache *)

Inductive op : Type :=
| Register (path : route_path) (methods : list pystr) (scheme : scheme_key) (handler : H) (name : option pystr)
| Get (k : cache_key)
| SetCacheMax (n : Z)
| Freeze.

Inductive reply : Type :=
| Registered (r : result unit)
| Resolved (r : result resolution)
| Done.

Definition apply_op (o : op) (r : router) : router * reply :=
  match o with
  | Register path methods scheme h name => let '(r, x) := register path methods scheme h name r in (r, Registered x)
  | Get k => let '(r, x) := __getitem__ k r in (r, Resolved x)
  | SetCacheMax n => (set_cache_max n r, Done)
  | Freeze => (freeze r, Done)
  end.

(** The same without a cache. *)
Definition apply_uncached (o : op) (r : router) : router * reply :=
  match o with
  | Register path methods scheme h name => let '(r, x) := register path methods scheme h name r in (r, Registered x)
  | Get k => (r, Resolved (_resolve k r))
  | SetCacheMax _ => (r, Done)
  | Freeze => (freeze r, Done)
  end.

Fixpoint apply_all (f : op -> router -> router * reply) (os : list op) (r : router) : router * list reply :=
  match os with
  | [] => (r, [])
  | o :: os => let '(r, x) := f o r in let '(r, xs) := apply_all f os r in (r, x :: xs)
  end.

(** Two routers that differ in their caches only. *)
Definition forget (r : router) : router := set_cache (mkCache 0 []) r.

(** What is cached is what would be resolved now. *)
Definition fresh (r : router) : Prop :=
  forall k v, dget (_store (_cache r)) k = Some v -> _resolve k r = Ok (Found v).

Lemma resolve_forget k r : _resolve k (forget r) = _resolve k r.
Proof. done. Qed.

(** An operation on a router and on the same router without its cache. *)
Definition agree {A} (r : router) (a b : router * A) : Prop :=
  b.2 = a.2 /\ forget b.1 = forget a.1 /\ cache_max (_cache a.1) = cache_max (_cache r) /\
  (a.1 = r \/ _store (_cache a.1) = []).

Lemma setitem_agree path methods scheme h r :
  agree r (__setitem__ path methods scheme h r) (__setitem__ path methods scheme h (forget r)).
Proof.
  unfold __setitem__. cbn [_frozen forget set_cache]. destruct (_frozen r); [split_and!; try done; by left|].
  destruct (validate_methods methods); [|split_and!; try done; by right].
  destruct path as [p|pat]; [|split_and!; try done; by right].
  destruct (negb (specs_known (finditer p))); [split_and!; try done; by right|].
  destruct (regex_like (finditer p)); [split_and!; try done; by right|].
  change (_trie (set_cache (cache_clear (_cache r)) r)) with (_trie r).
  change (_trie (set_cache (cache_clear (_cache (forget r))) (forget r))) with (_trie r).
  destruct (insert p methods scheme h (_trie r)) as [t e]. split_and!; try done. by right.
Qed.

Lemma record_agree path h name methods r1 r2 :
  forget r1 = forget r2 -> _store (_cache r1) = [] ->
  agree r1 (_record_route path h name methods r1) (_record_route path h name methods r2).
Proof.
  intros Hf Hs. destruct r1, r2. unfold forget, set_cache in Hf. cbn in Hf, Hs. injection Hf as -> -> -> -> -> ->.
  unfold _record_route. destruct (match path with PathStr p => _ | PathRe p => _ end) as [template specs].
  cbn [_named_routes _route_info]. destruct name as [n|]; [destruct (dmem _ n)|]; split_and!; try done; by right.
Qed.

Lemma record_store path h name methods r : _cache (_record_route path h name methods r).1 = _cache r.
Proof. unfold _record_route. destruct path, name as [n|]; try done; by destruct (dmem _ n). Qed.

Lemma setitem_frozen path methods scheme h r r' :
  __setitem__ path methods scheme h r = (r', Ok tt) -> _store (_cache r') = [].
Proof.
  unfold __setitem__. destruct (_frozen r); [done|]. destruct (validate_methods methods); [|done].
  destruct path as [p|pat]; [|by intros [= <-]]. destruct (negb _); [done|]. destruct (regex_like _); [done|].
  destruct (insert _ _ _ _ _). by intros [= <- _].
Qed.

Lemma register_agree path methods scheme h name r :
  agree r (register path methods scheme h name r) (register path methods scheme h name (forget r)).
Proof.
  unfold register. destruct (validate_methods methods); [|split_and!; try done; by left].
  pose proof (setitem_agree path methods scheme h r) as (H1 & H2 & Hmax & H3). pose proof (setitem_frozen path methods scheme h r) as Hs.
  destruct (__setitem__ path methods scheme h r) as [r1 x], (__setitem__ path methods scheme h (forget r)) as [r2 y]. cbn [fst snd] in *.
  subst y. destruct x as [[]|e]; [|by split_and!]. specialize (Hs r1 eq_refl).
  destruct (record_agree path h name methods r1 r2) as (E1 & E2 & E3 & E4); [done..|].
  split_and!; [done|done|congruence|]. right. by rewrite record_store.
Qed.

Lemma dget_tail (d : dict cache_key resolved) k v : dict_ok d -> dget (tail d) k = Some v -> dget d k = Some v.
Proof.
  destruct d as [|[k' v'] d]; [done|]. unfold dict_ok. cbn. intros [Hk _]%NoDup_cons Hg. case_decide as Hkk; [|done]. subst k'.
  exfalso. apply Hk. apply dget_elem in Hg. apply list_elem_of_fmap. by exists (k, v).
Qed.

(** A cache that can be trusted, no larger than [n]. *)
Record cache_ok (n : Z) (r : router) : Prop := mkCacheOk {
  ck_keys : dict_ok (_store (_cache r));
  ck_fresh : fresh r;
  ck_max : cache_max (_cache r) <= n;
  ck_size : zlen (_store (_cache r)) <= Z.max 0 n
}.

Lemma cache_set_ok n k v r :
  cache_ok n r -> _resolve k r = Ok (Found v) -> cache_ok n (set_cache (cache_set k v (_cache r)) r).
Proof.
  intros [Hk Hf Hm Hs] Hr. unfold cache_set. destruct (Z.leb_spec (cache_max (_cache r)) 0); [by destruct r|].
  set (st := if zlen (_store (_cache r)) >=? cache_max (_cache r) then tail (_store (_cache r)) else _store (_cache r)). pose proof (zlen_nonneg (_store (_cache r))).
  assert (Hst : dict_ok st /\ (forall k' v', dget st k' = Some v' -> dget (_store (_cache r)) k' = Some v') /\ zlen st + 1 <= Z.max 0 n).
  { unfold st. destruct (_ >=? _) eqn:E; [|split_and!; [done|done|lia]]. split_and!.
    - unfold dict_ok, dkeys in *. destruct (_store (_cache r)); [done|]. by apply NoDup_cons in Hk as [_ Hk].
    - intros k' v'. by apply dget_tail.
    - destruct (_store (_cache r)) as [|x d]; [unfold zlen in *; cbn in *; lia|]. rewrite zlen_cons in *. cbn [tail]. lia. }
  destruct Hst as (Hok & Hget & Hlen). split; cbn [_store _cache set_cache cache_max].
  - by apply dset_ok.
  - intros k' v'. cbn [_store _cache set_cache]. rewrite dget_dset. case_decide as Hkk; [intros [= <-]; by subst k'|].
    intros Hv. by apply Hf, Hget.
  - done.
  - unfold zlen in *. rewrite length_dset. destruct (dmem _ _); lia.
Qed.

Lemma get_ok n k r :
  cache_ok n r -> let '(r', x) := __getitem__ k r in x = _resolve k r /\ forget r' = forget r /\ cache_ok n r'.
Proof.
  intros Hc. pose proof Hc as [Hk Hf Hm Hs]. unfold __getitem__, cache_get. destruct (dget (_store (_cache r)) k) as [v|] eqn:E.
  - split_and!; [symmetry; by apply Hf|done|]. destruct (_ >=? _); [|by destruct r]. split; cbn [_store _cache set_cache cache_max].
    + by apply move_to_end_ok.
    + intros k' v'. cbn [_store _cache set_cache]. rewrite dget_move_to_end by done. case_decide; [subst; intros [= <-]; by apply Hf|apply Hf].
    + done.
    + by rewrite zlen_move_to_end by (by rewrite E).
  - change (_resolve k (set_cache (_cache r) r)) with (_resolve k r).
    destruct (_resolve k r) as [[v| |]|e] eqn:Er; try (split_and!; [done|done|by destruct r]).
    split_and!; [done|done|]. by apply (cache_set_ok n k v r).
Qed.

Definition peak (n : Z) (os : list op) : Z := foldr (fun o m => match o with SetCacheMax k => Z.max k m | _ => m end) n os.

Lemma cache_ok_mono n n' r : n <= n' -> cache_ok n r -> cache_ok n' r.
Proof. intros Hn []. split; try done; lia. Qed.

Lemma step_ok n o r r0 :
  cache_ok n r -> forget r = forget r0 -> (forall k, o = SetCacheMax k -> k <= n) ->
  let '(r', x) := apply_op o r in let '(r0', x0) := apply_uncached o r0 in
  x = x0 /\ forget r' = forget r0' /\ cache_ok n r'.
Proof.
  intros Hc Hf Hn. destruct o as [path ms ss h name|k|k|]; cbn [apply_op apply_uncached].
  - pose proof (register_agree path ms ss h name r) as (H1 & H2 & Hmax & H3). pose proof (register_agree path ms ss h name r0) as (H4 & H5 & _).
    rewrite <- Hf in H4, H5. destruct (register path ms ss h name r) as [r' x], (register path ms ss h name r0) as [r0' x0].
    cbn [fst snd] in *. split_and!; [congruence|congruence|]. destruct H3 as [-> |He]; [done|].
    split.
    + rewrite He. apply NoDup_nil_2.
    + intros k v. by rewrite He.
    + rewrite Hmax. apply Hc.
    + rewrite He. unfold zlen. cbn. lia.
  - pose proof (get_ok n k r Hc) as Hg. destruct (__getitem__ k r) as [r' x]. destruct Hg as (-> & Hg & Hok).
    split_and!; [|congruence|done]. f_equal. rewrite <- (resolve_forget k r), <- (resolve_forget k r0). congruence.
  - split_and!; [done|done|]. destruct Hc as [H1 H2 H3 H4]. split; try done. cbn. by apply Hn.
  - split_and!; [done| |].
    + destruct r, r0. unfold forget, set_cache in *. cbn in *. injection Hf as -> -> _ -> -> ->. done.
    + destruct Hc as [H1 H2 H3 H4]. by split.
Qed.

Lemma peak_bound n os : n <= peak n os /\ forall k, SetCacheMax k ∈ os -> k <= peak n os.
Proof.
  induction os as [|o os [IH1 IH2]]; cbn [peak foldr]; [split; [lia|by intros k ?%elem_of_nil]|]. fold (peak n os).
  split; [destruct o; lia|]. intros k [<-|Hk]%elem_of_cons; [lia|]. specialize (IH2 k Hk). destruct o; lia.
Qed.

Lemma cached_run_ok n os r r0 :
  cache_ok n r -> forget r = forget r0 -> (forall k, SetCacheMax k ∈ os -> k <= n) ->
  let '(r', xs) := apply_all apply_op os r in (apply_all apply_uncached os r0).2 = xs /\ cache_ok n r'.
Proof.
  revert r r0. induction os as [|o os IH]; intros r r0 Hc Hf Hn; cbn [apply_all]; [done|].
  pose proof (step_ok n o r r0 Hc Hf) as Hs. destruct (apply_op o r) as [r1 x], (apply_uncached o r0) as [r2 y].
  destruct Hs as (-> & Hf' & Hc'); [intros k ->; apply Hn; set_solver|].
  specialize (IH r1 r2 Hc' Hf'). destruct (apply_all apply_op os r1) as [r1' xs], (apply_all apply_uncached os r2) as [r2' ys].
  cbn [snd] in *. destruct IH as [-> Hc2]; [|done]. intros k Hk. apply Hn. set_solver.
Qed.

(** The cache cannot be seen.  Over any history of registrations, lookups,
    changes of the cache's bound and freezing, every reply — handlers with
    their parameters, 404s and 405s, refused registrations — is the reply of a
    router that resolves every key anew; and the cache never holds more entries
    than the largest bound it was given. *)
Theorem cache_transparent n os r xs :
  apply_all apply_op os (new_router n) = (r, xs) ->
  (apply_all apply_uncached os (new_router n)).2 = xs /\ zlen (_store (_cache r)) <= Z.max 0 (peak n os).
Proof.
  intros E. destruct (peak_bound n os) as [Hn Hk].
  assert (Hnew : cache_ok (peak n os) (new_router n)).
  { split; [apply NoDup_nil_2|by intros k v|done|]. change (zlen (_store (_cache (new_router n)))) with 0. lia. }
  pose proof (cached_run_ok (peak n os) os (new_router n) (new_router n) Hnew eq_refl Hk) as Hr. rewrite E in Hr.
  destruct Hr as [Hr Hc]. split; [done|]. apply Hc.
Qed.

(** Every router that operations reach has a table. *)
Lemma record_trie path h name methods r : _trie (_record_route path h name methods r).1 = _trie r.
Proof. unfold _record_route. destruct path, name as [n|]; try done; by destruct (dmem _ n). Qed.

Lemma apply_op_table rs o r : table rs r -> exists rs', table rs' (apply_op o r).1.
Proof.
  intros Ht. destruct o as [path ms ss h name|k|k|]; cbn [apply_op]; [|exists rs..]; try done.
  - unfold register. destruct (validate_methods ms); [|by exists rs].
    destruct (__setitem__ path ms ss h r) as [r1 x] eqn:E. destruct (setitem_table _ _ _ _ _ _ _ _ Ht E) as (rs' & Ht' & _).
    exists rs'. destruct x as [[]|e]; [|done]. pose proof (record_trie path h name ms r1) as Hr.
    destruct (_record_route path h name ms r1). unfold table in *. cbn [fst] in *. by rewrite Hr.
  - unfold __getitem__, cache_get. destruct (dget _ k) as [v|]; [done|].
    destruct (_resolve k _) as [[v| |]|e]; done.
Qed.

Lemma reachable_table os n : exists rs, table rs (apply_all apply_op os (new_router n)).1.
Proof.
  assert (H0 : exists rs, table rs (new_router n)) by (exists []; constructor). revert H0. generalize (new_router n).
  induction os as [|o os IH]; intros r [rs Hr]; cbn [apply_all]; [by exists rs|].
  destruct (apply_op_table rs o r Hr) as [rs' Hr']. destruct (apply_op o r) as [r1 x]. cbn [fst] in Hr'.
  destruct (IH r1 (ex_intro _ rs' Hr')) as [rs2 H2]. destruct (apply_all apply_op os r1) as [r2 xs]. by exists rs2.
Qed.

(** ** Reverse routing *)

(** Templates whose segments are literal text or one placeholder each. *)
Inductive tseg : Type := TLit (w : pystr) | THole (name : pystr) (spec : option pystr).

Definition seg_text (x : tseg) : pystr :=
  match x with
  | TLit w => w
  | THole name None => 123 :: name ++ [125]
  | THole name (Some spec) => 123 :: name ++ 58 :: spec ++ [125]
  end.

Definition is_ident (w : pystr) : Prop :=
  match w with c :: _ => is_alpha_ c = true | [] => False end /\ Forall (fun c => is_word c = true) w.

Definition tseg_ok (x : tseg) : Prop :=
  match x with
  | TLit w => w <> [] /\ (47 ∉ w) /\ (123 ∉ w)
  | THole name spec => is_ident name /\
      match spec with
      | None => True
      | Some sp => is_ident sp /\ dmem _CONVERTERS sp = true /\ sp <> lit "path"
      end
  end.

Definition tconv (spec : option pystr) : converter := default str (dget _CONVERTERS (default (lit "str") spec)).

Definition template (l : list tseg) : pystr := mjoin ((fun x => 47 :: seg_text x) <$> l).

Definition seg_value (values : dict pystr pystr) (x : tseg) : pystr :=
  match x with TLit w => w | THole name _ => default [] (dget values name) end.

Definition filled (values : dict pystr pystr) (x : tseg) : Prop :=
  match x with
  | TLit _ => True
  | THole name spec => exists v, dget values name = Some v /\ v <> [] /\ (47 ∉ v) /\ convert (tconv spec) v <> None
  end.

(** The parameters of a template, and their texts. *)
Definition hole_specs (l : list tseg) : list param_spec :=
  omap (fun x => match x with TLit _ => None | THole name spec => Some (name, tconv spec, false) end) l.

Definition hole_values (values : dict pystr pystr) (l : list tseg) : list pystr :=
  omap (fun x => match x with TLit _ => None | THole name _ => dget values name end) l.

Lemma word_ident w c r : Forall (fun c => is_word c = true) w -> is_word c = false -> word (w ++ c :: r) = (w, c :: r).
Proof. intros Hw Hc. induction Hw as [|d w Hd _ IH]; cbn [app word]; [by rewrite Hc|]. by rewrite Hd, IH. Qed.

Lemma ident_app w c r : is_ident w -> is_word c = false -> ident (w ++ c :: r) = Some (w, c :: r).
Proof. intros [Ha Hw] Hc. unfold ident. rewrite word_ident by done. destruct w as [|d w]; [done|]. by rewrite Ha. Qed.

Lemma hole_at name spec r : tseg_ok (THole name spec) -> placeholder_at (seg_text (THole name spec) ++ r) = Some (name, spec, r).
Proof.
  intros [Hn Hs]. destruct spec as [sp|]; cbn [seg_text app placeholder_at Z.eqb Pos.eqb]; rewrite <- app_assoc; cbn [app].
  - rewrite ident_app by done. cbn [Z.eqb Pos.eqb]. destruct Hs as [Hs _]. rewrite <- app_assoc. cbn [app]. by rewrite ident_app.
  - by rewrite ident_app.
Qed.

Lemma placeholder_length l name spec r : placeholder_at l = Some (name, spec, r) -> (length r < length l)%nat.
Proof.
  assert (Hword : forall l w r, word l = (w, r) -> (length r <= length l)%nat).
  { clear. induction l as [|c l IH]; intros w r; cbn [word]; [by intros [= _ <-]|].
    destruct (is_word c); [|by intros [= _ <-]]. destruct (word l) as [w' r'] eqn:E. intros [= _ <-]. specialize (IH _ _ eq_refl). cbn. lia. }
  assert (Hident : forall l w r, ident l = Some (w, r) -> (length r <= length l)%nat).
  { intros l' w r'. unfold ident. destruct (word l') as [[|c w'] r2] eqn:E; [done|]. destruct (is_alpha_ c); [|done].
    intros [= _ <-]. by apply Hword in E. }
  unfold placeholder_at. destruct l as [|c l]; [done|]. destruct (c =? 123); [|done].
  destruct (ident l) as [[n [|d r']]|] eqn:E; try done. apply Hident in E. cbn in E |- *.
  destruct (d =? 125); [intros [= _ _ <-]; lia|]. destruct (d =? 58); [|done].
  destruct (ident r') as [[n2 [|e r2]]|] eqn:E2; try done. apply Hident in E2. cbn in E2.
  destruct (e =? 125); [|done]. intros [= _ _ <-]. lia.
Qed.

Lemma pieces_fuel f1 f2 l : (length l <= f1)%nat -> (length l <= f2)%nat -> pieces f1 l = pieces f2 l.
Proof.
  revert f2 l. induction f1 as [|f1 IH]; intros [|f2] l H1 H2; try (destruct l; [done|cbn in *; lia]).
  cbn [pieces]. destruct l as [|c l]; [done|].
  destruct (placeholder_at (c :: l)) as [[[name spec] r]|] eqn:E; f_equal; [|apply IH; cbn in *; lia].
  apply placeholder_length in E. apply IH; cbn in *; lia.
Qed.

Lemma finditer_hole x r : tseg_ok x -> match x with TLit _ => True | THole name spec =>
  finditer (seg_text x ++ r) = Hole name spec :: finditer r end.
Proof.
  destruct x as [w|name spec]; [done|]. intros Hok. unfold finditer.
  pose proof (hole_at name spec r Hok) as Hp. pose proof (placeholder_length _ _ _ _ Hp) as Hl.
  destruct (seg_text (THole name spec) ++ r) as [|c l] eqn:E; [done|]. cbn [length pieces]. rewrite Hp. f_equal.
  apply pieces_fuel; cbn in *; lia.
Qed.

Lemma finditer_text w r : (123 ∉ w) -> finditer (w ++ r) = (Text <$> w) ++ finditer r.
Proof.
  unfold finditer. induction w as [|c w IH]; intros Hw; [done|]. apply not_elem_of_cons in Hw as [Hc Hw].
  cbn [app length pieces fmap list_fmap]. assert (Hp : placeholder_at (c :: w ++ r) = None).
  { unfold placeholder_at. by rewrite (proj2 (Z.eqb_neq _ _)) by congruence. }
  rewrite Hp. f_equal. by apply IH.
Qed.

Definition seg_pieces (x : tseg) : list piece := match x with TLit w => Text <$> w | THole name spec => [Hole name spec] end.

Lemma template_cons x l : template (x :: l) = [47] ++ seg_text x ++ template l.
Proof. done. Qed.

Lemma finditer_template l : Forall tseg_ok l -> finditer (template l) = l ≫= fun x => Text 47 :: seg_pieces x.
Proof.
  induction 1 as [|x l Hx _ IH]; [done|]. rewrite template_cons, bind_cons, finditer_text by set_solver. cbn [fmap list_fmap app]. f_equal.
  pose proof (finditer_hole x (template l) Hx) as Hh. destruct x as [w|name spec]; cbn [seg_pieces].
  - destruct Hx as (_ & _ & Hw). cbn [seg_text]. by rewrite finditer_text, IH by done.
  - by rewrite Hh, IH.
Qed.

(** The URL: every segment with its value. *)
Definition url (values : dict pystr pystr) (l : list tseg) : pystr := mjoin ((fun x => 47 :: seg_value values x) <$> l).

Lemma substitute_text w r values : substitute ((Text <$> w) ++ r) values = let* rest := substitute r values in Ok (w ++ rest).
Proof.
  induction w as [|c w IH]; cbn [fmap list_fmap app substitute]; [by destruct (substitute r values)|]. rewrite IH.
  by destruct (substitute r values).
Qed.

Lemma substitute_template l values :
  Forall (filled values) l -> substitute (l ≫= fun x => Text 47 :: seg_pieces x) values = Ok (url values l).
Proof.
  induction 1 as [|x l Hx _ IH]; [done|]. rewrite bind_cons. cbn [app substitute].
  destruct x as [w|name spec]; cbn [seg_pieces].
  - by rewrite substitute_text, IH.
  - destruct Hx as (v & Hv & _). cbn [app substitute]. rewrite Hv, IH. unfold url. cbn. by rewrite Hv.
Qed.

Lemma segments_of_join ws :
  Forall (fun s => (47 ∉ s) /\ s <> []) ws -> nonempty_segments (mjoin (cons 47 <$> ws)) = ws.
Proof.
  intros Hws. destruct ws as [|w ws]; [done|]. rewrite <- (segments_join (w :: ws) Hws) at 2. f_equal. clear Hws.
  revert w. induction ws as [|w' ws IH]; intros w; [cbn; by rewrite app_nil_r|].
  change (mjoin (cons 47 <$> w :: w' :: ws)) with (47 :: w ++ mjoin (cons 47 <$> w' :: ws)). by rewrite IH.
Qed.

Lemma value_segments values l :
  Forall tseg_ok l -> Forall (filled values) l -> nonempty_segments (url values l) = seg_value values <$> l.
Proof.
  intros Hl Hf. unfold url. change (fun x => 47 :: seg_value values x) with (compose (cons 47) (seg_value values)).
  rewrite list_fmap_compose. apply segments_of_join. apply Forall_fmap. rewrite Forall_forall in *. intros x Hx.
  specialize (Hl x Hx). specialize (Hf x Hx). destruct x as [w|name spec]; [naive_solver|].
  destruct Hf as (v & Hv & Hne & Hs & _). unfold compose, seg_value. by rewrite Hv.
Qed.

Lemma ident_octets w : is_ident w -> Forall (fun c => c <> 47 /\ c <> 58 /\ c <> 123 /\ c <> 125) w.
Proof.
  intros [_ Hw]. eapply Forall_impl; [exact Hw|]. intros c Hc. unfold is_word, is_alpha_, is_digit in Hc. lia.
Qed.

Lemma text_segments l : Forall tseg_ok l -> nonempty_segments (template l) = seg_text <$> l.
Proof.
  intros Hl. unfold template. change (fun x => 47 :: seg_text x) with (compose (cons 47) seg_text).
  rewrite list_fmap_compose. apply segments_of_join. apply Forall_fmap. eapply Forall_impl; [exact Hl|].
  intros [w|name spec] Hx; [naive_solver|]. destruct Hx as [Hn Hs]. apply ident_octets in Hn. rewrite Forall_forall in Hn.
  unfold compose, seg_text. destruct spec as [sp|]; (split; [|done]).
  - destruct Hs as [Hs _]. apply ident_octets in Hs. rewrite Forall_forall in Hs.
    rewrite !elem_of_cons, elem_of_app, elem_of_cons, elem_of_app, list_elem_of_singleton.
    intros [?|[H47|[?|[H47|?]]]]; try done; [by apply Hn in H47 as [? _]|by apply Hs in H47 as [? _]].
  - rewrite !elem_of_cons, elem_of_app, list_elem_of_singleton. intros [?|[H47|?]]; try done. by apply Hn in H47 as [? _].
Qed.

Lemma hole_param name spec :
  tseg_ok (THole name spec) ->
  is_param (seg_text (THole name spec)) = true /\ param_of (seg_text (THole name spec)) = (name, tconv spec, false).
Proof.
  intros [Hn Hs]. apply ident_octets in Hn as Hn'. rewrite Forall_forall in Hn'.
  assert (Hnc : 58 ∉ name) by (intros Hin; apply Hn' in Hin; naive_solver).
  assert (Hparam : forall w, is_param (123 :: w ++ [125]) = true).
  { intros w. unfold is_param, startswith, endswith. rewrite !bool_decide_true; [done| |].
    - exists (123 :: w). done.
    - by exists (w ++ [125]). }
  assert (Hinner : forall w, take (length (123 :: w ++ [125]) - 2) (drop 1 (123 :: w ++ [125])) = w).
  { intros w. cbn [length drop]. rewrite length_app. cbn [length]. replace (S (length w + 1) - 2)%nat with (length w) by lia.
    apply take_app_length. }
  destruct spec as [sp|]; cbn [seg_text].
  - change (123 :: name ++ 58 :: sp ++ [125]) with (123 :: name ++ (58 :: sp) ++ [125]). rewrite app_assoc.
    split; [apply Hparam|]. unfold param_of. rewrite Hinner, partition_found by done. destruct Hs as (Hsp & Hk & Hp).
    destruct Hsp as [Hsp _]. rewrite !bool_decide_false by (by destruct sp). done.
  - split; [apply Hparam|]. unfold param_of. rewrite Hinner, partition_absent by done. done.
Qed.

Lemma lit_param w : tseg_ok (TLit w) -> is_param w = false.
Proof.
  intros (_ & _ & Hw). unfold is_param, startswith. rewrite bool_decide_false; [done|]. intros [k ->]. apply Hw. set_solver.
Qed.

Lemma hole_specs_cons x l :
  hole_specs (x :: l) = match x with TLit _ => hole_specs l | THole name spec => (name, tconv spec, false) :: hole_specs l end.
Proof. by destruct x. Qed.

Lemma hole_values_cons values x l :
  hole_values values (x :: l) =
    match x with TLit _ => hole_values values l
    | THole name _ => match dget values name with Some v => v :: hole_values values l | None => hole_values values l end end.
Proof. unfold hole_values. destruct x as [w|name spec]; [done|]. cbn. by destruct (dget values name). Qed.

Lemma bind_template values l :
  Forall tseg_ok l -> Forall (filled values) l ->
  bind_pattern (seg_text <$> l) (seg_value values <$> l) = Some (zip (hole_specs l) (hole_values values l)) /\
  length (hole_specs l) = length (hole_values values l).
Proof.
  intros Hl. induction Hl as [|x l Hx _ IH]; intros Hf; [done|]. apply Forall_cons in Hf as [Hv Hf].
  destruct (IH Hf) as [Hb Hlen]. rewrite hole_specs_cons, hole_values_cons. rewrite !fmap_cons. cbn [bind_pattern].
  destruct x as [w|name spec].
  - cbn [seg_text seg_value]. rewrite (lit_param w Hx), bool_decide_true by done. by rewrite Hb.
  - destruct (hole_param name spec Hx) as [-> ->]. destruct Hv as (v & Hv & _). cbn [snd seg_value]. rewrite Hv, Hb.
    split; [done|]. cbn [length]. by rewrite Hlen.
Qed.

Lemma convert_template values l d :
  Forall (filled values) l -> exists p, convert_all (hole_specs l) (hole_values values l) d = Some p.
Proof.
  intros Hf. revert d. induction Hf as [|x l Hx _ IH]; intros d; [by exists d|].
  rewrite hole_specs_cons, hole_values_cons. destruct x as [w|name spec]; [apply IH|]. destruct Hx as (v & Hv & _ & _ & Hc).
  rewrite Hv. cbn [convert_all]. destruct (convert (tconv spec) v) as [y|]; [apply IH|done].
Qed.

(** The URL of a template is accepted by a route of that template. *)
Lemma accepts_url values l ms ss h s :
  Forall tseg_ok l -> Forall (filled values) l -> _route_scheme_matches s ss = true ->
  accepts (mkRoute (template l) ms ss h) (nonempty_segments (url values l)) s =
    convert_all (hole_specs l) (hole_values values l) [].
Proof.
  intros Hl Hf Hs. unfold accepts, pattern. cbn [r_path r_scheme]. rewrite text_segments, value_segments by done.
  destruct (bind_template values l Hl Hf) as [-> Hlen]. rewrite Hs, fst_zip, snd_zip by lia. done.
Qed.

Lemma forallb_dset (f : pystr -> bool) (d : dict pystr pystr) k v :
  f k = true -> forallb (fun x => f x.1) d = true -> forallb (fun x => f x.1) (dset d k v) = true.
Proof.
  intros Hk. rewrite !forallb_forall. intros Hd.
  assert (Hf : Forall (fun x : pystr * pystr => f x.1 = true) (dset d k v)).
  { apply Forall_dset; [|by intros ? ->]. apply Forall_forall. intros x Hx. apply Hd. by apply list_elem_of_In. }
  intros x Hx. rewrite Forall_forall in Hf. apply Hf. by apply list_elem_of_In.
Qed.

(** Every placeholder of a template is among its specifications, and only they. *)
Lemma specs_of_pieces (values : dict pystr pystr) ps d :
  (forall name spec, Hole name spec ∈ ps -> dmem values name = true) ->
  forallb (fun x => dmem values x.1) d = true ->
  forallb (fun x : pystr * pystr => dmem values x.1)
    (foldl (fun d x => match x with Hole name spec => dset d name (default (lit "str") spec) | Text _ => d end) d ps) = true.
Proof.
  revert d. induction ps as [|x ps IH]; intros d Hps Hd; [done|]. cbn [foldl]. apply IH; [intros ???; eapply Hps; by right|].
  destruct x as [c|name spec]; [done|]. assert (Hn : dmem values name = true) by (eapply Hps; by left).
  by apply forallb_dset.
Qed.

Lemma register_table p ms ss h name rs r0 r :
  table rs r0 -> register (PathStr p) ms ss h name r0 = (r, Ok tt) -> table (rs ++ [mkRoute p ms ss h]) r.
Proof.
  unfold register. intros Ht. destruct (validate_methods ms); [|done].
  destruct (__setitem__ _ ms ss h r0) as [r1 [[]|e]] eqn:E; [|done]. intros Hr.
  pose proof (setitem_added _ _ _ _ _ _ _ Ht E) as Ht1. pose proof (record_trie (PathStr p) h name ms r1) as Hk.
  rewrite Hr in Hk. unfold table in *. cbn [fst] in Hk. by rewrite Hk.
Qed.

Lemma register_named p ms ss h name r0 r :
  register (PathStr p) ms ss h (Some name) r0 = (r, Ok tt) -> dget (_named_routes r) name = Some (p, template_specs p).
Proof.
  unfold register. destruct (validate_methods ms); [|done].
  destruct (__setitem__ _ ms ss h r0) as [r1 [[]|e]]; [|done]. unfold _record_route.
  destruct (dmem (_named_routes r1) name); [done|]. intros [= <-]. cbn [_named_routes set_recorded].
  by rewrite dget_dset, decide_True.
Qed.

Lemma template_specs_filled values l :
  Forall tseg_ok l -> Forall (filled values) l ->
  forallb (fun x => dmem values x.1) (template_specs (template l)) = true.
Proof.
  intros Hl Hf. unfold template_specs. apply specs_of_pieces; [|done]. rewrite finditer_template by done.
  intros name spec Hin. apply list_elem_of_bind in Hin as (x & Hin & Hx). rewrite Forall_forall in Hf. specialize (Hf x Hx).
  destruct x as [w|name' spec']; cbn [seg_pieces] in Hin; apply elem_of_cons in Hin as [?|Hin]; try done.
  - by apply list_elem_of_fmap in Hin as (? & ? & _).
  - apply list_elem_of_singleton in Hin as [= -> ->]. destruct Hf as (v & Hv & _). unfold dmem. by rewrite Hv.
Qed.

(** C28: a URL built from a named route routes back to it.  For every table of
    registrations, once a template of literal segments and placeholders is
    registered under a name, values that fill its placeholders — non-empty,
    without a slash, convertible — give a URL, the registered route accepts that
    URL with every placeholder bound to its converted value, and a request for
    it with one of the route's methods is resolved, not answered 404 or 405. *)
Theorem url_roundtrip rs r0 r l ms ss h name values m s :
  table rs r0 -> register (PathStr (template l)) ms ss h (Some name) r0 = (r, Ok tt) ->
  Forall tseg_ok l -> Forall (filled values) l -> _route_scheme_matches s ss = true -> (m ∈ ms) ->
  exists u p found, url_path_for name values r = Ok u /\
  accepts (mkRoute (template l) ms ss h) (nonempty_segments u) s = Some p /\
  convert_all (hole_specs l) (hole_values values l) [] = Some p /\
  _resolve (u, m, s) r = Ok (Found found).
Proof.
  intros Ht Hr Hl Hf Hs Hm. pose proof (register_table _ _ _ _ _ _ _ _ Ht Hr) as Ht'. pose proof (register_named _ _ _ _ _ _ _ Hr) as Hn.
  destruct (convert_template values l [] Hf) as [p Hp]. pose proof (accepts_url values l ms ss h s Hl Hf Hs) as Ha.
  rewrite Hp in Ha. destruct (resolve_cases _ r (url values l) m s Ht') as (res & Hres & Hcase).
  assert (Hk : takes (rs ++ [mkRoute (template l) ms ss h]) r (url values l) s m).
  { left. apply Exists_app. right. apply Exists_cons_hd. by rewrite Ha. }
  exists (url values l), p. destruct res as [found|a|]; [exists found|destruct Hcase as [Hcase _]; done|by destruct (Hcase m)].
  split_and!; try done. unfold url_path_for. rewrite Hn, template_specs_filled, finditer_template by done.
  by apply substitute_template.
Qed.

End Router.

(** ** The error router *)

Section Errors.
Context {F C : Type} `{!EqDecision C}.
(** [exc_class.__mro__] *)
Context (mro : C -> list C).

Inductive error_key : Type := HTTPStatus (code : Z) | Exc (cls : C) | OtherKey.

Record ErrorRouter : Type := mkErrors {
  _status_handlers : dict Z F;
  _exc_handlers : dict C F;
  _default : option F
}.

Definition new_errors (default : option F) : ErrorRouter := mkErrors [] [] default.

Definition is_client_error (status : Z) : bool := (400 <=? status) && (status <=? 499).
Definition is_server_error (status : Z) : bool := (500 <=? status) && (status <=? 599).

Definition error_set (key : error_key) (fn : F) (r : ErrorRouter) : ErrorRouter * result unit :=
  match key with
  | HTTPStatus code =>
      if negb (is_client_error code) && negb (is_server_error code) then (r, Raise ValueError)
      else (mkErrors (dset (_status_handlers r) code fn) (_exc_handlers r) (_default r), Ok tt)
  | Exc cls => (mkErrors (_status_handlers r) (dset (_exc_handlers r) cls fn) (_default r), Ok tt)
  | OtherKey => (r, Raise TypeError)
  end.

Fixpoint mro_walk (l : list C) (handlers : dict C F) (default : option F) : option F :=
  match l with
  | [] => default
  | cls :: l => match dget handlers cls with Some fn => Some fn | None => mro_walk l handlers default end
  end.

Definition error_get (key : error_key) (r : ErrorRouter) : result (option F) :=
  match key with
  | HTTPStatus code => Ok (match dget (_status_handlers r) code with Some fn => Some fn | None => _default r end)
  | Exc cls => Ok (mro_walk (mro cls) (_exc_handlers r) (_default r))
  | OtherKey => Raise TypeError
  end.

Definition error_set_all (l : list (error_key * F)) (r : ErrorRouter) : ErrorRouter :=
  foldl (fun r x => (error_set x.1 x.2 r).1) r l.

(** The handler registered last for a class. *)
Definition last_for (cls : C) (l : list (error_key * F)) : option F :=
  last (omap (fun x => match x.1 with Exc c => if decide (c = cls) then Some x.2 else None | _ => None end) l).

Lemma error_set_all_snoc l x r : error_set_all (l ++ [x]) r = (error_set x.1 x.2 (error_set_all l r)).1.
Proof. unfold error_set_all. by rewrite foldl_app. Qed.

Lemma last_for_snoc cls l x :
  last_for cls (l ++ [x]) =
    match x.1 with Exc c => if decide (c = cls) then Some x.2 else last_for cls l | _ => last_for cls l end.
Proof.
  unfold last_for. rewrite omap_app. destruct x as [[code|c|] fn]; cbn; rewrite ?app_nil_r; try done.
  destruct (decide (c = cls)); cbn; [by rewrite last_snoc|by rewrite app_nil_r].
Qed.

Lemma error_handlers d l cls : dget (_exc_handlers (error_set_all l (new_errors d))) cls = last_for cls l.
Proof.
  induction l as [|x l IH] using rev_ind; [done|]. rewrite error_set_all_snoc, last_for_snoc, <- IH.
  destruct x as [[code|c|] fn]; cbn [error_set fst snd]; [by destruct (_ && _)| |done].
  cbn [_exc_handlers]. by rewrite dget_dset.
Qed.

(** An exception is handled by the handler registered last for the nearest class
    of its resolution order that has one, and by the default otherwise. *)
Lemma error_nearest d l cls :
  error_get (Exc cls) (error_set_all l (new_errors d)) =
    Ok (match head (omap (fun c => last_for c l) (mro cls)) with Some fn => Some fn | None => d end).
Proof.
  cbn [error_get]. f_equal. assert (Hd : _default (error_set_all l (new_errors d)) = d).
  { induction l as [|x l IH] using rev_ind; [done|]. rewrite error_set_all_snoc.
    destruct x as [[code|c|] fn]; cbn [error_set fst snd]; [destruct (_ && _)|..]; exact IH. }
  rewrite Hd. induction (mro cls) as [|c m IH]; [done|]. cbn [mro_walk omap list_omap]. rewrite error_handlers.
  destruct (last_for c l); [done|apply IH].
Qed.

End Errors.

(** ** A sample router *)

Module Sample.

(** Values are texts and integers; the only pattern matches paths that begin
    with [/re]. *)
Definition value : Type := pystr + Z.

(** [int] of ASCII text: a sign, then digits with single underscores between
    them. *)
Fixpoint int_text (w : pystr) (after_digit : bool) : option pystr :=
  match w with
  | [] => if after_digit then Some [] else None
  | c :: w =>
      if is_digit c then cons c <$> int_text w true
      else if (c =? 95) && after_digit then int_text w false else None
  end.

Definition py_int (w : pystr) : option Z :=
  match w with
  | 45 :: w => (fun d => - int_of_digits d) <$> int_text w false
  | 43 :: w => int_of_digits <$> int_text w false
  | _ => int_of_digits <$> int_text w false
  end.

Definition convert (c : converter) (w : pystr) : option value :=
  match c with str => Some (inl w) | int => inr <$> py_int w | UUID => None end.

Definition re_match (pat : Z) (path : pystr) : option (dict pystr value) :=
  if startswith path (lit "/re") then Some [] else None.

Definition re_source (pat : Z) : pystr := lit "/re".

Abbreviation router := (@router Z value Z).

Definition GET : pystr := lit "GET".
Definition POST : pystr := lit "POST".
Definition http : scheme_key := Schemes [lit "http"].

Definition add (path : pystr) (ms : list pystr) (h : Z) (r : router) : router :=
  (register re_source (PathStr path) ms http h None r).1.

Definition registered : list (@route Z) :=
  [mkRoute (lit "/item/{id:int}") [GET] http 1; mkRoute (lit "/item/{name}") [GET] http 2;
   mkRoute (lit "/item/new") [POST] http 3; mkRoute (lit "/{rest:path}") [GET] http 4].

Definition base1 : router := add (lit "/item/{id:int}") [GET] 1 (new_router 2).
Definition base2 : router := add (lit "/item/{name}") [GET] 2 base1.
Definition base3 : router := add (lit "/item/new") [POST] 3 base2.
Definition base : router := add (lit "/{rest:path}") [GET] 4 base3.

Definition with_re : router := (__setitem__ (PathRe 0) [POST] http 5 base).1.

Definition get (path m : pystr) (r : router) := _resolve convert re_match (path, m, lit "http") r.

Lemma base1_table : table [mkRoute (lit "/item/{id:int}") [GET] http 1] base1.
Proof. apply (register_table re_source _ _ _ _ None [] (new_router 2)); [constructor|vm_compute; reflexivity]. Qed.

Lemma base2_table : table [mkRoute (lit "/item/{id:int}") [GET] http 1; mkRoute (lit "/item/{name}") [GET] http 2] base2.
Proof. apply (register_table re_source _ _ _ _ None _ _ _ base1_table). vm_compute. reflexivity. Qed.

Lemma base_table : table registered base.
Proof.
  pose proof (register_table re_source (lit "/item/new") [POST] http 3 None _ _ base3 base2_table) as H3.
  specialize (H3 ltac:(vm_compute; reflexivity)).
  apply (register_table re_source (lit "/{rest:path}") [GET] http 4 None _ _ base H3). vm_compute. reflexivity.
Qed.

(** ** Sample lookups, and what they show *)

Definition find (path m : pystr) (t : @_RouteTrie Z) := lookup convert path m (lit "http") t.

(** The integer converter refuses a text, and the walk falls back on the route
    that was registered after it at the same place. *)
Lemma lookup_selects_witness :
  built registered (_trie base) /\
  find (lit "/item/ann") GET (_trie base) = Ok (Some (2, [(lit "name", inl (lit "ann"))]), ∅) /\
  exists i r, registered !! i = Some r /\ r_handler r = 2 /\
    forall j r', registered !! j = Some r' -> accepts convert r' [lit "item"; lit "ann"] (lit "http") <> None ->
      GET ∈ r_methods r' -> precedes i r j r'.
Proof.
  split; [exact base_table|]. split; [vm_compute; reflexivity|].
  destruct (lookup_selects convert registered (_trie base) (lit "/item/ann") GET (lit "http") base_table)
    as (o & allowed & E & Hc).
  assert (Ef : find (lit "/item/ann") GET (_trie base) = Ok (Some (2, [(lit "name", inl (lit "ann"))]), ∅))
    by (vm_compute; reflexivity).
  unfold find in Ef. rewrite Ef in E. injection E as <- <-. cbn zeta in Hc. destruct Hc as (i & r & Hi & Hh & _ & _ & Hmin).
  exists i, r. split; [exact Hi|]. split; [exact Hh|exact Hmin].
Defined.

Lemma lookup_fast_paths_witness :
  built registered (_trie base) /\
  find (lit "/item//7/") POST (_trie base) = Ok (_lookup convert (root (_trie base)) [lit "item"; lit "7"] [] POST (lit "http")).
Proof.
  split; [exact base_table|].
  exact (lookup_fast_paths convert registered (_trie base) (lit "/item//7/") POST (lit "http") base_table).
Defined.

Lemma resolve_outcome_witness :
  table registered base /\
  get (lit "/item/new") (lit "PUT") base = Ok (MethodNotApplicable {[GET; POST]}) /\
  (~ takes convert re_match registered base (lit "/item/new") (lit "http") (lit "PUT")).
Proof.
  split; [exact base_table|]. split; [vm_compute; reflexivity|].
  destruct (resolve_outcome convert re_match re_source registered base (lit "/item/new") (lit "PUT") (lit "http") base_table)
    as (res & E & Hc).
  assert (Eg : get (lit "/item/new") (lit "PUT") base = Ok (MethodNotApplicable {[GET; POST]})) by (vm_compute; reflexivity).
  unfold get in Eg. rewrite Eg in E. injection E as <-. exact (proj1 Hc).
Defined.

(** Two keys and a cache of one entry: the first is evicted and resolved anew. *)
Definition history : list (@op Z Z) :=
  [Register (PathStr (lit "/a")) [GET] http 1 None; SetCacheMax 1;
   Get (lit "/a", GET, lit "http"); Get (lit "/b", GET, lit "http");
   Register (PathStr (lit "/{x}")) [GET] http 2 None;
   Get (lit "/b", GET, lit "http"); Get (lit "/a", GET, lit "http"); Freeze;
   Register (PathStr (lit "/c")) [GET] http 3 None].

Definition run_history (f : @op Z Z -> router -> router * @reply Z value) : router * list (@reply Z value) :=
  apply_all f history (new_router 2).

Lemma cache_transparent_witness :
  let '(r, xs) := run_history (apply_op convert re_match re_source) in
  (run_history (apply_uncached convert re_match re_source)).2 = xs /\ zlen (_store (_cache r)) <= 2.
Proof.
  unfold run_history.
  destruct (apply_all (apply_op convert re_match re_source) history (new_router 2)) as [r xs] eqn:E.
  destruct (cache_transparent convert re_match re_source 2 history r xs E) as [Hx Hb]. split; [exact Hx|exact Hb].
Defined.

Definition item_template : list tseg := [TLit (lit "item"); THole (lit "id") (Some (lit "int"))].
Definition named : router := (register re_source (PathStr (template item_template)) [GET] http 9 (Some (lit "item")) base1).1.

Lemma url_roundtrip_witness :
  table [mkRoute (lit "/item/{id:int}") [GET] http 1] base1 /\
  exists u p found, url_path_for (lit "item") [(lit "id", lit "42")] named = Ok u /\
    accepts convert (mkRoute (template item_template) [GET] http 9) (nonempty_segments u) (lit "http") = Some p /\
    convert_all convert (hole_specs item_template) (hole_values [(lit "id", lit "42")] item_template) [] = Some p /\
    get u GET named = Ok (Found found).
Proof.
  split; [exact base1_table|].
  apply (url_roundtrip convert re_match re_source _ base1 named item_template [GET] http 9 (lit "item")
    [(lit "id", lit "42")] GET (lit "http") base1_table).
  - vm_compute. reflexivity.
  - unfold item_template. repeat constructor; vm_compute; (done || (intros Hin; repeat (inversion Hin as [|? ? ? Hin']; clear Hin; rename Hin' into Hin))).
  - repeat constructor. exists (lit "42"). split; [done|]. split; [done|]. split; [by vm_compute; set_solver|]. vm_compute. done.
  - vm_compute. reflexivity.
  - by left.
Defined.

(** The regular expressions of [_CONVERTERS] are not used: [int] takes what
    Python's [int] takes. *)
Lemma int_takes_more :
  get (lit "/item/4_2") GET base = Ok (Found (1, [(lit "id", inr 42)])) /\
  get (lit "/item/+1") GET base = Ok (Found (1, [(lit "id", inr 1)])).
Proof. split; vm_compute; reflexivity. Qed.

Definition register_one (path : pystr) (ms : list pystr) (name : pystr) : router * result unit :=
  register re_source (PathStr path) ms http 1 (Some name) (new_router 2).

(** Two placeholders in a segment are accepted and become one parameter. *)
Lemma two_placeholders_one_parameter :
  let '(r, res) := register_one (lit "/{a}-{b}") [GET] (lit "n") in
  res = Ok tt /\ get (lit "/x-y") GET r = Ok (Found (1, [(lit "a}-{b", inl (lit "x-y"))])).
Proof. vm_compute. done. Qed.

(** A placeholder that is only a part of its segment is accepted, [url_path_for]
    fills it, and the URL is not found. *)
Lemma partial_placeholder_unroutable :
  let '(r, res) := register_one (lit "/a-{x}") [GET] (lit "n") in
  res = Ok tt /\ url_path_for (lit "n") [(lit "x", lit "1")] r = Ok (lit "/a-1") /\
  get (lit "/a-1") GET r = Ok PathNotRegistered /\ get (lit "/a-{x}") GET r = Ok (Found (1, [])).
Proof. vm_compute. done. Qed.

(** A specification that the placeholder pattern does not match is not checked:
    it becomes [str], where the unknown [int8] is refused. *)
Lemma unknown_spec_is_str :
  (register_one (lit "/{id:int8}") [GET] (lit "n")).2 = Raise ValueError /\
  let '(r, res) := register_one (lit "/{id:int-8}") [GET] (lit "n") in
  res = Ok tt /\ get (lit "/abc") GET r = Ok (Found (1, [(lit "id", inl (lit "abc"))])).
Proof. vm_compute. done. Qed.

(** A method with a final newline passes for a token. *)
Lemma newline_method : (register_one (lit "/a") [lit "GET" ++ [10]] (lit "n")).2 = Ok tt.
Proof. vm_compute. reflexivity. Qed.

(** A name that is taken is refused after the route is in the table. *)
Lemma refused_route_serves :
  let '(r, _) := register_one (lit "/a") [GET] (lit "n") in
  let '(r, res) := register re_source (PathStr (lit "/b")) [GET] http 2 (Some (lit "n")) r in
  res = Raise ValueError /\ get (lit "/b") GET r = Ok (Found (2, [])).
Proof. vm_compute. done. Qed.

(** A hit in a cache that is not full yet does not count as a use: the entry
    used last is the one evicted. *)
Lemma eviction_is_not_lru :
  let c0 : _LookupCache := mkCache 2 [] in
  let k (p : pystr) : cache_key := (p, GET, lit "http") in
  let c1 := cache_set (k (lit "/a")) (1, []) c0 in
  let c2 := (cache_get (k (lit "/a")) c1).2 in
  let c3 := cache_set (k (lit "/b")) (2, []) c2 in
  let c4 := cache_set (k (lit "/c")) (3, []) c3 in
  dkeys (_store (c4 : @_LookupCache Z value)) = [k (lit "/b"); k (lit "/c")].
Proof. vm_compute. reflexivity. Qed.

End Sample.
End Routing.
