(* ===== verification/WsRecipient.v ===== *)
(** * The WebSocket read side (blackbull/server/recipient.py)

    Close codes and close payloads, the fragment assembler, the inflater of
    blackbull/server/permessage_deflate.py around zlib, and
    [WebSocketRecipient]: one frame per step, the error handling around it and
    the two channels through which the application receives.  The clock and the
    outcome of the n-th write are functions of n; [os.urandom] likewise.  zlib is
    a parameter. *)

From Stdlib Require Import ZArith Lia.
From stdpp Require Import base tactics numbers option strings sets list.
From S2P Require Import Prelude PyText RateWindow Reader WsCodec.

Module WsRecipient.

Import WsCodec.

#[local] Set Warnings "-clear-no-such-hyp".

(** ** Close codes *)

Definition NORMAL : Z := 1000.
Definition GOING_AWAY : Z := 1001.
Definition PROTOCOL_ERROR : Z := 1002.
Definition ABNORMAL : Z := 1006.
Definition INVALID_UTF8 : Z := 1007.
Definition POLICY_VIOLATION : Z := 1008.
Definition MESSAGE_TOO_BIG : Z := 1009.

Definition _is_valid_close_code (code : Z) : bool :=
  if bool_decide (code ∈ [1004; 1005; 1006; 1015]) then false
  else if (1000 <=? code) && (code <=? 1015) then true
  else if (3000 <=? code) && (code <=? 4999) then true
  else false.

Definition _parse_close_payload (payload : bytes) : Z * bool :=
  match payload with
  | [] => (1000, true)
  | [_] => (1002, false)
  | _ =>
      let code := from_bytes (slice payload 0 2) in
      if negb (_is_valid_close_code code) then (1002, false)
      else if zlen payload >? 2 then
        match utf8_decode (slice_from payload 2) with Raise _ => (1002, false) | Ok _ => (code, true) end
      else (code, true)
  end.

(** ** The fragment assembler *)

Record FragmentAssembler : Type := mkAssembler {
  _max_total : Z;
  _opcode : option Z;
  _buf : bytes;
  _compressed : bool
}.

Definition new_assembler (max_total : Z) : FragmentAssembler := mkAssembler max_total None [] false.
Definition in_progress (a : FragmentAssembler) : bool := match _opcode a with Some _ => true | None => false end.

Definition feed (opcode : Z) (payload : bytes) (fin rsv1 : bool)
    : smonad FragmentAssembler (option (Z * bytes * bool)) := fun a =>
  if opcode =? CONTINUATION then
    match _opcode a with
    | None => (Raise (ProtocolError 1002), a)
    | Some op =>
        if rsv1 then (Raise (ProtocolError 1002), a)
        else
          let total := zlen (_buf a) + zlen payload in
          if negb (_max_total a =? 0) && (total >? _max_total a) then (Raise (MessageTooLarge total (_max_total a)), a)
          else if fin then (Ok (Some (op, _buf a ++ payload, _compressed a)), new_assembler (_max_total a))
          else (Ok None, mkAssembler (_max_total a) (Some op) (_buf a ++ payload) (_compressed a))
    end
  else if in_progress a then (Raise (ProtocolError 1002), a)
  else if fin then (Ok (Some (opcode, payload, rsv1)), a)
  else if negb (_max_total a =? 0) && (zlen payload >? _max_total a) then
    (Raise (MessageTooLarge (zlen payload) (_max_total a)), a)
  else (Ok None, mkAssembler (_max_total a) (Some opcode) payload rsv1).

(** ** The recipient *)

(** What the read side hands to the application. *)
Inductive message : Type := Text (s : pystr) | Binary (b : bytes).
Inductive item : Type := Msg (m : message) | Exc (e : exn) | WS_CLOSED.

(** The ASGI events. *)
Inductive event : Type := Connect | Receive (m : message) | Disconnect (code : Z).

Record settings : Type := mkSettings {
  _require_masked : bool;
  _max_frame_payload : Z;
  _max_message_size : Z;
  _ws_queue_depth : nat
}.

Definition _WS_CONTROL_OPS : list Z := [CLOSE; PING; PONG].
Definition control (op : Z) : bool := bool_decide (op ∈ _WS_CONTROL_OPS).

Section Recipient.
Context {R : Type} `{!ByteReader R, !PeekReader R}.
(** [zlib.decompressobj(wbits)] and its [decompress(data, max_length)]: the
    output, [unconsumed_tail] and the object after it. *)
Context {D : Type} (decompressobj : Z -> D) (inflate : bytes -> option Z -> D -> result (bytes * bytes) * D).
(** The n-th reading of [time.monotonic()], whether the n-th write raises, and
    the n-th masking key. *)
Context (monotonic : nat -> Z) (write_fails : nat -> bool) (urandom : nat -> bytes).
Context (cfg : settings).

Definition _DEFLATE_TAIL : bytes := [0; 0; 255; 255].

Record InboundDecompressor : Type := mkInflater {
  _wbits : Z;
  _reset_per_message : bool;
  _inflater : D
}.

Definition new_decompressor (wbits : Z) (reset_per_message : bool) : InboundDecompressor :=
  mkInflater (- wbits) reset_per_message (decompressobj (- wbits)).

Definition set_inflater (d : D) (z : InboundDecompressor) : InboundDecompressor :=
  mkInflater (_wbits z) (_reset_per_message z) d.

Definition decompress (payload : bytes) (max_length : option Z) : smonad InboundDecompressor bytes := fun z =>
  let data := payload ++ _DEFLATE_TAIL in
  let bound := match max_length with Some m => Some (m + 1) | None => None end in
  match inflate data bound (_inflater z) with
  | (Raise e, d) => (Raise e, set_inflater d z)
  | (Ok (out, unconsumed_tail), d) =>
      let z := set_inflater d z in
      let fresh := set_inflater (decompressobj (_wbits z)) z in
      match max_length with
      | Some m =>
          if (zlen out >? m) || negb (bool_decide (unconsumed_tail = [])) then (Raise (MessageTooLarge (zlen out) m), fresh)
          else (Ok out, if _reset_per_message z then fresh else z)
      | None => (Ok out, if _reset_per_message z then fresh else z)
      end
  end.

Record t : Type := mk {
  _reader : R;
  _assembler : FragmentAssembler;
  _control_meter : RateWindow.t;
  _readings : nat;                     (* readings of the clock so far *)
  _decompressor : option InboundDecompressor;
  _writes : list (bytes * bool);       (* what was written, and whether the write returned *)
  _pending : list item;                (* the handoff slot, or the queue *)
  _terminal_code : option Z;
  _read_finished : bool;
  _terminal_delivered : bool;
  _connect_sent : bool
}.

Definition set_reader (x : R) (r : t) : t :=
  mk x (_assembler r) (_control_meter r) (_readings r) (_decompressor r) (_writes r) (_pending r) (_terminal_code r)
    (_read_finished r) (_terminal_delivered r) (_connect_sent r).
Definition set_assembler (x : FragmentAssembler) (r : t) : t :=
  mk (_reader r) x (_control_meter r) (_readings r) (_decompressor r) (_writes r) (_pending r) (_terminal_code r)
    (_read_finished r) (_terminal_delivered r) (_connect_sent r).
Definition set_meter (x : RateWindow.t) (n : nat) (r : t) : t :=
  mk (_reader r) (_assembler r) x n (_decompressor r) (_writes r) (_pending r) (_terminal_code r)
    (_read_finished r) (_terminal_delivered r) (_connect_sent r).
Definition set_decompressor (x : InboundDecompressor) (r : t) : t :=
  mk (_reader r) (_assembler r) (_control_meter r) (_readings r) (Some x) (_writes r) (_pending r) (_terminal_code r)
    (_read_finished r) (_terminal_delivered r) (_connect_sent r).
Definition set_writes (x : list (bytes * bool)) (r : t) : t :=
  mk (_reader r) (_assembler r) (_control_meter r) (_readings r) (_decompressor r) x (_pending r) (_terminal_code r)
    (_read_finished r) (_terminal_delivered r) (_connect_sent r).
Definition set_pending (x : list item) (r : t) : t :=
  mk (_reader r) (_assembler r) (_control_meter r) (_readings r) (_decompressor r) (_writes r) x (_terminal_code r)
    (_read_finished r) (_terminal_delivered r) (_connect_sent r).
Definition set_terminal (x : option Z) (r : t) : t :=
  mk (_reader r) (_assembler r) (_control_meter r) (_readings r) (_decompressor r) (_writes r) (_pending r) x
    (_read_finished r) (_terminal_delivered r) (_connect_sent r).
Definition set_finished (x : bool) (r : t) : t :=
  mk (_reader r) (_assembler r) (_control_meter r) (_readings r) (_decompressor r) (_writes r) (_pending r)
    (_terminal_code r) x (_terminal_delivered r) (_connect_sent r).
Definition set_delivered (r : t) : t :=
  mk (_reader r) (_assembler r) (_control_meter r) (_readings r) (_decompressor r) (_writes r) (_pending r)
    (_terminal_code r) (_read_finished r) true (_connect_sent r).
Definition set_connect_sent (r : t) : t :=
  mk (_reader r) (_assembler r) (_control_meter r) (_readings r) (_decompressor r) (_writes r) (_pending r)
    (_terminal_code r) (_read_finished r) (_terminal_delivered r) true.

Definition __init__ (reader : R) (meter : RateWindow.t) (decompressor : option InboundDecompressor) : t :=
  mk reader (new_assembler (_max_message_size cfg)) meter 0 decompressor [] [] None false false false.

(** A read of the transport. *)
Definition reading {A} (read : R -> result (A * R)) : smonad t A := fun r =>
  match read (_reader r) with Ok (a, reader) => (Ok a, set_reader reader r) | Raise e => (Raise e, r) end.

(** [await self._writer.write(data)] *)
Definition write (data : bytes) : smonad t unit := fun r =>
  let ok := negb (write_fails (length (_writes r))) in
  (if ok then Ok tt else Raise OSError, set_writes (_writes r ++ [(data, ok)]) r).

(** [encode_frame] with the masking key of this write. *)
Definition frame_of (payload : bytes) (opcode : Z) (mask : bool) : smonad t bytes := fun r =>
  (encode_frame (urandom (length (_writes r))) payload opcode mask false, r).

(** [try: await self._writer.write(...) except Exception: pass] *)
Definition best_effort (m : smonad t unit) : smonad t unit := scatch m (fun _ => Some (sret tt)).

Definition _emit (i : item) : smonad t unit :=
  supdate (fun r =>
    let r := match i with
             | Exc (ProtocolError code) => set_terminal (Some code) r
             | Exc _ => set_terminal (Some ABNORMAL) r
             | _ => r
             end in
    set_pending (_pending r ++ [i]) r).

Definition _close_channel (code : Z) : smonad t unit :=
  do! supdate (set_terminal (Some code)) in _emit WS_CLOSED.

(** [self._control_meter.hit()] *)
Definition meter_hit : smonad t bool := fun r =>
  let w := _control_meter r in
  let '(over, w') := RateWindow.hit (monotonic (_readings r)) None w in
  (Ok over, set_meter w' (if RateWindow.limit w =? 0 then _readings r else S (_readings r)) r).

Definition _refuse_oversized_message {A} : smonad t A := sraise (ProtocolError MESSAGE_TOO_BIG).

Definition assemble (opcode : Z) (payload : bytes) (fin rsv1 : bool) : smonad t (option (Z * bytes * bool)) := fun r =>
  let '(x, a) := feed opcode payload fin rsv1 (_assembler r) in (x, set_assembler a r).

(** The inflater, with an inflate bomb told apart from corrupt data. *)
Definition inflated (payload : bytes) : smonad t bytes := fun r =>
  match _decompressor r with
  | None => (Raise PlainException, r)       (* the assertion *)
  | Some z =>
      let m := _max_message_size cfg in
      let '(x, z) := decompress payload (if m =? 0 then None else Some m) z in
      let r := set_decompressor z r in
      match x with
      | Ok out => (Ok out, r)
      | Raise (MessageTooLarge _ _) => _refuse_oversized_message r
      | Raise _ => (Raise (ProtocolError 1002), r)
      end
  end.

Definition sized (payload : bytes) : smonad t bytes :=
  if negb (_max_message_size cfg =? 0) && (zlen payload >? _max_message_size cfg) then _refuse_oversized_message
  else sret payload.

Definition decoded (opcode : Z) (payload : bytes) : smonad t message :=
  if opcode =? TEXT then
    match utf8_decode payload with Ok text => sret (Text text) | Raise _ => sraise (ProtocolError INVALID_UTF8) end
  else sret (Binary payload).

Definition _handle_data_frame (opcode : Z) (payload : bytes) (fin rsv1 : bool) : smonad t unit :=
  let! result := scatch (assemble opcode payload fin rsv1)
    (fun e => match e with MessageTooLarge _ _ => Some _refuse_oversized_message | _ => None end) in
  match result with
  | None => sret tt
  | Some (msg_opcode, full_payload, compressed) =>
      let! full_payload := if compressed : bool then inflated full_payload else sized full_payload in
      let! m := decoded msg_opcode full_payload in
      _emit (Msg m)
  end.

(** The CLOSE frame with a code: [code.to_bytes(2, 'big')] as its payload. *)
Definition close_frame (code : Z) (mask : bool) : smonad t bytes :=
  let! payload := slift (to_bytes 2 code) in frame_of payload CLOSE mask.

Definition _handle_control_frame (opcode : Z) (payload : bytes) : smonad t bool :=
  if opcode =? CLOSE then
    let '(code, reason_ok) := _parse_close_payload payload in
    let code := if reason_ok : bool then code else PROTOCOL_ERROR in
    let! close := close_frame code (negb (_require_masked cfg)) in
    do! best_effort (write close) in
    do! _close_channel code in
    sret true
  else if opcode =? PING then
    let! pong := frame_of payload PONG (negb (_require_masked cfg)) in
    do! write pong in
    sret false
  else sret false.

Definition _handle_unknown_opcode : smonad t unit :=
  let! close := close_frame PROTOCOL_ERROR false in
  do! best_effort (write close) in
  _close_channel PROTOCOL_ERROR.

(** The checks of a header before its payload is read. *)
Definition check_control (h : WSFrameHeader) : smonad t unit :=
  if control (opcode h) then
    if negb (fin h) then sraise (ProtocolError 1002)
    else if length_ h >? 125 then sraise (ProtocolError 1002)
    else
      let! over := meter_hit in
      if over : bool then sraise (ProtocolError POLICY_VIOLATION) else sret tt
  else sret tt.

Definition check_reserved (h : WSFrameHeader) : smonad t unit := fun r =>
  if rsv2 h || rsv3 h then (Raise (ProtocolError 1002), r)
  else if rsv1 h && (match _decompressor r with None => true | Some _ => false end || control (opcode h))
       then (Raise (ProtocolError 1002), r)
  else (Ok tt, r).

Definition payload_step (h : WSFrameHeader) : smonad t bool :=
  let! payload := scatch (reading (fun x => read_payload x (masked h) (length_ h) (Some (_max_frame_payload cfg))))
    (fun e => match e with FramePayloadTooLarge _ _ => Some (sraise (ProtocolError MESSAGE_TOO_BIG)) | _ => None end) in
  if _require_masked cfg && negb (masked h) then sraise (ProtocolError 1002)
  else if bool_decide (opcode h ∈ [TEXT; BINARY; CONTINUATION]) then
    do! _handle_data_frame (opcode h) payload (fin h) (rsv1 h) in sret false
  else if control (opcode h) then _handle_control_frame (opcode h) payload
  else do! _handle_unknown_opcode in sret true.

Definition header_step : smonad t WSFrameHeader :=
  let! h := reading read_frame_header in
  do! check_control h in
  do! check_reserved h in
  sret h.

Definition _read_step : smonad t bool := let! h := header_step in payload_step h.

(** [except ...] of [_drive_once]. *)
Definition on_failure (e : exn) : smonad t bool :=
  match e with
  | IncompleteReadError => do! _close_channel ABNORMAL in sret true
  | ProtocolError code =>
      let! close := close_frame code (negb (_require_masked cfg)) in
      do! best_effort (write close) in
      do! _emit (Exc (ProtocolError code)) in
      sret true
  | e =>
      let! close := close_frame 1011 (negb (_require_masked cfg)) in
      do! best_effort (write close) in
      do! _emit (Exc e) in
      sret true
  end.

Definition _drive_once : smonad t bool := scatch _read_step (fun e => Some (on_failure e)).

(** [self._read_finished = await self._drive_once()] *)
Definition drive : smonad t unit := let! b := _drive_once in supdate (set_finished b).

(** The eager driver. *)
Fixpoint _read_loop (fuel : nat) : smonad t unit := fun r =>
  if _read_finished r then (Ok tt, r)
  else match fuel with O => (Raise OutOfFuel, r) | S fuel => (do! drive in _read_loop fuel) r end.

(** The inline driver of [_next_item]. *)
Fixpoint inline_loop (fuel : nat) : smonad t unit := fun r =>
  if negb (bool_decide (_pending r = [])) || _read_finished r then (Ok tt, r)
  else match fuel with O => (Raise OutOfFuel, r) | S fuel => (do! drive in inline_loop fuel) r end.

Definition _next_item (fuel : nat) : smonad t item := fun r =>
  if _terminal_delivered r then (Ok WS_CLOSED, r)
  else
    (do! inline_loop fuel in fun r =>
      match _pending r with
      | [] => (Ok WS_CLOSED, set_delivered r)
      | i :: l => (Ok i, set_pending l r)
      end) r.

(** An item as an ASGI event. *)
Definition encode_item (i : item) : smonad t event := fun r =>
  match i with
  | WS_CLOSED => (Ok (Disconnect (default ABNORMAL (_terminal_code r))), set_delivered r)
  | Exc e => (Raise e, set_delivered r)
  | Msg m => (Ok (Receive m), r)
  end.

(** The ASGI receive channel, inline. *)
Definition __call__ (fuel : nat) : smonad t event := fun r =>
  if negb (_connect_sent r) then (Ok Connect, set_connect_sent r)
  else
    (let! i := _next_item fuel in encode_item i) r.

(** The native receive channel; the outer sum is the exception
    [WebSocketDisconnect] with its code. *)
Definition next_message (fuel : nat) : smonad t (message + Z) := fun r =>
  let r := set_connect_sent r in
  (let! i := _next_item fuel in fun r =>
    match i with
    | WS_CLOSED => (Ok (inr (default ABNORMAL (_terminal_code r))), set_delivered r)
    | Exc e => (Raise e, set_delivered r)
    | Msg m => (Ok (inl m), r)
    end) r.

(** ** The two read modes *)

(** The recipient with its read-ahead task: [_event_queue] is the bound of the
    queue once there is one — its items, and one that waits to be put, are
    [_pending]. *)
Record conn : Type := mkConn {
  rec : t;
  _event_queue : option nat;
  _deferred_pending : bool
}.

Definition _WS_EVENT_QUEUE_DEPTH : nat := 256.

Definition _start_reader (depth : nat) (c : conn) : conn := mkConn (rec c) (Some depth) false.

(** [listening]: whether a listener needs the messages to be read ahead. *)
Definition _ensure_reader_started (listening : bool) (c : conn) : conn :=
  if match _event_queue c with Some _ => true | None => false end || _read_finished (rec c) then c
  else if (0 <? _ws_queue_depth cfg)%nat then _start_reader (_ws_queue_depth cfg) c
  else if listening then mkConn (rec c) (_event_queue c) true else c.

Definition start_deferred_reader (c : conn) : conn :=
  if negb (_deferred_pending c) || match _event_queue c with Some _ => true | None => false end || _read_finished (rec c) then c
  else _start_reader (if (_ws_queue_depth cfg =? 0)%nat then _WS_EVENT_QUEUE_DEPTH else _ws_queue_depth cfg) c.

Definition _frame_bytes_needed (x : R) : option Z :=
  let buffered := buffered x in
  match buffered with
  | _ :: b1 :: _ =>
      let len_code := Z.land b1 0x7F in
      let ext := if len_code =? 126 then 2 else if len_code =? 127 then 8 else 0 in
      if zlen buffered <? 2 + ext + 4 then None
      else
        let payload_len := if truthy ext then from_bytes (slice buffered 2 (2 + ext)) else len_code in
        let total := 2 + ext + 4 + payload_len in
        if zlen buffered >=? total then Some total else None
  | _ => None
  end.

(** A control frame leads the buffer. *)
Definition has_control_frames_buffered (x : R) : bool :=
  match buffered x with b0 :: _ :: _ => control (Z.land b0 0x0F) | _ => false end.

Fixpoint service_loop (fuel : nat) : smonad t unit := fun r =>
  if _read_finished r || match _frame_bytes_needed (_reader r) with None => true | Some _ => false end
     || negb (has_control_frames_buffered (_reader r)) then (Ok tt, r)
  else match fuel with O => (Raise OutOfFuel, r) | S fuel => (do! drive in service_loop fuel) r end.

Definition service_available_control_frames (fuel : nat) (c : conn) : conn :=
  if _read_finished (rec c) || match _event_queue c with Some _ => true | None => false end then c
  else mkConn (service_loop fuel (rec c)).2 (_event_queue c) (_deferred_pending c).

(** The watchdog finds the connection quiet; the liveness probe apart. *)
Definition _on_idle_tick (fuel : nat) (c : conn) : conn :=
  if _read_finished (rec c) || match _event_queue c with Some _ => true | None => false end then c
  else if _deferred_pending c then start_deferred_reader c
  else if has_control_frames_buffered (_reader (rec c)) then service_available_control_frames fuel c
  else c.

(** [await self._event_queue.get()]: the reader task goes on until there is an
    item; a wait without end is [OutOfFuel]. *)
Definition queue_get (fuel : nat) : smonad t item :=
  do! inline_loop fuel in fun r =>
    match _pending r with [] => (Raise OutOfFuel, r) | i :: l => (Ok i, set_pending l r) end.

(** [receive()] on the ASGI channel, in whichever mode the connection is. *)
Definition receive (fuel : nat) (listening : bool) (c : conn) : conn * result event :=
  if negb (_connect_sent (rec c)) then
    let c := mkConn (set_connect_sent (rec c)) (_event_queue c) (_deferred_pending c) in
    (_ensure_reader_started listening c, Ok Connect)
  else
    let c := _ensure_reader_started listening c in
    let get := match _event_queue c with
               | Some _ => if _terminal_delivered (rec c) then sret WS_CLOSED else queue_get fuel
               | None => _next_item fuel
               end in
    let '(x, r) := (let! i := get in encode_item i) (rec c) in
    (mkConn r (_event_queue c) (_deferred_pending c), x).

(** What happens on a connection: the application receives, the reader task
    takes a step, the watchdog ticks, octets arrive. *)
Inductive action : Type := Recv (listening : bool) | ReadAhead | Tick | Arrive (n : nat).

Definition act (fuel : nat) (a : action) (c : conn) : conn * list (result event) :=
  match a with
  | Recv listening => let '(c, x) := receive fuel listening c in (c, [x])
  | ReadAhead =>
      (match _event_queue c with
       | Some depth =>
           if _read_finished (rec c) || (depth <? length (_pending (rec c)))%nat then c
           else mkConn (drive (rec c)).2 (_event_queue c) (_deferred_pending c)
       | None => c
       end, [])
  | Tick => (_on_idle_tick fuel c, [])
  | Arrive n => (mkConn (set_reader (arrive n (_reader (rec c))) (rec c)) (_event_queue c) (_deferred_pending c), [])
  end.

Fixpoint acts (fuel : nat) (l : list action) (c : conn) : conn * list (result event) :=
  match l with
  | [] => (c, [])
  | a :: l => let '(c, xs) := act fuel a c in let '(c, ys) := acts fuel l c in (c, xs ++ ys)
  end.

(** The probe went unanswered; the CLOSE is best-effort. *)
Definition _end_for_unresponsive_peer : smonad t unit := fun r =>
  if _read_finished r then (Ok tt, r)
  else
    (let! close := close_frame GOING_AWAY (negb (_require_masked cfg)) in
     do! best_effort (write close) in
     _close_channel GOING_AWAY) r.

Definition _probe_peer : smonad t unit :=
  let! ping := frame_of [] PING (negb (_require_masked cfg)) in best_effort (write ping).

(** ** Reading any octets *)

Lemma readexactly_cases (x : R) l n :
  delivers x l -> 0 <= n -> bytes_ok l ->
  (n <= zlen l /\ exists x', readexactly n x = Ok (take (Z.to_nat n) l, x') /\ delivers x' (drop (Z.to_nat n) l) /\
     bytes_ok (take (Z.to_nat n) l) /\ bytes_ok (drop (Z.to_nat n) l)) \/
  (zlen l < n /\ readexactly n x = Raise IncompleteReadError).
Proof.
  intros Hd Hn Hl. destruct (Z.le_gt_cases n (zlen l)) as [Hle|Hgt].
  - left. split; [done|]. destruct (readexactly_enough n x l Hd (conj Hn Hle)) as (x' & -> & Hx').
    exists x'. split_and!; [done|done|by apply bytes_ok_take|by apply bytes_ok_drop].
  - right. split; [lia|]. apply readexactly_short with (l := l); [done|lia].
Qed.

Lemma read_header_cases (x : R) l :
  delivers x l -> bytes_ok l ->
  match l with
  | b0 :: b1 :: l' => exists x', read_frame_header x = Ok (header_of b0 b1, x') /\ delivers x' l'
  | _ => read_frame_header x = Raise IncompleteReadError
  end.
Proof.
  intros Hd Hl. unfold read_frame_header. destruct (readexactly_cases x l 2 Hd ltac:(lia) Hl) as [[Hn (x' & -> & Hx' & _)]|[Hn ->]].
  - destruct l as [|b0 [|b1 l]]; try (rewrite ?zlen_cons in Hn; change (zlen (@nil Z)) with 0 in Hn; lia).
    exists x'. split; [done|]. exact Hx'.
  - destruct l as [|b0 [|b1 l]]; try done. rewrite !zlen_cons in Hn. pose proof (zlen_nonneg l). lia.
Qed.

(** The payload of a frame is a part of what is left, not larger than the cap. *)
Definition payload_read (l : bytes) (maximum : Z) (res : result (bytes * R)) : Prop :=
  match res with
  | Ok (p, x) => exists l', delivers x l' /\ bytes_ok l' /\ (length l' <= length l)%nat /\ zlen p <= maximum /\ bytes_ok p
  | Raise e => e = IncompleteReadError \/ exists n, e = FramePayloadTooLarge n maximum
  end.

Lemma payload_read_mono l l' maximum res : (length l' <= length l)%nat -> payload_read l' maximum res -> payload_read l maximum res.
Proof. destruct res as [[p x]|e]; [|done]. intros Hl (l2 & ? & ? & ? & ? & ?). exists l2. split_and!; (done || lia). Qed.

Lemma payload_body (x : R) l mk n maximum :
  delivers x l -> bytes_ok l -> 0 <= n <= maximum ->
  payload_read l maximum
    (if negb mk then readexactly n x
     else let* '(mask, x) := readexactly 4 x in let* '(raw, x) := readexactly n x in
          if n =? 0 then Ok (raw, x) else let* out := unmask mask raw n in Ok (out, x)).
Proof.
  intros Hd Hl Hn. destruct mk; cbn [negb].
  - destruct (readexactly_cases x l 4 Hd ltac:(lia) Hl) as [[H4 (x1 & -> & H1 & Hm & Hl1)]|[_ ->]]; [|by left].
    cbn [rbind]. change (Z.to_nat 4) with 4%nat in *.
    destruct (readexactly_cases x1 _ n H1 ltac:(lia) Hl1) as [[Hle (x2 & -> & H2 & Hr & Hl2)]|[_ ->]]; [|by left].
    cbn [rbind]. assert (Hz : zlen (take (Z.to_nat n) (drop 4 l)) = n) by (unfold zlen in *; rewrite length_take; lia).
    assert (Hlen : length (take 4 l) = 4%nat) by (rewrite length_take; unfold zlen in H4; lia).
    destruct (n =? 0).
    + eexists. split_and!; [exact H2|done|rewrite !length_drop; lia|lia|done].
    + pose proof (unmask_bigint _ _ Hm Hlen Hr) as Hu. rewrite Hz in Hu. rewrite Hu. cbn [rbind].
      eexists. split_and!; [exact H2|done|rewrite !length_drop; lia| |by apply mask_bytes_ok].
      unfold zlen in *. rewrite length_mask_bytes. lia.
  - destruct (readexactly_cases x l n Hd ltac:(lia) Hl) as [[Hle (x2 & -> & H2 & Hr & Hl2)]|[_ ->]]; [|by left].
    eexists. split_and!; [exact H2|done|rewrite length_drop; lia| |done]. unfold zlen. rewrite length_take. lia.
Qed.

Lemma read_payload_cases (x : R) l mk len7 maximum :
  delivers x l -> bytes_ok l -> 0 <= len7 < 128 -> payload_read l maximum (read_payload x mk len7 (Some maximum)).
Proof.
  intros Hd Hl H7. unfold read_payload.
  assert (Hext : forall k, 0 <= k ->
    payload_read l maximum (let* '(n, x) := (let* '(b, x) := readexactly k x in Ok (from_bytes b, x)) in
      let* 'tt := if n >? maximum then Raise (FramePayloadTooLarge n maximum) else Ok tt in
      if negb mk then readexactly n x
      else let* '(mask, x) := readexactly 4 x in let* '(raw, x) := readexactly n x in
           if n =? 0 then Ok (raw, x) else let* out := unmask mask raw n in Ok (out, x))).
  { intros k Hk. destruct (readexactly_cases x l k Hd Hk Hl) as [[_ (x1 & -> & H1 & Hb & Hl1)]|[_ ->]]; [|by left].
    cbn [rbind]. destruct (Z.gtb_spec (from_bytes (take (Z.to_nat k) l)) maximum); cbn [rbind]; [right; by eexists|].
    apply payload_read_mono with (drop (Z.to_nat k) l).
    { rewrite length_drop. lia. }
    apply payload_body; [done|done|]. pose proof (from_bytes_nonneg _ Hb). lia. }
  destruct (len7 =? 126); [by apply (Hext 2)|]. destruct (len7 =? 127); [by apply (Hext 8)|]. cbn [rbind].
  destruct (Z.gtb_spec len7 maximum); cbn [rbind]; [right; by eexists|]. apply payload_body; [done|done|lia].
Qed.

Lemma read_payload_short (x : R) l mk len7 maximum :
  delivers x l -> bytes_ok l ->
  match read_payload x mk len7 (Some maximum) with Ok (p, _) => 0 <= len7 <= 125 -> zlen p <= 125 | Raise _ => True end.
Proof.
  intros Hd Hl. destruct (read_payload _ _ _ _) as [[p x']|e] eqn:E; [|done]. intros H7. unfold read_payload in E.
  rewrite (proj2 (Z.eqb_neq len7 126)), (proj2 (Z.eqb_neq len7 127)) in E by lia. cbn [rbind] in E.
  destruct (len7 >? maximum); [done|]. cbn [rbind] in E.
  pose proof (payload_body x l mk len7 (Z.max len7 0) Hd Hl ltac:(lia)) as Hb. rewrite E in Hb.
  destruct Hb as (_ & _ & _ & _ & Hb & _). lia.
Qed.

(** ** What any peer can make of a connection *)

(** A payload within the message bound, and a message that came out of one. *)
Definition within (p : bytes) : Prop := _max_message_size cfg = 0 \/ zlen p <= _max_message_size cfg.
Definition fits (m : message) : Prop :=
  match m with Text s => exists p, utf8_decode p = Ok s /\ within p | Binary p => within p end.

(** A PONG, and a CLOSE with a code that may appear on the wire. *)
Definition pong (w : bytes * bool) : Prop :=
  exists key p, zlen p <= 125 /\ encode_frame key p PONG (negb (_require_masked cfg)) false = Ok w.1.
Definition closing (w : bytes * bool) : Prop :=
  exists key code p mask, _is_valid_close_code code = true /\ to_bytes 2 code = Ok p /\
    encode_frame key p CLOSE mask false = Ok w.1 /\ (mask = true -> _require_masked cfg = false).

(** The exceptions that a step can end in. *)
Definition expected (e : exn) : Prop :=
  e = IncompleteReadError \/ (exists code, e = ProtocolError code /\ _is_valid_close_code code = true) \/ e = OSError.

(** The read side goes on; [l] is what is left of the stream. *)
Record open_ (l : bytes) (r : t) : Prop := mkOpen {
  o_delivers : delivers (_reader r) l;
  o_bytes : bytes_ok l;
  o_finished : _read_finished r = false;
  o_bound : _max_total (_assembler r) = _max_message_size cfg;
  o_compressed : _compressed (_assembler r) = true -> _decompressor r <> None;
  o_pending : exists ms, _pending r = Msg <$> ms /\ Forall fits ms;
  o_writes : Forall pong (_writes r)
}.

(** The read side has ended: messages, then one terminal item; PONGs, then at
    most one CLOSE. *)
Record ended (r : t) : Prop := mkEnded {
  e_pending : exists ms i, _pending r = (Msg <$> ms) ++ [i] /\ Forall fits ms /\
    match i with
    | WS_CLOSED => exists code, _terminal_code r = Some code
    | Exc (ProtocolError code) => _terminal_code r = Some code
    | Exc e => e = OSError /\ _terminal_code r = Some ABNORMAL
    | Msg _ => False
    end;
  e_writes : exists ws cs, _writes r = ws ++ cs /\ Forall pong ws /\ (cs = [] \/ exists c, cs = [c] /\ closing c)
}.

Definition fails (l : bytes) (e : exn) (r : t) : Prop := expected e /\ exists l', open_ l' r /\ (length l' <= length l)%nat.

Lemma expected_protocol code : _is_valid_close_code code = true -> expected (ProtocolError code).
Proof. right. left. by exists code. Qed.

Lemma open_set_reader l l' x r : open_ l r -> delivers x l' -> bytes_ok l' -> open_ l' (set_reader x r).
Proof. intros []. by split. Qed.

Lemma open_write l r w : open_ l r -> pong w -> open_ l (set_writes (_writes r ++ [w]) r).
Proof. intros [] Hw. split; try done. cbn. by apply Forall_app_2, Forall_singleton. Qed.

Lemma encode_frame_Ok key p op mask : 0 <= op < 16 -> zlen p < 2 ^ 64 -> exists f, encode_frame key p op mask false = Ok f.
Proof. intros Hop Hp. eexists. by apply encode_frame_layout. Qed.

Lemma valid_code_range code : _is_valid_close_code code = true -> 1000 <= code < 5000.
Proof.
  unfold _is_valid_close_code. case_bool_decide; [done|].
  destruct (Z.leb_spec 1000 code), (Z.leb_spec code 1015), (Z.leb_spec 3000 code), (Z.leb_spec code 4999); cbn; try done; lia.
Qed.

(** A CLOSE frame can always be built. *)
Lemma close_frame_ok code mask (r : t) :
  _is_valid_close_code code = true -> exists f p, close_frame code mask r = (Ok f, r) /\ to_bytes 2 code = Ok p /\
    encode_frame (urandom (length (_writes r))) p CLOSE mask false = Ok f.
Proof.
  intros Hc. pose proof (valid_code_range code Hc).
  unfold close_frame, sbind, slift. rewrite to_bytes_Ok by (cbn; lia).
  destruct (encode_frame_Ok (urandom (length (_writes r))) (be_bytes 2 code) CLOSE mask) as [f Hf];
    [unfold CLOSE; lia|rewrite zlen_be_bytes; lia|].
  exists f, (be_bytes 2 code). unfold frame_of. by rewrite Hf.
Qed.

Lemma close_payload_code p : _is_valid_close_code (let '(code, ok) := _parse_close_payload p in if ok : bool then code else PROTOCOL_ERROR) = true.
Proof.
  unfold _parse_close_payload. destruct p as [|a [|b p]]; [done..|].
  destruct (_is_valid_close_code (from_bytes (slice (a :: b :: p) 0 2))) eqn:E; cbn [negb]; [|done].
  destruct (_ >? 2); [|done]. by destruct (utf8_decode _).
Qed.

(** ** One step *)

Lemma check_control_spec h l r :
  open_ l r -> ends (fun _ r' => open_ l r' /\ _decompressor r' = _decompressor r /\ (control (opcode h) = true -> length_ h <= 125))
    (fun e r' => expected e /\ open_ l r') (check_control h r).
Proof.
  intros Ho. assert (Hp : expected (ProtocolError 1002)) by by apply expected_protocol. unfold check_control.
  destruct (control (opcode h)); [|by cbn].
  destruct (negb (fin h)); [by cbn|]. destruct (Z.gtb_spec (length_ h) 125); [by cbn|].
  unfold sbind, meter_hit. destruct (RateWindow.hit _ _ _) as [over w].
  assert (Ho' : forall n, open_ l (set_meter w n r)) by (intros n; destruct Ho; by split).
  destruct over; cbn; [by split; [apply expected_protocol|]|by split_and!].
Qed.

Lemma check_reserved_spec h l r :
  open_ l r -> ends (fun _ r' => r' = r /\ (rsv1 h = true -> _decompressor r <> None)) (fun e r' => expected e /\ r' = r)
    (check_reserved h r).
Proof.
  intros Ho. assert (Hp : expected (ProtocolError 1002)) by by apply expected_protocol. unfold check_reserved.
  destruct (rsv2 h || rsv3 h); [by cbn|]. destruct (rsv1 h); [|by cbn].
  destruct (_decompressor r); cbn; [|by split]. by destruct (control _); cbn.
Qed.

Lemma header_step_spec l r :
  open_ l r ->
  ends (fun h r' => exists l', open_ l' r' /\ (length l' < length l)%nat /\ 0 <= length_ h < 128 /\
          (control (opcode h) = true -> length_ h <= 125) /\ (rsv1 h = true -> _decompressor r' <> None))
    (fails l) (header_step r).
Proof.
  intros Ho. unfold header_step. apply ends_bind. unfold reading.
  pose proof (read_header_cases (_reader r) l (o_delivers _ _ Ho) (o_bytes _ _ Ho)) as Hh.
  destruct l as [|b0 [|b1 l]]; [rewrite Hh; cbn; split; [by left|eauto]..|].
  destruct Hh as (x & -> & Hx). cbn [ends].
  assert (Ho' : open_ l (set_reader x r)).
  { apply (open_set_reader (b0 :: b1 :: l)); [done|done|]. pose proof (o_bytes _ _ Ho) as Hb. by apply Forall_cons in Hb as [_ [_ ?]%Forall_cons]. }
  set (h := header_of b0 b1). assert (Hlen : 0 <= length_ h < 128).
  { cbn. unfold LENGTH_MASK. change 127 with (Z.ones 7). rewrite Z.land_ones by lia. apply Z.mod_pos_bound. lia. }
  apply ends_bind. eapply ends_mono; [apply check_control_spec, Ho'|..].
  - intros _ r1 (H1 & Hd & Hc). apply ends_bind. eapply ends_mono; [by eapply check_reserved_spec|..].
    + intros _ r2 [-> Hr]. cbn [sret ends]. exists l. split_and!; try done; [cbn; lia|lia|lia].
    + intros e r2 [He ->]. split; [done|]. exists l. split; [done|]. cbn; lia.
  - intros e r1 [He H1]. split; [done|]. exists l. split; [done|]. cbn; lia.
Qed.

(** What a part of a step that does not read leaves: the stream as it was. *)
Abbreviation keeps l Q := (ends (fun a r' => open_ l r' /\ Q a r') (fun e r' => expected e /\ open_ l r')).

Lemma assemble_spec op p fin_ rsv l r :
  open_ l r -> (rsv = true -> _decompressor r <> None) ->
  ends (fun res r' => open_ l r' /\ match res with Some (_, _, c) => c = true -> _decompressor r' <> None | None => True end)
    (fun e r' => open_ l r' /\ (e = ProtocolError 1002 \/ exists a b, e = MessageTooLarge a b)) (assemble op p fin_ rsv r).
Proof.
  intros Ho Hrsv. assert (Hset : forall a, _max_total a = _max_message_size cfg -> (_compressed a = true -> _decompressor r <> None) ->
    open_ l (set_assembler a r)) by (intros a ??; destruct Ho; by split).
  pose proof (o_bound _ _ Ho) as Hm. pose proof (o_compressed _ _ Ho) as Hc.
  assert (Hsame : open_ l (set_assembler (_assembler r) r)) by by apply Hset.
  unfold assemble, feed. destruct (op =? CONTINUATION).
  - destruct (_opcode (_assembler r)); [|by cbn; auto]. destruct rsv; [by cbn; auto|].
    destruct (_ && _); [cbn; split; [done|]; right; by eexists _, _|]. destruct fin_; cbn; (split; [by apply Hset|done]).
  - destruct (in_progress _); [by cbn; auto|]. destruct fin_; [by cbn|].
    destruct (_ && _); [cbn; split; [done|]; right; by eexists _, _|]. cbn. split; [by apply Hset|done].
Qed.

Lemma refuse_oversized {A} (Q : A -> t -> Prop) l r : open_ l r -> keeps l Q (_refuse_oversized_message r).
Proof. intros Ho. by split; [apply expected_protocol|]. Qed.

Lemma inflated_spec p l r : open_ l r -> _decompressor r <> None -> keeps l (fun out _ => within out) (inflated p r).
Proof.
  intros Ho Hd. unfold inflated. destruct (_decompressor r) as [z|] eqn:Ez; [|done].
  destruct (decompress _ _ z) as [x z'] eqn:Ed.
  assert (Ho' : open_ l (set_decompressor z' r)) by (destruct Ho; by split).
  destruct x as [out|e].
  - split; [done|]. unfold decompress in Ed. destruct (inflate _ _ _) as [[[o tl]|e] d]; [|done].
    unfold within. destruct (Z.eqb_spec (_max_message_size cfg) 0) as [Hz|Hz]; [by left|right].
    destruct ((zlen o >? _) || _) eqn:Eb; [done|]. apply orb_false_iff in Eb as [Eb _]. injection Ed as <- _.
    rewrite Z.gtb_ltb in Eb. by apply Z.ltb_ge in Eb.
  - destruct e; first [by apply refuse_oversized|by split; [apply expected_protocol|]].
Qed.

Lemma sized_spec p l r : open_ l r -> keeps l (fun out _ => within out) (sized p r).
Proof.
  intros Ho. unfold sized, within. destruct (Z.eqb_spec (_max_message_size cfg) 0) as [Hz|Hz]; [by split; [|left]|]. cbn [negb andb].
  destruct (Z.gtb_spec (zlen p) (_max_message_size cfg)); [by apply refuse_oversized|]. by split; [|right].
Qed.

Lemma decoded_spec op p l r : open_ l r -> within p -> keeps l (fun m _ => fits m) (decoded op p r).
Proof.
  intros Ho Hp. unfold decoded. destruct (op =? TEXT); [|by split]. destruct (utf8_decode p) as [s|e] eqn:E.
  - split; [done|]. by exists p.
  - by split; [apply expected_protocol|].
Qed.

Lemma emit_message m l r : open_ l r -> fits m -> keeps l (fun _ _ => True) (_emit (Msg m) r).
Proof.
  intros [] Hm. destruct o_pending0 as (ms & Hms & Hf). split; [|done]. split; try done. cbn. exists (ms ++ [m]).
  rewrite Hms, fmap_app. split; [done|]. by apply Forall_app_2, Forall_singleton.
Qed.

Lemma data_frame_spec op p fin_ rsv l r :
  open_ l r -> (rsv = true -> _decompressor r <> None) -> keeps l (fun _ _ => True) (_handle_data_frame op p fin_ rsv r).
Proof.
  intros Ho Hrsv. unfold _handle_data_frame. apply ends_bind, ends_catch. eapply ends_mono; [by apply assemble_spec|..].
  - intros [[[op' full] c]|] r1 [H1 Hc]; [|by cbn]. apply ends_bind.
    assert (Hb : keeps l (fun out _ => within out) ((if c then inflated full else sized full) r1)).
    { destruct c; [apply inflated_spec; auto|by apply sized_spec]. }
    eapply ends_mono; [exact Hb| |done]. intros out r2 [H2 Hout]. apply ends_bind.
    eapply ends_mono; [by apply decoded_spec| |done]. intros m r3 [H3 Hm]. by apply emit_message.
  - intros e r1 [H1 [->|(a & b & ->)]]; cbn; [by split; [apply expected_protocol|]|by split; [apply expected_protocol|]].
Qed.

(** ** The end of the read side *)

Lemma best_effort_write f (r : t) :
  best_effort (write f) r = (Ok tt, set_writes (_writes r ++ [(f, negb (write_fails (length (_writes r))))]) r).
Proof. unfold best_effort, scatch, write. by destruct (write_fails _). Qed.

(** The last write and the terminal item. *)
Lemma ended_by l r w i code :
  open_ l r -> (w = [] \/ exists c, w = [c] /\ closing c) ->
  match i with
  | WS_CLOSED => True
  | Exc (ProtocolError c) => code = c
  | Exc e => e = OSError /\ code = ABNORMAL
  | Msg _ => False
  end -> ended (set_pending (_pending r ++ [i]) (set_terminal (Some code) (set_writes (_writes r ++ w) r))).
Proof.
  intros [] Hw Hi. destruct o_pending0 as (ms & Hms & Hf). split; cbn.
  - exists ms, i. rewrite Hms. split_and!; [done|done|]. destruct i as [m|e|]; [done| |by exists code].
    destruct e; naive_solver.
  - exists (_writes r), w. by split_and!.
Qed.

Lemma set_writes_nil (r : t) : set_writes (_writes r ++ []) r = r.
Proof. rewrite app_nil_r. by destruct r. Qed.

Lemma control_frame_spec op p l r :
  open_ l r -> zlen p <= 125 ->
  ends (fun b r' => if b : bool then ended r' else open_ l r') (fun e r' => expected e /\ open_ l r') (_handle_control_frame op p r).
Proof.
  intros Ho Hp. unfold _handle_control_frame. destruct (op =? CLOSE).
  - pose proof (close_payload_code p) as Hc. destruct (_parse_close_payload p) as [code ok].
    set (c := if ok then code else PROTOCOL_ERROR) in *.
    destruct (close_frame_ok c (negb (_require_masked cfg)) r Hc) as (f & q & Hf & Hq & Hw).
    unfold sbind. rewrite Hf, best_effort_write. cbn [ends sret].
    refine (ended_by l r [_] WS_CLOSED c Ho _ I). right. eexists. split; [done|].
    exists (urandom (length (_writes r))), c, q, (negb (_require_masked cfg)). split_and!; try done. by destruct (_require_masked cfg).
  - destruct (op =? PING); [|by cbn]. unfold sbind, frame_of.
    destruct (encode_frame_Ok (urandom (length (_writes r))) p PONG (negb (_require_masked cfg))) as [f Hf];
      [unfold PONG; lia|pose proof (zlen_nonneg p); lia|]. rewrite Hf. unfold write.
    assert (Hpong : forall b, open_ l (set_writes (_writes r ++ [(f, b)]) r)).
    { intros b. apply open_write; [done|]. by exists (urandom (length (_writes r))), p. }
    destruct (write_fails _); cbn; [split; [by right; right|apply Hpong]|apply Hpong].
Qed.

Lemma unknown_opcode_spec l r : open_ l r -> exists r', _handle_unknown_opcode r = (Ok tt, r') /\ ended r'.
Proof.
  intros Ho. unfold _handle_unknown_opcode, sbind. destruct (close_frame_ok PROTOCOL_ERROR false r eq_refl) as (f & q & Hf & Hq & Hw).
  rewrite Hf, best_effort_write. eexists. split; [done|]. refine (ended_by l r [_] WS_CLOSED PROTOCOL_ERROR Ho _ I).
  right. eexists. split; [done|]. by exists (urandom (length (_writes r))), PROTOCOL_ERROR, q, false.
Qed.

Lemma on_failure_spec e l r : open_ l r -> expected e -> exists r', on_failure e r = (Ok true, r') /\ ended r'.
Proof.
  intros Ho [->|[(code & -> & Hc)| ->]]; unfold on_failure, sbind.
  - eexists. split; [done|]. pose proof (ended_by l r [] WS_CLOSED ABNORMAL Ho (or_introl eq_refl) I) as He.
    rewrite set_writes_nil in He. exact He.
  - destruct (close_frame_ok code (negb (_require_masked cfg)) r Hc) as (f & q & Hf & Hq & Hw).
    rewrite Hf, best_effort_write. eexists. split; [done|]. refine (ended_by l r [_] (Exc (ProtocolError code)) code Ho _ eq_refl).
    right. eexists. split; [done|]. exists (urandom (length (_writes r))), code, q, (negb (_require_masked cfg)).
    split_and!; try done. by destruct (_require_masked cfg).
  - destruct (close_frame_ok 1011 (negb (_require_masked cfg)) r eq_refl) as (f & q & Hf & Hq & Hw).
    rewrite Hf, best_effort_write. eexists. split; [done|]. refine (ended_by l r [_] (Exc OSError) ABNORMAL Ho _ (conj eq_refl eq_refl)).
    right. eexists. split; [done|]. exists (urandom (length (_writes r))), 1011, q, (negb (_require_masked cfg)).
    split_and!; try done. by destruct (_require_masked cfg).
Qed.

(** ** Steps to the end *)

Lemma payload_step_spec h l r :
  open_ l r -> 0 <= length_ h < 128 -> (control (opcode h) = true -> length_ h <= 125) ->
  (rsv1 h = true -> _decompressor r <> None) ->
  ends (fun b r' => if b : bool then ended r' else exists l', open_ l' r' /\ (length l' <= length l)%nat) (fails l) (payload_step h r).
Proof.
  intros Ho H7 Hc Hd. unfold payload_step. apply ends_bind, ends_catch. unfold reading.
  pose proof (read_payload_cases (_reader r) l (masked h) (length_ h) (_max_frame_payload cfg) (o_delivers _ _ Ho) (o_bytes _ _ Ho) H7) as Hp.
  pose proof (read_payload_short (_reader r) l (masked h) (length_ h) (_max_frame_payload cfg) (o_delivers _ _ Ho) (o_bytes _ _ Ho)) as Hs.
  destruct (read_payload _ _ _ _) as [[p x]|e]; cbn [ends].
  - destruct Hp as (l1 & Hx & Hb & Hlen & _ & _). set (r1 := set_reader x r).
    assert (H1 : open_ l1 r1) by by eapply open_set_reader.
    assert (Hfail : forall e r', expected e /\ open_ l1 r' -> fails l e r') by (intros e r' [? ?]; split; [done|]; by exists l1).
    destruct (_ && _); [cbn; apply Hfail; split; [by apply expected_protocol|done]|].
    case_bool_decide.
    + apply ends_bind. eapply ends_mono; [by apply (data_frame_spec _ _ _ _ l1)| |exact Hfail].
      intros _ r2 [H2 _]. cbn. by exists l1.
    + destruct (control (opcode h)) eqn:Ec.
      * eapply ends_mono; [apply control_frame_spec; [exact H1|apply Hs; specialize (Hc eq_refl); lia]| |exact Hfail].
        intros [] r' H'; [done|by exists l1].
      * destruct (unknown_opcode_spec l1 r1 H1) as (r' & Hr & He). apply ends_bind. rewrite Hr. by cbn.
  - destruct Hp as [->|[n ->]]; cbn; (split; [|by exists l]); [by left|by apply expected_protocol].
Qed.

Lemma drive_spec l r :
  open_ l r ->
  exists r', drive r = (Ok tt, r') /\
    ((exists l', open_ l' r' /\ (length l' < length l)%nat) \/ (ended r' /\ _read_finished r' = true)).
Proof.
  intros Ho.
  assert (Hstep : ends (fun b r' => if b : bool then ended r' else exists l', open_ l' r' /\ (length l' < length l)%nat) (fails l) (_read_step r)).
  { unfold _read_step. apply ends_bind. eapply ends_mono; [by apply header_step_spec| |done].
    intros h r1 (l1 & H1 & Hlt & H7 & Hc & Hd). eapply ends_mono; [by eapply payload_step_spec|..].
    - intros [] r2; [done|]. intros (l2 & H2 & ?). exists l2. split; [done|lia].
    - intros e r2 (He & l2 & H2 & ?). split; [done|]. exists l2. split; [done|lia]. }
  unfold drive, _drive_once, sbind, scatch.
  destruct (_read_step r) as [[[]|e] r1]; cbn [ends] in Hstep.
  - eexists. split; [done|]. right. split; [|done]. by destruct Hstep.
  - destruct Hstep as (l' & [] & Hlt). eexists. split; [done|]. left. exists l'. by split.
  - destruct Hstep as (He & l' & H1 & _). destruct (on_failure_spec e l' r1 H1 He) as (r2 & -> & []).
    eexists. split; [done|]. right. by split.
Qed.

Lemma read_loop_spec fuel l r :
  open_ l r -> (length l < fuel)%nat -> exists r', _read_loop fuel r = (Ok tt, r') /\ ended r' /\ _read_finished r' = true.
Proof.
  revert l r. induction fuel as [|fuel IH]; intros l r Ho Hf; [lia|]. cbn [_read_loop]. rewrite (o_finished _ _ Ho).
  destruct (drive_spec l r Ho) as (r1 & Hr & [(l1 & H1 & Hlt)|[He Hfin]]); unfold sbind; rewrite Hr.
  - apply (IH l1); [done|lia].
  - exists r1. split; [|done]. destruct fuel; cbn [_read_loop]; by rewrite Hfin.
Qed.

Lemma init_open x l meter z : delivers x l -> bytes_ok l -> open_ l (__init__ x meter z).
Proof. intros Hd Hl. split; try done. exists []. split; [done|constructor]. Qed.

(** C13: whatever the peer sends, the read side ends properly.  For every stream
    of octets, clock, failing writes, settings and inflater: the read loop
    returns within the stream's length, having handed over messages within the
    message bound and then exactly one terminal item, whose close code is the
    one recorded; on the wire are PONGs of at most 125 octets and then at most
    one CLOSE, with a code that may appear on the wire, and nothing after it.
    The exception handed over, if any, is a protocol error or the failure of a
    PONG's write. *)
Theorem ws_any_peer x l meter z fuel :
  delivers x l -> bytes_ok l -> (length l < fuel)%nat ->
  exists r, _read_loop fuel (__init__ x meter z) = (Ok tt, r) /\ _read_finished r = true /\
    (exists ms i, _pending r = (Msg <$> ms) ++ [i] /\ Forall fits ms /\
      match i with
      | WS_CLOSED => exists code, _terminal_code r = Some code
      | Exc (ProtocolError code) => _terminal_code r = Some code
      | Exc e => e = OSError /\ _terminal_code r = Some ABNORMAL
      | Msg _ => False
      end) /\
    exists ws cs, _writes r = ws ++ cs /\ Forall pong ws /\ (cs = [] \/ exists c, cs = [c] /\ closing c).
Proof.
  intros Hd Hl Hf. destruct (read_loop_spec fuel l (__init__ x meter z) (init_open x l meter z Hd Hl) Hf) as (r & Hr & [] & Hfin).
  by exists r.
Qed.

(** ** What the read side does not depend on *)

(** Two states of the read side over one stream: the second has another reader
    of the same octets, [p] was handed over before, and its flags differ. *)
Definition shift (p : list item) (delivered sent : bool) (x : R) (r : t) : t :=
  mk x (_assembler r) (_control_meter r) (_readings r) (_decompressor r) (_writes r) (p ++ _pending r)
    (_terminal_code r) (_read_finished r) delivered sent.

Definition like (p : list item) (d c : bool) (r r' : t) : Prop :=
  exists x l, r' = shift p d c x r /\ delivers (_reader r) l /\ delivers x l /\ bytes_ok l.

Definition blind {A} (m : smonad t A) : Prop :=
  forall p d c r r', like p d c r r' -> (m r').1 = (m r).1 /\ like p d c (m r).2 (m r').2.

Lemma blind_local {A} (m : smonad t A) :
  (forall r, _reader (m r).2 = _reader r) ->
  (forall p d c x r, m (shift p d c x r) = let '(a, r') := m r in (a, shift p d c x r')) -> blind m.
Proof.
  intros Hr Hm p d c r r' (x & l & -> & H1 & H2 & H3). rewrite Hm. specialize (Hr r). destruct (m r) as [a r1]. cbn in *.
  split; [done|]. exists x, l. by rewrite Hr.
Qed.

Ltac local := intros; apply blind_local; [intros r|intros q d c y r].

Lemma blind_ret {A} (a : A) : blind (sret a).
Proof. by local. Qed.
Lemma blind_raise {A} e : blind (sraise (A := A) e).
Proof. by local. Qed.
Lemma blind_lift {A} (x : result A) : blind (slift x).
Proof. by local. Qed.

Lemma blind_bind_if {A B} (P : A -> Prop) (m : smonad t A) (k : A -> smonad t B) :
  blind m -> (forall r a, (m r).1 = Ok a -> P a) -> (forall a, P a -> blind (k a)) -> blind (sbind m k).
Proof.
  intros Hm HP Hk p d c r r' Hl. destruct (Hm _ _ _ _ _ Hl) as [He Hl']. specialize (HP r). unfold sbind.
  destruct (m r) as [[a|e] r1], (m r') as [x r1']; cbn in *; subst x; [|by split]. by apply Hk; [apply HP|].
Qed.

Lemma blind_bind {A B} (m : smonad t A) (k : A -> smonad t B) : blind m -> (forall a, blind (k a)) -> blind (sbind m k).
Proof. intros Hm Hk. apply (blind_bind_if (fun _ => True)); auto. Qed.

Lemma blind_catch {A} (m : smonad t A) h : blind m -> (forall e k, h e = Some k -> blind k) -> blind (scatch m h).
Proof.
  intros Hm Hh p d c r r' Hl. destruct (Hm _ _ _ _ _ Hl) as [He Hl']. unfold scatch.
  destruct (m r) as [[a|e] r1], (m r') as [x r1']; cbn in *; subst x; [by split|]. destruct (h e) eqn:E; [|by split].
  by eapply Hh.
Qed.

Lemma blind_update (f : t -> t) :
  (forall r, _reader (f r) = _reader r) -> (forall p d c x r, f (shift p d c x r) = shift p d c x (f r)) -> blind (supdate f).
Proof. intros Hr Hf. local; [apply Hr|]. unfold supdate. by rewrite Hf. Qed.

(** A read that gives the same, and what [P] says, over any two readers of one
    stream. *)
Definition agrees {A} (P : A -> Prop) (read : R -> result (A * R)) : Prop :=
  forall x y l, delivers x l -> delivers y l -> bytes_ok l ->
  match read x, read y with
  | Ok (a, x'), Ok (b, y') => a = b /\ P a /\ exists l', delivers x' l' /\ delivers y' l' /\ bytes_ok l'
  | Raise e, Raise e' => e = e'
  | _, _ => False
  end.

Lemma agrees_bind {A B} (P : A -> Prop) (Q : B -> Prop) (f : R -> result (A * R)) (g : A -> R -> result (B * R)) :
  agrees P f -> (forall a, P a -> agrees Q (g a)) -> agrees Q (fun x => let* '(a, x) := f x in g a x).
Proof.
  intros Hf Hg x y l Hx Hy Hl. specialize (Hf x y l Hx Hy Hl).
  destruct (f x) as [[a x']|e], (f y) as [[b y']|e']; try done; cbn [rbind].
  destruct Hf as [<- [Ha (l' & ? & ? & ?)]]. by eapply Hg.
Qed.

Lemma agrees_const {A} (P : A -> Prop) (a : A) : P a -> agrees P (fun x => Ok (a, x)).
Proof. intros Ha x y l ???. split; [done|]. split; [done|]. by exists l. Qed.

Lemma agrees_raise {A} (P : A -> Prop) e : agrees P (fun _ : R => Raise (A := A * R) e).
Proof. by intros ??????. Qed.

Lemma agrees_mono {A} (P Q : A -> Prop) f : (forall a, P a -> Q a) -> agrees P f -> agrees Q f.
Proof.
  intros HPQ Hf x y l Hx Hy Hl. specialize (Hf x y l Hx Hy Hl).
  destruct (f x) as [[a x']|e], (f y) as [[b y']|e']; naive_solver.
Qed.

Lemma agrees_exactly n : 0 <= n -> agrees bytes_ok (readexactly n).
Proof.
  intros Hn x y l Hx Hy Hl. destruct (readexactly_cases x l n Hx Hn Hl) as [[Hle (x' & -> & ? & ? & ?)]|[Hlt ->]],
    (readexactly_cases y l n Hy Hn Hl) as [[Hle' (y' & -> & ? & _)]|[Hlt' ->]]; try lia; [|done].
  split; [done|]. split; [done|]. by exists (drop (Z.to_nat n) l).
Qed.

Lemma agrees_header : agrees (fun h => 0 <= length_ h) read_frame_header.
Proof.
  apply (agrees_bind bytes_ok); [by apply agrees_exactly|]. intros b Hb x y l Hx Hy Hl.
  destruct (zget b 0) as [b0|]; [|done]. destruct (zget b 1) as [b1|]; [|done]. cbn [rbind]. split; [done|].
  split; [|by exists l]. cbn. unfold LENGTH_MASK. apply Z.land_nonneg. right. lia.
Qed.

Lemma agrees_payload mk len7 maximum : 0 <= len7 -> agrees (fun _ => True) (fun x => read_payload x mk len7 (Some maximum)).
Proof.
  intros H7. unfold read_payload.
  apply (agrees_bind (fun n => 0 <= n) _
    (fun x => if len7 =? 126 then let* '(l, x) := readexactly 2 x in Ok (from_bytes l, x)
              else if len7 =? 127 then let* '(l, x) := readexactly 8 x in Ok (from_bytes l, x) else Ok (len7, x))).
  - assert (Hk : forall k, 0 <= k -> agrees (fun n => 0 <= n) (fun x => let* '(l, x) := readexactly k x in Ok (from_bytes l, x))).
    { intros k Hk. apply (agrees_bind bytes_ok); [by apply agrees_exactly|]. intros b Hb. apply agrees_const.
      by apply from_bytes_nonneg. }
    destruct (len7 =? 126); [by apply Hk|]. destruct (len7 =? 127); [by apply Hk|]. by apply agrees_const.
  - intros n Hn. destruct (n >? maximum); cbn [rbind]; [apply agrees_raise|]. destruct mk; cbn [negb].
    + apply (agrees_bind bytes_ok); [by apply agrees_exactly|]. intros mask Hm.
      apply (agrees_bind bytes_ok); [by apply agrees_exactly|]. intros raw Hr.
      destruct (n =? 0); [by apply agrees_const|]. destruct (unmask mask raw n); cbn [rbind]; [by apply agrees_const|apply agrees_raise].
    + apply (agrees_mono bytes_ok); [done|]. by apply agrees_exactly.
Qed.

Lemma blind_reading {A} (P : A -> Prop) (read : R -> result (A * R)) : agrees P read -> blind (reading read).
Proof.
  intros Hr p d c r r' (x & l & -> & H1 & H2 & Hl). specialize (Hr (_reader r) x l H1 H2 Hl). unfold reading. cbn.
  destruct (read (_reader r)) as [[a x']|e], (read x) as [[b y']|e']; try done; cbn.
  - destruct Hr as [<- [_ (l' & ? & ? & ?)]]. split; [done|]. by exists y', l'.
  - subst. split; [done|]. by exists x, l.
Qed.

Lemma blind_write data : blind (write data).
Proof. local; [done|]. unfold write. cbn. by destruct (write_fails _). Qed.

Lemma blind_frame_of payload op mask : blind (frame_of payload op mask).
Proof. by local. Qed.

Lemma blind_emit i : blind (_emit i).
Proof.
  apply blind_update.
  - intros r. by destruct i as [m|[]|].
  - intros p d c x r. unfold set_pending, shift. destruct i as [m|[]|]; cbn; by rewrite app_assoc.
Qed.

Lemma blind_meter : blind meter_hit.
Proof. local; unfold meter_hit; cbn; by destruct (RateWindow.hit _ _ _). Qed.

Lemma blind_assemble op p fin_ rsv : blind (assemble op p fin_ rsv).
Proof. local; unfold assemble; cbn; by destruct (feed _ _ _ _ _). Qed.

Lemma blind_inflated p : blind (inflated p).
Proof.
  local; unfold inflated; cbn; (destruct (_decompressor r) as [z|]; [|done]);
    (destruct (decompress _ _ _) as [[out|e] z']; [done|]); by destruct e.
Qed.

Lemma blind_check_reserved h : blind (check_reserved h).
Proof. local; unfold check_reserved; cbn; (destruct (_ || _); [done|]); by destruct (_ && _). Qed.

Create HintDb blind.
#[local] Hint Resolve blind_ret blind_raise blind_lift blind_write blind_frame_of blind_emit blind_meter
  blind_assemble blind_inflated blind_check_reserved : blind.
#[local] Hint Extern 4 (blind (if ?b then _ else _)) => destruct b : blind.
#[local] Hint Extern 5 (blind (sbind _ _)) => apply blind_bind; [|intros] : blind.
#[local] Hint Extern 5 (blind (scatch _ _)) => apply blind_catch; [|intros ?? H; repeat case_match; simplify_eq] : blind.
#[local] Hint Extern 5 (blind (supdate _)) => apply blind_update; done : blind.

Lemma blind_close_frame code mask : blind (close_frame code mask).
Proof. unfold close_frame. auto with blind. Qed.
Lemma blind_close_channel code : blind (_close_channel code).
Proof. unfold _close_channel. auto with blind. Qed.
Lemma blind_best_effort f : blind (best_effort (write f)).
Proof. unfold best_effort. auto with blind. Qed.
#[local] Hint Resolve blind_close_frame blind_close_channel blind_best_effort : blind.

Lemma blind_data_frame op p fin_ rsv : blind (_handle_data_frame op p fin_ rsv).
Proof.
  unfold _handle_data_frame, _refuse_oversized_message. apply blind_bind; [auto with blind|]. intros [[[op' full] c]|]; [|auto with blind].
  apply blind_bind; [unfold sized, _refuse_oversized_message; auto with blind|]. intros out.
  apply blind_bind; [unfold decoded; destruct (_ =? _); [destruct (utf8_decode out)|]; auto with blind|]. auto with blind.
Qed.

Lemma blind_control_frame op p : blind (_handle_control_frame op p).
Proof.
  unfold _handle_control_frame. destruct (_parse_close_payload p) as [code ok]. auto 10 with blind.
Qed.
#[local] Hint Resolve blind_data_frame blind_control_frame : blind.

Lemma blind_payload_step h : 0 <= length_ h -> blind (payload_step h).
Proof.
  intros Hh. unfold payload_step, _handle_unknown_opcode. apply blind_bind; [|auto 20 with blind].
  apply blind_catch; [eapply blind_reading; by apply agrees_payload|]. intros e k H. repeat case_match; simplify_eq; auto with blind.
Qed.

Lemma blind_header_step : blind header_step.
Proof.
  unfold header_step, check_control. apply blind_bind; [eapply blind_reading, agrees_header|]. auto 20 with blind.
Qed.

Lemma header_step_length r h : (header_step r).1 = Ok h -> 0 <= length_ h.
Proof.
  unfold header_step, sbind, reading, read_frame_header. destruct (readexactly 2 (_reader r)) as [[b x]|e]; [|done]. cbn [rbind].
  destruct (zget b 0) as [b0|]; [|done]. destruct (zget b 1) as [b1|]; [|done]. cbn [rbind].
  destruct (check_control _ _) as [[]]; [|done]. destruct (check_reserved _ _) as [[]]; [|done]. intros [= <-]. cbn.
  apply Z.land_nonneg. right. unfold LENGTH_MASK. lia.
Qed.

Lemma blind_drive : blind drive.
Proof.
  unfold drive, _drive_once, _read_step. apply blind_bind; [|auto with blind]. apply blind_catch.
  - apply (blind_bind_if (fun h => 0 <= length_ h)); [apply blind_header_step|apply header_step_length|apply blind_payload_step].
  - intros e k [= <-]. unfold on_failure. destruct e; auto 10 with blind.
Qed.

Lemma blind_loop fuel : blind (_read_loop fuel).
Proof.
  induction fuel as [|fuel IH]; intros p d c r r' Hl; pose proof Hl as (x & l & -> & _); cbn [_read_loop]; cbn [_read_finished shift];
    (destruct (_read_finished r); [by split|]); [by split|]. by apply (blind_bind drive (fun _ => _read_loop fuel)); [apply blind_drive| |].
Qed.

(** What is on the wire stays on it. *)
Definition grows {A} (m : smonad t A) : Prop := forall r, exists w, _writes (m r).2 = _writes r ++ w.

Lemma grows_same {A} (m : smonad t A) : (forall r, _writes (m r).2 = _writes r) -> grows m.
Proof. intros Hm r. exists []. by rewrite Hm, app_nil_r. Qed.

Lemma grows_bind {A B} (m : smonad t A) (k : A -> smonad t B) : grows m -> (forall a, grows (k a)) -> grows (sbind m k).
Proof.
  intros Hm Hk r. unfold sbind. destruct (Hm r) as [w Hw]. destruct (m r) as [[a|e] r']; cbn in *; [|by exists w].
  destruct (Hk a r') as [w' ->]. exists (w ++ w'). by rewrite Hw, app_assoc.
Qed.

Lemma grows_catch {A} (m : smonad t A) h : grows m -> (forall e k, h e = Some k -> grows k) -> grows (scatch m h).
Proof.
  intros Hm Hh r. unfold scatch. destruct (Hm r) as [w Hw]. destruct (m r) as [[a|e] r']; cbn in *; [by exists w|].
  destruct (h e) as [k|] eqn:E; [|by exists w]. destruct (Hh e k E r') as [w' ->]. exists (w ++ w'). by rewrite Hw, app_assoc.
Qed.

Lemma grows_write data : grows (write data).
Proof. intros r. by eexists. Qed.

Lemma grows_emit i : grows (_emit i).
Proof. apply grows_same. intros r. by destruct i as [m|[]|]. Qed.
Lemma grows_reading {A} (read : R -> result (A * R)) : grows (reading read).
Proof. apply grows_same. intros r. unfold reading. by destruct (read _) as [[]|]. Qed.
Lemma grows_meter : grows meter_hit.
Proof. apply grows_same. intros r. unfold meter_hit. by destruct (RateWindow.hit _ _ _). Qed.
Lemma grows_assemble op p fin_ rsv : grows (assemble op p fin_ rsv).
Proof. apply grows_same. intros r. unfold assemble. by destruct (feed _ _ _ _ _). Qed.
Lemma grows_inflated p : grows (inflated p).
Proof.
  apply grows_same. intros r. unfold inflated. destruct (_decompressor r); [|done].
  destruct (decompress _ _ _) as [[out|e] z']; [done|]. by destruct e.
Qed.
Lemma grows_reserved h : grows (check_reserved h).
Proof. apply grows_same. intros r. unfold check_reserved. destruct (_ || _); [done|]. by destruct (_ && _). Qed.

Create HintDb grows.
#[local] Hint Resolve grows_write grows_emit grows_reading grows_meter grows_assemble grows_inflated grows_reserved : grows.
#[local] Hint Extern 3 (grows (sret _)) => apply grows_same; done : grows.
#[local] Hint Extern 3 (grows (sraise _)) => apply grows_same; done : grows.
#[local] Hint Extern 3 (grows (slift _)) => apply grows_same; done : grows.
#[local] Hint Extern 3 (grows (frame_of _ _ _)) => apply grows_same; done : grows.
#[local] Hint Extern 3 (grows (supdate _)) => apply grows_same; done : grows.
#[local] Hint Extern 4 (grows (if ?b then _ else _)) => destruct b : grows.
#[local] Hint Extern 5 (grows (sbind _ _)) => apply grows_bind; [|intros] : grows.
#[local] Hint Extern 5 (grows (scatch _ _)) => apply grows_catch; [|intros ?? H; repeat case_match; simplify_eq] : grows.

Lemma grows_close_frame code mask : grows (close_frame code mask).
Proof. unfold close_frame. auto with grows. Qed.
Lemma grows_best_effort f : grows (best_effort (write f)).
Proof. unfold best_effort. auto with grows. Qed.
#[local] Hint Resolve grows_close_frame grows_best_effort : grows.

Lemma grows_data_frame op p fin_ rsv : grows (_handle_data_frame op p fin_ rsv).
Proof.
  unfold _handle_data_frame, _refuse_oversized_message. apply grows_bind; [auto with grows|]. intros [[[op' full] c]|]; [|auto with grows].
  apply grows_bind; [unfold sized, _refuse_oversized_message; auto with grows|]. intros out.
  apply grows_bind; [unfold decoded; destruct (_ =? _); [destruct (utf8_decode out)|]; auto with grows|]. auto with grows.
Qed.
#[local] Hint Resolve grows_data_frame : grows.

Lemma grows_drive : grows drive.
Proof.
  unfold drive, _drive_once, _read_step, header_step, payload_step, check_control, _handle_unknown_opcode, _handle_control_frame,
    _close_channel.
  apply grows_bind; [|auto with grows]. apply grows_catch.
  - apply grows_bind; [auto 20 with grows|]. intros h. apply grows_bind; [auto with grows|]. intros p.
    destruct (_parse_close_payload p). auto 20 with grows.
  - intros e k [= <-]. unfold on_failure, _close_channel. destruct e; auto 10 with grows.
Qed.

Lemma grows_loop fuel : grows (_read_loop fuel).
Proof.
  induction fuel as [|fuel IH]; intros r; cbn [_read_loop]; (destruct (_read_finished r); [by exists []; rewrite app_nil_r|]);
    [by exists []; rewrite app_nil_r|]. by apply grows_bind; [apply grows_drive|].
Qed.

(** ** Any schedule gives the same *)

(** The read side is where a run of [drive]s can bring it. *)
Definition sound (r : t) : Prop :=
  (exists l, delivers (_reader r) l /\ bytes_ok l) /\ ((exists l, open_ l r) \/ _read_finished r = true).

(** Within [f] steps it ends as [rf] did, once [q] has been handed over. *)
Definition yields (f : nat) (q : list item) (r rf : t) : Prop :=
  exists r', _read_loop f r = (Ok tt, r') /\ q ++ _pending r' = _pending rf /\ _writes r' = _writes rf /\
    _terminal_code r' = _terminal_code rf.

Lemma like_self r : (exists l, delivers (_reader r) l /\ bytes_ok l) -> like [] (_terminal_delivered r) (_connect_sent r) r r.
Proof. intros (l & ? & ?). exists (_reader r), l. split_and!; try done. by destruct r. Qed.

Lemma yields_like f q p d c r r2 rf : like p d c r r2 -> yields f (q ++ p) r rf <-> yields f q r2 rf.
Proof.
  intros Hl. destruct (blind_loop f _ _ _ _ _ Hl) as [He (x & l & Hs & _)]. unfold yields.
  destruct (_read_loop f r) as [a r1], (_read_loop f r2) as [b r2']. cbn in *. subst b r2'.
  split; intros (r' & [= -> <-] & Hp & Hw & Ht); eexists; (split; [reflexivity|]); cbn in *; split_and!; try done.
  - by rewrite app_assoc.
  - by rewrite <- app_assoc.
Qed.

Lemma yields_drive f q r rf :
  sound r -> _read_finished r = false -> yields f q r rf ->
  exists f' r', f = S f' /\ drive r = (Ok tt, r') /\ sound r' /\ yields f' q r' rf /\
    _terminal_delivered r' = _terminal_delivered r /\ _connect_sent r' = _connect_sent r.
Proof.
  intros [Hd [[l Ho]|Hf]] Hfin (rf' & Hr & Hy); [|congruence]. destruct f as [|f]; cbn [_read_loop] in Hr; rewrite Hfin in Hr; [done|].
  destruct (drive_spec l r Ho) as (r1 & Hdr & Hcase). exists f, r1.
  destruct (blind_drive _ _ _ _ _ (like_self r Hd)) as [_ (x & l' & Hs & Hd1 & _ & Hb1)]. rewrite Hdr in Hs, Hd1. cbn in Hs, Hd1.
  unfold sbind in Hr. rewrite Hdr in Hr. split_and!; try done.
  - split; [by exists l'|]. destruct Hcase as [(l2 & ? & _)|[_ ?]]; [left; by exists l2|by right].
  - by exists rf'.
  - by rewrite Hs.
  - by rewrite Hs.
Qed.

(** The loops drive until something is pending, or for as long as a control
    frame leads the buffer. *)
Definition driven (f : nat) (q : list item) (rf r : t) (res : result unit * t) : Prop :=
  exists f' r', res = (Ok tt, r') /\ (f' <= f)%nat /\ sound r' /\ yields f' q r' rf /\
    _terminal_delivered r' = _terminal_delivered r /\ _connect_sent r' = _connect_sent r.

Lemma driven_step f q rf r (k : smonad t unit) :
  sound r -> _read_finished r = false -> yields f q r rf ->
  (forall f' r', f = S f' -> sound r' -> yields f' q r' rf -> driven f' q rf r' (k r')) -> driven f q rf r ((do! drive in k) r).
Proof.
  intros Hs Hfin Hy Hk. destruct (yields_drive f q r rf Hs Hfin Hy) as (f' & r' & -> & Hr & Hs' & Hy' & Hd & Hc).
  unfold sbind. rewrite Hr. destruct (Hk f' r' eq_refl Hs' Hy') as (f2 & r2 & -> & ? & ? & ? & ? & ?).
  exists f2, r2. split_and!; (done || lia || congruence).
Qed.

Lemma driven_now f q rf r : sound r -> yields f q r rf -> driven f q rf r (Ok tt, r).
Proof. intros Hs Hy. by exists f, r. Qed.

Lemma inline_driven fuel f q rf r :
  (f <= fuel)%nat -> sound r -> yields f q r rf ->
  driven f q rf r (inline_loop fuel r) /\
  (_pending (inline_loop fuel r).2 <> [] \/ _read_finished (inline_loop fuel r).2 = true).
Proof.
  revert f r. induction fuel as [|fuel IH]; intros f r Hf Hs Hy; cbn [inline_loop];
    (case_bool_decide as Hp; cbn [negb orb]; [|split; [by apply driven_now|by left]]);
    (destruct (_read_finished r) eqn:Hfin; [split; [by apply driven_now|by right]|]);
    destruct (yields_drive f q r rf Hs Hfin Hy) as (f' & r' & -> & Hr & Hs' & Hy' & _); [lia|].
  split; [apply driven_step; [done..|]; intros f2 r2 [= <-] ??; apply IH; [lia|done..]|].
  unfold sbind. rewrite Hr. apply (IH f'); [lia|done..].
Qed.

Lemma service_driven fuel f q rf r :
  (f <= fuel)%nat -> sound r -> yields f q r rf -> driven f q rf r (service_loop fuel r).
Proof.
  revert f r. induction fuel as [|fuel IH]; intros f r Hf Hs Hy; cbn [service_loop];
    (destruct (_read_finished r) eqn:Hfin; [by apply driven_now|]); cbn [orb];
    (destruct (_ || _); [by apply driven_now|]).
  - destruct (yields_drive f q r rf Hs Hfin Hy) as (f' & r' & -> & _). lia.
  - apply driven_step; [done..|]. intros f2 r2 -> ??. apply IH; [lia|done..].
Qed.

(** What the n-th [receive()] returns, of a read side that ended as [rf]. *)
Definition answer (rf : t) (n : nat) : result event :=
  match n with
  | O => Ok Connect
  | S n =>
      match _pending rf !! n with
      | Some (Msg m) => Ok (Receive m)
      | Some (Exc e) => Raise e
      | _ => Ok (Disconnect (default ABNORMAL (_terminal_code rf)))
      end
  end.

Definition terminal (i : item) : Prop := match i with Msg _ => False | _ => True end.

(** [n] answers have been given, of which [ms] are messages. *)
Record going (fuel : nat) (ms : list message) (n : nat) (rf r : t) : Prop := mkGoing {
  g_sound : sound r;
  g_yields : exists f, (f <= fuel)%nat /\ yields f (Msg <$> ms) r rf;
  g_delivered : _terminal_delivered r = false;
  g_count : if _connect_sent r then n = S (length ms) else n = 0%nat /\ ms = []
}.

Record over (n : nat) (rf r : t) : Prop := mkOver {
  v_delivered : _terminal_delivered r = true;
  v_sent : _connect_sent r = true;
  v_finished : _read_finished r = true;
  v_count : (length (_pending rf) < n)%nat;
  v_writes : _writes r = _writes rf;
  v_code : _terminal_code r = _terminal_code rf
}.

Definition at_ (fuel n : nat) (rf r : t) : Prop := (exists ms, going fuel ms n rf r) \/ over n rf r.

Lemma going_driven fuel ms n rf r f res :
  going fuel ms n rf r -> (f <= fuel)%nat -> driven f (Msg <$> ms) rf r res -> exists r', res = (Ok tt, r') /\ going fuel ms n rf r'.
Proof.
  intros [] Hf (f' & r' & -> & ? & ? & ? & Hd & Hc). exists r'. split; [done|].
  split; [done| |congruence|by rewrite Hc]. exists f'. split; [lia|done].
Qed.

(** An item is taken: it is the next one of [rf], and the last one if it is
    terminal. *)
Lemma take_item f ms rf r i l :
  sound r -> yields f (Msg <$> ms) r rf -> _pending r = i :: l ->
  _pending rf !! length ms = Some i /\ yields f ((Msg <$> ms) ++ [i]) (set_pending l r) rf /\
  (terminal i -> _read_finished r = true /\ _writes r = _writes rf /\ _terminal_code r = _terminal_code rf).
Proof.
  intros [Hd Ho] Hy Hp.
  assert (Hl : like [i] (_terminal_delivered r) (_connect_sent r) (set_pending l r) r).
  { destruct Hd as (l' & ? & ?). exists (_reader r), l'. split_and!; try done. unfold shift. cbn. rewrite <- Hp. by destruct r. }
  pose proof (proj2 (yields_like f (Msg <$> ms) [i] _ _ _ _ rf Hl) Hy) as Hy'. split_and!; [|done|].
  - destruct Hy' as (r' & _ & <- & _). rewrite <- app_assoc, lookup_app_r by (rewrite length_fmap; lia).
    by rewrite length_fmap, Nat.sub_diag.
  - intros Hi. destruct Ho as [[l' []]|Hfin].
    { destruct o_pending0 as (ms' & Hms & _). rewrite Hp in Hms. destruct ms'; [done|]. by injection Hms as -> _. }
    split; [done|]. destruct Hy as (r' & Hr & _ & Hw & Ht). destruct f; cbn [_read_loop] in Hr; rewrite Hfin in Hr; by injection Hr as <-.
Qed.

(** How the read side of a connection ends. *)
Definition final (rf : t) : Prop := exists ms i, _pending rf = (Msg <$> ms) ++ [i] /\ terminal i.

(** The item is taken from the queue or the slot, and made an event. *)
Definition taken : smonad t event :=
  let! i := (fun r => match _pending r with [] => (Ok WS_CLOSED, set_delivered r) | i :: l => (Ok i, set_pending l r) end)
  in encode_item i.

Lemma taken_spec fuel ms n rf r :
  final rf -> going fuel ms n rf r -> _connect_sent r = true -> (_pending r <> [] \/ _read_finished r = true) ->
  exists r', taken r = (answer rf n, r') /\ at_ fuel (S n) rf r' /\ _pending r <> [].
Proof.
  intros (ms0 & i0 & Hrf & Hi0) [Hs (f & Hf & Hy) Hd Hc] Hcs Hp. rewrite Hcs in Hc. subst n.
  destruct (_pending r) as [|i l] eqn:Ep.
  - destruct Hp as [?|Hfin]; [done|]. destruct Hy as (r' & Hr & Hq & _).
    assert (r' = r) as -> by (destruct f; cbn [_read_loop] in Hr; rewrite Hfin in Hr; by injection Hr).
    rewrite Ep, app_nil_r in Hq. rewrite <- Hq in Hrf. apply (f_equal last) in Hrf. rewrite last_snoc, fmap_last in Hrf.
    destruct (last ms); [by injection Hrf as <-|done].
  - destruct (take_item f ms rf r i l Hs Hy Ep) as (Hi & Hy' & Hterm). unfold taken, sbind. rewrite Ep. cbn [answer]. rewrite Hi.
    assert (Hover : terminal i -> over (S (S (length ms))) rf (set_delivered (set_pending l r))).
    { intros Ht. destruct (Hterm Ht) as (? & ? & ?). split; try done. rewrite Hrf in Hi |- *.
      destruct (decide (length ms < length ms0)%nat) as [Hlt|].
      - rewrite lookup_app_l, list_lookup_fmap in Hi by by rewrite length_fmap.
        destruct (ms0 !! length ms); [by injection Hi as <-|done].
      - rewrite length_app, length_fmap. cbn. lia. }
    destruct i as [m|e|]; eexists; (split; [unfold encode_item; f_equal|]); try (split; [right; apply Hover; exact I|done]).
    + split; [left|done]. exists (ms ++ [m]). destruct Hs as [Hdl Ho]. split; try done.
      * split; [done|]. destruct Ho as [[l' []]|?]; [left|by right]. exists l'. split; try done.
        destruct o_pending0 as ([|m' ms'] & Hms & Hfits); rewrite Ep in Hms; [done|]. injection Hms as _ Hms.
        exists ms'. split; [done|]. by apply Forall_cons in Hfits as [_ ?].
      * exists f. split; [done|]. by rewrite fmap_app.
      * cbn. rewrite Hcs, length_app. cbn. lia.
    + destruct (Hterm I) as (_ & _ & Ht). cbn. by rewrite Ht.
Qed.

(** Either way of getting an item: the loop, then the item. *)
Lemma get_spec fuel n rf c r :
  final rf -> at_ fuel n rf r -> _connect_sent r = true ->
  let get := match _event_queue c with
             | Some _ => if _terminal_delivered r then sret WS_CLOSED else queue_get fuel
             | None => _next_item fuel
             end in
  exists r', (let! i := get in encode_item i) r = (answer rf n, r') /\ at_ fuel (S n) rf r'.
Proof.
  intros Hrf [[ms Hg]|[]] Hcs; cbn zeta.
  - pose proof Hg as [Hs (f & Hf & Hy) Hd _].
    destruct (inline_driven fuel f _ rf r Hf Hs Hy) as [Hdr Hp].
    assert (Hc1 : _connect_sent (inline_loop fuel r).2 = true) by (destruct Hdr as (? & ? & -> & _ & _ & _ & _ & Hc); cbn; congruence).
    destruct (going_driven _ _ _ _ _ _ _ Hg Hf Hdr) as (r1 & Hr & Hg1). rewrite Hr in Hp, Hc1. cbn in Hp, Hc1.
    destruct (taken_spec fuel ms n rf r1 Hrf Hg1 Hc1 Hp) as (r2 & Ht & Hat & Hne). exists r2. split; [|done]. rewrite <- Ht.
    unfold _next_item, queue_get, taken, sbind. destruct (_event_queue c); rewrite Hd; cbv beta iota; rewrite Hr; by destruct (_pending r1).
  - assert (Ha : answer rf n = Ok (Disconnect (default ABNORMAL (_terminal_code r)))).
    { destruct n as [|n]; [lia|]. cbn [answer]. by rewrite lookup_ge_None_2, v_code0 by lia. }
    rewrite Ha. exists (set_delivered r). split.
    + unfold _next_item, sbind. destruct (_event_queue c); by rewrite v_delivered0.
    + right. split; try done. lia.
Qed.

Lemma ensure_rec listening c : rec (_ensure_reader_started listening c) = rec c.
Proof. unfold _ensure_reader_started. destruct (_ || _); [done|]. destruct (_ <? _)%nat; [done|]. by destruct listening. Qed.

Lemma recv_spec fuel listening c n rf :
  final rf -> at_ fuel n rf (rec c) ->
  (receive fuel listening c).2 = answer rf n /\ at_ fuel (S n) rf (rec (receive fuel listening c).1).
Proof.
  intros Hrf Hat. unfold receive. destruct (_connect_sent (rec c)) eqn:Hcs; cbn [negb].
  - rewrite !ensure_rec. destruct (get_spec fuel n rf (_ensure_reader_started listening c) (rec c) Hrf Hat Hcs) as (r' & Hr & Hat').
    cbn zeta in Hr. rewrite Hr. done.
  - destruct Hat as [[ms [Hs (f & Hf & Hy) Hd Hc]]|[]]; [|congruence]. rewrite Hcs in Hc. destruct Hc as [-> ->].
    cbn [fst snd]. split; [done|]. rewrite ensure_rec. left. exists []. split; try done; cbn [rec].
    + destruct Hs as [? [[l []]|?]]; (split; [done|]); [left|by right]. by exists l.
    + exists f. split; [done|]. destruct Hs as [(l & Hdl & Hb) _].
      apply (yields_like f [] [] (_terminal_delivered (rec c)) true (rec c)); [|done]. exists (_reader (rec c)), l. split_and!; try done.
Qed.

Lemma driven_rec fuel n rf c (m : smonad t unit) :
  at_ fuel n rf (rec c) -> _read_finished (rec c) = false ->
  (forall f q, (f <= fuel)%nat -> sound (rec c) -> yields f q (rec c) rf -> driven f q rf (rec c) (m (rec c))) ->
  at_ fuel n rf (m (rec c)).2.
Proof.
  intros [[ms Hg]|[]] Hfin Hm; [|congruence]. pose proof Hg as [Hs (f & Hf & Hy) _ _].
  destruct (going_driven _ _ _ _ _ _ _ Hg Hf (Hm f _ Hf Hs Hy)) as (r' & -> & Hg'). left. by exists ms.
Qed.

Lemma act_spec fuel a c n rf :
  final rf -> at_ fuel n rf (rec c) ->
  let m := length (act fuel a c).2 in
  (act fuel a c).2 = answer rf <$> seq n m /\ at_ fuel (n + m) rf (rec (act fuel a c).1).
Proof.
  intros Hrf Hat. cbn zeta. destruct a as [listening| | |k]; cbn [act].
  - destruct (recv_spec fuel listening c n rf Hrf Hat) as [Ha Hat']. destruct (receive fuel listening c) as [c' x]. cbn in *. subst x.
    split; [done|]. by replace (n + 1)%nat with (S n) by lia.
  - cbn. rewrite Nat.add_0_r. split; [done|]. destruct (_event_queue c) as [depth|]; [|done].
    destruct (_read_finished (rec c)) eqn:Hfin; [done|]. cbn [orb].
    match goal with |- context [if ?b then c else _] => destruct b end; [done|]. cbn [rec].
    apply (driven_rec fuel n rf c drive); [done..|]. intros f q Hf Hs Hy.
    destruct (yields_drive f q _ rf Hs Hfin Hy) as (f' & r' & -> & Hr & ?). exists f', r'. naive_solver lia.
  - cbn. rewrite Nat.add_0_r. split; [done|]. unfold _on_idle_tick, start_deferred_reader, service_available_control_frames.
    destruct (_read_finished (rec c)) eqn:Hfin; [done|]. cbn [orb]. destruct (_event_queue c); [done|].
    destruct (_deferred_pending c); [done|]. destruct (has_control_frames_buffered _); [|done]. cbn [rec].
    apply (driven_rec fuel n rf c (service_loop fuel)); [done..|]. intros f q Hf Hs Hy. by apply service_driven.
  - cbn. rewrite Nat.add_0_r. split; [done|]. destruct Hat as [[ms [Hs (f & Hf & Hy) Hd Hc]]|[]]; [left|by right].
    exists ms. destruct Hs as [(l & Hdl & Hb) Ho]. split; try done.
    + split; [exists l; split; [by apply arrive_delivers|done]|]. destruct Ho as [[l' []]|?]; [left|by right].
      exists l'. split; try done. by apply arrive_delivers.
    + exists f. split; [done|]. eapply (yields_like f _ [] (_terminal_delivered (rec c)) (_connect_sent (rec c)) (rec c)); [|by rewrite app_nil_r].
      exists (arrive k (_reader (rec c))), l. split_and!; [|done|by apply arrive_delivers|done]. by destruct (rec c).
Qed.

Lemma acts_spec fuel l c n rf :
  final rf -> at_ fuel n rf (rec c) ->
  let m := length (acts fuel l c).2 in
  (acts fuel l c).2 = answer rf <$> seq n m /\ at_ fuel (n + m) rf (rec (acts fuel l c).1).
Proof.
  intros Hrf. revert c n. induction l as [|a l IH]; intros c n Hat; cbn zeta; cbn [acts].
  - cbn. by rewrite Nat.add_0_r.
  - destruct (act_spec fuel a c n rf Hrf Hat) as [Ha Hat1]. destruct (act fuel a c) as [c1 xs]. cbn [fst snd] in *.
    destruct (IH c1 _ Hat1) as [Hb Hat2]. destruct (acts fuel l c1) as [c2 ys]. cbn [fst snd] in *.
    rewrite length_app, seq_app, fmap_app, <- Ha, <- Hb, Nat.add_assoc. done.
Qed.

Lemma at_writes fuel n rf r : at_ fuel n rf r -> exists w, _writes rf = _writes r ++ w.
Proof.
  intros [[ms [_ (f & _ & (r' & Hr & _ & Hw & _)) _ _]]|[]].
  - rewrite <- Hw. destruct (grows_loop f r) as [w H']. rewrite Hr in H'. by exists w.
  - exists []. by rewrite app_nil_r, v_writes0.
Qed.

Definition new_conn (x : R) (meter : RateWindow.t) (z : option InboundDecompressor) : conn :=
  mkConn (__init__ x meter z) None false.

(** The application receives the same whatever drives the wire.  For every
    stream of octets, queue depth, and schedule of receives, read-ahead steps,
    watchdog ticks, arrivals and listeners: the n-th [receive()] returns what
    the n-th item of the plain read loop over the whole stream says — connect,
    the messages in order, the terminal item, then the same disconnect for
    ever; no receive waits for ever; and what has been written is a first part
    of what that loop writes. *)
Theorem ws_schedule x l meter z fuel sched :
  delivers x l -> bytes_ok l -> (length l < fuel)%nat ->
  exists rf, _read_loop fuel (__init__ x meter z) = (Ok tt, rf) /\
    let '(c, xs) := acts fuel sched (new_conn x meter z) in
    xs = answer rf <$> seq 0 (length xs) /\ exists w, _writes rf = _writes (rec c) ++ w.
Proof.
  intros Hd Hl Hf. pose proof (init_open x l meter z Hd Hl) as Ho.
  destruct (read_loop_spec fuel l _ Ho Hf) as (rf & Hr & [(ms & i & Hp & _ & Hi) _] & Hfin). exists rf. split; [done|].
  assert (Hrf : final rf) by (exists ms, i; split; [done|by destruct i]).
  assert (H0 : at_ fuel 0 rf (rec (new_conn x meter z))).
  { left. exists []. split; try done; [split; [by exists l|left; by exists l]|]. exists fuel. split; [done|]. by exists rf. }
  destruct (acts_spec fuel sched _ 0 rf Hrf H0) as [Hxs Hat]. destruct (acts fuel sched _) as [c xs]. cbn [fst snd] in *.
  split; [done|]. by eapply at_writes.
Qed.

(** ** A well-behaved peer *)

(** A frame of the peer: masked with a key, as a client's is, or not. *)
Definition opening (op : Z) (fin_ rsv : bool) : Z :=
  Z.lor (Z.lor (if fin_ then FIN else 0) (if rsv then RSV1 else 0)) op.

Definition is_masked (key : option bytes) : bool := match key with Some _ => true | None => false end.
Definition peer_frame (op : Z) (fin_ rsv : bool) (key : option bytes) (payload : bytes) : bytes :=
  opening op fin_ rsv :: second_byte (is_masked key) (len_field (zlen payload)).1 ::
    (len_field (zlen payload)).2 ++ match key with Some k => k ++ mask_bytes k payload | None => payload end.
Definition wire_frame (op : Z) (fin_ rsv : bool) (key payload : bytes) : bytes := peer_frame op fin_ rsv (Some key) payload.

Record control_frame : Type := mkControl { c_ping : bool; c_key : bytes; c_payload : bytes }.
(** A frame of a message, and the control frames sent after it. *)
Record part : Type := mkPart { p_key : bytes; p_data : bytes; p_after : list control_frame }.
Record sent_message : Type := mkSent { s_text : bool; s_compressed : bool; s_first : part; s_rest : list part }.
Inductive turn : Type := TControl (f : control_frame) | TMessage (m : sent_message).

Definition wire_control (f : control_frame) : bytes :=
  wire_frame (if c_ping f then PING else PONG) true false (c_key f) (c_payload f).
Definition wire_controls (l : list control_frame) : bytes := mjoin (wire_control <$> l).

Fixpoint wire_parts (op : Z) (rsv : bool) (p : part) (rest : list part) : bytes :=
  match rest with
  | [] => wire_frame op true rsv (p_key p) (p_data p) ++ wire_controls (p_after p)
  | q :: rest => wire_frame op false rsv (p_key p) (p_data p) ++ wire_controls (p_after p) ++ wire_parts CONTINUATION false q rest
  end.

Definition wire_turn (x : turn) : bytes :=
  match x with
  | TControl f => wire_control f
  | TMessage m => wire_parts (if s_text m then TEXT else BINARY) (s_compressed m) (s_first m) (s_rest m)
  end.
Definition wire_turns (l : list turn) : bytes := mjoin (wire_turn <$> l).

(** The control frames of a turn, the payload of its message. *)
Definition turn_controls (x : turn) : list control_frame :=
  match x with TControl f => [f] | TMessage m => p_after (s_first m) ++ (s_rest m ≫= p_after) end.
Definition turns_controls (l : list turn) : list control_frame := l ≫= turn_controls.
Definition body (m : sent_message) : bytes := p_data (s_first m) ++ (s_rest m ≫= p_data).

(** The frame that answers, unmasked. *)
Definition reply (op : Z) (payload : bytes) : bytes :=
  match encode_frame [] payload op false false with Ok f => f | Raise _ => [] end.
Definition pongs (l : list control_frame) : list bytes :=
  l ≫= fun f => if c_ping f then [reply PONG (c_payload f)] else [].

(** What a message is to the application: inflated within the bound, decoded. *)
Definition understand (op : Z) (payload : bytes) (compressed : bool) (z : option InboundDecompressor)
    : option (message * option InboundDecompressor) :=
  let m := _max_message_size cfg in
  let inflated :=
    if compressed then
      match z with
      | Some z => match decompress payload (if m =? 0 then None else Some m) z with (Ok out, z) => Some (out, Some z) | _ => None end
      | None => None
      end
    else if (m =? 0) || (zlen payload <=? m) then Some (payload, z) else None in
  match inflated with
  | Some (out, z) =>
      if op =? TEXT then match utf8_decode out with Ok s => Some (Text s, z) | Raise _ => None end else Some (Binary out, z)
  | None => None
  end.

Fixpoint conversation (l : list turn) (z : option InboundDecompressor) : option (list message) :=
  match l with
  | [] => Some []
  | TControl _ :: l => conversation l z
  | TMessage m :: l =>
      match understand (if s_text m then TEXT else BINARY) (body m) (s_compressed m) z with
      | Some (x, z) => cons x <$> conversation l z
      | None => None
      end
  end.

Definition key_ok (k : bytes) : Prop := bytes_ok k /\ length k = 4%nat.
Definition mask_ok (key : option bytes) : Prop := match key with Some k => key_ok k | None => True end.
Definition control_ok (f : control_frame) : Prop := key_ok (c_key f) /\ bytes_ok (c_payload f) /\ zlen (c_payload f) <= 125.
Definition part_ok (p : part) : Prop :=
  key_ok (p_key p) /\ bytes_ok (p_data p) /\ zlen (p_data p) <= _max_frame_payload cfg /\ zlen (p_data p) < 2 ^ 64 /\
  Forall control_ok (p_after p).
Definition turn_ok (deflate : bool) (x : turn) : Prop :=
  match x with
  | TControl f => control_ok f
  | TMessage m => Forall part_ok (s_first m :: s_rest m) /\ within (body m) /\ (s_compressed m = true -> deflate = true)
  end.

Lemma opening_fields op fin_ rsv b1 :
  0 <= op < 16 -> header_of (opening op fin_ rsv) b1 =
    mkHeader op (truthy (Z.land b1 MASK_BIT)) (Z.land b1 LENGTH_MASK) fin_ rsv false false.
Proof.
  intros Hop.
  set (P := fun op => (Z.land (opening op fin_ rsv) OPCODE_MASK =? op) && Bool.eqb (truthy (Z.land (opening op fin_ rsv) FIN)) fin_ &&
    Bool.eqb (truthy (Z.land (opening op fin_ rsv) RSV1)) rsv &&
    negb (truthy (Z.land (opening op fin_ rsv) RSV2)) && negb (truthy (Z.land (opening op fin_ rsv) RSV3))).
  assert (HP : P op = true) by (apply (range_forall 16); [by destruct fin_, rsv; vm_compute|done]).
  unfold P in HP. rewrite !andb_true_iff in HP. destruct HP as ((((H1 & H2) & H3) & H4) & H5).
  apply Z.eqb_eq in H1. apply eqb_prop in H2, H3. apply negb_true_iff in H4, H5. unfold header_of. by rewrite H1, H2, H3, H4, H5.
Qed.

(** Reading a frame of the peer. *)
Lemma read_wire (x : R) op fin_ rsv key p rest :
  delivers x (peer_frame op fin_ rsv key p ++ rest) -> 0 <= op < 16 -> mask_ok key -> bytes_ok p ->
  zlen p < 2 ^ 64 -> zlen p <= _max_frame_payload cfg ->
  exists x1 x2, let h := mkHeader op (is_masked key) (len_field (zlen p)).1 fin_ rsv false false in
    read_frame_header x = Ok (h, x1) /\
    read_payload x1 (is_masked key) (length_ h) (Some (_max_frame_payload cfg)) = Ok (p, x2) /\ delivers x2 rest.
Proof.
  intros Hd Hop Hkey Hp H64 Hmax. cbn zeta. pose proof (zlen_nonneg p) as H0. unfold peer_frame in Hd. rewrite <- !app_comm_cons in Hd.
  destruct (readexactly_app x [opening op fin_ rsv; second_byte (is_masked key) (len_field (zlen p)).1] _ 2 Hd) as (x1 & Hx1 & Hd1); [done|].
  rewrite <- app_assoc in Hd1. destruct (read_extended_length x1 (zlen p) _ (conj H0 H64) Hd1) as (xb & Hdb & Hpl).
  assert (Hhead : read_frame_header x = Ok (mkHeader op (is_masked key) (len_field (zlen p)).1 fin_ rsv false false, x1)).
  { unfold read_frame_header. rewrite Hx1. cbn [rbind]. cbv [zget]. simpl. rewrite opening_fields by done.
    destruct (second_byte_fields (is_masked key) (len_field (zlen p)).1 (len_field_range _ H0)) as (_ & Hm & Hl7). by rewrite Hm, Hl7. }
  destruct key as [key|]; cbn [is_masked] in *.
  - destruct Hkey as [Hk H4]. rewrite <- app_assoc in Hdb. destruct (readexactly_app xb key _ 4 Hdb) as (xc & Hxc & Hdc); [by unfold zlen; rewrite H4|].
    destruct (readexactly_app xc _ _ (zlen p) Hdc) as (xd & Hxd & Hdd); [by unfold zlen; rewrite length_mask_bytes|].
    exists x1, xd. split_and!; [done| |done]. cbn [length_]. rewrite Hpl.
    rewrite Z.gtb_ltb, (proj2 (Z.ltb_ge _ _)) by done. cbn [rbind negb]. rewrite Hxc. cbn [rbind]. rewrite Hxd. cbn [rbind].
    destruct (Z.eqb_spec (zlen p) 0) as [Hz|Hz].
    + by destruct p; [|rewrite zlen_cons in Hz; pose proof (zlen_nonneg p); lia].
    + assert (Hlen : zlen (mask_bytes key p) = zlen p) by (unfold zlen; by rewrite length_mask_bytes).
      rewrite <- Hlen, unmask_bigint by (auto using mask_bytes_ok). cbn [rbind]. by rewrite mask_bytes_involutive.
  - destruct (readexactly_app xb p _ (zlen p) Hdb) as (xd & Hxd & Hdd); [done|]. exists x1, xd. split_and!; [done| |done]. cbn [length_]. rewrite Hpl.
    rewrite Z.gtb_ltb, (proj2 (Z.ltb_ge _ _)) by done. cbn [rbind negb]. by rewrite Hxd.
Qed.

(** The server's side of a connection, with a writer that works. *)
Section Session.
Context (Hserver : _require_masked cfg = true) (Hwrites : forall n, write_fails n = false) (Hcap : 125 <= _max_frame_payload cfg).

(** The read side between two frames. *)
Record ready (l : bytes) (a : FragmentAssembler) (z : option InboundDecompressor) (n : Z) (ws : list bytes) (its : list item) (r : t)
    : Prop := mkReady {
  y_delivers : delivers (_reader r) l;
  y_assembler : _assembler r = a;
  y_decompressor : _decompressor r = z;
  y_room : RateWindow.room n (_control_meter r);
  y_writes : _writes r = (fun f => (f, true)) <$> ws;
  y_pending : _pending r = its;
  y_finished : _read_finished r = false
}.

Lemma frame_of_reply (r : t) p op : 0 <= op < 16 -> zlen p < 2 ^ 64 -> frame_of p op false r = (Ok (reply op p), r).
Proof. intros Hop Hp. unfold frame_of, reply. by rewrite !encode_frame_layout. Qed.

Lemma write_ok f (r : t) : write f r = (Ok tt, set_writes (_writes r ++ [(f, true)]) r).
Proof. unfold write. by rewrite Hwrites. Qed.

(** The header and the payload of a frame of the peer are read, and its checks
    pass. *)
Lemma header_passes op fin_ rsv key p l a z n ws its r :
  ready (peer_frame op fin_ rsv key p ++ l) a z n ws its r -> 0 <= op < 16 -> mask_ok key -> _require_masked cfg && negb (is_masked key) = false ->
  bytes_ok p -> zlen p < 2 ^ 64 -> zlen p <= _max_frame_payload cfg ->
  (if control op then fin_ = true /\ rsv = false /\ zlen p <= 125 /\ 1 <= n else rsv = true -> z <> None) ->
  exists r', ready l a z (if control op then n - 1 else n) ws its r' /\
    _read_step r = (if bool_decide (op ∈ [TEXT; BINARY; CONTINUATION]) then do! _handle_data_frame op p fin_ rsv in sret false
                    else if control op then _handle_control_frame op p else do! _handle_unknown_opcode in sret true) r'.
Proof.
  intros [] Hop Hk Hmask Hp H64 Hmax Hc.
  destruct (read_wire (_reader r) op fin_ rsv key p l y_delivers0 Hop Hk Hp H64 Hmax) as (x1 & x2 & Hh & Hpl & Hx2). cbn zeta in *.
  set (h := mkHeader op (is_masked key) (len_field (zlen p)).1 fin_ rsv false false) in *.
  assert (Hcheck : exists w k, check_control h (set_reader x1 r) = (Ok tt, set_meter w k (set_reader x1 r)) /\
    RateWindow.room (if control op then n - 1 else n) w).
  { unfold check_control. cbn [opcode h]. destruct (control op).
    - destruct Hc as (-> & _ & H125 & Hn). cbn [negb fin length_]. pose proof (zlen_nonneg p).
      unfold h, len_field. cbn [fin length_ negb]. rewrite (proj2 (Z.ltb_lt (zlen p) 126)) by lia. cbn [fst].
      rewrite Z.gtb_ltb, (proj2 (Z.ltb_ge _ _)) by done. unfold sbind, meter_hit. cbn [_control_meter set_reader _readings].
      destruct (RateWindow.room_hit (n - 1) (_control_meter r) (monotonic (_readings r))) as [Ho Hr]; [by replace (n - 1 + 1) with n by lia|lia|].
      destruct (RateWindow.hit _ _ _) as [o w]. cbn in Ho, Hr. subst o. eexists _, _. by split.
    - exists (_control_meter r), (_readings r). split; [|done]. by destruct r. }
  destruct Hcheck as (w & k & Hcheck & Hw). exists (set_reader x2 (set_meter w k (set_reader x1 r))). split; [by split|].
  unfold _read_step, header_step, sbind, reading. rewrite Hh, Hcheck. unfold check_reserved. cbn [rsv2 rsv3 rsv1 h orb].
  replace (rsv && _) with false.
  2: { cbn. rewrite y_decompressor0. destruct (control op); [destruct Hc as (_ & -> & _); done|]. destruct rsv; [|done].
       destruct z; [done|]. by destruct Hc. }
  unfold payload_step, sbind, scatch, reading. cbn [masked length_ h]. cbn [length_ h] in Hpl. unfold sret at 1. cbv beta iota.
  cbn [length_ masked h set_meter set_reader _reader]. rewrite Hpl. cbv beta iota. cbn [opcode fin rsv1 h]. by rewrite Hmask.
Qed.

(** [r'] is reached from [r] by steps that do not end the read side. *)
Definition leads (r r' : t) : Prop := exists k, forall f, _read_loop (k + f) r = _read_loop f r'.

Lemma leads_refl r : leads r r.
Proof. by exists 0%nat. Qed.

Lemma leads_trans r1 r2 r3 : leads r1 r2 -> leads r2 r3 -> leads r1 r3.
Proof. intros [k1 H1] [k2 H2]. exists (k1 + k2)%nat. intros f. by rewrite <- Nat.add_assoc, H1. Qed.

Lemma leads_step r r' : _read_finished r = false -> drive r = (Ok tt, r') -> leads r r'.
Proof. intros Hf Hd. exists 1%nat. intros f. cbn [_read_loop Nat.add]. rewrite Hf. unfold sbind. by rewrite Hd. Qed.

Lemma drive_goes_on r r' l a z n ws its :
  _read_step r = (Ok false, r') -> ready l a z n ws its r' -> exists r2, drive r = (Ok tt, r2) /\ ready l a z n ws its r2.
Proof.
  intros Hs []. exists (set_finished false r'). split; [|by split]. unfold drive, _drive_once, sbind, scatch. by rewrite Hs.
Qed.

Lemma control_step f l a z n ws its r :
  ready (wire_control f ++ l) a z (n + 1) ws its r -> control_ok f -> 0 <= n ->
  exists r', leads r r' /\ ready l a z n (ws ++ pongs [f]) its r'.
Proof.
  intros Hr (Hk & Hp & H125) Hn. set (op := if c_ping f then PING else PONG).
  assert (Hc : control op = true) by by unfold op; destruct (c_ping f).
  assert (Hop : 0 <= op < 16) by (unfold op, PING, PONG; destruct (c_ping f); lia).
  assert (Hnd : bool_decide (op ∈ [TEXT; BINARY; CONTINUATION]) = false) by by unfold op; destruct (c_ping f).
  destruct (header_passes op true false (Some (c_key f)) (c_payload f) l a z (n + 1) ws its r Hr Hop Hk (andb_false_r _) Hp) as (r1 & H1 & Hstep);
    [lia|lia|rewrite Hc; split_and!; (done || lia)|]. rewrite Hc, Hnd in *.
  assert (Hctl : exists r2, _handle_control_frame op (c_payload f) r1 = (Ok false, r2) /\ ready l a z n (ws ++ pongs [f]) its r2).
  { destruct H1. replace (n + 1 - 1) with n in * by lia. unfold _handle_control_frame, pongs, op. rewrite Hserver. cbn [mbind list_bind app negb].
    destruct (c_ping f); cbn [Z.eqb PING PONG CLOSE Pos.eqb].
    - eexists. split.
      + unfold sbind at 1. rewrite frame_of_reply by (unfold PONG; lia). unfold sbind. by rewrite write_ok.
      + split; try done. cbn. rewrite y_writes0, fmap_app. done.
    - exists r1. split; [done|]. split; try done. by rewrite app_nil_r. }
  destruct Hctl as (r2 & Hctl & H2). rewrite Hctl in Hstep. destruct (drive_goes_on _ _ _ _ _ _ _ _ Hstep H2) as (r3 & Hd & H3).
  exists r3. split; [|done]. apply leads_step; [by destruct Hr|done].
Qed.

(** What the assembler makes of a frame, handed over. *)
Definition handed (res : option (Z * bytes * bool)) (z : option InboundDecompressor) (its : list item)
    (z' : option InboundDecompressor) (its' : list item) : Prop :=
  match res with
  | None => z' = z /\ its' = its
  | Some (op, full, c) => exists m, understand op full c z = Some (m, z') /\ its' = its ++ [Msg m]
  end.

Lemma understand_run op full c z m z' l a n ws its r :
  ready l a z n ws its r -> understand op full c z = Some (m, z') ->
  exists r', (let! out := if c : bool then inflated full else sized full in let! m := decoded op out in _emit (Msg m)) r = (Ok tt, r') /\
    ready l a z' n ws (its ++ [Msg m]) r'.
Proof.
  intros [] Hu. unfold understand in Hu.
  assert (Hout : exists out z1, (if c then inflated full else sized full) r = (Ok out, match z1 with Some z1 => if c then set_decompressor z1 r else r | None => r end) /\
    (if op =? TEXT then match utf8_decode out with Ok s => Some (Text s, z1) | Raise _ => None end else Some (Binary out, z1)) = Some (m, z')
    /\ (if c then z1 <> None else z1 = z)).
  { destruct c.
    - unfold inflated. rewrite y_decompressor0. destruct z as [z|]; [|done]. destruct (decompress full _ z) as [[out|e] z1]; [|done].
      by exists out, (Some z1).
    - destruct (Z.eqb_spec (_max_message_size cfg) 0) as [Hz|Hz]; cbn [orb] in Hu.
      + exists full, z. unfold sized. rewrite Hz. split_and!; [by destruct z|done..].
      + destruct (Z.leb_spec (zlen full) (_max_message_size cfg)); [|done]. exists full, z. unfold sized.
        rewrite (proj2 (Z.eqb_neq _ _)) by done. rewrite Z.gtb_ltb, (proj2 (Z.ltb_ge _ _)) by done. split_and!; [by destruct z|done..]. }
  destruct Hout as (out & z1 & Hrun & Hdec & Hz1). unfold sbind. rewrite Hrun.
  set (r1 := match z1 with Some z1 => if c then set_decompressor z1 r else r | None => r end).
  assert (H1 : ready l a z1 n ws its r1).
  { unfold r1. destruct z1, c; try done; split; try done; subst; done. }
  destruct H1. unfold decoded. destruct (op =? TEXT).
  - destruct (utf8_decode out); [|done]. injection Hdec as <- <-. eexists. split; [done|]. split; try done. cbn. by rewrite y_pending1.
  - injection Hdec as <- <-. eexists. split; [done|]. split; try done. cbn. by rewrite y_pending1.
Qed.

Lemma data_step op fin_ rsv key p l a a' res z z' n ws its its' r :
  ready (peer_frame op fin_ rsv key p ++ l) a z n ws its r -> op ∈ [TEXT; BINARY; CONTINUATION] ->
  mask_ok key -> _require_masked cfg && negb (is_masked key) = false -> bytes_ok p -> zlen p < 2 ^ 64 -> zlen p <= _max_frame_payload cfg -> (rsv = true -> z <> None) ->
  feed op p fin_ rsv a = (Ok res, a') -> handed res z its z' its' -> exists r', leads r r' /\ ready l a' z' n ws its' r'.
Proof.
  intros Hr Hop Hk Hmask Hp H64 Hmax Hz Hfeed Hh.
  assert (Hc : control op = false) by (unfold control; rewrite !elem_of_cons, elem_of_nil in Hop; naive_solver).
  assert (H16 : 0 <= op < 16) by (rewrite !elem_of_cons, elem_of_nil in Hop; unfold TEXT, BINARY, CONTINUATION in Hop; naive_solver lia).
  destruct (header_passes op fin_ rsv key p l a z n ws its r Hr H16 Hk Hmask Hp H64 Hmax) as (r1 & H1 & Hstep); [by rewrite Hc|].
  rewrite Hc, (bool_decide_true _ Hop) in *.
  assert (Hdata : exists r2, _handle_data_frame op p fin_ rsv r1 = (Ok tt, r2) /\ ready l a' z' n ws its' r2).
  { set (r2 := set_assembler a' r1).
    assert (H2 : ready l a' z n ws its r2) by (destruct H1; by split).
    assert (Ha : assemble op p fin_ rsv r1 = (Ok res, r2)).
    { unfold assemble. destruct H1. by rewrite y_assembler0, Hfeed. }
    unfold _handle_data_frame. unfold sbind at 1, scatch. rewrite Ha. destruct res as [[[op' full] c]|].
    - destruct Hh as (m & Hu & ->). by apply (understand_run op' full c z m z' l a' n ws its r2).
    - destruct Hh as [-> ->]. by exists r2. }
  destruct Hdata as (r2 & Hdata & H2).
  assert (Hstep2 : _read_step r = (Ok false, r2)) by (rewrite Hstep; unfold sbind; by rewrite Hdata).
  destruct (drive_goes_on r r2 l a' z' n ws its' Hstep2 H2) as (r3 & Hd & H3).
  exists r3. split; [|done]. apply leads_step; [by destruct Hr|done].
Qed.

Lemma pongs_app l1 l2 : pongs (l1 ++ l2) = pongs l1 ++ pongs l2.
Proof. unfold pongs. by rewrite bind_app. Qed.

Lemma controls_steps fs l a z n ws its r :
  ready (wire_controls fs ++ l) a z (n + zlen fs) ws its r -> Forall control_ok fs -> 0 <= n ->
  exists r', leads r r' /\ ready l a z n (ws ++ pongs fs) its r'.
Proof.
  revert ws r. induction fs as [|f fs IH]; intros ws r Hr Hf Hn.
  - exists r. split; [apply leads_refl|]. change (zlen (@nil control_frame)) with 0 in Hr. rewrite Z.add_0_r in Hr.
    unfold pongs. cbn. by rewrite app_nil_r.
  - apply Forall_cons in Hf as [Hf Hfs]. rewrite zlen_cons in Hr. pose proof (zlen_nonneg fs).
    unfold wire_controls in Hr. rewrite fmap_cons in Hr. change (mjoin (?x :: ?y)) with (x ++ mjoin y) in Hr.
    rewrite <- app_assoc in Hr. replace (n + (1 + zlen fs)) with (n + zlen fs + 1) in Hr by lia.
    destruct (control_step f _ a z (n + zlen fs) ws its r Hr Hf) as (r1 & Hl1 & H1); [lia|].
    destruct (IH _ r1 H1 Hfs Hn) as (r2 & Hl2 & H2). exists r2. split; [by eapply leads_trans|].
    change (f :: fs) with ([f] ++ fs). by rewrite pongs_app, app_assoc.
Qed.

(** The frame belongs to the message [mop], of which [buf] has come. *)
Definition enters (op : Z) (rsv : bool) (a : FragmentAssembler) (mop : Z) (buf : bytes) (c : bool) : Prop :=
  let M := _max_message_size cfg in
  (op ∈ [TEXT; BINARY] /\ a = new_assembler M /\ mop = op /\ buf = [] /\ c = rsv) \/
  (op = CONTINUATION /\ rsv = false /\ a = mkAssembler M (Some mop) buf c).

Lemma enters_feed op rsv a mop buf c p fin_ :
  enters op rsv a mop buf c -> within (buf ++ p) ->
  let M := _max_message_size cfg in
  feed op p fin_ rsv a =
    if fin_ : bool then (Ok (Some (mop, buf ++ p, c)), new_assembler M) else (Ok None, mkAssembler M (Some mop) (buf ++ p) c).
Proof.
  intros He Hw. cbn zeta.
  assert (Hb : negb (_max_message_size cfg =? 0) && (zlen buf + zlen p >? _max_message_size cfg) = false).
  { unfold within in Hw. rewrite zlen_app in Hw. destruct (Z.eqb_spec (_max_message_size cfg) 0); [done|]. cbn [negb andb].
    destruct Hw as [?|?]; [done|]. rewrite Z.gtb_ltb. by apply Z.ltb_ge. }
  unfold feed. destruct He as [(Hop & -> & -> & -> & ->)|(-> & -> & ->)].
  - assert (Hn : (op =? CONTINUATION) = false) by (rewrite !elem_of_cons, elem_of_nil in Hop; naive_solver).
    rewrite Hn. cbn [in_progress _opcode new_assembler _max_total]. change (zlen (@nil Z)) with 0 in Hb. rewrite Z.add_0_l in Hb.
    destruct fin_; [done|]. by rewrite Hb.
  - cbn [Z.eqb CONTINUATION _opcode _buf _max_total _compressed]. rewrite Hb. by destruct fin_.
Qed.

Lemma within_prefix p q : within (p ++ q) -> within p.
Proof. unfold within. rewrite zlen_app. pose proof (zlen_nonneg q). intros [?|?]; [by left|right; lia]. Qed.

Lemma parts_steps rest p op rsv a mop buf c m z z' l n ws its r :
  enters op rsv a mop buf c -> Forall part_ok (p :: rest) -> within (buf ++ p_data p ++ (rest ≫= p_data)) ->
  understand mop (buf ++ p_data p ++ (rest ≫= p_data)) c z = Some (m, z') -> (rsv = true -> z <> None) -> 0 <= n ->
  ready (wire_parts op rsv p rest ++ l) a z (n + zlen (p_after p ++ (rest ≫= p_after))) ws its r ->
  exists r', leads r r' /\
    ready l (new_assembler (_max_message_size cfg)) z' n (ws ++ pongs (p_after p ++ (rest ≫= p_after))) (its ++ [Msg m]) r'.
Proof.
  revert p op rsv a buf its ws r. induction rest as [|q rest IH]; intros p op rsv a buf its ws r He Hok Hw Hu Hz Hn Hr;
    apply Forall_cons in Hok as [(Hk & Hd & Hmax & H64 & Hc) Hrest]; cbn [wire_parts] in Hr; rewrite <- !app_assoc in Hr;
    (assert (Hop : op ∈ [TEXT; BINARY; CONTINUATION]) by (destruct He as [[Hop _]|[-> _]]; set_solver)).
  - cbn [mbind list_bind] in *. rewrite !app_nil_r in *.
    destruct (data_step op true rsv (Some (p_key p)) (p_data p) _ a (new_assembler (_max_message_size cfg)) (Some (mop, buf ++ p_data p, c)) z z'
      _ ws its (its ++ [Msg m]) r Hr Hop Hk (andb_false_r _) Hd H64 Hmax Hz) as (r1 & Hl1 & H1);
      [by apply (enters_feed op rsv a mop buf c (p_data p) true)|by exists m|].
    destruct (controls_steps (p_after p) _ _ _ n _ _ r1 H1 Hc Hn) as (r2 & Hl2 & H2). exists r2. split; [by eapply leads_trans|done].
  - rewrite !bind_cons in *. set (cs := p_after q ++ (rest ≫= p_after)) in *.
    set (a1 := mkAssembler (_max_message_size cfg) (Some mop) (buf ++ p_data p) c).
    assert (Hw1 : within (buf ++ p_data p)) by (rewrite app_assoc in Hw; by apply within_prefix in Hw).
    destruct (data_step op false rsv (Some (p_key p)) (p_data p) _ a a1 None z z _ ws its its r Hr Hop Hk (andb_false_r _) Hd H64 Hmax Hz) as (r1 & Hl1 & H1);
      [by apply (enters_feed op rsv a mop buf c (p_data p) false)|done|].
    rewrite zlen_app in H1. replace (n + (zlen (p_after p) + zlen cs)) with ((n + zlen cs) + zlen (p_after p)) in H1 by lia.
    pose proof (zlen_nonneg cs).
    destruct (controls_steps (p_after p) _ _ _ _ _ _ r1 H1 Hc) as (r2 & Hl2 & H2); [lia|].
    rewrite (app_assoc buf) in Hw, Hu.
    destruct (IH q CONTINUATION false a1 (buf ++ p_data p) its (ws ++ pongs (p_after p)) r2) as (r3 & Hl3 & H3); try done; [by right|].
    exists r3. split; [exact (leads_trans _ _ _ Hl1 (leads_trans _ _ _ Hl2 Hl3))|].
    rewrite pongs_app, app_assoc. exact H3.
Qed.

Lemma turns_steps turns z ms l n ws its r :
  conversation turns z = Some ms -> Forall (turn_ok (match z with Some _ => true | None => false end)) turns -> 0 <= n ->
  ready (wire_turns turns ++ l) (new_assembler (_max_message_size cfg)) z (n + zlen (turns_controls turns)) ws its r ->
  exists r' z', leads r r' /\
    ready l (new_assembler (_max_message_size cfg)) z' n (ws ++ pongs (turns_controls turns)) (its ++ (Msg <$> ms)) r'.
Proof.
  revert z ms ws its r. induction turns as [|x turns IH]; intros z ms ws its r Hc Hok Hn Hr.
  - injection Hc as <-. exists r, z. split; [apply leads_refl|]. unfold turns_controls, pongs in *. cbn in *.
    change (zlen (@nil control_frame)) with 0 in Hr. rewrite Z.add_0_r in Hr. by rewrite !app_nil_r.
  - apply Forall_cons in Hok as [Hx Hok]. unfold wire_turns in Hr. rewrite fmap_cons in Hr.
    change (mjoin (?x :: ?y)) with (x ++ mjoin y) in Hr. rewrite <- app_assoc in Hr.
    unfold turns_controls in *. rewrite bind_cons, zlen_app in Hr. rewrite bind_cons, pongs_app. fold (turns_controls turns) in *.
    pose proof (zlen_nonneg (turns_controls turns)).
    replace (n + (zlen (turn_controls x) + zlen (turns_controls turns))) with ((n + zlen (turns_controls turns)) + zlen (turn_controls x)) in Hr by lia.
    destruct x as [f|m]; cbn [conversation wire_turn turn_controls] in *.
    + destruct (control_step f _ _ z (n + zlen (turns_controls turns)) ws its r Hr Hx) as (r1 & Hl1 & H1); [lia|].
      destruct (IH z ms _ _ r1 Hc Hok Hn H1) as (r2 & z2 & Hl2 & H2). exists r2, z2. split; [by eapply leads_trans|].
      by rewrite app_assoc.
    + destruct Hx as (Hp & Hw & Hz). destruct (understand _ _ _ z) as [[y z1]|] eqn:Hu; [|done].
      destruct (conversation turns z1) as [ms1|] eqn:Hc1; [|done]. injection Hc as <-.
      set (op := if s_text m then TEXT else BINARY) in *.
      assert (He : enters op (s_compressed m) (new_assembler (_max_message_size cfg)) op [] (s_compressed m)).
      { left. split_and!; try done. unfold op. destruct (s_text m); set_solver. }
      destruct (parts_steps (s_rest m) (s_first m) op (s_compressed m) _ op [] (s_compressed m) y z z1
        (mjoin (wire_turn <$> turns) ++ l) (n + zlen (turns_controls turns)) ws its r He Hp) as (r1 & Hl1 & H1); try done.
      * intros Hs. specialize (Hz Hs). by destruct z.
      * lia.
      * assert (Hz1 : match z with Some _ => true | None => false end = match z1 with Some _ => true | None => false end).
        { unfold understand in Hu. repeat case_match; simplify_eq; done. }
        rewrite Hz1 in Hok. destruct (IH z1 ms1 _ _ r1 Hc1 Hok Hn H1) as (r2 & z2 & Hl2 & H2). exists r2, z2.
        split; [by eapply leads_trans|]. rewrite fmap_cons, app_assoc. rewrite <- (app_assoc its) in H2. exact H2.
Qed.

Lemma loop_more f k r r' : _read_loop f r = (Ok tt, r') -> _read_loop (f + k) r = (Ok tt, r').
Proof.
  revert r. induction f as [|f IH]; intros r; cbn [_read_loop Nat.add].
  - destruct (_read_finished r) eqn:E; [|done]. intros [= <-]. destruct k; cbn [_read_loop]; by rewrite E.
  - destruct (_read_finished r); [done|]. unfold sbind. destruct (drive r) as [[[]|e] r1]; [apply IH|done].
Qed.

Lemma loop_same f1 f2 r r1 r2 : _read_loop f1 r = (Ok tt, r1) -> _read_loop f2 r = (Ok tt, r2) -> r1 = r2.
Proof. intros H1%(loop_more _ f2) H2%(loop_more _ f1). rewrite Nat.add_comm in H2. congruence. Qed.

(** The CLOSE of the peer is answered and ends the read side. *)
Lemma close_step key p code l z ws its r :
  ready (wire_frame CLOSE true false key p ++ l) (new_assembler (_max_message_size cfg)) z 1 ws its r ->
  key_ok key -> bytes_ok p -> zlen p <= 125 -> _parse_close_payload p = (code, true) ->
  exists r', drive r = (Ok tt, r') /\ _read_finished r' = true /\ _pending r' = its ++ [WS_CLOSED] /\
    _writes r' = (fun f => (f, true)) <$> (ws ++ [reply CLOSE (be_bytes 2 code)]) /\ _terminal_code r' = Some code.
Proof.
  intros Hr Hk Hp H125 Hcode. pose proof (close_payload_code p) as Hv. rewrite Hcode in Hv.
  destruct (header_passes CLOSE true false (Some key) p l _ z 1 ws its r Hr) as (r1 & H1 & Hstep); try done; try apply andb_false_r; try lia.
  change (bool_decide (CLOSE ∈ [TEXT; BINARY; CONTINUATION])) with false in Hstep. change (control CLOSE) with true in *. cbn iota in *.
  destruct (close_frame_ok code false r1 Hv) as (f & q & Hf & Hq & Hw). apply to_bytes_inv in Hq as Hq'.
  destruct Hq' as [-> _].
  assert (Hrep : reply CLOSE (be_bytes 2 code) = f).
  { unfold close_frame, sbind, slift in Hf. rewrite Hq in Hf.
    rewrite frame_of_reply in Hf; [by injection Hf|unfold CLOSE; lia|rewrite zlen_be_bytes; lia]. }
  set (r2 := set_pending (its ++ [WS_CLOSED]) (set_terminal (Some code) (set_writes (_writes r1 ++ [(f, true)]) r1))).
  assert (Hrun : _read_step r = (Ok true, r2)).
  { rewrite Hstep. unfold _handle_control_frame. cbn [Z.eqb CLOSE Pos.eqb]. rewrite Hcode, Hserver. cbn [negb]. unfold sbind.
    rewrite Hf, best_effort_write, Hwrites. cbn. unfold r2. by rewrite (y_pending _ _ _ _ _ _ _ H1). }
  exists (set_finished true r2). split; [unfold drive, _drive_once, sbind, scatch; by rewrite Hrun|]. split_and!; try done.
  cbn. rewrite (y_writes _ _ _ _ _ _ _ H1), fmap_app, Hrep. done.
Qed.


End Session.
(** Servicing never takes a data frame from the application. *)
Lemma service_stops_at_data fuel r : has_control_frames_buffered (_reader r) = false -> service_loop fuel r = (Ok tt, r).
Proof. intros Hb. destruct fuel; cbn [service_loop]; by rewrite Hb, orb_true_r. Qed.

End Recipient.

(** ** The liveness probe *)

Section Liveness.
Context (_ws_idle_timeout _ws_pong_timeout : Z).

Record liveness : Type := mkLiveness {
  _inbound_seq : Z;
  _seq_at_last_check : Z;
  _last_inbound_at : Z;
  _probe_sent_at : option Z
}.

Definition new_liveness : liveness := mkLiveness 0 0 0 None.

(** A header was read. *)
Definition inbound (v : liveness) : liveness :=
  mkLiveness (_inbound_seq v + 1) (_seq_at_last_check v) (_last_inbound_at v) None.

Inductive verdict : Type := Quiet | Probe | Unresponsive.

Definition _check_liveness (now : Z) (v : liveness) : liveness * verdict :=
  if _ws_idle_timeout <=? 0 then (v, Quiet)
  else if negb (_inbound_seq v =? _seq_at_last_check v) then
    (mkLiveness (_inbound_seq v) (_inbound_seq v) now (_probe_sent_at v), Quiet)
  else if _last_inbound_at v =? 0 then
    (mkLiveness (_inbound_seq v) (_seq_at_last_check v) now (_probe_sent_at v), Quiet)
  else
    match _probe_sent_at v with
    | Some at_ => (v, if now - at_ >=? _ws_pong_timeout then Unresponsive else Quiet)
    | None =>
        if now - _last_inbound_at v >=? _ws_idle_timeout then
          (mkLiveness (_inbound_seq v) (_seq_at_last_check v) (_last_inbound_at v) (Some now), Probe)
        else (v, Quiet)
    end.

(** Headers that are read, and ticks with the clock. *)
Inductive moment : Type := Header | At (now : Z).

Definition live (x : moment) (v : liveness) : liveness * verdict :=
  match x with Header => (inbound v, Quiet) | At now => _check_liveness now v end.

Fixpoint lives (l : list moment) (v : liveness) : liveness :=
  match l with [] => v | x :: l => lives l (live x v).1 end.

(** The tick that recorded [_last_inbound_at], the tick that sent the probe, and
    no header since either. *)
Definition silent (l : list moment) (v : liveness) : Prop :=
  (_inbound_seq v = _seq_at_last_check v -> _last_inbound_at v <> 0 ->
    exists l1 l2, l = l1 ++ At (_last_inbound_at v) :: l2 /\ (Header ∉ l2)) /\
  (forall p, _probe_sent_at v = Some p -> exists l1 l2 l3,
    l = l1 ++ At (_last_inbound_at v) :: l2 ++ At p :: l3 /\ (Header ∉ l2 ++ l3) /\ _ws_idle_timeout <= p - _last_inbound_at v /\
    _inbound_seq v = _seq_at_last_check v /\ _last_inbound_at v <> 0) /\
  _seq_at_last_check v <= _inbound_seq v.

Lemma silent_more l x v : silent l v -> x <> Header -> silent (l ++ [x]) v.
Proof.
  intros (H1 & H2 & H3) Hx. split_and!; [| |done].
  - intros He Hn. destruct (H1 He Hn) as (l1 & l2 & -> & Hh). exists l1, (l2 ++ [x]). split; [by rewrite <- app_assoc|set_solver].
  - intros p Hp. destruct (H2 p Hp) as (l1 & l2 & l3 & -> & Hh & Hi & He & Hn). exists l1, l2, (l3 ++ [x]). split_and!; [|set_solver|done..].
    rewrite <- !app_assoc. cbn. by rewrite <- app_assoc.
Qed.

Lemma silent_live l x v : silent l v -> silent (l ++ [x]) (live x v).1.
Proof.
  intros Hs. pose proof Hs as (H1 & H2 & H3). destruct x as [|now]; cbn [live].
  - split_and!; cbn; [lia|done|lia].
  - unfold _check_liveness. destruct (_ <=? 0); [by apply silent_more|].
    destruct (Z.eqb_spec (_inbound_seq v) (_seq_at_last_check v)) as [He|Hne]; cbn [negb].
    + destruct (Z.eqb_spec (_last_inbound_at v) 0) as [Hz|Hnz].
      * split_and!; cbn; [|intros p Hp; destruct (H2 p Hp) as (? & ? & ? & _ & _ & _ & _ & ?); done|done].
        intros _ _. exists l, []. split; [done|set_solver].
      * destruct (_probe_sent_at v) as [p|] eqn:Ep; [by apply silent_more|].
        destruct (Z.geb_spec (now - _last_inbound_at v) _ws_idle_timeout); [|by apply silent_more].
        destruct (H1 He Hnz) as (l1 & l2 & -> & Hh). split_and!; cbn; [|intros p [= <-]|done].
        -- intros _ _. exists l1, (l2 ++ [At now]). split; [by rewrite <- app_assoc|set_solver].
        -- exists l1, l2, []. split_and!; [by rewrite <- app_assoc|by rewrite app_nil_r|lia|done|done].
    + split_and!; cbn; [|intros p Hp; destruct (H2 p Hp) as (? & ? & ? & _ & _ & _ & ? & _); done|lia].
      intros _ _. exists l, []. split; [done|set_solver].
Qed.

(** A connection is given up only after the silence it is asked about: no header
    between the tick that saw the peer last and now, a probe at least the idle
    timeout after the first, and now at least the pong timeout after the probe. *)
Lemma unresponsive_justified l now :
  (_check_liveness now (lives l new_liveness)).2 = Unresponsive ->
  exists l1 a l2 p l3, l = l1 ++ At a :: l2 ++ At p :: l3 /\ (Header ∉ l2 ++ l3) /\
    _ws_idle_timeout <= p - a /\ _ws_pong_timeout <= now - p.
Proof.
  assert (Hs : forall l2 l1 v, silent l1 v -> silent (l1 ++ l2) (lives l2 v)).
  { clear l. induction l2 as [|x l2 IH]; intros l1 v Hv; [by rewrite app_nil_r|]. cbn [lives].
    change (x :: l2) with ([x] ++ l2). rewrite app_assoc. by apply IH, silent_live. }
  assert (H0 : silent [] new_liveness) by (split_and!; cbn; [done|done|lia]). specialize (Hs l [] new_liveness H0). cbn [app] in Hs.
  destruct Hs as (_ & H2 & _). set (v := lives l new_liveness) in *. unfold _check_liveness. destruct (_ <=? 0); [done|].
  destruct (negb _); [done|]. destruct (_ =? 0); [done|]. destruct (_probe_sent_at v) as [p|]; [|by destruct (_ >=? _)].
  destruct (Z.geb_spec (now - p) _ws_pong_timeout); [|done]. intros _.
  destruct (H2 p eq_refl) as (l1 & l2 & l3 & Hl & Hh & Hi & _). by exists l1, (_last_inbound_at v), l2, p, l3.
Qed.

End Liveness.
(** ** Samples *)

Module Sample.

(** An inflater that takes the tail off. *)
Definition inflate (data : bytes) (bound : option Z) (d : unit) : result (bytes * bytes) * unit :=
  (Ok (take (length data - 4) data, []), tt).
Definition decompressobj (wbits : Z) : unit := tt.
Definition monotonic (n : nat) : Z := Z.of_nat n.
Definition works (n : nat) : bool := false.
Definition urandom (n : nat) : bytes := [5; 6; 7; 8].
Definition server (depth : nat) : settings := mkSettings true 1000 100 depth.
Definition meter : RateWindow.t := RateWindow.__init__ 20 1.
Definition deflate : option (@InboundDecompressor unit) := Some (new_decompressor decompressobj 15 false).

Abbreviation loop cfg := (_read_loop decompressobj inflate monotonic works urandom cfg).
Abbreviation run cfg := (acts decompressobj inflate monotonic works urandom cfg 200).

Definition key : bytes := [1; 2; 3; 4].
Definition ping : control_frame := mkControl true key (lit "x").

(** A text message in two fragments with a PING between them, a compressed
    binary one, and a CLOSE. *)
Definition talk : list turn :=
  [TMessage (mkSent true false (mkPart key (lit "Hel") [ping]) [mkPart key (lit "lo") []]); TControl (mkControl false key []);
   TMessage (mkSent false true (mkPart key [7; 8; 9] []) [])].
Definition bye : bytes := [3; 232].
Definition stream : bytes := wire_turns talk ++ wire_frame WsCodec.CLOSE true false key bye ++ [].
Definition arriving : wire := mkWire (take 5 stream) (drop 5 stream).

Lemma stream_ok : bytes_ok stream.
Proof. apply (bool_decide_unpack _). vm_compute. exact I. Qed.

Lemma ws_any_peer_witness :
  exists r : @t wire unit, loop (server 0) 200 (__init__ (server 0) arriving meter deflate) = (Ok tt, r) /\ _read_finished r = true.
Proof.
  destruct (ws_any_peer decompressobj inflate monotonic works urandom (server 0) arriving stream meter deflate 200)
    as (r & Hr & Hf & _).
  - reflexivity.
  - exact stream_ok.
  - vm_compute. lia.
  - exists r. split; [exact Hr|exact Hf].
Defined.

(** Inline, with the PING answered by the watchdog, then by the reader task. *)
Definition schedule : list action :=
  [Recv false; Arrive 3; Tick; Recv false; Arrive 100; Tick; Recv true; Tick; ReadAhead; Recv true; Recv true; Recv true].

Lemma ws_schedule_witness :
  exists rf : @t wire unit, loop (server 0) 200 (__init__ (server 0) arriving meter deflate) = (Ok tt, rf) /\
    (run (server 0) schedule (new_conn (server 0) arriving meter deflate)).2 = answer rf <$> seq 0 6.
Proof.
  destruct (ws_schedule decompressobj inflate monotonic works urandom (server 0) arriving stream meter deflate 200 schedule)
    as (rf & Hr & H).
  - reflexivity.
  - exact stream_ok.
  - vm_compute. lia.
  - exists rf. split; [exact Hr|].
    destruct (acts _ _ _ _ _ _ _ schedule _) as [c xs] eqn:E. destruct H as [Hx _]. cbn [snd].
    assert (Hl : length xs = 6%nat).
    { change xs with (c, xs).2. rewrite <- E. vm_compute. reflexivity. }
    rewrite Hl in Hx. exact Hx.
Defined.


(** ** What the model shows *)

(** A CLOSE without a status is reported as 1000. *)
Lemma close_without_status : _parse_close_payload [] = (1000, true).
Proof. reflexivity. Qed.

(** The read side of a client, which must mask what it sends, answers a reserved
    opcode with an unmasked CLOSE, other errors with a masked one. *)
Definition client : settings := mkSettings false 1000 100 0.
Lemma unknown_opcode_unmasked :
  (loop client 9 (__init__ client ([0x83; 0] : bytes) meter (D := unit) None)).2.(_writes) = [([136; 2; 3; 234], true)] /\
  exists w, (loop client 9 (__init__ client ([0xB1; 0] : bytes) meter (D := unit) None)).2.(_writes) = [(136 :: 130 :: w, true)].
Proof. split; [vm_compute; reflexivity|]. eexists. vm_compute. reflexivity. Qed.

(** The write of a PONG fails: the peer is told 1011 if it can be, the
    application's code is 1006. *)
Definition first_fails (n : nat) : bool := (n =? 0)%nat.
Lemma failed_pong_code :
  let r := (_read_loop decompressobj inflate monotonic first_fails urandom (server 0) 9
    (__init__ (server 0) (wire_control ping) meter (D := unit) None)).2 in
  _pending r = [Exc OSError] /\ _terminal_code r = Some 1006 /\ last (_writes r) = Some ([136; 2; 3; 243], true).
Proof. vm_compute. done. Qed.

(** Giving up an unresponsive peer does not end the read side: what arrives after
    the CLOSE is read and answered, a PONG after the CLOSE. *)
Lemma given_up_read_on :
  let r0 := __init__ (server 0) (wire_control ping) meter (D := unit) None in
  let r1 := (_end_for_unresponsive_peer works urandom (server 0) r0).2 in
  let r2 := (drive decompressobj inflate monotonic works urandom (server 0) r1).2 in
  _read_finished r1 = false /\ _pending r1 = [WS_CLOSED] /\
  _writes r2 = [([136; 2; 3; 233], true); (138 :: 1 :: lit "x", true)].
Proof. vm_compute. done. Qed.

(** A peer whose message and PONG have arrived is given up while the handler is
    busy: the ticks see no header, and servicing stops at the message. *)
Lemma busy_handler_gives_up :
  let waiting := wire_parts WsCodec.TEXT false (mkPart key (lit "hi") [mkControl false key []]) [] in
  let r := __init__ (server 0) (mkWire waiting []) meter (D := unit) None in
  service_loop decompressobj inflate monotonic works urandom (server 0) 9 r = (Ok tt, r) /\
  (_check_liveness 300 30 331 (lives 300 30 [At 1; At 301] new_liveness)).2 = Unresponsive.
Proof. split; [apply service_stops_at_data|]; vm_compute; reflexivity. Qed.

End Sample.
End WsRecipient.
