(* ===== verification/Pipeline.v ===== *)
(** * Requests and responses between the middlewares (blackbull/connection.py, response.py)

    The request a handler is called with, the adapter that turns every shape a
    handler may send into [NativeResponse] objects, and what a sequence of
    events answers.  [Cache], [Compression], [Cors] and [StaticFiles] work on
    these. *)

From Stdlib Require Import ZArith Lia.
From stdpp Require Import base tactics numbers option strings sets list.
From S2P Require Import Prelude PyLib PyText PyBytes H2Frames HttpHeaders Http1Sender.
Import HttpHeaders Http1Sender.

Module Pipeline.

(** The fields of [Connection] that the middlewares read or write. *)
Record Connection : Type := mkConn {
  type_ : pystr;
  method : pystr;
  scheme : pystr;
  path : pystr;
  query_string : bytes;
  root_path : pystr;
  headers : HttpHeaders.t;
  client : option (pystr * Z);
  extensions : list pystr
}.

(** [wrap_native_send] without the [Response] classes: the event handed on.  A
    pathsend dictionary and what is not an event pass through. *)
Definition wrap_native_send (e : send_event) : send_event :=
  match e with
  | SendBytes body st hs => SendNative (mkNative st (Some hs) (Some body) false None false None)
  | ResponseStart st hs trailers => SendNative (mkNative st (Some hs) None false None trailers None)
  | ResponseBody body more => SendNative (mkNative 200 None (Some body) more None false None)
  | ResponseTrailers hs => SendNative (mkNative 200 None None false (Some hs) false None)
  | SendNative _ | ResponsePathsend _ | OtherEvent | NotAnEvent => e
  end.

(** ** What a sequence of events answers *)

(** The status and the fields sent last, the octets of the bodies, the files, and
    whether the body has ended. *)
Record answer : Type := mkAnswer {
  a_status : option Z;
  a_headers : list field;
  a_body : bytes;
  a_files : list file;
  a_ended : bool
}.

Definition no_answer : answer := mkAnswer None [] [] [] false.

Definition answer_file (f : file) (a : answer) : answer :=
  mkAnswer (a_status a) (a_headers a) (a_body a) (a_files a ++ [f]) true.

Definition answer_native (r : NativeResponse) (a : answer) : answer :=
  let a := match _header r with
           | Some hs => mkAnswer (Some (status r)) hs (a_body a) (a_files a) (a_ended a)
           | None => a
           end in
  match file_path r, _body r with
  | Some f, _ => answer_file f a
  | None, Some b => mkAnswer (a_status a) (a_headers a) (a_body a ++ b) (a_files a) (a_ended a || negb (more_body r))
  | None, None => a
  end.

Definition answer_event (e : send_event) (a : answer) : answer :=
  match wrap_native_send e with
  | SendNative r => answer_native r a
  | ResponsePathsend f => answer_file f a
  | _ => a
  end.

Definition answers (es : list send_event) : answer := foldl (fun a e => answer_event e a) no_answer es.

Lemma answers_snoc es e : answers (es ++ [e]) = answer_event e (answers es).
Proof. unfold answers. by rewrite foldl_app. Qed.

(** ** Looking fields up *)

(** The first value of a field name in lowercase. *)
Fixpoint first_value (name : bytes) (l : list field) : option bytes :=
  match l with
  | [] => None
  | (k, v) :: l => if bool_decide (lower k = name) then Some v else first_value name l
  end.

Lemma first_value_app name l1 l2 :
  first_value name (l1 ++ l2) = match first_value name l1 with Some v => Some v | None => first_value name l2 end.
Proof.
  induction l1 as [|[k v] l1 IH]; [done|]. cbn [first_value app]. by destruct (bool_decide _).
Qed.

Lemma first_value_named name l : is_lower name ->
  first_value name l = match named name l with (_, v) :: _ => Some v | [] => None end.
Proof.
  intros Hl. induction l as [|[k v] l IH]; [done|]. cbn [first_value]. unfold named in *. rewrite filter_cons. cbn [fst].
  rewrite Hl in *. destruct (decide (lower k = name)) as [E|E].
  - by rewrite bool_decide_true.
  - by rewrite bool_decide_false.
Qed.

(** A lookup in a well-formed container is the first of its fields. *)
Lemma get_first name d h : ok h -> is_lower name ->
  get name d h = default d (first_value name (_list h)).
Proof.
  intros Hok Hl. rewrite first_value_named by done. unfold get. pose proof (getlist_named h name Hok) as Hg.
  unfold getlist in Hg. destruct (probe name h) as [[|[k v] l]|]; rewrite <- Hg; done.
Qed.

End Pipeline.
