(* ===== verification/Cache.v ===== *)
(** * The response cache (blackbull/middleware/cache.py)

    [Cache]: the header helpers, the store with its buckets of variants, the
    lookup, and the capture that buffers a response on a miss.  The middleware
    runs for many requests at once on one store: a run is a list of happenings
    — a request arrives, a handler sends an event, a handler returns or raises —
    each at a reading of the clock.  [as_middleware] puts [wrap_native_send]
    before the capture. *)

From Stdlib Require Import ZArith Lia.
From stdpp Require Import base tactics numbers option strings sets list.
From S2P Require Import Prelude PyLib PyText PyBytes H2Frames HttpHeaders Http1Sender Pipeline.
Import HttpHeaders Http1Sender Pipeline.

Module Cache.

(** ** Header inspection *)

(** The pieces of the values of the fields of a name, between commas. *)
Definition pieces (name : bytes) (l : list field) : list bytes :=
  mjoin ((fun x => (fun p => lower (strip WHITESPACE p)) <$> split_on 44 x.2) <$> filter (fun x => lower x.1 = name) l).

Definition _request_headers (h : HttpHeaders.t) : dict bytes bytes :=
  foldl (fun out x => if dmem out (lower x.1) then out else dset out (lower x.1) x.2) [] (_list h).

Definition _request_has_no_store (headers : dict bytes bytes) : bool :=
  let cc := lower (default [] (dget headers (lit "cache-control"))) in
  bool_decide (lit "no-store" ∈ strip WHITESPACE <$> split_on 44 cc).

Definition _cache_control (headers : list field) : list bytes :=
  mjoin ((fun t => if bool_decide (t = []) then []
                   else t :: (let '(name, found, _) := partition_char 61 t in if found : bool then [name] else []))
         <$> pieces (lit "cache-control") headers).

(** The loop over the pieces: [s_max] and [max_age]. *)
Definition max_age_step (acc : option Z * option Z) (t : bytes) : option Z * option Z :=
  if startswith t (lit "s-maxage=") then
    match int_of_bytes (drop 9 t) with Ok n => (Some n, acc.2) | Raise _ => acc end
  else if startswith t (lit "max-age=") then
    match int_of_bytes (drop 8 t) with Ok n => (acc.1, Some n) | Raise _ => acc end
  else acc.

Definition _response_max_age (headers : list field) : option Z :=
  let '(s_max, max_age) := foldl max_age_step (None, None) (pieces (lit "cache-control") headers) in
  match s_max with Some n => Some n | None => max_age end.

(** [sorted] of a set of byte strings. *)
Fixpoint bytes_lt (a b : bytes) : bool :=
  match a, b with
  | [], _ :: _ => true
  | _, [] => false
  | x :: a, y :: b => if x <? y then true else if y <? x then false else bytes_lt a b
  end.

Fixpoint insert_sorted_field (f : bytes) (l : list bytes) : list bytes :=
  match l with
  | [] => [f]
  | g :: l' => if bool_decide (f = g) then l else if bytes_lt f g then f :: l else g :: insert_sorted_field f l'
  end.

Definition _response_vary (headers : list field) : option (list bytes) :=
  let ts := pieces (lit "vary") headers in
  if bool_decide (lit "*" ∈ ts) then None
  else Some (foldr insert_sorted_field [] (filter (fun t => t <> []) ts)).

Definition _vary_key (vary_fields : list bytes) (req_headers : dict bytes bytes) : list field :=
  (fun f => (f, default [] (dget req_headers f))) <$> vary_fields.

Definition _read_etag (headers : list field) : option bytes := first_value (lit "etag") headers.

Definition unweak (tag : bytes) : bytes := if startswith tag (lit "W/") then drop 2 tag else tag.

Definition _etag_matches (if_none_match etag : bytes) : bool :=
  let inm := strip WHITESPACE if_none_match in
  bool_decide (inm = lit "*")
  || bool_decide (unweak etag ∈ (fun c => unweak (strip WHITESPACE c)) <$> split_on 44 inm).

(** ** The store *)

Record _Entry : Type := mkEntry {
  e_status : Z;
  e_header : list field;
  e_body : bytes;
  e_etag : bytes;
  expires_at : Z
}.

Definition replay (e : _Entry) : NativeResponse :=
  mkNative (e_status e) (Some (e_header e)) (Some (e_body e)) false None false None.

Definition expired (now : Z) (e : _Entry) : bool := now >=? expires_at e.

Definition _MAX_VARIANTS_PER_KEY : Z := 16.

Record _Bucket : Type := mkBucket {
  vary_fields : list bytes;
  entries : dict (list field) _Entry
}.

(** [(method, path, query_string)] *)
Abbreviation base_key := (pystr * pystr * bytes)%type.
Abbreviation store := (dict base_key _Bucket).

Definition base_key_of (c : Connection) : base_key := (method c, path c, query_string c).

Record settings : Type := mkSettings {
  _max_age : Z;
  _max_entries : Z;
  _cacheable_methods : list pystr;
  _cacheable_statuses : list Z;
  _cache_authenticated : bool;
  _generate_etag : bool
}.

Definition _DEFAULT_CACHEABLE_STATUSES : list Z := [200; 203; 300; 301; 308; 404; 410; 414; 451].
Definition _DEFAULT_CACHEABLE_METHODS : list pystr := [lit "GET"; lit "HEAD"].
Definition default_settings : settings :=
  mkSettings 300 1024 _DEFAULT_CACHEABLE_METHODS _DEFAULT_CACHEABLE_STATUSES false true.

(** [Cache.__init__] *)
Definition __init__ (cfg : settings) : result store :=
  if _max_age cfg <=? 0 then Raise ValueError else if _max_entries cfg <=? 0 then Raise ValueError else Ok [].

Section Cache.
(** The first sixteen hexadecimal digits of the SHA-256 of the body. *)
Context (sha256 : bytes -> bytes) (cfg : settings).

Definition _should_cache (status : option Z) (headers : list field) : bool :=
  match status with
  | None => false
  | Some st =>
      bool_decide (st ∈ _cacheable_statuses cfg)
      && negb (existsb (fun d => bool_decide (d ∈ _cache_control headers)) (lit <$> ["no-store"; "private"; "no-cache"]%string))
  end.

Definition _make_etag (body : bytes) : bytes := lit "W/" ++ [34] ++ sha256 body ++ [34].

(** ** The lookup *)

(** What [__call__] does with a request before any event: pass it on, answer it
    from the store, or capture the response. *)
Inductive verdict : Type :=
| Through
| Hit (r : NativeResponse)
| Miss.

Definition uncached (c : Connection) : bool :=
  negb (bool_decide (method c ∈ _cacheable_methods cfg))
  || (let req := _request_headers (headers c) in
      (negb (_cache_authenticated cfg) && dmem req (lit "authorization")) || _request_has_no_store req).

Definition lookup (now : Z) (c : Connection) (s : store) : verdict * store :=
  if uncached c then (Through, s)
  else
    let req := _request_headers (headers c) in
    match dget s (base_key_of c) with
    | None => (Miss, s)
    | Some b =>
        let variant_key := _vary_key (vary_fields b) req in
        match dget (entries b) variant_key with
        | None => (Miss, s)
        | Some e =>
            if expired now e then (Miss, s)
            else
              let b := mkBucket (vary_fields b) (move_to_end (entries b) variant_key e) in
              let s := move_to_end s (base_key_of c) b in
              if match dget req (lit "if-none-match") with Some inm => _etag_matches inm (e_etag e) | None => false end
              then (Hit (mkNative 304 (Some [(lit "etag", e_etag e)]) (Some []) false None false None), s)
              else (Hit (replay e), s)
        end
    end.

(** ** The capture *)

(** The variables of [cap_send]; [streaming] is only ever written. *)
Record capture : Type := mkCapture {
  held : list NativeResponse;
  body_chunks : list bytes;
  cap_status : option Z;
  response_headers : list field;
  flushed : bool
}.

Definition new_capture : capture := mkCapture [] [] None [] false.

Definition hold (r : NativeResponse) (c : capture) : capture :=
  mkCapture (held c ++ [r]) (body_chunks c) (cap_status c) (response_headers c) (flushed c).

Definition set_flushed (c : capture) : capture :=
  mkCapture (held c) (body_chunks c) (cap_status c) (response_headers c) true.

Definition note_head (r : NativeResponse) (c : capture) : capture :=
  match _header r with
  | Some hs => mkCapture (held c) (body_chunks c) (Some (status r)) hs (flushed c)
  | None => c
  end.

Definition note_body (b : bytes) (c : capture) : capture :=
  mkCapture (held c) (body_chunks c ++ [b]) (cap_status c) (response_headers c) (flushed c).

(** [for buf in held: await send(buf)], unless it has been done. *)
Definition release (c : capture) : list send_event * capture :=
  (if flushed c then [] else SendNative <$> held c, set_flushed c).

(** The held object with a header gets the fields. *)
Fixpoint set_first_header (hs : list field) (l : list NativeResponse) : list NativeResponse :=
  match l with
  | [] => []
  | r :: l =>
      match _header r with
      | Some _ => mkNative (status r) (Some hs) (_body r) (more_body r) (trailers r) (expects_trailers r) (file_path r) :: l
      | None => r :: set_first_header hs l
      end
  end.

Definition inject_etag (etag : bytes) (c : capture) : capture :=
  let hs := response_headers c ++ [(lit "etag", etag)] in
  mkCapture (set_first_header hs (held c)) (body_chunks c) (cap_status c) hs (flushed c).

(** [response_headers] after the validator has been settled, with the validator. *)
Definition settle_etag (body : bytes) (c : capture) : option bytes * capture :=
  let etag := match _read_etag (response_headers c) with
              | Some ((_ :: _) as e) => Some e
              | _ => if _generate_etag cfg then Some (_make_etag body) else None
              end in
  match etag, _read_etag (response_headers c) with
  | Some e, None => (etag, inject_etag e c)
  | _, _ => (etag, c)
  end.

(** An [OrderedDict] cut to its last [n] entries. *)
Definition keep_last {K V} (n : Z) (d : dict K V) : dict K V := drop (length d - Z.to_nat n) d.

Definition response_ttl (hs : list field) : Z :=
  match _response_max_age hs with Some n => if n =? 0 then _max_age cfg else n | None => _max_age cfg end.

Definition put_entry (now : Z) (key : base_key) (req : dict bytes bytes) (fields : list bytes) (etag body : bytes)
    (c : capture) (s : store) : store :=
  let hs := response_headers c in
  let b := match dget s key with
           | None => mkBucket fields []
           | Some b => if bool_decide (vary_fields b = fields) then b else mkBucket fields []
           end in
  let e := mkEntry (default 200 (cap_status c)) hs body etag (now + response_ttl hs) in
  let es := move_to_end (entries b) (_vary_key fields req) e in
  let s := move_to_end s key (mkBucket fields (keep_last _MAX_VARIANTS_PER_KEY es)) in
  keep_last (_max_entries cfg) s.

(** The final chunk has arrived: store what may be stored. *)
Definition conclude (now : Z) (key : base_key) (req : dict bytes bytes) (c : capture) (s : store) : capture * store :=
  let body := mjoin (body_chunks c) in
  if _should_cache (cap_status c) (response_headers c) then
    let fields := _response_vary (response_headers c) in
    let '(etag, c) := settle_etag body c in
    match etag, fields with
    | Some e, Some fields => (c, put_entry now key req fields e body c s)
    | _, _ => (c, s)
    end
  else (c, s).

Definition cap_send (now : Z) (key : base_key) (req : dict bytes bytes) (ev : send_event) (c : capture) (s : store)
    : list send_event * capture * store :=
  match ev with
  | SendNative r =>
      let c := note_head r c in
      match file_path r, _body r with
      | Some _, _ => let '(out, c) := release (hold r c) in (out, c, s)
      | None, None => ([], hold r c, s)
      | None, Some b =>
          let c := hold r (note_body b c) in
          if more_body r then let '(out, c) := release c in (out, c, s)
          else
            let '(c, s) := conclude now key req c s in
            (SendNative <$> held c, set_flushed c, s)
      end
  | _ => let '(out, c) := release c in (out ++ [ev], c, s)
  end.

(** ** Requests in flight *)

Inductive mode : Type := Passing | Answered | Capturing (c : capture) | Ended.

(** A request, how it is handled, what its handler has sent and what has been
    sent for it, each with the time. *)
Record flight : Type := mkFlight {
  f_conn : Connection;
  f_mode : mode;
  f_events : list (Z * send_event);
  f_sent : list send_event
}.

Record t : Type := mk {
  _store : store;
  flights : list flight
}.

Definition init : t := mk [] [].

Inductive happening : Type :=
| Arrives (c : Connection)
| Sends (k : nat) (e : send_event)
| Returns (k : nat)
| Raises (k : nat).

Definition set_flight (k : nat) (f : flight) (s : t) : t := mk (_store s) (<[k := f]> (flights s)).

Definition happen (now : Z) (h : happening) (s : t) : t :=
  match h with
  | Arrives c =>
      let '(v, st) := lookup now c (_store s) in
      mk st (flights s ++ [match v with
                           | Through => mkFlight c Passing [] []
                           | Hit r => mkFlight c Answered [] [SendNative r]
                           | Miss => mkFlight c (Capturing new_capture) [] []
                           end])
  | Sends k e =>
      match flights s !! k with
      | Some f =>
          match f_mode f with
          | Passing => set_flight k (mkFlight (f_conn f) Passing (f_events f ++ [(now, e)]) (f_sent f ++ [e])) s
          | Capturing c =>
              let '(out, c, st) := cap_send now (base_key_of (f_conn f)) (_request_headers (headers (f_conn f)))
                                     (wrap_native_send e) c (_store s) in
              set_flight k (mkFlight (f_conn f) (Capturing c) (f_events f ++ [(now, e)]) (f_sent f ++ out)) (mk st (flights s))
          | _ => s
          end
      | None => s
      end
  | Returns k =>
      match flights s !! k with
      | Some f =>
          let out := match f_mode f with Capturing c => (release c).1 | _ => [] end in
          set_flight k (mkFlight (f_conn f) Ended (f_events f) (f_sent f ++ out)) s
      | None => s
      end
  | Raises k =>
      match flights s !! k with
      | Some f => set_flight k (mkFlight (f_conn f) Ended (f_events f) (f_sent f)) s
      | None => s
      end
  end.

Fixpoint run (l : list (Z * happening)) (s : t) : t :=
  match l with [] => s | (now, h) :: l => run l (happen now h s) end.

(** ** The header helpers *)

Lemma request_headers_get h name : is_lower name ->
  dget (_request_headers h) name = first_value name (_list h).
Proof.
  intros Hl. unfold _request_headers. set (step := fun (out : dict bytes bytes) (x : field) => _).
  enough (H : forall l out, dget (foldl step out l) name = match dget out name with Some v => Some v | None => first_value name l end) by apply H.
  clear -Hl. induction l as [|[k v] l IH]; intros out; cbn [foldl]; [by destruct (dget out name)|].
  rewrite IH. unfold step at 1. cbn [fst snd first_value]. unfold dmem. destruct (dget out (lower k)) as [w|] eqn:E.
  - destruct (dget out name) as [u|] eqn:E2; [done|]. rewrite bool_decide_false; [done|]. intros <-. by rewrite E in E2.
  - rewrite dget_dset. destruct (decide (lower k = name)) as [<-|Hne].
    + by rewrite E, bool_decide_true.
    + by rewrite bool_decide_false.
Qed.

Lemma named_etag name l e : lit "etag" <> name -> pieces name (l ++ [(lit "etag", e)]) = pieces name l.
Proof.
  intros Hne. unfold pieces. rewrite filter_app, filter_cons_False by exact Hne. by rewrite app_nil_r.
Qed.

(** What a validator at the end does not change. *)
Lemma vary_etag l e : _response_vary (l ++ [(lit "etag", e)]) = _response_vary l.
Proof. unfold _response_vary. by rewrite named_etag by decide_it. Qed.

Lemma should_cache_etag st l e : _should_cache st (l ++ [(lit "etag", e)]) = _should_cache st l.
Proof. unfold _should_cache, _cache_control. by rewrite named_etag by decide_it. Qed.

Lemma vary_lower hs fields : _response_vary hs = Some fields -> Forall is_lower fields.
Proof.
  unfold _response_vary. case_bool_decide; [done|]. intros [= <-].
  assert (Hp : Forall is_lower (pieces (lit "vary") hs)).
  { unfold pieces. apply Forall_join, Forall_fmap, Forall_forall. intros x _. cbn. apply Forall_fmap, Forall_forall.
    intros p _. apply lower_idem. }
  set (l := filter _ _). assert (Hl : Forall is_lower l) by (apply Forall_forall; intros x [_ Hx]%list_elem_of_filter; by eapply Forall_forall in Hp).
  clearbody l. clear -Hl. induction Hl as [|f l Hf Hl IH]; [constructor|]. cbn [foldr].
  clear Hl. induction IH as [|g m Hg Hm IH2]; cbn [insert_sorted_field]; [by repeat constructor|].
  case_bool_decide; [by constructor|]. destruct (bytes_lt f g); by repeat constructor.
Qed.

Lemma vary_key_eq fields h1 h2 :
  Forall is_lower fields -> _vary_key fields (_request_headers h1) = _vary_key fields (_request_headers h2) ->
  forall name, name ∈ fields -> default [] (first_value name (_list h1)) = default [] (first_value name (_list h2)).
Proof.
  intros Hl E name Hn. rewrite Forall_forall in Hl. rewrite <- !request_headers_get by auto. clear Hl.
  induction fields as [|f fields IH]; [set_solver|]. injection E as E1 E2. apply elem_of_cons in Hn as [->|Hn]; auto.
Qed.

(** ** The store *)

Lemma keep_last_ok {K V} n (d : dict K V) : dict_ok d -> dict_ok (keep_last n d).
Proof.
  unfold dict_ok, dkeys, keep_last. intros H. eapply sublist_NoDup; [exact H|]. apply fmap_sublist, sublist_drop.
Qed.

Lemma keep_last_elem {K V} n (d : dict K V) x : x ∈ keep_last n d -> x ∈ d.
Proof. unfold keep_last. intros H. eapply elem_of_sublist; [exact H|apply sublist_drop]. Qed.

Lemma keep_last_length {K V} n (d : dict K V) : zlen (keep_last n d) <= Z.max 0 n.
Proof. unfold keep_last, zlen. rewrite length_drop. lia. Qed.

(** ** Where an entry comes from *)

(** The fields stored for an answer: its own, or with a validator made for them. *)
Definition validated (a hs : list field) : Prop :=
  hs = a \/ first_value (lit "etag") a = None /\ exists e, hs = a ++ [(lit "etag", e)].

(** An event that completes a body: the last chunk. *)
Definition last_chunk (e : send_event) : Prop :=
  exists r b, wrap_native_send e = SendNative r /\ file_path r = None /\ _body r = Some b /\ more_body r = false.

(** An entry of a bucket is an answer that a handler gave, up to a last chunk, to a request of the
    bucket's key, as the Vary of the answer tells requests apart. *)
Definition sourced (fs : list flight) (key : base_key) (fields : list bytes) (vk : list field) (e : _Entry) : Prop :=
  exists k f before tm ev after,
    fs !! k = Some f /\ f_events f = before ++ (tm, ev) :: after /\
    let a := answers (snd <$> before ++ [(tm, ev)]) in
    uncached (f_conn f) = false /\ base_key_of (f_conn f) = key /\
    vk = _vary_key fields (_request_headers (headers (f_conn f))) /\
    a_status a = Some (e_status e) /\ validated (a_headers a) (e_header e) /\ e_body e = a_body a /\
    _should_cache (a_status a) (e_header e) = true /\ _response_vary (e_header e) = Some fields /\
    expires_at e = tm + response_ttl (e_header e) /\ last_chunk ev.

(** Flights only grow. *)
Definition grows (fs fs' : list flight) : Prop :=
  forall k f, fs !! k = Some f ->
  exists f', fs' !! k = Some f' /\ f_conn f' = f_conn f /\ f_events f `prefix_of` f_events f'.

Lemma sourced_grows fs fs' key fields vk e : grows fs fs' -> sourced fs key fields vk e -> sourced fs' key fields vk e.
Proof.
  intros Hg (k & f & before & tm & ev & after & Hk & He & H). destruct (Hg _ _ Hk) as (f' & Hk' & Hc & [l Hl]).
  exists k, f', before, tm, ev, (after ++ l). rewrite Hc. split; [done|]. split; [by rewrite Hl, He, <- app_assoc|done].
Qed.

Lemma grows_app fs f : grows fs (fs ++ [f]).
Proof. intros k g Hk. exists g. split; [by apply lookup_app_l_Some|done]. Qed.

Lemma grows_insert fs k f f' :
  fs !! k = Some f -> f_conn f' = f_conn f -> f_events f `prefix_of` f_events f' -> grows fs (<[k := f']> fs).
Proof.
  intros Hk Hc Hp j g Hj. destruct (decide (j = k)) as [->|Hne].
  - exists f'. rewrite list_lookup_insert_eq by (by eapply lookup_lt_Some). by simplify_eq.
  - exists g. by rewrite list_lookup_insert_ne.
Qed.

Record bucket_ok (fs : list flight) (key : base_key) (b : _Bucket) : Prop := mkBucketOk {
  b_keys : dict_ok (entries b);
  b_bound : zlen (entries b) <= _MAX_VARIANTS_PER_KEY;
  b_sourced : forall vk e, dget (entries b) vk = Some e -> sourced fs key (vary_fields b) vk e
}.

Record store_ok (fs : list flight) (s : store) : Prop := mkStoreOk {
  s_keys : dict_ok s;
  s_bound : zlen s <= Z.max 0 (_max_entries cfg);
  s_buckets : forall key b, dget s key = Some b -> bucket_ok fs key b
}.

Lemma answers_timed (l : list (Z * send_event)) now e :
  answers (snd <$> l ++ [(now, e)]) = answer_event e (answers (snd <$> l)).
Proof. rewrite fmap_app. apply answers_snoc. Qed.

(** What a capture knows of its handler. *)
Record captured (c : capture) (a : answer) : Prop := mkCaptured {
  c_status : cap_status c = a_status a;
  c_headers : validated (a_headers a) (response_headers c);
  c_body : mjoin (body_chunks c) = a_body a
}.

Definition flight_ok (f : flight) : Prop :=
  match f_mode f with
  | Capturing c => uncached (f_conn f) = false /\ captured c (answers (snd <$> f_events f))
  | _ => True
  end.

Record inv (s : t) : Prop := mkInv {
  i_store : store_ok (flights s) (_store s);
  i_flights : Forall flight_ok (flights s)
}.

Lemma store_ok_grows fs fs' s : grows fs fs' -> store_ok fs s -> store_ok fs' s.
Proof.
  intros Hg [Hk Hb Hs]. split; [done|done|]. intros key b Hd. destruct (Hs key b Hd) as [Hk2 Hb2 Hs2].
  split; [done|done|]. intros vk e He. eapply sourced_grows; [done|by apply Hs2].
Qed.

(** ** The lookup *)

Lemma touch_ok fs key b vk e s :
  store_ok fs s -> dget s key = Some b -> dget (entries b) vk = Some e ->
  store_ok fs (move_to_end s key (mkBucket (vary_fields b) (move_to_end (entries b) vk e))).
Proof.
  intros [Hk Hb Hs] Hd He. destruct (Hs key b Hd) as [Hk2 Hb2 Hs2]. split.
  - by apply move_to_end_ok.
  - by rewrite zlen_move_to_end by (by rewrite Hd).
  - intros key' b'. rewrite dget_move_to_end by done. case_decide as Hkk; [|apply Hs]. subst key'. intros [= <-].
    split; cbn [entries vary_fields].
    + by apply move_to_end_ok.
    + by rewrite zlen_move_to_end by (by rewrite He).
    + intros vk' e'. rewrite dget_move_to_end by done. case_decide as Hvv; [|apply Hs2]. subst vk'. intros [= <-]. by apply Hs2.
Qed.

Lemma lookup_ok fs now c s : store_ok fs s -> store_ok fs (lookup now c s).2.
Proof.
  intros Hs. unfold lookup. destruct (uncached c); [done|]. destruct (dget s _) as [b|] eqn:Eb; [|done].
  destruct (dget (entries b) _) as [e|] eqn:Ee; [|done]. destruct (expired now e); [done|].
  destruct (match dget _ (lit "if-none-match") with Some _ => _ | None => _ end); by apply touch_ok.
Qed.

(** ** Storing *)

Lemma elem_dget_keep {K V} `{EqDecision K} n (d : dict K V) k v : dict_ok d -> dget (keep_last n d) k = Some v -> dget d k = Some v.
Proof. intros Hok Hg. apply elem_dget; [done|]. eapply keep_last_elem, dget_elem, Hg. Qed.

Lemma put_entry_ok fs now key req fields etag body c s :
  store_ok fs s ->
  (forall e, e = mkEntry (default 200 (cap_status c)) (response_headers c) body etag (now + response_ttl (response_headers c)) ->
    sourced fs key fields (_vary_key fields req) e) ->
  store_ok fs (put_entry now key req fields etag body c s).
Proof.
  intros [Hk Hb Hs] He. specialize (He _ eq_refl). unfold put_entry. set (e := mkEntry _ _ _ _ _) in *.
  set (b := match dget s key with Some _ => _ | None => _ end).
  assert (Hbok : dict_ok (entries b) /\ forall vk e, dget (entries b) vk = Some e -> sourced fs key fields vk e).
  { subst b. destruct (dget s key) as [b|] eqn:Eb; [|split; [constructor|done]].
    case_bool_decide as Hf; [|split; [constructor|done]]. destruct (Hs key b Eb) as [Hk2 _ Hs2]. by subst fields. }
  destruct Hbok as [Hbk Hbs]. set (es := move_to_end _ _ e).
  assert (Hes : dict_ok es) by (by apply move_to_end_ok).
  assert (Hnew : bucket_ok fs key (mkBucket fields (keep_last _MAX_VARIANTS_PER_KEY es))).
  { split; cbn [entries vary_fields]; [by apply keep_last_ok|by apply keep_last_length|].
    intros vk' e' Hg. apply elem_dget_keep in Hg; [|done]. subst es. rewrite dget_move_to_end in Hg by done.
    case_decide as Hvv; [|by apply Hbs]. subst vk'. by injection Hg as <-. }
  set (nb := mkBucket fields (keep_last _ es)) in *. assert (Hso : dict_ok (move_to_end s key nb)) by (by apply move_to_end_ok).
  split; [by apply keep_last_ok|apply keep_last_length|].
  intros key' b' Hg. assert (Hg2 : dget (move_to_end s key nb) key' = Some b').
  { by eapply elem_dget_keep. }
  rewrite dget_move_to_end in Hg2 by done. case_decide as Hkk; [|by apply Hs]. subst key'. by injection Hg2 as <-.
Qed.

(** ** The capture *)

Lemma first_value_etag l e : first_value (lit "etag") (l ++ [(lit "etag", e)]) <> None.
Proof. rewrite first_value_app. by destruct (first_value _ l). Qed.

Lemma settle_etag_ok body c a : captured c a -> captured (settle_etag body c).2 a.
Proof.
  intros Hc. unfold settle_etag. destruct (_read_etag (response_headers c)) as [e|] eqn:Er.
  { by destruct (match e with [] => _ | _ :: _ => _ end). }
  destruct (_generate_etag cfg); [|done]. destruct Hc as [Hs Hh Hb]. split; [done| |done].
  destruct Hh as [Hh|(_ & e & Hh)].
  - right. rewrite <- Hh. split; [done|]. by eexists.
  - exfalso. unfold _read_etag in Er. rewrite Hh in Er. by eapply first_value_etag.
Qed.

Lemma settle_etag_fields body c :
  cap_status (settle_etag body c).2 = cap_status c /\
  body_chunks (settle_etag body c).2 = body_chunks c /\
  _response_vary (response_headers (settle_etag body c).2) = _response_vary (response_headers c) /\
  forall st, _should_cache st (response_headers (settle_etag body c).2) = _should_cache st (response_headers c).
Proof.
  unfold settle_etag. destruct (match _read_etag _ with Some _ => _ | None => _ end) as [e|]; [|done].
  destruct (_read_etag _); [done|]. cbn [snd inject_etag cap_status body_chunks response_headers].
  split_and!; [done|done|by rewrite vary_etag|]. intros st. by rewrite should_cache_etag.
Qed.

(** The answer [a] was just completed by a handler of the key's request. *)
Definition witnessed (fs : list flight) (now : Z) (key : base_key) (req : dict bytes bytes) (a : answer) : Prop :=
  exists k f before ev,
    fs !! k = Some f /\ f_events f = before ++ [(now, ev)] /\ answers (snd <$> f_events f) = a /\
    uncached (f_conn f) = false /\ base_key_of (f_conn f) = key /\ req = _request_headers (headers (f_conn f)) /\ last_chunk ev.

Lemma conclude_ok fs now key req c a s :
  captured c a -> store_ok fs s -> witnessed fs now key req a ->
  captured (conclude now key req c s).1 a /\ store_ok fs (conclude now key req c s).2.
Proof.
  intros Hc Hs (k & f & before & ev & Hk & He & Ha & Hu & Hkey & Hr & Hlast). unfold conclude.
  destruct (_should_cache _ _) eqn:Es; [|done]. set (body := mjoin _).
  pose proof (settle_etag_ok body c a Hc) as Hc2. destruct (settle_etag_fields body c) as (E1 & E2 & E3 & E4).
  destruct (settle_etag body c) as [[e|] c2]; cbn [snd] in *; [|by destruct (_response_vary _)].
  destruct (_response_vary (response_headers c)) as [fields|] eqn:Ev; [|done]. split; [done|].
  apply put_entry_ok; [done|]. intros en ->. destruct Hc as [Hst Hh Hb], Hc2 as [Hst2 Hh2 Hb2].
  destruct (cap_status c) as [st|] eqn:Est; [|done].
  exists k, f, before, now, ev, []. rewrite He in *. cbn [e_status e_header e_body expires_at].
  subst a. rewrite Hst in Es. cbv zeta. split_and!; try done; try (by rewrite E1, <- Hst); [by rewrite Hr|by rewrite E4].
Qed.

Lemma note_head_ok r c a : captured c a -> captured (note_head r c) (answer_native (mkNative (status r) (_header r) None false None false None) a).
Proof.
  intros Hc. unfold note_head, answer_native. cbn. destruct (_header r) as [hs|]; [|done].
  destruct Hc as [Hs Hh Hb]. split; [done|by left|done].
Qed.

Lemma cap_send_ok fs now key req e c a s :
  captured c a -> store_ok fs s -> (last_chunk e -> witnessed fs now key req (answer_event e a)) ->
  let '(_, c', s') := cap_send now key req (wrap_native_send e) c s in
  captured c' (answer_event e a) /\ store_ok fs s'.
Proof.
  intros Hc Hs Hw. unfold answer_event in *. unfold last_chunk in Hw.
  destruct (wrap_native_send e) as [? ? ?|r|? ? ?|? ?|?|f| |] eqn:Ew; cbn [cap_send]; try (by destruct Hc).
  unfold answer_native in *. pose proof (note_head_ok r c a Hc) as Hn. unfold answer_native in Hn. cbn in Hn.
    set (a1 := match _header r with Some _ => _ | None => _ end) in *.
    destruct (file_path r) as [f|] eqn:Ef; [destruct Hn; by split|]. destruct (_body r) as [b|] eqn:Eb; [|destruct Hn; by split].
    set (a2 := mkAnswer _ _ _ _ _) in *.
    assert (Hn2 : captured (hold r (note_body b (note_head r c))) a2).
    { destruct Hn as [H1 H2 H3]. split; [done|done|]. cbn [body_chunks hold note_body]. rewrite join_app, H3. cbn. by rewrite app_nil_r. }
    destruct (more_body r) eqn:Em; [destruct Hn2; by split|].
    destruct (conclude now key req _ s) as [c3 s3] eqn:Ec.
    pose proof (conclude_ok fs now key req _ a2 s Hn2 Hs (Hw ltac:(by exists r, b))) as [H1 H2]. rewrite Ec in H1, H2. split; [|done].
    destruct H1; by split.
Qed.

(** ** The middleware over all its requests *)

Lemma happen_inv now h s : inv s -> inv (happen now h s).
Proof.
  intros [Hs Hf]. destruct h as [c|k e|k|k]; cbn [happen].
  - pose proof (lookup_ok (flights s) now c _ Hs) as Hl. destruct (lookup now c (_store s)) as [v st] eqn:El. split.
    + eapply store_ok_grows; [apply grows_app|exact Hl].
    + apply Forall_app. split; [done|]. apply Forall_singleton. destruct v; try done. split; [|by split; [|left|]].
      unfold lookup in El. cbn [f_conn]. by destruct (uncached c).
  - destruct (flights s !! k) as [f|] eqn:Ek; [|done]. pose proof (Forall_lookup_1 _ _ _ _ Hf Ek) as Hfk.
    destruct (f_mode f) as [| |c|] eqn:Em; try done.
    + split; cbn [set_flight _store flights].
      * eapply store_ok_grows; [|done]. apply (grows_insert _ _ f); [done|done|]. by eexists.
      * by apply Forall_insert.
    + unfold flight_ok in Hfk. rewrite Em in Hfk. destruct Hfk as [Hu Hc].
      set (f0 := mkFlight (f_conn f) (f_mode f) (f_events f ++ [(now, e)]) (f_sent f)).
      assert (Hg : grows (flights s) (<[k := f0]> (flights s))) by (apply (grows_insert _ _ f); [done|done|by eexists]).
      pose proof (cap_send_ok (<[k := f0]> (flights s)) now (base_key_of (f_conn f)) (_request_headers (headers (f_conn f))) e c
                    (answers (snd <$> f_events f)) (_store s) Hc (store_ok_grows _ _ _ Hg Hs)) as H.
      destruct (cap_send _ _ _ _ c _) as [[out c'] st]. cbn [set_flight _store flights].
      destruct H as [H1 H2].
      { intros Hlast. exists k, f0, (f_events f), e. split_and!; try done.
        - apply list_lookup_insert_eq. by eapply lookup_lt_Some.
        - cbn [f_events f0]. apply answers_timed. }
      split; cbn [_store flights set_flight].
      * eapply store_ok_grows; [|exact H2]. intros j g Hj. destruct (decide (j = k)) as [->|Hne].
        -- rewrite list_lookup_insert_eq in Hj by (by eapply lookup_lt_Some). injection Hj as <-.
           eexists. split; [by apply list_lookup_insert_eq; eapply lookup_lt_Some|done].
        -- rewrite list_lookup_insert_ne in Hj by done. exists g. by rewrite list_lookup_insert_ne.
      * apply Forall_insert; [done|]. split; [done|]. cbn [f_events]. by rewrite answers_timed.
  - destruct (flights s !! k) as [f|] eqn:Ek; [|done]. split; cbn [set_flight _store flights].
    + eapply store_ok_grows; [|done]. by apply (grows_insert _ _ f).
    + by apply Forall_insert.
  - destruct (flights s !! k) as [f|] eqn:Ek; [|done]. split; cbn [set_flight _store flights].
    + eapply store_ok_grows; [|done]. by apply (grows_insert _ _ f).
    + by apply Forall_insert.
Qed.

Lemma run_inv l s : inv s -> inv (run l s).
Proof. revert s. induction l as [|[now h] l IH]; intros s Hs; [done|]. by apply IH, happen_inv. Qed.

Lemma init_inv : inv init.
Proof. split; [|apply Forall_nil_2]. split; [apply NoDup_nil_2|apply Z.le_max_l|done]. Qed.

(** ** Hits are earlier answers *)

Lemma hit_entry now c s r s' :
  lookup now c s = (Hit r, s') ->
  uncached c = false /\ exists b e,
    dget s (base_key_of c) = Some b /\
    dget (entries b) (_vary_key (vary_fields b) (_request_headers (headers c))) = Some e /\ now < expires_at e /\
    (r = replay e \/
     r = mkNative 304 (Some [(lit "etag", e_etag e)]) (Some []) false None false None /\
     exists inm, first_value (lit "if-none-match") (_list (headers c)) = Some inm /\ _etag_matches inm (e_etag e) = true).
Proof.
  unfold lookup. destruct (uncached c); [done|]. destruct (dget s _) as [b|] eqn:Eb; [|done].
  destruct (dget (entries b) _) as [e|] eqn:Ee; [|done]. unfold expired. destruct (Z.geb_spec now (expires_at e)); [done|].
  rewrite request_headers_get by done. intros Hl. split; [done|]. exists b, e. split_and!; [done|done|lia|].
  destruct (first_value _ _) as [inm|]; [|left; by injection Hl].
  destruct (_etag_matches inm (e_etag e)) eqn:Em; [|left; by injection Hl]. right. injection Hl as <- _.
  split; [done|]. by exists inm.
Qed.

(** The fields of a hit are those of an answer to a request that the Vary does not
    tell from this one. *)
Lemma hit_fields l now c r s' hs :
  lookup now c (_store (run l init)) = (Hit r, s') -> _header r = Some hs ->
  (exists e, hs = [(lit "etag", e)]) \/
  exists f before tm ev after fields,
    f ∈ flights (run l init) /\ f_events f = before ++ (tm, ev) :: after /\
    validated (a_headers (answers (snd <$> before ++ [(tm, ev)]))) hs /\ _response_vary hs = Some fields /\
    forall name, name ∈ fields ->
      default [] (first_value name (_list (headers c))) = default [] (first_value name (_list (headers (f_conn f)))).
Proof.
  intros (Hu & b & e & Hb & He & Hlt & Hr)%hit_entry Hhs. destruct Hr as [->|[-> _]]; cbn in Hhs.
  2: { left. injection Hhs as <-. by eexists. }
  right. injection Hhs as <-. destruct (run_inv l init init_inv) as [[_ _ Hs] _]. destruct (Hs _ _ Hb) as [_ _ Hs2].
  destruct (Hs2 _ _ He) as (k & f & before & tm & ev & after & Hk & Hf & _ & _ & Hvk & _ & Hh & _ & _ & Hv & _).
  exists f, before, tm, ev, after, (vary_fields b). split_and!; try done; [by eapply list_elem_of_lookup_2|].
  eapply vary_key_eq, Hvk. by eapply vary_lower.
Qed.


(** The cache is bounded.  Whatever is requested and answered, it never
    holds more URLs than configured, nor more than sixteen variants of one. *)
Theorem cache_bounded l :
  let s := _store (run l init) in
  zlen s <= Z.max 0 (_max_entries cfg) /\
  forall key b, dget s key = Some b -> zlen (entries b) <= _MAX_VARIANTS_PER_KEY.
Proof.
  destruct (run_inv l init init_inv) as [[_ Hb Hs] _]. split; [done|]. intros key b Hd. by destruct (Hs key b Hd).
Qed.

(** ** A cacheable answer is sent on, and served again *)

Lemma keep_last_snoc {K V} `{EqDecision K} n (d : dict K V) k v :
  0 < n -> dict_ok d -> dget (keep_last n (move_to_end d k v)) k = Some v.
Proof.
  intros Hn Hok. apply elem_dget; [by apply keep_last_ok, move_to_end_ok|]. unfold keep_last, move_to_end.
  rewrite length_app, drop_app_le by (cbn; lia). apply elem_of_app. right. set_solver.
Qed.

Lemma put_entry_get now key req fields etag body c s :
  0 < _max_entries cfg -> dict_ok s -> (forall b, dget s key = Some b -> dict_ok (entries b)) ->
  exists b, dget (put_entry now key req fields etag body c s) key = Some b /\ vary_fields b = fields /\
    dget (entries b) (_vary_key fields req) =
    Some (mkEntry (default 200 (cap_status c)) (response_headers c) body etag (now + response_ttl (response_headers c))).
Proof.
  intros Hn Hok Hb. unfold put_entry. eexists. split; [by apply keep_last_snoc|]. split; [done|]. cbn [entries].
  apply keep_last_snoc; [done|]. destruct (dget s key) as [b|] eqn:E; [|apply NoDup_nil_2].
  case_bool_decide; [by apply Hb|apply NoDup_nil_2].
Qed.

Lemma vary_key_same fields h1 h2 :
  Forall is_lower fields ->
  (forall name, name ∈ fields -> default [] (first_value name (_list h1)) = default [] (first_value name (_list h2))) ->
  _vary_key fields (_request_headers h1) = _vary_key fields (_request_headers h2).
Proof.
  induction 1 as [|f fields Hf Hl IH]; intros E; [done|]. unfold _vary_key in *. cbn [fmap list_fmap]. f_equal.
  - rewrite !request_headers_get by done. by rewrite (E f) by set_solver.
  - apply IH. intros. apply E. set_solver.
Qed.

Lemma lookup_is_hit now c s key b e :
  uncached c = false -> base_key_of c = key -> dget s key = Some b ->
  dget (entries b) (_vary_key (vary_fields b) (_request_headers (headers c))) = Some e ->
  now < expires_at e -> first_value (lit "if-none-match") (_list (headers c)) = None ->
  (lookup now c s).1 = Hit (replay e).
Proof.
  intros Hu <- Hb He Hn Hm. unfold lookup. rewrite Hu, Hb, He. unfold expired.
  destruct (Z.geb_spec now (expires_at e)); [lia|]. by rewrite request_headers_get, Hm by done.
Qed.

(** An answer in one object, or as a head and a body. *)
Inductive whole (st : Z) (hs : list field) (body : bytes) : list NativeResponse -> Prop :=
| whole_one : whole st hs body [complete st hs (Some body)]
| whole_two st' : whole st hs body [mkNative st (Some hs) None false None false None; mkNative st' None (Some body) false None false None].

(** The capture over a list of objects. *)
Fixpoint captures (now : Z) (key : base_key) (req : dict bytes bytes) (l : list NativeResponse) (c : capture) (s : store)
    : list send_event * capture * store :=
  match l with
  | [] => ([], c, s)
  | r :: l =>
      let '(out, c, s) := cap_send now key req (SendNative r) c s in
      let '(out', c, s) := captures now key req l c s in (out ++ out', c, s)
  end.

Lemma settle_etag_whole st hs body l chunks :
  _generate_etag cfg = true -> whole st hs body l ->
  exists e hs' l', validated hs hs' /\ whole st hs' body l' /\
    settle_etag body (mkCapture l chunks (Some st) hs false) = (Some e, mkCapture l' chunks (Some st) hs' false).
Proof.
  intros Hg Hl. unfold settle_etag. cbn [response_headers]. rewrite Hg. unfold _read_etag.
  destruct (first_value (lit "etag") hs) as [[|x e]|] eqn:Ee.
  - exists (_make_etag body), hs, l. split_and!; [by left|done|done].
  - exists (x :: e), hs, l. split_and!; [by left|done|done].
  - set (hs' := hs ++ [(lit "etag", _make_etag body)]). exists (_make_etag body), hs', (set_first_header hs' l).
    split_and!; [right; split; [done|by eexists]|destruct Hl; constructor|done].
Qed.

Lemma max_age_etag hs e : _response_max_age (hs ++ [(lit "etag", e)]) = _response_max_age hs.
Proof. unfold _response_max_age. by rewrite named_etag by decide_it. Qed.

(** What a validator leaves as it is. *)
Lemma validated_same hs hs' : validated hs hs' ->
  _response_vary hs' = _response_vary hs /\ response_ttl hs' = response_ttl hs /\
  forall st, _should_cache st hs' = _should_cache st hs.
Proof.
  intros [->|(_ & e & ->)]; [done|]. unfold response_ttl. rewrite vary_etag, max_age_etag. split_and!; [done|done|].
  intros st. apply should_cache_etag.
Qed.

Lemma captures_whole now key req st hs body l s :
  whole st hs body l ->
  captures now key req l new_capture s =
  let '(c, s) := conclude now key req (mkCapture l [body] (Some st) hs false) s in (SendNative <$> held c, set_flushed c, s).
Proof.
  destruct 1; cbn [captures cap_send complete _header _body more_body file_path]; unfold note_head, note_body, hold;
    cbn [held body_chunks cap_status response_headers flushed new_capture app _header status complete];
    destruct (conclude _ _ _ _ _) as [c s']; by rewrite app_nil_r.
Qed.

(** A cacheable answer reaches its client and serves the next one.  After any
    history, when a request misses and its handler gives a whole answer — in one
    object, or as a head and a body — that may be stored, the client is sent that
    answer, with a validator if it had none, and until its time runs out every
    request for the same URL with the same values of the fields of its Vary is
    answered from the cache with the same status, fields and body. *)
Theorem cache_serves h now c st hs body l fields :
  0 < _max_entries cfg -> _generate_etag cfg = true ->
  uncached c = false -> whole st hs body l ->
  _should_cache (Some st) hs = true -> _response_vary hs = Some fields ->
  let '(out, _, s) := captures now (base_key_of c) (_request_headers (headers c)) l new_capture (_store (run h init)) in
  exists hs', validated hs hs' /\ (exists l', whole st hs' body l' /\ out = SendNative <$> l') /\
  forall c' now', base_key_of c' = base_key_of c -> uncached c' = false ->
    (forall name, name ∈ fields ->
       default [] (first_value name (_list (headers c'))) = default [] (first_value name (_list (headers c)))) ->
    first_value (lit "if-none-match") (_list (headers c')) = None ->
    now' < now + response_ttl hs ->
    (lookup now' c' s).1 = Hit (complete st hs' (Some body)).
Proof.
  intros Hn Hg Hu Hl Hsc Hv. destruct (run_inv h init init_inv) as [[Hok _ Hs] _].
  rewrite (captures_whole _ _ _ _ _ _ _ _ Hl). unfold conclude. cbn [body_chunks cap_status response_headers].
  replace (mjoin [body]) with body by (cbn; by rewrite app_nil_r). rewrite Hsc, Hv.
  destruct (settle_etag_whole st hs body l [body] Hg Hl) as (e & hs' & l' & Hh & Hl' & ->).
  cbn [held set_flushed]. exists hs'. split; [done|]. split; [by exists l'|]. intros c' now' Hkey Hu' Hsame Hm Hlt.
  destruct (validated_same _ _ Hh) as (_ & Ht & _).
  destruct (put_entry_get now (base_key_of c) (_request_headers (headers c)) fields e body (mkCapture l' [body] (Some st) hs' false)
    (_store (run h init)) Hn Hok) as (b & Hb & Hf & He).
  { intros b Hb. by destruct (Hs _ _ Hb). }
  assert (Hlt' : now' < now + response_ttl hs') by by rewrite Ht.
  rewrite <- (vary_key_same fields (headers c') (headers c)) in He by (done || by eapply vary_lower). subst fields.
  exact (lookup_is_hit now' c' _ _ b _ Hu' Hkey Hb He Hlt' Hm).
Qed.

End Cache.

(** ** Sample runs *)

Module Sample.

Definition sha (body : bytes) : bytes := lit "0123456789abcdef".
Definition get (path : string) (hs : list (string * string)) : Connection :=
  mkConn (lit "http") (lit "GET") (lit "http") (lit path) [] [] (HttpHeaders.__init__ ((fun x => (lit x.1, lit x.2)) <$> hs)) None [].
Definition fields (hs : list (string * string)) : list field := (fun x => (lit x.1, lit x.2)) <$> hs.
Definition go (l : list (Z * happening)) : t := run sha default_settings l init.
Definition sent (s : t) : list (list send_event) := f_sent <$> flights s.
Definition page (hs : list (string * string)) (body : string) : send_event :=
  SendNative (complete 200 (fields hs) (Some (lit body))).
Definition tagged (hs : list (string * string)) (body : string) : send_event :=
  SendNative (complete 200 (fields hs ++ [(lit "etag", _make_etag sha [])]) (Some (lit body))).

Definition gzip : list (string * string) := [("Accept-Encoding", "gzip")]%string.
Definition vary : list (string * string) := [("Vary", "Accept-Encoding")]%string.
Definition history : list (Z * happening) :=
  [(0, Arrives (get "/a" gzip)); (1, Sends 0 (page vary "body")); (1, Returns 0)].

(** A second request is answered by the first answer, one with another encoding is not. *)
Lemma names_ordinary :
  sent (go (history ++ [(5, Arrives (get "/a" gzip)); (6, Arrives (get "/a" []))])) =
  [[tagged vary "body"]; [tagged vary "body"]; []].
Proof. vm_compute. reflexivity. Qed.


Lemma cache_serves_witness :
  let c := get "/a" gzip in
  let hs := fields vary in
  let l := [complete 200 hs (Some (lit "body"))] in
  let '(out, _, s) := captures sha default_settings 1 (base_key_of c) (_request_headers (headers c)) l new_capture [] in
  exists hs', validated hs hs' /\ (exists l', whole 200 hs' (lit "body") l' /\ out = SendNative <$> l') /\
  forall c' now', base_key_of c' = base_key_of c -> uncached default_settings c' = false ->
    (forall name, name ∈ [lit "accept-encoding"] ->
       default [] (first_value name (_list (headers c'))) = default [] (first_value name (_list (headers c)))) ->
    first_value (lit "if-none-match") (_list (headers c')) = None ->
    now' < 1 + response_ttl default_settings hs ->
    (lookup default_settings now' c' s).1 = Hit (complete 200 hs' (Some (lit "body"))).
Proof.
  refine (cache_serves sha default_settings [] 1 (get "/a" gzip) 200 (fields vary) (lit "body")
    [complete 200 (fields vary) (Some (lit "body"))] [lit "accept-encoding"] _ _ _ _ _ _);
    [done|done|vm_compute; reflexivity|constructor|vm_compute; reflexivity|vm_compute; reflexivity].
Defined.

Definition has_head (e : send_event) : bool :=
  match e with SendNative r => bool_decide (is_Some (_header r)) | _ => false end.
Definition has_trailers (e : send_event) : bool :=
  match e with SendNative r => bool_decide (is_Some (trailers r)) | _ => false end.

(** A streamed answer: the second chunk is held back, and the last one brings
    everything again after what has been sent; it is stored all the same. *)
Definition start : send_event := ResponseStart 200 [] false.
Definition streamed : list (Z * happening) :=
  [(0, Arrives (get "/s" [])); (0, Sends 0 start); (0, Sends 0 (ResponseBody (lit "a") true));
   (0, Sends 0 (ResponseBody (lit "b") true)); (0, Sends 0 (ResponseBody (lit "c") false)); (0, Returns 0)].

Lemma stream_sent_twice :
  option_map (fun l => a_body (answers l)) (head (sent (go streamed))) = Some (lit "aabc") /\
  option_map (fun l => length (filter (fun e => has_head e = true) l)) (head (sent (go streamed)))
    = Some 2%nat /\
  (lookup default_settings 1 (get "/s" []) (_store (go streamed))).1 <> Miss.
Proof. vm_compute. done. Qed.

(** The trailers of a streamed answer are never sent. *)
Lemma stream_loses_trailers :
  let l := [(0, Arrives (get "/s" [])); (0, Sends 0 (ResponseStart 200 [] true)); (0, Sends 0 (ResponseBody (lit "a") true));
            (0, Sends 0 (ResponseTrailers (fields [("grpc-status", "0")%string]))); (0, Returns 0)] in
  option_map (fun l => filter (fun e => has_trailers e = true) l) (head (sent (go l)))
    = Some [].
Proof. vm_compute. reflexivity. Qed.

(** [Cache-Control: max-age=0] is kept for the default time. *)
Lemma max_age_zero_kept :
  let l := [(0, Arrives (get "/z" [])); (0, Sends 0 (page [("Cache-Control", "max-age=0")%string] "old")); (0, Returns 0)] in
  (lookup default_settings 299 (get "/z" []) (_store (go l))).1 <> Miss.
Proof. vm_compute. done. Qed.

(** A WebSocket handshake is answered with a page. *)
Lemma websocket_answered :
  let ws := mkConn (lit "websocket") (lit "GET") (lit "ws") (lit "/a") [] [] (HttpHeaders.__init__ []) None [] in
  let l := [(0, Arrives (get "/a" [])); (0, Sends 0 (page [] "page")); (0, Returns 0); (1, Arrives ws)] in
  option_map (fun l => a_body (answers l)) (sent (go l) !! 1%nat) = Some (lit "page").
Proof. vm_compute. reflexivity. Qed.

(** A validator that matches is not looked at once the entry has expired. *)
Lemma expired_not_validated :
  let l := [(0, Arrives (get "/a" [])); (0, Sends 0 (page [("ETag", "x")%string] "page")); (0, Returns 0)] in
  let again := get "/a" [("If-None-Match", "x")%string] in
  (lookup default_settings 299 again (_store (go l))).1 <> Miss /\ (lookup default_settings 300 again (_store (go l))).1 = Miss.
Proof. vm_compute. done. Qed.

End Sample.
End Cache.
