(* ===== verification/Compression.v ===== *)
(** * Response compression (blackbull/middleware/compression.py)

    [Compression]: the choice of a codec, the decision whether a response is
    worth compressing, and the interception of the events of one request.  The
    codecs are parameters; the number of compressions the executor is running is
    read at each event.  The fields of an object are updated in place in the
    source; here the updated object is what is sent on. *)

From Stdlib Require Import ZArith Lia.
From stdpp Require Import base tactics numbers option strings sets list.
From S2P Require Import Prelude PyLib PyText PyBytes H2Frames HttpHeaders Http1Sender Pipeline.
Import HttpHeaders Http1Sender Pipeline.

Module Compression.

Definition _MIN_SIZE : Z := 100.
Definition _EXECUTOR_THRESHOLD : Z := 65536.
Definition _SERVER_PREFERENCE : list pystr := lit <$> ["br"; "zstd"; "gzip"]%string.

Definition _SKIP_CONTENT_TYPES : list pystr := lit <$>
  ["image/"; "audio/"; "video/"; "font/woff"; "font/woff2"; "application/font-woff"; "application/font-woff2";
   "application/zip"; "application/gzip"; "application/x-gzip"; "application/x-brotli"; "application/zstd";
   "application/x-zstd"; "application/pdf"; "application/wasm"]%string.

(** [b.decode('ascii', errors='ignore')] *)
Definition ascii_ignore (b : bytes) : pystr := filter (fun c => c < 128) b.

(** [b.split(c)[0]] *)
Definition before_char (c : Z) (b : bytes) : bytes := default [] (head (split_on c b)).

Definition _is_compressible_content_type (headers : HttpHeaders.t) : bool :=
  let ct := lower (strip WHITESPACE (before_char 59 (get (lit "content-type") [] headers))) in
  negb (existsb (startswith (ascii_ignore ct)) _SKIP_CONTENT_TYPES).

(** [_merge_vary] with its default field. *)
Definition vary_field : bytes := lit "Accept-Encoding".

Definition vary_covers (v : bytes) : bool :=
  let tokens := (fun t => lower (strip WHITESPACE t)) <$> split_on 44 v in
  bool_decide (lit "*" ∈ tokens) || bool_decide (lower vary_field ∈ tokens).

Fixpoint _merge_vary (headers : list field) : list field :=
  match headers with
  | [] => [(lit "vary", vary_field)]
  | (k, v) :: l =>
      if bool_decide (lower k = lit "vary")
      then (if vary_covers v then headers else (k, v ++ lit ", " ++ vary_field) :: l)
      else (k, v) :: _merge_vary l
  end.

Definition has_name (name : bytes) (l : list field) : bool := existsb (fun x => bool_decide (lower x.1 = name)) l.

(** The verdict and the fields, stamped or not. *)
Definition _stamp_vary_if_compressible (header : list field) : bool * list field :=
  if negb (_is_compressible_content_type (HttpHeaders.__init__ header)) then (false, header)
  else if has_name (lit "content-encoding") header then (false, header)
  else (true, _merge_vary header).

(** ** The choice of a codec *)

(** The names [_parse_accept_encoding] lists; the quality values only order them. *)
Definition accepted_name (token : bytes) : pystr := ascii_ignore (lower (strip WHITESPACE (before_char 59 (strip WHITESPACE token)))).
Definition _parse_accept_encoding (header : bytes) : list pystr :=
  filter (fun n => n <> []) (accepted_name <$> split_on 44 header).

Definition codec_cache : Type := dict bytes (option pystr).

Section Compression.
(** The codecs installed and what they make of a body. *)
Context (_available : list pystr) (compressor : pystr -> bytes -> bytes).
Context (_min_size _executor_threshold _executor_max_inflight : Z).

Definition choose (accept : bytes) : option pystr :=
  head (filter (fun c => (c ∈ _parse_accept_encoding accept) /\ c ∈ _available) _SERVER_PREFERENCE).

Definition _select_codec (accept : bytes) (cache : codec_cache) : option pystr * codec_cache :=
  match dget cache accept with
  | Some r => (r, cache)
  | None => let r := choose accept in (r, if zlen cache <? 256 then dset cache accept r else cache)
  end.

(** [None] when the executor is at its cap. *)
Definition _compress (inflight : Z) (codec : pystr) (body : bytes) : option bytes :=
  if (_executor_max_inflight >? 0) && (inflight >=? _executor_max_inflight) then None else Some (compressor codec body).

(** ** The two interceptors *)

(** [_vary_ensuring_send]: no codec is acceptable. *)
Definition vary_wanted (hs : list field) : bool :=
  let headers := HttpHeaders.__init__ hs in
  _is_compressible_content_type headers && bool_decide (get (lit "content-encoding") [] headers = []).

Definition set_header (hs : list field) (r : NativeResponse) : NativeResponse :=
  mkNative (status r) (Some hs) (_body r) (more_body r) (trailers r) (expects_trailers r) (file_path r).

Definition vary_send (e : send_event) : send_event :=
  match e with
  | SendNative r =>
      match _header r with
      | Some hs => if vary_wanted hs then SendNative (set_header (_merge_vary hs) r) else e
      | None => e
      end
  | ResponseStart st hs trailers => if vary_wanted hs then ResponseStart st (_merge_vary hs) trailers else e
  | _ => e
  end.

(** The variables of [__call__]; [streaming] is never set. *)
Record t : Type := mk {
  start_forwarded : bool;
  skip_compression : bool;
  pending_header : option NativeResponse
}.

Definition start : t := mk false false None.

(** The object whose fields were stamped. *)
Definition stamped (r : NativeResponse) : NativeResponse :=
  match _header r with Some hs => set_header (_stamp_vary_if_compressible hs).2 r | None => r end.

Definition _emit_native_complete (inflight : Z) (codec : pystr) (st : Z) (header : list field) (body : bytes)
    (original : option NativeResponse) : NativeResponse :=
  let '(candidate, header) := _stamp_vary_if_compressible header in
  let plain := match original with Some r => set_header header r | None => complete st header (Some body) end in
  if candidate && (_min_size <=? zlen body) then
    match (if (_executor_threshold >? 0) && (zlen body >=? _executor_threshold) then _compress inflight codec body
           else Some (compressor codec body)) with
    | Some compressed =>
        let existing := filter (fun x => lower x.1 <> lit "content-length") header ++
                        [(lit "content-encoding", codec); (lit "content-length", str_int (zlen compressed))] in
        complete st (_merge_vary existing) (Some compressed)
    | None => plain
    end
  else plain.

Definition _release_pending (held : NativeResponse) (s : t) : list send_event * t :=
  ([SendNative (stamped held)], mk true true (pending_header s)).

Definition plain_arms (r : NativeResponse) : bool := negb (expects_trailers r) && bool_decide (trailers r = None).

(** The terminal body of a held header; a whole response; a header alone. *)
Definition completes (r : NativeResponse) : bool :=
  bool_decide (_header r = None) && bool_decide (is_Some (_body r)) && negb (more_body r) && plain_arms r.
Definition is_whole (r : NativeResponse) : bool :=
  bool_decide (is_Some (_header r)) && bool_decide (is_Some (_body r)) && negb (more_body r) && plain_arms r.
Definition header_alone (r : NativeResponse) : bool :=
  bool_decide (is_Some (_header r)) && bool_decide (_body r = None) && plain_arms r.

Definition intercepting_send (inflight : Z) (codec : pystr) (e : send_event) (s : t) : list send_event * t :=
  match e with
  | SendNative r =>
      if start_forwarded s && skip_compression s then ([e], s)
      else
        match pending_header s with
        | Some held =>
            let s := mk (start_forwarded s) (skip_compression s) None in
            if completes r then
              ([SendNative (_emit_native_complete inflight codec (status held) (default [] (_header held)) (default [] (_body r)) None)],
               mk true (skip_compression s) None)
            else let '(out, s) := _release_pending held s in (out ++ [e], s)
        | None =>
            if negb (skip_compression s) && negb (start_forwarded s) && is_whole r then
              ([SendNative (_emit_native_complete inflight codec (status r) (default [] (_header r)) (default [] (_body r)) (Some r))],
               mk true (skip_compression s) None)
            else if negb (skip_compression s) && negb (start_forwarded s) && header_alone r then
              ([], mk (start_forwarded s) (skip_compression s) (Some r))
            else ([SendNative (stamped r)], mk (start_forwarded s || bool_decide (is_Some (_header r))) true None)
        end
  | _ =>
      let '(out, s) := match pending_header s with
                       | Some held => _release_pending held (mk (start_forwarded s) (skip_compression s) None)
                       | None => ([], s)
                       end in
      (out ++ [e], mk (start_forwarded s) true (pending_header s))
  end.

(** After [call_next] has returned. *)
Definition finish (s : t) : list send_event :=
  match pending_header s with Some held => [SendNative (stamped held)] | None => [] end.

(** The events of a handler, each with the load of the executor at its time. *)
Fixpoint intercept (codec : pystr) (es : list (Z * send_event)) (s : t) : list send_event * t :=
  match es with
  | [] => ([], s)
  | (inflight, e) :: es =>
      let '(out, s) := intercepting_send inflight codec (wrap_native_send e) s in
      let '(out', s) := intercept codec es s in (out ++ out', s)
  end.

(** [__call__]: what is sent for a handler's events, [returns] saying whether
    the handler returns. *)
Definition __call__ (c : Connection) (cache : codec_cache) (es : list (Z * send_event)) (returns : bool)
    : list send_event * codec_cache :=
  let '(selection, cache) := _select_codec (get (lit "accept-encoding") [] (headers c)) cache in
  match selection with
  | None => ((fun x => vary_send (wrap_native_send x.2)) <$> es, cache)
  | Some codec =>
      let '(out, s) := intercept codec es start in
      (out ++ (if returns then finish s else []), cache)
  end.

(** ** The Vary field *)

Fixpoint vary_covered (l : list field) : bool :=
  match l with
  | [] => false
  | (k, v) :: l => if bool_decide (lower k = lit "vary") then vary_covers v else vary_covered l
  end.

Lemma vary_covers_app v : vary_covers (v ++ lit ", " ++ vary_field) = true.
Proof.
  unfold vary_covers. apply orb_true_intro. right. apply bool_decide_eq_true.
  change (lit ", " ++ vary_field) with (44 :: (lit " " ++ vary_field)). rewrite split_on_snoc, fmap_app, elem_of_app. right.
  decide_it.
Qed.

Lemma merge_vary_covered l : vary_covered (_merge_vary l) = true.
Proof.
  induction l as [|[k v] l IH]; [done|]. cbn [_merge_vary]. case_bool_decide as Hk.
  - destruct (vary_covers v) eqn:Hv; cbn [vary_covered]; rewrite bool_decide_true by done; [done|apply vary_covers_app].
  - cbn [vary_covered]. by rewrite bool_decide_false.
Qed.

Lemma merge_vary_id l : vary_covered l = true -> _merge_vary l = l.
Proof.
  induction l as [|[k v] l IH]; [done|]. cbn [_merge_vary vary_covered]. case_bool_decide as Hk.
  - by intros ->.
  - intros H. by rewrite IH.
Qed.

Lemma vary_covered_filter l tl :
  vary_covered l = true -> vary_covered (filter (fun x => lower x.1 <> lit "content-length") l ++ tl) = true.
Proof.
  induction l as [|[k v] l IH]; [done|]. cbn [vary_covered]. rewrite filter_cons. cbn [fst]. case_bool_decide as Hk; intros H.
  - rewrite decide_True by (rewrite Hk; decide_it). cbn [app vary_covered]. by rewrite bool_decide_true.
  - destruct (decide _); [|by apply IH]. cbn [app vary_covered]. rewrite bool_decide_false by done. by apply IH.
Qed.

(** ** What is forwarded *)

(** An event sent on: as it is, or with the Vary field settled. *)
Definition forwarded (e e' : send_event) : Prop :=
  e' = e \/ exists r hs, e = SendNative r /\ _header r = Some hs /\ e' = SendNative (set_header (_merge_vary hs) r).

(** The answer is whole from the first event, or from the first two. *)
Inductive whole_answer (st : Z) (hs : list field) (body : bytes) : list send_event -> Prop :=
| answer_one r : is_whole r = true -> status r = st -> _header r = Some hs -> _body r = Some body ->
    whole_answer st hs body [SendNative r]
| answer_two h b : header_alone h = true -> completes b = true -> status h = st -> _header h = Some hs -> _body b = Some body ->
    whole_answer st hs body [SendNative h; SendNative b].

(** What a whole answer becomes. *)
Definition same_answer (st : Z) (hs : list field) (body : bytes) (r : NativeResponse) : Prop :=
  status r = st /\ (_header r = Some hs \/ _header r = Some (_merge_vary hs)) /\ _body r = Some body /\ more_body r = false /\
  trailers r = None /\ expects_trailers r = false.

Definition compressed_answer (codec : pystr) (st : Z) (hs : list field) (body : bytes) (r : NativeResponse) : Prop :=
  _is_compressible_content_type (HttpHeaders.__init__ hs) = true /\ has_name (lit "content-encoding") hs = false /\
  _min_size <= zlen body /\
  r = complete st (filter (fun x => lower x.1 <> lit "content-length") (_merge_vary hs) ++
                   [(lit "content-encoding", codec); (lit "content-length", str_int (zlen (compressor codec body)))])
        (Some (compressor codec body)).

Lemma stamp_cases hs :
  (_stamp_vary_if_compressible hs).2 = hs \/ (_stamp_vary_if_compressible hs).2 = _merge_vary hs.
Proof. unfold _stamp_vary_if_compressible. destruct (negb _); [by left|]. destruct (has_name _ hs); [by left|by right]. Qed.

Lemma stamped_forwarded r : forwarded (SendNative r) (SendNative (stamped r)).
Proof.
  unfold stamped. destruct (_header r) as [hs|] eqn:Eh; [|by left]. destruct (stamp_cases hs) as [->| ->].
  - left. f_equal. destruct r. by cbn in *; subst.
  - right. by exists r, hs.
Qed.

Lemma emit_cases inflight codec st hs body original :
  (forall r, original = Some r -> status r = st /\ _body r = Some body /\ more_body r = false /\ plain_arms r = true) ->
  same_answer st hs body (_emit_native_complete inflight codec st hs body original) \/
  compressed_answer codec st hs body (_emit_native_complete inflight codec st hs body original).
Proof.
  intros Ho. unfold _emit_native_complete. pose proof (stamp_cases hs) as Hs.
  destruct (_stamp_vary_if_compressible hs) as [candidate header] eqn:E. cbn [snd] in Hs.
  set (plain := match original with Some _ => _ | None => _ end).
  assert (Hp : same_answer st hs body plain).
  { subst plain. destruct original as [r|].
    - destruct (Ho r eq_refl) as (H1 & H2 & H3 & [H4 H5]%andb_prop). apply bool_decide_eq_true in H5.
      unfold same_answer. cbn. destruct (expects_trailers r); [done|]. split_and!; try done. destruct Hs as [->| ->]; auto.
    - unfold same_answer. cbn. split_and!; try done. destruct Hs as [->| ->]; auto. }
  destruct candidate; [|by left]. cbn [andb]. destruct (Z.leb_spec _min_size (zlen body)); [|by left].
  unfold _stamp_vary_if_compressible in E. destruct (_is_compressible_content_type _) eqn:Ec; [|done].
  destruct (has_name (lit "content-encoding") hs) eqn:Ee; [done|]. injection E as <-.
  assert (Hc : compressed_answer codec st hs body
    (complete st (_merge_vary (filter (fun x => lower x.1 <> lit "content-length") (_merge_vary hs) ++
       [(lit "content-encoding", codec); (lit "content-length", str_int (zlen (compressor codec body)))])) (Some (compressor codec body)))).
  { split_and!; [done|done|done|]. by rewrite merge_vary_id by (apply vary_covered_filter, merge_vary_covered). }
  unfold _compress. destruct (_ && _); [|by right]. destruct (_ && _); [by left|by right].
Qed.

(** ** The interception *)

Lemma forwarded_refl e : forwarded e e.
Proof. by left. Qed.

Definition wrapped (es : list (Z * send_event)) : list send_event := (fun x => wrap_native_send x.2) <$> es.

(** Once something has gone out, events are forwarded one by one. *)
Definition settled (s : t) : Prop := pending_header s = None /\ skip_compression s || start_forwarded s = true.

Lemma settled_step inflight codec e s :
  settled s -> exists e', forwarded e e' /\ (intercepting_send inflight codec e s).1 = [e'] /\
    settled (intercepting_send inflight codec e s).2.
Proof.
  intros [Hp Hs]. destruct s as [fwd skip p]. cbn in Hp, Hs. subst p.
  assert (Ho : forall b, settled (mk b true None)) by (intros b; by split).
  destruct e as [? ? ?|r|? ? ?|? ?|?|?| |]; cbn [intercepting_send pending_header start_forwarded skip_compression app];
    try (eexists; split; [apply forwarded_refl|]; split; [reflexivity|apply Ho]).
  destruct (fwd && skip) eqn:Ed; [by eexists; split; [apply forwarded_refl|]|].
  assert (Hz : negb skip && negb fwd = false) by (by destruct fwd, skip). rewrite !Hz. cbn [andb].
  exists (SendNative (stamped r)). split; [apply stamped_forwarded|]. split; [done|apply Ho].
Qed.

Lemma settled_all codec es s :
  settled s -> Forall2 forwarded (wrapped es) (intercept codec es s).1 /\ settled (intercept codec es s).2.
Proof.
  revert s. induction es as [|[n e] es IH]; intros s Hs; [done|]. cbn [wrapped fmap list_fmap intercept snd].
  destruct (settled_step n codec (wrap_native_send e) s Hs) as (e' & Hf & Ho & Hs1).
  destruct (intercepting_send n codec (wrap_native_send e) s) as [out s1]. cbn [fst snd] in *. subst out.
  specialize (IH s1 Hs1). destruct (intercept codec es s1) as [out2 s2]. destruct IH as [H1 H2]. split; [|done].
  by constructor.
Qed.

Lemma settled_finish s : settled s -> finish s = [].
Proof. intros [Hp _]. unfold finish. by rewrite Hp. Qed.

(** What goes out for a handler's events, from a state of the interceptor. *)
Definition emitted (codec : pystr) (es : list (Z * send_event)) (s : t) : list send_event :=
  (intercept codec es s).1 ++ finish (intercept codec es s).2.

Lemma emitted_settled codec es s : settled s -> Forall2 forwarded (wrapped es) (emitted codec es s).
Proof.
  intros Hs. unfold emitted. destruct (settled_all codec es s Hs) as [H1 H2]. by rewrite settled_finish, app_nil_r.
Qed.

Lemma emitted_cons codec n e es s :
  emitted codec ((n, e) :: es) s =
  (intercepting_send n codec (wrap_native_send e) s).1 ++ emitted codec es (intercepting_send n codec (wrap_native_send e) s).2.
Proof.
  unfold emitted. cbn [intercept]. destruct (intercepting_send _ _ _ s) as [out s1]. cbn [fst snd].
  destruct (intercept codec es s1) as [out2 s2]. cbn [fst snd]. by rewrite app_assoc.
Qed.

(** What a handler's events become. *)
Definition compressed_or_not (codec : pystr) (ws out : list send_event) : Prop :=
  Forall2 forwarded ws out \/
  exists st hs body first rest r out',
    ws = first ++ rest /\ whole_answer st hs body first /\ out = SendNative r :: out' /\ Forall2 forwarded rest out' /\
    (same_answer st hs body r \/ compressed_answer codec st hs body r).

Lemma settled_skip b : settled (mk b true None).
Proof. by split. Qed.

Lemma settled_started : settled (mk true false None).
Proof. by split. Qed.

(** A head is being held. *)
Lemma emitted_pending codec es h :
  header_alone h = true -> compressed_or_not codec (SendNative h :: wrapped es) (emitted codec es (mk false false (Some h))).
Proof.
  intros Hh. assert (Hs : forall e out, Forall2 forwarded (wrapped es) out ->
    Forall2 forwarded (e :: wrapped es) (e :: out)) by (intros; constructor; [apply forwarded_refl|done]).
  destruct es as [|[n e] es]; [left; constructor; [apply stamped_forwarded|constructor]|]. clear Hs.
  rewrite emitted_cons. change (wrapped ((n, e) :: es)) with (wrap_native_send e :: wrapped es).
  assert (Hrel : forall e, compressed_or_not codec (SendNative h :: e :: wrapped es)
    ([SendNative (stamped h); e] ++ emitted codec es (mk true true None))).
  { intros e'. left. constructor; [apply stamped_forwarded|]. constructor; [apply forwarded_refl|]. apply emitted_settled, settled_skip. }
  destruct (wrap_native_send e) as [? ? ?|r|? ? ?|? ?|?|?| |]; cbn [intercepting_send pending_header start_forwarded skip_compression andb _release_pending app fst snd];
    try apply Hrel.
  destruct (completes r) eqn:Er; [|apply Hrel]. cbn [fst snd app].
  pose proof Hh as Hh2. unfold header_alone in Hh2. apply andb_prop in Hh2 as [[E1 _]%andb_prop _]. apply bool_decide_eq_true in E1 as [hs Ehs].
  pose proof Er as Er2. unfold completes in Er2. apply andb_prop in Er2 as [[[_ E2]%andb_prop _]%andb_prop _]. apply bool_decide_eq_true in E2 as [body Eb].
  right. exists (status h), hs, body, [SendNative h; SendNative r], (wrapped es). eexists _, _.
  split; [done|]. split; [by constructor|]. split; [reflexivity|]. split; [apply emitted_settled, settled_started|].
  rewrite Ehs, Eb. cbn [default]. by apply emit_cases.
Qed.

Lemma emitted_start codec es : compressed_or_not codec (wrapped es) (emitted codec es start).
Proof.
  destruct es as [|[n e] es]; [left; constructor|].
  rewrite emitted_cons. change (wrapped ((n, e) :: es)) with (wrap_native_send e :: wrapped es).
  destruct (wrap_native_send e) as [? ? ?|r|? ? ?|? ?|?|?| |];
    cbn [intercepting_send start pending_header start_forwarded skip_compression app fst snd andb negb orb];
    try (left; constructor; [apply forwarded_refl|apply emitted_settled, settled_skip]).
  destruct (is_whole r) eqn:Ew.
  - pose proof Ew as Ew2. unfold is_whole in Ew2. apply andb_prop in Ew2 as [[[E1 E2]%andb_prop E3]%andb_prop E4].
    apply bool_decide_eq_true in E1 as [hs Hh], E2 as [body Hb].
    right. exists (status r), hs, body, [SendNative r], (wrapped es). eexists _, _.
    split; [done|]. split; [by constructor|]. split; [reflexivity|]. split; [apply emitted_settled, settled_started|].
    rewrite Hh, Hb. cbn [default]. apply emit_cases. intros r' [= <-]. split_and!; [done|done|by destruct (more_body r)|done].
  - destruct (header_alone r) eqn:Eh; cbn [fst snd app]; [by apply emitted_pending|].
    left. constructor; [apply stamped_forwarded|apply emitted_settled, settled_skip].
Qed.

(** ** The choice *)

(** What the codec cache holds is what a fresh choice gives. *)
Definition cache_ok (cache : codec_cache) : Prop :=
  zlen cache <= 256 /\ forall accept r, dget cache accept = Some r -> r = choose accept.

Lemma select_codec_choose accept cache :
  cache_ok cache -> (_select_codec accept cache).1 = choose accept /\ cache_ok (_select_codec accept cache).2.
Proof.
  intros [Hl Hc]. unfold _select_codec. destruct (dget cache accept) as [r|] eqn:E; [by split; [apply Hc|]|].
  split; [done|]. cbn [snd]. destruct (Z.ltb_spec (zlen cache) 256); [|done]. split.
  - unfold zlen in *. rewrite length_dset. destruct (dmem cache accept); lia.
  - intros a r. rewrite dget_dset. destruct (decide _) as [->|]; [by intros [= <-]|apply Hc].
Qed.

Lemma vary_send_forwarded e : forwarded e (vary_send e) \/ exists st hs ts, e = ResponseStart st hs ts.
Proof.
  destruct e as [? ? ?|r|st hs ts|? ?|?|?| |]; try by (left; left). 2: { right. by eexists _, _, _. }
  left. cbn. destruct (_header r) as [hs|] eqn:Eh; [|by left]. destruct (vary_wanted hs); [|by left].
  right. by exists r, hs.
Qed.

(** C26: compression changes the coding of a response and nothing else.  For every
    request, every list of events its handler may send and every load of the
    executor: either each event is sent on in its order, at most with
    Accept-Encoding added to the Vary of its fields; or the first events were a
    whole answer, which goes out in one object — the same status and octets, or,
    when the type is compressible, no coding is applied yet and the body is long
    enough, the octets the codec makes of the body, with Content-Encoding, the new
    Content-Length and Vary among fields that are otherwise the same — and what
    follows is sent on.  The codec is installed, the client has named it, and the
    memo of choices never gives another one. *)
Theorem compression_transparent c cache es out cache' :
  cache_ok cache -> __call__ c cache es true = (out, cache') ->
  cache_ok cache' /\
  match choose (get (lit "accept-encoding") [] (headers c)) with
  | None => Forall2 forwarded (wrapped es) out
  | Some codec =>
      codec ∈ _parse_accept_encoding (get (lit "accept-encoding") [] (headers c)) /\ codec ∈ _available /\
      (Forall2 forwarded (wrapped es) out \/
       exists st hs body first rest r out',
         wrapped es = first ++ rest /\ whole_answer st hs body first /\ out = SendNative r :: out' /\ Forall2 forwarded rest out' /\
         (same_answer st hs body r \/ compressed_answer codec st hs body r))
  end.
Proof.
  intros Hc. unfold __call__. destruct (select_codec_choose (get (lit "accept-encoding") [] (headers c)) cache Hc) as [Hs Hc2].
  destruct (_select_codec _ cache) as [selection cache2]. cbn [fst snd] in *. subst selection.
  destruct (choose _) as [codec|] eqn:Ech.
  - destruct (intercept codec es start) as [out2 s2] eqn:Ei. intros [= <- <-]. split; [done|].
    unfold choose in Ech. apply head_Some_elem_of, list_elem_of_filter in Ech as [[H1 H2] _]. split; [done|]. split; [done|].
    pose proof (emitted_start codec es) as He. unfold emitted in He. by rewrite Ei in He.
  - intros [= <- <-]. split; [done|]. unfold wrapped. clear. induction es as [|[n e] es IH]; [constructor|]. cbn [fmap list_fmap snd].
    constructor; [|exact IH]. destruct (vary_send_forwarded (wrap_native_send e)) as [H|(st & hs & ts & H)]; [done|]. by destruct e.
Qed.

End Compression.

(** ** Sample responses *)

Module Sample.

(** A codec that repeats nothing: the length of the body and its first octet. *)
Definition toy (codec : pystr) (body : bytes) : bytes := codec ++ [zlen body; default 0 (head body)].
Definition installed : list pystr := lit <$> ["gzip"; "br"]%string.
Definition get (accept : string) : Connection :=
  mkConn (lit "http") (lit "GET") (lit "http") (lit "/") [] [] (HttpHeaders.__init__ [(lit "Accept-Encoding", lit accept)]) None [].
Definition call (accept : string) (es : list send_event) : list send_event :=
  (__call__ installed toy _MIN_SIZE _EXECUTOR_THRESHOLD 4 (get accept) [] ((fun e => (0, e)) <$> es) true).1.
Definition text : bytes := repeat 97 150.
Definition page (st : Z) (hs : list (string * string)) : send_event :=
  SendBytes text st ((lit "content-type", lit "text/plain") :: ((fun x => (lit x.1, lit x.2)) <$> hs)).
Definition coded (st : Z) (hs : list (string * string)) (codec : string) : send_event :=
  SendNative (complete st ((lit "content-type", lit "text/plain") :: ((fun x => (lit x.1, lit x.2)) <$> hs) ++
    [(lit "vary", lit "Accept-Encoding"); (lit "content-encoding", lit codec); (lit "content-length", str_int (zlen (toy (lit codec) text)))])
    (Some (toy (lit codec) text))).

(** The server's order decides, and a held head is joined with its body. *)
Lemma coding_ordinary :
  call "gzip, br" [page 200 []] = [coded 200 [] "br"] /\
  call "gzip" [ResponseStart 200 [(lit "content-type", lit "text/plain"); (lit "content-length", lit "150")] false; ResponseBody text false]
    = [coded 200 [] "gzip"].
Proof. vm_compute. done. Qed.

Lemma compression_transparent_witness :
  let es := [(0, page 200 [])] in
  cache_ok installed [] /\
  __call__ installed toy _MIN_SIZE _EXECUTOR_THRESHOLD 4 (get "gzip") [] es true = ([coded 200 [] "gzip"], [(lit "gzip", Some (lit "gzip"))]) /\
  cache_ok installed [(lit "gzip", Some (lit "gzip"))] /\
  match choose installed (HttpHeaders.get (lit "accept-encoding") [] (headers (get "gzip"))) with
  | None => Forall2 forwarded (wrapped es) [coded 200 [] "gzip"]
  | Some codec =>
      codec ∈ _parse_accept_encoding (HttpHeaders.get (lit "accept-encoding") [] (headers (get "gzip"))) /\ codec ∈ installed /\
      (Forall2 forwarded (wrapped es) [coded 200 [] "gzip"] \/
       exists st hs body first rest r out',
         wrapped es = first ++ rest /\ whole_answer st hs body first /\ [coded 200 [] "gzip"] = SendNative r :: out' /\
         Forall2 forwarded rest out' /\
         (same_answer st hs body r \/ compressed_answer toy _MIN_SIZE codec st hs body r))
  end.
Proof.
  assert (Hc : cache_ok installed []) by done.
  assert (Hr : __call__ installed toy _MIN_SIZE _EXECUTOR_THRESHOLD 4 (get "gzip") [] [(0, page 200 [])] true =
    ([coded 200 [] "gzip"], [(lit "gzip", Some (lit "gzip"))])) by (vm_compute; reflexivity).
  split; [exact Hc|]. split; [exact Hr|].
  exact (compression_transparent installed toy _MIN_SIZE _EXECUTOR_THRESHOLD 4 (get "gzip") [] _ _ _ Hc Hr).
Defined.

(** A coding the client refuses with a quality of zero is used. *)
Lemma refused_coding_used : call "gzip;q=0" [page 200 []] = [coded 200 [] "gzip"].
Proof. vm_compute. reflexivity. Qed.

(** A part of a file is coded, under the range of the file that is not. *)
Lemma part_is_coded :
  call "gzip" [page 206 [("content-range", "bytes 0-149/300")%string]] = [coded 206 [("content-range", "bytes 0-149/300")%string] "gzip"].
Proof. vm_compute. reflexivity. Qed.

(** The coded response has the strong validator of the plain one. *)
Lemma strong_tag_shared :
  call "gzip" [page 200 [("etag", "x")%string]] = [coded 200 [("etag", "x")%string] "gzip"].
Proof. vm_compute. reflexivity. Qed.

(** A file is not sent on when it is sent, but when the handler returns. *)
Lemma file_held :
  let f := SendNative (mkNative 200 (Some []) None false None false (Some (mkFile 1 [97] true))) in
  (intercepting_send toy _MIN_SIZE _EXECUTOR_THRESHOLD 4 0 (lit "gzip") f start).1 = [] /\ length (call "gzip" [f]) = 1%nat.
Proof. vm_compute. done. Qed.

End Sample.
End Compression.
