(* ===== verification/Cors.v ===== *)
(** * Cross-origin requests and trusted proxies (blackbull/middleware/cors.py, proxy.py)

    [CORS]: the fields added for an allowed origin, and the preflight answer.
    [TrustedProxy]: what a request becomes behind a trusted peer; [ipaddress] is
    a parameter.  Behind the cache, no response carries the permission of
    another origin. *)

From Stdlib Require Import ZArith Lia.
From stdpp Require Import base tactics numbers option strings sets list.
From S2P Require Import Prelude PyLib PyText PyBytes H2Frames HttpHeaders Http1Sender Pipeline Cache.
Import HttpHeaders Http1Sender Pipeline.

Module Cors.

Record t : Type := mk {
  _origins : list pystr;
  _wildcard : bool;
  _methods : pystr;
  _allow_hdrs : pystr;
  _credentials : bool;
  _expose : pystr;
  _max_age : option pystr
}.

Definition star : pystr := lit "*".

(** [CORS.__init__]; a string is a list of one. *)
Definition __init__ (allow_origins : list pystr) (allow_methods : option (list pystr)) (allow_headers : list pystr)
    (allow_credentials : bool) (expose_headers : option (list pystr)) (max_age : option Z) : result t :=
  if allow_credentials && bool_decide (star ∈ allow_origins) then Raise ValueError
  else
    let methods := match allow_methods with
                   | Some ((_ :: _) as l) => l
                   | _ => lit <$> ["GET"; "POST"; "HEAD"; "OPTIONS"]%string
                   end in
    Ok (mk allow_origins (bool_decide (star ∈ allow_origins)) (join [44] methods)
          (if bool_decide (allow_headers = [star]) then star else join [44] allow_headers)
          allow_credentials (join [44] (default [] expose_headers)) (str_int <$> max_age)).

Section Cors.
Context (cfg : t).

Definition _is_allowed (origin : pystr) : bool := _wildcard cfg || bool_decide (origin ∈ _origins cfg).

Definition _cors_headers (origin : pystr) : result (list field) :=
  let* allow := (if _wildcard cfg then Ok star else utf8_encode origin) in
  let* expose := utf8_encode (_expose cfg) in
  Ok ((lit "access-control-allow-origin", allow) ::
      (if _credentials cfg then [(lit "access-control-allow-credentials", lit "true")] else []) ++
      (if bool_decide (_expose cfg = []) then [] else [(lit "access-control-expose-headers", expose)]) ++
      (if _wildcard cfg then [] else [(lit "vary", lit "Origin")])).

Definition _preflight_headers (origin : pystr) : result (list field) :=
  let* hdrs := _cors_headers origin in
  let* methods := utf8_encode (_methods cfg) in
  let* allow := utf8_encode (_allow_hdrs cfg) in
  Ok (hdrs ++ [(lit "access-control-allow-methods", methods); (lit "access-control-allow-headers", allow)] ++
      match _max_age cfg with Some ((_ :: _) as n) => [(lit "access-control-max-age", n)] | _ => [] end).

(** [_injecting_send] *)
Definition cors_send (cors_hdrs : list field) (e : send_event) : send_event :=
  match e with
  | SendNative r =>
      match _header r with
      | Some hs => SendNative (mkNative (status r) (Some (hs ++ cors_hdrs)) (_body r) (more_body r) (trailers r)
                                 (expects_trailers r) (file_path r))
      | None => e
      end
  | ResponseStart st hs trailers => ResponseStart st (hs ++ cors_hdrs) trailers
  | _ => e
  end.

(** What is sent for a request whose handler sends [es]: [inl] when the handler
    is called, [inr] when it is not. *)
Definition __call__ (c : Connection) (es : list send_event) : result (list send_event + send_event) :=
  let* origin := utf8_decode (get (lit "origin") [] (headers c)) in
  if bool_decide (origin = []) || negb (_is_allowed origin) then Ok (inl es)
  else if bool_decide (method c = lit "OPTIONS") && negb (bool_decide (get (lit "access-control-request-method") [] (headers c) = []))
  then let* hdrs := _preflight_headers origin in Ok (inr (SendNative (complete 200 hdrs (Some []))))
  else let* hdrs := _cors_headers origin in Ok (inl ((fun e => cors_send hdrs (wrap_native_send e)) <$> es)).

End Cors.

(** ** Behind the cache *)

Definition ACAO : bytes := lit "access-control-allow-origin".

(** The fields of a head. *)
Definition head_of (e : send_event) : option (list field) :=
  match wrap_native_send e with SendNative r => _header r | _ => None end.

Lemma answer_headers es :
  a_headers (answers es) = [] \/ exists e, e ∈ es /\ head_of e = Some (a_headers (answers es)).
Proof.
  induction es as [|e es IH] using rev_ind; [by left|]. rewrite answers_snoc.
  assert (Hk : a_headers (answer_event e (answers es)) = default (a_headers (answers es)) (head_of e)).
  { unfold answer_event, head_of. destruct (wrap_native_send e) as [? ? ?|r|? ? ?|? ?|?|f| |]; try done.
    unfold answer_native. destruct (_header r), (file_path r); try done; by destruct (_body r). }
  rewrite Hk. destruct (head_of e) as [hs|] eqn:Eh.
  - right. exists e. split; [set_solver|done].
  - cbn. destruct IH as [IH|(e' & Hin & IH)]; [by left|right]. exists e'. split; [set_solver|done].
Qed.

Lemma elem_insert_sorted f g l : f ∈ Cache.insert_sorted_field g l <-> f = g \/ f ∈ l.
Proof.
  induction l as [|h l IH]; cbn [Cache.insert_sorted_field]; [set_solver|]. case_bool_decide; [set_solver|].
  destruct (Cache.bytes_lt g h); [set_solver|]. rewrite !elem_of_cons, IH. set_solver.
Qed.

Lemma vary_names hs fields v name :
  Cache._response_vary hs = Some fields -> (lit "vary", v) ∈ hs ->
  name ∈ (fun p => lower (strip WHITESPACE p)) <$> split_on 44 v -> name <> [] -> name ∈ fields.
Proof.
  unfold Cache._response_vary. case_bool_decide; [done|]. intros [= <-] Hv Hn Hne.
  assert (Hp : name ∈ filter (fun t => t <> []) (Cache.pieces (lit "vary") hs)).
  { apply list_elem_of_filter. split; [done|]. unfold Cache.pieces. apply list_elem_of_join.
    exists ((fun p => lower (strip WHITESPACE p)) <$> split_on 44 v). split; [done|].
    apply list_elem_of_fmap. exists (lit "vary", v). split; [done|]. by apply list_elem_of_filter. }
  revert Hp. generalize (filter (fun t => t <> []) (Cache.pieces (lit "vary") hs)). intros l Hl.
  induction l as [|x l IH]; [set_solver|]. cbn [foldr]. apply elem_insert_sorted. set_solver.
Qed.

Section Behind.
Context (cfg : t).

(** The permission of an origin: the fields begin with it, and tell caches that
    they depend on it. *)
Definition permits (origin : bytes) (added : list field) : Prop :=
  exists v tl, added = (ACAO, v) :: tl /\ (v = star \/ v = origin /\ ((lit "vary", lit "Origin") ∈ added)).

Lemma cors_headers_permits b origin hdrs :
  bytes_ok b -> utf8_decode b = Ok origin -> _cors_headers cfg origin = Ok hdrs -> permits b hdrs.
Proof.
  intros Hb Hd. unfold _cors_headers. destruct (_wildcard cfg); cbn [rbind].
  - destruct (utf8_encode _) as [ex|e]; [|done]. cbn [rbind]. intros [= <-]. eexists _, _. split; [done|by left].
  - rewrite (utf8_decode_sound b origin Hb Hd). cbn [rbind]. destruct (utf8_encode _) as [ex|e]; [|done]. cbn [rbind].
    intros [= <-]. eexists _, _. split; [done|]. right. split; [done|]. set_solver.
Qed.

(** What a handler behind CORS may send in answer to [c]. *)
Definition cors_sends (c : Connection) (out : list send_event) : Prop :=
  exists es r, __call__ cfg c es = Ok r /\
    Forall (fun e => forall hs, head_of e = Some hs -> first_value ACAO hs = None) es /\
    out `prefix_of` match r with inl es => es | inr e => [e] end.

(** Every head has no permission, or that of the origin of the request. *)
Lemma cors_heads c out e hs :
  ok (headers c) -> Forall (fun x => bytes_ok x.2) (_list (headers c)) ->
  cors_sends c out -> e ∈ out -> head_of e = Some hs ->
  first_value ACAO hs = None \/
  exists hs0 added tl, hs = hs0 ++ added ++ tl /\ first_value ACAO hs0 = None /\
    permits (default [] (first_value (lit "origin") (_list (headers c)))) added.
Proof.
  intros Hok Hbytes (es & r & Hr & Hes & [l Hp]) Hin Hh. rewrite Forall_forall in Hes. unfold __call__ in Hr.
  assert (He : e ∈ match r with inl es => es | inr e => [e] end) by (rewrite Hp; set_solver). clear Hp l.
  rewrite get_first in Hr by done. set (b := default [] (first_value _ _)) in *.
  assert (Hb : bytes_ok b).
  { subst b. clear -Hbytes. induction Hbytes as [|[k v] l Hv _ IH]; [constructor|]. cbn [first_value]. by destruct (bool_decide _). }
  destruct (utf8_decode b) as [origin|x] eqn:Ed; [|done]. cbn [rbind] in Hr.
  destruct (_ || _) in Hr. { injection Hr as <-. left. by apply (Hes e). }
  destruct (_ && _) in Hr; unfold _preflight_headers in *; destruct (_cors_headers cfg origin) as [hdrs|x] eqn:Ec; cbn [rbind] in Hr; try done.
  - destruct (utf8_encode (_methods cfg)) as [ms|x]; [|done]. destruct (utf8_encode (_allow_hdrs cfg)) as [ah|x]; [|done].
    cbn [rbind] in Hr. injection Hr as <-. right. apply list_elem_of_singleton in He as ->. cbn in Hh. injection Hh as <-.
    exists [], hdrs. eexists. split; [done|]. split; [done|]. by eapply cors_headers_permits.
  - injection Hr as <-. apply list_elem_of_fmap in He as (e0 & -> & He0). right. specialize (Hes e0 He0). unfold head_of in *.
    destruct (wrap_native_send e0) as [? ? ?|r|? ? ?|? ?|?|f| |] eqn:Ew; cbn [cors_send] in Hh;
      try (cbn in Hh; congruence); try (rewrite <- Ew in Hh; cbn in Hh; by destruct e0).
    + destruct (_header r) as [hs0|] eqn:Eh; cbn [wrap_native_send _header] in Hh; [|by rewrite Eh in Hh]. injection Hh as <-.
      exists hs0, hdrs, []. rewrite app_nil_r. split; [done|]. split; [by apply Hes|by eapply cors_headers_permits].
    + by destruct e0.
Qed.
(** C27: the cache in front of CORS never passes the permission of one origin to
    another.  In every run of the cache over requests whose handlers answer
    through the CORS middleware — handlers that set no permission of their own —
    whatever is answered from the cache carries no permission, the wildcard, or
    the origin of the very request it answers, though it was made for another
    request. *)
Theorem cors_through_cache sha256 settings l now c r s' hs v :
  (forall f, f ∈ Cache.flights (Cache.run sha256 settings l Cache.init) ->
     ok (headers (Cache.f_conn f)) /\ Forall (fun x => bytes_ok x.2) (_list (headers (Cache.f_conn f))) /\
     cors_sends (Cache.f_conn f) (snd <$> Cache.f_events f)) ->
  Cache.lookup settings now c (Cache._store (Cache.run sha256 settings l Cache.init)) = (Cache.Hit r, s') ->
  _header r = Some hs -> first_value ACAO hs = Some v ->
  v = star \/ v = default [] (first_value (lit "origin") (_list (headers c))).
Proof.
  intros Hf Hl Hh Hv. destruct (Cache.hit_fields _ _ _ _ _ _ _ _ Hl Hh) as
    [[e ->]|(f & before & tm & ev & after & fields & Hin & Hev & Hval & Hvary & Hsame)]; [done|].
  destruct (Hf f Hin) as (Hok & Hbytes & Hc). rewrite Hev in Hc. set (pre := before ++ [(tm, ev)]) in *.
  assert (Ha : first_value ACAO (a_headers (answers (snd <$> pre))) = Some v).
  { destruct Hval as [<-|(_ & e & ->)]; [done|]. rewrite first_value_app in Hv. by destruct (first_value ACAO _). }
  destruct (answer_headers (snd <$> pre)) as [E|(e & He & Hhe)]; [by rewrite E in Ha|].
  assert (He2 : e ∈ snd <$> before ++ (tm, ev) :: after).
  { replace (before ++ (tm, ev) :: after) with (pre ++ after) by (subst pre; by rewrite <- app_assoc). rewrite fmap_app. set_solver. }
  destruct (cors_heads _ _ _ _ Hok Hbytes Hc He2 Hhe) as [Hn|(hs0 & added & tl & E & Hn & v' & tl' & Ead & Hp)]; [congruence|].
  rewrite E, first_value_app, Hn, Ead in Ha. cbn in Ha. injection Ha as <-.
  destruct Hp as [->|[-> Hvo]]; [by left|right]. symmetry. apply Hsame.
  eapply (vary_names hs fields (lit "Origin")); [done| |decide_it|done].
  assert (Hall : (lit "vary", lit "Origin") ∈ a_headers (answers (snd <$> pre))) by (rewrite E; set_solver).
  destruct Hval as [->|(_ & e' & ->)]; set_solver.
Qed.

End Behind.

(** ** Trusted proxies *)

(** [str.lower()] is taken on ASCII. *)
Definition quote : list Z := [34].

(** [_parse_forwarded] *)
Definition forwarded_part (acc : dict pystr pystr) (part : pystr) : dict pystr pystr :=
  let part := strip SPACE part in
  let '(k, found, v) := partition_char 61 part in
  if found : bool then dset acc (lower (strip SPACE k)) (strip quote (strip SPACE v)) else acc.

Definition _parse_forwarded (value : pystr) : dict pystr pystr :=
  foldl forwarded_part [] (split_on 59 (default [] (head (split_on 44 value)))).

Section Proxy.
(** [ipaddress.ip_address], and membership in the configured networks. *)
Context {A : Type} (ip_address : pystr -> option A) (_networks : list (A -> bool)).

Definition _is_trusted (ip : pystr) : bool :=
  match ip_address ip with None => false | Some addr => existsb (fun net => net addr) _networks end.

Definition text (name : string) (c : Connection) : result pystr := utf8_decode (get (lit name) [] (headers c)).

(** The first entry of the chain that is not trusted. *)
Definition leftmost (xff : pystr) : option pystr :=
  head (filter (fun h => _is_trusted h = false) (strip SPACE <$> split_on 44 xff)).

Definition set_edge (client' : option (pystr * Z)) (scheme' : option pystr) (root : option pystr) (c : Connection) : Connection :=
  mkConn (type_ c) (method c) (default (scheme c) scheme') (path c) (query_string c) (default (root_path c) root) (headers c)
    (match client' with Some x => Some x | None => client c end) (extensions c).

(** [TrustedProxy.__call__]: the request handed on. *)
Definition proxied (c : Connection) : result Connection :=
  if negb (bool_decide (type_ c ∈ lit <$> ["http"; "websocket"]%string)) then Ok c
  else if negb (_is_trusted (match client c with Some (ip, _) => ip | None => [] end)) then Ok c
  else
    let* forwarded := text "forwarded" c in
    let* '(client', scheme') :=
      if negb (bool_decide (forwarded = [])) then
        let parsed := _parse_forwarded forwarded in
        Ok ((fun v => (lstrip [91] v, 0)) <$> dget parsed (lit "for"), dget parsed (lit "proto"))
      else
        let* xff := text "x-forwarded-for" c in
        let* xfp := text "x-forwarded-proto" c in
        Ok (if bool_decide (xff = []) then None else (fun h => (h, 0)) <$> leftmost xff,
            if bool_decide (xfp = []) then None else Some (lower (strip SPACE xfp))) in
    let* prefix := text "x-forwarded-prefix" c in
    Ok (set_edge client' scheme' (if bool_decide (prefix = []) then None else Some (rstrip [47] prefix)) c).

End Proxy.

(** ** Sample requests *)

Module Sample.

Definition cfg : t :=
  match __init__ [lit "https://a.example"; lit "https://b.example"] None [star] true None (Some 600) with
  | Ok c => c | Raise _ => mk [] false [] [] false [] None end.

Definition request (meth origin : string) (more : list (string * string)) : Connection :=
  mkConn (lit "http") (lit meth) (lit "http") (lit "/") [] []
    (HttpHeaders.__init__ ((lit "Origin", lit origin) :: ((fun x => (lit x.1, lit x.2)) <$> more))) None [].

Definition page : send_event := SendBytes (lit "hi") 200 [].

(** The fields of the answers. *)
Definition fields_of (r : result (list send_event + send_event)) : result (list (list field)) :=
  rmap (fun x => omap head_of (match x with inl es => es | inr e => [e] end)) r.

Lemma allowed_origin :
  fields_of (__call__ cfg (request "GET" "https://a.example" []) [page]) =
  Ok [[(ACAO, lit "https://a.example"); (lit "access-control-allow-credentials", lit "true"); (lit "vary", lit "Origin")]].
Proof. vm_compute. reflexivity. Qed.

Lemma preflight :
  fields_of (__call__ cfg (request "OPTIONS" "https://b.example" [("Access-Control-Request-Method", "PUT")%string]) [page]) =
  Ok [[(ACAO, lit "https://b.example"); (lit "access-control-allow-credentials", lit "true"); (lit "vary", lit "Origin");
       (lit "access-control-allow-methods", lit "GET,POST,HEAD,OPTIONS"); (lit "access-control-allow-headers", star);
       (lit "access-control-max-age", lit "600")]].
Proof. vm_compute. reflexivity. Qed.

(** The answer to an origin that is not allowed does not vary by origin: the
    cache answers an allowed origin with it. *)
Definition no_sha (b : bytes) : bytes := lit "00".
Definition denied_then_allowed : Cache.t :=
  Cache.run no_sha Cache.default_settings
    [(0, Cache.Arrives (request "GET" "https://evil.example" [])); (0, Cache.Sends 0 page); (0, Cache.Returns 0);
     (1, Cache.Arrives (request "GET" "https://a.example" []))] Cache.init.
Lemma denial_is_shared :
  fields_of (__call__ cfg (request "GET" "https://evil.example" []) [page]) = Ok [[]] /\
  option_map (fun f => omap head_of (Cache.f_sent f)) (Cache.flights denied_then_allowed !! 1%nat)
    = Some [[(lit "etag", Cache._make_etag no_sha [])]].
Proof. vm_compute. done. Qed.

Definition history : list (Z * Cache.happening) :=
  [(0, Cache.Arrives (request "GET" "https://a.example" []));
   (0, Cache.Sends 0 (cors_send (match _cors_headers cfg (lit "https://a.example") with Ok l => l | Raise _ => [] end) (wrap_native_send page)));
   (0, Cache.Returns 0)].

Lemma history_cors f :
  f ∈ Cache.flights (Cache.run no_sha Cache.default_settings history Cache.init) ->
  ok (headers (Cache.f_conn f)) /\ Forall (fun x => bytes_ok x.2) (_list (headers (Cache.f_conn f))) /\
  cors_sends cfg (Cache.f_conn f) (snd <$> Cache.f_events f).
Proof.
  intros Hf. assert (E : f = Cache.mkFlight (request "GET" "https://a.example" []) Cache.Ended
    [(0, cors_send (match _cors_headers cfg (lit "https://a.example") with Ok l => l | Raise _ => [] end) (wrap_native_send page))]
    (Cache.f_sent f)).
  { revert f Hf. vm_compute. intros f Hf. apply list_elem_of_singleton in Hf. by subst f. }
  rewrite E. split; [apply init_index_ok|]. split; [decide_it|].
  exists [page]. eexists. split; [vm_compute; reflexivity|]. split; [|by exists []].
  apply Forall_singleton. intros hs. vm_compute. by intros [= <-].
Qed.

Lemma cors_through_cache_witness :
  let s := Cache._store (Cache.run no_sha Cache.default_settings history Cache.init) in
  exists r s' hs v,
    Cache.lookup Cache.default_settings 5 (request "GET" "https://a.example" []) s = (Cache.Hit r, s') /\
    _header r = Some hs /\ first_value ACAO hs = Some v /\
    (v = star \/ v = default [] (first_value (lit "origin") (_list (headers (request "GET" "https://a.example" []))))).
Proof.
  eexists _, _, _, _. split; [vm_compute; reflexivity|]. split; [reflexivity|]. split; [vm_compute; reflexivity|].
  eapply (cors_through_cache cfg no_sha Cache.default_settings history 5); [exact history_cors|vm_compute; reflexivity|reflexivity|].
  vm_compute. reflexivity.
Defined.

(** Trusted: loopback.  A client that adds an entry of its own choice to the chain
    is taken for it; so is text that is no address. *)
Definition no_addr (ip : pystr) : option pystr := if bool_decide (Forall (fun c => 46 <= c <= 57) ip) then Some ip else None.
Definition loopback : list (pystr -> bool) := [fun a => bool_decide (a = lit "127.0.0.1")].
Definition behind (hs : list (string * string)) : Connection :=
  mkConn (lit "http") (lit "GET") (lit "http") (lit "/") [] []
    (HttpHeaders.__init__ ((fun x => (lit x.1, lit x.2)) <$> hs)) (Some (lit "127.0.0.1", 5000)) [].

Definition client_of (hs : list (string * string)) : result (option (pystr * Z)) := rmap client (proxied no_addr loopback (behind hs)).
Lemma forged_client :
  client_of [("X-Forwarded-For", "6.6.6.6, 203.0.113.9")%string] = Ok (Some (lit "6.6.6.6", 0)) /\
  client_of [("X-Forwarded-For", "nobody, 203.0.113.9")%string] = Ok (Some (lit "nobody", 0)).
Proof. vm_compute. done. Qed.

(** The address of an IPv6 node keeps its bracket and its port. *)
Lemma bracketed_client :
  client_of [("Forwarded", "for=[2001:db8::1]:4711")%string] = Ok (Some (lit "2001:db8::1]:4711", 0)).
Proof. vm_compute. reflexivity. Qed.

End Sample.
End Cors.
