(* ===== verification/StaticFiles.v ===== *)
(** * Files (blackbull/middleware/static.py)

    [StaticFiles]: the byte ranges, the conditional requests, the choice of a
    precompressed sibling, the cache of bodies and the answer itself.  The file
    system at the time of a request is a value; the type of a name ([mimetypes]) and the two date functions of [email.utils] are parameters.
    [int] and [str.lower] are taken on ASCII text. *)

From Stdlib Require Import ZArith Lia.
From stdpp Require Import base tactics numbers option strings sets list.
From S2P Require Import Prelude PyLib PyText PyBytes H2Frames HttpHeaders Http1Sender Pipeline.
Import HttpHeaders Http1Sender Pipeline.

Module StaticFiles.

Definition _CACHE_MAX_BYTES_PER_FILE : Z := 4 * 1024 * 1024.
Definition _CACHE_MAX_ENTRIES : Z := 256.
Definition _CHUNK : Z := 64 * 1024.
Definition _ENCODING_SUFFIXES : list (bytes * pystr) := [(lit "br", lit ".br"); (lit "zstd", lit ".zst"); (lit "gzip", lit ".gz")].

(** ** Ranges and validators *)

Definition _parse_byte_range (range_hdr : pystr) (size : Z) : option (Z * Z) :=
  if negb (startswith range_hdr (lit "bytes=")) then None
  else
    let spec := strip SPACE (drop 6 range_hdr) in
    if bool_decide (spec = []) || has_char 44 spec then None
    else
      let '(start_s, sep, end_s) := partition_char 45 spec in
      if negb sep then None
      else
        let start_s := strip SPACE start_s in
        let end_s := strip SPACE end_s in
        if bool_decide (start_s = []) then
          if bool_decide (end_s = []) then None
          else match int_of_bytes end_s with Ok n => Some (Z.max 0 (size - n), size - 1) | Raise _ => None end
        else
          match int_of_bytes start_s, (if bool_decide (end_s = []) then Ok (size - 1) else int_of_bytes end_s) with
          | Ok start, Ok end_ => Some (start, end_)
          | _, _ => None
          end.

(** The last value of a field. *)
Definition last_value (name : bytes) (headers : list field) : option bytes :=
  foldl (fun acc x => if bool_decide (lower x.1 = name) then Some x.2 else acc) None headers.

Definition unweak (tag : bytes) : bytes := if startswith tag (lit "W/") then drop 2 tag else tag.

(** The file system, as far as it is asked: [os.path.realpath], the tests, [os.stat]
    with the time of the last modification in nanoseconds and the size, and what
    is read from an opened file. *)
Record filesystem : Type := mkFs {
  realpath : pystr -> result pystr;
  isfile : pystr -> bool;
  isdir : pystr -> bool;
  stat : pystr -> option (Z * Z);
  read : pystr -> option bytes
}.

(** [(mtime_ns, size, body, mime, content_encoding, last_stat)] *)
Record entry : Type := mkEntry {
  e_mtime : Z;
  e_size : Z;
  e_body : bytes;
  e_mime : bytes;
  e_encoding : bytes;
  last_stat : Z
}.

Record settings : Type := mkSettings {
  _root_str : pystr;
  _url_prefix : pystr;
  _enabled : bool;
  _cache_enabled : bool;
  _index : option pystr;
  _conditional : bool;
  _STAT_TTL_S : Z
}.

Record t : Type := mk {
  _cache : dict pystr entry;
  _sibling_cache : dict pystr (dict bytes pystr)
}.

Definition init : t := mk [] [].

Definition _root_sep (cfg : settings) : pystr := _root_str cfg ++ [47].

(** [os.path.join(a, b)] for a relative [b]. *)
Definition join_path (a b : pystr) : pystr :=
  if bool_decide (a = []) || bool_decide (last a = Some 47) then a ++ b else a ++ [47] ++ b.

Section Static.
Context (guess_type : pystr -> option pystr).
Context (formatdate : Z -> bytes) (parsedate : bytes -> option Z).
(** Whether the transport has [sendfile]. *)
Context (sendfile_supported : bool).
Context (cfg : settings).

Definition _not_modified (headers : list field) (etag : bytes) (mtime_ns : Z) : bool :=
  match last_value (lit "if-none-match") headers with
  | Some inm =>
      let candidate := strip WHITESPACE inm in
      bool_decide (candidate = lit "*")
      || bool_decide (unweak etag ∈ (fun tag => unweak (strip WHITESPACE tag)) <$> split_on 44 candidate)
  | None =>
      match last_value (lit "if-modified-since") headers with
      | Some ims => match parsedate ims with Some ts => mtime_ns / 1000000000 <=? ts | None => false end
      | None => false
      end
  end.

(** The quality parameters of a token say no. *)
Definition refuses (param : bytes) : bool :=
  let p := strip WHITESPACE param in
  startswith p (lit "q=") && match float_of (drop 2 p) with Some x => float_nonpositive x | None => false end.

Fixpoint accepts_loop (encoding : bytes) (tokens : list bytes) : bool :=
  match tokens with
  | [] => false
  | token :: tokens =>
      let parts := split_on 59 (strip WHITESPACE token) in
      if bool_decide (lower (strip WHITESPACE (default [] (head parts))) = encoding)
      then negb (existsb refuses (tail parts)) else accepts_loop encoding tokens
  end.

Definition _client_accepts (accept_header encoding : bytes) : bool :=
  if bool_decide (accept_header = []) then false else accepts_loop encoding (split_on 44 accept_header).

(** The siblings of a target that exist. *)
Definition find_siblings (fs : filesystem) (target : pystr) : dict bytes pystr :=
  foldl (fun siblings x => if isfile fs (target ++ x.2) then dset siblings x.1 (target ++ x.2) else siblings) [] _ENCODING_SUFFIXES.

Definition choose_sibling (accept target : pystr) (siblings : dict bytes pystr) : pystr * bytes :=
  match head (filter (fun x => dmem siblings x.1 = true /\ _client_accepts accept x.1 = true) _ENCODING_SUFFIXES) with
  | Some (enc, _) => (default target (dget siblings enc), enc)
  | None => (target, [])
  end.

Definition _negotiate (fs : filesystem) (c : Connection) (target : pystr) (s : t) : pystr * bytes * t :=
  let l := _list (headers c) in
  let accept := match last_value (lit "accept-encoding") l with Some v => lower v | None => [] end in
  if bool_decide (is_Some (last_value (lit "range") l)) || bool_decide (accept = []) then (target, [], s)
  else if _cache_enabled cfg then
    match dget (_sibling_cache s) target with
    | Some siblings => (choose_sibling accept target siblings, s)
    | None =>
        let siblings := find_siblings fs target in
        (choose_sibling accept target siblings, mk (_cache s) (dset (_sibling_cache s) target siblings))
    end
  else (choose_sibling accept target (find_siblings fs target), s).

(** ** The answer *)

Definition simple (st : Z) (hs : list field) : send_event := SendNative (mkNative st (Some hs) (Some []) false None false None).

Definition hex_int (n : Z) : pystr := if n <? 0 then 45 :: hex_nat (- n) else hex_nat n.

Definition etag_of (mtime_ns size : Z) : bytes := [34] ++ hex_int mtime_ns ++ [45] ++ hex_int size ++ [34].

Definition content_range (start end_ size : Z) : bytes :=
  lit "bytes " ++ str_int start ++ [45] ++ str_int end_ ++ [47] ++ str_int size.

(** The loop that streams [remaining] octets of [data] from [offset]. *)
Fixpoint stream (fuel : nat) (data : bytes) (offset remaining : Z) : list send_event :=
  match fuel with
  | O => []
  | S fuel =>
      if 0 <? remaining then
        let chunk := slice data offset (offset + Z.min _CHUNK remaining) in
        if bool_decide (chunk = []) then []
        else
          let remaining := remaining - zlen chunk in
          SendNative (mkNative 200 None (Some chunk) (0 <? remaining) None false None)
            :: stream fuel data (offset + zlen chunk) remaining
      else []
  end.

(** The octets from [start] to [end_]: one object from memory, the file itself, or
    a stream. *)
Definition send_body (fs : filesystem) (c : Connection) (served : pystr) (st : Z) (header : list field) (size start end_ : Z)
    (body : option bytes) : list send_event * option exn :=
  match body with
  | Some b =>
      let chunk := if negb (start =? 0) || negb (end_ =? size - 1) then slice b start (end_ + 1) else b in
      ([SendNative (mkNative st (Some header) (Some chunk) false None false None)], None)
  | None =>
      if negb (st =? 206) && bool_decide (lit "http.response.pathsend" ∈ extensions c) then
        ([SendNative (mkNative st (Some header) None false None false
            (Some (mkFile size (default [] (read fs served)) sendfile_supported)))], None)
      else
        let head := SendNative (mkNative st (Some header) None false None false None) in
        match read fs served with
        | None => ([head], Some OSError)
        | Some data => (head :: stream (S (Z.to_nat (end_ - start + 1))) data start (end_ - start + 1), None)
        end
  end.

(** What is sent for a file of known validators, type and size: [body] is [None]
    for a file that is not read into memory. *)
Definition respond (fs : filesystem) (c : Connection) (served : pystr) (content_encoding mime : bytes) (mtime_ns size : Z)
    (body : option bytes) : list send_event * option exn :=
  match match first_value (lit "range") (_list (headers c)) with Some v => rmap Some (utf8_decode v) | None => Ok None end with
  | Raise e => ([], Some e)
  | Ok range_hdr =>
      let etag := etag_of mtime_ns size in
      let validators := if _conditional cfg then [(lit "etag", etag); (lit "last-modified", formatdate mtime_ns)] else [] in
      let vary := if bool_decide (content_encoding = []) then [] else [(lit "vary", lit "Accept-Encoding")] in
      if _conditional cfg && _not_modified (_list (headers c)) etag mtime_ns then ([simple 304 (validators ++ vary)], None)
      else
        let parsed := match range_hdr with Some ((_ :: _) as h) => _parse_byte_range h size | _ => None end in
        let '(start, end_) := default (0, size - 1) parsed in
        if bool_decide (is_Some parsed) && ((start >=? size) || (end_ >=? size) || (start >? end_))
        then ([simple 416 [(lit "content-range", lit "bytes */" ++ str_int size)]], None)
        else
          let st := match parsed with Some _ => 206 | None => 200 end in
          let ranged := match parsed with Some _ => [(lit "content-range", content_range start end_ size)] | None => [] end in
          let coded := if bool_decide (content_encoding = []) then [] else (lit "content-encoding", content_encoding) :: vary in
          let header := [(lit "content-type", mime); (lit "content-length", str_int (end_ - start + 1))] ++ validators ++ ranged ++ coded in
          send_body fs c served st header size start end_ body
  end.

Definition _store (path : pystr) (e : entry) (cache : dict pystr entry) : dict pystr entry :=
  let cache := move_to_end cache path e in drop (length cache - Z.to_nat _CACHE_MAX_ENTRIES) cache.

Definition mime_of (path : pystr) : result bytes :=
  utf8_encode (match guess_type path with Some ((_ :: _) as m) => m | _ => lit "application/octet-stream" end).

Definition not_found : list send_event := [simple 404 []].

(** The file is read: into memory, and into the cache when that is on, up to the
    threshold; above it, as it is sent. *)
Definition uncached (fs : filesystem) (now : Z) (c : Connection) (path served : pystr) (encoding : bytes) (mtime_ns size : Z) (s : t)
    : list send_event * option exn * t :=
  if size <=? _CACHE_MAX_BYTES_PER_FILE then
    match mime_of path with
    | Raise e => ([], Some e, s)
    | Ok mime =>
        match read fs served with
        | None => (not_found, None, s)
        | Some body =>
            (respond fs c served encoding mime mtime_ns size (Some body),
             if _cache_enabled cfg
             then mk (_store served (mkEntry mtime_ns size body mime encoding now) (_cache s)) (_sibling_cache s) else s)
        end
    end
  else
    let s := if _cache_enabled cfg then mk (dpop (_cache s) served) (_sibling_cache s) else s in
    match mime_of path with
    | Raise e => ([], Some e, s)
    | Ok mime => (respond fs c served encoding mime mtime_ns size None, s)
    end.

Definition _serve (fs : filesystem) (now : Z) (c : Connection) (path : pystr) (s : t) : list send_event * option exn * t :=
  let '(served, encoding, s) := _negotiate fs c path s in
  let cached := if _cache_enabled cfg then dget (_cache s) served else None in
  let set_cache (m : dict pystr entry) := mk m (_sibling_cache s) in
  let fresh := match cached with
               | Some e => (_STAT_TTL_S cfg >? 0) && (now - last_stat e <? _STAT_TTL_S cfg)
               | None => false
               end in
  match cached, fresh with
  | Some e, true =>
      (respond fs c served encoding (e_mime e) (e_mtime e) (e_size e) (Some (e_body e)),
       set_cache (move_to_end (_cache s) served e))
  | _, _ =>
      match stat fs served with
      | None => (not_found, None, s)
      | Some (mtime_ns, size) =>
          match cached with
          | Some e =>
              if (e_mtime e =? mtime_ns) && (e_size e =? size) then
                (respond fs c served encoding (e_mime e) mtime_ns size (Some (e_body e)),
                 set_cache (move_to_end (_cache s) served (mkEntry mtime_ns size (e_body e) (e_mime e) encoding now)))
              else uncached fs now c path served encoding mtime_ns size s
          | None => uncached fs now c path served encoding mtime_ns size s
          end
      end
  end.

(** ** The request *)

(** [CallNext] hands the request on; without a next handler it is a 404. *)
Inductive outcome : Type := CallNext | Answers (es : list send_event) (raised : option exn).

Definition pass (has_next : bool) : outcome := if has_next then CallNext else Answers not_found None.

Definition as_outcome (x : list send_event * option exn * t) : outcome * t := let '(es, e, s) := x in (Answers es e, s).

(** The guard against a way out of the root. *)
Definition inside (p : pystr) : bool := bool_decide (p = _root_str cfg) || startswith p (_root_sep cfg).

Definition __call__ (fs : filesystem) (now : Z) (c : Connection) (has_next : bool) (s : t) : outcome * t :=
  if negb (bool_decide (type_ c = lit "http")) || negb (bool_decide (method c ∈ lit <$> ["GET"; "HEAD"]%string))
  then (pass has_next, s)
  else if negb (_enabled cfg) then (pass has_next, s)
  else if negb (bool_decide (_url_prefix cfg = [])) && negb (startswith (path c) (_url_prefix cfg)) then (pass has_next, s)
  else
    let raw_path := drop (length (_url_prefix cfg)) (path c) in
    let decoded := unquote_text raw_path in
    match realpath fs (join_path (_root_str cfg) (lstrip [47] decoded)) with
    | Raise e => (Answers [] (Some e), s)
    | Ok target =>
        if negb (inside target) then (Answers [simple 400 []] None, s)
        else if isfile fs target then as_outcome (_serve fs now c target s)
        else
          match _index cfg with
          | Some ((_ :: _) as index) =>
              if isdir fs target then
                match realpath fs (join_path target index) with
                | Raise e => (Answers [] (Some e), s)
                | Ok candidate =>
                    if inside candidate && isfile fs candidate then as_outcome (_serve fs now c candidate s) else (pass has_next, s)
                end
              else (pass has_next, s)
          | _ => (pass has_next, s)
          end
    end.

(** Requests in order, each with the file system and the clock of its time. *)
Record visit : Type := mkVisit {
  v_fs : filesystem;
  v_now : Z;
  v_conn : Connection;
  v_next : bool
}.

Fixpoint visits (l : list visit) (s : t) : list outcome :=
  match l with
  | [] => []
  | v :: l => let '(o, s) := __call__ (v_fs v) (v_now v) (v_conn v) (v_next v) s in o :: visits l s
  end.

(** ** What is delivered *)

(** The octets of the bodies and of the files. *)
Definition delivered (es : list send_event) : bytes :=
  a_body (answers es) ++ mjoin (contents <$> a_files (answers es)).

Lemma slice_split {A} (l : list A) a b c : 0 <= a <= b -> b <= c -> slice l a b ++ slice l b c = slice l a c.
Proof.
  intros Hab Hbc. unfold slice. replace (Z.to_nat (c - a)) with (Z.to_nat (b - a) + Z.to_nat (c - b))%nat by lia.
  rewrite <- take_take_drop, drop_drop. do 3 f_equal. lia.
Qed.

Lemma slice_none {A} (l : list A) a b : b <= a -> slice l a b = [].
Proof. intros H. unfold slice. by replace (Z.to_nat (b - a)) with 0%nat by lia. Qed.

Lemma stream_delivers fuel data offset remaining a :
  0 <= offset -> offset + remaining <= zlen data -> (Z.to_nat remaining < fuel)%nat ->
  exists ended, foldl (fun a e => answer_event e a) a (stream fuel data offset remaining) =
    mkAnswer (a_status a) (a_headers a) (a_body a ++ slice data offset (offset + remaining)) (a_files a) ended.
Proof.
  revert offset remaining a. induction fuel as [|fuel IH]; intros offset remaining a Ho Hr Hf; [lia|]. cbn [stream].
  destruct (Z.ltb_spec 0 remaining) as [Hpos|Hneg].
  2: { exists (a_ended a). rewrite slice_none by lia. destruct a. cbn. by rewrite app_nil_r. }
  set (n := Z.min _CHUNK remaining). assert (Hn : 0 < n <= remaining) by (subst n; unfold _CHUNK; lia).
  assert (Hl : zlen (slice data offset (offset + n)) = n) by (rewrite zlen_slice; lia).
  rewrite bool_decide_false by (intros E; rewrite E, zlen_nil in Hl; lia). rewrite Hl. cbn [foldl].
  destruct (IH (offset + n) (remaining - n) (answer_event (SendNative (mkNative 200 None (Some (slice data offset (offset + n)))
    (0 <? remaining - n) None false None)) a)) as [ended E]; [lia|lia|lia|]. exists ended. rewrite E. cbn. f_equal.
  rewrite <- app_assoc. f_equal. replace (offset + n + (remaining - n)) with (offset + remaining) by lia.
  apply slice_split; lia.
Qed.

(** ** Ranges *)

Lemma digits_nonneg l n : int_digits l = Ok n -> Forall (fun c => is_digit c = true) l -> 0 <= n.
Proof. unfold int_digits. destruct (_ >? _); [done|]. intros [= <-]. apply int_of_digits_nonneg. Qed.

Lemma int_no_sign l n : (45 ∉ l) -> int_of_bytes l = Ok n -> 0 <= n.
Proof.
  intros Hl. unfold int_of_bytes. set (s := strip WHITESPACE l).
  assert (Hs : bool_decide (head s = Some 45) = false).
  { apply bool_decide_eq_false. intros E. apply Hl, (strip_elem WHITESPACE). fold s. destruct s; [done|]. cbn in E. injection E as ->. set_solver. }
  rewrite Hs. cbn [orb]. set (groups := split_on 95 _). destruct (forallb isdigit groups) eqn:Hg; [|done].
  destruct (int_digits (mjoin groups)) as [m|] eqn:Ei; [|done]. cbn [rmap]. intros [= <-]. eapply digits_nonneg; [done|].
  apply Forall_join. rewrite forallb_forall in Hg. apply Forall_forall. intros g Hg'. apply list_elem_of_In in Hg'.
  specialize (Hg g Hg'). unfold isdigit in Hg. apply andb_prop in Hg as [_ Hg]. rewrite forallb_forall in Hg.
  apply Forall_forall. intros c Hc. apply Hg. by apply list_elem_of_In.
Qed.

Lemma find_char_absent c l : find_char c l = None -> c ∉ l.
Proof.
  induction l as [|d l IH]; cbn; [set_solver|]. destruct (Z.eqb_spec d c); [done|]. destruct (find_char c l); [done|].
  specialize (IH eq_refl). set_solver.
Qed.

Lemma partition_before c l w b r : partition_char c l = (w, b, r) -> c ∉ w.
Proof.
  unfold partition_char. destruct (find_char c l) as [i|] eqn:E; intros [= <- <- <-].
  - apply find_char_Some in E as (w & r & -> & <- & Hw). by rewrite take_app_length.
  - by apply find_char_absent.
Qed.

(** A range is never before the beginning. *)
Lemma range_start h size start end_ : _parse_byte_range h size = Some (start, end_) -> 0 <= start.
Proof.
  unfold _parse_byte_range. destruct (negb _); [done|]. set (spec := strip SPACE (drop 6 h)). destruct (_ || _); [done|].
  destruct (partition_char 45 spec) as [[start_s sep] end_s] eqn:Ep. destruct (negb sep); [done|].
  case_bool_decide as Hs.
  - case_bool_decide; [done|]. destruct (int_of_bytes _) as [n|]; [|done]. intros [= <- <-]. lia.
  - destruct (int_of_bytes (strip SPACE start_s)) as [n|] eqn:Ei; [|done]. destruct (if bool_decide _ then _ else _) as [m|]; [|done].
    intros [= <- <-]. eapply int_no_sign, Ei. intros Hin. by apply (partition_before _ _ _ _ _ Ep), (strip_elem SPACE).
Qed.

(** ** The answer for a file *)

(** The range asked for, as far as it is understood. *)
Definition range_of (c : Connection) (size : Z) : option (Z * Z) :=
  match first_value (lit "range") (_list (headers c)) with
  | Some v => match utf8_decode v with Ok ((_ :: _) as h) => _parse_byte_range h size | _ => None end
  | None => None
  end.

(** The client has what a file of these validators holds, and says so. *)
Definition has_it (c : Connection) (m size : Z) : bool := _conditional cfg && _not_modified (_list (headers c)) (etag_of m size) m.

Definition coding_field (enc : bytes) : option bytes := if bool_decide (enc = []) then None else Some enc.

(** What a request is answered with for a file of [data], last modified at [m], in
    the coding [enc]: the status, the octets, and the range, length, coding and
    validator the fields announce. *)
Inductive answered (c : Connection) (data : bytes) (m : Z) (enc : bytes) (a : answer) (octets : bytes) : Prop :=
| an_not_modified : has_it c m (zlen data) = true -> a_status a = Some 304 -> octets = [] ->
    first_value (lit "etag") (a_headers a) = Some (etag_of m (zlen data)) -> answered c data m enc a octets
| an_unsatisfiable start end_ : has_it c m (zlen data) = false -> range_of c (zlen data) = Some (start, end_) -> ~ (start <= end_ < zlen data) ->
    a_status a = Some 416 -> octets = [] ->
    first_value (lit "content-range") (a_headers a) = Some (lit "bytes */" ++ str_int (zlen data)) -> answered c data m enc a octets
| an_part start end_ : has_it c m (zlen data) = false -> range_of c (zlen data) = Some (start, end_) -> 0 <= start <= end_ -> end_ < zlen data ->
    a_status a = Some 206 -> octets = slice data start (end_ + 1) ->
    first_value (lit "content-range") (a_headers a) = Some (content_range start end_ (zlen data)) ->
    first_value (lit "content-length") (a_headers a) = Some (str_int (zlen octets)) ->
    first_value (lit "content-encoding") (a_headers a) = coding_field enc -> answered c data m enc a octets
| an_whole : has_it c m (zlen data) = false -> range_of c (zlen data) = None -> a_status a = Some 200 -> octets = data ->
    first_value (lit "content-length") (a_headers a) = Some (str_int (zlen octets)) ->
    first_value (lit "content-encoding") (a_headers a) = coding_field enc -> answered c data m enc a octets.

Lemma answer_head st hs : answers [SendNative (mkNative st (Some hs) None false None false None)] = mkAnswer (Some st) hs [] [] false.
Proof. done. Qed.

Lemma stream_delivered st hs data start len :
  0 <= start -> 0 <= len -> start + len <= zlen data ->
  let es := SendNative (mkNative st (Some hs) None false None false None) :: stream (S (Z.to_nat len)) data start len in
  a_status (answers es) = Some st /\ a_headers (answers es) = hs /\ delivered es = slice data start (start + len).
Proof.
  intros Hs Hl Hd es. unfold delivered. subst es. unfold answers at 1 2 3 4. cbn [foldl].
  destruct (stream_delivers (S (Z.to_nat len)) data start len
    (answer_event (SendNative (mkNative st (Some hs) None false None false None)) no_answer) Hs Hd ltac:(lia)) as [ended E].
  rewrite E. cbn. by rewrite app_nil_r.
Qed.

Lemma first_value_skip name k v l : lower k <> name -> first_value name ((k, v) :: l) = first_value name l.
Proof. intros H. cbn [first_value]. by rewrite bool_decide_false. Qed.

Lemma first_value_here name k v l : lower k = name -> first_value name ((k, v) :: l) = Some v.
Proof. intros H. cbn [first_value]. by rewrite bool_decide_true. Qed.

Lemma header_length mime n tl :
  first_value (lit "content-length") ((lit "content-type", mime) :: (lit "content-length", n) :: tl) = Some n.
Proof. rewrite first_value_skip by decide_it. by apply first_value_here. Qed.

Lemma header_range mime n tag time r tl (cond : bool) :
  first_value (lit "content-range")
    ([(lit "content-type", mime); (lit "content-length", n)] ++
     (if cond then [(lit "etag", tag); (lit "last-modified", time)] else []) ++ [(lit "content-range", r)] ++ tl) = Some r.
Proof. destruct cond; cbn [app]; rewrite !first_value_skip by decide_it; by apply first_value_here. Qed.

Lemma header_coding mime n tag time enc (cond : bool) ranged :
  (forall r, r ∈ ranged -> lower r.1 <> lit "content-encoding") ->
  first_value (lit "content-encoding")
    ([(lit "content-type", mime); (lit "content-length", n)] ++ (if cond then [(lit "etag", tag); (lit "last-modified", time)] else []) ++ ranged ++
     (if bool_decide (enc = []) then [] else (lit "content-encoding", enc) :: (if bool_decide (enc = []) then [] else [(lit "vary", lit "Accept-Encoding")])))
  = coding_field enc.
Proof.
  intros Hr. assert (H : forall l tl, (forall r, r ∈ l -> lower r.1 <> lit "content-encoding") ->
    first_value (lit "content-encoding") (l ++ tl) = first_value (lit "content-encoding") tl).
  { induction l as [|[k v] l IH]; intros tl Hl; [done|]. cbn [app]. rewrite first_value_skip by (apply (Hl (k, v)); set_solver). apply IH. intros; apply Hl; set_solver. }
  rewrite !app_assoc. rewrite H.
  - unfold coding_field. case_bool_decide; [done|]. by rewrite first_value_here.
  - intros r [Hin|Hin]%elem_of_app; [|by apply Hr]. apply elem_of_app in Hin as [Hin|Hin];
      [|destruct cond; [|set_solver]]; repeat (apply elem_of_cons in Hin as [->|Hin]; [decide_it|]); set_solver.
Qed.

(** A file that is served, from memory, as a stream or as a file. *)
Lemma body_answers fs c served st header data start end_ body es :
  read fs served = Some data -> (body = Some data \/ body = None) ->
  0 <= start -> end_ < zlen data -> start <= end_ + 1 -> (st = 206 \/ start = 0 /\ end_ = zlen data - 1) ->
  send_body fs c served st header (zlen data) start end_ body = (es, None) ->
  a_status (answers es) = Some st /\ a_headers (answers es) = header /\ delivered es = slice data start (end_ + 1).
Proof.
  intros Hr Hb H0 H1 H2 H3. unfold send_body. destruct Hb as [->| ->].
  - intros [= <-]. split; [done|]. split; [done|]. unfold delivered. cbn. rewrite app_nil_r.
    destruct (Z.eqb_spec start 0) as [->|]; cbn [negb orb]; [|done]. destruct (Z.eqb_spec end_ (zlen data - 1)) as [->|]; cbn [negb]; [|done].
    rewrite slice_all by lia. done.
  - rewrite Hr. destruct (negb (st =? 206) && _) eqn:Ep.
    + intros [= <-]. split; [done|]. split; [done|]. unfold delivered. cbn. rewrite !app_nil_r.
      apply andb_prop in Ep as [Ep _]. apply negb_true_iff, Z.eqb_neq in Ep. destruct H3 as [H3|[-> ->]]; [lia|].
      rewrite slice_all by lia. done.
    + intros [= <-]. replace (end_ + 1) with (start + (end_ - start + 1)) by lia. apply stream_delivered; lia.
Qed.

Lemma respond_answers fs c served enc mime m data body es :
  read fs served = Some data -> (body = Some data \/ body = None) ->
  respond fs c served enc mime m (zlen data) body = (es, None) ->
  answered c data m enc (answers es) (delivered es).
Proof.
  intros Hr Hb. unfold respond.
  destruct (match first_value (lit "range") _ with Some _ => _ | None => _ end) as [range_hdr|e] eqn:Er; [|done].
  set (parsed := match range_hdr with Some ((_ :: _) as h) => _ | _ => None end).
  assert (Hrange : range_of c (zlen data) = parsed).
  { subst parsed. unfold range_of. destruct (first_value _ _) as [v|]; [|by injection Er as <-]. destruct (utf8_decode v) as [h|]; [|done].
       by injection Er as <-. }
  assert (Hstart : forall start end_, parsed = Some (start, end_) -> 0 <= start).
  { subst parsed. intros start end_. destruct range_hdr as [[|x h]|]; try done. apply range_start. }
  clearbody parsed. clear Er. destruct (_conditional cfg && _) eqn:Eh.
  { intros [= <-]. apply andb_prop in Eh as Ec. destruct Ec as [-> _]. by apply an_not_modified. }
  destruct parsed as [[start end_]|]; unfold from_option, id; cbv beta iota zeta.
  - rewrite bool_decide_true by (by eexists). cbn [andb]. specialize (Hstart _ _ eq_refl).
    destruct (Z.geb_spec start (zlen data)) as [H1|H1]; [|destruct (Z.geb_spec end_ (zlen data)) as [H2|H2]; [|destruct (Z.gtb_spec start end_) as [H3|H3]]];
      cbn [orb]; try (intros [= <-]; eapply an_unsatisfiable; [done|done|lia|done|done|by apply first_value_here]).
    intros H. eapply body_answers in H as (Hs & Hh & Hd); [|done|done|done|lia|lia|by left].
    eapply an_part; [done|done|lia|lia|done|done| | |].
    + rewrite Hh. apply header_range.
    + rewrite Hh, Hd. rewrite zlen_slice by lia. replace (end_ + 1 - start) with (end_ - start + 1) by lia. apply header_length.
    + rewrite Hh. apply header_coding. intros r ->%list_elem_of_singleton. decide_it.
  - rewrite bool_decide_false by (by intros [? ?]). cbn [andb]. intros H.
    pose proof (zlen_nonneg data) as Hz. eapply body_answers in H as (Hs & Hh & Hd); [|done|done|lia|lia|lia|right; lia].
    assert (E : slice data 0 (zlen data - 1 + 1) = data) by (apply slice_all; lia). rewrite E in Hd.
    apply an_whole; [done|done|done|done| |].
    + replace (zlen data - 1 - 0 + 1) with (zlen data) in Hh by lia. rewrite Hh, Hd. apply header_length.
    + rewrite Hh. apply header_coding. set_solver.
Qed.

(** An answer that raises has sent nothing: the Range field is not UTF-8. *)
Lemma respond_raises fs c served enc mime m data body es e :
  read fs served = Some data -> respond fs c served enc mime m (zlen data) body = (es, Some e) ->
  es = [] /\ exists v, first_value (lit "range") (_list (headers c)) = Some v /\ utf8_decode v = Raise e.
Proof.
  intros Hr. unfold respond. destruct (first_value (lit "range") _) as [v|]; [destruct (utf8_decode v) as [h|e'] eqn:Ev|]; cbn [rmap].
  2: { intros [= <- <-]. split; [done|]. by exists v. }
  all: unfold rmap, rbind; cbv beta iota zeta; destruct (_conditional cfg && _); [done|]; match goal with |- context [from_option ?f ?x ?z] => destruct (from_option f x z) as [start end_] end;
    destruct (_ && _); [done|]; unfold send_body; rewrite Hr; destruct body; [done|]; by destruct (_ && _).
Qed.

(** ** What a request asks for *)

(** The root, or a path under it. *)
Definition under (p : pystr) : Prop := p = _root_str cfg \/ exists rest, p = _root_str cfg ++ lit "/" ++ rest.

Lemma inside_under p : inside p = true <-> under p.
Proof.
  unfold inside, startswith, _root_sep, under. rewrite orb_true_iff, !bool_decide_eq_true. split; (intros [H|[rest ->]]; [by left|right]);
    exists rest; by rewrite <- app_assoc.
Qed.

Lemma outside_under p : inside p = false <-> ~ under p.
Proof. rewrite <- inside_under. by destruct (inside p). Qed.

(** The requests this middleware answers, and the path they name: what follows the
    prefix, percent-decoded, below the root. *)
Definition concerns (c : Connection) : Prop :=
  type_ c = lit "http" /\ (method c = lit "GET" \/ method c = lit "HEAD") /\ _enabled cfg = true /\ _url_prefix cfg `prefix_of` path c.

Definition requested (c : Connection) : pystr :=
  join_path (_root_str cfg) (lstrip [47] (unquote_text (drop (length (_url_prefix cfg)) (path c)))).

(** The file the path leads to, itself or as the index of its directory. *)
Inductive names (fs : filesystem) (c : Connection) : pystr -> Prop :=
| names_file p : realpath fs (requested c) = Ok p -> under p -> isfile fs p = true -> names fs c p
| names_index d index p :
    realpath fs (requested c) = Ok d -> under d -> isfile fs d = false -> isdir fs d = true ->
    _index cfg = Some index -> index <> [] -> realpath fs (join_path d index) = Ok p -> under p -> isfile fs p = true -> names fs c p.

(** A path that cannot be resolved. *)
Inductive unresolved (fs : filesystem) (c : Connection) (e : exn) : Prop :=
| unresolved_path : realpath fs (requested c) = Raise e -> unresolved fs c e
| unresolved_index d index :
    realpath fs (requested c) = Ok d -> under d -> isdir fs d = true -> _index cfg = Some index ->
    realpath fs (join_path d index) = Raise e -> unresolved fs c e.

(** Not a request for a file: another protocol or method, not enabled, outside the
    prefix, or a path under the root that leads to no file. *)
Definition unserved (fs : filesystem) (c : Connection) : Prop :=
  ~ concerns c \/ (exists p, realpath fs (requested c) = Ok p /\ under p) /\ forall target, ~ names fs c target.

(** The suffixes of what may be served for a target. *)
Definition suffixes : list pystr := [] :: _ENCODING_SUFFIXES.*2.

(** What is served for a target: itself, or, for a request without a range, a
    sibling that exists in a coding the client accepts. *)
Inductive variant (fs : filesystem) (c : Connection) (target : pystr) : pystr -> bytes -> Prop :=
| variant_plain : variant fs c target target []
| variant_coded enc suffix accept :
    (enc, suffix) ∈ _ENCODING_SUFFIXES -> isfile fs (target ++ suffix) = true ->
    last_value (lit "range") (_list (headers c)) = None -> last_value (lit "accept-encoding") (_list (headers c)) = Some accept ->
    _client_accepts (lower accept) enc = true -> variant fs c target (target ++ suffix) enc.

(** ** Every answer *)

Lemma find_siblings_spec fs target enc sibling :
  dget (find_siblings fs target) enc = Some sibling ->
  exists suffix, (enc, suffix) ∈ _ENCODING_SUFFIXES /\ sibling = target ++ suffix /\ isfile fs sibling = true.
Proof.
  unfold find_siblings, _ENCODING_SUFFIXES. cbn [foldl fst snd].
  repeat match goal with |- context [if isfile fs ?p then _ else _] => destruct (isfile fs p) eqn:? end;
    rewrite ?dget_dset; cbn [dget]; repeat case_decide; intros ?; simplify_eq; eexists; (split; [|split; [reflexivity|done]]); decide_it.
Qed.

Lemma choose_sibling_spec accept target siblings :
  choose_sibling accept target siblings = (target, []) \/
  exists enc sibling, choose_sibling accept target siblings = (sibling, enc) /\ dget siblings enc = Some sibling /\ _client_accepts accept enc = true.
Proof.
  unfold choose_sibling. destruct (head _) as [[enc suf]|] eqn:E; [right|by left].
  destruct (filter _ _) as [|x l] eqn:Ef; [done|]. cbn in E. injection E as ->.
  assert (Hin : (enc, suf) ∈ filter (fun x => dmem siblings x.1 = true /\ _client_accepts accept x.1 = true) _ENCODING_SUFFIXES) by (rewrite Ef; left).
  apply list_elem_of_filter in Hin as [[Hm Ha] _]. cbn [fst] in *. unfold dmem in Hm. destruct (dget siblings enc) as [p|] eqn:Ep; [|done].
  exists enc, p. by rewrite Ep.
Qed.

Lemma choose_sibling_suffix accept target siblings :
  (forall enc sibling, dget siblings enc = Some sibling -> exists suffix, suffix ∈ suffixes /\ sibling = target ++ suffix) ->
  exists suffix, suffix ∈ suffixes /\ (choose_sibling accept target siblings).1 = target ++ suffix.
Proof.
  intros Hs. destruct (choose_sibling_spec accept target siblings) as [->|(enc & p & -> & Hd & _)]; [|by apply (Hs enc)].
  exists []. split; [decide_it|by rewrite app_nil_r].
Qed.

Lemma find_siblings_suffix fs target enc sibling :
  dget (find_siblings fs target) enc = Some sibling -> exists suffix, suffix ∈ suffixes /\ sibling = target ++ suffix.
Proof.
  intros (suffix & Hin & -> & _)%find_siblings_spec. exists suffix. split; [|done]. unfold suffixes. right. by apply (list_elem_of_fmap_2 snd _ (enc, suffix)).
Qed.

(** Without the cache the state is not looked at. *)
Lemma negotiate_cold fs c target s :
  _cache_enabled cfg = false -> exists served enc, _negotiate fs c target s = (served, enc, s) /\ variant fs c target served enc.
Proof.
  intros Hc. unfold _negotiate. rewrite Hc. destruct (bool_decide_reflect (is_Some (last_value (lit "range") (_list (headers c))))) as [Hr|Hr]; cbn [orb].
  { exists target, []. split; [done|constructor]. }
  destruct (last_value (lit "accept-encoding") _) as [accept|] eqn:Ea; [|exists target, []; split; [done|constructor]].
  case_bool_decide; [exists target, []; split; [done|constructor]|].
  destruct (choose_sibling_spec (lower accept) target (find_siblings fs target)) as [->|(enc & p & -> & Hd & Hacc)]; [exists target, []; split; [done|constructor]|].
  apply find_siblings_spec in Hd as (suffix & Hin & -> & Hf). exists (target ++ suffix), enc. split; [done|].
  eapply variant_coded; [done|done| |done|done]. destruct (last_value (lit "range") _); [|done]. destruct Hr. by eexists.
Qed.

Lemma negotiate_cold_suffix fs c target s :
  _cache_enabled cfg = false ->
  exists suffix, suffix ∈ suffixes /\ (_negotiate fs c target s).1.1 = target ++ suffix /\ (_negotiate fs c target s).2 = s.
Proof.
  intros Hc. destruct (negotiate_cold fs c target s Hc) as (served & enc & -> & [|enc' suffix accept Hin _ _ _ _]).
  - exists []. split; [decide_it|]. by rewrite app_nil_r.
  - exists suffix. split; [|done]. unfold suffixes. right. by apply (list_elem_of_fmap_2 snd _ (enc', suffix)).
Qed.

(** [stat] tells the size of what is read. *)
Definition honest (fs : filesystem) : Prop :=
  forall p m n, stat fs p = Some (m, n) -> exists data, read fs p = Some data /\ zlen data = n.

(** The file the path leads to has been answered with. *)
Definition file_answer (fs : filesystem) (c : Connection) (es : list send_event) : Prop :=
  exists target served enc m data,
    names fs c target /\ variant fs c target served enc /\ stat fs served = Some (m, zlen data) /\ read fs served = Some data /\
    answered c data m enc (answers es) (delivered es).

(** What has been answered for a target, or the exception. *)
Definition target_answer (fs : filesystem) (c : Connection) (target : pystr) (es : list send_event) (raised : option exn) : Prop :=
  exists served enc, variant fs c target served enc /\
  match raised with
  | None =>
      es = not_found /\ stat fs served = None \/
      exists m data, stat fs served = Some (m, zlen data) /\ read fs served = Some data /\ answered c data m enc (answers es) (delivered es)
  | Some e => es = [] /\ (mime_of target = Raise e \/ exists v, first_value (lit "range") (_list (headers c)) = Some v /\ utf8_decode v = Raise e)
  end.

Lemma serve_cold fs now c target s :
  _cache_enabled cfg = false -> honest fs ->
  let '(es, e, _) := _serve fs now c target s in target_answer fs c target es e.
Proof.
  intros Hc Hh. unfold _serve. destruct (negotiate_cold fs c target s Hc) as (served & enc & -> & Hv). rewrite Hc.
  destruct (stat fs served) as [[m n]|] eqn:Es; [|exists served, enc; split; [done|]; by left].
  destruct (Hh _ _ _ Es) as (data & Hr & <-). unfold uncached. rewrite Hc, Hr.
  assert (Hgo : forall body mime, body = Some data \/ body = None -> let '(es, e) := respond fs c served enc mime m (zlen data) body in target_answer fs c target es e).
  { intros body mime Hb. destruct (respond fs c served enc mime m (zlen data) body) as [es [e|]] eqn:E; exists served, enc; (split; [done|]).
    - eapply respond_raises in E as [-> ?]; [|done]. auto.
    - right. exists m, data. split_and!; [done|done|]. by eapply respond_answers. }
  destruct (zlen data <=? _), (mime_of target) as [mime|e] eqn:Em; try (exists served, enc; split; [done|]; auto).
  - specialize (Hgo (Some data) mime). destruct (respond _ _ _ _ _ _ _ _). auto.
  - specialize (Hgo None mime). destruct (respond _ _ _ _ _ _ _ _). auto.
Qed.

(** What may become of a request. *)
Definition treated (fs : filesystem) (c : Connection) (next : bool) (o : outcome) : Prop :=
  (o = pass next /\ unserved fs c) \/
  (exists p, concerns c /\ realpath fs (requested c) = Ok p /\ ~ under p /\ o = Answers [simple 400 []] None) \/
  (exists e, concerns c /\ unresolved fs c e /\ o = Answers [] (Some e)) \/
  (exists target es e, concerns c /\ names fs c target /\ target_answer fs c target es e /\ o = Answers es e).

Lemma concerns_dec fs now c next s :
  concerns c \/ (~ concerns c /\ __call__ fs now c next s = (pass next, s)).
Proof.
  unfold __call__, concerns. destruct (bool_decide_reflect (type_ c = lit "http")) as [Ht|Ht]; cbn [negb orb]; [|right; split; [tauto|done]].
  destruct (bool_decide_reflect (method c ∈ lit <$> ["GET"; "HEAD"]%string)) as [Hm|Hm]; cbn [negb].
  2: { right. split; [|done]. intros (_ & Hm2 & _). apply Hm. destruct Hm2 as [-> | ->]; decide_it. }
  assert (Hm2 : method c = lit "GET" \/ method c = lit "HEAD") by (cbn in Hm; set_solver).
  destruct (_enabled cfg); cbn [negb]; [|right; split; [by intros (_ & _ & ? & _)|done]]. unfold startswith.
  destruct (bool_decide_reflect (_url_prefix cfg = [])) as [E|E]; cbn [negb andb]; [left; rewrite E; split_and!; try done; apply prefix_nil|].
  destruct (bool_decide_reflect (_url_prefix cfg `prefix_of` path c)); cbn [negb]; [by left|right; split; [tauto|done]].
Qed.

Lemma call_cold fs now c next s :
  _cache_enabled cfg = false -> honest fs -> treated fs c next (__call__ fs now c next s).1.
Proof.
  intros Hc Hh. destruct (concerns_dec fs now c next s) as [Hcon|[Hn ->]]; [|left; split; [done|by left]].
  assert (Hserve : forall target, names fs c target -> treated fs c next (as_outcome (_serve fs now c target s)).1).
  { intros target Hn. right; right; right. pose proof (serve_cold fs now c target s Hc Hh) as H. unfold as_outcome.
    destruct (_serve fs now c target s) as [[es e] s1]. by exists target, es, e. }
  pose proof Hcon as (Ht & Hm & He & Hp). unfold __call__. rewrite Ht, He. rewrite bool_decide_true by done.
  rewrite bool_decide_true by (destruct Hm as [-> | ->]; decide_it). unfold startswith. rewrite (bool_decide_true (_ `prefix_of` _)) by done.
  rewrite andb_false_r. cbn [negb orb]. fold (requested c). destruct (realpath fs (requested c)) as [p|e] eqn:Er.
  2: { right; right; left. exists e. split_and!; try done. by constructor. }
  destruct (inside p) eqn:Hi; cbn [negb]; [apply inside_under in Hi|apply outside_under in Hi; right; left; by exists p].
  destruct (isfile fs p) eqn:Hf; [by apply Hserve; constructor|].
  assert (Hpass : (forall target, ~ names fs c target) -> treated fs c next (pass next)).
  { intros H. left. split; [done|]. right. split; [by exists p|done]. }
  destruct (_index cfg) as [[|x index]|] eqn:Ei; [apply Hpass; intros t []; congruence| |apply Hpass; intros t []; congruence].
  destruct (isdir fs p) eqn:Hd; [|apply Hpass; intros t []; congruence].
  destruct (realpath fs (join_path p (x :: index))) as [q|e] eqn:Eq.
  2: { right; right; left. exists e. split_and!; try done. by eapply unresolved_index. }
  destruct (inside q) eqn:Hq; [|apply Hpass; apply outside_under in Hq; intros t []; congruence].
  apply inside_under in Hq. cbn [andb]. destruct (isfile fs q) eqn:Hfq; [|apply Hpass; intros t []; congruence].
  apply Hserve. by eapply names_index.
Qed.


(** ** Nothing outside the root matters *)

(** What POSIX says of [realpath]: a resolved path is its own, and what is asked of
    a path is answered for what it resolves to. *)
Record lawful (fs : filesystem) : Prop := mkLawful {
  realpath_real a p : realpath fs a = Ok p -> realpath fs p = Ok p;
  isfile_follows a p : realpath fs a = Ok p -> isfile fs a = isfile fs p;
  stat_follows a p : realpath fs a = Ok p -> stat fs a = stat fs p;
  read_follows a p : realpath fs a = Ok p -> read fs a = read fs p
}.

(** Two results of [realpath] that are the same, or both outside the root. *)
Definition same_place (r1 r2 : result pystr) : Prop :=
  r1 = r2 \/ exists p1 p2, r1 = Ok p1 /\ r2 = Ok p2 /\ ~ under p1 /\ ~ under p2.

(** Two file systems that differ only outside the root: in what lies there, and in
    where a path that leads out of the root leads. *)
Record agree (fs1 fs2 : filesystem) : Prop := mkAgree {
  ag_place p : same_place (realpath fs1 p) (realpath fs2 p);
  ag_same p : realpath fs1 p = Ok p -> under p ->
    isfile fs1 p = isfile fs2 p /\ isdir fs1 p = isdir fs2 p /\ stat fs1 p = stat fs2 p /\ read fs1 p = read fs2 p
}.

(** No precompressed sibling of a file under the root is a link that leads out. *)
Definition contained (fs : filesystem) : Prop :=
  forall p x, realpath fs p = Ok p -> under p -> isfile fs p = true -> x ∈ _ENCODING_SUFFIXES ->
  exists q, realpath fs (p ++ x.2) = Ok q /\ under q.

Lemma agree_inside fs1 fs2 a p : agree fs1 fs2 -> realpath fs1 a = Ok p -> under p -> realpath fs2 a = Ok p.
Proof. intros Ha Hr Hu. destruct (ag_place _ _ Ha a) as [<-|(p1 & p2 & H1 & _ & Hn & _)]; [done|]. congruence. Qed.

(** A path that leads under the root leads to the same. *)
Lemma agree_follows fs1 fs2 a p :
  agree fs1 fs2 -> lawful fs1 -> lawful fs2 -> realpath fs1 a = Ok p -> under p ->
  isfile fs1 a = isfile fs2 a /\ stat fs1 a = stat fs2 a /\ read fs1 a = read fs2 a.
Proof.
  intros Ha H1 H2 Hr Hu. pose proof (agree_inside _ _ _ _ Ha Hr Hu) as Hr2.
  destruct (ag_same _ _ Ha p (realpath_real _ H1 _ _ Hr) Hu) as (E1 & _ & E2 & E3).
  rewrite (isfile_follows _ H1 _ _ Hr), (isfile_follows _ H2 _ _ Hr2), (stat_follows _ H1 _ _ Hr), (stat_follows _ H2 _ _ Hr2),
    (read_follows _ H1 _ _ Hr), (read_follows _ H2 _ _ Hr2). done.
Qed.

(** What is served for a target leads under the root. *)
Lemma contained_suffix fs target suffix :
  contained fs -> realpath fs target = Ok target -> under target -> isfile fs target = true -> suffix ∈ suffixes ->
  exists q, realpath fs (target ++ suffix) = Ok q /\ under q.
Proof.
  intros Hc Hr Hu Hf Hs. unfold suffixes in Hs. apply elem_of_cons in Hs as [->|Hs]; [exists target; by rewrite app_nil_r|].
  apply list_elem_of_fmap in Hs as (x & -> & Hx). by apply Hc.
Qed.

(** What the memo of siblings holds. *)
Definition siblings_ok (s : t) : Prop :=
  forall target siblings enc sibling,
    dget (_sibling_cache s) target = Some siblings -> dget siblings enc = Some sibling ->
    exists suffix, suffix ∈ suffixes /\ sibling = target ++ suffix.

Lemma find_siblings_agree fs1 fs2 target :
  (forall suffix, suffix ∈ suffixes -> isfile fs1 (target ++ suffix) = isfile fs2 (target ++ suffix)) ->
  find_siblings fs1 target = find_siblings fs2 target.
Proof.
  intros H. unfold find_siblings, _ENCODING_SUFFIXES. cbn [foldl fst snd]. by rewrite !H by decide_it.
Qed.

Lemma negotiate_served fs c target s :
  siblings_ok s ->
  (exists suffix, suffix ∈ suffixes /\ (_negotiate fs c target s).1.1 = target ++ suffix) /\ siblings_ok (_negotiate fs c target s).2.
Proof.
  intros Hs. unfold _negotiate. destruct (_ || _).
  { split; [|done]. exists []. split; [decide_it|]. by rewrite app_nil_r. }
  set (accept := match last_value _ _ with Some v => lower v | None => [] end). destruct (_cache_enabled cfg).
  - destruct (dget (_sibling_cache s) target) as [siblings|] eqn:E.
    + split; [apply choose_sibling_suffix; intros enc sibling; by apply (Hs target siblings)|done].
    + split; [apply choose_sibling_suffix, find_siblings_suffix|]. intros target' siblings enc sibling. cbn [snd _sibling_cache]. rewrite dget_dset.
      destruct (decide _) as [->|]; [intros [= <-]; apply find_siblings_suffix|apply Hs].
  - split; [apply choose_sibling_suffix, find_siblings_suffix|done].
Qed.

Lemma respond_agree fs1 fs2 c served enc mime m n body :
  read fs1 served = read fs2 served ->
  respond fs1 c served enc mime m n body = respond fs2 c served enc mime m n body.
Proof. intros Hr. unfold respond, send_body. by rewrite Hr. Qed.

Lemma serve_agree fs1 fs2 now c target s :
  agree fs1 fs2 -> lawful fs1 -> lawful fs2 -> contained fs1 -> realpath fs1 target = Ok target -> under target -> isfile fs1 target = true ->
  siblings_ok s -> _serve fs1 now c target s = _serve fs2 now c target s /\ siblings_ok (_serve fs1 now c target s).2.
Proof.
  intros Ha H1 H2 Hc Hr Hu Hf Hs.
  assert (Hsuf : forall suffix, suffix ∈ suffixes ->
    isfile fs1 (target ++ suffix) = isfile fs2 (target ++ suffix) /\ stat fs1 (target ++ suffix) = stat fs2 (target ++ suffix) /\
    read fs1 (target ++ suffix) = read fs2 (target ++ suffix)).
  { intros suffix Hin. destruct (contained_suffix _ _ _ Hc Hr Hu Hf Hin) as (q & Hq & Huq). by eapply agree_follows. }
  unfold _serve. assert (E : _negotiate fs2 c target s = _negotiate fs1 c target s).
  { unfold _negotiate. rewrite (find_siblings_agree fs1 fs2); [done|]. intros suffix Hin. by destruct (Hsuf suffix Hin). }
  rewrite E. destruct (negotiate_served fs1 c target s Hs) as [(suffix & Hin & Hserved) Hs2].
  destruct (_negotiate fs1 c target s) as [[served enc] s1]. cbn [fst snd] in *. destruct (Hsuf suffix Hin) as (_ & Est & Erd).
  rewrite <- Hserved in Est, Erd. rewrite <- Est.
  assert (Hun : forall m n, uncached fs1 now c target served enc m n s1 = uncached fs2 now c target served enc m n s1 /\
    siblings_ok (uncached fs1 now c target served enc m n s1).2).
  { intros m n. unfold uncached. rewrite <- Erd. split.
    - destruct (mime_of target) as [mime|]; [|done]. by destruct (read fs1 served) eqn:Er; rewrite !(respond_agree fs1 fs2) by congruence.
    - destruct (n <=? _), (mime_of target) as [mime|]; [destruct (read fs1 served)| | |]; by destruct (_cache_enabled cfg). }
  destruct (if _cache_enabled cfg then _ else None) as [e|].
  - destruct (_ && _).
    + split; [by rewrite (respond_agree fs1 fs2)|done].
    + destruct (stat fs1 served) as [[m n]|]; [|done]. destruct (_ && _); [|apply Hun]. split; [by rewrite (respond_agree fs1 fs2)|done].
  - destruct (stat fs1 served) as [[m n]|]; [apply Hun|done].
Qed.

Lemma call_agree fs1 fs2 now c next s :
  agree fs1 fs2 -> lawful fs1 -> lawful fs2 -> contained fs1 -> siblings_ok s ->
  __call__ fs1 now c next s = __call__ fs2 now c next s /\ siblings_ok (__call__ fs1 now c next s).2.
Proof.
  intros Ha H1 H2 Hc Hs. unfold __call__.
  destruct (_ || _); [done|]. destruct (negb (_enabled cfg)); [done|]. destruct (_ && _); [done|].
  assert (Hserve : forall a target, realpath fs1 a = Ok target -> under target -> isfile fs1 target = true ->
    as_outcome (_serve fs1 now c target s) = as_outcome (_serve fs2 now c target s) /\ siblings_ok (as_outcome (_serve fs1 now c target s)).2).
  { intros a target Hr Hu Hf. apply (realpath_real _ H1) in Hr. destruct (serve_agree fs1 fs2 now c target s Ha H1 H2 Hc Hr Hu Hf Hs) as [E Hok].
    split; [by rewrite E|]. by destruct (_serve fs1 now c target s) as [[? ?] ?]. }
  fold (requested c). destruct (ag_place _ _ Ha (requested c)) as [<-|(p1 & p2 & -> & -> & Hn1 & Hn2)].
  2: { rewrite (proj2 (outside_under p1) Hn1), (proj2 (outside_under p2) Hn2). done. }
  destruct (realpath fs1 (requested c)) as [target|e] eqn:Hr; [|done].
  destruct (inside target) eqn:Hi; cbn [negb]; [|done]. apply inside_under in Hi.
  destruct (ag_same _ _ Ha target (realpath_real _ H1 _ _ Hr) Hi) as (<- & <- & _).
  destruct (isfile fs1 target) eqn:Hf; [by eapply Hserve|]. destruct (_index cfg) as [[|x index]|]; try done.
  destruct (isdir fs1 target); [|done]. destruct (ag_place _ _ Ha (join_path target (x :: index))) as [<-|(p1 & p2 & -> & -> & Hn1 & Hn2)].
  2: { rewrite (proj2 (outside_under p1) Hn1), (proj2 (outside_under p2) Hn2). done. }
  destruct (realpath fs1 (join_path _ _)) as [candidate|e] eqn:Hr2; [|done].
  destruct (inside candidate) eqn:Hi2; cbn [andb]; [|done]. apply inside_under in Hi2.
  destruct (ag_same _ _ Ha candidate (realpath_real _ H1 _ _ Hr2) Hi2) as (<- & _).
  destruct (isfile fs1 candidate) eqn:Hf2; [by eapply Hserve|done].
Qed.


End Static.

(** ** The cache of bodies cannot be seen *)

Section Warm.
Context (guess_type : pystr -> option pystr).
Context (formatdate : Z -> bytes) (parsedate : bytes -> option Z) (sendfile_supported : bool) (cfg : settings).

(** The same server without the cache. *)
Definition cold : settings :=
  mkSettings (_root_str cfg) (_url_prefix cfg) (_enabled cfg) false (_index cfg) (_conditional cfg) (_STAT_TTL_S cfg).

Abbreviation warm_serve := (_serve guess_type formatdate parsedate sendfile_supported cfg).
Abbreviation cold_serve := (_serve guess_type formatdate parsedate sendfile_supported cold).

(** What the cache relies on between two requests: a file with the same time and
    size has the same contents, files do not change within the time a [stat] is
    trusted, and precompressed siblings do not come and go. *)
Definition steady (u v : visit) : Prop :=
  (forall p x, stat (v_fs u) p = Some x -> stat (v_fs v) p = Some x -> read (v_fs u) p = read (v_fs v) p) /\
  (v_now v - v_now u < _STAT_TTL_S cfg -> forall p, stat (v_fs u) p = stat (v_fs v) p /\ read (v_fs u) p = read (v_fs v) p) /\
  forall p x, x ∈ _ENCODING_SUFFIXES -> isfile (v_fs u) (p ++ x.2) = isfile (v_fs v) (p ++ x.2).

Fixpoint coherent (past l : list visit) : Prop :=
  match l with [] => True | v :: l => Forall (fun u => steady u v) past /\ coherent (v :: past) l end.

(** What the cache holds is what some request found. *)
Definition entry_ok (past : list visit) (p : pystr) (e : entry) : Prop :=
  exists u path suffix, u ∈ past /\ v_now u = last_stat e /\ stat (v_fs u) p = Some (e_mtime e, e_size e) /\
    read (v_fs u) p = Some (e_body e) /\ e_size e <= _CACHE_MAX_BYTES_PER_FILE /\
    p = path ++ suffix /\ suffix ∈ suffixes /\ mime_of guess_type path = Ok (e_mime e).

Record cache_ok (past : list visit) (s : t) : Prop := mkCacheOk {
  c_keys : dict_ok (_cache s);
  c_entries : forall p e, dget (_cache s) p = Some e -> entry_ok past p e;
  c_siblings : forall target siblings, dget (_sibling_cache s) target = Some siblings ->
    exists u, u ∈ past /\ siblings = find_siblings (v_fs u) target
}.

Lemma cache_ok_more past v s : cache_ok past s -> cache_ok (v :: past) s.
Proof.
  intros [Hk He Hs]. split; [done| |].
  - intros p e Hp. destruct (He p e Hp) as (u & path & suffix & Hu & H). exists u, path, suffix. split; [set_solver|done].
  - intros target siblings Hp. destruct (Hs _ _ Hp) as (u & Hu & H). exists u. split; [set_solver|done].
Qed.

Lemma move_ok past s p e : cache_ok past s -> entry_ok past p e -> cache_ok past (mk (move_to_end (_cache s) p e) (_sibling_cache s)).
Proof.
  intros [Hk He Hs] Hp. split; cbn [_cache _sibling_cache]; [by apply move_to_end_ok| |done].
  intros p' e'. rewrite dget_move_to_end by done. case_decide as Hpp; [|apply He]. subst p'. by intros [= <-].
Qed.

Lemma store_ok past s p e : cache_ok past s -> entry_ok past p e -> cache_ok past (mk (_store p e (_cache s)) (_sibling_cache s)).
Proof.
  intros Hc Hp. destruct (move_ok past s p e Hc Hp) as [Hk He Hs]. unfold _store. cbn [_cache _sibling_cache] in *.
  set (m := move_to_end _ _ _) in *. set (n := (length m - _)%nat).
  assert (Hsub : drop n m `sublist_of` m) by apply sublist_drop.
  assert (Hk2 : dict_ok (drop n m)) by (unfold dict_ok, dkeys in *; eapply sublist_NoDup; [exact Hk|by apply fmap_sublist]).
  split; cbn [_cache _sibling_cache]; [done| |done].
  intros p' e' Hg. apply He, elem_dget; [done|]. eapply elem_of_sublist; [by apply dget_elem|done].
Qed.

Lemma drop_ok past s p : cache_ok past s -> cache_ok past (mk (dpop (_cache s) p) (_sibling_cache s)).
Proof.
  intros [Hk He Hs]. split; cbn [_cache _sibling_cache]; [by apply dpop_ok| |done].
  intros p' e' Hg. apply He. destruct (decide (p' = p)) as [->|Hne]; [by rewrite dget_dpop_eq in Hg|by rewrite dget_dpop_ne in Hg].
Qed.

Lemma find_siblings_steady u v target : steady u v -> find_siblings (v_fs u) target = find_siblings (v_fs v) target.
Proof.
  intros (_ & _ & H). unfold find_siblings, _ENCODING_SUFFIXES. cbn [foldl fst snd].
  pose proof (H target (lit "br", lit ".br") ltac:(decide_it)) as H1. pose proof (H target (lit "zstd", lit ".zst") ltac:(decide_it)) as H2.
  pose proof (H target (lit "gzip", lit ".gz") ltac:(decide_it)) as H3. cbn [snd] in H1, H2, H3. by rewrite H1, H2, H3.
Qed.

Lemma negotiate_warm past v target s s0 :
  Forall (fun u => steady u v) past -> cache_ok past s ->
  let w := _negotiate cfg (v_fs v) (v_conn v) target s in
  (_negotiate cold (v_fs v) (v_conn v) target s0).1 = w.1 /\ (_negotiate cold (v_fs v) (v_conn v) target s0).2 = s0 /\
  (exists suffix, suffix ∈ suffixes /\ w.1.1 = target ++ suffix) /\ cache_ok (v :: past) w.2 /\ _cache w.2 = _cache s.
Proof.
  intros Hv Hs w. subst w. assert (Hn : (_negotiate cold (v_fs v) (v_conn v) target s0).2 = s0).
  { unfold _negotiate. cbn [_cache_enabled cold]. by destruct (_ || _). }
  destruct (negotiate_cold_suffix cold (v_fs v) (v_conn v) target s0 eq_refl) as (suffix & H1 & H2 & _).
  pose proof (cache_ok_more past v s Hs) as Hs2.
  assert (E : (_negotiate cold (v_fs v) (v_conn v) target s0).1 = (_negotiate cfg (v_fs v) (v_conn v) target s).1).
  { unfold _negotiate. cbn [_cache_enabled cold]. destruct (_ || _); [done|]. destruct (_cache_enabled cfg); [|done].
    destruct (dget (_sibling_cache s) target) as [siblings|] eqn:Ed; [|done]. destruct Hs as [_ _ Hsib].
    destruct (Hsib _ _ Ed) as (u & Hu & ->). rewrite Forall_forall in Hv. by rewrite (find_siblings_steady u v) by auto. }
  split; [done|]. split; [done|]. split; [exists suffix; by rewrite <- E|].
  unfold _negotiate. destruct (_ || _); [done|]. destruct (_cache_enabled cfg); [|done].
  destruct (dget (_sibling_cache s) target) as [siblings|] eqn:Ed; [done|]. split; [|done].
  destruct Hs2 as [Hk He Hsib]. split; cbn [_cache _sibling_cache snd]; [done|done|]. intros target' siblings. rewrite dget_dset.
  destruct (decide _) as [->|]; [intros [= <-]; exists v; split; [set_solver|done]|apply Hsib].
Qed.

Lemma respond_cold fs c served enc mime m n body :
  respond formatdate parsedate sendfile_supported cold fs c served enc mime m n body =
  respond formatdate parsedate sendfile_supported cfg fs c served enc mime m n body.
Proof. done. Qed.

(** Without the cache, the answer is made of what is found. *)
Definition fresh_answer (v : visit) (path served : pystr) (enc : bytes) : list send_event * option exn :=
  match stat (v_fs v) served with
  | None => (not_found, None)
  | Some (m, n) =>
      match mime_of guess_type path with
      | Raise e => ([], Some e)
      | Ok mime =>
          if n <=? _CACHE_MAX_BYTES_PER_FILE then
            match read (v_fs v) served with
            | None => (not_found, None)
            | Some body => respond formatdate parsedate sendfile_supported cfg (v_fs v) (v_conn v) served enc mime m n (Some body)
            end
          else respond formatdate parsedate sendfile_supported cfg (v_fs v) (v_conn v) served enc mime m n None
      end
  end.

Lemma cold_answer v path s0 :
  cold_serve (v_fs v) (v_now v) (v_conn v) path s0 =
  (fresh_answer v path (_negotiate cold (v_fs v) (v_conn v) path s0).1.1 (_negotiate cold (v_fs v) (v_conn v) path s0).1.2,
   (_negotiate cold (v_fs v) (v_conn v) path s0).2).
Proof.
  unfold _serve. destruct (_negotiate cold _ _ path s0) as [[served enc] s1]. cbn [fst snd _cache_enabled cold]. unfold fresh_answer.
  destruct (stat _ served) as [[m n]|]; [|done]. unfold uncached. cbn [_cache_enabled cold].
  destruct (n <=? _), (mime_of guess_type path) as [mime|]; try done. by destruct (read _ served).
Qed.

Hypothesis same_mime : forall p suffix, suffix ∈ suffixes -> guess_type (p ++ suffix) = guess_type p.

(** An entry that still stands is what would be found. *)
Lemma entry_answer past v path suffix enc p e :
  Forall (fun u => steady u v) past -> entry_ok past p e -> p = path ++ suffix -> suffix ∈ suffixes ->
  (stat (v_fs v) p = Some (e_mtime e, e_size e) \/ v_now v - last_stat e < _STAT_TTL_S cfg) ->
  stat (v_fs v) p = Some (e_mtime e, e_size e) /\ read (v_fs v) p = Some (e_body e) /\ e_size e <= _CACHE_MAX_BYTES_PER_FILE /\
  mime_of guess_type path = Ok (e_mime e) /\
  fresh_answer v path p enc =
    respond formatdate parsedate sendfile_supported cfg (v_fs v) (v_conn v) p enc (e_mime e) (e_mtime e) (e_size e) (Some (e_body e)).
Proof.
  intros Hv (u & path' & suffix' & Hu & Hnow & Hst & Hrd & Hsz & E' & Hs' & Hmime) E Hsuf Hor.
  rewrite Forall_forall in Hv. destruct (Hv u Hu) as (H1 & H2 & _).
  assert (Hv2 : stat (v_fs v) p = Some (e_mtime e, e_size e) /\ read (v_fs v) p = Some (e_body e)).
  { destruct Hor as [Hor|Hor]; [by rewrite <- (H1 p _ Hst Hor)|]. rewrite <- Hnow in Hor. destruct (H2 Hor p) as [<- <-]. done. }
  destruct Hv2 as [Hst2 Hrd2].
  assert (Hm : mime_of guess_type path = Ok (e_mime e)).
  { rewrite <- Hmime. unfold mime_of. rewrite <- (same_mime path suffix Hsuf), <- (same_mime path' suffix' Hs'). by rewrite <- E, <- E'. }
  split_and!; [done|done|done|done|]. unfold fresh_answer. rewrite Hst2, Hm, Hrd2. by rewrite (proj2 (Z.leb_le _ _)).
Qed.

Lemma uncached_warm past v path suffix served enc m n s :
  stat (v_fs v) served = Some (m, n) -> served = path ++ suffix -> suffix ∈ suffixes -> cache_ok (v :: past) s ->
  let w := uncached guess_type formatdate parsedate sendfile_supported cfg (v_fs v) (v_now v) (v_conn v) path served enc m n s in
  w.1 = fresh_answer v path served enc /\ cache_ok (v :: past) w.2.
Proof.
  intros Hst Hser Hsuf Hs w. subst w. unfold uncached, fresh_answer. rewrite Hst.
  destruct (Z.leb_spec n _CACHE_MAX_BYTES_PER_FILE), (mime_of guess_type path) as [mime|] eqn:Em; try done.
  - destruct (read (v_fs v) served) as [body|] eqn:Er; [|done]. split; [done|]. cbn [snd].
    destruct (_cache_enabled cfg); [|done]. apply store_ok; [done|]. exists v, path, suffix. cbn. split_and!; try done. set_solver.
  - cbn [snd fst]. destruct (_cache_enabled cfg); [|done]. split; [done|by apply drop_ok].
  - cbn [snd fst]. destruct (_cache_enabled cfg); [|done]. split; [done|by apply drop_ok].
Qed.

Lemma serve_warm past v path s s0 :
  Forall (fun u => steady u v) past -> cache_ok past s ->
  (warm_serve (v_fs v) (v_now v) (v_conn v) path s).1 = (cold_serve (v_fs v) (v_now v) (v_conn v) path s0).1 /\
  (cold_serve (v_fs v) (v_now v) (v_conn v) path s0).2 = s0 /\
  cache_ok (v :: past) (warm_serve (v_fs v) (v_now v) (v_conn v) path s).2.
Proof.
  intros Hv Hs. rewrite cold_answer. destruct (negotiate_warm past v path s s0 Hv Hs) as (E1 & E2 & (suffix & Hsuf & Esuf) & Hs1 & Ec).
  rewrite E1, E2. unfold _serve. destruct (_negotiate cfg _ _ path s) as [[served enc] s1]. cbn [fst snd] in *.
  assert (Hun : forall m n, stat (v_fs v) served = Some (m, n) ->
    let w := uncached guess_type formatdate parsedate sendfile_supported cfg (v_fs v) (v_now v) (v_conn v) path served enc m n s1 in
    w.1 = fresh_answer v path served enc /\ s0 = s0 /\ cache_ok (v :: past) w.2).
  { intros m n Hst w. subst w. destruct (uncached_warm past v path suffix served enc m n s1 Hst Esuf Hsuf Hs1). done. }
  destruct (if _cache_enabled cfg then dget (_cache s1) served else None) as [e|] eqn:Ecached.
  2: { destruct (stat (v_fs v) served) as [[m n]|] eqn:Hst; [by apply Hun|]. unfold fresh_answer. by rewrite Hst. }
  assert (He : entry_ok past served e).
  { destruct (_cache_enabled cfg); [|done]. rewrite Ec in Ecached. by apply (c_entries _ _ Hs). }
  pose proof (fun H => entry_answer past v path suffix enc served e Hv He Esuf Hsuf H) as Hans.
  assert (He2 : entry_ok (v :: past) served e) by (destruct He as (u & p & sf & Hu & H); exists u, p, sf; split; [set_solver|done]).
  destruct ((_STAT_TTL_S cfg >? 0) && (v_now v - last_stat e <? _STAT_TTL_S cfg)) eqn:Efresh.
  - apply andb_prop in Efresh as [_ Hlt]. destruct Hans as (_ & _ & _ & _ & ->); [right; lia|]. split; [done|]. split; [done|]. by apply move_ok.
  - destruct (stat (v_fs v) served) as [[m n]|] eqn:Hst; [|unfold fresh_answer; by rewrite Hst].
    destruct ((e_mtime e =? m) && (e_size e =? n)) eqn:Eq; [|by apply Hun].
    apply andb_prop in Eq as [Em En]. apply Z.eqb_eq in Em, En. subst m n. rewrite <- Hst in *.
    destruct Hans as (H1 & H2 & H3 & H4 & H5); [by left; rewrite Hst|]. rewrite H5. split; [done|]. split; [done|]. apply move_ok; [done|].
    exists v, path, suffix. cbn. split_and!; try done. set_solver.
Qed.

Lemma call_warm past v s s0 :
  Forall (fun u => steady u v) past -> cache_ok past s ->
  let w := __call__ guess_type formatdate parsedate sendfile_supported cfg (v_fs v) (v_now v) (v_conn v) (v_next v) s in
  let c := __call__ guess_type formatdate parsedate sendfile_supported cold (v_fs v) (v_now v) (v_conn v) (v_next v) s0 in
  w.1 = c.1 /\ c.2 = s0 /\ cache_ok (v :: past) w.2.
Proof.
  intros Hv Hs. pose proof (cache_ok_more past v s Hs) as Hs2.
  assert (Hserve : forall target,
    (as_outcome (warm_serve (v_fs v) (v_now v) (v_conn v) target s)).1 = (as_outcome (cold_serve (v_fs v) (v_now v) (v_conn v) target s0)).1 /\
    (as_outcome (cold_serve (v_fs v) (v_now v) (v_conn v) target s0)).2 = s0 /\
    cache_ok (v :: past) (as_outcome (warm_serve (v_fs v) (v_now v) (v_conn v) target s)).2).
  { intros target. destruct (serve_warm past v target s s0 Hv Hs) as (H1 & H2 & H3). unfold as_outcome.
    destruct (warm_serve _ _ _ target s) as [[es e] s1], (cold_serve _ _ _ target s0) as [[es' e'] s1']. cbn in *. by simplify_eq. }
  cbv zeta. unfold __call__. cbn [_enabled _url_prefix _root_str _index cold].
  destruct (_ || _); [done|]. destruct (negb (_enabled cfg)); [done|]. destruct (_ && _); [done|].
  destruct (realpath (v_fs v) _) as [target|e]; [|done]. change (inside cold target) with (inside cfg target).
  destruct (inside cfg target); cbn [negb]; [|done]. destruct (isfile (v_fs v) target); [apply Hserve|].
  destruct (_index cfg) as [[|x index]|]; try done. destruct (isdir (v_fs v) target); [|done].
  destruct (realpath (v_fs v) _) as [candidate|e]; [|done]. change (inside cold candidate) with (inside cfg candidate).
  destruct (_ && _); [apply Hserve|done].
Qed.

Lemma visits_warm past l s s0 :
  coherent past l -> cache_ok past s ->
  visits guess_type formatdate parsedate sendfile_supported cfg l s =
  visits guess_type formatdate parsedate sendfile_supported cold l s0.
Proof.
  revert past s. induction l as [|v l IH]; intros past s Hc Hs; [done|]. cbn [visits coherent] in *. destruct Hc as [Hv Hc].
  destruct (call_warm past v s s0 Hv Hs) as (H1 & H2 & H3).
  destruct (__call__ _ _ _ _ cfg _ _ _ _ s) as [o s1], (__call__ _ _ _ _ cold _ _ _ _ s0) as [o' s1']. cbn [fst snd] in *. subst o' s1'.
  f_equal. by eapply IH.
Qed.

End Warm.

(** The cache of bodies cannot be seen.  For every sequence of requests, with
    the file system and the clock of each: when a file of the same time and size
    has the same contents, nothing changes within the time for which a [stat] is
    trusted, precompressed siblings neither appear nor vanish, and the type of a
    name does not depend on their suffixes, the server with its cache gives the
    answers of the server without it — through eviction, expiry, files that grow
    past the threshold, ranges and validators. *)
Theorem static_cache_transparent guess_type formatdate parsedate sendfile_supported cfg l :
  (forall p suffix, suffix ∈ suffixes -> guess_type (p ++ suffix) = guess_type p) ->
  coherent cfg [] l ->
  visits guess_type formatdate parsedate sendfile_supported cfg l init =
  visits guess_type formatdate parsedate sendfile_supported (cold cfg) l init.
Proof. intros Hm Hc. eapply visits_warm; [done|done|]. split; [apply NoDup_nil_2|done|done]. Qed.

(** ** Sample servers *)

Module Sample.

(** Files as a table; a path with two dots in it leads to [/etc/passwd]. *)
Definition leads_to (p : pystr) : pystr := match find_sub (lit "..") p with Some _ => lit "/etc/passwd" | None => p end.
Definition disk (files : list (string * (Z * string))) : filesystem :=
  let table := (fun x => (lit x.1, (x.2.1, lit x.2.2))) <$> files in
  mkFs (fun p => Ok (leads_to p)) (fun p => dmem table (leads_to p)) (fun p => bool_decide (leads_to p = lit "/srv"))
    (fun p => (fun x => (x.1, zlen x.2)) <$> dget table (leads_to p)) (fun p => snd <$> dget table (leads_to p)).

Definition config (cache : bool) : settings := mkSettings (lit "/srv") (lit "/s") true cache None true 1000.
Definition get (path : string) (hs : list (string * string)) : Connection :=
  mkConn (lit "http") (lit "GET") (lit "http") (lit path) [] []
    (HttpHeaders.__init__ ((fun x => (lit x.1, lit x.2)) <$> hs)) None [].
Definition text_plain (p : pystr) : option pystr := Some (lit "text/plain").
Definition no_date (n : Z) : bytes := lit "D".
Definition never (b : bytes) : option Z := None.

Definition ask (fs : filesystem) (path : string) (hs : list (string * string)) : outcome :=
  (__call__ text_plain no_date never true (config false) fs 0 (get path hs) true init).1.
Definition go (cache : bool) (guess : pystr -> option pystr) (l : list (filesystem * Z * Connection)) : list outcome :=
  visits guess no_date never true (config cache) ((fun x => mkVisit x.1.1 x.1.2 x.2 true) <$> l) init.
(** The status and the octets. *)
Definition brief (o : outcome) : option (option Z * bytes) :=
  match o with Answers es None => Some (a_status (answers es), delivered es) | _ => None end.

Definition site : filesystem :=
  disk [("/srv/a", (7, "hello")); ("/srv/a.gz", (7, "zip")); ("/srv/A", (8, "capital")); ("/srv/x", (9, "ex"));
        ("/etc/passwd", (1, "secret"))]%string.

Lemma plain_names :
  brief (ask site "/s/a" []) = Some (Some 200, lit "hello") /\
  brief (ask site "/s/a" [("Range", "bytes=1-3")]%string) = Some (Some 206, lit "ell") /\
  brief (ask site "/s/a" [("Range", "bytes=-2")]%string) = Some (Some 206, lit "lo") /\
  brief (ask site "/s/a" [("Accept-Encoding", "gzip")]%string) = Some (Some 200, lit "zip") /\
  brief (ask site "/s/../etc/passwd" []) = Some (Some 400, []) /\
  ask site "/s/b" [] = CallNext.
Proof. vm_compute. done. Qed.

Lemma honest_disk files : honest (disk files).
Proof.
  intros p m n. unfold disk. cbn. destruct (dget _ (leads_to p)) as [[m' data]|]; [|done]. cbn. intros [= <- <-]. by exists data.
Qed.

Lemma leads_to_real p : leads_to (leads_to p) = leads_to p.
Proof. unfold leads_to at 2 3. destruct (find_sub (lit "..") p) eqn:E; [by vm_compute|]. unfold leads_to. by rewrite E. Qed.

Lemma lawful_disk files : lawful (disk files).
Proof. by split; intros a p [= <-]; cbn; rewrite leads_to_real. Qed.

Definition ranged : Connection := get "/s/a" [("Range", "bytes=1-3")]%string.
Definition ranged_events : list send_event := match ask site "/s/a" [("Range", "bytes=1-3")]%string with Answers es None => es | _ => [] end.

Lemma ranged_outcome : (__call__ text_plain no_date never true (config false) site 0 ranged true init).1 = Answers ranged_events None.
Proof. vm_compute. reflexivity. Qed.


(** The same site beside another secret. *)
Definition other : filesystem :=
  disk [("/srv/a", (7, "hello")); ("/srv/a.gz", (7, "zip")); ("/srv/A", (8, "capital")); ("/srv/x", (9, "ex"));
        ("/etc/passwd", (2, "another"))]%string.

Lemma disks_agree : agree (config true) site other.
Proof.
  split; [by left|]. intros p [= Hp] Hu. unfold site, other, disk. cbn. rewrite Hp.
  assert (Hne : p <> lit "/etc/passwd") by (intros ->; destruct Hu as [Hu|[rest Hu]]; vm_compute in Hu; discriminate Hu).
  unfold dmem. cbn. repeat case_decide; try done; congruence.
Qed.

Lemma site_contained : contained (config true) site.
Proof.
  intros p x [= Hp] Hu Hf Hx. unfold site, disk in Hf. cbn [isfile] in Hf. rewrite Hp in Hf.
  assert (Hin : p ∈ lit <$> ["/srv/a"; "/srv/a.gz"; "/srv/A"; "/srv/x"; "/etc/passwd"]%string).
  { unfold dmem in Hf. cbn in Hf. cbn [fmap list_fmap]. repeat case_decide; subst; try done; set_solver. }
  assert (Hq : forall p x, p ∈ lit <$> ["/srv/a"; "/srv/a.gz"; "/srv/A"; "/srv/x"]%string -> x ∈ _ENCODING_SUFFIXES ->
    exists q, realpath site (p ++ x.2) = Ok q /\ under (config true) q).
  { intros p' x' Hp' Hx'. cbn [fmap list_fmap] in Hp'. unfold _ENCODING_SUFFIXES in Hx'.
    repeat (apply elem_of_cons in Hp' as [->|Hp']); [..|by apply elem_of_nil in Hp'];
    (repeat (apply elem_of_cons in Hx' as [->|Hx']); [..|by apply elem_of_nil in Hx']);
    (eexists; split; [vm_compute; reflexivity|right; eexists; vm_compute; reflexivity]). }
  cbn [fmap list_fmap] in Hin. repeat (apply elem_of_cons in Hin as [->|Hin]); [..|by apply elem_of_nil in Hin]; try (apply Hq; [decide_it|done]).
  destruct Hu as [Hu|[rest Hu]]; vm_compute in Hu; discriminate Hu.
Qed.


Lemma static_cache_transparent_witness :
  let v now := mkVisit site now (get "/s/a" [("Accept-Encoding", "gzip")]%string) true in
  visits text_plain no_date never true (config true) [v 0; v 5; v 2000] init =
  visits text_plain no_date never true (cold (config true)) [v 0; v 5; v 2000] init.
Proof.
  apply (static_cache_transparent text_plain no_date never true (config true)); [done|].
  assert (Hs : forall u v, v_fs u = v_fs v -> steady (config true) u v).
  { intros u v E. unfold steady. rewrite E. split_and!; done. }
  cbn [coherent]. split_and!; try done; repeat (apply Forall_cons; split; [by apply Hs|]); apply Forall_nil_2.
Defined.

(** A range that ends past the file, or before it begins, is refused; so the
    precondition of a range is not looked at. *)
Lemma long_range_refused :
  brief (ask site "/s/a" [("Range", "bytes=0-99")]%string) = Some (Some 416, []) /\
  brief (ask site "/s/a" [("Range", "bytes=3-1")]%string) = Some (Some 416, []).
Proof. vm_compute. done. Qed.

Lemma if_range_ignored :
  brief (ask site "/s/a" [("Range", "bytes=0-1"); ("If-Range", "other")]%string) = Some (Some 206, lit "he").
Proof. vm_compute. reflexivity. Qed.

(** The octets of a Range field that are not UTF-8 raise. *)
Lemma bad_range_raises :
  (__call__ text_plain no_date never true (config false) site 0
     (mkConn (lit "http") (lit "GET") (lit "http") (lit "/s/a") [] [] (HttpHeaders.__init__ [(lit "range", [255])]) None []) true init).1
  = Answers [] (Some UnicodeDecodeError).
Proof. vm_compute. reflexivity. Qed.

(** The prefix need not end where a segment ends. *)
Lemma prefix_cut : brief (ask site "/sx" []) = Some (Some 200, lit "ex").
Proof. vm_compute. reflexivity. Qed.

(** The path of a request is decoded already; it is decoded once more. *)
Lemma decoded_twice : brief (ask site "/s/%41" []) = Some (Some 200, lit "capital").
Proof. vm_compute. reflexivity. Qed.

(** Once it has been seen, a sibling that vanishes takes the file with it. *)
Lemma vanished_sibling :
  let gone := disk [("/srv/a", (7, "hello"))]%string in
  let c := get "/s/a" [("Accept-Encoding", "gzip")]%string in
  brief <$> go true text_plain [(site, 0, c); (gone, 5000, c)] = [Some (Some 200, lit "zip"); Some (Some 404, [])] /\
  brief <$> go false text_plain [(site, 0, c); (gone, 5000, c)] = [Some (Some 200, lit "zip"); Some (Some 200, lit "hello")].
Proof. vm_compute. done. Qed.

(** The type under which a sibling was asked for itself stays with its body. *)
Definition by_suffix (p : pystr) : option pystr := if endswith (lit ".gz") p then None else Some (lit "text/css").
Definition type_of (o : outcome) : option bytes :=
  match o with Answers es None => first_value (lit "content-type") (a_headers (answers es)) | _ => None end.
Lemma type_of_sibling :
  type_of <$> go true by_suffix [(site, 0, get "/s/a.gz" []); (site, 1, get "/s/a" [("Accept-Encoding", "gzip")]%string)]
    = [Some (lit "application/octet-stream"); Some (lit "application/octet-stream")] /\
  type_of <$> go false by_suffix [(site, 0, get "/s/a.gz" []); (site, 1, get "/s/a" [("Accept-Encoding", "gzip")]%string)]
    = [Some (lit "application/octet-stream"); Some (lit "text/css")].
Proof. vm_compute. done. Qed.

(** A sibling is not resolved: where it leads does not matter. *)
Lemma sibling_not_resolved :
  let linked := mkFs (fun p => if bool_decide (p = lit "/srv/a.gz") then Ok (lit "/etc/passwd") else Ok p)
                     (isfile site) (isdir site) (stat site) (read site) in
  brief (ask linked "/s/a.gz" []) = Some (Some 400, []) /\
  brief (ask linked "/s/a" [("Accept-Encoding", "gzip")]%string) = Some (Some 200, lit "zip").
Proof. vm_compute. done. Qed.

End Sample.
End StaticFiles.
