(* ===== verification/Request.v ===== *)
(** * The body and the cookies of a request (blackbull/request.py, connection.py)

    [read_body] with its two arms — the ASGI channel and the native one —
    over any recipient, the single-drain cache of [Connection.body] and
    [Connection.stream], and the cookie fields.  [HTTP2Recipient] is the
    recipient the arms are compared on. *)

From Stdlib Require Import ZArith Lia.
From stdpp Require Import base tactics numbers option strings sets list.
From S2P Require Import Prelude PyLib PyText PyBytes H2Frames HttpHeaders H2Recipient.
Import H2Recipient.

Module Request.

(** ** Reading the whole body *)

(** How a read ends: with the body, with [ClientDisconnected] and what had come
    by then, or not yet. *)
Inductive body_read : Type :=
| Whole (body : bytes)
| Gone (partial : bytes)
| Waits.

Section Channel.
Context {R : Type} (call : R -> option event * R) (next : R -> option chunk * R).

(** The arm for a plain callable. *)
Fixpoint read_events (fuel : nat) (chunks : list bytes) (r : R) : body_read * R :=
  match fuel with
  | O => (Waits, r)
  | S fuel =>
      match call r with
      | (None, r) => (Waits, r)
      | (Some http_disconnect, r) => (Gone (mjoin chunks), r)
      | (Some (http_request c more), r) =>
          let chunks := if bool_decide (c = []) then chunks else chunks ++ [c] in
          if more then read_events fuel chunks r else (Whole (mjoin chunks), r)
      end
  end.

(** The arm for a recipient with [next_chunk]. *)
Fixpoint read_chunks (fuel : nat) (chunks : list bytes) (r : R) : body_read * R :=
  match fuel with
  | O => (Waits, r)
  | S fuel =>
      match next r with
      | (None, r) => (Waits, r)
      | (Some ClientDisconnected, r) => (Gone (mjoin chunks), r)
      | (Some EndOfBody, r) => (Whole (mjoin chunks), r)
      | (Some (Chunk c), r) => read_chunks fuel (chunks ++ [c]) r
      end
  end.

(** [stream_body] with a native channel, to its end or until the handler stops
    after [k] chunks: what it yields and how it ends. *)
Fixpoint stream_body (fuel k : nat) (out : list bytes) (r : R) : list bytes * body_read * R :=
  match fuel with
  | O => (out, Waits, r)
  | S fuel =>
      match next r with
      | (None, r) => (out, Waits, r)
      | (Some ClientDisconnected, r) => (out, Gone [], r)
      | (Some EndOfBody, r) => (out, Whole [], r)
      | (Some (Chunk c), r) =>
          if bool_decide (c = []) then stream_body fuel k out r
          else match k with
               | O => (out ++ [c], Whole [], r)
               | S k => stream_body fuel k (out ++ [c]) r
               end
      end
  end.

(** ** The cache of the body *)

Record cached : Type := mkCached {
  _body : option bytes;
  _body_read : bool;
  _receive : R
}.

Definition fresh (r : R) : cached := mkCached None false r.

(** What a call on the request gives. *)
Inductive answer : Type :=
| Body (b : bytes)
| Chunks (l : list bytes) (how : body_read)
| Disconnected (partial : bytes)
| Refused               (* RuntimeError *)
| Pending.

(** [Connection.body] *)
Definition body (fuel : nat) (c : cached) : answer * cached :=
  if negb (_body_read c) then
    match read_chunks fuel [] (_receive c) with
    | (Whole b, r) => (Body b, mkCached (Some b) true r)
    | (Gone p, r) => (Disconnected p, mkCached (_body c) (_body_read c) r)
    | (Waits, r) => (Pending, mkCached (_body c) (_body_read c) r)
    end
  else match _body c with Some b => (Body b, c) | None => (Refused, c) end.

(** [Connection.stream], of which [k] chunks and one more are taken. *)
Definition stream (fuel k : nat) (c : cached) : answer * cached :=
  if _body_read c then (Refused, c)
  else let '(l, how, r) := stream_body fuel k [] (_receive c) in (Chunks l how, mkCached (_body c) true r).

(** The calls a handler makes on one request. *)
Inductive call_on : Type := CallBody | CallStream (k : nat).

Definition on_request (fuel : nat) (o : call_on) (c : cached) : answer * cached :=
  match o with CallBody => body fuel c | CallStream k => stream fuel k c end.

Fixpoint calls (fuel : nat) (l : list call_on) (c : cached) : list answer * cached :=
  match l with
  | [] => ([], c)
  | o :: l => let '(a, c) := on_request fuel o c in let '(out, c) := calls fuel l c in (a :: out, c)
  end.

(** Whoever reads first, no other read touches the channel again. *)
Lemma read_once fuel o c :
  _body_read c = true -> _receive (on_request fuel o c).2 = _receive c /\ _body_read (on_request fuel o c).2 = true.
Proof.
  intros H. destruct o; cbn [on_request]; unfold body, stream; rewrite H; cbn [negb]; [|done].
  by destruct (_body c).
Qed.

Lemma calls_read fuel l : forall c, _body_read c = true -> _receive (calls fuel l c).2 = _receive c.
Proof.
  induction l as [|o l IH]; intros c H; [done|]. cbn [calls]. destruct (read_once fuel o c H) as [Hr Hb].
  destruct (on_request fuel o c) as [a c2]. cbn [snd] in *. specialize (IH c2 Hb). destruct (calls fuel l c2). cbn [snd] in *. congruence.
Qed.

(** The body once read is what every later read gives. *)
Lemma body_again fuel l c b :
  _body_read c = true -> _body c = Some b ->
  Forall2 (fun o a => a = match o with CallBody => Body b | CallStream _ => Refused end) l (calls fuel l c).1.
Proof.
  intros Hr Hb. induction l as [|o l IH]; [constructor|]. cbn [calls].
  assert (E : on_request fuel o c = (match o with CallBody => Body b | CallStream _ => Refused end, c))
    by (destruct o; cbn [on_request]; unfold body, stream; rewrite Hr; cbn [negb]; rewrite ?Hb; done).
  rewrite E. destruct (calls fuel l c) as [out c2]. cbn [fst] in *. by constructor.
Qed.

End Channel.

(** ** The two arms agree *)

Definition call_event (r : H2Recipient.t) : option event * H2Recipient.t :=
  let '(e, r) := H2Recipient.__call__ r in (fst <$> e, r).
Definition call_chunk (r : H2Recipient.t) : option chunk * H2Recipient.t :=
  let '(e, r) := H2Recipient.next_chunk r in (fst <$> e, r).

(** A recipient that has not given the end of its body. *)
Definition unread (r : H2Recipient.t) : Prop := _done r = false /\ _end_of_stream_on_headers r && negb (_initial_consumed r) = false.

Lemma take_keeps r i c r' : _take r = (Some (i, c), r') ->
  _done r' = _done r /\ _end_of_stream_on_headers r' = _end_of_stream_on_headers r /\ _initial_consumed r' = _initial_consumed r /\
  exists cr, queue_of r = (i, cr) :: queue_of r'.
Proof.
  unfold _take. destruct (queue_of r) as [|[j cr] q] eqn:E; [done|]. destruct (_ && _).
  - destruct (_ && _); intros [= <- <- <-]; repeat split; by exists cr.
  - intros [= <- <- <-]. repeat split. by exists cr.
Qed.

Lemma take_waits r r' : _take r = (None, r') -> queue_of r = [] /\ r' = ensured r.
Proof. unfold _take. destruct (queue_of r) as [|[j cr] q]; [by intros [= <-]|]. by destruct (_ && _). Qed.

Lemma read_chunks_S fuel chunks r :
  read_chunks call_chunk (S fuel) chunks r =
  match call_chunk r with
  | (None, r) => (Waits, r)
  | (Some ClientDisconnected, r) => (Gone (mjoin chunks), r)
  | (Some EndOfBody, r) => (Whole (mjoin chunks), r)
  | (Some (Chunk c), r) => read_chunks call_chunk fuel (chunks ++ [c]) r
  end.
Proof. done. Qed.

(** Once the last part is taken the native channel is at its end. *)
Lemma chunk_done r : _done r = true -> (call_chunk r).1 = Some EndOfBody.
Proof. intros H. unfold call_chunk, H2Recipient.next_chunk. rewrite H. by destruct (_ && _). Qed.

(** Both arms give the same. *)
Lemma arms_agree fuel : forall chunks1 chunks2 r,
  unread r -> (length (queue_of r) < fuel)%nat -> mjoin chunks1 = mjoin chunks2 ->
  (read_events call_event fuel chunks1 r).1 = (read_chunks call_chunk (S fuel) chunks2 r).1.
Proof.
  induction fuel as [|fuel IH]; intros chunks1 chunks2 r [Hd Hi] Hf Hj; [lia|]. rewrite read_chunks_S. cbn [read_events].
  unfold call_event at 1, call_chunk at 1, H2Recipient.__call__, H2Recipient.next_chunk. rewrite Hi, Hd.
  destruct (_take r) as [[[[c eos|] cr]|] r2] eqn:Et; cbn [fmap option_fmap option_map fst]; [|by rewrite Hj|done].
  destruct (take_keeps _ _ _ _ Et) as (H1 & H2 & H3 & cr' & Hq).
  assert (Hj2 : mjoin (if bool_decide (c = []) then chunks1 else chunks1 ++ [c]) = mjoin (chunks2 ++ [c])).
  { rewrite join_app, <- Hj. destruct (bool_decide_reflect (c = [])) as [->|]; [by cbn; rewrite app_nil_r|]. by rewrite join_app. }
  destruct eos; cbn [negb].
  - rewrite read_chunks_S. pose proof (chunk_done (set_done r2) eq_refl) as He. destruct (call_chunk (set_done r2)) as [o r3].
    cbn [fst] in He. subst o. cbn [fst]. by rewrite Hj2.
  - rewrite Hq in Hf. cbn [length] in Hf. apply IH; [|lia|done]. unfold unread. by rewrite H1, H2, H3.
Qed.

(** ** Cookies *)

Definition replace_cookie (acc : dict pystr pystr) (part : bytes) : dict pystr pystr :=
  let '(k, _, v) := partition_char 61 (strip WHITESPACE part) in
  dset acc (utf8_replace (strip WHITESPACE k)) (utf8_replace (strip WHITESPACE v)).

(** [cookies_from_headers], from the values of the cookie fields. *)
Definition parse_cookies (values : list bytes) : dict pystr pystr :=
  match values with
  | [] => []
  | _ => foldl replace_cookie [] (split_on 59 (join (lit "; ") values))
  end.

Definition cookies_from_headers (h : HttpHeaders.t) : dict pystr pystr :=
  parse_cookies (snd <$> HttpHeaders.getlist (lit "cookie") h).

(** [Connection.subprotocols] *)
Definition subprotocols (h : HttpHeaders.t) : list pystr :=
  match HttpHeaders.get (lit "sec-websocket-protocol") [] h with
  | [] => []
  | raw => (fun p => utf8_replace (strip WHITESPACE p)) <$> split_on 44 raw
  end.

Lemma leading_space acc w : replace_cookie acc (32 :: w) = replace_cookie acc w.
Proof. done. Qed.

(** Where the cookies are cut into fields does not matter. *)
Lemma parse_cookies_fields values :
  parse_cookies values = foldl replace_cookie [] (mjoin (split_on 59 <$> values)).
Proof.
  destruct values as [|v values]; [done|]. unfold parse_cookies. generalize (@nil (pystr * pystr)). revert v.
  induction values as [|w values IH]; intros v acc; [by cbn; rewrite app_nil_r|].
  change (join (lit "; ") (v :: w :: values)) with (v ++ 59 :: 32 :: join (lit "; ") (w :: values)).
  rewrite split_on_snoc, fmap_cons. cbn [mjoin list_join]. rewrite !foldl_app, <- IH.
  set (l := join _ _). set (acc2 := foldl replace_cookie acc (split_on 59 v)).
  destruct (split_on 59 l) as [|x xs] eqn:E; [by apply split_on_nonempty in E|].
  assert (Hs : split_on 59 (32 :: l) = (32 :: x) :: xs) by (cbn [split_on]; by rewrite E).
  rewrite Hs. cbn [foldl]. by rewrite leading_space.
Qed.

(** ** Sample reads *)

Module Sample.

(** A body whose peer goes away: the first read says so, the second calls the
    body complete and empty. *)
Definition cut : H2Recipient.t :=
  put_disconnect (put_DATAFrame 0 (H2Frames.mkBase 3 0 1) [1; 2; 3] (H2Recipient.__init__ 8 false 0 0 0 0)).2.

Lemma body_after_disconnect :
  (calls call_chunk 9 [CallBody; CallBody] (fresh cut)).1 = [Disconnected [1; 2; 3]; Body []].
Proof. reflexivity. Qed.

(** What has been streamed is not served again. *)
Lemma stream_then_body :
  (calls call_chunk 9 [CallStream 0; CallBody] (fresh cut)).1 = [Chunks [[1; 2; 3]] (Whole []); Refused].
Proof. reflexivity. Qed.

Lemma split_cookie_fields :
  parse_cookies [lit "a=1; b=2"; lit "c=3"] = [(lit "a", lit "1"); (lit "b", lit "2"); (lit "c", lit "3")].
Proof. reflexivity. Qed.

End Sample.

End Request.
