(* ===== verification/GrpcServe.v ===== *)
(** * gRPC calls (blackbull/grpc/asgi.py, status.py, registry.py, compression.py)

    The registry, the call's headers, the request iterator, [GrpcContext], and
    [serve_grpc] with its unary and streaming writers.  A handler is a tree of
    the effects it can have on its call; the time of each of its waits, whether
    the idle flusher ran there and whether the task was cancelled come from a
    list of wakes, so that every interleaving of the producer, the flusher and
    the deadline is a list.  zlib is a parameter; a duration is a number of
    nanoseconds, where the source has a float of seconds. *)

From Stdlib Require Import ZArith Lia.
From stdpp Require Import base tactics numbers option strings sets list.
From S2P Require Import Prelude PyLib PyText PyBytes H2Frames HttpHeaders H2Recipient Http1Sender Pipeline Request GrpcCodec.
Import H2Recipient Http1Sender Pipeline GrpcCodec.

Module GrpcServe.

(** ** Status codes *)

Inductive GrpcStatus : Type :=
| OK | CANCELLED | UNKNOWN | INVALID_ARGUMENT | DEADLINE_EXCEEDED | NOT_FOUND | ALREADY_EXISTS | PERMISSION_DENIED
| RESOURCE_EXHAUSTED | FAILED_PRECONDITION | ABORTED | OUT_OF_RANGE | UNIMPLEMENTED | INTERNAL | UNAVAILABLE | DATA_LOSS
| UNAUTHENTICATED.

Definition code_of (s : GrpcStatus) : Z :=
  match s with
  | OK => 0 | CANCELLED => 1 | UNKNOWN => 2 | INVALID_ARGUMENT => 3 | DEADLINE_EXCEEDED => 4 | NOT_FOUND => 5
  | ALREADY_EXISTS => 6 | PERMISSION_DENIED => 7 | RESOURCE_EXHAUSTED => 8 | FAILED_PRECONDITION => 9 | ABORTED => 10
  | OUT_OF_RANGE => 11 | UNIMPLEMENTED => 12 | INTERNAL => 13 | UNAVAILABLE => 14 | DATA_LOSS => 15 | UNAUTHENTICATED => 16
  end.

(** What leaves a handler: [GrpcError], [TimeoutError], another [Exception] with
    its text, or [CancelledError]. *)
Inductive failure : Type :=
| GrpcError (status : GrpcStatus) (details : pystr)
| TimedOut
| Exception (text : pystr)
| Cancelled.

(** ** Fields of the request *)

Definition _GRPC_CONTENT_TYPE : bytes := lit "application/grpc".
Definition ACCEPT_ENCODING : bytes := lit "identity,gzip".

Definition _TIMEOUT_UNITS : dict bytes Z :=
  [(lit "H", 3600 * 10 ^ 9); (lit "M", 60 * 10 ^ 9); (lit "S", 10 ^ 9); (lit "m", 10 ^ 6); (lit "u", 10 ^ 3); (lit "n", 1)].

(** [int] of at most eight digits. *)
Definition _parse_grpc_timeout (raw : bytes) : option Z :=
  match last raw with
  | None => None
  | Some u =>
      match dget _TIMEOUT_UNITS [u] with
      | None => None
      | Some mult =>
          let digits := take (length raw - 1) raw in
          if bool_decide (digits = []) || (zlen digits >? 8) || negb (isdigit digits) then None
          else let value := int_of_digits digits in if value <=? 0 then None else Some (value * mult)
      end
  end.

Definition hex_upper (d : Z) : Z := if d <? 10 then 48 + d else 55 + d.
Definition pct (b : Z) : bytes :=
  if (0x20 <=? b) && (b <=? 0x7E) && negb (b =? 0x25) then [b] else [37; hex_upper (b / 16); hex_upper (b mod 16)].

Definition _pct_encode_message (details : pystr) : result bytes :=
  let* b := utf8_encode details in Ok (mjoin (pct <$> b)).

Definition _accepts_gzip (accept : bytes) : bool :=
  existsb (fun tok => bool_decide (lower (strip WHITESPACE tok) = lit "gzip")) (split_on 44 accept).

Definition _resolve_content_type (raw : bytes) : bytes :=
  let ct := strip WHITESPACE raw in
  if bool_decide (ct = _GRPC_CONTENT_TYPE) || startswith ct (_GRPC_CONTENT_TYPE ++ lit "+") then ct else _GRPC_CONTENT_TYPE.

Definition _status_trailers (status : GrpcStatus) (details : pystr) (extra : list field) : result (list field) :=
  let* message := match details with [] => Ok [] | _ => let* m := _pct_encode_message details in Ok [(lit "grpc-message", m)] end in
  Ok ((lit "grpc-status", str_int (code_of status)) :: message ++ extra).

Definition _response_headers (content_type : bytes) (encoding : option bytes) (initial : list field) : list field :=
  [(lit "content-type", content_type); (lit "grpc-accept-encoding", ACCEPT_ENCODING)] ++
  match encoding with Some ((_ :: _) as e) => [(lit "grpc-encoding", e)] | _ => [] end ++ initial.

Definition _response_start (content_type : bytes) (encoding : option bytes) (initial : list field) : NativeResponse :=
  mkNative 200 (Some (_response_headers content_type encoding initial)) None false None true None.

Definition data_response (data : bytes) : NativeResponse := mkNative 200 None (Some data) true None false None.
Definition trailers_response (ts : list field) : NativeResponse := mkNative 200 None None false (Some ts) false None.

(** ** Compression *)

Inductive gunzip : Type :=
| Plain (out : bytes)
| DecompressionError (text : pystr)
| DecompressionBombError (text : pystr).

(** [repr] of a text of ASCII and U+FFFD. *)
Definition repr_char (quote c : Z) : pystr :=
  if (c =? quote) || (c =? 92) then [92; c]
  else if c =? 9 then lit "\t" else if c =? 10 then lit "\n" else if c =? 13 then lit "\r"
  else if (c <? 32) || (c =? 127) then lit "\x" ++ hex2 c
  else [c].
Definition repr (s : pystr) : pystr :=
  let quote := if bool_decide (39 ∈ s) && negb (bool_decide (34 ∈ s)) then 34 else 39 in
  quote :: mjoin (repr_char quote <$> s) ++ [quote].
Definition ascii_replace (b : bytes) : pystr := (fun c => if c <? 128 then c else REPLACEMENT) <$> b.

Section Grpc.
(** [decompressobj(wbits).decompress(data, max_length)]: the text of [zlib.error],
    or the output, [unconsumed_tail] and what [flush] gives. *)
Context (inflate : bytes -> Z -> pystr + bytes * bytes * (pystr + bytes)).
(** [compressobj(wbits)]: the stream of the whole input. *)
Context (deflate : bytes -> bytes).
(** The texts of [struct.error] for a length out of range, and of the
    [FlowControlStalled] a send raises when the peer opens no window. *)
Context (struct_error stalled_error : pystr).
Context (MAX_MESSAGE_SIZE _STREAM_BATCH_BYTES _COMPRESS_MIN_BYTES : Z).

Definition compress_gzip (data : bytes) : bytes := deflate data.

Definition bomb (max_output : Z) : pystr := lit "decompressed message exceeds the " ++ str_int max_output ++ lit "-byte limit".

Definition decompress_gzip (data : bytes) (max_output : Z) : gunzip :=
  match inflate data (max_output + 1) with
  | inl exc => DecompressionError (lit "gzip: " ++ exc)
  | inr (out, tail, flush) =>
      if negb (bool_decide (tail = [])) || (zlen out >? max_output) then DecompressionBombError (bomb max_output)
      else
        match flush with
        | inl exc => DecompressionError (lit "gzip: " ++ exc)
        | inr more =>
            let out := out ++ more in
            if zlen out >? max_output then DecompressionBombError (bomb max_output) else Plain out
        end
  end.

Definition _decompress_message (message encoding : bytes) : bytes + failure :=
  if bool_decide (encoding = lit "gzip") then
    match decompress_gzip message MAX_MESSAGE_SIZE with
    | Plain out => inl out
    | DecompressionBombError text => inr (GrpcError RESOURCE_EXHAUSTED text)
    | DecompressionError text => inr (GrpcError INTERNAL (lit "malformed request: " ++ text))
    end
  else
    let name := match ascii_replace encoding with [] => lit "identity" | n => n end in
    inr (GrpcError UNIMPLEMENTED (lit "grpc-encoding " ++ repr name ++ lit " is not supported for compressed messages; " ++
                                  lit "server accepts " ++ ACCEPT_ENCODING)).

Definition _frame_response (payload : bytes) (compress : bool) : result bytes :=
  if compress && (zlen payload >? _COMPRESS_MIN_BYTES) && (zlen (compress_gzip payload) <? zlen payload)
  then encode_message (compress_gzip payload) true
  else encode_message payload false.

(** ** The request *)

Definition larger (what : pystr) (n limit : Z) : failure :=
  GrpcError RESOURCE_EXHAUSTED (what ++ lit " message (" ++ str_int n ++ lit " bytes) larger than the " ++ str_int limit ++ lit "-byte limit").

(** The text of the [GrpcDecodeError] of [decode_messages]. *)
Fixpoint decode_text (fuel : nat) (data : bytes) (offset : Z) : pystr :=
  match fuel with
  | O => []
  | S fuel =>
      let n := zlen data in
      if n - offset <? _PREFIX_LEN then lit "truncated message prefix: " ++ str_int (n - offset) ++ lit " byte(s) before EOF"
      else
        let length := from_bytes (slice data (offset + 1) (offset + 5)) in
        let offset := offset + _PREFIX_LEN in
        if length >? MAX_MESSAGE_LENGTH
        then lit "message length " ++ str_int length ++ lit " exceeds safety limit " ++ str_int MAX_MESSAGE_LENGTH
        else if offset + length >? n
        then lit "message body truncated: need " ++ str_int length ++ lit " bytes, have " ++ str_int (n - offset)
        else decode_text fuel data (offset + length)
  end.

(** The channel as the list of its events; a list that ends is a peer gone. *)
Definition receive (es : list event) : option event * list event :=
  match es with [] => (Some http_disconnect, []) | e :: es => (Some e, es) end.

Definition _read_unary_request (es : list event) (encoding : bytes) : bytes + failure :=
  match (Request.read_events receive (S (length es)) [] es).1 with
  | Request.Whole body =>
      match decode_messages body with
      | Raise _ => inr (GrpcError INTERNAL (lit "malformed request: " ++ decode_text (S (length body)) body 0))
      | Ok [(compressed, request)] =>
          match (if compressed : bool then _decompress_message request encoding else inl request) with
          | inl request => if zlen request >? MAX_MESSAGE_SIZE then inr (larger (lit "request") (zlen request) MAX_MESSAGE_SIZE) else inl request
          | inr e => inr e
          end
      | Ok l => inr (GrpcError UNIMPLEMENTED (lit "method expects exactly 1 request message, got " ++ str_int (zlen l)))
      end
  | _ => inr (GrpcError CANCELLED (lit "client disconnected before sending the request"))
  end.

(** What [__anext__] of the request iterator gives. *)
Inductive reply : Type := Message (m : bytes) | Exhausted | Failed (e : failure).

(** The variables of the generator; [finished] once it has raised or returned. *)
Record requests : Type := mkRequests {
  r_buf : bytes;
  r_more : bool;
  r_events : list event;
  finished : bool
}.

Definition requests_of (es : list event) : requests := mkRequests [] true es false.

(** A complete message at the head of the buffer, a prefix over the limit, or
    neither yet. *)
Definition head_message (encoding buf : bytes) : option (bytes * bytes + failure) :=
  if zlen buf <? _PREFIX_LEN then None
  else
    let flag := default 0 (head buf) in
    let length := from_bytes (slice buf 1 5) in
    let limit := if flag =? 0 then MAX_MESSAGE_SIZE else MAX_MESSAGE_LENGTH in
    if length >? limit then Some (inr (larger (lit "request") length limit))
    else if zlen buf - _PREFIX_LEN <? length then None
    else
      let message := slice buf _PREFIX_LEN (_PREFIX_LEN + length) in
      let rest := slice_from buf (_PREFIX_LEN + length) in
      if flag =? 0 then Some (inl (message, rest))
      else match _decompress_message message encoding with
           | inl message => Some (inl (message, rest))
           | inr e => Some (inr e)
           end.

Definition closed (r : reply) : reply * requests := (r, mkRequests [] false [] true).

(** [_iter_request_messages], to its next [yield]. *)
Fixpoint pull (encoding buf : bytes) (more : bool) (es : list event) : reply * requests :=
  match head_message encoding buf with
  | Some (inl (m, rest)) => (Message m, mkRequests rest more es false)
  | Some (inr e) => closed (Failed e)
  | None =>
      if more then
        match es with
        | http_request chunk more :: es => pull encoding (buf ++ chunk) more es
        | _ => closed (Failed (GrpcError CANCELLED (lit "client disconnected mid-stream")))
        end
      else if bool_decide (buf = []) then closed Exhausted
      else closed (Failed (GrpcError INTERNAL (lit "malformed request: " ++ str_int (zlen buf) ++ lit " trailing byte(s) after last message")))
  end.

Definition next_message (encoding : bytes) (r : requests) : reply * requests :=
  if finished r then (Exhausted, r) else pull encoding (r_buf r) (r_more r) (r_events r).

(** ** The context of a call *)

(** The slots of [GrpcContext] that change; [_content_type] and
    [_response_encoding] are bound once and are arguments below. *)
Record context : Type := mkContext {
  code : GrpcStatus;
  details : pystr;
  _trailing : list field;
  _initial_metadata : list field;
  _started : bool
}.

Definition new_context : context := mkContext OK [] [] [] false.

Definition set_code (s : GrpcStatus) (c : context) : context := mkContext s (details c) (_trailing c) (_initial_metadata c) (_started c).
Definition set_details (d : pystr) (c : context) : context := mkContext (code c) d (_trailing c) (_initial_metadata c) (_started c).
Definition set_trailing_metadata (md : list field) (c : context) : context :=
  mkContext (code c) (details c) md (_initial_metadata c) (_started c).
Definition set_initial (md : list field) (c : context) : context := mkContext (code c) (details c) (_trailing c) md (_started c).
Definition mark_started (c : context) : context := mkContext (code c) (details c) (_trailing c) (_initial_metadata c) true.

Definition metadata (name : string) (c : Connection) : bytes := HttpHeaders.get (lit name) [] (headers c).

Definition invocation_metadata (c : Connection) : list field := filter (fun x => startswith x.1 (lit ":") = false) (HttpHeaders._list (headers c)).

Definition peer (c : Connection) : pystr :=
  match client c with
  | None => []
  | Some (host, port) =>
      if bool_decide (58 ∈ host) then lit "ipv6:[" ++ host ++ lit "]:" ++ str_int port else lit "ipv4:" ++ host ++ lit ":" ++ str_int port
  end.

Definition time_remaining (deadline : option Z) (now : Z) : option Z := (fun d => Z.max 0 (d - now)) <$> deadline.

(** ** Handlers *)

(** What a handler returns or yields: octets, or a value of another type. *)
Inductive value : Type := Bytes (b : bytes) | NotBytes (type_name : pystr).

(** A handler's effects on its call.  [Y] is what it may yield: nothing for a
    coroutine.  [SendInitial] goes on with how it went, [Next] with what the
    request iterator gives, [Pause] is any other wait. *)
Inductive begun : Type := Begun | TooLate (* ValueError *) | Stalled.
Inductive proc (Y : Type) : Type :=
| Return (v : value)
| Throw (e : failure)
| Yield (y : Y) (k : proc Y)
| SetCode (s : GrpcStatus) (k : proc Y)
| SetDetails (d : pystr) (k : proc Y)
| SetTrailing (md : list field) (k : proc Y)
| SendInitial (md : list field) (k : begun -> proc Y)
| Next (k : reply -> proc Y)
| Pause (k : proc Y).

(** The end of one wait: whether the idle flusher ran (or, for a send that is cut
    short, whether it had been written), the clock, and whether the task was
    cancelled. *)
Record wake : Type := mkWake {
  flushes : bool;
  now : Z;
  cancels : bool
}.

Record world : Type := mkWorld {
  ctx : context;
  sent : list NativeResponse;
  buf : bytes;
  request : requests;
  wakes : list wake;
  stalls : list bool;        (* of the sends to come, which raise; none at its end *)
  refused : bool;            (* a send has raised *)
  idle_dead : bool           (* the idle flusher has *)
}.

Definition with_ctx (c : context) (w : world) : world :=
  mkWorld c (sent w) (buf w) (request w) (wakes w) (stalls w) (refused w) (idle_dead w).
Definition upd (f : context -> context) (w : world) : world := with_ctx (f (ctx w)) w.
Definition set_buf (b : bytes) (w : world) : world :=
  mkWorld (ctx w) (sent w) b (request w) (wakes w) (stalls w) (refused w) (idle_dead w).
Definition set_request (r : requests) (w : world) : world :=
  mkWorld (ctx w) (sent w) (buf w) r (wakes w) (stalls w) (refused w) (idle_dead w).
Definition wake_up (w : world) : world :=
  mkWorld (ctx w) (sent w) (buf w) (request w) (tail (wakes w)) (stalls w) (refused w) (idle_dead w).
Definition bury (w : world) : world :=
  mkWorld (ctx w) (sent w) (buf w) (request w) (wakes w) (stalls w) (refused w) true.

(** [await send(r)]: it raises where the peer takes no more of the response
    (part of [r] may have gone out), and then nothing counts as sent. *)
Definition send (r : NativeResponse) (w : world) : option failure * world :=
  match stalls w with
  | true :: l => (Some (Exception stalled_error), mkWorld (ctx w) (sent w) (buf w) (request w) (wakes w) l true (idle_dead w))
  | l => (None, mkWorld (ctx w) (sent w ++ [r]) (buf w) (request w) (wakes w) (tail l) (refused w) (idle_dead w))
  end.

(** One statement after another: a failure ends the block. *)
Definition next (x : option failure * world) (k : world -> option failure * world) : option failure * world :=
  match x with (None, w) => k w | (Some e, w) => (Some e, w) end.

Section Call.
Context (content_type : bytes) (response_encoding : option bytes) (request_encoding : bytes).
(** When the deadline passes: a duration after the handler was started. *)
Context (limit : option Z).

Definition _start_response (w : world) : option failure * world :=
  if _started (ctx w) then (None, w)
  else send (_response_start content_type response_encoding (_initial_metadata (ctx w))) (upd mark_started w).

Definition _flush (w : world) : option failure * world :=
  if bool_decide (buf w = []) then (None, w)
  else let data := buf w in next (_start_response (set_buf [] w)) (send (data_response data)).

(** The flush of the idle flusher: the task ends where it raises, and the
    exception is only logged. *)
Definition idle_flush (w : world) : world :=
  if idle_dead w then w else match _flush w with (None, w) => w | (Some _, w) => bury w end.

Definition expired (k : wake) : bool := match limit with Some d => d <=? now k | None => false end.

(** The failure raised where a wait ends. *)
Definition woken (w : world) : option failure :=
  match wakes w with
  | k :: _ => if cancels k then Some Cancelled else if expired k then Some TimedOut else None
  | [] => None
  end.

(** A wait of the handler; the idle flusher may run. *)
Definition suspend (w : world) : option failure * world :=
  let e := woken w in
  let w := match wakes w with k :: _ => if flushes k then idle_flush w else w | [] => w end in
  (e, wake_up w).

(** The flush inside the loop waits for the peer's window; when it is cut short,
    what it had taken out of the buffer is gone unless it had been written. *)
Definition flush_or_cut (w : world) : option failure * world :=
  let x := match woken w, wakes w with
           | Some e, k :: _ => next (if flushes k then _flush w else _start_response (set_buf [] w)) (fun w => (Some e, w))
           | _, _ => _flush w
           end in
  (x.1, wake_up x.2).

(** At the end of the stream the idle flusher is let finish; whether it has
    anything left to do is the schedule's. *)
Definition _stop_idle_flusher (w : world) : world :=
  wake_up (match wakes w with k :: _ => if flushes k then idle_flush w else w | [] => idle_flush w end).

Definition _validate_response_message (v : value) : bytes + failure :=
  match v with
  | NotBytes name => inr (GrpcError INTERNAL (lit "handler returned " ++ name ++ lit ", expected bytes"))
  | Bytes b => if zlen b >? MAX_MESSAGE_SIZE then inr (larger (lit "response") (zlen b) MAX_MESSAGE_SIZE) else inl b
  end.

Definition framed (payload : bytes) : bytes + failure :=
  match _frame_response payload (bool_decide (is_Some response_encoding)) with
  | Ok data => inl data
  | Raise _ => inr (Exception struct_error)
  end.

(** One message yielded, in [_drive]. *)
Definition emit (v : value) (w : world) : option failure * world :=
  match _validate_response_message v with
  | inr e => (Some e, w)
  | inl b =>
      match framed b with
      | inr e => (Some e, w)
      | inl data =>
          let w := set_buf (buf w ++ data) w in
          if zlen (buf w) >=? _STREAM_BATCH_BYTES then flush_or_cut w else (None, w)
      end
  end.

(** The handler run to its end, to a failure it raises, or to one raised in it. *)
Fixpoint run {Y} (emit : Y -> world -> option failure * world) (p : proc Y) (w : world) : (value + failure) * world :=
  match p with
  | Return _ v => (inl v, w)
  | Throw _ e => (inr e, w)
  | Yield _ y k => match emit y w with (None, w) => run emit k w | (Some e, w) => (inr e, w) end
  | SetCode _ s k => run emit k (upd (set_code s) w)
  | SetDetails _ d k => run emit k (upd (set_details d) w)
  | SetTrailing _ md k => run emit k (upd (set_trailing_metadata md) w)
  | SendInitial _ md k =>
      if _started (ctx w) then run emit (k TooLate) w
      else match _start_response (upd (set_initial md) w) with
           | (None, w) => run emit (k Begun) w
           | (Some _, w) => run emit (k Stalled) w
           end
  | Next _ k =>
      let '(r, req) := next_message request_encoding (request w) in
      let waited := (length (r_events req) <? length (r_events (request w)))%nat in
      let w := set_request req w in
      if waited then match suspend w with (None, w) => run emit (k r) w | (Some e, w) => (inr e, w) end
      else run emit (k r) w
  | Pause _ k => match suspend w with (None, w) => run emit k w | (Some e, w) => (inr e, w) end
  end.

(** ** The writers *)

(** How [serve_grpc] ends: it returns, or an exception leaves it. *)
Inductive ended : Type := Returned | CancelledError | Raised (e : exn).

(** The last statement of a writer: a send that raises leaves [serve_grpc]. *)
Definition finish (x : option failure * world) : ended * world :=
  match x with (None, w) => (Returned, w) | (Some _, w) => (Raised FlowControlStalled, w) end.

(** [x], then the status. *)
Definition send_trailers (status : GrpcStatus) (text : pystr) (extra : list field) (x : option failure * world) : ended * world :=
  match x with
  | (Some e, w) => finish (Some e, w)
  | (None, w) =>
      match _status_trailers status text extra with
      | Ok ts => finish (send (trailers_response ts) w)
      | Raise e => (Raised e, w)
      end
  end.

Definition _send_trailers_only (status : GrpcStatus) (text : pystr) (trailing : list field) (w : world) : ended * world :=
  send_trailers status text trailing (send (_response_start content_type None []) w).

Definition _finish_stream_error (status : GrpcStatus) (text : pystr) (w : world) : ended * world :=
  let trailing := _trailing (ctx w) in
  if _started (ctx w) then send_trailers status text trailing (None, w) else _send_trailers_only status text trailing w.

(** The [except] clauses: the status of a failure. *)
Definition status_of (e : failure) : option (GrpcStatus * pystr) :=
  match e with
  | GrpcError s d => Some (s, d)
  | TimedOut => Some (DEADLINE_EXCEEDED, lit "deadline exceeded")
  | Exception text => Some (INTERNAL, text)
  | Cancelled => None
  end.

Definition no_yield (y : Empty_set) (w : world) : option failure * world := match y with end.

Definition report (e : failure) (w : world) : ended * world :=
  match status_of e with
  | Some (s, d) => _finish_stream_error s d w
  | None => (CancelledError, w)
  end.

Definition _serve_unary (p : proc Empty_set) (w : world) : ended * world :=
  let '(v, w) := run no_yield p w in
  match match v with inl v => _validate_response_message v | inr e => inr e end with
  | inr e => report e w
  | inl response =>
      match _frame_response response (bool_decide (is_Some response_encoding)) with
      | Raise e => (Raised e, w)
      | Ok body =>
          let c := ctx w in
          match _status_trailers (code c) (details c) (_trailing c) with
          | Raise e => (Raised e, w)
          | Ok ts =>
              if _started c then finish (next (send (data_response body) w) (send (trailers_response ts)))
              else finish (send (with_trailers 200 (_response_headers content_type response_encoding (_initial_metadata c)) (Some body) ts)
                             (upd mark_started w))
          end
      end
  end.

Definition _serve_server_streaming (p : proc value) (w : world) : ended * world :=
  let '(v, w) := run emit p w in
  match v with
  | inr e =>
      match status_of e with
      | Some (s, d) =>                          (* the flusher then has nothing left to write *)
          match _flush w with (None, w) => _finish_stream_error s d w | (Some e, w) => finish (Some e, w) end
      | None => (CancelledError, _stop_idle_flusher w)
      end
  | inl _ =>
      let x := next (_flush (_stop_idle_flusher w)) _start_response in
      send_trailers (code (ctx x.2)) (details (ctx x.2)) (_trailing (ctx x.2)) x
  end.

End Call.

(** ** The registry and the call *)

(** The four kinds of method; a handler of a unary request takes the message. *)
Inductive handler : Type :=
| Unary (f : bytes -> proc Empty_set)
| ServerStreaming (f : bytes -> proc value)
| ClientStreaming (p : proc Empty_set)
| Bidirectional (p : proc value).

Definition registry : Type := dict pystr handler.

Definition _normalise (path : pystr) : pystr := if startswith path (lit "/") then path else lit "/" ++ path.

(** [add_method] of a handler whose two axes are those of its kind. *)
Definition add_method (path : pystr) (h : handler) (r : registry) : result registry :=
  let key := _normalise path in
  if dmem r key then Raise ValueError else Ok (dset r key h).

Definition lookup_method (r : registry) (path : pystr) : option handler := dget r (_normalise path).

Definition add_service (service : pystr) (methods : list (pystr * handler)) (r : registry) : result registry :=
  foldl (fun acc m => let* r := acc in add_method (lit "/" ++ service ++ lit "/" ++ m.1) m.2 r) (Ok r) methods.

(** [serve_grpc]: [started] is the clock when the handler is called; how it ends,
    what it has sent, and whether a send was refused. *)
Definition serve_grpc (r : registry) (c : Connection) (es : list event) (started : Z) (ws : list wake) (ss : list bool)
    : ended * list NativeResponse * bool :=
  let content_type := _resolve_content_type (metadata "content-type" c) in
  let request_encoding := lower (strip WHITESPACE (metadata "grpc-encoding" c)) in
  let response_encoding := if _accepts_gzip (metadata "grpc-accept-encoding" c) then Some (lit "gzip") else None in
  let limit := (fun d => started + d) <$> _parse_grpc_timeout (metadata "grpc-timeout" c) in
  let w es := mkWorld new_context [] [] (requests_of es) ws ss false false in
  let done (x : ended * world) := (x.1, sent x.2, refused x.2) in
  let with_request (serve : bytes -> ended * world) :=
    match _read_unary_request es request_encoding with
    | inl request => done (serve request)
    | inr e => done (match status_of e with
                     | Some (s, d) => _send_trailers_only content_type s d [] (w [])
                     | None => (CancelledError, w [])
                     end)
    end in
  match lookup_method r (path c) with
  | None => done (_send_trailers_only content_type UNIMPLEMENTED (lit "Method not found: " ++ path c) [] (w es))
  | Some (Unary f) => with_request (fun m => _serve_unary content_type response_encoding request_encoding limit (f m) (w []))
  | Some (ServerStreaming f) =>
      with_request (fun m => _serve_server_streaming content_type response_encoding request_encoding limit (f m) (w []))
  | Some (ClientStreaming p) => done (_serve_unary content_type response_encoding request_encoding limit p (w es))
  | Some (Bidirectional p) => done (_serve_server_streaming content_type response_encoding request_encoding limit p (w es))
  end.

(** ** What a call promises *)

Section Promise.
Context (content_type : bytes) (response_encoding : option bytes) (request_encoding : bytes) (limit : option Z).

(** The context but for the mark that the response has started. *)
Definition view (c : context) : context := mkContext (code c) (details c) (_trailing c) (_initial_metadata c) false.

(** The failures that come from outside. *)
Definition interrupts (e : failure) : Prop := e = Cancelled \/ (e = TimedOut /\ limit <> None).

(** One course a handler may take, in an environment that answers its waits in
    any way: the messages it yields, how it ends, the context it leaves. *)
Inductive behaves {Y} (bytes_of : Y -> bytes + failure) : proc Y -> context -> list bytes -> value + failure -> context -> Prop :=
| b_return v c : behaves bytes_of (Return Y v) c [] (inl v) c
| b_throw e c : behaves bytes_of (Throw Y e) c [] (inr e) c
| b_yield y k b c ms r c' : bytes_of y = inl b -> behaves bytes_of k c ms r c' -> behaves bytes_of (Yield Y y k) c (b :: ms) r c'
| b_bad y k e c : bytes_of y = inr e -> behaves bytes_of (Yield Y y k) c [] (inr e) c
| b_cut y k b e c : bytes_of y = inl b -> interrupts e -> behaves bytes_of (Yield Y y k) c [b] (inr e) c
| b_code s k c ms r c' : behaves bytes_of k (set_code s c) ms r c' -> behaves bytes_of (SetCode Y s k) c ms r c'
| b_details d k c ms r c' : behaves bytes_of k (set_details d c) ms r c' -> behaves bytes_of (SetDetails Y d k) c ms r c'
| b_trailing md k c ms r c' : behaves bytes_of k (set_trailing_metadata md c) ms r c' -> behaves bytes_of (SetTrailing Y md k) c ms r c'
| b_initial md k c ms r c' : behaves bytes_of (k Begun) (set_initial md c) ms r c' -> behaves bytes_of (SendInitial Y md k) c ms r c'
| b_late md k c ms r c' : behaves bytes_of (k TooLate) c ms r c' -> behaves bytes_of (SendInitial Y md k) c ms r c'
| b_next k x c ms r c' : behaves bytes_of (k x) c ms r c' -> behaves bytes_of (Next Y k) c ms r c'
| b_next_cut k e c : interrupts e -> behaves bytes_of (Next Y k) c [] (inr e) c
| b_pause k c ms r c' : behaves bytes_of k c ms r c' -> behaves bytes_of (Pause Y k) c ms r c'
| b_pause_cut k e c : interrupts e -> behaves bytes_of (Pause Y k) c [] (inr e) c.

(** The message of a yielded value that passes the checks. *)
Definition yielded (v : value) : bytes + failure :=
  match _validate_response_message v with
  | inr e => inr e
  | inl b => match framed response_encoding b with inr e => inr e | inl _ => inl b end
  end.

(** Messages and their frames. *)
Definition frames (ms : list bytes) (data : bytes) : Prop :=
  exists fs, Forall2 (fun m f => framed response_encoding m = inl f) ms fs /\ data = mjoin fs.

Lemma frames_app ms1 ms2 d1 d2 : frames ms1 d1 -> frames ms2 d2 -> frames (ms1 ++ ms2) (d1 ++ d2).
Proof. intros (f1 & H1 & ->) (f2 & H2 & ->). exists (f1 ++ f2). split; [by apply Forall2_app|by rewrite join_app]. Qed.

Lemma frames_nil : frames [] [].
Proof. by exists []. Qed.

Lemma framed_nonempty m f : framed response_encoding m = inl f -> f <> [].
Proof.
  unfold framed, _frame_response, encode_message, prefix_pack. intros H ->. repeat case_match; simplify_eq/=.
Qed.

Lemma frames_empty l : frames l [] -> l = [].
Proof.
  intros (fs & H & E). destruct H as [|m f l fs Hf _]; [done|]. apply framed_nonempty in Hf. cbn in E. by destruct f.
Qed.

(** What has been sent: the head once started, then data. *)
Definition shaped (w : world) (ds : list bytes) : Prop :=
  sent w = (if _started (ctx w) then [_response_start content_type response_encoding (_initial_metadata (ctx w))] else []) ++
           (data_response <$> ds) /\
  (_started (ctx w) = false -> ds = []).

(** The messages sent and those still in the buffer. *)
Definition logged (w : world) (ms : list bytes) : Prop :=
  exists ds done pend, shaped w ds /\ ms = done ++ pend /\ frames done (mjoin ds) /\ frames pend (buf w).

Lemma start_shaped w ds w' : shaped w ds -> _start_response content_type response_encoding w = (None, w') ->
  shaped w' ds /\ _started (ctx w') = true.
Proof.
  intros H. unfold _start_response. destruct (_started (ctx w)) eqn:E; [by intros [= <-]|]. destruct H as [Hs Hn]. rewrite E in Hs.
  unfold send. destruct (stalls _) as [|[] l]; intros [= <-];
    (split; [|done]; split; [|done]; cbn [upd with_ctx sent ctx mark_started _started _initial_metadata]; by rewrite Hs, (Hn E)).
Qed.

(** What a send leaves alone. *)
Definition alike (w w' : world) : Prop :=
  view (ctx w') = view (ctx w) /\ buf w' = buf w /\ request w' = request w /\ wakes w' = wakes w.

Lemma send_sent r w w' : send r w = (None, w') -> sent w' = sent w ++ [r].
Proof. unfold send. by destruct (stalls w) as [|[] l]; intros [= <-]. Qed.

Lemma send_alike r w x w' : send r w = (x, w') -> alike w w'.
Proof. unfold send. by destruct (stalls w) as [|[] l]; intros [= <- <-]. Qed.

Lemma start_alike w x w' : _start_response content_type response_encoding w = (x, w') -> alike w w'.
Proof.
  unfold _start_response. destruct (_started (ctx w)); [by intros [= <- <-]|]. intros H%send_alike. exact H.
Qed.

Lemma data_shaped w ds d w' : shaped w ds -> _started (ctx w) = true -> send (data_response d) w = (None, w') -> shaped w' (ds ++ [d]).
Proof.
  intros [Hs Hn] Hst. unfold send. destruct (stalls w) as [|[] l]; intros [= <-];
    (split; [|cbn; congruence]; cbn [sent ctx]; by rewrite Hs, fmap_app, app_assoc).
Qed.

(** Once a send has raised, the world says so: what ends without a refusal had
    none on the way. *)
Definition trusty (w w' : world) : Prop := refused w' = false -> refused w = false.

Lemma trusty_refl w : trusty w w.
Proof. by intros ?. Qed.

Lemma trusty_trans w1 w2 w3 : trusty w1 w2 -> trusty w2 w3 -> trusty w1 w3.
Proof. unfold trusty. auto. Qed.

Lemma send_trusty r w : trusty w (send r w).2 /\ ((send r w).1 <> None -> refused (send r w).2 = true).
Proof. unfold trusty, send. by destruct (stalls w) as [|[] l]. Qed.

Lemma start_trusty w : let x := _start_response content_type response_encoding w in
  trusty w x.2 /\ (x.1 <> None -> refused x.2 = true).
Proof.
  cbv zeta. unfold _start_response. destruct (_started (ctx w)); [by split; [intros ?|]|].
  exact (send_trusty (_response_start content_type response_encoding (_initial_metadata (ctx w))) (upd mark_started w)).
Qed.

Lemma next_trusty x k w : trusty w x.2 /\ (x.1 <> None -> refused x.2 = true) ->
  (forall w, trusty w (k w).2 /\ ((k w).1 <> None -> refused (k w).2 = true)) ->
  trusty w (next x k).2 /\ ((next x k).1 <> None -> refused (next x k).2 = true).
Proof.
  intros [H1 H2] Hk. destruct x as [[e|] w1]; [done|]. destruct (Hk w1) as [H3 H4]. split; [|done]. by eapply trusty_trans.
Qed.

Lemma flush_trusty w : let x := _flush content_type response_encoding w in trusty w x.2 /\ (x.1 <> None -> refused x.2 = true).
Proof.
  cbv zeta. unfold _flush. destruct (bool_decide _); [by split; [intros ?|]|]. apply next_trusty; [|intros; apply send_trusty].
  exact (start_trusty (set_buf [] w)).
Qed.

Lemma idle_trusty w : trusty w (idle_flush content_type response_encoding w).
Proof.
  unfold idle_flush. destruct (idle_dead w); [apply trusty_refl|]. destruct (flush_trusty w) as [H _].
  destruct (_flush _ _ w) as [[e|] w']; exact H.
Qed.

Lemma suspend_trusty w : trusty w (suspend content_type response_encoding limit w).2.
Proof. unfold suspend. destruct (wakes w) as [|k ks]; [exact (trusty_refl w)|]. destruct (flushes k); [exact (idle_trusty w)|exact (trusty_refl w)]. Qed.

Lemma flush_or_cut_trusty w : trusty w (flush_or_cut content_type response_encoding limit w).2.
Proof.
  unfold flush_or_cut, trusty. cbn [snd wake_up refused].
  assert (Hf : trusty w (_flush content_type response_encoding w).2) by apply flush_trusty.
  destruct (woken limit w) as [e|]; [|exact Hf]. destruct (wakes w) as [|k ks]; [exact Hf|].
  destruct (flushes k).
  - by destruct (_flush content_type response_encoding w) as [[e'|] w1].
  - destruct (start_trusty (set_buf [] w)) as [Hs _]. by destruct (_start_response _ _ _) as [[e'|] w1].
Qed.

Lemma emit_trusty v w : trusty w (emit content_type response_encoding limit v w).2.
Proof.
  unfold emit. destruct (_validate_response_message v); [|exact (trusty_refl w)]. destruct (framed _ _); [|exact (trusty_refl w)].
  destruct (_ >=? _); [|exact (trusty_refl w)]. exact (flush_or_cut_trusty (set_buf _ w)).
Qed.

Lemma run_trusty {Y} (em : Y -> world -> option failure * world) (p : proc Y) :
  (forall y w, trusty w (em y w).2) -> forall w, trusty w (run content_type response_encoding request_encoding limit em p w).2.
Proof.
  intros Hem. induction p as [v0|e0|y k IH|s k IH|d k IH|md k IH|md k IH|k IH|k IH]; intros w; cbn [run]; try apply trusty_refl.
  - pose proof (Hem y w) as H. destruct (em y w) as [[e|] w1]; [exact H|]. by eapply trusty_trans.
  - exact (IH (upd (set_code s) w)).
  - exact (IH (upd (set_details d) w)).
  - exact (IH (upd (set_trailing_metadata md) w)).
  - destruct (_started (ctx w)); [apply IH|]. destruct (start_trusty (upd (set_initial md) w)) as [H _].
    destruct (_start_response _ _ _) as [[e|] w1]; (eapply trusty_trans; [exact H|apply IH]).
  - destruct (next_message _ _) as [x req]. destruct (_ <? _)%nat; [|exact (IH x (set_request req w))].
    pose proof (suspend_trusty (set_request req w)) as H. destruct (suspend _ _ _ _) as [[e|] w1]; [exact H|].
    eapply trusty_trans; [exact H|apply IH].
  - pose proof (suspend_trusty w) as H. destruct (suspend _ _ _ _) as [[e|] w1]; [exact H|]. eapply trusty_trans; [exact H|apply IH].
Qed.

Lemma flush_logged w ms w' : logged w ms -> _flush content_type response_encoding w = (None, w') ->
  logged w' ms /\ view (ctx w') = view (ctx w) /\ buf w' = [] /\ wakes w' = wakes w.
Proof.
  intros (ds & done & pend & Hs & -> & Hd & Hp). unfold _flush. destruct (bool_decide_reflect (buf w = [])) as [E|E].
  { intros [= <-]. split; [|done]. by exists ds, done, pend. }
  destruct (_start_response _ _ _) as [[e|] w1] eqn:Es; [done|]. cbn [next]. intros Hsend.
  destruct (start_shaped (set_buf [] w) ds w1) as [Hs2 Hst]; [done..|]. destruct (start_alike _ _ _ Es) as (Hv1 & Hb1 & _ & Hw1).
  destruct (send_alike _ _ _ _ Hsend) as (Hv2 & Hb2 & _ & Hw2). cbn [set_buf buf wakes ctx] in *.
  split; [|split; [congruence|split; congruence]].
  exists (ds ++ [buf w]), (done ++ pend), []. split; [by eapply data_shaped|]. split; [by rewrite app_nil_r|].
  split; [|rewrite Hb2, Hb1; apply frames_nil]. rewrite join_app. cbn. rewrite app_nil_r. by apply frames_app.
Qed.

Lemma idle_logged w ms : logged w ms -> refused (idle_flush content_type response_encoding w) = false ->
  logged (idle_flush content_type response_encoding w) ms /\ view (ctx (idle_flush content_type response_encoding w)) = view (ctx w).
Proof.
  intros Hl. unfold idle_flush. destruct (idle_dead w); [done|]. destruct (flush_trusty w) as [_ Hr].
  destruct (_flush _ _ w) as [[e|] w'] eqn:Ef; cbn [fst snd] in *.
  - cbn [bury refused]. rewrite Hr by done. done.
  - intros _. by destruct (flush_logged w ms w' Hl Ef) as (H1 & H2 & _).
Qed.

Lemma woken_interrupts w e : woken limit w = Some e -> interrupts e.
Proof.
  unfold woken, interrupts, expired. destruct (wakes w) as [|k ks]; [done|]. destruct (cancels k); [intros [= <-]; by left|].
  destruct limit as [d|]; [|done]. destruct (d <=? now k); [|done]. intros [= <-]. by right.
Qed.

Lemma wake_logged w ms : logged w ms -> logged (wake_up w) ms.
Proof. intros (ds & done & pend & H). by exists ds, done, pend. Qed.

Lemma suspend_logged w ms e w' : logged w ms -> suspend content_type response_encoding limit w = (e, w') -> refused w' = false ->
  logged w' ms /\ view (ctx w') = view (ctx w) /\ match e with Some e => interrupts e | None => True end.
Proof.
  intros Hl. unfold suspend. intros [= <- <-] Hr. pose proof (woken_interrupts w) as Hi.
  destruct (wakes w) as [|k ks] eqn:E.
  - split; [by apply wake_logged|]. split; [done|]. unfold woken. by rewrite E.
  - assert (H : logged (if flushes k then idle_flush content_type response_encoding w else w) ms /\
      view (ctx (if flushes k then idle_flush content_type response_encoding w else w)) = view (ctx w)).
    { destruct (flushes k); [by apply idle_logged|done]. }
    destruct H as [H1 H2]. split; [by apply wake_logged|]. split; [done|]. destruct (woken limit w); [by apply Hi|done].
Qed.

(** The flush that is cut short: all of the buffer is written, or none. *)
Lemma cut_logged k w w1 e done pend : logged w (done ++ pend) ->
  (exists ds, shaped w ds /\ frames done (mjoin ds)) ->
  next (if flushes k then _flush content_type response_encoding w else _start_response content_type response_encoding (set_buf [] w))
    (fun w => (Some e, w)) = (Some e, w1) -> refused w1 = false ->
  view (ctx w1) = view (ctx w) /\ exists kept, kept `prefix_of` done ++ pend /\ logged w1 kept.
Proof.
  intros Hl (ds & Hs & Hd). destruct (flushes k).
  - destruct (flush_trusty w) as [_ Hr]. destruct (_flush _ _ w) as [[e'|] w2] eqn:Ef; cbn [next fst snd] in *; intros Heq H; simplify_eq.
    + by rewrite Hr in H.
    + destruct (flush_logged w _ w1 Hl Ef) as (H1 & H2 & _). split; [done|]. by exists (done ++ pend).
  - destruct (start_trusty (set_buf [] w)) as [_ Hr].
    destruct (_start_response _ _ _) as [[e'|] w2] eqn:Es; cbn [next fst snd] in *; intros Heq H; simplify_eq; [by rewrite Hr in H|].
    destruct (start_alike _ _ _ Es) as (Hv & Hb & _). split; [done|]. exists done. split; [by eexists|].
    destruct (start_shaped (set_buf [] w) ds w1) as [Hs2 _]; [done..|]. exists ds, done, []. split; [done|].
    split; [by rewrite app_nil_r|]. split; [done|]. rewrite Hb. apply frames_nil.
Qed.

(** One yield: the message joins the log, or the log is cut. *)
Lemma emit_logged v w ms e w' : logged w ms -> emit content_type response_encoding limit v w = (e, w') -> refused w' = false ->
  view (ctx w') = view (ctx w) /\
  match yielded v, e with
  | inr e', _ => e = Some e' /\ logged w' ms
  | inl b, None => logged w' (ms ++ [b])
  | inl b, Some e => interrupts e /\ exists kept, kept `prefix_of` ms ++ [b] /\ logged w' kept
  end.
Proof.
  intros Hl. unfold emit, yielded. destruct (_validate_response_message v) as [b|e1]; [|by intros [= <- <-]].
  destruct (framed response_encoding b) as [data|e1] eqn:Ef; [|by intros [= <- <-]].
  destruct Hl as (ds & done & pend & Hs & -> & Hd & Hp). set (w1 := set_buf (buf w ++ data) w).
  assert (Hl1 : logged w1 (done ++ (pend ++ [b]))).
  { exists ds, done, (pend ++ [b]). split; [done|]. split; [done|]. split; [done|]. cbn [w1 set_buf buf].
    apply frames_app; [done|]. exists [data]. split; [by repeat constructor|]. cbn. by rewrite app_nil_r. }
  rewrite <- app_assoc. destruct (_ >=? _); [|by intros [= <- <-]]. unfold flush_or_cut.
  assert (Hall : forall x, _flush content_type response_encoding w1 = x -> refused x.2 = false ->
    x.1 = None /\ view (ctx x.2) = view (ctx w) /\ logged x.2 (done ++ (pend ++ [b]))).
  { intros [[e1|] w2] E Hr; destruct (flush_trusty w1) as [_ Hf]; rewrite E in Hf; [by rewrite Hf in Hr|].
    destruct (flush_logged w1 _ w2 Hl1 E) as (H1 & H2 & _). done. }
  destruct (woken limit w1) as [e1|] eqn:Ew; [destruct (wakes w1) as [|k ks] eqn:Ek; [unfold woken in Ew; by rewrite Ek in Ew|]|].
  - match goal with |- context [next ?a ?b] => destruct (next a b) as [x w2] eqn:En end. cbn [fst snd]. intros [= <- <-] Hr.
    assert (x = Some e1) as ->.
    { destruct (flushes k).
      - destruct (flush_trusty w1) as [_ Hf]. destruct (_flush _ _ w1) as [[e2|] w3]; injection En as <- <-; [|done].
        cbn [wake_up refused fst snd] in *. by rewrite Hf in Hr.
      - destruct (start_trusty (set_buf [] w1)) as [_ Hf].
        destruct (_start_response _ _ _) as [[e2|] w3]; injection En as <- <-; [|done].
        cbn [wake_up refused fst snd] in *. by rewrite Hf in Hr. }
    destruct (cut_logged k w1 w2 e1 done (pend ++ [b]) Hl1) as (Hv & kept & Hk & Hlk); [by exists ds|done..|].
    split; [done|]. split; [by apply (woken_interrupts w1)|]. exists kept. split; [done|by apply wake_logged].
  - intros [= <- <-] Hr. destruct (Hall _ eq_refl Hr) as (-> & Hv & H). split; [done|by apply wake_logged].
Qed.

Lemma upd_logged f w ms : logged w ms -> (forall c, _started (f c) = _started c) ->
  (forall c, _started c = true -> _initial_metadata (f c) = _initial_metadata c) -> logged (upd f w) ms.
Proof.
  intros (ds & done & pend & [Hs Hn] & H) H1 H2. exists ds, done, pend. split; [|done]. unfold shaped. cbn [upd with_ctx sent ctx].
  rewrite H1. split; [|done]. rewrite Hs. destruct (_started (ctx w)) eqn:E; [|done]. by rewrite H2.
Qed.

Lemma request_logged r w ms : logged w ms -> logged (set_request r w) ms.
Proof. intros (ds & done & pend & H). by exists ds, done, pend. Qed.

(** A run is a course the handler may take, and its messages are in the log. *)
Definition course {Y} (bytes_of : Y -> bytes + failure) (p : proc Y) (w : world) (ms : list bytes) (v : value + failure) (w' : world) : Prop :=
  exists more kept, behaves bytes_of p (view (ctx w)) more v (view (ctx w')) /\ logged w' kept /\ kept `prefix_of` ms ++ more /\
    (match v with inr e => interrupts e | inl _ => False end \/ kept = ms ++ more).

Lemma course_quiet {Y} (bytes_of : Y -> bytes + failure) p k w0 w ms v w' :
  (forall c r c' more, behaves bytes_of k c more r c' -> c = view (ctx w) -> behaves bytes_of p (view (ctx w0)) more r c') ->
  course bytes_of k w ms v w' -> course bytes_of p w0 ms v w'.
Proof. intros H (more & kept & Hb & Hr). exists more, kept. split; [by eapply H|done]. Qed.

Lemma course_end {Y} (bytes_of : Y -> bytes + failure) p w0 ms v w' :
  behaves bytes_of p (view (ctx w0)) [] v (view (ctx w')) -> logged w' ms -> course bytes_of p w0 ms v w'.
Proof. intros H Hl. exists [], ms. rewrite app_nil_r. by repeat split; [| | |right]. Qed.

Lemma run_logged {Y} (em : Y -> world -> option failure * world) (bytes_of : Y -> bytes + failure) (p : proc Y) :
  (forall y w ms e w', logged w ms -> em y w = (e, w') -> refused w' = false ->
     view (ctx w') = view (ctx w) /\
     match bytes_of y, e with
     | inr e', _ => e = Some e' /\ logged w' ms
     | inl b, None => logged w' (ms ++ [b])
     | inl b, Some e => interrupts e /\ exists kept, kept `prefix_of` ms ++ [b] /\ logged w' kept
     end) ->
  (forall y w, trusty w (em y w).2) ->
  forall w ms v w', logged w ms -> run content_type response_encoding request_encoding limit em p w = (v, w') -> refused w' = false ->
  course bytes_of p w ms v w'.
Proof.
  intros Hem Htr.
  assert (Hclean : forall (q : proc Y) w v w', run content_type response_encoding request_encoding limit em q w = (v, w') ->
    refused w' = false -> refused w = false).
  { intros q w v w' Hr Hw'. apply (run_trusty em q Htr w). by rewrite Hr. }
  induction p as [v0|e0|y k IH|s k IH|d k IH|md k IH|md k IH|k IH|k IH]; intros w ms v w' Hl; cbn [run].
  - intros [= <- <-] _. apply course_end; [constructor|done].
  - intros [= <- <-] _. apply course_end; [constructor|done].
  - destruct (em y w) as [e w1] eqn:Ee. intros Hr Hw'.
    assert (Hw1 : refused w1 = false) by (destruct e; [by injection Hr as _ <-|by eapply Hclean]).
    destruct (Hem _ _ _ _ _ Hl Ee Hw1) as [Hv Hy]. destruct (bytes_of y) as [b|e'] eqn:Eb.
    + destruct e as [e|].
      * injection Hr as <- <-. destruct Hy as (Hi & kept & Hk & Hlk). exists [b], kept. rewrite Hv. repeat split; [by apply b_cut|done|done|by left].
      * destruct (IH _ _ _ _ Hy Hr Hw') as (more & kept & Hb & Hlk & Hk & Hor). rewrite Hv in Hb. exists (b :: more), kept.
        rewrite <- app_assoc in Hk, Hor. repeat split; [by apply b_yield|done|done|done].
    + destruct Hy as [-> Hy]. injection Hr as <- <-. apply course_end; [|done]. rewrite Hv. by apply b_bad.
  - intros Hr Hw'. eapply course_quiet; [|eapply IH, Hw'; [|exact Hr]; by apply upd_logged]. intros c r c' more Hb ->. by apply b_code.
  - intros Hr Hw'. eapply course_quiet; [|eapply IH, Hw'; [|exact Hr]; by apply upd_logged]. intros c r c' more Hb ->. by apply b_details.
  - intros Hr Hw'. eapply course_quiet; [|eapply IH, Hw'; [|exact Hr]; by apply upd_logged]. intros c r c' more Hb ->. by apply b_trailing.
  - destruct (_started (ctx w)) eqn:Es; intros Hr Hw'.
    + eapply course_quiet; [|by eapply IH]. intros c r c' more Hb ->. by apply b_late.
    + destruct (start_trusty (upd (set_initial md) w)) as [_ Href].
      destruct (_start_response _ _ _) as [[e|] w1] eqn:Ew; cbn [fst snd] in Href.
      { rewrite (Hclean _ _ _ _ Hr Hw') in Href. by discriminate Href. }
      destruct Hl as (ds & done & pend & [Hs Hn] & H). rewrite Es in Hs. destruct (start_alike _ _ _ Ew) as (Hv & Hb & _).
      assert (Hl2 : logged w1 ms).
      { destruct (start_shaped (upd (set_initial md) w) ds w1) as [H2 _]; [|done|].
        { split; [|done]. cbn [upd with_ctx sent ctx set_initial _started]. by rewrite Es. }
        exists ds, done, pend. by rewrite Hb. }
      eapply course_quiet; [|by eapply IH]. intros c r c' more Hc ->. rewrite Hv in Hc. by apply b_initial.
  - destruct (next_message _ _) as [x req] eqn:En. destruct (_ <? _)%nat; intros Hr Hw'.
    + destruct (suspend _ _ _ (set_request req w)) as [e w1] eqn:Eu.
      assert (Hw1 : refused w1 = false) by (destruct e; [by injection Hr as _ <-|by eapply Hclean]).
      destruct (suspend_logged _ ms _ _ (request_logged req w ms Hl) Eu Hw1) as (Hl1 & Hv & Hi). destruct e as [e|].
      * injection Hr as <- <-. apply course_end; [|done]. rewrite Hv. by apply b_next_cut.
      * eapply course_quiet; [|by eapply IH]. intros c r c' more Hb ->. rewrite Hv in Hb. by apply (b_next _ k x).
    + eapply course_quiet; [|eapply IH, Hw'; [|exact Hr]; by apply request_logged]. intros c r c' more Hb ->. by apply (b_next _ k x).
  - destruct (suspend _ _ _ w) as [e w1] eqn:Eu. intros Hr Hw'.
    assert (Hw1 : refused w1 = false) by (destruct e; [by injection Hr as _ <-|by eapply Hclean]).
    destruct (suspend_logged w ms _ _ Hl Eu Hw1) as (Hl1 & Hv & Hi). destruct e as [e|].
    + injection Hr as <- <-. apply course_end; [|done]. rewrite Hv. by apply b_pause_cut.
    + eapply course_quiet; [|by eapply IH]. intros c r c' more Hb ->. rewrite Hv in Hb. by apply b_pause.
Qed.

(** ** Replies *)

(** [out] is one gRPC response: a head that announces trailers, data, and last the
    status. *)
Definition grpc_response (out : list NativeResponse) (hs : list field) (ds : list bytes) (ts : list field) : Prop :=
  mjoin (to_asgi <$> out) = ResponseStart 200 hs true :: ((fun d => ResponseBody d true) <$> ds) ++ [ResponseTrailers ts].

(** What is sent for a conversation of which [conv] says the messages, the status
    and its trailing metadata. *)
Definition replied (conv : list bytes -> GrpcStatus -> pystr -> list field -> Prop) (cancelled : Prop) (x : ended * world) : Prop :=
  match x.1 with
  | Returned => exists ms s d extra ts enc md ds,
      conv ms s d extra /\ _status_trailers s d extra = Ok ts /\ frames ms (mjoin ds) /\
      (enc = response_encoding \/ (enc = None /\ ds = [])) /\
      grpc_response (sent x.2) (_response_headers content_type enc md) ds ts
  | CancelledError => cancelled
  | Raised e => exists ms s d extra, conv ms s d extra /\
      (_status_trailers s d extra = Raise e \/ Exists (fun m => _frame_response m (bool_decide (is_Some response_encoding)) = Raise e) ms)
  end.

Lemma asgi_data ds : mjoin (to_asgi <$> (data_response <$> ds)) = (fun d => ResponseBody d true) <$> ds.
Proof. induction ds as [|d ds IH]; [done|]. rewrite !fmap_cons, <- IH. done. Qed.

(** The status after a response that has started and holds nothing back. *)
Lemma status_replied conv cancelled s d extra w ms :
  logged w ms -> buf w = [] -> _started (ctx w) = true -> conv ms s d extra ->
  refused (send_trailers s d extra (None, w)).2 = false -> replied conv cancelled (send_trailers s d extra (None, w)).
Proof.
  intros (ds & done & pend & [Hs _] & -> & Hd & Hp) Hb Hst Hc. unfold send_trailers, replied.
  rewrite Hb in Hp. apply frames_empty in Hp as ->. rewrite app_nil_r in Hc. destruct (_status_trailers s d extra) as [ts|e] eqn:Et.
  2:{ intros _. exists done, s, d, extra. split; [done|by left]. }
  destruct (send_trusty (trailers_response ts) w) as [_ Hr]. destruct (send _ w) as [[e|] w'] eqn:Es; cbn [finish fst snd] in *.
  - intros Hf. by rewrite Hr in Hf.
  - intros _. exists done, s, d, extra, ts, response_encoding, (_initial_metadata (ctx w)), ds. repeat split; [done|done|done|by left|].
    unfold grpc_response. rewrite (send_sent _ _ _ Es), Hs, Hst, !fmap_app, !join_app, asgi_data. done.
Qed.

Lemma finish_replied (conv : list bytes -> GrpcStatus -> pystr -> list field -> Prop) cancelled s d w ms :
  logged w ms -> buf w = [] -> conv ms s d (_trailing (ctx w)) -> refused (_finish_stream_error content_type s d w).2 = false ->
  replied conv cancelled (_finish_stream_error content_type s d w).
Proof.
  intros Hl Hb Hc. unfold _finish_stream_error. destruct (_started (ctx w)) eqn:Est; [by eapply status_replied|].
  destruct Hl as (ds & done & pend & [Hs Hn] & -> & Hd & Hp). rewrite (Hn Est) in *. rewrite Est in Hs. cbn in Hs.
  rewrite Hb in Hp. apply frames_empty in Hd as ->, Hp as ->. cbn [app] in Hc. unfold _send_trailers_only, send_trailers, replied.
  destruct (send_trusty (_response_start content_type None []) w) as [_ H1].
  destruct (send _ w) as [[e|] w1] eqn:E1; cbn [finish fst snd] in *; [intros Hf; by rewrite H1 in Hf|].
  destruct (_status_trailers s d _) as [ts|e] eqn:Et.
  2:{ intros _. exists [], s, d, (_trailing (ctx w)). split; [done|by left]. }
  destruct (send_trusty (trailers_response ts) w1) as [_ H2]. destruct (send _ w1) as [[e|] w2] eqn:E2; cbn [finish fst snd] in *;
    [intros Hf; by rewrite H2 in Hf|].
  intros _. exists [], s, d, (_trailing (ctx w)), ts, None, [], []. repeat split; [done|done|apply frames_nil|by right|].
  unfold grpc_response. by rewrite (send_sent _ _ _ E2), (send_sent _ _ _ E1), Hs.
Qed.

(** ** The conversation *)

Definition no_value (y : Empty_set) : bytes + failure := match y with end.

Definition takes_one (h : option handler) : bool := match h with Some (Unary _) | Some (ServerStreaming _) => true | _ => false end.
Definition unary_call (h : option handler) (req : bytes + failure) : option (proc Empty_set) :=
  match h, req with Some (Unary f), inl m => Some (f m) | Some (ClientStreaming p), _ => Some p | _, _ => None end.
Definition stream_call (h : option handler) (req : bytes + failure) : option (proc value) :=
  match h, req with Some (ServerStreaming f), inl m => Some (f m) | Some (Bidirectional p), _ => Some p | _, _ => None end.

(** The messages a call is to deliver, its status, text and trailing metadata. *)
Inductive conversation (path : pystr) (h : option handler) (req : bytes + failure) :
    list bytes -> GrpcStatus -> pystr -> list field -> Prop :=
| c_missing : h = None -> conversation path h req [] UNIMPLEMENTED (lit "Method not found: " ++ path) []
| c_refused e s d : takes_one h = true -> req = inr e -> status_of e = Some (s, d) -> conversation path h req [] s d []
| c_unary p b c : unary_call h req = Some p -> behaves no_value p new_context [] (inl (Bytes b)) c -> zlen b <= MAX_MESSAGE_SIZE ->
    conversation path h req [b] (code c) (details c) (_trailing c)
| c_unary_failed p v e s d c : unary_call h req = Some p -> behaves no_value p new_context [] v c ->
    match v with inl v => _validate_response_message v | inr e => inr e end = inr e -> status_of e = Some (s, d) ->
    conversation path h req [] s d (_trailing c)
| c_stream p ms v c : stream_call h req = Some p -> behaves yielded p new_context ms (inl v) c ->
    conversation path h req ms (code c) (details c) (_trailing c)
| c_stream_failed p ms kept e s d c : stream_call h req = Some p -> behaves yielded p new_context ms (inr e) c -> status_of e = Some (s, d) ->
    kept `prefix_of` ms -> kept = ms \/ (e = TimedOut /\ limit <> None) -> conversation path h req kept s d (_trailing c).

(** The handler was cancelled. *)
Definition cancelled (h : option handler) (req : bytes + failure) : Prop :=
  (exists p c, unary_call h req = Some p /\ behaves no_value p new_context [] (inr Cancelled) c) \/
  (exists p ms c, stream_call h req = Some p /\ behaves yielded p new_context ms (inr Cancelled) c).

Lemma new_logged req ws ss : logged (mkWorld new_context [] [] req ws ss false false) [].
Proof. exists [], [], []. split; [by split|]. split; [done|]. split; apply frames_nil. Qed.

(** ** The writers keep the promise *)

Section Writers.
Context (path : pystr) (h : option handler) (one : bytes + failure).
Let conv := conversation path h one.
Let gone := cancelled h one.

Lemma report_replied e w ms :
  logged w ms -> buf w = [] -> (e = Cancelled -> gone) -> (forall s d, status_of e = Some (s, d) -> conv ms s d (_trailing (ctx w))) ->
  refused (report content_type e w).2 = false -> replied conv gone (report content_type e w).
Proof.
  intros Hl Hb Hg Hc. unfold report. destruct (status_of e) as [[s d]|] eqn:E.
  - eapply finish_replied; [done|done|by apply Hc].
  - intros _. unfold replied. cbn [fst]. apply Hg. by destruct e.
Qed.

(** A handler that cannot yield leaves the buffer empty. *)
Lemma flush_no_buffer w : buf w = [] -> _flush content_type response_encoding w = (None, w).
Proof. intros E. unfold _flush. by rewrite bool_decide_true. Qed.

Lemma run_no_buffer (p : proc Empty_set) : forall w, buf w = [] ->
  buf (run content_type response_encoding request_encoding limit no_yield p w).2 = [].
Proof.
  assert (Hs : forall w, buf w = [] -> buf (suspend content_type response_encoding limit w).2 = []).
  { intros w E. unfold suspend, idle_flush. rewrite flush_no_buffer by done. destruct (wakes w) as [|k ks]; [done|].
    destruct (flushes k); [|done]. by destruct (idle_dead w). }
  induction p as [v0|e0|[] k IH|s k IH|d k IH|md k IH|md k IH|k IH|k IH]; intros w Hw; cbn [run]; try done; try by apply IH.
  - destruct (_started _); [by apply IH|]. destruct (_start_response _ _ _) as [x w1] eqn:E.
    destruct (start_alike _ _ _ E) as (_ & Hb & _). destruct x; apply IH; by rewrite Hb.
  - destruct (next_message _ _) as [x rq]. destruct (_ <? _)%nat; [|by apply IH].
    specialize (Hs (set_request rq w) Hw). destruct (suspend _ _ _ _) as [[e|] w1]; [done|by apply IH].
  - specialize (Hs w Hw). destruct (suspend _ _ _ _) as [[e|] w1]; [done|by apply IH].
Qed.

Lemma run_unary p req ws ss v w' :
  run content_type response_encoding request_encoding limit no_yield p (mkWorld new_context [] [] req ws ss false false) = (v, w') ->
  refused w' = false -> behaves no_value p new_context [] v (view (ctx w')) /\ logged w' [] /\ buf w' = [].
Proof.
  intros Hr Hw'. pose proof (run_no_buffer p (mkWorld new_context [] [] req ws ss false false) eq_refl) as Hb. rewrite Hr in Hb.
  eapply (run_logged no_yield no_value) in Hr as (more & kept & Hbe & Hl & Hk & _);
    [|by intros []|by intros []|apply new_logged|done].
  assert (more = []) as ->.
  { clear -Hbe. cbn [ctx] in Hbe. remember (view new_context) as c0. clear Heqc0. by induction Hbe as [| |[]|[]|[]| | | | | | | | |]. }
  cbn [app] in Hk. apply prefix_nil_inv in Hk as ->. done.
Qed.

(** The response of a unary call, in three objects or in one. *)
Lemma response_replied b body ts w x :
  logged w [] -> _frame_response b (bool_decide (is_Some response_encoding)) = Ok body ->
  _status_trailers (code (ctx w)) (details (ctx w)) (_trailing (ctx w)) = Ok ts ->
  conv [b] (code (ctx w)) (details (ctx w)) (_trailing (ctx w)) ->
  x = finish (if _started (ctx w) then next (send (data_response body) w) (send (trailers_response ts))
              else send (with_trailers 200 (_response_headers content_type response_encoding (_initial_metadata (ctx w))) (Some body) ts)
                     (upd mark_started w)) ->
  refused x.2 = false -> replied conv gone x.
Proof.
  intros (ds & done & pend & [Hs Hns] & Hnil & Hd & _) Ef Et Hc ->. symmetry in Hnil. apply app_nil in Hnil as [-> ->].
  assert (Hfr : frames [b] body).
  { exists [body]. split; [|by cbn; rewrite app_nil_r]. constructor; [|done]. unfold framed. by rewrite Ef. }
  destruct (_started (ctx w)) eqn:Est.
  - destruct (send (data_response body) w) as [[e|] w1] eqn:E1; cbn [next].
    { destruct (send_trusty (data_response body) w) as [_ H1]. rewrite E1 in H1. cbn [finish snd fst] in *. intros Hf. by rewrite H1 in Hf. }
    destruct (send_trusty (trailers_response ts) w1) as [_ H2].
    destruct (send (trailers_response ts) w1) as [[e|] w2] eqn:E2; cbn [finish snd fst] in *; [intros Hf; by rewrite H2 in Hf|]. intros _.
    exists [b], (code (ctx w)), (details (ctx w)), (_trailing (ctx w)), ts, response_encoding, (_initial_metadata (ctx w)), (ds ++ [body]).
    repeat split; [done|done| |by left|].
    + rewrite join_app. cbn. rewrite app_nil_r. by apply (frames_app [] [b]).
    + unfold grpc_response. cbn [snd]. rewrite (send_sent _ _ _ E2), (send_sent _ _ _ E1), Hs, !fmap_app, !join_app, asgi_data.
      cbn. by rewrite <- !app_assoc.
  - match goal with |- context [send ?r ?u] => destruct (send_trusty r u) as [_ H1]; destruct (send r u) as [[e|] w1] eqn:E1 end;
      cbn [finish snd fst] in *; [intros Hf; by rewrite H1 in Hf|]. intros _.
    exists [b], (code (ctx w)), (details (ctx w)), (_trailing (ctx w)), ts, response_encoding, (_initial_metadata (ctx w)), [body].
    repeat split; [done|done| |by left|]; [cbn; by rewrite app_nil_r|].
    unfold grpc_response. cbn [snd]. rewrite (send_sent _ _ _ E1). cbn [upd with_ctx sent]. rewrite Hs, (Hns eq_refl). done.
Qed.

Lemma finish_trusty x w : trusty w x.2 -> trusty w (finish x).2.
Proof. by destruct x as [[e|] w1]. Qed.

Lemma send_trailers_trusty s d extra w x : trusty w x.2 -> trusty w (send_trailers s d extra x).2.
Proof.
  intros H. destruct x as [[e|] w1]; [exact H|]. unfold send_trailers. destruct (_status_trailers _ _ _); [|exact H].
  eapply trusty_trans; [exact H|]. apply finish_trusty, send_trusty.
Qed.

Lemma error_trusty s d w : trusty w (_finish_stream_error content_type s d w).2.
Proof.
  unfold _finish_stream_error, _send_trailers_only. destruct (_started (ctx w)); apply send_trailers_trusty; [apply trusty_refl|apply send_trusty].
Qed.

Lemma report_trusty e w : trusty w (report content_type e w).2.
Proof. unfold report. destruct (status_of e) as [[s d]|]; [apply error_trusty|apply trusty_refl]. Qed.

Lemma unary_replied p req ws ss : unary_call h one = Some p ->
  let x := _serve_unary content_type response_encoding request_encoding limit p (mkWorld new_context [] [] req ws ss false false) in
  refused x.2 = false -> replied conv gone x.
Proof.
  intros Hp. cbv zeta. unfold _serve_unary. destruct (run _ _ _ _ no_yield p _) as [v w] eqn:Er.
  pose proof (run_unary _ _ _ _ _ _ Er) as Hrun.
  destruct (match v with inl v => _validate_response_message v | inr e => inr e end) as [b|e] eqn:Ev.
  2:{ intros Hf. destruct Hrun as (Hb & Hl & Hn); [exact (report_trusty e w Hf)|]. apply (report_replied e w []); [done|done| | |done].
      - intros ->. left. exists p, (view (ctx w)). split; [done|]. destruct v as [v|e]; [|by injection Ev as ->].
        unfold _validate_response_message in Ev. destruct v as [b|n]; [|done]. by destruct (_ >? _).
      - intros s d Hs. by eapply (c_unary_failed _ _ _ p v e s d (view (ctx w))). }
  destruct v as [v|e]; [|done]. unfold _validate_response_message in Ev. destruct v as [b'|n]; [|done].
  destruct (Z.gtb_spec (zlen b') MAX_MESSAGE_SIZE) as [|Hle]; [done|]. injection Ev as ->.
  assert (Hc : refused w = false -> logged w [] /\ conv [b] (code (ctx w)) (details (ctx w)) (_trailing (ctx w))).
  { intros Hf. destruct (Hrun Hf) as (Hb & Hl & _). split; [done|]. by apply (c_unary _ _ _ p b (view (ctx w))). }
  destruct (_frame_response b _) as [body|e] eqn:Ef.
  2:{ intros Hf. destruct (Hc Hf) as [_ Hconv]. exists [b], (code (ctx w)), (details (ctx w)), (_trailing (ctx w)).
      split; [done|]. right. by apply Exists_cons_hd. }
  destruct (_status_trailers _ _ _) as [ts|e] eqn:Et.
  2:{ intros Hf. destruct (Hc Hf) as [_ Hconv]. exists [b], (code (ctx w)), (details (ctx w)), (_trailing (ctx w)). split; [done|by left]. }
  match goal with |- refused ?x.2 = false -> _ =>
    assert (Hx : x = finish (if _started (ctx w) then next (send (data_response body) w) (send (trailers_response ts))
      else send (with_trailers 200 (_response_headers content_type response_encoding (_initial_metadata (ctx w))) (Some body) ts)
             (upd mark_started w))) by by destruct (_started (ctx w)) end.
  intros Hf. rewrite Hx in Hf |- *. destruct Hc as [Hl Hconv].
  { revert Hf. apply finish_trusty. destruct (_started (ctx w)).
    - apply next_trusty; [apply send_trusty|intros; apply send_trusty].
    - exact (proj1 (send_trusty _ (upd mark_started w))). }
  by eapply response_replied.
Qed.

Lemma stop_logged w ms : logged w ms -> let w' := _stop_idle_flusher content_type response_encoding w in
  trusty w w' /\ (refused w' = false -> logged w' ms /\ view (ctx w') = view (ctx w)).
Proof.
  intros Hl. cbv zeta. unfold _stop_idle_flusher. set (w1 := match wakes w with k :: _ => _ | [] => _ end).
  assert (H : trusty w w1 /\ (refused w1 = false -> logged w1 ms /\ view (ctx w1) = view (ctx w))).
  { unfold w1. destruct (wakes w) as [|k ks]; [|destruct (flushes k); [|by split; [apply trusty_refl|]]];
      (split; [apply idle_trusty|by apply idle_logged]). }
  destruct H as [H1 H2]. split; [exact H1|]. intros Hf. destruct (H2 Hf). split; [by apply wake_logged|done].
Qed.

(** The end of a stream: what is held back, the head if it is still due. *)
Lemma ending_logged w ms x :
  logged w ms -> x = next (_flush content_type response_encoding w) (_start_response content_type response_encoding) -> refused x.2 = false ->
  x.1 = None /\ logged x.2 ms /\ view (ctx x.2) = view (ctx w) /\ buf x.2 = [] /\ _started (ctx x.2) = true.
Proof.
  intros Hl -> Hf. destruct (flush_trusty w) as [_ H1].
  destruct (_flush _ _ w) as [[e|] w1] eqn:E1; cbn [next fst snd] in *; [by rewrite H1 in Hf|].
  destruct (flush_logged w ms w1 Hl E1) as (Hl1 & Hv & Hn & _). destruct (start_trusty w1) as [_ H2].
  destruct (_start_response _ _ w1) as [[e|] w2] eqn:E2; cbn [fst snd] in *; [by rewrite H2 in Hf|].
  destruct Hl1 as (ds & done & pend & Hs & Hm & Hd & Hp). destruct (start_shaped _ _ _ Hs E2) as [Hs2 Hst].
  destruct (start_alike _ _ _ E2) as (Hv2 & Hb2 & _).
  split_and!; [done| |congruence|congruence|done]. exists ds, done, pend. by rewrite Hb2.
Qed.

Lemma stream_replied p req ws ss : stream_call h one = Some p ->
  let x := _serve_server_streaming content_type response_encoding request_encoding limit p (mkWorld new_context [] [] req ws ss false false) in
  refused x.2 = false -> replied conv gone x.
Proof.
  intros Hp. cbv zeta. unfold _serve_server_streaming. destruct (run _ _ _ _ _ p _) as [v w] eqn:Er.
  assert (Hrun : refused w = false -> course yielded p (mkWorld new_context [] [] req ws ss false false) [] v w).
  { intros Hf. eapply (run_logged _ yielded); [intros; by eapply emit_logged|intros; apply emit_trusty|apply new_logged|exact Er|done]. }
  destruct v as [v|e].
  - set (x := next _ _). intros Hf.
    assert (Hx : refused x.2 = false) by (revert Hf; by apply send_trailers_trusty, trusty_refl).
    assert (Hw : refused (_stop_idle_flusher content_type response_encoding w) = false).
    { revert Hx. apply next_trusty; [apply flush_trusty|intros; apply start_trusty]. }
    assert (Hw0 : refused w = false).
    { revert Hw. unfold _stop_idle_flusher. destruct (wakes w) as [|k ks]; [|destruct (flushes k)]; try exact (idle_trusty w).
      exact (trusty_refl w). }
    destruct (Hrun Hw0) as (ms & kept & Hb & Hl & Hk & [[]| ->]). cbn [app ctx] in *.
    destruct (stop_logged w ms Hl) as [_ Hstop]. destruct (Hstop Hw) as [Hl1 Hv1].
    destruct (ending_logged _ ms x Hl1 eq_refl Hx) as (Hn & Hl2 & Hv2 & Hbuf & Hst).
    destruct x as [[e|] w2]; [done|]. cbn [fst snd] in *. apply (status_replied conv gone _ _ _ _ ms); [done..| |done].
    assert (Hc : conv ms (code (view (ctx w2))) (details (view (ctx w2))) (_trailing (view (ctx w2)))).
    { rewrite Hv2, Hv1. by eapply c_stream. }
    exact Hc.
  - destruct (status_of e) as [[s d]|] eqn:Esd.
    2:{ intros Hf. assert (Hw0 : refused w = false).
        { revert Hf. cbn [snd]. unfold _stop_idle_flusher. destruct (wakes w) as [|k ks]; [|destruct (flushes k)]; try exact (idle_trusty w).
          exact (trusty_refl w). }
        destruct (Hrun Hw0) as (ms & kept & Hb & _). right. exists p, ms, (view (ctx w)). split; [done|]. by destruct e. }
    destruct (flush_trusty w) as [Ht H1].
    destruct (_flush _ _ w) as [[e'|] w1] eqn:E1; cbn [fst snd finish] in *; intros Hf; [by rewrite H1 in Hf|].
    assert (Hw1 : refused w1 = false) by exact (error_trusty s d w1 Hf).
    destruct (Hrun (Ht Hw1)) as (ms & kept & Hb & Hl & Hk & Hor). cbn [app ctx] in *.
    destruct (flush_logged w kept w1 Hl E1) as (Hl2 & Hv & Hn & _).
    apply (finish_replied conv gone s d w1 kept); [done|done| |done].
    assert (E : _trailing (ctx w1) = _trailing (view (ctx w))) by (by rewrite <- Hv).
    rewrite E. eapply (c_stream_failed _ _ _ p ms kept e); try done. destruct Hor as [[->|Hi]|Hi]; [done|by right|by left].
Qed.

End Writers.
End Promise.

Lemma decompress_fails m enc e : _decompress_message m enc = inr e -> exists s d, e = GrpcError s d.
Proof.
  unfold _decompress_message. destruct (bool_decide _); [destruct (decompress_gzip _ _)|]; intros [= <-]; eauto.
Qed.

Lemma read_unary_fails es enc e : _read_unary_request es enc = inr e -> exists s d, e = GrpcError s d.
Proof.
  unfold _read_unary_request, larger. destruct (Request.read_events _ _ _ _).1 as [body|p|]; [|intros [= <-]; eauto..].
  destruct (decode_messages body) as [[|[cm rq] [|]]|]; try (intros [= <-]; eauto).
  assert (H : forall x : bytes + failure, (forall e, x = inr e -> exists s d, e = GrpcError s d) ->
    match x with
    | inl request => if zlen request >? MAX_MESSAGE_SIZE then inr (larger (lit "request") (zlen request) MAX_MESSAGE_SIZE) else inl request
    | inr e => inr e
    end = inr e -> exists s d, e = GrpcError s d).
  { intros [b|e'] Hx; [destruct (_ >? _); [intros [= <-]; unfold larger; eauto|done]|intros [= <-]; by apply Hx]. }
  apply H. destruct cm; [intros e'; apply decompress_fails|done].
Qed.

(** What a call that ended so, having sent this, has delivered. *)
Definition delivered (enc : option bytes) (limit : option Z) (c : Connection) (h : option handler) (req : bytes + failure)
    (ended : ended) (out : list NativeResponse) : Prop :=
  match ended with
  | Returned => exists ms s d extra ts enc' md ds,
      conversation enc limit (path c) h req ms s d extra /\ _status_trailers s d extra = Ok ts /\ frames enc ms (mjoin ds) /\
      (enc' = enc \/ (enc' = None /\ ds = [])) /\
      grpc_response out (_response_headers (_resolve_content_type (metadata "content-type" c)) enc' md) ds ts
  | CancelledError => cancelled enc limit h req
  | Raised e => exists ms s d extra, conversation enc limit (path c) h req ms s d extra /\
      (_status_trailers s d extra = Raise e \/ Exists (fun m => _frame_response m (bool_decide (is_Some enc)) = Raise e) ms)
  end.

(** C22: every call whose sends the transport takes is answered by one gRPC
    response that says how it went.  For every registry, request, course of the
    handler and schedule of its waits, of the idle flusher and of the deadline, if
    no send raises (the peer that opens no window in time makes one raise
    FlowControlStalled): what is sent is a head announcing trailers, data, and last
    the status, however messages are batched.  The data is the frames of the
    messages the handler yielded (or the one it returned), in order, each once, and
    the status with its text and the trailing metadata is that of how the call
    ended: the context's when the handler ends, the error's when it fails, and
    INTERNAL, DEADLINE_EXCEEDED, UNIMPLEMENTED or the refusal of the request
    otherwise.  Where no send raises, only a deadline can lose messages, and then
    the last ones; an exception leaves the call only if its task was cancelled, or a
    text or a length cannot be encoded. *)
Theorem grpc_answers r c es started ws ss :
  let req := _read_unary_request es (lower (strip WHITESPACE (metadata "grpc-encoding" c))) in
  let enc := if _accepts_gzip (metadata "grpc-accept-encoding" c) then Some (lit "gzip") else None in
  let limit := (fun d => started + d) <$> _parse_grpc_timeout (metadata "grpc-timeout" c) in
  let h := lookup_method r (path c) in
  let '(ended, out, refused) := serve_grpc r c es started ws ss in
  refused = false -> delivered enc limit c h req ended out.
Proof.
  intros req enc limit h. unfold serve_grpc. fold req enc limit h. set (ct := _resolve_content_type _). set (renc := lower _).
  assert (Hd : forall y : ended * world, (refused y.2 = false -> replied ct enc (conversation enc limit (path c) h req) (cancelled enc limit h req) y) ->
    refused y.2 = false -> delivered enc limit c h req y.1 (sent y.2)) by (intros [[] w]; exact (fun H => H)).
  assert (Hone : forall e w, takes_one h = true -> req = inr e -> logged ct enc w [] -> _started (ctx w) = false -> _trailing (ctx w) = [] -> buf w = [] ->
    let y := match status_of e with Some (s, d) => _send_trailers_only ct s d [] w | None => (CancelledError, w) end in
    refused y.2 = false -> replied ct enc (conversation enc limit (path c) h req) (cancelled enc limit h req) y).
  { intros e w Ht He Hl Hst Htr Hb. unfold req in He. destruct (status_of e) as [[s d]|] eqn:Es.
    - pose proof (finish_replied ct enc (conversation enc limit (path c) h req) (cancelled enc limit h req) s d w [] Hl Hb) as H.
      unfold _finish_stream_error in H. rewrite Hst, Htr in H. apply H. by eapply c_refused.
    - destruct (read_unary_fails _ _ _ He) as (s & d & ->). done. }
  destruct h as [[f|f|p|p]|] eqn:Eh.
  - destruct req as [m|e] eqn:Er; apply Hd; [by apply unary_replied|apply Hone; try done; apply new_logged].
  - destruct req as [m|e] eqn:Er; apply Hd; [by apply stream_replied|apply Hone; try done; apply new_logged].
  - apply Hd. by apply unary_replied.
  - apply Hd. by apply stream_replied.
  - apply Hd. pose proof (finish_replied ct enc (conversation enc limit (path c) None req) (cancelled enc limit None req)
      UNIMPLEMENTED (lit "Method not found: " ++ path c) (mkWorld new_context [] [] (requests_of es) ws ss false false) []
      (new_logged _ _ _ _ _) eq_refl) as H.
    unfold _finish_stream_error in H. cbn [ctx new_context _started _trailing] in H. apply H. by apply c_missing.
Qed.

(** ** Requests are read as they were framed *)

(** The events left deliver [data] and end the body. *)
Inductive feeds : bool -> list event -> bytes -> Prop :=
| feeds_end es : feeds false es []
| feeds_chunk c more es data : feeds more es data -> feeds true (http_request c more :: es) (c ++ data).

(** A frame of a message, plain or compressed. *)
Definition carries (encoding m f : bytes) : Prop :=
  exists flag payload, f = wire (flag, payload) /\ frame_ok (flag, payload) /\ zlen m <= MAX_MESSAGE_SIZE /\
    ((flag = 0 /\ payload = m) \/ (flag = 1 /\ _decompress_message payload encoding = inl m)).

Lemma head_wire flag payload rest : frame_ok (flag, payload) ->
  default 0 (head (wire (flag, payload) ++ rest)) = flag /\
  from_bytes (slice (wire (flag, payload) ++ rest) 1 5) = zlen payload.
Proof.
  intros (_ & _ & Hl). cbn [snd] in Hl. split; [done|].
  replace (slice _ 1 5) with (be_bytes 4 (zlen payload)).
  { rewrite from_be_small; [done|]. pose proof (zlen_nonneg payload). unfold MAX_MESSAGE_LENGTH in Hl. simpl. lia. }
  symmetry. unfold wire. cbn [fst snd]. change ((flag :: _) ++ rest) with ([flag] ++ (be_bytes 4 (zlen payload) ++ payload) ++ rest).
  rewrite <- app_assoc. apply slice_mid; autorewrite with zlen; lia.
Qed.

Lemma head_full encoding m f rest : carries encoding m f -> head_message encoding (f ++ rest) = Some (inl (m, rest)).
Proof.
  intros (flag & payload & -> & Hok & Hm & Hc). destruct (head_wire flag payload rest Hok) as [Hf Hl].
  pose proof (zlen_nonneg payload). pose proof (zlen_nonneg rest). destruct Hok as (_ & _ & Hmax). cbn [snd] in Hmax.
  unfold head_message. rewrite Hf, Hl, zlen_app, zlen_wire. cbn [snd]. unfold _PREFIX_LEN. settle_cmp.
  assert (Hs : slice (wire (flag, payload) ++ rest) 5 (5 + zlen payload) = payload).
  { unfold wire. cbn [fst snd]. replace ((flag :: be_bytes 4 (zlen payload) ++ payload) ++ rest)
      with ((flag :: be_bytes 4 (zlen payload)) ++ payload ++ rest) by (cbn [app]; by rewrite <- app_assoc).
    apply slice_mid; autorewrite with zlen; lia. }
  assert (Hr : slice_from (wire (flag, payload) ++ rest) (5 + zlen payload) = rest).
  { unfold slice_from. apply drop_app_length'. pose proof (zlen_wire (flag, payload)) as Hz. unfold zlen in Hz. cbn [snd] in *. unfold zlen. lia. }
  rewrite Hs, Hr. destruct Hc as [[-> ->]|[-> Hd]].
  - change (0 =? 0) with true. cbn iota. by rewrite (proj2 (Z.ltb_ge _ _)) by lia.
  - change (1 =? 0) with false. cbn iota. rewrite (proj2 (Z.ltb_ge _ _)) by lia. by rewrite Hd.
Qed.

(** The start of a frame is no message yet. *)
Lemma head_part encoding m f rest b x :
  carries encoding m f -> b ++ x = f ++ rest -> zlen b < zlen f -> head_message encoding b = None.
Proof.
  intros (flag & payload & -> & Hok & Hm & Hc) E Hlt. rewrite zlen_wire in Hlt. cbn [snd] in Hlt.
  unfold head_message, _PREFIX_LEN. destruct (Z.ltb_spec (zlen b) 5) as [|H5]; [done|].
  assert (Hb : exists y, b = flag :: be_bytes 4 (zlen payload) ++ y).
  { unfold wire in E. cbn [fst snd] in E. exists (drop 5 b).
    assert (H4 : length (be_bytes 4 (zlen payload)) = 4%nat) by (by rewrite length_be_bytes).
    rewrite <- (take_drop 5 b) at 1. change (flag :: be_bytes 4 (zlen payload) ++ drop 5 b) with ((flag :: be_bytes 4 (zlen payload)) ++ drop 5 b).
    f_equal. transitivity (take 5 (b ++ x)); [rewrite take_app_le; [done|unfold zlen in H5; lia]|].
    rewrite E. cbn [app take]. rewrite <- !app_assoc, take_app_le by lia. rewrite take_ge by lia. done. }
  destruct Hb as [y ->]. destruct (head_wire flag payload [] Hok) as [_ Hl]. pose proof (zlen_nonneg payload).
  destruct Hok as (_ & _ & Hmax). cbn [snd] in Hmax.
  assert (Hs : slice (flag :: be_bytes 4 (zlen payload) ++ y) 1 5 = be_bytes 4 (zlen payload)).
  { change (flag :: be_bytes 4 (zlen payload) ++ y) with ([flag] ++ be_bytes 4 (zlen payload) ++ y). apply slice_mid; autorewrite with zlen; lia. }
  rewrite Hs, from_be_small by (unfold MAX_MESSAGE_LENGTH in Hmax; simpl; lia). cbn [head default from_option id].
  rewrite (proj2 (Z.ltb_lt _ (zlen payload))) by lia.
  destruct (flag =? 0) eqn:E0; rewrite (Z.gtb_ltb (zlen payload)); [|by rewrite (proj2 (Z.ltb_ge _ _)) by lia].
  destruct Hc as [[-> ->]|[-> _]]; [|done]. by rewrite (proj2 (Z.ltb_ge _ _)) by lia.
Qed.

Lemma pull_message encoding m f more es data : carries encoding m f -> feeds more es data -> forall b rest,
  b ++ data = f ++ rest ->
  exists b' more' es' data', pull encoding b more es = (Message m, mkRequests b' more' es' false) /\
    feeds more' es' data' /\ b' ++ data' = rest.
Proof.
  intros Hc Hf. assert (Hnow : forall b y, b = f ++ y -> head_message encoding b = Some (inl (m, y))) by (intros b y ->; by apply head_full).
  assert (Hbig : forall b d rest, zlen f <= zlen b -> b ++ d = f ++ rest -> exists y, b = f ++ y /\ y ++ d = rest).
  { intros b d rest Hle E. exists (drop (length f) b). unfold zlen in Hle.
    assert (Hb : b = f ++ drop (length f) b).
    { rewrite <- (take_drop (length f) b) at 1. f_equal. transitivity (take (length f) (b ++ d)); [by rewrite take_app_le by lia|].
      by rewrite E, take_app_length. }
    split; [done|]. rewrite Hb, <- app_assoc in E. by apply app_inv_head in E. }
  induction Hf as [es|c more es data Hf IH]; intros b rest E.
  - destruct (Hbig b [] rest) as (y & Hy & Hr); [rewrite app_nil_r in E; rewrite E, zlen_app; pose proof (zlen_nonneg rest); lia|done|].
    exists y, false, es, []. split; [|by split; [constructor|]]. destruct es; cbn [pull]; by rewrite (Hnow _ _ Hy).
  - destruct (Z.le_gt_cases (zlen f) (zlen b)) as [Hle|Hgt].
    + destruct (Hbig b _ rest Hle E) as (y & Hy & Hr). exists y, true, (http_request c more :: es), (c ++ data).
      split; [cbn [pull]; by rewrite (Hnow _ _ Hy)|]. by split; [constructor|].
    + cbn [pull]. rewrite (head_part encoding m f rest b (c ++ data)) by done. apply IH. by rewrite <- app_assoc.
Qed.

Lemma pull_end encoding more es data : feeds more es data -> forall b, b ++ data = [] -> pull encoding b more es = closed Exhausted.
Proof.
  induction 1 as [es|c more es data Hf IH]; intros b E; [rewrite app_nil_r in E; subst; by destruct es|].
  apply app_nil in E as [-> E]. cbn [pull]. change (head_message encoding []) with (@None (bytes * bytes + failure)). cbn iota.
  by apply IH.
Qed.

(** What an [async for] over the iterator sees. *)
Fixpoint pulls (encoding : bytes) (fuel : nat) (r : requests) : list reply :=
  match fuel with
  | O => []
  | S fuel => let '(x, r) := next_message encoding r in x :: match x with Message _ => pulls encoding fuel r | _ => [] end
  end.

Lemma pulls_all encoding ms fs : Forall2 (carries encoding) ms fs -> forall b more es data,
  feeds more es data -> b ++ data = mjoin fs ->
  pulls encoding (S (length ms)) (mkRequests b more es false) = (Message <$> ms) ++ [Exhausted].
Proof.
  induction 1 as [|m f ms fs Hc _ IH]; intros b more es data Hf E.
  - cbn [pulls length next_message finished r_buf r_more r_events]. by rewrite (pull_end encoding more es data Hf b E).
  - destruct (pull_message encoding m f more es data Hc Hf b (mjoin fs) E) as (b' & more' & es' & data' & Hp & Hf' & E').
    cbn [pulls length next_message finished r_buf r_more r_events]. rewrite Hp. cbn [fmap list_fmap app]. f_equal. by eapply IH.
Qed.

Lemma read_feeds more es data : feeds more es data -> more = true -> forall fuel chunks, (length es <= fuel)%nat ->
  (Request.read_events receive fuel chunks es).1 = Request.Whole (mjoin chunks ++ data).
Proof.
  induction 1 as [|c more es data Hf IH]; [done|]. intros _ fuel chunks Hle. destruct fuel as [|fuel]; [cbn in Hle; lia|].
  cbn [Request.read_events receive].
  assert (Hj : mjoin (if bool_decide (c = []) then chunks else chunks ++ [c]) = mjoin chunks ++ c).
  { destruct (bool_decide_reflect (c = [])) as [->|]; [by rewrite app_nil_r|]. rewrite join_app. cbn. by rewrite app_nil_r. }
  destruct more.
  - rewrite IH by (done || (cbn in Hle; lia)). by rewrite Hj, <- app_assoc.
  - inv Hf. cbn [fst]. by rewrite Hj, app_nil_r.
Qed.

(** C23: requests reach the handler as they were framed.  However the octets of a
    sequence of frames, plain or compressed, are cut into events, a handler that
    reads a stream gets the messages in order and then the end, and one that takes a
    single message gets it when there is exactly one; a frame may be of either kind
    as its flag says. *)
Theorem requests_received encoding ms fs es :
  Forall2 (carries encoding) ms fs -> feeds true es (mjoin fs) ->
  pulls encoding (S (length ms)) (requests_of es) = (Message <$> ms) ++ [Exhausted] /\
  forall m, ms = [m] -> _read_unary_request es encoding = inl m.
Proof.
  intros Hc Hf. split; [by eapply pulls_all|]. intros m ->. inv Hc as [|? f ? fs' Hm Hn]. inv Hn.
  destruct Hm as (flag & payload & -> & Hok & Hle & Hd). unfold _read_unary_request.
  rewrite (read_feeds true es _ Hf) by (done || lia). cbn [mjoin list_join app]. rewrite app_nil_r.
  assert (Hdec : decode_messages (wire (flag, payload)) = Ok [message_of (flag, payload)]).
  { rewrite <- (app_nil_r (wire _)). apply (decode_wires [(flag, payload)]). by constructor. }
  rewrite Hdec. unfold message_of. cbn [fst snd].
  destruct Hd as [[-> ->]|[-> Hd]]; cbn [Z.eqb negb]; [|rewrite Hd]; by rewrite Z.gtb_ltb, (proj2 (Z.ltb_ge _ _)) by lia.
Qed.

End Grpc.
(** ** Sample calls *)

Module Sample.

(** A codec for runs of one octet. *)
Definition pack (b : bytes) : bytes := match b with x :: _ => [zlen b; x] | [] => [] end.
Definition unpack (b : bytes) (max : Z) : pystr + bytes * bytes * (pystr + bytes) :=
  match b with
  | [n; x] => let out := repeat x (Z.to_nat n) in inr (take (Z.to_nat max) out, drop (Z.to_nat max) out, inr [])
  | _ => inl (lit "incorrect header check")
  end.

Definition request (more : list (string * string)) : Connection :=
  mkConn (lit "http") (lit "POST") (lit "https") (lit "/pkg.S/M") [] []
    (HttpHeaders.__init__ ((fun kv => (lit kv.1, lit kv.2)) <$> ((("content-type", "application/grpc+proto")%string) :: more))) None [].
Definition whole (l : list bytes) : list event := ((fun c => http_request c true) <$> l) ++ [http_request [] false].

(** Messages of at most ten octets, batches of fourteen, runs of four compressed. *)
Definition call_over (ss : list bool) (h : handler) (more : list (string * string)) (es : list event) (started : Z) (ws : list wake)
    : ended * list NativeResponse :=
  (serve_grpc unpack pack (lit "overflow") (lit "stalled") 10 14 3 [(lit "/pkg.S/M", h)] (request more) es started ws ss).1.
Definition call := call_over [].
Definition brief (x : ended * list NativeResponse) : ended * list send_event := (x.1, tail (mjoin (to_asgi <$> x.2))).
Definition status (s : GrpcStatus) (text : string) : send_event :=
  ResponseTrailers ((lit "grpc-status", str_int (code_of s)) ::
                    match lit text with [] => [] | t => [(lit "grpc-message", t)] end).

Definition hello : bytes := [0; 0; 0; 0; 2; 104; 105].
Definition echo : handler := Unary (fun m => Return _ (Bytes m)).

Lemma echoes : brief (call echo [] (whole [[0; 0; 0]; [0; 2; 104; 105]]) 0 []) = (Returned, [ResponseBody hello true; status OK ""]).
Proof. vm_compute. reflexivity. Qed.

Lemma requests_received_witness :
  let fs := [hello; [1; 0; 0; 0; 2; 6; 120]] in
  let es := [http_request (take 3 hello) true; http_request (drop 3 hello ++ [1; 0; 0]) true; http_request [0; 2; 6; 120] false] in
  pulls unpack 10 (lit "gzip") 3 (requests_of es) = (Message <$> [[104; 105]; [120; 120; 120; 120; 120; 120]]) ++ [Exhausted] /\
  forall m, [[104; 105]; [120; 120; 120; 120; 120; 120]] = [m] -> _read_unary_request unpack 10 es (lit "gzip") = inl m.
Proof.
  intros fs es. apply (requests_received unpack pack 10 (lit "gzip") [[104; 105]; [120; 120; 120; 120; 120; 120]] fs es).
  - assert (H : forall flag payload m, wire (flag, payload) = wire (flag, payload) /\ frame_ok (flag, payload) /\ zlen m <= 10 /\
      ((flag = 0 /\ payload = m) \/ (flag = 1 /\ _decompress_message unpack 10 payload (lit "gzip") = inl m)) ->
      carries unpack 10 (lit "gzip") m (wire (flag, payload))) by (intros flag payload m H; by exists flag, payload).
    constructor; [|constructor; [|constructor]].
    + apply (H 0 [104; 105] [104; 105]). split; [done|]. split; [|split; [by vm_compute|by left]].
      repeat constructor; vm_compute; congruence.
    + apply (H 1 [6; 120] [120; 120; 120; 120; 120; 120]). split; [done|]. split; [|split; [by vm_compute|right; by vm_compute]].
      repeat constructor; vm_compute; congruence.
  - change (mjoin fs) with (take 3 hello ++ (drop 3 hello ++ [1; 0; 0]) ++ [0; 2; 6; 120] ++ []). repeat constructor.
Defined.

(** Three messages of one octet; two fill a batch less two. *)
Definition ticks : handler := ServerStreaming (fun _ => Yield _ (Bytes [1]) (Yield _ (Bytes [2]) (Pause _ (Yield _ (Bytes [3]) (Return _ (NotBytes []))))) ).
Definition tick (n : Z) : bytes := [0; 0; 0; 0; 1; n].

Lemma batched : brief (call ticks [] (whole [hello]) 0 []) = (Returned, [ResponseBody (tick 1 ++ tick 2 ++ tick 3) true; status OK ""]).
Proof. vm_compute. reflexivity. Qed.

Lemma flushed_while_idle : brief (call ticks [] (whole [hello]) 0 [mkWake true 0 false]) =
  (Returned, [ResponseBody (tick 1 ++ tick 2) true; ResponseBody (tick 3) true; status OK ""]).
Proof. vm_compute. reflexivity. Qed.

(** The deadline passes while the handler waits: what it had yielded is sent. *)
Lemma deadline_flushes : brief (call ticks [("grpc-timeout", "5n")]%string (whole [hello]) 0 [mkWake false 5 false]) =
  (Returned, [ResponseBody (tick 1 ++ tick 2) true; status DEADLINE_EXCEEDED "deadline exceeded"]).
Proof. vm_compute. reflexivity. Qed.

(** The deadline passes while a full batch waits for the window: the batch, all
    three messages, is lost although the status is sent after it. *)
Lemma batch_lost : brief (call ticks [("grpc-timeout", "5n")]%string (whole [hello]) 0 [mkWake false 0 false; mkWake false 5 false]) =
  (Returned, [status DEADLINE_EXCEEDED "deadline exceeded"]).
Proof. vm_compute. reflexivity. Qed.

(** The peer opens no window while the idle flusher, which is let finish at the
    end of the stream, writes the last batch: the exception is only logged, and
    the call is reported as OK without its messages. *)
Definition last_word : handler := ServerStreaming (fun _ => Pause _ (Yield _ (Bytes [3]) (Return _ (NotBytes [])))).
Lemma ok_without_messages : brief (call_over [false; true] last_word [] (whole [hello]) 0 []) = (Returned, [status OK ""]).
Proof. vm_compute. reflexivity. Qed.

(** The same in the flush of the drive loop is an INTERNAL error, and in a unary
    call leaves [serve_grpc]. *)
Lemma stall_reported :
  brief (call_over [false; true] ticks [] (whole [hello]) 0 [mkWake false 0 false; mkWake false 0 false]) = (Returned, [status INTERNAL "stalled"]) /\
  (call_over [true] echo [] (whole [hello]) 0 []).1 = Raised FlowControlStalled.
Proof. split; vm_compute; reflexivity. Qed.

(** A call bound at 0 whose request took until 100 to arrive: at 104 its deadline
    of 5 has long passed, [time_remaining] is 0, and the handler runs on. *)
Definition slow : handler := Unary (fun _ => Pause _ (Return _ (Bytes [1]))).
Lemma deadline_restarts :
  brief (call slow [("grpc-timeout", "5n")]%string (whole [hello]) 100 [mkWake false 104 false]) = (Returned, [ResponseBody (tick 1) true; status OK ""]) /\
  time_remaining (Some 5) 104 = Some 0.
Proof. split; vm_compute; reflexivity. Qed.

(** A [TimeoutError] of the handler's own, where no deadline was asked for. *)
Lemma own_timeout_is_deadline : brief (call (Unary (fun _ => Throw _ TimedOut)) [] (whole [hello]) 0 []) =
  (Returned, [status DEADLINE_EXCEEDED "deadline exceeded"]).
Proof. vm_compute. reflexivity. Qed.

(** A message over the limit of the codec: INTERNAL for a unary request,
    RESOURCE_EXHAUSTED for a stream of requests. *)
Definition huge : bytes := [0; 255; 0; 0; 0; 1].
Definition trailer_status (x : ended * list NativeResponse) : option bytes :=
  match last (mjoin (to_asgi <$> x.2)) with Some (ResponseTrailers ((_, v) :: _)) => Some v | _ => None end.
Definition drained : proc Empty_set := Next _ (fun x => match x with Failed e => Throw _ e | _ => Return _ (Bytes []) end).
Lemma oversized_twice :
  trailer_status (call echo [] (whole [huge]) 0 []) = Some (lit "13") /\
  trailer_status (call (ClientStreaming drained) [] (whole [huge]) 0 []) = Some (lit "8").
Proof. split; vm_compute; reflexivity. Qed.

(** A text with a lone surrogate leaves [serve_grpc] as an exception. *)
Lemma surrogate_raises : (call (Unary (fun _ => Throw _ (GrpcError INTERNAL [0xDC80]))) [] (whole [hello]) 0 []).1 = Raised UnicodeEncodeError.
Proof. vm_compute. reflexivity. Qed.

Lemma grpc_answers_witness :
  let c := request [] in
  let x := serve_grpc unpack pack (lit "overflow") (lit "stalled") 10 14 3 [(lit "/pkg.S/M", ticks)] c (whole [hello]) 0 [mkWake true 0 false] [] in
  x.2 = false /\ x.1.1 = Returned /\
  exists ms s d extra ts enc' md ds,
    conversation pack (lit "overflow") 10 3 None None (lit "/pkg.S/M") (Some ticks) (inl [104; 105]) ms s d extra /\
    _status_trailers s d extra = Ok ts /\ frames pack (lit "overflow") 3 None ms (mjoin ds) /\
    (enc' = None \/ (enc' = None /\ ds = [])) /\
    grpc_response x.1.2 (_response_headers (lit "application/grpc+proto") enc' md) ds ts.
Proof.
  assert (H0 : (serve_grpc unpack pack (lit "overflow") (lit "stalled") 10 14 3 [(lit "/pkg.S/M", ticks)] (request []) (whole [hello]) 0
    [mkWake true 0 false] []).2 = false) by (vm_compute; reflexivity).
  split; [exact H0|]. split; [vm_compute; reflexivity|].
  pose proof (grpc_answers unpack pack (lit "overflow") (lit "stalled") 10 14 3 [(lit "/pkg.S/M", ticks)] (request []) (whole [hello]) 0
    [mkWake true 0 false] []) as H.
  cbv zeta in H. destruct (serve_grpc _ _ _ _ _ _ _ _ _ _ _ _ _) as [[e out] rf] eqn:Es. cbn [fst snd] in *.
  assert (He : e = Returned) by (vm_compute in Es; by injection Es). subst e. exact (H H0).
Defined.

End Sample.

End GrpcServe.
