(* ===== verification/Deflate.v ===== *)
(** * permessage-deflate (blackbull/server/permessage_deflate.py)

    The negotiation of RFC 7692: reading the client's offers, the choice among
    them and the value of the answering header; and the compressor of outgoing
    messages around zlib's, which is a parameter.  The inflater of incoming
    messages is in [WsRecipient]. *)

From Stdlib Require Import ZArith Lia.
From stdpp Require Import base tactics numbers option strings sets list.
From S2P Require Import Prelude PyLib PyText PyBytes WsRecipient.

Module Deflate.

(** ** Negotiation *)

Record DeflateParams : Type := mkParams {
  server_no_context_takeover : bool;
  client_no_context_takeover : bool;
  server_max_window_bits : Z;
  client_max_window_bits : Z
}.

#[export] Instance DeflateParams_eq_dec : EqDecision DeflateParams.
Proof. solve_decision. Defined.

(** The value of a parameter: an integer, octets, or the sentinel [_EMPTY]. *)
Inductive pvalue : Type := VInt (n : Z) | VRaw (b : bytes) | _EMPTY.
Abbreviation offer := (bytes * dict bytes pvalue)%type.

Definition SNCT : bytes := lit "server_no_context_takeover".
Definition CNCT : bytes := lit "client_no_context_takeover".
Definition SMWB : bytes := lit "server_max_window_bits".
Definition CMWB : bytes := lit "client_max_window_bits".
Definition PMD : bytes := lit "permessage-deflate".

(** [[p.strip() for p in header.split(sep) if p.strip()]] *)
Definition pieces (sep : Z) (header : bytes) : list bytes :=
  filter (fun p => p <> []) (strip WHITESPACE <$> split_on sep header).

Definition _split_offers (header : bytes) : list bytes := pieces 44 header.

(** One [key=value] or flag of an offer. *)
Definition parse_param (raw : bytes) (params : dict bytes pvalue) : result (dict bytes pvalue) :=
  let '(key, eq, value) := partition_char 61 raw in
  if eq : bool then
    let key := lower (strip WHITESPACE key) in
    let value := strip [34] (strip WHITESPACE value) in
    if bool_decide (key ∈ [SMWB; CMWB]) then
      match int_of_bytes value with Ok n => Ok (dset params key (VInt n)) | Raise _ => Raise ValueError end
    else Ok (dset params key (VRaw value))
  else Ok (dset params (lower (strip WHITESPACE raw)) _EMPTY).

Fixpoint parse_params (raws : list bytes) (params : dict bytes pvalue) : result (dict bytes pvalue) :=
  match raws with
  | [] => Ok params
  | raw :: raws => let* params := parse_param raw params in parse_params raws params
  end.

Definition _parse_offer (o : bytes) : result offer :=
  match pieces 59 o with
  | [] => Raise ValueError
  | name :: raws => rmap (pair (lower name)) (parse_params raws [])
  end.

(** [sb is not None and sb is not _EMPTY and sb not in _VALID_WBITS_RANGE], negated. *)
Definition window_ok (v : option pvalue) : bool :=
  match v with
  | None | Some _EMPTY => true
  | Some (VInt n) => (8 <=? n) && (n <? 16)
  | Some (VRaw _) => false
  end.

(** [sb if isinstance(sb, int) else 15] *)
Definition window (v : option pvalue) : Z := match v with Some (VInt n) => n | _ => 15 end.

Definition has_param (k : bytes) (params : dict bytes pvalue) : bool := bool_decide (is_Some (dget params k)).

(** The body of the loop of [negotiate]: the offer accepted, or [continue]. *)
Definition consider (raw : bytes) : option DeflateParams :=
  match _parse_offer raw with
  | Raise _ => None
  | Ok (name, params) =>
      if negb (bool_decide (name = PMD)) then None
      else
        let sb := dget params SMWB in
        let cb := dget params CMWB in
        if negb (window_ok sb) then None
        else if negb (window_ok cb) then None
        else Some (mkParams (has_param SNCT params) (has_param CNCT params) (window sb) (window cb))
  end.

Definition _render (p : DeflateParams) : bytes :=
  join (lit "; ") ([PMD]
    ++ (if server_no_context_takeover p then [SNCT] else [])
    ++ (if client_no_context_takeover p then [CNCT] else [])
    ++ (if server_max_window_bits p =? 15 then [] else [SMWB ++ lit "=" ++ str_int (server_max_window_bits p)])
    ++ (if client_max_window_bits p =? 15 then [] else [CMWB ++ lit "=" ++ str_int (client_max_window_bits p)])).

Fixpoint negotiate_loop (raws : list bytes) : option (DeflateParams * bytes) :=
  match raws with
  | [] => None
  | raw :: raws => match consider raw with Some p => Some (p, _render p) | None => negotiate_loop raws end
  end.

Definition negotiate (offer_header : option bytes) : option (DeflateParams * bytes) :=
  match offer_header with
  | None | Some [] => None
  | Some h => negotiate_loop (_split_offers h)
  end.

(** ** The compressor *)

Section Compressor.
(** [zlib.compressobj(wbits)], which refuses some widths, and
    [compress(payload) + flush(Z_SYNC_FLUSH)]. *)
Context {C : Type} (compressobj : Z -> result C) (deflate : bytes -> C -> bytes * C).

Record OutboundCompressor : Type := mkCompressor {
  _wbits : Z;
  _reset_per_message : bool;
  _deflater : C
}.

Definition new_compressor (wbits : Z) (reset_per_message : bool) : result OutboundCompressor :=
  rmap (mkCompressor (- wbits) reset_per_message) (compressobj (- wbits)).

Definition set_deflater (c : C) (z : OutboundCompressor) : OutboundCompressor := mkCompressor (_wbits z) (_reset_per_message z) c.

Definition drop_tail (out : bytes) : bytes :=
  if endswith WsRecipient._DEFLATE_TAIL out then take (length out - 4) out else out.

Definition compress (payload : bytes) : smonad OutboundCompressor bytes := fun z =>
  let '(out, c) := deflate payload (_deflater z) in
  let z := set_deflater c z in
  if _reset_per_message z then
    match compressobj (_wbits z) with
    | Ok c => (Ok (drop_tail out), set_deflater c z)
    | Raise e => (Raise e, z)
    end
  else (Ok (drop_tail out), z).

Lemma drop_tail_app out : drop_tail (out ++ WsRecipient._DEFLATE_TAIL) = out.
Proof.
  unfold drop_tail, endswith. rewrite bool_decide_true by by eexists. rewrite length_app. cbn [length WsRecipient._DEFLATE_TAIL].
  by rewrite Nat.add_sub, take_app_length.
Qed.

End Compressor.

(** ** What is negotiated *)

Definition params_ok (p : DeflateParams) : Prop := 8 <= server_max_window_bits p < 16 /\ 8 <= client_max_window_bits p < 16.

Lemma window_range v : window_ok v = true -> 8 <= window v < 16.
Proof.
  destruct v as [[n|b|]|]; cbn; lia.
Qed.

Lemma consider_Some raw p :
  consider raw = Some p -> exists params, _parse_offer raw = Ok (PMD, params) /\ params_ok p /\
    p = mkParams (has_param SNCT params) (has_param CNCT params) (window (dget params SMWB)) (window (dget params CMWB)).
Proof.
  unfold consider. destruct (_parse_offer raw) as [[name params]|e]; [|done].
  case_bool_decide as Hn; [|done]. cbn [negb]. subst.
  destruct (window_ok (dget params SMWB)) eqn:Hs; [|done]. destruct (window_ok (dget params CMWB)) eqn:Hc; [|done].
  cbn [negb]. intros [= <-]. exists params. split_and!; [done| |done].
  split; by apply window_range.
Qed.

(** The widths negotiated, and both directions of context takeover. *)
Definition every_params : list DeflateParams :=
  s ← [false; true]; c ← [false; true]; sb ← seqZ 8 8; cb ← seqZ 8 8; [mkParams s c sb cb].

Lemma every_params_ok p : params_ok p -> p ∈ every_params.
Proof.
  intros [Hs Hc]. destruct p as [s c sb cb]. cbn [server_max_window_bits client_max_window_bits] in *. unfold every_params.
  apply list_elem_of_bind. exists s. split; [|destruct s; set_solver].
  apply list_elem_of_bind. exists c. split; [|destruct c; set_solver].
  apply list_elem_of_bind. exists sb. split; [|apply elem_of_seqZ; lia].
  apply list_elem_of_bind. exists cb. split; [|apply elem_of_seqZ; lia]. set_solver.
Qed.

Lemma render_parses p : params_ok p -> consider (_render p) = Some p /\ _split_offers (_render p) = [_render p].
Proof.
  intros Hp%every_params_ok. revert p Hp. apply Forall_forall.
  apply (bool_decide_unpack _). vm_compute. exact I.
Qed.

Lemma negotiate_first l :
  match negotiate_loop l with
  | Some (p, r) => exists before raw after, l = before ++ raw :: after /\ Forall (fun x => consider x = None) before /\
      consider raw = Some p /\ r = _render p
  | None => Forall (fun x => consider x = None) l
  end.
Proof.
  induction l as [|raw l IH]; cbn [negotiate_loop]; [constructor|]. destruct (consider raw) as [p|] eqn:Hc.
  - by exists [], raw, l.
  - destruct (negotiate_loop l) as [[p r]|].
    + destruct IH as (b & x & a & -> & Hb & Hx). exists (raw :: b), x, a. split; [done|]. split; [by constructor|done].
    + by constructor.
Qed.

Lemma negotiate_nonempty h : h <> [] -> negotiate (Some h) = negotiate_loop (_split_offers h).
Proof. by destruct h. Qed.

(** Negotiation is sound and stable.  When an offer is accepted, it is the
    first acceptable one of the header; the widths agreed are in 8..15, each of
    them the one the client wrote or the default; a context takeover is
    dropped only at the client's request; and the answer, read back as an
    offer, yields the same parameters and the same answer. *)
Theorem deflate_negotiated h p r :
  negotiate (Some h) = Some (p, r) ->
  exists before raw after params,
    _split_offers h = before ++ raw :: after /\ Forall (fun x => consider x = None) before /\
    _parse_offer raw = Ok (PMD, params) /\ params_ok p /\
    p = mkParams (has_param SNCT params) (has_param CNCT params) (window (dget params SMWB)) (window (dget params CMWB)) /\
    negotiate (Some r) = Some (p, r).
Proof.
  intros H. destruct h as [|b h]; [done|]. cbn [negotiate] in H. pose proof (negotiate_first (_split_offers (b :: h))) as Hf. rewrite H in Hf.
  destruct Hf as (be & raw & af & Hl & Hbe & Hraw & ->). destruct (consider_Some _ _ Hraw) as (params & Hp & Hok & He).
  exists be, raw, af, params. split_and!; try done. destruct (render_parses p Hok) as [Hc Hs].
  rewrite negotiate_nonempty, Hs; [cbn [negotiate_loop]; by rewrite Hc|]. intros E. by rewrite E in Hs.
Qed.

Definition sample_offer : bytes :=
  lit "x-webkit-deflate-frame, permessage-deflate; server_max_window_bits=7, permessage-deflate; client_max_window_bits; server_max_window_bits=10; server_no_context_takeover".

Lemma deflate_negotiated_witness :
  exists p r, negotiate (Some sample_offer) = Some (p, r) /\ server_max_window_bits p = 10 /\ negotiate (Some r) = Some (p, r).
Proof.
  destruct (negotiate (Some sample_offer)) as [[p r]|] eqn:H; [|by vm_compute in H].
  exists p, r. split; [done|]. destruct (deflate_negotiated sample_offer p r H) as (_ & _ & _ & _ & _ & _ & _ & _ & _ & Hr).
  split; [|done]. vm_compute in H. by injection H as <- <-.
Defined.

(** An unknown parameter does not stop an offer from being accepted, a repeated
    one counts with its last value, and [server_max_window_bits] without a value
    is accepted. *)
Lemma unknown_parameter_accepted :
  is_Some (negotiate (Some (lit "permessage-deflate; frobnicate=1"))) /\
  is_Some (negotiate (Some (lit "permessage-deflate; server_max_window_bits=9; server_max_window_bits=12"))) /\
  is_Some (negotiate (Some (lit "permessage-deflate; server_max_window_bits"))).
Proof. split_and!; vm_compute; by eexists. Qed.

End Deflate.
