(* ===== verification/WsSend.v ===== *)
(** * The WebSocket send side (blackbull/native.py, blackbull/server/sender.py)

    [NativeWSMessage] and its boundary conversion, the ASGI events an
    application may send, [WebSocketSender], and what the read side of the
    package's own client makes of the octets.  A write appends to [wire] or,
    when the transport fails, marks the sender closed, as in [Http1Sender]. *)

From Stdlib Require Import ZArith Lia.
From stdpp Require Import base tactics numbers option strings sets list.
From S2P Require Import Prelude PyText RateWindow Reader HttpHeaders WsCodec WsRecipient Deflate.
Import WsCodec.

Module WsSend.

(** ** Messages and events *)

Abbreviation field := (bytes * bytes)%type.

Inductive wskind : Type := ACCEPT | SEND | CLOSE | OtherKind.

#[export] Instance wskind_eq_dec : EqDecision wskind.
Proof. solve_decision. Defined.

Record NativeWSMessage : Type := mkMessage {
  kind : wskind;
  text : option pystr;
  data : option bytes;
  code : option Z;
  reason : pystr;
  subprotocol : option pystr;
  headers : option (list field)
}.

Definition accept (subprotocol : option pystr) (headers : option (list field)) : NativeWSMessage :=
  mkMessage ACCEPT None None None [] subprotocol headers.
Definition text_message (s : pystr) : NativeWSMessage := mkMessage SEND (Some s) None None [] None None.
Definition binary_message (b : bytes) : NativeWSMessage := mkMessage SEND None (Some b) None [] None None.
Definition close (code : Z) (reason : pystr) : NativeWSMessage := mkMessage CLOSE None None (Some code) reason None None.

(** The ASGI dicts.  [body.get('text')] is [None] when the key is absent or
    holds [None]; for [bytes] and [code] the two differ. *)
Inductive ws_event : Type :=
| WS_SEND (text : option pystr) (bytes_ : option (option bytes))
| WS_CLOSE (code : option (option Z)) (reason : option pystr)
| WS_ACCEPT (subprotocol : option pystr) (headers : option (list field))
| WS_OTHER.

Inductive ws_body : Type := Dict (e : ws_event) | Native (m : NativeWSMessage) | OtherBody.

Definition to_asgi (m : NativeWSMessage) : list ws_event :=
  match kind m with
  | ACCEPT => [WS_ACCEPT (subprotocol m) (headers m)]
  | CLOSE => [WS_CLOSE (Some (code m)) (if bool_decide (reason m = []) then None else Some (reason m))]
  | _ => match text m with Some s => [WS_SEND (Some s) None] | None => [WS_SEND None (Some (data m))] end
  end.

(** ** The sender *)

Section Sender.
Context {C : Type} (compressobj : Z -> result C) (deflate : bytes -> C -> bytes * C).

Record WebSocketSender : Type := mkSender {
  _compressor : option (@Deflate.OutboundCompressor C);
  _closed : bool;
  wire : bytes;
  _faults : list bool
}.

Definition __init__ (compressor : option (@Deflate.OutboundCompressor C)) (faults : list bool) : WebSocketSender :=
  mkSender compressor false [] faults.

(** [_write] and [_write_many]: the same octets, joined or vectored. *)
Definition _guarded_write (octets : bytes) (s : WebSocketSender) : WebSocketSender :=
  if _closed s then s
  else
    match _faults s with
    | true :: faults => mkSender (_compressor s) true (wire s) faults
    | faults => mkSender (_compressor s) false (wire s ++ octets) (tail faults)
    end.
Definition _write (octets : bytes) : smonad WebSocketSender unit := supdate (_guarded_write octets).

(** The payload on the wire, and whether RSV1 is set. *)
Definition packed (raw : bytes) : smonad WebSocketSender (bytes * bool) := fun s =>
  match _compressor s with
  | None => (Ok (raw, false), s)
  | Some z =>
      let '(x, z) := Deflate.compress compressobj deflate raw z in
      (rmap (fun out => (out, true)) x, mkSender (Some z) (_closed s) (wire s) (_faults s))
  end.

Definition _frame_payload (raw : bytes) (opcode : Z) : smonad WebSocketSender bytes :=
  let! out := packed raw in
  let! h := slift (encode_frame_header (zlen out.1) opcode out.2) in
  sret (h ++ out.1).

Definition send_frame (raw : bytes) (opcode : Z) : smonad WebSocketSender unit :=
  let! f := _frame_payload raw opcode in _write f.

Definition send_text (s : pystr) : smonad WebSocketSender unit :=
  let! raw := slift (utf8_encode s) in send_frame raw TEXT.

Definition _send_close (code : Z) : smonad WebSocketSender unit :=
  let! payload := slift (to_bytes 2 code) in
  let! f := slift (encode_frame [] payload WsCodec.CLOSE false false) in
  _write f.

Definition dict_arm (e : ws_event) : smonad WebSocketSender unit :=
  match e with
  | WS_SEND (Some s) _ => send_text s
  | WS_SEND None None => send_frame [] BINARY
  | WS_SEND None (Some (Some b)) => send_frame b BINARY
  | WS_SEND None (Some None) => sraise TypeError              (* [len(None)] *)
  | WS_CLOSE None _ => _send_close WsRecipient.NORMAL
  | WS_CLOSE (Some (Some c)) _ => _send_close c
  | WS_CLOSE (Some None) _ => sraise AttributeError           (* [None.to_bytes] *)
  | WS_ACCEPT _ _ | WS_OTHER => sret tt
  end.

Definition native_arm (m : NativeWSMessage) : smonad WebSocketSender unit :=
  match kind m with
  | SEND => match text m with Some s => send_text s | None => send_frame (default [] (data m)) BINARY end
  | CLOSE => _send_close (default WsRecipient.NORMAL (code m))
  | ACCEPT | OtherKind => sret tt
  end.

Definition __call__ (b : ws_body) : smonad WebSocketSender unit :=
  match b with Dict e => dict_arm e | Native m => native_arm m | OtherBody => sraise TypeError end.

Fixpoint sends (l : list ws_body) : smonad WebSocketSender unit :=
  match l with [] => sret tt | b :: l => do! __call__ b in sends l end.

(** The messages the four constructors build. *)
Definition built (m : NativeWSMessage) : Prop :=
  match kind m with
  | SEND => is_Some (text m) \/ is_Some (data m)
  | CLOSE => is_Some (code m)
  | ACCEPT => True
  | OtherKind => False
  end.

(** The two shapes of a message are one.  Whatever state the sender is in,
    a message built by a constructor of [NativeWSMessage] and the ASGI event it
    converts to put the same octets on the wire, raise the same exception and
    leave the same state. *)
Theorem ws_arms_agree m s : built m -> sends (Dict <$> to_asgi m) s = __call__ (Native m) s.
Proof.
  intros Hb. unfold to_asgi, __call__, native_arm, built in *. destruct m as [k t d c r sp hs]; cbn in *.
  assert (H1 : forall (x : smonad WebSocketSender unit), (do! x in sret tt) s = x s).
  { intros x. unfold sbind. by destruct (x s) as [[[]|e] s']. }
  destruct k; cbn; [done| |by destruct Hb as [c' ->]; apply H1|done].
  destruct t as [t|]; cbn; [by rewrite H1|]. destruct Hb as [[? ?]|[b ->]]; [done|]. by apply H1.
Qed.

End Sender.

Lemma ws_arms_agree_witness :
  let compressobj (w : Z) := Ok tt in
  let deflate (p : bytes) (c : unit) := (p ++ [0; 0; 255; 255], c) in
  let s := __init__ (Some (Deflate.mkCompressor (-15) true tt)) [false; true] in
  sends compressobj deflate (Dict <$> to_asgi (text_message (lit "hi"))) s =
    (Ok tt, mkSender (Some (Deflate.mkCompressor (-15) true tt)) false ([193; 2] ++ lit "hi") [true]).
Proof. intros compressobj deflate s. rewrite (ws_arms_agree compressobj deflate); [by vm_compute|left; by eexists]. Defined.

(** A send event with neither key set raises on the boundary and is an empty
    binary message on the native channel. *)
Lemma empty_send_differs :
  let compressobj (w : Z) := Ok tt in
  let deflate (p : bytes) (c : unit) := (p, c) in
  let m := mkMessage SEND None None None [] None None in
  (__call__ compressobj deflate (Native m) (__init__ None [])).1 = Ok tt /\
  (sends compressobj deflate (Dict <$> to_asgi m) (__init__ None [])).1 = Raise TypeError.
Proof. by vm_compute. Qed.

(** ** What the other end hears *)

Section Hearing.
Context {C D : Type} (compressobj : Z -> result C) (deflate : bytes -> C -> bytes * C).
Context (decompressobj : Z -> D) (inflate : bytes -> option Z -> D -> result (bytes * bytes) * D).
(** zlib: a deflater and an inflater are in step, and stay so when one inflates
    what the other has flushed. *)
Context (synced : C -> D -> Prop).
Context (in_step : forall p c d bound, synced c d -> bytes_ok p -> match bound with Some b => zlen p < b | None => True end ->
  exists out d', (deflate p c).1 = out ++ WsRecipient._DEFLATE_TAIL /\ bytes_ok out /\
    inflate (out ++ WsRecipient._DEFLATE_TAIL) bound d = (Ok (p, []), d') /\ synced (deflate p c).2 d').
Context {R : Type} `{!ByteReader R}.
Context (monotonic : nat -> Z) (write_fails : nat -> bool) (urandom : nat -> bytes) (cfg : WsRecipient.settings).
(** The client's settings. *)
Context (Hclient : WsRecipient._require_masked cfg = false) (Hcap : 125 <= WsRecipient._max_frame_payload cfg).

Abbreviation call := (__call__ compressobj deflate).

Import WsRecipient.

(** The two ends agree: no compression, or streams in step that are both
    renewed after every message or both kept. *)
Definition paired (oc : option (@Deflate.OutboundCompressor C)) (oz : option (@InboundDecompressor D)) : Prop :=
  match oc, oz with
  | None, None => True
  | Some c, Some z =>
      synced (Deflate._deflater c) (_inflater z) /\ Deflate._reset_per_message c = _reset_per_message z /\
      (_reset_per_message z = true -> exists c0, compressobj (Deflate._wbits c) = Ok c0 /\ synced c0 (decompressobj (_wbits z)))
  | _, _ => False
  end.

Definition payload (m : message) : bytes := match m with Text s => s ≫= utf8_char | Binary b => b end.
Definition opcode (m : message) : Z := match m with Text _ => TEXT | Binary _ => BINARY end.
Definition message_ok (m : message) : Prop :=
  match m with Text s => text_ok s | Binary b => bytes_ok b end /\ within cfg (payload m).
Definition native (m : message) : ws_body := Native (match m with Text s => text_message s | Binary b => binary_message b end).

(** What the frames of the messages carry. *)
Fixpoint payloads (l : list message) (s : WebSocketSender) : list bytes :=
  match l with
  | [] => []
  | m :: l => match packed compressobj deflate (payload m) s with (Ok (p, _), s) => p :: payloads l s | _ => [] end
  end.

Definition fits_frame (p : bytes) : Prop := zlen p <= _max_frame_payload cfg /\ zlen p < 2 ^ 64.

Lemma payload_bytes m : message_ok m -> bytes_ok (payload m).
Proof.
  intros [Hm _]. destruct m as [s|b]; cbn in *; [|done]. apply (utf8_encode_bytes s). unfold utf8_encode. by rewrite bool_decide_true.
Qed.

Lemma decoded_back m z : (if opcode m =? TEXT then match utf8_decode (payload m) with Ok s => Some (Text s, z) | Raise _ => None end
    else Some (Binary (payload m), z)) = Some (m, z : option (@InboundDecompressor D)) \/ ~ message_ok m.
Proof.
  destruct m as [s|b]; cbn; [|by left]. destruct (decide (text_ok s)) as [Hs|Hs]; [left; by rewrite utf8_decode_text|right; by intros [? _]].
Qed.

Definition bound : option Z := if _max_message_size cfg =? 0 then None else Some (_max_message_size cfg).

Lemma bound_admits p : within cfg p ->
  match (match bound with Some m => Some (m + 1) | None => None end) with Some b => zlen p < b | None => True end /\
  match bound with Some m => (zlen p >? m) = false | None => True end.
Proof.
  unfold within, bound. destruct (Z.eqb_spec (_max_message_size cfg) 0); [done|]. intros [?|?]; [done|]. rewrite Z.gtb_ltb, Z.ltb_ge. lia.
Qed.

Lemma compressed_in_step p c z :
  bytes_ok p -> within cfg p -> paired (Some c) (Some z) ->
  exists out c' z', Deflate.compress compressobj deflate p c = (Ok out, c') /\ bytes_ok out /\
    decompress decompressobj inflate out bound z = (Ok p, z') /\ paired (Some c') (Some z').
Proof.
  intros Hb Hw (Hs & Hr & Hfresh). destruct (bound_admits p Hw) as [Hb1 Hb2].
  destruct (in_step p _ _ _ Hs Hb Hb1) as (out & d' & Hd & Hout & Hi & Hs').
  set (z1 := set_inflater d' z). set (z' := if _reset_per_message z then set_inflater (decompressobj (_wbits z1)) z1 else z1).
  assert (Hz : decompress decompressobj inflate out bound z = (Ok p, z')).
  { unfold decompress. rewrite Hi. destruct bound as [m|]; [|done]. by rewrite Hb2. }
  unfold Deflate.compress. destruct (deflate p (Deflate._deflater c)) as [o c']. cbn [fst snd] in *. subst o. rewrite Deflate.drop_tail_app.
  cbn [Deflate._reset_per_message Deflate.set_deflater Deflate._wbits]. rewrite Hr. unfold z' in *. destruct (_reset_per_message z) eqn:Hrz.
  - destruct (Hfresh eq_refl) as (c0 & Hc0 & Hs0). rewrite Hc0. eexists out, _, _. split_and!; [done..|].
    split; [done|]. split; [by cbn; rewrite Hr, Hrz|]. intros _. by exists c0.
  - eexists out, _, _. split_and!; [done..|]. split; [done|]. split; [by cbn; rewrite Hr, Hrz|]. cbn. by rewrite Hrz.
Qed.

Definition deflating (z : option (@InboundDecompressor D)) : bool := match z with Some _ => true | None => false end.

(** Packing a message leaves the other end able to understand it. *)
Lemma packed_understood m s z :
  message_ok m -> paired (_compressor s) z ->
  exists q s' z', packed compressobj deflate (payload m) s = (Ok (q, deflating z), s') /\ bytes_ok q /\
    understand decompressobj inflate cfg (opcode m) q (deflating z) z = Some (m, z') /\
    paired (_compressor s') z' /\ deflating z' = deflating z /\ _closed s' = _closed s /\ wire s' = wire s /\ _faults s' = _faults s.
Proof.
  intros Hm Hp. pose proof (payload_bytes m Hm) as Hb. unfold packed, understand.
  destruct (_compressor s) as [c|] eqn:Hc, z as [z|]; try done.
  - destruct (compressed_in_step (payload m) c z Hb (proj2 Hm) Hp) as (out & c' & z' & -> & Hout & Hz & Hp').
    eexists out, _, (Some z'). split_and!; try done. fold bound. cbn [deflating]. rewrite Hz. by destruct (decoded_back m (Some z')).
  - exists (payload m), s, None. split_and!; try done; [|by rewrite Hc].
    assert (Hw : (_max_message_size cfg =? 0) || (zlen (payload m) <=? _max_message_size cfg) = true).
    { destruct Hm as [_ [->|H]]; [done|]. apply orb_true_intro. right. by apply Z.leb_le. }
    cbn [deflating]. rewrite Hw. by destruct (decoded_back m None).
Qed.

(** A sender whose transport works. *)
Definition sound (s : WebSocketSender) : Prop := _closed (C := C) s = false /\ Forall (fun b => b = false) (_faults s).

Lemma write_sound f s : sound s ->
  exists s', _write f s = (Ok tt, s') /\ wire s' = wire s ++ f /\ sound s' /\ _compressor (C := C) s' = _compressor s.
Proof.
  intros [Hc Hf]. unfold _write, supdate, _guarded_write. rewrite Hc. destruct (_faults s) as [|[] fs] eqn:E.
  - eexists. split_and!; [done..| |done]. by split.
  - by inversion Hf.
  - eexists. split_and!; [done..| |done]. apply Forall_cons in Hf as [_ Hf]. by split.
Qed.

(** The header of a frame that is not masked. *)
Lemma header_plain op rsv p : 0 <= op < 16 -> zlen p < 2 ^ 64 ->
  exists h, encode_frame_header (zlen p) op rsv = Ok h /\ h ++ p = peer_frame op true rsv None p.
Proof.
  intros Hop Hp. pose proof (encode_frame_layout [] p op false rsv Hop Hp) as H. unfold encode_frame in H. cbn [negb] in H.
  apply rbind_Ok in H as (h & Hh & [= Hw]). exists h. split; [done|]. rewrite Hw. unfold peer_frame, opening, first_byte.
  destruct rsv; cbn [is_masked second_byte]; [|by rewrite Z.lor_0_r].
  replace (Z.lor (Z.lor FIN op) RSV1) with (Z.lor (Z.lor FIN RSV1) op); [done|]. by rewrite <- !Z.lor_assoc, (Z.lor_comm op).
Qed.

Lemma frame_sent raw op q rsv s s1 : sound s -> packed compressobj deflate raw s = (Ok (q, rsv), s1) -> _closed s1 = _closed s ->
  _faults s1 = _faults s -> 0 <= op < 16 -> zlen q < 2 ^ 64 ->
  exists s', send_frame compressobj deflate raw op s = (Ok tt, s') /\ wire s' = wire s1 ++ peer_frame op true rsv None q /\
    sound s' /\ _compressor s' = _compressor s1.
Proof.
  intros [Hc Hf] Hp Hc1 Hf1 Hop Hq. destruct (header_plain op rsv q Hop Hq) as (h & Hh & Hw).
  destruct (write_sound (h ++ q) s1) as (s' & Hs' & Hwire & Hsound & Hcomp); [split; by rewrite ?Hc1, ?Hf1|].
  exists s'. rewrite <- Hw. split_and!; try done. unfold send_frame, _frame_payload, sbind, slift, sret. rewrite Hp. cbn [fst snd].
  by rewrite Hh.
Qed.

Abbreviation loop := (_read_loop decompressobj inflate monotonic write_fails urandom cfg).
Abbreviation leads_to := (leads decompressobj inflate monotonic write_fails urandom cfg).
Abbreviation fresh := (new_assembler (_max_message_size cfg)).

(** The reading end takes one message. *)
Lemma message_heard m q z z' l n ws its r :
  ready (peer_frame (opcode m) true (deflating z) None q ++ l) fresh z n ws its r ->
  bytes_ok q -> fits_frame q ->
  understand decompressobj inflate cfg (opcode m) q (deflating z) z = Some (m, z') ->
  exists r', leads_to r r' /\ ready l fresh z' n ws (its ++ [Msg m]) r'.
Proof.
  intros Hr Hq [Hf H64] Hu.
  assert (Hop : opcode m ∈ [TEXT; BINARY; CONTINUATION]) by (destruct m; cbn; set_solver).
  apply (data_step decompressobj inflate monotonic write_fails urandom cfg (opcode m) true (deflating z) None q l fresh fresh
    (Some (opcode m, q, deflating z)) z z' n ws its (its ++ [Msg m]) r Hr Hop I); try done.
  - by rewrite Hclient.
  - by destruct z.
  - unfold feed. assert (Hn : (opcode m =? CONTINUATION) = false) by by destruct m. rewrite Hn. done.
  - exists m. split; [exact Hu|done].
Qed.

Lemma native_call m : message_ok m ->
  call (native m) = send_frame compressobj deflate (payload m) (opcode m).
Proof.
  intros [Hm _]. destruct m as [s|b]; [|done]. cbn. unfold send_text, slift, utf8_encode, sbind. by rewrite bool_decide_true.
Qed.

Lemma payloads_compressor ms s1 s2 : _compressor s2 = _compressor s1 -> payloads ms s2 = payloads ms s1.
Proof.
  revert s1 s2. induction ms as [|m ms IH]; intros s1 s2 Hc; [done|]. cbn [payloads]. unfold packed. rewrite Hc.
  destruct (_compressor s1) as [z|] eqn:E; [|cbn; by rewrite (IH s1 s2) by congruence].
  destruct (Deflate.compress compressobj deflate (payload m) z) as [[x|e] z1]; cbn; [|done]. f_equal. by apply IH.
Qed.

(** Sending the messages, and reading what was sent. *)
Lemma messages_heard ms s z :
  sound s -> paired (_compressor s) z -> Forall message_ok ms -> Forall fits_frame (payloads ms s) ->
  exists s' sent z', sends compressobj deflate (native <$> ms) s = (Ok tt, s') /\ wire s' = wire s ++ sent /\ sound s' /\
    (forall l n ws its r, ready (sent ++ l) fresh z n ws its r ->
       exists r', leads_to r r' /\ ready l fresh z' n ws (its ++ (Msg <$> ms)) r').
Proof.
  revert s z. induction ms as [|m ms IH]; intros s z Hs Hp Hms Hfit.
  - exists s, [], z. split_and!; [done|by rewrite app_nil_r|done|]. intros l n ws its r Hr. exists r. split; [apply leads_refl|].
    by rewrite app_nil_r.
  - apply Forall_cons in Hms as [Hm Hms]. destruct (packed_understood m s z Hm Hp) as (q & s1 & z1 & Hpk & Hq & Hu & Hp1 & Hdz & Hc1 & Hw1 & Hf1).
    cbn [payloads] in Hfit. rewrite Hpk in Hfit. apply Forall_cons in Hfit as [Hfq Hfit].
    destruct (frame_sent (payload m) (opcode m) q (deflating z) s s1 Hs Hpk Hc1 Hf1) as (s2 & Hs2 & Hw2 & Hsound2 & Hcomp2);
      [by destruct m|apply Hfq|].
    pose proof (payloads_compressor ms s1 s2 Hcomp2) as Hsame.
    destruct (IH s2 z1) as (s' & sent & z' & Hsends & Hwire & Hsound & Hread); [done|by rewrite Hcomp2|done|by rewrite Hsame|].
    exists s', (peer_frame (opcode m) true (deflating z) None q ++ sent), z'. split_and!; try done.
    + cbn [fmap list_fmap sends]. unfold sbind. by rewrite native_call, Hs2.
    + by rewrite Hwire, Hw2, Hw1, app_assoc.
    + intros l n ws its r Hr. rewrite <- app_assoc in Hr.
      destruct (message_heard m q z z1 _ n ws its r Hr Hq Hfq Hu) as (r1 & Hl1 & H1).
      destruct (Hread l n ws _ r1 H1) as (r2 & Hl2 & H2). exists r2. split; [by eapply leads_trans|].
        rewrite fmap_cons. by rewrite <- app_assoc in H2.
Qed.

(** The CLOSE that ends the conversation. *)
Lemma close_sent c s : sound s -> _is_valid_close_code c = true ->
  exists s', _send_close c s = (Ok tt, s') /\ sound s' /\ wire s' = wire s ++ peer_frame WsCodec.CLOSE true false None (be_bytes 2 c).
Proof.
  intros Hs Hc%valid_code_range. destruct (header_plain WsCodec.CLOSE false (be_bytes 2 c)) as (h & Hh & Hw);
    [unfold WsCodec.CLOSE; lia|rewrite zlen_be_bytes; lia|].
  destruct (write_sound (h ++ be_bytes 2 c) s Hs) as (s' & Hs' & Hwire & Hsound & _). exists s'. split_and!; [|done|by rewrite <- Hw].
  unfold _send_close, sbind, slift. rewrite to_bytes_Ok by (cbn; lia). unfold encode_frame. cbn [negb]. rewrite Hh. done.
Qed.

Lemma parse_own_close c : _is_valid_close_code c = true -> _parse_close_payload (be_bytes 2 c) = (c, true).
Proof.
  intros Hc. pose proof (valid_code_range c Hc). pose proof (length_be_bytes 2 c) as Hl. unfold _parse_close_payload.
  destruct (be_bytes 2 c) as [|x [|y [|w l]]] eqn:E; try done. rewrite <- E, slice_all by (by rewrite E).
  rewrite from_be_small by (cbn; lia). by rewrite Hc, E.
Qed.

Lemma close_heard c l z n ws its r :
  ready (peer_frame WsCodec.CLOSE true false None (be_bytes 2 c) ++ l) fresh z n ws its r -> 1 <= n -> _is_valid_close_code c = true ->
  exists r', drive decompressobj inflate monotonic write_fails urandom cfg r = (Ok tt, r') /\ _read_finished r' = true /\
    _pending r' = its ++ [WS_CLOSED] /\ _terminal_code r' = Some c.
Proof.
  intros Hr Hn Hc. assert (H2 : zlen (be_bytes 2 c) = 2) by apply zlen_be_bytes.
  destruct (header_passes decompressobj inflate monotonic write_fails urandom cfg WsCodec.CLOSE true false None (be_bytes 2 c) l fresh z n ws its r Hr)
    as (r1 & H1 & Hstep); try done; try (rewrite ?Hclient; done || lia); try apply be_bytes_ok.
  change (bool_decide (WsCodec.CLOSE ∈ [TEXT; BINARY; CONTINUATION])) with false in Hstep.
  change (control WsCodec.CLOSE) with true in *. cbn iota in *.
  destruct (close_frame_ok urandom c true r1 Hc) as (f & q & Hf & _).
  eexists (set_finished true _). split.
  - unfold drive, _drive_once, sbind at 1, scatch. rewrite Hstep. unfold _handle_control_frame. cbn [Z.eqb WsCodec.CLOSE Pos.eqb].
    rewrite parse_own_close by done. rewrite Hclient. cbn [negb]. unfold sbind at 1. rewrite Hf. unfold sbind at 1. rewrite best_effort_write.
    reflexivity.
  - cbn. by rewrite (y_pending _ _ _ _ _ _ _ H1).
Qed.

Lemma sends_app l1 l2 s s' : sends compressobj deflate l1 s = (Ok tt, s') ->
  sends compressobj deflate (l1 ++ l2) s = sends compressobj deflate l2 s'.
Proof.
  revert s. induction l1 as [|b l1 IH]; intros s; [by intros [= <-]|]. cbn [sends app]. unfold sbind.
  destruct (call b s) as [[[]|e] s1]; [apply IH|done].
Qed.

Lemma sends_app_inv l1 l2 s s' : sends compressobj deflate (l1 ++ l2) s = (Ok tt, s') ->
  exists s1, sends compressobj deflate l1 s = (Ok tt, s1) /\ sends compressobj deflate l2 s1 = (Ok tt, s').
Proof.
  revert s. induction l1 as [|b l1 IH]; intros s H; [by exists s|]. cbn [sends app] in *. unfold sbind in *.
  destruct (call b s) as [[[]|e] s1]; [by apply IH|done].
Qed.

(** Whatever messages are sent, compressed or not, followed by a close with a
    code that may be sent: the recipient at the other end is handed exactly
    those messages, in order, and then the close with that code. *)
Lemma talk_heard ms c why s z :
  sound s -> paired (_compressor s) z -> Forall message_ok ms -> Forall fits_frame (payloads ms s) -> _is_valid_close_code c = true ->
  exists s' sent, sends compressobj deflate ((native <$> ms) ++ [Native (close c why)]) s = (Ok tt, s') /\ wire s' = wire s ++ sent /\
    forall (x : R) rest fuel meter, delivers x (sent ++ rest) -> bytes_ok (sent ++ rest) -> (length (sent ++ rest) < fuel)%nat ->
      RateWindow.room 1 meter ->
      exists r, loop fuel (__init__ cfg x meter z) = (Ok tt, r) /\ _pending r = (Msg <$> ms) ++ [WS_CLOSED] /\ _terminal_code r = Some c.
Proof.
  intros Hs Hp Hms Hfit Hc.
  destruct (messages_heard ms s z Hs Hp Hms Hfit) as (s1 & sent & z1 & Hs1 & Hw1 & Hsound1 & Hread).
  destruct (close_sent c s1 Hsound1 Hc) as (s2 & Hs2 & Hsound2 & Hw2).
  exists s2, (sent ++ peer_frame WsCodec.CLOSE true false None (be_bytes 2 c)). split_and!.
  { rewrite (sends_app _ _ s s1 Hs1). cbn. unfold sbind. by rewrite Hs2. }
  { by rewrite Hw2, Hw1, app_assoc. }
  intros x rest fuel meter Hd Hb Hfuel Hroom. rewrite <- app_assoc in *. set (l := sent ++ _ ++ rest) in *.
  destruct (read_loop_spec decompressobj inflate monotonic write_fails urandom cfg fuel l _ (init_open cfg x l meter z Hd Hb) Hfuel) as (rf & Hloop & _).
  assert (Hr0 : ready l fresh z 1 [] [] (__init__ cfg x meter z)) by by split.
  destruct (Hread _ 1 [] [] _ Hr0) as (r1 & [k Hk] & Hr1).
  destruct (close_heard c rest z1 1 [] _ r1 Hr1) as (r2 & Hdr & Hfin & Hpend & Ht); [done..|].
  assert (Hend : loop (k + 1) (__init__ cfg x meter z) = (Ok tt, r2)).
  { rewrite Hk. cbn [_read_loop]. rewrite (y_finished _ _ _ _ _ _ _ Hr1). unfold sbind. by rewrite Hdr, Hfin. }
  rewrite (loop_same _ _ _ _ _ _ _ _ _ _ _ Hloop Hend) in Hloop. by exists r2.
Qed.

End Hearing.

(** zlib as a deflater that appends the tail of a flush and an inflater that
    takes it off. *)
Definition sample_deflate (p : bytes) (c : unit) : bytes * unit := (p ++ WsRecipient._DEFLATE_TAIL, tt).
Definition sample_compressobj (w : Z) : result unit := Ok tt.

Lemma sample_in_step (p : bytes) (c d : unit) (bound : option Z) :
  True -> bytes_ok p -> match bound with Some b => zlen p < b | None => True end ->
  exists out d', (sample_deflate p c).1 = out ++ WsRecipient._DEFLATE_TAIL /\ bytes_ok out /\
    WsRecipient.Sample.inflate (out ++ WsRecipient._DEFLATE_TAIL) bound d = (Ok (p, []), d') /\ True.
Proof.
  intros _ Hp _. exists p, tt. split_and!; try done. unfold WsRecipient.Sample.inflate. by rewrite length_app, Nat.add_sub, take_app_length.
Qed.

Definition sample_client : WsRecipient.settings := WsRecipient.mkSettings false 1000 100 0.
Definition sample_messages : list WsRecipient.message := [WsRecipient.Text (lit "hi" ++ [0x20AC]); WsRecipient.Binary [0; 255]].

End WsSend.
