(* ===== verification/WsHandler.v ===== *)
(** * The WebSocket handler object (blackbull/websocket.py, blackbull/middleware/websocket.py)

    The handshake marks in the connection's WebSocket bag, the [WebSocket]
    object that a handler drives, and the middleware that accepts on the
    handler's behalf.  The receive channel is the server's own (native) or one
    that yields ASGI events; the send channel is any callable.  What is sent,
    what the channel refused and when the peer was found gone is recorded in
    [trace].  JSON is a parameter. *)

From Stdlib Require Import ZArith Lia.
From stdpp Require Import base tactics numbers option strings sets list.
From S2P Require Import Prelude PyText WsRecipient WsSend.

Module WsHandler.

Definition _NORMAL_CLOSURE : Z := 1000.
Definition _NO_STATUS : Z := 1005.

(** ** The WebSocket bag of a connection *)

(** The marks of the handshake in [conn._ws].  The other keys of the bag, which
    the upgrade leaves for the actor, are in [WsActor.upgrade]. *)
Record bag : Type := mkBag {
  _CONSUMED : bool;
  _ACCEPTED : bool;
  _CLOSED : bool
}.

Definition empty_bag : bag := mkBag false false false.

Definition connect_consumed (b : option bag) : bool := match b with Some b => _CONSUMED b || _ACCEPTED b | None => false end.
Definition handshake_accepted (b : option bag) : bool := match b with Some b => _ACCEPTED b | None => false end.
Definition handshake_closed (b : option bag) : bool := match b with Some b => _CLOSED b | None => false end.

(** [_ws_bag(conn, create=True)] *)
Definition created (b : option bag) : bag := default empty_bag b.

Definition mark_connect_consumed (b : option bag) : option bag := let b := created b in Some (mkBag true (_ACCEPTED b) (_CLOSED b)).
Definition mark_handshake_accepted (b : option bag) : option bag := let b := created b in Some (mkBag true true (_CLOSED b)).
Definition mark_handshake_closed (b : option bag) : option bag := let b := created b in Some (mkBag (_CONSUMED b) (_ACCEPTED b) true).

(** ** The object *)

Record WebSocket : Type := mkObj {
  _connect_seen : bool;
  _accepted : bool;
  _accepted_elsewhere : bool;
  _closed : bool;
  _disconnected : bool;
  _close_code : option Z;
  _close_reason : option pystr
}.

(** [WebSocket.__init__] *)
Definition new_object (b : option bag) : WebSocket :=
  mkObj (connect_consumed b) (handshake_accepted b) (handshake_accepted b) false false None None.

(** An event of a receive channel that yields dicts. *)
Inductive in_event : Type :=
| InConnect
| InReceive (text : option pystr) (data : option bytes)
| InDisconnect (code : option (option Z)) (reason : option pystr)
| InOther.

(** The receive channel: [await_connect] and [next_message] when the channel is
    native, and the callable itself. *)
Record channel (R : Type) : Type := mkChannel {
  is_native : bool;
  await_connect : smonad R unit;
  next_message : smonad R WsRecipient.message;
  receive_event : smonad R in_event
}.
Arguments mkChannel {R}.
Arguments is_native {R}.
Arguments await_connect {R}.
Arguments next_message {R}.
Arguments receive_event {R}.

(** What happens at the send channel and when the peer is found gone. *)
Inductive happening : Type :=
| Sent (b : WsSend.ws_body)
| Refused (b : WsSend.ws_body)
| Gone.

Inductive argument : Type := Str (s : pystr) | Bytes (b : bytes) | NotText.

Section Object.
Context {R S J : Type} (ch : channel R) (send_ : WsSend.ws_body -> smonad S unit).
(** [json.dumps] and [json.loads] *)
Context (dumps : J -> result pystr) (loads : pystr -> result J).

Record world : Type := mkWorld {
  chan : R;
  sink : S;
  conn_ws : option bag;
  obj : WebSocket;
  trace : list happening
}.

Definition set_chan (r : R) (w : world) : world := mkWorld r (sink w) (conn_ws w) (obj w) (trace w).
Definition set_ws (b : option bag) (w : world) : world := mkWorld (chan w) (sink w) b (obj w) (trace w).
Definition set_obj (o : WebSocket) (w : world) : world := mkWorld (chan w) (sink w) (conn_ws w) o (trace w).
Definition happens (h : happening) (w : world) : world := mkWorld (chan w) (sink w) (conn_ws w) (obj w) (trace w ++ [h]).

Definition set_seen (w : world) : world :=
  let o := obj w in set_obj (mkObj true (_accepted o) (_accepted_elsewhere o) (_closed o) (_disconnected o) (_close_code o) (_close_reason o)) w.
Definition set_accepted (w : world) : world :=
  let o := obj w in set_obj (mkObj (_connect_seen o) true (_accepted_elsewhere o) (_closed o) (_disconnected o) (_close_code o) (_close_reason o)) w.
Definition set_elsewhere (b : bool) (w : world) : world :=
  let o := obj w in set_obj (mkObj (_connect_seen o) (_accepted o) b (_closed o) (_disconnected o) (_close_code o) (_close_reason o)) w.
Definition set_closed (w : world) : world :=
  let o := obj w in set_obj (mkObj (_connect_seen o) (_accepted o) (_accepted_elsewhere o) true (_disconnected o) (_close_code o) (_close_reason o)) w.
Definition set_close (code : option Z) (reason : option pystr) (w : world) : world :=
  let o := obj w in set_obj (mkObj (_connect_seen o) (_accepted o) (_accepted_elsewhere o) (_closed o) (_disconnected o) code reason) w.

(** The peer is gone: [_note_disconnect] and the native handler alike. *)
Definition note_gone (code : option Z) (reason : option pystr) (w : world) : world :=
  let o := obj w in
  happens Gone (set_obj (mkObj (_connect_seen o) (_accepted o) (_accepted_elsewhere o) (_closed o) true code reason) w).

Definition _note_disconnect (code : option (option Z)) (reason : option pystr) : world -> world :=
  note_gone (match code with Some c => c | None => Some _NO_STATUS end) reason.

Definition on_chan {A} (m : smonad R A) : smonad world A := fun w => let '(x, r) := m (chan w) in (x, set_chan r w).

(** [await self._send(b)] *)
Definition emit (b : WsSend.ws_body) : smonad world unit := fun w =>
  let '(x, s) := send_ b (sink w) in
  (x, happens (match x with Ok _ => Sent b | Raise _ => Refused b end) (mkWorld (chan w) s (conn_ws w) (obj w) (trace w))).

(** [code or _NO_STATUS] *)
Definition code_or (c : option Z) : Z := match c with Some 0 | None => _NO_STATUS | Some c => c end.
Definition raise_disconnect {A} : smonad world A := fun w => (Raise (WebSocketDisconnect (code_or (_close_code (obj w))) (_close_reason (obj w))), w).

Definition _consume_connect : smonad world unit := fun w =>
  if _connect_seen (obj w) then (Ok tt, w)
  else
    let w := set_ws (mark_connect_consumed (conn_ws w)) (set_seen w) in
    if is_native ch then
      scatch (on_chan (await_connect ch))
        (fun e => match e with WebSocketDisconnect code reason => Some (supdate (note_gone (Some code) reason)) | _ => None end) w
    else
      (let! e := on_chan (receive_event ch) in
       match e with
       | InDisconnect code reason => supdate (_note_disconnect code reason)
       | InConnect => sret tt
       | _ => sraise RuntimeError
       end) w.

Definition accept (subprotocol : option pystr) (headers : option (list WsSend.field)) : smonad world unit := fun w =>
  if _accepted_elsewhere (obj w) then
    let w := set_elsewhere false w in
    match subprotocol, headers with None, None => (Ok tt, w) | _, _ => (Raise RuntimeError, w) end
  else if _accepted (obj w) then (Raise RuntimeError, w)
  else if _closed (obj w) then (Raise RuntimeError, w)
  else
    (do! _consume_connect in fun w =>
      if _disconnected (obj w) then raise_disconnect w
      else
        (do! emit (WsSend.Native (WsSend.accept subprotocol headers)) in
         do! supdate set_accepted in
         supdate (fun w => set_ws (mark_handshake_accepted (conn_ws w)) w)) w) w.

(** The part of [close] after the handshake offer has been taken. *)
Definition close_now (code : Z) (reason : option pystr) : smonad world unit :=
  do! supdate set_closed in
  do! emit (WsSend.Native (WsSend.close code (default [] reason))) in
  do! supdate (set_close (Some code) reason) in
  supdate (fun w => set_ws (mark_handshake_closed (conn_ws w)) w).

Definition close (code : Z) (reason : option pystr) : smonad world unit := fun w =>
  if _closed (obj w) || _disconnected (obj w) then (Ok tt, set_closed w)
  else if negb (_accepted (obj w)) then
    (do! _consume_connect in fun w =>
      if _disconnected (obj w) then (Ok tt, set_closed w) else close_now code reason w) w
  else close_now code reason w.

Definition _check_sendable : smonad world unit := fun w =>
  if negb (_accepted (obj w)) then (Raise RuntimeError, w)
  else if _disconnected (obj w) then raise_disconnect w
  else if _closed (obj w) then (Raise RuntimeError, w)
  else (Ok tt, w).

Definition send_text (s : pystr) : smonad world unit := do! _check_sendable in emit (WsSend.Native (WsSend.text_message s)).
Definition send_bytes (b : bytes) : smonad world unit := do! _check_sendable in emit (WsSend.Native (WsSend.binary_message b)).

Definition send_json (x : J) (binary : bool) : smonad world unit :=
  let! payload := slift (dumps x) in
  if binary then let! b := slift (utf8_encode payload) in send_bytes b else send_text payload.

Definition send (x : argument) : smonad world unit :=
  match x with Str s => send_text s | Bytes b => send_bytes b | NotText => sraise TypeError end.

(** The loop of [receive] over a channel of dicts. *)
Fixpoint receive_loop (fuel : nat) : smonad world WsRecipient.message :=
  match fuel with
  | O => sraise OutOfFuel
  | Datatypes.S fuel =>
      let! e := on_chan (receive_event ch) in
      match e with
      | InReceive (Some text) _ => sret (WsRecipient.Text text)
      | InReceive None (Some data) => sret (WsRecipient.Binary data)
      | InReceive None None => sret (WsRecipient.Text [])
      | InDisconnect code reason => do! supdate (_note_disconnect code reason) in raise_disconnect
      | _ => receive_loop fuel
      end
  end.

Definition receive (fuel : nat) : smonad world WsRecipient.message := fun w =>
  if _disconnected (obj w) then raise_disconnect w
  else if negb (_accepted (obj w)) then (Raise RuntimeError, w)
  else if is_native ch then
    scatch (on_chan (next_message ch))
      (fun e => match e with
                | WebSocketDisconnect code reason => Some (do! supdate (note_gone (Some code) reason) in sraise e)
                | _ => None
                end) w
  else receive_loop fuel w.

Definition receive_text (fuel : nat) : smonad world pystr :=
  let! m := receive fuel in match m with WsRecipient.Text s => sret s | WsRecipient.Binary _ => sraise TypeError end.
Definition receive_bytes (fuel : nat) : smonad world bytes :=
  let! m := receive fuel in match m with WsRecipient.Binary b => sret b | WsRecipient.Text _ => sraise TypeError end.
Definition receive_json (fuel : nat) : smonad world J :=
  let! m := receive fuel in
  let! s := match m with WsRecipient.Text s => sret s | WsRecipient.Binary b => slift (utf8_decode b) end in
  slift (loads s).

(** One turn of [_iter_messages]: [None] ends the iteration. *)
Definition next_of_iteration (fuel : nat) : smonad world (option WsRecipient.message) :=
  scatch (let! m := receive fuel in sret (Some m)) (fun e => match e with WebSocketDisconnect _ _ => Some (sret None) | _ => None end).

(** ** A handler *)

Inductive call : Type :=
| Accept (subprotocol : option pystr) (headers : option (list WsSend.field))
| Close (code : Z) (reason : option pystr)
| SendText (s : pystr)
| SendBytes (b : bytes)
| SendJson (x : J) (binary : bool)
| Send (x : argument)
| Receive
| ReceiveText
| ReceiveBytes
| ReceiveJson
| Next.

Inductive answer : Type := ANone | AMessage (m : WsRecipient.message) | AJson (x : J) | AStop.

Definition perform (fuel : nat) (c : call) : smonad world answer :=
  match c with
  | Accept sp hs => do! accept sp hs in sret ANone
  | Close code reason => do! close code reason in sret ANone
  | SendText s => do! send_text s in sret ANone
  | SendBytes b => do! send_bytes b in sret ANone
  | SendJson x binary => do! send_json x binary in sret ANone
  | Send x => do! send x in sret ANone
  | Receive => let! m := receive fuel in sret (AMessage m)
  | ReceiveText => let! s := receive_text fuel in sret (AMessage (WsRecipient.Text s))
  | ReceiveBytes => let! b := receive_bytes fuel in sret (AMessage (WsRecipient.Binary b))
  | ReceiveJson => let! x := receive_json fuel in sret (AJson x)
  | Next => let! m := next_of_iteration fuel in sret (match m with Some m => AMessage m | None => AStop end)
  end.

(** A handler: the next call depends on the answers so far, exceptions included;
    [None] when it returns. *)
Fixpoint drive (steps fuel : nat) (handler : list (result answer) -> option call) (seen : list (result answer)) (w : world) : world :=
  match steps with
  | O => w
  | Datatypes.S steps =>
      match handler seen with
      | None => w
      | Some c => let '(x, w) := perform fuel c w in drive steps fuel handler (seen ++ [x]) w
      end
  end.

End Object.

(** ** The protocol of the send channel *)

(** Before the handshake is answered; open; closed by this side; the peer gone. *)
Inductive phase : Type := Connecting | Open | Done | Left.

Definition kind_of (b : WsSend.ws_body) : option WsSend.wskind :=
  match b with
  | WsSend.Native m => Some (WsSend.kind m)
  | WsSend.Dict (WsSend.WS_SEND _ _) => Some WsSend.SEND
  | WsSend.Dict (WsSend.WS_CLOSE _ _) => Some WsSend.CLOSE
  | WsSend.Dict (WsSend.WS_ACCEPT _ _) => Some WsSend.ACCEPT
  | _ => None
  end.

Definition allowed (p : phase) (b : WsSend.ws_body) : option phase :=
  match p, kind_of b with
  | Connecting, Some WsSend.ACCEPT => Some Open
  | Connecting, Some WsSend.CLOSE => Some Done
  | Open, Some WsSend.SEND => Some Open
  | Open, Some WsSend.CLOSE => Some Done
  | _, _ => None
  end.

(** A message the channel refused must have been one it could have taken. *)
Definition advance (p : phase) (h : happening) : option phase :=
  match h with
  | Sent b => allowed p b
  | Refused b => match allowed p b with Some _ => Some p | None => None end
  | Gone => match p with Left => None | _ => Some Left end
  end.

Fixpoint follow (p : phase) (l : list happening) : option phase :=
  match l with [] => Some p | h :: l => match advance p h with Some p => follow p l | None => None end end.

Lemma follow_snoc p l h : follow p (l ++ [h]) = match follow p l with Some q => advance q h | None => None end.
Proof. revert p. induction l as [|x l IH]; intros p; cbn [follow app]; [by destruct (advance p h)|]. by destruct (advance p x). Qed.

(** The object's flags and the phase. *)
Record agree (p : phase) (o : WebSocket) : Prop := mkAgree {
  g_left : _disconnected o = true <-> p = Left;
  g_connecting : p = Connecting -> _accepted o = false;
  g_open : p = Open -> _accepted o = true;
  g_done : p = Done -> _closed o = true;
  g_gone : _disconnected o = true -> _connect_seen o = true \/ _accepted o = true;
  g_elsewhere : _accepted_elsewhere o = true -> _accepted o = true
}.

Section Conforms.
Context {R S J : Type} (ch : channel R) (send_ : WsSend.ws_body -> smonad S unit).
Context (dumps : J -> result pystr) (loads : pystr -> result J) (start : phase).
Abbreviation world := (@world R S).

(** An invariant of the world, and the operations that keep it. *)
Definition keeps (I : world -> Prop) {A} (m : smonad world A) : Prop := forall w, I w -> I (m w).2.

Section Keeps.
Context (I : world -> Prop).

Lemma ws_keeps_ret {A} (a : A) : keeps I (sret a).
Proof. by intros w. Qed.
Lemma ws_keeps_raise {A} e : keeps I (sraise (A := A) e).
Proof. by intros w. Qed.
Lemma ws_keeps_lift {A} (x : result A) : keeps I (slift x).
Proof. by intros w. Qed.
Lemma keeps_disconnect {A} : keeps I (raise_disconnect (R := R) (S := S) (A := A)).
Proof. by intros w. Qed.

Lemma ws_keeps_bind {A B} (m : smonad world A) (k : A -> smonad world B) : keeps I m -> (forall a, keeps I (k a)) -> keeps I (sbind m k).
Proof. intros Hm Hk w Hw. unfold sbind. specialize (Hm w Hw). destruct (m w) as [[a|e] w']; [by apply Hk|done]. Qed.

Lemma ws_keeps_catch {A} (m : smonad world A) h : keeps I m -> (forall e k, h e = Some k -> keeps I k) -> keeps I (scatch m h).
Proof.
  intros Hm Hk w Hw. unfold scatch. specialize (Hm w Hw). destruct (m w) as [[a|e] w']; [done|].
  destruct (h e) as [k|] eqn:E; [by apply (Hk e)|done].
Qed.

(** Every call of a handler keeps what the five operations keep. *)
Lemma keeps_perform fuel c :
  (forall sp hs, keeps I (accept ch send_ sp hs)) -> (forall code r, keeps I (close ch send_ code r)) -> (forall fuel, keeps I (receive ch fuel)) ->
  (forall s, keeps I (send_text send_ s)) -> (forall b, keeps I (send_bytes send_ b)) -> keeps I (perform ch send_ dumps loads fuel c).
Proof.
  intros Ha Hc Hr Ht Hb. destruct c as [sp hs|code r|s|b|x bin|x| | | | |]; cbn [perform];
    unfold send_json, send, receive_text, receive_bytes, receive_json, next_of_iteration;
    repeat first [ apply ws_keeps_ret | apply ws_keeps_raise | apply ws_keeps_lift | apply Hr | apply Ha | apply Hc
                 | apply Ht | apply Hb | apply ws_keeps_bind; [|intros ?] | apply ws_keeps_catch; [|intros [] ?; intros [= <-]]
                 | progress case_match; subst ].
Qed.

Lemma keeps_drive steps fuel handler seen w : (forall c, keeps I (perform ch send_ dumps loads fuel c)) ->
  I w -> I (drive ch send_ dumps loads steps fuel handler seen w).
Proof.
  intros Hp. revert seen w. induction steps as [|steps IH]; intros seen w Hw; [done|]. cbn [drive]. destruct (handler seen) as [c|]; [|done].
  specialize (Hp c w Hw). destruct (perform ch send_ dumps loads fuel c w) as [x w1]. by apply IH.
Qed.

End Keeps.

Definition tracks (w : world) : Prop := exists p, follow start (trace w) = Some p /\ agree p (obj w).

(** The outcome of a send that the protocol allows. *)
Lemma emit_steps b (w : world) p q : follow start (trace w) = Some p -> allowed p b = Some q ->
  exists x w', emit send_ b w = (x, w') /\ obj w' = obj w /\ conn_ws w' = conn_ws w /\
    follow start (trace w') = Some (match x with Ok _ => q | Raise _ => p end).
Proof.
  intros Hp Hq. unfold emit. destruct (send_ b (sink w)) as [x s]. eexists x, _. split_and!; [done..|].
  cbn. rewrite follow_snoc, Hp. destruct x; cbn; by rewrite Hq.
Qed.

(** The peer is noted gone, from any phase in which it was not. *)
Lemma gone_tracks c r (w : world) : tracks w -> _disconnected (obj w) = false -> _connect_seen (obj w) = true \/ _accepted (obj w) = true ->
  tracks (note_gone c r w).
Proof.
  intros (p & Hp & []) Hd Hs. exists Left. split.
  - cbn. rewrite follow_snoc, Hp. destruct p; try done. by rewrite (proj2 g_left0 eq_refl) in Hd.
  - split; cbn; done.
Qed.

Lemma set_ws_tracks b (w : world) : tracks w -> tracks (set_ws b w).
Proof. done. Qed.

Lemma seen_tracks (w : world) : tracks w -> tracks (set_seen w).
Proof. intros (p & Hp & []). exists p. split; [done|]. split; cbn; try done. by left. Qed.

Lemma closed_tracks (w : world) : tracks w -> tracks (set_closed w).
Proof. intros (p & Hp & []). exists p. split; [done|]. by split; cbn. Qed.

Lemma elsewhere_tracks (w : world) : tracks w -> tracks (set_elsewhere false w).
Proof. intros (p & Hp & []). exists p. split; [done|]. by split; cbn. Qed.

(** The flags taking the handshake leaves alone. *)
Definition same_flags (o o' : WebSocket) : Prop :=
  _accepted o' = _accepted o /\ _closed o' = _closed o /\ _accepted_elsewhere o' = _accepted_elsewhere o.

Lemma consume_tracks (w : world) : tracks w -> _disconnected (obj w) = false \/ _connect_seen (obj w) = true ->
  tracks (_consume_connect ch w).2 /\ same_flags (obj w) (obj (_consume_connect ch w).2).
Proof.
  intros Hw Hd. unfold _consume_connect. destruct (_connect_seen (obj w)) eqn:Hs; [by split|]. destruct Hd as [Hd|]; [|done].
  set (w1 := set_ws _ (set_seen w)). assert (Hw1 : tracks w1) by by apply set_ws_tracks, seen_tracks.
  assert (Hg : forall c r w2, tracks w2 -> obj w2 = obj w1 -> tracks (note_gone c r w2) /\ same_flags (obj w) (obj (note_gone c r w2))).
  { intros c r w2 H2 Ho. split; [|unfold same_flags; cbn; by rewrite Ho]. apply gone_tracks; rewrite ?Ho; [done|done|by left]. }
  destruct (is_native ch).
  - unfold scatch, on_chan. destruct (await_connect ch (chan w1)) as [[[]|e] r]; [by split|].
    destruct e; try by split. by apply (Hg _ _ (set_chan r w1)).
  - unfold sbind, on_chan. destruct (receive_event ch (chan w1)) as [[e|e] r]; [|by split].
    destruct e; try by split. by apply (Hg _ _ (set_chan r w1)).
Qed.

Lemma tracks_accept sp hs : keeps tracks (accept ch send_ sp hs).
Proof.
  intros w Hw. unfold accept. destruct (_accepted_elsewhere (obj w)) eqn:He.
  { destruct sp, hs; by apply elsewhere_tracks. }
  destruct (_accepted (obj w)) eqn:Ha; [done|]. destruct (_closed (obj w)) eqn:Hc; [done|].
  assert (Hd : _disconnected (obj w) = false \/ _connect_seen (obj w) = true).
  { destruct Hw as (p & _ & []). destruct (_disconnected (obj w)) eqn:E; [|by left]. right. destruct (g_gone0 eq_refl); congruence. }
  destruct (consume_tracks w Hw Hd) as [H1 (Ha1 & Hc1 & He1)]. unfold sbind at 1. destruct (_consume_connect ch w) as [[[]|e] w1]; [|done].
  cbn [snd] in *. destruct (_disconnected (obj w1)) eqn:Hd1; [done|]. destruct H1 as (p & Hp & []).
  assert (p = Connecting) as ->.
  { destruct p; [done|..]; exfalso; [specialize (g_open0 eq_refl)|specialize (g_done0 eq_refl)|apply proj2 in g_left0; specialize (g_left0 eq_refl)];
      congruence. }
  destruct (emit_steps (WsSend.Native (WsSend.accept sp hs)) w1 Connecting Open Hp eq_refl) as (x & w2 & Hx & Ho & _ & Hf).
  unfold sbind at 1. rewrite Hx. destruct x as [[]|e].
  - exists Open. split; [done|]. rewrite <- Ho in *. split; cbn; try done; [split; congruence|intros; congruence].
  - exists Connecting. split; [done|]. cbn [snd]. rewrite Ho. by split.
Qed.

Lemma close_now_tracks code r (w : world) p : follow start (trace w) = Some p -> agree p (obj w) -> _closed (obj w) = false ->
  _disconnected (obj w) = false -> tracks (close_now send_ code r w).2.
Proof.
  intros Hp [] Hc Hd. assert (Hq : allowed p (WsSend.Native (WsSend.close code (default [] r))) = Some Done).
  { destruct p; try done; exfalso; [by rewrite g_done0 in Hc|apply proj2 in g_left0; rewrite g_left0 in Hd; done]. }
  destruct (emit_steps _ (set_closed w) p Done Hp Hq) as (x & w2 & Hx & Ho & _ & Hf).
  unfold close_now, sbind at 1, supdate at 1. unfold sbind at 1. rewrite Hx. destruct x as [[]|e].
  - exists Done. split; [done|]. cbn. rewrite Ho. split; cbn; try done. split; [congruence|done].
  - exists p. split; [done|]. cbn [snd]. rewrite Ho. by split.
Qed.

Lemma tracks_close code r : keeps tracks (close ch send_ code r).
Proof.
  intros w Hw. unfold close. destruct (_closed (obj w) || _disconnected (obj w)) eqn:E; [by apply closed_tracks|].
  apply orb_false_elim in E as [Hc Hd]. destruct (_accepted (obj w)) eqn:Ha; cbn [negb].
  { destruct Hw as (p & Hp & Hg). by apply (close_now_tracks code r w p). }
  destruct (consume_tracks w Hw (or_introl Hd)) as [H1 (Ha1 & Hc1 & He1)]. unfold sbind at 1.
  destruct (_consume_connect ch w) as [[[]|e] w1]; [|done]. cbn [snd] in *.
  destruct (_disconnected (obj w1)) eqn:Hd1; [by apply closed_tracks|]. destruct H1 as (p & Hp & Hg).
  apply (close_now_tracks code r w1 p Hp Hg); [congruence|done].
Qed.

Lemma tracks_data b : WsSend.kind b = WsSend.SEND -> keeps tracks (do! _check_sendable in emit send_ (WsSend.Native b)).
Proof.
  intros Hb w Hw. unfold sbind, _check_sendable. destruct (_accepted (obj w)) eqn:Ha; [|done]. cbn [negb].
  destruct (_disconnected (obj w)) eqn:Hd; [done|]. destruct (_closed (obj w)) eqn:Hc; [done|].
  destruct Hw as (p & Hp & []).
  assert (p = Open) as ->.
  { destruct p; [specialize (g_connecting0 eq_refl)|done|specialize (g_done0 eq_refl)|apply proj2 in g_left0; specialize (g_left0 eq_refl)]; congruence. }
  destruct (emit_steps (WsSend.Native b) w Open Open Hp) as (x & w2 & Hx & Ho & _ & Hf); [unfold allowed; cbn; by rewrite Hb|].
  rewrite Hx. exists Open. split; [by destruct x|]. cbn [snd]. rewrite Ho. by split.
Qed.

Lemma tracks_receive_loop fuel : forall w, tracks w -> _disconnected (obj w) = false -> _accepted (obj w) = true -> tracks (receive_loop ch fuel w).2.
Proof.
  induction fuel as [|fuel IH]; intros w Hw Hd Ha; [done|]. cbn [receive_loop]. unfold sbind, on_chan.
  destruct (receive_event ch (chan w)) as [[e|e] r]; [|done]. destruct e as [|[s|] [b|]|c reason|]; try done; try by apply IH.
  apply (gone_tracks _ _ (set_chan r w)); [done|done|by right].
Qed.

Lemma tracks_receive fuel : keeps tracks (receive ch fuel).
Proof.
  intros w Hw. unfold receive. destruct (_disconnected (obj w)) eqn:Hd; [done|]. destruct (_accepted (obj w)) eqn:Ha; [|done]. cbn [negb].
  destruct (is_native ch); [|by apply tracks_receive_loop]. unfold scatch, on_chan.
  destruct (next_message ch (chan w)) as [[m|e] r]; [done|]. destruct e; try done.
  apply (gone_tracks _ _ (set_chan r w)); [done|done|by right].
Qed.

Lemma drive_tracks steps fuel handler seen w : tracks w -> tracks (drive ch send_ dumps loads steps fuel handler seen w).
Proof.
  apply keeps_drive. intros c. apply keeps_perform; intros; [apply tracks_accept|apply tracks_close|apply tracks_receive| |]; by apply tracks_data.
Qed.

(** The mark says exactly whether a close has gone out. *)
Definition is_close (h : happening) : bool :=
  match h with Sent b => match kind_of b with Some WsSend.CLOSE => true | _ => false end | _ => false end.
Definition marked (was : bool) (w : world) : Prop := handshake_closed (conn_ws w) = was || existsb is_close (trace w).

Lemma marked_happens was h w : marked was w -> is_close h = false -> marked was (happens h w).
Proof. unfold marked. cbn. intros -> Hh. by rewrite existsb_app, orb_assoc; cbn; rewrite Hh, !orb_false_r. Qed.

Lemma marked_consume was : keeps (marked was) (_consume_connect ch).
Proof.
  intros w Hw. unfold _consume_connect. destruct (_connect_seen (obj w)); [done|].
  set (w1 := set_ws _ (set_seen w)). assert (Hw1 : marked was w1) by (unfold marked, w1 in *; cbn; rewrite <- Hw; by destruct (conn_ws w)).
  destruct (is_native ch).
  - unfold scatch, on_chan. destruct (await_connect ch (chan w1)) as [[[]|e] r]; [done|]. destruct e; try done. by apply marked_happens.
  - unfold sbind, on_chan. destruct (receive_event ch (chan w1)) as [[e|e] r]; [|done]. destruct e; try done. by apply marked_happens.
Qed.

Lemma marked_emit was b : kind_of b <> Some WsSend.CLOSE -> keeps (marked was) (emit send_ b).
Proof.
  intros Hb w Hw. unfold emit. destruct (send_ b (sink w)) as [x s]. cbn [snd]. apply marked_happens; [done|].
  destruct x; [|done]. cbn. by destruct (kind_of b) as [[]|].
Qed.

Lemma marked_accept was sp hs : keeps (marked was) (accept ch send_ sp hs).
Proof.
  intros w Hw. unfold accept. destruct (_accepted_elsewhere (obj w)); [by destruct sp, hs|].
  destruct (_accepted (obj w)); [done|]. destruct (_closed (obj w)); [done|].
  apply (ws_keeps_bind (marked was)); [apply marked_consume| |done]. intros [] w1 H1. destruct (_disconnected (obj w1)); [done|].
  apply (ws_keeps_bind (marked was)); [by apply marked_emit| |done]. intros [] w2 H2. unfold sbind, supdate. cbn [snd].
  unfold marked in *. cbn. rewrite <- H2. by destruct (conn_ws w2).
Qed.

Lemma marked_close_now was code r : keeps (marked was) (close_now send_ code r).
Proof.
  intros w Hw. unfold close_now, sbind at 1, supdate at 1. unfold sbind at 1, emit.
  destruct (send_ _ (sink (set_closed w))) as [[[]|e] s].
  - unfold marked. cbn. rewrite existsb_app. cbn. rewrite !orb_true_r. by destruct (conn_ws w).
  - cbn [snd]. by apply marked_happens.
Qed.

Lemma marked_close was code r : keeps (marked was) (close ch send_ code r).
Proof.
  intros w Hw. unfold close. destruct (_closed (obj w) || _disconnected (obj w)); [done|].
  destruct (_accepted (obj w)); cbn [negb]; [by apply marked_close_now|].
  apply (ws_keeps_bind (marked was)); [apply marked_consume| |done]. intros [] w1 H1. destruct (_disconnected (obj w1)); [done|].
  by apply marked_close_now.
Qed.

Lemma marked_data was b : WsSend.kind b = WsSend.SEND -> keeps (marked was) (do! _check_sendable in emit send_ (WsSend.Native b)).
Proof.
  intros Hb. apply ws_keeps_bind; [intros w Hw; unfold _check_sendable; by repeat case_match|]. intros []. apply marked_emit. cbn. by rewrite Hb.
Qed.

Lemma marked_receive_loop was fuel : keeps (marked was) (receive_loop ch fuel).
Proof.
  induction fuel as [|fuel IH]; [apply ws_keeps_raise|]. cbn [receive_loop]. apply ws_keeps_bind.
  - intros w Hw. unfold on_chan. by destruct (receive_event ch (chan w)).
  - intros [|[s|] [b|]|c reason|]; try apply ws_keeps_ret; try apply IH. apply ws_keeps_bind; [|intros; apply keeps_disconnect].
    intros w Hw. by apply marked_happens.
Qed.

Lemma marked_receive was fuel : keeps (marked was) (receive ch fuel).
Proof.
  intros w Hw. unfold receive. destruct (_disconnected (obj w)); [done|]. destruct (_accepted (obj w)); [|done]. cbn [negb].
  destruct (is_native ch); [|by apply marked_receive_loop]. unfold scatch, on_chan.
  destruct (next_message ch (chan w)) as [[m|e] r]; [done|]. destruct e; try done. by apply (marked_happens was _ (set_chan r w)).
Qed.

Lemma drive_marked was steps fuel handler seen w :
  marked was w -> marked was (drive ch send_ dumps loads steps fuel handler seen w).
Proof.
  apply keeps_drive. intros c. apply keeps_perform; intros; [apply marked_accept|apply marked_close|apply marked_receive| |]; by apply marked_data.
Qed.

(** A close in the trace is what the phase says. *)
Lemma follow_closed l p : follow start l = Some p -> start <> Done -> start <> Left ->
  match p with Done => existsb is_close l = true | Left => True | _ => existsb is_close l = false end.
Proof.
  intros H H1 H2. revert p H. induction l as [|h l IH] using rev_ind; intros p H.
  - injection H as <-. by destruct start.
  - rewrite follow_snoc in H. destruct (follow start l) as [q|]; [|done]. specialize (IH q eq_refl). rewrite existsb_app. cbn [existsb].
    destruct h as [b|b|]; cbn [advance is_close] in *.
    + unfold allowed in H. destruct q; destruct (kind_of b) as [[]|]; try done; injection H as <-; rewrite ?IH; done.
    + destruct (allowed q b); [|done]. injection H as <-. destruct q; rewrite ?IH; done.
    + by destruct q; simplify_eq.
Qed.

End Conforms.

(** C16: a handler cannot break the protocol of the send channel.  Whatever the
    handler calls, in whatever order, reacting to every answer and exception as
    it likes; whatever the receive channel yields and whichever messages the
    send channel refuses: what is sent is an accept, then messages, then at
    most one close — or a close alone — nothing is sent before the handshake is
    answered other than its answer, and nothing once the peer is known to be
    gone. *)
Theorem ws_object_conforms {R S J} (ch : channel R) (send_ : WsSend.ws_body -> smonad S unit) dumps loads
    steps fuel (handler : list (result (@answer J)) -> option call) (r : R) (s : S) (b : option bag) :
  let w := drive ch send_ dumps loads steps fuel handler [] (mkWorld r s b (new_object b) []) in
  exists p, follow (if handshake_accepted b then Open else Connecting) (trace w) = Some p /\ agree p (obj w).
Proof.
  cbv zeta. apply drive_tracks. exists (if handshake_accepted b then Open else Connecting). split; [done|].
  unfold new_object. destruct (handshake_accepted b) eqn:E; split; cbn; try done.
Qed.
(** ** The middleware *)

Section Middleware.
Context {R S J : Type} (ch : channel R) (send_ : WsSend.ws_body -> smonad S unit).
Context (dumps : J -> result pystr) (loads : pystr -> result J).
Abbreviation world := (@world R S).

Definition _accept : WsSend.ws_body := WsSend.Dict (WsSend.WS_ACCEPT None None).
Definition _close : WsSend.ws_body := WsSend.Dict (WsSend.WS_CLOSE None None).

(** [websocket(conn, receive, send, call_next)] *)
Definition websocket (call_next : smonad world unit) : smonad world unit :=
  let! msg := on_chan (receive_event ch) in
  match msg with
  | InConnect =>
      do! emit send_ _accept in
      do! supdate (fun w => set_ws (mark_handshake_accepted (conn_ws w)) w) in
      do! call_next in
      fun w =>
        if handshake_closed (conn_ws w) then (Ok tt, w)
        else (do! emit send_ _close in supdate (fun w => set_ws (mark_handshake_closed (conn_ws w)) w)) w
  | _ => sraise ValueError
  end.

(** A handler that takes the object, behind the middleware: it is built when it
    is called, and may end in an exception. *)
Definition object_handler (steps fuel : nat) (handler : list (result answer) -> option call) (ending : result unit) : smonad world unit :=
  fun w => (ending, drive ch send_ dumps loads steps fuel handler [] (set_obj (new_object (conn_ws w)) w)).

(** A raw handler: it sends what it likes, and leaves no mark. *)
Fixpoint raw_handler (l : list WsSend.ws_body) : smonad world unit :=
  match l with [] => sret tt | b :: l => do! emit send_ b in raw_handler l end.

(** The middleware and a handler of the object keep the protocol together.
    As long as the peer is not known to be gone, what both send is one accept,
    messages and at most one close; and when the handler returns and the channel
    takes what it is given, the close is there, once, whoever sent it. *)
Theorem ws_middleware_conforms steps fuel handler ending (r : R) (s : S) (b : option bag) (o : WebSocket) :
  handshake_closed b = false ->
  let '(x, w) := websocket (object_handler steps fuel handler ending) (mkWorld r s b o []) in
  _disconnected (obj w) = false ->
  exists p, follow Connecting (trace w) = Some p /\ (x = Ok tt -> p = Done).
Proof.
  intros Hb. unfold websocket, sbind at 1, on_chan. cbn [chan]. destruct (receive_event ch r) as [[[]|e] r1]; try by exists Connecting.
  set (w1 := set_chan r1 _). destruct (emit_steps send_ Connecting _accept w1 Connecting Open eq_refl eq_refl) as (x & w2 & Hx & Ho & Hws & Hf).
  unfold sbind at 1. rewrite Hx. destruct x as [[]|e]; [|by intros _; exists Connecting].
  unfold sbind at 1, supdate at 1. unfold sbind at 1, object_handler. cbn [conn_ws set_ws].
  set (w3 := set_obj _ _). set (w4 := drive _ _ _ _ _ _ _ _ _).
  assert (Hb2 : conn_ws w2 = b) by exact Hws.
  assert (Ht : tracks Connecting w4).
  { apply drive_tracks. exists Open. split; [exact Hf|]. split; try done; cbn; auto. }
  assert (Hm : marked false w4).
  { apply drive_marked. unfold marked, w3. cbn [conn_ws set_obj trace set_ws].
    rewrite (follow_closed Connecting (trace w2) Open Hf) by done. rewrite Hb2. by destruct b. }
  destruct Ht as (p & Hp & [Hl _ _ _ _ _]). pose proof (follow_closed Connecting (trace w4) p Hp) as Hfc. unfold marked in Hm. cbn in Hm.
  destruct ending as [[]|e]; [|intros _; by exists p].
  destruct (handshake_closed (conn_ws w4)) eqn:Hcl.
  - intros Hd. exists p. split; [done|]. intros _. destruct p; [|..|by rewrite (proj2 Hl eq_refl) in Hd]; [|..|done]; by rewrite Hfc in Hm.
  - assert (Hq : p = Left \/ allowed p _close = Some Done).
    { destruct p; [by right|by right| |by left]. by rewrite Hfc in Hm. }
    unfold sbind. destruct Hq as [->|Hq].
    + unfold emit. destruct (send_ _close (sink w4)) as [x s']. destruct x; cbn; by rewrite (proj2 Hl eq_refl).
    + destruct (emit_steps send_ Connecting _close w4 p Done Hp Hq) as (x & w5 & Hx5 & Ho5 & _ & Hf5). rewrite Hx5.
      destruct x as [[]|e]; intros _; [by exists Done|]. exists p. by split.
Qed.

End Middleware.

(** ** Samples *)

(** A channel that yields the events of a list. *)
Definition listed : channel (list in_event) :=
  mkChannel false (sret tt) (sraise RuntimeError)
    (fun l => match l with e :: l => (Ok e, l) | [] => (Ok (InDisconnect None None), []) end).

(** A send channel that refuses nothing. *)
Definition takes (b : WsSend.ws_body) : smonad unit unit := sret tt.
Definition no_json (x : unit) : result pystr := Raise TypeError.
Definition no_parse (s : pystr) : result unit := Raise ValueError.

(** Accepts, echoes what it is sent, and closes when the peer is gone. *)
Definition echo (seen : list (result (@answer unit))) : option (@call unit) :=
  match last seen with
  | None => Some (Accept None None)
  | Some (Ok (AMessage (WsRecipient.Text s))) => Some (SendText s)
  | Some (Ok (AMessage (WsRecipient.Binary b))) => Some (SendBytes b)
  | Some (Ok AStop) => if (4 <? length seen)%nat then Some (Close 1000 None) else None
  | Some (Ok _) => if (10 <? length seen)%nat then None else Some Next
  | Some (Raise _) => None
  end.

(** Answers one message and closes. *)
Definition answer_once (seen : list (result (@answer unit))) : option (@call unit) :=
  nth_error [Accept None None; Receive; SendText (lit "ok"); Close 1001 None; SendText (lit "late")] (length seen).

Definition once_run : result unit * world :=
  websocket listed takes (object_handler listed takes no_json no_parse 9 9 answer_once (Ok tt))
    (mkWorld [InConnect; InReceive (Some (lit "hi")) None] tt None (new_object None) []).

Lemma ws_middleware_conforms_witness :
  exists p, follow Connecting (trace once_run.2) = Some p /\ p = Done /\
    trace once_run.2 = [Sent _accept; Sent (WsSend.Native (WsSend.text_message (lit "ok"))); Sent (WsSend.Native (WsSend.close 1001 []))].
Proof.
  pose proof (ws_middleware_conforms listed takes no_json no_parse 9 9 answer_once (Ok tt)
    [InConnect; InReceive (Some (lit "hi")) None] tt None (new_object None) eq_refl) as H.
  unfold once_run. destruct (websocket _ _ _ _) as [x w] eqn:E. vm_compute in E. injection E as <- <-. cbn [fst snd].
  destruct (H eq_refl) as (p & Hp & Hdone). exists p. split; [exact Hp|]. split; [exact (Hdone eq_refl)|reflexivity].
Defined.

(** When the peer has gone, the middleware still sends a close. *)
Lemma middleware_closes_after_peer :
  let '(x, w) := websocket listed takes (object_handler listed takes no_json no_parse 9 9 echo (Ok tt))
    (mkWorld [InConnect; InDisconnect (Some (Some 1001)) None] tt None (new_object None) []) in
  x = Ok tt /\ trace w = [Sent _accept; Gone; Sent _close] /\ follow Connecting (trace w) = None.
Proof. by vm_compute. Qed.

(** A raw handler that closes leaves no mark, and the middleware closes again. *)
Lemma raw_close_twice :
  let '(x, w) := websocket listed takes (raw_handler takes [_close]) (mkWorld [InConnect] tt None (new_object None) []) in
  x = Ok tt /\ trace w = [Sent _accept; Sent _close; Sent _close] /\ follow Connecting (trace w) = None.
Proof. by vm_compute. Qed.

End WsHandler.
