(* ===== verification/WsActor.v ===== *)
(** * The WebSocket upgrade and its actor
      (blackbull/server/http1_actor.py, blackbull/server/websocket_actor.py)

    The checks of an upgrade request, the answer left for the actor to send, the
    two channels the actor gives the application and the octets that reach the
    transport: the HTTP sender of the answer and the WebSocket sender write to
    the same one, which is [wire] of the latter.  SHA-1 and zlib are parameters.
    The watchdog, the connection id and the access log are left out. *)

From Stdlib Require Import ZArith Lia.
From stdpp Require Import base tactics numbers option strings sets list.
From S2P Require Import Prelude PyLib PyText PyBytes RateWindow Reader HttpHeaders Http1Parse Http1Sender WsCodec WsRecipient Deflate WsSend Request WsHandler.

Module WsActor.

(** ** [base64.b64decode(l)], not strict: octets outside the alphabet are
    skipped, and a full padding ends the data. *)
Fixpoint a2b_base64 (quad left pads : Z) (l : bytes) : result bytes :=
  match l with
  | [] => if quad =? 0 then Ok [] else Raise ValueError
  | c :: l =>
      if c =? b64_pad then
        if (2 <=? quad) && (4 <=? quad + (pads + 1)) then Ok [] else a2b_base64 quad left (if 2 <=? quad then pads + 1 else pads) l
      else
        match b64_val c with
        | None => a2b_base64 quad left pads l
        | Some v =>
            if quad =? 0 then a2b_base64 1 v 0 l
            else if quad =? 1 then rmap (cons (left * 4 + v / 16)) (a2b_base64 2 (v mod 16) 0 l)
            else if quad =? 2 then rmap (cons (left * 16 + v / 4)) (a2b_base64 3 (v mod 4) 0 l)
            else rmap (cons (left * 64 + v)) (a2b_base64 0 0 0 l)
        end
  end.

Definition b64decode (l : bytes) : result bytes := a2b_base64 0 0 0 l.

Lemma b64_char_not_pad i : 0 <= i < 64 -> (b64_char i =? b64_pad) = false.
Proof.
  intros Hi. assert (H : forallb (fun i => negb (b64_char i =? b64_pad)) (seqZ 0 64) = true) by (vm_compute; reflexivity).
  rewrite forallb_forall in H. specialize (H i). rewrite <- list_elem_of_In, elem_of_seqZ in H.
  by apply negb_true_iff, H; lia.
Qed.

Lemma a2b_char q left pads i l : 0 <= i < 64 -> a2b_base64 q left pads (b64_char i :: l) =
  if q =? 0 then a2b_base64 1 i 0 l
  else if q =? 1 then rmap (cons (left * 4 + i / 16)) (a2b_base64 2 (i mod 16) 0 l)
  else if q =? 2 then rmap (cons (left * 16 + i / 4)) (a2b_base64 3 (i mod 4) 0 l)
  else rmap (cons (left * 64 + i)) (a2b_base64 0 0 0 l).
Proof. intros Hi. cbn [a2b_base64]. by rewrite b64_char_not_pad, b64_val_char. Qed.

Lemma b64_lenient_aux n l : (length l <= n)%nat -> bytes_ok l -> b64decode (b64encode l) = Ok l.
Proof.
  unfold b64decode. revert l. induction n as [|n IH]; intros l Hn Hl; [destruct l; [done|simpl in Hn; lia]|].
  destruct l as [|a [|b [|c r]]]; [done|..];
    repeat match goal with H : bytes_ok (_ :: _) |- _ => apply bytes_ok_cons in H as [? H] end; unfold is_byte in *; simpl in Hn;
    cbn [b64encode app]; rewrite !a2b_char by divmod; cbn [Z.eqb Pos.eqb]; rewrite ?a2b_char by divmod; cbn [Z.eqb Pos.eqb].
  - change (a2b_base64 2 _ 0 [b64_pad; b64_pad]) with (Ok (@nil Z)). cbn [rmap rbind]. repeat f_equal; divmod.
  - change (a2b_base64 3 _ 0 [b64_pad]) with (Ok (@nil Z)). cbn [rmap rbind]. repeat f_equal; divmod.
  - rewrite IH by (done || lia). cbn [rmap rbind]. repeat f_equal; divmod.
Qed.

(** ** The upgrade *)

Definition _WS_GUID : bytes := lit "258EAFA5-E914-47DA-95CA-C5AB0DC85B11".

Section Upgrade.
Context (sha1 : bytes -> bytes) (http_date : bytes).

(** What the handshake leaves in the connection's bag: the deferred answer, as
    what it closes over, the subprotocol found, the parameters of compression. *)
Record upgrade : Type := mkUpgrade {
  send_101 : option (bytes * option bytes);
  auto_subprotocol : option pystr;
  deflate : option Deflate.DeflateParams
}.

Definition http_send (status : Z) (hs : list Http1Parse.field) : smonad Http1Sender.t unit :=
  Http1Sender.__call__ http_date (Http1Sender.SendBytes [] status hs).

(** [bool(key) and len(b64decode(key)) == 16] *)
Definition valid_key (key : bytes) : bool :=
  negb (bool_decide (key = [])) && match b64decode key with Ok k => zlen k =? 16 | Raise _ => false end.

Definition accept_key (key : bytes) : bytes := b64encode (sha1 (key ++ _WS_GUID)).

(** A name in [app.available_ws_protocols]. *)
Inductive proto : Type := PStr (s : pystr) | PBytes (b : bytes).
Definition proto_name (p : proto) : pystr := match p with PStr s => s | PBytes b => utf8_replace b end.

(** [next((p for p in client_protos if p in available), None)] *)
Fixpoint first_in (available l : list pystr) : option pystr :=
  match l with [] => None | p :: l => if bool_decide (p ∈ available) then Some p else first_in available l end.

(** The upgrade, or [None] when a 400 has been sent. *)
Definition _do_ws_handshake (headers : HttpHeaders.t) (available : list proto) (ws_permessage_deflate : bool)
    : smonad Http1Sender.t (option upgrade) :=
  if Http1Parse._declares_content headers then
    do! http_send 400 [(lit "content-type", lit "text/plain")] in sret None
  else
    let key := strip WHITESPACE (HttpHeaders.get (lit "sec-websocket-key") [] headers) in
    if negb (valid_key key) then do! http_send 400 [(lit "content-type", lit "text/plain")] in sret None
    else if negb (bool_decide (HttpHeaders.get (lit "sec-websocket-version") [] headers = lit "13")) then
      do! http_send 400 [(lit "sec-websocket-version", lit "13")] in sret None
    else
      let auto := first_in (proto_name <$> available) (Request.subprotocols headers) in
      let negotiated :=
        if ws_permessage_deflate then
          let offer := HttpHeaders.get (lit "sec-websocket-extensions") [] headers in
          Deflate.negotiate (if bool_decide (offer = []) then None else Some offer)
        else None in
      sret (Some (mkUpgrade (Some (accept_key key, snd <$> negotiated)) auto (fst <$> negotiated))).

(** The fields of the 101. *)
Definition answer_fields (key : bytes) (sp extensions : option bytes) : list Http1Parse.field :=
  [(lit "upgrade", lit "websocket"); (lit "connection", lit "upgrade"); (lit "sec-websocket-accept", key)]
  ++ match sp with Some sp => [(lit "sec-websocket-protocol", sp)] | None => [] end
  ++ match extensions with Some e => [(lit "sec-websocket-extensions", e)] | None => [] end.

(** [if subprotocol: ...encode()] *)
Definition encoded (subprotocol : option pystr) : result (option bytes) :=
  match subprotocol with None | Some [] => Ok None | Some s => rmap Some (utf8_encode s) end.

Definition _send_101 (answer : bytes * option bytes) (subprotocol : option pystr) : smonad Http1Sender.t unit :=
  let! sp := slift (encoded subprotocol) in http_send 101 (answer_fields answer.1 sp answer.2).

(** ** The actor *)

Section Actor.
Context {C D : Type} (compressobj : Z -> result C) (zdeflate : bytes -> C -> bytes * C).
Context (decompressobj : Z -> D) (inflate : bytes -> option Z -> D -> result (bytes * bytes) * D).
Context {R : Type} `{!ByteReader R}.
Context (monotonic : nat -> Z) (write_fails : nat -> bool) (urandom : nat -> bytes) (cfg : WsRecipient.settings).

(** The send side; [connected] are the [websocket_connected] events. *)
Record out : Type := mkOut {
  http : Http1Sender.t;
  wss : @WsSend.WebSocketSender C;
  up : upgrade;
  connected : list (option pystr)
}.

(** The HTTP sender on the transport they share. *)
Definition on_http (m : smonad Http1Sender.t unit) : smonad out unit := fun o =>
  let s := wss o in
  let '(x, h) := m (Http1Sender.set_wire (WsSend.wire s) (WsSend._faults s) (http o)) in
  (x, mkOut h (WsSend.mkSender (WsSend._compressor s) (WsSend._closed s) (Http1Sender.wire h) (Http1Sender._faults h)) (up o) (connected o)).

Definition on_ws (m : smonad (@WsSend.WebSocketSender C) unit) : smonad out unit := fun o =>
  let '(x, s) := m (wss o) in (x, mkOut (http o) s (up o) (connected o)).

Definition is_accept (b : WsSend.ws_body) : bool := match WsHandler.kind_of b with Some WsSend.ACCEPT => true | _ => false end.
Definition offered (b : WsSend.ws_body) : option pystr :=
  match b with
  | WsSend.Native m => WsSend.subprotocol m
  | WsSend.Dict (WsSend.WS_ACCEPT sp _) => sp
  | _ => None
  end.

Definition pop_101 (o : out) : out := mkOut (http o) (wss o) (mkUpgrade None (auto_subprotocol (up o)) (deflate (up o))) (connected o).
Definition pop_auto (o : out) : out := mkOut (http o) (wss o) (mkUpgrade (send_101 (up o)) None (deflate (up o))) (connected o).

(** The deferred answer goes out on the accept. *)
Definition fire (sp : option pystr) : smonad out unit := fun o =>
  match send_101 (up o) with
  | None => (Ok tt, o)
  | Some answer =>
      let o := pop_101 o in
      match sp with
      | None | Some [] => on_http (_send_101 answer (auto_subprotocol (up o))) (pop_auto o)
      | Some _ => on_http (_send_101 answer sp) o
      end
  end.

Definition _send (b : WsSend.ws_body) : smonad out unit :=
  do! (if is_accept b then
         do! fire (offered b) in
         supdate (fun o => mkOut (http o) (wss o) (up o) (connected o ++ [offered b]))
       else sret tt) in
  on_ws (WsSend.__call__ compressobj zdeflate b).

(** The receive channel the object is given: [await_connect] and
    [next_message] of the recipient, and the recipient itself. *)
Definition await_connect : smonad (@WsRecipient.t R D) unit := fun r =>
  if negb (WsRecipient._connect_sent r) then (Ok tt, WsRecipient.set_connect_sent r)
  else if WsRecipient._terminal_delivered r || WsRecipient._read_finished r
  then (Raise (WebSocketDisconnect (default WsRecipient.ABNORMAL (WsRecipient._terminal_code r)) None), r)
  else (Ok tt, r).

Definition next_message (fuel : nat) : smonad (@WsRecipient.t R D) WsRecipient.message :=
  let! m := WsRecipient.next_message decompressobj inflate monotonic write_fails urandom cfg fuel in
  match m with inl m => sret m | inr code => sraise (WebSocketDisconnect code None) end.

Definition as_event (e : WsRecipient.event) : WsHandler.in_event :=
  match e with
  | WsRecipient.Connect => WsHandler.InConnect
  | WsRecipient.Receive (WsRecipient.Text s) => WsHandler.InReceive (Some s) None
  | WsRecipient.Receive (WsRecipient.Binary b) => WsHandler.InReceive None (Some b)
  | WsRecipient.Disconnect code => WsHandler.InDisconnect (Some (Some code)) None
  end.

Definition recipient (fuel : nat) : WsHandler.channel (@WsRecipient.t R D) :=
  WsHandler.mkChannel true await_connect (next_message fuel)
    (let! e := WsRecipient.__call__ decompressobj inflate monotonic write_fails urandom cfg fuel in sret (as_event e)).

(** [WebSocketActor.__init__]: the two codecs of the connection. *)
Definition inflater (p : option Deflate.DeflateParams) : option (@WsRecipient.InboundDecompressor D) :=
  (fun p => WsRecipient.new_decompressor decompressobj (Deflate.client_max_window_bits p) (Deflate.client_no_context_takeover p)) <$> p.
Definition deflater (p : option Deflate.DeflateParams) : result (option (@Deflate.OutboundCompressor C)) :=
  match p with
  | None => Ok None
  | Some p => rmap Some (Deflate.new_compressor compressobj (Deflate.server_max_window_bits p) (Deflate.server_no_context_takeover p))
  end.

Abbreviation world := (@WsHandler.world (@WsRecipient.t R D) out).

Definition new_actor (u : upgrade) (h : Http1Sender.t) (x : R) (meter : RateWindow.t) : result world :=
  rmap (fun z =>
    let s := WsSend.mkSender z false (Http1Sender.wire h) (Http1Sender._faults h) in
    let marks := Some WsHandler.empty_bag in
    WsHandler.mkWorld (WsRecipient.__init__ cfg x meter (inflater (deflate u))) (mkOut h s u []) marks (WsHandler.new_object marks) [])
    (deflater (deflate u)).

(** [run]: the events it ends in; the application's outcome is [x]. *)
Inductive lifecycle : Type := OnError (e : exn) | OnDisconnected (code : Z) | WriterClosed.

Definition run (app : smonad world unit) (w : world) : list lifecycle * world :=
  let '(x, w) := app w in
  let failed := match x with Ok _ => [] | Raise e => [OnError e] end in
  (failed ++ [OnDisconnected (default WsRecipient.ABNORMAL (WsRecipient._terminal_code (WsHandler.chan w))); WriterClosed], w).

(** [_handle_upgrade]: [None] when the handshake was refused. *)
Definition _handle_upgrade (headers : HttpHeaders.t) (available : list proto) (ws_permessage_deflate : bool)
    (app : smonad world unit) (x : R) (meter : RateWindow.t) (h : Http1Sender.t) : result (option (list lifecycle * world)) * Http1Sender.t :=
  match _do_ws_handshake headers available ws_permessage_deflate h with
  | (Ok (Some u), h) =>
      (rmap (fun w => Some (run app w)) (new_actor u h x meter), h)
  | (Ok None, h) => (Ok None, h)
  | (Raise e, h) => (Raise e, h)
  end.

(** ** A scripted handler *)

(** A handler that makes the calls of a list whatever the answers. *)
Definition script {J} (cs : list (@WsHandler.call J)) (seen : list (result (@WsHandler.answer J))) : option WsHandler.call := cs !! length seen.

Section Scripts.
Context {J : Type} (dumps : J -> result pystr) (loads : pystr -> result J) (fuel : nat).
Abbreviation perform := (WsHandler.perform (recipient fuel) _send dumps loads fuel).

Fixpoint performs (cs : list WsHandler.call) (w : world) : world :=
  match cs with [] => w | c :: cs => performs cs (perform c w).2 end.

Lemma performs_app cs1 cs2 w : performs (cs1 ++ cs2) w = performs cs2 (performs cs1 w).
Proof. revert w. induction cs1 as [|c cs1 IH]; intros w; [done|]. apply IH. Qed.

Lemma drive_script done_ rest seen steps w : length seen = length done_ -> (length rest <= steps)%nat ->
  WsHandler.drive (recipient fuel) _send dumps loads steps fuel (script (done_ ++ rest)) seen w = performs rest w.
Proof.
  revert done_ seen steps w. induction rest as [|c rest IH]; intros done_ seen steps w Hs Hn.
  - rewrite app_nil_r. destruct steps; [done|]. cbn. unfold script. by rewrite Hs, lookup_ge_None_2.
  - destruct steps as [|steps]; [cbn in Hn; lia|]. cbn [WsHandler.drive]. unfold script at 1. rewrite Hs, list_lookup_middle by done.
    cbn [performs]. destruct (perform c w) as [x w1]. cbn [snd].
    change (c :: rest) with ([c] ++ rest). rewrite app_assoc. apply IH; [rewrite !length_app, Hs; done|cbn in Hn; lia].
Qed.

Lemma drive_whole cs steps w : (length cs <= steps)%nat ->
  WsHandler.drive (recipient fuel) _send dumps loads steps fuel (script cs) [] w = performs cs w.
Proof. exact (drive_script [] cs [] steps w eq_refl). Qed.

(** The handshake is over and nobody has left. *)
Definition live (w : world) : Prop :=
  let o := WsHandler.obj w in WsHandler._accepted o = true /\ WsHandler._disconnected o = false /\ WsHandler._closed o = false.

Definition say (m : WsRecipient.message) : @WsHandler.call J :=
  match m with WsRecipient.Text s => WsHandler.SendText s | WsRecipient.Binary b => WsHandler.SendBytes b end.

Lemma say_live m w s : live w -> WsSend.__call__ compressobj zdeflate (WsSend.native m) (wss (WsHandler.sink w)) = (Ok tt, s) ->
  live (perform (say m) w).2 /\ wss (WsHandler.sink (perform (say m) w).2) = s.
Proof.
  intros (Ha & Hd & Hc) Hs.
  assert (Hp : (perform (say m) w).2 = (WsHandler.emit _send (WsSend.native m) w).2).
  { destruct m; cbn [say WsHandler.perform]; unfold WsHandler.send_text, WsHandler.send_bytes, WsHandler._check_sendable, sbind;
      rewrite Ha, Hd, Hc; cbn [negb WsSend.native]; by destruct (WsHandler.emit _ _ w) as [[]]. }
  rewrite Hp. unfold WsHandler.emit, _send, sbind, on_ws. destruct m; cbn in Hs |- *; unfold sret; rewrite Hs; by split.
Qed.

Lemma says_live ms w s : live w -> WsSend.sends compressobj zdeflate (WsSend.native <$> ms) (wss (WsHandler.sink w)) = (Ok tt, s) ->
  live (performs (say <$> ms) w) /\ wss (WsHandler.sink (performs (say <$> ms) w)) = s.
Proof.
  revert w. induction ms as [|m ms IH]; intros w Hw Hs; [by injection Hs as <-|]. cbn [fmap list_fmap WsSend.sends performs] in *.
  unfold sbind in Hs. destruct (WsSend.__call__ _ _ _ _) as [[[]|e] s1] eqn:E; [|done].
  destruct (say_live m w s1 Hw E) as [Hl Hs1]. apply IH; [done|]. by rewrite Hs1.
Qed.

Lemma close_live c why w s : live w ->
  WsSend.__call__ compressobj zdeflate (WsSend.Native (WsSend.close c (default [] why))) (wss (WsHandler.sink w)) = (Ok tt, s) ->
  wss (WsHandler.sink (perform (WsHandler.Close c why) w).2) = s.
Proof.
  intros (Ha & Hd & Hc) Hs. cbn [WsHandler.perform]. unfold WsHandler.close. unfold sbind at 1. rewrite Hc, Hd, Ha. cbn [orb negb].
  unfold WsHandler.close_now, WsHandler.emit, _send, sbind, supdate, on_ws. cbn in Hs |- *. unfold sret. rewrite Hs. done.
Qed.

(** The octets of the 101. *)
Definition head (u : upgrade) (sp : option bytes) : bytes :=
  match send_101 u with
  | Some answer => Http1Sender._render_start 101
      (Http1Sender._ensure_date_header http_date (HttpHeaders.__init__ (answer_fields answer.1 sp answer.2)))
  | None => []
  end.

(** The subprotocol answered: the handler's, or the one the upgrade found. *)
Definition chosen (u : upgrade) (sp : option pystr) : option pystr := match sp with None | Some [] => auto_subprotocol u | _ => sp end.

(** A sender of the upgrade's: fresh, on a transport that works. *)
Definition unused (h : Http1Sender.t) : Prop :=
  Http1Sender._closed h = false /\ Http1Sender._chunked h = false /\ Http1Sender._head_mode h = false /\
  Http1Sender._completed h = false /\ Forall (fun b => b = false) (Http1Sender._faults h).

Lemma send_101_head answer sp spb h : unused h -> encoded sp = Ok spb ->
  exists h', _send_101 answer sp h = (Ok tt, h') /\
    Http1Sender.wire h' = Http1Sender.wire h ++ Http1Sender._render_start 101
      (Http1Sender._ensure_date_header http_date (HttpHeaders.__init__ (answer_fields answer.1 spb answer.2))) /\
    Forall (fun b => b = false) (Http1Sender._faults h').
Proof.
  intros (Hc & Hk & Hm & Hd & Hf) He. unfold _send_101, sbind, slift. rewrite He. unfold http_send, Http1Sender.__call__.
  rewrite Hd. unfold sbind, Http1Sender._flush. change (Http1Sender._is_informational 101) with true.
  unfold Http1Sender._ensure_framing_headers. change (Http1Sender._is_informational 101) with true. cbv beta iota.
  rewrite Hm, Hk. cbn [bool_decide]. unfold Http1Sender._write, supdate, Http1Sender._guarded_write. rewrite Hc.
  eexists. split; [reflexivity|]. destruct (Http1Sender._faults h) as [|[] fs] eqn:E; [by split| |].
  - by inversion Hf.
  - split; [done|]. cbn. by apply Forall_cons in Hf as [_ Hf].
Qed.

Lemma accept_live u h x meter w0 sp spb : new_actor u h x meter = Ok w0 -> unused h -> is_Some (send_101 u) ->
  encoded (chosen u sp) = Ok spb ->
  let w := (perform (WsHandler.Accept sp None) w0).2 in
  live w /\ WsSend.wire (wss (WsHandler.sink w)) = Http1Sender.wire h ++ head u spb /\ WsSend.sound (wss (WsHandler.sink w)) /\
  deflater (deflate u) = Ok (WsSend._compressor (wss (WsHandler.sink w))).
Proof.
  intros Hw Hh [answer Ha] He. unfold new_actor in Hw. apply rbind_Ok in Hw as (z & Hz & [= <-]).
  set (h0 := Http1Sender.set_wire (Http1Sender.wire h) (Http1Sender._faults h) h).
  assert (Hfire : exists h', fire sp (mkOut h (WsSend.mkSender z false (Http1Sender.wire h) (Http1Sender._faults h)) u []) =
      (Ok tt, mkOut h' (WsSend.mkSender z false (Http1Sender.wire h') (Http1Sender._faults h')) (mkUpgrade None
        (match sp with None | Some [] => None | _ => auto_subprotocol u end) (deflate u)) []) /\
    Http1Sender.wire h' = Http1Sender.wire h ++ head u spb /\ Forall (fun b => b = false) (Http1Sender._faults h')).
  { destruct (send_101_head answer (chosen u sp) spb h0 Hh He) as (h' & Hs & Hwire & Hf). exists h'.
    unfold head. rewrite Ha. split; [|by split]. unfold fire. cbn [up send_101]. rewrite Ha.
    unfold chosen in Hs. destruct sp as [[|c sp]|]; unfold on_http, pop_101, pop_auto;
      cbn [wss WsSend.wire WsSend._faults http up auto_subprotocol connected deflate WsSend._compressor WsSend._closed send_101]; fold h0; by rewrite Hs. }
  destruct Hfire as (h' & Hf & Hwire & Hfaults). cbv zeta. cbn [WsHandler.perform]. unfold sbind at 1. unfold WsHandler.accept.
  cbn [WsHandler.obj WsHandler._accepted_elsewhere WsHandler.new_object WsHandler.handshake_accepted WsHandler.empty_bag WsHandler._ACCEPTED
    WsHandler._accepted WsHandler._closed].
  unfold sbind at 1, WsHandler._consume_connect. cbn -[fire WsSend.__call__].
  unfold sbind, WsHandler.emit, _send, sbind. cbn -[fire]. unfold sbind. rewrite Hf. cbn.
  split_and!; try done.
Qed.

(** C15: a WebSocket conversation, end to end.  After an upgrade, a handler
    accepts, sends any messages and closes: the transport carries the 101 with
    the key, the subprotocol and the extensions of the negotiation, and then
    frames from which the recipient of a client — with the inflater that was
    negotiated — is handed exactly those messages, in order, and the close with
    the handler's code. *)
Theorem ws_end_to_end (synced : C -> D -> Prop)
    (in_step : forall p c d bound, synced c d -> bytes_ok p -> match bound with Some b => zlen p < b | None => True end ->
      exists out d', (zdeflate p c).1 = out ++ WsRecipient._DEFLATE_TAIL /\ bytes_ok out /\
        inflate (out ++ WsRecipient._DEFLATE_TAIL) bound d = (Ok (p, []), d') /\ synced (zdeflate p c).2 d')
    (anew : forall w c, compressobj w = Ok c -> synced c (decompressobj w))
    {Y} `{!ByteReader Y} clock fails keys (ccfg : WsRecipient.settings) u h x meter w0 sp spb ms c why steps :
  WsRecipient._require_masked ccfg = false -> 125 <= WsRecipient._max_frame_payload ccfg ->
  new_actor u h x meter = Ok w0 -> unused h -> is_Some (send_101 u) -> encoded (chosen u sp) = Ok spb ->
  Forall (WsSend.message_ok ccfg) ms -> WsRecipient._is_valid_close_code c = true ->
  Forall (WsSend.fits_frame ccfg) (WsSend.payloads compressobj zdeflate ms (wss (WsHandler.sink w0))) ->
  (length ms + 2 <= steps)%nat ->
  let z := (fun p => WsRecipient.new_decompressor decompressobj (Deflate.server_max_window_bits p) (Deflate.server_no_context_takeover p)) <$> deflate u in
  let cs := [WsHandler.Accept sp None] ++ (say <$> ms) ++ [WsHandler.Close c why] in
  let w := WsHandler.drive (recipient fuel) _send dumps loads steps fuel (script cs) [] w0 in
  exists sent, WsSend.wire (wss (WsHandler.sink w)) = Http1Sender.wire h ++ head u spb ++ sent /\
    forall (y : Y) rest cfuel cmeter, delivers y (sent ++ rest) -> bytes_ok (sent ++ rest) -> (length (sent ++ rest) < cfuel)%nat ->
      RateWindow.room 1 cmeter ->
      exists r, WsRecipient._read_loop decompressobj inflate clock fails keys ccfg cfuel (WsRecipient.__init__ ccfg y cmeter z) = (Ok tt, r) /\
        WsRecipient._pending r = (WsRecipient.Msg <$> ms) ++ [WsRecipient.WS_CLOSED] /\ WsRecipient._terminal_code r = Some c.
Proof.
  intros Hclient Hcap Hw0 Hh Ha He Hms Hc Hfit Hsteps. cbv zeta.
  rewrite drive_whole by (rewrite !length_app, length_fmap; cbn; lia).
  destruct (accept_live u h x meter w0 sp spb Hw0 Hh Ha He) as (Hlive & Hwire & Hsound & Hz).
  set (w1 := (perform (WsHandler.Accept sp None) w0).2) in *. set (s1 := wss (WsHandler.sink w1)) in *.
  set (z := _ <$> deflate u).
  assert (Hp : WsSend.paired compressobj decompressobj synced (WsSend._compressor s1) z).
  { unfold z, deflater in *. destruct (deflate u) as [p|]; [|injection Hz as <-; done].
    apply rbind_Ok in Hz as (k & Hk & [= <-]). apply rbind_Ok in Hk as (c0 & Hc0 & [= <-]).
    split; [by apply anew|]. split; [done|]. intros _. exists c0. split; [done|]. by apply anew. }
  assert (Hcomp : WsSend._compressor s1 = WsSend._compressor (wss (WsHandler.sink w0))).
  { unfold new_actor in Hw0. apply rbind_Ok in Hw0 as (k & Hk & [= <-]). cbn. congruence. }
  destruct (WsSend.talk_heard compressobj zdeflate decompressobj inflate synced in_step clock fails keys ccfg Hclient Hcap
    ms c (default [] why) s1 z Hsound Hp Hms) as (s' & sent & Hs' & Hw' & Hheard); [|done|].
  { by rewrite (WsSend.payloads_compressor compressobj zdeflate ms (wss (WsHandler.sink w0)) s1 Hcomp). }
  exists sent. split; [|exact Hheard].
  rewrite (performs_app [_]). change (performs [WsHandler.Accept sp None] w0) with w1. rewrite performs_app.
  destruct (WsSend.sends_app_inv compressobj zdeflate _ _ _ _ Hs') as (s2 & E & Hs2).
  destruct (says_live ms w1 s2 Hlive E) as [Hl2 Hw2]. cbn [WsSend.sends] in Hs2. unfold sbind in Hs2.
  destruct (WsSend.__call__ compressobj zdeflate _ s2) as [[[]|e] s3] eqn:E3; [|done]. injection Hs2 as <-.
  change (performs [?k] ?w) with (perform k w).2. rewrite (close_live c why _ s3 Hl2); [by rewrite app_assoc, <- Hwire|by rewrite Hw2].
Qed.

End Scripts.
End Actor.
End Upgrade.

(** ** A sample connection *)

Definition sample_sha1 (l : bytes) : bytes := take 20 l.
Definition sample_date : bytes := lit "Mon, 01 Jan 2024 00:00:00 GMT".
Definition sample_request : HttpHeaders.t := HttpHeaders.from_lowered
  [(lit "host", lit "h"); (lit "sec-websocket-key", b64encode (lit "0123456789abcdef")); (lit "sec-websocket-version", lit "13");
   (lit "sec-websocket-protocol", lit "soap, chat"); (lit "sec-websocket-extensions", lit "permessage-deflate; server_no_context_takeover")].
Definition sample_upgrade : upgrade :=
  mkUpgrade (Some (accept_key sample_sha1 (b64encode (lit "0123456789abcdef")), Some (lit "permessage-deflate; server_no_context_takeover")))
    (Some (lit "chat")) (Some (Deflate.mkParams true false 15 15)).
Definition sample_http : Http1Sender.t := Http1Sender.__init__ [].

Lemma sample_handshake :
  _do_ws_handshake sample_sha1 sample_date sample_request [PBytes (lit "chat")] true sample_http = (Ok (Some sample_upgrade), sample_http).
Proof. vm_compute. reflexivity. Qed.

Definition sample_start : result (@WsHandler.world (@WsRecipient.t wire unit) (@out unit)) :=
  new_actor WsSend.sample_compressobj WsRecipient.Sample.decompressobj (WsRecipient.Sample.server 0) sample_upgrade sample_http
    (mkWire [] []) WsRecipient.Sample.meter.

(** The octets sent, and the recipient of the client that reads them, some of
    them later. *)
Definition sample_octets (w : @WsHandler.world (@WsRecipient.t wire unit) (@out unit)) : bytes := WsSend.wire (wss (WsHandler.sink w)).

Lemma ws_end_to_end_witness :
  exists w0 sent r, sample_start = Ok w0 /\
    sample_octets (WsHandler.drive (recipient WsRecipient.Sample.decompressobj WsRecipient.Sample.inflate WsRecipient.Sample.monotonic
      WsRecipient.Sample.works WsRecipient.Sample.urandom (WsRecipient.Sample.server 0) 9)
      (_send sample_date WsSend.sample_compressobj WsSend.sample_deflate) WsHandler.no_json WsHandler.no_parse 9 9
      (script ([WsHandler.Accept None None] ++ (say <$> WsSend.sample_messages) ++ [WsHandler.Close 1001 None])) [] w0)
      = head sample_date sample_upgrade (Some (lit "chat")) ++ sent /\
    WsRecipient._pending r = (WsRecipient.Msg <$> WsSend.sample_messages) ++ [WsRecipient.WS_CLOSED] /\
    WsRecipient._read_loop WsRecipient.Sample.decompressobj WsRecipient.Sample.inflate WsRecipient.Sample.monotonic WsRecipient.Sample.works
      WsRecipient.Sample.urandom WsSend.sample_client (S (length sent))
      (WsRecipient.__init__ WsSend.sample_client (mkWire (take 3 sent) (drop 3 sent)) WsRecipient.Sample.meter
        (Some (WsRecipient.new_decompressor WsRecipient.Sample.decompressobj 15 true))) = (Ok tt, r).
Proof.
  destruct sample_start as [w0|e] eqn:E; [|vm_compute in E; congruence].
  destruct (ws_end_to_end sample_date WsSend.sample_compressobj WsSend.sample_deflate WsRecipient.Sample.decompressobj
    WsRecipient.Sample.inflate WsRecipient.Sample.monotonic WsRecipient.Sample.works WsRecipient.Sample.urandom (WsRecipient.Sample.server 0)
    WsHandler.no_json WsHandler.no_parse 9 (fun _ _ => True) (fun p c d b H Hb Hz => WsSend.sample_in_step p c d b H Hb Hz) (fun _ _ _ => I)
    (Y := wire) WsRecipient.Sample.monotonic WsRecipient.Sample.works WsRecipient.Sample.urandom WsSend.sample_client sample_upgrade sample_http
    (mkWire [] []) WsRecipient.Sample.meter w0 None (Some (lit "chat")) WsSend.sample_messages 1001 None 9)
    as (sent & Hsent & Hread); try reflexivity; try exact E.
  - vm_compute. congruence.
  - repeat split. constructor.
  - eexists. reflexivity.
  - repeat constructor; try (apply (bool_decide_unpack _); vm_compute; exact I); right; vm_compute; congruence.
  - vm_compute in E. injection E as <-. apply (bool_decide_unpack _). vm_compute. exact I.
  - vm_compute. lia.
  - assert (Hval : sent = [193; 5; 104; 105; 226; 130; 172; 194; 2; 0; 255; 136; 2; 3; 233]).
    { apply (app_inv_head (head sample_date sample_upgrade (Some (lit "chat")))). refine (eq_trans (eq_sym Hsent) _).
      vm_compute in E. injection E as <-. vm_compute. reflexivity. }
    destruct (Hread (mkWire (take 3 sent) (drop 3 sent)) [] (S (length sent)) WsRecipient.Sample.meter) as (r & Hr & Hp & _).
    + rewrite Hval. reflexivity.
    + rewrite Hval. apply (bool_decide_unpack _). vm_compute. exact I.
    + rewrite app_nil_r. lia.
    + right. vm_compute. split; congruence.
    + exists w0, sent, r. split; [reflexivity|]. split; [exact Hsent|]. split; [exact Hp|exact Hr].
Defined.


(** What the sample handler's calls put on the transport. *)
Definition sample_run (cs : list (@WsHandler.call unit)) : option (bytes * list (option pystr)) :=
  match sample_start with
  | Ok w =>
      let w := WsHandler.drive (recipient WsRecipient.Sample.decompressobj WsRecipient.Sample.inflate WsRecipient.Sample.monotonic
        WsRecipient.Sample.works WsRecipient.Sample.urandom (WsRecipient.Sample.server 0) 9)
        (_send sample_date WsSend.sample_compressobj WsSend.sample_deflate) WsHandler.no_json WsHandler.no_parse 9 9 (script cs) [] w in
      Some (sample_octets w, connected (WsHandler.sink w))
  | Raise _ => None
  end.

(** Closing before accepting answers the upgrade with a CLOSE frame: no HTTP
    response is sent. *)
Lemma rejection_has_no_response : sample_run [WsHandler.Close 1008 None] = Some ([136; 2; 3; 240], []).
Proof. vm_compute. reflexivity. Qed.

(** The headers given to [accept] are not in the 101, and the reason given to
    [close] is not in the CLOSE frame. *)
Lemma accept_headers_lost :
  sample_run [WsHandler.Accept None (Some [(lit "set-cookie", lit "a=1")])] = sample_run [WsHandler.Accept None None] /\
  sample_run [WsHandler.Accept None None; WsHandler.Close 1000 (Some (lit "bye"))] =
  sample_run [WsHandler.Accept None None; WsHandler.Close 1000 None].
Proof. split; vm_compute; reflexivity. Qed.

(** [websocket_connected] does not name the subprotocol the 101 announces. *)
Lemma automatic_subprotocol_unreported :
  sample_run [WsHandler.Accept None None] = Some (head sample_date sample_upgrade (Some (lit "chat")), [None]).
Proof. vm_compute. reflexivity. Qed.

End WsActor.
