(* ===== verification/WsClient.v ===== *)
(** * The WebSocket client (blackbull/client/websocket.py)

    The upgrade request, the checks of the answer and the frames a session
    sends.  The nonce is what [os.urandom(16)] returned; reading the response
    from the transport, the drain of [close] and the context managers are left
    out. *)

From Stdlib Require Import ZArith Lia.
From stdpp Require Import base tactics numbers option strings sets list.
From S2P Require Import Prelude PyLib PyText PyBytes HttpHeaders Http1Parse Http1Sender WsCodec WsRecipient Deflate Request WsHandler WsActor.
Import WsCodec.

Module WsClient.

Section Client.
Context (sha1 : bytes -> bytes) (http_date : bytes).

(** ** The handshake *)

Definition expected_accept (nonce : bytes) : bytes := b64encode (sha1 (b64encode nonce ++ WsActor._WS_GUID)).

Definition request_headers (authority nonce : bytes) (offered : list bytes) : list Http1Parse.field :=
  [(lit "host", authority); (lit "upgrade", lit "websocket"); (lit "connection", lit "upgrade");
   (lit "sec-websocket-key", b64encode nonce); (lit "sec-websocket-version", lit "13")]
  ++ match offered with [] => [] | _ => [(lit "sec-websocket-protocol", join (lit ", ") offered)] end.

(** The checks of the response: the subprotocol, or [HandshakeError]. *)
Definition check_response (status : Z) (headers : HttpHeaders.t) (nonce : bytes) (offered : list bytes) : result (option bytes) :=
  if negb (status =? 101) then Raise PlainException
  else if negb (bool_decide (HttpHeaders.get (lit "sec-websocket-accept") [] headers = expected_accept nonce)) then Raise PlainException
  else
    let chosen := match HttpHeaders.get (lit "sec-websocket-protocol") [] headers with [] => None | c => Some c end in
    match chosen, offered with
    | Some c, _ :: _ => if bool_decide (c ∈ offered) then Ok chosen else Raise PlainException
    | _, _ => Ok chosen
    end.

(** ** The session *)

(** [_send_frame]: masked with the key [os.urandom(4)] returned. *)
Definition _send_frame (key payload : bytes) (opcode : Z) : result bytes := encode_frame key payload opcode true false.
Definition send_text (key : bytes) (s : pystr) : result bytes := let* b := utf8_encode s in _send_frame key b TEXT.
Definition send_bytes (key b : bytes) : result bytes := _send_frame key b BINARY.
Definition ping (key b : bytes) : result bytes := _send_frame key b PING.
Definition close_frame (key : bytes) (code : Z) : result bytes := let* b := to_bytes 2 code in _send_frame key b CLOSE.

(** The frames of a session are those [WsRecipient.wire_frame] describes. *)
Lemma masked_frame key p op : 0 <= op < 16 -> zlen p < 2 ^ 64 -> _send_frame key p op = Ok (WsRecipient.wire_frame op true false key p).
Proof.
  intros Hop Hp. unfold _send_frame. rewrite encode_frame_layout by done. unfold WsRecipient.wire_frame, WsRecipient.peer_frame, first_byte, WsRecipient.opening.
  by rewrite Z.lor_0_r.
Qed.

(** ** Agreement *)

Lemma utf8_replace_ascii l : Forall ascii_char l -> utf8_replace l = l.
Proof.
  induction 1 as [|c l Hc Hl IH]; [done|]. cbn [utf8_replace]. unfold ascii_char in Hc. rewrite (proj2 (Z.ltb_lt _ _)) by lia. by rewrite IH.
Qed.

(** A subprotocol's name: octets of ASCII, no comma, no space at an end. *)
Definition name_ok (p : bytes) : Prop := p <> [] /\ Forall ascii_char p /\ (44 ∉ p) /\ strip WHITESPACE p = p.

Lemma split_offered p l : Forall name_ok (p :: l) ->
  split_on 44 (join (lit ", ") (p :: l)) = p :: (cons 32 <$> l).
Proof.
  revert p. induction l as [|q l IH]; intros p Hl.
  - apply Forall_cons in Hl as [(_ & _ & Hp & _) _]. by apply split_on_absent.
  - apply Forall_cons in Hl as [(_ & _ & Hp & _) Hl]. change (join (lit ", ") (p :: q :: l)) with (p ++ 44 :: 32 :: join (lit ", ") (q :: l)).
    rewrite split_on_app by done. f_equal. specialize (IH q Hl). cbn [split_on Z.eqb Pos.eqb]. by rewrite IH.
Qed.

(** The octets of the answer's fields as text, and what the client makes of
    them. *)
Definition proposed (authority nonce : bytes) (offered : list bytes) : HttpHeaders.t :=
  HttpHeaders.__init__ (request_headers authority nonce offered).

Lemma proposed_key authority nonce offered :
  HttpHeaders.get (lit "sec-websocket-key") [] (proposed authority nonce offered) = b64encode nonce /\
  HttpHeaders.get (lit "sec-websocket-version") [] (proposed authority nonce offered) = lit "13" /\
  HttpHeaders.get (lit "sec-websocket-extensions") [] (proposed authority nonce offered) = [] /\
  Http1Parse._declares_content (proposed authority nonce offered) = false /\
  HttpHeaders.get (lit "sec-websocket-protocol") [] (proposed authority nonce offered) =
    match offered with [] => [] | _ => join (lit ", ") offered end.
Proof. destruct offered; split_and!; reflexivity. Qed.

Lemma subprotocols_offered authority nonce offered : Forall name_ok offered -> Request.subprotocols (proposed authority nonce offered) = offered.
Proof.
  intros Ho. unfold Request.subprotocols. destruct (proposed_key authority nonce offered) as (_ & _ & _ & _ & ->).
  destruct offered as [|p l]; [done|]. destruct (join (lit ", ") (p :: l)) eqn:E.
  - exfalso. pose proof (split_offered p l Ho) as H. rewrite E in H. cbn in H. apply Forall_cons in Ho as [(Hp & _) _]. congruence.
  - rewrite <- E, split_offered by done. cbn [fmap list_fmap].
    assert (H : forall q, name_ok q -> utf8_replace (strip WHITESPACE q) = q) by (intros q (_ & Hq & _ & ->); by apply utf8_replace_ascii).
    apply Forall_cons in Ho as [Hp Hl]. rewrite H by done. f_equal. clear E. induction Hl as [|q l Hq Hl IH]; [done|].
    rewrite !fmap_cons, IH. by rewrite strip_space, H.
Qed.

Lemma first_in_offered available l p : WsActor.first_in available l = Some p -> p ∈ l.
Proof.
  induction l as [|q l IH]; [done|]. cbn. case_bool_decide; [intros [= <-]; set_solver|]. intros Hp%IH. set_solver.
Qed.

(** The answer's fields, as the client finds them. *)
Lemma answer_found key sp :
  let h := Http1Sender._ensure_date_header http_date (HttpHeaders.__init__ (WsActor.answer_fields key sp None)) in
  HttpHeaders.get (lit "sec-websocket-accept") [] h = key /\
  HttpHeaders.get (lit "sec-websocket-protocol") [] h = default [] sp.
Proof. destruct sp; split; reflexivity. Qed.

Lemma strip_b64 l : bytes_ok l -> strip WHITESPACE (b64encode l) = b64encode l.
Proof.
  intros Hl. assert (Hc : forall c, c ∈ b64encode l -> c ∉ WHITESPACE).
  { intros c Hc Hw. pose proof (b64encode_chars l Hl) as H. rewrite Forall_forall in H. specialize (H c Hc).
    assert (Hn : Forall (fun c => b64_val c = None /\ c <> b64_pad) WHITESPACE) by (apply (bool_decide_unpack _); vm_compute; exact I).
    rewrite Forall_forall in Hn. destruct (Hn c Hw) as [Hv Hp]. rewrite Hv in H. by destruct H as [[? ?]|]. }
  apply strip_id; intros c H; apply Hc; [by apply head_Some_elem_of|by apply last_Some_elem_of].
Qed.

(** C17: the two ends of the package agree on the handshake.  Whatever nonce the
    client draws and whichever subprotocols it offers, the server accepts the
    upgrade without writing anything; and when the application accepts, naming
    no subprotocol or one that was offered, the client takes the answer: the key
    it computes is the key it is sent, and the subprotocol is the one named, or
    the first offered that the application registered. *)
Theorem handshake_agreed authority nonce offered available deflate h :
  bytes_ok nonce -> zlen nonce = 16 -> Forall name_ok offered ->
  exists u answer, WsActor._do_ws_handshake sha1 http_date (proposed authority nonce offered) available deflate h = (Ok (Some u), h) /\
    WsActor.send_101 u = Some answer /\ WsActor.auto_subprotocol u = WsActor.first_in (WsActor.proto_name <$> available) offered /\
    forall sp, match sp with Some p => p ∈ offered | None => True end ->
      exists spb, WsActor.encoded (WsActor.chosen u sp) = Ok spb /\ spb = WsActor.chosen u sp /\
        check_response 101 (Http1Sender._ensure_date_header http_date (HttpHeaders.__init__ (WsActor.answer_fields answer.1 spb answer.2))) nonce offered
          = Ok spb.
Proof.
  intros Hn H16 Ho. destruct (proposed_key authority nonce offered) as (Hk & Hv & He & Hc & _).
  set (auto := WsActor.first_in (WsActor.proto_name <$> available) offered).
  exists (WsActor.mkUpgrade (Some (WsActor.accept_key sha1 (b64encode nonce), None)) auto None), (WsActor.accept_key sha1 (b64encode nonce), None).
  assert (Hstrip : strip WHITESPACE (b64encode nonce) = b64encode nonce).
  { by apply strip_b64. }
  split_and!; [|done|done|].
  - unfold WsActor._do_ws_handshake. rewrite Hc, Hk, Hv, He, Hstrip, subprotocols_offered by done.
    assert (Hkey : WsActor.valid_key (b64encode nonce) = true).
    { unfold WsActor.valid_key. rewrite (WsActor.b64_lenient_aux (length nonce)) by done. rewrite H16. rewrite bool_decide_false; [done|].
      destruct nonce as [|a [|b [|c l]]]; done. }
    rewrite Hkey. cbn [negb]. by destruct deflate.
  - intros sp Hsp. set (c := WsActor.chosen _ sp). 
    assert (Hin : match c with Some p => p ∈ offered | None => True end).
    { unfold c, WsActor.chosen. cbn [WsActor.auto_subprotocol]. destruct sp as [[|x p]|]; try done;
        destruct auto as [p|] eqn:Ea; try done; by eapply first_in_offered. }
    exists c. assert (Henc : WsActor.encoded c = Ok c).
    { destruct c as [[|x p]|]; [|..|done].
      - rewrite Forall_forall in Ho. by destruct (Ho _ Hin).
      - unfold WsActor.encoded. rewrite utf8_encode_ascii; [done|]. rewrite Forall_forall in Ho. by destruct (Ho _ Hin) as (_ & ? & _). }
    split_and!; try done. unfold check_response. cbn [fst snd negb Z.eqb Pos.eqb].
    destruct (answer_found (WsActor.accept_key sha1 (b64encode nonce)) c) as [Ha Hp]. rewrite Ha, Hp.
    rewrite bool_decide_true by done. cbn [negb]. destruct c as [[|x p]|]; cbn [default from_option id].
    + rewrite Forall_forall in Ho. by destruct (Ho _ Hin).
    + destruct offered as [|q l]; [by apply not_elem_of_nil in Hin|]. by rewrite bool_decide_true.
    + done.
Qed.

End Client.

Lemma handshake_agreed_witness :
  let nonce := lit "0123456789abcdef" in
  let offered := [lit "soap"; lit "chat"] in
  exists u answer, WsActor._do_ws_handshake WsActor.sample_sha1 WsActor.sample_date (proposed (lit "h:80") nonce offered)
      [WsActor.PStr (lit "chat")] true WsActor.sample_http = (Ok (Some u), WsActor.sample_http) /\
    check_response WsActor.sample_sha1 101 (Http1Sender._ensure_date_header WsActor.sample_date
      (HttpHeaders.__init__ (WsActor.answer_fields answer (Some (lit "chat")) None))) nonce offered = Ok (Some (lit "chat")).
Proof.
  intros nonce offered.
  destruct (handshake_agreed WsActor.sample_sha1 WsActor.sample_date (lit "h:80") nonce offered [WsActor.PStr (lit "chat")] true WsActor.sample_http)
    as (u & answer & Hu & Ha & Hauto & Hall).
  - apply (bool_decide_unpack _). vm_compute. exact I.
  - reflexivity.
  - repeat constructor; try (intros H; discriminate H); try (apply (bool_decide_unpack _); vm_compute; exact I).
  - exists u, answer.1. split; [exact Hu|]. assert (E : u = WsActor.mkUpgrade (WsActor.send_101 u) (Some (lit "chat")) (WsActor.deflate u)).
    { destruct u; cbn in Hauto |- *; f_equal; exact Hauto. }
    destruct (Hall None I) as (spb & _ & Hspb & Hc). rewrite E in Hspb. cbn in Hspb. rewrite Hspb in Hc.
    assert (E2 : answer.2 = None).
    { assert (H : (Ok (Some u), WsActor.sample_http) = (Ok (Some (WsActor.mkUpgrade (Some (WsActor.accept_key WsActor.sample_sha1 (b64encode nonce), None))
        (Some (lit "chat")) None)), WsActor.sample_http)) by (rewrite <- Hu; vm_compute; reflexivity).
      injection H as Hu2. rewrite Hu2 in Ha. injection Ha as <-. reflexivity. }
    rewrite E2 in Hc. exact Hc.
Defined.
End WsClient.
