(* ===== verification/Events.v ===== *)
(** * Events and their listeners (blackbull/event.py, blackbull/event_aggregator.py)

    The dispatcher with its three registries, the order in which an event is
    delivered, and the memo of the questions the actors ask on every request.
    Handlers are numbered; what awaiting one does, and what starting a task for
    one does, are parameters.  [drain] and the time limit of [aclose] belong to
    the scheduler and are left out. *)

From Stdlib Require Import ZArith Lia.
From stdpp Require Import base tactics numbers option strings sets list gmap.
From S2P Require Import Prelude PyLib PyText PyBytes HttpHeaders.

Module Events.

(** What a detail holds: the request, a string, octets or [None], a number, the
    fields of the request, an exception or [None]. *)
Inductive detail_value : Type :=
| Conn
| Str (s : pystr)
| OptStr (s : option pystr)
| OptBytes (b : option bytes)
| Num (z : Z)
| Fields (h : HttpHeaders.t)
| Exn (e : option exn).

Record Event : Type := mkEvent { name : pystr; detail : dict pystr detail_value }.

Record EventDispatcher : Type := mkDispatcher {
  _observers : dict pystr (list nat);
  _blocking_observers : dict pystr (list nat);
  _interceptors : dict pystr (list nat);
  generation : Z;
  _registered : gset pystr
}.

Definition __init__ : EventDispatcher := mkDispatcher [] [] [] 0 ∅.

(** [d[name].append(h)] on a [defaultdict(list)]. *)
Definition append_to (d : dict pystr (list nat)) (n : pystr) (h : nat) : dict pystr (list nat) :=
  dset d n (default [] (dget d n) ++ [h]).

Definition handlers (d : dict pystr (list nat)) (n : pystr) : list nat := default [] (dget d n).

Definition on (event_name : pystr) (handler : nat) (blocking : bool) (d : EventDispatcher) : EventDispatcher :=
  if blocking then
    mkDispatcher (_observers d) (append_to (_blocking_observers d) event_name handler) (_interceptors d)
      (generation d + 1) ({[event_name]} ∪ _registered d)
  else
    mkDispatcher (append_to (_observers d) event_name handler) (_blocking_observers d) (_interceptors d)
      (generation d + 1) ({[event_name]} ∪ _registered d).

Definition intercept (event_name : pystr) (handler : nat) (d : EventDispatcher) : EventDispatcher :=
  mkDispatcher (_observers d) (_blocking_observers d) (append_to (_interceptors d) event_name handler)
    (generation d + 1) ({[event_name]} ∪ _registered d).

Definition has_listeners (event_name : pystr) (d : EventDispatcher) : bool := bool_decide (event_name ∈ _registered d).

(** Dispatchers as registrations build them. *)
Inductive dispatched : EventDispatcher -> Prop :=
| dispatched_init : dispatched __init__
| dispatched_on n h b d : dispatched d -> dispatched (on n h b d)
| dispatched_intercept n h d : dispatched d -> dispatched (intercept n h d).

Lemma handlers_append d n m h : handlers (append_to d m h) n = if decide (m = n) then handlers d n ++ [h] else handlers d n.
Proof. unfold handlers, append_to. rewrite dget_dset. by destruct (decide (m = n)) as [->|]. Qed.

(** [has_listeners] is exact: nothing is delivered for a name it denies. *)
Lemma no_listeners d n : dispatched d -> has_listeners n d = false ->
  handlers (_interceptors d) n = [] /\ handlers (_blocking_observers d) n = [] /\ handlers (_observers d) n = [].
Proof.
  intros Hd. unfold has_listeners. rewrite bool_decide_eq_false.
  induction Hd as [|m h b d _ IH|m h d _ IH]; [done|unfold on; destruct b|unfold intercept]; cbn [_interceptors _blocking_observers _observers _registered]; intros Hn;
    rewrite handlers_append, decide_False by set_solver; apply IH; set_solver.
Qed.

(** [except Exception] catches everything but a cancellation. *)
Definition isa_Exception (e : exn) : bool := match e with CancelledError => false | _ => true end.

Section Emit.
Context {S : Type} (invoke : nat -> Event -> smonad S unit) (create_task : nat -> Event -> smonad S unit).

Definition _safe_observe (h : nat) (ev : Event) : smonad S unit :=
  scatch (invoke h ev) (fun e => if isa_Exception e then Some (sret tt) else None).

Fixpoint each (f : nat -> Event -> smonad S unit) (hs : list nat) (ev : Event) : smonad S unit :=
  match hs with [] => sret tt | h :: hs => do! f h ev in each f hs ev end.

Definition emit (d : EventDispatcher) (ev : Event) : smonad S unit :=
  do! each invoke (handlers (_interceptors d) (name ev)) ev in
  do! each _safe_observe (handlers (_blocking_observers d) (name ev)) ev in
  each create_task (handlers (_observers d) (name ev)) ev.

End Emit.

(** ** The memo of [has_listeners] in [EventAggregator] *)

Record memo : Type := mkMemo { cache_gen : Z; cache_val : bool }.

Definition new_memo : memo := mkMemo (-1) false.

(** [has_request_completed_listeners] and its two sisters, which differ in the
    name they ask for. *)
Definition ask (event_name : pystr) (d : EventDispatcher) (m : memo) : memo * bool :=
  let m := if negb (generation d =? cache_gen m) then mkMemo (generation d) (has_listeners event_name d) else m in
  (m, cache_val m).

Record EventAggregator : Type := mkAggregator {
  _ws_msg_cache : memo;
  _req_completed_cache : memo;
  _req_disconnected_cache : memo
}.

Definition new_aggregator : EventAggregator := mkAggregator new_memo new_memo new_memo.

Definition has_websocket_message_listeners (d : EventDispatcher) (a : EventAggregator) : EventAggregator * bool :=
  let '(m, b) := ask (lit "websocket_message") d (_ws_msg_cache a) in
  (mkAggregator m (_req_completed_cache a) (_req_disconnected_cache a), b).

Definition has_request_completed_listeners (d : EventDispatcher) (a : EventAggregator) : EventAggregator * bool :=
  let '(m, b) := ask (lit "request_completed") d (_req_completed_cache a) in
  (mkAggregator (_ws_msg_cache a) m (_req_disconnected_cache a), b).

Definition has_request_disconnected_listeners (d : EventDispatcher) (a : EventAggregator) : EventAggregator * bool :=
  let '(m, b) := ask (lit "request_disconnected") d (_req_disconnected_cache a) in
  (mkAggregator (_ws_msg_cache a) (_req_completed_cache a) m, b).

(** ** The translators: one event each *)

(** What the details take from the request or the connection. *)
Record subject : Type := mkSubject {
  s_client : option pystr;
  s_connection_id : pystr;
  s_method : pystr;
  s_path : pystr;
  s_http_version : pystr
}.

Section Translate.
Context {S : Type} (invoke : nat -> Event -> smonad S unit) (create_task : nat -> Event -> smonad S unit) (d : EventDispatcher).

(** [if not has_listeners(name): return] before the detail is built. *)
Definition guarded (n : pystr) (det : dict pystr detail_value) : smonad S unit :=
  if negb (has_listeners n d) then sret tt else emit invoke create_task d (mkEvent n det).

Definition on_app_startup : smonad S unit := emit invoke create_task d (mkEvent (lit "app_startup") []).
Definition on_app_shutdown : smonad S unit := emit invoke create_task d (mkEvent (lit "app_shutdown") []).

Definition on_request_disconnected (c : subject) : smonad S unit :=
  guarded (lit "request_disconnected")
    [(lit "conn", Conn); (lit "client_ip", Str (default (lit "-") (s_client c))); (lit "method", Str (s_method c));
     (lit "path", Str (s_path c)); (lit "http_version", Str (s_http_version c))].

Definition on_error (e : exn) : smonad S unit :=
  guarded (lit "error") [(lit "conn", Conn); (lit "exception", Exn (Some e))].

Definition on_websocket_connected (c : subject) (subprotocol : option pystr) : smonad S unit :=
  emit invoke create_task d (mkEvent (lit "websocket_connected")
    [(lit "conn", Conn); (lit "connection_id", Str (s_connection_id c)); (lit "client_ip", Str (default [] (s_client c)));
     (lit "path", Str (s_path c)); (lit "subprotocol", OptStr subprotocol)]).

Definition on_websocket_message (text : option pystr) (data : option bytes) (a : EventAggregator) : EventAggregator * smonad S unit :=
  let '(a, heard) := has_websocket_message_listeners d a in
  (a, if negb heard then sret tt
      else emit invoke create_task d (mkEvent (lit "websocket_message") [(lit "conn", Conn); (lit "text", OptStr text); (lit "bytes", OptBytes data)])).

Definition on_websocket_disconnected (c : subject) (code : Z) : smonad S unit :=
  emit invoke create_task d (mkEvent (lit "websocket_disconnected")
    [(lit "conn", Conn); (lit "connection_id", Str (s_connection_id c)); (lit "client_ip", Str (default [] (s_client c)));
     (lit "path", Str (s_path c)); (lit "code", Num code)]).

Definition on_connection_accepted (peername : detail_value) (protocol : pystr) : smonad S unit :=
  guarded (lit "connection_accepted") [(lit "peername", peername); (lit "protocol", Str protocol)].

Definition on_connection_closed (peername : detail_value) (protocol : pystr) (duration_ms : Z) : smonad S unit :=
  guarded (lit "connection_closed") [(lit "peername", peername); (lit "protocol", Str protocol); (lit "duration_ms", Num duration_ms)].

Definition on_message_received (protocol message_type : pystr) (payload_size : Z) : smonad S unit :=
  guarded (lit "message_received") [(lit "protocol", Str protocol); (lit "message_type", Str message_type); (lit "payload_size", Num payload_size)].

Definition on_message_sent (protocol message_type : pystr) (payload_size : Z) : smonad S unit :=
  guarded (lit "message_sent") [(lit "protocol", Str protocol); (lit "message_type", Str message_type); (lit "payload_size", Num payload_size)].

(** The guards save work and nothing else: an event nobody listens to does
    nothing when it is emitted. *)
Lemma guarded_emit n det s : dispatched d -> guarded n det s = emit invoke create_task d (mkEvent n det) s.
Proof.
  intros Hd. unfold guarded. destruct (has_listeners n d) eqn:E; [done|]. unfold emit. cbn [name negb].
  by destruct (no_listeners d n Hd E) as (-> & -> & ->).
Qed.

End Translate.

(** Registrations and questions in any order. *)
Inductive op : Type :=
| On (event_name : pystr) (h : nat) (blocking : bool)
| Intercept (event_name : pystr) (h : nat)
| AskMessage | AskCompleted | AskDisconnected.

Definition state : Type := EventDispatcher * EventAggregator.

Definition perform (o : op) (s : state) : state * option bool :=
  let '(d, a) := s in
  match o with
  | On n h b => ((on n h b d, a), None)
  | Intercept n h => ((intercept n h d, a), None)
  | AskMessage => let '(a, b) := has_websocket_message_listeners d a in ((d, a), Some b)
  | AskCompleted => let '(a, b) := has_request_completed_listeners d a in ((d, a), Some b)
  | AskDisconnected => let '(a, b) := has_request_disconnected_listeners d a in ((d, a), Some b)
  end.

Fixpoint history (os : list op) (s : state) : state * list (option bool) :=
  match os with
  | [] => (s, [])
  | o :: os => let '(s, r) := perform o s in let '(s, rs) := history os s in (s, r :: rs)
  end.

(** The reference: an event has listeners when one was registered for it
    earlier. *)
Definition registers (n : pystr) (o : op) : bool :=
  match o with On m _ _ | Intercept m _ => bool_decide (m = n) | _ => false end.

Fixpoint answers_of (past os : list op) : list (option bool) :=
  match os with
  | [] => []
  | o :: os =>
      (match o with
       | AskMessage => Some (existsb (registers (lit "websocket_message")) past)
       | AskCompleted => Some (existsb (registers (lit "request_completed")) past)
       | AskDisconnected => Some (existsb (registers (lit "request_disconnected")) past)
       | _ => None
       end) :: answers_of (past ++ [o]) os
  end.

(** A memo of the current generation or an older one; of the current one, it
    holds the answer. *)
Definition memo_ok (n : pystr) (d : EventDispatcher) (m : memo) : Prop :=
  cache_gen m <= generation d /\ (cache_gen m = generation d -> cache_val m = has_listeners n d).

Record tracks (past : list op) (s : state) : Prop := mkTracks {
  tr_gen : 0 <= generation s.1;
  tr_listeners : forall n, has_listeners n s.1 = existsb (registers n) past;
  tr_ws : memo_ok (lit "websocket_message") s.1 (_ws_msg_cache s.2);
  tr_completed : memo_ok (lit "request_completed") s.1 (_req_completed_cache s.2);
  tr_disconnected : memo_ok (lit "request_disconnected") s.1 (_req_disconnected_cache s.2)
}.

Lemma ask_ok n d m : memo_ok n d m -> memo_ok n d (ask n d m).1 /\ (ask n d m).2 = has_listeners n d.
Proof.
  intros [Hle Hv]. unfold ask. destruct (generation d =? cache_gen m) eqn:E; cbn.
  - apply Z.eqb_eq in E. by rewrite Hv.
  - split; [|done]. split; cbn; [lia|done].
Qed.

Lemma memo_later n d d' m : generation d < generation d' -> memo_ok n d m -> memo_ok n d' m.
Proof. intros H [Hle _]. split; [lia|]. intros E. lia. Qed.

Lemma listeners_insert (n m : pystr) (s : gset pystr) : bool_decide (n ∈ {[m]} ∪ s) = bool_decide (n ∈ s) || bool_decide (m = n).
Proof. apply eq_true_iff_eq. rewrite orb_true_iff, !bool_decide_eq_true. set_solver. Qed.

Lemma perform_tracks past o s : tracks past s -> tracks (past ++ [o]) (perform o s).1.
Proof.
  intros [Hg Hl Hw Hc Hd]. destruct s as [d a]. cbn [fst snd] in *.
  assert (Hq : forall n, registers n o = false -> has_listeners n d = existsb (registers n) (past ++ [o])).
  { intros n E. rewrite existsb_app, Hl. cbn. by rewrite E, !orb_false_r. }
  assert (Hr : forall d', generation d' = generation d + 1 -> (forall n, has_listeners n d' = has_listeners n d || registers n o) ->
    tracks (past ++ [o]) (d', a)).
  { intros d' Hg' Hl'. split; cbn [fst snd]; [lia| |eapply memo_later; [|done]; lia..].
    intros n. rewrite Hl', Hl, existsb_app. cbn [existsb]. by rewrite orb_false_r. }
  destruct o; cbn [perform].
  - apply Hr; [by unfold on; destruct blocking|]. intros n. unfold has_listeners, on. destruct blocking; apply listeners_insert.
  - apply Hr; [done|]. intros n. apply listeners_insert.
  - unfold has_websocket_message_listeners. pose proof (ask_ok _ _ _ Hw) as [Hm _]. destruct (ask _ _ _) as [m b].
    split; [exact Hg|intros n; by apply Hq|exact Hm|exact Hc|exact Hd].
  - unfold has_request_completed_listeners. pose proof (ask_ok _ _ _ Hc) as [Hm _]. destruct (ask _ _ _) as [m b].
    split; [exact Hg|intros n; by apply Hq|exact Hw|exact Hm|exact Hd].
  - unfold has_request_disconnected_listeners. pose proof (ask_ok _ _ _ Hd) as [Hm _]. destruct (ask _ _ _) as [m b].
    split; [exact Hg|intros n; by apply Hq|exact Hw|exact Hc|exact Hm].
Qed.

Lemma history_answers os past s : tracks past s -> (history os s).2 = answers_of past os.
Proof.
  revert past s. induction os as [|o os IH]; [done|]. intros past s H. cbn [history answers_of].
  pose proof (perform_tracks past o s H) as Hn. pose proof H as [_ Hl Hw Hc Hd].
  specialize (IH (past ++ [o]) (perform o s).1 Hn).
  assert (Hx : (perform o s).2 = match o with
       | AskMessage => Some (existsb (registers (lit "websocket_message")) past)
       | AskCompleted => Some (existsb (registers (lit "request_completed")) past)
       | AskDisconnected => Some (existsb (registers (lit "request_disconnected")) past)
       | _ => None end).
  { destruct s as [d a]. destruct o; try done; rewrite <- Hl; cbn [perform fst snd] in *;
      [unfold has_websocket_message_listeners; pose proof (ask_ok _ _ _ Hw) as [_ <-]
      |unfold has_request_completed_listeners; pose proof (ask_ok _ _ _ Hc) as [_ <-]
      |unfold has_request_disconnected_listeners; pose proof (ask_ok _ _ _ Hd) as [_ <-]]; by destruct (ask _ _ _). }
  rewrite <- Hx, <- IH. destruct (perform o s) as [s' r]. cbn [fst snd]. by destruct (history os s').
Qed.

(** The memo is never stale.  Whatever listeners are registered and whenever
    the actors ask, the answer is whether one was registered for the event
    before. *)
Theorem listeners_memo os : (history os (__init__, new_aggregator)).2 = answers_of [] os.
Proof. apply history_answers. split; [done|done|..]; (split; [cbn; lia|done]). Qed.

End Events.
