(* ===== verification/App.v ===== *)
(** * The application (blackbull/app.py)

    What happens to a request between the protocol actors and the handler: the
    chain of global middlewares, the dispatch by route, the hooks of a route, the
    error handlers, the events around all of it, and the life span.  User code is
    a tree of the steps it may take: it sends, reads and writes its own state and
    that of the request, and a middleware calls what it wraps with a send of its
    own.  [serve_grpc] is [GrpcServe]; here it is one more handler.  The world
    holds what is shared: the router with its cache, the events heard, and the
    events that reached the channel below. *)

From Stdlib Require Import ZArith Lia.
From stdpp Require Import base tactics numbers option strings sets list gmap.
From S2P Require Import Prelude PyLib PyText PyBytes H2Frames HttpHeaders Http1Sender Routing Pipeline Events.

Module App.
Abbreviation converter := Routing.converter.
Abbreviation get_field := HttpHeaders.get.
Import Http1Sender Pipeline.

Abbreviation request := Pipeline.Connection.
Abbreviation field := H2Frames.field.

(** ** Text *)

(** [html.escape(s)] *)
Definition escape_char (c : Z) : pystr :=
  if c =? 38 then lit "&amp;" else if c =? 60 then lit "&lt;" else if c =? 62 then lit "&gt;"
  else if c =? 34 then lit "&quot;" else if c =? 39 then lit "&#x27;" else [c].

Definition escape (s : pystr) : pystr := s ≫= escape_char.

(** [m.upper()] of a method, a token of ASCII. *)
Definition upper (m : pystr) : pystr := (fun c => if (97 <=? c) && (c <=? 122) then c - 32 else c) <$> m.

Section App.
(** The state of the user's code; the values of a path parameter and the compiled
    patterns of the router; the classes of exceptions. *)
Context {U V P C : Type} `{!EqDecision P} `{!EqDecision C}.
Context (convert : converter -> pystr -> option V) (re_match : P -> pystr -> option (dict pystr V)).
Context (mro : C -> list C) (class_of : exn -> C).
(** [type(exc).__name__], [str(exc)] and the formatted traceback. *)
Context (type_name exc_str format_exception : exn -> pystr).
(** [get_settings().env == Environment.DEVELOPMENT] *)
Context (development : bool).
(** The field of the request that [Pipeline] leaves out. *)
Context (http_version : request -> pystr).

(** What the request carries besides its identity: the entries of [conn.state]
    the application knows, the disconnect mark, and the user's own. *)
Record local : Type := mkLocal {
  error_status : option Z;
  error_exception : option exn;
  allowed_methods : option (gset pystr);
  access_log : option (Z * Z * Z);
  _disconnected : bool;
  user : U
}.

Definition set_error (status : Z) (e : option exn) (l : local) : local :=
  mkLocal (Some status) (match e with Some e => Some e | None => error_exception l end) (allowed_methods l) (access_log l) (_disconnected l) (user l).

Definition set_method_error (status : Z) (allowed : gset pystr) (l : local) : local :=
  mkLocal (Some status) (error_exception l) (Some allowed) (access_log l) (_disconnected l) (user l).

(** User code.  [Next] is [await call_next(conn, receive, send)], [NextWith] the
    same with a send of the middleware's own. *)
Inductive prog : Type :=
| Ret (x : result unit)
| Send (e : send_event) (k : result unit -> prog)
| Local (f : local -> local) (k : local -> prog)
| Next (c : request) (k : result unit -> prog)
| NextWith (c : request) (f : send_event -> prog) (k : result unit -> prog).

(** A registered function: what [_inject] and the route hooks see of it. *)
Record function : Type := mkFunction {
  __name__ : pystr;
  fn_body : dict pystr V -> request -> prog;
  _bb_response_headers : option (list field);
  _bb_request_guard : option (request -> result unit)
}.

Abbreviation router := (@Routing.router function V P).

Inductive delivery : Type := Heard (h : nat) (ev : Events.Event) | Started (h : nat) (ev : Events.Event).

Record world : Type := mkWorld {
  loc : local;
  _router : router;
  log : list delivery;
  wire : list send_event;
  faults : list (option exn)   (* what the next sends on the channel raise *)
}.

Definition set_loc (l : local) (w : world) : world := mkWorld l (_router w) (log w) (wire w) (faults w).
Definition set_router (r : router) (w : world) : world := mkWorld (loc w) r (log w) (wire w) (faults w).
Definition hear (d : delivery) (w : world) : world := mkWorld (loc w) (_router w) (log w ++ [d]) (wire w) (faults w).

Definition step : Type := smonad world unit.
Definition sender : Type := send_event -> step.

Definition wire_send : sender := fun e w =>
  match faults w with
  | Some x :: l => (Raise x, mkWorld (loc w) (_router w) (log w) (wire w) l)
  | l => (Ok tt, mkWorld (loc w) (_router w) (log w) (wire w ++ [e]) (tail l))
  end.

(** What a middleware calls. *)
Definition app : Type := request -> sender -> step.

Definition no_next : app := fun _ _ => sraise TypeError.

Fixpoint run (p : prog) (next : app) (send : sender) : step :=
  match p with
  | Ret x => slift x
  | Send e k => fun w => let '(x, w) := send e w in run (k x) next send w
  | Local f k => fun w => let l := f (loc w) in run (k l) next send (set_loc l w)
  | Next c k => fun w => let '(x, w) := next c send w in run (k x) next send w
  | NextWith c f k => fun w => let '(x, w) := next c (fun e => run (f e) no_next send) w in run (k x) next send w
  end.

Definition update (f : local -> local) : step := supdate (fun w => set_loc (f (loc w)) w).

(** ** The send adapters *)

(** [_wrap_send_native] *)
Definition _wrap_send_native (raw_send : sender) : sender := fun e => raw_send (wrap_native_send e).

Fixpoint send_all (send : sender) (es : list send_event) : step :=
  match es with [] => sret tt | e :: es => do! send e in send_all send es end.

Definition _to_asgi_boundary (send : sender) : sender := fun e =>
  match e with SendNative r => send_all send (to_asgi r) | _ => send e end.

Definition inject (extra : list field) (r : NativeResponse) : NativeResponse :=
  mkNative (status r) ((fun hs => hs ++ extra) <$> _header r) (_body r) (more_body r) (trailers r) (expects_trailers r) (file_path r).

Definition _inject_response_headers (raw_send : sender) (extra : list field) : sender := fun e =>
  match e with SendNative r => raw_send (SendNative (inject extra r)) | _ => raw_send e end.

(** ** The default error handler *)

Definition _wants_html (c : request) : bool :=
  let accept := lower (get_field (lit "accept") [] (headers c)) in
  (match find_sub (lit "text/html") accept with Some _ => true | None => false end)
  || (match find_sub (lit "application/xhtml") accept with Some _ => true | None => false end).

Definition title_of (st : Z) : pystr := str_int st ++ [32] ++ default [] (phrase st).

Definition _STYLE : pystr :=
  lit "<style>body{font-family:-apple-system,BlinkMacSystemFont,Segoe UI,sans-serif;margin:2em;color:#222;background:#fafafa}"
  ++ lit "h1{color:#c00;border-bottom:1px solid #ccc;padding-bottom:.3em}"
  ++ lit "pre{background:#fff;border:1px solid #ddd;padding:1em;overflow:auto;font-size:13px;line-height:1.4}"
  ++ lit ".req{color:#666;font-size:13px}</style></head><body>".

Definition error_page (st : Z) (exc : option exn) (tb_text : pystr) (c : request) : pystr :=
  let tb_block := match tb_text with [] => [] | _ => lit "<pre>" ++ escape tb_text ++ lit "</pre>" end in
  let exc_line := match exc with
    | Some e => lit "<p><strong>" ++ escape (type_name e) ++ lit "</strong>: " ++ escape (exc_str e) ++ lit "</p>"
    | None => [] end in
  [60; 33] ++ lit "doctype html><html><head><meta charset=" ++ [34] ++ lit "utf-8" ++ [34; 62]
  ++ lit "<title>" ++ escape (title_of st) ++ lit "</title>" ++ _STYLE
  ++ lit "<h1>" ++ escape (title_of st) ++ lit "</h1>"
  ++ lit "<p class=" ++ [34] ++ lit "req" ++ [34; 62] ++ escape (method c) ++ [32] ++ escape (path c) ++ lit "</p>"
  ++ exc_line ++ tb_block ++ lit "</body></html>".

Definition _render_error_html (st : Z) (exc : option exn) (tb_text : pystr) (c : request) : result bytes :=
  utf8_encode (error_page st exc tb_text c).

Definition diagnosed (e : exn) : bool :=
  match e with Prelude.HTTPException st => Routing.is_client_error st | _ => false end.

(** The fields and the body of the error response. *)
Definition error_response (l : local) (c : request) : result (Z * list field * bytes) :=
  let st := default 500 (error_status l) in
  let allowed := elements (default ∅ (allowed_methods l)) in
  let* allow := match allowed with
                | [] => Ok []
                | _ => let* v := utf8_encode (join (lit ", ") (upper <$> allowed)) in Ok [(lit "allow", v)]
                end in
  let exc := if development then error_exception l else None in
  let tb_text := match exc with Some e => if diagnosed e then [] else format_exception e | None => [] end in
  let* '(body, kind) :=
    if _wants_html c then
      let* b := _render_error_html st exc tb_text c in Ok (b, lit "text/html; charset=utf-8")
    else
      let lines := [title_of st]
        ++ match exc with Some e => [type_name e ++ lit ": " ++ exc_str e] | None => [] end
        ++ match tb_text with [] => [] | _ => [[]; rstrip SPACE tb_text] end in
      let* b := utf8_encode (join [10] lines) in Ok (b, lit "text/plain; charset=utf-8") in
  Ok (st, allow ++ [(lit "content-type", kind); (lit "content-length", str_int (zlen body))], body).

Definition _default_error_handler (c : request) : prog :=
  Local id (fun l =>
    match error_response l c with
    | Raise e => Ret (Raise e)
    | Ok (st, hs, b) => Send (SendNative (complete st hs (Some b))) Ret
    end).

(** ** Dispatch *)

Context (dispatcher : Events.EventDispatcher) (listen : nat -> Events.Event -> local -> result unit * local).
Context (errors : @Routing.ErrorRouter (request -> prog) C).
(** [serve_grpc] with its registry, once [enable_grpc] was called. *)
Context (serve_grpc : option (request -> prog)).

Definition invoke (h : nat) (ev : Events.Event) : step := fun w =>
  let '(x, l) := listen h ev (loc w) in (x, set_loc l (hear (Heard h ev) w)).
Definition create_task (h : nat) (ev : Events.Event) : step := supdate (hear (Started h ev)).

(** [if dispatcher.has_listeners(name): await dispatcher.emit(Event(name, ...))] *)
Definition announce (n : pystr) (detail : dict pystr Events.detail_value) : step :=
  if Events.has_listeners n dispatcher then Events.emit invoke create_task dispatcher (Events.mkEvent n detail) else sret tt.

Definition client_or (d : pystr) (c : request) : pystr := match client c with Some (h, _) => h | None => d end.

Definition received_detail (c : request) : dict pystr Events.detail_value :=
  [(lit "conn", Events.Conn); (lit "client_ip", Events.Str (client_or (lit "-") c)); (lit "method", Events.Str (method c));
   (lit "path", Events.Str (path c)); (lit "http_version", Events.Str (http_version c)); (lit "headers", Events.Fields (headers c))].

Definition handler_detail (c : request) (name : pystr) : dict pystr Events.detail_value :=
  [(lit "conn", Events.Conn); (lit "client_ip", Events.Str (client_or [] c)); (lit "method", Events.Str (method c));
   (lit "path", Events.Str (path c)); (lit "handler", Events.Str name)].

Definition find_route (c : request) (scheme : pystr) : smonad world (@Routing.resolution function V) := fun w =>
  let '(r, x) := Routing.__getitem__ convert re_match (path c, method c, scheme) (_router w) in (x, set_router r w).

(** [handler = self._error_router[key]; if handler is not None: await handler(...)] *)
Definition answer_error (key : @Routing.error_key C) (c : request) (send : sender) : step :=
  let! handler := slift (Routing.error_get mro key errors) in
  match handler with Some h => run (h c) no_next send | None => sret tt end.

(** The name a resolved function has: path parameters wrap it. *)
Definition resolved_name (fn : function) (params : dict pystr V) : pystr :=
  match params with [] => __name__ fn | _ => lit "_inject" end.

(** The [try] around the handler with its [finally]. *)
Definition call_handler (fn : function) (params : dict pystr V) (c : request) (send : sender) : smonad world (option exn) := fun w =>
  let name := resolved_name fn params in
  let '(x, w) := (do! announce (lit "before_handler") (handler_detail c name) in run (fn_body fn params c) no_next send) w in
  let exc_caught := match x with Raise e => if Events.isa_Exception e then Some e else None | Ok _ => None end in
  let '(y, w) := announce (lit "after_handler") (handler_detail c name ++ [(lit "exception", Events.Exn exc_caught)]) w in
  (match y, x with
   | Raise e, _ => Raise e
   | Ok _, Raise e => if Events.isa_Exception e then Ok exc_caught else Raise e
   | Ok _, Ok _ => Ok None
   end, w).

Definition error_status_of (e : exn) : Z := match e with HTTPException st => st | _ => 500 end.

Definition run_route (fn : function) (params : dict pystr V) (c : request) (raw_send : sender) : step :=
  let send := match _bb_response_headers fn with
              | Some hs => _wrap_send_native (_inject_response_headers raw_send hs)
              | None => _wrap_send_native raw_send
              end in
  match default (fun _ => Ok tt) (_bb_request_guard fn) c with
  | Raise (HTTPException st) =>
      do! update (set_error st (Some (HTTPException st))) in answer_error (Routing.HTTPStatus st) c send
  | Raise e => sraise e
  | Ok _ =>
      let! exc := call_handler fn params c send in
      match exc with
      | None | Some ClientDisconnected => sret tt
      | Some e => do! update (set_error (error_status_of e) (Some e)) in answer_error (Routing.Exc (class_of e)) c send
      end
  end.

Definition route_request (c : request) (send : sender) : step :=
  let! found := find_route c (lit "http") in
  match found with
  | Routing.MethodNotApplicable allowed =>
      do! update (set_method_error 405 allowed) in answer_error (Routing.HTTPStatus 405) c (_wrap_send_native send)
  | Routing.PathNotRegistered =>
      do! update (set_error 404 None) in answer_error (Routing.HTTPStatus 404) c (_wrap_send_native send)
  | Routing.Found (fn, params) => run_route fn params c send
  end.

Definition _dispatch_http (c : request) (send : sender) : step :=
  let content_type := strip WHITESPACE (get_field (lit "content-type") [] (headers c)) in
  match serve_grpc, startswith content_type (lit "application/grpc") with
  | Some g, true => run (g c) no_next send
  | _, _ => route_request c send
  end.

Definition _dispatch : app := fun c send =>
  if bool_decide (type_ c = lit "websocket") then
    let! found := find_route (mkConn (type_ c) (lit "GET") (scheme c) (path c) (query_string c) (root_path c) (headers c) (client c) (extensions c))
                   (lit "websocket") in
    match found with
    | Routing.Found (fn, params) => run (fn_body fn params c) no_next send
    | _ => sret tt
    end
  else if bool_decide (type_ c = lit "http") then
    do! announce (lit "request_received") (received_detail c) in
    _dispatch_http c send
  else sraise PlainException.

(** ** The global middlewares *)

Definition middleware : Type := request -> prog.

Record BlackBull : Type := mkApp { _global_middlewares : list middleware; _chain : option app }.

Definition new_app : BlackBull := mkApp [] None.

Definition chain_of (mws : list middleware) : app := foldr (fun mw next c send => run (mw c) next send) _dispatch mws.

Definition use (mw : middleware) (a : BlackBull) : BlackBull := mkApp (_global_middlewares a ++ [mw]) None.

Definition _build_chain (a : BlackBull) : BlackBull := mkApp (_global_middlewares a) (Some (chain_of (_global_middlewares a))).

Definition current_chain (a : BlackBull) : BlackBull * app :=
  let a := match _chain a with None => _build_chain a | Some _ => a end in (a, default _dispatch (_chain a)).

(** ** The request, from entry to the terminal events *)

Definition completed_detail (c : request) (l : local) : dict pystr Events.detail_value :=
  let '(st, n, ms) := match access_log l with
                      | Some (st, n, ms) => (Events.Num st, Events.Num n, Events.Num ms)
                      | None => (Events.Str (lit "-"), Events.Num 0, Events.Num 0) end in
  [(lit "conn", Events.Conn); (lit "client_ip", Events.Str (client_or (lit "-") c)); (lit "method", Events.Str (method c));
   (lit "path", Events.Str (path c)); (lit "http_version", Events.Str (http_version c)); (lit "status", st);
   (lit "response_bytes", n); (lit "duration_ms", ms)].

Definition scope_detail (c : request) (err : option exn) : dict pystr Events.detail_value :=
  [(lit "conn", Events.Conn); (lit "type", Events.Str (type_ c)); (lit "client_ip", Events.Str (client_or (lit "-") c));
   (lit "path", Events.Str (path c)); (lit "exception", Events.Exn err)].

Definition emit_completed (want_request_completed : bool) (c : request) : step := fun w =>
  (if want_request_completed && negb (_disconnected (loc w))
   then Events.emit invoke create_task dispatcher (Events.mkEvent (lit "request_completed") (completed_detail c (loc w)))
   else sret tt) w.

Definition scope_exception (x : result unit) (l : local) : option exn :=
  match x with Raise e => Some e | Ok _ => error_exception l end.

Definition emit_scope (c : request) (x : result unit) : step := fun w =>
  announce (lit "scope_completed") (scope_detail c (scope_exception x (loc w))) w.

(** The [finally] of [__call__], after the chain ended with [x]. *)
Definition terminal_events (want_request_completed : bool) (c : request) (x : result unit) : step :=
  do! emit_completed want_request_completed c in emit_scope c x.

(** The [try] of [__call__]. *)
Definition with_terminal_events (want_request_completed : bool) (c : request) (chained : step) : step := fun w =>
  let '(x, w) := chained w in
  let '(y, w) := terminal_events want_request_completed c x w in
  (match y with Raise e => Raise e | Ok _ => x end, w).

Definition serve (chain : app) (c : request) (send : sender) : step :=
  let want := bool_decide (type_ c = lit "http") && Events.has_listeners (lit "request_completed") dispatcher in
  if negb (want || Events.has_listeners (lit "scope_completed") dispatcher) then chain c send
  else with_terminal_events want c (chain c send).

(** [self._asgi] or an entry by a scope puts the conversion on the channel. *)
Definition __call__ (asgi native : bool) (chain : app) (c : request) (send : sender) : step :=
  serve chain c (if asgi || negb native then _to_asgi_boundary send else send).

(** ** The life span *)

Inductive lifespan_event : Type := Startup | Shutdown | OtherLifespan.
Inductive ack : Type := StartupComplete | StartupFailed (message : pystr) | ShutdownComplete | ShutdownFailed (message : pystr).

(** [mw_errors]: what is said of the middlewares without a [call_next]
    parameter; [validate] is [Router.validate]; [outstanding]: what the observer
    tasks that still run do to the state until they are done or cancelled. *)
Context (mw_errors : list pystr) (validate : router -> result unit) (outstanding : local -> local).

Definition hook (n : pystr) : step := Events.emit invoke create_task dispatcher (Events.mkEvent n []).

Definition on_startup_event : smonad world ack := fun w =>
  match mw_errors with
  | _ :: _ => (Ok (StartupFailed (join [10] mw_errors)), w)
  | [] =>
      match validate (_router w) with
      | Raise ConfigurationError => (Ok (StartupFailed (exc_str ConfigurationError)), w)
      | Raise e => (Raise e, w)
      | Ok _ =>
          let '(x, w) := hook (lit "app_startup") (set_router (Routing.freeze (_router w)) w) in
          (match x with
           | Raise e => if Events.isa_Exception e then Ok (StartupFailed (exc_str e)) else Raise e
           | Ok _ => Ok StartupComplete
           end, w)
      end
  end.

(** [EventDispatcher.aclose]: the exceptions of the tasks stay with them. *)
Definition aclose : step := update outstanding.

Definition on_shutdown_event : smonad world ack := fun w =>
  let '(x, w) := (do! hook (lit "app_shutdown") in aclose) w in
  (match x with
   | Raise e => if Events.isa_Exception e then Ok (ShutdownFailed (exc_str e)) else Raise e
   | Ok _ => Ok ShutdownComplete
   end, w).

(** [_handle_lifespan] over the events received: what is sent, and whether the
    handler has returned ([None]: it awaits the next event). *)
Fixpoint _handle_lifespan (es : list lifespan_event) (w : world) : list ack * option (result unit) * world :=
  match es with
  | [] => ([], None, w)
  | OtherLifespan :: es => _handle_lifespan es w
  | Startup :: es =>
      match on_startup_event w with
      | (Raise e, w) => ([], Some (Raise e), w)
      | (Ok StartupComplete, w) => let '(acks, x, w) := _handle_lifespan es w in (StartupComplete :: acks, x, w)
      | (Ok a, w) => ([a], Some (Ok tt), w)
      end
  | Shutdown :: _ =>
      match on_shutdown_event w with
      | (Raise e, w) => ([], Some (Raise e), w)
      | (Ok a, w) => ([a], Some (Ok tt), w)
      end
  end.

(** ** The boundary conversion cannot be seen *)

(** What becomes of an event at the boundary. *)
Definition at_boundary (e : send_event) : list send_event :=
  match e with SendNative r => to_asgi r | _ => [e] end.

(** A response has octets or a file, not both. *)
Definition exclusive (e : send_event) : Prop :=
  match e with SendNative r => _body r = None \/ file_path r = None | _ => True end.

Lemma answers_boundary_event e a : exclusive e -> foldl (fun a e => answer_event e a) a (at_boundary e) = answer_event e a.
Proof.
  destruct e as [| [st hs b more tr et f] | | | | | |]; try done. cbn. intros He. unfold to_asgi, answer_event. cbn.
  destruct hs as [hs|], f as [f|], b as [b|], tr as [tr|]; cbn; destruct He as [He|He]; try done; by destruct a.
Qed.

Lemma answers_boundary es : Forall exclusive es -> answers (es ≫= at_boundary) = answers es.
Proof.
  unfold answers. generalize no_answer. induction es as [|e es IH]; intros a H; [done|]. apply Forall_cons in H as [He H].
  cbn [mbind list_bind]. rewrite foldl_app, answers_boundary_event by done. cbn [foldl]. by apply IH.
Qed.

(** The same world, except that the channel of the second took converted events. *)
Record twin (w1 w2 : world) : Prop := mkTwin {
  tw_loc : loc w2 = loc w1;
  tw_router : _router w2 = _router w1;
  tw_log : log w2 = log w1;
  tw_wire : wire w2 = wire w1 ≫= at_boundary;
  tw_faults : faults w1 = [] /\ faults w2 = []
}.

Definition sim {A} (m1 m2 : smonad world A) : Prop :=
  forall w1 w2, twin w1 w2 -> (m1 w1).1 = (m2 w2).1 /\ twin (m1 w1).2 (m2 w2).2.

Definition sim_sender (s1 s2 : sender) : Prop := forall e, sim (s1 e) (s2 e).
Definition sim_app (a1 a2 : app) : Prop := forall c s1 s2, sim_sender s1 s2 -> sim (a1 c s1) (a2 c s2).

Lemma sim_ret {A} (a : A) : sim (sret a) (sret a).
Proof. by split. Qed.
Lemma sim_lift {A} (m : result A) : sim (slift m) (slift m).
Proof. by split. Qed.

Lemma sim_bind {A B} (m1 m2 : smonad world A) (k1 k2 : A -> smonad world B) :
  sim m1 m2 -> (forall a, sim (k1 a) (k2 a)) -> sim (sbind m1 k1) (sbind m2 k2).
Proof.
  intros Hm Hk w1 w2 Hw. unfold sbind. destruct (Hm w1 w2 Hw) as [He Ht].
  destruct (m1 w1) as [[a|e] v1], (m2 w2) as [[b|e'] v2]; cbn in *; simplify_eq; [by apply Hk|done].
Qed.

(** Continuing with the outcome, whatever it is. *)
Lemma sim_then {A B} (m1 m2 : smonad world A) (k1 k2 : result A -> smonad world B) :
  sim m1 m2 -> (forall x, sim (k1 x) (k2 x)) ->
  sim (fun w => let '(x, w) := m1 w in k1 x w) (fun w => let '(x, w) := m2 w in k2 x w).
Proof.
  intros Hm Hk w1 w2 Hw. destruct (Hm w1 w2 Hw) as [He Ht].
  destruct (m1 w1) as [x v1], (m2 w2) as [y v2]; cbn in *; subst y. by apply Hk.
Qed.

Lemma sim_update f : sim (update f) (update f).
Proof. intros w1 w2 [Hl Hr Hg Hw Hf]. split; [done|]. by split; cbn; rewrite ?Hl. Qed.

Lemma sim_no_next : sim_app no_next no_next.
Proof. by split. Qed.

Lemma sim_run p n1 n2 s1 s2 : sim_app n1 n2 -> sim_sender s1 s2 -> sim (run p n1 s1) (run p n2 s2).
Proof.
  revert n1 n2 s1 s2. induction p as [x|e k IH|f k IH|c k IH|c f IHf k IH]; intros n1 n2 s1 s2 Hn Hs; cbn [run].
  - apply sim_lift.
  - apply (sim_then (s1 e) (s2 e) (fun x => run (k x) n1 s1)); [apply Hs|]. intros x. by apply IH.
  - intros w1 w2 Hw. pose proof (sim_update f w1 w2 Hw) as [_ Ht]. rewrite (tw_loc _ _ Hw).
    unfold update, supdate in Ht. cbn in Ht. rewrite (tw_loc _ _ Hw) in Ht. by apply IH.
  - apply (sim_then (n1 c s1) (n2 c s2) (fun x => run (k x) n1 s1)); [by apply Hn|]. intros x. by apply IH.
  - apply (sim_then (n1 c _) (n2 c _) (fun x => run (k x) n1 s1)); [|intros x; by apply IH].
    apply Hn. intros e. apply IHf; [apply sim_no_next|done].
Qed.

Lemma sim_wrap s1 s2 : sim_sender s1 s2 -> sim_sender (_wrap_send_native s1) (_wrap_send_native s2).
Proof. intros H e. apply H. Qed.

Lemma sim_inject s1 s2 hs : sim_sender s1 s2 -> sim_sender (_inject_response_headers s1 hs) (_inject_response_headers s2 hs).
Proof. intros H e. destruct e; apply H. Qed.

Lemma sim_invoke h ev : sim (invoke h ev) (invoke h ev).
Proof.
  intros w1 w2 [Hl Hr Hg Hw Hf]. unfold invoke. rewrite Hl. destruct (listen h ev (loc w1)) as [x l]. split; [done|].
  by split; cbn; rewrite ?Hg.
Qed.

Lemma sim_task h ev : sim (create_task h ev) (create_task h ev).
Proof. intros w1 w2 [Hl Hr Hg Hw Hf]. split; [done|]. by split; cbn; rewrite ?Hg. Qed.

Lemma sim_each f hs ev : (forall h, sim (f h ev) (f h ev)) -> sim (Events.each f hs ev) (Events.each f hs ev).
Proof. intros H. induction hs as [|h hs IH]; [apply sim_ret|]. cbn [Events.each]. by apply sim_bind. Qed.

Lemma sim_emit ev : sim (Events.emit invoke create_task dispatcher ev) (Events.emit invoke create_task dispatcher ev).
Proof.
  unfold Events.emit. apply sim_bind; [apply sim_each; intros h; apply sim_invoke|]. intros _. apply sim_bind; [|intros _; apply sim_each; intros h; apply sim_task].
  apply sim_each. intros h w1 w2 Hw. unfold Events._safe_observe, scatch. destruct (sim_invoke h ev w1 w2 Hw) as [He Ht].
  destruct (invoke h ev w1) as [[a|e] v1], (invoke h ev w2) as [[b|e'] v2]; cbn in *; simplify_eq; [done|].
  by destruct (Events.isa_Exception e').
Qed.

Lemma sim_announce n d : sim (announce n d) (announce n d).
Proof. unfold announce. destruct (Events.has_listeners n dispatcher); [apply sim_emit|apply sim_ret]. Qed.

Lemma sim_find_route c s : sim (find_route c s) (find_route c s).
Proof.
  intros w1 w2 [Hl Hr Hg Hw Hf]. unfold find_route. rewrite Hr. destruct (Routing.__getitem__ _ _ _ _) as [r x]. by split.
Qed.

Lemma sim_answer_error key c s1 s2 : sim_sender s1 s2 -> sim (answer_error key c s1) (answer_error key c s2).
Proof.
  intros Hs. unfold answer_error. apply sim_bind; [apply sim_lift|]. intros [h|]; [|apply sim_ret]. apply sim_run; [apply sim_no_next|done].
Qed.

Lemma sim_call_handler fn ps c s1 s2 : sim_sender s1 s2 -> sim (call_handler fn ps c s1) (call_handler fn ps c s2).
Proof.
  intros Hs. unfold call_handler. cbv zeta.
  apply (sim_then _ _ (fun x w => let exc := match x with Raise e => if Events.isa_Exception e then Some e else None | Ok _ => None end in
    let '(y, w) := announce (lit "after_handler") (handler_detail c (resolved_name fn ps) ++ [(lit "exception", Events.Exn exc)]) w in _)).
  - apply sim_bind; [apply sim_announce|]. intros _. apply sim_run; [apply sim_no_next|done].
  - intros x. apply (sim_then _ _ (fun y w => (_, w))); [apply sim_announce|]. intros y w1 w2 Hw. by split.
Qed.

Lemma sim_run_route fn ps c s1 s2 : sim_sender s1 s2 -> sim (run_route fn ps c s1) (run_route fn ps c s2).
Proof.
  intros Hs. unfold run_route.
  assert (Hs' : sim_sender (match _bb_response_headers fn with Some hs => _wrap_send_native (_inject_response_headers s1 hs) | None => _wrap_send_native s1 end)
    (match _bb_response_headers fn with Some hs => _wrap_send_native (_inject_response_headers s2 hs) | None => _wrap_send_native s2 end)).
  { destruct (_bb_response_headers fn); [by apply sim_wrap, sim_inject|by apply sim_wrap]. }
  destruct (default _ (_bb_request_guard fn) c) as [[]|[]]; try apply sim_lift;
    try (apply sim_bind; [apply sim_update|intros _; by apply sim_answer_error]).
  apply sim_bind; [by apply sim_call_handler|]. intros [e|]; [|apply sim_ret].
  destruct e; try apply sim_ret; (apply sim_bind; [apply sim_update|intros _; by apply sim_answer_error]).
Qed.

Lemma sim_route_request c s1 s2 : sim_sender s1 s2 -> sim (route_request c s1) (route_request c s2).
Proof.
  intros Hs. apply sim_bind; [apply sim_find_route|]. intros [[fn ps]|allowed|]; [by apply sim_run_route| |];
    (apply sim_bind; [apply sim_update|intros _; by apply sim_answer_error, sim_wrap]).
Qed.

Lemma sim_dispatch_http c s1 s2 : sim_sender s1 s2 -> sim (_dispatch_http c s1) (_dispatch_http c s2).
Proof.
  intros Hs. unfold _dispatch_http. destruct serve_grpc as [g|]; [destruct (startswith _ _)|]; try by apply sim_route_request.
  apply sim_run; [apply sim_no_next|done].
Qed.

Lemma sim_dispatch : sim_app _dispatch _dispatch.
Proof.
  intros c s1 s2 Hs. unfold _dispatch. destruct (bool_decide _).
  - apply sim_bind; [apply sim_find_route|]. intros [[fn ps]|allowed|]; [|apply sim_ret..]. apply sim_run; [apply sim_no_next|done].
  - destruct (bool_decide _); [|apply sim_lift]. apply sim_bind; [apply sim_announce|]. intros _. by apply sim_dispatch_http.
Qed.

Lemma sim_chain mws : sim_app (chain_of mws) (chain_of mws).
Proof. induction mws as [|mw mws IH]; [apply sim_dispatch|]. intros c s1 s2 Hs. cbn. by apply sim_run. Qed.

Lemma sim_terminal want c x : sim (terminal_events want c x) (terminal_events want c x).
Proof.
  unfold terminal_events. apply sim_bind; [|intros _].
  - intros w1 w2 Hw. unfold emit_completed. rewrite (tw_loc _ _ Hw). destruct (_ && _); [by apply sim_emit|by apply sim_ret].
  - intros w1 w2 Hw. unfold emit_scope. rewrite (tw_loc _ _ Hw). by apply sim_announce.
Qed.

Lemma sim_serve chain c s1 s2 : sim_app chain chain -> sim_sender s1 s2 -> sim (serve chain c s1) (serve chain c s2).
Proof.
  intros Hc Hs. unfold serve. destruct (negb _); [by apply Hc|].
  apply (sim_then (chain c _) (chain c _) (fun x w => let '(y, w) := terminal_events _ c x w in _)); [by apply Hc|].
  intros x. apply (sim_then _ _ (fun y w => (_, w))); [apply sim_terminal|]. intros y w1 w2 Hw. by split.
Qed.

Lemma send_all_wire es w : faults w = [] ->
  send_all wire_send es w = (Ok tt, mkWorld (loc w) (_router w) (log w) (wire w ++ es) []).
Proof.
  revert w. induction es as [|e es IH]; intros w Hf; cbn [send_all]; [unfold sret; rewrite app_nil_r; destruct w; cbn in *; by subst|].
  unfold sbind, wire_send at 1. rewrite Hf. rewrite IH by done. cbn. by rewrite <- app_assoc.
Qed.

Lemma sim_wire : sim_sender wire_send (_to_asgi_boundary wire_send).
Proof.
  intros e w1 w2 [Hl Hr Hg Hw [Hf1 Hf2]]. assert (H2 : _to_asgi_boundary wire_send e w2 = send_all wire_send (at_boundary e) w2).
  { destruct e; try done; cbn [_to_asgi_boundary at_boundary send_all]; unfold sbind, sret; by destruct (wire_send _ w2) as [[[]|] ?]. }
  rewrite H2, send_all_wire by done. unfold wire_send. rewrite Hf1. split; [done|]. split; cbn; try done.
  by rewrite Hw, bind_app, bind_singleton.
Qed.

(** C11: an external host is answered as BlackBull's own server is.  Run the same
    request, through any middlewares and handlers with any listeners, once on the
    native channel and once through the boundary conversion, each on a channel to
    which nothing has been sent and that takes whatever it is sent: both end in the
    same way, leave the same state and the same log of events behind, the host is
    sent the ASGI form of each NativeResponse and everything else, WebSocket
    messages among it, as it is; and if no NativeResponse carries both octets and a
    file, the two are answered the same response. *)
Theorem boundary_transparent asgi native mws c w :
  asgi || negb native = true -> faults w = [] -> wire w = [] ->
  let '(x, w1) := __call__ false true (chain_of mws) c wire_send w in
  let '(y, w2) := __call__ asgi native (chain_of mws) c wire_send w in
  x = y /\ loc w2 = loc w1 /\ log w2 = log w1 /\ wire w2 = wire w1 ≫= at_boundary /\
  (Forall exclusive (wire w1) -> answers (wire w2) = answers (wire w1)).
Proof.
  intros Ha Hf Hw. pose proof (sim_serve (chain_of mws) c _ _ (sim_chain mws) sim_wire w w) as H. unfold __call__. rewrite Ha. cbn [orb negb].
  destruct (serve _ _ wire_send w) as [x w1], (serve _ _ (_to_asgi_boundary _) w) as [y w2].
  destruct H as [Hx [Hl Hr Hg Hwi _]]; [split; try done; by rewrite Hw|]. cbn in *. split_and!; try done. intros He. rewrite Hwi. by apply answers_boundary.
Qed.

(** ** The terminal events *)

Definition event_of (d : delivery) : Events.Event := match d with Heard _ ev | Started _ ev => ev end.
Definition named_in (ns : list pystr) (d : delivery) : Prop := Events.name (event_of d) ∈ ns.

(** The step delivers only events of these names. *)
Definition tells {A} (ns : list pystr) (m : smonad world A) : Prop :=
  forall w, exists l, log (m w).2 = log w ++ l /\ Forall (named_in ns) l.

Definition tells_sender (ns : list pystr) (s : sender) : Prop := forall e, tells ns (s e).
Definition tells_app (ns : list pystr) (a : app) : Prop := forall c s, tells_sender ns s -> tells ns (a c s).

Lemma tells_silent {A} ns (m : smonad world A) : (forall w, log (m w).2 = log w) -> tells ns m.
Proof. intros H w. exists []. by rewrite app_nil_r. Qed.

Lemma tells_then {A B} ns (m : smonad world A) (k : result A -> smonad world B) :
  tells ns m -> (forall x, tells ns (k x)) -> tells ns (fun w => let '(x, w) := m w in k x w).
Proof.
  intros Hm Hk w. destruct (Hm w) as (l & Hl & Hn). destruct (m w) as [x w1]. cbn in Hl.
  destruct (Hk x w1) as (l' & Hl' & Hn'). exists (l ++ l'). rewrite Hl', Hl, app_assoc. split; [done|by apply Forall_app].
Qed.

Lemma tells_bind {A B} ns (m : smonad world A) (k : A -> smonad world B) :
  tells ns m -> (forall a, tells ns (k a)) -> tells ns (sbind m k).
Proof.
  intros Hm Hk w. pose proof (tells_then ns m (fun x => match x with Ok a => k a | Raise e => sraise e end) Hm) as H.
  unfold sbind. specialize (H ltac:(intros [a|e]; [apply Hk|by apply tells_silent]) w).
  cbv beta in H. by destruct (m w) as [[a|e] w1].
Qed.

Lemma tells_run ns p next send : tells_app ns next -> tells_sender ns send -> tells ns (run p next send).
Proof.
  revert next send. induction p as [x|e k IH|f k IH|c k IH|c f IHf k IH]; intros next send Hn Hs; cbn [run].
  - by apply tells_silent.
  - apply (tells_then ns (send e)); [done|]. intros x. by apply IH.
  - intros w. apply (IH (f (loc w)) next send Hn Hs (set_loc _ w)).
  - apply (tells_then ns (next c send)); [by apply Hn|]. intros x. by apply IH.
  - apply (tells_then ns (next c _)); [|intros x; by apply IH]. apply Hn. intros e. apply IHf; [|done].
    intros ???. by apply tells_silent.
Qed.

Lemma tells_no_next ns : tells_app ns no_next.
Proof. intros ???. by apply tells_silent. Qed.

(** What an event delivers when nothing stops it. *)
Definition deliveries (ev : Events.Event) : list delivery :=
  ((fun h => Heard h ev) <$> Events.handlers (Events._interceptors dispatcher) (Events.name ev))
  ++ ((fun h => Heard h ev) <$> Events.handlers (Events._blocking_observers dispatcher) (Events.name ev))
  ++ ((fun h => Started h ev) <$> Events.handlers (Events._observers dispatcher) (Events.name ev)).

Lemma invoke_log h ev w : log (invoke h ev w).2 = log w ++ [Heard h ev].
Proof. unfold invoke. by destruct (listen h ev (loc w)). Qed.

Lemma tells_each ns (f : nat -> Events.Event -> step) hs ev :
  Events.name ev ∈ ns -> (forall h w, exists d, log (f h ev w).2 = log w ++ [d] /\ event_of d = ev) -> tells ns (Events.each f hs ev).
Proof.
  intros Hn Hf. induction hs as [|h hs IH]; [by apply tells_silent|]. cbn [Events.each]. apply tells_bind; [|done].
  intros w. destruct (Hf h w) as (d & -> & Hd). exists [d]. split; [done|]. repeat constructor. unfold named_in. by rewrite Hd.
Qed.

Lemma observe_log h ev w : log (Events._safe_observe invoke h ev w).2 = log w ++ [Heard h ev].
Proof.
  unfold Events._safe_observe, scatch. pose proof (invoke_log h ev w) as H. destruct (invoke h ev w) as [[[]|e] w1]; [done|].
  by destruct (Events.isa_Exception e).
Qed.

Lemma tells_emit ns ev : Events.name ev ∈ ns -> tells ns (Events.emit invoke create_task dispatcher ev).
Proof.
  intros Hn. unfold Events.emit. apply tells_bind; [|intros _; apply tells_bind; [|intros _]]; (apply tells_each; [done|]); intros h w.
  - exists (Heard h ev). by rewrite invoke_log.
  - exists (Heard h ev). by rewrite observe_log.
  - by exists (Started h ev).
Qed.

Lemma tells_announce ns n d : n ∈ ns -> tells ns (announce n d).
Proof. intros H. unfold announce. destruct (Events.has_listeners n dispatcher); [by apply tells_emit|by apply tells_silent]. Qed.

Definition request_events : list pystr := [lit "request_received"; lit "before_handler"; lit "after_handler"].

Lemma tells_wrap ns s : tells_sender ns s -> tells_sender ns (_wrap_send_native s).
Proof. intros H e. apply H. Qed.

Lemma tells_find ns c s : tells ns (find_route c s).
Proof. apply tells_silent. intros w. unfold find_route. by destruct (Routing.__getitem__ _ _ _ _). Qed.

Lemma tells_answer_error ns key c s : tells_sender ns s -> tells ns (answer_error key c s).
Proof.
  intros H. unfold answer_error. apply tells_bind; [by apply tells_silent|]. intros [h|]; [|by apply tells_silent].
  apply tells_run; [apply tells_no_next|done].
Qed.

Lemma tells_failed ns f key c s : tells_sender ns s -> tells ns (do! update f in answer_error key c s).
Proof. intros H. apply tells_bind; [by apply tells_silent|]. intros _. by apply tells_answer_error. Qed.

Lemma tells_call_handler fn ps c s : tells_sender request_events s -> tells request_events (call_handler fn ps c s).
Proof.
  intros Hs. unfold call_handler. cbv zeta.
  apply (tells_then _ _ (fun x w => let exc := match x with Raise e => if Events.isa_Exception e then Some e else None | Ok _ => None end in
    let '(y, w) := announce (lit "after_handler") (handler_detail c (resolved_name fn ps) ++ [(lit "exception", Events.Exn exc)]) w in _)).
  - apply tells_bind; [apply tells_announce, list_elem_of_In; cbn; tauto|]. intros _. apply tells_run; [apply tells_no_next|done].
  - intros x. apply (tells_then _ _ (fun y w => (_, w))); [apply tells_announce, list_elem_of_In; cbn; tauto|]. intros y. by apply tells_silent.
Qed.

Lemma tells_run_route fn ps c s : tells_sender request_events s -> tells request_events (run_route fn ps c s).
Proof.
  intros Hs. unfold run_route.
  assert (Hs' : tells_sender request_events (match _bb_response_headers fn with Some hs => _wrap_send_native (_inject_response_headers s hs) | None => _wrap_send_native s end)).
  { destruct (_bb_response_headers fn); apply tells_wrap; [|done]. intros e. destruct e; apply Hs. }
  destruct (default _ (_bb_request_guard fn) c) as [[]|[]]; try (by apply tells_silent); try by apply tells_failed.
  apply tells_bind; [by apply tells_call_handler|]. intros [e|]; [|by apply tells_silent].
  destruct e; try (by apply tells_silent); by apply tells_failed.
Qed.

Lemma tells_dispatch : tells_app request_events _dispatch.
Proof.
  intros c s Hs. unfold _dispatch. destruct (bool_decide _).
  - apply tells_bind; [apply tells_find|]. intros [[fn ps]|?|]; [|by apply tells_silent..]. apply tells_run; [apply tells_no_next|done].
  - destruct (bool_decide _); [|by apply tells_silent]. apply tells_bind; [apply tells_announce, list_elem_of_In; cbn; tauto|]. intros _.
    assert (Hr : tells request_events (route_request c s)).
    { apply tells_bind; [apply tells_find|]. intros [[fn ps]|allowed|]; [by apply tells_run_route| |];
        by apply tells_failed, tells_wrap. }
    unfold _dispatch_http. destruct serve_grpc as [g|]; [destruct (startswith _ _)|]; try done. apply tells_run; [apply tells_no_next|done].
Qed.

Lemma tells_chain mws : tells_app request_events (chain_of mws).
Proof. induction mws as [|mw mws IH]; [apply tells_dispatch|]. intros c s Hs. cbn. by apply tells_run. Qed.

Lemma tells_channel asgi native ns : tells_sender ns (if asgi || negb native then _to_asgi_boundary wire_send else wire_send).
Proof.
  assert (H : tells_sender ns wire_send).
  { intros e. apply tells_silent. intros w. unfold wire_send. by destruct (faults w) as [|[x|] l]. }
  destruct (_ || _); [|done]. intros e. destruct e; try apply H. cbn. induction (to_asgi r) as [|e es IH]; [by apply tells_silent|].
  cbn [send_all]. apply tells_bind; [apply H|done].
Qed.

(** No interceptor of the event raises and no observer of it is cancelled. *)
Definition undisturbed (n : pystr) : Prop :=
  (forall h ev l, Events.name ev = n -> h ∈ Events.handlers (Events._interceptors dispatcher) n -> (listen h ev l).1 = Ok tt) /\
  (forall h ev l, Events.name ev = n -> h ∈ Events.handlers (Events._blocking_observers dispatcher) n -> (listen h ev l).1 <> Raise CancelledError).

(** The listeners change the local state only as [K] allows. *)
Definition listeners_keep (K : relation local) : Prop := forall h ev l, K l (listen h ev l).2.

Section Delivered.
Context (K : relation local) `{!PreOrder K} (HK : listeners_keep K).

(** [m] succeeds, delivers [ds] and touches nothing but the log and the local
    state. *)
Definition delivers_all (ds : list delivery) (m : step) : Prop :=
  forall w, exists l, K (loc w) l /\ m w = (Ok tt, mkWorld l (_router w) (log w ++ ds) (wire w) (faults w)).

Lemma all_nil : delivers_all [] (sret tt).
Proof. intros [l r g wi f]. exists l. cbn. by rewrite app_nil_r. Qed.

Lemma all_bind d1 d2 m k : delivers_all d1 m -> delivers_all d2 k -> delivers_all (d1 ++ d2) (do! m in k).
Proof.
  intros Hm Hk w. destruct (Hm w) as (l & HKl & Hl). unfold sbind. rewrite Hl.
  destruct (Hk (mkWorld l (_router w) (log w ++ d1) (wire w) (faults w))) as (l' & HKl' & ->).
  exists l'. split; [by etrans|]. cbn. by rewrite app_assoc.
Qed.

Lemma all_each (f : nat -> Events.Event -> step) g hs ev :
  (forall h, h ∈ hs -> delivers_all [g h] (f h ev)) -> delivers_all (g <$> hs) (Events.each f hs ev).
Proof.
  induction hs as [|h hs IH]; intros Hf; [apply all_nil|]. cbn [Events.each]. rewrite fmap_cons.
  apply (all_bind [g h]); [apply Hf; set_solver|]. apply IH. intros h' Hh. apply Hf. set_solver.
Qed.

Lemma all_emit ev : undisturbed (Events.name ev) -> delivers_all (deliveries ev) (Events.emit invoke create_task dispatcher ev).
Proof.
  intros [Hi Hb]. unfold Events.emit, deliveries. apply all_bind; [|apply all_bind]; apply all_each; intros h Hh w; pose proof (HK h ev (loc w)) as Hk.
  - specialize (Hi h ev (loc w) eq_refl Hh). unfold invoke. destruct (listen h ev (loc w)) as [x l]. cbn in Hi. subst x. by exists l.
  - specialize (Hb h ev (loc w) eq_refl Hh). unfold Events._safe_observe, scatch, invoke. destruct (listen h ev (loc w)) as [[[]|e] l]; [by exists l|].
    exists l. destruct e; try done.
  - by exists (loc w).
Qed.

Lemma unheard ev : Events.dispatched dispatcher -> Events.has_listeners (Events.name ev) dispatcher = false -> deliveries ev = [].
Proof. intros Hd Hn. unfold deliveries. by destruct (Events.no_listeners _ _ Hd Hn) as (-> & -> & ->). Qed.

Lemma all_announce n d : Events.dispatched dispatcher -> undisturbed n -> delivers_all (deliveries (Events.mkEvent n d)) (announce n d).
Proof.
  intros Hd Hu. unfold announce. destruct (Events.has_listeners n dispatcher) eqn:E; [by apply all_emit|]. rewrite unheard; [apply all_nil|done..].
Qed.

End Delivered.

Lemma emit_not_cancelled ev w : (forall h ev l, (listen h ev l).1 <> Raise CancelledError) ->
  (Events.emit invoke create_task dispatcher ev w).1 <> Raise CancelledError.
Proof.
  intros Hc. assert (He : forall (f : nat -> Events.Event -> step) hs w, (forall h w, (f h ev w).1 <> Raise CancelledError) -> (Events.each f hs ev w).1 <> Raise CancelledError).
  { intros f hs w0 Hf. revert w0. induction hs as [|h hs IH]; intros w0; [done|]. cbn [Events.each]. unfold sbind.
    specialize (Hf h w0). destruct (f h ev w0) as [[[]|x] w1]; [apply IH|done]. }
  assert (Hi : forall h w, (invoke h ev w).1 <> Raise CancelledError).
  { intros h w0. unfold invoke. specialize (Hc h ev (loc w0)). by destruct (listen h ev (loc w0)). }
  unfold Events.emit, sbind. specialize (He invoke (Events.handlers (Events._interceptors dispatcher) (Events.name ev)) w Hi) as H1.
  destruct (Events.each invoke _ ev w) as [[[]|x] w1]; [|done].
  pose proof (He (Events._safe_observe invoke) (Events.handlers (Events._blocking_observers dispatcher) (Events.name ev)) w1) as H2.
  destruct (Events.each (Events._safe_observe invoke) _ ev w1) as [[[]|x] w2]; [by apply He|].
  apply H2. intros h w0. unfold Events._safe_observe, scatch. specialize (Hi h w0). destruct (invoke h ev w0) as [[[]|y] w3]; [done|].
  by destruct y.
Qed.

(** Listeners may do anything to the local state. *)
Definition any_local : relation local := fun _ _ => True.

#[export] Instance any_preorder : PreOrder any_local.
Proof. by split. Qed.

(** The deliveries of one name. *)
Definition of_name (n : pystr) (l : list delivery) : list delivery := filter (fun d => Events.name (event_of d) = n) l.

Lemma of_name_app n l1 l2 : of_name n (l1 ++ l2) = of_name n l1 ++ of_name n l2.
Proof. apply filter_app. Qed.

Lemma of_name_deliveries n ev : of_name n (deliveries ev) = if decide (Events.name ev = n) then deliveries ev else [].
Proof.
  assert (H : Forall (fun d => event_of d = ev) (deliveries ev)).
  { unfold deliveries. rewrite !Forall_app, !Forall_fmap. split_and!; by apply Forall_true. }
  unfold of_name. induction H as [|d l Hd _ IH]; [by destruct (decide _)|]. rewrite filter_cons, Hd, IH. by destruct (decide _).
Qed.

Lemma of_name_other n ns l : n ∉ ns -> Forall (named_in ns) l -> of_name n l = [].
Proof.
  intros Hn. induction 1 as [|d l Hd _ IH]; [done|]. unfold of_name in *. rewrite filter_cons, decide_False; [done|].
  intros <-. by apply Hn.
Qed.

Definition completed_event (c : request) (l : local) : Events.Event := Events.mkEvent (lit "request_completed") (completed_detail c l).
Definition scope_event (c : request) (err : option exn) : Events.Event := Events.mkEvent (lit "scope_completed") (scope_detail c err).

(** The deliveries of [request_completed] a request is owed. *)
Definition owed (c : request) (l : local) : list delivery :=
  if bool_decide (type_ c = lit "http") && negb (_disconnected l) then deliveries (completed_event c l) else [].

Lemma completed_delivered c l :
  Events.dispatched dispatcher -> undisturbed (lit "request_completed") ->
  delivers_all any_local (owed c l) (fun w => emit_completed (bool_decide (type_ c = lit "http") && Events.has_listeners (lit "request_completed") dispatcher) c (set_loc l w)).
Proof.
  intros Hd Hc w. unfold owed, emit_completed. cbn [loc set_loc].
  assert (Hk : listeners_keep any_local) by done. destruct (bool_decide (type_ c = lit "http")); cbn [andb].
  - destruct (Events.has_listeners _ dispatcher) eqn:El; cbn [andb].
    + destruct (negb _); [destruct (all_emit any_local Hk (completed_event c l) Hc (set_loc l w)) as (l' & _ & H)|
        destruct (all_nil any_local (set_loc l w)) as (l' & _ & H)]; by exists l'.
    + rewrite unheard by done. destruct (negb _); destruct (all_nil any_local (set_loc l w)) as (l' & _ & H); by exists l'.
  - destruct (all_nil any_local (set_loc l w)) as (l' & _ & H); by exists l'.
Qed.

Lemma serve_terminal chain c s w :
  Events.dispatched dispatcher -> undisturbed (lit "request_completed") -> undisturbed (lit "scope_completed") ->
  let '(x, w1) := chain c s w in
  exists err l, serve chain c s w =
    (x, mkWorld l (_router w1) (log w1 ++ owed c (loc w1) ++ deliveries (scope_event c err)) (wire w1) (faults w1)) /\
    (forall e, x = Raise e -> err = Some e).
Proof.
  intros Hd Hc Hs. destruct (chain c s w) as [x w1] eqn:Hx. pose proof (completed_delivered c (loc w1) Hd Hc) as Hcompleted.
  unfold serve. set (want := _ && _) in *. destruct (negb (want || _)) eqn:Eb.
  - exists (match x with Raise e => Some e | Ok _ => None end), (loc w1). apply negb_true_iff, orb_false_iff in Eb as [Ew Es].
    rewrite Hx, (unheard (scope_event _ _)) by done. assert (Ho : owed c (loc w1) = []).
    { unfold owed. unfold want in Ew. destruct (bool_decide _); [|done]. cbn in *. destruct (negb _); [|done]. by apply unheard. }
    rewrite Ho. split; [destruct w1; cbn; by rewrite app_nil_r|]. intros e. by intros ->.
  - unfold with_terminal_events. rewrite Hx. unfold terminal_events, sbind. destruct (Hcompleted w1) as (l & _ & Hl). cbv beta in Hl.
    replace (set_loc (loc w1) w1) with w1 in Hl by (by destruct w1). rewrite Hl. unfold emit_scope. cbn [loc].
    set (err := scope_exception x l). assert (Hk : listeners_keep any_local) by done.
    destruct (all_announce any_local Hk (lit "scope_completed") (scope_detail c err) Hd Hs
      (mkWorld l (_router w1) (log w1 ++ owed c (loc w1)) (wire w1) (faults w1))) as (l2 & _ & ->).
    exists err, l2. cbn. split; [by rewrite <- app_assoc|]. intros e. unfold err. by intros ->.
Qed.

(** C10: the terminal events are delivered exactly once, as long as no interceptor
    of request_completed or scope_completed raises and no blocking observer of
    theirs is cancelled (an interceptor of request_completed that raises takes
    scope_completed with it: [scope_completed_lost]).  Whatever the middlewares and
    handlers of a request do, and however it ends, every listener of
    scope_completed is then reached once, with the exception the request ended in;
    those of request_completed once too, if it is an HTTP request whose client is
    still there when the chain is done; and the listeners change neither the
    outcome nor what was sent. *)
Theorem terminal_once mws asgi native c w :
  Events.dispatched dispatcher -> undisturbed (lit "request_completed") -> undisturbed (lit "scope_completed") ->
  let '(x, w1) := chain_of mws c (if asgi || negb native then _to_asgi_boundary wire_send else wire_send) w in
  let '(y, w2) := __call__ asgi native (chain_of mws) c wire_send w in
  y = x /\ wire w2 = wire w1 /\
  of_name (lit "request_completed") (log w2) = of_name (lit "request_completed") (log w) ++ owed c (loc w1) /\
  exists err, (forall e, x = Raise e -> err = Some e) /\
    of_name (lit "scope_completed") (log w2) = of_name (lit "scope_completed") (log w) ++ deliveries (scope_event c err).
Proof.
  intros Hd Hc Hs. set (s := if asgi || negb native then _ else _). unfold __call__. fold s.
  pose proof (serve_terminal (chain_of mws) c s w Hd Hc Hs) as H. destruct (tells_chain mws c s (tells_channel asgi native _) w) as (l & Hl & Hn).
  destruct (chain_of mws c s w) as [x w1]. destruct H as (err & l2 & -> & He). cbn [fst snd log wire] in *. split; [done|]. split; [done|].
  assert (Howed : forall n, of_name n (owed c (loc w1)) = if decide (lit "request_completed" = n) then owed c (loc w1) else []).
  { intros n. unfold owed. destruct (_ && _); [apply of_name_deliveries|by destruct (decide _)]. }
  assert (Hq : forall n, bool_decide (n ∉ request_events) = true -> of_name n l = []).
  { intros n Hq. apply bool_decide_eq_true in Hq. by apply (of_name_other _ request_events). }
  rewrite Hl, !of_name_app, !Howed, !of_name_deliveries, !Hq by (vm_compute; reflexivity).
  cbn [Events.name scope_event]. rewrite !decide_True, !decide_False by done. rewrite !app_nil_r. cbn. split; [done|]. by exists err.
Qed.

(** ** Failures are answered *)

(** The response to a failure in production: no argument of it is an exception. *)
Definition refusal (st : Z) (allowed : gset pystr) (extra : list field) (c : request) : result send_event :=
  let* allow := match elements allowed with
                | [] => Ok []
                | _ => let* v := utf8_encode (join (lit ", ") (upper <$> elements allowed)) in Ok [(lit "allow", v)]
                end in
  let* b := if _wants_html c then _render_error_html st None [] c else utf8_encode (title_of st) in
  let kind := if _wants_html c then lit "text/html; charset=utf-8" else lit "text/plain; charset=utf-8" in
  Ok (SendNative (complete st (allow ++ [(lit "content-type", kind); (lit "content-length", str_int (zlen b))] ++ extra) (Some b))).

(** The send a route's code is given. *)
Definition route_sender (fn : function) : sender :=
  match _bb_response_headers fn with
  | Some hs => _wrap_send_native (_inject_response_headers wire_send hs)
  | None => _wrap_send_native wire_send
  end.

Definition extra_headers (fn : function) : list field := default [] (_bb_response_headers fn).

(** [y] is the outcome of sending [r] from [w0], or of failing to build it. *)
Definition answered (w0 : world) (r : result send_event) (y : result unit * world) : Prop :=
  match r with
  | Ok e => y.1 = Ok tt /\ wire y.2 = wire w0 ++ [e]
  | Raise x => y.1 = Raise x /\ wire y.2 = wire w0
  end.

Section Failures.
Context (Hproduction : development = false) (Herrors : errors = Routing.new_errors (Some _default_error_handler)).

Lemma default_answers c l s extra w :
  (forall st hs b w, faults w = [] -> s (SendNative (complete st hs (Some b))) w = (Ok tt, mkWorld (loc w) (_router w) (log w) (wire w ++ [SendNative (complete st (hs ++ extra) (Some b))]) [])) ->
  faults w = [] -> loc w = l ->
  answered w (refusal (default 500 (error_status l)) (default ∅ (allowed_methods l)) extra c) (run (_default_error_handler c) no_next s w).
Proof.
  intros Hs Hf Hl. unfold _default_error_handler. cbn [run id]. rewrite Hl. replace (set_loc l w) with w by (destruct w; cbn in *; by subst).
  unfold error_response, refusal. rewrite Hproduction. cbn [join mjoin app].
  destruct (match elements _ with [] => _ | _ => _ end) as [allow|e]; cbn [rbind]; [|done].
  destruct (_wants_html c).
  - destruct (_render_error_html _ _ _ _) as [b|e]; cbn [rbind run]; [|done]. rewrite Hs by done. cbn. by rewrite <- app_assoc.
  - rewrite ?app_nil_r. destruct (utf8_encode _) as [b|e]; cbn [rbind run]; [|done]. rewrite Hs by done. cbn. by rewrite <- app_assoc.
Qed.

Lemma route_sender_complete fn st hs b w : faults w = [] ->
  route_sender fn (SendNative (complete st hs (Some b))) w =
    (Ok tt, mkWorld (loc w) (_router w) (log w) (wire w ++ [SendNative (complete st (hs ++ extra_headers fn) (Some b))]) []).
Proof.
  intros Hf. unfold route_sender, extra_headers. destruct (_bb_response_headers fn) as [hs'|]; cbn; unfold _wrap_send_native, wire_send; cbn; rewrite Hf;
    [done|by rewrite app_nil_r].
Qed.

Lemma wire_complete st hs b w : faults w = [] ->
  _wrap_send_native wire_send (SendNative (complete st hs (Some b))) w =
    (Ok tt, mkWorld (loc w) (_router w) (log w) (wire w ++ [SendNative (complete st (hs ++ []) (Some b))]) []).
Proof. intros Hf. unfold _wrap_send_native, wire_send. cbn. by rewrite Hf, app_nil_r. Qed.

(** A failure recorded and handed to the error handler of a key. *)
Lemma failure_answered key f c s extra w :
  (forall st hs b w, faults w = [] -> s (SendNative (complete st hs (Some b))) w = (Ok tt, mkWorld (loc w) (_router w) (log w) (wire w ++ [SendNative (complete st (hs ++ extra) (Some b))]) [])) ->
  key <> Routing.OtherKey -> faults w = [] ->
  answered w (refusal (default 500 (error_status (f (loc w)))) (default ∅ (allowed_methods (f (loc w)))) extra c)
    ((do! update f in answer_error key c s) w).
Proof.
  intros Hs Hk Hf. unfold sbind, update, supdate, answer_error. rewrite Herrors.
  assert (Hg : Routing.error_get mro key (Routing.new_errors (Some _default_error_handler)) = Ok (Some _default_error_handler)).
  { destruct key as [code|cls|]; cbn; [done| |done]. by induction (mro cls). }
  unfold slift, sbind. rewrite Hg. apply (default_answers c (f (loc w)) s extra (set_loc (f (loc w)) w)); done.
Qed.

(** The channel keeps working. *)
Definition works {A} (m : smonad world A) : Prop := forall w, faults w = [] -> faults (m w).2 = [].

Lemma works_run p s : (forall e, works (s e)) -> works (run p no_next s).
Proof.
  intros Hs. induction p as [x|e k IH|f k IH|c k IH|c f IHf k IH]; intros w Hw; cbn [run]; [done| |by apply IH|by apply IH..].
  specialize (Hs e w Hw). destruct (s e w) as [x w1]. by apply IH.
Qed.

Lemma works_route_sender fn e : works (route_sender fn e).
Proof.
  intros w Hw. assert (H : forall e, faults (wire_send e w).2 = []) by (intros e'; unfold wire_send; by rewrite Hw).
  unfold route_sender, _wrap_send_native. destruct (_bb_response_headers fn); [|apply H]. unfold _inject_response_headers.
  destruct (wrap_native_send e); apply H.
Qed.

(** What the listeners of a request may not do: change what the state says of
    the allowed methods. *)
Definition same_allowed : relation local := fun l l' => allowed_methods l' = allowed_methods l.

#[export] Instance allowed_preorder : PreOrder same_allowed.
Proof. split; [by intros ?|]. intros l1 l2 l3 H1 H2. unfold same_allowed in *. by rewrite H2. Qed.

Context (Hd : Events.dispatched dispatcher) (Hbefore : undisturbed (lit "before_handler")) (Hafter : undisturbed (lit "after_handler")).
Context (Hkeep : listeners_keep same_allowed).

(** How a handler that ended in [x] is answered. *)
Definition handler_answered (fn : function) (c : request) (x : result unit) (wh : world) (y : result unit * world) : Prop :=
  match x with
  | Ok _ | Raise ClientDisconnected => y.1 = Ok tt /\ wire y.2 = wire wh
  | Raise CancelledError => y.1 = Raise CancelledError /\ wire y.2 = wire wh
  | Raise e => answered wh (refusal (error_status_of e) (default ∅ (allowed_methods (loc wh))) (extra_headers fn) c) y
  end.

Lemma handler_phase fn ps c w : faults w = [] ->
  exists l w0, w0 = mkWorld l (_router w) (log w ++ deliveries (Events.mkEvent (lit "before_handler") (handler_detail c (resolved_name fn ps)))) (wire w) [] /\
  same_allowed (loc w) l /\
  let '(x, wh) := run (fn_body fn ps c) no_next (route_sender fn) w0 in
  handler_answered fn c x wh
    ((let! exc := call_handler fn ps c (route_sender fn) in
      match exc with
      | None | Some ClientDisconnected => sret tt
      | Some e => do! update (set_error (error_status_of e) (Some e)) in answer_error (Routing.Exc (class_of e)) c (route_sender fn)
      end) w).
Proof.
  intros Hf. destruct (all_announce same_allowed Hkeep (lit "before_handler") (handler_detail c (resolved_name fn ps)) Hd Hbefore w) as (l & Hl & Hb).
  exists l, (mkWorld l (_router w) (log w ++ deliveries (Events.mkEvent (lit "before_handler") (handler_detail c (resolved_name fn ps)))) (wire w) []).
  split; [done|]. split; [done|]. unfold sbind at 1, call_handler. unfold sbind at 1. rewrite Hb, Hf.
  set (w0 := mkWorld l _ _ _ []). pose proof (works_run (fn_body fn ps c) (route_sender fn) (works_route_sender fn) w0 eq_refl) as Hw.
  destruct (run _ _ _ w0) as [x wh]. cbn in Hw. set (exc := match x with Raise e => _ | _ => _ end).
  destruct (all_announce same_allowed Hkeep (lit "after_handler") (handler_detail c (resolved_name fn ps) ++ [(lit "exception", Events.Exn exc)]) Hd Hafter wh)
    as (l2 & Hl2 & Ha).
  rewrite Ha, Hw. unfold handler_answered, same_allowed in *. rewrite <- Hl2.
  set (w2 := mkWorld l2 _ _ _ []). assert (He : forall e, answered wh (refusal (error_status_of e) (default ∅ (allowed_methods l2)) (extra_headers fn) c)
    ((do! update (set_error (error_status_of e) (Some e)) in answer_error (Routing.Exc (class_of e)) c (route_sender fn)) w2)).
  { intros e. exact (failure_answered (Routing.Exc (class_of e)) (set_error (error_status_of e) (Some e)) c (route_sender fn) (extra_headers fn) w2
      (route_sender_complete fn) ltac:(done) eq_refl). }
  destruct x as [[]|e]; [done|]. unfold exc. specialize (He e). destruct e; exact He || done.
Qed.

(** What a request with route [found] is owed, [w] being the world its lookup
    left. *)
Definition request_answered (c : request) (found : result (@Routing.resolution function V)) (w : world) (y : result unit * world) : Prop :=
  let stored := default ∅ (allowed_methods (loc w)) in
  match found with
  | Raise e => y.1 = Raise e /\ wire y.2 = wire w
  | Ok Routing.PathNotRegistered => answered w (refusal 404 stored [] c) y
  | Ok (Routing.MethodNotApplicable allowed) => answered w (refusal 405 allowed [] c) y
  | Ok (Routing.Found (fn, ps)) =>
      match default (fun _ => Ok tt) (_bb_request_guard fn) c with
      | Raise (HTTPException st) => answered w (refusal st stored (extra_headers fn) c) y
      | Raise e => y.1 = Raise e /\ wire y.2 = wire w
      | Ok _ => exists w0, wire w0 = wire w /\ faults w0 = [] /\ same_allowed (loc w) (loc w0) /\
          let '(x, wh) := run (fn_body fn ps c) no_next (route_sender fn) w0 in handler_answered fn c x wh y
      end
  end.

(** C9: failures are answered, once and without telling why.  In production, with
    the default error handler and without gRPC, while the channel takes what it is
    sent, no interceptor of before_handler or after_handler raises (one that does
    leaves the failure unanswered: [failure_unanswered]), no blocking observer of
    theirs is cancelled and no listener touches the allowed methods of the state:
    a path without a route is answered 404, a method without one 405 with the
    methods that have one, a request its route's guard refuses with the guard's
    status, a handler's exception with its status or 500 after whatever the handler
    had sent, a vanished client with nothing; the headers a route declares are on
    its error responses too; and the response is a function of the status, the
    methods, those headers and the request: nothing of the exception is in it.  What
    [find_route], or a guard otherwise than by an HTTPException, raises, and a
    cancelled handler's cancellation, leave the dispatch with nothing more sent. *)
Theorem failures_answered c w :
  serve_grpc = None -> faults w = [] ->
  let '(found, w1) := find_route c (lit "http") w in
  request_answered c found w1 (_dispatch_http c wire_send w).
Proof.
  intros Hg Hf. unfold _dispatch_http. rewrite Hg. unfold route_request. unfold sbind at 1.
  assert (Hfind : faults (find_route c (lit "http") w).2 = []).
  { unfold find_route. by destruct (Routing.__getitem__ _ _ _ _). }
  destruct (find_route c (lit "http") w) as [found w1]. cbn in Hfind.
  destruct found as [[[fn ps]|allowed|]|e]; unfold request_answered; [|..|done].
  - unfold run_route. fold (route_sender fn). destruct (default _ (_bb_request_guard fn) c) as [[]|e].
    + destruct (handler_phase fn ps c w1 Hfind) as (l & w0 & Hw0 & Hl & H). rewrite Hw0 in H. exists w0. rewrite Hw0.
      split; [done|]. split; [done|]. split; [done|]. exact H.
    + destruct e; try done. match goal with |- answered _ (refusal ?st _ _ _) _ =>
        exact (failure_answered (Routing.HTTPStatus st) (set_error st (Some (HTTPException st))) c (route_sender fn) (extra_headers fn) w1
          (route_sender_complete fn) ltac:(done) Hfind) end.
  - exact (failure_answered (Routing.HTTPStatus 405) (set_method_error 405 allowed) c (_wrap_send_native wire_send) [] w1 wire_complete ltac:(done) Hfind).
  - exact (failure_answered (Routing.HTTPStatus 404) (set_error 404 None) c (_wrap_send_native wire_send) [] w1 wire_complete ltac:(done) Hfind).
Qed.

End Failures.

(** ** The life span answers *)

Definition is_startup (e : lifespan_event) : bool := match e with Startup => true | _ => false end.
Definition is_shutdown (e : lifespan_event) : bool := match e with Shutdown => true | _ => false end.

(** The acknowledgements of the events answered with success so far. *)
Definition completes (es : list lifespan_event) : list ack := (fun _ => StartupComplete) <$> filter (fun e => is_startup e = true) es.

(** What was sent, and how the handler ended, against the events it took. *)
Definition acknowledged (es : list lifespan_event) (acks : list ack) (x : option (result unit)) : Prop :=
  match x with
  | None => acks = completes es /\ Forall (fun e => is_shutdown e = false) es
  | Some x => x = Ok tt /\ exists before e after a,
      es = before ++ e :: after /\ Forall (fun e => is_shutdown e = false) before /\ acks = completes before ++ [a] /\
      match e, a with
      | Startup, StartupFailed _ | Shutdown, ShutdownComplete | Shutdown, ShutdownFailed _ => True
      | _, _ => False
      end
  end.

(** C12: every life span event is acknowledged, once and in order.  If neither a
    hook is cancelled nor the validation of the routes raises another exception
    than its own: while it waits for more, each startup was answered complete and
    no shutdown came; when it has returned, the last event it took was a startup
    answered failed, or a shutdown answered either way; it never ends in an
    exception, whatever the hooks raise. *)
Theorem lifespan_acknowledged es w :
  (forall h ev l, (listen h ev l).1 <> Raise CancelledError) ->
  (forall r, validate r = Ok tt \/ validate r = Raise ConfigurationError) ->
  let '(acks, x, w') := _handle_lifespan es w in acknowledged es acks x.
Proof.
  intros Hc Hv. unfold acknowledged. assert (Hh : forall n w, (hook n w).1 <> Raise CancelledError).
  { intros n w0. unfold hook. apply emit_not_cancelled. exact Hc. }
  revert w. induction es as [|e es IH]; intros w; [done|]. destruct e; cbn [_handle_lifespan].
  - unfold on_startup_event. destruct mw_errors as [|m l]; [|split; [done|]; by exists [], Startup, es, (StartupFailed (join [10] (m :: l)))].
    destruct (Hv (_router w)) as [-> | ->]; [|split; [done|]; by exists [], Startup, es, (StartupFailed (exc_str ConfigurationError))].
    specialize (Hh (lit "app_startup") (set_router (Routing.freeze (_router w)) w)). destruct (hook _ _) as [[[]|x] w1].
    + specialize (IH w1). destruct (_handle_lifespan es w1) as [[acks x] w2]. destruct x as [x|].
      * destruct IH as (-> & b & e & a & k & -> & Hb & -> & He). split; [done|]. exists (Startup :: b), e, a, k. split_and!; try done. by constructor.
      * destruct IH as [-> Hes]. split; [done|by constructor].
    + destruct (Events.isa_Exception x) eqn:Ex; [|by destruct x]. split; [done|]. by exists [], Startup, es, (StartupFailed (exc_str x)).
  - unfold on_shutdown_event, sbind. specialize (Hh (lit "app_shutdown") w). destruct (hook _ _) as [[[]|x] w1]; cbn [aclose update supdate].
    + split; [done|]. by exists [], Shutdown, es, ShutdownComplete.
    + destruct (Events.isa_Exception x) eqn:Ex; [|by destruct x]. split; [done|]. by exists [], Shutdown, es, (ShutdownFailed (exc_str x)).
  - specialize (IH w). destruct (_handle_lifespan es w) as [[acks x] w2]. destruct x as [x|].
    + destruct IH as (-> & b & e & a & k & -> & Hb & -> & He). split; [done|]. exists (OtherLifespan :: b), e, a, k. split_and!; try done. by constructor.
    + destruct IH as [-> Hes]. split; [done|by constructor].
Qed.

(** ** The error page carries no markup of others *)

(** The characters that open or close something in HTML. *)
Definition markup (s : pystr) : pystr := filter (fun c => c ∈ [60; 62; 34; 39]) s.

Lemma markup_app s1 s2 : markup (s1 ++ s2) = markup s1 ++ markup s2.
Proof. apply filter_app. Qed.

Lemma markup_escape s : markup (escape s) = [].
Proof.
  unfold escape. induction s as [|c s IH]; [done|]. rewrite bind_cons, markup_app, IH, app_nil_r.
  unfold escape_char. repeat case_match; try (vm_compute; reflexivity). rewrite ?Z.eqb_neq in *.
  unfold markup. rewrite filter_cons, decide_False; [done|]. rewrite !elem_of_cons, elem_of_nil. intuition congruence.
Qed.

(** Whether there is an exception, and a traceback, to show. *)
Definition shape (exc : option exn) (tb_text : pystr) : bool * bool :=
  (match exc with Some _ => true | None => false end, match tb_text with [] => false | _ => true end).

(** Nothing of a request or of an exception can become markup.  The angle
    brackets and quotes of an error page, in development and in production, are
    the same whatever the method, the path, the exception's name and message and
    the traceback say: they depend only on whether there is an exception and a
    traceback to show. *)
Theorem error_page_inert st exc tb_text c st' exc' tb_text' c' :
  shape exc tb_text = shape exc' tb_text' ->
  markup (error_page st exc tb_text c) = markup (error_page st' exc' tb_text' c').
Proof.
  intros Hs. unfold error_page. rewrite !markup_app, !markup_escape.
  destruct exc as [e|], exc' as [e'|], tb_text as [|x tb], tb_text' as [|x' tb']; cbn in Hs; try done;
    rewrite ?markup_app, ?markup_escape; reflexivity.
Qed.

End App.
(** ** A sample application *)

Module Demo.
Definition conv (_ : converter) (w : pystr) : option pystr := Some w.
Definition no_match (_ : Z) (_ : pystr) : option (dict pystr pystr) := None.
Definition cls (e : exn) : Z := match e with UserException n => n | HTTPException _ => 1 | _ => 0 end.
Definition ancestors (n : Z) : list Z := [n; 0].
Definition says (e : exn) : pystr := match e with UserException _ => lit "<secret>" | _ => lit "error" end.
Definition version (_ : request) : pystr := lit "1.1".

Abbreviation dlocal := (local (U := unit)).
Abbreviation dprog := (prog (U := unit)).
Abbreviation dfun := (function (U := unit) (V := pystr)).

Definition fresh : dlocal := mkLocal None None None None false tt.

Definition hello : send_event := SendBytes (lit "hello") 200 [].
Definition ok_body (_ : dict pystr pystr) (_ : request) : dprog := Send hello Ret.
Definition bad_body (_ : dict pystr pystr) (_ : request) : dprog := Ret (Raise (UserException 7)).
Definition large_body (_ : dict pystr pystr) (_ : request) : dprog := Ret (Raise (HTTPException 413)).

Definition plain (name : pystr) b : dfun := mkFunction name b None None.
Definition query_only (c : request) : result unit := if bool_decide (method c = lit "QUERY") then Raise (HTTPException 415) else Ok tt.
Definition guarded : dfun := mkFunction (lit "search") ok_body (Some [(lit "accept-query", lit "a/b")]) (Some query_only).

Abbreviation drouter := (@Routing.router dfun pystr Z).

Definition add (p : pystr) (ms : list pystr) (fn : dfun) (r : drouter) : drouter :=
  (Routing.__setitem__ (Routing.PathStr p) ms (Routing.Schemes [lit "http"]) fn r).1.

Definition routes : drouter :=
  add (lit "/item/{id}") [lit "GET"] (plain (lit "show") ok_body)
    (add (lit "/large") [lit "GET"] (plain (lit "large") large_body)
      (add (lit "/bad") [lit "GET"] (plain (lit "bad") bad_body)
        (add (lit "/search") [lit "GET"; lit "QUERY"] guarded
          (add (lit "/ok") [lit "GET"; lit "PUT"] (plain (lit "ok") ok_body) (Routing.new_router 8))))).

Definition get (m p : pystr) : request :=
  mkConn (lit "http") m (lit "http") p [] [] (HttpHeaders.__init__ [(lit "accept", lit "text/html")]) (Some (lit "10.0.0.1", 4000)) [].

Abbreviation dworld := (world (U := unit) (V := pystr) (P := Z)).

Definition start : dworld := mkWorld fresh routes [] [] [].

(** Listener 0 raises, listener 1 does not. *)
Definition hears (h : nat) (_ : Events.Event) (l : dlocal) : result unit * dlocal :=
  (if decide (h = 0%nat) then Raise (UserException 9) else Ok tt, l).

Definition quiet : Events.EventDispatcher :=
  Events.on (lit "scope_completed") 1 true (Events.intercept (lit "before_handler") 2 (Events.on (lit "request_completed") 3 false Events.__init__)).

Definition defaults (dev : bool) : @Routing.ErrorRouter (request -> dprog) Z :=
  Routing.new_errors (Some (_default_error_handler (U := unit) says says says dev)).

Definition http (d : Events.EventDispatcher) errors (c : request) : result unit * dworld :=
  _dispatch_http conv no_match ancestors cls d hears errors None c wire_send start.

Definition whole (d : Events.EventDispatcher) errors (asgi : bool) (c : request) : result unit * dworld :=
  __call__ version d hears asgi true (chain_of conv no_match ancestors cls version d hears errors None []) c wire_send start.

Lemma quiet_dispatched : Events.dispatched quiet.
Proof. apply Events.dispatched_on, Events.dispatched_intercept, Events.dispatched_on, Events.dispatched_init. Qed.

Lemma quiet_undisturbed n : undisturbed quiet hears n.
Proof.
  assert (H : forall d h, Events.handlers d n = [h] \/ Events.handlers d n = [] -> forall h', h' ∈ Events.handlers d n -> h' = h).
  { intros d h [-> | ->] h'; set_solver. }
  split; intros h ev l _ Hh; unfold hears.
  - apply (H _ 2%nat) in Hh as ->; [done|]. unfold quiet, Events.handlers. cbn [Events._interceptors Events.on Events.intercept].
    unfold Events.append_to. rewrite dget_dset. destruct (decide _); [by left|by right].
  - by destruct (decide (h = 0%nat)).
Qed.

Definition status_sent (w : dworld) : option Z := a_status (answers (wire w)).

End Demo.

Lemma failures_answered_witness :
  let c := Demo.get (lit "GET") (lit "/bad") in
  let y := Demo.http Demo.quiet (Demo.defaults false) c in
  (let '(found, w1) := find_route Demo.conv Demo.no_match c (lit "http") Demo.start in
   request_answered Demo.says Demo.says c found w1 y) /\ y.1 = Ok tt /\ Demo.status_sent y.2 = Some 500.
Proof.
  split; [|split; vm_compute; reflexivity].
  exact (failures_answered Demo.conv Demo.no_match Demo.ancestors Demo.cls Demo.says Demo.says Demo.says false Demo.quiet Demo.hears
    (Demo.defaults false) None eq_refl eq_refl Demo.quiet_dispatched (Demo.quiet_undisturbed _) (Demo.quiet_undisturbed _)
    ltac:(intros ???; reflexivity) (Demo.get (lit "GET") (lit "/bad")) Demo.start eq_refl eq_refl).
Defined.

Lemma terminal_once_witness :
  let c := Demo.get (lit "GET") (lit "/bad") in
  let y := Demo.whole Demo.quiet (Demo.defaults false) true c in
  y.1 = Ok tt /\ exists err, of_name (lit "scope_completed") (log y.2) = deliveries Demo.quiet (scope_event c err).
Proof.
  intros c y.
  pose proof (terminal_once Demo.conv Demo.no_match Demo.ancestors Demo.cls Demo.version Demo.quiet Demo.hears (Demo.defaults false) None
    [] true true c Demo.start Demo.quiet_dispatched (Demo.quiet_undisturbed _) (Demo.quiet_undisturbed _)) as H.
  fold (Demo.whole Demo.quiet (Demo.defaults false) true c) in H. fold y in H. destruct (chain_of _ _ _ _ _ _ _ _ _ _ c _ Demo.start) as [x w1].
  split; [vm_compute; reflexivity|]. destruct y as [z w2]. destruct H as (_ & _ & _ & err & _ & H). by exists err.
Defined.

Lemma boundary_transparent_witness :
  let c := Demo.get (lit "GET") (lit "/ok") in
  let w1 := (Demo.whole Demo.quiet (Demo.defaults false) false c).2 in
  let w2 := (Demo.whole Demo.quiet (Demo.defaults false) true c).2 in
  wire w1 = [SendNative (mkNative 200 (Some []) (Some (lit "hello")) false None false None)] /\
  wire w2 = [ResponseStart 200 [] false; ResponseBody (lit "hello") false] /\ answers (wire w2) = answers (wire w1).
Proof.
  intros c w1 w2.
  pose proof (boundary_transparent Demo.conv Demo.no_match Demo.ancestors Demo.cls Demo.version Demo.quiet Demo.hears (Demo.defaults false) None
    true true [] c Demo.start eq_refl eq_refl eq_refl) as H.
  fold (Demo.whole Demo.quiet (Demo.defaults false) true c) in H. fold (Demo.whole Demo.quiet (Demo.defaults false) false c) in H.
  assert (E1 : wire w1 = [SendNative (mkNative 200 (Some []) (Some (lit "hello")) false None false None)]) by (vm_compute; reflexivity).
  split; [exact E1|]. split; [vm_compute; reflexivity|]. unfold w1, w2 in *.
  destruct (Demo.whole _ _ false c) as [x v1], (Demo.whole _ _ true c) as [y v2]. destruct H as (_ & _ & _ & _ & H).
  apply H. cbn [snd] in E1. rewrite E1. constructor; [by right|constructor].
Defined.

Lemma lifespan_acknowledged_witness :
  let es := [Startup; OtherLifespan; Shutdown; Startup] in
  let '(acks, x, _) := _handle_lifespan Demo.says Demo.quiet Demo.hears [] (fun _ => Ok tt) id es Demo.start in
  acknowledged es acks x /\ acks = [StartupComplete; ShutdownComplete].
Proof.
  intros es.
  pose proof (lifespan_acknowledged Demo.says Demo.quiet Demo.hears [] (fun _ => Ok tt) id es Demo.start
    ltac:(intros h ev l; unfold Demo.hears; by destruct (decide (h = 0%nat))) ltac:(intros r; by left)) as H.
  destruct (_handle_lifespan _ _ _ _ _ _ es _) as [[acks x] w'] eqn:E. split; [exact H|]. vm_compute in E. by injection E as <- _ _.
Defined.

Lemma error_page_inert_witness :
  let c := Demo.get (lit "GET") (lit "/<script>") in
  markup (error_page Demo.says Demo.says 500 (Some (UserException 7)) (lit "Traceback <x>") c) =
  markup (error_page Demo.says Demo.says 404 (Some ValueError) (lit "t") (Demo.get (lit "GET") (lit "/"))).
Proof. intros c. apply error_page_inert. reflexivity. Defined.

(** ** What modelling showed *)

(** A handler registered for a status is not asked about an exception that
    carries the status: exceptions are looked up by their class only. *)
Lemma status_handler_not_asked :
  let custom : request -> Demo.dprog := fun _ => Send (SendBytes (lit "too large") 413 []) Ret in
  let errors := (Routing.error_set (Routing.HTTPStatus 413) custom (Demo.defaults false)).1 in
  (answers (wire (Demo.http Events.__init__ errors (Demo.get (lit "GET") (lit "/large"))).2) =
   answers (wire (Demo.http Events.__init__ (Demo.defaults false) (Demo.get (lit "GET") (lit "/large"))).2)).
Proof. vm_compute. reflexivity. Qed.

(** An interceptor of request_completed that raises takes scope_completed with
    it. *)
Lemma scope_completed_lost :
  let d := Events.on (lit "scope_completed") 1 true (Events.intercept (lit "request_completed") 0 Events.__init__) in
  let y := Demo.whole d (Demo.defaults false) false (Demo.get (lit "GET") (lit "/ok")) in
  y.1 = Raise (UserException 9) /\ of_name (lit "scope_completed") (log y.2) = [].
Proof. vm_compute. by split. Qed.

(** An interceptor of after_handler that raises leaves a failed request without a
    response from the application. *)
Lemma failure_unanswered :
  let d := Events.intercept (lit "after_handler") 0 Events.__init__ in
  let y := Demo.http d (Demo.defaults false) (Demo.get (lit "GET") (lit "/bad")) in
  y.1 = Raise (UserException 9) /\ wire y.2 = [].
Proof. vm_compute. by split. Qed.

(** The name of a handler behind path parameters is that of the wrapper. *)
Lemma handler_name_lost :
  let d := Events.on (lit "before_handler") 1 true Events.__init__ in
  let y := Demo.http d (Demo.defaults false) (Demo.get (lit "GET") (lit "/item/5")) in
  exists ev, log y.2 = [Heard 1 ev] /\ dget (Events.detail ev) (lit "handler") = Some (Events.Str (lit "_inject")).
Proof. eexists. split; [vm_compute; reflexivity|vm_compute; reflexivity]. Qed.

End App.
