(* ===== verification/HttpClient.v ===== *)
(** * The HTTP/1.1 client (blackbull/client/http1.py)

    What the client writes for a request and what it makes of a response, over
    the reader interface of [Reader] extended by [readuntil].  The scenario
    executor and the raw primitives write what they are told and are left out. *)

From Stdlib Require Import ZArith Lia.
From stdpp Require Import base tactics numbers option strings sets list.
From S2P Require Import Prelude PyLib PyText PyBytes Reader H2Frames HttpHeaders Http1Parse Http1Body Http1Loop Http1Sender.

(** [readuntil(sep)] of [asyncio.StreamReader]: up to and with the first
    separator, if it begins within the limit. *)
Class LineReader (R : Type) `{!ByteReader R} : Type := {
  until_limit : Z;
  readuntil : bytes -> R -> result (bytes * R);
  readuntil_found sep r l i :
    delivers r l -> find_sub sep l = Some i -> Z.of_nat i <= until_limit ->
    exists r', readuntil sep r = Ok (take (i + length sep) l, r') /\ delivers r' (drop (i + length sep) l);
  readuntil_missing sep r l :
    delivers r l -> find_sub sep l = None -> zlen l <= until_limit -> readuntil sep r = Raise IncompleteReadError
}.

#[export] Instance list_lines : LineReader bytes.
Proof.
  refine {| until_limit := 65536;
            readuntil sep l := match find_sub sep l with
                               | Some i => if Z.of_nat i <=? 65536 then Ok (take (i + length sep) l, drop (i + length sep) l) else Raise LimitOverrunError
                               | None => if zlen l <=? 65536 then Raise IncompleteReadError else Raise LimitOverrunError
                               end |}.
  - intros sep r l i -> -> Hi. rewrite (proj2 (Z.leb_le _ _)) by done. by eexists.
  - intros sep r l Hr Hf Hl. change (r = l) in Hr. subst r. rewrite Hf. by rewrite (proj2 (Z.leb_le _ _) Hl).
Defined.

Module HttpClient.

Abbreviation Headers := HttpHeaders.t.

(** client/exceptions.py *)
Definition ConnectionError : exn := UserException 1.
Definition ProtocolError : exn := UserException 2.

Definition _CRLF : bytes := [13; 10].
Definition _STREAM_CHUNK_SIZE : Z := 64 * 1024.
Definition _BODY_ALLOWED_METHODS : list bytes := lit <$> ["POST"; "PUT"; "PATCH"; "DELETE"]%string.
Definition _BODY_LESS_METHODS : list bytes := lit <$> ["GET"; "HEAD"; "OPTIONS"; "TRACE"; "CONNECT"]%string.

(** ** Requests *)

Inductive RequestBody : Type := Fixed (b : bytes) | Chunks (cs : list bytes).

(** [method.upper()] on ASCII. *)
Definition upper (m : pystr) : pystr := (fun c => if (97 <=? c) && (c <=? 122) then c - 32 else c) <$> m.

Definition _normalize_content_length (method : pystr) (headers : Headers) (body : bytes) : result Headers :=
  let cl_actual := zlen body in
  let* method_upper := utf8_encode (upper method) in
  if HttpHeaders.__contains__ (lit "content-length") headers then
    let* cl_int := int_of_bytes (HttpHeaders.get (lit "content-length") [] headers) in
    if negb (cl_int =? cl_actual) then Raise ValueError else Ok headers
  else if 0 <? cl_actual then Ok (HttpHeaders.append_pair (lit "content-length") (str_int cl_actual) headers)
  else if bool_decide (method_upper ∈ _BODY_ALLOWED_METHODS) then Ok (HttpHeaders.append_pair (lit "content-length") (lit "0") headers)
  else Ok headers.

Definition _write_start (method path : pystr) (headers : Headers) : result bytes :=
  let* line := utf8_encode (method ++ [32] ++ path ++ lit " HTTP/1.1") in
  Ok (line ++ _CRLF ++ mjoin ((fun kv => kv.1 ++ lit ": " ++ kv.2 ++ _CRLF) <$> HttpHeaders._list headers) ++ _CRLF).

Definition _send_fixed (method path : pystr) (headers : Headers) (body : bytes) : result bytes :=
  let* headers := _normalize_content_length method headers body in
  let* start := _write_start method path headers in
  Ok (start ++ body).

Definition send_chunk (c : bytes) : bytes := if bool_decide (c = []) then [] else hex_nat (zlen c) ++ _CRLF ++ c ++ _CRLF.

Definition _send_chunked (method path : pystr) (headers : Headers) (cs : list bytes) : result bytes :=
  let headers := if HttpHeaders.__contains__ (lit "transfer-encoding") headers then headers
                 else HttpHeaders.append_pair (lit "transfer-encoding") (lit "chunked") headers in
  let* start := _write_start method path headers in
  Ok (start ++ mjoin (send_chunk <$> cs) ++ [48] ++ _CRLF ++ _CRLF).

Definition send (method path : pystr) (headers : Headers) (body : RequestBody) : result bytes :=
  if negb (HttpHeaders.__contains__ (lit "host") headers) then Raise ProtocolError
  else match body with
       | Fixed b => _send_fixed method path headers b
       | Chunks cs => _send_chunked method path headers cs
       end.

Definition _headers_with_host (host : pystr) (port : Z) (headers : list field) : result Headers :=
  let h := HttpHeaders.__init__ headers in
  if HttpHeaders.__contains__ (lit "host") h then Ok h
  else let* v := utf8_encode (host ++ [58] ++ str_int port) in Ok (HttpHeaders.append_pair (lit "host") v h).

(** The octets [HTTP1Client.request] and [stream] write. *)
Definition request_octets (host : pystr) (port : Z) (method path : pystr) (headers : list field) (body : RequestBody) : result bytes :=
  let* h := _headers_with_host host port headers in send method path h body.

(** ** Responses *)

Record ClientResponse : Type := mkResponse { status : Z; headers : Headers; body : bytes }.

(** [int(l, 16)] of a byte string. *)
Definition int16_of_bytes (l : bytes) : result Z :=
  let l := strip WHITESPACE l in
  let neg := bool_decide (head l = Some 45) in
  let l := if neg || bool_decide (head l = Some 43) then tail l else l in
  let prefixed := bool_decide (take 2 l = lit "0x") || bool_decide (take 2 l = lit "0X") in
  let l := if prefixed then drop 2 l else l in
  let l := if prefixed && bool_decide (head l = Some 95) then tail l else l in
  let groups := split_on 95 l in
  if forallb (fun g => negb (bool_decide (g = [])) && forallb (fun c => bool_decide (is_Some (hex_of c))) g) groups
  then Ok ((if neg then -1 else 1) * Http1Body.int_hex (mjoin groups))
  else Raise ValueError.

Section Recipient.
Context {R : Type} `{!ByteReader R} `{!LineReader R}.

Fixpoint read_fields (fuel : nat) (pairs : list field) (r : R) : result (list field * R) :=
  match fuel with
  | O => Raise OutOfFuel
  | S fuel =>
      let* '(line, r) := readuntil _CRLF r in
      if bool_decide (line = _CRLF) then Ok (pairs, r)
      else
        let '(name, _, value) := partition_char 58 (rstrip _CRLF line) in
        read_fields fuel (pairs ++ [(lower (strip WHITESPACE name), strip WHITESPACE value)]) r
  end.

Definition _read_start (fuel : nat) (r : R) : result (Z * Headers * R) :=
  let* '(status_line, r) := match readuntil _CRLF r with Raise IncompleteReadError => Raise ConnectionError | x => x end in
  let '(_, sep, rest) := partition_char 32 (rstrip _CRLF status_line) in
  if negb sep then Raise ProtocolError
  else
    match int_of_bytes (partition_char 32 rest).1.1 with
    | Raise ValueError => Raise ProtocolError
    | Raise e => Raise e
    | Ok st =>
        let* '(pairs, r) := read_fields fuel [] r in
        Ok (st, HttpHeaders.__init__ pairs, r)
    end.

(** [v.lstrip(b'0') or b'0'] *)
Definition unpadded (v : bytes) : bytes := match lstrip [48] v with [] => lit "0" | v => v end.

Fixpoint length_values (vs : list bytes) (seen : list bytes) : result (list bytes) :=
  match vs with
  | [] => Ok seen
  | v :: vs =>
      let v := strip WHITESPACE v in
      if negb (isdigit v) then Raise ProtocolError
      else length_values vs (if bool_decide (unpadded v ∈ seen) then seen else seen ++ [unpadded v])
  end.

Definition _declared_length (headers : Headers) : result (option Z) :=
  match HttpHeaders.getlist (lit "content-length") headers with
  | [] => Ok None
  | raw =>
      let* values := length_values (mjoin ((fun kv => split_on 44 kv.2) <$> raw)) [] in
      match values with
      | [v] => rmap Some (int_digits v)
      | _ => Raise ProtocolError
      end
  end.

Definition read_size (line : bytes) : result Z :=
  match int16_of_bytes (partition_char 59 (rstrip _CRLF line)).1.1 with Raise ValueError => Raise ProtocolError | x => x end.

Fixpoint _read_chunked (fuel : nat) (r : R) : result (list bytes * R) :=
  match fuel with
  | O => Raise OutOfFuel
  | S fuel =>
      let* '(size_line, r) := readuntil _CRLF r in
      let* size := read_size size_line in
      if size =? 0 then
        let* '(_, r) := readuntil _CRLF r in Ok ([], r)
      else
        let* '(chunk, r) := readexactly size r in
        let* '(_, r) := readuntil _CRLF r in
        let* '(cs, r) := _read_chunked fuel r in
        Ok (chunk :: cs, r)
  end.

Definition is_chunked (headers : Headers) : bool :=
  bool_decide (lower (HttpHeaders.get (lit "transfer-encoding") [] headers) = lit "chunked").

Definition _read_body (fuel : nat) (headers : Headers) (r : R) : result (bytes * R) :=
  if is_chunked headers then
    let* '(cs, r) := _read_chunked fuel r in Ok (mjoin cs, r)
  else
    let* declared := _declared_length headers in
    match declared with
    | None | Some 0 => Ok ([], r)
    | Some n => readexactly n r
    end.

Definition receive (fuel : nat) (r : R) : result (ClientResponse * R) :=
  let* '(st, h, r) := _read_start fuel r in
  let* '(b, r) := _read_body fuel h r in
  Ok (mkResponse st h b, r).

(** [_stream_body]: the chunks that are yielded. *)
Fixpoint read_slices (fuel : nat) (remaining : Z) (r : R) : result (list bytes * R) :=
  if 0 <? remaining then
    match fuel with
    | O => Raise OutOfFuel
    | S fuel =>
        let* '(chunk, r) := readexactly (Z.min remaining _STREAM_CHUNK_SIZE) r in
        let* '(cs, r) := read_slices fuel (remaining - zlen chunk) r in
        Ok (chunk :: cs, r)
    end
  else Ok ([], r).

Definition _stream_body (fuel : nat) (headers : Headers) (r : R) : result (list bytes * R) :=
  if is_chunked headers then _read_chunked fuel r
  else
    let* declared := _declared_length headers in
    match declared with
    | None | Some 0 => Ok ([], r)
    | Some n => read_slices fuel n r
    end.

Definition stream (fuel : nat) (r : R) : result (list bytes * R) :=
  let* '(_, h, r) := _read_start fuel r in _stream_body fuel h r.

(** ** Reading lines *)

(** A line that ends at the CRLF and not before. *)
Definition plain (w : bytes) : Prop := (13 ∉ w) /\ (10 ∉ w).

Lemma plain_nil : plain [].
Proof. split; apply not_elem_of_nil. Qed.

Lemma find_crlf w rest : (13 ∉ w) -> find_sub _CRLF (w ++ _CRLF ++ rest) = Some (length w).
Proof.
  induction w as [|c w IH]; intros Hw; [done|]. apply not_elem_of_cons in Hw as [Hc Hw].
  cbn [app find_sub length]. rewrite bool_decide_false; [by rewrite IH|]. intros [k Hk]. cbn in Hk. congruence.
Qed.

Lemma read_line (r : R) w rest :
  plain w -> zlen w <= until_limit -> delivers r (w ++ _CRLF ++ rest) ->
  exists r', readuntil _CRLF r = Ok (w ++ _CRLF, r') /\ delivers r' rest.
Proof.
  intros [Hw _] Hl Hd. destruct (readuntil_found _CRLF r _ _ Hd (find_crlf w rest Hw) Hl) as (r' & Hr & Hd').
  exists r'. rewrite Hr. change (length _CRLF) with 2%nat in *. rewrite app_assoc in Hd' |- *.
  rewrite take_app_length' in * by (rewrite length_app; done). rewrite drop_app_length' in Hd' by (rewrite length_app; done). done.
Qed.

Lemma rstrip_line w : plain w -> rstrip _CRLF (w ++ _CRLF) = w.
Proof.
  intros [H1 H2]. unfold rstrip. rewrite reverse_app. change (reverse _CRLF) with [10; 13]. cbn [app lstrip].
  rewrite !bool_decide_true by set_solver. rewrite lstrip_id; [apply reverse_involutive|].
  intros c Hc%head_Some_elem_of. rewrite elem_of_reverse in Hc. unfold _CRLF. set_solver.
Qed.

(** ** The fields of a response *)

Definition clean (kv : field) : Prop := (58 ∉ kv.1) /\ plain kv.1 /\ plain kv.2 /\ strip WHITESPACE kv.1 = kv.1.
Definition cleaned (kv : field) : field := (lower kv.1, strip WHITESPACE kv.2).
Definition field_line (kv : field) : bytes := kv.1 ++ [58; 32] ++ kv.2.

Lemma plain_app w1 w2 : plain w1 -> plain w2 -> plain (w1 ++ w2).
Proof. unfold plain. set_solver. Qed.

Lemma read_fields_all fs : forall fuel pairs (r : R) rest,
  Forall clean fs -> Forall (fun kv => zlen (field_line kv) <= until_limit) fs -> 0 <= until_limit -> (length fs < fuel)%nat ->
  delivers r (mjoin ((fun x => x.1 ++ [58; 32] ++ x.2 ++ _CRLF) <$> fs) ++ _CRLF ++ rest) ->
  exists r', read_fields fuel pairs r = Ok (pairs ++ (cleaned <$> fs), r') /\ delivers r' rest.
Proof.
  induction fs as [|[k v] fs IH]; intros [|fuel] pairs r rest Hc Hl H0 Hf Hd; try (cbn in Hf; lia); cbn [read_fields].
  - destruct (read_line r [] rest) as (r' & -> & Hd'); [apply plain_nil|by rewrite zlen_nil|done|]. cbn [rbind]. rewrite bool_decide_true by done.
    exists r'. by rewrite app_nil_r.
  - apply Forall_cons in Hc as [(Hcol & Hk & Hv & Hs) Hc]. apply Forall_cons in Hl as [Hl1 Hl]. cbn [fst snd] in *.
    rewrite fmap_cons in Hd. cbn [mjoin list_join fst snd] in Hd. set (tl := mjoin _) in Hd.
    assert (Hp : plain (field_line (k, v))).
    { unfold field_line. cbn [fst snd]. apply plain_app; [done|]. apply plain_app; [by unfold plain; set_solver|done]. }
    destruct (read_line r (field_line (k, v)) (tl ++ _CRLF ++ rest)) as (r1 & -> & Hd1); [done|done| |].
    { unfold field_line. cbn [fst snd]. rewrite <- !app_assoc. rewrite <- !app_assoc in Hd. exact Hd. }
    cbn [rbind]. rewrite bool_decide_false.
    2: { unfold field_line. cbn [fst snd]. intros E. apply (f_equal length) in E. rewrite !length_app in E. cbn in E. lia. }
    rewrite rstrip_line by done. change (field_line (k, v)) with (k ++ 58 :: 32 :: v). rewrite partition_found by done. rewrite strip_space, Hs.
    destruct (IH fuel (pairs ++ [(lower k, strip WHITESPACE v)]) r1 rest) as (r' & -> & Hd'); try done; [cbn in Hf; lia|].
    exists r'. cbn [fmap list_fmap]. by rewrite <- app_assoc.
Qed.

(** ** Digits *)

Lemma digits_strip l : Forall (fun c => is_digit c = true) l -> strip WHITESPACE l = l.
Proof.
  intros Hd. assert (Hn : forall c, c ∈ l -> c ∉ WHITESPACE).
  { intros c Hc. rewrite Forall_forall in Hd. specialize (Hd c Hc). intros Hw. unfold is_digit in Hd.
    assert (Hall : Forall (fun c => (48 <=? c) && (c <=? 57) = false) WHITESPACE) by (repeat constructor).
    rewrite Forall_forall in Hall. rewrite (Hall c Hw) in Hd. done. }
  apply strip_id; intros c Hc; apply Hn; [by apply head_Some_elem_of|by apply last_Some_elem_of].
Qed.

Lemma str_int_digits n : 0 <= n -> Forall (fun c => is_digit c = true) (str_int n) /\ str_int n <> [].
Proof. intros Hn. unfold str_int. rewrite (proj2 (Z.ltb_ge _ _)) by lia. split; [by apply dec_nat_digits|apply dec_nat_nonempty]. Qed.

Lemma int_of_str_int n : 0 <= n < 2 ^ 64 -> int_of_bytes (str_int n) = Ok n.
Proof. intros Hn. destruct (Http1Sender.length_canonical n Hn) as [H1 H2]. by apply (Http1Parse.int_of_canonical _ _ H1 H2). Qed.

Lemma unpadded_str_int n : 0 <= n -> unpadded (str_int n) = str_int n.
Proof.
  intros Hn. destruct (Z.eq_dec n 0) as [->|Hz]; [done|]. unfold str_int. rewrite (proj2 (Z.ltb_ge _ _)) by lia.
  destruct (dec_nat_lead n ltac:(lia)) as (c & r & -> & Hc). unfold unpadded. cbn [lstrip]. rewrite bool_decide_false; [done|]. rewrite list_elem_of_singleton. lia.
Qed.

Lemma digit_no c l : is_digit c = false -> Forall (fun c => is_digit c = true) l -> c ∉ l.
Proof. intros Hc Hl Hin. rewrite Forall_forall in Hl. specialize (Hl c Hin). congruence. Qed.

(** ** The body of a response *)

Lemma declared_one h n :
  HttpHeaders.getlist (lit "content-length") h = [(lit "content-length", str_int n)] -> 0 <= n < 2 ^ 64 -> _declared_length h = Ok (Some n).
Proof.
  intros Hg Hn. unfold _declared_length. rewrite Hg. cbn [fmap list_fmap snd mjoin list_join]. destruct (str_int_digits n ltac:(lia)) as [Hd Hne].
  rewrite split_on_absent by (by apply digit_no). cbn [app length_values]. rewrite digits_strip by done.
  assert (Hi : isdigit (str_int n) = true).
  { unfold isdigit. rewrite bool_decide_false by done. cbn [negb andb]. apply forallb_forall. intros c Hc.
    rewrite Forall_forall in Hd. by apply Hd, list_elem_of_In. }
  rewrite Hi. cbn [negb]. rewrite bool_decide_false by set_solver. cbn [app rbind]. rewrite unpadded_str_int by lia.
  destruct (Http1Sender.length_canonical n Hn) as [_ H2]. unfold Http1Sender._content_length_bytes in H2. by rewrite H2.
Qed.

Lemma hex_facts n : 0 <= n < 2 ^ 64 ->
  Http1Body.int_hex (hex_nat n) = n /\ hex_nat n <> [] /\ Forall (fun c => c ∈ Http1Body._HEXDIG_SET /\ 48 <= c <= 102 /\ c <> 59) (hex_nat n).
Proof.
  intros Hn. destruct (hex_aux_spec Http1Body.hex_digit_value (S (Z.to_nat (Z.log2 n))) n) as [Hv Hd].
  { intros d Hd. by apply Http1Sender.hex_digit_facts. }
  { split; [lia|]. apply hex_nat_bound. lia. }
  split; [exact Hv|]. split; [apply hex_aux_nonempty; lia|].
  eapply Forall_impl; [exact Hd|]. intros c (d & Hd' & ->). by apply Http1Sender.hex_digit_facts.
Qed.

(** What a hexadecimal digit is not. *)
Lemma hexdig_facts c : c ∈ Http1Body._HEXDIG_SET -> (c ∉ WHITESPACE) /\ c <> 45 /\ c <> 43 /\ c <> 95 /\ c <> 120 /\ c <> 88 /\ c <> 13 /\ c <> 10 /\ is_Some (hex_of c).
Proof.
  intros Hc. assert (H : Forall (fun c => bool_decide ((c ∉ WHITESPACE) /\ c <> 45 /\ c <> 43 /\ c <> 95 /\ c <> 120 /\ c <> 88 /\ c <> 13 /\ c <> 10 /\ is_Some (hex_of c)) = true) Http1Body._HEXDIG_SET)
    by (apply Forall_forall; intros x Hx; revert x Hx; apply Forall_forall; repeat constructor).
  rewrite Forall_forall in H. by apply H, bool_decide_eq_true in Hc.
Qed.

Lemma int16_hex l :
  l <> [] -> Forall (fun c => c ∈ Http1Body._HEXDIG_SET) l -> int16_of_bytes l = Ok (Http1Body.int_hex l).
Proof.
  intros Hne Hl. assert (Hf : forall c, c ∈ l -> (c ∉ WHITESPACE) /\ c <> 45 /\ c <> 43 /\ c <> 95 /\ c <> 120 /\ c <> 88 /\ is_Some (hex_of c)).
  { intros c Hc. rewrite Forall_forall in Hl. destruct (hexdig_facts c (Hl c Hc)) as (?&?&?&?&?&?&_&_&?). done. }
  unfold int16_of_bytes. rewrite (strip_id WHITESPACE l).
  2: { intros c Hc%head_Some_elem_of. by destruct (Hf c Hc). }
  2: { intros c Hc%last_Some_elem_of. by destruct (Hf c Hc). }
  assert (Hh : forall x, (x = 45 \/ x = 43 \/ x = 95) -> bool_decide (head l = Some x) = false).
  { intros x Hx. apply bool_decide_eq_false. intros E%head_Some_elem_of. apply Hf in E. naive_solver. }
  rewrite !Hh by tauto. cbn [orb].
  assert (Hp : forall a b, b = 120 \/ b = 88 -> bool_decide (take 2 l = [a; b]) = false).
  { intros a b Hb. apply bool_decide_eq_false. intros E. assert (Hin : b ∈ take 2 l) by (rewrite E; set_solver).
    apply elem_of_take in Hin as (i & Hin & _). apply list_elem_of_lookup_2, Hf in Hin. naive_solver. }
  change (lit "0x") with [48; 120]. change (lit "0X") with [48; 88]. rewrite !Hp by tauto. cbn [orb andb].
  rewrite split_on_absent by (intros E; apply Hf in E; naive_solver). cbn [forallb]. rewrite bool_decide_false by done. cbn [negb andb].
  replace (forallb _ l) with true; [cbn [andb mjoin list_join]; rewrite app_nil_r; by rewrite Z.mul_1_l|].
  symmetry. apply forallb_forall. intros c Hc. apply bool_decide_eq_true. apply Hf. by apply list_elem_of_In.
Qed.

Lemma read_size_hex n : 0 <= n < 2 ^ 64 -> plain (hex_nat n) /\ read_size (hex_nat n ++ _CRLF) = Ok n.
Proof.
  intros Hn. destruct (hex_facts n Hn) as (Hv & Hne & Hl). rewrite Forall_forall in Hl.
  assert (Hp : plain (hex_nat n)).
  { split; intros Hc; destruct (Hl _ Hc) as (_ & ? & _); lia. }
  split; [done|]. unfold read_size. rewrite rstrip_line by done. rewrite partition_absent by (intros Hc; by destruct (Hl _ Hc) as (_ & _ & ?)).
  cbn [fst]. rewrite int16_hex; [by rewrite Hv|done|]. apply Forall_forall. intros c Hc. by apply Hl.
Qed.

Lemma hex_short n : 0 <= n < 2 ^ 64 -> zlen (hex_nat n) <= 64.
Proof.
  intros Hn. unfold zlen, hex_nat. pose proof (hex_aux_length (S (Z.to_nat (Z.log2 n))) n).
  assert (Z.log2 n < 64 \/ n = 0) as [?|E] by (destruct (Z.eq_dec n 0); [by right|left; apply Z.log2_lt_pow2; lia]); [lia|].
  rewrite E in *. cbn in *. lia.
Qed.

Lemma read_chunked_all cs : forall fuel (r : R) rest,
  Forall (fun c => zlen c < 2 ^ 64) cs -> 64 <= until_limit -> (length cs < fuel)%nat ->
  delivers r (mjoin (Http1Sender.frame <$> cs) ++ Http1Sender.last_chunk ++ rest) ->
  exists r', _read_chunked fuel r = Ok (filter (fun c => c <> []) cs, r') /\ delivers r' rest.
Proof.
  intros fuel r rest Hcs Hl. revert fuel r. induction Hcs as [|c cs Hc Hcs IH]; intros fuel r Hf Hd.
  - destruct fuel as [|fuel]; [cbn in Hf; lia|]. cbn [_read_chunked].
    destruct (read_line r [48] (_CRLF ++ rest)) as (r1 & -> & Hd1); [by unfold plain; set_solver|change (zlen [48]) with 1; lia|exact Hd|].
    change (read_size ([48] ++ _CRLF)) with (Ok 0 : result Z). cbn [rbind Z.eqb].
    destruct (read_line r1 [] rest) as (r2 & -> & Hd2); [apply plain_nil|rewrite zlen_nil; lia|done|]. by exists r2.
  - rewrite fmap_cons in Hd. cbn [mjoin list_join] in Hd. rewrite filter_cons. unfold Http1Sender.frame at 1 in Hd.
    destruct (bool_decide_reflect (c = [])) as [->|Hne].
    + rewrite decide_False by tauto. apply IH; [cbn in Hf; lia|exact Hd].
    + rewrite decide_True by done. destruct fuel as [|fuel]; [cbn in Hf; lia|]. cbn [_read_chunked].
      assert (Hpos : 0 < zlen c) by (destruct c; [done|rewrite zlen_cons; pose proof (zlen_nonneg c); lia]).
      destruct (read_size_hex (zlen c)) as [Hp Hs]; [lia|]. unfold Http1Sender.chunk in Hd. rewrite <- !app_assoc in Hd.
      destruct (read_line r (hex_nat (zlen c)) _ Hp ltac:(pose proof (hex_short (zlen c)); lia) Hd) as (r1 & -> & Hd1). cbn [rbind].
      rewrite Hs. cbn [rbind]. rewrite (proj2 (Z.eqb_neq _ _)) by lia.
      destruct (readexactly_app r1 c _ (zlen c) Hd1 eq_refl) as (r2 & -> & Hd2). cbn [rbind].
      destruct (read_line r2 [] _ plain_nil ltac:(rewrite zlen_nil; lia) Hd2) as (r3 & -> & Hd3). cbn [rbind].
      destruct (IH fuel r3) as (r' & -> & Hd'); [cbn in Hf; lia|exact Hd3|]. by exists r'.
Qed.

Lemma join_nonempty (cs : list bytes) : mjoin (filter (fun c => c <> []) cs) = mjoin cs.
Proof. induction cs as [|c cs IH]; [done|]. rewrite filter_cons. destruct (decide (c <> [])) as [|E]; cbn; [by f_equal|]. destruct c; [done|by destruct E]. Qed.

(** Slices add up to the body. *)
Lemma read_slices_all : forall fuel n (r : R) b rest,
  n = zlen b -> (length b <= fuel)%nat -> delivers r (b ++ rest) ->
  exists cs r', read_slices fuel n r = Ok (cs, r') /\ mjoin cs = b /\ delivers r' rest /\
    Forall (fun c => 0 < zlen c <= _STREAM_CHUNK_SIZE) cs.
Proof.
  induction fuel as [|fuel IH]; intros n r b rest Hn Hf Hd; cbn [read_slices].
  - destruct b; [|cbn in Hf; lia]. subst n. exists [], r. by split_and!.
  - destruct (Z.ltb_spec 0 n) as [Hpos|Hpos].
    + set (k := Z.min n _STREAM_CHUNK_SIZE). assert (Hk : 0 < k <= _STREAM_CHUNK_SIZE) by (unfold k, _STREAM_CHUNK_SIZE; lia).
      assert (Hb : zlen (take (Z.to_nat k) b) = k) by (unfold zlen; rewrite length_take; unfold zlen in Hn; lia).
      rewrite <- (take_drop (Z.to_nat k) b), <- app_assoc in Hd. destruct (readexactly_app r _ _ k Hd ltac:(by rewrite Hb)) as (r1 & -> & Hd1). cbn [rbind].
      destruct (IH (n - zlen (take (Z.to_nat k) b)) r1 (drop (Z.to_nat k) b) rest) as (cs & r' & -> & Hj & Hd' & Hsz); [|rewrite length_drop; lia|done|].
      { rewrite Hb. unfold zlen. rewrite length_drop. unfold zlen in Hn. lia. }
      exists (take (Z.to_nat k) b :: cs), r'. split_and!; [done| |done|constructor; [by rewrite Hb|done]].
      rewrite <- (take_drop (Z.to_nat k) b) at 2. by rewrite <- Hj.
    + destruct b; [|rewrite zlen_cons in Hn; pose proof (zlen_nonneg b); lia]. exists [], r. by split_and!.
Qed.

(** ** A whole response *)

Section Response.
Context (http_date : bytes).

Abbreviation render_start := Http1Sender._render_start.
Abbreviation sent := (Http1Sender.sent http_date).

Lemma phrase_plain st : plain (default [] (Http1Sender.phrase st)).
Proof.
  assert (H : Forall (fun x => bool_decide (plain x.2) = true) Http1Sender.HTTPStatus) by (repeat constructor).
  unfold Http1Sender.phrase. destruct (dget Http1Sender.HTTPStatus st) as [p|] eqn:E; [|apply plain_nil].
  rewrite Forall_forall in H. cbn. apply dget_elem in E. specialize (H _ E). by apply bool_decide_eq_true in H.
Qed.

Lemma status_line_plain st : 0 <= st -> plain (lit "HTTP/1.1 " ++ str_int st ++ [32] ++ default [] (Http1Sender.phrase st)).
Proof.
  intros Hst. destruct (str_int_digits st Hst) as [Hd _]. apply plain_app; [by split; decide_it|]. apply plain_app.
  - by split; apply digit_no.
  - apply plain_app; [by unfold plain; set_solver|apply phrase_plain].
Qed.

Lemma read_start_sent st h fuel (r : R) rest :
  200 <= st < 1000 -> Forall clean (HttpHeaders._list h) -> zlen (render_start st h) <= until_limit ->
  (length (HttpHeaders._list h) < fuel)%nat -> delivers r (render_start st h ++ rest) ->
  exists r', _read_start fuel r = Ok (st, HttpHeaders.__init__ (cleaned <$> HttpHeaders._list h), r') /\ delivers r' rest.
Proof.
  intros Hst Hc Hl Hf Hd. unfold Http1Sender._render_start, Http1Sender._status_line in Hd, Hl. set (fields := mjoin _) in *.
  set (line := lit "HTTP/1.1 " ++ str_int st ++ [32] ++ default [] (Http1Sender.phrase st)).
  assert (E : (lit "HTTP/1.1 " ++ str_int st ++ [32] ++ default [] (Http1Sender.phrase st) ++ Http1Sender._CRLF) ++ fields ++ Http1Sender._CRLF =
    line ++ _CRLF ++ fields ++ _CRLF) by (unfold line; by rewrite <- !app_assoc).
  rewrite E in Hd, Hl. rewrite !zlen_app in Hl. pose proof (zlen_nonneg fields). pose proof (zlen_nonneg line).
  change (zlen _CRLF) with 2 in Hl. rewrite <- !app_assoc in Hd.
  destruct (read_line r line _ (status_line_plain st ltac:(lia)) ltac:(lia) Hd) as (r1 & Hr1 & Hd1).
  unfold _read_start. rewrite Hr1. cbn [rbind]. rewrite rstrip_line by (apply status_line_plain; lia).
  unfold line at 1. change (lit "HTTP/1.1 ") with (lit "HTTP/1.1" ++ [32]). rewrite <- app_assoc. cbn [app].
  rewrite partition_found by decide_it. cbn [negb]. destruct (str_int_digits st ltac:(lia)) as [Hdig _].
  rewrite partition_found by (by apply digit_no). cbn [fst]. rewrite int_of_str_int by lia.
  destruct (read_fields_all (HttpHeaders._list h) fuel [] r1 rest) as (r' & Hr' & Hd'); try done; [|lia|by rewrite Hr'; exists r'].
  apply Forall_forall. intros kv Hkv. assert (zlen (field_line kv) <= zlen fields); [|lia].
  transitivity (zlen (kv.1 ++ [58; 32] ++ kv.2 ++ Http1Sender._CRLF)).
  - unfold field_line. rewrite !zlen_app. change (zlen Http1Sender._CRLF) with 2. lia.
  - apply zlen_join_elem, list_elem_of_fmap. by exists kv.
Qed.

Lemma named_cleaned n (l : list field) : HttpHeaders.named n (cleaned <$> l) = cleaned <$> HttpHeaders.named n l.
Proof.
  unfold HttpHeaders.named. induction l as [|[k v] l IH]; [done|]. rewrite fmap_cons, !filter_cons. cbn [cleaned fst]. rewrite lower_idem.
  destruct (decide (lower k = lower n)); [by rewrite fmap_cons, IH|done].
Qed.

(** The framing the client reads off is the one the sender chose. *)
Lemma sent_understood hs streamed n :
  Http1Sender.unframed hs -> 0 <= n < 2 ^ 64 ->
  let h := HttpHeaders.__init__ (cleaned <$> HttpHeaders._list (sent hs streamed n)) in
  is_chunked h = streamed /\ (streamed = false -> _declared_length h = Ok (Some n)).
Proof.
  intros Hu Hn h. destruct (Http1Sender.sent_framing http_date hs streamed n Hu) as [Hcl Hte].
  destruct (Http1Sender.sent_list http_date hs streamed n) as (date & _ & _ & Hok).
  assert (Hg : forall name, HttpHeaders.getlist name h = cleaned <$> HttpHeaders.getlist name (sent hs streamed n)).
  { intros name. rewrite !HttpHeaders.getlist_named by (done || apply HttpHeaders.init_index_ok). apply named_cleaned. }
  split.
  - unfold is_chunked. rewrite Http1Loop.get_of_getlist, Hg, Hte. by destruct streamed; vm_compute.
  - intros ->. apply declared_one; [|done]. rewrite Hg, Hcl. cbn [fmap list_fmap]. unfold cleaned, Http1Sender.framing_field. cbn [fst snd].
    unfold Http1Sender._content_length_bytes. destruct (str_int_digits n ltac:(lia)) as [Hd _]. rewrite digits_strip by done. done.
Qed.

Lemma sent_clean hs streamed n :
  Forall clean hs -> plain http_date -> 0 <= n -> Forall clean (HttpHeaders._list (sent hs streamed n)).
Proof.
  intros Hc Hd Hn. destruct (Http1Sender.sent_list http_date hs streamed n) as (date & -> & Hdate & _).
  apply Forall_app. split; [done|]. constructor.
  - unfold Http1Sender.framing_field. destruct streamed; [by repeat split; decide_it|].
    destruct (str_int_digits n Hn) as [Hdig _]. repeat split; try decide_it; cbn [snd]; unfold Http1Sender._content_length_bytes; by apply digit_no.
  - eapply Forall_impl; [exact Hdate|]. intros x ->. repeat split; try decide_it; apply Hd.
Qed.

Definition received (st : Z) (hs : list field) (streamed : bool) (content : bytes) : ClientResponse :=
  mkResponse st (HttpHeaders.__init__ (cleaned <$> HttpHeaders._list (sent hs streamed (zlen content)))) content.

(** The client on the octets of a response of the package's own server. *)
Lemma response_read es st hs content streamed s :
  Http1Sender.ready s -> Http1Sender.response es st hs content streamed -> Http1Sender.unframed hs -> 200 <= st < 1000 -> zlen content < 2 ^ 64 ->
  Http1Sender._head_mode s = false -> Forall clean hs -> plain http_date ->
  64 <= until_limit -> zlen (render_start st (sent hs streamed (zlen content))) <= until_limit ->
  exists s' w enough, Http1Sender.send_all http_date es s = (Ok tt, s') /\ Http1Sender.wire s' = Http1Sender.wire s ++ w /\
    forall fuel (r : R) rest, (enough <= fuel)%nat -> delivers r (w ++ rest) ->
      (exists r', receive fuel r = Ok (received st hs streamed content, r') /\ delivers r' rest) /\
      (exists cs r', stream fuel r = Ok (cs, r') /\ mjoin cs = content /\ delivers r' rest).
Proof.
  intros Hs Hr Hu Hst Hlen Hh Hc Hdate Hl64 Hl. pose proof (zlen_nonneg content) as Hpos. set (h := sent hs streamed (zlen content)) in *.
  destruct (Http1Sender.send_response_frames http_date es st hs content streamed s Hr Hs Hu ltac:(lia) Hlen) as (s' & w & Hsend & Hw & Hbody).
  fold h in Hw. rewrite Hh in Hw.
  destruct (sent_understood hs streamed (zlen content) Hu ltac:(lia)) as [Hch Hdecl]. fold h in Hch, Hdecl.
  pose proof (sent_clean hs streamed (zlen content) Hc Hdate Hpos) as Hclean. fold h in Hclean.
  assert (Hread : exists enough, forall fuel (r : R) rest, (enough <= fuel)%nat -> delivers r (w ++ rest) ->
    (exists r', _read_body fuel (HttpHeaders.__init__ (cleaned <$> HttpHeaders._list h)) r = Ok (content, r') /\ delivers r' rest) /\
    (exists cs r', _stream_body fuel (HttpHeaders.__init__ (cleaned <$> HttpHeaders._list h)) r = Ok (cs, r') /\ mjoin cs = content /\ delivers r' rest)).
  { unfold _read_body, _stream_body. rewrite Hch. destruct streamed.
    - destruct Hbody as (cs & -> & <- & Hcs). exists (S (length cs)). intros fuel r rest Hf Hd. rewrite <- app_assoc in Hd.
      destruct (read_chunked_all cs fuel r rest Hcs Hl64 ltac:(lia) Hd) as (r' & Hrc & Hd'). rewrite Hrc. cbn [rbind].
      split; [exists r'|exists (filter (fun c => c <> []) cs), r']; by rewrite join_nonempty.
    - subst w. exists (length content). intros fuel r rest Hf Hd. rewrite Hdecl by done. cbn [rbind].
      destruct (readexactly_app r content rest _ Hd eq_refl) as (r' & Hre & Hd').
      destruct (read_slices_all fuel (zlen content) r content rest eq_refl Hf Hd) as (cs & r2 & Hsl & Hj & Hd2 & _).
      destruct (zlen content) eqn:En; [|split; [by exists r'|by exists cs, r2]..].
      assert (content = []) as -> by (destruct content; [done|rewrite zlen_cons in En; pose proof (zlen_nonneg content); lia]).
      split; [by exists r|by exists [], r]. }
  destruct Hread as [enough Hread]. exists s', (render_start st h ++ w), (enough + S (length (HttpHeaders._list h)))%nat.
  split; [done|]. split; [done|]. intros fuel r rest Hf Hd. rewrite <- app_assoc in Hd.
  destruct (read_start_sent st h fuel r (w ++ rest) Hst Hclean Hl ltac:(lia) Hd) as (r1 & Hstart & Hd1).
  destruct (Hread fuel r1 rest ltac:(lia) Hd1) as [(r2 & Hb & Hd2) (cs & r3 & Hsb & Hj & Hd3)].
  split; [exists r2|exists cs, r3]; unfold receive, stream; rewrite Hstart; cbn [rbind]; [by rewrite Hb|by rewrite Hsb].
Qed.

End Response.
End Recipient.
(** ** What the client writes, the server serves *)

Section Requests.
Abbreviation named := HttpHeaders.named.

Definition content_of (b : RequestBody) : bytes := match b with Fixed b => b | Chunks cs => mjoin cs end.
Definition wire_of (b : RequestBody) : bytes :=
  match b with Fixed b => b | Chunks cs => mjoin (send_chunk <$> cs) ++ [48] ++ _CRLF ++ _CRLF end.
Definition length_of (b : RequestBody) : Z := match b with Fixed b => zlen b | Chunks _ => 0 end.

Definition host_part (authority : bytes) (fields : list field) : list field :=
  if bool_decide (named (lit "host") fields = []) then [(lit "host", authority)] else [].

Definition framing_part (m : bytes) (b : RequestBody) : list field :=
  match b with
  | Chunks _ => [(lit "transfer-encoding", lit "chunked")]
  | Fixed b => if 0 <? zlen b then [(lit "content-length", str_int (zlen b))]
               else if bool_decide (upper m ∈ _BODY_ALLOWED_METHODS) then [(lit "content-length", lit "0")] else []
  end.

(** The exchange a request is, in the terms of the server's own theorem. *)
Definition exchange_of (authority m path : bytes) (query : option bytes) (fields : list field) (b : RequestBody) : Http1Loop.exchange :=
  Http1Loop.mkExchange m path query (fields ++ host_part authority fields ++ framing_part m b) (length_of b) (wire_of b) (content_of b).

Definition host_value_ok (v : bytes) : Prop := v <> [] /\ Http1Parse._HOST_FORBIDDEN_RE v = false /\ Http1Parse.small v.

(** A request a user of the client may make. *)
Record sendable (authority m path : bytes) (query : option bytes) (fields : list field) (b : RequestBody) : Prop := mkSendable {
  sd_method : m <> [] /\ Forall (fun c => c ∈ Http1Parse._TCHAR_OCTETS) m /\ m <> lit "CONNECT";
  sd_path : head path = Some 47 /\ Forall (fun c => c ∈ Http1Parse._TARGET_ALLOWED_OCTETS) path /\ (35 ∉ path) /\ (63 ∉ path);
  sd_query : match query with Some q => Forall (fun c => c ∈ Http1Parse._TARGET_ALLOWED_OCTETS) q /\ (35 ∉ q) | None => True end;
  sd_fields : Forall Http1Parse.field_ok fields;
  sd_unframed : Http1Sender.unframed fields;
  sd_type : zlen (named (lit "content-type") fields) <= 1;
  sd_host : match named (lit "host") fields with
            | [] => host_value_ok authority /\ Http1Parse.field_ok (lit "host", authority)
            | [h] => host_value_ok h.2
            | _ => False
            end;
  sd_upgrade : named (lit "upgrade") fields = [];
  sd_connection : match named (lit "connection") fields with x :: _ => lower x.2 <> lit "close" | [] => True end;
  sd_size : match b with Fixed b => zlen b < 2 ^ 64 | Chunks cs => Forall (fun c => zlen c < 2 ^ 64) cs end
}.

Lemma tchar_ascii m : Forall (fun c => c ∈ Http1Parse._TCHAR_OCTETS) m -> Forall ascii_char m.
Proof.
  intros Hm. eapply Forall_impl; [exact Hm|]. intros c. revert c. apply Forall_forall.
  apply (bool_decide_unpack _). vm_compute. exact I.
Qed.

Lemma octets_ascii m : Forall (fun c => c ∈ Http1Parse._TARGET_ALLOWED_OCTETS) m -> Forall ascii_char m.
Proof.
  intros Hm. eapply Forall_impl; [exact Hm|]. intros c. revert c. apply Forall_forall.
  apply (bool_decide_unpack _). vm_compute. exact I.
Qed.

Lemma upper_ascii m : Forall ascii_char m -> Forall ascii_char (upper m).
Proof.
  intros Hm. unfold upper. apply Forall_fmap. eapply Forall_impl; [exact Hm|]. unfold ascii_char. intros c Hc. cbn.
  destruct (_ && _) eqn:E; lia.
Qed.

Section Sendable.
Context (authority m path : bytes) (query : option bytes) (fields : list field) (b : RequestBody).
Context (Hs : sendable authority m path query fields b).

Abbreviation x := (exchange_of authority m path query fields b).

Lemma start_rendered l : _write_start m (Http1Parse.target_of path query) l = Ok (Http1Parse.render m path query (HttpHeaders._list l)).
Proof.
  destruct Hs as [(_ & Hm & _) (_ & Hp & _) Hq _ _ _ _ _ _ _]. unfold _write_start. rewrite utf8_encode_ascii.
  - cbn [rbind]. f_equal. unfold Http1Parse.render. rewrite fmap_cons. change (mjoin (?y :: ?z)) with (y ++ mjoin z).
    change (lit " HTTP/1.1") with ([32] ++ lit "HTTP/1.1"). change _CRLF with Http1Parse.crlf.
    assert (E : forall l : list field, mjoin ((fun kv => kv.1 ++ lit ": " ++ kv.2 ++ Http1Parse.crlf) <$> l) =
      mjoin ((fun l => l ++ Http1Parse.crlf) <$> (Http1Parse.line_of <$> l))).
    { intros l'. induction l' as [|kv l' IH]; [done|]. rewrite !fmap_cons. change (mjoin (?y :: ?z)) with (y ++ mjoin z). rewrite IH.
      unfold Http1Parse.line_of. f_equal. change (58 :: 32 :: kv.2) with (lit ": " ++ kv.2). by rewrite <- !app_assoc. }
    rewrite E. change (32 :: ?y) with ([32] ++ y). by rewrite <- !app_assoc.
  - apply Forall_app. split; [by apply tchar_ascii|]. apply Forall_app. split; [repeat constructor; lia|]. apply Forall_app. split.
    + unfold Http1Parse.target_of. destruct query as [q|]; [|by apply octets_ascii]. apply Forall_app. split; [by apply octets_ascii|].
      constructor; [split; lia|]. by apply octets_ascii, Hq.
    + apply (bool_decide_unpack _). vm_compute. exact I.
Qed.

Lemma named_host_part n : lower n <> lit "host" -> named n (host_part authority fields) = [].
Proof.
  intros Hn. unfold host_part. destruct (bool_decide _); [|done]. rewrite HttpHeaders.named_one, decide_False; [done|].
  intros E. apply Hn. rewrite <- E. done.
Qed.

Lemma named_framing_part n :
  lower n <> lit "content-length" -> lower n <> lit "transfer-encoding" -> named n (framing_part m b) = [].
Proof.
  intros H1 H2. unfold framing_part.
  assert (Hnot : forall k v, lower k = k -> lower n <> k -> named n [(k, v)] = []).
  { intros k v Hk Hn. rewrite HttpHeaders.named_one, decide_False; [done|]. rewrite Hk. intros E. by apply Hn. }
  repeat case_match; try done; by apply Hnot.
Qed.

Lemma named_lowered n (l : list field) : named n (Http1Parse.lowered l) = Http1Parse.lowered (named n l).
Proof.
  unfold HttpHeaders.named, Http1Parse.lowered. induction l as [|[k v] l IH]; [done|].
  rewrite fmap_cons, !filter_cons. cbn [fst]. rewrite lower_idem. destruct (decide _); [by rewrite fmap_cons, IH|done].
Qed.

Lemma served_named n : HttpHeaders.getlist n (Http1Loop.x_headers x) =
  Http1Parse.lowered (named n fields ++ named n (host_part authority fields) ++ named n (framing_part m b)).
Proof.
  unfold Http1Loop.x_headers. rewrite Http1Parse.getlist_lowered by apply Http1Parse.lowered_lower.
  rewrite named_lowered. cbn [exchange_of Http1Loop.x_fields]. by rewrite !HttpHeaders.named_app.
Qed.

Lemma served_other n : lower n <> lit "host" -> lower n <> lit "content-length" -> lower n <> lit "transfer-encoding" ->
  HttpHeaders.getlist n (Http1Loop.x_headers x) = Http1Parse.lowered (named n fields).
Proof. intros H1 H2 H3. rewrite served_named, named_host_part, named_framing_part by done. by rewrite app_nil_r. Qed.

Lemma served_host : exists host, HttpHeaders.getlist (lit "host") (Http1Loop.x_headers x) = [host] /\ host_value_ok host.2.
Proof.
  destruct Hs as [_ _ _ _ _ _ Hh _ _ _]. rewrite served_named, named_framing_part by decide_it. rewrite app_nil_r. unfold host_part.
  destruct (named (lit "host") fields) as [|h [|]] eqn:E; [|exists (lower h.1, h.2); by split|done].
  rewrite bool_decide_true by done. exists (lit "host", authority). split; [reflexivity|apply Hh].
Qed.

Lemma served_length :
  HttpHeaders.getlist (lit "content-length") (Http1Loop.x_headers x) = named (lit "content-length") (framing_part m b) /\
  HttpHeaders.getlist (lit "transfer-encoding") (Http1Loop.x_headers x) = named (lit "transfer-encoding") (framing_part m b).
Proof.
  destruct Hs as [_ _ _ _ [Hcl Hte] _ _ _ _ _]. rewrite !served_named, !named_host_part by decide_it. rewrite Hcl, Hte. cbn [app].
  split; unfold framing_part; repeat case_match; reflexivity.
Qed.

Lemma served_framed : Http1Parse._validate_message_framing (Http1Loop.x_headers x) = Ok (length_of b).
Proof.
  destruct served_length as [Hcl Hte]. pose proof (sd_size _ _ _ _ _ _ Hs) as Hsize.
  unfold Http1Parse._validate_message_framing. rewrite Hcl, Hte.
  assert (Hone : forall v n, named (lit "content-length") [(lit "content-length", v)] = [(lit "content-length", v)] /\
    named (lit "transfer-encoding") [(lit "content-length", str_int n)] = []) by (intros; split; reflexivity).
  destruct b as [body|cs]; [|vm_compute; reflexivity]. unfold framing_part, length_of in *.
  destruct (Z.ltb_spec 0 (zlen body)) as [Hpos|Hneg].
  - destruct (Http1Sender.length_canonical (zlen body) ltac:(lia)) as [H1 H2]. unfold Http1Sender._content_length_bytes in *.
    rewrite (proj1 (Hone (str_int (zlen body)) 0)), (proj2 (Hone [] (zlen body))).
    rewrite (bool_decide_false (_ :: _ = [])), (bool_decide_true ([] = [])) by done. cbn [negb andb mbind list_bind snd]. rewrite Http1Parse.canonical_split by done.
    rewrite app_nil_r, Http1Parse.length_values_canonical by by repeat constructor. cbn [rbind forallb]. by rewrite H2.
  - assert (zlen body = 0) as -> by (pose proof (zlen_nonneg body); lia). by destruct (bool_decide _).
Qed.

Lemma served_message rest :
  Http1Loop.message (Http1Loop.x_headers x) (Http1Loop.x_length x) (Http1Loop.x_wire x ++ rest) rest (Http1Loop.x_content x).
Proof.
  destruct served_length as [_ Hte]. pose proof (sd_size _ _ _ _ _ _ Hs) as Hsize. unfold Http1Loop.message. rewrite Hte.
  cbn [exchange_of Http1Loop.x_length Http1Loop.x_wire Http1Loop.x_content]. destruct b as [body|cs].
  - assert (E : named (lit "transfer-encoding") (framing_part m (Fixed body)) = []) by (unfold framing_part; repeat case_match; done).
    by rewrite E.
  - rewrite bool_decide_false by done. exists (wire_of (Chunks cs)).
    split; [exact (Http1Sender.frames_body cs Hsize)|done].
Qed.

Lemma field_ok_one k v :
  k <> [] -> Forall (fun c => c ∈ Http1Parse._TCHAR_OCTETS) k -> (lower k ∉ Http1Parse._UNDERSCORE_FRAMING_NAMES) ->
  Forall (fun c => is_digit c = true) v \/ v = lit "chunked" -> (lower k = lit "content-length" -> Http1Parse.canonical_decimal v = true) ->
  Http1Parse.field_ok (k, v).
Proof.
  intros H1 H2 H3 Hv H5. destruct Hv as [Hv| ->]; constructor; try done.
  - apply not_true_iff_false. intros (c & Hc & Hi)%existsb_exists. rewrite Forall_forall in Hv.
    apply list_elem_of_In in Hc. specialize (Hv c Hc). revert Hi. unfold Http1Parse.value_octet_invalid, is_digit in *. lia.
  - apply (Http1Parse.strip_digits OWS _ Hv Http1Parse.OWS_no_digit).
Qed.

Lemma served_fields : Forall Http1Parse.field_ok (Http1Loop.x_fields x).
Proof.
  destruct Hs as [_ _ _ Hf _ _ Hh _ _ Hsize]. cbn [exchange_of Http1Loop.x_fields]. apply Forall_app. split; [done|]. apply Forall_app. split.
  - unfold host_part. destruct (named (lit "host") fields) eqn:E; [|by rewrite bool_decide_false]. rewrite bool_decide_true by done.
    apply Forall_cons_2; [apply Hh|apply Forall_nil_2].
  - unfold framing_part. destruct b as [body|cs]; [|apply Forall_cons_2; [|apply Forall_nil_2]; apply field_ok_one; [done|decide_it|decide_it|by right|]; by intros E%(bool_decide_eq_true_2 _)].
    assert (Hlen : forall n, 0 <= n < 2 ^ 64 -> Http1Parse.field_ok (lit "content-length", str_int n)).
    { intros n Hn. destruct (Http1Sender.length_canonical n Hn) as [Hc _]. destruct (Http1Parse.canonical_octets _ Hc) as [_ Hd].
      apply field_ok_one; [done|decide_it|decide_it|by left|done]. }
    destruct (Z.ltb_spec 0 (zlen body)); [apply Forall_cons_2; [apply Hlen; lia|apply Forall_nil_2]|].
    destruct (bool_decide _); [|done]. apply Forall_cons_2; [apply (Hlen 0); lia|apply Forall_nil_2].
Qed.

Lemma served_request : Http1Parse.request_ok m path query (Http1Loop.x_fields x) (length_of b).
Proof.
  destruct served_host as (host & Hhost & Hne & Hforb & Hsmall). pose proof served_framed as Hfr. pose proof served_fields as Hf.
  constructor; try done; try apply Hs.
  - fold (Http1Loop.x_headers x). rewrite served_other by decide_it. unfold Http1Parse.lowered, zlen. rewrite length_fmap. apply (sd_type _ _ _ _ _ _ Hs).
  - by exists host.
Qed.

(** The server takes the request for what the client meant. *)
Lemma served_exchange s max_line :
  (max_line = 0 \/ zlen (Http1Loop.x_head x) <= max_line) ->
  (Http1Loop.header_max_total s <= 0 \/ zlen (Http1Loop.x_head x) <= Http1Loop.header_max_total s) ->
  (Http1Body._max_body (Http1Loop.body_config s) = 0 \/ zlen (content_of b) <= Http1Body._max_body (Http1Loop.body_config s)) ->
  zlen (content_of b) <= Http1Loop._MAX_KEEPALIVE_DRAIN ->
  Http1Loop.exchange_ok s max_line x.
Proof.
  intros H1 H2 H3 H4. destruct Hs as [_ _ _ _ _ _ _ Hup Hconn _]. constructor; try done.
  - exact served_request.
  - exact served_message.
  - rewrite served_other by decide_it. by rewrite Hup.
  - rewrite Http1Loop.get_of_getlist, served_other by decide_it. destruct (named (lit "connection") fields); [decide_it|done].
  - destruct H3 as [?|H3]; [by left|right]. split; [|done]. cbn [exchange_of Http1Loop.x_length]. pose proof (zlen_nonneg (content_of b)).
    destruct b; cbn [length_of content_of] in *; lia.
Qed.

(** The client's two ways of writing the request. *)
Lemma send_rendered h :
  HttpHeaders.ok h -> HttpHeaders._list h = fields ++ host_part authority fields ->
  send m (Http1Parse.target_of path query) h b = Ok (Http1Loop.x_head x ++ Http1Loop.x_wire x).
Proof.
  intros Hok Hl. pose proof (sd_unframed _ _ _ _ _ _ Hs) as [Hcl Hte].
  assert (Hin : forall n, HttpHeaders.__contains__ n h = negb (bool_decide (named n (fields ++ host_part authority fields) = [])))
    by (intros n; rewrite HttpHeaders.contains_named by done; by rewrite Hl).
  pose proof start_rendered as Hstart. pose proof (upper_ascii _ (tchar_ascii m (proj1 (proj2 (sd_method _ _ _ _ _ _ Hs))))) as Hup.
  assert (Hx : Http1Loop.x_fields x = HttpHeaders._list h ++ framing_part m b) by (rewrite Hl, <- app_assoc; done).
  unfold send. rewrite !Hin, !HttpHeaders.named_app.
  assert (Hhost : named (lit "host") fields ++ named (lit "host") (host_part authority fields) <> []).
  { unfold host_part. destruct (named (lit "host") fields) eqn:E; [by rewrite bool_decide_true|done]. }
  rewrite bool_decide_false by done. cbn [negb]. unfold _send_fixed, _send_chunked, _normalize_content_length.
  clear Hs. destruct b as [body|cs]; rewrite !Hin, !HttpHeaders.named_app, ?Hcl, ?Hte, named_host_part, bool_decide_true by decide_it; cbn [negb app].
  - rewrite utf8_encode_ascii by done. cbn [rbind].
    set (y := exchange_of authority m path query fields (Fixed body)) in *.
    assert (Hgo : forall h', HttpHeaders._list h' = Http1Loop.x_fields y ->
      (let* start := _write_start m (Http1Parse.target_of path query) h' in Ok (start ++ body)) = Ok (Http1Loop.x_head y ++ Http1Loop.x_wire y))
      by (intros h' Hl'; by rewrite Hstart, Hl').
    unfold framing_part in Hx. destruct (0 <? zlen body); [|destruct (bool_decide _)]; cbn [rbind]; apply Hgo; rewrite Hx; [done..|by rewrite app_nil_r].
  - rewrite Hstart. cbn [rbind]. unfold Http1Loop.x_head. by rewrite Hx.
Qed.

Lemma request_rendered host port :
  utf8_encode (host ++ [58] ++ str_int port) = Ok authority ->
  request_octets host port m (Http1Parse.target_of path query) fields b = Ok (Http1Loop.x_head x ++ Http1Loop.x_wire x).
Proof.
  intros Ha. unfold request_octets, _headers_with_host. rewrite HttpHeaders.contains_named by apply HttpHeaders.init_index_ok.
  change (HttpHeaders._list (HttpHeaders.__init__ fields)) with fields.
  destruct (bool_decide_reflect (named (lit "host") fields = [])) as [E|E]; cbn [negb]; rewrite ?Ha; cbn [rbind]; apply send_rendered.
  - by apply HttpHeaders.append_pair_ok, HttpHeaders.init_index_ok.
  - unfold host_part. by rewrite bool_decide_true.
  - apply HttpHeaders.init_index_ok.
  - unfold host_part. rewrite bool_decide_false by done. by rewrite app_nil_r.
Qed.

End Sendable.
(** One call of [request]. *)
Record ask : Type := mkAsk { a_method : pystr; a_path : pystr; a_query : option pystr; a_fields : list field; a_body : RequestBody }.

Definition asked (authority : bytes) (a : ask) : Http1Loop.exchange :=
  exchange_of authority (a_method a) (a_path a) (a_query a) (a_fields a) (a_body a).

Definition ask_ok (authority : bytes) (a : ask) : Prop := sendable authority (a_method a) (a_path a) (a_query a) (a_fields a) (a_body a).

Definition ask_octets (host : pystr) (port : Z) (a : ask) : option bytes :=
  match request_octets host port (a_method a) (Http1Parse.target_of (a_path a) (a_query a)) (a_fields a) (a_body a) with
  | Ok w => Some w
  | Raise _ => None
  end.

(** What fits the limits a server is set up with. *)
Record within (s : Http1Loop.settings) (max_line : Z) (x : Http1Loop.exchange) : Prop := mkWithin {
  wi_line : max_line = 0 \/ zlen (Http1Loop.x_head x) <= max_line;
  wi_total : Http1Loop.header_max_total s <= 0 \/ zlen (Http1Loop.x_head x) <= Http1Loop.header_max_total s;
  wi_cap : Http1Body._max_body (Http1Loop.body_config s) = 0 \/ zlen (Http1Loop.x_content x) <= Http1Body._max_body (Http1Loop.body_config s);
  wi_drain : zlen (Http1Loop.x_content x) <= Http1Loop._MAX_KEEPALIVE_DRAIN
}.

Lemma asks_rendered host port authority asks :
  utf8_encode (host ++ [58] ++ str_int port) = Ok authority -> Forall (ask_ok authority) asks ->
  exists ws, mapM (ask_octets host port) asks = Some ws /\
    mjoin ws = Http1Loop.stream (asked authority <$> asks).
Proof.
  intros Ha. induction 1 as [|a asks Hok _ IH]; [by exists []|]. destruct IH as (ws & Hws & Hj).
  exists ((Http1Loop.x_head (asked authority a) ++ Http1Loop.x_wire (asked authority a)) :: ws). split.
  - assert (E : ask_octets host port a = Some (Http1Loop.x_head (asked authority a) ++ Http1Loop.x_wire (asked authority a))).
    { unfold ask_octets. by rewrite (request_rendered authority _ _ _ _ _ Hok host port Ha). }
    apply mapM_Some. constructor; [exact E|]. by apply mapM_Some.
  - change (mjoin (?y :: ?z)) with (y ++ mjoin z). by rewrite Hj.
Qed.

End Requests.

Section Conversation.
Context {R C : Type} `{!StreamReader R} `{!ByteReader C} `{!LineReader C}.


End Conversation.
(** ** Samples *)

Definition sample_asks : list ask :=
  [mkAsk (lit "GET") (lit "/") None [] (Fixed []);
   mkAsk (lit "POST") (lit "/a%20b") (Some (lit "x=1")) [(lit "Content-Type", lit "text/plain")] (Fixed (lit "hello, world"));
   mkAsk (lit "PUT") (lit "/up") None [(lit "Host", lit "other.example")] (Chunks [lit "ab"; []; lit "cde"])].

Definition sample_authority : bytes := lit "example.org:8080".

Definition sample_octets : list bytes := default [] (mapM (ask_octets (lit "example.org") 8080) sample_asks).

Definition sample_server : Http1Loop.connection bytes :=
  Http1Loop.mkLoop (Http1Parse.fresh false 8192) (mjoin sample_octets) []
    [Http1Loop.mkBehaviour 9 Http1Loop.Answers; Http1Loop.mkBehaviour 1 Http1Loop.Answers; Http1Loop.mkBehaviour 9 Http1Loop.Answers].

Example sample_sent : sample_octets =
  [lit "GET / HTTP/1.1" ++ _CRLF ++ lit "host: example.org:8080" ++ _CRLF ++ _CRLF;
   lit "POST /a%20b?x=1 HTTP/1.1" ++ _CRLF ++ lit "Content-Type: text/plain" ++ _CRLF ++ lit "host: example.org:8080" ++ _CRLF ++
     lit "content-length: 12" ++ _CRLF ++ _CRLF ++ lit "hello, world";
   lit "PUT /up HTTP/1.1" ++ _CRLF ++ lit "Host: other.example" ++ _CRLF ++ lit "transfer-encoding: chunked" ++ _CRLF ++ _CRLF ++
     lit "2" ++ _CRLF ++ lit "ab" ++ _CRLF ++ lit "3" ++ _CRLF ++ lit "cde" ++ _CRLF ++ lit "0" ++ _CRLF ++ _CRLF].
Proof. vm_compute. reflexivity. Qed.

Lemma sample_asks_ok : Forall (ask_ok sample_authority) sample_asks.
Proof.
  repeat apply Forall_cons_2; [..|apply Forall_nil_2]; constructor; cbn [a_method a_path a_query a_fields a_body];
    repeat first [apply Forall_nil_2|apply Forall_cons_2|split|done|decide_it].
Qed.

Lemma sample_within s max_line : s = Http1Loop.sample_settings -> max_line = 8192 ->
  Forall (fun a => within s max_line (asked sample_authority a)) sample_asks.
Proof.
  intros -> ->. repeat apply Forall_cons_2; [..|apply Forall_nil_2]; constructor; try (right; vm_compute; discriminate); try (vm_compute; discriminate); by left.
Qed.


(** ** What the client gets wrong *)

(** Only one line is read after the last chunk: with a trailer field in the
    response, the empty line after it is taken for the next status line. *)
Definition with_trailer : bytes :=
  lit "HTTP/1.1 200 OK" ++ _CRLF ++ lit "transfer-encoding: chunked" ++ _CRLF ++ _CRLF ++ lit "0" ++ _CRLF ++ lit "x-sum: 1" ++ _CRLF ++ _CRLF.
Definition plain_response : bytes := lit "HTTP/1.1 204 No Content" ++ _CRLF ++ _CRLF.

Lemma trailer_desyncs :
  rmap snd (receive 9 (with_trailer ++ plain_response)) = Ok (_CRLF ++ plain_response) /\
  receive 9 (_CRLF ++ plain_response) = Raise ProtocolError.
Proof. vm_compute. split; reflexivity. Qed.

(** The answer to a HEAD request declares the length of a body it does not
    have; the client waits for it. *)
Lemma head_answer_awaited :
  receive 9 (lit "HTTP/1.1 200 OK" ++ _CRLF ++ lit "content-length: 5" ++ _CRLF ++ _CRLF) = Raise IncompleteReadError.
Proof. vm_compute. reflexivity. Qed.

(** An interim response is returned as the response. *)
Lemma interim_taken_for_final :
  let interim := lit "HTTP/1.1 103 Early Hints" ++ _CRLF ++ _CRLF in
  receive 9 (interim ++ plain_response) = Ok (mkResponse 103 (HttpHeaders.__init__ []) [], plain_response).
Proof. vm_compute. reflexivity. Qed.

(** A second Content-Length of the caller goes out unchecked. *)
Lemma second_length_sent :
  request_octets (lit "h") 80 (lit "POST") (lit "/") [(lit "content-length", lit "1"); (lit "content-length", lit "9")] (Fixed [97]) =
  Ok (lit "POST / HTTP/1.1" ++ _CRLF ++ lit "content-length: 1" ++ _CRLF ++ lit "content-length: 9" ++ _CRLF ++ lit "host: h:80" ++ _CRLF ++ _CRLF ++ [97]).
Proof. vm_compute. reflexivity. Qed.

(** A line break in a field value starts a field of its own. *)
Lemma field_injected :
  request_octets (lit "h") 80 (lit "GET") (lit "/") [(lit "x", lit "1" ++ _CRLF ++ lit "y: 2")] (Fixed []) =
  request_octets (lit "h") 80 (lit "GET") (lit "/") [(lit "x", lit "1"); (lit "y", lit "2")] (Fixed []).
Proof. vm_compute. reflexivity. Qed.

(** A negative chunk size is a number to [int]: it is read for a chunk. *)
Lemma negative_size : read_size (lit "-5" ++ _CRLF) = Ok (-5).
Proof. vm_compute. reflexivity. Qed.

End HttpClient.
