(* ===== verification/Detect.v ===== *)
(** * Connections and their protocol (blackbull/server/protocol_registry.py,
      blackbull/server/connection_actor.py)

    What a freshly accepted connection goes through: the bindings of the
    registry look at its first octets, one of them serves it, and whatever
    comes of that the connection is closed and reported.  Readers are given by
    the interface [Sniffer], which [BufferReader] and the default methods of
    [AbstractReader] (recipient.py) implement; the protocols' own actors and
    the listeners are functions of what they are called with. *)

From Stdlib Require Import ZArith Lia.
From stdpp Require Import base tactics numbers option strings sets list.
From S2P Require Import Prelude PyLib PyText PyBytes Reader ReadBuffer BufferReader Events.

(** Looking ahead.  [sniffing r a l]: the reader is in a good state, [a] has
    arrived and [l] is all that is left to be read. *)
Class Sniffer (R : Type) `{!StreamReader R} : Type := {
  sniffing : R -> bytes -> bytes -> Prop;
  peek : Z -> R -> bytes;
  fill : Z -> R -> outcome bool * R;
  take_ahead : R -> bytes * R;
  sniffing_start r l : holds r l -> exists a, sniffing r a l;
  sniffing_prefix r a l : sniffing r a l -> a `prefix_of` l;
  peek_spec n r a l : sniffing r a l -> 0 <= n -> peek n r = take (Z.to_nat n) a;
  fill_spec n r a l :
    sniffing r a l -> exists (more : bool) a' r', fill n r = (Done more, r') /\ sniffing r' a' l /\ a `prefix_of` a' /\
      (if more then n <= zlen a' \/ (length a < length a')%nat else a' = l);
  take_ahead_spec r a l :
    sniffing r a l -> exists p rest r', take_ahead r = (p, r') /\ l = p ++ rest /\ holds r' rest
}.

(** The default methods of [AbstractReader]: what [fill] has read is parked. *)
Section Ahead.
Context {S : Type} `{!StreamReader S}.

Record AheadReader : Type := mkAhead { _ahead : bytes; _src : S }.

Definition lift {A} (m : S -> outcome A * S) (r : AheadReader) : outcome A * AheadReader :=
  let '(o, s) := m (_src r) in (o, mkAhead (_ahead r) s).

#[export] Instance ahead_stream : StreamReader AheadReader.
Proof.
  refine {| holds r l := _ahead r = [] /\ holds (_src r) l; ssize r := ssize (_src r); sread n := lift (sread n);
            sreadexactly n := lift (sreadexactly n); sreadline := lift sreadline; sread_head n := lift (sread_head n) |}; unfold lift.
  - intros [a s] l [_ H]. by apply holds_size.
  - intros n [a s] l [Ha H] Hn. destruct (sread_spec n s l H Hn) as (out & rest & s' & E & H' & Hl). cbn in *. rewrite E.
    by exists out, rest, (mkAhead a s').
  - intros n [a s] l [Ha H] Hn. destruct (sreadexactly_spec n s l H Hn) as (s' & E). exists (mkAhead a s'). cbn in *.
    destruct (n <=? zlen l); destruct E as [-> ?]; by split_and!.
  - intros [a s] l [Ha H]. destruct (sreadline_spec s l H) as (s' & E). exists (mkAhead a s'). cbn in *.
    destruct (find_char 10 l); destruct E as [-> ?]; by split_and!.
  - intros limit [a s] l [Ha H]. destruct (sread_head_spec limit s l H) as (o & s' & rest & E & H' & Hr). cbn in *. rewrite E.
    by exists o, (mkAhead a s'), rest.
Defined.

Definition ahead_fill (n : Z) (r : AheadReader) : outcome bool * AheadReader :=
  if n <=? zlen (_ahead r) then (Done true, r)
  else
    let '(o, s) := sread (n - zlen (_ahead r)) (_src r) in
    match o with
    | Done chunk => if bool_decide (chunk = []) then (Done false, mkAhead (_ahead r) s) else (Done true, mkAhead (_ahead r ++ chunk) s)
    | Incomplete p => (Incomplete p, mkAhead (_ahead r) s)
    | LimitHit p => (LimitHit p, mkAhead (_ahead r) s)
    | Failed e => (Failed e, mkAhead (_ahead r) s)
    | Stuck => (Stuck, mkAhead (_ahead r) s)
    end.

#[export] Instance ahead_sniffer : Sniffer AheadReader.
Proof.
  refine {| sniffing r a l := _ahead r = a /\ exists rest, l = a ++ rest /\ holds (_src r) rest;
            peek n r := take (Z.to_nat n) (_ahead r); fill := ahead_fill; take_ahead r := (_ahead r, mkAhead [] (_src r)) |}.
  - intros [a s] l [Ha H]. cbn in *. subst a. exists []. split; [done|]. by exists l.
  - intros r a l (_ & rest & -> & _). by exists rest.
  - by intros n r a l [-> _] _.
  - intros n [a s] a0 l (Ha & rest & -> & H). cbn in Ha, H. subst a0. unfold ahead_fill. cbn [_ahead _src].
    destruct (Z.leb_spec n (zlen a)) as [Hn|Hn].
    + exists true, a, (mkAhead a s). split_and!; eauto.
    + destruct (sread_spec (n - zlen a) s rest H ltac:(lia)) as (out & rest' & s' & -> & H' & -> & _ & He).
      destruct (bool_decide_reflect (out = [])) as [->|Hne].
      * pose proof (proj1 He eq_refl) as E. cbn [app] in E. subst rest'. exists false, a, (mkAhead a s').
        split_and!; [done|done| |done|by rewrite app_nil_r]. by exists [].
      * exists true, (a ++ out), (mkAhead (a ++ out) s'). split_and!; [done|done| |by exists out|].
        { exists rest'. by rewrite app_assoc. }
        right. rewrite length_app. destruct out; [done|cbn; lia].
  - intros [a s] a0 l (Ha & rest & -> & H). cbn in *. subst a0. exists a, rest, (mkAhead [] s). by split_and!.
Defined.
End Ahead.
Arguments AheadReader : clear implicits.

(** The connection's own reader keeps what it has seen. *)
#[export] Instance buffer_sniffer : @Sniffer BufferReader.conn BufferReader.stream_reader.
Proof.
  refine {| sniffing c a l := BufferReader.conn_ok c /\ BufferReader.contents c = l /\ a = ReadBuffer.unread (BufferReader._rb c);
            peek n := BufferReader.peek (Some n); fill := BufferReader.fill; take_ahead c := ([], c) |}.
  - intros c l [Hc <-]. by eexists.
  - intros c a l (Hc & <- & ->). by exists (BufferReader.wire c).
  - intros n c a l (Hc & _ & ->) Hn. pose proof (ReadBuffer.zlen_unread (BufferReader._rb c) (BufferReader.core_rb _ (BufferReader.conn_core _ Hc))) as Hz.
    unfold BufferReader.peek, ReadBuffer.view, ReadBuffer.unread, slice. rewrite take_take. f_equal.
    pose proof (zlen_nonneg (ReadBuffer.unread (BufferReader._rb c))). unfold ReadBuffer.available in *. lia.
  - intros n c a l (Hc & Hl & ->). unfold BufferReader.fill. remember (BufferReader.patience c) as fuel eqn:Ef.
    assert (Hf : (BufferReader.patience c <= fuel)%nat) by lia. clear Ef. revert c Hc Hl Hf.
    induction fuel as [|fuel IH]; intros c Hc Hl Hf; cbn [BufferReader.fill_loop];
      pose proof (BufferReader.available_resident c (BufferReader.conn_core _ Hc)) as Hav; rewrite Hav;
      (destruct (Z.ltb_spec (zlen (ReadBuffer.unread (BufferReader._rb c))) n) as [Hn|Hn];
        [|exists true, (ReadBuffer.unread (BufferReader._rb c)), c; split_and!; try done; by left]);
      destruct (BufferReader.peer_closed c) eqn:Ecl.
    1,3: exists false, (ReadBuffer.unread (BufferReader._rb c)), c; split_and!; try done;
      rewrite <- Hl; symmetry; by apply BufferReader.contents_closed; [apply Hc|].
    + unfold BufferReader.patience in Hf. rewrite Ecl in Hf. lia.
    + destruct (BufferReader.wait_for_data_spec c) as (c1 & -> & Hcar & Hp & _); [apply Hc|done|apply Hc|].
      destruct (IH c1) as (more & a' & c' & -> & Hs & Hpre & Hm); [| |lia|].
      * destruct Hc as [_ Hw Ho]. destruct Hcar as [? _ _ _ _ Hw' Ho']. split; [done|congruence..].
      * by rewrite (BufferReader.car_contents _ _ Hcar).
      * pose proof (BufferReader.car_resident _ _ Hcar) as Hr. exists more, a', c'. split; [done|]. split; [exact Hs|]. split; [by transitivity (ReadBuffer.unread (BufferReader._rb c1))|].
        destruct more; [|done]. destruct Hm as [?|Hm]; [by left|right]. apply prefix_length in Hr. lia.
  - intros c a l (Hc & Hl & _). by exists [], l, c.
Defined.

Module Detect.

Definition _HTTP2_PREFACE_FIRST_LINE : bytes := lit "PRI * HTTP/2.0" ++ [13; 10].
Definition _HTTP2_PREFACE_REMAINDER : bytes := [13; 10] ++ lit "SM" ++ [13; 10; 13; 10].
Definition _HTTP2_PREFACE : bytes := _HTTP2_PREFACE_FIRST_LINE ++ _HTTP2_PREFACE_REMAINDER.

(** ** Bindings *)

Record ProtocolDetector : Type := mkDetector { detect : bytes -> option bytes -> bool; prefix_len : Z }.

Inductive kind : Type := Http2Binding | Http1Binding | RawBinding (detector : option ProtocolDetector) (port : option Z).

Record ProtocolBinding : Type := mkBinding { b_name : pystr; b_kind : kind }.

Definition http2 : ProtocolBinding := mkBinding (lit "http2") Http2Binding.
Definition http1 : ProtocolBinding := mkBinding (lit "http1") Http1Binding.

Definition alpn_token (b : ProtocolBinding) : option bytes :=
  match b_kind b with Http2Binding => Some (lit "h2") | _ => None end.

Definition detect_prefix_len (b : ProtocolBinding) : Z :=
  match b_kind b with
  | Http2Binding => zlen _HTTP2_PREFACE_FIRST_LINE
  | Http1Binding | RawBinding None _ => 0
  | RawBinding (Some d) _ => prefix_len d
  end.

Definition claims (b : ProtocolBinding) (prefix : bytes) (alpn : option bytes) : bool :=
  match b_kind b with
  | Http2Binding => bool_decide (prefix = _HTTP2_PREFACE_FIRST_LINE)
  | Http1Binding => true
  | RawBinding None _ => false
  | RawBinding (Some d) _ => detect d prefix alpn
  end.

(** ** The registry *)

Record ProtocolRegistry : Type := mkRegistry {
  _cleartext : list ProtocolBinding;
  _alpn : dict bytes ProtocolBinding;
  _ports : dict pystr ProtocolBinding;
  _detection_order : list ProtocolBinding
}.

Definition __init__ : ProtocolRegistry :=
  let cleartext := [http2; http1] in
  mkRegistry cleartext
    (foldl (fun d b => match alpn_token b with Some t => dset d t b | None => d end) [] cleartext) [] cleartext.

Definition register (name : pystr) (detector : option ProtocolDetector) (port : option Z) (g : ProtocolRegistry)
  : result (ProtocolBinding * ProtocolRegistry) :=
  if dmem (_ports g) name || bool_decide (name ∈ b_name <$> _cleartext g) then Raise ValueError
  else
    let binding := mkBinding name (RawBinding detector port) in
    let ports := dset (_ports g) name binding in
    Ok (binding, mkRegistry (_cleartext g) (_alpn g) ports (dvalues ports ++ _cleartext g)).

Definition by_alpn (token : option bytes) (g : ProtocolRegistry) : option ProtocolBinding :=
  match token with
  | Some t => if bool_decide (t = []) then None else dget (_alpn g) t
  | None => None
  end.

Definition b_port (b : ProtocolBinding) : option Z := match b_kind b with RawBinding _ p => p | _ => None end.

Definition port_bindings (g : ProtocolRegistry) : dict Z ProtocolBinding :=
  foldl (fun d b => match b_port b with Some p => dset d p b | None => d end) [] (dvalues (_ports g)).

Definition _fallback_binding (g : ProtocolRegistry) : option ProtocolBinding := last (_cleartext g).

(** ** The reader a binding is given *)

Section Connection.
Context {R : Type} `{!StreamReader R} `{!Sniffer R}.

(** [PrefixReader] in front of a reader that had to read ahead. *)
Inductive input : Type := Plain (r : R) | PrefixReader (_buf : bytes) (_reader : R).

Definition replay (p : bytes) (r : R) : input := if bool_decide (p = []) then Plain r else PrefixReader p r.

Definition readexactly (n : Z) (i : input) : outcome bytes * input :=
  match i with
  | Plain r => let '(o, r) := sreadexactly n r in (o, Plain r)
  | PrefixReader b r =>
      if n <=? zlen b then (Done (take (Z.to_nat n) b), PrefixReader (drop (Z.to_nat n) b) r)
      else
        let '(o, r) := sreadexactly (n - zlen b) r in
        (match o with Done l => Done (b ++ l) | o => o end, PrefixReader [] r)
  end.

(** The whole stream lies before the reader. *)
Definition opens (i : input) (l : bytes) : Prop :=
  match i with Plain r => holds r l | PrefixReader p r => exists rest, l = p ++ rest /\ holds r rest end.

(** ** Detection *)

Fixpoint _select (prefix : bytes) (at_eof : bool) (alpn : option bytes) (order : list ProtocolBinding) : option ProtocolBinding :=
  match order with
  | [] => None
  | b :: order =>
      if negb at_eof && (zlen prefix <? detect_prefix_len b) then None
      else if claims b prefix alpn then Some b else _select prefix at_eof alpn order
  end.

Definition max_prefix (order : list ProtocolBinding) : Z := foldr (fun b m => Z.max (detect_prefix_len b) m) 0 order.

(** The loop of [_peek_and_select]; the deadline comes after [expires] fills. *)
Fixpoint peek_loop (fuel : nat) (alpn : option bytes) (order : list ProtocolBinding) (at_eof : bool) (want : Z) (expires : option nat) (r : R)
  : result (option ProtocolBinding) * R :=
  let max_len := max_prefix order in
  let prefix := peek max_len r in
  let binding := _select prefix at_eof alpn order in
  if bool_decide (is_Some binding) || at_eof || (max_len <=? zlen prefix) then (Ok binding, r)
  else
    let want := Z.max (want + 1) (zlen prefix + 1) in
    match expires, fuel with
    | Some O, _ => (Raise TimeoutError, r)
    | _, O => (Raise OutOfFuel, r)
    | _, S fuel =>
        let '(o, r) := fill (Z.min want max_len) r in
        match o with
        | Done more => peek_loop fuel alpn order (negb more) want (pred <$> expires) r
        | Failed e => (Raise e, r)
        | _ => (Raise OutOfFuel, r)
        end
    end.

Definition _peek_and_select (alpn : option bytes) (order : list ProtocolBinding) (expires : option nat) (r : R)
  : result (option ProtocolBinding) * R :=
  peek_loop (S (Z.to_nat (max_prefix order))) alpn order false 1 expires r.

(** [_peek], for a protocol that ALPN has settled. *)
Definition _peek (n : Z) (expires : option nat) (r : R) : result unit * R :=
  match expires with
  | Some O => (Raise TimeoutError, r)
  | _ =>
      let '(o, r) := fill n r in
      match o with Done _ => (Ok tt, r) | Failed e => (Raise e, r) | _ => (Raise OutOfFuel, r) end
  end.

(** *** What detection decides *)

(** A detector that looks at no more than the octets it asks for. *)
Definition sound_detector (d : ProtocolDetector) : Prop :=
  0 <= prefix_len d <= zlen _HTTP2_PREFACE_FIRST_LINE /\
  forall p alpn, detect d p alpn = detect d (take (Z.to_nat (prefix_len d)) p) alpn.

Definition sound (b : ProtocolBinding) : Prop :=
  match b_kind b with RawBinding (Some d) _ => sound_detector d | _ => True end.

(** The first binding that claims the stream. *)
Fixpoint chosen (alpn : option bytes) (order : list ProtocolBinding) (l : bytes) : option ProtocolBinding :=
  match order with
  | [] => None
  | b :: order => if claims b (take (Z.to_nat (detect_prefix_len b)) l) alpn then Some b else chosen alpn order l
  end.

Lemma sound_len b : sound b -> 0 <= detect_prefix_len b <= 16.
Proof. unfold sound, detect_prefix_len, sound_detector. change (zlen _HTTP2_PREFACE_FIRST_LINE) with 16. intros H. repeat case_match; lia. Qed.

Lemma claims_take b p alpn :
  sound b -> zlen p <= 16 -> claims b p alpn = claims b (take (Z.to_nat (detect_prefix_len b)) p) alpn.
Proof.
  intros Hb Hp. unfold claims, detect_prefix_len, sound in *. destruct (b_kind b) as [| |[d|] port]; [|done|apply Hb|done].
  rewrite take_ge; [done|]. change (zlen _HTTP2_PREFACE_FIRST_LINE) with 16. unfold zlen in Hp. lia.
Qed.

Lemma max_prefix_ge order b : b ∈ order -> detect_prefix_len b <= max_prefix order.
Proof. induction 1 as [|x order' order _ IH]; cbn [max_prefix foldr]; [lia|]. fold (max_prefix order). lia. Qed.

Lemma max_prefix_le order : Forall sound order -> 0 <= max_prefix order <= 16.
Proof. induction 1 as [|b order Hb _ IH]; cbn [max_prefix foldr]; [lia|]. fold (max_prefix order). apply sound_len in Hb. lia. Qed.

(** What is claimed early is what would be claimed of the whole stream. *)
Lemma select_chosen alpn m order a l at_eof :
  Forall sound order -> (forall b, b ∈ order -> detect_prefix_len b <= m) -> 0 <= m <= 16 -> a `prefix_of` l -> (at_eof = true -> a = l) ->
  match _select (take (Z.to_nat m) a) at_eof alpn order with
  | Some b => chosen alpn order l = Some b
  | None => at_eof = true \/ m <= zlen (take (Z.to_nat m) a) -> chosen alpn order l = None
  end.
Proof.
  intros Hs Hm Hm16 Ha He. induction Hs as [|b order Hb _ IH]; [done|]. cbn [_select chosen].
  assert (Hlen : zlen (take (Z.to_nat m) a) <= 16) by (unfold zlen; rewrite length_take; lia).
  pose proof (Hm b ltac:(by left)) as Hbm. pose proof (sound_len b Hb) as Hb16. set (p := take (Z.to_nat m) a) in *.
  destruct (Z.ltb_spec (zlen p) (detect_prefix_len b)) as [Hshort|Hlong]; [destruct at_eof; cbn [negb andb]|].
  - assert (E : take (Z.to_nat (detect_prefix_len b)) p = take (Z.to_nat (detect_prefix_len b)) l).
    { unfold p. rewrite take_take, He by done. f_equal. lia. }
    rewrite claims_take, E by done. destruct (claims b _ alpn); [done|]. apply IH. set_solver.
  - intros [?|?]; [done|lia].
  - rewrite andb_false_r.
    assert (E : take (Z.to_nat (detect_prefix_len b)) p = take (Z.to_nat (detect_prefix_len b)) l).
    { destruct Ha as [k ->]. unfold p in *. rewrite take_take, Nat.min_l by lia. rewrite take_app_le; [done|].
      unfold zlen in Hlong. rewrite length_take in Hlong. lia. }
    rewrite claims_take, E by done. destruct (claims b _ alpn); [done|]. apply IH. set_solver.
Qed.

Lemma peek_loop_spec alpn order l :
  Forall sound order -> forall fuel at_eof want expires r a,
  sniffing r a l -> (at_eof = true -> a = l) -> at_eof = true \/ (Z.to_nat (max_prefix order - zlen a) <= fuel)%nat ->
  exists r' a', sniffing r' a' l /\
    (peek_loop fuel alpn order at_eof want expires r = (Ok (chosen alpn order l), r') \/
     is_Some expires /\ peek_loop fuel alpn order at_eof want expires r = (Raise TimeoutError, r')).
Proof.
  intros Hs. pose proof (max_prefix_le order Hs) as Hm.
  induction fuel as [|fuel IH]; intros at_eof want expires r a Hr He Hf; cbn [peek_loop]; rewrite (peek_spec _ r a l Hr) by lia;
    pose proof (select_chosen alpn (max_prefix order) order a l at_eof Hs (max_prefix_ge order) Hm (sniffing_prefix _ _ _ Hr) He) as Hsel;
    set (p := take (Z.to_nat (max_prefix order)) a) in *.
  all: destruct (_select p at_eof alpn order) as [b|]; [exists r, a; split; [done|left; by rewrite Hsel]|].
  all: cbn [bool_decide]; rewrite (bool_decide_false (is_Some None)) by (by intros [? ?]); cbn [orb].
  all: destruct (at_eof || (max_prefix order <=? zlen p)) eqn:Estop;
    [exists r, a; split; [done|left]; rewrite Hsel; [done|destruct at_eof; [by left|right; cbn in Estop; lia]]|].
  all: apply orb_false_elim in Estop as [-> Hshort%Z.leb_gt].
  all: assert (Hp : p = a) by (unfold p, zlen in *; rewrite length_take in Hshort; apply take_ge; lia); rewrite Hp in *.
  - destruct expires as [[|k]|]; [exists r, a; split; [done|right; by split]|..]; destruct Hf; [done|lia|done|lia].
  - destruct expires as [[|k]|]; [exists r, a; split; [done|right; by split]|..].
    all: destruct (fill_spec (Z.min (Z.max (want + 1) (zlen a + 1)) (max_prefix order)) r a l Hr) as (more & a' & r' & -> & Hr' & Hpre & Hmore).
    all: assert (Hgrow : more = true -> zlen a < zlen a') by (intros ->; unfold zlen in *; destruct Hmore; lia).
    all: edestruct (IH (negb more)) as (r2 & a2 & Hr2 & Hres); [exact Hr'|destruct more; [done|by intros _]| |
      exists r2, a2; split; [exact Hr2|]; destruct Hres as [->|[Hx ->]]; [by left|right]].
    all: try (destruct more; [right; specialize (Hgrow eq_refl); destruct Hf; [done|lia]|by left]).
    + by split.
    + by destruct Hx.
Qed.

Lemma peek_and_select_spec alpn order l r a expires :
  Forall sound order -> sniffing r a l ->
  exists r' a', sniffing r' a' l /\
    (_peek_and_select alpn order expires r = (Ok (chosen alpn order l), r') \/
     is_Some expires /\ _peek_and_select alpn order expires r = (Raise TimeoutError, r')).
Proof.
  intros Hs Hr. apply (peek_loop_spec alpn order l Hs _ false 1 expires r a Hr); [done|right].
  unfold zlen. lia.
Qed.
(** *** The reader that is handed on *)

Lemma replay_opens p r rest : holds r rest -> opens (replay p r) (p ++ rest).
Proof. intros Hr. unfold replay. destruct (bool_decide_reflect (p = [])) as [->|]; [done|by exists rest]. Qed.

Lemma readexactly_opens n i l :
  opens i l -> 0 <= n ->
  if n <=? zlen l then exists i', readexactly n i = (Done (take (Z.to_nat n) l), i') /\ opens i' (drop (Z.to_nat n) l)
  else exists p i', readexactly n i = (Incomplete p, i').
Proof.
  intros Hi Hn. destruct i as [r|b r]; cbn [opens readexactly] in *.
  - destruct (sreadexactly_spec n r l Hi Hn) as [r' H]. destruct (n <=? zlen l); destruct H as [-> H].
    + by exists (Plain r').
    + by exists l, (Plain r').
  - destruct Hi as (rest & -> & Hr). rewrite zlen_app. pose proof (zlen_nonneg rest). destruct (Z.leb_spec n (zlen b)) as [Hb|Hb].
    + destruct (Z.leb_spec n (zlen b + zlen rest)); [|lia]. exists (PrefixReader (drop (Z.to_nat n) b) r).
      rewrite take_app_le, drop_app_le by (unfold zlen in Hb; lia). split; [done|]. by exists rest.
    + destruct (sreadexactly_spec (n - zlen b) r rest Hr ltac:(lia)) as [r' H'].
      destruct (Z.leb_spec (n - zlen b) (zlen rest)), (Z.leb_spec n (zlen b + zlen rest)); destruct H' as [-> H']; try lia.
      * exists (PrefixReader [] r'). rewrite take_app, drop_app, (take_ge b) by (unfold zlen in Hb; lia).
        rewrite (drop_ge b) by (unfold zlen in Hb; lia). cbn [app]. replace (Z.to_nat (n - zlen b)) with (Z.to_nat n - length b)%nat in * by (unfold zlen; lia).
        split; [done|]. by eexists.
      * by eexists _, _.
Qed.

(** ** The connection actor *)

(** What the actor does to the world outside; [Serve] calls the protocol's own
    actor, or the handler registered for a raw protocol. *)
Inductive act : Type :=
| Accepted (protocol : pystr)
| Serve (b : ProtocolBinding) (i : input)
| Wrote (l : bytes)
| CapHit (protocol : pystr)
| OnError (e : exn)
| Flush
| Close
| Closed (protocol : pystr).

Record world : Type := mkWorld { w_reader : R; _served_protocol : pystr; w_log : list act }.

Definition set_reader r w := mkWorld r (_served_protocol w) (w_log w).
Definition set_served p w := mkWorld (w_reader w) p (w_log w).
Definition log a w := mkWorld (w_reader w) (_served_protocol w) (w_log w ++ [a]).

(** The listener of a connection: what was negotiated, the registry, the
    binding of the port if it has one, and how the calls end. *)
Context (_registry : ProtocolRegistry) (_alpn_token : option bytes) (_bound_binding : option ProtocolBinding)
  (has_aggregator : bool) (header_timeout : Z) (expires : option nat) (answer : act -> result unit).

Abbreviation M := (smonad world).

Definition perform (a : act) : M unit := fun w => (answer a, log a w).

(** [try: ... except Exception: pass] *)
Definition best_effort (m : M unit) : M unit := scatch m (fun e => if Events.isa_Exception e then Some (sret tt) else None).

Definition be32 (n : Z) : bytes := [Z.land (Z.shiftr n 24) 255; Z.land (Z.shiftr n 16) 255; Z.land (Z.shiftr n 8) 255; Z.land n 255].

Definition goaway : bytes := [0; 0; 8; 7; 0; 0; 0; 0; 0] ++ [0; 0; 0; 0] ++ be32 1.

Definition serve_binding (b : ProtocolBinding) (i : input) : M unit :=
  match b_kind b with
  | Http2Binding =>
      let '(o, i) := readexactly (zlen _HTTP2_PREFACE) i in
      match o with
      | Done preface =>
          if negb (bool_decide (preface = _HTTP2_PREFACE)) then do! best_effort (perform (Wrote goaway)) in sraise ValueError
          else perform (Serve b i)
      | Incomplete _ => sraise IncompleteReadError
      | LimitHit _ => sraise ReadLimitExceeded
      | Failed e => sraise e
      | Stuck => sraise OutOfFuel
      end
  | Http1Binding | RawBinding _ _ => perform (Serve b i)
  end.

Definition request_timeout : bytes :=
  lit "HTTP/1.1 408 Request Timeout" ++ [13; 10] ++ lit "connection: close" ++ [13; 10] ++ lit "content-length: 0" ++ [13; 10; 13; 10].

Definition on_detect_timeout (b : ProtocolBinding) : M unit :=
  match b_kind b with Http1Binding => best_effort (perform (Wrote request_timeout)) | _ => sret tt end.

Definition _on_detect_timeout (b : option ProtocolBinding) : M unit :=
  if negb (0 <? header_timeout) then sraise PlainException       (* the assertion *)
  else do! perform (CapHit (match b with Some b => b_name b | None => lit "unknown" end)) in
  match b with Some b => on_detect_timeout b | None => sret tt end.

Definition expiry : option nat := if 0 <? header_timeout then expires else None.

(** The [try] of [_dispatch]: the binding, under the deadline. *)
Definition choose : M (option ProtocolBinding) := fun w =>
  match by_alpn _alpn_token _registry with
  | Some b =>
      let '(x, r) := _peek (detect_prefix_len b) expiry (w_reader w) in (rmap (fun _ => Some b) x, set_reader r w)
  | None =>
      let '(x, r) := _peek_and_select _alpn_token (_detection_order _registry) expiry (w_reader w) in (x, set_reader r w)
  end.

Definition _dispatch : M unit := fun w =>
  match _bound_binding with
  | Some b => serve_binding b (Plain (w_reader w)) w
  | None =>
      match choose w with
      | (Raise TimeoutError, w) =>
          _on_detect_timeout (match by_alpn _alpn_token _registry with Some b => Some b | None => _fallback_binding _registry end) w
      | (Raise e, w) => (Raise e, w)
      | (Ok None, w) => (Ok tt, w)
      | (Ok (Some b), w) =>
          let w := set_served (b_name b) w in
          let '(ahead, r) := take_ahead (w_reader w) in
          serve_binding b (replay ahead r) (set_reader r w)
      end
  end.

Definition announce (a : act) : M unit := if has_aggregator then perform a else sret tt.

(** [finally]: [k] runs whatever [m] did, and its exception wins. *)
Definition finally {A} (m : M A) (k : M unit) : M A := fun w =>
  let '(x, w) := m w in
  match k w with (Ok _, w) => (x, w) | (Raise e, w) => (Raise e, w) end.

Definition run : M unit :=
  do! (fun w => announce (Accepted (_served_protocol w)) w) in
  finally (scatch _dispatch (fun e => if Events.isa_Exception e then Some (announce (OnError e)) else None))
    (do! supdate (log Flush) in do! perform Close in fun w => announce (Closed (_served_protocol w)) w).

Definition __init__actor (r : R) : world :=
  mkWorld r (match _bound_binding with Some b => b_name b | None => lit "http" end) [].
(** ** The registry, and what a connection is served by *)

Inductive registered : ProtocolRegistry -> Prop :=
| fresh_registry : registered __init__
| one_more g name detector port b g' :
    registered g -> sound (mkBinding name (RawBinding detector port)) -> register name detector port g = Ok (b, g') -> registered g'.

Definition is_raw (b : ProtocolBinding) : Prop := match b_kind b with RawBinding _ _ => True | _ => False end.

Record registry_ok (g : ProtocolRegistry) : Prop := mkRegistryOk {
  ro_cleartext : _cleartext g = [http2; http1];
  ro_alpn : _alpn g = [(lit "h2", http2)];
  ro_order : _detection_order g = dvalues (_ports g) ++ [http2; http1];
  ro_raw : Forall (fun b => is_raw b /\ sound b) (dvalues (_ports g));
  ro_names : Forall (fun x => b_name x.2 = x.1 /\ x.1 <> lit "http2" /\ x.1 <> lit "http1") (_ports g);
  ro_ports : dict_ok (_ports g)
}.

Lemma registered_ok g : registered g -> registry_ok g.
Proof.
  induction 1 as [|g name detector port b g' _ [Hc Ha Ho Hr Hn Hp] Hs Hg]; [constructor; try done; constructor|].
  unfold register in Hg. destruct (dmem (_ports g) name) eqn:Em; [done|]. rewrite Hc in Hg. cbn [orb] in Hg.
  destruct (bool_decide_reflect (name ∈ b_name <$> [http2; http1])) as [|Hnew]; [done|]. injection Hg as _ <-.
  unfold dmem in Em. destruct (dget (_ports g) name) eqn:Ed; [done|]. rewrite (dset_fresh _ _ _ Ed).
  constructor; cbn [_cleartext _alpn _ports _detection_order]; try done.
  - unfold dvalues. rewrite fmap_app. apply Forall_app. split; [done|]. by repeat constructor.
  - apply Forall_app. split; [done|]. repeat constructor; cbn [fst]; intros ->; apply Hnew; cbn; set_solver.
  - rewrite <- dset_fresh by done. by apply dset_ok.
Qed.

(** The binding a stream is for: the one ALPN settled, or else the first that
    claims it. *)
Definition selected (l : bytes) : ProtocolBinding :=
  match by_alpn _alpn_token _registry with
  | Some b => b
  | None => default http1 (chosen _alpn_token (_detection_order _registry) l)
  end.

Lemma order_sound : registered _registry -> Forall sound (_detection_order _registry).
Proof.
  intros [_ _ -> Hr _ _]%registered_ok. apply Forall_app. split; [|by repeat constructor].
  eapply Forall_impl; [exact Hr|]. by intros b [_ ?].
Qed.

Lemma chosen_some alpn order l : http1 ∈ order -> exists b, chosen alpn order l = Some b.
Proof.
  intros (k1 & k2 & ->)%list_elem_of_split. induction k1 as [|b k1 IH]; cbn [app chosen]; [by exists http1|].
  destruct (claims b _ alpn); [by exists b|done].
Qed.

Lemma alpn_http2 b : registered _registry -> by_alpn _alpn_token _registry = Some b -> b = http2.
Proof.
  intros [_ Ha _ _ _ _]%registered_ok. unfold by_alpn. destruct _alpn_token as [t|]; [|done]. rewrite Ha. case_bool_decide; [done|].
  cbn. case_decide; [by intros [= <-]|done].
Qed.

(** Choosing reads nothing away, and takes the deadline at most once. *)
Lemma choose_spec w l :
  registered _registry -> holds (w_reader w) l ->
  exists r' a, sniffing r' a l /\
    (choose w = (Ok (Some (selected l)), set_reader r' w) \/ is_Some expiry /\ choose w = (Raise TimeoutError, set_reader r' w)).
Proof.
  intros Hreg Hr. destruct (sniffing_start _ _ Hr) as [a Ha]. unfold choose, selected.
  destruct (by_alpn _alpn_token _registry) as [b|] eqn:Eb.
  - unfold _peek. destruct (fill_spec (detect_prefix_len b) _ _ _ Ha) as (more & a' & r' & Hf & Hr' & _). rewrite Hf.
    destruct expiry as [[|k]|]; [exists (w_reader w), a; split; [done|right; by split]|..]; exists r', a'; (split; [done|by left]).
  - destruct (peek_and_select_spec _alpn_token (_detection_order _registry) l (w_reader w) a expiry (order_sound Hreg) Ha) as (r' & a' & Hr' & Hres).
    exists r', a'. split; [done|]. destruct Hres as [->|[Hx ->]]; [left|by right].
    destruct (chosen_some _alpn_token (_detection_order _registry) l) as [b ->]; [|done].
    destruct (registered_ok _ Hreg) as [_ _ -> _ _ _]. set_solver.
Qed.

(** The deadline, when it comes first: no actor is called. *)
Definition late : ProtocolBinding := match by_alpn _alpn_token _registry with Some b => b | None => http1 end.

Definition told_late : list act :=
  CapHit (b_name late) :: match answer (CapHit (b_name late)) with
                          | Ok _ => match b_kind late with Http1Binding => [Wrote request_timeout] | _ => [] end
                          | Raise _ => []
                          end.

Lemma on_timeout_spec w :
  registered _registry -> is_Some expiry ->
  exists x, _on_detect_timeout (match by_alpn _alpn_token _registry with Some b => Some b | None => _fallback_binding _registry end) w =
    (x, mkWorld (w_reader w) (_served_protocol w) (w_log w ++ told_late)).
Proof.
  intros Hreg [n Hx]. unfold expiry in Hx. destruct (0 <? header_timeout) eqn:Ht; [|done].
  assert (E : (match by_alpn _alpn_token _registry with Some b => Some b | None => _fallback_binding _registry end) = Some late).
  { unfold late. destruct (by_alpn _ _); [done|]. unfold _fallback_binding. by destruct (registered_ok _ Hreg) as [-> _ _ _ _ _]. }
  assert (Hl : late = http2 \/ late = http1) by (unfold late; destruct (by_alpn _ _) as [b|] eqn:Eb; [left; by apply alpn_http2|by right]).
  rewrite E. unfold _on_detect_timeout, told_late. rewrite Ht. cbn [negb]. unfold sbind, perform at 1.
  destruct (answer (CapHit (b_name late))) as [u|e]; [|by eexists]. destruct Hl as [-> | ->].
  - by eexists.
  - unfold on_detect_timeout. cbn [b_kind http1]. unfold best_effort, scatch, perform, log, sret. cbn [w_log w_reader _served_protocol].
    rewrite <- app_assoc. cbn [app]. destruct (answer (Wrote request_timeout)) as [|e]; [by eexists|]. destruct (Events.isa_Exception e); by eexists.
Qed.

Lemma dispatch_selected w l :
  registered _registry -> _bound_binding = None -> holds (w_reader w) l ->
  (exists i r', opens i l /\ _dispatch w = serve_binding (selected l) i (mkWorld r' (b_name (selected l)) (w_log w))) \/
  is_Some expiry /\ exists x r', _dispatch w = (x, mkWorld r' (_served_protocol w) (w_log w ++ told_late)).
Proof.
  intros Hreg Hb Hr. unfold _dispatch. rewrite Hb.
  destruct (choose_spec w l Hreg Hr) as (r' & a & Hs & [->|[Hx ->]]); [left|right].
  - cbn [set_served set_reader w_reader].
    destruct (take_ahead_spec _ _ _ Hs) as (p & rest & r2 & -> & -> & Hr2). exists (replay p r2), r2. by split; [apply replay_opens|].
  - split; [done|]. destruct (on_timeout_spec (set_reader r' w) Hreg Hx) as [x ->]. by exists x, r'.
Qed.

(** What a protocol's actor is called with: HTTP/2 after its preface, any other
    at the first octet. *)
Inductive handed : ProtocolBinding -> bytes -> input -> Prop :=
| after_preface i rest : opens i rest -> handed http2 (_HTTP2_PREFACE ++ rest) i
| from_start b l i : b_kind b <> Http2Binding -> opens i l -> handed b l i.

Lemma serve_handed b i l w :
  opens i l -> (b_kind b = Http2Binding -> b = http2) ->
  (exists i', handed b l i' /\ serve_binding b i w = perform (Serve b i') w) \/
  (b = http2 /\ ~ _HTTP2_PREFACE `prefix_of` l /\
   serve_binding b i w = (if zlen _HTTP2_PREFACE <=? zlen l then (do! best_effort (perform (Wrote goaway)) in sraise ValueError) w else (Raise IncompleteReadError, w))).
Proof.
  intros Hi Hh. unfold serve_binding. destruct (b_kind b) eqn:Ek; [|left; exists i; split; [apply from_start; [by rewrite Ek|done]|done]..].
  specialize (Hh eq_refl). subst b. pose proof (readexactly_opens (zlen _HTTP2_PREFACE) i l Hi (zlen_nonneg _)) as Hre.
  destruct (Z.leb_spec (zlen _HTTP2_PREFACE) (zlen l)) as [Hl|Hl].
  - destruct Hre as (i' & -> & Hi'). set (n := Z.to_nat (zlen _HTTP2_PREFACE)) in *.
    assert (Hn : n = length _HTTP2_PREFACE) by done.
    destruct (bool_decide_reflect (take n l = _HTTP2_PREFACE)) as [E|Hne]; cbn [negb].
    + left. exists i'. split; [|done]. rewrite <- (take_drop n l), E. by apply after_preface.
    + right. split; [done|]. split; [|done]. intros [k ->]. apply Hne. by rewrite take_app_length'.
  - destruct Hre as (p & i' & ->). right. split; [done|]. split; [|done]. intros [k ->]. rewrite zlen_app in Hl. pose proof (zlen_nonneg k). lia.
Qed.

Lemma selected_http2 l : registered _registry -> b_kind (selected l) = Http2Binding -> selected l = http2.
Proof.
  intros Hreg. unfold selected. destruct (by_alpn _alpn_token _registry) as [b|] eqn:Eb; [intros _; by apply alpn_http2|].
  destruct (registered_ok _ Hreg) as [_ _ -> Hraw _ _].
  assert (H : forall order b, Forall (fun b => is_raw b \/ b = http2 \/ b = http1) order -> chosen _alpn_token order l = Some b -> b_kind b = Http2Binding -> b = http2).
  { intros order b. induction 1 as [|b' order Hb' _ IH]; [done|]. cbn [chosen]. destruct (claims b' _ _); [|done]. intros [= <-] Hk.
    destruct Hb' as [Hb'|[->| ->]]; [|done|done]. unfold is_raw in Hb'. by rewrite Hk in Hb'. }
  destruct (chosen _ _ _) as [b|] eqn:E; [|done]. cbn [default]. eapply H; [|exact E]. apply Forall_app. split.
  - eapply Forall_impl; [exact Hraw|]. intros ? [? _]. by left.
  - apply Forall_cons_2; [by right; left|]. apply Forall_cons_2; [by right; right|apply Forall_nil_2].
Qed.

(** C3: every connection is served by the protocol it speaks.  On a listener
    with detection, whatever raw protocols were registered — with detectors that
    judge by at most sixteen first octets — and however the octets arrive, one
    of three things happens.  Either the connection is served by HTTP/2 if ALPN
    settled on it, otherwise by the first registered protocol whose detector
    recognises the beginning of the stream, by HTTP/2 if that is the preface's
    first line, and by HTTP/1.1 otherwise; its actor is then the only thing
    called, and it reads the stream from the first octet, HTTP/2 from the octet
    after a preface that was there in full.  Or that is HTTP/2 and its preface is
    not there in full: no actor is called, and a peer that sent enough is told
    so.  Or a header timeout is configured and passes before the protocol is
    known: no actor is called, the cap that was hit is logged, and a peer that
    ALPN had not settled is told with a 408. *)
Theorem connection_dispatched w l :
  registered _registry -> _bound_binding = None -> holds (w_reader w) l ->
  let b := selected l in
  (exists i r', handed b l i /\ _dispatch w = (answer (Serve b i), mkWorld r' (b_name b) (w_log w ++ [Serve b i]))) \/
  (b = http2 /\ ~ _HTTP2_PREFACE `prefix_of` l /\ exists e r',
     _dispatch w = (Raise e, mkWorld r' (b_name b) (w_log w ++ (if zlen _HTTP2_PREFACE <=? zlen l then [Wrote goaway] else [])))) \/
  (is_Some expiry /\ exists x r', _dispatch w = (x, mkWorld r' (_served_protocol w) (w_log w ++ told_late))).
Proof.
  intros Hreg Hb Hr b. destruct (dispatch_selected w l Hreg Hb Hr) as [(i & r' & Hi & ->)|Hlate]; [|by right; right]. fold b.
  destruct (serve_handed b i l (mkWorld r' (b_name b) (w_log w)) Hi (selected_http2 l Hreg)) as [(i' & Hh & ->)|(Heq & Hnot & ->)].
  - left. by exists i', r'.
  - right; left. split; [done|]. split; [done|]. destruct (Z.leb_spec (zlen _HTTP2_PREFACE) (zlen l)).
    + unfold sbind, best_effort, scatch, perform, log, sraise, sret. cbn [w_log w_reader _served_protocol].
      destruct (answer (Wrote goaway)) as [u|e]; [by eexists _, _|]. destruct (Events.isa_Exception e); by eexists _, _.
    + rewrite app_nil_r. by eexists _, _.
Qed.

(** ** The life of a connection *)

Definition is_serve (a : act) : bool := match a with Serve _ _ => true | _ => false end.

(** What dispatching does, in whatever way it ends. *)
Definition work (a : act) : Prop := match a with Serve _ _ | Wrote _ | CapHit _ => True | _ => False end.

Definition dispatched (w w' : world) : Prop :=
  exists acts, w_log w' = w_log w ++ acts /\ Forall work acts /\ (length (filter is_serve acts) <= 1)%nat /\
    forall b i, Serve b i ∈ acts -> _served_protocol w' = b_name b.

Lemma dispatched_none w : dispatched w w.
Proof. exists []. split; [by rewrite app_nil_r|]. split; [done|]. split; [cbn; lia|]. intros b i []%elem_of_nil. Qed.

Lemma dispatched_one a w : work a -> (forall b i, a = Serve b i -> _served_protocol w = b_name b) -> dispatched w (log a w).
Proof.
  intros Ha Hb. exists [a]. split; [done|]. split; [by repeat constructor|]. split; [rewrite filter_cons; case_decide; cbn; lia|].
  intros b i Hin%list_elem_of_singleton. by eapply (Hb b i).
Qed.

Lemma serve_dispatched b i w : _served_protocol w = b_name b -> dispatched w (serve_binding b i w).2.
Proof.
  intros Hw. unfold serve_binding. destruct (b_kind b); [|apply dispatched_one; [done|by intros ? ? [= <- _]]..].
  destruct (readexactly _ i) as [[preface|p|p|e|] i']; try apply dispatched_none.
  destruct (negb _); [|apply dispatched_one; [done|by intros ? ? [= <- _]]].
  assert (E : (((do! best_effort (perform (Wrote goaway)) in @sraise world unit ValueError) w).2 = log (Wrote goaway) w)).
  { unfold sbind, best_effort, scatch, perform. destruct (answer (Wrote goaway)) as [|e]; [done|]. by destruct (Events.isa_Exception e). }
  rewrite E. by apply dispatched_one.
Qed.

Lemma timeout_dispatched b w : dispatched w (_on_detect_timeout b w).2.
Proof.
  unfold _on_detect_timeout. destruct (negb _); [apply dispatched_none|]. unfold sbind, perform at 1. set (a := CapHit _).
  destruct (answer a) as [u|e]; [|by apply dispatched_one]. destruct b as [b|]; [|by apply dispatched_one].
  unfold on_detect_timeout. destruct (b_kind b); try by apply dispatched_one.
  assert (E : (best_effort (perform (Wrote request_timeout)) (log a w)).2 = log (Wrote request_timeout) (log a w)).
  { unfold best_effort, scatch, perform. destruct (answer (Wrote request_timeout)) as [|e]; [done|]. by destruct (Events.isa_Exception e). }
  rewrite E. exists [a; Wrote request_timeout]. split; [cbn; by rewrite <- app_assoc|]. split; [by repeat constructor|]. split; [by vm_compute; lia|].
  intros b' i Hin. repeat (apply elem_of_cons in Hin as [Hin|Hin]; [done|]). by apply elem_of_nil in Hin.
Qed.

Lemma choose_log w : w_log (choose w).2 = w_log w /\ _served_protocol (choose w).2 = _served_protocol w.
Proof.
  unfold choose. destruct (by_alpn _ _); [destruct (_peek _ _ _)|destruct (_peek_and_select _ _ _ _)]; done.
Qed.

Lemma dispatch_dispatched w : (forall b, _bound_binding = Some b -> _served_protocol w = b_name b) -> dispatched w (_dispatch w).2.
Proof.
  intros Hw. unfold _dispatch. destruct _bound_binding as [b|]; [apply serve_dispatched; by apply Hw|]. pose proof (choose_log w) as [Hl _].
  assert (Hmove : forall w0 w1, w_log w0 = w_log w -> dispatched w0 w1 -> dispatched w w1) by (intros w0 w1 E (acts & H & ?); exists acts; by rewrite H, E).
  destruct (choose w) as [[[b|]|e] w0]; cbn [snd] in Hl.
  - cbn [set_served set_reader w_reader]. destruct (take_ahead _) as [p r]. by eapply Hmove, serve_dispatched.
  - eapply Hmove, dispatched_none. done.
  - destruct e; first [eapply Hmove, timeout_dispatched; done|eapply Hmove, dispatched_none; done].
Qed.

Definition report (a : act) : list act := if has_aggregator then [a] else [].

Lemma announce_report a w : announce a w = (if has_aggregator then answer a else Ok tt, mkWorld (w_reader w) (_served_protocol w) (w_log w ++ report a)).
Proof. unfold announce, report. destruct has_aggregator; [done|]. rewrite app_nil_r. by destruct w. Qed.

Definition or_else (x y : result unit) : result unit := match x with Raise e => Raise e | Ok _ => y end.

Lemma finally_or_else (m k : M unit) w x w1 y w2 : m w = (x, w1) -> k w1 = (y, w2) -> finally m k w = (or_else y x, w2).
Proof. intros Hm Hk. unfold finally. rewrite Hm, Hk. by destruct y. Qed.

(** C4: whatever happens on a connection, it is closed and reported.  Of a fresh
    connection actor whose listeners have heard that the connection was accepted,
    and however it is then dispatched — detection may time out, a binding may
    refuse it, the protocol's own actor may return, raise or be cancelled — at
    most one protocol's actor is called, an error (but not a cancellation) is
    announced and goes no further, the counters are flushed, and then [run] calls
    the writer's [close], once (what the protocol's actor does with the writer
    before that is its own affair), and after a [close] that returned
    [connection_closed] names the protocol whose actor was called, if one was.
    Only a cancellation, and what listeners and the writer raise themselves, leave
    [run]. *)
Theorem connection_lifecycle r :
  let w := __init__actor r in
  has_aggregator = false \/ answer (Accepted (_served_protocol w)) = Ok tt ->
  exists acts x w1,
    _dispatch (mkWorld (w_reader w) (_served_protocol w) (w_log w ++ report (Accepted (_served_protocol w)))) = (x, w1) /\
    Forall work acts /\ (length (filter is_serve acts) <= 1)%nat /\
    (forall b i, Serve b i ∈ acts -> _served_protocol w1 = b_name b) /\
    let failed := match x with Raise e => if Events.isa_Exception e then report (OnError e) else [] | Ok _ => [] end in
    let caught := match x with Raise e => if Events.isa_Exception e then (if has_aggregator then answer (OnError e) else Ok tt) else Raise e | Ok _ => Ok tt end in
    let closed := match answer Close with Ok _ => report (Closed (_served_protocol w1)) | Raise _ => [] end in
    let ended := or_else (answer Close) (if has_aggregator then answer (Closed (_served_protocol w1)) else Ok tt) in
    w_log (run w).2 = w_log w ++ report (Accepted (_served_protocol w)) ++ acts ++ failed ++ [Flush; Close] ++ closed /\
    (run w).1 = or_else ended caught.
Proof.
  intros w Ha. assert (Hw : forall b, _bound_binding = Some b -> _served_protocol w = b_name b) by (intros b E; unfold w, __init__actor; by rewrite E).
  clearbody w. unfold run. set (body := finally _ _). unfold sbind. rewrite announce_report.
  assert (E : (if has_aggregator then answer (Accepted (_served_protocol w)) else Ok tt) = Ok tt) by (destruct Ha as [-> | ->]; by try destruct has_aggregator).
  rewrite E. clear E Ha. set (w0 := mkWorld _ _ _). pose proof (dispatch_dispatched w0 Hw) as (acts & Hlog & Hwork & Hone & Hname).
  destruct (_dispatch w0) as [x w1] eqn:Ed. cbn [snd] in Hlog, Hname. exists acts, x, w1. split; [done|]. split; [done|]. split; [done|]. split; [done|].
  assert (Hk : forall w2, _served_protocol w2 = _served_protocol w1 ->
    (do! supdate (log Flush) in do! perform Close in fun w => announce (Closed (_served_protocol w)) w) w2 =
    (or_else (answer Close) (if has_aggregator then answer (Closed (_served_protocol w1)) else Ok tt),
     mkWorld (w_reader w2) (_served_protocol w2) (w_log w2 ++ [Flush; Close] ++ match answer Close with Ok _ => report (Closed (_served_protocol w1)) | Raise _ => [] end))).
  { intros w2 Hw2. unfold sbind, supdate, perform, log. cbn [w_reader _served_protocol w_log]. rewrite <- app_assoc.
    destruct (answer Close) as [u|e]; cbn [or_else]; [|by rewrite app_nil_r]. rewrite announce_report. cbn [w_reader _served_protocol w_log].
    rewrite Hw2, <- app_assoc. done. }
  assert (Hl0 : w_log w1 = w_log w ++ report (Accepted (_served_protocol w)) ++ acts) by (rewrite Hlog; unfold w0; cbn [w_log]; by rewrite <- app_assoc).
  assert (Htry : exists y w2, scatch _dispatch (fun e => if Events.isa_Exception e then Some (announce (OnError e)) else None) w0 = (y, w2) /\
    _served_protocol w2 = _served_protocol w1 /\
    w_log w2 = w_log w1 ++ match x with Raise e => if Events.isa_Exception e then report (OnError e) else [] | Ok _ => [] end /\
    y = match x with Raise e => if Events.isa_Exception e then (if has_aggregator then answer (OnError e) else Ok tt) else Raise e | Ok _ => Ok tt end).
  { unfold scatch. rewrite Ed. destruct x as [[]|e]; [|destruct (Events.isa_Exception e)]; [|rewrite announce_report|]; eexists _, _; (split; [reflexivity|]);
      by rewrite ?app_nil_r. }
  destruct Htry as (y & w2 & Ht & Hp & Hlog2 & ->). cbv zeta.
  unfold body. rewrite (finally_or_else _ _ _ _ _ _ _ Ht (Hk w2 Hp)). cbn [fst snd w_log]. rewrite Hlog2, Hl0, <- !app_assoc. by split.
Qed.

(** A listener of [connection_accepted] that raises leaves the connection open:
    nothing after it is in the [try]. *)
Lemma accepted_raises_leaks w e :
  has_aggregator = true -> answer (Accepted (_served_protocol w)) = Raise e ->
  (run w).1 = Raise e /\ w_log (run w).2 = w_log w ++ [Accepted (_served_protocol w)].
Proof. intros Hg Ha. unfold run. set (body := finally _ _). unfold sbind. rewrite announce_report. unfold report. rewrite Hg. by rewrite Ha. Qed.

End Connection.
Arguments input : clear implicits.
Arguments act : clear implicits.
Arguments world : clear implicits.

(** ** Samples *)

#[local] Existing Instance BufferReader.stream_reader.

(** [MQTTProtocolDetector] *)
Definition MQTTProtocolDetector : ProtocolDetector :=
  mkDetector (fun first_bytes _ => bool_decide (head first_bytes = Some 16)) 1.

Lemma mqtt_sound : sound_detector MQTTProtocolDetector.
Proof. split; [by vm_compute|]. by intros [|c p] alpn. Qed.

Definition with_mqtt : ProtocolRegistry :=
  match register (lit "mqtt") (Some MQTTProtocolDetector) None __init__ with Ok (_, g) => g | Raise _ => __init__ end.

Lemma with_mqtt_registered : registered with_mqtt.
Proof.
  apply (one_more __init__ (lit "mqtt") (Some MQTTProtocolDetector) None (mkBinding (lit "mqtt") (RawBinding (Some MQTTProtocolDetector) None))).
  - apply fresh_registry.
  - exact mqtt_sound.
  - reflexivity.
Qed.

(** The log of a connection whose octets [l] arrive one at a time. *)
Definition trace (g : ProtocolRegistry) (l : bytes) : list pystr :=
  let w := run (R := BufferReader.conn) g None None true 10 None (fun _ => Ok tt)
    (mkWorld (BufferReader.__init__ l (replicate (length l) [1])) (lit "http") []) in
  (fun a => match a with
            | Accepted p => lit "accepted " ++ p | Serve b _ => lit "serve " ++ b_name b | Wrote _ => lit "wrote" | CapHit _ => lit "cap"
            | OnError _ => lit "error" | Flush => lit "flush" | Close => lit "close" | Closed p => lit "closed " ++ p end) <$> w_log w.2.

Example traces :
  trace with_mqtt ([16; 15; 0; 4] ++ lit "MQTT") = lit <$> ["accepted http"; "serve mqtt"; "flush"; "close"; "closed mqtt"]%string /\
  trace with_mqtt (_HTTP2_PREFACE ++ [0; 0; 0; 4; 0]) = lit <$> ["accepted http"; "serve http2"; "flush"; "close"; "closed http2"]%string /\
  trace with_mqtt (_HTTP2_PREFACE_FIRST_LINE ++ lit "nonsense") = lit <$> ["accepted http"; "wrote"; "error"; "flush"; "close"; "closed http2"]%string /\
  trace with_mqtt (lit "GET / HTTP/1.1") = lit <$> ["accepted http"; "serve http1"; "flush"; "close"; "closed http1"]%string.
Proof. vm_compute. split_and!; reflexivity. Qed.

Definition sample_world : world BufferReader.conn :=
  mkWorld (BufferReader.__init__ (_HTTP2_PREFACE ++ [0; 0; 0; 4; 0]) (replicate 29 [1])) (lit "http") [].

Lemma connection_dispatched_witness :
  let l := _HTTP2_PREFACE ++ [0; 0; 0; 4; 0] in
  let b := selected with_mqtt None l in
  let dispatch := _dispatch (R := BufferReader.conn) with_mqtt None None 10 (Some 9%nat) (fun _ => Ok tt) in
  (exists i r', handed b l i /\ dispatch sample_world = (Ok tt, mkWorld r' (b_name b) ([] ++ [Serve b i]))) \/
  (b = http2 /\ ~ _HTTP2_PREFACE `prefix_of` l /\ exists e r',
     dispatch sample_world = (Raise e, mkWorld r' (b_name b) ([] ++ (if zlen _HTTP2_PREFACE <=? zlen l then [Wrote goaway] else [])))) \/
  (is_Some (expiry 10 (Some 9%nat)) /\ exists x r',
     dispatch sample_world = (x, mkWorld r' (lit "http") ([] ++ told_late (R := BufferReader.conn) with_mqtt None (fun _ => Ok tt)))).
Proof.
  apply (connection_dispatched (R := BufferReader.conn) with_mqtt None None 10 (Some 9%nat) (fun _ => Ok tt) sample_world (_HTTP2_PREFACE ++ [0; 0; 0; 4; 0])).
  - exact with_mqtt_registered.
  - reflexivity.
  - split; [apply BufferReader.init_conn_ok|reflexivity].
Defined.

Definition sample_reader : BufferReader.conn := w_reader sample_world.

Lemma connection_lifecycle_witness :
  let life := run (R := BufferReader.conn) with_mqtt None None true 10 (Some 0%nat) (fun _ => Ok tt) in
  let dispatch := _dispatch (R := BufferReader.conn) with_mqtt None None 10 (Some 0%nat) (fun _ => Ok tt) in
  exists acts x w1,
    dispatch (mkWorld sample_reader (lit "http") ([] ++ [Accepted (lit "http")])) = (x, w1) /\
    Forall work acts /\ (length (filter is_serve acts) <= 1)%nat /\
    (forall b i, Serve b i ∈ acts -> _served_protocol w1 = b_name b) /\
    let failed := match x with Raise e => if Events.isa_Exception e then [OnError e] else [] | Ok _ => [] end in
    let caught := match x with Raise e => if Events.isa_Exception e then Ok tt else Raise e | Ok _ => Ok tt end in
    w_log (life (__init__actor None sample_reader)).2 = [] ++ [Accepted (lit "http")] ++ acts ++ failed ++ [Flush; Close] ++ [Closed (_served_protocol w1)] /\
    (life (__init__actor None sample_reader)).1 = or_else (or_else (Ok tt) (Ok tt)) caught.
Proof.
  apply (connection_lifecycle (R := BufferReader.conn) with_mqtt None None true 10 (Some 0%nat) (fun _ => Ok tt) sample_reader).
  right. reflexivity.
Defined.

(** ** A detector that asks for more *)

(** HTTP/2 compares its first line with all that was peeked: once a registered
    detector asks for more than sixteen octets, a cleartext HTTP/2 client is
    never recognised, and its preface goes to HTTP/1.1. *)
Lemma long_detector_hides_http2 :
  let d := mkDetector (fun p _ => bool_decide (take 17 p = lit "SOMEPROTOCOL v1.0")) 17 in
  match register (lit "other") (Some d) None __init__ with
  | Ok (_, g) => trace g (_HTTP2_PREFACE ++ [0; 0; 0; 4; 0]) = lit <$> ["accepted http"; "serve http1"; "flush"; "close"; "closed http1"]%string
  | Raise _ => False
  end.
Proof. vm_compute. reflexivity. Qed.

End Detect.
