(* ===== verification/Deadline.v ===== *)
(** * Deadlines (blackbull/server/deadline.py)

    The tick scanner of a worker with the three kinds of object it watches.
    Time is the event loop's clock; the loop runs a due timer at most [lag]
    late, and everything the worker's tasks do happens between the clock's
    steps.  Sets have no order, so a tick visits the registry in any order. *)

From Stdlib Require Import ZArith Lia.
From stdpp Require Import base tactics numbers option list gmap.
From S2P Require Import Prelude.

Module Deadline.

(** [ConnectionDeadline], [WriteDeadline] and [WsIdleWatchdog]. *)
Inductive kind : Type := Connection | Write | Idle.

(** The fields of the three classes: [_task] is the task a firing cancels (the
    owner, for a write), [_amount] is [_pending], [_seconds] or [_idle_s]. *)
Record deadline : Type := mkDeadline {
  d_kind : kind;
  _loop : option nat;
  _task : option nat;
  _deadline_at : option Z;      (* [None]: infinity *)
  _fired : bool;
  _amount : Z;
  _registered : bool
}.

(** A timer handle: due, or spent because its callback has been called. *)
Inductive timer : Type := Due (at_ : Z) | Spent.

Record world : Type := mkWorld {
  now : Z;
  running : nat;                (* the running loop *)
  _LOOP : option nat;
  _HANDLE : option timer;
  _REGISTRY : list nat;
  objects : gmap nat deadline;
  cancelling : gmap nat nat;    (* [task.cancelling()] *)
  finished : gset nat;          (* [task.done()] *)
  firings : list (nat * Z * Z)  (* the object, its deadline, the time *)
}.

Definition set_now t w := mkWorld t (running w) (_LOOP w) (_HANDLE w) (_REGISTRY w) (objects w) (cancelling w) (finished w) (firings w).
Definition set_loop l w := mkWorld (now w) (running w) l (_HANDLE w) (_REGISTRY w) (objects w) (cancelling w) (finished w) (firings w).
Definition set_handle h w := mkWorld (now w) (running w) (_LOOP w) h (_REGISTRY w) (objects w) (cancelling w) (finished w) (firings w).
Definition set_registry r w := mkWorld (now w) (running w) (_LOOP w) (_HANDLE w) r (objects w) (cancelling w) (finished w) (firings w).
Definition set_object i d w := mkWorld (now w) (running w) (_LOOP w) (_HANDLE w) (_REGISTRY w) (<[i := d]> (objects w)) (cancelling w) (finished w) (firings w).
Definition set_cancelling c w := mkWorld (now w) (running w) (_LOOP w) (_HANDLE w) (_REGISTRY w) (objects w) c (finished w) (firings w).
Definition set_finished f w := mkWorld (now w) (running w) (_LOOP w) (_HANDLE w) (_REGISTRY w) (objects w) (cancelling w) f (firings w).
Definition log_firing i d t w := mkWorld (now w) (running w) (_LOOP w) (_HANDLE w) (_REGISTRY w) (objects w) (cancelling w) (finished w) (firings w ++ [(i, d, t)]).

(** [_Scanner._REGISTRY.add] and [discard] *)
Definition add_ (i : nat) (w : world) : world := if bool_decide (i ∈ _REGISTRY w) then w else set_registry (i :: _REGISTRY w) w.
Definition discard (i : nat) (w : world) : world := set_registry (filter (fun j => j <> i) (_REGISTRY w)) w.

Definition cancels (t : nat) (w : world) : nat := default 0%nat (cancelling w !! t).
Definition cancel (t : nat) (w : world) : world := set_cancelling (<[t := S (cancels t w)]> (cancelling w)) w.
Definition uncancel (t : nat) (w : world) : world := set_cancelling (<[t := pred (cancels t w)]> (cancelling w)) w.

Section Scanner.
Context (_TICK_S : Z).

Definition _ensure_scanner_running (loop : nat) (w : world) : world :=
  let w := if bool_decide (_LOOP w = Some loop) then w else set_registry [] (set_handle None (set_loop (Some loop) w)) in
  match _HANDLE w with None => set_handle (Some (Due (now w + _TICK_S))) w | Some _ => w end.

(** [loop] is the loop the object was bound to. *)
Definition register (i : nat) (loop : nat) (w : world) : world := add_ i (_ensure_scanner_running loop w).

Definition with_at (a : option Z) d := mkDeadline (d_kind d) (_loop d) (_task d) a (_fired d) (_amount d) (_registered d).
Definition with_fired (f : bool) d := mkDeadline (d_kind d) (_loop d) (_task d) (_deadline_at d) f (_amount d) (_registered d).
Definition with_registered (r : bool) d := mkDeadline (d_kind d) (_loop d) (_task d) (_deadline_at d) (_fired d) (_amount d) r.
Definition with_amount (s : Z) d := mkDeadline (d_kind d) (_loop d) (_task d) (_deadline_at d) (_fired d) s (_registered d).
Definition with_owner (l t : option nat) d := mkDeadline (d_kind d) l t (_deadline_at d) (_fired d) (_amount d) (_registered d).

(** [if not self._registered: ...] *)
Definition enlist (i : nat) (d : deadline) (w : world) : world :=
  if _registered d then set_object i d w
  else set_object i (with_registered true d) (register i (default (running w) (_loop d)) w).

Definition delist (i : nat) (d : deadline) (w : world) : world :=
  if _registered d then set_object i (with_registered false d) (discard i w) else set_object i d w.

(** *** ConnectionDeadline *)

Definition new_connection (i task : nat) (w : world) : world :=
  set_object i (mkDeadline Connection (Some (running w)) (Some task) None false 0 false) w.

Definition arm (i : nat) (seconds : Z) (d : deadline) (w : world) : world :=
  let d := with_fired false d in
  if 0 <? seconds then enlist i (with_at (Some (now w + seconds)) d) w
  else delist i (with_at None d) w.

Definition disarm (i : nat) (d : deadline) (w : world) : world := delist i (with_at None d) w.

Definition guard (seconds : Z) (d : deadline) : deadline := with_amount seconds d.
Definition __enter__ (i : nat) (d : deadline) (w : world) : world := arm i (_amount d) d w.

(** How the block of a [with] ended. *)
Inductive ending : Type := Normally | Cancelled | Raised (e : exn).

(** [task] is the task that leaves the block. *)
Definition __exit__ (i task : nat) (x : ending) (d : deadline) (w : world) : result unit * world :=
  let w := disarm i d w in
  match _fired d, x with
  | true, (Normally | Cancelled) => (Raise TimeoutError, uncancel task w)
  | _, Normally => (Ok tt, w)
  | _, Cancelled => (Raise CancelledError, w)
  | _, Raised e => (Raise e, w)
  end.

(** *** WriteDeadline *)

Definition new_write (i : nat) (seconds : Z) (w : world) : world :=
  set_object i (mkDeadline Write None None None false seconds false) w.

Definition write_enter (i task : nat) (d : deadline) (w : world) : world :=
  match _task d with
  | Some _ => w
  | None =>
      let loop := if bool_decide (is_Some (_loop d) /\ _loop d = _LOOP w) then default (running w) (_loop d) else running w in
      enlist i (with_at (Some (now w + _amount d)) (with_fired false (with_owner (Some loop) (Some task) d))) w
  end.

Definition write_exit (i task : nat) (x : ending) (d : deadline) (w : world) : result unit * world :=
  let rest := match x with Normally => Ok tt | Cancelled => Raise CancelledError | Raised e => Raise e end in
  if bool_decide (_task d = Some task) then
    let w := delist i (with_at None (with_owner (_loop d) None d)) w in
    match _fired d, x with
    | true, (Normally | Cancelled) => (Raise TimeoutError, uncancel task w)
    | _, _ => (rest, w)
    end
  else (rest, w).

(** *** WsIdleWatchdog *)

Definition new_idle (i : nat) (idle_s : option Z) (w : world) : world :=
  set_object i (mkDeadline Idle (Some (running w)) None None false (default _TICK_S idle_s) false) w.

Definition touch (i : nat) (d : deadline) (w : world) : world := enlist i (with_at (Some (now w + _amount d)) d) w.

(** *** Firing *)

(** What a watchdog's callback may do to the scanner. *)
Inductive reaction : Type := Quiet | Disarms | Raises (e : exn).

Definition _fire_from_scanner (react : nat -> reaction) (i : nat) (d : deadline) (w : world) : result unit * world :=
  match d_kind d with
  | Connection | Write =>
      let w := discard i (set_object i (with_registered false (with_at None (with_fired true d))) w) in
      (Ok tt, match _task d with
              | Some t => if bool_decide (t ∈ finished w) then w else cancel t w
              | None => w
              end)
  | Idle =>
      let d := with_at (Some (now w + _amount d)) d in
      let w := set_object i d w in
      match react i with
      | Quiet => (Ok tt, w)
      | Disarms => (Ok tt, disarm i d w)
      | Raises e => (Raise e, w)
      end
  end.

Fixpoint visit (react : nat -> reaction) (snapshot : list nat) (w : world) : result unit * world :=
  match snapshot with
  | [] => (Ok tt, w)
  | i :: snapshot =>
      match objects w !! i with
      | Some d =>
          match _deadline_at d with
          | Some t =>
              if t <=? now w then
                match _fire_from_scanner react i d (log_firing i t (now w) w) with
                | (Ok _, w) => visit react snapshot w
                | (Raise e, w) => (Raise e, w)
                end
              else visit react snapshot w
          | None => visit react snapshot w
          end
      | None => visit react snapshot w
      end
  end.

(** The callback; the loop has taken the handle. *)
Definition _tick (react : nat -> reaction) (snapshot : list nat) (w : world) : result unit * world :=
  let w := set_handle (Some Spent) w in
  match _LOOP w with
  | None => (Ok tt, set_handle None w)
  | Some _ =>
      match visit react snapshot w with
      | (Raise e, w) => (Raise e, w)
      | (Ok _, w) => (Ok tt, set_handle (if bool_decide (_REGISTRY w = []) then None else Some (Due (now w + _TICK_S))) w)
      end
  end.

(** ** What a worker does *)

Context (lag : Z).

(** One step, and the object whose owner takes it. *)
Inductive step (w : world) : option nat -> world -> Prop :=
| time_passes t :
    now w <= t -> (forall due, _HANDLE w = Some (Due due) -> t <= due + lag) -> step w None (set_now t w)
| scanner_ticks react snapshot due :
    _HANDLE w = Some (Due due) -> due <= now w -> snapshot ≡ₚ _REGISTRY w -> step w None (_tick react snapshot w).2
| connects i task : objects w !! i = None -> step w (Some i) (new_connection i task w)
| arms i s d : objects w !! i = Some d -> d_kind d = Connection -> step w (Some i) (arm i s d w)
| disarms i d : objects w !! i = Some d -> d_kind d <> Write -> step w (Some i) (disarm i d w)
| prepares i s d : objects w !! i = Some d -> d_kind d = Connection -> step w (Some i) (set_object i (guard s d) w)
| enters i d : objects w !! i = Some d -> d_kind d = Connection -> step w (Some i) (__enter__ i d w)
| exits i task x d : objects w !! i = Some d -> d_kind d = Connection -> step w (Some i) (__exit__ i task x d w).2
| opens_writer i s : objects w !! i = None -> 0 < s -> step w (Some i) (new_write i s w)
| enters_write i task d : objects w !! i = Some d -> d_kind d = Write -> step w (Some i) (write_enter i task d w)
| exits_write i task x d : objects w !! i = Some d -> d_kind d = Write -> step w (Some i) (write_exit i task x d w).2
| watches i s : objects w !! i = None -> (forall x, s = Some x -> 0 < x) -> step w (Some i) (new_idle i s w)
| touches i d : objects w !! i = Some d -> d_kind d = Idle -> step w (Some i) (touch i d w)
| cancelled t : step w None (cancel t w)
| finishes t : step w None (set_finished ({[t]} ∪ finished w) w).

(** A worker that starts, with its loop. *)
Definition start (t : Z) (loop : nat) : world := mkWorld t loop None None [] ∅ ∅ ∅ [].

(** ** The invariant *)

Record objects_ok (w : world) : Prop := mkObjectsOk {
  ok_loop : _LOOP w = None /\ _REGISTRY w = [] \/ _LOOP w = Some (running w);
  ok_bound i d : objects w !! i = Some d -> _loop d = Some (running w) \/ (_loop d = None /\ d_kind d = Write);
  ok_listed i : i ∈ _REGISTRY w <-> exists d, objects w !! i = Some d /\ _registered d = true;
  ok_at i d : objects w !! i = Some d -> _registered d = bool_decide (is_Some (_deadline_at d));
  ok_amount i d : objects w !! i = Some d -> d_kind d <> Connection -> 0 < _amount d;
  ok_fired : Forall (fun f => f.1.2 <= f.2 <= f.1.2 + _TICK_S + lag) (firings w)
}.

(** The timer is there when it is needed, and soon enough for everyone — unless
    a callback has raised in it. *)
Definition timely (w : world) : Prop :=
  match _HANDLE w with
  | None => _REGISTRY w = []
  | Some Spent => _LOOP w = Some (running w)
  | Some (Due due) =>
      _LOOP w = Some (running w) /\ now w <= due + lag /\ due <= now w + _TICK_S /\
      forall i d t, objects w !! i = Some d -> _deadline_at d = Some t -> due <= t + _TICK_S
  end.

Definition ok (w : world) : Prop := objects_ok w /\ timely w.

Context (Htick : 0 < _TICK_S) (Hlag : 0 <= lag).

(** Changing one object, with the registry to match. *)
Lemma objects_ok_set w i d (reg : list nat) :
  objects_ok w ->
  (_loop d = Some (running w) \/ (_loop d = None /\ d_kind d = Write)) ->
  _registered d = bool_decide (is_Some (_deadline_at d)) -> (d_kind d <> Connection -> 0 < _amount d) ->
  (forall j, j ∈ reg <-> (if decide (j = i) then _registered d = true else j ∈ _REGISTRY w)) ->
  (reg = [] \/ _LOOP w = Some (running w)) ->
  objects_ok (set_object i d (set_registry reg w)).
Proof.
  intros [H1 H2 H3 H4 H5 H7] Hl Hr Ha Hreg Hloop.
  assert (Hlook : forall j d', objects (set_object i d (set_registry reg w)) !! j = Some d' -> j = i /\ d' = d \/ j <> i /\ objects w !! j = Some d').
  { intros j d'. cbn. destruct (decide (j = i)) as [->|Hne]; [rewrite lookup_insert_eq|rewrite lookup_insert_ne by done]; [intros [= <-]; by left|by right]. }
  constructor; cbn [set_object set_registry _LOOP _REGISTRY running now firings]; try done.
  - destruct H1 as [[Hn _]|H1]; [|by right]. destruct Hloop as [->|?]; [by left|by right].
  - intros j d' [[-> ->]|[_ Hj]]%Hlook; [done|by eapply H2].
  - intros j. rewrite Hreg. cbn. destruct (decide (j = i)) as [->|Hne].
    + rewrite lookup_insert_eq. split; [intros ?; by exists d|by intros (? & [= <-] & ?)].
    + rewrite lookup_insert_ne by done. apply H3.
  - intros j d' [[-> ->]|[_ Hj]]%Hlook; [done|by eapply H4].
  - intros j d' [[-> ->]|[_ Hj]]%Hlook; [done|by eapply H5].
Qed.

Lemma set_registry_id w : set_registry (_REGISTRY w) w = w.
Proof. by destruct w. Qed.

Lemma none_due w i d t : objects_ok w -> _REGISTRY w = [] -> objects w !! i = Some d -> _deadline_at d = Some t -> False.
Proof.
  intros [_ _ Hl Ha _ _] Hr Hi Ht. assert (i ∈ _REGISTRY w); [|rewrite Hr in *; set_solver].
  apply Hl. exists d. split; [done|]. rewrite (Ha i d Hi), Ht. by apply bool_decide_true.
Qed.

(** The fields a change of the scanner leaves alone. *)
Record same_but_scanner (w w' : world) : Prop := mkSame {
  sb_now : now w' = now w;
  sb_running : running w' = running w;
  sb_objects : objects w' = objects w;
  sb_cancelling : cancelling w' = cancelling w;
  sb_finished : finished w' = finished w;
  sb_firings : firings w' = firings w
}.

Lemma ensure_spec w :
  ok w -> let w' := _ensure_scanner_running (running w) w in
  ok w' /\ same_but_scanner w w' /\ _LOOP w' = Some (running w) /\ _REGISTRY w' = _REGISTRY w /\ _HANDLE w' <> None.
Proof.
  intros [Hob Hti]. unfold _ensure_scanner_running. unfold timely in Hti.
  assert (Hgo : forall w0, objects_ok w0 -> same_but_scanner w w0 -> _LOOP w0 = Some (running w) -> _REGISTRY w0 = _REGISTRY w -> _HANDLE w0 = _HANDLE w ->
    let w' := match _HANDLE w0 with None => set_handle (Some (Due (now w0 + _TICK_S))) w0 | Some _ => w0 end in
    ok w' /\ same_but_scanner w w' /\ _LOOP w' = Some (running w) /\ _REGISTRY w' = _REGISTRY w /\ _HANDLE w' <> None).
  { intros w0 Hob0 Hs Hl Hr Hh w'. subst w'. destruct (_HANDLE w) as [[due|]|] eqn:E.
    - rewrite Hh. split; [split; [done|]|by rewrite Hh]. unfold timely. destruct Hs as [-> -> -> _ _ _]. rewrite Hh, Hl. tauto.
    - rewrite Hh. split; [split; [done|]|by rewrite Hh]. unfold timely. destruct Hs as [_ -> _ _ _ _]. by rewrite Hh.
    - rewrite Hh. split; [split|split_and!; try done; by destruct Hs].
      + by destruct Hob0.
      + unfold timely. cbn [_HANDLE set_handle _LOOP running now objects]. destruct Hs as [Hn Hru Hobj _ _ _]. rewrite Hru. split_and!; [done|lia|lia|].
        intros i d t Hi Ht. exfalso. eapply (none_due w0 i d t); [done|congruence|exact Hi|exact Ht]. }
  destruct (bool_decide_reflect (_LOOP w = Some (running w))) as [El|El]; [by apply Hgo|].
  destruct Hob as [H1 H2 H3 H4 H5 H7]. destruct H1 as [[Hn Hr]|?]; [|done].
  destruct (_HANDLE w) as [[due|]|] eqn:E; [by destruct Hti|congruence|].
  apply (Hgo (set_registry [] (set_handle None (set_loop (Some (running w)) w)))); try done.
  constructor; try done; [by right|]. intros i. cbn. rewrite <- H3, Hr. done.
Qed.

Lemma timely_set w i d reg :
  timely w -> (forall due t, _HANDLE w = Some (Due due) -> _deadline_at d = Some t -> due <= t + _TICK_S) -> (_HANDLE w = None -> reg = []) ->
  timely (set_object i d (set_registry reg w)).
Proof.
  unfold timely. cbn [set_object set_registry _HANDLE _LOOP _REGISTRY running now objects].
  destruct (_HANDLE w) as [[due|]|]; [|by intros ?|intros _ _ H; by apply H].
  intros (H1 & H2 & H3 & H4) Hd _. split_and!; try done. intros j d' t Hj Ht.
  destruct (decide (j = i)) as [->|Hne]; [rewrite lookup_insert_eq in Hj; injection Hj as <-; by apply Hd|].
  rewrite lookup_insert_ne in Hj by done. by eapply H4.
Qed.

(** An object that is there, or is new, with the flag it had. *)
Definition flagged (w : world) (i : nat) (d : deadline) : Prop :=
  match objects w !! i with Some d0 => _registered d0 = _registered d | None => _registered d = false end.

Lemma flagged_listed w i d : objects_ok w -> flagged w i d -> (i ∈ _REGISTRY w <-> _registered d = true).
Proof.
  intros Hok Hf. rewrite (ok_listed w Hok). unfold flagged in Hf. destruct (objects w !! i) as [d0|].
  - rewrite <- Hf. split; [by intros (? & [= <-] & ?)|eauto].
  - rewrite Hf. split; [by intros (? & ? & ?)|done].
Qed.

Lemma enlist_ok w i d t :
  ok w -> flagged w i d -> _loop d = Some (running w) -> _deadline_at d = Some t -> now w <= t -> (d_kind d <> Connection -> 0 < _amount d) ->
  ok (enlist i d w).
Proof.
  intros Hok Hf Hl Ht Hn Ha. pose proof Hok as [Hob Hti]. pose proof (flagged_listed w i d Hob Hf) as Hin. unfold enlist.
  destruct (_registered d) eqn:Er.
  - assert (E : set_object i d w = set_object i d (set_registry (_REGISTRY w) w)) by (by rewrite set_registry_id). rewrite E.
    assert (Hii : i ∈ _REGISTRY w) by (by apply Hin). split.
    + apply objects_ok_set; try done; [by left|by rewrite Er, Ht| |].
      * intros j. destruct (decide (j = i)) as [->|]; [|done]. by rewrite Er.
      * destruct (ok_loop w Hob) as [[_ Hr]|?]; [rewrite Hr in Hii; set_solver|by right].
    + apply timely_set; [done| |].
      * intros due t' Hh ?. simplify_eq. unfold timely in Hti. rewrite Hh in Hti. lia.
      * intros Hh. unfold timely in Hti. by rewrite Hh in Hti.
  - unfold register. rewrite Hl. change (default (running w) (Some (running w))) with (running w). destruct (ensure_spec w Hok) as ([Hob' Hti'] & Hs & Hl' & Hr' & Hh').
    set (w' := _ensure_scanner_running (running w) w) in *. unfold add_. rewrite bool_decide_false by (rewrite Hr', Hin; done).
    destruct Hs as [Hn' Hru' _ _ _ _]. split.
    + apply objects_ok_set; cbn [with_registered _loop d_kind _registered _deadline_at _amount]; try done.
      * left. by rewrite Hru'.
      * rewrite Ht. by rewrite bool_decide_true.
      * intros j. rewrite elem_of_cons. destruct (decide (j = i)) as [->|]; [by split; [|left]|]. split; [by intros [?|?]|by right].
      * right. by rewrite Hl', Hru'.
    + apply timely_set; [done| |by intros ?%Hh']. intros due' t' Hd Ht'. change (_deadline_at d = Some t') in Ht'. unfold timely in Hti'. rewrite Hd in Hti'. destruct Hti' as (_ & _ & ? & _). assert (t' = t) by congruence. lia.
Qed.

Lemma delist_ok w i d :
  ok w -> flagged w i d -> _loop d = Some (running w) \/ (_loop d = None /\ d_kind d = Write) -> _deadline_at d = None ->
  (d_kind d <> Connection -> 0 < _amount d) -> ok (delist i d w).
Proof.
  intros [Hob Hti] Hf Hl Ht Ha. pose proof (flagged_listed w i d Hob Hf) as Hin. unfold delist.
  assert (Hset : forall reg d', (forall j, j ∈ reg <-> j <> i /\ j ∈ _REGISTRY w) -> _registered d' = false -> _deadline_at d' = None ->
    _loop d' = _loop d -> d_kind d' = d_kind d -> _amount d' = _amount d -> ok (set_object i d' (set_registry reg w))).
  { intros reg d' Hreg Hr0 Ht0 Hl0 Hk0 Ha0. assert (Hnil : _REGISTRY w = [] -> reg = []).
    { intros E. destruct reg as [|j reg]; [done|]. assert (Hj : j ∈ j :: reg) by set_solver. apply Hreg in Hj. rewrite E in Hj. set_solver. }
    split.
    - apply objects_ok_set; rewrite ?Hl0, ?Hk0, ?Ha0, ?Ht0; try done.
      + intros j. rewrite Hreg. destruct (decide (j = i)) as [->|]; [|tauto]. split; [by intros [[] _]|by rewrite Hr0].
      + destruct (ok_loop w Hob) as [[_ E]|?]; [left; by apply Hnil|by right].
    - apply timely_set; [done|by rewrite Ht0|]. intros Hh. unfold timely in Hti. rewrite Hh in Hti. by apply Hnil. }
  destruct (_registered d) eqn:Er.
  - unfold discard. apply Hset; try done. intros j. rewrite list_elem_of_filter. done.
  - rewrite <- (set_registry_id w) at 1. apply Hset; try done. intros j. split; [|tauto]. intros Hj. split; [|done]. intros ->. apply Hin in Hj. congruence.
Qed.

(** ** A tick *)

(** Nothing armed is overdue by more than a tick and the loop's lateness. *)
Definition punctual (w : world) : Prop :=
  forall i d t, objects w !! i = Some d -> _deadline_at d = Some t -> now w <= t + _TICK_S + lag.

Lemma ok_punctual w : ok w -> _HANDLE w <> Some Spent -> punctual w.
Proof.
  intros [Hob Hti] Hs i d t Hi Ht. unfold timely in Hti. destruct (_HANDLE w) as [[due|]|]; [|done|].
  - destruct Hti as (_ & Hl & _ & Hall). pose proof (Hall i d t Hi Ht). lia.
  - exfalso. by eapply (none_due w i d t).
Qed.

Lemma objects_ok_logged w i d t :
  objects_ok w -> punctual w -> objects w !! i = Some d -> _deadline_at d = Some t -> t <= now w -> objects_ok (log_firing i t (now w) w).
Proof.
  intros [H1 H2 H3 H4 H5 H7] Hp Hi Ht Hn. pose proof (Hp i d t Hi Ht). constructor; try done.
  cbn [firings log_firing]. apply Forall_app. split; [done|]. apply Forall_cons_2; [cbn; lia|apply Forall_nil_2].
Qed.

Lemma objects_ok_cancel w t : objects_ok w -> objects_ok (cancel t w).
Proof. by intros []. Qed.

(** What a firing leaves as it is. *)
Record fires_at (i : nat) (w w' : world) : Prop := mkFires {
  fa_now : now w' = now w;
  fa_running : running w' = running w;
  fa_loop : _LOOP w' = _LOOP w;
  fa_handle : _HANDLE w' = _HANDLE w;
  fa_others j : j <> i -> objects w' !! j = objects w !! j
}.

Definition spent (d : deadline) : deadline := with_registered false (with_at None (with_fired true d)).

(** The object after its firing. *)
Definition refreshed (w w' : world) (i : nat) (d : deadline) : Prop :=
  match d_kind d with
  | Connection | Write => objects w' !! i = Some (spent d)
  | Idle => exists d', objects w' !! i = Some d' /\ d_kind d' = Idle /\ forall t, _deadline_at d' = Some t -> now w < t
  end.

Lemma refreshed_ahead w w' i d d' t :
  refreshed w w' i d -> objects w' !! i = Some d' -> _deadline_at d' = Some t -> now w < t.
Proof.
  unfold refreshed. intros Hr Hd Ht. destruct (d_kind d); [rewrite Hr in Hd; by injection Hd as <-..|].
  destruct Hr as (d2 & Hd2 & _ & Hlt). apply Hlt. congruence.
Qed.

Lemma fires_punctual w w' i d : fires_at i w w' -> refreshed w w' i d -> punctual w -> punctual w'.
Proof.
  intros [F1 F2 F3 F4 F5] Hr Hp j d' t Hj Ht. rewrite F1. destruct (decide (j = i)) as [->|Hne].
  - pose proof (refreshed_ahead w w' i d d' t Hr Hj Ht). lia.
  - rewrite F5 in Hj by done. by eapply Hp.
Qed.

Lemma fire_ok react i d t w :
  objects_ok w -> punctual w -> objects w !! i = Some d -> _deadline_at d = Some t -> t <= now w ->
  exists r w', _fire_from_scanner react i d (log_firing i t (now w) w) = (r, w') /\ objects_ok w' /\ fires_at i w w' /\ refreshed w w' i d.
Proof.
  intros Hok Hpu Hi Ht Hn. pose proof (objects_ok_logged w i d t Hok Hpu Hi Ht Hn) as Hok0. set (w0 := log_firing _ _ _ w) in *.
  pose proof (ok_bound w Hok i d Hi) as Hl. pose proof (ok_amount w Hok i d Hi) as Ha. pose proof (ok_at w Hok i d Hi) as Hat.
  rewrite Ht, bool_decide_true in Hat by done.
  assert (Hin : i ∈ _REGISTRY w0) by (apply (ok_listed w Hok); eauto).
  assert (Hrun : _LOOP w0 = Some (running w0)) by (destruct (ok_loop w0 Hok0) as [[_ E]|?]; [rewrite E in Hin; set_solver|done]).
  assert (Hout : forall d', _registered d' = false -> _deadline_at d' = None -> _loop d' = _loop d -> d_kind d' = d_kind d -> _amount d' = _amount d ->
    objects_ok (set_object i d' (set_registry (filter (fun j => j <> i) (_REGISTRY w0)) w0))).
  { intros d' E1 E2 E3 E4 E5. apply objects_ok_set; rewrite ?E2, ?E3, ?E4, ?E5; try done; [|by right].
    intros j. rewrite list_elem_of_filter. destruct (decide (j = i)) as [->|]; [|tauto]. split; [by intros [[] _]|by rewrite E1]. }
  assert (Hsame : forall d' reg, fires_at i w (set_object i d' (set_registry reg w0))).
  { intros d' reg. split; try done. intros j Hne. cbn. by rewrite lookup_insert_ne. }
  unfold _fire_from_scanner, refreshed. destruct (d_kind d) eqn:Ek.
  1,2: do 2 eexists; split; [reflexivity|]; change (discard i (set_object i ?x w0)) with (set_object i x (set_registry (filter (fun j => j <> i) (_REGISTRY w0)) w0));
    pose proof (Hout (spent d) eq_refl eq_refl eq_refl Ek eq_refl) as Hok1; pose proof (Hsame (spent d) (filter (fun j => j <> i) (_REGISTRY w0))) as Hs1;
    fold (spent d); set (w1 := set_object i (spent d) _) in *;
    assert (Hi1 : objects w1 !! i = Some (spent d)) by (cbn; by rewrite lookup_insert_eq);
    (destruct (_task d) as [t'|]; [destruct (bool_decide _)|]); (split; [first [exact Hok1|by apply objects_ok_cancel]|split; [first [exact Hs1|by destruct Hs1]|exact Hi1]]).
  set (d1 := with_at (Some (now w0 + _amount d)) d).
  assert (Ha0 : 0 < _amount d) by (by apply Ha).
  assert (Hok1 : objects_ok (set_object i d1 w0)).
  { rewrite <- (set_registry_id w0). apply objects_ok_set; try done; cbn [d1 with_at _loop _registered _deadline_at d_kind _amount].
    - left. by destruct Hl as [|[_ ?]].
    - intros j. destruct (decide (j = i)) as [->|]; [|done]. by rewrite Hat.
    - by right. }
  assert (Hstay : objects_ok (set_object i d1 w0) /\ fires_at i w (set_object i d1 w0) /\
    exists d', objects (set_object i d1 w0) !! i = Some d' /\ d_kind d' = Idle /\ forall t, _deadline_at d' = Some t -> now w < t).
  { split; [done|]. split; [rewrite <- (set_registry_id w0); apply Hsame|]. exists d1. split; [cbn; by rewrite lookup_insert_eq|].
    split; [done|]. intros ? [= <-]. change (now w0) with (now w). lia. }
  destruct (react i) as [| |e] eqn:Er; [by do 2 eexists| |by do 2 eexists].
  do 2 eexists. split; [reflexivity|]. unfold disarm, delist. cbn [with_at _registered]. change (_registered d1) with (_registered d). rewrite Hat.
  set (d2 := with_registered false (with_at None d1)).
  assert (E : set_object i d2 (discard i (set_object i d1 w0)) = set_object i d2 (set_registry (filter (fun j => j <> i) (_REGISTRY w0)) w0)).
  { unfold discard, set_object, set_registry. cbn. by rewrite insert_insert_eq. }
  rewrite E. split; [by apply Hout|]. split; [apply Hsame|]. exists d2. split; [cbn; by rewrite lookup_insert_eq|]. done.
Qed.

(** What the visits leave, and what becomes of an object that is not a watchdog. *)
Record visited (r : result unit) (snapshot : list nat) (w w' : world) : Prop := mkVisited {
  vi_ok : objects_ok w';
  vi_now : now w' = now w;
  vi_running : running w' = running w;
  vi_loop : _LOOP w' = _LOOP w;
  vi_handle : _HANDLE w' = _HANDLE w;
  vi_others j : j ∉ snapshot -> objects w' !! j = objects w !! j;
  vi_ahead j d t : r = Ok tt -> j ∈ snapshot -> objects w' !! j = Some d -> _deadline_at d = Some t -> now w < t;
  vi_kept j d : objects w !! j = Some d -> d_kind d <> Idle ->
    objects w' !! j = Some d \/ (objects w' !! j = Some (spent d) /\ exists t, _deadline_at d = Some t /\ t <= now w)
}.

Lemma visited_skip r i snapshot w w' :
  (forall d t, objects w !! i = Some d -> _deadline_at d = Some t -> now w < t) -> visited r snapshot w w' -> visited r (i :: snapshot) w w'.
Proof.
  intros Hi [H1 H2 H3 H4 H5 H6 H7 H8]. constructor; try done; [intros j Hj; apply H6; set_solver|].
  intros j d t Hr Hj Hd Ht. destruct (decide (j ∈ snapshot)) as [?|Hn]; [by eapply H7|]. rewrite H6 in Hd by done.
  apply elem_of_cons in Hj as [->|?]; [by eapply Hi|done].
Qed.

Lemma visited_stop e snapshot w : objects_ok w -> visited (Raise e) snapshot w w.
Proof. intros Hok. constructor; try done. by left. Qed.

Lemma visited_fire r i snapshot w w1 w' d t :
  objects w !! i = Some d -> _deadline_at d = Some t -> t <= now w -> fires_at i w w1 -> refreshed w w1 i d ->
  visited r snapshot w1 w' -> visited r (i :: snapshot) w w'.
Proof.
  intros Hi Ht Hn [F1 F2 F3 F4 F5] Hr [H1 H2 H3 H4 H5 H6 H7 H8]. constructor; try congruence.
  - intros j Hj. apply not_elem_of_cons in Hj as [Hj1 Hj2]. rewrite H6 by done. by apply F5.
  - rewrite <- F1. intros j d' t' Hr' Hj Hd Ht'. destruct (decide (j ∈ snapshot)) as [?|Hns]; [by eapply H7|]. rewrite H6 in Hd by done.
    apply elem_of_cons in Hj as [->|?]; [|done]. rewrite F1. by eapply refreshed_ahead.
  - intros j d' Hj Hk. rewrite <- F1. destruct (decide (j = i)) as [->|Hne].
    + rewrite Hi in Hj. injection Hj as <-. unfold refreshed in Hr.
      assert (Hs : objects w1 !! i = Some (spent d)) by by destruct (d_kind d). right. split; [|exists t; by rewrite F1].
      destruct (H8 i (spent d) Hs Hk) as [?|[_ (? & ? & _)]]; done.
    + rewrite <- F5 in Hj by done. by apply H8.
Qed.

Lemma visit_ok react snapshot w :
  objects_ok w -> punctual w -> exists r w', visit react snapshot w = (r, w') /\ visited r snapshot w w'.
Proof.
  revert w. induction snapshot as [|i snapshot IH]; intros w Hok Hpu; cbn [visit].
  - exists (Ok tt), w. split; [done|]. constructor; try done; [set_solver|by left].
  - assert (Hskip : (forall d t, objects w !! i = Some d -> _deadline_at d = Some t -> now w < t) ->
      exists r w', visit react snapshot w = (r, w') /\ visited r (i :: snapshot) w w').
    { intros H. destruct (IH w Hok Hpu) as (r & w' & -> & Hv). exists r, w'. split; [done|]. by apply visited_skip. }
    destruct (objects w !! i) as [d|] eqn:Ei; [destruct (_deadline_at d) as [t|] eqn:Et; [destruct (Z.leb_spec t (now w)) as [Hle|Hlt]|]|];
      [|apply Hskip; intros; congruence..].
    destruct (fire_ok react i d t w Hok Hpu Ei Et Hle) as (r & w1 & -> & Hok1 & Hf & Href). destruct r as [[]|e].
    + destruct (IH w1 Hok1 (fires_punctual w w1 i d Hf Href Hpu)) as (r & w' & -> & Hv). exists r, w'. split; [done|]. by eapply visited_fire.
    + exists (Raise e), w1. split; [done|]. eapply visited_fire; [done..|]. by apply visited_stop.
Qed.

Lemma set_handle_objects_ok h w : objects_ok w -> objects_ok (set_handle h w).
Proof. by intros []. Qed.

(** A tick, whatever the callbacks do: it ends with a timer or an empty registry,
    or, when one of them raised, with the spent handle. *)
Lemma tick_ok react snapshot w due :
  ok w -> _HANDLE w = Some (Due due) -> snapshot ≡ₚ _REGISTRY w ->
  exists r w', _tick react snapshot w = (r, w') /\ ok w' /\ now w' = now w /\ running w' = running w /\
    (_HANDLE w' = Some Spent -> exists e, r = Raise e) /\
    (forall j d, objects w !! j = Some d -> d_kind d <> Idle ->
      objects w' !! j = Some d \/ (objects w' !! j = Some (spent d) /\ exists t, _deadline_at d = Some t /\ t <= now w)).
Proof.
  intros Hok Hh Hp. pose proof (ok_punctual w Hok ltac:(congruence)) as Hpu. destruct Hok as [Hob Hti].
  unfold timely in Hti. rewrite Hh in Hti. destruct Hti as (Hl & Hlate & _ & _). unfold _tick. cbn [set_handle _LOOP]. rewrite Hl.
  destruct (visit_ok react snapshot (set_handle (Some Spent) w) (set_handle_objects_ok _ _ Hob) Hpu) as (r & w1 & -> & [V1 V2 V3 V4 V5 V6 V7 V8]).
  destruct r as [[]|e].
  2: { do 2 eexists. split; [reflexivity|]. split; [split; [done|]|by split_and!; eauto]. unfold timely. by rewrite V5, V4, V3. }
  do 2 eexists. split; [reflexivity|]. split; [split; [by apply set_handle_objects_ok|]|].
  - unfold timely. cbn [set_handle _HANDLE _LOOP running now objects _REGISTRY]. case_bool_decide as Hreg; [done|].
    split; [by rewrite V4, V3|]. split; [lia|]. split; [lia|]. intros i d t Hi Ht. cbn [set_handle now objects] in *.
    enough (now w < t) by lia. destruct (decide (i ∈ snapshot)) as [Hin|Hnot]; [by eapply V7|]. rewrite V6 in Hi by done. exfalso. apply Hnot.
    rewrite Hp. apply (ok_listed w Hob). exists d. split; [done|]. rewrite (ok_at w Hob i d Hi), Ht. by apply bool_decide_true.
  - cbn [set_handle now running objects _HANDLE]. split_and!; try done. by case_bool_decide.
Qed.

(** ** Every step keeps the invariant *)

Lemma ok_irrelevant w w' :
  now w' = now w -> running w' = running w -> _LOOP w' = _LOOP w -> _HANDLE w' = _HANDLE w -> _REGISTRY w' = _REGISTRY w ->
  objects w' = objects w -> firings w' = firings w -> ok w -> ok w'.
Proof.
  intros E1 E2 E3 E4 E5 E6 E7 [[H1 H2 H3 H4 H5 H7] Ht].
  split; [constructor; rewrite ?E1, ?E2, ?E3, ?E5, ?E6, ?E7; done|]. unfold timely in *. by rewrite E1, E2, E3, E4, E5, E6.
Qed.

(** An object put in its place, whose deadline was there before or is none. *)
Lemma set_ok w i d :
  ok w -> flagged w i d -> _loop d = Some (running w) \/ (_loop d = None /\ d_kind d = Write) ->
  _registered d = bool_decide (is_Some (_deadline_at d)) -> (d_kind d <> Connection -> 0 < _amount d) ->
  (forall t, _deadline_at d = Some t -> exists d0, objects w !! i = Some d0 /\ _deadline_at d0 = Some t) -> ok (set_object i d w).
Proof.
  intros [Hob Hti] Hf Hl Hr Ha Hd. pose proof (flagged_listed w i d Hob Hf) as Hin. rewrite <- (set_registry_id w). split.
  - apply objects_ok_set; try done.
    + intros j. by destruct (decide (j = i)) as [->|].
    + destruct (ok_loop w Hob) as [[_ ?]|?]; [by left|by right].
  - apply timely_set; [done| |].
    + intros due t Hh (d0 & Hi & Ht)%Hd. unfold timely in Hti. rewrite Hh in Hti. destruct Hti as (_ & _ & _ & H). by eapply H.
    + intros Hh. unfold timely in Hti. by rewrite Hh in Hti.
Qed.

Lemma flagged_same w i d d' : objects w !! i = Some d -> _registered d' = _registered d -> flagged w i d'.
Proof. intros Hi Hr. unfold flagged. by rewrite Hi. Qed.

Lemma bound_loop w i d : ok w -> objects w !! i = Some d -> d_kind d <> Write -> _loop d = Some (running w).
Proof. intros [Hob _] Hi Hk. by destruct (ok_bound w Hob i d Hi) as [?|[_ ?]]. Qed.

Lemma arm_ok w i s d : ok w -> objects w !! i = Some d -> d_kind d = Connection -> ok (arm i s d w).
Proof.
  intros Hok Hi Hk. pose proof (bound_loop w i d Hok Hi ltac:(congruence)) as Hl. unfold arm. destruct (Z.ltb_spec 0 s).
  - eapply enlist_ok; [done|by eapply flagged_same|exact Hl|reflexivity|lia|done].
  - apply delist_ok; [done|by eapply flagged_same|by left|done|done].
Qed.

Lemma disarm_ok w i d : ok w -> objects w !! i = Some d -> ok (disarm i d w).
Proof.
  intros Hok Hi. pose proof Hok as [Hob _]. apply delist_ok; [done|by eapply flagged_same|apply (ok_bound w Hob i d Hi)|done|apply (ok_amount w Hob i d Hi)].
Qed.

Lemma write_loop w i d (P : Prop) `{!Decision P} : ok w -> objects w !! i = Some d -> Some (if bool_decide P then default (running w) (_loop d) else running w) = Some (running w).
Proof. intros [Hob _] Hi. destruct (ok_bound w Hob i d Hi) as [E|[E _]]; rewrite E; by destruct (bool_decide P). Qed.

Lemma worker_step_ok w who w' : ok w -> step w who w' -> ok w'.
Proof.
  intros Hok Hs. pose proof Hok as [Hob Hti]. destruct Hs as [t Hn Hd|react snapshot due Hh Hd Hp|i task Hi|i s d Hi Hk|i d Hi Hk|i s d Hi Hk|i d Hi Hk|i task x d Hi Hk
    |i s Hi Hs|i task d Hi Hk|i task x d Hi Hk|i s Hi Hs|i d Hi Hk|t|t].
  - unfold timely in Hti. split.
    + by destruct Hob.
    + unfold timely. cbn [set_now _HANDLE _LOOP _REGISTRY now running objects]. destruct (_HANDLE w) as [[due|]|]; try done.
      destruct Hti as (? & ? & ? & ?). pose proof (Hd due eq_refl). split_and!; try done; lia.
  - by destruct (tick_ok react snapshot w due Hok Hh Hp) as (r & w2 & -> & H2 & _).
  - apply set_ok; try done; [by unfold flagged; rewrite Hi|by left].
  - by apply arm_ok.
  - by apply disarm_ok.
  - apply set_ok; try done; [by eapply flagged_same|left; apply (bound_loop w i d Hok Hi); congruence|exact (ok_at w Hob i d Hi)|intros t Ht; by exists d].
  - by apply arm_ok.
  - unfold __exit__. pose proof (disarm_ok w i d Hok Hi) as H. destruct (_fired d), x; cbn [snd]; try done; by apply (ok_irrelevant (disarm i d w)).
  - apply set_ok; try done; [by unfold flagged; rewrite Hi|by right].
  - unfold write_enter. destruct (_task d); [done|]. eapply enlist_ok; [done|by eapply flagged_same|by eapply write_loop|reflexivity| |].
    + assert (0 < _amount d) by (apply (ok_amount w Hob i d Hi); congruence). cbn. lia.
    + intros _. cbn. apply (ok_amount w Hob i d Hi). congruence.
  - unfold write_exit. destruct (bool_decide _); [|done].
    assert (H : ok (delist i (with_at None (with_owner (_loop d) None d)) w)).
    { apply delist_ok; [done|by eapply flagged_same|apply (ok_bound w Hob i d Hi)|done|apply (ok_amount w Hob i d Hi)]. }
    destruct (_fired d), x; cbn [snd]; try done; by eapply ok_irrelevant; [..|exact H].
  - apply set_ok; try done; [by unfold flagged; rewrite Hi|by left|]. intros _. cbn. destruct s as [x|]; [by apply Hs|done].
  - unfold touch. assert (0 < _amount d) by (apply (ok_amount w Hob i d Hi); congruence).
    eapply enlist_ok; [done|by eapply flagged_same|apply (bound_loop w i d Hok Hi); congruence|reflexivity|lia|intros _; exact H].
  - by eapply ok_irrelevant; [..|exact Hok].
  - by eapply ok_irrelevant; [..|exact Hok].
Qed.

(** What a worker can come to. *)
Inductive reachable : world -> Prop :=
| at_start t loop : reachable (start t loop)
| one_step w who w' : reachable w -> step w who w' -> reachable w'.

Lemma reachable_ok w : reachable w -> ok w.
Proof.
  induction 1 as [t loop|w who w' _ IH Hs]; [|by eapply worker_step_ok]. split; [|done]. constructor; try done; try (intros; by exfalso).
  - by left.
  - intros i. cbn. split; [set_solver|by intros (? & ? & _)].
Qed.

Lemma ensure_objects loop w : objects (_ensure_scanner_running loop w) = objects w /\ now (_ensure_scanner_running loop w) = now w.
Proof. unfold _ensure_scanner_running. destruct (bool_decide _); cbn [_HANDLE set_registry set_handle]; [destruct (_HANDLE w)|]; done. Qed.

Lemma enlist_others i j d w : j <> i -> objects (enlist i d w) !! j = objects w !! j /\ now (enlist i d w) = now w.
Proof.
  intros Hne. unfold enlist, register, add_. destruct (_registered d); [cbn; by rewrite lookup_insert_ne|].
  destruct (ensure_objects (default (running w) (_loop d)) w) as [Ho Hn].
  destruct (bool_decide _); cbn [set_object set_registry objects now]; rewrite lookup_insert_ne, Ho, ?Hn by done; done.
Qed.

Lemma delist_others i j d w : j <> i -> objects (delist i d w) !! j = objects w !! j /\ now (delist i d w) = now w.
Proof. intros Hne. unfold delist. destruct (_registered d); cbn; by rewrite lookup_insert_ne. Qed.

Lemma enlist_self i d w : objects (enlist i d w) !! i = Some (with_registered true d).
Proof. unfold enlist. destruct d as [k l t a f m r]. cbn [_registered]. destruct r; cbn; by rewrite lookup_insert_eq. Qed.

(** Arming and dropping never leave a spent timer where there was none. *)
Lemma enlist_spends i d w : _HANDLE (enlist i d w) = Some Spent -> _HANDLE w = Some Spent.
Proof.
  unfold enlist, register, add_. destruct (_registered d); [done|]. set (w1 := _ensure_scanner_running _ w).
  assert (H : _HANDLE w1 = Some Spent -> _HANDLE w = Some Spent).
  { unfold w1, _ensure_scanner_running. destruct (bool_decide _); cbn [_HANDLE set_registry set_handle]; [destruct (_HANDLE w) eqn:E|]; cbn; congruence. }
  by destruct (bool_decide (i ∈ _)).
Qed.

Lemma delist_handle i d w : _HANDLE (delist i d w) = _HANDLE w.
Proof. unfold delist. by destruct (_registered d). Qed.

(** Only a tick in which a callback raises spends the timer. *)
Lemma step_spends w who w' :
  ok w -> step w who w' -> _HANDLE w' = Some Spent ->
  _HANDLE w = Some Spent \/ exists react snapshot e, _tick react snapshot w = (Raise e, w').
Proof.
  intros Hok Hs. destruct Hs as [t Hn Hd|react snapshot due Hh Hd Hp|j task Hj|j s d' Hj Hkj|j d' Hj Hkj|j s d' Hj Hkj|j d' Hj Hkj|j task x d' Hj Hkj
    |j s Hj Hs|j task d' Hj Hkj|j task x d' Hj Hkj|j s Hj Hs|j d' Hj Hkj|t|t]; try (intros Hh'; left; exact Hh').
  - destruct (tick_ok react snapshot w due Hok Hh Hp) as (r & w2 & E & _ & _ & _ & Hsp & _). rewrite E. cbn [snd]. intros Hh'.
    destruct (Hsp Hh') as [e ->]. right. eauto.
  - unfold arm. destruct (0 <? s); [intros H%enlist_spends; by left|rewrite delist_handle; by left].
  - unfold disarm. rewrite delist_handle. by left.
  - unfold __enter__, arm. destruct (0 <? _); [intros H%enlist_spends; by left|rewrite delist_handle; by left].
  - unfold __exit__, disarm. pose proof (delist_handle j (with_at None d') w) as E. destruct (_fired d'), x; cbn [snd uncancel set_cancelling _HANDLE]; rewrite E; by left.
  - unfold write_enter. destruct (_task d'); [by left|]. intros H%enlist_spends. by left.
  - unfold write_exit. pose proof (delist_handle j (with_at None (with_owner (_loop d') None d')) w) as E.
    destruct (bool_decide _); [|by left]. destruct (_fired d'), x; cbn [snd uncancel set_cancelling _HANDLE]; rewrite E; by left.
  - intros H%enlist_spends. by left.
Qed.

(** C35: as long as no watchdog's callback has raised inside a tick, a deadline
    is never missed, and no deadline ever fires early or late.  Whatever the
    tasks of a worker do with their deadlines — arming, re-arming, leaving,
    riding along, watching — in whatever order a tick visits the registry, and
    with a loop that runs a due timer at most [lag] late: while the scanner's
    handle is not the spent one of a tick that raised, no armed deadline is
    overdue by more than a tick and [lag], each is in the registry, and the timer
    is there and due within a tick of it.  Whatever has been fired, in all runs,
    was fired when it was due and at most a tick and [lag] later.  The handle is
    spent only by a tick in which a callback raises; from then on nothing is
    promised of what is armed ([raising_callback_stops_scanner]). *)
Theorem deadlines_kept w :
  reachable w ->
  (_HANDLE w <> Some Spent -> forall i d t, objects w !! i = Some d -> _deadline_at d = Some t ->
     now w <= t + _TICK_S + lag /\ i ∈ _REGISTRY w /\ exists due, _HANDLE w = Some (Due due) /\ due <= t + _TICK_S) /\
  Forall (fun f => f.1.2 <= f.2 <= f.1.2 + _TICK_S + lag) (firings w) /\
  (forall who w', step w who w' -> _HANDLE w' = Some Spent ->
     _HANDLE w = Some Spent \/ exists react snapshot e, _tick react snapshot w = (Raise e, w')).
Proof.
  intros Hok%reachable_ok. pose proof Hok as [Hob Hti]. split; [|split; [apply (ok_fired w Hob)|intros who w' Hs; by eapply step_spends]].
  intros Hsp i d t Hi Ht. split; [by eapply (ok_punctual w Hok Hsp)|]. split.
  - apply (ok_listed w Hob). exists d. split; [done|]. rewrite (ok_at w Hob i d Hi), Ht. by apply bool_decide_true.
  - unfold timely in Hti. destruct (_HANDLE w) as [[due|]|]; [|done|exfalso; by eapply (none_due w)]. exists due. split; [done|].
    destruct Hti as (_ & _ & _ & H). by eapply H.
Qed.

(** ** A guarded read *)

Lemma step_elsewhere w who w' i d :
  ok w -> step w who w' -> who <> Some i -> objects w !! i = Some d -> d_kind d <> Idle ->
  now w <= now w' /\
  (objects w' !! i = Some d \/ (objects w' !! i = Some (spent d) /\ exists t, _deadline_at d = Some t /\ t <= now w)).
Proof.
  intros Hok Hs Hw Hi Hk.
  assert (Hput : forall w2, objects w2 !! i = objects w !! i /\ now w2 = now w ->
    now w <= now w2 /\ (objects w2 !! i = Some d \/ (objects w2 !! i = Some (spent d) /\ exists t, _deadline_at d = Some t /\ t <= now w))).
  { intros w2 [E1 E2]. split; [lia|left]. congruence. }
  destruct Hs as [t Hn Hd|react snapshot due Hh Hd Hp|j task Hj|j s d' Hj Hkj|j d' Hj Hkj|j s d' Hj Hkj|j d' Hj Hkj|j task x d' Hj Hkj
    |j s Hj Hs|j task d' Hj Hkj|j task x d' Hj Hkj|j s Hj Hs|j d' Hj Hkj|t|t];
    try (assert (Hne : i <> j) by congruence).
  - split; [done|by left].
  - destruct (tick_ok react snapshot w due Hok Hh Hp) as (r & w2 & -> & _ & Hn & _ & _ & Hkept). cbn [snd]. split; [lia|]. by apply Hkept.
  - apply Hput. cbn. by rewrite lookup_insert_ne.
  - apply Hput. unfold arm. destruct (0 <? s); [by apply enlist_others|by apply delist_others].
  - by apply Hput, delist_others.
  - apply Hput. cbn. by rewrite lookup_insert_ne.
  - apply Hput. unfold __enter__, arm. destruct (0 <? _); [by apply enlist_others|by apply delist_others].
  - apply Hput. unfold __exit__. pose proof (delist_others j i (with_at None d') w Hne). destruct (_fired d'), x; done.
  - apply Hput. cbn. by rewrite lookup_insert_ne.
  - apply Hput. unfold write_enter. destruct (_task d'); [done|by apply enlist_others].
  - apply Hput. unfold write_exit. pose proof (delist_others j i (with_at None (with_owner (_loop d') None d')) w Hne).
    destruct (bool_decide _); [destruct (_fired d'), x|]; done.
  - apply Hput. cbn. by rewrite lookup_insert_ne.
  - by apply Hput, enlist_others.
  - by apply Hput.
  - by apply Hput.
Qed.

(** What happens while the owner of [i] waits in its block. *)
Inductive elsewhere (i : nat) (w : world) : world -> Prop :=
| not_yet : elsewhere i w w
| meanwhile w1 who w2 : elsewhere i w w1 -> step w1 who w2 -> who <> Some i -> elsewhere i w w2.

Lemma elsewhere_kept i d w w2 :
  reachable w -> elsewhere i w w2 -> objects w !! i = Some d -> d_kind d <> Idle ->
  reachable w2 /\ now w <= now w2 /\
  (objects w2 !! i = Some d \/ (objects w2 !! i = Some (spent d) /\ exists t, _deadline_at d = Some t /\ t <= now w2)).
Proof.
  intros Hr He Hi Hk. induction He as [|w1 who w2 _ (Hr1 & Hn & Hob) Hs Hw]; [split; [done|split; [done|by left]]|].
  pose proof (reachable_ok w1 Hr1) as Hok1. split; [by eapply one_step|].
  destruct Hob as [Hob|[Hob (t & Ht & Htn)]].
  - destruct (step_elsewhere w1 who w2 i d Hok1 Hs Hw Hob Hk) as [Hn2 [?|[? (t & ? & ?)]]]; (split; [lia|]); [by left|right].
    split; [done|]. exists t. split; [done|lia].
  - destruct (step_elsewhere w1 who w2 i (spent d) Hok1 Hs Hw Hob Hk) as [Hn2 [?|[_ (? & ? & _)]]]; [|done]. split; [lia|right].
    split; [done|]. exists t. split; [done|lia].
Qed.

Definition exit_result (d : deadline) (x : ending) : result unit :=
  match x with
  | Raised e => Raise e
  | Normally => if _fired d then Raise TimeoutError else Ok tt
  | Cancelled => if _fired d then Raise TimeoutError else Raise CancelledError
  end.

Lemma exit_contract i d task x w :
  reachable w -> objects w !! i = Some d -> d_kind d = Connection ->
  let '(r, w') := __exit__ i task x d w in reachable w' /\ (i ∉ _REGISTRY w') /\ r = exit_result d x.
Proof.
  intros Hr Hi Hk. pose proof (one_step w (Some i) _ Hr (exits w i task x d Hi Hk)) as Hr'.
  destruct (__exit__ i task x d w) as [r w'] eqn:E. cbn [snd] in Hr'. split; [exact Hr'|].
  assert (Hd : exists d', objects w' !! i = Some d' /\ _deadline_at d' = None).
  { unfold __exit__, disarm, delist in E. destruct d as [k l t a f m g]. cbn [_registered _fired with_at] in E.
    destruct g, f, x; injection E as E1 E2; rewrite <- E2; cbn; rewrite lookup_insert_eq; by eexists. }
  destruct Hd as (d' & Hi' & Ht'). destruct (reachable_ok w' Hr') as [Hob _]. split.
  - intros Hin%(ok_listed w' Hob). destruct Hin as (d2 & Hi2 & Hr2). rewrite Hi' in Hi2. injection Hi2 as <-.
    rewrite (ok_at w' Hob i d' Hi'), Ht' in Hr2. by apply bool_decide_eq_true in Hr2 as [? ?].
  - unfold __exit__, exit_result in *. by destruct (_fired d), x; injection E as <- <-.
Qed.


(** ** A bounded write *)

(** What happens until the owner of a write deadline leaves: other tasks enter
    and leave it, too. *)
Inductive drains (i owner : nat) (w : world) : world -> Prop :=
| no_drain : drains i owner w w
| drains_on w1 who w2 : drains i owner w w1 -> step w1 who w2 -> who <> Some i -> drains i owner w w2
| rider_enters w1 task d : drains i owner w w1 -> objects w1 !! i = Some d -> d_kind d = Write -> drains i owner w (write_enter i task d w1)
| rider_leaves w1 task x d :
    drains i owner w w1 -> objects w1 !! i = Some d -> d_kind d = Write -> task <> owner -> drains i owner w (write_exit i task x d w1).2.

(** The bound of the first drain is the bound of all that ride along: no later
    one moves it. *)
Lemma riders_ride i owner d w w2 :
  reachable w -> objects w !! i = Some d -> d_kind d = Write -> _task d = Some owner -> drains i owner w w2 ->
  reachable w2 /\ now w <= now w2 /\
  (objects w2 !! i = Some d \/ (objects w2 !! i = Some (spent d) /\ exists t, _deadline_at d = Some t /\ t <= now w2)).
Proof.
  intros Hr Hi Hk Ho. assert (Hni : d_kind d <> Idle) by congruence.
  induction 1 as [|w1 who w2 _ (Hr1 & Hn & Hob) Hs Hw|w1 task d1 _ (Hr1 & Hn & Hob) Hd1 Hk1|w1 task x d1 _ (Hr1 & Hn & Hob) Hd1 Hk1 Ht1].
  - split; [done|split; [done|by left]].
  - pose proof (reachable_ok w1 Hr1) as Hok1. split; [by eapply one_step|]. destruct Hob as [Hob|[Hob (t & Ht & Htn)]].
    + destruct (step_elsewhere w1 who w2 i d Hok1 Hs Hw Hob Hni) as [Hn2 [?|[? (t & ? & ?)]]]; (split; [lia|]); [by left|right].
      split; [done|]. exists t. split; [done|lia].
    + destruct (step_elsewhere w1 who w2 i (spent d) Hok1 Hs Hw Hob Hni) as [Hn2 [?|[_ (? & ? & _)]]]; [|done]. split; [lia|right].
      split; [done|]. exists t. split; [done|lia].
  - assert (Ho1 : _task d1 = Some owner) by (destruct Hob as [Hob|[Hob _]]; rewrite Hd1 in Hob; injection Hob as ->; done).
    unfold write_enter. rewrite Ho1. by split_and!.
  - assert (Ho1 : _task d1 = Some owner) by (destruct Hob as [Hob|[Hob _]]; rewrite Hd1 in Hob; injection Hob as ->; done).
    unfold write_exit. rewrite bool_decide_false by congruence. by split_and!.
Qed.

(** A write is bounded, and riders do not extend the bound.  From the moment
    the first task enters a drain with [s] seconds to go, whatever other tasks
    enter and leave the same deadline meanwhile: until its owner leaves, the
    deadline has fired — and not before [s] was over — or no more than [s], a
    tick and the loop's lateness have passed, unless a watchdog's callback has
    raised. *)
Theorem write_bounds w i task d w2 :
  reachable w -> objects w !! i = Some d -> d_kind d = Write -> _task d = None ->
  drains i task (write_enter i task d w) w2 ->
  exists d2, objects w2 !! i = Some d2 /\ _task d2 = Some task /\
    if _fired d2 then now w + _amount d <= now w2 else _HANDLE w2 <> Some Spent -> now w2 <= now w + _amount d + _TICK_S + lag.
Proof.
  intros Hr Hi Hk Ho Hd. set (w1 := write_enter i task d w) in *.
  assert (Hr1 : reachable w1) by (eapply one_step; [exact Hr|by apply enters_write]).
  assert (Hi1 : exists l, objects w1 !! i = Some (with_registered true (with_at (Some (now w + _amount d)) (with_fired false (with_owner (Some l) (Some task) d))))).
  { unfold w1, write_enter. rewrite Ho. eexists. apply enlist_self. }
  destruct Hi1 as [l Hi1]. set (d1 := with_registered true _) in *.
  destruct (riders_ride i task d1 w1 w2 Hr1 Hi1 Hk eq_refl Hd) as (Hr2 & _ & Hob).
  destruct Hob as [Hi2|[Hi2 (t & Ht & Htn)]].
  - exists d1. split; [done|]. split; [done|]. intros Hsp. exact (ok_punctual w2 (reachable_ok w2 Hr2) Hsp i d1 _ Hi2 eq_refl).
  - exists (spent d1). split; [done|]. split; [done|]. cbn in Ht. injection Ht as <-. exact Htn.
Qed.

Lemma cancels_cancel t w : cancels t (cancel t w) = S (cancels t w).
Proof. unfold cancels at 1, cancel. cbn. by rewrite lookup_insert_eq. Qed.

Lemma cancels_uncancel t w : cancels t (uncancel t w) = pred (cancels t w).
Proof. unfold cancels at 1, uncancel. cbn. by rewrite lookup_insert_eq. Qed.

(** The cancellation a firing asks for is taken back when the block ends in
    [TimeoutError]. *)
Lemma firing_undone react i d t task x w :
  d_kind d = Connection -> _task d = Some task -> task ∉ finished w -> x = Normally \/ x = Cancelled ->
  let fired := (_fire_from_scanner react i d (log_firing i t (now w) w)).2 in
  cancels task fired = S (cancels task w) /\
  (__exit__ i task x (spent d) fired).1 = Raise TimeoutError /\ cancels task (__exit__ i task x (spent d) fired).2 = cancels task w.
Proof.
  intros Hk Ht Hf Hx. unfold _fire_from_scanner. rewrite Hk, Ht. cbn [snd]. rewrite bool_decide_false by done. cbv zeta.
  split; [by rewrite cancels_cancel|]. set (w1 := cancel task _). unfold __exit__. destruct Hx as [-> | ->]; cbn [_fired spent with_registered with_at with_fired fst snd].
  all: split; [done|]; rewrite cancels_uncancel; change (cancels task (disarm i (spent d) w1)) with (cancels task w1); unfold w1; by rewrite cancels_cancel.
Qed.

(** Any other exception leaves it pending. *)
Lemma stray_cancellation react i d t task e w :
  d_kind d = Connection -> _task d = Some task -> task ∉ finished w ->
  let fired := (_fire_from_scanner react i d (log_firing i t (now w) w)).2 in
  cancels task (__exit__ i task (Raised e) (spent d) fired).2 = S (cancels task w).
Proof.
  intros Hk Ht Hf. unfold _fire_from_scanner. rewrite Hk, Ht. cbn [snd]. rewrite bool_decide_false by done. cbv zeta.
  set (w1 := cancel task _). change (cancels task w1 = S (cancels task w)). unfold w1. by rewrite cancels_cancel.
Qed.

(** A callback that raises ends the scanner: the spent handle stays, so nothing
    arms a timer again. *)
Lemma raising_callback_stops_scanner react snapshot w w' e i d :
  _tick react snapshot w = (Raise e, w') -> _LOOP w' = Some (default (running w') (_loop d)) ->
  _HANDLE w' = Some Spent /\ _HANDLE (enlist i d w') = Some Spent.
Proof.
  intros Ht Hl. assert (Hh : _HANDLE w' = Some Spent).
  { unfold _tick in Ht. destruct (_LOOP _); [|done]. destruct (visit _ _ _) as [[u|e'] w2] eqn:Ev; [done|]. injection Ht as _ ->.
    assert (H : forall snapshot w, _HANDLE (visit react snapshot w).2 = _HANDLE w).
    { induction snapshot0 as [|j snapshot0 IH]; intros w0; [done|]. cbn [visit]. destruct (objects w0 !! j) as [dj|]; [|apply IH].
      destruct (_deadline_at dj) as [t|]; [|apply IH]. destruct (t <=? now w0); [|apply IH].
      assert (Hf : _HANDLE (_fire_from_scanner react j dj (log_firing j t (now w0) w0)).2 = _HANDLE w0).
      { unfold _fire_from_scanner. destruct (d_kind dj); [destruct (_task dj); [destruct (bool_decide _)|]; done..|].
        destruct (react j); [done| |done]. unfold disarm, delist. by destruct (_registered _). }
      destruct (_fire_from_scanner _ _ _ _) as [[u|e''] w1]; cbn [snd] in Hf; [by rewrite IH|done]. }
    specialize (H snapshot (set_handle (Some Spent) w)). by rewrite Ev in H. }
  split; [done|]. unfold enlist, register. destruct (_registered d); [done|].
  assert (E : _ensure_scanner_running (default (running w') (_loop d)) w' = w').
  { unfold _ensure_scanner_running. rewrite bool_decide_true by done. by rewrite Hh. }
  rewrite E. unfold add_. by destruct (bool_decide _).
Qed.

End Scanner.

(** ** Samples *)

(** A connection armed for 100 at time 0, with a tick of 300: it is fired by the
    first tick, at 300. *)
Definition sample : world := new_connection 1 7 (start 0 0).
Definition sample_deadline : deadline := mkDeadline Connection (Some 0%nat) (Some 7%nat) None false 0 false.
Definition sample_entered : world := __enter__ 300 1 (guard 100 sample_deadline) (set_object 1 (guard 100 sample_deadline) sample).
Definition sample_fired : world := (_tick 300 (fun _ => Quiet) [1%nat] (set_now 300 sample_entered)).2.

Lemma sample_reachable : reachable 300 0 sample.
Proof. eapply one_step; [apply at_start|by apply connects]. Qed.

Lemma sample_elsewhere : elsewhere 300 0 1 sample_entered sample_fired.
Proof.
  eapply meanwhile; [eapply meanwhile; [apply not_yet|apply (time_passes 300 0 _ 300)|done]|apply (scanner_ticks 300 0 _ (fun _ => Quiet) [1%nat] 300)|done].
  - vm_compute. discriminate.
  - intros due Hd. vm_compute in Hd. injection Hd as <-. done.
  - reflexivity.
  - vm_compute. discriminate.
  - reflexivity.
Qed.

Lemma deadlines_kept_witness :
  (_HANDLE sample_entered <> Some Spent -> forall i d t, objects sample_entered !! i = Some d -> _deadline_at d = Some t ->
     now sample_entered <= t + 300 + 0 /\ i ∈ _REGISTRY sample_entered /\ exists due, _HANDLE sample_entered = Some (Due due) /\ due <= t + 300) /\
  Forall (fun f => f.1.2 <= f.2 <= f.1.2 + 300 + 0) (firings sample_entered) /\
  (forall who w', step 300 0 sample_entered who w' -> _HANDLE w' = Some Spent ->
     _HANDLE sample_entered = Some Spent \/ exists react snapshot e, _tick 300 react snapshot sample_entered = (Raise e, w')).
Proof.
  apply (deadlines_kept 300 0); [lia|lia|]. eapply one_step; [eapply one_step; [apply sample_reachable|apply (prepares 300 0 _ 1 100 sample_deadline)]|
    apply (enters 300 0 _ 1 (guard 100 sample_deadline))]; reflexivity.
Defined.


Example sample_outcome : rmap (fun _ => tt) (__exit__ 1 7 Cancelled (spent (with_at (Some 100) (guard 100 sample_deadline))) sample_fired).1 = Raise TimeoutError /\
  firings sample_fired = [(1%nat, 100, 300)] /\ cancels 7 sample_fired = 1%nat /\ _REGISTRY sample_fired = [].
Proof. vm_compute. split_and!; reflexivity. Qed.

(** A second task enters the drain that the first has begun. *)
Definition sample_writer : world := new_write 2 50 (start 0 0).
Definition writer : deadline := mkDeadline Write None None None false 50 false.
Definition sample_drain : world := write_enter 300 2 7 writer sample_writer.
Definition drained : world := default sample_drain ((fun d => write_enter 300 2 8 d sample_drain) <$> objects sample_drain !! 2%nat).

Lemma write_bounds_witness :
  exists d2, objects drained !! 2%nat = Some d2 /\ _task d2 = Some 7%nat /\
    if _fired d2 then now sample_writer + 50 <= now drained else _HANDLE drained <> Some Spent -> now drained <= now sample_writer + 50 + 300 + 0.
Proof.
  apply (write_bounds 300 0 ltac:(lia) ltac:(lia) sample_writer 2 7 writer).
  - eapply one_step; [apply at_start|by apply opens_writer].
  - reflexivity.
  - reflexivity.
  - reflexivity.
  - eapply (rider_enters 300 0 2 7 _ _ 8); [apply no_drain|reflexivity|reflexivity].
Defined.

End Deadline.
