(* ===== verification/CapLog.v ===== *)
(** * The log of exceeded limits (blackbull/server/cap_log.py)

    The counter of a connection and [log_cap_hit].  The records that reach the
    logger are a list; the timer task of the counter is a flag, and its end an
    event. *)

From Stdlib Require Import ZArith Lia.
From stdpp Require Import base tactics numbers option strings list.
From S2P Require Import Prelude PyLib PyText.

Module CapLog.

(** A full record, or a summary of hits that were not logged. *)
Inductive record : Type := Hit (cap : pystr) (requested limit : Z) | Summary (cap : pystr) (suppressed : Z).

Record CapHitCounter : Type := mkCounter {
  _suppressed : dict pystr Z;
  _timer_task : bool;           (* there, and not done *)
  records : list record
}.

Definition set_suppressed s c := mkCounter s (_timer_task c) (records c).
Definition set_timer t c := mkCounter (_suppressed c) t (records c).
Definition emit (rs : list record) c := mkCounter (_suppressed c) (_timer_task c) (records c ++ rs).

Definition __init__ : CapHitCounter := mkCounter [] false [].

Section Counter.
Context (_flush_threshold _flush_interval : Z) (has_loop enabled : bool).

(** [for cap, suppressed in ...: if suppressed > 0: ...] *)
Fixpoint summaries (d : dict pystr Z) : list record :=
  match d with
  | [] => []
  | (cap, suppressed) :: d => if 0 <? suppressed then Summary cap suppressed :: summaries d else summaries d
  end.

Definition _emit_summary_records (c : CapHitCounter) : CapHitCounter :=
  if negb enabled then c
  else emit (summaries (_suppressed c)) c.

(** [for cap in self._suppressed: self._suppressed[cap] = 0] *)
Definition reset_counts (c : CapHitCounter) : CapHitCounter := set_suppressed ((fun x => (x.1, 0)) <$> _suppressed c) c.

Definition _cancel_timer (c : CapHitCounter) : CapHitCounter := set_timer false c.

Definition _maybe_dirty_flush (c : CapHitCounter) : CapHitCounter :=
  if _flush_threshold <=? 0 then c
  else if negb (existsb (fun n => _flush_threshold <=? n) (dvalues (_suppressed c))) then c
  else _cancel_timer (reset_counts (_emit_summary_records c)).

Definition _start_timer_if_needed (c : CapHitCounter) : CapHitCounter :=
  if _flush_interval <=? 0 then c
  else if _timer_task c then c
  else if negb has_loop then c
  else set_timer true c.

(** [_first]: is this the first hit of the cap? *)
Definition _first (cap : pystr) (c : CapHitCounter) : bool * CapHitCounter :=
  match dget (_suppressed c) cap with
  | Some n =>
      let was_zero := n =? 0 in
      let c := _maybe_dirty_flush (set_suppressed (dset (_suppressed c) cap (n + 1)) c) in
      (false, if (0 <? default 0 (dget (_suppressed c) cap)) && was_zero then _start_timer_if_needed c else c)
  | None => (true, set_suppressed (dset (_suppressed c) cap 0) c)
  end.

(** [log_cap_hit] with this counter bound. *)
Definition log_cap_hit (cap : pystr) (requested limit : Z) (c : CapHitCounter) : CapHitCounter :=
  let '(first, c) := _first cap c in
  if negb first then c
  else if negb enabled then c
  else emit [Hit cap requested limit] c.

(** [_timer_run], after its sleep. *)
Definition _timer_run (c : CapHitCounter) : CapHitCounter :=
  let c := if existsb (fun n => 0 <? n) (dvalues (_suppressed c)) then reset_counts (_emit_summary_records c) else c in
  set_timer false c.

Definition flush (c : CapHitCounter) : CapHitCounter :=
  set_suppressed [] (_emit_summary_records (_cancel_timer c)).

(** ** Every hit is accounted for *)

Inductive event : Type := Hits (cap : pystr) (requested limit : Z) | TimerFires | Flushes.

Definition happen (e : event) (c : CapHitCounter) : CapHitCounter :=
  match e with
  | Hits cap r l => log_cap_hit cap r l c
  | TimerFires => if _timer_task c then _timer_run c else c
  | Flushes => flush c
  end.

Definition run (es : list event) (c : CapHitCounter) : CapHitCounter := foldl (fun c e => happen e c) c es.

(** How often a cap was hit, and what the records say of it. *)
Fixpoint hits (cap : pystr) (es : list event) : Z :=
  match es with
  | [] => 0
  | Hits c _ _ :: es => (if decide (c = cap) then 1 else 0) + hits cap es
  | _ :: es => hits cap es
  end.

Definition told (cap : pystr) (r : record) : Z :=
  match r with Hit c _ _ => if decide (c = cap) then 1 else 0 | Summary c n => if decide (c = cap) then n else 0 end.

Fixpoint accounted (cap : pystr) (rs : list record) : Z :=
  match rs with [] => 0 | r :: rs => told cap r + accounted cap rs end.

Definition pending (cap : pystr) (c : CapHitCounter) : Z := default 0 (dget (_suppressed c) cap).

Record ok (c : CapHitCounter) : Prop := mkOk {
  ok_dict : dict_ok (_suppressed c);
  ok_counts cap n : dget (_suppressed c) cap = Some n -> 0 <= n /\ (0 < _flush_threshold -> n < _flush_threshold);
  ok_timer cap : 0 < _flush_interval -> has_loop = true -> 0 < pending cap c -> _timer_task c = true
}.

Lemma hits_app cap es1 es2 : hits cap (es1 ++ es2) = hits cap es1 + hits cap es2.
Proof. induction es1 as [|[c r l| |] es1 IH]; cbn [app hits]; lia. Qed.

Lemma accounted_app cap rs1 rs2 : accounted cap (rs1 ++ rs2) = accounted cap rs1 + accounted cap rs2.
Proof. induction rs1 as [|r rs1 IH]; cbn [app accounted]; lia. Qed.

(** The summaries tell what was pending. *)
Lemma accounted_summary cap (d : dict pystr Z) :
  dict_ok d -> (forall k n, dget d k = Some n -> 0 <= n) ->
  accounted cap (summaries d) = default 0 (dget d cap).
Proof.
  induction d as [|[k n] d IH]; intros Hok Hn; [done|]. unfold dict_ok in *. cbn [dkeys fmap list_fmap fst] in Hok. apply NoDup_cons in Hok as [Hk Hok].
  assert (Hn' : forall k n, dget d k = Some n -> 0 <= n).
  { intros k' n' Hd. apply (Hn k'). cbn [dget]. case_decide; [subst k'|done]. exfalso. apply Hk. apply dget_elem in Hd. by apply (list_elem_of_fmap_2 fst) in Hd. }
  specialize (IH Hok Hn'). cbn [dget summaries]. pose proof (Hn k n) as Hkn. cbn [dget] in Hkn. rewrite decide_True in Hkn by done. specialize (Hkn eq_refl).
  assert (Hnone : dget d k = None).
  { destruct (dget d k) eqn:E; [|done]. exfalso. apply Hk. apply dget_elem in E. by apply (list_elem_of_fmap_2 fst) in E. }
  destruct (Z.ltb_spec 0 n) as [Hpos|Hz]; cbn [accounted told]; rewrite IH.
  - destruct (decide (k = cap)) as [->|Hne]; [rewrite decide_True by done; rewrite Hnone; cbn; lia|]. rewrite decide_False by congruence. cbn. lia.
  - destruct (decide (cap = k)) as [->|]; [|done]. rewrite Hnone. cbn. lia.
Qed.

Lemma dget_reset (d : dict pystr Z) cap : dget ((fun x => (x.1, 0)) <$> d) cap = (fun _ => 0) <$> dget d cap.
Proof. induction d as [|[k n] d IH]; [done|]. cbn. case_decide; [done|exact IH]. Qed.

Lemma reset_dict_ok (d : dict pystr Z) : dict_ok d -> dict_ok ((fun x => (x.1, 0)) <$> d).
Proof.
  unfold dict_ok, dkeys. intros H. assert (E : ((fun x : pystr * Z => (x.1, 0)) <$> d).*1 = d.*1); [|by rewrite E].
  rewrite <- list_fmap_compose. apply list_fmap_ext. by intros.
Qed.

(** Counts on the way to the threshold's test: only the signs are known. *)
Definition counting (c : CapHitCounter) : Prop := dict_ok (_suppressed c) /\ forall k n, dget (_suppressed c) k = Some n -> 0 <= n.

Definition balance (cap : pystr) (c : CapHitCounter) : Z := accounted cap (records c) + pending cap c.

Context (Henabled : enabled = true).

Lemma summarised c : counting c ->
  let c' := reset_counts (_emit_summary_records c) in
  counting c' /\ (forall cap, pending cap c' = 0) /\ (forall cap, balance cap c' = balance cap c) /\ _timer_task c' = _timer_task c.
Proof.
  intros [Hd Hn]. unfold _emit_summary_records. rewrite Henabled. cbn [negb].
  assert (Hp : forall cap c0, _suppressed c0 = _suppressed c -> pending cap (reset_counts c0) = 0).
  { intros cap c0 E. unfold pending, reset_counts. cbn [_suppressed set_suppressed]. rewrite E, dget_reset. by destruct (dget _ cap). }
  split; [split|].
  - cbn. by apply reset_dict_ok.
  - intros k n. cbn. rewrite dget_reset. destruct (dget (_suppressed c) k); [|done]. intros [= <-]. lia.
  - split; [intros cap; by apply Hp|]. split; [|done]. intros cap. unfold balance. rewrite Hp by done. cbn [records reset_counts set_suppressed emit].
    rewrite accounted_app, accounted_summary by done. unfold pending. lia.
Qed.

Lemma dirty_flush_spec c : counting c ->
  let c' := _maybe_dirty_flush c in
  dict_ok (_suppressed c') /\ (forall cap, balance cap c' = balance cap c) /\
  (forall k n, dget (_suppressed c') k = Some n -> 0 <= n /\ (0 < _flush_threshold -> n < _flush_threshold)) /\
  (c' = c \/ forall cap, pending cap c' = 0).
Proof.
  intros Hc. pose proof Hc as [Hd Hn]. unfold _maybe_dirty_flush. destruct (Z.leb_spec _flush_threshold 0) as [Ht|Ht].
  - split_and!; try done; [|by left]. intros k n Hk. split; [by eapply Hn|lia].
  - destruct (existsb _ _) eqn:Ex; cbn [negb].
    + destruct (summarised c Hc) as ([Hd' Hn'] & Hp & Hb & _). set (c' := reset_counts _) in *. split_and!; try done; [|by right].
      intros k n Hk. split; [by eapply Hn'|]. intros _. specialize (Hp k). unfold pending in Hp. change (_suppressed (_cancel_timer c')) with (_suppressed c') in Hk.
      rewrite Hk in Hp. cbn in Hp. lia.
    + split_and!; try done; [|by left]. intros k n Hk. split; [by eapply Hn|]. intros _. apply not_true_iff_false in Ex.
      destruct (Z.lt_ge_cases n _flush_threshold) as [?|Hge]; [done|]. destruct Ex. apply existsb_exists. exists n. split; [|lia].
      apply list_elem_of_In. apply dget_elem in Hk. by apply (list_elem_of_fmap_2 snd) in Hk.
Qed.

Lemma start_timer_spec c : _suppressed (_start_timer_if_needed c) = _suppressed c /\ records (_start_timer_if_needed c) = records c /\
  (_timer_task (_start_timer_if_needed c) = true \/ _flush_interval <= 0 \/ has_loop = false).
Proof.
  unfold _start_timer_if_needed. destruct (Z.leb_spec _flush_interval 0); [split_and!; auto|]. destruct (_timer_task c) eqn:E; [split_and!; auto|].
  destruct has_loop; cbn; auto.
Qed.

Lemma hit_ok cap r l c : ok c -> ok (log_cap_hit cap r l c) /\
  forall cap', balance cap' (log_cap_hit cap r l c) = balance cap' c + (if decide (cap = cap') then 1 else 0).
Proof.
  intros [Hd Hn Ht]. unfold log_cap_hit, _first. destruct (dget (_suppressed c) cap) as [n|] eqn:E.
  - set (c1 := set_suppressed (dset (_suppressed c) cap (n + 1)) c).
    assert (Hc1 : counting c1).
    { split; [by apply dset_ok|]. intros k m. cbn. rewrite dget_dset. case_decide; [|apply Hn]. intros [= <-]. destruct (Hn cap n E). lia. }
    assert (Hb1 : forall cap', balance cap' c1 = balance cap' c + (if decide (cap = cap') then 1 else 0)).
    { intros cap'. unfold balance, pending. cbn. rewrite dget_dset. destruct (decide (cap = cap')) as [<-|]; [rewrite E; cbn|]; lia. }
    destruct (dirty_flush_spec c1 Hc1) as (Hd2 & Hb2 & Hn2 & Hor). set (c2 := _maybe_dirty_flush c1) in *. cbn [negb].
    destruct (start_timer_spec c2) as (S1 & S2 & S3).
    assert (Hgo : forall c3, _suppressed c3 = _suppressed c2 -> records c3 = records c2 ->
      (forall cap', 0 < _flush_interval -> has_loop = true -> 0 < pending cap' c3 -> _timer_task c3 = true) ->
      ok c3 /\ forall cap', balance cap' c3 = balance cap' c + (if decide (cap = cap') then 1 else 0)).
    { intros c3 E1 E2 E3. split; [constructor; rewrite ?E1; done|]. intros cap'. rewrite <- Hb1, <- Hb2. unfold balance, pending. by rewrite E1, E2. }
    destruct ((0 <? default 0 (dget (_suppressed c2) cap)) && (n =? 0)) eqn:Ecase; apply Hgo; try done.
    + intros cap' H1 H2 _. destruct S3 as [?|[?|?]]; [done|lia|congruence].
    + intros cap' H1 H2 Hpos. destruct Hor as [Hsame|Hz]; [|rewrite Hz in Hpos; lia]. rewrite Hsame in *.
      apply andb_false_iff in Ecase as [Ecase|Ecase].
      * cbn in Ecase. rewrite dget_dset_eq in Ecase. cbn in Ecase. destruct (Hn cap n E). lia.
      * apply (Ht cap); [done|done|]. unfold pending. rewrite E. cbn. destruct (Hn cap n E). lia.
  - cbn [negb]. rewrite Henabled. cbn [negb].
    assert (Hp : forall cap', pending cap' (set_suppressed (dset (_suppressed c) cap 0) c) = pending cap' c).
    { intros cap'. unfold pending. cbn. rewrite dget_dset. case_decide as Hc; [subst; by rewrite E|done]. }
    split; [constructor|].
    + by apply dset_ok.
    + intros k m. cbn. rewrite dget_dset. case_decide; [|apply Hn]. intros [= <-]. lia.
    + intros cap' H1 H2 H3. eapply Ht; [done|done|]. by rewrite <- (Hp cap').
    + intros cap'. unfold balance. change (pending cap' (emit _ _)) with (pending cap' (set_suppressed (dset (_suppressed c) cap 0) c)). rewrite Hp.
      cbn [records emit set_suppressed]. rewrite accounted_app. cbn [accounted told]. lia.
Qed.

Lemma flush_spec c : counting c -> ok (flush c) /\ forall cap, balance cap (flush c) = balance cap c /\ pending cap (flush c) = 0.
Proof.
  intros Hc. destruct (summarised c Hc) as (_ & _ & Hb & _). pose proof Hc as [Hd Hn].
  assert (Hrec : records (flush c) = records (reset_counts (_emit_summary_records c))) by (unfold flush, _emit_summary_records; by destruct (negb enabled)).
  assert (Hs : _suppressed (flush c) = []) by done. split.
  - constructor; [by rewrite Hs; apply NoDup_nil_2|by rewrite Hs|]. intros cap _ _. unfold pending. rewrite Hs. cbn. lia.
  - intros cap. split; [|by unfold pending; rewrite Hs]. rewrite <- Hb. unfold balance. rewrite Hrec. f_equal.
    destruct (summarised c Hc) as (_ & Hp & _). rewrite Hp. unfold pending. by rewrite Hs.
Qed.

Lemma event_ok e c : ok c -> ok (happen e c) /\ forall cap, balance cap (happen e c) = balance cap c + hits cap [e].
Proof.
  intros Hok. pose proof Hok as [Hd Hn Ht]. assert (Hc : counting c) by (split; [done|intros k n Hk; by apply (Hn k)]).
  destruct e as [cap r l| |]; cbn [happen hits].
  - destruct (hit_ok cap r l c Hok) as [H1 H2]. split; [done|]. intros cap'. rewrite H2. lia.
  - destruct (_timer_task c); [|split; [done|intros; lia]]. unfold _timer_run. destruct (existsb _ _) eqn:Ex.
    + destruct (summarised c Hc) as ([Hd' Hn'] & Hp & Hb & _). set (c' := reset_counts _) in *. split.
      * constructor; [done| |]; cbn [set_timer _suppressed].
        -- intros k n Hk. split; [by eapply Hn'|]. intros ?. specialize (Hp k). unfold pending in Hp. rewrite Hk in Hp. cbn in Hp. lia.
        -- intros cap _ _ Hpos. specialize (Hp cap). change (pending cap (set_timer false c')) with (pending cap c') in Hpos. lia.
      * intros cap. rewrite <- Hb. change (balance cap (set_timer false c')) with (balance cap c'). lia.
    + split; [constructor; [done|done|]|intros cap; change (balance cap (set_timer false c)) with (balance cap c); lia].
      intros cap _ _ Hpos. exfalso. apply not_true_iff_false in Ex. apply Ex. apply existsb_exists.
      change (pending cap (set_timer false c)) with (pending cap c) in Hpos. unfold pending in Hpos. destruct (dget (_suppressed c) cap) as [n|] eqn:E; [|cbn in Hpos; lia].
      exists n. split; [|cbn in Hpos; lia]. apply list_elem_of_In. apply dget_elem in E. by apply (list_elem_of_fmap_2 snd) in E.
  - destruct (flush_spec c Hc) as [H1 H2]. split; [done|]. intros cap. destruct (H2 cap) as [-> _]. lia.
Qed.

(** C37: no exceeded limit goes untold.  After any sequence of hits, timer ends
    and flushes, for every cap: the hits are the full records plus what the
    summaries say plus what is pending; with a threshold fewer than it are
    pending, and with an interval the timer is running whenever any is; and
    after the flush at the end of the connection nothing is. *)
Theorem hits_accounted es cap :
  let c := run es __init__ in
  hits cap es = accounted cap (records c) + pending cap c /\
  (0 < _flush_threshold -> pending cap c < _flush_threshold) /\
  (0 < _flush_interval -> has_loop = true -> 0 < pending cap c -> _timer_task c = true) /\
  hits cap es = accounted cap (records (flush c)).
Proof.
  assert (H : ok (run es __init__) /\ hits cap es = balance cap (run es __init__)).
  { induction es as [|e es [IH1 IH2]] using rev_ind.
    - split; [|done]. constructor; [by apply NoDup_nil_2|by intros|]. intros k _ _. unfold pending. cbn. lia.
    - unfold run in *. rewrite foldl_snoc. destruct (event_ok e _ IH1) as [H1 H2]. split; [done|]. rewrite H2, hits_app, IH2. done. }
  cbv zeta. destruct H as [Hok ->]. set (c := run es __init__) in *. pose proof Hok as [Hd Hn Ht]. split; [done|]. split.
  - intros Hpos. unfold pending. destruct (dget (_suppressed c) cap) as [n|] eqn:E; [by apply (Hn cap n E)|done].
  - split; [by apply Ht|]. destruct (flush_spec c) as [_ H]; [split; [done|intros k n Hk; by apply (Hn k)]|]. destruct (H cap) as [H1 H2].
    unfold balance in *. lia.
Qed.

End Counter.

(** Two hits are logged at once, and a summary after each hundred more. *)
Definition sample_events : list event := replicate 101 (Hits (lit "header_timeout") 10 10) ++ [Hits (lit "ws_frame") 5 4; TimerFires].

Lemma hits_accounted_witness :
  let c := run 100 60 true true sample_events __init__ in
  hits (lit "header_timeout") sample_events = accounted (lit "header_timeout") (records c) + pending (lit "header_timeout") c /\
  (0 < 100 -> pending (lit "header_timeout") c < 100) /\
  (0 < 60 -> true = true -> 0 < pending (lit "header_timeout") c -> _timer_task c = true) /\
  hits (lit "header_timeout") sample_events = accounted (lit "header_timeout") (records (flush true c)).
Proof. apply (hits_accounted 100 60 true true). reflexivity. Defined.

Example sample_records : records (run 100 60 true true sample_events __init__) =
  [Hit (lit "header_timeout") 10 10; Summary (lit "header_timeout") 100; Hit (lit "ws_frame") 5 4].
Proof. vm_compute. reflexivity. Qed.

End CapLog.
